(* ===== verification/_CoqProject ===== *)
-Q . S2P
Prelude.v
Text.v
BTree.v
F64.v
Clock.v
Types.v
Storage.v
E2ee.v
E2eeTheory.v
SharedMemory.v
SharedMemoryTheory.v
Oplog.v
PagePlanning.v
SegmentIndex.v
Workspaces.v
ResourceManager.v
StorageManager.v
ReplicationPlanner.v
WorkspaceEngine.v
EncryptedStorage.v
Sql.v
SqliteStorage.v
SqliteStorageTheory.v
Coordinator.v
CoordinatorTheory.v
Subscribe.v
Failover.v
Migration.v
Retry.v
SyncStateStore.v
Connection.v
Upload.v
UploadTheory.v
CrdtValue.v
Schema.v
Document.v
OpSet.v
DocumentTheory.v
SnapshotStore.v
SqlCoordinator.v
SqlCoordinatorTheory.v
RedisCoordinator.v
RedisCoordinatorTheory.v
Opfs.v
PageStore.v
OpfsStorage.v
PageWire.v
PageStoreTheory.v
OpfsStorageTheory.v
OpfsLogTheory.v
OpfsMetadata.v
LeaderElection.v
LeaderTheory.v
SubscriptionEngine.v
Compaction.v
Recovery.v
Materialization.v
Reconciler.v
ReconcilerTheory.v
Download.v
DownloadTheory.v
Client.v
ClientTheory.v
CompactionTheory.v
Replication.v
Json.v
WsProto.v
TokenStore.v
Server.v
WsSession.v
HttpCoordinator.v
HttpServer.v
MuxCoordinator.v
NetSample.v
ServerTheory.v
WsTheory.v
HttpTheory.v
WsClientTheory.v
WsHandshake.v
MuxTheory.v
