(* ===== verification/Prelude.v ===== *)
(** * VaultSync: a verification library for the synchronization core

    VaultSync is a local-first store.  Each client keeps records as CRDT
    documents in a local storage, logs its writes, encrypts them and pushes
    them to a coordinator; the coordinator puts the mutations of a namespace in
    one order, and the other clients pull them, decrypt them and merge them
    into their documents.  Paths below are relative to
    [src/crates/vaultsync-core/src/].

    ** The parts and the files that model them

    - [Prelude], [Text], [BTree], [F64]: the state-and-error monad [SM], locks
      with poisoning, machine integers, byte encodings, texts and their UTF-8,
      ordered maps, binary64 numbers, and rules to prove that an operation
      succeeds, or keeps an invariant whatever its outcome.  [Types]: the data of
      [error.rs], [oplog/entry.rs], [coordinator/traits.rs], [sync/state.rs],
      [storage/traits.rs].
    - [Clock] is [clock.rs], sequentially and at the grain of its atomic
      accesses.
    - [Storage] is the trait of [storage/traits.rs] (class [Storage]), what its
      clients rely on ([StorageSpec]: an abstract store that the operations
      refine) and [storage/memory.rs], which is shown to implement it.  [Oplog]
      is [oplog/log.rs] and [oplog/cleanup.rs].
    - [E2ee] is [e2ee/]; [E2eeTheory] its theorems.
    - [Coordinator], [CoordinatorTheory] and [Subscribe] are
      [coordinator/traits.rs] and [coordinator/memory.rs], with the interface
      [CoordinatorSpec] (an abstract log per namespace); [Failover] and
      [Migration] are [coordinator/failover.rs] and
      [coordinator/migration.rs].
    - [Sql] is what the code uses of an SQL connection: statements that run or
      fail, transactions that roll back, signed columns.  Over it, [SqlCoordinator]
      ([SqlCoordinatorTheory]) is the pair of
      coordinators in [vaultsync-coordinator-sqlite] and
      [vaultsync-coordinator-postgres], and [SqliteStorage]
      ([SqliteStorageTheory]) is [storage/sqlite.rs].  [RedisCoordinator]
      ([RedisCoordinatorTheory]) is [vaultsync-coordinator-redis] over the
      commands it sends (classes [Redis] and [RedisSpec]).
    - The browser storage, in [vaultsync-wasm/src/]: [Opfs] is what it uses of
      the browser's file system and of [postcard] (classes [Opfs] and
      [Postcard] with their laws, a directory with scheduled failures and a wire
      format); [PageWire] is a codec that satisfies the laws.  [PageStore]
      ([PageStoreTheory]) is [page_store.rs]; [OpfsStorage] is [storage.rs] with
      [version_chain.rs], [transaction.rs], [storage_runtime.rs],
      [storage_scheduler.rs], [metadata_store.rs], [metadata_runtime.rs] and the
      pages of [migration.rs].  Its theorems are in [OpfsStorageTheory]
      (documents, invariants, what is lost), [OpfsLogTheory] (the log) and
      [OpfsMetadata].
    - [Retry], [SyncStateStore], [Connection]: [sync/retry.rs],
      [sync/sync_state_store.rs] with [sync/state_manager.rs], and
      [connection_manager.rs].
    - [Upload], [UploadTheory]: [sync/upload.rs].
    - [CrdtValue], [Document], [DocumentTheory]: [crdt/types.rs],
      [crdt/document.rs], [crdt/merge.rs], [crdt/compaction.rs],
      [crdt/snapshot.rs], over the interface [Yrs] of the CRDT library with its
      laws [YrsSpec]; [OpSet] is a small CRDT that satisfies them and on which
      the witnesses run.
    - [Schema]: [schema/].  [SubscriptionEngine]: [subscription/].
    - [Reconciler], [ReconcilerTheory]: [sync/reconciler.rs].  [Download],
      [DownloadTheory]: [sync/download.rs] and the worker loop of [client.rs].
    - [SharedMemory], [SharedMemoryTheory]: [ipc/shared_memory.rs], the ring of
      recent writes, byte by byte.  [Recovery]: [ipc/crash_recovery.rs].
    - [Materialization]: [materialization/].  [Compaction],
      [CompactionTheory]: [sync/compaction.rs].  [SnapshotStore]:
      [crdt/segment_snapshot.rs] and [crdt/snapshot_store.rs].
    - The storage engine: [PagePlanning] ([storage/planner.rs],
      [storage/scheduler.rs]), [SegmentIndex] ([storage/document_store.rs],
      [storage/metadata_index.rs]), [ResourceManager] ([storage/scoring.rs],
      [storage/resource_manager.rs]), [StorageManager] ([storage/manager.rs],
      [storage/lifecycle.rs], [storage/compaction.rs]), [WorkspaceEngine]
      ([storage/workspace_engine.rs]) and [EncryptedStorage]
      ([storage/encryption_shim.rs]), which is a storage over a storage.
    - [Workspaces]: [workspace/] and [working_set/].  [ReplicationPlanner]:
      [replication/].
    - [Client], [ClientTheory]: [client.rs].  The client's state holds each
      shared object once; the queues and the reconciler are views of it
      ([upload_view], [download_view]), so an operation of a queue is an
      operation of the client.
    - [Replication]: two clients and a coordinator together.
    - The network.  [Json] is what the code uses of [serde_json]: values, codecs
      for structs, and text (class [JsonText], with the law that reading undoes
      writing).  [WsProto] is [coordinator/ws_proto.rs].  The server is
      [vaultsync-coordinator-server/src/]: [TokenStore] ([token_store.rs], three
      stores behind one interface), [Server] ([config.rs], [state.rs],
      [routes.rs] and the router of [lib.rs]) and [WsSession] ([ws.rs] and
      [ws_mux.rs], as steps over the messages a session receives; the channels
      of all sessions and the tasks that forward subscriptions are the state
      [world]).  [HttpCoordinator] is the client, [coordinator/http.rs], over an
      interface [Link] of network operations, and [HttpServer] implements [Link]
      with the modelled server, so that client and server run together.
      A second part of [HttpCoordinator] is the client of the crate [vaultsync-coordinator-http],
      which shares the HTTP calls and the stream of events, and serves over its
      WebSocket only the calls of the socket's namespace.
      [MuxCoordinator] is [coordinator/mux_coordinator.rs], the client of several
      namespaces over one WebSocket, with such a network too.  [NetSample] holds
      instances to compute with; the theorems are in [ServerTheory], [WsTheory],
      [HttpTheory], [WsClientTheory], [WsHandshake] and [MuxTheory].
    - [LeaderElection] ([LeaderTheory]): [ipc/leader_election.rs], the Unix build
      over a class of lock files and the browser build over a class of Web Locks,
      with the script and the callbacks that the browser runs between the calls;
      [runtime_bus.rs] and [runtime_state.rs].

    ** How code is translated

    A method is a function in [SM S E], from a state to a result and a state:
    [?] is the bind, [let _ =] and [if let Ok] are [try_fault] or [sm_try], and a
    panic ([unwrap], an index out of range, a poisoned mutex) is the value
    [Panicked], which nothing catches.  Unsigned integers are [N] with their
    wrap-around written out, lengths [nat], bytes lists of [N], [HashMap] and
    [HashSet] [gmap] and [gset].  Readings of clocks, random draws and fresh ids
    are arguments.  Libraries (Yrs, the ciphers, bincode, crc32, JSON, SHA-256
    in hexadecimal) are parameters, with the documented laws the code relies on
    as classes; every class has an instance with which the witnesses compute.
    Logs, metrics and tracing are left out.  On the network, a client and its
    reader task take turns: while a call awaits a reply the task handles what
    has arrived, and a call that nothing will wake ends with [Hangs].  Maps that
    the code iterates in an arbitrary order are gone through as [map_to_list]
    lists them.

    ** What the theorems show

    - Replication: an inserted record reaches another client with its fields
      ([insert_reaches_replica]); the log, upload, pull and merge steps of the
      path are [push_refines_log], [upload_delivers_batch],
      [download_catches_up], [push_pull_converge], [merge_batch_converges];
      inserting over an existing record makes replicas differ
      ([insert_over_existing_diverges]).
    - Client: read your writes ([insert_then_get], [update_then_get],
      [delete_hides_record]), compaction that readers cannot notice
      ([compaction_invisible]), replay of pending writes at start
      ([materialize_replays], [pending_delete_stays_hidden]).
    - Coordinator: reachable states, idempotent retries, complete paging, exact
      compaction, complete subscriptions, migration and failover.
    - Back ends: pushes to the SQLite coordinator are atomic and append to one
      ordered log ([sqlite_push_refines_log]), are pulled back as they were
      ([sqlite_push_then_pull], [redis_push_then_pull]) and never share a
      sequence ([sqlite_sequences_never_reused]); subscribers get them in order
      ([sqlite_subscription_ordered], [postgres_fetch_complete]); the SQLite
      storage implements the abstract store of [StorageSpec]
      ([sqlite_storage_refines_store], [sqlite_logged_write_atomic]).
    - Browser storage: a page store is a map from numbers to pages, through its
      cache, files and manifest and over restarts ([page_store_refines_pages],
      [page_cache_faithful]); in the first session of a database the documents
      are a map and the log is a map with an exact counter ([browser_documents_refine_map],
      [browser_log_refines_map], [browser_pending_count_exact]); metadata reads
      back ([metadata_write_then_read]); the index stays consistent whatever
      fails ([engine_invariants_hold]).  A restart, a compaction, a cleanup and a
      rebuild lose data ([restart_overwrites_document],
      [compaction_hides_marks], [compaction_removes_nothing],
      [cleanup_loses_metadata], [metadata_crash_loses_value],
      [rebuilt_store_overwrites_last_page]).
    - Upload and download: a failed or interrupted upload loses nothing and
      duplicates nothing; each mutation is merged once while it is remembered.
    - Ring: no content of the shared memory makes a reader or writer panic
      ([shared_memory_never_panics]), and what is written is read back
      ([ring_write]).
    - Keys, schemas, clock, retries, subscriptions: the invariant of the key
      ring, the round trip of the encryption, migrations run exactly once, time
      stamps after every one seen (of one thread), bounded retries, and notifications exactly
      to live subscriptions.
    - Storage engine: encryption that keeps the contract of the storage below
      ([encrypted_storage_refines]); clean-up of exactly the expired tombstones
      ([run_lifecycle_exact]), which may by then be live records
      ([lifecycle_deletes_live_records]); tiers and evictions that follow the
      scores ([sweep_retiers], [eviction_just_enough]); segments that hold each
      document once ([segments_hold_documents]); actions that respect their
      cooldown ([schedule_throttles]); prefetching and replication plans that
      take the best that fits ([prefetch_optimal], [plan_most_urgent]).
    - Network: a client over HTTP with the server behind it implements the same
      log as a coordinator in the same process ([http_coordinator_refines_log]);
      the handshake of a WebSocket completes and leaves both sides in step
      ([handshake_completes]); a subscriber gets the mutations of the stream, all
      but those of the replica its session is registered as, which is not the
      one the client writes as, so its own too ([subscriber_receives]); once it
      drops its stream, the next mutation ends the reader task
      ([mutation_after_drop_ends_reader]); how events are cut into chunks makes no
      difference ([sse_chunks_irrelevant]); frames are self-delimiting
      ([decode_frame_exact]).  Over a multiplexed WebSocket the calls of all
      namespaces are those of their logs ([mux_coordinator_refines_logs]), each
      subscriber gets the mutations of its namespace ([mux_demultiplexes],
      [mux_subscription_opens]), and a lost connection resumes every namespace
      ([mux_reconnect_resumes]); an empty push never returns
      ([mux_empty_push_hangs]).
    - Access: without the token of a namespace a request changes nothing and is
      refused, the upgrade to a WebSocket apart ([unauthorized_request_refused]);
      a session without it does not get past its first message
      ([ws_session_needs_token]), and tokens are issued to the
      administrator only ([tokens_set_only_by_admin]); the multiplexed sessions
      ask for no token ([mux_session_needs_no_token]), a session that ends late
      removes its successor ([stale_session_drops_reconnected]), and calls over
      a WebSocket go to its namespace whatever they name
      ([websocket_calls_use_its_namespace]), but not those of the client of the
      crate ([crate_calls_keep_namespaces]).
    - Leadership: in a browser at most one election leads under every
      interleaving of calls and callbacks ([web_single_leader]), and the first
      that waits takes over when the leader drops its lease ([web_handover]); on
      Unix leases are exclusive ([native_lease_exclusive]), but the flag is not
      ([native_try_acquire_keeps_no_lock]), and a leader in a browser that asks
      again loses its flag ([web_second_acquire_demotes]).
    - Several theorems state what the code does where it falls short of its
      intention: [ring_write_unread], [recovery_replays_ring],
      [compaction_starves_snapshots], [prune_removes_active_key],
      [push_loses_deletions], [push_gap_never_filled],
      [undecryptable_blocks_download], [upload_cursor_skips_remote],
      [redis_interrupted_push_loses_mutation],
      [sqlite_large_timestamp_blocks_pull] and others beside them.

    ** Bounds and fuel

    The loops of the ring are bounded by the source itself at 10000 turns
    ([LOOP_LIMIT]).  The worker loops ([drain], [upload_drain]) and the paging
    loop take a number of rounds and say when it did not suffice; the theorems
    about them give a number that does (one more than the mutations above the
    cursor).  The decoder of UTF-8 takes the length of its input.  Sizes are
    those of the source: 100 MiB for a snapshot, the configured maximum for a
    document, 10000 and 50000 entries for a read of the log, 16 MB for a page.
    The theorems about the browser storage ask that pages fit and that the page
    numbers of a session stay below 2^64.  A frame carries the length of its
    payload in 32 bits, so the theorems about sessions ask for payloads below
    4 GiB, and those about requests for bodies within the 2 MiB that the web
    framework accepts.  The loop that reads the snapshots of a handshake takes
    one more turn than there are snapshots.  The network between client and
    server is ideal: a message that was sent is there when the other side reads,
    and the channel to a subscriber, of 1,024 mutations, is never full.

    ** Not modelled

    The locks of the Windows build, transports, the Cloudflare worker, the start
    of the server, the IndexedDB storage, the tasks of the browser client and the
    buses between them, telemetry, the bindings and the command line.  They are
    input and output over third-party stacks, or parts on which the
    synchronization path does not depend. *)
From Stdlib Require Export NArith ZArith Lia.
From stdpp Require Export sorting.
From stdpp Require Export base numbers list gmap strings.

#[global] Set Default Goal Selector "!".

(** ** Machine integers

    Unsigned Rust integers are [N]; [usize] values that are lengths or list
    indices are [nat].  Arithmetic that the source performs with
    [wrapping_add], [fetch_add] or a plain [+] of a release build wraps at the
    type's width, and is written so. *)

Definition U64_MAX : N := 18446744073709551615.
Definition U32_MAX : N := 4294967295.
Definition wrapping_add64 (a b : N) : N := ((a + b) mod 18446744073709551616)%N.
Definition wrapping_add32 (a b : N) : N := ((a + b) mod 4294967296)%N.

Definition wrapping_mul64 (a b : N) : N := ((a * b) mod 18446744073709551616)%N.

(** [saturating_sub] on unsigned integers is truncated subtraction. *)
Definition saturating_sub (a b : N) : N := (a - b)%N.
Definition saturating_add32 (a b : N) : N := N.min (a + b) U32_MAX.

Lemma wrapping_add64_small a b : (a + b ≤ U64_MAX)%N → wrapping_add64 a b = (a + b)%N.
Proof. unfold wrapping_add64, U64_MAX. intros. apply N.mod_small. lia. Qed.

Lemma wrapping_add32_small a b : (a + b ≤ U32_MAX)%N → wrapping_add32 a b = (a + b)%N.
Proof. unfold wrapping_add32, U32_MAX. intros. apply N.mod_small. lia. Qed.

Lemma wrapping_add32_bound a b : (wrapping_add32 a b ≤ U32_MAX)%N.
Proof.
  unfold wrapping_add32, U32_MAX.
  pose proof (N.mod_upper_bound (a + b) 4294967296). lia.
Qed.

(** ** Bytes and little-endian encodings

    A byte string is a list of numbers below 256. *)

Abbreviation bytes := (list N).

Definition is_byte (b : N) : Prop := (b < 256)%N.
Definition is_bytes (bs : bytes) : Prop := Forall is_byte bs.

Fixpoint le_encode (n : nat) (x : N) : bytes :=
  match n with
  | O => []
  | S n' => (x mod 256)%N :: le_encode n' (x / 256)%N
  end.

Fixpoint le_decode (bs : bytes) : N :=
  match bs with
  | [] => 0%N
  | b :: bs' => (b + 256 * le_decode bs')%N
  end.

(** [u64::to_le_bytes] and [u64::from_le_bytes]. *)
Definition u64_to_le_bytes (x : N) : bytes := le_encode 8 x.
Definition u64_from_le_bytes (bs : bytes) : N := le_decode bs.
Definition u32_to_le_bytes (x : N) : bytes := le_encode 4 x.

(** [str::as_bytes]: a Rocq string holds the bytes of its UTF-8 text. *)
Definition utf8 (s : string) : bytes := map Ascii.N_of_ascii (String.list_ascii_of_string s).

Lemma length_le_encode n x : length (le_encode n x) = n.
Proof. revert x. induction n; intros x; simpl; [done|by rewrite IHn]. Qed.

Lemma le_decode_encode n x : (x < 256 ^ N.of_nat n)%N → le_decode (le_encode n x) = x.
Proof.
  revert x. induction n as [|n IH]; intros x Hx.
  { change (256 ^ N.of_nat 0)%N with 1%N in Hx. simpl. lia. }
  rewrite Nat2N.inj_succ, N.pow_succ_r' in Hx.
  cbn [le_encode le_decode].
  rewrite IH by (apply N.Div0.div_lt_upper_bound; lia).
  pose proof (N.div_mod x 256). lia.
Qed.

Lemma u64_le_bytes_round_trip x : (x ≤ U64_MAX)%N →
  u64_from_le_bytes (u64_to_le_bytes x) = x.
Proof.
  intros Hx. apply le_decode_encode.
  change (256 ^ N.of_nat 8)%N with 18446744073709551616%N. unfold U64_MAX in Hx. lia.
Qed.

Lemma le_encode_is_bytes n x : is_bytes (le_encode n x).
Proof.
  revert x. induction n as [|n IH]; intros x; [constructor|].
  constructor; [|apply IH]. apply N.mod_upper_bound. lia.
Qed.

(** ** Results and the state-and-error monad

    A Rust operation that returns [Result<A, E>] and mutates [self] is a
    function of the state: the state it leaves is kept on the error path
    too, as in the source. *)

Inductive result (A E : Type) : Type :=
  | Ok (a : A)
  | Err (e : E).
Arguments Ok {A E} a.
Arguments Err {A E} e.

#[global] Instance result_eq_dec {A E} `{EqDecision A, EqDecision E} :
  EqDecision (result A E).
Proof. solve_decision. Defined.

Definition is_ok {A E} (r : result A E) : bool :=
  match r with Ok _ => true | Err _ => false end.

Definition SM (S E A : Type) : Type := S → result A E * S.

#[global] Instance sm_ret {S E} : MRet (SM S E) := λ A a s, (Ok a, s).

#[global] Instance sm_bind {S E} : MBind (SM S E) := λ A B f m s,
  match m s with
  | (Ok a, s') => f a s'
  | (Err e, s') => (Err e, s')
  end.

Section sm_ops.
Context {S E : Type}.

Definition sm_fail {A} (e : E) : SM S E A := λ s, (Err e, s).
Definition sm_get : SM S E S := λ s, (Ok s, s).
Definition sm_put (s : S) : SM S E unit := λ _, (Ok tt, s).
Definition sm_modify (f : S → S) : SM S E unit := λ s, (Ok tt, f s).
Definition sm_gets {A} (f : S → A) : SM S E A := λ s, (Ok (f s), s).

(** [match m.await { .. }]: the outcome as a value. *)
Definition sm_try {E' A} (m : SM S E A) : SM S E' (result A E) := λ s,
  let '(r, s') := m s in (Ok r, s').

(** [m.map_err(f)]. *)
Definition sm_map_err {E' A} (f : E → E') (m : SM S E A) : SM S E' A := λ s,
  match m s with
  | (Ok a, s') => (Ok a, s')
  | (Err e, s') => (Err (f e), s')
  end.

(** A [for] loop whose body may fail with [?]. *)
Fixpoint for_each {A} (f : A → SM S E unit) (l : list A) : SM S E unit :=
  match l with
  | [] => mret tt
  | a :: l' => f a ≫= λ _, for_each f l'
  end.

(** A loop that collects the values its body returns. *)
Fixpoint map_each {A B} (f : A → SM S E B) (l : list A) : SM S E (list B) :=
  match l with
  | [] => mret []
  | a :: l' => b ← f a; bs ← map_each f l'; mret (b :: bs)
  end.
End sm_ops.

(** An operation of a component, run in a larger state that contains it. *)
Definition zoom {T S E A} (get : T → S) (set : S → T → T) (m : SM S E A) : SM T E A :=
  λ t, let '(r, s') := m (get t) in (r, set s' t).

Ltac sm_unfold :=
  unfold mret, mbind, sm_ret, sm_bind, sm_fail, sm_get, sm_put, sm_modify, sm_gets,
    sm_try, sm_map_err, zoom in *.
Ltac sm_simpl := sm_unfold; simpl in *.

(** Case analysis on the scrutinee of a match in the goal or a hypothesis,
    keeping the equation. *)
Ltac case_on t := let H := fresh "E" in destruct t eqn:H; simpl in *.

Section sm_lemmas.
Context {S E : Type}.

Lemma sm_bind_ok {A B} (m : SM S E A) (f : A → SM S E B) s a s' :
  m s = (Ok a, s') → (m ≫= f) s = f a s'.
Proof. intros H. unfold mbind, sm_bind. by rewrite H. Qed.

Lemma sm_bind_err {A B} (m : SM S E A) (f : A → SM S E B) s e s' :
  m s = (Err e, s') → (m ≫= f) s = (Err e, s').
Proof. intros H. unfold mbind, sm_bind. by rewrite H. Qed.

Lemma sm_bind_ok_inv {A B} (m : SM S E A) (f : A → SM S E B) s b s' :
  (m ≫= f) s = (Ok b, s') → ∃ a s1, m s = (Ok a, s1) ∧ f a s1 = (Ok b, s').
Proof.
  unfold mbind, sm_bind. destruct (m s) as [[a|e] s1] eqn:Hm; [eauto|done].
Qed.

(** A loop preserves what each turn of its body preserves, whether it runs to
    its end or leaves with an error. *)
Lemma for_each_inv {A} (f : A → SM S E unit) (l : list A) (I : S → Prop) s r s' :
  I s →
  (∀ a s0 r0 s1, a ∈ l → I s0 → f a s0 = (r0, s1) → I s1) →
  for_each f l s = (r, s') → I s'.
Proof.
  revert s. induction l as [|a l IH]; intros s HI Hf.
  { by intros [= <- <-]. }
  cbn [for_each]. unfold mbind, sm_bind.
  destruct (f a s) as [[[]|e] s1] eqn:Hfa.
  - apply IH; [by eapply Hf; [left| |]|].
    intros a' s0 r0 s2 Ha. apply (Hf a'). by right.
  - intros [= <- <-]. by eapply Hf; [left| |].
Qed.
End sm_lemmas.

(** ** Reader-writer locks

    A [std::sync::RwLock]: a value and the poison flag that a panicking
    holder leaves behind, on which [read] and [write] fail. *)

Record rwlock (A : Type) := RwLock { rw_val : A; rw_poisoned : bool }.
Arguments RwLock {A} _ _.
Arguments rw_val {A} _.
Arguments rw_poisoned {A} _.

Definition rw_new {A} (a : A) : rwlock A := RwLock a false.
Definition rw_set {A} (a : A) (l : rwlock A) : rwlock A := RwLock a (rw_poisoned l).
Definition rw_update {A} (f : A → A) (l : rwlock A) : rwlock A := rw_set (f (rw_val l)) l.

(** The guard of [lock.read().map_err(..)?] and [lock.write().map_err(..)?]. *)
Definition rw_lock {S E A} (err : E) (get : S → rwlock A) : SM S E A := λ s,
  if rw_poisoned (get s) then (Err err, s) else (Ok (rw_val (get s)), s).

(** [if let Ok(mut guard) = lock.write()] and [lock.read().ok()]. *)
Definition rw_try_update {A} (f : A → A) (l : rwlock A) : rwlock A :=
  if rw_poisoned l then l else rw_update f l.
Definition rw_ok {A} (l : rwlock A) : option A := if rw_poisoned l then None else Some (rw_val l).

(** ** Lists *)


(** Loops over a vector that keep, count or change the entries that satisfy a
    test. *)
Definition map_if {A} (p : A → bool) (f : A → A) (l : list A) : list A :=
  map (λ a, if p a then f a else a) l.

(** The first entry that satisfies the test is changed and the loop stops. *)
Fixpoint update_first {A} (p : A → bool) (f : A → A) (l : list A) : list A :=
  match l with
  | [] => []
  | a :: l' => if p a then f a :: l' else a :: update_first p f l'
  end.

Definition filterb {A} (p : A → bool) (l : list A) : list A := List.filter p l.

Lemma elem_of_filterb {A} (p : A → bool) (l : list A) a :
  a ∈ filterb p l ↔ p a = true ∧ a ∈ l.
Proof.
  unfold filterb. rewrite !list_elem_of_In, filter_In. tauto.
Qed.

Lemma length_map_if {A} p (f : A → A) l : length (map_if p f l) = length l.
Proof. apply length_map. Qed.

Lemma elem_of_map_if {A} p (f : A → A) l b :
  b ∈ map_if p f l ↔ ∃ a, a ∈ l ∧ b = if p a then f a else a.
Proof.
  unfold map_if. rewrite list_elem_of_In, in_map_iff.
  setoid_rewrite list_elem_of_In. naive_solver.
Qed.

Lemma filterb_split_length {A} (p : A → bool) (l : list A) :
  length (filterb p l) + length (filterb (λ a, negb (p a)) l) = length l.
Proof.
  unfold filterb. induction l as [|a l IH]; simpl; [done|].
  destruct (p a); simpl; lia.
Qed.

#[export] Instance filterb_Permutation {A} (p : A → bool) : Proper (Permutation ==> Permutation) (filterb p).
Proof.
  unfold filterb. induction 1 as [|a l k H IH|a b l|l k m H1 IH1 H2 IH2]; simpl; [done|..].
  - destruct (p a); by rewrite IH.
  - destruct (p a), (p b); try done. apply perm_swap.
  - by rewrite IH1.
Qed.

Lemma filterb_app {A} (p : A → bool) (l k : list A) :
  filterb p (l ++ k) = filterb p l ++ filterb p k.
Proof. apply List.filter_app. Qed.

Lemma filterb_all {A} (p : A → bool) (l : list A) :
  (∀ a, a ∈ l → p a = true) → filterb p l = l.
Proof.
  unfold filterb. induction l as [|a l IH]; intros Hp; simpl; [done|].
  rewrite (Hp a) by left. f_equal. apply IH. intros b Hb. apply Hp. by right.
Qed.

Lemma filterb_none {A} (p : A → bool) (l : list A) :
  (∀ a, a ∈ l → p a = false) → filterb p l = [].
Proof.
  unfold filterb. induction l as [|a l IH]; intros Hp; simpl; [done|].
  rewrite (Hp a) by left. apply IH. intros b Hb. apply Hp. by right.
Qed.

Lemma filterb_ext {A} (p q : A → bool) (l : list A) :
  (∀ a, a ∈ l → p a = q a) → filterb p l = filterb q l.
Proof.
  unfold filterb. induction l as [|a l IH]; intros Hpq; simpl; [done|].
  rewrite (Hpq a), IH by (try left; intros; apply Hpq; by right). done.
Qed.

Lemma filterb_filterb {A} (p q : A → bool) (l : list A) :
  filterb p (filterb q l) = filterb (λ a, q a && p a) l.
Proof.
  unfold filterb. induction l as [|a l IH]; simpl; [done|].
  destruct (q a); simpl; by rewrite IH.
Qed.

Lemma filterb_map {A B} (f : A → B) (q : B → bool) (l : list A) :
  filterb q (map f l) = map f (filterb (λ a, q (f a)) l).
Proof.
  unfold filterb. induction l as [|a l IH]; simpl; [done|].
  destruct (q (f a)); simpl; by rewrite IH.
Qed.

Lemma elem_of_take_mono {A} n (l : list A) x : x ∈ take n l → x ∈ l.
Proof. intros H. rewrite <-(take_drop n l). apply elem_of_app. by left. Qed.

Lemma sublist_filterb {A} (p : A → bool) (l : list A) : filterb p l `sublist_of` l.
Proof.
  induction l as [|a l IH]; simpl; [done|].
  unfold filterb in *. simpl. destruct (p a); by constructor.
Qed.

Lemma StronglySorted_sublist {A} (R : A → A → Prop) l l' :
  l' `sublist_of` l → StronglySorted R l → StronglySorted R l'.
Proof.
  induction 1 as [|x l1 l2 Hsub IH|x l1 l2 Hsub IH]; intros Hs; [constructor| |].
  - inversion Hs as [|?? Hs' Hall]; subst. constructor; [by apply IH|].
    apply Forall_forall. intros y Hy. apply (proj1 (Forall_forall _ _) Hall).
    by eapply elem_of_sublist.
  - inversion Hs; subst. by apply IH.
Qed.

Lemma StronglySorted_weaken {A} (R R' : A → A → Prop) l :
  (∀ a b, R a b → R' a b) → StronglySorted R l → StronglySorted R' l.
Proof.
  intros HR. induction 1 as [|x l Hs IH Hall]; constructor; [done|].
  eapply Forall_impl; [exact Hall|]. auto.
Qed.

(** ** Stable sorting

    [slice::sort_by] and [sort_by_key] keep elements that compare equal in the
    order they had; any stable sort gives the list insertion gives. *)

Section stable_sort.
Context {A : Type} (R : A → A → Prop) `{!RelDecision R}.

Fixpoint insert_sorted (x : A) (l : list A) : list A :=
  match l with
  | [] => [x]
  | y :: l' => if decide (R x y) then x :: l else y :: insert_sorted x l'
  end.

Definition stable_sort (l : list A) : list A := foldr insert_sorted [] l.

Lemma insert_sorted_Permutation x l : insert_sorted x l ≡ₚ x :: l.
Proof.
  induction l as [|y l IH]; simpl; [done|]. case_decide; [done|].
  rewrite IH. apply Permutation_swap.
Qed.

Lemma stable_sort_Permutation l : stable_sort l ≡ₚ l.
Proof. induction l as [|x l IH]; simpl; [done|]. by rewrite insert_sorted_Permutation, IH. Qed.

Context `{!Total R} `{!Transitive R}.

Lemma insert_sorted_sorted x l : StronglySorted R l → StronglySorted R (insert_sorted x l).
Proof.
  induction 1 as [|y l Hs IH Hall]; simpl; [repeat constructor|].
  case_decide as Hxy.
  - constructor; [by constructor|]. constructor; [done|].
    eapply Forall_impl; [exact Hall|]. intros z Hz. by trans y.
  - constructor; [done|]. rewrite insert_sorted_Permutation. constructor; [|done].
    by destruct (total R x y).
Qed.

Lemma stable_sort_sorted l : StronglySorted R (stable_sort l).
Proof. induction l; simpl; [constructor|]. by apply insert_sorted_sorted. Qed.

Lemma stable_sort_id l : StronglySorted R l → stable_sort l = l.
Proof.
  induction 1 as [|x l Hs IH Hall]; simpl; [done|]. rewrite IH.
  destruct Hall as [|y l Hxy Hall]; simpl; [done|]. by rewrite decide_True.
Qed.

(** The elements of a class of the order stay in their order. *)
Lemma insert_sorted_class (p : A → bool) x l : (∀ a b, p a = true → p b = true → R a b) →
  filterb p (insert_sorted x l) = filterb p (x :: l).
Proof.
  intros Hp. induction l as [|y l IH]; simpl; [done|]. case_decide as Hxy; [done|].
  simpl. rewrite IH. simpl. destruct (p x) eqn:Ex, (p y) eqn:Ey; try done.
  by destruct Hxy; apply Hp.
Qed.

Lemma stable_sort_class (p : A → bool) l : (∀ a b, p a = true → p b = true → R a b) →
  filterb p (stable_sort l) = filterb p l.
Proof.
  intros Hp. induction l as [|x l IH]; simpl; [done|].
  rewrite insert_sorted_class by done. simpl. by rewrite IH.
Qed.
End stable_sort.

(** ** Budgets

    Loops that take elements while the sum of their sizes, a [u64], stays
    within a budget. *)

Section budget.
Context {A : Type} (size : A → N).

Definition sum_of (l : list A) : N := foldr (λ a n, (size a + n)%N) 0%N l.

Fixpoint take_within (budget total : N) (l : list A) : list A :=
  match l with
  | [] => []
  | a :: l =>
      if (budget <? wrapping_add64 total (size a))%N then []
      else a :: take_within budget (wrapping_add64 total (size a)) l
  end.

Lemma sum_of_app l k : sum_of (l ++ k) = (sum_of l + sum_of k)%N.
Proof. induction l as [|c l IH]; simpl; [done|]. fold (sum_of (l ++ k)) (sum_of l). rewrite IH. lia. Qed.

#[export] Instance sum_of_proper : Proper ((≡ₚ) ==> (=)) sum_of.
Proof. induction 1; simpl; try fold (sum_of l) (sum_of l'); try fold (sum_of l); lia. Qed.

Lemma sum_of_take n l : (sum_of (take n l) ≤ sum_of l)%N.
Proof. rewrite <-(take_drop n l) at 2. rewrite sum_of_app. lia. Qed.

(** The loop takes a longest prefix that fits. *)
Lemma take_within_spec budget total l : (total + sum_of l ≤ U64_MAX)%N → (total ≤ budget)%N →
  ∃ n, take_within budget total l = take n l ∧ (n ≤ length l)%nat ∧ (total + sum_of (take n l) ≤ budget)%N ∧
    ((n < length l)%nat → (budget < total + sum_of (take (S n) l))%N).
Proof.
  revert total. induction l as [|c l IH]; simpl; intros total Hmax Hb.
  { exists 0%nat. simpl. split_and!; [done|lia|lia|lia]. }
  fold (sum_of l) in Hmax. rewrite wrapping_add64_small by lia.
  destruct (N.ltb_spec budget (total + size c)) as [Hlt|Hge].
  - exists 0%nat. simpl. split_and!; [done|lia|lia|]. intros _. lia.
  - destruct (IH (total + size c)%N) as (n & Heq & Hn & Hfit & Hmore); [lia|lia|].
    exists (S n). rewrite Heq. simpl. split_and!; [done|lia|fold (sum_of (take n l)); lia|].
    intros Hlt. specialize (Hmore ltac:(lia)). change (sum_of (c :: take (S n) l)) with
      (size c + sum_of (take (S n) l))%N. lia.
Qed.
End budget.

Create HintDb vault discriminated.
#[export] Hint Resolve le_encode_is_bytes wrapping_add32_bound elem_of_take_mono : vault.

(** ** Rules for the state-and-error monad

    Two judgements on an operation: [runs m s Q], it succeeds from [s] with a
    value and a state that satisfy [Q]; and [yields P m Q], whatever its outcome
    it keeps the invariant [P], and a value it returns satisfies [Q].  Both have
    a rule for each way of composing operations. *)

Definition runs {S E A} (m : SM S E A) (s : S) (Q : A → S → Prop) : Prop :=
  ∃ a s', m s = (Ok a, s') ∧ Q a s'.

Definition yields {S E A} (P : S → Prop) (m : SM S E A) (Q : A → Prop) : Prop :=
  ∀ s r s', m s = (r, s') → P s → P s' ∧ match r with Ok a => Q a | Err _ => True end.

Abbreviation keeps P m := (yields P m (λ _, True)).

Section runs.
Context {S E : Type}.

Lemma runs_ret {A} (a : A) s (Q : A → S → Prop) : Q a s → runs (E := E) (mret a) s Q.
Proof. intros HQ. by exists a, s. Qed.

Lemma runs_bind {A B} (m : SM S E A) (f : A → SM S E B) s Q :
  runs m s (λ a s', runs (f a) s' Q) → runs (m ≫= f) s Q.
Proof. intros (a & s1 & Hm & b & s2 & Hf & HQ). exists b, s2. by rewrite (sm_bind_ok _ _ _ _ _ Hm). Qed.

Lemma runs_eq {A} (m m' : SM S E A) s (Q : A → S → Prop) : m s = m' s → runs m' s Q → runs m s Q.
Proof. intros Heq (a & s' & Hm & HQ). exists a, s'. by rewrite Heq. Qed.

Lemma runs_weaken {A} (m : SM S E A) s (Q R : A → S → Prop) :
  runs m s Q → (∀ a s', Q a s' → R a s') → runs m s R.
Proof. intros (a & s1 & Hm & HQ) HR. exists a, s1. auto. Qed.

Lemma runs_modify (f : S → S) s (Q : unit → S → Prop) : Q tt (f s) → runs (E := E) (sm_modify f) s Q.
Proof. intros HQ. by exists tt, (f s). Qed.

Lemma runs_gets {A} (f : S → A) s (Q : A → S → Prop) : Q (f s) s → runs (E := E) (sm_gets f) s Q.
Proof. intros HQ. by exists (f s), s. Qed.

(** [sm_try] turns every outcome into a value. *)
Lemma runs_try {E' A} (m : SM S E A) s (Q : result A E → S → Prop) :
  (let '(r, s') := m s in Q r s') → runs (E := E') (sm_try m) s Q.
Proof. unfold runs, sm_try. destruct (m s) as [r s']. intros HQ. by exists r, s'. Qed.

Lemma runs_try_ok {E' A} (m : SM S E A) s (Q : result A E → S → Prop) :
  runs m s (λ a s', Q (Ok a) s') → runs (E := E') (sm_try m) s Q.
Proof. intros (a & s' & Hm & HQ). apply runs_try. by rewrite Hm. Qed.

Lemma runs_for_each {A} (f : A → SM S E unit) (l : list A) (I : list A → S → Prop) s :
  I [] s →
  (∀ done a rest s0, l = done ++ a :: rest → I done s0 → runs (f a) s0 (λ _, I (done ++ [a]))) →
  runs (for_each f l) s (λ _, I l).
Proof.
  intros HI Hf. enough (∀ rest done s0, l = done ++ rest → I done s0 → runs (for_each f rest) s0 (λ _, I l)) as Hall.
  { by apply (Hall l []). }
  induction rest as [|a rest IH]; intros done s0 -> Hdone.
  { rewrite app_nil_r. by apply runs_ret. }
  cbn [for_each]. apply runs_bind. eapply runs_weaken; [by apply (Hf done a rest)|].
  intros [] s1 H1. apply (IH (done ++ [a])); [by rewrite <-app_assoc|done].
Qed.

Lemma runs_intro {A} (m : SM S E A) s a s' (Q : A → S → Prop) : m s = (Ok a, s') → Q a s' → runs m s Q.
Proof. intros Hm HQ. by exists a, s'. Qed.

Lemma runs_zoom {T A} (get : T → S) (set : S → T → T) (m : SM S E A) t (Q : A → T → Prop) :
  runs m (get t) (λ a s', Q a (set s' t)) → runs (zoom get set m) t Q.
Proof. intros (a & s' & Hm & HQ). exists a, (set s' t). unfold zoom. by rewrite Hm. Qed.
End runs.

Section yields.
Context {S E : Type} (P : S → Prop).

Lemma yields_ret {A} (a : A) (Q : A → Prop) : Q a → yields (E := E) P (mret a) Q.
Proof. by intros HQ s r s' [= <- <-]. Qed.

Lemma yields_bind {A B} (m : SM S E A) (f : A → SM S E B) (R : A → Prop) Q :
  yields P m R → (∀ a, R a → yields P (f a) Q) → yields P (m ≫= f) Q.
Proof.
  intros Hm Hf s r s'. unfold mbind, sm_bind. destruct (m s) as [[a|e] s1] eqn:E1; intros Heq HP;
    destruct (Hm _ _ _ E1 HP) as [HP1 HR]; [by eapply Hf|by injection Heq as <- <-].
Qed.

Lemma yields_weaken {A} (m : SM S E A) (Q R : A → Prop) : yields P m Q → (∀ a, Q a → R a) → yields P m R.
Proof. intros Hm HQR s r s' Heq HP. destruct (Hm _ _ _ Heq HP). split; [done|]. destruct r; auto. Qed.

Lemma yields_fail {A} (e : E) (Q : A → Prop) : yields P (sm_fail e) Q.
Proof. by intros s r s' [= <- <-]. Qed.

Lemma keeps_modify (f : S → S) : (∀ s, P s → P (f s)) → yields (E := E) P (sm_modify f) (λ _, True).
Proof. intros Hf s r s' [= <- <-] HP. auto. Qed.

Lemma yields_gets {A} (f : S → A) (Q : A → Prop) : (∀ s, P s → Q (f s)) → yields (E := E) P (sm_gets f) Q.
Proof. intros Hf s r s' [= <- <-] HP. auto. Qed.

Lemma keeps_gets {A} (f : S → A) : yields (E := E) P (sm_gets f) (λ _, True).
Proof. by apply yields_gets. Qed.

Lemma keeps_try {E' A} (m : SM S E A) : keeps P m → yields (E := E') P (sm_try m) (λ _, True).
Proof.
  intros Hm s r s'. unfold sm_try. destruct (m s) as [r1 s1] eqn:E1. intros [= <- <-] HP.
  destruct (Hm _ _ _ E1 HP). done.
Qed.

Lemma keeps_for_each {A} (f : A → SM S E unit) (l : list A) : (∀ a, keeps P (f a)) → keeps P (for_each f l).
Proof.
  intros Hf. induction l as [|a l IH]; [by apply yields_ret|]. cbn [for_each].
  by apply (yields_bind _ _ (λ _, True)).
Qed.

Lemma keeps_bind {A B} (m : SM S E A) (f : A → SM S E B) :
  keeps P m → (∀ a, keeps P (f a)) → keeps P (m ≫= f).
Proof. intros Hm Hf. by apply (yields_bind _ _ (λ _, True)). Qed.
End yields.

Create HintDb keeps discriminated.
#[export] Hint Resolve yields_ret yields_fail keeps_gets keeps_try keeps_for_each keeps_bind : keeps.

(** Opens the composed operation and leaves its parts. *)
Ltac keeps_step :=
  match goal with
  | |- yields _ (mret _) _ => by apply yields_ret
  | |- yields _ (_ ≫= _) (λ _, True) => apply keeps_bind; [|intros ?]
  | |- yields _ (sm_fail _) _ => apply yields_fail
  | |- yields _ (sm_gets _) (λ _, True) => apply keeps_gets
  | |- yields _ (sm_try _) (λ _, True) => apply keeps_try
  | |- yields _ (for_each _ _) (λ _, True) => apply keeps_for_each; intros ?
  | |- yields _ (if ?b then _ else _) _ => destruct b eqn:?
  | |- yields _ (match ?x with _ => _ end) _ => destruct x eqn:?
  end.
