(* ===== verification/Text.v ===== *)
(** * Text

    The parts of Rust's [str] the components use: UTF-8 ([from_utf8],
    [from_utf8_lossy]), decimal numbers ([to_string], [parse::<u64>]) and
    splitting at a character or suffix.  A Rocq string holds the bytes of its UTF-8 text. *)
From Stdlib Require Import Ascii DecimalString DecimalN DecimalFacts.
From S2P Require Import Prelude.

(** ** UTF-8 *)

Definition in_range (lo hi b : N) : bool := ((lo <=? b) && (b <=? hi))%N.

(** The range of the second byte after a lead byte, and how many continuation
    bytes follow it. *)
Definition utf8_second (b : N) : option (N * N * nat) :=
  if in_range 0xC2 0xDF b then Some (0x80%N, 0xBF%N, 0)
  else if (b =? 0xE0)%N then Some (0xA0%N, 0xBF%N, 1)
  else if (b =? 0xED)%N then Some (0x80%N, 0x9F%N, 1)
  else if in_range 0xE1 0xEF b then Some (0x80%N, 0xBF%N, 1)
  else if (b =? 0xF0)%N then Some (0x90%N, 0xBF%N, 2)
  else if in_range 0xF1 0xF3 b then Some (0x80%N, 0xBF%N, 2)
  else if (b =? 0xF4)%N then Some (0x80%N, 0x8F%N, 2)
  else None.

(** How many of the next [n] bytes are continuation bytes before the first that
    is not. *)
Fixpoint continuations (n : nat) (bs : bytes) : nat :=
  match n, bs with
  | S n', b :: bs' => if in_range 0x80 0xBF b then S (continuations n' bs') else 0
  | _, _ => 0
  end.

(** The length of the first sequence and whether it is valid. *)
Definition utf8_next (b : N) (bs : bytes) : nat * bool :=
  if (b <? 0x80)%N then (1, true)
  else match utf8_second b, bs with
       | Some (lo, hi, more), b1 :: bs' =>
           if in_range lo hi b1 then
             let got := continuations more bs' in (2 + got, Nat.eqb got more)
           else (1, false)
       | _, _ => (1, false)
       end.

Definition replacement : bytes := [0xEF; 0xBF; 0xBD]%N.

Fixpoint lossy (fuel : nat) (bs : bytes) : bytes :=
  match fuel, bs with
  | S fuel', b :: bs' =>
      let '(n, ok) := utf8_next b bs' in
      (if ok then take n bs else replacement) ++ lossy fuel' (drop n bs)
  | _, _ => []
  end.

Definition string_of_bytes (bs : bytes) : string :=
  String.string_of_list_ascii (map Ascii.ascii_of_N bs).

(** [std::str::from_utf8]. *)
Fixpoint utf8_valid (fuel : nat) (bs : bytes) : bool :=
  match fuel, bs with
  | _, [] => true
  | S fuel', b :: bs' => let '(n, ok) := utf8_next b bs' in ok && utf8_valid fuel' (drop n bs)
  | O, _ :: _ => false
  end.
Definition from_utf8 (bs : bytes) : option string :=
  if utf8_valid (length bs) bs then Some (string_of_bytes bs) else None.

Lemma string_of_bytes_utf8 s : string_of_bytes (utf8 s) = s.
Proof.
  unfold string_of_bytes, utf8. rewrite map_map.
  rewrite (map_ext _ id) by apply Ascii.ascii_N_embedding. rewrite map_id.
  apply String.string_of_list_ascii_of_string.
Qed.

Lemma lossy_ascii fuel bs : length bs ≤ fuel → Forall (λ b, b < 128)%N bs → lossy fuel bs = bs.
Proof.
  revert bs. induction fuel as [|fuel IH]; intros [|b bs] Hlen Hbs; simpl in *; [done|lia|done|].
  apply Forall_cons in Hbs as [Hb Hbs]. unfold utf8_next. rewrite (proj2 (N.ltb_lt _ _)) by lia.
  simpl. rewrite ?take_0, ?drop_0, IH by (done || lia). done.
Qed.

(** A Rust string is valid UTF-8. *)
Definition is_text (s : string) : bool := utf8_valid (length (utf8 s)) (utf8 s).

Lemma from_utf8_text s : is_text s = true → from_utf8 (utf8 s) = Some s.
Proof. unfold from_utf8, is_text. intros ->. by rewrite string_of_bytes_utf8. Qed.

Lemma utf8_valid_ascii fuel bs : length bs ≤ fuel → Forall (λ b, b < 128)%N bs → utf8_valid fuel bs = true.
Proof.
  revert bs. induction fuel as [|fuel IH]; intros [|b bs] Hlen Hbs; simpl in *; [done|lia|done|].
  apply Forall_cons in Hbs as [Hb Hbs]. unfold utf8_next. rewrite (proj2 (N.ltb_lt _ _)) by lia.
  simpl. rewrite drop_0. apply IH; [lia|done].
Qed.

(** ** Decimal numbers *)

Definition show_N (n : N) : string := NilZero.string_of_uint (N.to_uint n).

Definition parse_digits (s : string) : option N :=
  match NilZero.uint_of_string s with
  | Some d => let n := N.of_uint d in if (n <=? U64_MAX)%N then Some n else None
  | None => None
  end.
(** [parse::<u64>] takes an optional [+]. *)
Definition parse_u64 (s : string) : option N :=
  match s with
  | String "+"%char s' => parse_digits s'
  | _ => parse_digits s
  end.

Definition is_digit (c : Ascii.ascii) : bool :=
  let n := Ascii.N_of_ascii c in ((48 <=? n) && (n <=? 57))%N.
Fixpoint all_chars (p : Ascii.ascii → bool) (s : string) : bool :=
  match s with EmptyString => true | String c s' => p c && all_chars p s' end.

Lemma digits_of_uint d : all_chars is_digit (NilEmpty.string_of_uint d) = true.
Proof. induction d; simpl; done. Qed.

Lemma show_N_digits n : all_chars is_digit (show_N n) = true.
Proof. unfold show_N, NilZero.string_of_uint. destruct (N.to_uint n) eqn:E; [done|..]; apply digits_of_uint. Qed.

Lemma to_uint_not_nil n : N.to_uint n ≠ Decimal.Nil.
Proof.
  destruct n as [|p]; simpl; [done|]. intros H.
  assert (N.of_uint (N.to_uint (Npos p)) = Npos p) as Hp by apply DecimalN.Unsigned.of_to.
  simpl in Hp. by rewrite H in Hp.
Qed.

Lemma parse_show n : (n ≤ U64_MAX)%N → parse_u64 (show_N n) = Some n.
Proof.
  intros Hn. assert (parse_digits (show_N n) = Some n) as Hd.
  { unfold parse_digits, show_N. rewrite NilZero.usu by apply to_uint_not_nil.
    rewrite DecimalN.Unsigned.of_to. by apply N.leb_le in Hn as ->. }
  pose proof (show_N_digits n) as Hdig. unfold parse_u64.
  destruct (show_N n) as [|c s] eqn:E; [done|]. simpl in Hdig. apply andb_true_iff in Hdig as [Hc _].
  destruct c as [[] [] [] [] [] [] [] []]; try done.
Qed.

(** ** Splitting *)

(** [split_once]. *)
Fixpoint split_once (sep : Ascii.ascii) (s : string) : option (string * string) :=
  match s with
  | EmptyString => None
  | String c s' =>
      if bool_decide (c = sep) then Some ("", s')
      else match split_once sep s' with Some (a, b) => Some (String c a, b) | None => None end
  end.

(** [split(sep).collect()]. *)
Fixpoint split (sep : Ascii.ascii) (s : string) : list string :=
  match s with
  | EmptyString => [""]
  | String c s' =>
      if bool_decide (c = sep) then "" :: split sep s'
      else match split sep s' with
           | a :: l => String c a :: l
           | [] => [String c ""]
           end
  end.

Definition lacks (sep : Ascii.ascii) (s : string) : bool := all_chars (λ c, negb (bool_decide (c = sep))) s.

Lemma split_once_app sep a b : lacks sep a = true → split_once sep (a +:+ String sep b) = Some (a, b).
Proof.
  induction a as [|c a IH]; simpl; [by rewrite bool_decide_eq_true_2|].
  intros [Hc Ha]%andb_true_iff. apply negb_true_iff in Hc. rewrite Hc, IH; done.
Qed.

Lemma split_not_nil sep s : split sep s ≠ [].
Proof. destruct s as [|c s]; simpl; [done|]. destruct (bool_decide _); [done|]. by destruct (split sep s). Qed.

Lemma split_app sep a b : lacks sep a = true → split sep (a +:+ String sep b) = a :: split sep b.
Proof.
  induction a as [|c a IH]; simpl; [by rewrite bool_decide_eq_true_2|].
  intros [Hc Ha]%andb_true_iff. apply negb_true_iff in Hc. rewrite Hc, IH; done.
Qed.

Lemma split_lacks sep a : lacks sep a = true → split sep a = [a].
Proof.
  induction a as [|c a IH]; simpl; [done|].
  intros [Hc Ha]%andb_true_iff. apply negb_true_iff in Hc. rewrite Hc, IH; done.
Qed.

Lemma digits_lack sep s : is_digit sep = false → all_chars is_digit s = true → lacks sep s = true.
Proof.
  intros Hsep. induction s as [|c s IH]; simpl; [done|]. intros [Hc Hs]%andb_true_iff.
  unfold lacks in *. simpl. rewrite IH by done. rewrite andb_true_r.
  apply negb_true_iff, bool_decide_eq_false. congruence.
Qed.

Lemma show_N_inj n m : show_N n = show_N m → n = m.
Proof.
  intros Heq. assert (NilZero.uint_of_string (show_N n) = NilZero.uint_of_string (show_N m)) as H by by rewrite Heq.
  unfold show_N in H. rewrite !NilZero.usu in H by apply to_uint_not_nil. injection H as H.
  rewrite <-(DecimalN.Unsigned.of_to n), <-(DecimalN.Unsigned.of_to m). by rewrite H.
Qed.

(** ** Suffixes and substrings *)

(** [str::contains]. *)
Definition contains (pat s : string) : bool :=
  match String.index 0 pat s with Some _ => true | None => false end.

(** [str::strip_suffix]. *)
Definition strip_suffix (suffix s : string) : option string :=
  let n := (String.length s - String.length suffix)%nat in
  if Nat.leb (String.length suffix) (String.length s) && bool_decide (String.substring n (String.length suffix) s = suffix)
  then Some (String.substring 0 n s) else None.

Lemma string_length_app (a b : string) : String.length (a +:+ b) = (String.length a + String.length b)%nat.
Proof. induction a as [|c a IH]; simpl; [done|by rewrite IH]. Qed.

Lemma append_inj_r (a b c : string) : a +:+ c = b +:+ c → a = b.
Proof.
  revert b. induction a as [|x a IH]; intros [|y b] Heq; simpl in *; [done|..].
  - apply (f_equal String.length) in Heq. rewrite !string_length_app in Heq. simpl in Heq. lia.
  - apply (f_equal String.length) in Heq. rewrite !string_length_app in Heq. simpl in Heq. lia.
  - injection Heq as -> Heq. by rewrite (IH b Heq).
Qed.

Lemma substring_app_l (a b : string) : String.substring 0 (String.length a) (a +:+ b) = a.
Proof. induction a as [|c a IH]; simpl; [by destruct b|by rewrite IH]. Qed.
Lemma substring_app_r (a b : string) : String.substring (String.length a) (String.length b) (a +:+ b) = b.
Proof.
  induction a as [|c a IH]; [|done]. change (String.substring 0 (String.length b) b = b).
  induction b as [|c b IHb]; simpl; [done|by rewrite IHb].
Qed.

Lemma strip_suffix_app a b : strip_suffix b (a +:+ b) = Some a.
Proof.
  unfold strip_suffix. rewrite string_length_app.
  replace (String.length a + String.length b - String.length b)%nat with (String.length a) by lia.
  rewrite substring_app_r, substring_app_l, bool_decide_eq_true_2 by done.
  by rewrite (proj2 (Nat.leb_le _ _)) by lia.
Qed.
