(* ===== verification/BTree.v ===== *)
(** * Ordered maps

    [std::collections::BTreeMap], as the coordinator uses it: an association
    list in strictly increasing key order, with insertion, removal, lookup,
    in-order iteration (the list itself) and the half-open range
    [map.range(k..)].  Keys are compared as Rust compares them: numbers by
    value, strings byte by byte, tuples lexicographically. *)
From S2P Require Import Prelude.

Class OrdKey (K : Type) := {
  kcmp : K → K → comparison;
  kcmp_eq : ∀ x y, kcmp x y = Eq ↔ x = y;
  kcmp_antisym : ∀ x y, kcmp y x = CompOpp (kcmp x y);
  kcmp_trans : ∀ x y z, kcmp x y = Lt → kcmp y z = Lt → kcmp x z = Lt;
}.

Lemma kcmp_refl `{OrdKey K} (x : K) : kcmp x x = Eq.
Proof. by apply kcmp_eq. Qed.

Lemma kcmp_gt_lt `{OrdKey K} (x y : K) : kcmp x y = Gt → kcmp y x = Lt.
Proof. intros Hxy. rewrite kcmp_antisym, Hxy. done. Qed.

Lemma kcmp_lt_gt `{OrdKey K} (x y : K) : kcmp x y = Lt → kcmp y x = Gt.
Proof. intros Hxy. rewrite kcmp_antisym, Hxy. done. Qed.

(** ** The key types of the source *)

#[export, program] Instance ord_N : OrdKey N := {| kcmp := N.compare |}.
Next Obligation. intros. apply N.compare_eq_iff. Qed.
Next Obligation. intros. apply N.compare_antisym. Qed.
Next Obligation. intros x y z. rewrite !N.compare_lt_iff. lia. Qed.

Lemma string_compare_refl (s : string) : String.compare s s = Eq.
Proof.
  induction s as [|a s IH]; simpl; [done|].
  unfold Ascii.compare. by rewrite N.compare_refl.
Qed.

Lemma string_compare_trans (s t u : string) :
  String.compare s t = Lt → String.compare t u = Lt → String.compare s u = Lt.
Proof.
  revert t u. induction s as [|a s IH]; intros [|b t] [|c u]; simpl; try done.
  unfold Ascii.compare.
  destruct (N.compare_spec (Ascii.N_of_ascii a) (Ascii.N_of_ascii b)) as [Hab|Hab|Hab];
  destruct (N.compare_spec (Ascii.N_of_ascii b) (Ascii.N_of_ascii c)) as [Hbc|Hbc|Hbc];
  destruct (N.compare_spec (Ascii.N_of_ascii a) (Ascii.N_of_ascii c)) as [Hac|Hac|Hac];
  try done; try lia; apply IH.
Qed.

#[export, program] Instance ord_string : OrdKey string := {| kcmp := String.compare |}.
Next Obligation.
  intros x y. split; [apply String.compare_eq_iff|intros ->; apply string_compare_refl].
Qed.
Next Obligation. intros. apply String.compare_antisym. Qed.
Next Obligation. intros x y z. apply string_compare_trans. Qed.

Definition pair_cmp `{OrdKey A, OrdKey B} (p q : A * B) : comparison :=
  match kcmp p.1 q.1 with
  | Eq => kcmp p.2 q.2
  | c => c
  end.

#[export, program] Instance ord_pair `{OrdKey A, OrdKey B} : OrdKey (A * B) :=
  {| kcmp := pair_cmp |}.
Next Obligation.
  intros A ? B ? [a b] [a' b']. unfold pair_cmp; simpl. split.
  - destruct (kcmp a a') eqn:Ha; try done.
    intros Hb%kcmp_eq. apply kcmp_eq in Ha. congruence.
  - intros [= -> ->]. by rewrite kcmp_refl, kcmp_refl.
Qed.
Next Obligation.
  intros A ? B ? [a b] [a' b']. unfold pair_cmp; simpl.
  rewrite (kcmp_antisym a a'), (kcmp_antisym b b'). by destruct (kcmp a a').
Qed.
Next Obligation.
  intros A ? B ? [a b] [a' b'] [a'' b'']. unfold pair_cmp; simpl.
  destruct (kcmp a a') eqn:H1; try done; destruct (kcmp a' a'') eqn:H2; try done.
  - apply kcmp_eq in H1, H2. subst. rewrite kcmp_refl. apply kcmp_trans.
  - apply kcmp_eq in H1. subst. by rewrite H2.
  - apply kcmp_eq in H2. subst. by rewrite H1.
  - by rewrite (kcmp_trans _ _ _ H1 H2).
Qed.

(** ** The map and its operations *)

Abbreviation btree K V := (list (K * V)).

Section btree.
Context `{OrdKey K} {V : Type}.
Implicit Types m : btree K V.

Fixpoint bt_insert (k : K) (v : V) m : btree K V :=
  match m with
  | [] => [(k, v)]
  | (k', v') :: m' =>
      match kcmp k k' with
      | Lt => (k, v) :: m
      | Eq => (k, v) :: m'
      | Gt => (k', v') :: bt_insert k v m'
      end
  end.

Fixpoint bt_remove (k : K) m : btree K V :=
  match m with
  | [] => []
  | (k', v') :: m' =>
      match kcmp k k' with
      | Eq => m'
      | _ => (k', v') :: bt_remove k m'
      end
  end.

Fixpoint bt_get (k : K) m : option V :=
  match m with
  | [] => None
  | (k', v') :: m' =>
      match kcmp k k' with
      | Eq => Some v'
      | _ => bt_get k m'
      end
  end.

(** [map.range(k..)]. *)
Definition bt_range_from (k : K) m : btree K V :=
  filterb (λ p, match kcmp p.1 k with Lt => false | _ => true end) m.

Definition key_lt (p q : K * V) : Prop := kcmp p.1 q.1 = Lt.
Definition bt_wf m : Prop := StronglySorted key_lt m.

Lemma bt_wf_nil : bt_wf [].
Proof. constructor. Qed.

Lemma bt_wf_cons_inv p m : bt_wf (p :: m) → bt_wf m ∧ Forall (key_lt p) m.
Proof. intros Hwf. by apply StronglySorted_inv in Hwf. Qed.

(** Every key of the result of an insertion is the new one or an old one. *)
Lemma elem_of_bt_insert_weak k v m p : p ∈ bt_insert k v m → p = (k, v) ∨ p ∈ m.
Proof.
  induction m as [|[k' v'] m IH]; simpl; [set_solver|].
  destruct (kcmp k k'); set_solver.
Qed.

Lemma bt_insert_wf k v m : bt_wf m → bt_wf (bt_insert k v m).
Proof.
  induction m as [|[k' v'] m IH]; intros Hwf; simpl; [repeat constructor|].
  apply bt_wf_cons_inv in Hwf as [Hwf Hall].
  destruct (kcmp k k') eqn:Hk.
  - apply kcmp_eq in Hk as ->. by constructor.
  - constructor; [by constructor|]. rewrite Forall_forall in *.
    intros q [->|Hq]%elem_of_cons; [done|].
    eapply kcmp_trans; [exact Hk|]. by apply (Hall q).
  - constructor; [by apply IH|]. apply Forall_forall.
    intros p [->|Hp]%elem_of_bt_insert_weak; [by apply kcmp_gt_lt|].
    by eapply Forall_forall in Hall.
Qed.

Lemma bt_remove_sublist k m : bt_remove k m `sublist_of` m.
Proof.
  induction m as [|[k' v'] m IH]; simpl; [done|].
  destruct (kcmp k k'); by constructor.
Qed.

Lemma bt_sublist_wf m m' : m' `sublist_of` m → bt_wf m → bt_wf m'.
Proof.
  induction 1 as [|p m' m Hsub IH|p m' m Hsub IH]; intros Hwf; [done| |].
  - apply bt_wf_cons_inv in Hwf as [Hwf Hall]. constructor; [by apply IH|].
    rewrite Forall_forall in *. intros q Hq. apply Hall. by eapply elem_of_sublist.
  - apply bt_wf_cons_inv in Hwf as [Hwf _]. by apply IH.
Qed.

Lemma bt_remove_wf k m : bt_wf m → bt_wf (bt_remove k m).
Proof. apply bt_sublist_wf, bt_remove_sublist. Qed.

Lemma bt_range_from_wf k m : bt_wf m → bt_wf (bt_range_from k m).
Proof. apply bt_sublist_wf, sublist_filterb. Qed.

(** Keys are unique. *)
Lemma bt_key_unique m k v v' : bt_wf m → (k, v) ∈ m → (k, v') ∈ m → v = v'.
Proof.
  induction m as [|[k0 v0] m IH]; intros Hwf; [by intros ?%elem_of_nil|].
  apply bt_wf_cons_inv in Hwf as [Hwf Hall].
  rewrite Forall_forall in Hall.
  intros [[= -> ->]|H1]%elem_of_cons [[= ->]|H2]%elem_of_cons; try done; subst.
  - specialize (Hall _ H2). unfold key_lt in Hall; simpl in Hall.
    by rewrite kcmp_refl in Hall.
  - specialize (Hall _ H1). unfold key_lt in Hall; simpl in Hall.
    by rewrite kcmp_refl in Hall.
  - by apply IH.
Qed.

Lemma elem_of_bt_insert k v m p : bt_wf m →
  p ∈ bt_insert k v m ↔ p = (k, v) ∨ (p ∈ m ∧ p.1 ≠ k).
Proof.
  induction m as [|[k' v'] m IH]; intros Hwf; simpl; [set_solver|].
  apply bt_wf_cons_inv in Hwf as [Hwf Hall]. rewrite Forall_forall in Hall.
  assert (Hne : ∀ q, q ∈ m → kcmp k k' ≠ Gt → q.1 ≠ k).
  { intros q Hq Hk Heq. specialize (Hall _ Hq). unfold key_lt in Hall. simpl in Hall.
    rewrite Heq in Hall. by apply Hk, kcmp_lt_gt. }
  destruct (kcmp k k') eqn:Hk.
  - apply kcmp_eq in Hk as ->. rewrite !elem_of_cons. split.
    + intros [->|Hp]; [by left|]. right. split; [by right|by apply Hne].
    + intros [->|[[->|Hp] Hpk]]; [by left|done|by right].
  - rewrite !elem_of_cons. split.
    + intros [->|[->|Hp]]; [by left| |].
      * right. split; [by left|]. simpl. intros ->. by rewrite kcmp_refl in Hk.
      * right. split; [by right|by apply Hne].
    + intros [->|[[->|Hp] Hpk]]; auto.
  - rewrite !elem_of_cons, (IH Hwf). split.
    + intros [->|[->|[Hp Hpk]]]; [|by left|right; split; [by right|done]].
      right. split; [by left|]. simpl. intros ->. by rewrite kcmp_refl in Hk.
    + intros [->|[[->|Hp] Hpk]]; auto.
Qed.

Lemma elem_of_bt_remove k m p : bt_wf m →
  p ∈ bt_remove k m ↔ p ∈ m ∧ p.1 ≠ k.
Proof.
  induction m as [|[k' v'] m IH]; intros Hwf; simpl; [set_solver|].
  apply bt_wf_cons_inv in Hwf as [Hwf Hall]. rewrite Forall_forall in Hall.
  destruct (kcmp k k') eqn:Hk.
  - apply kcmp_eq in Hk as ->. rewrite elem_of_cons. split.
    + intros Hp. split; [by right|]. intros Heq. specialize (Hall _ Hp).
      unfold key_lt in Hall. simpl in Hall. by rewrite Heq, kcmp_refl in Hall.
    + intros [[->|Hp] Hpk]; done.
  - rewrite !elem_of_cons, (IH Hwf). split.
    + intros [->|[Hp Hpk]]; [|tauto]. split; [by left|]. simpl. intros ->.
      by rewrite kcmp_refl in Hk.
    + intros [[->|Hp] Hpk]; auto.
  - rewrite !elem_of_cons, (IH Hwf). split.
    + intros [->|[Hp Hpk]]; [|tauto]. split; [by left|]. simpl. intros ->.
      by rewrite kcmp_refl in Hk.
    + intros [[->|Hp] Hpk]; auto.
Qed.

Lemma bt_get_elem_of k m v : bt_wf m → bt_get k m = Some v ↔ (k, v) ∈ m.
Proof.
  induction m as [|[k' v'] m IH]; intros Hwf; simpl.
  { split; [done|by intros ?%elem_of_nil]. }
  pose proof Hwf as Hwf0. apply bt_wf_cons_inv in Hwf0 as [Hwf' Hall].
  destruct (kcmp k k') eqn:Hk.
  - apply kcmp_eq in Hk as ->. split.
    + intros [= ->]. by left.
    + intros Hp. f_equal. apply (bt_key_unique ((k', v') :: m) k'); [done|by left|done].
  - rewrite (IH Hwf'), elem_of_cons. split; [by right|].
    intros [[= -> ->]|]; [by rewrite kcmp_refl in Hk|done].
  - rewrite (IH Hwf'), elem_of_cons. split; [by right|].
    intros [[= -> ->]|]; [by rewrite kcmp_refl in Hk|done].
Qed.

Lemma elem_of_bt_range_from k m p :
  p ∈ bt_range_from k m ↔ p ∈ m ∧ kcmp p.1 k ≠ Lt.
Proof.
  unfold bt_range_from. rewrite elem_of_filterb. destruct (kcmp p.1 k); naive_solver.
Qed.

(** Inserting a key above every key of the map appends it. *)
Lemma bt_insert_append k v m :
  (∀ p, p ∈ m → kcmp p.1 k = Lt) → bt_insert k v m = m ++ [(k, v)].
Proof.
  induction m as [|[k' v'] m IH]; intros Hlt; simpl; [done|].
  assert (Hk : kcmp k k' = Gt) by (apply kcmp_lt_gt, (Hlt (k', v')); left).
  rewrite Hk, IH; [done|]. intros p Hp. apply Hlt. by right.
Qed.
Lemma bt_get_mid m0 k v m :
  bt_wf (m0 ++ (k, v) :: m) → bt_get k (m0 ++ (k, v) :: m) = Some v.
Proof. intros Hwf. apply bt_get_elem_of; [done|]. apply elem_of_app. right. left. Qed.

Lemma bt_remove_mid m0 k v m :
  bt_wf (m0 ++ (k, v) :: m) → bt_remove k (m0 ++ (k, v) :: m) = m0 ++ m.
Proof.
  induction m0 as [|[k' v'] m0 IH]; simpl; [by rewrite kcmp_refl|].
  intros [Hwf Hall]%bt_wf_cons_inv.
  pose proof (proj1 (Forall_forall _ _) Hall (k, v)
    ltac:(apply elem_of_app; right; left)) as Hlt.
  unfold key_lt in Hlt. simpl in Hlt. by rewrite (kcmp_lt_gt _ _ Hlt), IH.
Qed.

(** The loop that removes the keys of the entries that satisfy [q], counting
    the removals. *)
Definition bt_remove_counting (acc : btree K V * nat) (k : K) : btree K V * nat :=
  let '(m, r) := acc in
  match bt_get k m with
  | Some _ => (bt_remove k m, S r)
  | None => (m, r)
  end.

Lemma bt_remove_loop (q : K * V → bool) m0 m r : bt_wf (m0 ++ m) →
  foldl bt_remove_counting (m0 ++ m, r) (map fst (filterb q m)) =
  (m0 ++ filterb (λ p, negb (q p)) m, r + length (filterb q m)).
Proof.
  revert m0 r. induction m as [|[k v] m IH]; intros m0 r Hwf; [by rewrite Nat.add_0_r|].
  unfold filterb in *. cbn [List.filter]. destruct (q (k, v)) eqn:Hq; simpl.
  - rewrite bt_get_mid, bt_remove_mid by done. rewrite IH; [f_equal; lia|].
    eapply bt_sublist_wf, Hwf. apply sublist_app; [done|]. by apply sublist_cons.
  - specialize (IH (m0 ++ [(k, v)]) r). rewrite <-!app_assoc in IH. by apply IH.
Qed.

End btree.

#[export] Hint Resolve bt_wf_nil bt_insert_wf bt_remove_wf bt_range_from_wf : vault.
