(* ===== verification/F64.v ===== *)
(** * Binary64 numbers and durations

    Rust's [f64] as the Standard Library's [spec_float] with the parameters of
    binary64, and [std::time::Duration] as a number of nanoseconds.  Used by
    the retry engine's delays, the resource scores and the numbers of a
    document. *)
From Stdlib Require Import ZArith SpecFloat.
From S2P Require Import Prelude.

Abbreviation f64 := spec_float.

Definition f64_prec : Z := 53.
Definition f64_emax : Z := 1024.

Definition f64_add : f64 → f64 → f64 := SFadd f64_prec f64_emax.
Definition f64_sub : f64 → f64 → f64 := SFsub f64_prec f64_emax.
Definition f64_mul : f64 → f64 → f64 := SFmul f64_prec f64_emax.
Definition f64_div : f64 → f64 → f64 := SFdiv f64_prec f64_emax.
Definition f64_ltb : f64 → f64 → bool := SFltb.
Definition f64_leb : f64 → f64 → bool := SFleb.

(** [z as f64], rounding to nearest, ties to even. *)
Definition f64_of_Z (z : Z) : f64 := binary_normalize f64_prec f64_emax z 0 false.
Definition f64_of_N (n : N) : f64 := f64_of_Z (Z.of_N n).

(** A decimal literal: the quotient of two exact integers, correctly rounded. *)
Definition f64_lit (num den : Z) : f64 := f64_div (f64_of_Z num) (f64_of_Z den).

(** [f64::min]: the other operand when one is not a number. *)
Definition f64_min (a b : f64) : f64 :=
  match a, b with
  | S754_nan, _ => b
  | _, S754_nan => a
  | _, _ => if f64_ltb b a then b else a
  end.

(** [f64::powi]: square and multiply on the exponent's bits, the reciprocal for
    a negative one.  Thirty-two turns exhaust an [i32]. *)
Fixpoint powi_loop (fuel : nat) (a r : f64) (b : Z) : f64 :=
  match fuel with
  | O => r
  | S fuel =>
      let r := if Z.odd b then f64_mul r a else r in
      let b := Z.quot b 2 in
      if (b =? 0)%Z then r else powi_loop fuel (f64_mul a a) r b
  end.

Definition f64_powi (a : f64) (b : Z) : f64 :=
  let r := powi_loop 32 a (f64_of_Z 1) b in
  if (b <? 0)%Z then f64_div (f64_of_Z 1) r else r.

(** A 32-bit value reinterpreted as [i32], and [i32] subtraction. *)
Definition wrap_i32 (z : Z) : Z := ((z + 2 ^ 31) mod 2 ^ 32 - 2 ^ 31)%Z.

(** ** Durations *)

Definition NANOS_PER_SEC : N := 1000000000.

Definition from_secs (s : N) : N := (s * NANOS_PER_SEC)%N.
Definition from_millis (ms : N) : N := (ms * 1000000)%N.

(** [Duration::as_secs_f64]. *)
Definition as_secs_f64 (d : N) : f64 :=
  f64_add (f64_of_N (d / NANOS_PER_SEC))
    (f64_div (f64_of_N (d mod NANOS_PER_SEC)) (f64_of_N NANOS_PER_SEC)).

(** Quotient rounded to nearest, ties to even. *)
Definition div_half_even (num den : Z) : Z :=
  let q := (num / den)%Z in
  let r := (2 * (num mod den))%Z in
  if (r <? den)%Z then q
  else if (den <? r)%Z then (q + 1)%Z
  else if Z.even q then q else (q + 1)%Z.

(** [Duration::from_secs_f64]: [None] where it panics, on a negative, infinite
    or undefined argument and on one of 2^64 seconds or more. *)
Definition from_secs_f64 (x : f64) : option N :=
  match x with
  | S754_zero _ => Some 0%N
  | S754_infinity _ | S754_nan => None
  | S754_finite true _ _ => None
  | S754_finite false m e =>
      let num := (Z.pos m * Z.of_N NANOS_PER_SEC)%Z in
      let ns := if (0 <=? e)%Z then (num * 2 ^ e)%Z else div_half_even num (2 ^ (- e)) in
      if (ns / Z.of_N NANOS_PER_SEC <=? Z.of_N U64_MAX)%Z then Some (Z.to_N ns) else None
  end.

(** [x as u64]: truncation towards zero, saturating at both ends, zero for a
    value that is not a number. *)
Definition u64_of_f64 (x : f64) : N :=
  match x with
  | S754_zero _ | S754_nan => 0%N
  | S754_infinity s => if s then 0%N else U64_MAX
  | S754_finite true _ _ => 0%N
  | S754_finite false m e =>
      let z := if (0 <=? e)%Z then (Z.pos m * 2 ^ e)%Z else (Z.pos m / 2 ^ (- e))%Z in
      N.min (Z.to_N z) U64_MAX
  end.

(** [a == b] on [f64]. *)
Definition f64_eqb : f64 → f64 → bool := SFeqb.
