(* ===== verification/Clock.v ===== *)
(** * The hybrid logical clock

    [vaultsync-core/src/clock.rs].  [hlc_now] and [hlc_update_with_received]
    are one uncontended turn of the two compare-and-swap loops; [thread_step]
    is the loops at the granularity of their atomic accesses, for any number
    of threads on one clock. *)
From S2P Require Import Prelude.

Record HlcTimestamp := HlcTimestamp_new { ts_wall : N; ts_logical : N }.

#[export] Instance HlcTimestamp_eq_dec : EqDecision HlcTimestamp.
Proof. solve_decision. Defined.

(** The derived [Ord]: the fields in order. *)
Definition ts_lt (a b : HlcTimestamp) : Prop :=
  (ts_wall a < ts_wall b ∨ (ts_wall a = ts_wall b ∧ ts_logical a < ts_logical b))%N.
Definition ts_le (a b : HlcTimestamp) : Prop := a = b ∨ ts_lt a b.

#[export] Instance ts_lt_trans : Transitive ts_lt.
Proof. intros [] [] []. unfold ts_lt. simpl. lia. Qed.

#[export] Instance ts_lt_irrefl : Irreflexive ts_lt.
Proof. intros []. unfold complement, ts_lt. simpl. lia. Qed.

Lemma ts_le_lt_trans a b c : ts_le a b → ts_lt b c → ts_lt a c.
Proof. intros [->|Hab]; [done|]. by etrans. Qed.

Lemma ts_lt_le_trans a b c : ts_lt a b → ts_le b c → ts_lt a c.
Proof. intros Hab [<-|Hbc]; [done|]. by etrans. Qed.

Record HybridLogicalClock := Hlc {
  hlc_wall : N;
  hlc_logical : N;
  hlc_wrapped : bool;
}.

Definition hlc_new (sys : N) : HybridLogicalClock := Hlc sys 0 false.

(** The pair computed by the body of [now]'s loop. *)
Definition now_target (sys w l : N) : N * N :=
  if (w <? sys)%N then (sys, 0%N)
  else if (sys =? w)%N then (w, wrapping_add32 l 1)
  else (w, wrapping_add32 l 1).

(** The pair computed by the body of [update_with_received]'s loop. *)
Definition received_target (r : HlcTimestamp) (sys w l : N) : N * N :=
  let new_wall := N.max (N.max w (ts_wall r)) sys in
  let new_logical :=
    if (new_wall =? w)%N then wrapping_add32 (N.max l (ts_logical r)) 1
    else if (new_wall =? ts_wall r)%N then wrapping_add32 (ts_logical r) 1
    else 0%N in
  (new_wall, new_logical).

Definition flag_wrap (l new_logical : N) (flag : bool) : bool :=
  if ((new_logical =? 0) && (0 <? l))%N then true else flag.

Definition hlc_now (sys : N) (c : HybridLogicalClock) : HlcTimestamp * HybridLogicalClock :=
  let '(nw, nl) := now_target sys (hlc_wall c) (hlc_logical c) in
  (HlcTimestamp_new nw nl, Hlc nw nl (flag_wrap (hlc_logical c) nl (hlc_wrapped c))).

Definition hlc_update_with_received (r : HlcTimestamp) (sys : N) (c : HybridLogicalClock) :
    HybridLogicalClock :=
  let '(nw, nl) := received_target r sys (hlc_wall c) (hlc_logical c) in
  Hlc nw nl (hlc_wrapped c).

Definition did_logical_wrap (c : HybridLogicalClock) : bool := hlc_wrapped c.
Definition clear_logical_wrap (c : HybridLogicalClock) : HybridLogicalClock :=
  Hlc (hlc_wall c) (hlc_logical c) false.

(** ** Threads on one clock *)

Inductive action :=
  | ANow (sys : N)                (** [now()], its system time already read *)
  | ARecv (r : HlcTimestamp).     (** [update_with_received(r)] *)

(** Where a thread is in its loop, with the locals it holds. *)
Inductive thread :=
  | TIdle (a : action)
  | TWall (a : action) (w : N)
  | TLogical (a : action) (w l : N)
  | TTarget (a : action) (w l nw nl : N)
  | TSwapped (a : action) (l nw nl : N)
  | TStored (l nw nl : N)
  | TDone (t : option HlcTimestamp).

Definition set_wall (w : N) (c : HybridLogicalClock) : HybridLogicalClock :=
  Hlc w (hlc_logical c) (hlc_wrapped c).
Definition set_logical (l : N) (c : HybridLogicalClock) : HybridLogicalClock :=
  Hlc (hlc_wall c) l (hlc_wrapped c).

(** One atomic access of one thread. *)
Inductive thread_step : HybridLogicalClock → thread → HybridLogicalClock → thread → Prop :=
  | step_load_wall c a :
      thread_step c (TIdle a) c (TWall a (hlc_wall c))
  | step_load_logical c a w :
      thread_step c (TWall a w) c (TLogical a w (hlc_logical c))
  | step_target_now c sys w l nw nl :
      now_target sys w l = (nw, nl) →
      thread_step c (TLogical (ANow sys) w l) c (TTarget (ANow sys) w l nw nl)
  | step_target_recv c r sys w l nw nl :
      received_target r sys w l = (nw, nl) →
      thread_step c (TLogical (ARecv r) w l) c (TTarget (ARecv r) w l nw nl)
  | step_cas_ok c a w l nw nl :
      hlc_wall c = w →
      thread_step c (TTarget a w l nw nl) (set_wall nw c) (TSwapped a l nw nl)
  | step_cas_fail c a w l nw nl :
      hlc_wall c ≠ w →
      thread_step c (TTarget a w l nw nl) c (TIdle a)
  | step_store_now c sys l nw nl :
      thread_step c (TSwapped (ANow sys) l nw nl) (set_logical nl c) (TStored l nw nl)
  | step_store_recv c r l nw nl :
      thread_step c (TSwapped (ARecv r) l nw nl) (set_logical nl c) (TDone None)
  | step_flag c l nw nl :
      thread_step c (TStored l nw nl)
        (Hlc (hlc_wall c) (hlc_logical c) (flag_wrap l nl (hlc_wrapped c)))
        (TDone (Some (HlcTimestamp_new nw nl))).

Abbreviation config := (HybridLogicalClock * list thread)%type.

(** Any thread may take the next step. *)
Inductive clock_step : config → config → Prop :=
  | clock_step_at c ts i t c' t' :
      ts !! i = Some t →
      thread_step c t c' t' →
      clock_step (c, ts) (c', <[i := t']> ts).

(** ** One clock, used sequentially *)

Inductive clock_event :=
  | ENow (sys : N)
  | ERecv (r : HlcTimestamp) (sys : N).

(** The clock after an event, and the timestamp the event issued or brought in. *)
Definition clock_event_step (e : clock_event) (c : HybridLogicalClock) :
    HlcTimestamp * HybridLogicalClock :=
  match e with
  | ENow sys => hlc_now sys c
  | ERecv r sys => (r, hlc_update_with_received r sys c)
  end.

(** The clock after a history, and every timestamp the history issued or received. *)
Fixpoint clock_run (evs : list clock_event) (c : HybridLogicalClock) :
    list HlcTimestamp * HybridLogicalClock :=
  match evs with
  | [] => ([], c)
  | e :: evs' =>
      let '(t, c1) := clock_event_step e c in
      let '(seen, c2) := clock_run evs' c1 in
      (t :: seen, c2)
  end.

(** No event of the history finds its logical counter at the top of [u32]. *)
Fixpoint no_logical_overflow (evs : list clock_event) (c : HybridLogicalClock) : Prop :=
  match evs with
  | [] => True
  | e :: evs' =>
      (hlc_logical c < U32_MAX)%N ∧
      match e with
      | ENow _ => True
      | ERecv r _ => (ts_logical r < U32_MAX)%N
      end ∧
      no_logical_overflow evs' (clock_event_step e c).2
  end.

Definition clock_wf (c : HybridLogicalClock) : Prop :=
  (hlc_wall c ≤ U64_MAX)%N ∧ (hlc_logical c ≤ U32_MAX)%N.

Definition event_wf (e : clock_event) : Prop :=
  match e with
  | ENow sys => (sys ≤ U64_MAX)%N
  | ERecv r sys => (ts_wall r ≤ U64_MAX)%N ∧ (ts_logical r ≤ U32_MAX)%N ∧ (sys ≤ U64_MAX)%N
  end.

Definition clock_time (c : HybridLogicalClock) : HlcTimestamp :=
  HlcTimestamp_new (hlc_wall c) (hlc_logical c).

(** *** What one event does *)

Lemma now_target_wall sys w l : (now_target sys w l).1 = N.max w sys.
Proof.
  unfold now_target. destruct (N.ltb_spec w sys); simpl; [lia|].
  destruct (N.eqb_spec sys w); simpl; lia.
Qed.

Lemma received_target_wall r sys w l :
  (received_target r sys w l).1 = N.max (N.max w (ts_wall r)) sys.
Proof. done. Qed.

Lemma now_target_logical sys w l :
  (now_target sys w l).2 = if (w <? sys)%N then 0%N else wrapping_add32 l 1.
Proof. unfold now_target. repeat case_match; done. Qed.

Lemma hlc_now_above sys c : (hlc_logical c < U32_MAX)%N →
  ts_lt (clock_time c) (hlc_now sys c).1 ∧
  clock_time (hlc_now sys c).2 = (hlc_now sys c).1.
Proof.
  intros Hl. unfold hlc_now, now_target, ts_lt, clock_time.
  rewrite (wrapping_add32_small (hlc_logical c) 1) by lia.
  destruct (N.ltb_spec (hlc_wall c) sys); simpl; [split; [lia|done]|].
  destruct (N.eqb_spec sys (hlc_wall c)); simpl; split; (lia || done).
Qed.

Lemma hlc_recv_above r sys c : (hlc_logical c < U32_MAX)%N → (ts_logical r < U32_MAX)%N →
  ts_lt (clock_time c) (clock_time (hlc_update_with_received r sys c)) ∧
  ts_lt r (clock_time (hlc_update_with_received r sys c)).
Proof.
  intros Hc Hr. unfold hlc_update_with_received, received_target, ts_lt, clock_time.
  rewrite (wrapping_add32_small (N.max (hlc_logical c) (ts_logical r)) 1) by lia.
  rewrite (wrapping_add32_small (ts_logical r) 1) by lia.
  repeat (case_match; simpl); rewrite ?N.eqb_eq, ?N.eqb_neq in *; lia.
Qed.

(** Everything seen before an event is below everything the clock issues after it. *)
Lemma clock_run_above evs c t :
  no_logical_overflow evs c → t ∈ (clock_run evs c).1 →
  ts_le t (clock_time (clock_run evs c).2).
Proof.
  assert (Hmono : ∀ evs c, no_logical_overflow evs c →
    ts_le (clock_time c) (clock_time (clock_run evs c).2)).
  { clear. induction evs as [|e evs IH]; intros c; simpl; [by left|].
    intros (Hc & He & Hno). specialize (IH _ Hno).
    destruct (clock_event_step e c) as [t1 c1] eqn:Hstep.
    destruct (clock_run evs c1) as [seen c2] eqn:Hrun. simpl in *.
    rewrite Hrun in IH. simpl in IH. right. eapply ts_lt_le_trans; [|done].
    destruct e as [sys|r sys]; simpl in Hstep.
    - destruct (hlc_now_above sys c Hc) as [H1 H2]. rewrite Hstep in H1, H2.
      simpl in *. by rewrite H2.
    - destruct (hlc_recv_above r sys c Hc He) as [H1 _]. by simplify_eq. }
  revert c. induction evs as [|e evs IH]; intros c; simpl; [by intros _ ?%elem_of_nil|].
  intros (Hc & He & Hno). specialize (IH _ Hno). specialize (Hmono _ _ Hno).
  destruct (clock_event_step e c) as [t1 c1] eqn:Hstep. simpl in *.
  destruct (clock_run evs c1) as [seen c2]. simpl in *.
  intros [->|Ht]%elem_of_cons; [|by apply IH].
  destruct e as [sys|r sys]; simpl in Hstep.
  - destruct (hlc_now_above sys c Hc) as [_ H2]. rewrite Hstep in H2. simpl in H2.
    by rewrite <-H2.
  - destruct (hlc_recv_above r sys c Hc He) as [_ H2]. simplify_eq.
    right. by eapply ts_lt_le_trans.
Qed.

Lemma no_logical_overflow_app evs1 evs2 c :
  no_logical_overflow (evs1 ++ evs2) c ↔
  no_logical_overflow evs1 c ∧ no_logical_overflow evs2 (clock_run evs1 c).2.
Proof.
  revert c. induction evs1 as [|e evs1 IH]; intros c; simpl; [tauto|].
  rewrite IH. destruct (clock_event_step e c) as [t1 c1]. simpl.
  destruct (clock_run evs1 c1). simpl. tauto.
Qed.

(** ** Properties *)

(** C40: when the calls of a clock follow one another, and as long as no logical
    counter reaches the top of [u32], [now] issues a timestamp strictly above
    every timestamp the clock has issued or received before, whatever the system
    clock does in between (jumps back included): the timestamps are unique,
    increasing and causally after what was received.  Calls of several threads at
    the same time are not covered: two that overlap can be issued the same
    timestamp. *)
Theorem hlc_now_after_history c evs sys :
  no_logical_overflow (evs ++ [ENow sys]) c →
  Forall (λ t, ts_lt t (hlc_now sys (clock_run evs c).2).1) (clock_run evs c).1.
Proof.
  intros [Hno [Hl _]]%no_logical_overflow_app. apply Forall_forall. intros t Ht.
  eapply ts_le_lt_trans; [by apply clock_run_above|]. by apply hlc_now_above.
Qed.

Lemma hlc_now_after_history_witness :
  no_logical_overflow [ENow 5; ERecv (HlcTimestamp_new 9 2) 6; ENow 3; ENow 3] (hlc_new 7) ∧
  ts_lt (HlcTimestamp_new 9 2) (HlcTimestamp_new 9 5).
Proof.
  assert (H : no_logical_overflow [ENow 5; ERecv (HlcTimestamp_new 9 2) 6; ENow 3; ENow 3]
    (hlc_new 7)) by (vm_compute; tauto).
  split; [exact H|].
  pose proof (hlc_now_after_history (hlc_new 7)
    [ENow 5; ERecv (HlcTimestamp_new 9 2) 6; ENow 3] 3 H) as Hall.
  vm_compute in Hall. inversion Hall as [|? ? _ Hall2]. inversion Hall2. assumption.
Defined.

Lemma hlc_now_wf sys c : clock_wf c → (sys ≤ U64_MAX)%N → clock_wf (hlc_now sys c).2.
Proof.
  intros [Hw Hl] Hs. unfold hlc_now.
  destruct (now_target sys (hlc_wall c) (hlc_logical c)) as [nw nl] eqn:Ht.
  pose proof (now_target_wall sys (hlc_wall c) (hlc_logical c)) as H1.
  pose proof (now_target_logical sys (hlc_wall c) (hlc_logical c)) as H2.
  rewrite Ht in H1, H2. simpl in H1, H2. subst. split; simpl; [lia|].
  case_match; [unfold U32_MAX; lia|apply wrapping_add32_bound].
Qed.

(** The fields of the clock stay within their machine types. *)
Lemma clock_run_wf evs c :
  clock_wf c → Forall event_wf evs → clock_wf (clock_run evs c).2.
Proof.
  intros Hc Hevs. revert c Hc. induction Hevs as [|e evs He Hevs IH]; intros c Hc; [done|].
  simpl. destruct (clock_event_step e c) as [t c1] eqn:Hstep.
  assert (Hc1 : clock_wf c1).
  { destruct e as [sys|r sys]; simpl in *.
    - pose proof (hlc_now_wf sys c Hc He) as Hn. by rewrite Hstep in Hn.
    - injection Hstep as <- <-. destruct Hc as [Hw Hl], He as (Hrw & Hrl & Hs).
      unfold hlc_update_with_received, received_target, clock_wf. simpl.
      split; [lia|]. repeat case_match; try apply wrapping_add32_bound.
      unfold U32_MAX; lia. }
  specialize (IH c1 Hc1). destruct (clock_run evs c1). done.
Qed.

(** what the overflow of the logical counter does: with the counter at the
    top of [u32] and the system clock not ahead of the stored wall time, [now]
    issues a timestamp below the clock's own current time and raises the wrap
    flag. *)
Theorem hlc_now_overflow_goes_back sys w flag :
  (sys ≤ w)%N →
  ts_lt (hlc_now sys (Hlc w U32_MAX flag)).1 (HlcTimestamp_new w U32_MAX) ∧
  did_logical_wrap (hlc_now sys (Hlc w U32_MAX flag)).2 = true.
Proof.
  intros Hs. unfold hlc_now, now_target, did_logical_wrap. cbn [hlc_wall hlc_logical].
  destruct (N.ltb_spec w sys); [lia|].
  change (wrapping_add32 U32_MAX 1) with 0%N.
  destruct (N.eqb_spec sys w); split; try done; unfold ts_lt, U32_MAX; simpl; lia.
Qed.

Lemma hlc_now_overflow_goes_back_witness :
  (3 ≤ 8)%N ∧ ts_lt (hlc_now 3 (Hlc 8 U32_MAX false)).1 (HlcTimestamp_new 8 U32_MAX).
Proof. split; [lia|]. apply (hlc_now_overflow_goes_back 3 8 false). lia. Defined.

(** the wrap flag is also raised by an ordinary advance of the wall clock:
    whenever the system clock is ahead and the counter is not 0, [now] resets
    the counter without any overflow and yet reports a wrap. *)
Theorem hlc_wrap_flag_on_plain_advance c sys :
  (hlc_wall c < sys)%N → (0 < hlc_logical c)%N →
  ts_lt (clock_time c) (hlc_now sys c).1 ∧
  did_logical_wrap (hlc_now sys c).2 = true.
Proof.
  intros Hs Hl. unfold hlc_now, now_target, did_logical_wrap, flag_wrap.
  destruct (N.ltb_spec (hlc_wall c) sys); [|lia]. simpl.
  destruct (N.ltb_spec 0 (hlc_logical c)); [|lia].
  split; [|done]. unfold ts_lt. simpl. lia.
Qed.

Lemma hlc_wrap_flag_on_plain_advance_witness :
  did_logical_wrap (hlc_now 11 (Hlc 10 1 false)).2 = true.
Proof. apply (hlc_wrap_flag_on_plain_advance (Hlc 10 1 false) 11); simpl; lia. Defined.

(** *** Interleavings *)

(** The target of a thread between its computation and its swap is at or above
    the wall time it read. *)
Definition thread_ok (t : thread) : Prop :=
  match t with
  | TTarget _ w _ nw _ => (w ≤ nw)%N
  | _ => True
  end.

Lemma thread_step_ok c t c' t' :
  thread_step c t c' t' → thread_ok t → thread_ok t' ∧ (hlc_wall c ≤ hlc_wall c')%N.
Proof.
  destruct 1 as [| |c sys w l nw nl Ht|c r sys w l nw nl Ht| | | | |]; simpl; intros Hok;
    try (split; [done|lia]).
  - pose proof (now_target_wall sys w l) as Hw. rewrite Ht in Hw. simpl in Hw. lia.
  - pose proof (received_target_wall r sys w l) as Hw. rewrite Ht in Hw. simpl in Hw. lia.
Qed.

Lemma clock_step_wall cfg cfg' :
  clock_step cfg cfg' → Forall thread_ok cfg.2 →
  Forall thread_ok cfg'.2 ∧ (hlc_wall cfg.1 ≤ hlc_wall cfg'.1)%N.
Proof.
  destruct 1 as [c ts i t c' t' Hi Hstep]. simpl. intros Hall.
  apply thread_step_ok in Hstep as [Hok Hw]; [|by eapply Forall_lookup_1].
  split; [|done]. by apply Forall_insert.
Qed.

(** in every interleaving of any number of [now] and
    [update_with_received] calls the wall component of the shared clock never
    decreases. *)
Theorem clock_wall_monotone cfg cfg' :
  rtc clock_step cfg cfg' → Forall thread_ok cfg.2 →
  (hlc_wall cfg.1 ≤ hlc_wall cfg'.1)%N.
Proof.
  induction 1 as [cfg|cfg1 cfg2 cfg3 Hstep _ IH]; intros Hok; [lia|].
  apply clock_step_wall in Hstep as [Hok2 Hw]; [|done]. specialize (IH Hok2). lia.
Qed.

(** Thread [i] takes the step a rule allows. *)
Ltac take_step i rule :=
  eapply rtc_l; [eapply (clock_step_at _ _ i); [reflexivity|rule; first [done|idtac]]|]; simpl.

Lemma clock_wall_monotone_witness :
  (hlc_wall (hlc_new 4) ≤ hlc_wall (Hlc 9 0 false))%N.
Proof.
  assert (H : rtc clock_step (hlc_new 4, [TIdle (ANow 9)])
    (Hlc 9 0 false, [TSwapped (ANow 9) 0 9 0])).
  { take_step 0 ltac:(eapply step_load_wall).
    take_step 0 ltac:(eapply step_load_logical).
    take_step 0 ltac:(eapply step_target_now).
    take_step 0 ltac:(eapply step_cas_ok).
    apply rtc_refl. }
  apply (clock_wall_monotone _ _ H). constructor; [exact I|constructor].
Defined.

(** an uncontended call terminates on the first turn of its loop, and does
    to the clock, and returns, exactly what [hlc_now] and
    [hlc_update_with_received] compute: the sequential model refines the atomic
    accesses. *)
Theorem hlc_sequential_refines_atomic c sys r :
  rtc clock_step (c, [TIdle (ANow sys)])
    ((hlc_now sys c).2, [TDone (Some (hlc_now sys c).1)]) ∧
  rtc clock_step (c, [TIdle (ARecv r)])
    (hlc_update_with_received r sys c, [TDone None]).
Proof.
  split.
  - unfold hlc_now.
    destruct (now_target sys (hlc_wall c) (hlc_logical c)) as [nw nl] eqn:Ht. simpl.
    take_step 0 ltac:(eapply step_load_wall).
    take_step 0 ltac:(eapply step_load_logical).
    take_step 0 ltac:(eapply step_target_now).
    take_step 0 ltac:(eapply step_cas_ok).
    take_step 0 ltac:(eapply step_store_now).
    take_step 0 ltac:(eapply step_flag).
    apply rtc_refl.
  - unfold hlc_update_with_received.
    destruct (received_target r sys (hlc_wall c) (hlc_logical c)) as [nw nl] eqn:Ht.
    take_step 0 ltac:(eapply step_load_wall).
    take_step 0 ltac:(eapply step_load_logical).
    take_step 0 ltac:(eapply step_target_recv).
    take_step 0 ltac:(eapply step_cas_ok).
    take_step 0 ltac:(eapply step_store_recv).
    apply rtc_refl.
Qed.

(** two threads that call [now] while the system clock is not ahead of the
    stored wall time can be issued the same timestamp: the swap on the wall
    component succeeds for both, because neither changes it. *)
Theorem hlc_now_duplicate_timestamps c sys1 sys2 :
  (sys1 ≤ hlc_wall c)%N → (sys2 ≤ hlc_wall c)%N →
  ∃ c' t, rtc clock_step (c, [TIdle (ANow sys1); TIdle (ANow sys2)])
    (c', [TDone (Some t); TDone (Some t)]).
Proof.
  intros H1 H2.
  assert (Ht : ∀ sys, (sys ≤ hlc_wall c)%N →
    now_target sys (hlc_wall c) (hlc_logical c) =
      (hlc_wall c, wrapping_add32 (hlc_logical c) 1)).
  { intros sys Hs. unfold now_target. destruct (N.ltb_spec (hlc_wall c) sys); [lia|].
    by destruct (sys =? hlc_wall c)%N. }
  eexists _, (HlcTimestamp_new (hlc_wall c) (wrapping_add32 (hlc_logical c) 1)).
  take_step 0 ltac:(eapply step_load_wall).
  take_step 1 ltac:(eapply step_load_wall).
  take_step 0 ltac:(eapply step_load_logical).
  take_step 1 ltac:(eapply step_load_logical).
  take_step 0 ltac:(eapply step_target_now, Ht, H1).
  take_step 1 ltac:(eapply step_target_now, Ht, H2).
  take_step 0 ltac:(eapply step_cas_ok).
  take_step 1 ltac:(eapply step_cas_ok).
  take_step 0 ltac:(eapply step_store_now).
  take_step 1 ltac:(eapply step_store_now).
  take_step 0 ltac:(eapply step_flag).
  take_step 1 ltac:(eapply step_flag).
  apply rtc_refl.
Qed.

Lemma hlc_now_duplicate_timestamps_witness :
  ∃ c' t, rtc clock_step (hlc_new 7, [TIdle (ANow 7); TIdle (ANow 6)])
    (c', [TDone (Some t); TDone (Some t)]).
Proof. apply (hlc_now_duplicate_timestamps (hlc_new 7) 7 6); simpl; lia. Defined.
