(* ===== verification/Types.v ===== *)
(** * Data shared by the components

    The error types, the oplog entry, the mutations a coordinator exchanges
    and the persisted sync state, field for field: [error.rs],
    [oplog/entry.rs], [coordinator/traits.rs], [sync/state.rs],
    [storage/traits.rs], [crdt/snapshot.rs]. *)
From S2P Require Import Prelude.

(** ** Errors *)

Inductive VaultSyncError :=
  | EStorage (msg : string)
  | ECoordinator (msg : string)
  | ECrdt (msg : string)
  | EEncryption (msg : string)
  | ESchema (msg : string)
  | EConfig (msg : string)
  | EIo (msg : string)
  | ESqlite (msg : string)
  | EDocumentTooLarge (len limit : N)
  | EClockSkew (timestamp system : N)
  | EVersionMismatch (found registered : N) (doc_id : string).

Inductive CoordinatorError :=
  | NotAvailable
  | AuthFailed
  | SchemaMismatch
  | Timeout
  | NotSupported (msg : string)
  | Internal (msg : string).

#[export] Instance VaultSyncError_eq_dec : EqDecision VaultSyncError.
Proof. solve_decision. Defined.
#[export] Instance CoordinatorError_eq_dec : EqDecision CoordinatorError.
Proof. solve_decision. Defined.

(** The message of a [PoisonError]. *)
Definition poison_message : string := "poisoned lock: another task failed inside".

(** ** The oplog entry *)

Inductive MutationOrigin :=
  | OUnknown | OInsert | OUpdate | ODelete | OCrashRecovery | ORemotePull
  | OPushMutation | OP2PBroadcast | OSnapshot | OTestUtils | OTestHarness.

Inductive SyncStatus := Pending | Synced | Failed | Optimistic.

Inductive MutationType := CrdtUpdate | CrdtInsert | CrdtDelete | CrdtBatch.

#[export] Instance MutationOrigin_eq_dec : EqDecision MutationOrigin.
Proof. solve_decision. Defined.
#[export] Instance SyncStatus_eq_dec : EqDecision SyncStatus.
Proof. solve_decision. Defined.
#[export] Instance MutationType_eq_dec : EqDecision MutationType.
Proof. solve_decision. Defined.

(** [SyncStatus::is_uploadable]. *)
Definition is_uploadable (s : SyncStatus) : bool :=
  match s with
  | Pending | Optimistic => true
  | Synced | Failed => false
  end.

Record OplogEntry := OplogEntry_new {
  oe_id : string;
  oe_replica_id : string;
  oe_namespace : string;
  oe_mutation_type : MutationType;
  oe_doc_id : string;
  oe_record_id : string;
  oe_yrs_update : bytes;
  oe_encrypted_blob : option bytes;
  oe_timestamp : N;
  oe_sequence : option N;
  oe_sync_status : SyncStatus;
  oe_synced_at : option N;
  oe_created_at : N;
  oe_schema_version : N;
  oe_origin : MutationOrigin;
  oe_origin_context : string;
}.

#[export] Instance OplogEntry_eq_dec : EqDecision OplogEntry.
Proof. solve_decision. Defined.

(** The field assignments the storage performs on an entry. *)
Definition set_synced (sequence now : N) (e : OplogEntry) : OplogEntry :=
  OplogEntry_new (oe_id e) (oe_replica_id e) (oe_namespace e) (oe_mutation_type e)
    (oe_doc_id e) (oe_record_id e) (oe_yrs_update e) (oe_encrypted_blob e) (oe_timestamp e)
    (Some sequence) Synced (Some now) (oe_created_at e) (oe_schema_version e)
    (oe_origin e) (oe_origin_context e).

Definition set_status (st : SyncStatus) (e : OplogEntry) : OplogEntry :=
  OplogEntry_new (oe_id e) (oe_replica_id e) (oe_namespace e) (oe_mutation_type e)
    (oe_doc_id e) (oe_record_id e) (oe_yrs_update e) (oe_encrypted_blob e) (oe_timestamp e)
    (oe_sequence e) st (oe_synced_at e) (oe_created_at e) (oe_schema_version e)
    (oe_origin e) (oe_origin_context e).

Definition set_encrypted_blob (blob : bytes) (e : OplogEntry) : OplogEntry :=
  OplogEntry_new (oe_id e) (oe_replica_id e) (oe_namespace e) (oe_mutation_type e)
    (oe_doc_id e) (oe_record_id e) (oe_yrs_update e) (Some blob) (oe_timestamp e)
    (oe_sequence e) (oe_sync_status e) (oe_synced_at e) (oe_created_at e)
    (oe_schema_version e) (oe_origin e) (oe_origin_context e).

(** ** Mutations and replicas *)

Record EncryptedMutation := EncryptedMutation_new {
  em_id : string;
  em_namespace : string;
  em_replica_id : string;
  em_doc_id : string;
  em_record_id : string;
  em_encrypted_blob : bytes;
  em_timestamp : N;
  em_schema_version : N;
  em_key_version : N;
}.

Record PendingMutation := PendingMutation_new {
  pm_id : string;
  pm_namespace : string;
  pm_sequence : N;
  pm_doc_id : string;
  pm_record_id : string;
  pm_encrypted_blob : bytes;
  pm_timestamp : N;
  pm_key_version : N;
  pm_replica_id : string;
}.

Record ReplicaInfo := ReplicaInfo_new {
  ri_replica_id : string;
  ri_namespace : string;
  ri_public_key : bytes;
  ri_schema_version : N;
}.

#[export] Instance EncryptedMutation_eq_dec : EqDecision EncryptedMutation.
Proof. solve_decision. Defined.
#[export] Instance PendingMutation_eq_dec : EqDecision PendingMutation.
Proof. solve_decision. Defined.
#[export] Instance ReplicaInfo_eq_dec : EqDecision ReplicaInfo.
Proof. solve_decision. Defined.

Inductive CursorValidation := CVUnknown | CVValid | CVInvalid.

#[export] Instance CursorValidation_eq_dec : EqDecision CursorValidation.
Proof. solve_decision. Defined.

(** ** Snapshots and statistics *)

Record Snapshot := Snapshot_new {
  sn_doc_id : string;
  sn_record_id : string;
  sn_schema_version : N;
  sn_sequence : N;
  sn_created_at : N;
  sn_bytes : bytes;
  sn_checksum : N;
}.

#[export] Instance Snapshot_eq_dec : EqDecision Snapshot.
Proof. solve_decision. Defined.

Record CompactionStats := CompactionStats_new {
  cs_oplog_removed : nat;
  cs_docs_removed : nat;
  cs_snapshots_collapsed : nat;
}.

(** The ways a call ends without a value: an error, or a panic of the code. *)
Inductive fault (E : Type) := Fail (e : E) | Panicked.
Arguments Fail {E} e.
Arguments Panicked {E}.

Definition may_fault {S E A} (m : SM S E A) : SM S (fault E) A := sm_map_err Fail m.

(** The outcome of a call as a value, as [match] on its [Result] sees it: a
    panic is not caught. *)
Definition try_fault {S E A} (m : SM S (fault E) A) : SM S (fault E) (result A E) := λ s,
  match m s with
  | (Ok a, s') => (Ok (Ok a), s')
  | (Err (Fail e), s') => (Ok (Err e), s')
  | (Err Panicked, s') => (Err Panicked, s')
  end.

(** ** Persisted sync state, schemas, migrations and keys *)

Inductive ConnectionStatus := Connected | Disconnected | Syncing.

(** [ConnectionStatus::from_str]. *)
Definition connection_status_from_str (s : string) : ConnectionStatus :=
  if bool_decide (s = "Connected") then Connected
  else if bool_decide (s = "Syncing") then Syncing
  else Disconnected.

Record SyncState := SyncState_new {
  ss_namespace : string;
  ss_replica_id : string;
  ss_last_synced_sequence : N;
  ss_connection_status : ConnectionStatus;
  ss_leader_status : option bool;
  ss_last_connected_at : option N;
  ss_last_sync_at : option N;
  ss_schema_version : N;
  ss_generation_id : string;
}.

Record SchemaMeta := SchemaMeta_new {
  sm_doc_id : string;
  sm_version : N;
  sm_schema_bytes : bytes;
}.

Record MigrationRecord := MigrationRecord_new {
  mr_version : string;
  mr_applied_at : N;
  mr_checksum : string;
}.

Record KeyRecord := KeyRecord_new {
  kr_namespace : string;
  kr_key_bytes : bytes;
  kr_version : N;
}.

#[export] Instance ConnectionStatus_eq_dec : EqDecision ConnectionStatus.
Proof. solve_decision. Defined.
#[export] Instance SyncState_eq_dec : EqDecision SyncState.
Proof. solve_decision. Defined.
