(* ===== verification/Storage.v ===== *)
(** * Local storage

    The [Storage] trait ([storage/traits.rs]) as a class of operations over a
    state type, what the synchronization engine relies on of an implementation
    ([StorageSpec]), and [InMemoryStorage] ([storage/memory.rs]), which
    discharges it.  Readings of the system clock are arguments. *)
From S2P Require Import Prelude Types.

Abbreviation doc_key := (string * string)%type.

Class Storage (S : Type) := {
  storage_tx : Type;
  insert_document : string → string → bytes → SM S VaultSyncError unit;
  get_document : string → string → SM S VaultSyncError (option bytes);
  delete_document : string → string → SM S VaultSyncError unit;
  list_documents : string → SM S VaultSyncError (list (string * bytes));
  write_document_and_oplog :
    string → string → bytes → OplogEntry → SM S VaultSyncError unit;
  delete_document_and_oplog : string → string → OplogEntry → SM S VaultSyncError unit;
  append_oplog : OplogEntry → SM S VaultSyncError unit;
  read_pending_oplog : string → nat → SM S VaultSyncError (list OplogEntry);
  mark_synced : N → string → N → SM S VaultSyncError unit;
  mark_failed : string → string → SM S VaultSyncError unit;
  read_oplog_after_sequence : string → N → SM S VaultSyncError (list OplogEntry);
  read_sync_state : string → SM S VaultSyncError (option SyncState);
  write_sync_state : SyncState → SM S VaultSyncError unit;
  read_schema : string → SM S VaultSyncError (option SchemaMeta);
  write_schema : SchemaMeta → SM S VaultSyncError unit;
  list_schemas : SM S VaultSyncError (list SchemaMeta);
  read_migrations : SM S VaultSyncError (list MigrationRecord);
  write_migration : MigrationRecord → SM S VaultSyncError unit;
  read_keys : string → SM S VaultSyncError (list KeyRecord);
  write_key : KeyRecord → SM S VaultSyncError unit;
  reset_stale_pending : N → string → N → SM S VaultSyncError nat;
  delete_synced_oplog_older_than : N → string → N → SM S VaultSyncError nat;
  list_tombstoned_documents : N → string → N → SM S VaultSyncError (list doc_key);
  update_oplog_encrypted_blob : string → bytes → SM S VaultSyncError unit;
  list_active_documents : string → SM S VaultSyncError (list doc_key);
  read_synced_oplog_for_document :
    string → string → string → SM S VaultSyncError (list OplogEntry);
  delete_synced_oplog_before_timestamp :
    string → string → string → N → SM S VaultSyncError nat;
  delete_synced_before : string → N → SM S VaultSyncError nat;
  write_batch_reconciliation :
    list (string * string * bytes) → SM S VaultSyncError unit;
  pending_count : string → SM S VaultSyncError nat;
  begin_transaction : SM S VaultSyncError storage_tx;
  (** [tx.mark_synced] on the buffered transaction; [tx.commit]. *)
  tx_mark_synced : storage_tx → string → N → result unit VaultSyncError * storage_tx;
  tx_commit : N → storage_tx → SM S VaultSyncError unit;
}.

(** ** Tests on entries, as the source's closures write them *)

Definition in_namespace (ns : string) (e : OplogEntry) : bool :=
  bool_decide (oe_namespace e = ns).
Definition has_id (id : string) (e : OplogEntry) : bool := bool_decide (oe_id e = id).
Definition is_synced (e : OplogEntry) : bool := bool_decide (oe_sync_status e = Synced).
Definition of_document (doc_id record_id : string) (e : OplogEntry) : bool :=
  bool_decide (oe_doc_id e = doc_id) && bool_decide (oe_record_id e = record_id).
Definition uploadable_in (ns : string) (e : OplogEntry) : bool :=
  in_namespace ns e && is_uploadable (oe_sync_status e).
Definition entry_key (e : OplogEntry) : doc_key := (oe_doc_id e, oe_record_id e).

(** The entries of a log an upload batch may take. *)
Definition pending_of (ns : string) (log : list OplogEntry) : list OplogEntry :=
  filterb (uploadable_in ns) log.

(** ** The in-memory implementation *)

Module InMemoryStorage.

Record t := mk {
  documents : rwlock (gmap doc_key bytes);
  oplog : rwlock (list OplogEntry);
  sync_states : rwlock (gmap string SyncState);
  schemas : rwlock (gmap string SchemaMeta);
  migrations : rwlock (list MigrationRecord);
  keys : rwlock (list KeyRecord);
}.

Definition new : t := mk (rw_new ∅) (rw_new []) (rw_new ∅) (rw_new ∅) (rw_new []) (rw_new []).

Definition with_documents (f : gmap doc_key bytes → gmap doc_key bytes) (s : t) : t :=
  mk (rw_update f (documents s)) (oplog s) (sync_states s) (schemas s) (migrations s) (keys s).
Definition with_oplog (f : list OplogEntry → list OplogEntry) (s : t) : t :=
  mk (documents s) (rw_update f (oplog s)) (sync_states s) (schemas s) (migrations s) (keys s).

Abbreviation M := (SM t VaultSyncError).

Definition lock {A} (get : t → rwlock A) : M A := rw_lock (EStorage poison_message) get.

Definition insert_document (doc_id record_id : string) (bs : bytes) : M unit :=
  lock documents;;
  sm_modify (with_documents <[(doc_id, record_id) := bs]>).

Definition get_document (doc_id record_id : string) : M (option bytes) :=
  docs ← lock documents;
  mret (docs !! (doc_id, record_id)).

Definition delete_document (doc_id record_id : string) : M unit :=
  lock documents;;
  sm_modify (with_documents (delete (doc_id, record_id))).

Definition write_document_and_oplog (doc_id record_id : string) (bs : bytes)
    (entry : OplogEntry) : M unit :=
  lock documents;;
  lock oplog;;
  sm_modify (with_documents <[(doc_id, record_id) := bs]>);;
  sm_modify (with_oplog (λ log, log ++ [entry])).

Definition delete_document_and_oplog (doc_id record_id : string) (entry : OplogEntry) : M unit :=
  lock documents;;
  lock oplog;;
  sm_modify (with_documents (delete (doc_id, record_id)));;
  sm_modify (with_oplog (λ log, log ++ [entry])).

Definition list_documents (doc_id : string) : M (list (string * bytes)) :=
  docs ← lock documents;
  mret (omap (λ '((did, rid), bs), if bool_decide (did = doc_id) then Some (rid, bs) else None)
    (map_to_list docs)).

Definition append_oplog (entry : OplogEntry) : M unit :=
  lock oplog;;
  sm_modify (with_oplog (λ log, log ++ [entry])).

Definition read_pending_oplog (ns : string) (limit : nat) : M (list OplogEntry) :=
  log ← lock oplog;
  mret (take limit (filterb (λ e, in_namespace ns e && is_uploadable (oe_sync_status e)) log)).

Definition mark_synced (now_secs : N) (id : string) (sequence : N) : M unit :=
  lock oplog;;
  sm_modify (with_oplog (map_if (has_id id) (set_synced sequence now_secs))).

Definition mark_failed (id : string) (_error : string) : M unit :=
  lock oplog;;
  sm_modify (with_oplog (map_if (has_id id) (set_status Failed))).

Definition read_oplog_after_sequence (ns : string) (seq : N) : M (list OplogEntry) :=
  log ← lock oplog;
  mret (filterb (λ e, in_namespace ns e &&
    match oe_sequence e with Some s => (seq <? s)%N | None => false end) log).

Definition read_sync_state (ns : string) : M (option SyncState) :=
  states ← lock sync_states;
  mret (states !! ns).

Definition write_sync_state (state : SyncState) : M unit :=
  lock sync_states;;
  sm_modify (λ s, mk (documents s) (oplog s)
    (rw_update <[ss_namespace state := state]> (sync_states s))
    (schemas s) (migrations s) (keys s)).

Definition read_schema (doc_id : string) : M (option SchemaMeta) :=
  m ← lock schemas;
  mret (m !! doc_id).

Definition write_schema (meta : SchemaMeta) : M unit :=
  lock schemas;;
  sm_modify (λ s, mk (documents s) (oplog s) (sync_states s)
    (rw_update <[sm_doc_id meta := meta]> (schemas s)) (migrations s) (keys s)).

Definition list_schemas : M (list SchemaMeta) :=
  m ← lock schemas;
  mret (map snd (map_to_list m)).

Definition read_migrations : M (list MigrationRecord) := lock migrations.

Definition write_migration (record : MigrationRecord) : M unit :=
  lock migrations;;
  sm_modify (λ s, mk (documents s) (oplog s) (sync_states s) (schemas s)
    (rw_update (λ l, l ++ [record]) (migrations s)) (keys s)).

Definition read_keys (ns : string) : M (list KeyRecord) :=
  ks ← lock keys;
  mret (filterb (λ k, bool_decide (kr_namespace k = ns)) ks).

Definition write_key (key : KeyRecord) : M unit :=
  lock keys;;
  sm_modify (λ s, mk (documents s) (oplog s) (sync_states s) (schemas s) (migrations s)
    (rw_update (λ l, l ++ [key]) (keys s))).

Definition stale_pending (ns : string) (threshold : N) (e : OplogEntry) : bool :=
  in_namespace ns e && negb (is_synced e) && (oe_created_at e <? threshold)%N.

Definition reset_stale_pending (now : N) (ns : string) (older_than_ms : N) : M nat :=
  log ← lock oplog;
  let threshold := saturating_sub now older_than_ms in
  sm_modify (with_oplog (map_if (stale_pending ns threshold) (set_status Pending)));;
  mret (length (filterb (stale_pending ns threshold) log)).

(** [oplog.retain(|e| !p(e))], returning how many entries went. *)
Definition retain_not (p : OplogEntry → bool) : M nat :=
  log ← lock oplog;
  sm_modify (with_oplog (filterb (λ e, negb (p e))));;
  mret (length log - length (filterb (λ e, negb (p e)) log)).

Definition delete_synced_oplog_older_than (now_secs : N) (ns : string)
    (older_than_secs : N) : M nat :=
  let threshold := saturating_sub now_secs older_than_secs in
  retain_not (λ e, in_namespace ns e && is_synced e &&
    (default 0%N (oe_synced_at e) <? threshold)%N).

Definition list_tombstoned_documents (now_ms : N) (ns : string)
    (older_than_secs : N) : M (list doc_key) :=
  log ← lock oplog;
  let threshold := saturating_sub now_ms (wrapping_mul64 older_than_secs 1000) in
  mret (elements (list_to_set (map entry_key (filterb (λ e,
    in_namespace ns e && bool_decide (oe_mutation_type e = CrdtDelete) && is_synced e &&
    (oe_created_at e <? threshold)%N) log)) : gset doc_key)).

Definition update_oplog_encrypted_blob (id : string) (new_blob : bytes) : M unit :=
  lock oplog;;
  sm_modify (with_oplog (update_first (has_id id) (set_encrypted_blob new_blob))).

Definition list_active_documents (ns : string) : M (list doc_key) :=
  log ← lock oplog;
  mret (elements (list_to_set (map entry_key (filterb (in_namespace ns) log)) : gset doc_key)).

Definition read_synced_oplog_for_document (ns doc_id record_id : string) :
    M (list OplogEntry) :=
  log ← lock oplog;
  mret (filterb (λ e, in_namespace ns e && of_document doc_id record_id e && is_synced e) log).

Definition delete_synced_oplog_before_timestamp (ns doc_id record_id : string)
    (timestamp : N) : M nat :=
  retain_not (λ e, in_namespace ns e && of_document doc_id record_id e && is_synced e &&
    (oe_created_at e <? timestamp)%N).

Definition delete_synced_before (ns : string) (cutoff_ms : N) : M nat :=
  retain_not (λ e, in_namespace ns e && is_synced e && (oe_created_at e <? cutoff_ms)%N).

Definition write_batch_reconciliation (docs : list (string * string * bytes)) : M unit :=
  lock documents;;
  for_each (λ '(doc_id, record_id, bs),
    sm_modify (with_documents <[(doc_id, record_id) := bs]>)) docs.

(** The trait's default [pending_count] and [begin_transaction]. *)
Definition pending_count (ns : string) : M nat :=
  l ← read_pending_oplog ns (N.to_nat 50000);
  mret (length l).

Definition begin_transaction : M Empty_set :=
  sm_fail (EStorage "transactions not supported").

End InMemoryStorage.

#[export] Instance in_memory_storage : Storage InMemoryStorage.t := {|
  storage_tx := Empty_set;
  insert_document := InMemoryStorage.insert_document;
  get_document := InMemoryStorage.get_document;
  delete_document := InMemoryStorage.delete_document;
  list_documents := InMemoryStorage.list_documents;
  write_document_and_oplog := InMemoryStorage.write_document_and_oplog;
  delete_document_and_oplog := InMemoryStorage.delete_document_and_oplog;
  append_oplog := InMemoryStorage.append_oplog;
  read_pending_oplog := InMemoryStorage.read_pending_oplog;
  mark_synced := InMemoryStorage.mark_synced;
  mark_failed := InMemoryStorage.mark_failed;
  read_oplog_after_sequence := InMemoryStorage.read_oplog_after_sequence;
  read_sync_state := InMemoryStorage.read_sync_state;
  write_sync_state := InMemoryStorage.write_sync_state;
  read_schema := InMemoryStorage.read_schema;
  write_schema := InMemoryStorage.write_schema;
  list_schemas := InMemoryStorage.list_schemas;
  read_migrations := InMemoryStorage.read_migrations;
  write_migration := InMemoryStorage.write_migration;
  read_keys := InMemoryStorage.read_keys;
  write_key := InMemoryStorage.write_key;
  reset_stale_pending := InMemoryStorage.reset_stale_pending;
  delete_synced_oplog_older_than := InMemoryStorage.delete_synced_oplog_older_than;
  list_tombstoned_documents := InMemoryStorage.list_tombstoned_documents;
  update_oplog_encrypted_blob := InMemoryStorage.update_oplog_encrypted_blob;
  list_active_documents := InMemoryStorage.list_active_documents;
  read_synced_oplog_for_document := InMemoryStorage.read_synced_oplog_for_document;
  delete_synced_oplog_before_timestamp := InMemoryStorage.delete_synced_oplog_before_timestamp;
  delete_synced_before := InMemoryStorage.delete_synced_before;
  write_batch_reconciliation := InMemoryStorage.write_batch_reconciliation;
  pending_count := InMemoryStorage.pending_count;
  begin_transaction := InMemoryStorage.begin_transaction;
  tx_mark_synced := λ tx _ _, match tx with end;
  tx_commit := λ _ tx, match tx with end;
|}.

(** ** The abstract store

    What the synchronization engine relies on: a map of documents and a log of
    entries, read and changed by pure functions.  An implementation in good
    health performs the abstract operation; one that fails has changed
    neither. *)

Record astore := AStore {
  a_docs : gmap doc_key bytes;
  a_log : list OplogEntry;
}.

Definition a_insert (doc_id record_id : string) (bs : bytes) (a : astore) : astore :=
  AStore (<[(doc_id, record_id) := bs]> (a_docs a)) (a_log a).
Definition a_delete (doc_id record_id : string) (a : astore) : astore :=
  AStore (delete (doc_id, record_id) (a_docs a)) (a_log a).
Definition a_append (entry : OplogEntry) (a : astore) : astore :=
  AStore (a_docs a) (a_log a ++ [entry]).
Definition a_mark_synced (now : N) (id : string) (seq : N) (a : astore) : astore :=
  AStore (a_docs a) (map_if (has_id id) (set_synced seq now) (a_log a)).
Definition a_mark_failed (id : string) (a : astore) : astore :=
  AStore (a_docs a) (map_if (has_id id) (set_status Failed) (a_log a)).
Definition a_drop (p : OplogEntry → bool) (a : astore) : astore :=
  AStore (a_docs a) (filterb (λ e, negb (p e)) (a_log a)).
Definition a_write_batch (docs : list (string * string * bytes)) (a : astore) : astore :=
  foldl (λ a '(d, r, b), a_insert d r b a) a docs.
(** [entry.sync_status = Pending] for the entries that are not synced and older
    than the threshold. *)
Definition a_reset_stale (ns : string) (threshold : N) (a : astore) : astore :=
  AStore (a_docs a) (map_if (InMemoryStorage.stale_pending ns threshold) (set_status Pending) (a_log a)).
Definition a_update_blob (id : string) (blob : bytes) (a : astore) : astore :=
  AStore (a_docs a) (update_first (has_id id) (set_encrypted_blob blob) (a_log a)).

(** The tests of the three clean-up operations. *)
Definition synced_before (ns : string) (cutoff : N) (e : OplogEntry) : bool :=
  in_namespace ns e && is_synced e && (oe_created_at e <? cutoff)%N.
Definition synced_earlier (ns : string) (threshold : N) (e : OplogEntry) : bool :=
  in_namespace ns e && is_synced e && (default 0%N (oe_synced_at e) <? threshold)%N.
Definition synced_delete (ns : string) (threshold : N) (e : OplogEntry) : bool :=
  in_namespace ns e && bool_decide (oe_mutation_type e = CrdtDelete) && is_synced e && (oe_created_at e <? threshold)%N.
Definition synced_of_document (ns d r : string) (timestamp : N) (e : OplogEntry) : bool :=
  in_namespace ns e && of_document d r e && is_synced e && (oe_created_at e <? timestamp)%N.

Section refines.
Context {S : Type} (view : S → astore) (healthy : S → Prop).

(** [m] performs the abstract change [f] and returns [res], or fails and
    leaves the store as it was. *)
Definition refines_op {A} (m : SM S VaultSyncError A) (res : astore → A)
    (f : astore → astore) : Prop :=
  ∀ s,
    (healthy s → ∃ s', m s = (Ok (res (view s)), s') ∧ view s' = f (view s) ∧ healthy s') ∧
    (∀ e s', m s = (Err e, s') → view s' = view s) ∧
    (∀ v s', m s = (Ok v, s') → v = res (view s) ∧ view s' = f (view s)).

(** [m] lists, in some order, the documents of the entries that satisfy [p]. *)
Definition lists_keys (m : SM S VaultSyncError (list doc_key)) (p : OplogEntry → bool) : Prop :=
  ∀ s, healthy s → ∃ keys s', m s = (Ok keys, s') ∧ view s' = view s ∧ healthy s' ∧
    ∀ key, key ∈ keys ↔ key ∈ map entry_key (filterb p (a_log (view s))).

(** [m] lists, in some order, each record of [d] once, with its document. *)
Definition lists_documents (m : SM S VaultSyncError (list (string * bytes))) (d : string) : Prop :=
  ∀ s,
    (healthy s → ∃ l s', m s = (Ok l, s') ∧ healthy s') ∧
    (∀ e s', m s = (Err e, s') → view s' = view s) ∧
    (∀ l s', m s = (Ok l, s') → view s' = view s ∧ NoDup l.*1 ∧
      ∀ r b, (r, b) ∈ l ↔ a_docs (view s) !! (d, r) = Some b).
End refines.

Class StorageSpec (S : Type) `{Storage S} := {
  st_view : S → astore;
  st_healthy : S → Prop;
  get_document_ok d r : refines_op st_view st_healthy (get_document d r)
    (λ a, a_docs a !! (d, r)) id;
  insert_document_ok d r b : refines_op st_view st_healthy (insert_document d r b)
    (λ _, tt) (a_insert d r b);
  delete_document_ok d r : refines_op st_view st_healthy (delete_document d r)
    (λ _, tt) (a_delete d r);
  write_document_and_oplog_ok d r b e :
    refines_op st_view st_healthy (write_document_and_oplog d r b e)
      (λ _, tt) (λ a, a_append e (a_insert d r b a));
  delete_document_and_oplog_ok d r e :
    refines_op st_view st_healthy (delete_document_and_oplog d r e)
      (λ _, tt) (λ a, a_append e (a_delete d r a));
  append_oplog_ok e : refines_op st_view st_healthy (append_oplog e) (λ _, tt) (a_append e);
  read_pending_ok ns limit : refines_op st_view st_healthy (read_pending_oplog ns limit)
    (λ a, take limit (pending_of ns (a_log a))) id;
  mark_synced_ok now ent seq : refines_op st_view st_healthy (mark_synced now ent seq)
    (λ _, tt) (a_mark_synced now ent seq);
  mark_failed_ok ent msg : refines_op st_view st_healthy (mark_failed ent msg)
    (λ _, tt) (a_mark_failed ent);
  update_blob_ok ent blob : refines_op st_view st_healthy (update_oplog_encrypted_blob ent blob)
    (λ _, tt) (a_update_blob ent blob);
  delete_synced_before_ok ns cutoff :
    refines_op st_view st_healthy (delete_synced_before ns cutoff)
      (λ a, length (filterb (synced_before ns cutoff) (a_log a)))
      (a_drop (synced_before ns cutoff));
  delete_synced_older_ok now ns secs :
    refines_op st_view st_healthy (delete_synced_oplog_older_than now ns secs)
      (λ a, length (filterb (synced_earlier ns (saturating_sub now secs)) (a_log a)))
      (a_drop (synced_earlier ns (saturating_sub now secs)));
  delete_synced_of_document_ok ns d r t :
    refines_op st_view st_healthy (delete_synced_oplog_before_timestamp ns d r t)
      (λ a, length (filterb (synced_of_document ns d r t) (a_log a)))
      (a_drop (synced_of_document ns d r t));
  read_synced_for_document_ok ns d r :
    refines_op st_view st_healthy (read_synced_oplog_for_document ns d r)
      (λ a, filterb (λ e, in_namespace ns e && of_document d r e && is_synced e) (a_log a)) id;
  write_batch_ok docs : refines_op st_view st_healthy (write_batch_reconciliation docs)
    (λ _, tt) (a_write_batch docs);
  pending_count_ok ns : refines_op st_view st_healthy (pending_count ns)
    (λ a, length (take (N.to_nat 50000) (pending_of ns (a_log a)))) id;
  reset_stale_ok now ns ms : refines_op st_view st_healthy (reset_stale_pending now ns ms)
    (λ a, length (filterb (InMemoryStorage.stale_pending ns (saturating_sub now ms)) (a_log a)))
    (a_reset_stale ns (saturating_sub now ms));
  list_tombstoned_ok now ns secs : lists_keys st_view st_healthy (list_tombstoned_documents now ns secs)
    (synced_delete ns (saturating_sub now (wrapping_mul64 secs 1000)));
  list_active_ok ns : lists_keys st_view st_healthy (list_active_documents ns) (in_namespace ns);
}.

(** The readings that only some callers use. *)
Definition after_sequence (ns : string) (seq : N) (e : OplogEntry) : bool :=
  in_namespace ns e && match oe_sequence e with Some s => (seq <? s)%N | None => false end.

Class ListingSpec (S : Type) {HS : Storage S} {HSpec : StorageSpec S} := {
  list_documents_ok d : lists_documents st_view st_healthy (list_documents d) d;
  read_after_sequence_ok ns seq : refines_op st_view st_healthy (read_oplog_after_sequence ns seq)
    (λ a, filterb (after_sequence ns seq) (a_log a)) id;
}.

(** A transaction buffers the marks made on it; a commit applies them together
    or reports an error and applies none. *)
Class TransactionSpec (S : Type) {HS : Storage S} {HSpec : StorageSpec S} := {
  tx_buffer : storage_tx → list (string * N);
  begin_transaction_ok s : ∃ r s', begin_transaction s = (r, s') ∧ st_view s' = st_view s ∧
    (st_healthy s → st_healthy s') ∧ (∀ tx, r = Ok tx → tx_buffer tx = []);
  tx_mark_synced_ok tx ent seq tx' : tx_mark_synced tx ent seq = (Ok tt, tx') →
    tx_buffer tx' = tx_buffer tx ++ [(ent, seq)];
  tx_mark_synced_err tx ent seq e tx' : tx_mark_synced tx ent seq = (Err e, tx') →
    tx_buffer tx' = tx_buffer tx;
  tx_commit_ok now tx s : ∃ r s', tx_commit now tx s = (r, s') ∧ (st_healthy s → st_healthy s') ∧
    st_view s' = match r with
                 | Ok _ => foldl (λ a '(ent, seq), a_mark_synced now ent seq a) (st_view s) (tx_buffer tx)
                 | Err _ => st_view s
                 end;
}.

(** ** The in-memory storage implements the abstract store *)

Section in_memory.
Import InMemoryStorage.

Definition mem_view (s : t) : astore := AStore (rw_val (documents s)) (rw_val (oplog s)).
Definition mem_healthy (s : t) : Prop :=
  rw_poisoned (documents s) = false ∧ rw_poisoned (oplog s) = false.

(** The three parts of [refines_op], once the poison flags are known. *)
Ltac mem_refines :=
  split;
  [intros [? ?]; first [discriminate|eexists; split; [reflexivity|done]]
  |split; [intros ? ? Hrun; first [discriminate|injection Hrun as <- <-; done]
          |intros ? ? Hrun; first [discriminate|injection Hrun as <- <-; done]]].

Lemma mem_read_ok {A} (f : list OplogEntry → A) :
  refines_op mem_view mem_healthy (log ← lock oplog; mret (f log)) (λ a, f (a_log a)) id.
Proof.
  intros [docs [log lp] ss sc mi ke]. unfold mem_view, mem_healthy.
  destruct lp; sm_simpl; mem_refines.
Qed.

Lemma mem_retain_not_ok p : refines_op mem_view mem_healthy (retain_not p)
  (λ a, length (filterb p (a_log a))) (a_drop p).
Proof.
  intros [docs [log lp] ss sc mi ke]. unfold mem_view, mem_healthy, retain_not.
  pose proof (filterb_split_length p log) as Hlen.
  assert (length log - length (filterb (λ e, negb (p e)) log) = length (filterb p log)) as Heq
    by lia.
  destruct lp; sm_simpl; rewrite ?Heq; mem_refines.
Qed.

Lemma mem_oplog_write_ok (f : list OplogEntry → list OplogEntry) :
  refines_op mem_view mem_healthy (lock oplog;; sm_modify (with_oplog f))
    (λ _, tt) (λ a, AStore (a_docs a) (f (a_log a))).
Proof.
  intros [docs [log lp] ss sc mi ke]. unfold mem_view, mem_healthy.
  destruct lp; sm_simpl; mem_refines.
Qed.

Lemma mem_docs_write_ok (f : gmap doc_key bytes → gmap doc_key bytes) :
  refines_op mem_view mem_healthy (lock documents;; sm_modify (with_documents f))
    (λ _, tt) (λ a, AStore (f (a_docs a)) (a_log a)).
Proof.
  intros [[docs dp] log ss sc mi ke]. unfold mem_view, mem_healthy.
  destruct dp; sm_simpl; mem_refines.
Qed.

Lemma mem_write_both_ok (f : gmap doc_key bytes → gmap doc_key bytes) e :
  refines_op mem_view mem_healthy
    (lock documents;; lock oplog;; sm_modify (with_documents f);;
     sm_modify (with_oplog (λ log, log ++ [e])))
    (λ _, tt) (λ a, AStore (f (a_docs a)) (a_log a ++ [e])).
Proof.
  intros [[docs dp] [log lp] ss sc mi ke]. unfold mem_view, mem_healthy.
  destruct dp, lp; sm_simpl; mem_refines.
Qed.

Lemma mem_keys_ok (p : OplogEntry → bool) : lists_keys mem_view mem_healthy
  (log ← lock oplog; mret (elements (list_to_set (map entry_key (filterb p log)) : gset doc_key))) p.
Proof.
  intros [docs [log lp] ss sc mi ke] [Hd Hl]. cbn in Hl. subst lp. eexists _, _. split; [reflexivity|].
  split_and!; try done. intros key. by rewrite elem_of_elements, elem_of_list_to_set.
Qed.

Lemma mem_get_document_ok d r : refines_op mem_view mem_healthy (get_document d r)
  (λ a, a_docs a !! (d, r)) id.
Proof.
  intros [[docs dp] log ss sc mi ke]. unfold mem_view, mem_healthy, get_document.
  destruct dp; sm_simpl; mem_refines.
Qed.

(** The records of one document type among all documents. *)
Lemma elem_of_records (docs : gmap doc_key bytes) d r b :
  (r, b) ∈ omap (λ '((did, rid), bs), if bool_decide (did = d) then Some (rid, bs) else None) (map_to_list docs) ↔
  docs !! (d, r) = Some b.
Proof.
  rewrite list_elem_of_omap, <-elem_of_map_to_list. split.
  - intros ([[d' r'] b'] & Hin & Heq). case_bool_decide; simplify_eq. done.
  - intros Hin. exists ((d, r), b). split; [done|]. by rewrite bool_decide_true.
Qed.

Lemma records_NoDup d (l : list (doc_key * bytes)) : NoDup l.*1 →
  NoDup (omap (λ '((did, rid), bs), if bool_decide (did = d) then Some (rid, bs) else None) l).*1.
Proof.
  induction l as [|[[d' r'] b'] l IH]; [by constructor|]. intros [Hn Hl]%NoDup_cons. simpl.
  case_bool_decide as Hd; [|by apply IH]. subst d'. simpl. constructor; [|by apply IH].
  intros ([r b] & Heq & ([[d'' r''] b''] & Hin & Hsome)%list_elem_of_omap)%list_elem_of_fmap. simpl in Heq. subst r'.
  case_bool_decide; simplify_eq. apply Hn. by apply (list_elem_of_fmap_2 fst _ _ Hin).
Qed.

Lemma mem_list_documents_ok d : lists_documents mem_view mem_healthy (list_documents d) d.
Proof.
  intros [[docs dp] log ss sc mi ke]. unfold mem_view, mem_healthy, list_documents. destruct dp; sm_simpl.
  - split_and!; [by intros [? ?]|by intros ?? [= _ <-]|done].
  - split_and!; [eauto|done|]. intros l s' [= <- <-]. split_and!; [done|apply records_NoDup, NoDup_fst_map_to_list|].
    intros r b. apply elem_of_records.
Qed.

(** The loop of the batch write inserts the documents in order. *)
Lemma mem_insert_loop docs (s : t) :
  ∃ s', for_each (λ '(d, r, b), sm_modify (with_documents <[(d, r) := b]>)) docs s
      = ((Ok tt : result unit VaultSyncError), s') ∧
    mem_view s' = a_write_batch docs (mem_view s) ∧
    rw_poisoned (documents s') = rw_poisoned (documents s) ∧ oplog s' = oplog s.
Proof.
  revert s. induction docs as [|[[d r] b] docs IH]; intros s; [by exists s|].
  cbn [for_each]. sm_unfold.
  destruct (IH (with_documents <[(d, r) := b]> s)) as (s' & Hrun & Hview & Hp & Hl).
  exists s'. rewrite Hrun. done.
Qed.

Lemma mem_write_batch_ok docs : refines_op mem_view mem_healthy
  (write_batch_reconciliation docs) (λ _, tt) (a_write_batch docs).
Proof.
  intros s. unfold write_batch_reconciliation, lock, rw_lock, mem_healthy.
  destruct (mem_insert_loop docs s) as (s' & Hrun & Hview & Hp & Hl).
  destruct (rw_poisoned (documents s)) eqn:Hdp; sm_unfold; rewrite ?Hdp.
  - split; [by intros [? ?]|]. naive_solver.
  - rewrite Hrun. split; [|naive_solver]. intros [_ ?]. exists s'. by rewrite Hp, Hl.
Qed.

Lemma mem_pending_count_ok ns : refines_op mem_view mem_healthy (pending_count ns)
  (λ a, length (take (N.to_nat 50000) (pending_of ns (a_log a)))) id.
Proof.
  intros [docs [log lp] ss sc mi ke].
  unfold mem_view, mem_healthy, pending_count, read_pending_oplog.
  destruct lp; sm_unfold; cbn -[N.to_nat take]; mem_refines.
Qed.

Lemma mem_reset_stale_ok now ns ms : refines_op mem_view mem_healthy (reset_stale_pending now ns ms)
  (λ a, length (filterb (stale_pending ns (saturating_sub now ms)) (a_log a)))
  (a_reset_stale ns (saturating_sub now ms)).
Proof.
  intros [docs [log lp] ss sc mi ke]. unfold mem_view, mem_healthy, reset_stale_pending.
  destruct lp; sm_simpl; mem_refines.
Qed.
End in_memory.

#[export] Instance in_memory_storage_spec : StorageSpec InMemoryStorage.t := {|
  st_view := mem_view;
  st_healthy := mem_healthy;
  get_document_ok := mem_get_document_ok;
  insert_document_ok d r b := mem_docs_write_ok _;
  delete_document_ok d r := mem_docs_write_ok _;
  write_document_and_oplog_ok d r b e := mem_write_both_ok _ e;
  delete_document_and_oplog_ok d r e := mem_write_both_ok _ e;
  append_oplog_ok e := mem_oplog_write_ok _;
  read_pending_ok ns limit := mem_read_ok _;
  mark_synced_ok now id seq := mem_oplog_write_ok _;
  mark_failed_ok id msg := mem_oplog_write_ok _;
  update_blob_ok id blob := mem_oplog_write_ok _;
  delete_synced_before_ok ns cutoff := mem_retain_not_ok _;
  delete_synced_older_ok now ns secs := mem_retain_not_ok _;
  delete_synced_of_document_ok ns d r t := mem_retain_not_ok _;
  read_synced_for_document_ok ns d r := mem_read_ok _;
  write_batch_ok := mem_write_batch_ok;
  pending_count_ok := mem_pending_count_ok;
  reset_stale_ok := mem_reset_stale_ok;
  list_tombstoned_ok now ns secs := mem_keys_ok _;
  list_active_ok ns := mem_keys_ok _;
|}.

#[export] Instance in_memory_listing_spec : ListingSpec InMemoryStorage.t := {|
  list_documents_ok := mem_list_documents_ok;
  read_after_sequence_ok ns seq := mem_read_ok _;
|}.

#[export, program] Instance in_memory_transaction_spec : TransactionSpec InMemoryStorage.t := {|
  tx_buffer tx := match tx : Empty_set with end;
|}.
Next Obligation. intros s. by eexists _, s. Qed.
Next Obligation. by intros []. Qed.
Next Obligation. by intros []. Qed.
Next Obligation. by intros ? []. Qed.
