(* ===== verification/E2ee.v ===== *)
(** * End-to-end encryption

    [e2ee/keyring.rs], [e2ee/encrypt.rs] and [e2ee/decrypt.rs].  The
    primitives (ChaCha20-Poly1305, HKDF, SHA-256, X25519) are libraries: they
    enter as the interface [Crypto] with the documented laws [CryptoSpec].
    Random bytes and clock readings are arguments. *)
From S2P Require Import Prelude Types.

(** ** The primitives *)

Class Crypto := {
  (** [cipher.encrypt(nonce, msg)] and [cipher.decrypt(nonce, msg)], with the
      text of the error *)
  aead_encrypt : bytes → bytes → bytes → result bytes string;
  aead_decrypt : bytes → bytes → bytes → result bytes string;
  (** [Hkdf::<Sha256>::new(salt, ikm).expand(info, 32)] *)
  hkdf_sha256 : string → bytes → bytes → bytes;
  sha256 : bytes → bytes;
  (** [x25519_dalek::x25519] and its base point *)
  x25519 : bytes → bytes → bytes;
  x25519_base : bytes;
}.

(** A message up to the cipher's limit is encrypted, decryption undoes it, and
    the two sides of a key agreement get the same secret. *)
Class CryptoSpec (K : Crypto) := {
  aead_limit : N;
  aead_encrypt_ok k n m : (N.of_nat (length m) ≤ aead_limit)%N → ∃ c, aead_encrypt k n m = Ok c;
  aead_decrypt_encrypt k n m c : aead_encrypt k n m = Ok c → aead_decrypt k n c = Ok m;
  x25519_agree a b : x25519 a (x25519 b x25519_base) = x25519 b (x25519 a x25519_base);
}.

Section e2ee.
Context {K : Crypto}.

Definition derive_symmetric_namespace_key (namespace : string) (version : N) : bytes :=
  hkdf_sha256 "vaultsync-symmetric-v1" (utf8 namespace) (u64_to_le_bytes version).

(** ** Key pairs *)

Record NamespaceKeypair := Keypair {
  kp_public_key : bytes;
  kp_private_key : bytes;
  kp_version : N;
  kp_created_at : N;
}.

Definition clamp_scalar (scalar : bytes) : bytes :=
  let s := alter (λ b, N.land b 248) 0 scalar in
  let s := alter (λ b, N.land b 127) 31 s in
  alter (λ b, N.lor b 64) 31 s.

Definition generate_keypair (random : bytes) (now_secs version : N) : NamespaceKeypair :=
  let private_key := clamp_scalar random in
  Keypair (x25519 private_key x25519_base) private_key version now_secs.

(** ** [KeyRing] *)

Record KeyRingInner := RingInner {
  ri_keys : list NamespaceKeypair;
  ri_active_version : N;
  ri_derived_keys_cache : gmap (string * N) bytes;
}.
Abbreviation KeyRing := (rwlock KeyRingInner).
Abbreviation M := (SM KeyRing (fault VaultSyncError)).

Definition ring_generate (random : bytes) (now_secs : N) : KeyRing :=
  rw_new (RingInner [generate_keypair random now_secs 1] 1 ∅).

Definition ring_from_key (key : NamespaceKeypair) : KeyRing :=
  rw_new (RingInner [key] (kp_version key) ∅).

(** [self.inner.read().unwrap()] and [self.inner.write().unwrap()]. *)
Definition ring_lock : M KeyRingInner := rw_lock Panicked id.
Definition ring_write (f : KeyRingInner → KeyRingInner) : M unit := ring_lock;; sm_modify (rw_update f).

Definition add_key (key : NamespaceKeypair) : M unit :=
  ring_write (λ r, RingInner (ri_keys r ++ [key])
    (if (ri_active_version r <? kp_version key)%N then kp_version key else ri_active_version r)
    (ri_derived_keys_cache r)).

Definition has_version (version : N) (k : NamespaceKeypair) : bool := (kp_version k =? version)%N.

Definition find_key (version : N) (r : KeyRingInner) : option NamespaceKeypair :=
  find (has_version version) (ri_keys r).

(** [expect("active key always present")] panics when the key is missing; the
    read guard does not poison the lock. *)
Definition active_key : M NamespaceKeypair :=
  r ← ring_lock;
  match find_key (ri_active_version r) r with
  | Some k => mret k
  | None => sm_fail Panicked
  end.

Definition key_by_version (version : N) : M (option NamespaceKeypair) :=
  r ← ring_lock; mret (find_key version r).

Definition active_version : M N := r ← ring_lock; mret (ri_active_version r).
Definition all_keys : M (list NamespaceKeypair) := r ← ring_lock; mret (ri_keys r).

Definition rotate (random : bytes) (now_secs : N) : M NamespaceKeypair :=
  r ← ring_lock;
  let new_version := wrapping_add64 (ri_active_version r) 1 in
  let keypair := generate_keypair random now_secs new_version in
  ring_write (λ r, RingInner (ri_keys r ++ [keypair]) new_version (ri_derived_keys_cache r));;
  mret keypair.

(** [retain] on the keys and on the cache. *)
Definition retain_from (cutoff : N) (r : KeyRingInner) : KeyRingInner :=
  RingInner (filterb (λ k, (cutoff <=? kp_version k)%N) (ri_keys r)) (ri_active_version r)
    (filter (λ p : string * N * bytes, (cutoff ≤ p.1.2)%N) (ri_derived_keys_cache r)).

Definition prune_old_versions (current_version : N) : M unit :=
  ring_write (retain_from (saturating_sub current_version 1)).

Definition saturating_add64 (a b : N) : N := N.min (a + b) U64_MAX.

Definition prune_to_keep (keep_versions : N) : M unit :=
  ring_write (λ r, retain_from
    (saturating_add64 (saturating_sub (ri_active_version r) keep_versions) 1) r).

Definition max_version (keys : list NamespaceKeypair) : N :=
  match kp_version <$> keys with [] => 1%N | v :: vs => foldl N.max v vs end.

Definition load_keys (loaded : list NamespaceKeypair) : M unit :=
  match loaded with
  | [] => mret tt
  | _ => ring_write (λ _, RingInner loaded (max_version loaded) ∅)
  end.

(** ** Derived keys and their cache *)

Definition get_cached_key (namespace : string) (version : N) : M (option bytes) :=
  r ← ring_lock; mret (ri_derived_keys_cache r !! (namespace, version)).

Definition insert_cached_key (namespace : string) (version : N) (key : bytes) : M unit :=
  ring_write (λ r, RingInner (ri_keys r) (ri_active_version r)
    (<[(namespace, version) := key]> (ri_derived_keys_cache r))).

Definition namespace_okm (k : NamespaceKeypair) (namespace : string) : bytes :=
  hkdf_sha256 "vaultsync-namespace" (kp_private_key k) (utf8 namespace).

Definition derive_namespace_key (namespace : string) : M bytes :=
  v ← active_version;
  cached ← get_cached_key namespace v;
  match cached with
  | Some key => mret key
  | None =>
      active ← active_key;
      let okm := namespace_okm active namespace in
      insert_cached_key namespace v okm;;
      mret okm
  end.

Definition derive_namespace_key_for_version (namespace : string) (version : N) : M (option bytes) :=
  cached ← get_cached_key namespace version;
  match cached with
  | Some key => mret (Some key)
  | None =>
      keypair ← key_by_version version;
      match keypair with
      | None => mret None
      | Some k =>
          let okm := namespace_okm k namespace in
          insert_cached_key namespace version okm;;
          mret (Some okm)
      end
  end.

(** ** Export of the private key *)

Definition derive_encryption_key (device_key : bytes) : bytes :=
  sha256 (utf8 "vaultsync-key-derivation-v1" ++ device_key).

Definition lift_fault {S A} (r : result A VaultSyncError) : SM S (fault VaultSyncError) A :=
  match r with Ok a => mret a | Err e => sm_fail (Fail e) end.

Definition encryption_error {A} (what : string) (r : result A string) : result A VaultSyncError :=
  match r with Ok a => Ok a | Err e => Err (EEncryption (what +:+ ": " +:+ e)) end.

Definition zero_nonce : bytes := replicate 12 0%N.

Definition encrypt_private_key (device_key : bytes) : M bytes :=
  active ← active_key;
  lift_fault (encryption_error "key encryption failed"
    (aead_encrypt (derive_encryption_key device_key) zero_nonce
      (kp_private_key active ++ kp_public_key active))).

Definition decrypt_private_key (now_secs : N) (encrypted device_key : bytes) :
    result NamespaceKeypair VaultSyncError :=
  match encryption_error "key decryption failed"
    (aead_decrypt (derive_encryption_key device_key) zero_nonce encrypted) with
  | Err e => Err e
  | Ok plaintext =>
      if negb (length plaintext =? 64) then Err (EEncryption "invalid decrypted key length")
      else Ok (Keypair (drop 32 plaintext) (take 32 plaintext) 0 now_secs)
  end.

(** ** Symmetric encryption of a namespace *)

Definition encrypt_symmetric (nonce plaintext : bytes) (namespace : string) : M bytes :=
  v ← active_version;
  ciphertext ← lift_fault (encryption_error "symmetric encrypt failed"
    (aead_encrypt (derive_symmetric_namespace_key namespace v) nonce plaintext));
  mret (u64_to_le_bytes v ++ nonce ++ ciphertext).

(** [decrypt_symmetric] does not use the key ring. *)
Definition decrypt_symmetric (ciphertext : bytes) (namespace : string) : result bytes VaultSyncError :=
  if length ciphertext <? 20 then Err (EEncryption "invalid ciphertext length (too short)")
  else
    let key_version := u64_from_le_bytes (take 8 ciphertext) in
    let nonce := take 12 (drop 8 ciphertext) in
    encryption_error "symmetric decrypt failed"
      (aead_decrypt (derive_symmetric_namespace_key namespace key_version) nonce (drop 20 ciphertext)).

(** ** Nonces and shared secrets

    The process-wide counter and prefix of [get_unique_nonce]; the prefix is
    drawn once. *)

Record NonceState := Nonces { no_counter : N; no_prefix : option bytes }.
Definition nonce_init : NonceState := Nonces 1 None.

Definition u64_to_be_bytes (x : N) : bytes := rev (u64_to_le_bytes x).

Definition get_unique_nonce (random : bytes) : SM NonceState (fault VaultSyncError) bytes := λ s,
  let prefix := default random (no_prefix s) in
  let counter := no_counter s in
  let s' := Nonces (wrapping_add64 counter 1) (Some prefix) in
  if (counter =? U64_MAX)%N then (Err Panicked, s')
  else (Ok (prefix ++ u64_to_be_bytes counter), s').

Definition encrypt_with_shared_secret (random plaintext shared_secret : bytes) :
    SM NonceState (fault VaultSyncError) bytes :=
  nonce ← get_unique_nonce random;
  ciphertext ← lift_fault (encryption_error "encrypt failed" (aead_encrypt shared_secret nonce plaintext));
  mret (nonce ++ ciphertext).

Definition decrypt_with_shared_secret (ciphertext shared_secret : bytes) : result bytes VaultSyncError :=
  if length ciphertext <? 12 then Err (EEncryption "invalid ciphertext length (too short)")
  else encryption_error "decrypt failed"
    (aead_decrypt shared_secret (take 12 ciphertext) (drop 12 ciphertext)).

Definition pk_encrypt (random plaintext sk recipient_pk : bytes) : SM NonceState (fault VaultSyncError) bytes :=
  encrypt_with_shared_secret random plaintext (x25519 sk recipient_pk).
Definition pk_decrypt (ciphertext sk sender_pk : bytes) : result bytes VaultSyncError :=
  decrypt_with_shared_secret ciphertext (x25519 sk sender_pk).

(** An encryptor or decryptor: the key ring it shares and its cache of
    secrets. *)
Record E2eeCodec := Codec {
  ec_keyring : KeyRing;
  ec_shared_secrets : rwlock (gmap (N * bytes) bytes);
}.
Definition codec_new (ring : KeyRing) : E2eeCodec := Codec ring (rw_new ∅).

Definition on_ring {A} (m : M A) : SM E2eeCodec (fault VaultSyncError) A :=
  zoom ec_keyring (λ r c, Codec r (ec_shared_secrets c)) m.

(** The secret shared with [peer], from the cache or computed and kept. *)
Definition shared_secret_with (peer : bytes) : SM E2eeCodec (fault VaultSyncError) bytes :=
  active ← on_ring active_key;
  let cache_key := (kp_version active, peer) in
  cache ← rw_lock Panicked ec_shared_secrets;
  match cache !! cache_key with
  | Some secret => mret secret
  | None =>
      let secret := x25519 (kp_private_key active) peer in
      rw_lock Panicked ec_shared_secrets;;
      sm_modify (λ c, Codec (ec_keyring c) (rw_update (insert cache_key secret) (ec_shared_secrets c)));;
      mret secret
  end.

Definition e2ee_encrypt (random plaintext recipient_pk : bytes) :
    SM (E2eeCodec * NonceState) (fault VaultSyncError) bytes :=
  secret ← zoom fst (λ c p, (c, p.2)) (shared_secret_with recipient_pk);
  zoom snd (λ n p, (p.1, n)) (encrypt_with_shared_secret random plaintext secret).

Definition e2ee_decrypt (ciphertext sender_pk : bytes) : SM E2eeCodec (fault VaultSyncError) bytes :=
  secret ← shared_secret_with sender_pk;
  lift_fault (decrypt_with_shared_secret ciphertext secret).
End e2ee.
Abbreviation KeyRing := (rwlock KeyRingInner).
