(* ===== verification/E2eeTheory.v ===== *)
(** * What the key ring and the ciphers promise

    The invariant of the key ring over every sequence of its operations, the
    transparency of its cache, round trips of the three encodings, and the
    uniqueness of nonces. *)
From S2P Require Import Prelude Types E2ee.

Section ring.
Context {K : Crypto}.

(** ** The invariant *)

Definition cached_ok (r : KeyRingInner) (ns : string) (v : N) (key : bytes) : Prop :=
  ∃ k, find_key v r = Some k ∧ key = namespace_okm k ns.

(** The active key is present, no version is above it, and the cache holds
    what would be derived. *)
Record ring_inv (r : KeyRingInner) : Prop := {
  ring_active : is_Some (find_key (ri_active_version r) r);
  ring_bound : Forall (λ k, (kp_version k ≤ ri_active_version r)%N) (ri_keys r);
  ring_cache : map_Forall (λ p key, cached_ok r p.1 p.2 key) (ri_derived_keys_cache r);
}.

Inductive ring_op :=
  | OpAdd (key : NamespaceKeypair)
  | OpRotate (random : bytes) (now : N)
  | OpPruneOld (current : N)
  | OpPruneKeep (keep : N)
  | OpLoad (keys : list NamespaceKeypair)
  | OpDerive (ns : string)
  | OpDeriveFor (ns : string) (version : N).

Definition ring_exec (r : KeyRing) (o : ring_op) : KeyRing :=
  match o with
  | OpAdd key => (add_key key r).2
  | OpRotate random now => (rotate random now r).2
  | OpPruneOld v => (prune_old_versions v r).2
  | OpPruneKeep n => (prune_to_keep n r).2
  | OpLoad keys => (load_keys keys r).2
  | OpDerive ns => (derive_namespace_key ns r).2
  | OpDeriveFor ns v => (derive_namespace_key_for_version ns v r).2
  end.

(** The versions a caller may ask to prune to, and no overflow. *)
Definition op_allowed (r : KeyRingInner) (o : ring_op) : Prop :=
  match o with
  | OpRotate _ _ => (ri_active_version r < U64_MAX)%N
  | OpPruneOld v => (v ≤ ri_active_version r + 1)%N
  | OpPruneKeep n => (1 ≤ n)%N ∧ (1 ≤ ri_active_version r)%N
  | _ => True
  end.

Inductive ring_reachable : KeyRing → Prop :=
  | reach_generate random now : ring_reachable (ring_generate random now)
  | reach_from_key key : ring_reachable (ring_from_key key)
  | reach_op r o : ring_reachable r → op_allowed (rw_val r) o → ring_reachable (ring_exec r o).

Lemma find_app {A} (p : A → bool) l k :
  find p (l ++ k) = match find p l with Some x => Some x | None => find p k end.
Proof. induction l as [|x l IH]; simpl; [done|]. by destruct (p x). Qed.

Lemma find_filterb {A} (p q : A → bool) l : (∀ x, p x = true → q x = true) → find p (filterb q l) = find p l.
Proof.
  intros Hpq. unfold filterb. induction l as [|x l IH]; simpl; [done|]. destruct (p x) eqn:Hp.
  - rewrite (Hpq x Hp). simpl. by rewrite Hp.
  - destruct (q x); simpl; [rewrite Hp|]; apply IH.
Qed.

Lemma find_key_app v keys key av cache av' cache' :
  is_Some (find_key v (RingInner keys av cache)) →
  find_key v (RingInner (keys ++ [key]) av' cache') = find_key v (RingInner keys av cache).
Proof. intros [k Hk]. unfold find_key in *. simpl in *. by rewrite find_app, Hk. Qed.

(** Adding a key at the end. *)
Lemma ring_inv_snoc r key av : ring_inv r → (ri_active_version r ≤ av)%N → (kp_version key ≤ av)%N →
  (av = ri_active_version r ∨ av = kp_version key) →
  ring_inv (RingInner (ri_keys r ++ [key]) av (ri_derived_keys_cache r)).
Proof.
  intros [Hact Hb Hc] Hle Hk Hav. destruct r as [keys av0 cache]. simpl in *. split; simpl.
  - destruct Hav as [->| ->]; [by rewrite (find_key_app _ _ _ av0 cache)|].
    unfold find_key. simpl. rewrite find_app. destruct (find (has_version (kp_version key)) keys); [by eexists|].
    simpl. unfold has_version. rewrite N.eqb_refl. by eexists.
  - apply Forall_app. split; [|by repeat constructor]. eapply Forall_impl; [exact Hb|]. simpl. lia.
  - intros p x Hp. destruct (Hc p x Hp) as (k & Hf & ->). exists k. split; [|done].
    rewrite (find_key_app _ _ _ av0 cache); [done|by eexists].
Qed.

Lemma retain_from_inv cutoff r : ring_inv r → (cutoff ≤ ri_active_version r)%N → ring_inv (retain_from cutoff r).
Proof.
  intros [Hact Hb Hc] Hle.
  assert (Hf : ∀ v, (cutoff ≤ v)%N → find_key v (retain_from cutoff r) = find_key v r).
  { intros v Hv. unfold find_key, retain_from. cbn. apply find_filterb. unfold has_version.
    intros k Hk%N.eqb_eq. apply N.leb_le. lia. }
  split.
  - change (ri_active_version (retain_from cutoff r)) with (ri_active_version r). by rewrite Hf.
  - cbn. apply Forall_forall. intros k [_ Hk]%elem_of_filterb. by apply (proj1 (Forall_forall _ _) Hb).
  - intros p x [Hp Hcut]%map_lookup_filter_Some. destruct (Hc p x Hp) as (k & Hk & ->). exists k.
    split; [|done]. by rewrite Hf.
Qed.

Lemma cache_insert_inv r ns v k : ring_inv r → find_key v r = Some k →
  ring_inv (RingInner (ri_keys r) (ri_active_version r)
    (<[(ns, v) := namespace_okm k ns]> (ri_derived_keys_cache r))).
Proof.
  intros [Hact Hb Hc] Hk. split; simpl; [done|done|]. apply map_Forall_insert_2; [|done]. by exists k.
Qed.

Lemma max_version_ge (l : list N) v : (v ≤ foldl N.max v l)%N ∧ Forall (λ x, (x ≤ foldl N.max v l)%N) l.
Proof.
  revert v. induction l as [|x l IH]; intros v; simpl; [split; [lia|constructor]|].
  destruct (IH (N.max v x)) as [H1 H2]. split; [lia|]. constructor; [lia|done].
Qed.

Lemma max_version_elem (l : list N) v : foldl N.max v l = v ∨ foldl N.max v l ∈ l.
Proof.
  revert v. induction l as [|x l IH]; intros v; simpl; [by left|].
  destruct (IH (N.max v x)) as [H|H]; [|right; by right]. rewrite H.
  destruct (N.max_spec v x) as [[_ ->]|[_ ->]]; [right; by left|by left].
Qed.

Lemma find_has_version v (keys : list NamespaceKeypair) : v ∈ kp_version <$> keys →
  is_Some (find (has_version v) keys).
Proof.
  intros (k & -> & Hk)%list_elem_of_fmap. induction keys as [|x keys IH]; [by apply elem_of_nil in Hk|].
  simpl. destruct (has_version (kp_version k) x) eqn:Hx; [by eexists|].
  apply elem_of_cons in Hk as [->|Hk]; [|by apply IH]. unfold has_version in Hx. by rewrite N.eqb_refl in Hx.
Qed.

Lemma load_inv k keys : ring_inv (RingInner (k :: keys) (max_version (k :: keys)) ∅).
Proof.
  unfold max_version. cbn [fmap list_fmap]. destruct (max_version_ge (kp_version <$> keys) (kp_version k)) as [H1 H2].
  split; cbn [ri_active_version ri_keys ri_derived_keys_cache].
  - apply find_has_version. cbn [ri_keys fmap list_fmap].
    destruct (max_version_elem (kp_version <$> keys) (kp_version k)) as [->|H]; [by left|by right].
  - constructor; [done|]. by rewrite Forall_fmap in H2.
  - apply map_Forall_empty.
Qed.

(** A write of the ring. *)
Lemma ring_write_ok f r : rw_poisoned r = false → ring_write f r = (Ok tt, rw_update f r).
Proof. intros Hp. unfold ring_write, ring_lock, rw_lock, id. sm_unfold. by rewrite Hp. Qed.

Lemma ring_lock_ok r : rw_poisoned r = false → ring_lock r = (Ok (rw_val r), r).
Proof. intros Hp. unfold ring_lock, rw_lock, id. by rewrite Hp. Qed.

Lemma rotate_ok random now r : rw_poisoned r = false →
  let v := wrapping_add64 (ri_active_version (rw_val r)) 1 in
  let k := generate_keypair random now v in
  rotate random now r = (Ok k, rw_update (λ i, RingInner (ri_keys i ++ [k]) v (ri_derived_keys_cache i)) r).
Proof.
  intros Hp. unfold rotate. erewrite sm_bind_ok by (by apply ring_lock_ok). cbv zeta.
  by erewrite sm_bind_ok by (by apply ring_write_ok).
Qed.

Lemma derive_for_ok ns v r : rw_poisoned r = false → ring_inv (rw_val r) →
  ∃ r', derive_namespace_key_for_version ns v r =
      (Ok ((λ k, namespace_okm k ns) <$> find_key v (rw_val r)), r') ∧
    rw_poisoned r' = false ∧ ring_inv (rw_val r').
Proof.
  intros Hp Hinv. unfold derive_namespace_key_for_version, get_cached_key, key_by_version, insert_cached_key.
  erewrite sm_bind_ok by (by erewrite sm_bind_ok by (by apply ring_lock_ok)).
  destruct (ri_derived_keys_cache (rw_val r) !! (ns, v)) as [key|] eqn:Hc.
  - destruct (ring_cache _ Hinv _ _ Hc) as (k & Hk & ->). cbn in Hk. exists r. by rewrite Hk.
  - erewrite sm_bind_ok by (by erewrite sm_bind_ok by (by apply ring_lock_ok)).
    destruct (find_key v (rw_val r)) as [k|] eqn:Hk; [|by exists r]. cbv zeta.
    erewrite sm_bind_ok by (by apply ring_write_ok). eexists. split; [reflexivity|]. split; [done|].
    by apply cache_insert_inv.
Qed.

Lemma derive_ok ns r k : rw_poisoned r = false → ring_inv (rw_val r) →
  find_key (ri_active_version (rw_val r)) (rw_val r) = Some k →
  ∃ r', derive_namespace_key ns r = (Ok (namespace_okm k ns), r') ∧ rw_poisoned r' = false ∧ ring_inv (rw_val r').
Proof.
  intros Hp Hinv Hk. unfold derive_namespace_key, active_version, get_cached_key, active_key, insert_cached_key.
  do 2 erewrite sm_bind_ok by (by erewrite sm_bind_ok by (by apply ring_lock_ok)).
  destruct (ri_derived_keys_cache (rw_val r) !! _) as [key|] eqn:Hc.
  - destruct (ring_cache _ Hinv _ _ Hc) as (k' & Hk' & ->). cbn in Hk'. rewrite Hk in Hk'. injection Hk' as ->. by exists r.
  - erewrite sm_bind_ok. 2: { erewrite sm_bind_ok by (by apply ring_lock_ok). by rewrite Hk. }
    cbv zeta. erewrite sm_bind_ok by (by apply ring_write_ok). eexists. split; [reflexivity|]. split; [done|].
    by apply cache_insert_inv.
Qed.

Lemma ring_exec_inv r o : rw_poisoned r = false → ring_inv (rw_val r) → op_allowed (rw_val r) o →
  rw_poisoned (ring_exec r o) = false ∧ ring_inv (rw_val (ring_exec r o)).
Proof.
  intros Hp Hinv Hal. destruct o as [key|random now|v|n|keys|ns|ns v]; cbn [ring_exec op_allowed] in *.
  - unfold add_key. rewrite ring_write_ok by done. split; [done|]. cbn.
    destruct (N.ltb_spec (ri_active_version (rw_val r)) (kp_version key)); apply ring_inv_snoc; auto; lia.
  - rewrite rotate_ok by done. split; [done|]. cbn. rewrite wrapping_add64_small by (unfold U64_MAX in *; lia).
    apply ring_inv_snoc; cbn; auto; lia.
  - unfold prune_old_versions. rewrite ring_write_ok by done. split; [done|]. apply retain_from_inv; [done|].
    unfold saturating_sub. lia.
  - unfold prune_to_keep. rewrite ring_write_ok by done. split; [done|]. cbn. apply retain_from_inv; [done|].
    unfold saturating_add64, saturating_sub. lia.
  - destruct keys as [|k keys]; [done|]. unfold load_keys. rewrite ring_write_ok by done. split; [done|].
    apply load_inv.
  - destruct (ring_active _ Hinv) as [k Hk]. by destruct (derive_ok ns r k Hp Hinv Hk) as (r' & -> & ? & ?).
  - by destruct (derive_for_ok ns v r Hp Hinv) as (r' & -> & ? & ?).
Qed.

Lemma single_key_inv k : ring_inv (RingInner [k] (kp_version k) ∅).
Proof. exact (load_inv k []). Qed.

Lemma ring_reachable_inv r : ring_reachable r → rw_poisoned r = false ∧ ring_inv (rw_val r).
Proof.
  induction 1 as [random now|key|r o Hr [Hp Hinv] Hal].
  - split; [done|]. apply (single_key_inv (generate_keypair random now 1)).
  - split; [done|]. apply single_key_inv.
  - by apply ring_exec_inv.
Qed.

(** ** Properties *)

(** C22: The key ring always has its active key: after any sequence of additions,
    rotations, reloads, derivations and prunings that keep at least one version,
    [active_key] returns a key of the active version, no version is above it, and
    the derived keys are those of the key pairs held, whether they come from the
    cache or not. *)
Theorem key_ring_invariant r ns v : ring_reachable r →
  ∃ k, active_key r = (Ok k, r) ∧ kp_version k = ri_active_version (rw_val r) ∧
    Forall (λ k', (kp_version k' ≤ kp_version k)%N) (ri_keys (rw_val r)) ∧
    (derive_namespace_key ns r).1 = Ok (namespace_okm k ns) ∧
    (derive_namespace_key_for_version ns v r).1 = Ok ((λ k', namespace_okm k' ns) <$> find_key v (rw_val r)).
Proof.
  intros [Hp Hinv]%ring_reachable_inv. destruct (ring_active _ Hinv) as [k Hk]. exists k.
  assert (Hv : kp_version k = ri_active_version (rw_val r)).
  { unfold find_key in Hk. apply find_some in Hk as [_ Hk]. by apply N.eqb_eq in Hk. }
  split_and!; [|done|rewrite Hv; apply Hinv| |].
  - unfold active_key. erewrite sm_bind_ok by (by apply ring_lock_ok). by rewrite Hk.
  - by destruct (derive_ok ns r k Hp Hinv Hk) as (r' & -> & _).
  - by destruct (derive_for_ok ns v r Hp Hinv) as (r' & -> & _).
Qed.

(** Pruning can remove the active key: keeping zero versions, or pruning for a
    current version two or more above the active one, leaves a ring on which
    [active_key] panics. *)
Theorem prune_removes_active_key r v : ring_reachable r → (ri_active_version (rw_val r) < U64_MAX)%N →
  (ri_active_version (rw_val r) + 2 ≤ v)%N →
  (active_key (prune_to_keep 0 r).2).1 = Err Panicked ∧ (active_key (prune_old_versions v r).2).1 = Err Panicked.
Proof.
  intros [Hp Hinv]%ring_reachable_inv Hmax Hv.
  assert (Hgone : ∀ cutoff, (ri_active_version (rw_val r) < cutoff)%N →
    (active_key (rw_update (retain_from cutoff) r)).1 = Err Panicked).
  { intros cutoff Hc. unfold active_key. erewrite sm_bind_ok by (by apply ring_lock_ok).
    replace (find_key _ _) with (@None NamespaceKeypair); [done|]. symmetry. cbn. unfold find_key. cbn.
    destruct (find _ _) as [k|] eqn:Hf; [|done]. apply find_some in Hf as [Hin Hk%N.eqb_eq].
    apply list_elem_of_In, elem_of_filterb in Hin as [Hle%N.leb_le _]. lia. }
  unfold prune_to_keep, prune_old_versions. rewrite !ring_write_ok by done. split; cbn [snd].
  - apply Hgone. unfold saturating_add64, saturating_sub. unfold U64_MAX in *. lia.
  - apply Hgone. unfold saturating_sub. lia.
Qed.
End ring.

(** ** Round trips *)

Section round_trips.
Context {K : Crypto} {KS : CryptoSpec K}.

Lemma encrypt_symmetric_ok ring nonce msg ns :
  rw_poisoned ring = false → length nonce = 12 → (ri_active_version (rw_val ring) ≤ U64_MAX)%N →
  (N.of_nat (length msg) ≤ aead_limit)%N →
  ∃ blob, encrypt_symmetric nonce msg ns ring = (Ok blob, ring) ∧
    u64_from_le_bytes (take 8 blob) = ri_active_version (rw_val ring) ∧
    decrypt_symmetric blob ns = Ok msg.
Proof.
  intros Hp Hn Hv Hlen. set (v := ri_active_version (rw_val ring)) in *.
  destruct (aead_encrypt_ok (derive_symmetric_namespace_key ns v) nonce msg Hlen) as [c Hc].
  exists (u64_to_le_bytes v ++ nonce ++ c).
  assert (Hl8 : length (u64_to_le_bytes v) = 8) by apply length_le_encode.
  assert (Ht8 : take 8 (u64_to_le_bytes v ++ nonce ++ c) = u64_to_le_bytes v) by (by rewrite take_app_length').
  split_and!.
  - unfold encrypt_symmetric, active_version.
    erewrite sm_bind_ok by (by erewrite sm_bind_ok by (by apply ring_lock_ok)). fold v. by rewrite Hc.
  - rewrite Ht8. by apply u64_le_bytes_round_trip.
  - unfold decrypt_symmetric. rewrite Ht8, u64_le_bytes_round_trip by done.
    destruct (Nat.ltb_spec (length (u64_to_le_bytes v ++ nonce ++ c)) 20) as [Hlt|_].
    { rewrite !length_app, Hl8, Hn in Hlt. lia. }
    rewrite (drop_app_length' _ _ 8) by done. rewrite take_app_length' by done.
    change 20 with (8 + 12). rewrite <-drop_drop, (drop_app_length' _ _ 8), drop_app_length' by done.
    by rewrite (aead_decrypt_encrypt _ _ _ _ Hc).
Qed.

(** C23: Any replica decrypts, and so does anyone who knows the namespace: a blob
    that [encrypt_symmetric] makes under any key ring, after any rotations,
    carries the ring's active version and decrypts with the namespace's name
    alone to the message, with no key ring at all. *)
Theorem symmetric_round_trip ring nonce msg ns :
  rw_poisoned ring = false → length nonce = 12 → (ri_active_version (rw_val ring) ≤ U64_MAX)%N →
  (N.of_nat (length msg) ≤ aead_limit)%N →
  ∃ blob, encrypt_symmetric nonce msg ns ring = (Ok blob, ring) ∧
    u64_from_le_bytes (take 8 blob) = ri_active_version (rw_val ring) ∧
    decrypt_symmetric blob ns = Ok msg.
Proof. apply encrypt_symmetric_ok. Qed.

(** An exported private key imports back with its device key, but as version 0
    whatever its version was. *)
Theorem private_key_round_trip ring k device_key now :
  rw_poisoned ring = false → find_key (ri_active_version (rw_val ring)) (rw_val ring) = Some k →
  length (kp_private_key k) = 32 → length (kp_public_key k) = 32 → (64 ≤ aead_limit)%N →
  ∃ exported, encrypt_private_key device_key ring = (Ok exported, ring) ∧
    decrypt_private_key now exported device_key = Ok (Keypair (kp_public_key k) (kp_private_key k) 0 now).
Proof.
  intros Hp Hk Hpriv Hpub Hlim.
  destruct (aead_encrypt_ok (derive_encryption_key device_key) zero_nonce (kp_private_key k ++ kp_public_key k)) as [c Hc].
  { rewrite length_app, Hpriv, Hpub. done. }
  exists c. split.
  - unfold encrypt_private_key, active_key.
    erewrite sm_bind_ok. 2: { erewrite sm_bind_ok by (by apply ring_lock_ok). by rewrite Hk. }
    by rewrite Hc.
  - unfold decrypt_private_key. rewrite (aead_decrypt_encrypt _ _ _ _ Hc). cbn.
    rewrite length_app, Hpriv, Hpub. cbn [Nat.add Nat.eqb negb].
    by rewrite take_app_length', drop_app_length'.
Qed.

(** ** Nonces *)

Lemma be_bytes_inj x y : (x ≤ U64_MAX)%N → (y ≤ U64_MAX)%N → u64_to_be_bytes x = u64_to_be_bytes y → x = y.
Proof.
  intros Hx Hy Heq. unfold u64_to_be_bytes in Heq. apply (f_equal (@rev N)) in Heq. rewrite !rev_involutive in Heq.
  by rewrite <-(u64_le_bytes_round_trip x), <-(u64_le_bytes_round_trip y), Heq.
Qed.

(** The nonces of consecutive counters. *)
Definition nonce_at (prefix : bytes) (c : N) : bytes := prefix ++ u64_to_be_bytes c.
Fixpoint nonces_from (prefix : bytes) (c : N) (n : nat) : list bytes :=
  match n with O => [] | S n' => nonce_at prefix c :: nonces_from prefix (c + 1) n' end.

Lemma nonces_from_elem prefix c n x : x ∈ nonces_from prefix c n → ∃ d, (c ≤ d < c + N.of_nat n)%N ∧ x = nonce_at prefix d.
Proof.
  revert c. induction n as [|n IH]; intros c; simpl; [by intros ?%elem_of_nil|].
  intros [->|(d & Hd & ->)%IH]%elem_of_cons; [exists c|exists d]; (split; [lia|done]).
Qed.

Lemma nonces_from_NoDup prefix c n : (c + N.of_nat n ≤ U64_MAX)%N → NoDup (nonces_from prefix c n).
Proof.
  revert c. induction n as [|n IH]; intros c Hc; simpl; [constructor|]. constructor; [|apply IH; lia].
  intros (d & Hd & Heq)%nonces_from_elem. apply app_inv_head in Heq. apply be_bytes_inj in Heq; lia.
Qed.

Lemma nonce_calls_ok randoms c prefix : (c + N.of_nat (length randoms) ≤ U64_MAX)%N →
  map_each get_unique_nonce randoms (Nonces c (Some prefix)) =
    (Ok (nonces_from prefix c (length randoms)), Nonces (c + N.of_nat (length randoms)) (Some prefix)).
Proof.
  revert c. induction randoms as [|r rs IH]; intros c Hc; cbn [map_each nonces_from length] in *.
  { by rewrite N.add_0_r. }
  unfold mbind at 1, sm_bind at 1. unfold get_unique_nonce at 1. cbn [no_prefix no_counter default].
  destruct (N.eqb_spec c U64_MAX); [lia|]. rewrite wrapping_add64_small by lia.
  erewrite sm_bind_ok by (apply IH; lia). unfold mret, sm_ret. do 2 f_equal. lia.
Qed.

(** Nonces of a process never repeat: the first calls of [get_unique_nonce], up
    to the whole range of the counter, succeed and return pairwise distinct
    nonces of 12 bytes; the call that would exhaust the counter panics instead. *)
Theorem nonces_unique random randoms : length random = 4 → (N.of_nat (length randoms) + 1 < U64_MAX)%N →
  ∃ ns, map_each get_unique_nonce (random :: randoms) nonce_init =
      (Ok ns, Nonces (N.of_nat (length randoms) + 2) (Some random)) ∧
    NoDup ns ∧ Forall (λ x, length x = 12) ns ∧
    (get_unique_nonce [] (Nonces U64_MAX (Some random))).1 = Err Panicked.
Proof.
  intros Hr Hlen. exists (nonces_from random 1 (length (random :: randoms))). split_and!.
  - change (map_each get_unique_nonce (random :: randoms) nonce_init) with
      (map_each get_unique_nonce (random :: randoms) (Nonces 1 (Some random))).
    rewrite nonce_calls_ok by (cbn [length]; lia). do 2 f_equal. cbn [length]. lia.
  - apply nonces_from_NoDup. cbn [length]. lia.
  - apply Forall_forall. intros x (d & _ & ->)%nonces_from_elem. unfold nonce_at, u64_to_be_bytes.
    by rewrite length_app, length_rev, (length_le_encode 8), Hr.
  - done.
Qed.

(** ** Pairwise encryption *)

(** Every cached secret is the one of the key pair held under its version. *)
Definition codec_ok (c : E2eeCodec) : Prop :=
  rw_poisoned (ec_keyring c) = false ∧ rw_poisoned (ec_shared_secrets c) = false ∧
  map_Forall (λ p s, ∀ k, find_key p.1 (rw_val (ec_keyring c)) = Some k → s = x25519 (kp_private_key k) p.2)
    (rw_val (ec_shared_secrets c)).

Definition codec_active (c : E2eeCodec) (k : NamespaceKeypair) : Prop :=
  find_key (ri_active_version (rw_val (ec_keyring c))) (rw_val (ec_keyring c)) = Some k.

Lemma shared_secret_ok c k peer : codec_ok c → codec_active c k →
  ∃ c', shared_secret_with peer c = (Ok (x25519 (kp_private_key k) peer), c') ∧ codec_ok c'.
Proof.
  intros (Hp & Hs & Hc) Hk. unfold shared_secret_with.
  assert (Hv : kp_version k = ri_active_version (rw_val (ec_keyring c))).
  { apply find_some in Hk as [_ Hk]. by apply N.eqb_eq in Hk. }
  erewrite (sm_bind_ok _ _ _ k c).
  2: { unfold on_ring, zoom, active_key. erewrite sm_bind_ok by (by apply ring_lock_ok).
    unfold codec_active in Hk. rewrite Hk. by destruct c. }
  assert (Hlock : rw_lock (Panicked : fault VaultSyncError) ec_shared_secrets c = (Ok (rw_val (ec_shared_secrets c)), c)).
  { unfold rw_lock. by rewrite Hs. }
  cbv zeta. rewrite Hv. erewrite sm_bind_ok by exact Hlock.
  destruct (rw_val (ec_shared_secrets c) !! _) as [s|] eqn:Hl.
  - exists c. rewrite (Hc _ _ Hl k Hk). by split_and!.
  - eexists. erewrite sm_bind_ok by exact Hlock. split; [reflexivity|]. split_and!; [done|done|]. cbn.
    apply map_Forall_insert_2; [|done]. cbn. intros k' Hk'. unfold codec_active in Hk. congruence.
Qed.

(** Two replicas that know each other's public keys exchange messages: what one
    encrypts for the other decrypts to the message. *)
Theorem pairwise_round_trip ca cb ka kb nst random msg :
  codec_ok ca → codec_ok cb → codec_active ca ka → codec_active cb kb →
  kp_public_key ka = x25519 (kp_private_key ka) x25519_base → kp_public_key kb = x25519 (kp_private_key kb) x25519_base →
  (no_counter nst < U64_MAX)%N → length (default random (no_prefix nst)) = 4 →
  (N.of_nat (length msg) ≤ aead_limit)%N →
  ∃ c st cb', e2ee_encrypt random msg (kp_public_key kb) (ca, nst) = (Ok c, st) ∧
    e2ee_decrypt c (kp_public_key ka) cb = (Ok msg, cb').
Proof.
  intros Ha Hb Hka Hkb Hpa Hpb Hn Hpre Hlen.
  destruct (shared_secret_ok ca ka (kp_public_key kb) Ha Hka) as (ca' & Hsa & _).
  destruct (shared_secret_ok cb kb (kp_public_key ka) Hb Hkb) as (cb' & Hsb & _).
  set (s := x25519 (kp_private_key ka) (kp_public_key kb)) in *.
  assert (Hs : x25519 (kp_private_key kb) (kp_public_key ka) = s).
  { unfold s. rewrite Hpa, Hpb. apply x25519_agree. }
  set (nonce := default random (no_prefix nst) ++ u64_to_be_bytes (no_counter nst)).
  assert (Hl : length nonce = 12).
  { unfold nonce, u64_to_be_bytes. by rewrite length_app, length_rev, (length_le_encode 8), Hpre. }
  destruct (aead_encrypt_ok s nonce msg Hlen) as [c Hc]. exists (nonce ++ c). do 2 eexists. split.
  - unfold e2ee_encrypt. erewrite sm_bind_ok by (unfold zoom; cbn [fst]; by rewrite Hsa).
    unfold zoom, encrypt_with_shared_secret. cbn [snd]. unfold mbind, sm_bind, get_unique_nonce.
    destruct (N.eqb_spec (no_counter nst) U64_MAX); [lia|]. fold nonce. by rewrite Hc.
  - unfold e2ee_decrypt. erewrite sm_bind_ok by exact Hsb. rewrite Hs. unfold decrypt_with_shared_secret.
    destruct (Nat.ltb_spec (length (nonce ++ c)) 12) as [Hlt|_]; [rewrite length_app in Hlt; lia|].
    rewrite take_app_length', drop_app_length' by done. by rewrite (aead_decrypt_encrypt _ _ _ _ Hc).
Qed.
End round_trips.

(** ** Witnesses *)

Definition list_sum (l : bytes) : N := foldr N.add 0%N l.

(** A transparent cipher that checks key and nonce, and an additive key
    agreement. *)
#[local] Instance toy_crypto : Crypto := {|
  aead_encrypt k n m := Ok (k ++ n ++ m);
  aead_decrypt k n c := if decide (take (length k + length n) c = k ++ n) then Ok (drop (length k + length n) c)
                        else Err "aead::Error";
  hkdf_sha256 salt ikm info := take 32 (ikm ++ info);
  sha256 m := take 32 m;
  x25519 a p := [(list_sum a + list_sum p)%N];
  x25519_base := [9%N];
|}.

#[local, program] Instance toy_crypto_spec : CryptoSpec toy_crypto := {| aead_limit := 274877906880 |}.
Next Obligation. intros k n m _. by eexists. Qed.
Next Obligation.
  intros k n m c [= <-]. cbn. rewrite app_assoc.
  rewrite take_app_length', drop_app_length' by (symmetry; apply length_app). by rewrite decide_True.
Qed.
Next Obligation. intros a b. cbn. f_equal. lia. Qed.

Definition toy_ring : KeyRing := ring_exec (ring_exec (ring_generate (replicate 32 7%N) 5) (OpRotate (replicate 32 8%N) 6)) (OpPruneKeep 1).

Lemma toy_ring_reachable : ring_reachable toy_ring.
Proof.
  apply reach_op; [apply reach_op; [apply reach_generate|]|].
  - cbn. unfold U64_MAX. lia.
  - vm_compute. split; discriminate.
Qed.

Lemma key_ring_invariant_witness : ∃ k, active_key toy_ring = (Ok k, toy_ring) ∧ kp_version k = 2%N.
Proof.
  destruct (key_ring_invariant toy_ring "ns" 2 toy_ring_reachable) as (k & H1 & H2 & _).
  exists k. split; [exact H1|]. rewrite H2. reflexivity.
Defined.

Lemma prune_removes_active_key_witness : (active_key (prune_to_keep 0 toy_ring).2).1 = Err Panicked.
Proof.
  apply (prune_removes_active_key toy_ring 4 toy_ring_reachable).
  - vm_compute. reflexivity.
  - vm_compute. discriminate.
Defined.

Lemma symmetric_round_trip_witness :
  ∃ blob, encrypt_symmetric (replicate 12 3%N) [1; 2; 3]%N "ns" toy_ring = (Ok blob, toy_ring) ∧
    decrypt_symmetric blob "ns" = Ok [1; 2; 3]%N.
Proof.
  destruct (symmetric_round_trip toy_ring (replicate 12 3%N) [1; 2; 3]%N "ns") as (blob & H1 & _ & H2).
  - reflexivity.
  - reflexivity.
  - vm_compute. discriminate.
  - vm_compute. discriminate.
  - exists blob. split; [exact H1|exact H2].
Defined.

Lemma private_key_round_trip_witness :
  ∃ exported, encrypt_private_key [4; 2]%N (ring_from_key (Keypair (replicate 32 1%N) (replicate 32 2%N) 3 0)) =
    (Ok exported, ring_from_key (Keypair (replicate 32 1%N) (replicate 32 2%N) 3 0)) ∧
    decrypt_private_key 9 exported [4; 2]%N = Ok (Keypair (replicate 32 1%N) (replicate 32 2%N) 0 9).
Proof.
  apply (private_key_round_trip (ring_from_key (Keypair (replicate 32 1%N) (replicate 32 2%N) 3 0))
    (Keypair (replicate 32 1%N) (replicate 32 2%N) 3 0) [4; 2]%N 9); try reflexivity. vm_compute. discriminate.
Defined.

Lemma nonces_unique_witness :
  ∃ ns, map_each get_unique_nonce [[1; 2; 3; 4]%N; []] nonce_init = (Ok ns, Nonces 3 (Some [1; 2; 3; 4]%N)) ∧ NoDup ns.
Proof.
  destruct (nonces_unique [1; 2; 3; 4]%N [[]]) as (ns & H1 & H2 & _).
  - reflexivity.
  - vm_compute. reflexivity.
  - exists ns. split; [exact H1|exact H2].
Defined.
