(* ===== verification/SharedMemory.v ===== *)
(** * The shared-memory ring

    [ipc/shared_memory.rs]: a byte array that starts with a header and holds a
    ring of mutations.  Offsets are numbers; an index past the end of a slice
    is a panic.  The file mapping is the byte array. *)
From S2P Require Import Prelude Text Types.

(** ** Slices *)

(** [&slice[from..to]] and [slice[at..].copy_from_slice(src)]; [None] is the
    panic of an index out of range. *)
Definition slice_get (from to : N) (mem : bytes) : option bytes :=
  if (from <=? to)%N && (to <=? N.of_nat (length mem))%N
  then Some (take (N.to_nat (to - from)) (drop (N.to_nat from) mem)) else None.

Definition slice_set (at_ : N) (src mem : bytes) : option bytes :=
  if (at_ + N.of_nat (length src) <=? N.of_nat (length mem))%N
  then Some (take (N.to_nat at_) mem ++ src ++ drop (N.to_nat at_ + length src) mem) else None.

(** [usize::checked_add]. *)
Definition checked_add (a b : N) : option N := if (a + b <=? U64_MAX)%N then Some (a + b)%N else None.

(** [as u32]. *)
Definition as_u32 (a : N) : N := (a mod 4294967296)%N.

(** ** Identifiers *)

Fixpoint trim_start_zeros (bs : bytes) : bytes :=
  match bs with 0%N :: bs' => trim_start_zeros bs' | _ => bs end.

(** [String::from_utf8_lossy(bs).trim_end_matches('\0').to_string()]. *)
Definition trim_id (bs : bytes) : string :=
  string_of_bytes (rev (trim_start_zeros (rev (lossy (length bs) bs)))).

(** ** Headers *)

Definition HEADER_SIZE : N := 128.
Definition ENTRY_HEADER_WIRE_SIZE : N := 76.

Record SharedMemoryHeader := Header {
  h_leader_id : bytes;
  h_leader_timestamp : N;
  h_generation : N;
  h_ring_buffer_head : N;
  h_ring_buffer_tail : N;
  h_ring_buffer_capacity : N;
  h_snapshot_offset : N;
  h_snapshot_size : N;
}.

Record RingBufferEntryHeader := EntryHeader {
  eh_id : bytes;
  eh_yrs_update_size : N;
  eh_timestamp : N;
}.

Record RingBufferEntry := RingEntry {
  re_id : string;
  re_yrs_update : bytes;
  re_timestamp : N;
}.

Definition encode_header (h : SharedMemoryHeader) : bytes :=
  h_leader_id h ++ u64_to_le_bytes (h_leader_timestamp h) ++ u64_to_le_bytes (h_generation h) ++
  u32_to_le_bytes (h_ring_buffer_head h) ++ u32_to_le_bytes (h_ring_buffer_tail h) ++
  u32_to_le_bytes (h_ring_buffer_capacity h) ++ u64_to_le_bytes (h_snapshot_offset h) ++
  u64_to_le_bytes (h_snapshot_size h) ++ replicate 20 0%N.

(** [buf[from..from + n]] of a buffer known to be long enough. *)
Definition field (from n : nat) (buf : bytes) : bytes := take n (drop from buf).

Definition decode_header (buf : bytes) : SharedMemoryHeader :=
  if (N.of_nat (length buf) <? HEADER_SIZE)%N then Header (replicate 64 0%N) 0 0 0 0 0 0 0
  else Header (field 0 64 buf) (le_decode (field 64 8 buf)) (le_decode (field 72 8 buf))
    (le_decode (field 80 4 buf)) (le_decode (field 84 4 buf)) (le_decode (field 88 4 buf))
    (le_decode (field 92 8 buf)) (le_decode (field 100 8 buf)).

Definition encode_entry_header (h : RingBufferEntryHeader) : bytes :=
  eh_id h ++ u32_to_le_bytes (eh_yrs_update_size h) ++ u64_to_le_bytes (eh_timestamp h).

Definition decode_entry_header (buf : bytes) : option RingBufferEntryHeader :=
  if (N.of_nat (length buf) <? ENTRY_HEADER_WIRE_SIZE)%N then None
  else Some (EntryHeader (field 0 64 buf) (le_decode (field 64 4 buf)) (le_decode (field 68 8 buf))).

Definition write_header (h : SharedMemoryHeader) (mem : bytes) : bytes :=
  if (HEADER_SIZE <=? N.of_nat (length mem))%N then encode_header h ++ drop 128 mem else mem.

(** ** The ring *)

Record SharedMemoryInner := Shm {
  shm_mem : bytes;
  shm_capacity : N;
}.
Abbreviation SharedMemory := (rwlock SharedMemoryInner).

(** [create_in_path]: the file keeps what it held ([set_len] cuts it or pads it
    with zeros), and the header is written anew. *)
Definition shm_create (old : bytes) (size : nat) : SharedMemory :=
  let mem := take size old ++ replicate (size - length old) 0%N in
  let capacity := wrapping_add64 (N.of_nat size) (18446744073709551616 - HEADER_SIZE) in
  rw_new (Shm (write_header (Header (replicate 64 0%N) 0 0 0 0 (as_u32 capacity) 0 0) mem) capacity).

(** [open] of an existing file. *)
Definition shm_open (file : bytes) : SharedMemory :=
  rw_new (Shm file (wrapping_add64 (N.of_nat (length file)) (18446744073709551616 - HEADER_SIZE))).

Definition head_is_between (head start end_ : N) : bool :=
  if (start <=? end_)%N then (start <=? head)%N && (head <? end_)%N
  else (start <=? head)%N || (head <? end_)%N.

Definition SENTINEL_SIZE : N := 0xFFFFFFFF.

(** Where the head moves from the entry at [head]; [None] is a panic. *)
Definition next_head (mem : bytes) (capacity head : N) : option N :=
  let head_end := default 0%N (checked_add head ENTRY_HEADER_WIRE_SIZE) in
  if (capacity <? head_end)%N then Some 0%N
  else
    let head_offset := (HEADER_SIZE + head)%N in
    let head_slice_end := (head_offset + ENTRY_HEADER_WIRE_SIZE)%N in
    if (N.of_nat (length mem) <? head_slice_end)%N then Some 0%N
    else
      buf ← slice_get head_offset head_slice_end mem;
      match decode_entry_header buf with
      | None => Some 0%N
      | Some eh =>
          if (eh_yrs_update_size eh =? SENTINEL_SIZE)%N then Some 0%N
          else
            let skip := default 0%N (checked_add ENTRY_HEADER_WIRE_SIZE (eh_yrs_update_size eh)) in
            let next := default 0%N (checked_add head skip) in
            Some (if (next <=? capacity)%N then next else 0%N)
      end.

Definition LOOP_LIMIT : nat := N.to_nat 10000.

(** The loop that advances the head past the entries a write to
    [tail..new_tail] overwrites; after too many turns head and tail are
    reset. *)
Fixpoint advance_head (fuel : nat) (mem : bytes) (capacity tail new_tail head : N) : option (N * N) :=
  if head_is_between head tail new_tail then
    match fuel with
    | O => Some (0%N, 0%N)
    | S fuel' => head' ← next_head mem capacity head; advance_head fuel' mem capacity tail new_tail head'
    end
  else Some (head, tail).

(** [id_bytes[..copy_len].copy_from_slice(..)]. *)
Definition pad_id (id : string) : bytes :=
  let src := take 64 (utf8 id) in src ++ replicate (64 - length src) 0%N.

Definition sentinel : RingBufferEntryHeader := EntryHeader (replicate 64 0%N) SENTINEL_SIZE 0.

(** [if wrap_around { .. }]: the memory with the sentinel. *)
Definition wrap_tail (capacity tail : N) (mem : bytes) : option bytes :=
  if match checked_add tail ENTRY_HEADER_WIRE_SIZE with Some v => (v <=? capacity)%N | None => false end
  then slice_set (HEADER_SIZE + tail) (encode_entry_header sentinel) mem
  else Some mem.

(** The entry at [tail] and the header. *)
Definition place_entry (now : N) (id : string) (yrs_update : bytes) (header : SharedMemoryHeader)
    (head tail new_tail : N) (mem : bytes) : option (result unit VaultSyncError * bytes) :=
  let tail_offset := (HEADER_SIZE + tail)%N in
  let payload_offset := (tail_offset + ENTRY_HEADER_WIRE_SIZE)%N in
  let payload_end := (payload_offset + N.of_nat (length yrs_update))%N in
  if (N.of_nat (length mem) <? payload_end)%N then Some (Err (EStorage "write out of bounds"), mem)
  else
    let wire := encode_entry_header
      (EntryHeader (pad_id id) (as_u32 (N.of_nat (length yrs_update))) now) in
    mem ← slice_set tail_offset wire mem;
    mem ← slice_set payload_offset yrs_update mem;
    Some (Ok tt, write_header (Header (h_leader_id header) (h_leader_timestamp header) (h_generation header)
      (as_u32 head) (as_u32 new_tail) (h_ring_buffer_capacity header) (h_snapshot_offset header)
      (h_snapshot_size header)) mem).

(** [write_entry] on the bytes; [None] is a panic. *)
Definition write_bytes (now : N) (id : string) (yrs_update : bytes) (inner_capacity : N) (mem : bytes) :
    option (result unit VaultSyncError * bytes) :=
  let needed_size := (ENTRY_HEADER_WIRE_SIZE + N.of_nat (length yrs_update))%N in
  if (inner_capacity <? needed_size)%N then Some (Err (EStorage "mutation too large for ring buffer"), mem)
  else
    let header := decode_header mem in
    let capacity := h_ring_buffer_capacity header in
    let max_capacity := saturating_sub (N.of_nat (length mem)) HEADER_SIZE in
    if (max_capacity <? capacity)%N then Some (Err (EStorage "invalid ring buffer capacity in header"), mem)
    else
      let out := (capacity <? h_ring_buffer_head header)%N || (capacity <? h_ring_buffer_tail header)%N in
      let head := if out then 0%N else h_ring_buffer_head header in
      let tail := if out then 0%N else h_ring_buffer_tail header in
      let wrap_around := match checked_add tail needed_size with Some v => (capacity <? v)%N | None => true end in
      mem ← if wrap_around then wrap_tail capacity tail mem else Some mem;
      let tail := if wrap_around then 0%N else tail in
      match checked_add tail needed_size with
      | Some new_tail =>
          if (new_tail <=? capacity)%N then
            '(head, tail) ← advance_head LOOP_LIMIT mem capacity tail new_tail head;
            place_entry now id yrs_update header head tail new_tail mem
          else Some (Err (EStorage "calculated tail out of bounds"), mem)
      | None => Some (Err (EStorage "calculated tail out of bounds"), mem)
      end.

(** The end of a write; a panic while the lock is held for writing poisons it. *)
Definition end_write (inner : SharedMemoryInner) (o : option (result unit VaultSyncError * bytes)) :
    SM SharedMemory (fault VaultSyncError) unit := λ l,
  match o with
  | Some (Ok _, mem) => (Ok tt, rw_set (Shm mem (shm_capacity inner)) l)
  | Some (Err e, mem) => (Err (Fail e), rw_set (Shm mem (shm_capacity inner)) l)
  | None => (Err Panicked, RwLock inner true)
  end.

Definition write_entry (now : N) (id : string) (yrs_update : bytes) :
    SM SharedMemory (fault VaultSyncError) unit :=
  inner ← rw_lock (Fail (EStorage poison_message)) (λ l, l);
  end_write inner (write_bytes now id yrs_update (shm_capacity inner) (shm_mem inner)).

(** ** Reading the ring *)

(** What the loop of [read_uncommitted] does at [head]. *)
Inductive ring_step :=
  | RingJump
  | RingEntryAt (e : RingBufferEntry) (next : N)
  | RingStop.

Definition read_step (mem : bytes) (capacity head : N) : option ring_step :=
  let head_end := default 0%N (checked_add head ENTRY_HEADER_WIRE_SIZE) in
  if (capacity <? head_end)%N then Some RingJump
  else
    let head_offset := (HEADER_SIZE + head)%N in
    let head_slice_end := (head_offset + ENTRY_HEADER_WIRE_SIZE)%N in
    if (N.of_nat (length mem) <? head_slice_end)%N then Some RingJump
    else
      buf ← slice_get head_offset head_slice_end mem;
      match decode_entry_header buf with
      | None => Some RingStop
      | Some eh =>
          let payload_len := eh_yrs_update_size eh in
          if (payload_len =? SENTINEL_SIZE)%N then Some RingJump
          else
            match checked_add head ENTRY_HEADER_WIRE_SIZE ≫= λ v, checked_add v payload_len with
            | Some next =>
                let payload_end := (head_slice_end + payload_len)%N in
                if (capacity <? next)%N then Some RingStop
                else if (N.of_nat (length mem) <? payload_end)%N then Some RingStop
                else
                  upd ← slice_get head_slice_end payload_end mem;
                  Some (RingEntryAt (RingEntry (trim_id (eh_id eh)) upd (eh_timestamp eh)) next)
            | None => Some RingStop
            end
      end.

Fixpoint read_entries (fuel : nat) (mem : bytes) (capacity tail head : N) : option (list RingBufferEntry) :=
  if (head =? tail)%N then Some []
  else
    match fuel with
    | O => Some []
    | S fuel' =>
        step ← read_step mem capacity head;
        match step with
        | RingJump => read_entries fuel' mem capacity tail 0
        | RingStop => Some []
        | RingEntryAt e next => rest ← read_entries fuel' mem capacity tail next; Some (e :: rest)
        end
    end.

Definition read_bytes (mem : bytes) : option (result (list RingBufferEntry) VaultSyncError) :=
  let header := decode_header mem in
  let head := h_ring_buffer_head header in
  let tail := h_ring_buffer_tail header in
  let capacity := h_ring_buffer_capacity header in
  let max_capacity := saturating_sub (N.of_nat (length mem)) HEADER_SIZE in
  if (max_capacity <? capacity)%N then Some (Err (EStorage "invalid ring buffer capacity in header"))
  else if (capacity <? head)%N || (capacity <? tail)%N then Some (Ok [])
  else Ok <$> read_entries LOOP_LIMIT mem capacity tail head.

(** A panic of a reader does not poison the lock. *)
Definition read_uncommitted : SM SharedMemory (fault VaultSyncError) (list RingBufferEntry) :=
  inner ← rw_lock (Fail (EStorage poison_message)) (λ l, l);
  match read_bytes (shm_mem inner) with
  | Some (Ok es) => mret es
  | Some (Err e) => sm_fail (Fail e)
  | None => sm_fail Panicked
  end.

(** The raw [write] and [read]. *)
Definition write_raw (data : bytes) : SM SharedMemory (fault VaultSyncError) unit :=
  inner ← rw_lock (Fail (EStorage poison_message)) (λ l, l);
  sm_modify (rw_update (λ i, Shm (take (length (shm_mem i)) data ++
    replicate (length (shm_mem i) - length data) 0%N) (shm_capacity i))).

Definition read_raw : SM SharedMemory (fault VaultSyncError) bytes :=
  inner ← rw_lock (Fail (EStorage poison_message)) (λ l, l);
  mret (shm_mem inner).
