(* ===== verification/SharedMemoryTheory.v ===== *)
(** * Properties of the shared-memory ring

    Headers decode to what was encoded; no content of the memory makes a
    reader or a writer index out of range; a write that evicts nothing is read
    back after the entries before it; a write that fills the ring exactly
    hides everything. *)
From S2P Require Import Prelude Text Types SharedMemory.

#[local] Opaque LOOP_LIMIT.
#[local] Arguments le_encode : simpl never.
#[local] Arguments le_decode : simpl never.
#[local] Arguments replicate : simpl never.

(** ** Slices *)

Lemma slice_get_some from to mem : (from ≤ to)%N → (to ≤ N.of_nat (length mem))%N →
  slice_get from to mem = Some (take (N.to_nat (to - from)) (drop (N.to_nat from) mem)).
Proof.
  intros H1 H2. unfold slice_get. by rewrite (proj2 (N.leb_le _ _) H1), (proj2 (N.leb_le _ _) H2).
Qed.

Lemma slice_set_some at_ src mem : (at_ + N.of_nat (length src) ≤ N.of_nat (length mem))%N →
  slice_set at_ src mem = Some (take (N.to_nat at_) mem ++ src ++ drop (N.to_nat at_ + length src) mem).
Proof. intros H. unfold slice_set. by rewrite (proj2 (N.leb_le _ _) H). Qed.

Lemma slice_set_inv at_ src mem mem' : slice_set at_ src mem = Some mem' →
  length mem' = length mem ∧
  (∀ i, (i < N.to_nat at_ ∨ N.to_nat at_ + length src ≤ i) → mem' !! i = mem !! i) ∧
  take (length src) (drop (N.to_nat at_) mem') = src.
Proof.
  unfold slice_set. destruct (N.leb_spec (at_ + N.of_nat (length src)) (N.of_nat (length mem))) as [Hle|]; [|done].
  intros [= <-]. split_and!.
  - rewrite !length_app, length_take, length_drop. lia.
  - intros i [Hi|Hi].
    + rewrite lookup_app_l by (rewrite length_take; lia). by rewrite lookup_take_lt by lia.
    + rewrite lookup_app_r by (rewrite length_take; lia).
      rewrite lookup_app_r by (rewrite length_take; lia).
      rewrite lookup_drop, length_take. f_equal. lia.
  - rewrite drop_app_length' by (rewrite length_take; lia). by rewrite take_app_length.
Qed.

Lemma slice_ext (mem mem' : bytes) a n : (∀ i, a ≤ i < a + n → mem !! i = mem' !! i) →
  take n (drop a mem) = take n (drop a mem').
Proof.
  intros H. apply list_eq. intros i. destruct (decide (i < n)) as [Hi|].
  - rewrite !lookup_take_lt, !lookup_drop by lia. apply H. lia.
  - by rewrite !lookup_take_ge by lia.
Qed.

(** ** Headers *)

Lemma length_pad_id id : length (pad_id id) = 64.
Proof. unfold pad_id. rewrite length_app, length_replicate, length_take. lia. Qed.

Lemma length_encode_entry_header h : length (eh_id h) = 64 → length (encode_entry_header h) = 76.
Proof.
  intros H. unfold encode_entry_header, u32_to_le_bytes, u64_to_le_bytes.
  by rewrite !length_app, !length_le_encode, H.
Qed.

Lemma length_encode_header h : length (h_leader_id h) = 64 → length (encode_header h) = 128.
Proof.
  intros H. unfold encode_header, u32_to_le_bytes, u64_to_le_bytes.
  by rewrite !length_app, !length_le_encode, length_replicate, H.
Qed.

(** Peel [field from n] off a concatenation whose first part is known. *)
Lemma field_skip from n (l k : bytes) : length l ≤ from → field from n (l ++ k) = field (from - length l) n k.
Proof. intros H. unfold field. by rewrite drop_app_ge. Qed.
Lemma field_here n (l k : bytes) : length l = n → field 0 n (l ++ k) = l.
Proof. intros <-. unfold field. by rewrite drop_0, take_app_length. Qed.

Ltac peel_field :=
  simpl Nat.sub;
  repeat (rewrite field_skip by (rewrite ?length_le_encode; lia); rewrite ?length_le_encode; simpl Nat.sub);
  rewrite field_here by (rewrite ?length_le_encode; lia).

(** The values a header may hold. *)
Definition header_fits (h : SharedMemoryHeader) : Prop :=
  length (h_leader_id h) = 64 ∧ (h_leader_timestamp h ≤ U64_MAX)%N ∧ (h_generation h ≤ U64_MAX)%N ∧
  (h_ring_buffer_head h ≤ U32_MAX)%N ∧ (h_ring_buffer_tail h ≤ U32_MAX)%N ∧
  (h_ring_buffer_capacity h ≤ U32_MAX)%N ∧ (h_snapshot_offset h ≤ U64_MAX)%N ∧ (h_snapshot_size h ≤ U64_MAX)%N.

Lemma le_decode_encode8 x : (x ≤ U64_MAX)%N → le_decode (le_encode 8 x) = x.
Proof. intros H. apply le_decode_encode. unfold U64_MAX in H. change (256 ^ N.of_nat 8)%N with 18446744073709551616%N. lia. Qed.
Lemma le_decode_encode4 x : (x ≤ U32_MAX)%N → le_decode (le_encode 4 x) = x.
Proof. intros H. apply le_decode_encode. unfold U32_MAX in H. change (256 ^ N.of_nat 4)%N with 4294967296%N. lia. Qed.

Lemma header_round_trip h rest : header_fits h → decode_header (encode_header h ++ rest) = h.
Proof.
  destruct h as [id ts g hd tl cap off sz]. intros (Hid&?&?&?&?&?&?&?); simpl in *.
  unfold decode_header. rewrite length_app, length_encode_header by done.
  destruct (N.ltb_spec (N.of_nat (128 + length rest)) HEADER_SIZE) as [Hlt|_]; [unfold HEADER_SIZE in Hlt; lia|].
  unfold encode_header, u64_to_le_bytes, u32_to_le_bytes.
  cbn [h_leader_id h_leader_timestamp h_generation h_ring_buffer_head h_ring_buffer_tail h_ring_buffer_capacity
    h_snapshot_offset h_snapshot_size].
  rewrite <-!app_assoc. f_equal.
  - by rewrite field_here.
  - rewrite field_skip, Hid by lia. peel_field. by apply le_decode_encode8.
  - rewrite field_skip, Hid by lia. peel_field. by apply le_decode_encode8.
  - rewrite field_skip, Hid by lia. peel_field. by apply le_decode_encode4.
  - rewrite field_skip, Hid by lia. peel_field. by apply le_decode_encode4.
  - rewrite field_skip, Hid by lia. peel_field. by apply le_decode_encode4.
  - rewrite field_skip, Hid by lia. peel_field. by apply le_decode_encode8.
  - rewrite field_skip, Hid by lia. peel_field. by apply le_decode_encode8.
Qed.

Lemma entry_header_round_trip h rest :
  length (eh_id h) = 64 → (eh_yrs_update_size h ≤ U32_MAX)%N → (eh_timestamp h ≤ U64_MAX)%N →
  decode_entry_header (encode_entry_header h ++ rest) = Some h.
Proof.
  destruct h as [id sz ts]. simpl. intros Hid ? ?.
  unfold decode_entry_header. rewrite length_app, length_encode_entry_header by done.
  destruct (N.ltb_spec (N.of_nat (76 + length rest)) ENTRY_HEADER_WIRE_SIZE) as [Hlt|_];
    [unfold ENTRY_HEADER_WIRE_SIZE in Hlt; lia|].
  unfold encode_entry_header, u64_to_le_bytes, u32_to_le_bytes.
  cbn [eh_id eh_yrs_update_size eh_timestamp]. rewrite <-!app_assoc.
  do 2 f_equal.
  - by rewrite field_here.
  - rewrite field_skip, Hid by lia. peel_field. by apply le_decode_encode4.
  - rewrite field_skip, Hid by lia. peel_field. by apply le_decode_encode8.
Qed.

(** ** No content of the memory makes an access out of range *)

Lemma next_head_some mem capacity head : is_Some (next_head mem capacity head).
Proof.
  unfold next_head. destruct (_ <? _)%N; [by eexists|].
  destruct (N.ltb_spec (N.of_nat (length mem)) (HEADER_SIZE + head + ENTRY_HEADER_WIRE_SIZE)) as [|Hle]; [by eexists|].
  rewrite slice_get_some by lia. simpl. by repeat case_match; eexists.
Qed.

Lemma advance_head_some fuel mem capacity tail new_tail head :
  is_Some (advance_head fuel mem capacity tail new_tail head).
Proof.
  revert head. induction fuel as [|fuel IH]; intros head; simpl; destruct (head_is_between _ _ _); [by eexists..| |by eexists].
  destruct (next_head_some mem capacity head) as [h ->]. apply IH.
Qed.

Lemma read_step_some mem capacity head : is_Some (read_step mem capacity head).
Proof.
  unfold read_step. destruct (_ <? _)%N; [by eexists|].
  destruct (N.ltb_spec (N.of_nat (length mem)) (HEADER_SIZE + head + ENTRY_HEADER_WIRE_SIZE)) as [|Hle]; [by eexists|].
  rewrite slice_get_some by lia. simpl.
  destruct (decode_entry_header _) as [eh|]; [|by eexists].
  destruct (_ =? _)%N; [by eexists|]. destruct (checked_add _ _ ≫= _); [|by eexists].
  destruct (capacity <? _)%N; [by eexists|].
  destruct (N.ltb_spec (N.of_nat (length mem)) (HEADER_SIZE + head + ENTRY_HEADER_WIRE_SIZE + eh_yrs_update_size eh));
    [by eexists|].
  rewrite slice_get_some by lia. by eexists.
Qed.

Lemma read_entries_some fuel mem capacity tail head : is_Some (read_entries fuel mem capacity tail head).
Proof.
  revert head. induction fuel as [|fuel IH]; intros head; simpl; destruct (_ =? _)%N; [by eexists..|].
  destruct (read_step_some mem capacity head) as [[|e n|] ->]; simpl; [apply IH| |by eexists].
  destruct (IH n) as [es ->]. by eexists.
Qed.

(** What placing an entry does. *)
Definition moved (head new_tail : N) (h : SharedMemoryHeader) : SharedMemoryHeader :=
  Header (h_leader_id h) (h_leader_timestamp h) (h_generation h) (as_u32 head) (as_u32 new_tail)
    (h_ring_buffer_capacity h) (h_snapshot_offset h) (h_snapshot_size h).

Definition wire_entry (now : N) (id : string) (yrs_update : bytes) : bytes :=
  encode_entry_header (EntryHeader (pad_id id) (as_u32 (N.of_nat (length yrs_update))) now) ++ yrs_update.

Lemma length_wire_entry now id upd : length (wire_entry now id upd) = 76 + length upd.
Proof. unfold wire_entry. by rewrite length_app, length_encode_entry_header by apply length_pad_id. Qed.

Lemma place_entry_ok now id upd header head tail new_tail mem :
  (HEADER_SIZE + tail + ENTRY_HEADER_WIRE_SIZE + N.of_nat (length upd) ≤ N.of_nat (length mem))%N →
  ∃ mem1, slice_set (HEADER_SIZE + tail) (wire_entry now id upd) mem = Some mem1 ∧
    place_entry now id upd header head tail new_tail mem =
      Some (Ok tt, write_header (moved head new_tail header) mem1).
Proof.
  intros Hfit. unfold HEADER_SIZE, ENTRY_HEADER_WIRE_SIZE in *.
  eexists. split.
  { apply slice_set_some. rewrite length_wire_entry. lia. }
  unfold place_entry, HEADER_SIZE, ENTRY_HEADER_WIRE_SIZE.
  destruct (N.ltb_spec (N.of_nat (length mem)) (128 + tail + 76 + N.of_nat (length upd))); [lia|].
  set (eh := EntryHeader _ _ _). assert (Hwire : length (encode_entry_header eh) = 76).
  { apply length_encode_entry_header, length_pad_id. }
  rewrite slice_set_some by (rewrite Hwire; lia). cbn [mbind option_bind].
  rewrite slice_set_some by (rewrite !length_app, length_take, length_drop, Hwire; lia).
  cbn [mbind option_bind]. unfold moved. match goal with |- Some (_, write_header _ ?a) = Some (_, write_header _ ?b) => enough (a = b) as -> by done end. unfold wire_entry. fold eh. rewrite Hwire.
  rewrite (take_app_ge (take (N.to_nat (128 + tail)) mem)) by (rewrite length_take; lia).
  rewrite length_take. replace (N.to_nat (128 + tail + 76) - N.to_nat (128 + tail) `min` length mem) with 76 by lia.
  rewrite take_app_length' by done. rewrite <-!app_assoc. do 3 f_equal.
  rewrite (drop_app_ge (take _ mem)) by (rewrite length_take; lia).
  rewrite length_take, drop_app_ge by lia. rewrite Hwire, drop_drop, length_app, Hwire. f_equal. lia.
Qed.

Lemma place_entry_some now id upd header head tail new_tail mem :
  is_Some (place_entry now id upd header head tail new_tail mem).
Proof.
  destruct (N.ltb_spec (N.of_nat (length mem))
    (HEADER_SIZE + tail + ENTRY_HEADER_WIRE_SIZE + N.of_nat (length upd))) as [Hlt|Hle].
  - unfold place_entry. rewrite (proj2 (N.ltb_lt _ _)) by lia. by eexists.
  - destruct (place_entry_ok now id upd header head tail new_tail mem) as (mem1&_&->); [lia|by eexists].
Qed.

Lemma wrap_tail_some capacity tail mem : (HEADER_SIZE + capacity ≤ N.of_nat (length mem))%N ∨ capacity = 0%N →
  is_Some (wrap_tail capacity tail mem).
Proof.
  intros Hcap. unfold wrap_tail, checked_add, ENTRY_HEADER_WIRE_SIZE.
  destruct (_ <=? U64_MAX)%N; [|by eexists].
  destruct (N.leb_spec (tail + 76) capacity); [|by eexists].
  rewrite slice_set_some; [by eexists|].
  rewrite length_encode_entry_header by apply length_replicate. unfold HEADER_SIZE in *. lia.
Qed.

Lemma write_bytes_some now id upd inner_capacity mem : is_Some (write_bytes now id upd inner_capacity mem).
Proof.
  unfold write_bytes. destruct (_ <? _)%N; [by eexists|]. cbv zeta.
  set (header := decode_header mem). set (tail := if _ || _ then 0%N else h_ring_buffer_tail header).
  destruct (N.ltb_spec (saturating_sub (N.of_nat (length mem)) HEADER_SIZE) (h_ring_buffer_capacity header))
    as [|Hcap]; [by eexists|].
  assert (Hfit : (HEADER_SIZE + h_ring_buffer_capacity header ≤ N.of_nat (length mem))%N ∨
    h_ring_buffer_capacity header = 0%N) by (unfold saturating_sub, HEADER_SIZE in *; lia).
  assert (Hwrap : is_Some (if match checked_add tail (ENTRY_HEADER_WIRE_SIZE + N.of_nat (length upd)) with
    Some v => (h_ring_buffer_capacity header <? v)%N | None => true end
    then wrap_tail (h_ring_buffer_capacity header) tail mem else Some mem)).
  { destruct (match checked_add _ _ with Some _ => _ | None => _ end); [by apply wrap_tail_some|by eexists]. }
  destruct Hwrap as [mem1 ->]. cbn [mbind option_bind].
  destruct (checked_add _ _) as [new_tail|] eqn:?; [|by eexists]. destruct (new_tail <=? _)%N; [|by eexists].
  match goal with |- context[advance_head ?f ?m ?c ?t ?n ?h] => destruct (advance_head_some f m c t n h) as [[] ->] end.
  apply place_entry_some.
Qed.

Lemma ring_calls_return now id upd (l : SharedMemory) :
  (write_entry now id upd l).1 ≠ Err Panicked ∧
  rw_poisoned (write_entry now id upd l).2 = rw_poisoned l ∧
  (read_uncommitted l).1 ≠ Err Panicked ∧ (read_uncommitted l).2 = l.
Proof.
  destruct l as [inner p]. unfold write_entry, read_uncommitted, rw_lock, end_write, mbind, sm_bind. simpl.
  destruct p; simpl; [done|].
  destruct (write_bytes_some now id upd (shm_capacity inner) (shm_mem inner)) as [[r mem] ->].
  assert (is_Some (read_bytes (shm_mem inner))) as [r' ->].
  { unfold read_bytes. destruct (_ <? _)%N; [by eexists|]. destruct (_ || _); [by eexists|].
    apply fmap_is_Some, read_entries_some. }
  by destruct r, r'.
Qed.

(** C20: Whatever bytes the shared memory holds (another process may have left a
    corrupt header, any head, tail, capacity or entry size, or a file shorter
    than a header), [write_entry] and [read_uncommitted] return a value or an
    error and never index out of range, for every mutation; so a write never
    poisons the lock. *)
Theorem shared_memory_never_panics now id upd (l : SharedMemory) :
  (write_entry now id upd l).1 ≠ Err Panicked ∧
  rw_poisoned (write_entry now id upd l).2 = rw_poisoned l ∧
  (read_uncommitted l).1 ≠ Err Panicked ∧ (read_uncommitted l).2 = l.
Proof. apply ring_calls_return. Qed.

(** ** Reading depends on the bytes read only *)

(** The two memories agree on the bytes of the ring from [a] to [b]. *)
Definition agree (mem mem' : bytes) (a b : N) : Prop :=
  length mem = length mem' ∧ ∀ i, (N.to_nat (HEADER_SIZE + a) ≤ i < N.to_nat (HEADER_SIZE + b)) → mem !! i = mem' !! i.

Lemma agree_mono mem mem' a b a' b' : agree mem mem' a b → (a ≤ a')%N → (b' ≤ b)%N → agree mem mem' a' b'.
Proof. intros [Hl H] ? ?. split; [done|]. intros i Hi. apply H. lia. Qed.

Lemma slice_get_agree mem mem' a b : agree mem mem' a b →
  slice_get (HEADER_SIZE + a) (HEADER_SIZE + b) mem = slice_get (HEADER_SIZE + a) (HEADER_SIZE + b) mem'.
Proof.
  intros [Hl H]. unfold slice_get. rewrite Hl. destruct (_ && _); [|done]. f_equal.
  apply slice_ext. intros i Hi. apply H. lia.
Qed.

(** How far the step at [head] reads. *)
Definition step_end (head : N) (st : ring_step) : N :=
  match st with RingEntryAt _ next => next | _ => (head + ENTRY_HEADER_WIRE_SIZE)%N end.

Lemma checked_add_some a b c : checked_add a b = Some c → c = (a + b)%N.
Proof. unfold checked_add. by destruct (_ <=? _)%N; intros [= <-]. Qed.

Lemma checked_add_none a b : checked_add a b = None → (U64_MAX < a + b)%N.
Proof. unfold checked_add. by destruct (N.leb_spec (a + b) U64_MAX). Qed.

Lemma read_step_entry mem capacity head e next :
  read_step mem capacity head = Some (RingEntryAt e next) →
  (head + ENTRY_HEADER_WIRE_SIZE ≤ next ≤ capacity)%N.
Proof.
  unfold read_step. destruct (_ <? _)%N; [done|]. destruct (_ <? _)%N; [done|].
  destruct (slice_get _ _ _) as [buf|]; [|done]. simpl. destruct (decode_entry_header buf) as [eh|]; [|done].
  destruct (_ =? _)%N; [done|].
  destruct (checked_add head _) as [v|] eqn:Hv; [|done]. simpl.
  destruct (checked_add v _) as [w|] eqn:Hw; [|done].
  destruct (N.ltb_spec capacity w); [done|]. destruct (_ <? _)%N; [done|].
  destruct (slice_get _ _ mem); [|done]. simpl. intros [= _ ->].
  apply checked_add_some in Hv as ->, Hw as ->. lia.
Qed.

Lemma read_step_agree mem mem' capacity head st : read_step mem capacity head = Some st →
  agree mem mem' head (step_end head st) → read_step mem' capacity head = Some st.
Proof.
  intros Hst Hag. pose proof Hst as Hlen.
  assert (Hbuf : agree mem mem' head (head + ENTRY_HEADER_WIRE_SIZE)).
  { eapply agree_mono; [done|lia|]. destruct st; simpl; try lia. by apply read_step_entry in Hst as [? _]. }
  assert (Hlm : length mem = length mem') by apply Hag.
  revert Hst. unfold read_step. rewrite <-Hlm. destruct (_ <? _)%N; [done|]. destruct (_ <? _)%N; [done|].
  rewrite <-!N.add_assoc, (slice_get_agree _ _ _ _ Hbuf).
  destruct (slice_get _ _ _) as [buf|]; [|done]. simpl. destruct (decode_entry_header buf) as [eh|]; [|done].
  destruct (_ =? _)%N; [done|].
  destruct (checked_add head _) as [v|] eqn:Hv; [|done]. simpl.
  destruct (checked_add v _) as [w|] eqn:Hw; [|done].
  destruct (N.ltb_spec capacity w); [done|]. destruct (_ <? _)%N; [done|].
  apply checked_add_some in Hv as ->, Hw as ->.
  match goal with |- context[slice_get ?a ?b mem] => destruct (slice_get a b mem) as [upd|] eqn:Hs; [|done] end.
  cbn [mbind option_bind]. intros [= <-]. cbn [step_end] in Hag.
  assert (Hpay : agree mem mem' (head + ENTRY_HEADER_WIRE_SIZE)
    (head + ENTRY_HEADER_WIRE_SIZE + eh_yrs_update_size eh)) by (eapply agree_mono; [exact Hag|lia|lia]).
  apply slice_get_agree in Hpay. rewrite <-!N.add_assoc in Hpay. rewrite <-!N.add_assoc in Hs.
  rewrite <-!N.add_assoc. by rewrite <-Hpay, Hs.
Qed.

(** ** What the ring holds *)

(** Consecutive entries from [a] to [b]. *)
Inductive segment (mem : bytes) (capacity : N) : N → N → list RingBufferEntry → Prop :=
  | segment_nil a : segment mem capacity a a []
  | segment_cons a n b e es : read_step mem capacity a = Some (RingEntryAt e n) →
      segment mem capacity n b es → segment mem capacity a b (e :: es).

(** The entries from head to tail, in one run or in two around the end. *)
Definition contents (mem : bytes) (capacity head tail : N) (es : list RingBufferEntry) : Prop :=
  ((head < tail)%N ∧ segment mem capacity head tail es) ∨
  ((tail < head)%N ∧ ∃ m es1 es2, segment mem capacity head m es1 ∧
     read_step mem capacity m = Some RingJump ∧ segment mem capacity 0 tail es2 ∧ es = es1 ++ es2).

Lemma segment_le mem capacity a b es : segment mem capacity a b es → (a ≤ b)%N.
Proof.
  induction 1 as [|a n b e es Hst _ IH]; [done|]. apply read_step_entry in Hst. lia.
Qed.

Lemma segment_agree mem mem' capacity a b es : segment mem capacity a b es → agree mem mem' a b →
  segment mem' capacity a b es.
Proof.
  induction 1 as [|a n b e es Hst Hseg IH]; intros Hag; [constructor|].
  pose proof (read_step_entry _ _ _ _ _ Hst) as [Hn _]. pose proof (segment_le _ _ _ _ _ Hseg).
  eapply segment_cons.
  - eapply read_step_agree; [done|]. eapply agree_mono; [exact Hag|lia|simpl; lia].
  - apply IH. eapply agree_mono; [exact Hag|lia|lia].
Qed.

Lemma segment_snoc mem capacity a b c e es : segment mem capacity a b es →
  read_step mem capacity b = Some (RingEntryAt e c) → segment mem capacity a c (es ++ [e]).
Proof.
  induction 1 as [|a n b e' es Hst Hseg IH]; intros Hb; simpl.
  - eapply segment_cons; [done|constructor].
  - eapply segment_cons; [done|by apply IH].
Qed.

(** The loop reads a run that the tail does not cut. *)
Lemma read_segment mem capacity tail a b es k : segment mem capacity a b es → (b ≤ tail ∨ tail < a)%N →
  read_entries (length es + k) mem capacity tail a = (app es) <$> read_entries k mem capacity tail b.
Proof.
  induction 1 as [|a n b e es Hst Hseg IH]; intros Ht.
  { simpl. by destruct (read_entries k mem capacity tail a). }
  pose proof (read_step_entry _ _ _ _ _ Hst) as [Hn _]. pose proof (segment_le _ _ _ _ _ Hseg).
  unfold ENTRY_HEADER_WIRE_SIZE in Hn. simpl.
  destruct (N.eqb_spec a tail); [lia|]. rewrite Hst. simpl. rewrite IH by lia.
  by destruct (read_entries k mem capacity tail b).
Qed.

Lemma read_contents mem capacity head tail es : contents mem capacity head tail es → length es < LOOP_LIMIT →
  read_entries LOOP_LIMIT mem capacity tail head = Some es.
Proof.
  intros [[Hlt Hseg]|(Hlt&m&es1&es2&Hseg1&Hjump&Hseg2&->)] Hlen.
  - replace LOOP_LIMIT with (length es + (LOOP_LIMIT - length es)) by lia.
    rewrite (read_segment _ _ _ _ tail es) by (done || lia).
    destruct (LOOP_LIMIT - length es); simpl; rewrite N.eqb_refl; simpl; by rewrite app_nil_r.
  - rewrite length_app in Hlen.
    replace LOOP_LIMIT with (length es1 + S (length es2 + (LOOP_LIMIT - length es1 - length es2 - 1))) by lia.
    pose proof (segment_le _ _ _ _ _ Hseg1).
    rewrite (read_segment _ _ _ _ m es1) by (done || lia). cbn [read_entries].
    destruct (N.eqb_spec m tail); [lia|]. rewrite Hjump. cbn [mbind option_bind].
    rewrite (read_segment _ _ _ _ tail es2) by (done || lia).
    destruct (LOOP_LIMIT - length es1 - length es2 - 1); simpl; rewrite N.eqb_refl; simpl; by rewrite app_nil_r.
Qed.

(** ** An entry that was written *)

(** The id survives when it is plain text of at most 64 bytes. *)
Definition id_fits (id : string) : Prop := length (utf8 id) ≤ 64 ∧ Forall (λ b, 0 < b < 128)%N (utf8 id).

Lemma trim_start_zeros_replicate n bs : trim_start_zeros (replicate n 0%N ++ bs) = trim_start_zeros bs.
Proof. induction n as [|n IH]; [done|]. exact IH. Qed.

Lemma trim_start_zeros_id bs : Forall (λ b, 0 < b)%N bs → trim_start_zeros bs = bs.
Proof. intros H. destruct H as [|b bs' Hb _]; [done|]. simpl. by destruct b. Qed.

Lemma rev_reverse (l : bytes) : rev l = reverse l.
Proof. apply rev_alt. Qed.

Lemma trim_id_pad id : id_fits id → trim_id (pad_id id) = id.
Proof.
  intros [Hlen Hchars]. unfold trim_id, pad_id. rewrite take_ge by done.
  set (z := replicate _ _). rewrite lossy_ascii; [|done|].
  2:{ apply Forall_app. split; [eapply Forall_impl; [done|]; simpl; lia|]. apply Forall_replicate. lia. }
  rewrite rev_app_distr, (rev_reverse z). unfold z. rewrite reverse_replicate, trim_start_zeros_replicate.
  rewrite trim_start_zeros_id, rev_involutive; [apply string_of_bytes_utf8|].
  rewrite rev_reverse, Forall_reverse. eapply Forall_impl; [done|]. simpl. lia.
Qed.

(** The bytes of the ring at [a]. *)
Definition at_ring (mem : bytes) (a : N) (bs : bytes) : Prop :=
  take (length bs) (drop (N.to_nat (HEADER_SIZE + a)) mem) = bs.

Lemma at_ring_agree mem mem' a bs : at_ring mem a bs → agree mem mem' a (a + N.of_nat (length bs)) → at_ring mem' a bs.
Proof.
  intros Hat [_ Hag]. unfold at_ring. rewrite <-Hat at 2. symmetry. apply slice_ext. intros i Hi. apply Hag. lia.
Qed.

Lemma at_ring_app_l mem a bs bs' : at_ring mem a (bs ++ bs') → at_ring mem a bs.
Proof.
  unfold at_ring. rewrite length_app. intros H. apply (f_equal (take (length bs))) in H.
  rewrite take_take, take_app_length in H. by replace (length bs `min` (length bs + length bs')) with (length bs) in H by lia.
Qed.

Lemma at_ring_app_r mem a bs bs' : at_ring mem a (bs ++ bs') → at_ring mem (a + N.of_nat (length bs)) bs'.
Proof.
  unfold at_ring. rewrite length_app. intros H. apply (f_equal (drop (length bs))) in H.
  rewrite drop_app_length, <-take_drop_commute, drop_drop in H. rewrite <-H at 2. do 2 f_equal. lia.
Qed.

Lemma slice_get_at_ring mem a b bs : at_ring mem a bs → (b = a + N.of_nat (length bs))%N →
  (HEADER_SIZE + b ≤ N.of_nat (length mem))%N → slice_get (HEADER_SIZE + a) (HEADER_SIZE + b) mem = Some bs.
Proof.
  intros Hat -> Hb. rewrite slice_get_some by lia. f_equal. rewrite <-Hat at 2. f_equal. lia.
Qed.

Lemma checked_add_small a b : (a + b ≤ U64_MAX)%N → checked_add a b = Some (a + b)%N.
Proof. intros H. unfold checked_add. by rewrite (proj2 (N.leb_le _ _) H). Qed.

Lemma as_u32_small a : (a ≤ U32_MAX)%N → as_u32 a = a.
Proof. intros H. apply N.mod_small. unfold U32_MAX in H. lia. Qed.

Lemma read_step_wire mem capacity now id upd tail :
  let new_tail := (tail + (ENTRY_HEADER_WIRE_SIZE + N.of_nat (length upd)))%N in
  at_ring mem tail (wire_entry now id upd) → (new_tail ≤ capacity)%N → (capacity ≤ U32_MAX)%N →
  (HEADER_SIZE + capacity ≤ N.of_nat (length mem))%N → (now ≤ U64_MAX)%N → id_fits id →
  read_step mem capacity tail = Some (RingEntryAt (RingEntry id upd now) new_tail).
Proof.
  intros new_tail Hat Hnew Hcap Hmem Hnow Hid. subst new_tail. unfold read_step.
  unfold wire_entry in Hat. set (eh := EntryHeader _ _ _) in Hat.
  assert (Hwire : length (encode_entry_header eh) = 76) by apply length_encode_entry_header, length_pad_id.
  unfold ENTRY_HEADER_WIRE_SIZE, HEADER_SIZE, U32_MAX in *.
  rewrite checked_add_small by (unfold U64_MAX; lia). cbn [default from_option Datatypes.id].
  rewrite (proj2 (N.ltb_ge _ _)) by lia. rewrite (proj2 (N.ltb_ge _ _)) by lia.
  rewrite <-N.add_assoc, (slice_get_at_ring _ _ _ (encode_entry_header eh)); cycle 1.
  { by eapply at_ring_app_l. } { rewrite Hwire. lia. } { unfold HEADER_SIZE. lia. }
  cbn [mbind option_bind]. rewrite <-(app_nil_r (encode_entry_header eh)), entry_header_round_trip; cycle 1.
  { apply length_pad_id. } { simpl. rewrite as_u32_small; unfold U32_MAX; lia. } { done. }
  cbn [eh eh_yrs_update_size eh_id eh_timestamp]. rewrite as_u32_small by (unfold U32_MAX; lia).
  destruct (N.eqb_spec (N.of_nat (length upd)) SENTINEL_SIZE) as [Hs|_]; [unfold SENTINEL_SIZE in Hs; lia|].
  rewrite checked_add_small by (unfold U64_MAX; lia).
  rewrite (proj2 (N.ltb_ge _ _)) by lia. rewrite (proj2 (N.ltb_ge _ _)) by lia.
  match goal with |- context[slice_get ?a ?b mem] =>
    replace (slice_get a b mem) with (slice_get (HEADER_SIZE + (tail + 76))
      (HEADER_SIZE + (tail + 76 + N.of_nat (length upd))) mem) by (unfold HEADER_SIZE; f_equal; lia) end.
  rewrite (slice_get_at_ring _ (tail + 76) _ upd); cycle 1.
  { apply at_ring_app_r in Hat. by rewrite Hwire in Hat. } { lia. } { unfold HEADER_SIZE. lia. }
  cbn [mbind option_bind]. rewrite trim_id_pad by done. by rewrite N.add_assoc.
Qed.

(** Where nothing fits, or the sentinel stands, the reader goes to the start. *)
Lemma read_step_jump mem capacity tail : (HEADER_SIZE + capacity ≤ N.of_nat (length mem))%N →
  (capacity ≤ U32_MAX)%N → (tail ≤ capacity)%N →
  ((tail + ENTRY_HEADER_WIRE_SIZE ≤ capacity)%N → at_ring mem tail (encode_entry_header sentinel)) →
  read_step mem capacity tail = Some RingJump.
Proof.
  intros Hmem Hcap Htail Hat. unfold read_step. unfold ENTRY_HEADER_WIRE_SIZE, HEADER_SIZE, U32_MAX in *.
  rewrite checked_add_small by (unfold U64_MAX; lia). cbn [default from_option Datatypes.id].
  destruct (N.ltb_spec capacity (tail + 76)) as [|Hle]; [done|].
  rewrite (proj2 (N.ltb_ge _ _)) by lia.
  assert (Hwire : length (encode_entry_header sentinel) = 76) by (apply length_encode_entry_header, length_replicate).
  rewrite <-N.add_assoc, (slice_get_at_ring _ _ _ (encode_entry_header sentinel));
    [|by apply Hat|rewrite Hwire; lia|unfold HEADER_SIZE; lia].
  cbn [mbind option_bind].
  by rewrite <-(app_nil_r (encode_entry_header sentinel)), entry_header_round_trip by (done || apply length_replicate).
Qed.

(** ** Writes that evict nothing *)

Lemma write_header_ring h mem i : length (h_leader_id h) = 64 → 128 ≤ i →
  write_header h mem !! i = mem !! i ∧ length (write_header h mem) = length mem.
Proof.
  intros Hid Hi. unfold write_header, HEADER_SIZE.
  destruct (N.leb_spec 128 (N.of_nat (length mem))); [|done]. split.
  - rewrite lookup_app_r; rewrite length_encode_header by done; [|done]. rewrite lookup_drop. f_equal. lia.
  - rewrite length_app, length_encode_header, length_drop by done. lia.
Qed.

(** The memory after an entry of bytes [wire] and the header are in place. *)
Lemma placed tail wire h mem mem1 :
  (HEADER_SIZE ≤ N.of_nat (length mem))%N → header_fits h → slice_set (HEADER_SIZE + tail) wire mem = Some mem1 →
  let mem2 := write_header h mem1 in
  length mem2 = length mem ∧ decode_header mem2 = h ∧ at_ring mem2 tail wire ∧
  ∀ a b, (b ≤ tail ∨ tail + N.of_nat (length wire) ≤ a)%N → agree mem mem2 a b.
Proof.
  intros Hmem Hh Hset mem2. pose proof Hh as (Hid&_). unfold HEADER_SIZE in *.
  destruct (slice_set_inv _ _ _ _ Hset) as (Hlen&Hout&Hin).
  pose proof (λ i Hi, proj1 (write_header_ring h mem1 i Hid Hi)) as Hring.
  assert (Hlen2 : length mem2 = length mem).
  { rewrite <-Hlen. apply (write_header_ring h mem1 128 Hid). lia. }
  split_and!; [done| | |].
  - unfold mem2, write_header. rewrite (proj2 (N.leb_le _ _)) by (unfold HEADER_SIZE; lia). by apply header_round_trip.
  - unfold at_ring. rewrite <-Hin at 2. apply slice_ext. intros i Hi. apply Hring. unfold HEADER_SIZE in *. lia.
  - intros a b Hab. split; [done|]. intros i Hi. unfold HEADER_SIZE in *. unfold mem2. rewrite Hring by lia.
    symmetry. apply Hout. lia.
Qed.

Abbreviation ring_header l := (decode_header (shm_mem (rw_val l))).
Abbreviation ring_head l := (h_ring_buffer_head (ring_header l)).
Abbreviation ring_tail l := (h_ring_buffer_tail (ring_header l)).
Abbreviation ring_capacity l := (h_ring_buffer_capacity (ring_header l)).

(** A sound ring and the mutations in it. *)
Record ring_holds (l : SharedMemory) (es : list RingBufferEntry) : Prop := {
  rh_lock : rw_poisoned l = false;
  rh_header : header_fits (ring_header l);
  rh_memory : (HEADER_SIZE + ring_capacity l ≤ N.of_nat (length (shm_mem (rw_val l))))%N;
  rh_inner : shm_capacity (rw_val l) = ring_capacity l;
  rh_bounds : (ring_head l ≤ ring_capacity l)%N ∧ (ring_tail l ≤ ring_capacity l)%N;
  rh_contents : contents (shm_mem (rw_val l)) (ring_capacity l) (ring_head l) (ring_tail l) es;
}.

Definition needed (yrs_update : bytes) : N := ENTRY_HEADER_WIRE_SIZE + N.of_nat (length yrs_update).

(** Room for [n] bytes behind the tail, or at the start, without reaching the
    head. *)
Definition has_room (n : N) (l : SharedMemory) : Prop :=
  ((ring_head l < ring_tail l)%N ∧ ((ring_tail l + n ≤ ring_capacity l)%N ∨ (n < ring_head l)%N)) ∨
  (ring_tail l + n < ring_head l)%N.

Lemma read_ring l es : ring_holds l es → length es < LOOP_LIMIT → read_uncommitted l = (Ok es, l).
Proof.
  intros [Hlock _ Hmem _ [Hh Ht] Hc] Hlen. unfold read_uncommitted, rw_lock, mbind, sm_bind. rewrite Hlock.
  unfold read_bytes, saturating_sub. rewrite (proj2 (N.ltb_ge _ _)) by lia.
  rewrite !(proj2 (N.ltb_ge _ _)) by lia. cbn [orb]. rewrite (read_contents _ _ _ _ _ Hc Hlen). reflexivity.
Qed.

Lemma moved_fits h head tail : header_fits h → header_fits (moved head tail h).
Proof.
  intros (?&?&?&?&?&?&?&?). unfold header_fits, moved, as_u32, U32_MAX in *. simpl.
  split_and!; try done; apply N.lt_succ_r, N.mod_lt; done.
Qed.

Lemma head_not_between head tail new_tail : (tail ≤ new_tail)%N → (head < tail ∨ new_tail ≤ head)%N →
  head_is_between head tail new_tail = false.
Proof.
  intros Hle Hout. unfold head_is_between. rewrite (proj2 (N.leb_le _ _) Hle).
  apply andb_false_iff. rewrite N.leb_gt, N.ltb_ge. lia.
Qed.

Lemma advance_head_stays fuel mem capacity tail new_tail head : head_is_between head tail new_tail = false →
  advance_head fuel mem capacity tail new_tail head = Some (head, tail).
Proof. intros H. destruct fuel; simpl; by rewrite H. Qed.

Section write.
Context (now : N) (id : string) (upd : bytes) (mem : bytes).
Abbreviation n := (needed upd).
Abbreviation header := (decode_header mem).
Abbreviation head := (h_ring_buffer_head header).
Abbreviation tail := (h_ring_buffer_tail header).
Abbreviation capacity := (h_ring_buffer_capacity header).
Context (Hfits : header_fits header) (Hmem : (HEADER_SIZE + capacity ≤ N.of_nat (length mem))%N)
  (Hhead : (head ≤ capacity)%N) (Htail : (tail ≤ capacity)%N) (Hn : (n ≤ capacity)%N).

Lemma header_small : (capacity ≤ U32_MAX)%N.
Proof using Hfits. by destruct Hfits as (_&_&_&_&_&?&_). Qed.

Ltac start_write :=
  pose proof header_small as Hcap; unfold write_bytes; fold n;
  rewrite (proj2 (N.ltb_ge _ _)) by lia; cbv zeta; unfold saturating_sub;
  rewrite (proj2 (N.ltb_ge (N.of_nat (length mem) - HEADER_SIZE) capacity)) by lia;
  rewrite (proj2 (N.ltb_ge capacity head)), (proj2 (N.ltb_ge capacity tail)) by lia; cbn [orb].

Lemma write_plain : (tail + n ≤ capacity)%N →
  write_bytes now id upd capacity mem =
    '(head', tail') ← advance_head LOOP_LIMIT mem capacity tail (tail + n) head;
    place_entry now id upd header head' tail' (tail + n) mem.
Proof using Hfits Hmem Hhead Htail Hn.
  intros Hplain. start_write.
  rewrite (checked_add_small tail n) by (unfold U64_MAX, U32_MAX in *; lia).
  rewrite (proj2 (N.ltb_ge _ _)) by lia. cbn [mbind option_bind].
  rewrite (checked_add_small tail n) by (unfold U64_MAX, U32_MAX in *; lia).
  rewrite (proj2 (N.leb_le _ _)) by lia. reflexivity.
Qed.

Lemma write_wrapped : (capacity < tail + n)%N →
  ∃ mem0, wrap_tail capacity tail mem = Some mem0 ∧
    write_bytes now id upd capacity mem =
      '(head', tail') ← advance_head LOOP_LIMIT mem0 capacity 0 n head;
      place_entry now id upd header head' tail' n mem0.
Proof using Hfits Hmem Hhead Htail Hn.
  intros Hwrap. start_write.
  destruct (wrap_tail_some capacity tail mem) as [mem0 Hmem0]; [by left|]. exists mem0. split; [done|].
  rewrite (checked_add_small tail n) by (unfold U64_MAX, U32_MAX in *; lia).
  rewrite (proj2 (N.ltb_lt _ _)) by lia. rewrite Hmem0. cbn [mbind option_bind].
  rewrite (checked_add_small 0 n) by (unfold U64_MAX, U32_MAX in *; lia). rewrite N.add_0_l.
  rewrite (proj2 (N.leb_le _ _)) by lia. reflexivity.
Qed.
End write.

(** The sentinel stands where there is room for it; nothing else changes. *)
Lemma wrap_tail_inv capacity tail mem mem0 : (HEADER_SIZE + capacity ≤ N.of_nat (length mem))%N →
  (capacity ≤ U32_MAX)%N → wrap_tail capacity tail mem = Some mem0 →
  length mem0 = length mem ∧ decode_header mem0 = decode_header mem ∧
  (∀ a b, (b ≤ tail)%N → agree mem mem0 a b) ∧
  ((tail + ENTRY_HEADER_WIRE_SIZE ≤ capacity)%N → at_ring mem0 tail (encode_entry_header sentinel)).
Proof.
  intros Hmem Hcap. pose proof (eq_refl : HEADER_SIZE = 128%N) as H128.
  pose proof (eq_refl : U32_MAX = 4294967295%N) as H32. pose proof (eq_refl : U64_MAX = 18446744073709551615%N) as H64.
  unfold wrap_tail. destruct (checked_add tail ENTRY_HEADER_WIRE_SIZE) as [v|] eqn:Hv; cycle 1.
  { intros [= ->]. split_and!; [done..|]. apply checked_add_none in Hv. lia. }
  apply checked_add_some in Hv as ->. destruct (N.leb_spec (tail + ENTRY_HEADER_WIRE_SIZE) capacity); cycle 1.
  { intros [= ->]. split_and!; [done..|]. lia. }
  intros Hset. destruct (slice_set_inv _ _ _ _ Hset) as (Hlen&Hout&Hin). split_and!.
  - done.
  - unfold decode_header. rewrite Hlen. destruct (_ <? _)%N; [done|].
    assert (Hf : ∀ from k, from + k ≤ 128 → field from k mem0 = field from k mem).
    { intros from k Hk. unfold field. apply slice_ext. intros i Hi. apply Hout. lia. }
    by rewrite (Hf 0 64), (Hf 64 8), (Hf 72 8), (Hf 80 4), (Hf 84 4), (Hf 88 4), (Hf 92 8), (Hf 100 8) by lia.
  - intros a b Hb. split; [done|]. intros i Hi. symmetry. apply Hout. lia.
  - intros _. exact Hin.
Qed.

(** ** The head makes way *)

Lemma head_between head tail new_tail : (tail ≤ head < new_tail)%N → head_is_between head tail new_tail = true.
Proof.
  intros H. unfold head_is_between. rewrite (proj2 (N.leb_le tail new_tail)) by lia.
  apply andb_true_iff. rewrite N.leb_le, N.ltb_lt. lia.
Qed.

(** The writer's view of a position agrees with the reader's. *)
Lemma next_head_read mem capacity head st : read_step mem capacity head = Some st → st ≠ RingStop →
  next_head mem capacity head = Some (match st with RingEntryAt _ next => next | _ => 0%N end).
Proof.
  unfold read_step, next_head. destruct (_ <? _)%N; [by intros [= <-]|]. destruct (_ <? _)%N; [by intros [= <-]|].
  destruct (slice_get _ _ _) as [buf|]; [|done]. simpl. destruct (decode_entry_header buf) as [eh|]; [|by intros [= <-]].
  destruct (_ =? _)%N; [by intros [= <-]|].
  destruct (checked_add head _) as [v|] eqn:Hv; [|by intros [= <-]]. simpl.
  destruct (checked_add v _) as [w|] eqn:Hw; [|by intros [= <-]].
  destruct (N.ltb_spec capacity w); [by intros [= <-]|]. destruct (_ <? _)%N; [by intros [= <-]|].
  destruct (slice_get _ _ mem); [|done]. simpl. intros [= <-] _.
  assert (Hbound : (w ≤ U64_MAX)%N) by (revert Hw; unfold checked_add; case_match eqn:E; [intros [= <-]; by apply N.leb_le|done]).
  apply checked_add_some in Hv as ->, Hw as ->.
  rewrite (checked_add_small ENTRY_HEADER_WIRE_SIZE) by lia. simpl.
  rewrite checked_add_small by lia. simpl. rewrite N.add_assoc. by rewrite (proj2 (N.leb_le _ _)).
Qed.

(** It stops at the first entry of a run that starts past the new tail. *)
Lemma advance_segment mem capacity tail new_tail a m es fuel :
  segment mem capacity a m es → (tail ≤ new_tail)%N → (tail ≤ a)%N → (new_tail ≤ m)%N → length es ≤ fuel →
  ∃ k p, advance_head fuel mem capacity tail new_tail a = Some (p, tail) ∧
    segment mem capacity p m (drop k es) ∧ (new_tail ≤ p ≤ m)%N ∧ ((new_tail ≤ a)%N → k = 0 ∧ p = a).
Proof.
  intros Hseg. revert fuel. induction Hseg as [a|a n m e es Hst Hseg IH]; intros fuel Htn Ht Hm Hfuel.
  { exists 0, a. rewrite advance_head_stays by (apply head_not_between; lia).
    split_and!; [done|constructor|lia|lia|done]. }
  pose proof (read_step_entry _ _ _ _ _ Hst) as [Hn _]. pose proof (segment_le _ _ _ _ _ Hseg).
  unfold ENTRY_HEADER_WIRE_SIZE in Hn. destruct (decide (new_tail ≤ a)%N) as [Ha|Ha].
  { exists 0, a. rewrite advance_head_stays by (apply head_not_between; lia).
    split_and!; [done|by eapply segment_cons|lia|lia|done]. }
  destruct fuel as [|fuel]; simpl in Hfuel; [lia|].
  destruct (IH fuel) as (k&p&Hadv&Hp&Hle&_); [lia..|].
  exists (S k), p. simpl. rewrite head_between by lia.
  rewrite (next_head_read _ _ _ _ Hst) by done. simpl. split_and!; [done|done|lia|lia|lia].
Qed.

(** A run that ends before the new tail is evicted, and the head goes on from
    the start. *)
Lemma advance_past mem capacity tail new_tail a m es fuel :
  segment mem capacity a m es → read_step mem capacity m = Some RingJump →
  (0 < tail ≤ a)%N → (m < new_tail)%N → length es < fuel →
  advance_head fuel mem capacity tail new_tail a = Some (0%N, tail).
Proof.
  intros Hseg Hjump. revert fuel. induction Hseg as [a|a n m e es Hst Hseg IH]; intros fuel Ht Hm Hfuel.
  - destruct fuel as [|fuel]; [simpl in Hfuel; lia|]. simpl. rewrite head_between by lia.
    rewrite (next_head_read _ _ _ _ Hjump) by done. simpl. apply advance_head_stays, head_not_between; lia.
  - pose proof (read_step_entry _ _ _ _ _ Hst) as [Hn _]. pose proof (segment_le _ _ _ _ _ Hseg).
    unfold ENTRY_HEADER_WIRE_SIZE in Hn. destruct fuel as [|fuel]; simpl in Hfuel; [lia|].
    simpl. rewrite head_between by lia. rewrite (next_head_read _ _ _ _ Hst) by done. apply IH; (done || lia).
Qed.

(** ** Writes *)

(** What a reader gets after a write: the mutations, or nothing at all when
    the head was moved onto the new tail. *)
Definition ring_reads (l : SharedMemory) (es : list RingBufferEntry) : Prop :=
  (ring_head l ≠ ring_tail l → ring_holds l es) ∧
  (ring_head l = ring_tail l → read_uncommitted l = (Ok [], l)).

Lemma read_empty l : rw_poisoned l = false →
  (HEADER_SIZE + ring_capacity l ≤ N.of_nat (length (shm_mem (rw_val l))))%N →
  ring_head l = ring_tail l → read_uncommitted l = (Ok [], l).
Proof.
  intros Hlock Hmem Heq. unfold read_uncommitted, rw_lock, mbind, sm_bind. rewrite Hlock.
  unfold read_bytes, saturating_sub. rewrite (proj2 (N.ltb_ge _ _)) by lia.
  destruct (_ || _); [done|]. rewrite Heq. by destruct LOOP_LIMIT; simpl; rewrite N.eqb_refl.
Qed.

(** The ring after an entry is placed at [tail] of [mem0] and the head is at
    [head]. *)
Lemma place_reads now id upd h head tail new_tail mem0 es' :
  let capacity := h_ring_buffer_capacity h in
  header_fits h → (head ≤ capacity)%N → (new_tail ≤ capacity)%N →
  (HEADER_SIZE + capacity ≤ N.of_nat (length mem0))%N →
  new_tail = (tail + needed upd)%N → (now ≤ U64_MAX)%N → id_fits id →
  (∀ mem2, length mem2 = length mem0 → (∀ a b, (b ≤ tail ∨ new_tail ≤ a)%N → agree mem0 mem2 a b) →
     read_step mem2 capacity tail = Some (RingEntryAt (RingEntry id upd now) new_tail) →
     head ≠ new_tail → contents mem2 capacity head new_tail es') →
  ∃ mem2, place_entry now id upd h head tail new_tail mem0 = Some (Ok tt, mem2) ∧
    let l' := RwLock (Shm mem2 capacity) false in
    ring_head l' = head ∧ ring_tail l' = new_tail ∧ ring_reads l' es'.
Proof.
  intros capacity Hh Hhead Hnew Hmem -> Hnow Hid Hcont. pose proof (eq_refl : HEADER_SIZE = 128%N) as H128.
  destruct (place_entry_ok now id upd h head tail (tail + needed upd) mem0) as (m&Hset&Hplace);
    [unfold needed in *; lia|].
  pose proof (moved_fits h head (tail + needed upd) Hh) as Hfit.
  assert (Hm : (HEADER_SIZE ≤ N.of_nat (length mem0))%N) by lia.
  destruct (placed tail _ _ _ _ Hm Hfit Hset) as (Hlen&Hdec&Hat&Hag). rewrite length_wire_entry in Hag.
  assert (Hcap : (capacity ≤ U32_MAX)%N) by (by destruct Hh as (_&_&_&_&_&?&_)).
  eexists. split; [exact Hplace|]. cbn [rw_val shm_mem]. rewrite Hdec.
  unfold ring_reads. cbn [rw_val shm_mem]. rewrite Hdec. cbn [moved h_ring_buffer_head h_ring_buffer_tail].
  rewrite !as_u32_small by lia. split_and!; [done..| |].
  - intros Hne. split; cbn [rw_val shm_mem rw_poisoned shm_capacity]; rewrite ?Hdec;
      cbn [moved h_ring_buffer_head h_ring_buffer_tail h_ring_buffer_capacity]; rewrite ?as_u32_small by lia;
      try done; [by rewrite Hlen|].
    apply Hcont; [done| | |done].
    + intros a b Hab. apply Hag. unfold needed, ENTRY_HEADER_WIRE_SIZE in Hab. lia.
    + apply read_step_wire; try done. by rewrite Hlen.
  - intros Heq. apply read_empty; cbn [rw_val shm_mem rw_poisoned]; rewrite ?Hdec;
      cbn [moved h_ring_buffer_head h_ring_buffer_tail h_ring_buffer_capacity]; [done|by rewrite Hlen|by rewrite Heq].
Qed.

(** Where the writer can put [n] bytes and keep the rest in order: behind the
    tail, or at the start when what was written there ends before the tail. *)
Definition fits_ring (n : N) (l : SharedMemory) : Prop :=
  ((ring_head l < ring_tail l)%N ∧ ((ring_tail l + n ≤ ring_capacity l)%N ∨ (n ≤ ring_tail l)%N)) ∨
  ((0 < ring_tail l < ring_head l)%N ∧ (ring_tail l + n ≤ ring_capacity l)%N).

Lemma needed_pos upd : (0 < needed upd)%N.
Proof. unfold needed, ENTRY_HEADER_WIRE_SIZE. lia. Qed.

Lemma segment_bound mem capacity a m es : segment mem capacity a m es → (a ≤ capacity)%N → (m ≤ capacity)%N.
Proof.
  induction 1 as [|a n b e es Hst _ IH]; [done|]. intros _. apply IH. apply read_step_entry in Hst. lia.
Qed.

Section writes.
Context (now : N) (id : string) (upd : bytes) (mem : bytes) (es : list RingBufferEntry).
Abbreviation n := (needed upd).
Abbreviation e := (RingEntry id upd now).
Abbreviation header := (decode_header mem).
Abbreviation head := (h_ring_buffer_head header).
Abbreviation tail := (h_ring_buffer_tail header).
Abbreviation capacity := (h_ring_buffer_capacity header).
Context (Hfits : header_fits header) (Hmem : (HEADER_SIZE + capacity ≤ N.of_nat (length mem))%N)
  (Hhead : (head ≤ capacity)%N) (Htail : (tail ≤ capacity)%N) (Hn : (n ≤ capacity)%N)
  (Hnow : (now ≤ U64_MAX)%N) (Hid : id_fits id) (Hlen : length es < LOOP_LIMIT).

(** The write evicts the oldest [k] mutations, none if it stays clear of the
    head. *)
Definition writes (clear : Prop) : Prop := ∃ mem2 k,
  write_bytes now id upd capacity mem = Some (Ok tt, mem2) ∧
  ring_reads (RwLock (Shm mem2 capacity) false) (drop k es ++ [e]) ∧
  (clear → k = 0 ∧ h_ring_buffer_head (decode_header mem2) ≠ h_ring_buffer_tail (decode_header mem2)).

Lemma write_behind : segment mem capacity head tail es → (head < tail)%N → (tail + n ≤ capacity)%N → writes True.
Proof using Hfits Hmem Hhead Htail Hn Hnow Hid Hlen.
  intros Hseg Hlt Hfit. pose proof (needed_pos upd).
  destruct (place_reads now id upd header head tail (tail + n) mem (es ++ [e])) as (mem2&Hplace&Hh&Ht&Hr); try done.
  { intros mem2 _ Hag Hst _. left. split; [lia|].
    eapply segment_snoc; [|done]. eapply segment_agree; [done|]. apply Hag. lia. }
  exists mem2, 0. split_and!; [|done|].
  - rewrite write_plain by done. rewrite advance_head_stays by (apply head_not_between; lia). exact Hplace.
  - intros _. split; [done|]. cbn [rw_val shm_mem] in Hh, Ht. lia.
Qed.

Lemma write_around : segment mem capacity head tail es → (capacity < tail + n)%N → (n ≤ tail)%N → writes (n < head)%N.
Proof using Hfits Hmem Hhead Htail Hn Hnow Hid Hlen.
  intros Hseg Hwrap Hle. pose proof (needed_pos upd). pose proof (header_small _ Hfits) as Hcap.
  destruct (write_wrapped now id upd mem) as (mem0&Hmem0&Hwrite); [done..|].
  destruct (wrap_tail_inv _ _ _ _ Hmem Hcap Hmem0) as (Hl0&Hd0&Hag0&Hsent).
  apply (segment_agree _ mem0) in Hseg; [|apply Hag0; lia].
  destruct (advance_segment mem0 capacity 0 n head tail es LOOP_LIMIT) as (k&p&Hadv&Hp&[Hp1 Hp2]&Hclear); [done|lia..|].
  destruct (place_reads now id upd header p 0 n mem0 (drop k es ++ [e])) as (mem2&Hplace&Hh&Ht&Hr); try done.
  { lia. } { by rewrite Hl0. }
  { intros mem2 Hl2 Hag Hst Hne. right. split; [lia|]. exists tail, (drop k es), [e]. split_and!; try done.
    - eapply segment_agree; [done|]. apply Hag. lia.
    - apply read_step_jump; try done; [by rewrite Hl2, Hl0|].
      intros Hfit. eapply at_ring_agree; [by apply Hsent|]. apply Hag. lia.
    - eapply segment_cons; [exact Hst|constructor]. }
  exists mem2, k. split_and!; [|done|].
  - by rewrite Hwrite, Hadv.
  - intros Hlt. cbn [rw_val shm_mem] in Hh, Ht. destruct Hclear as [-> ->]; [lia|]. split; [done|lia].
Qed.

Lemma write_between m es1 es2 : segment mem capacity head m es1 → read_step mem capacity m = Some RingJump →
  segment mem capacity 0 tail es2 → es = es1 ++ es2 → (0 < tail < head)%N → (tail + n ≤ capacity)%N →
  writes (tail + n < head)%N.
Proof using Hfits Hmem Hhead Htail Hn Hnow Hid Hlen.
  intros Hseg1 Hjump Hseg2 Hes Hlt Hfit. pose proof (needed_pos upd).
  assert (length es1 < LOOP_LIMIT) by (rewrite Hes, length_app in Hlen; lia).
  pose proof (segment_le _ _ _ _ _ Hseg1). unfold writes. rewrite Hes, write_plain by done.
  destruct (decide (tail + n ≤ m)%N) as [Hm|Hm].
  - destruct (advance_segment mem capacity tail (tail + n) head m es1 LOOP_LIMIT) as (k&p&Hadv&Hp&[Hp1 Hp2]&Hclear); [done|lia..|].
    destruct (place_reads now id upd header p tail (tail + n) mem (drop k es1 ++ es2 ++ [e])) as (mem2&Hplace&Hh&Ht&Hr); try done.
    { pose proof (segment_bound _ _ _ _ _ Hseg1 Hhead). lia. }
    { intros mem2 _ Hag Hst Hne. right. split; [lia|]. exists m, (drop k es1), (es2 ++ [e]). split_and!; try done.
      - eapply segment_agree; [done|]. apply Hag. lia.
      - eapply read_step_agree; [done|]. apply Hag. lia.
      - eapply segment_snoc; [|done]. eapply segment_agree; [done|]. apply Hag. lia. }
    exists mem2, (k `min` length es1). rewrite drop_app.
    replace (k `min` length es1 - length es1) with 0 by lia.
    replace (drop (k `min` length es1) es1) with (drop k es1); cycle 1.
    { destruct (decide (k ≤ length es1)); [f_equal; lia|]. by rewrite !drop_ge by lia. }
    rewrite drop_0, <-app_assoc. split_and!; [|done|].
    + rewrite Hadv. exact Hplace.
    + intros Hlt'. cbn [rw_val shm_mem] in Hh, Ht. destruct Hclear as [-> ->]; [lia|]. split; [done|lia].
  - destruct (place_reads now id upd header 0 tail (tail + n) mem (es2 ++ [e])) as (mem2&Hplace&Hh&Ht&Hr); try done.
    { lia. }
    { intros mem2 _ Hag Hst _. left. split; [lia|]. eapply segment_snoc; [|done].
      eapply segment_agree; [done|]. apply Hag. lia. }
    exists mem2, (length es1). rewrite drop_app_length. split_and!; [|done|lia].
    rewrite (advance_past _ _ _ _ _ m es1) by (done || lia). exact Hplace.
Qed.
End writes.

(** The write on the lock, from the write on the bytes. *)
Lemma write_entry_bytes now id upd (l : SharedMemory) mem2 : rw_poisoned l = false →
  write_bytes now id upd (shm_capacity (rw_val l)) (shm_mem (rw_val l)) = Some (Ok tt, mem2) →
  write_entry now id upd l = (Ok tt, RwLock (Shm mem2 (shm_capacity (rw_val l))) false).
Proof.
  intros Hp Hw. unfold write_entry, rw_lock, mbind, sm_bind, end_write. rewrite Hp, Hw.
  unfold rw_set. by rewrite Hp.
Qed.

(** A mutation written to a sound ring succeeds wherever it fits, and evicts
    the oldest mutations only: a reader then gets what is left of the mutations
    the ring held, in order, and then this one with its id, bytes and time; with
    room before the head nothing is evicted.  The one exception is a head that
    stops exactly on the new tail: the reader takes the full ring for an empty
    one and gets nothing. *)
Theorem ring_write now id upd (l : SharedMemory) es :
  ring_holds l es → fits_ring (needed upd) l → (needed upd ≤ ring_capacity l)%N →
  (now ≤ U64_MAX)%N → id_fits id → S (length es) < LOOP_LIMIT →
  ∃ l' k, write_entry now id upd l = (Ok tt, l') ∧
    (ring_head l' ≠ ring_tail l' → ring_holds l' (drop k es ++ [RingEntry id upd now]) ∧
       read_uncommitted l' = (Ok (drop k es ++ [RingEntry id upd now]), l')) ∧
    (ring_head l' = ring_tail l' → read_uncommitted l' = (Ok [], l')) ∧
    (has_room (needed upd) l → k = 0 ∧ ring_head l' ≠ ring_tail l').
Proof.
  intros [Hlock Hfits Hmem Hinner [Hhead Htail] Hcont] Hfit Hn Hnow Hid Hlen.
  assert (∃ clear : Prop, (has_room (needed upd) l → clear) ∧ writes now id upd (shm_mem (rw_val l)) es clear)
    as (clear&Hclear&mem2&k&Hw&[Hne Heq]&Hk).
  { unfold has_room, fits_ring in *. destruct Hcont as [[Hlt Hseg]|(Hlt&m&es1&es2&Hseg1&Hjump&Hseg2&Hes)].
    - destruct (decide (ring_tail l + needed upd ≤ ring_capacity l)%N).
      + eexists. split; [|apply write_behind; (done || lia)]. done.
      + eexists. split; [|apply write_around; (done || lia)]. lia.
    - eexists. split; [|apply write_between with (m := m) (es1 := es1) (es2 := es2); (done || lia)]. lia. }
  rewrite <-Hinner in *. eexists _, k. split; [by apply write_entry_bytes|]. split_and!.
  - intros Hd. specialize (Hne Hd). split; [done|]. apply read_ring; [done|].
    rewrite length_app, length_drop. simpl. lia.
  - intros Hd. by apply Heq.
  - intros Hroom. by apply Hk, Hclear.
Qed.

(** When head and tail of a ring coincide (a ring just created over the
    file of an earlier run, or one whose head was moved onto the tail) and the
    memory there still holds an old entry of the same size, the next mutation
    is written but not read: the ring counts as empty again.  So after a
    restart, or once mutations of one size have gone around, nothing of what
    is written is found by the recovery. *)
Theorem ring_write_unread now id upd (l : SharedMemory) old :
  rw_poisoned l = false → header_fits (ring_header l) →
  (HEADER_SIZE + ring_capacity l ≤ N.of_nat (length (shm_mem (rw_val l))))%N →
  shm_capacity (rw_val l) = ring_capacity l → ring_head l = ring_tail l →
  read_step (shm_mem (rw_val l)) (ring_capacity l) (ring_tail l) =
    Some (RingEntryAt old (ring_tail l + needed upd)) →
  (now ≤ U64_MAX)%N → id_fits id →
  ∃ l', write_entry now id upd l = (Ok tt, l') ∧ ring_head l' = ring_tail l' ∧ read_uncommitted l' = (Ok [], l').
Proof.
  intros Hlock Hfits Hmem Hinner Heq Hold Hnow Hid. pose proof (read_step_entry _ _ _ _ _ Hold) as [_ Hcap].
  pose proof (needed_pos upd).
  destruct (advance_segment (shm_mem (rw_val l)) (ring_capacity l) (ring_tail l) (ring_tail l + needed upd)
    (ring_tail l) (ring_tail l + needed upd) [old] LOOP_LIMIT) as (k&p&Hadv&_&[Hp1 Hp2]&_); [|lia..| |].
  { eapply segment_cons; [exact Hold|constructor]. }
  { apply Nat.leb_le. vm_compute. reflexivity. }
  destruct (place_reads now id upd (ring_header l) p (ring_tail l) (ring_tail l + needed upd) (shm_mem (rw_val l)) [])
    as (mem2&Hplace&Hh&Ht&[_ Hread]); try (done || lia).
  eexists. split.
  { apply write_entry_bytes; [done|]. rewrite Hinner, write_plain by (done || lia). rewrite Heq, Hadv. exact Hplace. }
  rewrite <-Hinner in *. cbn [rw_val shm_mem] in Hh, Ht. split; [cbn [rw_val shm_mem]; lia|]. apply Hread. cbn [rw_val shm_mem]. lia.
Qed.

(** ** Examples *)

Definition write_all (ms : list (N * string * bytes)) (l : SharedMemory) : SharedMemory :=
  foldl (λ l '(now, id, upd), (write_entry now id upd l).2) l ms.

(** Four mutations of one size fill a new ring of 384 bytes. *)
Definition four : list (N * string * bytes) :=
  [(1, "a", replicate 20 1); (2, "b", replicate 20 2); (3, "c", replicate 20 3); (4, "d", replicate 20 4)]%N.
Definition full_ring : SharedMemory := Eval vm_compute in write_all four (shm_create [] 512).
Definition four_entries : list RingBufferEntry := map (λ '(now, id, upd), RingEntry id upd now) four.

Lemma full_ring_holds : ring_holds full_ring four_entries.
Proof.
  split; [done| | | | |].
  - unfold header_fits. split_and!; vm_compute; done.
  - vm_compute; done.
  - done.
  - split; vm_compute; done.
  - left. split; [done|].
    do 4 (eapply segment_cons; [vm_compute; reflexivity|]). vm_compute. constructor.
Qed.

(** A shorter mutation goes to the start and evicts the first one. *)
Lemma ring_write_witness :
  ∃ l' k, write_entry 5 "e" [5; 5]%N full_ring = (Ok tt, l') ∧
    (ring_head l' ≠ ring_tail l' → ring_holds l' (drop k four_entries ++ [RingEntry "e" [5; 5]%N 5]) ∧
       read_uncommitted l' = (Ok (drop k four_entries ++ [RingEntry "e" [5; 5]%N 5]), l')).
Proof.
  destruct (ring_write 5 "e" [5; 5]%N full_ring four_entries) as (l'&k&Hw&Hr&_); [exact full_ring_holds| | | | | |].
  - left. split; [vm_compute; reflexivity|right; vm_compute; discriminate].
  - vm_compute. discriminate.
  - vm_compute. discriminate.
  - split; [vm_compute; lia|]. constructor; [vm_compute; done|constructor].
  - apply Nat.ltb_lt. vm_compute. reflexivity.
  - exists l', k. exact (conj Hw Hr).
Defined.

(** After a restart, a first mutation of the old size is not found. *)
Lemma ring_write_unread_witness :
  ∃ l', write_entry 9 "n" (replicate 20 9%N) (shm_create (shm_mem (rw_val full_ring)) 512) = (Ok tt, l') ∧
    ring_head l' = ring_tail l' ∧ read_uncommitted l' = (Ok [], l').
Proof.
  apply (ring_write_unread 9 "n" (replicate 20 9%N) (shm_create (shm_mem (rw_val full_ring)) 512)
    (RingEntry "a" (replicate 20 1%N) 1)).
  - reflexivity.
  - unfold header_fits. split_and!; vm_compute; done.
  - vm_compute. discriminate.
  - vm_compute. reflexivity.
  - vm_compute. reflexivity.
  - vm_compute. reflexivity.
  - vm_compute. discriminate.
  - split; [vm_compute; lia|]. constructor; [vm_compute; done|constructor].
Defined.
