(* ===== verification/Oplog.v ===== *)
(** * The oplog and its clean-up

    [oplog/log.rs]: the per-namespace view of a storage's oplog.
    [oplog/cleanup.rs]: the retention job that removes old synced entries. *)
From S2P Require Import Prelude Types Storage.

Section oplog.
Context {S : Type} {HS : Storage S} {HSpec : StorageSpec S}.

(** ** [OpLog] *)

Record OpLog := OpLog_new { ol_namespace : string }.

Definition ol_append (entry : OplogEntry) : SM S VaultSyncError unit := append_oplog entry.

Definition ol_read_pending (l : OpLog) (limit : nat) : SM S VaultSyncError (list OplogEntry) :=
  read_pending_oplog (ol_namespace l) limit.

Definition ol_pending_entries (ns : string) : SM S VaultSyncError (list OplogEntry) :=
  read_pending_oplog ns (N.to_nat 50000).

Definition ol_update_blob (ent : string) (blob : bytes) : SM S VaultSyncError unit :=
  update_oplog_encrypted_blob ent blob.

Definition ol_read_after_sequence (l : OpLog) (seq : N) (limit : nat) :
    SM S VaultSyncError (list OplogEntry) :=
  entries ← read_oplog_after_sequence (ol_namespace l) seq;
  mret (take limit entries).

Definition ol_mark_synced (now : N) (ent : string) (seq : N) : SM S VaultSyncError unit :=
  mark_synced now ent seq.

Definition ol_mark_failed (ent msg : string) : SM S VaultSyncError unit := mark_failed ent msg.

Definition ol_count_pending (l : OpLog) : SM S VaultSyncError nat :=
  pending_count (ol_namespace l).

Definition ol_delete_compacted (_before_sequence : N) : SM S VaultSyncError nat := mret 0.

(** ** [OplogCleanup] *)

Definition cleanup_compact (now_ms : N) (ns : string) (retention_ms : N) :
    SM S VaultSyncError nat :=
  let cutoff_ms := saturating_sub now_ms retention_ms in
  removed ← delete_synced_before ns cutoff_ms;
  mret removed.

(** What wakes the [select!] of [run_scheduled]: its timer, with the reading of
    the clock the turn makes, or a change of the shutdown flag. *)
Inductive cleanup_event :=
  | CleanupTick (now_ms : N)
  | CleanupShutdown (flag : bool).

Fixpoint run_scheduled (ns : string) (retention_ms : N) (evs : list cleanup_event) :
    SM S VaultSyncError unit :=
  match evs with
  | [] => mret tt
  | CleanupTick now :: evs' =>
      _ ← sm_try (cleanup_compact now ns retention_ms);
      run_scheduled ns retention_ms evs'
  | CleanupShutdown flag :: evs' =>
      if flag then mret tt else run_scheduled ns retention_ms evs'
  end.

(** ** Properties *)

Definition unsynced (log : list OplogEntry) : list OplogEntry :=
  filterb (λ e, negb (is_synced e)) log.
Definition outside (ns : string) (log : list OplogEntry) : list OplogEntry :=
  filterb (λ e, negb (in_namespace ns e)) log.

Lemma filterb_drop_disjoint (p q : OplogEntry → bool) log :
  (∀ e, p e = true → q e = false) →
  filterb p (filterb (λ e, negb (q e)) log) = filterb p log.
Proof.
  intros Hpq. unfold filterb. induction log as [|e log IH]; simpl; [done|].
  destruct (q e) eqn:Hq; simpl; rewrite IH; [|done].
  destruct (p e) eqn:Hp; [|done]. by rewrite (Hpq e Hp) in Hq.
Qed.

(** What a clean-up keeps: the unsynced entries, the entries of the other
    namespaces, the documents, and the order of what is left. *)
Definition cleanup_keeps (ns : string) (a a' : astore) : Prop :=
  unsynced (a_log a') = unsynced (a_log a) ∧
  outside ns (a_log a') = outside ns (a_log a) ∧
  a_log a' `sublist_of` a_log a ∧
  a_docs a' = a_docs a.

Lemma cleanup_keeps_refl ns a : cleanup_keeps ns a a.
Proof. done. Qed.

Lemma cleanup_keeps_trans ns a b c :
  cleanup_keeps ns a b → cleanup_keeps ns b c → cleanup_keeps ns a c.
Proof.
  intros (H1 & H2 & H3 & H4) (H1' & H2' & H3' & H4').
  split_and!; [congruence|congruence|by etrans|congruence].
Qed.

Lemma drop_synced_keeps ns (p : OplogEntry → bool) a :
  (∀ e, p e = true → in_namespace ns e = true ∧ is_synced e = true) →
  cleanup_keeps ns a (a_drop p a).
Proof.
  intros Hp. split_and!; simpl; [| |apply sublist_filterb|done].
  - apply filterb_drop_disjoint. intros e He.
    destruct (p e) eqn:Hpe; [|done]. apply Hp in Hpe as [_ Hs]. by rewrite Hs in He.
  - apply filterb_drop_disjoint. intros e He.
    destruct (p e) eqn:Hpe; [|done]. apply Hp in Hpe as [Hn _]. by rewrite Hn in He.
Qed.

Lemma cleanup_compact_keeps now ns retention s r s' :
  cleanup_compact now ns retention s = (r, s') →
  cleanup_keeps ns (st_view s) (st_view s').
Proof.
  unfold cleanup_compact. sm_unfold.
  destruct (delete_synced_before_ok ns (saturating_sub now retention) s) as (_ & Herr & Hok).
  destruct (delete_synced_before ns (saturating_sub now retention) s) as [[n|e] s1] eqn:Hd;
    intros [= <- <-].
  - destruct (Hok n s1 eq_refl) as [_ ->]. apply drop_synced_keeps.
    intros e. unfold synced_before. rewrite !andb_true_iff. tauto.
  - by rewrite (Herr e s1 eq_refl).
Qed.

(** the retention job, for as long as it runs and whatever the clock reads
    at each turn, never removes an entry that is not synced, nor an entry of
    another namespace, nor a document, and keeps the order of the rest. *)
Theorem scheduled_cleanup_keeps_unsynced ns retention evs s r s' :
  run_scheduled ns retention evs s = (r, s') →
  cleanup_keeps ns (st_view s) (st_view s').
Proof.
  revert s. induction evs as [|[now|[]] evs IH]; intros s; simpl.
  - intros [= <- <-]. apply cleanup_keeps_refl.
  - sm_unfold. destruct (cleanup_compact now ns retention s) as [r1 s1] eqn:Hc.
    intros Hrun. eapply cleanup_keeps_trans; [by eapply cleanup_compact_keeps|by apply IH].
  - intros [= <- <-]. apply cleanup_keeps_refl.
  - apply IH.
Qed.

(** on a storage in good health, one turn of the job removes exactly the
    synced entries of the namespace created before the cut-off, and reports how
    many there were; a retention longer than the clock's reading removes
    nothing. *)
Theorem cleanup_compact_exact now ns retention s :
  st_healthy s →
  ∃ s', cleanup_compact now ns retention s =
      (Ok (length (filterb (synced_before ns (now - retention)%N) (a_log (st_view s)))), s') ∧
    (∀ e, e ∈ a_log (st_view s') ↔
      e ∈ a_log (st_view s) ∧ synced_before ns (now - retention)%N e = false) ∧
    ((now ≤ retention)%N → a_log (st_view s') = a_log (st_view s)).
Proof.
  intros Hs. unfold cleanup_compact, saturating_sub.
  destruct (delete_synced_before_ok ns (now - retention)%N s) as (Hrun & _).
  destruct (Hrun Hs) as (s' & Hd & Hview & _).
  exists s'. split; [|split].
  - sm_unfold. by rewrite Hd.
  - intros e. rewrite Hview. simpl. rewrite elem_of_filterb, negb_true_iff. tauto.
  - intros Hle. rewrite Hview. simpl. replace (now - retention)%N with 0%N by lia.
    apply filterb_all. intros e _. unfold synced_before.
    destruct (N.ltb_spec (oe_created_at e) 0); [lia|]. by rewrite andb_false_r.
Qed.
End oplog.

(** ** A concrete log *)

Definition sample_entry (ent ns : string) (st : SyncStatus) (created : N) : OplogEntry :=
  OplogEntry_new ent "replica-a" ns CrdtUpdate "notes" ent [1%N; 2%N] (Some [1%N; 0%N])
    created None st None created 0 OInsert "".

Definition sample_log : list OplogEntry :=
  [sample_entry "m1" "app" Synced 10; sample_entry "m2" "app" Optimistic 11;
   sample_entry "m3" "other" Synced 12; sample_entry "m4" "app" Synced 500].

Definition sample_storage : InMemoryStorage.t :=
  InMemoryStorage.with_oplog (λ _, sample_log) InMemoryStorage.new.

Lemma scheduled_cleanup_keeps_unsynced_witness :
  cleanup_keeps "app" (st_view sample_storage)
    (st_view (run_scheduled "app" 100 [CleanupTick 300; CleanupTick 700] sample_storage).2).
Proof.
  apply (scheduled_cleanup_keeps_unsynced "app" 100 [CleanupTick 300; CleanupTick 700]
    sample_storage (Ok tt)).
  vm_compute. reflexivity.
Defined.

Lemma cleanup_compact_exact_witness :
  ∃ s', cleanup_compact 300 "app" 100 sample_storage = (Ok 1, s') ∧
    (sample_entry "m1" "app" Synced 10 ∉ a_log (st_view s')).
Proof.
  destruct (cleanup_compact_exact 300 "app" 100 sample_storage) as (s' & Hrun & Hin & _).
  { split; reflexivity. }
  exists s'. split; [exact Hrun|]. intros He. apply Hin in He as [_ He]. discriminate He.
Defined.
