(* ===== verification/PagePlanning.v ===== *)
(** * Planning the maintenance of pages

    [storage/planner.rs] and [storage/scheduler.rs]: the planner turns the
    metrics of the store into a list of actions, and the scheduler picks those
    that were not carried out too recently, the most urgent first.  The current
    time is an argument. *)
From stdpp Require Import pretty.
From S2P Require Import Prelude.

(** ** The planner *)

Inductive PlanAction :=
  | SplitPage (page_id : N)
  | MergeDeltas (base_id delta_count : N)
  | GarbageCollect (threshold_bytes : N)
  | CreateSnapshot (namespace : string)
  | FlushManifest
  | EvictPages (count : N).

#[export] Instance PlanAction_eq_dec : EqDecision PlanAction.
Proof. solve_decision. Defined.

Record PageMetrics := Page {
  pg_page_id : N;
  pg_byte_size : N;
  pg_entry_count : N;
  pg_is_base : bool;
}.

Record StorageMetrics := Metrics {
  sm_pages : list PageMetrics;
  sm_total_bytes : N;
  sm_delta_page_count : N;
  sm_base_page_count : N;
  sm_pending_mutation_count : N;
  sm_last_compaction_at : N;
  sm_idle_time_ms : N;
}.

Definition SOFT_SPLIT_BYTES : N := 8000000.
Definition MAX_ENTRIES_PER_PAGE : N := 4096.
Definition MAX_DELTA_PAGES_BEFORE_MERGE : N := 50.

Definition needs_split (page : PageMetrics) : bool :=
  (SOFT_SPLIT_BYTES <? pg_byte_size page)%N || (MAX_ENTRIES_PER_PAGE <? pg_entry_count page)%N.

Definition evaluate (metrics : StorageMetrics) : list PlanAction :=
  map (λ page, SplitPage (pg_page_id page))
    (filterb (λ page, pg_is_base page && needs_split page) (sm_pages metrics)) ++
  (if (MAX_DELTA_PAGES_BEFORE_MERGE <? sm_delta_page_count metrics)%N
   then match filterb pg_is_base (sm_pages metrics) with
        | base :: _ => [MergeDeltas (pg_page_id base) (sm_delta_page_count metrics)]
        | [] => []
        end
   else []) ++
  (if (5000 <? sm_pending_mutation_count metrics)%N then [GarbageCollect (1024 * 1024)] else []) ++
  (if (30000 <? sm_idle_time_ms metrics)%N then [FlushManifest] else []).

(** ** The scheduler *)

Inductive SchedulePriority := Critical | High | Normal | Low.

#[export] Instance SchedulePriority_eq_dec : EqDecision SchedulePriority.
Proof. solve_decision. Defined.

(** The derived order: that of the declaration. *)
Definition priority_rank (p : SchedulePriority) : N :=
  match p with Critical => 0 | High => 1 | Normal => 2 | Low => 3 end.

Record ScheduledAction := Scheduled {
  sa_action : PlanAction;
  sa_priority : SchedulePriority;
}.

Definition priority_for (action : PlanAction) (metrics : StorageMetrics) : SchedulePriority :=
  match action with
  | SplitPage page_id =>
      match filterb (λ p, (pg_page_id p =? page_id)%N) (sm_pages metrics) with
      | page :: _ =>
          if (16000000 <? pg_byte_size page)%N || (8192 <? pg_entry_count page)%N then Critical
          else if (8000000 <? pg_byte_size page)%N || (4096 <? pg_entry_count page)%N then High
          else Normal
      | [] => Normal
      end
  | MergeDeltas _ _ => Normal
  | GarbageCollect _ => Low
  | CreateSnapshot _ => Normal
  | FlushManifest => Low
  | EvictPages _ => Normal
  end.

(** [last_executed], the oldest first. *)
Definition SchedulerState := list (string * N).

Definition cooldown_ms (action : PlanAction) : N :=
  match action with
  | SplitPage _ => 5000
  | MergeDeltas _ _ => 2000
  | GarbageCollect _ => 10000
  | CreateSnapshot _ => 30000
  | FlushManifest => 500
  | EvictPages _ => 5000
  end.

Definition descriptor (action : PlanAction) : string :=
  match action with
  | SplitPage page_id => "split_" +:+ pretty page_id
  | MergeDeltas base_id _ => "merge_" +:+ pretty base_id
  | GarbageCollect _ => "gc"
  | CreateSnapshot namespace => "snap_" +:+ namespace
  | FlushManifest => "flush"
  | EvictPages _ => "evict"
  end.

(** [now_ms - t] of a release build. *)
Definition wrapping_sub64 (a b : N) : N := ((a + 18446744073709551616 - b) mod 18446744073709551616)%N.

Definition is_on_cooldown (st : SchedulerState) (action : PlanAction) (now_ms : N) : bool :=
  existsb (λ '(d, t), String.eqb d (descriptor action) &&
    (wrapping_sub64 now_ms t <? cooldown_ms action)%N) st.

(** The loop pops from the front while more than a hundred records are kept. *)
Definition record_execution (st : SchedulerState) (action : PlanAction) (now_ms : N) : SchedulerState :=
  let st := st ++ [(descriptor action, now_ms)] in
  drop (length st - 100) st.

Definition priority_le (a b : ScheduledAction) : Prop :=
  (priority_rank (sa_priority a) ≤ priority_rank (sa_priority b))%N.
#[export] Instance priority_le_dec : RelDecision priority_le.
Proof. intros a b. unfold priority_le. apply _. Defined.

Definition schedule (st : SchedulerState) (actions : list PlanAction) (metrics : StorageMetrics)
    (now_ms : N) : list ScheduledAction :=
  stable_sort priority_le (map (λ a, Scheduled a (priority_for a metrics))
    (filterb (λ a, negb (is_on_cooldown st a now_ms)) actions)).

(** ** What the planner recommends *)

(** Splits are recommended for exactly the oversized base pages. *)
Lemma evaluate_splits metrics page_id :
  SplitPage page_id ∈ evaluate metrics ↔
  ∃ page, page ∈ sm_pages metrics ∧ pg_page_id page = page_id ∧ pg_is_base page = true ∧ needs_split page = true.
Proof.
  unfold evaluate. rewrite !elem_of_app. split.
  - intros [H|[H|[H|H]]].
    + apply list_elem_of_fmap in H as (page & [= ->] & H). apply elem_of_filterb in H as (H & Hin).
      apply andb_true_iff in H as [??]. eauto.
    + repeat case_match; set_solver.
    + case_match; set_solver.
    + case_match; set_solver.
  - intros (page & Hin & <- & Hb & Hs). left. apply list_elem_of_fmap. exists page. split; [done|].
    apply elem_of_filterb. by rewrite Hb, Hs.
Qed.

(** ** What the scheduler returns *)

#[local] Instance priority_le_total : Total priority_le.
Proof. intros a b. unfold priority_le. lia. Qed.
#[local] Instance priority_le_trans : Transitive priority_le.
Proof. intros a b c. unfold priority_le. lia. Qed.

Definition of_priority (p : SchedulePriority) (a : ScheduledAction) : bool := bool_decide (sa_priority a = p).

Lemma schedule_elem st actions metrics now a :
  a ∈ map sa_action (schedule st actions metrics now) ↔ a ∈ actions ∧ is_on_cooldown st a now = false.
Proof.
  unfold schedule. rewrite (list_elem_of_fmap _ _). split.
  - intros (x & -> & Hx). rewrite stable_sort_Permutation in Hx.
    apply list_elem_of_fmap in Hx as (b & -> & Hb). apply elem_of_filterb in Hb as [Hb ?]. simpl.
    split; [done|]. by apply negb_true_iff.
  - intros [Hin Hc]. exists (Scheduled a (priority_for a metrics)). split; [done|].
    rewrite stable_sort_Permutation. apply list_elem_of_fmap. exists a. split; [done|].
    apply elem_of_filterb. by rewrite Hc.
Qed.

Lemma wrapping_sub64_le a b : (b ≤ a)%N → (a < 18446744073709551616)%N → wrapping_sub64 a b = (a - b)%N.
Proof.
  intros ??. unfold wrapping_sub64.
  replace (a + 18446744073709551616 - b)%N with ((a - b) + 1 * 18446744073709551616)%N by lia.
  rewrite N.Div0.mod_add. apply N.mod_small. lia.
Qed.

(** A record stays for a hundred executions. *)
Lemma record_execution_keeps st a t later : (length later < 100)%nat →
  (descriptor a, t) ∈ foldl (λ st '(b, t), record_execution st b t) (record_execution st a t) later.
Proof.
  assert (∀ k st later, (k + length later < 100)%nat → (k < length st)%nat →
    reverse st !! k = Some (descriptor a, t) →
    (descriptor a, t) ∈ foldl (λ st '(b, t), record_execution st b t) st later) as Hgen.
  { intros k st' later'. revert k st'. induction later' as [|[b t'] later' IH]; intros k st'; simpl; intros Hl Hk Hst.
    - apply (list_elem_of_lookup_2 _ k) in Hst. by apply elem_of_reverse.
    - apply (IH (S k)); [lia| |].
      + unfold record_execution. rewrite length_drop, length_app. simpl. lia.
      + unfold record_execution. rewrite length_app. simpl.
        set (n := (length st' + 1 - 100)%nat).
        rewrite reverse_lookup; [|rewrite length_drop, length_app; simpl; lia].
        rewrite reverse_lookup in Hst by lia.
        rewrite lookup_drop, length_drop, length_app. simpl.
        replace (n + (length st' + 1 - n - S (S k)))%nat with (length st' - S k)%nat by lia.
        rewrite lookup_app_l by lia. done. }
  intros Hl. apply (Hgen 0%nat); [lia| |].
  - unfold record_execution. rewrite length_drop, length_app. simpl. lia.
  - unfold record_execution. rewrite length_app. simpl.
    rewrite reverse_lookup; [|rewrite length_drop, length_app; simpl; lia].
    rewrite lookup_drop, length_drop, length_app. simpl.
    rewrite lookup_app_r by lia.
    by replace (_ - length st)%nat with 0%nat by lia.
Qed.

(** The scheduler returns exactly the planned actions that are not on
    cooldown, the most urgent first and actions of one priority in the order
    the planner gave them; an action that was carried out at [t] is not among
    them before its cooldown is over, whatever else was carried out meanwhile,
    up to ninety-nine further actions. *)
Theorem schedule_throttles st actions metrics now a t later :
  (length later < 100)%nat → (t ≤ now)%N → (now ≤ U64_MAX)%N → (now < t + cooldown_ms a)%N →
  let st' := foldl (λ st '(b, t), record_execution st b t) (record_execution st a t) later in
  let out := schedule st' actions metrics now in
  (a ∉ map sa_action out) ∧
  (∀ b, b ∈ map sa_action out ↔ b ∈ actions ∧ is_on_cooldown st' b now = false) ∧
  StronglySorted priority_le out ∧
  (∀ p, filterb (of_priority p) out =
    filterb (of_priority p) (map (λ b, Scheduled b (priority_for b metrics))
      (filterb (λ b, negb (is_on_cooldown st' b now)) actions))).
Proof.
  intros Hl Ht Hmax Hcool st' out. split_and!.
  - unfold out. rewrite schedule_elem. intros [_ Hc].
    apply not_true_iff_false in Hc. apply Hc. unfold is_on_cooldown.
    apply existsb_exists. exists (descriptor a, t). split.
    + apply list_elem_of_In. by apply record_execution_keeps.
    + rewrite String.eqb_refl, wrapping_sub64_le by (unfold U64_MAX in *; lia). simpl. apply N.ltb_lt. lia.
  - intros b. apply schedule_elem.
  - apply stable_sort_sorted; apply _.
  - intros p. apply stable_sort_class. intros x y Hx Hy. unfold of_priority in *.
    apply bool_decide_eq_true in Hx, Hy. unfold priority_le. rewrite Hx, Hy. lia.
Qed.

Lemma schedule_throttles_witness :
  let st' := record_execution [] (SplitPage 7) 1000 in
  schedule st' [SplitPage 7; FlushManifest; SplitPage 8] (Metrics [Page 8 9000000 10 true] 0 0 1 0 0 0) 3000 =
    [Scheduled (SplitPage 8) High; Scheduled FlushManifest Low] ∧
  (SplitPage 7 ∉ map sa_action (schedule st' [SplitPage 7; FlushManifest; SplitPage 8]
    (Metrics [Page 8 9000000 10 true] 0 0 1 0 0 0) 3000)).
Proof.
  split; [vm_compute; reflexivity|].
  refine (proj1 (schedule_throttles [] [SplitPage 7; FlushManifest; SplitPage 8]
    (Metrics [Page 8 9000000 10 true] 0 0 1 0 0 0) 3000 (SplitPage 7) 1000 [] _ _ _ _));
    [simpl; lia|lia|unfold U64_MAX; lia|simpl; lia].
Defined.

(** A base page the planner finds too large, whose number no other page has, is
    split in the first part of the schedule: as [Critical] or [High], before
    every action of another kind. *)
Theorem oversized_page_split_first st metrics now page :
  page ∈ sm_pages metrics → pg_is_base page = true → needs_split page = true →
  (∀ p, p ∈ sm_pages metrics → pg_page_id p = pg_page_id page → p = page) →
  is_on_cooldown st (SplitPage (pg_page_id page)) now = false →
  ∃ before sa after, schedule st (evaluate metrics) metrics now = before ++ sa :: after ∧
    sa_action sa = SplitPage (pg_page_id page) ∧
    Forall (λ x, sa_priority x = Critical ∨ sa_priority x = High) (before ++ [sa]).
Proof.
  intros Hin Hbase Hsplit Huniq Hcool.
  set (sa := Scheduled (SplitPage (pg_page_id page)) (priority_for (SplitPage (pg_page_id page)) metrics)).
  assert (Hpr : sa_priority sa = Critical ∨ sa_priority sa = High).
  { simpl. destruct (filterb _ (sm_pages metrics)) as [|p l] eqn:Hf.
    - apply (f_equal (λ l, page ∈ l)) in Hf. exfalso.
      assert (page ∈ @nil PageMetrics) as H%elem_of_nil; [|done].
      rewrite <-Hf. apply elem_of_filterb. split; [by rewrite N.eqb_refl|done].
    - assert (p ∈ p :: l) as Hp by set_solver. rewrite <-Hf in Hp.
      apply elem_of_filterb in Hp as [Hid%N.eqb_eq Hp]. rewrite (Huniq p Hp Hid).
      unfold needs_split, SOFT_SPLIT_BYTES, MAX_ENTRIES_PER_PAGE in Hsplit. rewrite Hsplit.
      case_match; auto. }
  assert (Hsa : sa ∈ schedule st (evaluate metrics) metrics now).
  { unfold schedule. rewrite stable_sort_Permutation. apply list_elem_of_fmap. eexists. split; [done|].
    apply elem_of_filterb. rewrite Hcool. split; [done|]. apply evaluate_splits. eauto. }
  apply list_elem_of_split in Hsa as (before & after & Heq). exists before, sa, after.
  split_and!; [done|done|]. apply Forall_app. split; [|by apply Forall_singleton].
  pose proof (stable_sort_sorted priority_le (map (λ a, Scheduled a (priority_for a metrics))
    (filterb (λ a, negb (is_on_cooldown st a now)) (evaluate metrics)))) as Hs.
  fold (schedule st (evaluate metrics) metrics now) in Hs. rewrite Heq in Hs.
  apply Forall_forall. intros x Hx.
  assert (Hle : priority_le x sa) by (eapply StronglySorted_app_1_elem_of; [exact Hs|done|set_solver]).
  unfold priority_le in Hle.
  destruct Hpr as [Hpr|Hpr]; rewrite Hpr in Hle; destruct (sa_priority x); auto; simpl in Hle; lia.
Qed.
