(* ===== verification/SegmentIndex.v ===== *)
(** * Documents in segments

    [storage/document_store.rs]: the placement of a namespace's documents in
    segments of at most 256, and the index from documents to segments.
    [storage/metadata_index.rs]: the segment, the schema version, the pin and
    the access counts of each document. *)
From S2P Require Import Prelude Types Storage.

(** ** The document store *)

Definition MAX_DOCS_PER_SEGMENT : nat := 256.

Record Segment := Seg {
  seg_id : N;
  seg_namespace : string;
  seg_doc_count : nat;
  seg_byte_size : N;
  seg_page_key : string;
}.

Record DocIndexEntry := IndexEntry {
  ix_namespace : string;
  ix_doc_id : string;
  ix_segment_id : N;
}.

Definition DocIndex := list DocIndexEntry.

Definition ix_matches (namespace doc_id : string) (e : DocIndexEntry) : bool :=
  bool_decide (ix_namespace e = namespace) && bool_decide (ix_doc_id e = doc_id).

Definition index_lookup (namespace doc_id : string) (ix : DocIndex) : option N :=
  ix_segment_id <$> head (filterb (ix_matches namespace doc_id) ix).

Definition index_remove (namespace doc_id : string) (ix : DocIndex) : DocIndex :=
  filterb (λ e, negb (ix_matches namespace doc_id e)) ix.

Definition index_insert (namespace doc_id : string) (segment_id : N) (ix : DocIndex) : DocIndex :=
  index_remove namespace doc_id ix ++ [IndexEntry namespace doc_id segment_id].

Definition index_count (ix : DocIndex) : nat := length ix.

(** [MutationQueue]: its only state is the bound. *)
Definition needs_flush (max_pending pending_count : nat) : bool := (max_pending <=? pending_count)%nat.

Record DocumentStore := DStore {
  ds_index : DocIndex;
  ds_segments : list Segment;
  ds_namespace : string;
}.

Definition document_store_new (namespace : string) : DocumentStore := DStore [] [] namespace.

Definition with_id (sid : N) (s : Segment) : bool := (seg_id s =? sid)%N.
Definition has_room (s : Segment) : bool := (seg_doc_count s <? MAX_DOCS_PER_SEGMENT)%nat.

Definition segment_for (doc_id : string) (ds : DocumentStore) : option Segment :=
  sid ← index_lookup (ds_namespace ds) doc_id (ds_index ds);
  head (filterb (with_id sid) (ds_segments ds)).

Definition seg_grow (s : Segment) : Segment :=
  Seg (seg_id s) (seg_namespace s) (S (seg_doc_count s)) (wrapping_add64 (seg_byte_size s) 256) (seg_page_key s).
Definition seg_shrink (s : Segment) : Segment :=
  Seg (seg_id s) (seg_namespace s) (seg_doc_count s - 1) (seg_byte_size s) (seg_page_key s).

Definition add_to_segment (doc_id page_key : string) (ds : DocumentStore) : DocumentStore :=
  let '(seg_id, segments) :=
    match head (filterb has_room (ds_segments ds)) with
    | Some seg => (seg_id seg, update_first has_room seg_grow (ds_segments ds))
    | None =>
        let seg_id := (N.of_nat (length (ds_segments ds)) + 1)%N in
        (seg_id, ds_segments ds ++ [Seg seg_id (ds_namespace ds) 1 256 page_key])
    end in
  DStore (index_insert (ds_namespace ds) doc_id seg_id (ds_index ds)) segments (ds_namespace ds).

Definition remove_document (doc_id : string) (ds : DocumentStore) : DocumentStore :=
  match index_lookup (ds_namespace ds) doc_id (ds_index ds) with
  | Some sid => DStore (index_remove (ds_namespace ds) doc_id (ds_index ds))
      (update_first (with_id sid) seg_shrink (ds_segments ds)) (ds_namespace ds)
  | None => ds
  end.

(** ** The metadata index *)

Record DocAccessStats := AccessStats {
  das_read_count : N;
  das_write_count : N;
  das_last_access_ms : N;
  das_byte_size : N;
}.

Record MetadataEntry := MetaEntry {
  mde_segment_id : N;
  mde_schema_version : N;
  mde_pinned : bool;
  mde_stats : DocAccessStats;
}.

Definition MetadataIndex := gmap doc_key MetadataEntry.

Definition meta_lookup (namespace doc_id : string) (m : MetadataIndex) : option N :=
  mde_segment_id <$> m !! (namespace, doc_id).

Definition meta_insert (namespace doc_id : string) (segment_id schema_version : N) (m : MetadataIndex) :
    MetadataIndex :=
  let entry := default (MetaEntry segment_id schema_version false (AccessStats 0 0 0 0)) (m !! (namespace, doc_id)) in
  <[(namespace, doc_id) := MetaEntry segment_id schema_version (mde_pinned entry) (mde_stats entry)]> m.

Definition meta_remove (namespace doc_id : string) (m : MetadataIndex) : MetadataIndex :=
  delete (namespace, doc_id) m.

Definition on_stats (f : DocAccessStats → DocAccessStats) (e : MetadataEntry) : MetadataEntry :=
  MetaEntry (mde_segment_id e) (mde_schema_version e) (mde_pinned e) (f (mde_stats e)).
Definition on_pinned (pinned : bool) (e : MetadataEntry) : MetadataEntry :=
  MetaEntry (mde_segment_id e) (mde_schema_version e) pinned (mde_stats e).

Definition record_read (namespace doc_id : string) (now_ms : N) (m : MetadataIndex) : MetadataIndex :=
  alter (on_stats (λ s, AccessStats (wrapping_add64 (das_read_count s) 1) (das_write_count s) now_ms (das_byte_size s)))
    (namespace, doc_id) m.
Definition record_write (namespace doc_id : string) (now_ms : N) (m : MetadataIndex) : MetadataIndex :=
  alter (on_stats (λ s, AccessStats (das_read_count s) (wrapping_add64 (das_write_count s) 1) now_ms (das_byte_size s)))
    (namespace, doc_id) m.
Definition meta_pin (namespace doc_id : string) (m : MetadataIndex) : MetadataIndex :=
  alter (on_pinned true) (namespace, doc_id) m.
Definition meta_unpin (namespace doc_id : string) (m : MetadataIndex) : MetadataIndex :=
  alter (on_pinned false) (namespace, doc_id) m.

Definition is_pinned (namespace doc_id : string) (m : MetadataIndex) : bool :=
  default false (mde_pinned <$> m !! (namespace, doc_id)).

Definition meta_stats (namespace doc_id : string) (m : MetadataIndex) : option DocAccessStats :=
  mde_stats <$> m !! (namespace, doc_id).

Definition hot_documents (threshold : N) (m : MetadataIndex) : list (string * string * N) :=
  map (λ '((ns, id), _), (ns, id, 0%N))
    (filterb (λ '(_, e), (threshold <=? das_read_count (mde_stats e))%N) (map_to_list m)).

Definition cold_documents (threshold now_ms : N) (m : MetadataIndex) : list (string * string * N) :=
  map (λ '((ns, id), e), (ns, id, das_last_access_ms (mde_stats e)))
    (filterb (λ '(_, e), negb (mde_pinned e) &&
      (threshold <? saturating_sub now_ms (das_last_access_ms (mde_stats e)))%N) (map_to_list m)).

(** ** Each live document has a segment, and no segment is overfull *)

(** The documents the index places in a segment. *)
Definition indexed (sid : N) (ix : DocIndex) : nat := length (filterb (λ e, (ix_segment_id e =? sid)%N) ix).

(** The count of the segment at a place, zero where there is none. *)
Definition count_at (segments : list Segment) (i : nat) : nat := from_option seg_doc_count 0 (segments !! i).

Record seg_inv (ds : DocumentStore) : Prop := {
  si_ids i s : ds_segments ds !! i = Some s → seg_id s = (N.of_nat i + 1)%N;
  si_space e : e ∈ ds_index ds → ix_namespace e = ds_namespace ds;
  si_range e : e ∈ ds_index ds → (1 ≤ ix_segment_id e ≤ N.of_nat (length (ds_segments ds)))%N;
  si_docs : NoDup (ix_doc_id <$> ds_index ds);
  si_count i : (indexed (N.of_nat i + 1) (ds_index ds) ≤ count_at (ds_segments ds) i ≤ MAX_DOCS_PER_SEGMENT)%nat;
}.

(** No document was counted twice. *)
Definition seg_exact (ds : DocumentStore) : Prop :=
  ∀ i, indexed (N.of_nat i + 1) (ds_index ds) = count_at (ds_segments ds) i.

Lemma update_first_spec {A} (p : A → bool) f l x : head (filterb p l) = Some x →
  ∃ i, l !! i = Some x ∧ p x = true ∧ update_first p f l = <[i := f x]> l.
Proof.
  induction l as [|y l IH]; simpl; [done|]. destruct (p y) eqn:Hy; simpl.
  - intros [= ->]. by exists 0%nat.
  - intros (i & ? & ? & Heq)%IH. exists (S i). by rewrite Heq.
Qed.

Lemma head_filterb {A} (p : A → bool) (l : list A) x : x ∈ l → p x = true →
  ∃ y, head (filterb p l) = Some y ∧ y ∈ l ∧ p y = true.
Proof.
  intros Hin Hp. destruct (filterb p l) as [|y k] eqn:Hf.
  - exfalso. assert (x ∈ filterb p l) as H by by apply elem_of_filterb. rewrite Hf in H. by apply elem_of_nil in H.
  - exists y. split; [done|]. assert (y ∈ filterb p l) as H by (rewrite Hf; set_solver).
    apply elem_of_filterb in H. tauto.
Qed.

Lemma ix_matches_true ns d e : ix_matches ns d e = true ↔ ix_namespace e = ns ∧ ix_doc_id e = d.
Proof. unfold ix_matches. rewrite andb_true_iff, !bool_decide_eq_true. done. Qed.

Lemma elem_of_index_remove ns d ix e : e ∈ index_remove ns d ix ↔ e ∈ ix ∧ ix_matches ns d e = false.
Proof. unfold index_remove. rewrite elem_of_filterb, negb_true_iff. tauto. Qed.

Lemma index_remove_absent ns d ix : d ∉ (ix_doc_id <$> ix) → index_remove ns d ix = ix.
Proof.
  intros Hd. apply filterb_all. intros e He. apply negb_true_iff, not_true_iff_false.
  intros [_ <-]%ix_matches_true. by apply Hd, list_elem_of_fmap_2.
Qed.

Lemma index_remove_docs ns d ix : NoDup (ix_doc_id <$> ix) → NoDup (ix_doc_id <$> index_remove ns d ix).
Proof. intros. eapply sublist_NoDup; [done|]. apply fmap_sublist, sublist_filterb. Qed.

(** Removing a document takes it out of the segment it was in. *)
Lemma indexed_remove ns d ix k : (∀ e, e ∈ ix → ix_namespace e = ns) → NoDup (ix_doc_id <$> ix) →
  indexed k ix = (indexed k (index_remove ns d ix) +
    (if decide (index_lookup ns d ix = Some k) then 1 else 0))%nat.
Proof.
  unfold indexed, index_lookup. induction ix as [|e ix IH]; simpl; intros Hns Hnd; [done|].
  apply NoDup_cons in Hnd as [Hnot Hnd].
  destruct (ix_matches ns d e) eqn:Hm; simpl.
  - apply ix_matches_true in Hm as [_ Hd]. fold (index_remove ns d ix).
    rewrite index_remove_absent by (rewrite <-Hd; done).
    destruct (N.eqb_spec (ix_segment_id e) k) as [->|Hne]; simpl.
    + rewrite decide_True by done. lia.
    + rewrite decide_False by (intros [= ?]; done). lia.
  - fold (index_remove ns d ix). specialize (IH (λ e' He', Hns e' (list_elem_of_further _ _ _ He')) Hnd).
    destruct (ix_segment_id e =? k)%N; simpl; lia.
Qed.

Lemma index_lookup_insert ns d d' sid ix : index_lookup ns d' (index_insert ns d sid ix) =
  if decide (d' = d) then Some sid else index_lookup ns d' ix.
Proof.
  unfold index_lookup, index_insert, index_remove. rewrite filterb_app. case_decide as Hd.
  - subst. rewrite (filterb_none _ (filterb _ ix)); simpl.
    + unfold ix_matches. simpl. by rewrite !bool_decide_true.
    + intros e He. apply elem_of_filterb in He as [He _]. by apply negb_true_iff in He.
  - rewrite filterb_filterb. f_equal. f_equal.
    rewrite (filterb_none _ [_]), app_nil_r.
    + apply filterb_ext. intros e _. unfold ix_matches. repeat case_bool_decide; simplify_eq; done.
    + intros e ->%list_elem_of_singleton. unfold ix_matches. simpl. rewrite (bool_decide_false (d = d')) by done.
      apply andb_false_r.
Qed.

Lemma index_lookup_remove ns d d' ix : index_lookup ns d' (index_remove ns d ix) =
  if decide (d' = d) then None else index_lookup ns d' ix.
Proof.
  unfold index_lookup, index_remove. rewrite filterb_filterb. case_decide as Hd.
  - subst. rewrite filterb_none; [done|]. intros e _. by destruct (ix_matches ns d e).
  - f_equal. f_equal. apply filterb_ext. intros e _. unfold ix_matches. repeat case_bool_decide; simplify_eq; done.
Qed.

Lemma indexed_insert ns d sid ix k :
  indexed k (index_insert ns d sid ix) =
  (indexed k (index_remove ns d ix) + (if decide (k = sid) then 1 else 0))%nat.
Proof.
  unfold indexed, index_insert. rewrite filterb_app, length_app. f_equal. simpl.
  destruct (N.eqb_spec sid k); case_decide; by simplify_eq.
Qed.

(** What placing a document does to the segments. *)
Lemma add_to_segment_shape d key ds : seg_inv ds → ∃ sid segments,
  add_to_segment d key ds = DStore (index_insert (ds_namespace ds) d sid (ds_index ds)) segments (ds_namespace ds) ∧
  (length (ds_segments ds) ≤ length segments)%nat ∧ (1 ≤ sid ≤ N.of_nat (length segments))%N ∧
  (∀ i s, segments !! i = Some s → seg_id s = (N.of_nat i + 1)%N) ∧
  ∀ i, (count_at segments i = count_at (ds_segments ds) i + (if decide (N.of_nat i + 1 = sid)%N then 1 else 0) ∧
    count_at segments i ≤ MAX_DOCS_PER_SEGMENT)%nat.
Proof.
  intros Hinv. unfold add_to_segment. destruct (head _) as [seg|] eqn:Hh.
  - apply (update_first_spec _ seg_grow) in Hh as (j & Hj & Hroom & ->). apply Nat.ltb_lt in Hroom.
    pose proof (lookup_lt_Some _ _ _ Hj) as Hlt. pose proof (si_ids _ Hinv _ _ Hj) as Hid.
    eexists _, _. split; [done|]. rewrite length_insert. split_and!; [done|lia|lia| |].
    + intros i s. rewrite list_lookup_insert_Some. intros [(<- & <- & _)|[_ Hi]]; [done|by apply (si_ids _ Hinv)].
    + intros i. pose proof (si_count _ Hinv i) as Hc. unfold count_at in *. rewrite Hid.
      destruct (decide (i = j)) as [->|Hne].
      * rewrite list_lookup_insert_eq, Hj, decide_True by done. simpl. lia.
      * rewrite list_lookup_insert_ne, decide_False by lia. lia.
  - eexists _, _. split; [done|]. rewrite length_app. simpl. split_and!; [lia|lia|lia| |].
    + intros i s. rewrite lookup_app_Some. intros [Hi|[Hge Hi]]; [by apply (si_ids _ Hinv)|].
      apply list_lookup_singleton_Some in Hi as [? <-]. simpl. lia.
    + intros i. unfold count_at. rewrite lookup_app. pose proof (si_count _ Hinv i) as Hc. unfold count_at in Hc.
      destruct (ds_segments ds !! i) eqn:Hi; simpl in *.
      * apply lookup_lt_Some in Hi. rewrite decide_False by lia. lia.
      * apply lookup_ge_None in Hi. case_decide.
        -- replace (i - length (ds_segments ds))%nat with 0%nat by lia. simpl. unfold MAX_DOCS_PER_SEGMENT. lia.
        -- rewrite lookup_ge_None_2 by (simpl; lia). simpl. lia.
Qed.

Lemma add_to_segment_inv d key ds : seg_inv ds → seg_inv (add_to_segment d key ds).
Proof.
  intros Hinv. destruct (add_to_segment_shape d key ds Hinv) as (sid & segs & -> & Hlen & Hsid & Hids & Hcnt).
  constructor; simpl.
  - done.
  - intros e [He|He]%elem_of_app; [|by apply list_elem_of_singleton in He as ->].
    apply elem_of_index_remove in He as [He _]. by apply (si_space _ Hinv).
  - intros e [He|He]%elem_of_app; [|by apply list_elem_of_singleton in He as ->].
    apply elem_of_index_remove in He as [He _]. pose proof (si_range _ Hinv e He). lia.
  - unfold index_insert. rewrite fmap_app. simpl. apply NoDup_app. split_and!; [apply index_remove_docs, Hinv| |apply NoDup_singleton].
    intros x Hx ->%list_elem_of_singleton. apply list_elem_of_fmap in Hx as (e & Hd & He).
    apply elem_of_index_remove in He as [He Hm]. apply not_true_iff_false in Hm. apply Hm.
    apply ix_matches_true. split; [by apply (si_space _ Hinv)|done].
  - intros i. rewrite indexed_insert. destruct (Hcnt i) as [-> Hmax]. split; [|lia].
    pose proof (si_count _ Hinv i) as Hc.
    rewrite (indexed_remove (ds_namespace ds) d) in Hc by apply Hinv. lia.
Qed.

Lemma add_to_segment_exact d key ds : seg_inv ds → seg_exact ds →
  index_lookup (ds_namespace ds) d (ds_index ds) = None → seg_exact (add_to_segment d key ds).
Proof.
  intros Hinv Hex Hnone i.
  destruct (add_to_segment_shape d key ds Hinv) as (sid & segs & -> & _ & _ & _ & Hcnt). simpl.
  rewrite indexed_insert. destruct (Hcnt i) as [-> _]. rewrite <-(Hex i).
  rewrite (indexed_remove (ds_namespace ds) d (ds_index ds)) by apply Hinv.
  rewrite Hnone. destruct (decide (None = _)); [done|]. lia.
Qed.

(** An indexed document leads to a segment of the store. *)
Lemma lookup_segment d ds sid : seg_inv ds → index_lookup (ds_namespace ds) d (ds_index ds) = Some sid →
  is_Some (head (filterb (with_id sid) (ds_segments ds))).
Proof.
  intros Hinv Hsid. unfold index_lookup in Hsid.
  destruct (filterb _ (ds_index ds)) as [|e l] eqn:Hf; [done|]. injection Hsid as <-.
  assert (e ∈ ds_index ds) as He.
  { assert (e ∈ e :: l) as H by set_solver. rewrite <-Hf in H. by apply elem_of_filterb in H as [_ ?]. }
  pose proof (si_range _ Hinv e He) as Hr.
  destruct (lookup_lt_is_Some_2 (ds_segments ds) (N.to_nat (ix_segment_id e) - 1)) as [s Hs]; [lia|].
  destruct (head_filterb (with_id (ix_segment_id e)) (ds_segments ds) s) as (y & Hy & _); [| |by rewrite Hy].
  - by eapply list_elem_of_lookup_2.
  - apply N.eqb_eq. rewrite (si_ids _ Hinv _ _ Hs). lia.
Qed.

(** What removing a document does to the segments. *)
Lemma remove_document_shape d ds sid : seg_inv ds →
  index_lookup (ds_namespace ds) d (ds_index ds) = Some sid → ∃ segments,
  remove_document d ds = DStore (index_remove (ds_namespace ds) d (ds_index ds)) segments (ds_namespace ds) ∧
  length segments = length (ds_segments ds) ∧
  (∀ i s, segments !! i = Some s → seg_id s = (N.of_nat i + 1)%N) ∧
  ∀ i, (count_at segments i = count_at (ds_segments ds) i - (if decide (N.of_nat i + 1 = sid)%N then 1 else 0))%nat.
Proof.
  intros Hinv Hsid. unfold remove_document. rewrite Hsid.
  eexists. split; [done|].
  destruct (head (filterb (with_id sid) (ds_segments ds))) as [seg|] eqn:Hh.
  - apply (update_first_spec _ seg_shrink) in Hh as (j & Hj & Hw%N.eqb_eq & ->).
    pose proof (lookup_lt_Some _ _ _ Hj) as Hlt. pose proof (si_ids _ Hinv _ _ Hj) as Hid.
    rewrite length_insert. split_and!; [done| |].
    + intros i s. rewrite list_lookup_insert_Some. intros [(<- & <- & _)|[_ Hi]]; [done|by apply (si_ids _ Hinv)].
    + intros i. unfold count_at. destruct (decide (i = j)) as [->|Hne].
      * rewrite list_lookup_insert_eq, Hj, decide_True by lia || done. simpl. lia.
      * rewrite list_lookup_insert_ne, decide_False by lia. lia.
  - destruct (lookup_segment d ds sid Hinv Hsid) as [? Hs]. by rewrite Hs in Hh.
Qed.

Lemma remove_document_inv d ds : seg_inv ds →
  seg_inv (remove_document d ds) ∧ (seg_exact ds → seg_exact (remove_document d ds)).
Proof.
  intros Hinv. destruct (index_lookup (ds_namespace ds) d (ds_index ds)) as [sid|] eqn:Hsid.
  2: { unfold remove_document. by rewrite Hsid. }
  destruct (remove_document_shape d ds sid Hinv Hsid) as (segs & -> & Hlen & Hids & Hcnt).
  assert (Hrem : ∀ k, indexed k (ds_index ds) = (indexed k (index_remove (ds_namespace ds) d (ds_index ds)) +
    (if decide (k = sid) then 1 else 0))%nat).
  { intros k. rewrite (indexed_remove (ds_namespace ds) d (ds_index ds)) by apply Hinv. rewrite Hsid.
    f_equal. repeat case_decide; naive_solver. }
  split.
  - constructor; simpl.
    + done.
    + intros e [He _]%elem_of_index_remove. by apply (si_space _ Hinv).
    + intros e [He _]%elem_of_index_remove. rewrite Hlen. by apply (si_range _ Hinv).
    + apply index_remove_docs, Hinv.
    + intros i. rewrite Hcnt. pose proof (si_count _ Hinv i) as Hc. rewrite Hrem in Hc. lia.
  - intros Hex i. simpl. rewrite Hcnt, <-(Hex i), Hrem. lia.
Qed.

Inductive seg_op := SegAdd (doc_id page_key : string) | SegRemove (doc_id : string).

Definition seg_step (ds : DocumentStore) (op : seg_op) : DocumentStore :=
  match op with
  | SegAdd d key => add_to_segment d key ds
  | SegRemove d => remove_document d ds
  end.

(** The documents a history leaves, and whether it adds none that is there. *)
Definition live_step (live : gset string) (op : seg_op) : gset string :=
  match op with SegAdd d _ => {[d]} ∪ live | SegRemove d => live ∖ {[d]} end.

Fixpoint no_readd (live : gset string) (ops : list seg_op) : bool :=
  match ops with
  | [] => true
  | op :: ops =>
      match op with SegAdd d _ => negb (bool_decide (d ∈ live)) | SegRemove _ => true end &&
      no_readd (live_step live op) ops
  end.

Definition tracks (live : gset string) (ds : DocumentStore) : Prop :=
  ∀ d, is_Some (index_lookup (ds_namespace ds) d (ds_index ds)) ↔ d ∈ live.

Lemma seg_step_tracks live ds op : seg_inv ds → tracks live ds → tracks (live_step live op) (seg_step ds op).
Proof.
  intros Hinv Htr d. destruct op as [d' key|d']; simpl.
  - destruct (add_to_segment_shape d' key ds Hinv) as (sid & segs & -> & _). simpl.
    rewrite index_lookup_insert. case_decide.
    + split; [set_solver|eauto].
    + rewrite (Htr d). set_solver.
  - destruct (index_lookup (ds_namespace ds) d' (ds_index ds)) as [sid|] eqn:Hsid.
    + destruct (remove_document_shape d' ds sid Hinv Hsid) as (segs & -> & _). simpl.
      rewrite index_lookup_remove. case_decide.
      * subst. split; [by intros [??]|set_solver].
      * rewrite (Htr d). set_solver.
    + unfold remove_document. rewrite Hsid, (Htr d). pose proof (Htr d') as Hd'. rewrite Hsid in Hd'.
      assert (d' ∉ live) by (intros H; by apply Hd' in H as [??]). set_solver.
Qed.

Lemma seg_step_inv ds op : seg_inv ds → seg_inv (seg_step ds op).
Proof. intros. destruct op; [by apply add_to_segment_inv|by apply remove_document_inv]. Qed.

Lemma seg_run_inv ops live ds : seg_inv ds → tracks live ds →
  seg_inv (foldl seg_step ds ops) ∧ tracks (foldl live_step live ops) (foldl seg_step ds ops).
Proof.
  revert live ds. induction ops as [|op ops IH]; simpl; intros live ds Hinv Htr; [done|].
  apply IH; [by apply seg_step_inv|by apply seg_step_tracks].
Qed.

Lemma seg_run_exact ops live ds : seg_inv ds → tracks live ds → seg_exact ds → no_readd live ops = true →
  seg_exact (foldl seg_step ds ops).
Proof.
  revert live ds. induction ops as [|op ops IH]; simpl; intros live ds Hinv Htr Hex Hno; [done|].
  apply andb_true_iff in Hno as [Hop Hno].
  apply (IH (live_step live op)); [by apply seg_step_inv|by apply seg_step_tracks| |done].
  destruct op as [d key|d]; simpl; [|by apply remove_document_inv].
  apply add_to_segment_exact; [done|done|]. apply negb_true_iff, bool_decide_eq_false in Hop.
  apply eq_None_not_Some. by rewrite (Htr d).
Qed.

Lemma seg_new_inv ns : seg_inv (document_store_new ns) ∧ tracks ∅ (document_store_new ns) ∧
  seg_exact (document_store_new ns).
Proof.
  split_and!.
  - constructor; simpl; [done|by intros ? ?%elem_of_nil|by intros ? ?%elem_of_nil|constructor|].
    intros i. unfold count_at, indexed, MAX_DOCS_PER_SEGMENT. simpl. lia.
  - intros d. split; [by intros [??]|set_solver].
  - intros i. done.
Qed.

Lemma segment_for_lookup d ds : seg_inv ds →
  is_Some (segment_for d ds) ↔ is_Some (index_lookup (ds_namespace ds) d (ds_index ds)).
Proof.
  intros Hinv. unfold segment_for. destruct (index_lookup _ d _) as [sid|] eqn:Hsid; [|by simpl].
  split; [eauto|]. intros _. by eapply lookup_segment.
Qed.

(** Whatever documents are added to and removed from a document store, it
    has a segment for exactly the documents present, no two documents share an
    index entry, every segment holds at most as many documents as it counts,
    and it counts at most 256; where no document is added again while it is
    present, the counts are exact. *)
Theorem segments_hold_documents ns ops :
  let ds := foldl seg_step (document_store_new ns) ops in
  (∀ d, is_Some (segment_for d ds) ↔ d ∈ foldl live_step ∅ ops) ∧
  NoDup (ix_doc_id <$> ds_index ds) ∧
  (∀ s, s ∈ ds_segments ds → (indexed (seg_id s) (ds_index ds) ≤ seg_doc_count s ≤ MAX_DOCS_PER_SEGMENT)%nat) ∧
  (no_readd ∅ ops = true → ∀ s, s ∈ ds_segments ds → indexed (seg_id s) (ds_index ds) = seg_doc_count s).
Proof.
  intros ds. destruct (seg_new_inv ns) as (Hi0 & Ht0 & He0).
  destruct (seg_run_inv ops _ _ Hi0 Ht0) as [Hinv Htr]. fold ds in Hinv, Htr. split_and!.
  - intros d. rewrite segment_for_lookup by done. apply Htr.
  - apply Hinv.
  - intros s [i Hi]%list_elem_of_lookup. pose proof (si_count _ Hinv i) as Hc. unfold count_at in Hc.
    rewrite Hi in Hc. by rewrite (si_ids _ Hinv _ _ Hi).
  - intros Hno s [i Hi]%list_elem_of_lookup. pose proof (seg_run_exact ops _ _ Hi0 Ht0 He0 Hno i) as Hc.
    unfold count_at in Hc. fold ds in Hc. rewrite Hi in Hc. by rewrite (si_ids _ Hinv _ _ Hi).
Qed.

(** A document added again is counted again: one document fills a segment. *)
Lemma readd_fills_segment :
  let ds := foldl seg_step (document_store_new "ns") (replicate 257 (SegAdd "doc" "p")) in
  map seg_doc_count (ds_segments ds) = [256; 1]%nat ∧ index_count (ds_index ds) = 1%nat.
Proof. vm_compute. done. Qed.

(** ** Each key of the metadata index has its own history *)

Inductive meta_op :=
  | MetaInsert (segment_id schema_version : N)
  | MetaRemove
  | MetaRead (now_ms : N)
  | MetaWrite (now_ms : N)
  | MetaPin
  | MetaUnpin.

Definition meta_step (m : MetadataIndex) (o : doc_key * meta_op) : MetadataIndex :=
  let '((ns, d), op) := o in
  match op with
  | MetaInsert sid v => meta_insert ns d sid v m
  | MetaRemove => meta_remove ns d m
  | MetaRead now => record_read ns d now m
  | MetaWrite now => record_write ns d now m
  | MetaPin => meta_pin ns d m
  | MetaUnpin => meta_unpin ns d m
  end.

(** The accesses of a document since it was last inserted anew. *)
Record access_log := AccessLog { al_reads : list N; al_writes : list N; al_last : N; al_pinned : bool; al_place : N * N }.

Definition log_step (l : option access_log) (op : meta_op) : option access_log :=
  match op, l with
  | MetaInsert sid v, Some l => Some (AccessLog (al_reads l) (al_writes l) (al_last l) (al_pinned l) (sid, v))
  | MetaInsert sid v, None => Some (AccessLog [] [] 0 false (sid, v))
  | MetaRemove, _ => None
  | MetaRead now, Some l => Some (AccessLog (now :: al_reads l) (al_writes l) now (al_pinned l) (al_place l))
  | MetaWrite now, Some l => Some (AccessLog (al_reads l) (now :: al_writes l) now (al_pinned l) (al_place l))
  | MetaPin, Some l => Some (AccessLog (al_reads l) (al_writes l) (al_last l) true (al_place l))
  | MetaUnpin, Some l => Some (AccessLog (al_reads l) (al_writes l) (al_last l) false (al_place l))
  | _, None => None
  end.

Definition summarizes (l : access_log) (e : MetadataEntry) : Prop :=
  das_read_count (mde_stats e) = (N.of_nat (length (al_reads l)) mod 18446744073709551616)%N ∧
  das_write_count (mde_stats e) = (N.of_nat (length (al_writes l)) mod 18446744073709551616)%N ∧
  das_last_access_ms (mde_stats e) = al_last l ∧ mde_pinned e = al_pinned l ∧
  (mde_segment_id e, mde_schema_version e) = al_place l.

Definition summarizes_opt (l : option access_log) (e : option MetadataEntry) : Prop := option_Forall2 summarizes l e.

Lemma count_next n : (wrapping_add64 (N.of_nat n mod 18446744073709551616) 1 = N.of_nat (S n) mod 18446744073709551616)%N.
Proof. unfold wrapping_add64. rewrite N.Div0.add_mod_idemp_l. f_equal. lia. Qed.

Lemma meta_step_log l m key op : summarizes_opt l (m !! key) →
  summarizes_opt (log_step l op) (meta_step m (key, op) !! key).
Proof.
  destruct key as [ns d]. intros Hl. inversion Hl as [x e He Hx Hm|Hn Hm]; subst; symmetry in Hm.
  - destruct He as (Hr & Hw & Hla & Hp & Hpl).
    destruct op; simpl; unfold meta_insert, meta_remove, record_read, record_write, meta_pin, meta_unpin, MetadataIndex in *;
      rewrite ?lookup_insert_eq, ?lookup_delete_eq, ?lookup_alter_eq, ?Hm; simpl; constructor;
      unfold summarizes; simpl; rewrite ?Hr, ?Hw, ?count_next; auto.
  - destruct op; simpl; unfold meta_insert, meta_remove, record_read, record_write, meta_pin, meta_unpin, MetadataIndex in *;
      rewrite ?lookup_insert_eq, ?lookup_delete_eq, ?lookup_alter_eq, ?Hm; simpl; constructor.
    unfold summarizes. simpl. auto.
Qed.

Lemma meta_step_other m key key' op : key' ≠ key → meta_step m (key, op) !! key' = m !! key'.
Proof.
  destruct key as [ns d]. intros Hne.
  destruct op; simpl; unfold meta_insert, meta_remove, record_read, record_write, meta_pin, meta_unpin, MetadataIndex in *;
    by rewrite ?lookup_insert_ne, ?lookup_delete_ne, ?lookup_alter_ne.
Qed.

(** The entry of a document in the metadata index is the summary of that
    document's own history, whatever happens to other documents: the numbers of
    reads and writes since it was last inserted anew (at 64 bits), the time of
    the last access, the pin, and the segment and schema version of the last
    insertion, which keeps the counts of a document that was present. *)
Theorem metadata_summarizes_history ops ns d :
  option_Forall2 summarizes
    (foldl log_step None (map snd (filterb (λ o, bool_decide (o.1 = (ns, d))) ops)))
    (foldl meta_step ∅ ops !! (ns, d)).
Proof.
  assert (Hgen : ∀ ops l m, summarizes_opt l (m !! (ns, d)) → summarizes_opt
    (foldl log_step l (map snd (filterb (λ o, bool_decide (o.1 = (ns, d))) ops)))
    (foldl meta_step m ops !! (ns, d))).
  { clear. induction ops as [|[key op] ops IH]; intros l m Hl; cbn [foldl filterb List.filter fst]; [done|].
    case_bool_decide as Hk; cbn [map foldl snd]; apply IH.
    - simpl in Hk. subst. by apply (meta_step_log _ _ (ns, d)).
    - rewrite (meta_step_other m key) by auto. done. }
  apply Hgen. constructor.
Qed.
