(* ===== verification/Workspaces.v ===== *)
(** * Workspaces and working sets

    [workspace/] (schemas, replication and retention policies, the workspace
    manager) and [working_set/] (query filters and the working set manager).
    [serde_json::Value] is the type [Value].  The current time is an
    argument. *)
From S2P Require Import Prelude Types F64.

#[local] Set Warnings "-register-all".

(** ** JSON values *)

Inductive Number := PosInt (n : N) | NegInt (z : Z) | Float (x : f64).

Inductive Value :=
  | VNull
  | VBool (b : bool)
  | VNumber (n : Number)
  | VString (s : string)
  | VArray (l : list Value)
  | VObject (fields : list (string * Value)).

Definition number_eqb (a b : Number) : bool :=
  match a, b with
  | PosInt m, PosInt n => (m =? n)%N
  | NegInt m, NegInt n => (m =? n)%Z
  | Float x, Float y => SpecFloat.SFeqb x y
  | _, _ => false
  end.

(** [==] on values; an object lists its fields in the order of their names. *)
Fixpoint value_eqb (a b : Value) : bool :=
  match a, b with
  | VNull, VNull => true
  | VBool x, VBool y => eqb x y
  | VNumber m, VNumber n => number_eqb m n
  | VString s, VString t => String.eqb s t
  | VArray l, VArray k =>
      (fix go (l k : list Value) : bool :=
         match l, k with
         | [], [] => true
         | x :: l, y :: k => value_eqb x y && go l k
         | _, _ => false
         end) l k
  | VObject l, VObject k =>
      (fix go (l k : list (string * Value)) : bool :=
         match l, k with
         | [], [] => true
         | (s, x) :: l, (t, y) :: k => String.eqb s t && value_eqb x y && go l k
         | _, _ => false
         end) l k
  | _, _ => false
  end.

Definition as_u64 (n : Number) : option N := match n with PosInt n => Some n | _ => None end.
Definition as_str (v : Value) : option string := match v with VString s => Some s | _ => None end.

(** ** Policies *)

Inductive ReplicationPolicy := FullSync | Selective (types : list string) | ReadOnly | Offline.

Definition should_sync (p : ReplicationPolicy) (document_type : string) : bool :=
  match p with
  | FullSync => true
  | Selective types => bool_decide (document_type ∈ types)
  | ReadOnly => false
  | Offline => false
  end.

Definition allows_upload (p : ReplicationPolicy) : bool :=
  match p with FullSync => true | Selective _ => true | ReadOnly => false | Offline => false end.

Definition allows_download (p : ReplicationPolicy) : bool :=
  match p with FullSync => true | Selective _ => true | ReadOnly => true | Offline => false end.

Record RetentionPolicy := Retention {
  rp_max_age_ms : option N;
  rp_max_size_bytes : option N;
  rp_auto_archive : bool;
  rp_tombstone_retention_ms : N;
  rp_max_versions : option N;
}.

Definition retention_default : RetentionPolicy := Retention None None false (30 * 24 * 60 * 60 * 1000) None.

Definition should_retain (p : RetentionPolicy) (age_ms : N) : bool :=
  match rp_max_age_ms p with Some max_age => (age_ms <=? max_age)%N | None => true end.

Definition should_archive (p : RetentionPolicy) (age_ms : N) : bool :=
  if negb (rp_auto_archive p) then false
  else match rp_max_age_ms p with Some max_age => (max_age / 2 <? age_ms)%N | None => false end.

Definition should_delete_tombstone (p : RetentionPolicy) (tombstone_age_ms : N) : bool :=
  (rp_tombstone_retention_ms p <=? tombstone_age_ms)%N.

(** ** Workspace schemas *)

Inductive FieldType := FTString | FTNumber | FTBoolean | FTTimestamp | FTArray | FTObject.

Record FieldSchema := Field {
  fs_field_type : FieldType;
  fs_required : bool;
  fs_indexed : bool;
  fs_default_value : option string;
}.

Definition WorkspaceSchema := gmap string FieldSchema.

Definition add_field (name : string) (field_type : FieldType) (required : bool) (s : WorkspaceSchema) : WorkspaceSchema :=
  <[name := Field field_type required false None]> s.
Definition add_indexed_field (name : string) (field_type : FieldType) (required : bool) (s : WorkspaceSchema) :
    WorkspaceSchema :=
  <[name := Field field_type required true None]> s.
Definition indexed_fields (s : WorkspaceSchema) : list string :=
  map fst (filterb (λ '(_, f), fs_indexed f) (map_to_list s)).

Definition validate_document (s : WorkspaceSchema) (doc : gmap string Value) : result unit (list string) :=
  let errors := map (λ '(name, _), ("Missing required field: " +:+ name)%string)
    (filterb (λ '(name, f), fs_required f && negb (bool_decide (is_Some (doc !! name)))) (map_to_list s)) in
  match errors with [] => Ok tt | _ => Err errors end.

Definition max_age_description (p : RetentionPolicy) : string :=
  match rp_max_age_ms p with
  | Some ms => if (0 <? ms / (24 * 60 * 60 * 1000))%N then "Retention: {} days" else "Retention: {} hours"
  | None => "No age limit"
  end.

Definition policy_description (p : ReplicationPolicy) : string :=
  match p with
  | FullSync => "Full bidirectional sync"
  | Selective _ => "Selective sync for specific document types"
  | ReadOnly => "Download only, no uploads"
  | Offline => "No sync, offline only"
  end.

(** ** The workspace manager *)

Record Workspace := WorkspaceOf {
  w_id : N;
  w_name : string;
  w_namespace : string;
  w_schema : WorkspaceSchema;
  w_replication_policy : ReplicationPolicy;
  w_retention_policy : RetentionPolicy;
  w_created_at : N;
  w_updated_at : N;
}.

Record WorkspaceInfo := WInfo {
  wi_id : N;
  wi_name : string;
  wi_namespace : string;
  wi_created_at : N;
}.

Definition workspace_info (w : Workspace) : WorkspaceInfo := WInfo (w_id w) (w_name w) (w_namespace w) (w_created_at w).

Record WorkspaceManager := Workspaces {
  wm_workspaces : rwlock (gmap N Workspace);
  wm_next_id : rwlock N;
}.

Definition workspace_manager_new : WorkspaceManager := Workspaces (rw_new ∅) (rw_new 1%N).

Definition with_workspaces (f : gmap N Workspace → gmap N Workspace) (m : WorkspaceManager) : WorkspaceManager :=
  Workspaces (rw_try_update f (wm_workspaces m)) (wm_next_id m).

Definition create_workspace (name namespace : string) (schema : WorkspaceSchema) (replication : ReplicationPolicy)
    (retention : RetentionPolicy) (now_ms : N) : SM WorkspaceManager (fault Empty_set) N :=
  id ← rw_lock Panicked wm_next_id;
  sm_modify (λ m, Workspaces (wm_workspaces m) (rw_update (λ n, wrapping_add64 n 1) (wm_next_id m)));;
  sm_modify (with_workspaces <[id := WorkspaceOf id name namespace schema replication retention now_ms now_ms]>);;
  mret id.

Definition get_workspace (id : N) (m : WorkspaceManager) : option Workspace :=
  ws ← rw_ok (wm_workspaces m); ws !! id.

Definition list_workspaces (m : WorkspaceManager) : list WorkspaceInfo :=
  match rw_ok (wm_workspaces m) with
  | Some ws => map (λ p, workspace_info p.2) (map_to_list ws)
  | None => []
  end.

Definition updated_workspace (name : option string) (schema : option WorkspaceSchema)
    (replication : option ReplicationPolicy) (retention : option RetentionPolicy) (now_ms : N) (w : Workspace) : Workspace :=
  WorkspaceOf (w_id w) (default (w_name w) name) (w_namespace w) (default (w_schema w) schema)
    (default (w_replication_policy w) replication) (default (w_retention_policy w) retention) (w_created_at w) now_ms.

Definition update_workspace (id : N) (name : option string) (schema : option WorkspaceSchema)
    (replication : option ReplicationPolicy) (retention : option RetentionPolicy) (now_ms : N)
    (m : WorkspaceManager) : bool * WorkspaceManager :=
  match get_workspace id m with
  | Some w => (true, with_workspaces <[id := updated_workspace name schema replication retention now_ms w]> m)
  | None => (false, m)
  end.

Definition delete_workspace (id : N) (m : WorkspaceManager) : bool * WorkspaceManager :=
  (bool_decide (is_Some (get_workspace id m)), with_workspaces (delete id) m).

Definition get_workspace_for_namespace (namespace : string) (m : WorkspaceManager) : option Workspace :=
  ws ← rw_ok (wm_workspaces m);
  head (filterb (λ w, String.eqb (w_namespace w) namespace) (map snd (map_to_list ws))).

Definition replication_scope (id : N) (m : WorkspaceManager) : option ReplicationPolicy :=
  w_replication_policy <$> get_workspace id m.
Definition retention_policy (id : N) (m : WorkspaceManager) : option RetentionPolicy :=
  w_retention_policy <$> get_workspace id m.
Definition workspace_count (m : WorkspaceManager) : nat := default 0%nat (size <$> rw_ok (wm_workspaces m)).

(** ** Query filters *)

Record QueryFilter := Filter {
  qf_status : option string;
  qf_workspace_id : option N;
  qf_tags : list string;
  qf_min_updated_at : option N;
  qf_max_updated_at : option N;
  qf_custom_filters : gmap string Value;
}.

Definition query_filter_new : QueryFilter := Filter None None [] None None ∅.

Definition with_status (status : string) (f : QueryFilter) : QueryFilter :=
  Filter (Some status) (qf_workspace_id f) (qf_tags f) (qf_min_updated_at f) (qf_max_updated_at f) (qf_custom_filters f).
Definition with_workspace_id (id : N) (f : QueryFilter) : QueryFilter :=
  Filter (qf_status f) (Some id) (qf_tags f) (qf_min_updated_at f) (qf_max_updated_at f) (qf_custom_filters f).
Definition with_tag (tag : string) (f : QueryFilter) : QueryFilter :=
  Filter (qf_status f) (qf_workspace_id f) (qf_tags f ++ [tag]) (qf_min_updated_at f) (qf_max_updated_at f) (qf_custom_filters f).
Definition with_min_updated_at (t : N) (f : QueryFilter) : QueryFilter :=
  Filter (qf_status f) (qf_workspace_id f) (qf_tags f) (Some t) (qf_max_updated_at f) (qf_custom_filters f).
Definition with_max_updated_at (t : N) (f : QueryFilter) : QueryFilter :=
  Filter (qf_status f) (qf_workspace_id f) (qf_tags f) (qf_min_updated_at f) (Some t) (qf_custom_filters f).
Definition with_custom_filter (key : string) (value : Value) (f : QueryFilter) : QueryFilter :=
  Filter (qf_status f) (qf_workspace_id f) (qf_tags f) (qf_min_updated_at f) (qf_max_updated_at f)
    (<[key := value]> (qf_custom_filters f)).

Definition fields := gmap string Value.

(** The two tests on [updated_at]: a number that is not a [u64] passes. *)
Definition updated_at_test (reject : N → bool) (fs : fields) : bool :=
  match fs !! "updated_at" with
  | Some (VNumber n) => match as_u64 n with Some v => negb (reject v) | None => true end
  | _ => false
  end.

Definition status_matches (f : QueryFilter) (fs : fields) : bool :=
  match qf_status f with
  | Some status => match fs !! "status" with Some (VString s) => String.eqb s status | _ => false end
  | None => true
  end.

Definition tags_match (f : QueryFilter) (fs : fields) : bool :=
  match qf_tags f with
  | [] => true
  | required => match fs !! "tags" with
                | Some (VArray tags) => forallb (λ r, existsb (λ t, bool_decide (as_str t = Some r)) tags) required
                | _ => false
                end
  end.

Definition filter_matches (f : QueryFilter) (fs : fields) : bool :=
  status_matches f fs &&
  match qf_min_updated_at f with Some min_ts => updated_at_test (λ v, v <? min_ts)%N fs | None => true end &&
  match qf_max_updated_at f with Some max_ts => updated_at_test (λ v, max_ts <? v)%N fs | None => true end &&
  tags_match f fs &&
  forallb (λ '(key, expected), match fs !! key with Some actual => value_eqb actual expected | None => false end)
    (map_to_list (qf_custom_filters f)).

(** ** The working set manager *)

Inductive EvictionStrategy := LeastRecentlyUsed | LeastFrequentlyUsed | FirstInFirstOut.

Record AutoPolicy := Auto {
  ap_max_documents : nat;
  ap_max_age_ms : N;
  ap_eviction_strategy : EvictionStrategy;
}.

Inductive WorkingSetPolicy := Manual | Automatic (p : AutoPolicy).

Record WorkingSet := WSet {
  wset_id : N;
  wset_name : string;
  wset_workspace_id : option N;
  wset_filter : QueryFilter;
  wset_policy : WorkingSetPolicy;
  wset_created_at : N;
  wset_updated_at : N;
  wset_last_accessed_at : N;
  wset_access_count : N;
}.

Record WorkingSetManager := WSets {
  wsm_sets : rwlock (gmap N WorkingSet);
  wsm_active_set : rwlock (option N);
  wsm_next_id : rwlock N;
}.

Definition working_set_manager_new : WorkingSetManager := WSets (rw_new ∅) (rw_new None) (rw_new 1%N).

Definition with_sets (f : gmap N WorkingSet → gmap N WorkingSet) (m : WorkingSetManager) : WorkingSetManager :=
  WSets (rw_try_update f (wsm_sets m)) (wsm_active_set m) (wsm_next_id m).
Definition with_active (f : option N → option N) (m : WorkingSetManager) : WorkingSetManager :=
  WSets (wsm_sets m) (rw_try_update f (wsm_active_set m)) (wsm_next_id m).

Definition create_set (name : string) (filter : QueryFilter) (policy : WorkingSetPolicy) (workspace_id : option N)
    (now_ms : N) : SM WorkingSetManager (fault Empty_set) N :=
  id ← rw_lock Panicked wsm_next_id;
  sm_modify (λ m, WSets (wsm_sets m) (wsm_active_set m) (rw_update (λ n, wrapping_add64 n 1) (wsm_next_id m)));;
  sm_modify (with_sets <[id := WSet id name workspace_id filter policy now_ms now_ms now_ms 0]>);;
  mret id.

Definition get_set (id : N) (m : WorkingSetManager) : option WorkingSet := sets ← rw_ok (wsm_sets m); sets !! id.

Definition update_set (id : N) (name : option string) (filter : option QueryFilter) (policy : option WorkingSetPolicy)
    (now_ms : N) (m : WorkingSetManager) : bool * WorkingSetManager :=
  match get_set id m with
  | Some w => (true, with_sets <[id := WSet (wset_id w) (default (wset_name w) name) (wset_workspace_id w)
      (default (wset_filter w) filter) (default (wset_policy w) policy) (wset_created_at w) now_ms
      (wset_last_accessed_at w) (wset_access_count w)]> m)
  | None => (false, m)
  end.

Definition delete_set (id : N) (m : WorkingSetManager) : bool * WorkingSetManager :=
  match get_set id m with
  | Some _ => (true, with_active (λ a, if bool_decide (a = Some id) then None else a) (with_sets (delete id) m))
  | None => (false, m)
  end.

Definition touch_set (now_ms : N) (w : WorkingSet) : WorkingSet :=
  WSet (wset_id w) (wset_name w) (wset_workspace_id w) (wset_filter w) (wset_policy w) (wset_created_at w)
    (wset_updated_at w) now_ms (saturating_add32 (wset_access_count w) 1).

Definition set_active (id : N) (now_ms : N) (m : WorkingSetManager) : bool * WorkingSetManager :=
  match get_set id m with
  | Some _ => (true, with_sets (alter (touch_set now_ms) id) (with_active (λ _, Some id) m))
  | None => (false, m)
  end.

Definition get_active (m : WorkingSetManager) : option N := a ← rw_ok (wsm_active_set m); a.

Definition clear_active (m : WorkingSetManager) : WorkingSetManager := with_active (λ _, None) m.

Definition resolve_documents (id : N) (all_documents : list (string * string * fields)) (m : WorkingSetManager) :
    list (string * string) :=
  match get_set id m with
  | Some w => map fst (filterb (λ '(_, fs), filter_matches (wset_filter w) fs) all_documents)
  | None => []
  end.

Definition candidate : Type := string * string * N.
Definition cand_size (c : candidate) : N := c.2.
Definition size_le (a b : candidate) : Prop := (cand_size a ≤ cand_size b)%N.
#[export] Instance size_le_dec : RelDecision size_le.
Proof. intros a b. unfold size_le. apply _. Defined.

(** The documents of the active set, with their sizes. *)
Definition prefetch_matching (w : WorkingSet) (all_documents : list (string * string * N * fields)) : list candidate :=
  map fst (filterb (λ '(_, fs), filter_matches (wset_filter w) fs) all_documents).

Definition prefetch_candidates (budget_bytes : N) (all_documents : list (string * string * N * fields))
    (m : WorkingSetManager) : list candidate :=
  match get_active m with
  | None => []
  | Some active_id =>
      match get_set active_id m with
      | None => []
      | Some w => take_within cand_size budget_bytes 0 (stable_sort size_le (prefetch_matching w all_documents))
      end
  end.

Definition effective_score (base_score : f64) (m : WorkingSetManager) : f64 :=
  match get_active m with
  | None => base_score
  | Some active_id =>
      match get_set active_id m with
      | None => base_score
      | Some w => f64_mul base_score (if bool_decide (is_Some (wset_workspace_id w)) then f64_lit 12 10 else f64_lit 1 1)
      end
  end.

Record WorkingSetInfo := WSetInfo {
  wsi_id : N;
  wsi_name : string;
  wsi_workspace_id : option N;
  wsi_document_count : nat;
  wsi_policy : WorkingSetPolicy;
  wsi_created_at : N;
  wsi_last_accessed_at : N;
}.

Definition working_set_info (w : WorkingSet) : WorkingSetInfo :=
  WSetInfo (wset_id w) (wset_name w) (wset_workspace_id w) 0 (wset_policy w) (wset_created_at w) (wset_last_accessed_at w).

Definition list_sets (m : WorkingSetManager) : list WorkingSetInfo :=
  match rw_ok (wsm_sets m) with
  | Some sets => map (λ p, working_set_info p.2) (map_to_list sets)
  | None => []
  end.

(** ** Prefetching takes as many documents as the budget allows *)

Abbreviation total_size := (sum_of cand_size).

#[local] Instance size_le_total : Total size_le.
Proof. intros a b. unfold size_le. lia. Qed.
#[local] Instance size_le_trans : Transitive size_le.
Proof. intros a b c. unfold size_le. lia. Qed.

(** The first elements of a sorted list are the smallest choice of their number. *)
Lemma total_size_shift n c l : Forall (size_le c) l → StronglySorted size_le l → (n ≤ length l)%nat →
  (total_size (take n (c :: l)) ≤ total_size (take n l))%N.
Proof.
  revert c n. induction l as [|d l IH]; intros c n Hall Hs Hn; destruct n as [|n]; simpl in *; try lia.
  apply Forall_cons in Hall as [Hcd _]. apply StronglySorted_inv in Hs as [Hs Hd].
  specialize (IH d n Hd Hs ltac:(lia)). unfold size_le in Hcd.
  fold (total_size (take n (d :: l))) (total_size (take n l)). simpl in IH. lia.
Qed.

Lemma total_size_sorted k l : StronglySorted size_le l → k `sublist_of` l →
  (total_size (take (length k) l) ≤ total_size k)%N.
Proof.
  intros Hs Hsub. revert Hs. induction Hsub as [|c k l Hsub IH|c k l Hsub IH]; intros Hs; [done| |].
  - apply StronglySorted_inv in Hs as [Hs _]. specialize (IH Hs). simpl.
    fold (total_size (take (length k) l)) (total_size k). lia.
  - apply StronglySorted_inv in Hs as [Hs Hall]. specialize (IH Hs).
    etrans; [apply total_size_shift; [done|done|by apply sublist_length]|done].
Qed.

(** Prefetching returns documents of the active working set whose sizes
    fit the budget together, the smaller first, and no choice of documents of
    the set that fits the budget has more of them. *)
Theorem prefetch_optimal budget docs m id w :
  get_active m = Some id → get_set id m = Some w →
  (total_size (prefetch_matching w docs) ≤ U64_MAX)%N →
  let chosen := prefetch_candidates budget docs m in
  chosen ⊆+ prefetch_matching w docs ∧ (total_size chosen ≤ budget)%N ∧ StronglySorted size_le chosen ∧
  ∀ other, other ⊆+ prefetch_matching w docs → (total_size other ≤ budget)%N → (length other ≤ length chosen)%nat.
Proof.
  intros Ha Hw Hmax. unfold prefetch_candidates. rewrite Ha, Hw.
  set (all := prefetch_matching w docs) in *. set (sorted := stable_sort size_le all).
  assert (Hperm : sorted ≡ₚ all) by apply stable_sort_Permutation.
  assert (Hs : StronglySorted size_le sorted) by (apply stable_sort_sorted; apply _).
  destruct (take_within_spec cand_size budget 0 sorted) as (n & -> & Hn & Hfit & Hmore); [by rewrite Hperm|lia|].
  simpl. split_and!.
  - rewrite <-Hperm. apply sublist_submseteq, sublist_take.
  - lia.
  - rewrite <-(take_drop n sorted) in Hs. by apply StronglySorted_app_1_l in Hs.
  - intros other Hsub Hob. rewrite length_take, Nat.min_l by done.
    destruct (decide (length other ≤ n)%nat) as [|Hgt]; [done|]. exfalso.
    rewrite <-Hperm in Hsub. apply submseteq_sublist_r in Hsub as (k & Hk & Hsub).
    pose proof (sublist_length _ _ Hsub) as Hlen. rewrite Hk in *.
    pose proof (total_size_sorted k sorted Hs Hsub) as Hle.
    specialize (Hmore ltac:(lia)).
    pose proof (sum_of_take cand_size (S n) (take (length k) sorted)) as Htake.
    rewrite take_take, Nat.min_l in Htake by lia. lia.
Qed.

Definition sample_sets : WorkingSetManager :=
  (set_active 1 7 (create_set "open" (with_status "open" query_filter_new) Manual None 5 working_set_manager_new).2).2.

Definition sample_documents : list (string * string * N * fields) :=
  let open := {["status" := VString "open"]} in
  [("doc", "a", 50%N, open); ("doc", "b", 10%N, open); ("doc", "c", 20%N, {["status" := VString "done"]});
   ("doc", "d", 30%N, open)].

Lemma prefetch_optimal_witness :
  prefetch_candidates 45 sample_documents sample_sets = [("doc", "b", 10%N); ("doc", "d", 30%N)] ∧
  (total_size (prefetch_candidates 45 sample_documents sample_sets) ≤ 45)%N.
Proof.
  split; [vm_compute; reflexivity|].
  destruct (get_set 1 sample_sets) as [w|] eqn:Hw; [|vm_compute in Hw; discriminate].
  refine (proj1 (proj2 (prefetch_optimal 45 sample_documents sample_sets 1 w eq_refl Hw _))).
  vm_compute in Hw. injection Hw as <-. apply N.leb_le. vm_compute. reflexivity.
Defined.

(** ** The managers *)

(** Every workspace is stored under its id, below the next one. *)
Definition workspaces_inv (m : WorkspaceManager) : Prop :=
  rw_poisoned (wm_workspaces m) = false ∧ rw_poisoned (wm_next_id m) = false ∧
  map_Forall (λ id w, w_id w = id ∧ (id < rw_val (wm_next_id m))%N) (rw_val (wm_workspaces m)).

Inductive workspace_op :=
  | WsCreate (name namespace : string) (s : WorkspaceSchema) (p : ReplicationPolicy) (r : RetentionPolicy) (now : N)
  | WsUpdate (id : N) (name : option string) (s : option WorkspaceSchema) (p : option ReplicationPolicy)
      (r : option RetentionPolicy) (now : N)
  | WsDelete (id : N).

Definition workspace_step (m : WorkspaceManager) (op : workspace_op) : WorkspaceManager :=
  match op with
  | WsCreate n ns s p r now => (create_workspace n ns s p r now m).2
  | WsUpdate id n s p r now => (update_workspace id n s p r now m).2
  | WsDelete id => (delete_workspace id m).2
  end.

Lemma create_workspace_ok n ns s p r now m : workspaces_inv m → (rw_val (wm_next_id m) < U64_MAX)%N →
  let id := rw_val (wm_next_id m) in
  let w := WorkspaceOf id n ns s p r now now in
  create_workspace n ns s p r now m =
    (Ok id, Workspaces (rw_new (<[id := w]> (rw_val (wm_workspaces m)))) (rw_new (id + 1)%N)).
Proof.
  destruct m as [[ws pw] [next pn]]. intros (Hw & Hn & _) Hmax. simpl in *. subst.
  unfold create_workspace. sm_simpl. unfold rw_lock, with_workspaces, rw_try_update, rw_update, rw_set. simpl.
  by rewrite wrapping_add64_small by lia.
Qed.

(** The next id counts the workspaces created. *)
Lemma workspace_step_inv m op : workspaces_inv m → (rw_val (wm_next_id m) < U64_MAX)%N →
  workspaces_inv (workspace_step m op) ∧
  (rw_val (wm_next_id m) ≤ rw_val (wm_next_id (workspace_step m op)) ≤ rw_val (wm_next_id m) + 1)%N.
Proof.
  intros Hinv Hmax. pose proof Hinv as (Hw & Hn & Hall). destruct op as [n ns s p r now|id n s p r now|id]; simpl.
  - rewrite (create_workspace_ok n ns s p r now m Hinv Hmax). unfold workspaces_inv. simpl. split; [|lia].
    split_and!; [done|done|]. apply map_Forall_insert_2; [simpl; lia|].
    eapply map_Forall_impl; [exact Hall|]. simpl. intros ?? [? ?]. split; [done|lia].
  - unfold update_workspace, get_workspace, rw_ok. rewrite Hw. simpl.
    destruct (rw_val (wm_workspaces m) !! id) as [w|] eqn:Hid; simpl; [|split; [done|lia]]. split; [|lia].
    unfold workspaces_inv, with_workspaces, rw_try_update. simpl. rewrite Hw. simpl. split_and!; [done|done|].
    apply map_Forall_insert_2; [|done]. by apply Hall in Hid.
  - unfold workspaces_inv, with_workspaces, rw_try_update. simpl. rewrite Hw. simpl. split; [|lia]. split_and!; [done|done|].
    by apply map_Forall_delete.
Qed.

Lemma workspace_run_inv ops m : workspaces_inv m → (rw_val (wm_next_id m) + N.of_nat (length ops) ≤ U64_MAX)%N →
  let m' := foldl workspace_step m ops in
  workspaces_inv m' ∧ (rw_val (wm_next_id m) ≤ rw_val (wm_next_id m') ≤ rw_val (wm_next_id m) + N.of_nat (length ops))%N.
Proof.
  revert m. induction ops as [|op ops IH]; simpl; intros m Hinv Hmax; [split; [done|lia]|].
  destruct (workspace_step_inv m op Hinv ltac:(lia)) as [Hinv' Hle].
  destruct (IH _ Hinv' ltac:(lia)) as [? ?]. split; [done|lia].
Qed.

Lemma get_workspace_fresh m id : workspaces_inv m → (rw_val (wm_next_id m) ≤ id)%N → get_workspace id m = None.
Proof.
  intros (Hw & _ & Hall) Hle. unfold get_workspace, rw_ok. rewrite Hw. simpl.
  destruct (rw_val (wm_workspaces m) !! id) eqn:Hid; [|done]. apply Hall in Hid. lia.
Qed.

(** After any history of creations, updates and deletions, creating a
    workspace returns an id that no workspace had at any earlier point of the
    history; the new workspace is found by its id and its namespace has a
    workspace, and every other workspace is as before. *)
Theorem workspace_ids_never_reused ops n ns s p r now :
  (N.of_nat (length ops) < U64_MAX - 1)%N →
  let m := foldl workspace_step workspace_manager_new ops in
  ∃ id m', create_workspace n ns s p r now m = (Ok id, m') ∧
    get_workspace id m' = Some (WorkspaceOf id n ns s p r now now) ∧
    (∀ id', id' ≠ id → get_workspace id' m' = get_workspace id' m) ∧
    (∀ k, get_workspace id (foldl workspace_step workspace_manager_new (take k ops)) = None) ∧
    (∃ w, get_workspace_for_namespace ns m' = Some w ∧ w_namespace w = ns).
Proof.
  intros Hlen m. unfold U64_MAX in Hlen.
  assert (H0 : workspaces_inv workspace_manager_new) by (split_and!; [done|done|apply map_Forall_empty]).
  assert (Hrun : ∀ ops', (N.of_nat (length ops') < U64_MAX - 1)%N → workspaces_inv (foldl workspace_step workspace_manager_new ops') ∧
    (rw_val (wm_next_id (foldl workspace_step workspace_manager_new ops')) < U64_MAX)%N).
  { intros ops' Hl. destruct (workspace_run_inv ops' _ H0) as [? ?]; unfold U64_MAX in *; simpl in *; [lia|split; [done|lia]]. }
  destruct (Hrun ops Hlen) as [Hinv Hnext]. fold m in Hinv, Hnext.
  eexists _, _. split; [by apply create_workspace_ok|]. pose proof Hinv as (Hw & _ & _). split_and!.
  - unfold get_workspace. simpl. by rewrite lookup_insert_eq.
  - intros id' Hne. unfold get_workspace, rw_ok. simpl. rewrite Hw. simpl. by rewrite lookup_insert_ne.
  - intros k. assert (Hlk : (length (take k ops) ≤ length ops)%nat) by (rewrite length_take; lia).
    destruct (Hrun (take k ops)) as [Hk _]; [unfold U64_MAX; lia|].
    apply get_workspace_fresh; [done|]. unfold m. rewrite <-(take_drop k ops) at 2. rewrite foldl_app.
    apply workspace_run_inv; [done|].
    destruct (workspace_run_inv (take k ops) _ H0) as [_ ?]; [unfold U64_MAX; simpl in *; lia|].
    rewrite length_drop. rewrite length_take in *. unfold U64_MAX. simpl in *. lia.
  - unfold get_workspace_for_namespace. simpl.
    destruct (filterb _ _) as [|w l] eqn:Hf.
    + exfalso. set (w0 := WorkspaceOf (rw_val (wm_next_id m)) n ns s p r now now) in *.
      assert (w0 ∈ @nil Workspace) as Hnil; [|by apply elem_of_nil in Hnil]. rewrite <-Hf.
      apply elem_of_filterb. split; [by apply String.eqb_eq|]. apply list_elem_of_fmap.
      exists (rw_val (wm_next_id m), w0). split; [done|]. apply elem_of_map_to_list. by rewrite lookup_insert_eq.
    + exists w. split; [done|]. assert (w ∈ w :: l) as Hin by set_solver. rewrite <-Hf in Hin.
      apply elem_of_filterb in Hin as [Hin _]. by apply String.eqb_eq.
Qed.

Lemma workspace_ids_never_reused_witness :
  let m := foldl workspace_step workspace_manager_new
    [WsCreate "a" "ns" ∅ FullSync retention_default 1; WsDelete 1] in
  ∃ id m', create_workspace "b" "ns" ∅ ReadOnly retention_default 2 m = (Ok id, m') ∧ id = 2%N.
Proof.
  destruct (workspace_ids_never_reused [WsCreate "a" "ns" ∅ FullSync retention_default 1; WsDelete 1]
    "b" "ns" ∅ ReadOnly retention_default 2) as (id & m' & Heq & _); [apply N.ltb_lt; vm_compute; reflexivity|].
  exists id, m'. split; [exact Heq|]. vm_compute in Heq. congruence.
Defined.

(** The active working set, if any, is one of the sets. *)
Definition active_exists (m : WorkingSetManager) : Prop :=
  rw_poisoned (wsm_sets m) = false ∧ rw_poisoned (wsm_active_set m) = false ∧ rw_poisoned (wsm_next_id m) = false ∧
  ∀ id, get_active m = Some id → is_Some (get_set id m).

Inductive set_op :=
  | SetCreate (name : string) (f : QueryFilter) (p : WorkingSetPolicy) (w : option N) (now : N)
  | SetUpdate (id : N) (name : option string) (f : option QueryFilter) (p : option WorkingSetPolicy) (now : N)
  | SetDelete (id : N)
  | SetActivate (id now : N)
  | SetClear.

Definition set_step (m : WorkingSetManager) (op : set_op) : WorkingSetManager :=
  match op with
  | SetCreate n f p w now => (create_set n f p w now m).2
  | SetUpdate id n f p now => (update_set id n f p now m).2
  | SetDelete id => (delete_set id m).2
  | SetActivate id now => (set_active id now m).2
  | SetClear => clear_active m
  end.

Lemma set_step_active m op : active_exists m → active_exists (set_step m op).
Proof.
  destruct m as [[sets ps] [act pa] [next pn]]. unfold active_exists, get_active, get_set, rw_ok. simpl.
  intros (-> & -> & -> & Hact). simpl in Hact.
  destruct op as [n f p w now|id n f p now|id|id now|]; simpl.
  - split_and!; [done..|]. simpl. intros id' Hid.
    destruct (decide (id' = next)) as [->|Hne]; [rewrite lookup_insert_eq; eauto|].
    rewrite lookup_insert_ne by done. auto.
  - unfold update_set, get_set, rw_ok. simpl. destruct (sets !! id) as [w|] eqn:Hw; simpl; [|by auto].
    split_and!; [done..|]. intros id' Hid.
    destruct (decide (id' = id)) as [->|Hne]; [rewrite lookup_insert_eq; eauto|].
    rewrite lookup_insert_ne by done. auto.
  - unfold delete_set, get_set, rw_ok. simpl. destruct (sets !! id) as [w|] eqn:Hw; simpl; [|by auto].
    split_and!; [done..|]. intros id'. case_bool_decide as Ha; [done|]. intros Hid.
    rewrite lookup_delete_ne by congruence. auto.
  - unfold set_active, get_set, rw_ok. simpl. destruct (sets !! id) as [w|] eqn:Hw; simpl; [|by auto].
    split_and!; [done..|]. intros id' [= <-]. rewrite lookup_alter_eq, Hw. eauto.
  - split_and!; done.
Qed.

(** Whatever is done to a working set manager, the active set exists; so
    what is resolved and prefetched for it is not lost to a deleted set. *)
Theorem active_set_exists ops id :
  let m := foldl set_step working_set_manager_new ops in
  get_active m = Some id → is_Some (get_set id m).
Proof.
  assert (Hgen : ∀ ops m, active_exists m → active_exists (foldl set_step m ops)).
  { clear. induction ops as [|op ops IH]; intros m Hm; [done|]. by apply IH, set_step_active. }
  intros m. apply Hgen. by split_and!.
Qed.
