(* ===== verification/ResourceManager.v ===== *)
(** * Resident pages and their scores

    [storage/scoring.rs]: the factors of a page's score and their weighted
    combination.  [storage/resource_manager.rs]: the pages in memory, their
    tiers, the sweep that moves them between tiers and the choice of pages to
    evict.  [f64::log2], whose precision the standard library leaves open, is a
    parameter; the current time is an argument. *)
From Stdlib Require Import SpecFloat.
From S2P Require Import Prelude Types F64 Storage.

(** ** Scoring *)

Inductive NetworkTier := NetOffline | Cellular | WiFi | Ethernet.

Record ScoringContext := ScoreContext {
  sc_now_ms : N;
  sc_working_set_id : option string;
  sc_network_tier : NetworkTier;
  sc_memory_pressure : f64;
}.

Inductive FactorKind := Additive | Multiplier.

(** [scoring::PageAccessInfo]. *)
Record ScoringPageAccessInfo := ScoringInfo {
  si_doc_id : string;
  si_record_id : string;
  si_size_bytes : N;
  si_last_access_ms : N;
  si_access_count_last_hour : N;
  si_pinned : bool;
  si_working_set_id : option string;
}.

(** The trait [ScoringFactor]. *)
Record ScoringFactor := Factor {
  sf_name : string;
  sf_weight : f64;
  sf_kind : FactorKind;
  sf_compute : ScoringPageAccessInfo → ScoringContext → f64;
}.

Record AccessScore := Score {
  as_recency : f64;
  as_frequency : f64;
  as_size_penalty : f64;
  as_predicted : f64;
  as_working_set_affinity : f64;
  as_network_awareness : f64;
  as_pinned : f64;
  as_total : f64;
}.

Record CompositeScorer := Scorer {
  cs_factors : list ScoringFactor;
  cs_weights : gmap string f64;
}.

Definition f0 : f64 := f64_of_N 0.
Definition f1 : f64 := f64_of_N 1.

Definition add_factor (s : CompositeScorer) (f : ScoringFactor) : CompositeScorer :=
  Scorer (cs_factors s ++ [f]) (<[sf_name f := sf_weight f]> (cs_weights s)).

Definition set_weight (factor_name : string) (weight : f64) (s : CompositeScorer) : CompositeScorer :=
  Scorer (cs_factors s) (<[factor_name := weight]> (cs_weights s)).

Definition get_weight (factor_name : string) (s : CompositeScorer) : f64 := default f0 (cs_weights s !! factor_name).

(** One turn of the loop of [compute]. *)
Definition score_turn (s : CompositeScorer) (info : ScoringPageAccessInfo) (ctx : ScoringContext)
    (acc : gmap string f64 * f64 * f64) (f : ScoringFactor) : gmap string f64 * f64 * f64 :=
  let '(scores, total, multiplier) := acc in
  let raw := sf_compute f info ctx in
  let weight := default f0 (cs_weights s !! sf_name f) in
  let scores := <[sf_name f := raw]> scores in
  match sf_kind f with
  | Additive => (scores, f64_add total (f64_mul raw weight), multiplier)
  | Multiplier => (scores, total, f64_mul multiplier (f64_mul raw weight))
  end.

Definition score_compute (s : CompositeScorer) (info : ScoringPageAccessInfo) (ctx : ScoringContext) : AccessScore :=
  let '(scores, total, multiplier) := foldl (score_turn s info ctx) (∅, f0, f1) (cs_factors s) in
  let get name d := default d (scores !! name) in
  Score (get "recency" f0) (get "frequency" f0) (get "size_penalty" f0) (get "predicted" f0)
    (get "working_set_affinity" f0) (get "network_awareness" f0) (get "pinned" f1) (f64_mul total multiplier).

(** [f64::max]. *)
Definition f64_max (a b : f64) : f64 :=
  match a, b with
  | S754_nan, _ => b
  | _, S754_nan => a
  | _, _ => if f64_ltb a b then b else a
  end.

Definition recency_factor (weight : f64) : ScoringFactor :=
  Factor "recency" weight Additive (λ info ctx,
    let elapsed_secs := f64_max
      (f64_div (f64_of_N (saturating_sub (sc_now_ms ctx) (si_last_access_ms info))) (f64_of_N 1000)) f1 in
    f64_min (f64_div f1 elapsed_secs) f1).

Definition frequency_factor (weight : f64) : ScoringFactor :=
  Factor "frequency" weight Additive (λ info _,
    f64_min (f64_div (f64_of_N (si_access_count_last_hour info)) (f64_of_N 3600)) f1).

Definition predicted_factor (weight : f64) : ScoringFactor := Factor "predicted" weight Additive (λ _ _, f0).

Definition pinned_factor (weight : f64) : ScoringFactor :=
  Factor "pinned" weight Multiplier (λ info _, if si_pinned info then f64_of_N 100 else f1).

Definition affinity_factor (weight : f64) : ScoringFactor :=
  Factor "working_set_affinity" weight Additive (λ info ctx,
    match si_working_set_id info, sc_working_set_id ctx with
    | Some doc_ws, Some active_ws => if String.eqb doc_ws active_ws then f1 else f0
    | _, _ => f0
    end).

Definition network_factor (weight : f64) : ScoringFactor :=
  Factor "network_awareness" weight Additive (λ info ctx,
    let size_mb := f64_div (f64_of_N (si_size_bytes info)) (f64_mul (f64_of_N 1024) (f64_of_N 1024)) in
    let tier_penalty :=
      match sc_network_tier ctx with
      | NetOffline => f1
      | Cellular => f64_lit 8 10
      | WiFi => f64_lit 3 10
      | Ethernet => f0
      end in
    f64_min (f64_mul size_mb tier_penalty) f1).

Section scorer.
Context (log2 : f64 → f64).

Definition size_penalty_factor (weight : f64) : ScoringFactor :=
  Factor "size_penalty" weight Additive (λ info _,
    f64_div f1 (f64_max (log2 (f64_of_N (N.max (si_size_bytes info) 1))) f1)).

Definition scorer_new : CompositeScorer :=
  foldl add_factor (Scorer [] ∅)
    [recency_factor (f64_lit 40 100); frequency_factor (f64_lit 30 100); size_penalty_factor (f64_lit 10 100);
     predicted_factor (f64_lit 20 100); pinned_factor f1; affinity_factor f0; network_factor f0].
End scorer.

(** ** The resource manager *)

Inductive PagePriority := PPLow | PPNormal | PPHigh | PPCritical.

Record PageContext := PageCtx {
  pc_workspace_id : option N;
  pc_working_set_id : option string;
  pc_priority : PagePriority;
  pc_pinned : bool;
}.

Definition page_context_default : PageContext := PageCtx None None PPNormal false.

Inductive MemoryTier := ResidentActive | ResidentHot | RecoverableWarm | RecoverableCold | Archived.

#[export] Instance MemoryTier_eq_dec : EqDecision MemoryTier.
Proof. solve_decision. Defined.

Record MemoryBudget := Budget {
  mb_active_bytes : N;
  mb_hot_bytes : N;
  mb_warm_bytes : N;
  mb_snapshot_cache : N;
  mb_indexes : N;
  mb_scratch : N;
}.

Definition MIB : N := 1024 * 1024.
Definition budget_default : MemoryBudget := Budget (150 * MIB) (100 * MIB) (150 * MIB) (50 * MIB) (30 * MIB) (32 * MIB).

Definition budget_total (b : MemoryBudget) : N :=
  foldl wrapping_add64 (mb_active_bytes b)
    [mb_hot_bytes b; mb_warm_bytes b; mb_snapshot_cache b; mb_indexes b; mb_scratch b].

Definition budget_for_tier (b : MemoryBudget) (t : MemoryTier) : N :=
  match t with
  | ResidentActive => mb_active_bytes b
  | ResidentHot => mb_hot_bytes b
  | RecoverableWarm => mb_warm_bytes b
  | RecoverableCold => mb_warm_bytes b
  | Archived => 0
  end.

Record PageAccessInfo := PageInfo {
  pi_doc_id : string;
  pi_record_id : string;
  pi_size_bytes : N;
  pi_last_access_ms : N;
  pi_access_count_last_hour : N;
  pi_tier : MemoryTier;
  pi_pinned : bool;
  pi_working_set_id : option string;
}.

Definition to_scoring_info (p : PageAccessInfo) : ScoringPageAccessInfo :=
  ScoringInfo (pi_doc_id p) (pi_record_id p) (pi_size_bytes p) (pi_last_access_ms p) (pi_access_count_last_hour p)
    (pi_pinned p) (pi_working_set_id p).

Definition tier_budget_key (p : PageAccessInfo) : MemoryTier := if pi_pinned p then ResidentActive else pi_tier p.

Definition with_tier (t : MemoryTier) (p : PageAccessInfo) : PageAccessInfo :=
  PageInfo (pi_doc_id p) (pi_record_id p) (pi_size_bytes p) (pi_last_access_ms p) (pi_access_count_last_hour p) t
    (pi_pinned p) (pi_working_set_id p).

Record ResourceManagerStats := RmStats {
  rs_pages_tracked : N;
  rs_total_bytes : N;
  rs_budget_bytes : N;
  rs_active_bytes : N;
  rs_hot_bytes : N;
  rs_warm_bytes : N;
  rs_archived_bytes : N;
  rs_eviction_candidates : N;
  rs_promotions_last_sweep : N;
  rs_demotions_last_sweep : N;
}.

Definition rm_stats_default : ResourceManagerStats := RmStats 0 0 0 0 0 0 0 0 0 0.

Record ResourceManager := Resources {
  rm_budget : MemoryBudget;
  rm_pages : rwlock (gmap doc_key PageAccessInfo);
  rm_stats : rwlock ResourceManagerStats;
  rm_scorer : rwlock CompositeScorer;
  rm_network_tier : rwlock NetworkTier;
}.

Definition rm_with_scorer (budget : MemoryBudget) (scorer : CompositeScorer) : ResourceManager :=
  Resources budget (rw_new ∅) (rw_new rm_stats_default) (rw_new scorer) (rw_new WiFi).
Definition rm_new (log2 : f64 → f64) (budget : MemoryBudget) : ResourceManager :=
  rm_with_scorer budget (scorer_new log2).

Definition with_pages (f : gmap doc_key PageAccessInfo → gmap doc_key PageAccessInfo) (m : ResourceManager) :
    ResourceManager :=
  Resources (rm_budget m) (rw_try_update f (rm_pages m)) (rm_stats m) (rm_scorer m) (rm_network_tier m).

Definition set_network_tier (t : NetworkTier) (m : ResourceManager) : ResourceManager :=
  Resources (rm_budget m) (rm_pages m) (rm_stats m) (rm_scorer m) (rw_try_update (λ _, t) (rm_network_tier m)).
Definition network_tier (m : ResourceManager) : NetworkTier := default WiFi (rw_ok (rm_network_tier m)).

Definition set_scoring_weight (factor_name : string) (weight : f64) (m : ResourceManager) : ResourceManager :=
  Resources (rm_budget m) (rm_pages m) (rm_stats m) (rw_try_update (set_weight factor_name weight) (rm_scorer m))
    (rm_network_tier m).

Definition compute_score (m : ResourceManager) (info : PageAccessInfo) (now_ms : N) : AccessScore :=
  let ctx := ScoreContext now_ms (pi_working_set_id info) (network_tier m) f0 in
  match rw_ok (rm_scorer m) with
  | Some scorer => score_compute scorer (to_scoring_info info) ctx
  | None => Score f0 f0 f0 f0 f0 f0 f1 f0
  end.

(** The page after an access. *)
Definition accessed (now_ms : N) (ctx : PageContext) (p : PageAccessInfo) : PageAccessInfo :=
  let count := if (saturating_sub now_ms (pi_last_access_ms p) <? 3600000)%N
               then saturating_add32 (pi_access_count_last_hour p) 1 else 1%N in
  let tier := if pc_pinned ctx then ResidentActive else pi_tier p in
  let pinned := pc_pinned ctx || pi_pinned p in
  let ws := match pc_working_set_id ctx with Some w => Some w | None => pi_working_set_id p end in
  let tier := if bool_decide (tier = RecoverableCold ∨ tier = Archived) then ResidentHot else tier in
  PageInfo (pi_doc_id p) (pi_record_id p) (pi_size_bytes p) now_ms count tier pinned ws.

Definition record_access_with_context (doc_id record_id : string) (size_bytes now_ms : N) (ctx : PageContext)
    (m : ResourceManager) : ResourceManager :=
  with_pages (λ pages,
    match pages !! (doc_id, record_id) with
    | Some info => <[(doc_id, record_id) := accessed now_ms ctx info]> pages
    | None => <[(doc_id, record_id) := PageInfo doc_id record_id size_bytes now_ms 1
        (if pc_pinned ctx then ResidentActive else ResidentHot) (pc_pinned ctx) (pc_working_set_id ctx)]> pages
    end) m.

Definition record_access (doc_id record_id : string) (size_bytes now_ms : N) (m : ResourceManager) : ResourceManager :=
  record_access_with_context doc_id record_id size_bytes now_ms page_context_default m.

Definition remove_page (doc_id record_id : string) (m : ResourceManager) : ResourceManager :=
  with_pages (delete (doc_id, record_id)) m.

Definition set_pinned (doc_id record_id : string) (pinned : bool) (m : ResourceManager) : ResourceManager :=
  with_pages (alter (λ p, PageInfo (pi_doc_id p) (pi_record_id p) (pi_size_bytes p) (pi_last_access_ms p)
    (pi_access_count_last_hour p) (if pinned then ResidentActive else pi_tier p) pinned (pi_working_set_id p))
    (doc_id, record_id)) m.

Definition set_working_set (doc_id record_id : string) (ws : option string) (m : ResourceManager) : ResourceManager :=
  with_pages (alter (λ p, PageInfo (pi_doc_id p) (pi_record_id p) (pi_size_bytes p) (pi_last_access_ms p)
    (pi_access_count_last_hour p) (pi_tier p) (pi_pinned p) ws) (doc_id, record_id)) m.

Definition get_tier (doc_id record_id : string) (m : ResourceManager) : option MemoryTier :=
  pages ← rw_ok (rm_pages m); pi_tier <$> pages !! (doc_id, record_id).

Definition promote_to_resident (doc_id record_id : string) (m : ResourceManager) : ResourceManager :=
  with_pages (alter (with_tier ResidentHot) (doc_id, record_id)) m.

Definition demote_to_recoverable (doc_id record_id : string) (m : ResourceManager) : ResourceManager :=
  with_pages (alter (λ p, if bool_decide (pi_tier p = ResidentHot) then with_tier RecoverableWarm p else p)
    (doc_id, record_id)) m.

Definition rm_clear (m : ResourceManager) : ResourceManager := with_pages (λ _, ∅) m.
Definition rm_get_stats (m : ResourceManager) : ResourceManagerStats := default rm_stats_default (rw_ok (rm_stats m)).

(** *** Eviction *)

Definition scored : Type := string * string * f64.

(** [partial_cmp(..).unwrap_or(Equal)]: not greater.  On scores that are
    numbers this is an order; the sort leaves the order of others open. *)
Definition score_le (a b : scored) : Prop := SFcompare a.2 b.2 ≠ Some Gt.
#[export] Instance score_le_dec : RelDecision score_le.
Proof. intros a b. unfold score_le. apply _. Defined.

Definition evictable (tier : MemoryTier) (p : PageAccessInfo) : bool :=
  bool_decide (tier_budget_key p = tier) && negb (pi_pinned p).

(** The selection loop: stop when enough bytes are freed. *)
Fixpoint select_until (pages : gmap doc_key PageAccessInfo) (target freed : N) (cs : list scored) : list scored :=
  match cs with
  | [] => []
  | (d, r, score) :: cs =>
      if (target <=? freed)%N then []
      else match pages !! (d, r) with
           | Some info => (d, r, score) :: select_until pages target (wrapping_add64 freed (pi_size_bytes info)) cs
           | None => select_until pages target freed cs
           end
  end.

Definition eviction_candidates (m : ResourceManager) (tier : MemoryTier) (target_bytes now_ms : N) : list scored :=
  match rw_ok (rm_pages m) with
  | None => []
  | Some pages =>
      let candidates := map (λ '((d, r), info), (d, r, as_total (compute_score m info now_ms)))
        (filterb (λ '(_, info), evictable tier info) (map_to_list pages)) in
      select_until pages target_bytes 0 (stable_sort score_le candidates)
  end.

(** *** The sweep *)

Definition tier_from_score (score : f64) : MemoryTier :=
  if f64_leb (f64_of_N 10) score then ResidentActive
  else if f64_leb f1 score then ResidentHot
  else if f64_leb (f64_lit 3 10) score then RecoverableWarm
  else if f64_leb (f64_lit 1 10) score then RecoverableCold
  else Archived.

Definition tier_rank (t : MemoryTier) : nat :=
  match t with ResidentActive => 0 | ResidentHot => 1 | RecoverableWarm => 2 | RecoverableCold => 3 | Archived => 4 end.

(** The counters of the loop. *)
Record sweep_state := Sweep {
  sw_pages : gmap doc_key PageAccessInfo;
  sw_promotions : N;
  sw_demotions : N;
  sw_active : N;
  sw_hot : N;
  sw_warm : N;
  sw_archived : N;
}.

Definition sweep_count (size : N) (tier : MemoryTier) (s : sweep_state) : sweep_state :=
  let add (b : bool) x := if b then wrapping_add64 x size else x in
  Sweep (sw_pages s) (sw_promotions s) (sw_demotions s)
    (add (bool_decide (tier = ResidentActive)) (sw_active s))
    (add (bool_decide (tier = ResidentHot)) (sw_hot s))
    (add (bool_decide (tier = RecoverableWarm ∨ tier = RecoverableCold)) (sw_warm s))
    (add (bool_decide (tier = Archived)) (sw_archived s)).

Definition sweep_move (key : doc_key) (target : MemoryTier) (promoted : bool) (s : sweep_state) : sweep_state :=
  match sw_pages s !! key with
  | Some info => Sweep (<[key := with_tier target info]> (sw_pages s))
      (if promoted then wrapping_add64 (sw_promotions s) 1 else sw_promotions s)
      (if promoted then sw_demotions s else wrapping_add64 (sw_demotions s) 1)
      (sw_active s) (sw_hot s) (sw_warm s) (sw_archived s)
  | None => s
  end.

(** A turn on one element of [scores]: key, score, size, tier, pin. *)
Definition sweep_turn (s : sweep_state) (x : doc_key * f64 * N * MemoryTier * bool) : sweep_state :=
  let '(key, score, size_bytes, tier, pinned) := x in
  let s := sweep_count size_bytes tier s in
  if (pinned : bool) then s
  else
    let target_tier := tier_from_score score in
    if (tier_rank tier <? tier_rank target_tier)%nat then sweep_move key target_tier false s
    else if (tier_rank target_tier <? tier_rank tier)%nat then sweep_move key target_tier true s
    else s.

Definition sweep_scores (m : ResourceManager) (now_ms : N) (pages : gmap doc_key PageAccessInfo) :
    list (doc_key * f64 * N * MemoryTier * bool) :=
  map (λ '(key, info), (key, as_total (compute_score m info now_ms), pi_size_bytes info, pi_tier info, pi_pinned info))
    (map_to_list pages).

Definition sweep (now_ms : N) (m : ResourceManager) : ResourceManagerStats * ResourceManager :=
  match rw_ok (rm_pages m) with
  | None => (rm_stats_default, m)
  | Some pages =>
      let s := foldl sweep_turn (Sweep pages 0 0 0 0 0 0) (sweep_scores m now_ms pages) in
      let total_bytes := wrapping_add64 (wrapping_add64 (wrapping_add64 (sw_active s) (sw_hot s)) (sw_warm s)) (sw_archived s) in
      let hot_budget := mb_hot_bytes (rm_budget m) in
      let warm_budget := mb_warm_bytes (rm_budget m) in
      let candidates :=
        if (hot_budget <? sw_hot s)%N then (sw_hot s - hot_budget)%N
        else if (warm_budget <? sw_warm s)%N then (sw_warm s - warm_budget)%N
        else 0%N in
      let stats := RmStats (N.of_nat (size (sw_pages s))) total_bytes (budget_total (rm_budget m)) (sw_active s) (sw_hot s)
        (sw_warm s) (sw_archived s) candidates (sw_promotions s) (sw_demotions s) in
      (stats, Resources (rm_budget m) (rw_set (sw_pages s) (rm_pages m)) (rw_try_update (λ _, stats) (rm_stats m))
        (rm_scorer m) (rm_network_tier m))
  end.

(** ** The sweep puts every page in the tier of its score *)

(** The page after a sweep: pinned pages stay where they are. *)
Definition retier (m : ResourceManager) (now_ms : N) (p : PageAccessInfo) : PageAccessInfo :=
  if pi_pinned p then p else with_tier (tier_from_score (as_total (compute_score m p now_ms))) p.

Definition promoted (m : ResourceManager) (now_ms : N) (p : PageAccessInfo) : bool :=
  (tier_rank (pi_tier (retier m now_ms p)) <? tier_rank (pi_tier p))%nat.
Definition demoted (m : ResourceManager) (now_ms : N) (p : PageAccessInfo) : bool :=
  (tier_rank (pi_tier p) <? tier_rank (pi_tier (retier m now_ms p)))%nat.

Abbreviation sizes := (sum_of (λ x : doc_key * PageAccessInfo, pi_size_bytes x.2)).
Definition count_pages (f : PageAccessInfo → bool) (l : list (doc_key * PageAccessInfo)) : N :=
  N.of_nat (length (filterb (λ x, f x.2) l)).

(** The bytes the loop has counted. *)
Definition sw_bytes (s : sweep_state) : N := (sw_active s + sw_hot s + sw_warm s + sw_archived s)%N.

Lemma with_tier_id p : with_tier (pi_tier p) p = p.
Proof. by destruct p. Qed.

Lemma tier_rank_inj t t' : tier_rank t = tier_rank t' → t = t'.
Proof. by destruct t, t'. Qed.

Lemma sweep_count_bytes size t s : (sw_bytes s + size ≤ U64_MAX)%N →
  sw_bytes (sweep_count size t s) = (sw_bytes s + size)%N ∧ sw_pages (sweep_count size t s) = sw_pages s ∧
  sw_promotions (sweep_count size t s) = sw_promotions s ∧ sw_demotions (sweep_count size t s) = sw_demotions s.
Proof.
  unfold sw_bytes. intros Hmax. destruct t; simpl; rewrite ?bool_decide_true, ?bool_decide_false by naive_solver;
    rewrite wrapping_add64_small by lia; split_and!; try done; lia.
Qed.

(** One turn on a page of the map. *)
Lemma sweep_turn_page m now s key p :
  sw_pages s !! key = Some p → (sw_bytes s + pi_size_bytes p ≤ U64_MAX)%N →
  (sw_promotions s < U64_MAX)%N → (sw_demotions s < U64_MAX)%N →
  let s' := sweep_turn s (key, as_total (compute_score m p now), pi_size_bytes p, pi_tier p, pi_pinned p) in
  sw_pages s' = <[key := retier m now p]> (sw_pages s) ∧ sw_bytes s' = (sw_bytes s + pi_size_bytes p)%N ∧
  sw_promotions s' = (sw_promotions s + (if promoted m now p then 1 else 0))%N ∧
  sw_demotions s' = (sw_demotions s + (if demoted m now p then 1 else 0))%N.
Proof.
  intros Hp Hb Hpr Hde. destruct (sweep_count_bytes (pi_size_bytes p) (pi_tier p) s Hb) as (Hb' & Hpg & Hpr' & Hde').
  cbn [sweep_turn]. unfold promoted, demoted, retier. set (s1 := sweep_count _ _ s) in *. clearbody s1.
  destruct (pi_pinned p).
  { rewrite Nat.ltb_irrefl, Hpg. rewrite insert_id by done. split_and!; [done|done|lia|lia]. }
  simpl. set (t := tier_from_score _).
  destruct (Nat.ltb_spec (tier_rank (pi_tier p)) (tier_rank t)) as [Hlt|Hge].
  - destruct (Nat.ltb_spec (tier_rank t) (tier_rank (pi_tier p))); [lia|].
    unfold sweep_move. rewrite Hpg, Hp. simpl. unfold sw_bytes in *. simpl.
    rewrite Hde', wrapping_add64_small by lia. split_and!; [done|lia|lia|lia].
  - destruct (Nat.ltb_spec (tier_rank t) (tier_rank (pi_tier p))) as [Hlt|Hge'].
    + unfold sweep_move. rewrite Hpg, Hp. simpl. unfold sw_bytes in *. simpl.
      rewrite Hpr', wrapping_add64_small by lia. split_and!; [done|lia|lia|lia].
    + rewrite (tier_rank_inj t (pi_tier p)) by lia. rewrite with_tier_id, insert_id by done.
      split_and!; [done|done|lia|lia].
Qed.

Definition sweep_entry (m : ResourceManager) (now : N) (x : doc_key * PageAccessInfo) :=
  (x.1, as_total (compute_score m x.2 now), pi_size_bytes x.2, pi_tier x.2, pi_pinned x.2).

Lemma sweep_loop m now l s : NoDup l.*1 → (∀ x, x ∈ l → sw_pages s !! x.1 = Some x.2) →
  (sw_bytes s + sizes l ≤ U64_MAX)%N → (sw_promotions s + N.of_nat (length l) ≤ U64_MAX)%N →
  (sw_demotions s + N.of_nat (length l) ≤ U64_MAX)%N →
  let s' := foldl sweep_turn s (map (sweep_entry m now) l) in
  (∀ key, sw_pages s' !! key = if decide (key ∈ l.*1) then retier m now <$> sw_pages s !! key else sw_pages s !! key) ∧
  sw_bytes s' = (sw_bytes s + sizes l)%N ∧
  sw_promotions s' = (sw_promotions s + count_pages (promoted m now) l)%N ∧
  sw_demotions s' = (sw_demotions s + count_pages (demoted m now) l)%N.
Proof.
  revert s. induction l as [|[key p] l IH]; intros s Hnd Hin Hb Hpr Hde.
  { simpl. unfold count_pages. simpl. split_and!; [|lia|lia|lia]. done. }
  apply NoDup_cons in Hnd as [Hkey Hnd]. simpl in Hkey, Hb, Hpr, Hde. fold (sizes l) in Hb.
  destruct (sweep_turn_page m now s key p) as (Hpg' & Hb' & Hpr' & Hde');
    [apply (Hin (key, p)); set_solver|lia|lia|lia|].
  cbn [map foldl]. change (sweep_entry m now (key, p)) with
    (key, as_total (compute_score m p now), pi_size_bytes p, pi_tier p, pi_pinned p).
  set (s1 := sweep_turn s _) in *. clearbody s1.
  destruct (IH s1) as (Hpg & Hbs & Hprs & Hdes); [done| | | | |].
  - intros [k q] Hk. simpl. assert (k ≠ key) by (intros ->; apply Hkey, list_elem_of_fmap; by exists (key, q)).
    rewrite Hpg', lookup_insert_ne by done. apply (Hin (k, q)). set_solver.
  - lia.
  - destruct (promoted m now p); lia.
  - destruct (demoted m now p); lia.
  - split_and!.
    + intros k. rewrite Hpg, Hpg'. assert (Hkp : sw_pages s !! key = Some p) by (apply (Hin (key, p)); set_solver).
      simpl. destruct (decide (k = key)) as [->|Hne].
      * rewrite decide_False by done. rewrite decide_True by set_solver. by rewrite lookup_insert_eq, Hkp.
      * rewrite lookup_insert_ne by done. repeat case_decide; set_solver.
    + rewrite Hbs, Hb'. simpl. fold (sizes l). lia.
    + rewrite Hprs, Hpr'. unfold count_pages. simpl. destruct (promoted m now p); simpl; lia.
    + rewrite Hdes, Hde'. unfold count_pages. simpl. destruct (demoted m now p); simpl; lia.
Qed.

(** Where a sweep leaves the pages, and what it reports. *)
Lemma sweep_spec m now pages : rw_ok (rm_pages m) = Some pages →
  (N.of_nat (size pages) ≤ U64_MAX)%N → (sizes (map_to_list pages) ≤ U64_MAX)%N →
  let r := sweep now m in
  rm_pages r.2 = rw_new (retier m now <$> pages) ∧ rm_scorer r.2 = rm_scorer m ∧
  rm_network_tier r.2 = rm_network_tier m ∧
  rs_total_bytes r.1 = sizes (map_to_list pages) ∧
  rs_promotions_last_sweep r.1 = count_pages (promoted m now) (map_to_list pages) ∧
  rs_demotions_last_sweep r.1 = count_pages (demoted m now) (map_to_list pages).
Proof.
  intros Hok Hn Hs. unfold sweep. rewrite Hok.
  replace (sweep_scores m now pages) with (map (sweep_entry m now) (map_to_list pages))
    by (apply map_ext; by intros [??]).
  destruct (sweep_loop m now (map_to_list pages) (Sweep pages 0 0 0 0 0 0)) as (Hpg & Hb & Hpr & Hde).
  - apply NoDup_fst_map_to_list.
  - intros [k p] Hk. by apply elem_of_map_to_list in Hk.
  - done.
  - by rewrite length_map_to_list.
  - by rewrite length_map_to_list.
  - set (s := foldl _ _ _) in *. clearbody s. simpl in *. split_and!; [| | | |done|done].
    + unfold rw_ok in Hok. destruct (rw_poisoned (rm_pages m)) eqn:Hpo; [done|]. unfold rw_set, rw_new. rewrite Hpo.
      f_equal. apply map_eq. intros k. rewrite Hpg, lookup_fmap. case_decide as Hk; [done|].
      destruct (pages !! k) as [p|] eqn:Hkp; [|done]. destruct Hk. apply list_elem_of_fmap.
      exists (k, p). split; [done|]. by apply elem_of_map_to_list.
    + done.
    + done.
    + unfold sw_bytes in *. simpl in Hb. rewrite (wrapping_add64_small (sw_active s)) by lia.
      rewrite (wrapping_add64_small (_ + sw_hot s)) by lia. rewrite wrapping_add64_small; lia.
Qed.

(** A score does not depend on the tier, nor on the pages and the statistics. *)
Lemma retier_again m m' now p : rm_scorer m' = rm_scorer m → rm_network_tier m' = rm_network_tier m →
  retier m' now (retier m now p) = retier m now p.
Proof.
  intros Hs Hn. unfold retier. destruct (pi_pinned p) eqn:Hp; [by rewrite Hp|].
  simpl. rewrite Hp. unfold compute_score, network_tier. by rewrite Hs, Hn.
Qed.

Lemma sizes_fmap (f : PageAccessInfo → PageAccessInfo) l : (∀ p, pi_size_bytes (f p) = pi_size_bytes p) →
  sizes (prod_map id f <$> l) = sizes l.
Proof.
  intros Hf. induction l as [|[k p] l IH]; [done|]. cbn. rewrite Hf. f_equal. exact IH.
Qed.

(** A sweep puts every page that is not pinned in the tier of its score
    and leaves the pinned ones where they are; nothing else of a page changes
    and no page is added or dropped.  It reports the bytes of all pages and the
    numbers of pages that moved up and down.  A second sweep at the same time
    moves nothing. *)
Theorem sweep_retiers m now pages : rw_ok (rm_pages m) = Some pages →
  (N.of_nat (size pages) ≤ U64_MAX)%N → (sizes (map_to_list pages) ≤ U64_MAX)%N →
  let '(stats, m') := sweep now m in
  rw_ok (rm_pages m') = Some (retier m now <$> pages) ∧
  rs_total_bytes stats = sizes (map_to_list pages) ∧
  rs_promotions_last_sweep stats = count_pages (promoted m now) (map_to_list pages) ∧
  rs_demotions_last_sweep stats = count_pages (demoted m now) (map_to_list pages) ∧
  rm_pages (sweep now m').2 = rm_pages m' ∧
  rs_promotions_last_sweep (sweep now m').1 = 0%N ∧ rs_demotions_last_sweep (sweep now m').1 = 0%N.
Proof.
  intros Hok Hn Hs. destruct (sweep_spec m now pages Hok Hn Hs) as (Hpg & Hsc & Hnt & Hb & Hpr & Hde).
  destruct (sweep now m) as [stats m'] eqn:Hsw. simpl in *.
  set (pages' := retier m now <$> pages) in *.
  assert (Hsz : sizes (map_to_list pages') = sizes (map_to_list pages)).
  { unfold pages'. rewrite map_to_list_fmap. apply sizes_fmap. intros p. unfold retier. by case_match. }
  assert (Hret : ∀ k p, (k, p) ∈ map_to_list pages' → retier m' now p = p).
  { intros k p Hk. apply elem_of_map_to_list in Hk. unfold pages' in Hk. rewrite lookup_fmap in Hk.
    apply fmap_Some in Hk as (q & _ & ->). by apply retier_again. }
  destruct (sweep_spec m' now pages') as (Hpg2 & _ & _ & _ & Hpr2 & Hde2);
    [by rewrite Hpg|unfold pages'; by rewrite map_size_fmap|by rewrite Hsz|].
  split_and!; [by rewrite Hpg|done|done|done| | |].
  - rewrite Hpg2, Hpg. f_equal. apply map_eq. intros k. rewrite lookup_fmap.
    destruct (pages' !! k) as [p|] eqn:Hk; [|done]. simpl. f_equal. apply (Hret k). by apply elem_of_map_to_list.
  - rewrite Hpr2. unfold count_pages. rewrite filterb_none; [done|]. intros [k p] Hk. unfold promoted. simpl.
    rewrite (Hret k p Hk). apply Nat.ltb_irrefl.
  - rewrite Hde2. unfold count_pages. rewrite filterb_none; [done|]. intros [k p] Hk. unfold demoted. simpl.
    rewrite (Hret k p Hk). apply Nat.ltb_irrefl.
Qed.

Definition sample_pages : gmap doc_key PageAccessInfo :=
  {[("doc", "a") := PageInfo "doc" "a" 100 0 1 ResidentHot false None;
    ("doc", "b") := PageInfo "doc" "b" 200 0 1 ResidentActive true None]}.
(** A coarse logarithm, for closed computations. *)
Definition sample_log2 (x : f64) : f64 := f64_of_N 5.
Definition sample_resources : ResourceManager :=
  Resources budget_default (rw_new sample_pages) (rw_new rm_stats_default) (rw_new (scorer_new sample_log2)) (rw_new WiFi).

Lemma sweep_retiers_witness :
  rw_ok (rm_pages (sweep 3600000 sample_resources).2) = Some (retier sample_resources 3600000 <$> sample_pages) ∧
  (rs_demotions_last_sweep (sweep 3600000 sample_resources).1 = 1)%N ∧
  get_tier "doc" "a" (sweep 3600000 sample_resources).2 = Some Archived ∧
  get_tier "doc" "b" (sweep 3600000 sample_resources).2 = Some ResidentActive.
Proof.
  split; [|split_and!; vm_compute; reflexivity].
  pose proof (sweep_retiers sample_resources 3600000 sample_pages eq_refl) as H.
  destruct (sweep 3600000 sample_resources) as [stats m'].
  apply H; apply N.leb_le; vm_compute; reflexivity.
Defined.

(** ** Eviction takes just enough pages *)

Definition page_size (pages : gmap doc_key PageAccessInfo) (c : scored) : N :=
  from_option pi_size_bytes 0%N (pages !! (c.1.1, c.1.2)).
Abbreviation freed pages := (sum_of (page_size pages)).

Lemma select_until_spec pages target f cs :
  (∀ c, c ∈ cs → is_Some (pages !! (c.1.1, c.1.2))) → (f + freed pages cs ≤ U64_MAX)%N →
  ∃ n, select_until pages target f cs = take n cs ∧ ((n < length cs)%nat → (target ≤ f + freed pages (take n cs))%N) ∧
    (∀ k, (k < n)%nat → (k < length cs)%nat → (f + freed pages (take k cs) < target)%N).
Proof.
  revert f. induction cs as [|[[d r] sc] cs IH]; intros f Hin Hmax; simpl.
  { exists 0%nat. split_and!; [done|simpl; lia|lia]. }
  destruct (N.leb_spec target f) as [Hle|Hgt].
  { exists 0%nat. split_and!; [done|simpl; lia|lia]. }
  destruct (Hin (d, r, sc)) as [p Hp]; [set_solver|]. simpl in Hp. rewrite Hp.
  assert (Hc : ∀ k, freed pages (@cons scored (d, r, sc) k) = (pi_size_bytes p + freed pages k)%N).
  { intros k. simpl. unfold page_size at 1. simpl. by rewrite Hp. }
  rewrite Hc in Hmax. rewrite wrapping_add64_small by lia.
  destruct (IH (f + pi_size_bytes p)%N) as (n & -> & Henough & Hmin); [set_solver|lia|].
  exists (S n). split_and!; [done| |].
  - cbn [take]. rewrite Hc. simpl. intros Hlt. specialize (Henough ltac:(lia)). lia.
  - intros [|k] Hk Hl; [simpl; lia|]. cbn [take]. rewrite Hc. simpl in Hl. specialize (Hmin k ltac:(lia) ltac:(lia)). lia.
Qed.

Definition scored_page (m : ResourceManager) (now : N) (x : doc_key * PageAccessInfo) : scored :=
  (x.1.1, x.1.2, as_total (compute_score m x.2 now)).

Lemma freed_scored m now pages l : (∀ x, x ∈ l → pages !! x.1 = Some x.2) →
  freed pages (map (scored_page m now) l) = sizes l.
Proof.
  induction l as [|[[d r] p] l IH]; intros Hin; [done|]. simpl. fold (freed pages (map (scored_page m now) l)) (sizes l).
  rewrite IH by (intros; apply Hin; by right). unfold page_size.
  pose proof (Hin (d, r, p) (list_elem_of_here _ _)) as Hp. simpl in Hp |- *. by rewrite Hp.
Qed.

Lemma sizes_filterb f l : (sizes (filterb f l) ≤ sizes l)%N.
Proof. induction l as [|x l IH]; simpl; [done|]. destruct (f x); simpl; fold (sizes (filterb f l)) (sizes l); lia. Qed.

Lemma evictable_spec tier p : evictable tier p = true ↔ pi_pinned p = false ∧ pi_tier p = tier.
Proof.
  unfold evictable, tier_budget_key. rewrite andb_true_iff, bool_decide_eq_true, negb_true_iff.
  destruct (pi_pinned p); naive_solver.
Qed.

(** The pages proposed for eviction from a tier are pages of that tier
    that are not pinned, each proposed once; together they hold at least the
    bytes asked for unless all such pages are proposed, and without the last
    of them they would hold too few. *)
Theorem eviction_just_enough m tier target now pages :
  rw_ok (rm_pages m) = Some pages → (sizes (map_to_list pages) ≤ U64_MAX)%N →
  let out := eviction_candidates m tier target now in
  NoDup (map fst out) ∧
  (∀ d r sc, (d, r, sc) ∈ out → ∃ p, pages !! (d, r) = Some p ∧ pi_pinned p = false ∧ pi_tier p = tier) ∧
  ((target ≤ freed pages out)%N ∨
    ∀ d r p, pages !! (d, r) = Some p → pi_pinned p = false → pi_tier p = tier → (d, r) ∈ map fst out) ∧
  (∀ before c, out = before ++ [c] → (freed pages before < target)%N).
Proof.
  intros Hok Hmax. unfold eviction_candidates. rewrite Hok.
  set (l := filterb (λ '(_, info), evictable tier info) (map_to_list pages)).
  replace (map _ l) with (map (scored_page m now) l) by (apply map_ext; by intros [[??]?]).
  set (cs := stable_sort score_le (map (scored_page m now) l)).
  assert (Hcs : cs ≡ₚ map (scored_page m now) l) by apply stable_sort_Permutation.
  assert (Hl : ∀ x, x ∈ l → pages !! x.1 = Some x.2 ∧ evictable tier x.2 = true).
  { intros [k p] [He Hk]%elem_of_filterb. by apply elem_of_map_to_list in Hk. }
  assert (Hin : ∀ c, c ∈ cs → ∃ p, pages !! (c.1.1, c.1.2) = Some p ∧ pi_pinned p = false ∧ pi_tier p = tier).
  { intros c Hc. rewrite Hcs in Hc. apply list_elem_of_fmap in Hc as ([[d r] p] & -> & Hx). exists p. simpl.
    destruct (Hl _ Hx) as [? He]. split; [done|]. by apply evictable_spec. }
  assert (Hnd : NoDup (map fst cs)).
  { rewrite Hcs. rewrite map_map. replace (map _ l) with (l.*1) by (apply map_ext; by intros [[??]?]).
    eapply sublist_NoDup; [apply (NoDup_fst_map_to_list pages)|]. apply fmap_sublist, sublist_filterb. }
  assert (Hfreed : (freed pages cs ≤ U64_MAX)%N).
  { rewrite Hcs, freed_scored by (intros; by apply Hl). etrans; [apply sizes_filterb|done]. }
  destruct (select_until_spec pages target 0 cs) as (n & -> & Henough & Hmin);
    [intros c Hc; destruct (Hin c Hc) as (p & ? & _); eauto|done|].
  split_and!.
  - rewrite <-firstn_map. eapply sublist_NoDup; [exact Hnd|]. apply sublist_take.
  - intros d r sc Hx. apply elem_of_take_mono in Hx. exact (Hin _ Hx).
  - destruct (decide (n < length cs)%nat) as [Hlt|Hge]; [left; by apply Henough|right].
    intros d r p Hp Hpin Ht. rewrite take_ge by lia. rewrite Hcs, map_map. apply list_elem_of_fmap.
    exists ((d, r), p). split; [done|]. apply elem_of_filterb. split; [by apply evictable_spec|].
    by apply elem_of_map_to_list.
  - intros before c Hbc. pose proof (f_equal length Hbc) as Hlen. rewrite length_take, length_app in Hlen. simpl in Hlen.
    replace before with (take (length before) cs); [apply (Hmin (length before)); lia|].
    apply (f_equal (take (length before))) in Hbc. rewrite take_take, take_app_length in Hbc.
    by rewrite Nat.min_l in Hbc by lia.
Qed.

Lemma eviction_just_enough_witness :
  let out := eviction_candidates sample_resources ResidentHot 50 3600000 in
  map fst out = [("doc", "a")] ∧ (50 ≤ freed sample_pages out)%N ∧ NoDup (map fst out).
Proof.
  split; [vm_compute; reflexivity|]. split; [apply N.leb_le; vm_compute; reflexivity|].
  refine (proj1 (eviction_just_enough sample_resources ResidentHot 50 3600000 sample_pages eq_refl _)).
  apply N.leb_le. vm_compute. reflexivity.
Defined.
