(* ===== verification/StorageManager.v ===== *)
(** * The storage manager

    [storage/manager.rs], with [storage/lifecycle.rs] and
    [storage/compaction.rs]: documents read and written through the resource
    manager, the clean-up of old deletions and the compaction report.  The
    storage is any implementation of the interface.  Readings of the wall clock
    ([now_ms], and the storage's own), of the monotonic clock ([instant], in
    nanoseconds) and elapsed times are arguments; [crc32fast::hash] is a
    parameter. *)
From S2P Require Import Prelude Types F64 Storage Workspaces ResourceManager.

Module StorageManager.

Inductive WritePriority := WPLow | WPNormal | WPHigh | WPCritical.

Record WriteOptions := Options {
  wo_sync_oplog : bool;
  wo_oplog_entry : option OplogEntry;
  wo_priority : WritePriority;
}.

Definition options_default : WriteOptions := Options true None WPNormal.

(** ** Lifecycle events *)

Inductive SegmentState := SegActive | SegSealed | SegCompacting | SegDeleted.

Record LifecycleEvent := Event {
  le_doc_id : string;
  le_record_id : string;
  le_new_state : SegmentState;
  le_timestamp : N;
}.

Record LifecycleStats := LcStats {
  ls_segments_cleaned : N;
  ls_events : list LifecycleEvent;
}.

(** [LifecycleEngine]: the mutex around its events. *)
Definition LifecycleEngine := rwlock (list LifecycleEvent).

Definition record_event (doc_id record_id : string) (new_state : SegmentState) (now_ms : N) :
    SM LifecycleEngine (fault Empty_set) unit :=
  rw_lock Panicked id;;
  sm_modify (rw_update (λ events, events ++ [Event doc_id record_id new_state now_ms])).

Definition recent_events (limit : nat) : SM LifecycleEngine (fault Empty_set) (list LifecycleEvent) :=
  events ← rw_lock Panicked id;
  mret (drop (length events - limit) events).

Definition should_seal (segment_size max_size : N) : bool := (max_size <=? segment_size)%N.

(** ** The compaction policy *)

Record CompactionPolicy := Policy {
  cp_max_segment_size : N;
  cp_max_tombstone_ratio : f64;
  cp_min_compaction_interval : N;
  cp_max_documents_per_batch : nat;
}.

Definition policy_default : CompactionPolicy :=
  Policy (4 * 1024 * 1024) (f64_lit 25 100) (from_secs 300) (N.to_nat 1000).

Record SnapshotMetadata := SnapMeta {
  snm_seq : N;
  snm_doc_id : string;
  snm_record_id : string;
  snm_checksum : N;
  snm_byte_len : N;
  snm_created_at : N;
}.

Record CompactionStats := CStats {
  cst_documents_compacted : N;
  cst_tombstones_removed : N;
  cst_bytes_saved : N;
  cst_duration_ms : N;
  cst_snapshots_created : list SnapshotMetadata;
}.

Inductive CompactionReason :=
  | NotNeeded
  | TombstoneRatioExceeded (ratio threshold : f64)
  | SegmentFull (size max : N)
  | ManualTrigger.

Record CompactionDecision := Decision {
  cd_should_run : bool;
  cd_reason : CompactionReason;
}.

Record CompactionEngine := Engine {
  ce_policy : CompactionPolicy;
  ce_last_run : rwlock (option N);
}.

Definition engine_new (policy : CompactionPolicy) : CompactionEngine := Engine policy (rw_new None).

Definition should_compact (instant total_documents tombstone_count : N) :
    SM CompactionEngine (fault VaultSyncError) CompactionDecision :=
  if (total_documents =? 0)%N then mret (Decision false NotNeeded)
  else
    last ← rw_lock Panicked ce_last_run;
    policy ← sm_gets ce_policy;
    if match last with
       | Some last_time => (saturating_sub instant last_time <? cp_min_compaction_interval policy)%N
       | None => false
       end
    then mret (Decision false NotNeeded)
    else
      let ratio := f64_div (f64_of_N tombstone_count) (f64_of_N total_documents) in
      if (0 <? tombstone_count)%N && f64_leb (cp_max_tombstone_ratio policy) ratio
      then mret (Decision true (TombstoneRatioExceeded ratio (cp_max_tombstone_ratio policy)))
      else mret (Decision false NotNeeded).

Definition mark_run (instant : N) : SM CompactionEngine (fault VaultSyncError) unit :=
  rw_lock Panicked ce_last_run;;
  sm_modify (λ e, Engine (ce_policy e) (rw_set (Some instant) (ce_last_run e))).

(** ** The manager *)

Record StorageStats := SgStats {
  sgs_total_pages : N;
  sgs_active_segments : N;
  sgs_sealed_segments : N;
  sgs_tombstone_pages : N;
  sgs_total_bytes : N;
  sgs_last_compaction_ms : N;
  sgs_last_lifecycle_ms : N;
}.

Definition stats_default : StorageStats := SgStats 0 0 0 0 0 0 0.

Record t (S : Type) := mk {
  storage : S;
  compaction : CompactionEngine;
  lifecycle : LifecycleEngine;
  resource_manager : ResourceManager;
  workspace_manager : option WorkspaceManager;
  stats : rwlock StorageStats;
}.
Arguments mk {S}.
Arguments storage {S}.
Arguments compaction {S}.
Arguments lifecycle {S}.
Arguments resource_manager {S}.
Arguments workspace_manager {S}.
Arguments stats {S}.

Definition from_parts {S} (s : S) (c : CompactionEngine) (l : LifecycleEngine) (r : ResourceManager) : t S :=
  mk s c l r None (rw_new stats_default).
Definition with_resource_manager {S} (s : S) (policy : CompactionPolicy) (r : ResourceManager) : t S :=
  from_parts s (engine_new policy) (rw_new []) r.
Definition manager_new {S} (log2 : f64 → f64) (s : S) (policy : CompactionPolicy) : t S :=
  with_resource_manager s policy (rm_new log2 budget_default).
Definition set_workspace_manager {S} (wm : WorkspaceManager) (m : t S) : t S :=
  mk (storage m) (compaction m) (lifecycle m) (resource_manager m) (Some wm) (stats m).
Definition with_workspace_manager {S} (log2 : f64 → f64) (s : S) (policy : CompactionPolicy) (wm : WorkspaceManager) : t S :=
  set_workspace_manager wm (manager_new log2 s policy).

Section manager.
Context {S : Type} `{Storage S} (crc32 : bytes → N).

Abbreviation M := (SM (t S) (fault VaultSyncError)).

Definition set_storage (s : S) (m : t S) : t S :=
  mk s (compaction m) (lifecycle m) (resource_manager m) (workspace_manager m) (stats m).
Definition set_engine (e : CompactionEngine) (m : t S) : t S :=
  mk (storage m) e (lifecycle m) (resource_manager m) (workspace_manager m) (stats m).
Definition on_resources (f : ResourceManager → ResourceManager) (m : t S) : t S :=
  mk (storage m) (compaction m) (lifecycle m) (f (resource_manager m)) (workspace_manager m) (stats m).
Definition on_stats (f : StorageStats → StorageStats) (m : t S) : t S :=
  mk (storage m) (compaction m) (lifecycle m) (resource_manager m) (workspace_manager m) (rw_update f (stats m)).

Definition on_storage {A} (op : SM S VaultSyncError A) : M A := zoom storage set_storage (may_fault op).

Definition read_document (now_ms : N) (doc_id record_id : string) : M (option bytes) :=
  result ← on_storage (get_document doc_id record_id);
  match result with
  | Some bs => sm_modify (on_resources (record_access doc_id record_id (N.of_nat (length bs)) now_ms))
  | None => mret tt
  end;;
  mret result.

Definition write_document (now_ms : N) (doc_id record_id : string) (bs : bytes) (opts : WriteOptions) : M unit :=
  sm_modify (on_resources (record_access doc_id record_id (N.of_nat (length bs)) now_ms));;
  match wo_oplog_entry opts with
  | Some entry => on_storage (write_document_and_oplog doc_id record_id bs entry)
  | None => on_storage (insert_document doc_id record_id bs)
  end.

Definition remove_document (doc_id record_id : string) (opts : WriteOptions) : M unit :=
  sm_modify (on_resources (remove_page doc_id record_id));;
  match wo_oplog_entry opts with
  | Some entry => on_storage (delete_document_and_oplog doc_id record_id entry)
  | None => on_storage (delete_document doc_id record_id)
  end.

Definition all_documents (doc_id : string) : M (list (string * bytes)) := on_storage (list_documents doc_id).

Definition flush : M unit := mret tt.

(** The loop over the active documents; [get_document] errors are skipped. *)
Fixpoint snapshot_all (now_ms : N) (docs : list doc_key) (acc : N * list SnapshotMetadata) :
    M (N * list SnapshotMetadata) :=
  match docs with
  | [] => mret acc
  | (d, r) :: docs =>
      got ← try_fault (on_storage (get_document d r));
      let '(compacted, snapshots) := acc in
      match got with
      | Ok (Some bs) =>
          snapshot_all now_ms docs (wrapping_add64 compacted 1,
            snapshots ++ [SnapMeta (wrapping_add64 compacted 1) d r (crc32 bs) (N.of_nat (length bs)) now_ms])
      | _ => snapshot_all now_ms docs acc
      end
  end.

Definition with_last_compaction (now_ms : N) (s : StorageStats) : StorageStats :=
  SgStats (sgs_total_pages s) (sgs_active_segments s) (sgs_sealed_segments s) (sgs_tombstone_pages s) (sgs_total_bytes s)
    now_ms (sgs_last_lifecycle_ms s).
Definition with_last_lifecycle (now_ms : N) (s : StorageStats) : StorageStats :=
  SgStats (sgs_total_pages s) (sgs_active_segments s) (sgs_sealed_segments s) (sgs_tombstone_pages s) (sgs_total_bytes s)
    (sgs_last_compaction_ms s) now_ms.

Definition compact_namespace (now_ms storage_ms instant elapsed_ms : N) (namespace : string) : M CompactionStats :=
  active_docs ← on_storage (list_active_documents namespace);
  tombstones ← on_storage (list_tombstoned_documents storage_ms namespace 0);
  decision ← zoom compaction set_engine
    (should_compact instant (N.of_nat (length active_docs)) (N.of_nat (length tombstones)));
  if negb (cd_should_run decision) then mret (CStats 0 0 0 0 [])
  else
    acc ← snapshot_all now_ms active_docs (0%N, []);
    rw_lock Panicked stats;;
    sm_modify (on_stats (with_last_compaction now_ms));;
    mret (CStats acc.1 (N.of_nat (length tombstones)) 0 elapsed_ms acc.2).

Definition tombstone_age_secs (m : t S) (namespace : string) : N :=
  match workspace_manager m with
  | Some wm =>
      match get_workspace_for_namespace namespace wm with
      | Some w => (rp_tombstone_retention_ms (w_retention_policy w) / 1000)%N
      | None => 86400%N
      end
  | None => 86400%N
  end.

Definition run_lifecycle (now_ms storage_ms : N) (namespace : string) : M LifecycleStats :=
  age ← sm_gets (λ m, tombstone_age_secs m namespace);
  tombstones ← on_storage (list_tombstoned_documents storage_ms namespace age);
  for_each (λ '(d, r), try_fault (on_storage (delete_document d r));; mret tt) tombstones;;
  let events := map (λ '(d, r), Event d r SegDeleted now_ms) tombstones in
  rw_lock Panicked stats;;
  sm_modify (on_stats (with_last_lifecycle now_ms));;
  mret (LcStats (N.of_nat (length tombstones)) events).

Definition get_stats : M StorageStats := rw_lock Panicked stats.

Definition run_resource_sweep (now_ms : N) : M ResourceManagerStats :=
  r ← sm_gets (λ m, sweep now_ms (resource_manager m));
  sm_modify (on_resources (λ _, r.2));;
  mret r.1.
End manager.
End StorageManager.

(** ** The manager over a healthy storage *)

Import StorageManager.

Section theory.
Context {S : Type} {HS : Storage S} {HSpec : StorageSpec S}.
Implicit Types (m : t S).

Definition m_docs m : gmap doc_key bytes := a_docs (st_view (storage m)).
Definition m_log m : list OplogEntry := a_log (st_view (storage m)).
Definition m_healthy m : Prop := st_healthy (storage m) ∧ rw_poisoned (stats m) = false.

Lemma manager_on_storage_ok {A} (op : SM S VaultSyncError A) res f m :
  refines_op st_view st_healthy op res f → st_healthy (storage m) →
  ∃ s', on_storage op m = (Ok (res (st_view (storage m))), set_storage s' m) ∧
    st_view s' = f (st_view (storage m)) ∧ st_healthy s'.
Proof.
  intros Hop Hh. destruct (Hop (storage m)) as [Hok _]. destruct (Hok Hh) as (s' & Hrun & Hv & Hh').
  exists s'. unfold on_storage, zoom, may_fault, sm_map_err. by rewrite Hrun.
Qed.

Lemma on_storage_keys (op : SM S VaultSyncError (list doc_key)) p m :
  lists_keys st_view st_healthy op p → st_healthy (storage m) →
  ∃ keys s', on_storage op m = (Ok keys, set_storage s' m) ∧ st_view s' = st_view (storage m) ∧ st_healthy s' ∧
    ∀ key, key ∈ keys ↔ key ∈ map entry_key (filterb p (m_log m)).
Proof.
  intros Hop Hh. destruct (Hop (storage m) Hh) as (keys & s' & Hrun & Hv & Hh' & Hk).
  exists keys, s'. unfold on_storage, zoom, may_fault, sm_map_err. by rewrite Hrun.
Qed.

(** The clean-up loop deletes the documents it is given and nothing else. *)
Lemma delete_all_ok keys m : st_healthy (storage m) →
  ∃ s', for_each (λ '(d, r), try_fault (on_storage (delete_document d r));; mret tt) keys m =
      ((Ok tt : result unit (fault VaultSyncError)), set_storage s' m) ∧
    a_log (st_view s') = m_log m ∧ st_healthy s' ∧
    ∀ key, a_docs (st_view s') !! key = if decide (key ∈ keys) then None else m_docs m !! key.
Proof.
  revert m. induction keys as [|[d r] keys IH]; intros m Hh.
  { exists (storage m). by destruct m. }
  destruct (manager_on_storage_ok _ _ _ m (delete_document_ok d r) Hh) as (s1 & Hrun & Hv & Hh1).
  destruct (IH (set_storage s1 m) Hh1) as (s' & Hloop & Hlog & Hh' & Hdocs). exists s'.
  cbn [for_each]. split_and!.
  - assert (Hd : (try_fault (on_storage (delete_document d r));; mret tt) m =
      ((Ok tt : result unit (fault VaultSyncError)), set_storage s1 m)).
    { erewrite sm_bind_ok; [reflexivity|]. unfold try_fault. by rewrite Hrun. }
    rewrite (sm_bind_ok _ _ _ _ _ Hd). exact Hloop.
  - rewrite Hlog. unfold m_log. simpl. by rewrite Hv.
  - done.
  - intros key. rewrite Hdocs. unfold m_docs. simpl. rewrite Hv. simpl.
    destruct (decide (key = (d, r))) as [->|Hne].
    + rewrite lookup_delete_eq. rewrite (decide_True (P:=(d, r) ∈ (d, r) :: keys)) by left. by case_decide.
    + rewrite lookup_delete_ne by done. repeat case_decide; set_solver.
Qed.

(** The documents a clean-up removes: those with a synchronized deletion older
    than the retention time. *)
Definition old_deletions (storage_ms : N) (ns : string) m : list doc_key :=
  map entry_key (filterb
    (synced_delete ns (saturating_sub storage_ms (wrapping_mul64 (tombstone_age_secs m ns) 1000))) (m_log m)).

Lemma run_lifecycle_ok now sms ns m : m_healthy m → ∃ tombs s',
  run_lifecycle now sms ns m =
    (Ok (LcStats (N.of_nat (length tombs)) (map (λ '(d, r), Event d r SegDeleted now) tombs)),
     on_stats (with_last_lifecycle now) (set_storage s' m)) ∧
  (∀ key, key ∈ tombs ↔ key ∈ old_deletions sms ns m) ∧ st_healthy s' ∧ a_log (st_view s') = m_log m ∧
  ∀ key, a_docs (st_view s') !! key = if decide (key ∈ old_deletions sms ns m) then None else m_docs m !! key.
Proof.
  intros [Hh Hst].
  destruct (on_storage_keys _ _ m (list_tombstoned_ok sms ns (tombstone_age_secs m ns)) Hh)
    as (tombs & s1 & Hrun & Hv & Hh1 & Hk).
  destruct (delete_all_ok tombs (set_storage s1 m) Hh1) as (s' & Hloop & Hlog & Hh' & Hdocs).
  exists tombs, s'. unfold old_deletions. split_and!; [|done|done| |].
  - unfold run_lifecycle. erewrite sm_bind_ok by reflexivity. rewrite (sm_bind_ok _ _ _ _ _ Hrun).
    rewrite (sm_bind_ok _ _ _ _ _ Hloop). sm_unfold. unfold rw_lock. simpl. by rewrite Hst.
  - rewrite Hlog. unfold m_log. simpl. by rewrite Hv.
  - intros key. rewrite Hdocs. unfold m_docs. simpl. rewrite Hv.
    destruct (decide (key ∈ tombs)) as [Hin|Hin], (decide (key ∈ map entry_key _)) as [Hin'|Hin']; try done;
      exfalso; naive_solver.
Qed.

(** The clean-up of a namespace removes exactly the documents for which
    the log holds a synchronized deletion older than the retention time of the
    namespace's workspace (a day without one), reports each of them as deleted,
    and changes neither the log nor any other document. *)
Theorem run_lifecycle_exact now sms ns m : m_healthy m →
  ∃ report m', run_lifecycle now sms ns m = (Ok report, m') ∧ m_healthy m' ∧
    m_log m' = m_log m ∧
    (∀ key, m_docs m' !! key = if decide (key ∈ old_deletions sms ns m) then None else m_docs m !! key) ∧
    (∀ d r, Event d r SegDeleted now ∈ ls_events report ↔ (d, r) ∈ old_deletions sms ns m) ∧
    ls_segments_cleaned report = N.of_nat (length (ls_events report)).
Proof.
  intros Hm. destruct (run_lifecycle_ok now sms ns m Hm) as (tombs & s' & Hrun & Hk & Hh & Hlog & Hdocs).
  eexists _, _. split; [exact Hrun|]. split_and!; [by destruct Hm|done|done| |simpl; by rewrite length_map].
  intros d r. simpl. rewrite <-Hk. split.
  - intros ([d' r'] & [= -> ->] & ?)%list_elem_of_fmap. done.
  - intros Hin. apply list_elem_of_fmap. by exists (d, r).
Qed.

(** The clean-up does not look at what the document has become since: a
    record that was deleted and inserted again is removed once its old deletion
    passes the retention time, although the insertion stands later in the log
    and the document is stored. *)
Theorem lifecycle_deletes_live_records now sms ns m d r del ins bs before between after :
  m_healthy m → m_log m = before ++ del :: between ++ ins :: after →
  synced_delete ns (saturating_sub sms (wrapping_mul64 (tombstone_age_secs m ns) 1000)) del = true →
  entry_key del = (d, r) → entry_key ins = (d, r) → oe_mutation_type ins = CrdtInsert → m_docs m !! (d, r) = Some bs →
  ∃ report m', run_lifecycle now sms ns m = (Ok report, m') ∧ m_docs m' !! (d, r) = None ∧ m_log m' = m_log m.
Proof.
  intros Hm Hlogm Hdel Hkd _ _ _.
  destruct (run_lifecycle_ok now sms ns m Hm) as (tombs & s' & Hrun & Hk & Hh & Hlog & Hdocs).
  eexists _, _. split; [exact Hrun|]. split; [|done]. unfold m_docs. simpl. rewrite Hdocs, decide_True; [done|].
  unfold old_deletions. apply list_elem_of_fmap. exists del. split; [done|]. apply elem_of_filterb. split; [done|].
  rewrite Hlogm. set_solver.
Qed.

(** ** Reading and writing *)

Definition m_pages m : gmap doc_key PageAccessInfo := rw_val (rm_pages (resource_manager m)).
Definition pages_ok m : Prop := rw_poisoned (rm_pages (resource_manager m)) = false.

Lemma record_access_page d r n now (rm : ResourceManager) : rw_poisoned (rm_pages rm) = false →
  let rm' := record_access d r n now rm in
  rw_poisoned (rm_pages rm') = false ∧
  ∃ p, rw_val (rm_pages rm') !! (d, r) = Some p ∧ pi_last_access_ms p = now ∧
    pi_tier p ≠ RecoverableCold ∧ pi_tier p ≠ Archived ∧
    pi_size_bytes p = from_option pi_size_bytes n (rw_val (rm_pages rm) !! (d, r)).
Proof.
  intros Hp. unfold record_access, record_access_with_context, with_pages, rw_try_update. simpl. rewrite Hp. simpl.
  split; [done|]. destruct (rw_val (rm_pages rm) !! (d, r)) as [p|]; simpl; rewrite lookup_insert_eq;
    eexists; (split; [reflexivity|]); simpl; [|done].
  split; [done|]. case_bool_decide as Ht; [done|]. naive_solver.
Qed.

Lemma write_document_ok now d r bs opts m : m_healthy m →
  ∃ s', write_document now d r bs opts m =
      (Ok tt, set_storage s' (on_resources (record_access d r (N.of_nat (length bs)) now) m)) ∧ st_healthy s' ∧
    a_docs (st_view s') = <[(d, r) := bs]> (m_docs m) ∧ a_log (st_view s') = m_log m ++ option_list (wo_oplog_entry opts).
Proof.
  intros [Hh _]. unfold write_document. erewrite sm_bind_ok by reflexivity.
  set (m0 := on_resources _ m). destruct (wo_oplog_entry opts) as [e|].
  - destruct (manager_on_storage_ok _ _ _ m0 (write_document_and_oplog_ok d r bs e) Hh) as (s' & Hrun & Hv & Hh').
    exists s'. rewrite Hrun, Hv. done.
  - destruct (manager_on_storage_ok _ _ _ m0 (insert_document_ok d r bs) Hh) as (s' & Hrun & Hv & Hh').
    exists s'. rewrite Hrun, Hv. simpl. by rewrite app_nil_r.
Qed.

Lemma read_document_ok now d r m bs : m_healthy m → m_docs m !! (d, r) = Some bs →
  ∃ s', read_document now d r m =
      (Ok (Some bs), on_resources (record_access d r (N.of_nat (length bs)) now) (set_storage s' m)) ∧
    st_healthy s' ∧ st_view s' = st_view (storage m).
Proof.
  intros [Hh _] Hd. destruct (manager_on_storage_ok _ _ _ m (get_document_ok d r) Hh) as (s' & Hrun & Hv & Hh').
  exists s'. fold (m_docs m) in Hrun. rewrite Hd in Hrun. unfold read_document.
  rewrite (sm_bind_ok _ _ _ _ _ Hrun). done.
Qed.

(** What is written through the manager is what a read returns; the write
    changes no other document and logs exactly the entry it was given, and the
    page counts as accessed at the time of the read and is resident or warm. *)
Theorem managed_write_then_read now now' d r bs opts m : m_healthy m → pages_ok m →
  ∃ m1 m2 p, write_document now d r bs opts m = (Ok tt, m1) ∧ read_document now' d r m1 = (Ok (Some bs), m2) ∧
    m_docs m2 = <[(d, r) := bs]> (m_docs m) ∧ m_log m2 = m_log m ++ option_list (wo_oplog_entry opts) ∧
    m_pages m2 !! (d, r) = Some p ∧ pi_last_access_ms p = now' ∧ pi_tier p ≠ RecoverableCold ∧ pi_tier p ≠ Archived.
Proof.
  intros Hm Hp. destruct (write_document_ok now d r bs opts m Hm) as (s1 & Hw & Hh1 & Hd1 & Hl1).
  set (m1 := set_storage s1 _) in *.
  assert (Hm1 : m_healthy m1) by (split; [exact Hh1|apply Hm]).
  destruct (read_document_ok now' d r m1 bs Hm1) as (s2 & Hr & Hh2 & Hv2).
  { unfold m_docs. simpl. by rewrite Hd1, lookup_insert_eq. }
  destruct (record_access_page d r (N.of_nat (length bs)) now _ Hp) as [Hp1 _].
  destruct (record_access_page d r (N.of_nat (length bs)) now' _ Hp1) as (_ & p & Hpg & Hla & Hc & Ha & _).
  eexists m1, _, p. split_and!; [exact Hw|exact Hr| | |exact Hpg|exact Hla|exact Hc|exact Ha].
  - unfold m_docs at 1. simpl. by rewrite Hv2.
  - unfold m_log at 1. simpl. by rewrite Hv2.
Qed.

(** The size the resource manager keeps for a page is that of the first
    access: writing a document of another size through the manager does not
    change it. *)
Theorem page_size_goes_stale now d r bs opts m p : m_healthy m → pages_ok m → m_pages m !! (d, r) = Some p →
  ∃ m' p', write_document now d r bs opts m = (Ok tt, m') ∧ m_docs m' !! (d, r) = Some bs ∧
    m_pages m' !! (d, r) = Some p' ∧ pi_size_bytes p' = pi_size_bytes p.
Proof.
  intros Hm Hp Hpage. destruct (write_document_ok now d r bs opts m Hm) as (s1 & Hw & Hh1 & Hd1 & Hl1).
  destruct (record_access_page d r (N.of_nat (length bs)) now _ Hp) as (_ & p' & Hpg & _ & _ & _ & Hsz).
  eexists _, p'. split_and!; [exact Hw| |exact Hpg|].
  - unfold m_docs. simpl. by rewrite Hd1, lookup_insert_eq.
  - rewrite Hsz. unfold m_pages in Hpage. by rewrite Hpage.
Qed.

(** ** The compaction report *)

Context (crc32 : bytes → N).

Lemma snapshot_all_ok now docs acc m : st_healthy (storage m) → ∃ res s',
  snapshot_all crc32 now docs acc m = (Ok res, set_storage s' m) ∧ st_view s' = st_view (storage m) ∧ st_healthy s'.
Proof.
  revert acc m. induction docs as [|[d r] docs IH]; intros [n snaps] m Hh.
  { exists (n, snaps), (storage m). by destruct m. }
  destruct (manager_on_storage_ok _ _ _ m (get_document_ok d r) Hh) as (s1 & Hrun & Hv & Hh1).
  assert (Ht : try_fault (on_storage (get_document d r)) m = (Ok (Ok (m_docs m !! (d, r))), set_storage s1 m)).
  { unfold try_fault. by rewrite Hrun. }
  cbn [snapshot_all]. rewrite (sm_bind_ok _ _ _ _ _ Ht).
  destruct (m_docs m !! (d, r)) as [bs|].
  - destruct (IH (wrapping_add64 n 1, snaps ++ [SnapMeta (wrapping_add64 n 1) d r (crc32 bs) (N.of_nat (length bs)) now])
      (set_storage s1 m) Hh1) as (res & s' & Hres & Hv' & Hh'). exists res, s'.
    split; [exact Hres|]. split; [|done]. rewrite Hv'. exact Hv.
  - destruct (IH (n, snaps) (set_storage s1 m) Hh1) as (res & s' & Hres & Hv' & Hh'). exists res, s'.
    split; [exact Hres|]. split; [|done]. rewrite Hv'. exact Hv.
Qed.

Lemma should_compact_ok instant total tombs e : rw_poisoned (ce_last_run e) = false →
  ∃ d, should_compact instant total tombs e = (Ok d, e).
Proof.
  intros He. unfold should_compact. case_match; [by eexists|]. sm_unfold. unfold rw_lock. rewrite He.
  destruct (rw_val (ce_last_run e)); repeat case_match; simplify_eq; by eexists.
Qed.

(** The compaction of a namespace only reports: the documents and the log
    are as before, whatever number of removed deletions the report gives, and
    the engine does not remember the run, so that the configured interval never
    delays the next one. *)
Theorem compact_namespace_reports_only now sms instant elapsed ns m : m_healthy m →
  rw_poisoned (ce_last_run (compaction m)) = false →
  ∃ report m', compact_namespace crc32 now sms instant elapsed ns m = (Ok report, m') ∧ m_healthy m' ∧
    m_docs m' = m_docs m ∧ m_log m' = m_log m ∧ compaction m' = compaction m.
Proof.
  intros [Hh Hst] Hrun0.
  destruct (on_storage_keys _ _ m (list_active_ok ns) Hh) as (act & s1 & Hact & Hv1 & Hh1 & _).
  destruct (on_storage_keys _ _ (set_storage s1 m) (list_tombstoned_ok sms ns 0) Hh1) as (tombs & s2 & Htomb & Hv2 & Hh2 & _).
  destruct (should_compact_ok instant (N.of_nat (length act)) (N.of_nat (length tombs)) (compaction m) Hrun0) as [dec Hdec].
  assert (Hz : zoom compaction set_engine
    (should_compact instant (N.of_nat (length act)) (N.of_nat (length tombs))) (set_storage s2 m) = (Ok dec, set_storage s2 m)).
  { unfold zoom. simpl. rewrite Hdec. by destruct m. }
  unfold compact_namespace. rewrite (sm_bind_ok _ _ _ _ _ Hact), (sm_bind_ok _ _ _ _ _ Htomb).
  change (set_storage s2 (set_storage s1 m)) with (set_storage s2 m). rewrite (sm_bind_ok _ _ _ _ _ Hz).
  assert (Hv : st_view s2 = st_view (storage m)) by (rewrite Hv2; exact Hv1).
  destruct (negb (cd_should_run dec)).
  - eexists _, _. split; [reflexivity|]. unfold m_docs, m_log. simpl. by rewrite Hv.
  - destruct (snapshot_all_ok now act (0%N, []) (set_storage s2 m) Hh2) as (acc & s3 & Hacc & Hv3 & Hh3).
    rewrite (sm_bind_ok _ _ _ _ _ Hacc). sm_unfold. unfold rw_lock. simpl. rewrite Hst.
    eexists _, _. split; [reflexivity|]. unfold m_docs, m_log, m_healthy. simpl. rewrite Hv3. simpl. by rewrite Hv.
Qed.
End theory.

(** ** A record deleted, synchronized and inserted again *)

Definition sample_deletion : OplogEntry :=
  OplogEntry_new "e1" "alice" "ns" CrdtDelete "todos" "r1" [] None 1000 (Some 1%N) Synced (Some 2%N) 1000 1 ODelete "".
Definition sample_insertion : OplogEntry :=
  OplogEntry_new "e2" "alice" "ns" CrdtInsert "todos" "r1" [] None 2000 (Some 2%N) Synced (Some 3%N) 2000 1 OInsert "".
Definition sample_manager : t InMemoryStorage.t :=
  on_resources (record_access "todos" "r1" 3 2000) (manager_new sample_log2
    (InMemoryStorage.mk (rw_new {[("todos", "r1") := [1; 2; 3]%N; ("todos", "r2") := [4%N]]})
      (rw_new [sample_deletion; sample_insertion]) (rw_new ∅) (rw_new ∅) (rw_new []) (rw_new [])) policy_default).

Lemma sample_manager_healthy : m_healthy sample_manager.
Proof. split; [split|]; reflexivity. Qed.

Lemma run_lifecycle_exact_witness :
  ∃ report m', run_lifecycle 90000000 90000000 "ns" sample_manager = (Ok report, m') ∧
    m_docs m' !! ("todos", "r2") = Some [4%N] ∧ ls_segments_cleaned report = 1%N.
Proof.
  destruct (run_lifecycle_exact 90000000 90000000 "ns" sample_manager sample_manager_healthy)
    as (report & m' & Hrun & _ & _ & Hdocs & _). exists report, m'. split; [exact Hrun|]. split.
  - rewrite Hdocs. rewrite decide_False; [reflexivity|]. apply (bool_decide_unpack _). vm_compute. exact I.
  - apply (f_equal fst) in Hrun. vm_compute in Hrun. injection Hrun as <-. reflexivity.
Defined.

Lemma lifecycle_deletes_live_records_witness :
  m_docs sample_manager !! ("todos", "r1") = Some [1; 2; 3]%N ∧
  ∃ report m', run_lifecycle 90000000 90000000 "ns" sample_manager = (Ok report, m') ∧
    m_docs m' !! ("todos", "r1") = None.
Proof.
  split; [reflexivity|].
  destruct (lifecycle_deletes_live_records 90000000 90000000 "ns" sample_manager "todos" "r1" sample_deletion
    sample_insertion [1; 2; 3]%N [] [] [] sample_manager_healthy) as (report & m' & Hrun & Hnone & _); [reflexivity..|].
  exists report, m'. split; [exact Hrun|exact Hnone].
Defined.

Lemma compact_namespace_reports_only_witness :
  ∃ report m', compact_namespace (λ _, 7%N) 90000000 90000000 5 1 "ns" sample_manager = (Ok report, m') ∧
    m_docs m' = m_docs sample_manager ∧ cst_tombstones_removed report = 1%N.
Proof.
  destruct (compact_namespace_reports_only (λ _, 7%N) 90000000 90000000 5 1 "ns" sample_manager sample_manager_healthy
    eq_refl) as (report & m' & Hrun & _ & Hdocs & _). exists report, m'. split; [exact Hrun|]. split; [exact Hdocs|].
  apply (f_equal fst) in Hrun. vm_compute in Hrun. injection Hrun as <-. reflexivity.
Defined.

Lemma managed_write_then_read_witness :
  ∃ m1 m2, write_document 10 "todos" "r3" [9%N] options_default sample_manager = (Ok tt, m1) ∧
    read_document 11 "todos" "r3" m1 = (Ok (Some [9%N]), m2).
Proof.
  destruct (managed_write_then_read 10 11 "todos" "r3" [9%N] options_default sample_manager sample_manager_healthy
    eq_refl) as (m1 & m2 & p & Hw & Hr & _). exists m1, m2. split; [exact Hw|exact Hr].
Defined.

Lemma page_size_goes_stale_witness :
  ∃ m' p', write_document 3000 "todos" "r1" [9%N] options_default sample_manager = (Ok tt, m') ∧
    m_pages m' !! ("todos", "r1") = Some p' ∧ pi_size_bytes p' = 3%N.
Proof.
  destruct (m_pages sample_manager !! ("todos", "r1")) as [p|] eqn:Hp; [|vm_compute in Hp; discriminate].
  destruct (page_size_goes_stale 3000 "todos" "r1" [9%N] options_default sample_manager p sample_manager_healthy
    eq_refl Hp) as (m' & p' & Hw & _ & Hp' & Hsz). exists m', p'. split; [exact Hw|]. split; [exact Hp'|].
  rewrite Hsz. vm_compute in Hp. injection Hp as <-. reflexivity.
Defined.
