(* ===== verification/ReplicationPlanner.v ===== *)
(** * Planning replication

    [replication/planner.rs], [replication/priority.rs] and
    [replication/network.rs]: the pending mutations in the order of their
    priority within a byte budget, the range to pull, the prediction of the
    next documents and the bandwidth estimate.  [BinaryHeap] leaves the order of
    equal elements open, so a pop is a relation. *)
From S2P Require Import Prelude Types F64.
From Stdlib Require Import SpecFloat.

Module ReplicationPlanner.

(** ** Priorities *)

Inductive Priority := Low | Normal | High | Critical.

Definition numeric (p : Priority) : nat := match p with Low => 0 | Normal => 1 | High => 2 | Critical => 3 end.

Record PriorityItem := Item {
  it_doc_id : string;
  it_record_id : string;
  it_priority : Priority;
  it_size_bytes : N;
}.

(** The contents of the heap of a [PriorityMutationQueue]. *)
Definition PriorityMutationQueue := list PriorityItem.

Definition queue_push (item : PriorityItem) (q : PriorityMutationQueue) : PriorityMutationQueue := item :: q.

(** [pop] takes a greatest element. *)
Inductive queue_pop : PriorityMutationQueue → option PriorityItem → PriorityMutationQueue → Prop :=
  | pop_empty : queue_pop [] None []
  | pop_greatest q x q' : q ≡ₚ x :: q' →
      (∀ y, y ∈ q' → (numeric (it_priority y) ≤ numeric (it_priority x))%nat) → queue_pop q (Some x) q'.

(** [drain]: pop until the heap is empty. *)
Inductive queue_drain : PriorityMutationQueue → list PriorityItem → PriorityMutationQueue → Prop :=
  | drain_done q q' : queue_pop q None q' → queue_drain q [] q'
  | drain_more q x q' items q'' : queue_pop q (Some x) q' → queue_drain q' items q'' → queue_drain q (x :: items) q''.

(** ** The network *)

Inductive NetworkTier := NetOffline | Cellular | WiFi | Ethernet.

Record NetworkMonitor := Monitor {
  nm_current_tier : NetworkTier;
  nm_latency_ms : option N;
  nm_packet_loss_rate : f64;
}.

Definition monitor_new : NetworkMonitor := Monitor WiFi None (f64_of_N 0).
Definition set_tier (t : NetworkTier) (n : NetworkMonitor) : NetworkMonitor := Monitor t (nm_latency_ms n) (nm_packet_loss_rate n).
Definition set_latency (ms : N) (n : NetworkMonitor) : NetworkMonitor :=
  Monitor (nm_current_tier n) (Some ms) (nm_packet_loss_rate n).

(** [f64::clamp]: not-a-number stays. *)
Definition f64_clamp (x lo hi : f64) : f64 := if f64_ltb x lo then lo else if f64_ltb hi x then hi else x.
Definition set_packet_loss (rate : f64) (n : NetworkMonitor) : NetworkMonitor :=
  Monitor (nm_current_tier n) (nm_latency_ms n) (f64_clamp rate (f64_of_N 0) (f64_of_N 1)).

Definition is_reliable (n : NetworkMonitor) : bool :=
  f64_ltb (nm_packet_loss_rate n) (f64_lit 5 100) &&
  match nm_latency_ms n with Some l => (l <? 200)%N | None => true end.

Record BandwidthEstimator := Bandwidth {
  bw_samples : list (N * N);
  bw_max_samples : nat;
}.

Definition bandwidth_new : BandwidthEstimator := Bandwidth [] 10.

Definition record_sample (bytes duration_ms : N) (b : BandwidthEstimator) : BandwidthEstimator :=
  if (0 <? duration_ms)%N then
    let samples := bw_samples b ++ [(bytes, duration_ms)] in
    Bandwidth (if (bw_max_samples b <? length samples)%nat then tail samples else samples) (bw_max_samples b)
  else b.

(** Sums and products of [u64]. *)
Definition sum64 (l : list N) : N := foldl wrapping_add64 0%N l.

Definition estimated_bps (b : BandwidthEstimator) : N :=
  match bw_samples b with
  | [] => 1000000
  | samples =>
      let total_bytes := sum64 (map fst samples) in
      let total_ms := sum64 (map snd samples) in
      if (0 <? total_ms)%N then (wrapping_mul64 total_bytes 1000 / total_ms)%N else 1000000
  end.

Definition bandwidth_clear (b : BandwidthEstimator) : BandwidthEstimator := Bandwidth [] (bw_max_samples b).

(** ** The planner *)

Record MutationRef := Mutation {
  mu_doc_id : string;
  mu_record_id : string;
  mu_sequence : N;
  mu_priority : Priority;
  mu_size_bytes : N;
}.

Record PullRange := Range { pr_from_sequence : N; pr_to_sequence : N; pr_estimated_bytes : N }.

Record SnapshotRef := SnapRef { sr_doc_id : string; sr_record_id : string; sr_segment_id : string; sr_size_bytes : N }.

Record ReplicationPlan := Plan {
  pl_priority_mutations : list MutationRef;
  pl_background_pull : PullRange;
  pl_snapshot_opportunities : list SnapshotRef;
  pl_estimated_duration_ms : N;
  pl_estimated_bytes : N;
}.

Inductive Urgency := ULow | UMedium | UHigh | UCritical.

Record QueryObservation := QueryObs { qo_workspace_id : option N; qo_filter_hash : N; qo_timestamp_ms : N }.
Record DocumentObservation := DocObs {
  do_doc_id : string;
  do_record_id : string;
  do_access_time_ms : N;
  do_workspace_id : option N;
}.

Record ObservationBuffer := Observations {
  ob_recent_queries : list QueryObservation;
  ob_recent_documents : list DocumentObservation;
  ob_max_observations : nat;
}.

Record t := mk {
  network : rwlock NetworkMonitor;
  bandwidth : rwlock BandwidthEstimator;
  pending_mutations : rwlock (list MutationRef);
  observed_patterns : rwlock ObservationBuffer;
}.

Definition new : t :=
  mk (rw_new monitor_new) (rw_new bandwidth_new) (rw_new []) (rw_new (Observations [] [] (N.to_nat 1000))).

(** [push], then [remove(0)] when the bound is passed. *)
Definition push_bounded {A} (bound : nat) (a : A) (l : list A) : list A :=
  let l := l ++ [a] in if (bound <? length l)%nat then tail l else l.

Definition observe_query (workspace_id : option N) (filter_hash now_ms : N) (p : t) : t :=
  mk (network p) (bandwidth p) (pending_mutations p)
    (rw_try_update (λ o, Observations
      (push_bounded (ob_max_observations o) (QueryObs workspace_id filter_hash now_ms) (ob_recent_queries o))
      (ob_recent_documents o) (ob_max_observations o)) (observed_patterns p)).

Definition observe_document_access (doc_id record_id : string) (workspace_id : option N) (now_ms : N) (p : t) : t :=
  mk (network p) (bandwidth p) (pending_mutations p)
    (rw_try_update (λ o, Observations (ob_recent_queries o)
      (push_bounded (ob_max_observations o) (DocObs doc_id record_id now_ms workspace_id) (ob_recent_documents o))
      (ob_max_observations o)) (observed_patterns p)).

(** The loop of [predict_next_documents], over the observations from the last
    to the first. *)
Fixpoint predict_loop (limit : nat) (obs : list DocumentObservation) (seen : list (string * string)) :
    list (string * string) :=
  match obs with
  | [] => seen
  | o :: obs =>
      let key := (do_doc_id o, do_record_id o) in
      if bool_decide (key ∈ seen) then predict_loop limit obs seen
      else
        let seen := seen ++ [key] in
        if (limit <=? length seen)%nat then seen else predict_loop limit obs seen
  end.

Definition predict_next_documents (limit : nat) (p : t) : list (string * string) :=
  match rw_ok (observed_patterns p) with
  | None => []
  | Some o => predict_loop limit (reverse (ob_recent_documents o)) []
  end.

Definition on_pending (f : list MutationRef → list MutationRef) (p : t) : t :=
  mk (network p) (bandwidth p) (rw_try_update f (pending_mutations p)) (observed_patterns p).

Definition add_pending_mutation (m : MutationRef) (p : t) : t := on_pending (λ l, l ++ [m]) p.
Definition clear_pending (p : t) : t := on_pending (λ _, []) p.
Definition pending_count (p : t) : nat := default 0%nat (length <$> rw_ok (pending_mutations p)).

(** [b.priority.cmp(&a.priority)]: the greater priority first. *)
Definition urgent_first (a b : MutationRef) : Prop := (numeric (mu_priority b) ≤ numeric (mu_priority a))%nat.
#[export] Instance urgent_first_dec : RelDecision urgent_first.
Proof. intros a b. unfold urgent_first. apply _. Defined.

Definition pull_range (local_cursor server_max_sequence remaining_budget : N) : PullRange :=
  if (local_cursor <? server_max_sequence)%N then
    let from := wrapping_add64 local_cursor 1 in
    let to := server_max_sequence in
    Range from to (N.min (wrapping_mul64 (to - from) 512) remaining_budget)
  else Range local_cursor local_cursor 0.

(** A poisoned lock is entered all the same ([into_inner]); the sorted vector
    stays in the planner. *)
Definition compute_plan (local_cursor server_max_sequence budget_bytes : N) (p : t) : ReplicationPlan * t :=
  let bps := match rw_ok (bandwidth p) with Some b => estimated_bps b | None => 1000000%N end in
  let pending := stable_sort urgent_first (rw_val (pending_mutations p)) in
  let chosen := take_within mu_size_bytes budget_bytes 0 pending in
  let total_bytes := foldl (λ n m, wrapping_add64 n (mu_size_bytes m)) 0%N chosen in
  let remaining_budget := saturating_sub budget_bytes total_bytes in
  (Plan chosen (pull_range local_cursor server_max_sequence remaining_budget) []
     (if (0 <? bps)%N then (wrapping_mul64 total_bytes 1000 / bps)%N else 0%N) total_bytes,
   mk (network p) (bandwidth p) (rw_set pending (pending_mutations p)) (observed_patterns p)).

Definition on_network_change (tier : NetworkTier) (p : t) : t :=
  mk (rw_try_update (set_tier tier) (network p)) (bandwidth p) (pending_mutations p) (observed_patterns p).
Definition on_bandwidth_change (bps : N) (p : t) : t :=
  mk (network p) (rw_try_update (record_sample bps 1000) (bandwidth p)) (pending_mutations p) (observed_patterns p).

Definition hint_prefetch (doc_id record_id : string) (urgency : Urgency) (size_bytes : N) (p : t) : t :=
  let priority := match urgency with ULow => Low | UMedium => Normal | UHigh => High | UCritical => Critical end in
  add_pending_mutation (Mutation doc_id record_id 0 priority size_bytes) p.
End ReplicationPlanner.

Import ReplicationPlanner.

(** ** The plan *)

#[local] Instance urgent_first_total : Total urgent_first.
Proof. intros a b. unfold urgent_first. lia. Qed.
#[local] Instance urgent_first_trans : Transitive urgent_first.
Proof. intros a b c. unfold urgent_first. lia. Qed.

Lemma sum_wrapping l n : (n + sum_of mu_size_bytes l ≤ U64_MAX)%N →
  foldl (λ n m, wrapping_add64 n (mu_size_bytes m)) n l = (n + sum_of mu_size_bytes l)%N.
Proof.
  revert n. induction l as [|m l IH]; simpl; intros n Hmax; [lia|]. fold (sum_of mu_size_bytes l) in *.
  rewrite wrapping_add64_small by lia. rewrite IH by lia. lia.
Qed.

(** A replication plan takes pending mutations in the order of their
    priority, and in the order they were added within one, as long as they fit
    the budget: everything taken is at least as urgent as everything left, the
    bytes reported are those taken, and the first mutation left does not fit.
    No mutation is dropped from the planner, and the range to pull is all that
    lies between the cursor and the server's last sequence. *)
Theorem plan_most_urgent cursor server budget p :
  let pending := rw_val (pending_mutations p) in
  (sum_of mu_size_bytes pending ≤ U64_MAX)%N → (cursor < U64_MAX)%N →
  let '(plan, p') := compute_plan cursor server budget p in
  let chosen := pl_priority_mutations plan in
  ∃ rest, rw_val (pending_mutations p') = chosen ++ rest ∧ chosen ++ rest ≡ₚ pending ∧
    (∀ level, filterb (λ m, (numeric (mu_priority m) =? level)%nat) (chosen ++ rest) =
      filterb (λ m, (numeric (mu_priority m) =? level)%nat) pending) ∧
    (∀ a b, a ∈ chosen → b ∈ rest → urgent_first a b) ∧
    pl_estimated_bytes plan = sum_of mu_size_bytes chosen ∧ (sum_of mu_size_bytes chosen ≤ budget)%N ∧
    (∀ b rest', rest = b :: rest' → (budget < sum_of mu_size_bytes chosen + mu_size_bytes b)%N) ∧
    (∀ s, (cursor < s ≤ server)%N →
      (pr_from_sequence (pl_background_pull plan) ≤ s ≤ pr_to_sequence (pl_background_pull plan))%N).
Proof.
  intros pending Hmax Hcur. unfold compute_plan. fold pending. set (sorted := stable_sort urgent_first pending).
  assert (Hperm : sorted ≡ₚ pending) by apply stable_sort_Permutation.
  assert (Hs : StronglySorted urgent_first sorted) by (apply stable_sort_sorted; apply _).
  destruct (take_within_spec mu_size_bytes budget 0 sorted) as (n & -> & Hn & Hfit & Hmore); [by rewrite Hperm|lia|].
  assert (Htake : (sum_of mu_size_bytes (take n sorted) ≤ U64_MAX)%N).
  { etrans; [apply sum_of_take|]. by rewrite Hperm. }
  exists (drop n sorted). cbn [pl_priority_mutations pl_estimated_bytes pl_background_pull pending_mutations rw_set rw_val].
  rewrite take_drop. split_and!; [done|done| | | |lia| |].
  - intros level. apply stable_sort_class. intros a b Ha%Nat.eqb_eq Hb%Nat.eqb_eq. unfold urgent_first. lia.
  - intros a b Ha Hb. rewrite <-(take_drop n sorted) in Hs. by eapply StronglySorted_app_1_elem_of.
  - by rewrite sum_wrapping.
  - intros b rest' Hdrop. assert (Hb : sorted !! n = Some b).
    { rewrite <-(Nat.add_0_r n), <-lookup_drop, Hdrop. done. }
    pose proof (lookup_lt_Some _ _ _ Hb). specialize (Hmore ltac:(done)).
    rewrite (take_S_r _ _ _ Hb), sum_of_app in Hmore. simpl in Hmore. lia.
  - intros s Hsq. unfold pull_range. destruct (N.ltb_spec cursor server); [|lia]. simpl.
    rewrite wrapping_add64_small by lia. lia.
Qed.

Definition sample_planner : t :=
  hint_prefetch "d" "c" UHigh 60 (hint_prefetch "d" "b" UCritical 30 (hint_prefetch "d" "a" ULow 10 new)).

Lemma plan_most_urgent_witness :
  map mu_record_id (pl_priority_mutations (compute_plan 4 9 50 sample_planner).1) = ["b"] ∧
  (pl_estimated_bytes (compute_plan 4 9 50 sample_planner).1 ≤ 50)%N.
Proof.
  split; [vm_compute; reflexivity|].
  pose proof (plan_most_urgent 4 9 50 sample_planner) as H.
  destruct (compute_plan 4 9 50 sample_planner) as [plan p'].
  destruct H as (rest & _ & _ & _ & _ & Hb & Hle & _); [apply N.leb_le; reflexivity|apply N.ltb_lt; reflexivity|].
  simpl. rewrite Hb. exact Hle.
Defined.

(** ** Predictions *)

(** The first occurrences of a list. *)
Fixpoint first_occurrences (seen l : list (string * string)) : list (string * string) :=
  match l with
  | [] => []
  | k :: l => if bool_decide (k ∈ seen) then first_occurrences seen l else k :: first_occurrences (k :: seen) l
  end.

Lemma first_occurrences_seen seen seen' l : (∀ k, k ∈ seen ↔ k ∈ seen') → first_occurrences seen l = first_occurrences seen' l.
Proof.
  revert seen seen'. induction l as [|k l IH]; simpl; intros seen seen' Heq; [done|].
  rewrite (bool_decide_ext _ _ (Heq k)). case_bool_decide; [by apply IH|]. f_equal. apply IH. set_solver.
Qed.

Lemma predict_loop_spec limit obs seen : (length seen < limit ∨ (seen = [] ∧ limit = 0))%nat →
  predict_loop limit obs seen =
  seen ++ take (Nat.max 1 limit - length seen) (first_occurrences seen (map (λ o, (do_doc_id o, do_record_id o)) obs)).
Proof.
  revert seen. induction obs as [|o obs IH]; simpl; intros seen Hlim.
  { by rewrite take_nil, app_nil_r. }
  case_bool_decide as Hin; [by apply IH|]. rewrite length_app. simpl.
  destruct (Nat.leb_spec limit (length seen + 1)) as [Hle|Hgt].
  - replace (Nat.max 1 limit - length seen)%nat with 1%nat by (destruct Hlim as [?|[-> ->]]; simpl; lia). done.
  - rewrite IH by (rewrite length_app; simpl; lia). rewrite length_app. simpl.
    replace (Nat.max 1 limit - length seen)%nat with (S (Nat.max 1 limit - (length seen + 1)))%nat by lia.
    simpl. rewrite <-app_assoc. simpl. do 3 f_equal. apply first_occurrences_seen. set_solver.
Qed.

(** The predicted documents are the most recently observed distinct ones,
    the latest first, at most [limit] of them, but one where [limit] is zero. *)
Theorem predict_most_recent limit p o : rw_ok (observed_patterns p) = Some o →
  predict_next_documents limit p =
  take (Nat.max 1 limit) (first_occurrences [] (map (λ o, (do_doc_id o, do_record_id o)) (reverse (ob_recent_documents o)))).
Proof.
  intros Ho. unfold predict_next_documents. rewrite Ho, predict_loop_spec.
  - by rewrite Nat.sub_0_r.
  - simpl. destruct limit; [by right|left; lia].
Qed.

Lemma predict_most_recent_witness :
  let p := observe_document_access "d" "a" None 3 (observe_document_access "d" "b" None 2
    (observe_document_access "d" "a" None 1 new)) in
  predict_next_documents 0 p = [("d", "a")] ∧ predict_next_documents 5 p = [("d", "a"); ("d", "b")].
Proof.
  split; [vm_compute; reflexivity|]. erewrite predict_most_recent by reflexivity. vm_compute. reflexivity.
Defined.

(** ** The priority queue *)

Definition more_urgent (a b : PriorityItem) : Prop := (numeric (it_priority b) ≤ numeric (it_priority a))%nat.

(** Draining the queue ends, leaves it empty and returns its contents, the
    most urgent first. *)
Theorem drain_sorted q :
  (∃ items q', queue_drain q items q') ∧
  ∀ items q', queue_drain q items q' → q' = [] ∧ items ≡ₚ q ∧ StronglySorted more_urgent items.
Proof.
  split.
  - remember (length q) as n eqn:Hn. revert q Hn. induction n as [|n IH]; intros q Hn.
    { destruct q; [|done]. exists [], []. repeat constructor. }
    assert (Hmax : ∃ x q', q ≡ₚ x :: q' ∧ ∀ y, y ∈ q' → (numeric (it_priority y) ≤ numeric (it_priority x))%nat).
    { clear IH. destruct q as [|a q]; [done|]. clear Hn. revert a. induction q as [|b q IH]; intros a.
      - exists a, []. split; [done|]. set_solver.
      - destruct (IH b) as (x & q' & Hp & Hle).
        destruct (decide (numeric (it_priority x) ≤ numeric (it_priority a))%nat) as [Hax|Hax].
        + exists a, (b :: q). split; [done|]. intros y Hy. rewrite Hp in Hy. apply elem_of_cons in Hy as [->|Hy]; [done|].
          specialize (Hle y Hy). lia.
        + exists x, (a :: q'). split; [rewrite Hp; apply Permutation_swap|].
          intros y [->|Hy]%elem_of_cons; [lia|]. by apply Hle. }
    destruct Hmax as (x & q' & Hp & Hle). destruct (IH q') as (items & q'' & Hd).
    { apply Permutation_length in Hp. simpl in Hp. lia. }
    exists (x :: items), q''. by eapply drain_more; [constructor|].
  - induction 1 as [q q' Hp|q x q' items q'' Hp Hd (-> & Hperm & Hs)].
    + inversion Hp; subst. split_and!; [done|done|constructor].
    + inversion Hp as [|? ? ? Hq Hle]; subst. split_and!; [done|by rewrite Hperm|].
      constructor; [done|]. apply Forall_forall. intros y Hy. apply Hle. by rewrite <-Hperm.
Qed.
