(* ===== verification/WorkspaceEngine.v ===== *)
(** * Workspace engines

    [storage/workspace_engine.rs]: for each namespace a document store, a
    metadata index and the planner with its scheduler.  The storage an engine
    holds is not used by its operations.  Actions are only logged by the code,
    so carrying one out changes nothing.  The current time is an argument. *)
From S2P Require Import Prelude Types Storage PagePlanning SegmentIndex.

Record WorkspaceEngine := Engine {
  we_namespace : string;
  we_document_store : DocumentStore;
  we_max_pending : nat;
  we_metadata_index : MetadataIndex;
  we_scheduler : SchedulerState;
}.

Definition workspace_engine_new (namespace : string) : WorkspaceEngine :=
  Engine namespace (document_store_new namespace) 100 ∅ [].

Definition we_on_metadata (f : MetadataIndex → MetadataIndex) (e : WorkspaceEngine) : WorkspaceEngine :=
  Engine (we_namespace e) (we_document_store e) (we_max_pending e) (f (we_metadata_index e)) (we_scheduler e).
Definition we_record_read (doc_id : string) (now : N) (e : WorkspaceEngine) : WorkspaceEngine :=
  we_on_metadata (record_read (we_namespace e) doc_id now) e.
Definition we_record_write (doc_id : string) (now : N) (e : WorkspaceEngine) : WorkspaceEngine :=
  we_on_metadata (record_write (we_namespace e) doc_id now) e.

Definition build_metrics (total_bytes idle_ms : N) (e : WorkspaceEngine) : StorageMetrics :=
  Metrics (map (λ s, Page (seg_id s) (seg_byte_size s) (N.of_nat (seg_doc_count s)) true) (ds_segments (we_document_store e)))
    total_bytes 0 (N.of_nat (length (ds_segments (we_document_store e)))) (N.of_nat (we_max_pending e)) 0 idle_ms.

(** [execute_action]: a debug line for every kind of action. *)
Definition execute_action (action : PlanAction) (e : WorkspaceEngine) : result unit VaultSyncError :=
  match action with
  | SplitPage _ => Ok tt
  | MergeDeltas _ _ => Ok tt
  | GarbageCollect _ => Ok tt
  | CreateSnapshot _ => Ok tt
  | FlushManifest => Ok tt
  | EvictPages _ => Ok tt
  end.

Definition with_scheduler (s : SchedulerState) (e : WorkspaceEngine) : WorkspaceEngine :=
  Engine (we_namespace e) (we_document_store e) (we_max_pending e) (we_metadata_index e) s.

Fixpoint tick_loop (now : N) (scheduled : list ScheduledAction) (executed : list PlanAction) :
    SM WorkspaceEngine VaultSyncError (list PlanAction) :=
  match scheduled with
  | [] => mret executed
  | sa :: scheduled =>
      (λ e, (execute_action (sa_action sa) e, e));;
      sm_modify (λ e, with_scheduler (record_execution (we_scheduler e) (sa_action sa) now) e);;
      tick_loop now scheduled (executed ++ [sa_action sa])
  end.

Definition tick (total_bytes idle_ms now : N) : SM WorkspaceEngine VaultSyncError (list PlanAction) :=
  metrics ← sm_gets (build_metrics total_bytes idle_ms);
  scheduler ← sm_gets we_scheduler;
  tick_loop now (schedule scheduler (evaluate metrics) metrics now) [].

(** ** The manager of engines *)

Definition WorkspaceEngineManager := list WorkspaceEngine.

Definition for_namespace (namespace : string) (e : WorkspaceEngine) : bool := bool_decide (we_namespace e = namespace).

(** The position of the engine returned, and the engines. *)
Definition get_or_create (namespace : string) (m : WorkspaceEngineManager) : nat * WorkspaceEngineManager :=
  match list_find (λ e, we_namespace e = namespace) m with
  | Some (pos, _) => (pos, m)
  | None => (length m, m ++ [workspace_engine_new namespace])
  end.
Definition get_engine (namespace : string) (m : WorkspaceEngineManager) : option WorkspaceEngine :=
  head (filterb (for_namespace namespace) m).
Definition remove_engine (namespace : string) (m : WorkspaceEngineManager) : WorkspaceEngineManager :=
  filterb (λ e, negb (for_namespace namespace e)) m.

(** ** What a tick can do *)

Lemma tick_loop_ok now scheduled executed e : ∃ sched,
  tick_loop now scheduled executed e = (Ok (executed ++ map sa_action scheduled), with_scheduler sched e).
Proof.
  revert executed e. induction scheduled as [|sa scheduled IH]; intros executed e.
  { exists (we_scheduler e). simpl. rewrite app_nil_r. by destruct e. }
  destruct (IH (executed ++ [sa_action sa]) (with_scheduler (record_execution (we_scheduler e) (sa_action sa) now) e))
    as (sched & Hrun). exists sched. cbn [tick_loop]. erewrite sm_bind_ok; [|by destruct (sa_action sa)].
  erewrite sm_bind_ok by reflexivity. rewrite Hrun. by rewrite <-app_assoc.
Qed.

Lemma elem_of_update_first {A} (p : A → bool) f l x : x ∈ update_first p f l → x ∈ l ∨ ∃ y, y ∈ l ∧ x = f y.
Proof.
  induction l as [|y l IH]; simpl; [by left|]. destruct (p y).
  - intros [->|Hx]%elem_of_cons; [right; exists y; split; [left|done]|left; by right].
  - intros [->|Hx]%elem_of_cons; [left; by left|]. destruct (IH Hx) as [?|(z & ? & ->)]; [left; by right|].
    right. exists z. split; [by right|done].
Qed.

(** A segment is at most as large as the operations made it. *)
Lemma seg_step_bytes ds op n : (∀ s, s ∈ ds_segments ds → (seg_byte_size s ≤ n)%N) →
  ∀ s, s ∈ ds_segments (seg_step ds op) → (seg_byte_size s ≤ n + 256)%N.
Proof.
  intros Hds s. destruct op as [d key|d]; simpl.
  - unfold add_to_segment. destruct (head _) as [seg|]; simpl.
    + intros [Hs|(y & Hy & ->)]%elem_of_update_first; [apply Hds in Hs; lia|]. simpl. apply Hds in Hy.
      unfold wrapping_add64. pose proof (N.Div0.mod_le (seg_byte_size y + 256) 18446744073709551616). lia.
    + intros [Hs|Hs]%elem_of_app; [apply Hds in Hs; lia|]. apply list_elem_of_singleton in Hs as ->. simpl. lia.
  - unfold remove_document. destruct (index_lookup _ _ _) as [sid|]; simpl; [|intros Hs; apply Hds in Hs; lia].
    intros [Hs|(y & Hy & ->)]%elem_of_update_first; [apply Hds in Hs; lia|]. simpl. apply Hds in Hy. lia.
Qed.

Lemma seg_run_bytes ops ds n : (∀ s, s ∈ ds_segments ds → (seg_byte_size s ≤ n)%N) →
  ∀ s, s ∈ ds_segments (foldl seg_step ds ops) → (seg_byte_size s ≤ n + 256 * N.of_nat (length ops))%N.
Proof.
  revert ds n. induction ops as [|op ops IH]; intros ds n Hds s Hs; simpl in Hs.
  { apply Hds in Hs. lia. }
  apply (IH _ (n + 256)%N) in Hs; [|by apply seg_step_bytes]. cbn [length]. lia.
Qed.

(** No segment needs to be split before it has been added to 31250 times. *)
Lemma no_page_needs_split ns ops total idle e : (N.of_nat (length ops) ≤ 31250)%N →
  we_document_store e = foldl seg_step (document_store_new ns) ops →
  filterb (λ page, pg_is_base page && needs_split page) (sm_pages (build_metrics total idle e)) = [].
Proof.
  intros Hops Hds. apply filterb_none. intros page Hp. simpl in Hp. apply list_elem_of_fmap in Hp as (s & -> & Hs).
  rewrite Hds in Hs. simpl. unfold needs_split, SOFT_SPLIT_BYTES, MAX_ENTRIES_PER_PAGE. simpl.
  pose proof (seg_run_bytes ops (document_store_new ns) 0 (λ s Hs, False_ind _ (not_elem_of_nil s Hs)) s Hs) as Hb.
  destruct (seg_new_inv ns) as (Hi0 & Ht0 & _). destruct (seg_run_inv ops _ _ Hi0 Ht0) as [Hinv _].
  apply list_elem_of_lookup in Hs as [i Hi]. pose proof (si_count _ Hinv i) as Hc. unfold count_at in Hc. rewrite Hi in Hc.
  simpl in Hc. unfold MAX_DOCS_PER_SEGMENT in Hc. apply orb_false_iff. split; apply N.ltb_ge; lia.
Qed.

(** A tick of a new engine never plans a merge, a garbage collection or, in
    the first 31250 operations on its documents, a split: whatever the bytes
    and however many mutations wait, it flushes the manifest when the store has
    been idle for more than thirty seconds and the last flush is not too recent,
    and does nothing else; only the record of the scheduler changes. *)
Theorem tick_only_flushes ns ops total idle now meta sched : (N.of_nat (length ops) ≤ 31250)%N →
  let e := Engine ns (foldl seg_step (document_store_new ns) ops) (we_max_pending (workspace_engine_new ns)) meta sched in
  ∃ executed sched', tick total idle now e = (Ok executed, with_scheduler sched' e) ∧
    executed = if (30000 <? idle)%N && negb (is_on_cooldown sched FlushManifest now) then [FlushManifest] else [].
Proof.
  intros Hops e. unfold tick. erewrite sm_bind_ok by reflexivity. erewrite sm_bind_ok by reflexivity.
  destruct (tick_loop_ok now (schedule (we_scheduler e) (evaluate (build_metrics total idle e)) (build_metrics total idle e) now) [] e)
    as (sched' & Hrun). eexists _, sched'. split; [exact Hrun|]. simpl.
  assert (Hev : evaluate (build_metrics total idle e) = if (30000 <? idle)%N then [FlushManifest] else []).
  { unfold evaluate. by rewrite (no_page_needs_split ns ops). }
  rewrite Hev. unfold schedule. change (we_scheduler e) with sched.
  destruct (30000 <? idle)%N; simpl; [|done]. by destruct (is_on_cooldown sched FlushManifest now).
Qed.

Lemma tick_only_flushes_witness :
  (tick 900000000 31000 5000 (Engine "ns" (foldl seg_step (document_store_new "ns") [SegAdd "d" "p"]) 100 ∅ [])).1 =
    Ok [FlushManifest].
Proof.
  destruct (tick_only_flushes "ns" [SegAdd "d" "p"] 900000000 31000 5000 ∅ []) as (executed & sched' & Hrun & Hex).
  - apply N.leb_le. vm_compute. reflexivity.
  - cbn [we_max_pending workspace_engine_new] in Hrun. rewrite Hrun. simpl. rewrite Hex. vm_compute. reflexivity.
Defined.

(** ** One engine for each namespace *)

(** Creating engines on demand keeps the namespaces distinct, and the engine
    returned is that of the namespace asked for. *)
Lemma get_or_create_ok namespace m : NoDup (we_namespace <$> m) →
  let '(pos, m') := get_or_create namespace m in
  NoDup (we_namespace <$> m') ∧ (∃ e, m' !! pos = Some e ∧ we_namespace e = namespace) ∧
  ∀ i e, m !! i = Some e → m' !! i = Some e.
Proof.
  intros Hnd. unfold get_or_create. destruct (list_find _ m) as [[pos e]|] eqn:Hf.
  - apply list_find_Some in Hf as (Hpos & He & _). split_and!; [done|by exists e|done].
  - apply list_find_None in Hf. split_and!.
    + rewrite fmap_app. apply NoDup_app. split_and!; [done| |apply NoDup_singleton].
      intros x (e & -> & He)%list_elem_of_fmap Hx. apply list_elem_of_singleton in Hx.
      rewrite Forall_forall in Hf. by apply (Hf e).
    + eexists. split; [by apply list_lookup_middle|]. done.
    + intros i e Hi. by apply lookup_app_l_Some.
Qed.
