(* ===== verification/EncryptedStorage.v ===== *)
(** * Storage encrypted with the device key

    [storage/encryption_shim.rs]: a storage that encrypts the documents of
    another one.  It is an implementation of the [Storage] interface over any
    other, and keeps the contract of the one inside for documents within the
    limit of the cipher.  The cipher is that of the interface [Crypto]. *)
From S2P Require Import Prelude Types Storage E2ee E2eeTheory.

Definition ENC_NONCE : bytes := utf8 "vaultsync_00".

Record EncryptedStorage (S : Type) := Encrypted {
  es_inner : S;
  es_device_key : bytes;
}.
Arguments Encrypted {S}.
Arguments es_inner {S}.
Arguments es_device_key {S}.

Section shim.
Context {K : Crypto} {S : Type} {HS : Storage S}.
Abbreviation M := (SM (EncryptedStorage S) VaultSyncError).

Definition storage_encrypt (key data : bytes) : result bytes VaultSyncError :=
  match aead_encrypt key ENC_NONCE data with
  | Ok c => Ok c
  | Err e => Err (EEncryption ("storage encrypt failed: " +:+ e))
  end.

Definition storage_decrypt (key data : bytes) : result bytes VaultSyncError :=
  match aead_decrypt key ENC_NONCE data with
  | Ok m => Ok m
  | Err e => Err (EEncryption ("storage decrypt failed: " +:+ e))
  end.

Definition set_inner (s : S) (e : EncryptedStorage S) : EncryptedStorage S := Encrypted s (es_device_key e).
Definition delegate {A} (op : SM S VaultSyncError A) : M A := zoom es_inner set_inner op.

(** [self.encrypt(..)?] and [self.decrypt(..)?]. *)
Definition lift_key {A} (f : bytes → result A VaultSyncError) : M A := λ e, (f (es_device_key e), e).

Definition enc_insert_document (doc_id record_id : string) (bs : bytes) : M unit :=
  encrypted ← lift_key (λ k, storage_encrypt k bs);
  delegate (insert_document doc_id record_id encrypted).

Definition enc_get_document (doc_id record_id : string) : M (option bytes) :=
  data ← delegate (get_document doc_id record_id);
  match data with
  | Some data => m ← lift_key (λ k, storage_decrypt k data); mret (Some m)
  | None => mret None
  end.

Definition enc_write_document_and_oplog (doc_id record_id : string) (bs : bytes) (entry : OplogEntry) : M unit :=
  encrypted ← lift_key (λ k, storage_encrypt k bs);
  delegate (write_document_and_oplog doc_id record_id encrypted entry).

Definition enc_list_documents (doc_id : string) : M (list (string * bytes)) :=
  docs ← delegate (list_documents doc_id);
  map_each (λ '(rid, data), m ← lift_key (λ k, storage_decrypt k data); mret (rid, m)) docs.

Definition enc_write_batch_reconciliation (docs : list (string * string * bytes)) : M unit :=
  encrypted ← map_each (λ '(d, r, bs), c ← lift_key (λ k, storage_encrypt k bs); mret (d, r, c)) docs;
  delegate (write_batch_reconciliation encrypted).

(** The default methods of the trait, which the shim does not override. *)
Definition enc_pending_count (ns : string) : M nat :=
  l ← delegate (read_pending_oplog ns (N.to_nat 50000));
  mret (length l).
Definition enc_begin_transaction : M Empty_set := sm_fail (EStorage "transactions not supported").

#[export] Instance encrypted_storage : Storage (EncryptedStorage S) := {|
  storage_tx := Empty_set;
  insert_document := enc_insert_document;
  get_document := enc_get_document;
  delete_document d r := delegate (delete_document d r);
  list_documents := enc_list_documents;
  write_document_and_oplog := enc_write_document_and_oplog;
  delete_document_and_oplog d r e := delegate (delete_document_and_oplog d r e);
  append_oplog e := delegate (append_oplog e);
  read_pending_oplog ns limit := delegate (read_pending_oplog ns limit);
  mark_synced now id seq := delegate (mark_synced now id seq);
  mark_failed id msg := delegate (mark_failed id msg);
  read_oplog_after_sequence ns seq := delegate (read_oplog_after_sequence ns seq);
  read_sync_state ns := delegate (read_sync_state ns);
  write_sync_state st := delegate (write_sync_state st);
  read_schema d := delegate (read_schema d);
  write_schema m := delegate (write_schema m);
  list_schemas := delegate list_schemas;
  read_migrations := delegate read_migrations;
  write_migration m := delegate (write_migration m);
  read_keys ns := delegate (read_keys ns);
  write_key k := delegate (write_key k);
  reset_stale_pending now ns ms := delegate (reset_stale_pending now ns ms);
  delete_synced_oplog_older_than now ns secs := delegate (delete_synced_oplog_older_than now ns secs);
  list_tombstoned_documents now ns secs := delegate (list_tombstoned_documents now ns secs);
  update_oplog_encrypted_blob id b := delegate (update_oplog_encrypted_blob id b);
  list_active_documents ns := delegate (list_active_documents ns);
  read_synced_oplog_for_document ns d r := delegate (read_synced_oplog_for_document ns d r);
  delete_synced_oplog_before_timestamp ns d r t := delegate (delete_synced_oplog_before_timestamp ns d r t);
  delete_synced_before ns cutoff := delegate (delete_synced_before ns cutoff);
  write_batch_reconciliation := enc_write_batch_reconciliation;
  pending_count := enc_pending_count;
  begin_transaction := enc_begin_transaction;
  tx_mark_synced := λ tx _ _, match tx with end;
  tx_commit := λ _ tx, match tx with end;
|}.
End shim.

(** ** The shim keeps the contract of the storage inside *)

Section refinement.
Context {K : Crypto} {KS : CryptoSpec K} {S : Type} {HS : Storage S} {HSpec : StorageSpec S}.
Implicit Types (e : EncryptedStorage S).

(** The documents as they are read. *)
Definition plain (key c : bytes) : option bytes :=
  match storage_decrypt key c with Ok m => Some m | Err _ => None end.

Definition decrypted (key : bytes) (a : astore) : astore := AStore (omap (plain key) (a_docs a)) (a_log a).
Definition enc_view e : astore := decrypted (es_device_key e) (st_view (es_inner e)).
Definition enc_healthy e : Prop :=
  st_healthy (es_inner e) ∧ map_Forall (λ _ c, is_Some (plain (es_device_key e) c)) (a_docs (st_view (es_inner e))).

Lemma plain_encrypt key m c : storage_encrypt key m = Ok c → plain key c = Some m.
Proof.
  unfold storage_encrypt, plain, storage_decrypt. destruct (aead_encrypt key ENC_NONCE m) eqn:He; [|done].
  intros [= <-]. by rewrite (aead_decrypt_encrypt _ _ _ _ He).
Qed.

Lemma storage_encrypt_ok key m : (N.of_nat (length m) ≤ aead_limit)%N → ∃ c, storage_encrypt key m = Ok c.
Proof. intros Hm. unfold storage_encrypt. destruct (aead_encrypt_ok key ENC_NONCE m Hm) as [c ->]. eauto. Qed.

(** What [refines_op] says at one state. *)
Definition refines_at {A} (m : SM (EncryptedStorage S) VaultSyncError A) (res : astore → A) (f : astore → astore) e : Prop :=
  (enc_healthy e → ∃ e', m e = (Ok (res (enc_view e)), e') ∧ enc_view e' = f (enc_view e) ∧ enc_healthy e') ∧
  (∀ x e', m e = (Err x, e') → enc_view e' = enc_view e) ∧
  (∀ v e', m e = (Ok v, e') → v = res (enc_view e) ∧ enc_view e' = f (enc_view e)).

Definition readable (key : bytes) (a : astore) : Prop := map_Forall (λ _ c, is_Some (plain key c)) (a_docs a).

(** An operation handed to the storage inside, seen through the decryption. *)
Lemma delegate_at {A} (op : SM S VaultSyncError A) res f (res' : astore → A) f' e :
  refines_op st_view st_healthy op res f →
  (∀ a, res a = res' (decrypted (es_device_key e) a)) →
  (∀ a, decrypted (es_device_key e) (f a) = f' (decrypted (es_device_key e) a)) →
  (∀ a, readable (es_device_key e) a → readable (es_device_key e) (f a)) →
  refines_at (delegate op) res' f' e.
Proof.
  destruct e as [s key]. intros Hop Hres Hf Hall. simpl in *. destruct (Hop s) as (Hok & Herr & Hval).
  unfold refines_at, delegate, zoom, enc_view, enc_healthy. simpl. split_and!.
  - intros [Hh Hd]. destruct (Hok Hh) as (s' & Hrun & Hv & Hh'). rewrite Hrun. eexists. split; [by rewrite Hres|].
    simpl. rewrite Hv. split_and!; [apply Hf|done|]. by apply Hall.
  - intros x e' Hrun. destruct (op s) as [r s'] eqn:Hop'. simplify_eq. simpl. by rewrite (Herr _ _ eq_refl).
  - intros v e' Hrun. destruct (op s) as [r s'] eqn:Hop'. simplify_eq. simpl.
    destruct (Hval _ _ eq_refl) as [-> Hv]. rewrite Hv. split; [apply Hres|apply Hf].
Qed.

(** Operations on the log alone. *)
Lemma delegate_log_ok {A} (op : SM S VaultSyncError A) (g : list OplogEntry → A) (h : list OplogEntry → list OplogEntry) :
  refines_op st_view st_healthy op (λ a, g (a_log a)) (λ a, AStore (a_docs a) (h (a_log a))) →
  refines_op enc_view enc_healthy (delegate op) (λ a, g (a_log a)) (λ a, AStore (a_docs a) (h (a_log a))).
Proof.
  intros Hop e. by apply (delegate_at op (λ a, g (a_log a)) (λ a, AStore (a_docs a) (h (a_log a)))
    (λ a, g (a_log a)) (λ a, AStore (a_docs a) (h (a_log a)))).
Qed.

Lemma delegate_read_ok {A} (op : SM S VaultSyncError A) (g : list OplogEntry → A) :
  refines_op st_view st_healthy op (λ a, g (a_log a)) id →
  refines_op enc_view enc_healthy (delegate op) (λ a, g (a_log a)) id.
Proof. intros Hop e. by apply (delegate_at op (λ a, g (a_log a)) id (λ a, g (a_log a)) id). Qed.

Lemma decrypted_insert key d r m c a : plain key c = Some m →
  decrypted key (a_insert d r c a) = a_insert d r m (decrypted key a).
Proof. intros Hc. unfold decrypted, a_insert. simpl. f_equal. by apply omap_insert_Some. Qed.

Lemma decrypted_delete key d r a : decrypted key (a_delete d r a) = a_delete d r (decrypted key a).
Proof. unfold decrypted, a_delete. simpl. f_equal. apply omap_delete. Qed.

Lemma readable_insert key d r m c a : plain key c = Some m → readable key a → readable key (a_insert d r c a).
Proof. intros Hc Ha. apply map_Forall_insert_2; [rewrite Hc; eauto|done]. Qed.

Lemma readable_delete key d r a : readable key a → readable key (a_delete d r a).
Proof. apply map_Forall_delete. Qed.

(** A document is encrypted, and handed on when that succeeded. *)
Lemma encrypt_then_ok (op : bytes → SM S VaultSyncError unit) (f : bytes → astore → astore) m :
  (N.of_nat (length m) ≤ aead_limit)%N →
  (∀ c, refines_op st_view st_healthy (op c) (λ _, tt) (f c)) →
  (∀ key c a, plain key c = Some m → decrypted key (f c a) = f m (decrypted key a)) →
  (∀ key c a, plain key c = Some m → readable key a → readable key (f c a)) →
  refines_op enc_view enc_healthy (encrypted ← lift_key (λ k, storage_encrypt k m); delegate (op encrypted))
    (λ _, tt) (f m).
Proof.
  intros Hm Hop Hdec Hread e. destruct (storage_encrypt_ok (es_device_key e) m Hm) as [c Hc].
  pose proof (plain_encrypt _ _ _ Hc) as Hp.
  assert (Hl : lift_key (λ k, storage_encrypt k m) e = (Ok c, e)) by (unfold lift_key; by rewrite Hc).
  rewrite (sm_bind_ok _ _ _ _ _ Hl). apply (delegate_at _ (λ _, tt) (f c) (λ _, tt) (f m)); auto.
Qed.

Lemma enc_get_document_ok d r : refines_op enc_view enc_healthy (enc_get_document d r) (λ a, a_docs a !! (d, r)) id.
Proof.
  intros [s key]. destruct (get_document_ok d r s) as (Hok & Herr & Hval). unfold enc_get_document, enc_view, enc_healthy.
  sm_unfold. unfold delegate, zoom, lift_key. simpl. split_and!.
  - intros [Hh Hd]. destruct (Hok Hh) as (s' & Hrun & Hv & Hh'). rewrite Hrun. rewrite lookup_omap. simpl.
    destruct (a_docs (st_view s) !! (d, r)) as [c|] eqn:Hc; simpl.
    + destruct (Hd _ _ Hc) as [m Hm]. rewrite Hm. unfold plain in Hm. destruct (storage_decrypt key c); [|done].
      simplify_eq. eexists. split; [done|]. simpl. rewrite Hv. done.
    + eexists. split; [done|]. simpl. rewrite Hv. done.
  - intros x e' Hrun. destruct (get_document d r s) as [[[c|]|e0] s'] eqn:Hg; simpl in Hrun.
    + destruct (Hval _ _ eq_refl) as [_ Hv]. destruct (storage_decrypt key c); simplify_eq; simpl; by rewrite Hv.
    + done.
    + simplify_eq. simpl. by rewrite (Herr _ _ eq_refl).
  - intros v e' Hrun. destruct (get_document d r s) as [[[c|]|e0] s'] eqn:Hg; simpl in Hrun; [| |done].
    + destruct (Hval _ _ eq_refl) as [Hc Hv]. rewrite lookup_omap. simpl. rewrite <-Hc. simpl. unfold plain.
      destruct (storage_decrypt key c); simplify_eq; simpl; by rewrite Hv.
    + destruct (Hval _ _ eq_refl) as [Hc Hv]. rewrite lookup_omap. simpl. rewrite <-Hc. simplify_eq. simpl. by rewrite Hv.
Qed.

(** The batch is encrypted document by document, and handed on whole. *)
Lemma encrypt_batch_ok e docs : Forall (λ x, (N.of_nat (length x.2) ≤ aead_limit)%N) docs →
  ∃ cs, map_each (λ '(d, r, bs), c ← lift_key (λ k, storage_encrypt k bs); mret (d, r, c)) docs e = (Ok cs, e) ∧
    Forall2 (λ x y : string * string * bytes, x.1 = y.1 ∧ plain (es_device_key e) y.2 = Some x.2) docs cs.
Proof.
  induction 1 as [|[[d r] m] docs Hm Hall IH].
  { exists []. by split; [|constructor]. }
  destruct IH as (cs & Hcs & HF). destruct (storage_encrypt_ok (es_device_key e) m Hm) as [c Hc].
  exists ((d, r, c) :: cs). split.
  - cbn [map_each]. erewrite sm_bind_ok.
    2: { erewrite sm_bind_ok; [reflexivity|]. unfold lift_key. by rewrite Hc. }
    by rewrite (sm_bind_ok _ _ _ _ _ Hcs).
  - constructor; [|done]. split; [done|]. by apply plain_encrypt.
Qed.

Lemma decrypted_batch key docs cs a :
  Forall2 (λ x y : string * string * bytes, x.1 = y.1 ∧ plain key y.2 = Some x.2) docs cs →
  decrypted key (a_write_batch cs a) = a_write_batch docs (decrypted key a) ∧
  (readable key a → readable key (a_write_batch cs a)).
Proof.
  intros HF. revert a. induction HF as [|[[d r] m] [[d' r'] c] docs cs [Heq Hc] HF IH]; intros a; [done|].
  simpl in *. injection Heq as <- <-. destruct (IH (a_insert d r c a)) as [Hdec Hread]. split.
  - etrans; [exact Hdec|]. by rewrite (decrypted_insert _ _ _ m).
  - intros Ha. apply Hread. by eapply readable_insert.
Qed.

Lemma enc_write_batch_ok docs : Forall (λ x, (N.of_nat (length x.2) ≤ aead_limit)%N) docs →
  refines_op enc_view enc_healthy (enc_write_batch_reconciliation docs) (λ _, tt) (a_write_batch docs).
Proof.
  intros Hall e. destruct (encrypt_batch_ok e docs Hall) as (cs & Hcs & HF). unfold enc_write_batch_reconciliation.
  rewrite (sm_bind_ok _ _ _ _ _ Hcs).
  apply (delegate_at _ (λ _, tt) (a_write_batch cs) (λ _, tt) (a_write_batch docs)); [apply write_batch_ok|done| |];
    intros a; by destruct (decrypted_batch (es_device_key e) docs cs a HF).
Qed.

Lemma enc_pending_count_ok ns : refines_op enc_view enc_healthy (enc_pending_count ns)
  (λ a, length (take (N.to_nat 50000) (pending_of ns (a_log a)))) id.
Proof.
  unfold enc_pending_count. generalize (N.to_nat 50000) as n. intros n e.
  destruct (delegate_read_ok _ (λ l, take n (pending_of ns l)) (read_pending_ok ns n) e) as (Hok & Herr & Hval). set (op := delegate _) in *. clearbody op. sm_unfold. split_and!.
  - intros (e' & Hrun & Hv & Hh)%Hok. exists e'. by rewrite Hrun.
  - intros x e' Hrun. destruct (op e) as [[l|y] e1] eqn:Hop; simplify_eq. by apply (Herr _ _ eq_refl).
  - intros v e' Hrun. destruct (op e) as [[l|y] e1] eqn:Hop; [|done]. injection Hrun as <- <-.
    by destruct (Hval _ _ eq_refl) as [-> Hv].
Qed.

(** The listed documents are decrypted one by one. *)
Lemma decrypt_list_spec e (docs : list (string * bytes)) :
  match map_each (λ '(rid, data), m ← lift_key (λ k, storage_decrypt k data); mret (rid, m)) docs e with
  | (Ok ms, e') => e' = e ∧
      Forall2 (λ x y : string * bytes, x.1 = y.1 ∧ plain (es_device_key e) x.2 = Some y.2) docs ms
  | (Err _, e') => e' = e ∧ ¬ Forall (λ x, is_Some (plain (es_device_key e) x.2)) docs
  end.
Proof.
  induction docs as [|[r c] docs IH]; [by split; [|constructor]|]. cbn [map_each]. sm_unfold. unfold lift_key at 1.
  assert (Hp : plain (es_device_key e) c = match storage_decrypt (es_device_key e) c with Ok m => Some m | Err _ => None end)
    by done.
  destruct (storage_decrypt (es_device_key e) c) as [m|x].
  - destruct (map_each _ docs e) as [[ms|x] e']; destruct IH as [-> HF]; (split; [done|]).
    + by constructor.
    + intros [_ Hall]%Forall_cons. by apply HF.
  - split; [done|]. intros [[? Hm] _]%Forall_cons. cbn in Hm. by rewrite Hp in Hm.
Qed.

Lemma decrypted_listing key (docs ms : list (string * bytes)) :
  Forall2 (λ x y : string * bytes, x.1 = y.1 ∧ plain key x.2 = Some y.2) docs ms →
  docs.*1 = ms.*1 ∧ ∀ r m, (r, m) ∈ ms ↔ ∃ c, (r, c) ∈ docs ∧ plain key c = Some m.
Proof.
  induction 1 as [|[r c] [r' m] docs ms [Hr Hc] _ [IH1 IH2]]; [split; [done|]; intros r m; split;
    [by intros ?%elem_of_nil|by intros (? & ?%elem_of_nil & _)]|].
  simpl in *. subst r'. split; [by f_equal|]. intros r1 m1. rewrite elem_of_cons, IH2. split.
  - intros [[= -> ->]|(c1 & Hin & Hp)]; [exists c|exists c1]; rewrite elem_of_cons; auto.
  - intros (c1 & [[= -> ->]|Hin]%elem_of_cons & Hp); [left; congruence|right; eauto].
Qed.

Lemma enc_list_documents_ok {HL : ListingSpec S} d : lists_documents enc_view enc_healthy (enc_list_documents d) d.
Proof.
  intros [s key]. destruct (list_documents_ok d s) as (Hok & Herr & Hval). unfold enc_list_documents, mbind, sm_bind.
  unfold delegate, zoom. cbn [es_inner]. destruct (list_documents d s) as [[docs|x] s'] eqn:Hrun.
  2: { split_and!; [intros [Hh _]; by destruct (Hok Hh) as (? & ? & ? & _)| |done].
       intros ?? [= _ <-]. unfold enc_view. cbn. by rewrite (Herr _ _ eq_refl). }
  destruct (Hval _ _ eq_refl) as (Hv & Hnd & Hin). cbn [set_inner es_device_key].
  pose proof (decrypt_list_spec (Encrypted s' key) docs) as Hspec. unfold set_inner. cbn [es_device_key] in *.
  assert (Hview : enc_view (Encrypted s' key) = enc_view (Encrypted s key)) by (unfold enc_view; cbn; by rewrite Hv).
  destruct (map_each _ docs _) as [[ms|x] e']; destruct Hspec as [-> HF].
  - split_and!; [|done|].
    + intros [Hh Hd]. destruct (Hok Hh) as (? & ? & [= <- <-] & Hh'). eexists _, _. split; [done|].
      split; [done|]. cbn. by rewrite Hv.
    + intros l e1 [= <- <-]. destruct (decrypted_listing _ _ _ HF) as [Hkeys Hms]. rewrite <-Hkeys. split_and!; [done..|].
      intros r b. rewrite Hms. cbn. rewrite lookup_omap. setoid_rewrite Hin.
      destruct (a_docs (st_view s) !! (d, r)); cbn; naive_solver.
  - split_and!; [|by intros ?? [= _ <-]|done]. intros [_ Hd]. destruct HF. apply Forall_forall. intros [r c] Hc.
    apply (Hd (d, r)). by apply Hin.
Qed.

(** The keys of the log's documents are listed by the storage inside. *)
Lemma delegate_keys_ok (op : SM S VaultSyncError (list doc_key)) p :
  lists_keys st_view st_healthy op p → lists_keys enc_view enc_healthy (delegate op) p.
Proof.
  intros Hop [s key] [Hh Hd]. destruct (Hop s Hh) as (keys & s' & Hrun & Hv & Hh' & Hkeys).
  exists keys, (Encrypted s' key). unfold delegate, zoom, enc_view, enc_healthy. cbn in *. by rewrite Hrun, Hv.
Qed.

(** C25: The encrypting storage keeps the contract of any storage it wraps: seen
    through the decryption, each of its operations on documents (within the limit
    of the cipher) and on the log, readings and listings included, has the effect
    and the result of the abstract store, and one that fails has changed nothing;
    for the two listings of the log's documents, that they succeed on a working
    storage, change nothing and list exactly the documents concerned.  (The sync
    states, schemas, migrations and keys are passed on unchanged; transactions
    are not offered.) *)
Theorem encrypted_storage_refines {HL : ListingSpec S} :
  (∀ d r, refines_op enc_view enc_healthy (get_document d r) (λ a, a_docs a !! (d, r)) id) ∧
  (∀ d r m, (N.of_nat (length m) ≤ aead_limit)%N →
    refines_op enc_view enc_healthy (insert_document d r m) (λ _, tt) (a_insert d r m)) ∧
  (∀ d r, refines_op enc_view enc_healthy (delete_document d r) (λ _, tt) (a_delete d r)) ∧
  (∀ d r m x, (N.of_nat (length m) ≤ aead_limit)%N →
    refines_op enc_view enc_healthy (write_document_and_oplog d r m x) (λ _, tt) (λ a, a_append x (a_insert d r m a))) ∧
  (∀ d r x, refines_op enc_view enc_healthy (delete_document_and_oplog d r x) (λ _, tt)
    (λ a, a_append x (a_delete d r a))) ∧
  (∀ docs, Forall (λ x, (N.of_nat (length x.2) ≤ aead_limit)%N) docs →
    refines_op enc_view enc_healthy (write_batch_reconciliation docs) (λ _, tt) (a_write_batch docs)) ∧
  (∀ x, refines_op enc_view enc_healthy (append_oplog x) (λ _, tt) (a_append x)) ∧
  (∀ ns limit, refines_op enc_view enc_healthy (read_pending_oplog ns limit)
    (λ a, take limit (pending_of ns (a_log a))) id) ∧
  (∀ now i seq, refines_op enc_view enc_healthy (mark_synced now i seq) (λ _, tt) (a_mark_synced now i seq)) ∧
  (∀ i msg, refines_op enc_view enc_healthy (mark_failed i msg) (λ _, tt) (a_mark_failed i)) ∧
  (∀ ns cutoff, refines_op enc_view enc_healthy (delete_synced_before ns cutoff)
    (λ a, length (filterb (synced_before ns cutoff) (a_log a))) (a_drop (synced_before ns cutoff))) ∧
  (∀ ns, refines_op enc_view enc_healthy (pending_count ns)
    (λ a, length (take (N.to_nat 50000) (pending_of ns (a_log a)))) id) ∧
  (∀ d, lists_documents enc_view enc_healthy (list_documents d) d) ∧
  (∀ ns seq, refines_op enc_view enc_healthy (read_oplog_after_sequence ns seq)
    (λ a, filterb (after_sequence ns seq) (a_log a)) id) ∧
  (∀ i blob, refines_op enc_view enc_healthy (update_oplog_encrypted_blob i blob) (λ _, tt) (a_update_blob i blob)) ∧
  (∀ now ns secs, let p := synced_earlier ns (saturating_sub now secs) in
    refines_op enc_view enc_healthy (delete_synced_oplog_older_than now ns secs)
      (λ a, length (filterb p (a_log a))) (a_drop p)) ∧
  (∀ ns d r t, let p := synced_of_document ns d r t in
    refines_op enc_view enc_healthy (delete_synced_oplog_before_timestamp ns d r t)
      (λ a, length (filterb p (a_log a))) (a_drop p)) ∧
  (∀ ns d r, refines_op enc_view enc_healthy (read_synced_oplog_for_document ns d r)
    (λ a, filterb (λ x, in_namespace ns x && of_document d r x && is_synced x) (a_log a)) id) ∧
  (∀ now ns ms, let p := InMemoryStorage.stale_pending ns (saturating_sub now ms) in
    refines_op enc_view enc_healthy (reset_stale_pending now ns ms)
      (λ a, length (filterb p (a_log a))) (a_reset_stale ns (saturating_sub now ms))) ∧
  (∀ now ns secs, lists_keys enc_view enc_healthy (list_tombstoned_documents now ns secs)
    (synced_delete ns (saturating_sub now (wrapping_mul64 secs 1000)))) ∧
  (∀ ns, lists_keys enc_view enc_healthy (list_active_documents ns) (in_namespace ns)).
Proof.
  split_and!.
  - apply enc_get_document_ok.
  - intros d r m Hm. apply (encrypt_then_ok _ (λ c, a_insert d r c)); [done|intros; apply insert_document_ok| |].
    + intros. by apply decrypted_insert.
    + intros. by eapply readable_insert.
  - intros d r e. apply (delegate_at _ (λ _, tt) (a_delete d r) (λ _, tt) (a_delete d r)); [apply delete_document_ok|done| |].
    + intros. apply decrypted_delete.
    + intros. by apply readable_delete.
  - intros d r m x Hm. apply (encrypt_then_ok _ (λ c a, a_append x (a_insert d r c a)));
      [done|intros; apply write_document_and_oplog_ok| |].
    + intros key c a Hc. unfold decrypted, a_append. simpl. f_equal. by apply omap_insert_Some.
    + intros. by eapply (readable_insert _ d r).
  - intros d r x e. apply (delegate_at _ (λ _, tt) (λ a, a_append x (a_delete d r a)) (λ _, tt) (λ a, a_append x (a_delete d r a)));
      [apply delete_document_and_oplog_ok|done| |].
    + intros a. unfold decrypted, a_append. simpl. f_equal. apply omap_delete.
    + intros a. apply (readable_delete (es_device_key e) d r a).
  - apply enc_write_batch_ok.
  - intros x. apply (delegate_log_ok _ (λ _, tt) (λ l, l ++ [x])), append_oplog_ok.
  - intros ns limit. apply (delegate_read_ok _ (λ l, take limit (pending_of ns l))), read_pending_ok.
  - intros now i seq. apply (delegate_log_ok _ (λ _, tt) (map_if (has_id i) (set_synced seq now))), mark_synced_ok.
  - intros i msg. apply (delegate_log_ok _ (λ _, tt) (map_if (has_id i) (set_status Failed))), mark_failed_ok.
  - intros ns cutoff. apply (delegate_log_ok _ (λ l, length (filterb (synced_before ns cutoff) l))
      (filterb (λ x, negb (synced_before ns cutoff x)))), delete_synced_before_ok.
  - apply enc_pending_count_ok.
  - apply enc_list_documents_ok.
  - intros ns seq. apply (delegate_read_ok _ (filterb (after_sequence ns seq))), read_after_sequence_ok.
  - intros i blob. apply (delegate_log_ok _ (λ _, tt) (update_first (has_id i) (set_encrypted_blob blob))), update_blob_ok.
  - intros now ns secs p. apply (delegate_log_ok _ (λ l, length (filterb p l)) (filterb (λ x, negb (p x)))), delete_synced_older_ok.
  - intros ns d r t p. apply (delegate_log_ok _ (λ l, length (filterb p l)) (filterb (λ x, negb (p x)))), delete_synced_of_document_ok.
  - intros ns d r. apply (delegate_read_ok _ (filterb (λ x, in_namespace ns x && of_document d r x && is_synced x))),
      read_synced_for_document_ok.
  - intros now ns ms p. apply (delegate_log_ok _ (λ l, length (filterb p l)) (map_if p (set_status Pending))), reset_stale_ok.
  - intros now ns secs. apply delegate_keys_ok, list_tombstoned_ok.
  - intros ns. apply delegate_keys_ok, list_active_ok.
Qed.
End refinement.

(** ** The nonce is the same for every document *)

(** RFC 8439: the ciphertext is the message combined with a key stream that
    depends on the key and the nonce, followed by the tag. *)
Definition stream_cipher {K : Crypto} (keystream : bytes → bytes → nat → N) : Prop :=
  ∀ k n m c, aead_encrypt k n m = Ok c → ∃ tag, c = imap (λ i b, N.lxor b (keystream k n i)) m ++ tag.

(** All documents are encrypted with one key stream, since the nonce is a
    constant: wherever two stored documents have a byte, combining the two
    ciphertexts gives the combination of the two plain texts, without the key. *)
Theorem stored_documents_share_keystream {K : Crypto} keystream key m1 m2 c1 c2 i b1 b2 :
  stream_cipher keystream → storage_encrypt key m1 = Ok c1 → storage_encrypt key m2 = Ok c2 →
  m1 !! i = Some b1 → m2 !! i = Some b2 →
  ∃ x1 x2, c1 !! i = Some x1 ∧ c2 !! i = Some x2 ∧ N.lxor x1 x2 = N.lxor b1 b2.
Proof.
  intros Hs H1 H2 Hb1 Hb2. unfold storage_encrypt in *.
  destruct (aead_encrypt key ENC_NONCE m1) as [?|] eqn:He1; [|done]. destruct (aead_encrypt key ENC_NONCE m2) as [?|] eqn:He2; [|done].
  simplify_eq. destruct (Hs _ _ _ _ He1) as [t1 ->]. destruct (Hs _ _ _ _ He2) as [t2 ->].
  exists (N.lxor b1 (keystream key ENC_NONCE i)), (N.lxor b2 (keystream key ENC_NONCE i)). split_and!.
  - rewrite lookup_app_l, list_lookup_imap, Hb1; [done|]. rewrite length_imap. by eapply lookup_lt_Some.
  - rewrite lookup_app_l, list_lookup_imap, Hb2; [done|]. rewrite length_imap. by eapply lookup_lt_Some.
  - rewrite N.lxor_assoc, (N.lxor_comm b2), <-(N.lxor_assoc _ _ b2), N.lxor_nilpotent, N.lxor_0_l. done.
Qed.

(** ** Witnesses *)

#[local] Existing Instance toy_crypto.
#[local] Existing Instance toy_crypto_spec.

Definition sample_encrypted : EncryptedStorage InMemoryStorage.t := Encrypted InMemoryStorage.new (replicate 32 5%N).

Lemma encrypted_storage_refines_witness :
  ∃ e', insert_document "todos" "r1" [1; 2; 3]%N sample_encrypted = (Ok tt, e') ∧
    a_docs (enc_view e') !! ("todos", "r1") = Some [1; 2; 3]%N ∧
    (get_document "todos" "r1" e').1 = Ok (Some [1; 2; 3]%N).
Proof.
  destruct (encrypted_storage_refines (S := InMemoryStorage.t)) as (_ & Hins & _).
  destruct (Hins "todos" "r1" [1; 2; 3]%N) with sample_encrypted as (Hok & _).
  - apply N.leb_le. vm_compute. reflexivity.
  - destruct Hok as (e' & Hrun & Hv & _).
    + split; [split; reflexivity|]. apply map_Forall_empty.
    + exists e'. split; [exact Hrun|]. split.
      * rewrite Hv. reflexivity.
      * vm_compute in Hrun. injection Hrun as <-. vm_compute. reflexivity.
Defined.

(** A cipher that combines each byte with the sum of key and nonce. *)
Definition sum_keystream (k n : bytes) (i : nat) : N := (list_sum k + list_sum n + N.of_nat i)%N.
#[local] Instance sum_crypto : Crypto := {|
  aead_encrypt k n m := Ok (imap (λ i b, N.lxor b (sum_keystream k n i)) m ++ [0%N]);
  aead_decrypt k n c := Ok (imap (λ i b, N.lxor b (sum_keystream k n i)) (take (length c - 1) c));
  hkdf_sha256 salt ikm info := take 32 (ikm ++ info);
  sha256 m := take 32 m;
  x25519 a p := a;
  x25519_base := [];
|}.

Lemma stored_documents_share_keystream_witness :
  ∃ x1 x2 : N, N.lxor x1 x2 = N.lxor 65 97 ∧
    storage_encrypt (replicate 32 5%N) [65%N] = Ok [x1; 0%N] ∧ storage_encrypt (replicate 32 5%N) [97%N] = Ok [x2; 0%N].
Proof.
  destruct (storage_encrypt (replicate 32 5%N) [65%N]) as [c1|] eqn:H1; [|discriminate].
  destruct (storage_encrypt (replicate 32 5%N) [97%N]) as [c2|] eqn:H2; [|discriminate].
  destruct (stored_documents_share_keystream sum_keystream (replicate 32 5%N) [65%N] [97%N] c1 c2 0 65 97)
    as (x1 & x2 & Hx1 & Hx2 & Hx); [|exact H1|exact H2|reflexivity|reflexivity|].
  - intros k n m c Hc. cbn in Hc. injection Hc as <-. eexists. reflexivity.
  - exists x1, x2. split; [exact Hx|]. vm_compute in H1. injection H1 as <-. vm_compute in H2. injection H2 as <-.
    vm_compute in Hx1. injection Hx1 as <-. vm_compute in Hx2. injection Hx2 as <-. split; reflexivity.
Defined.
