(* ===== verification/Sql.v ===== *)
(** * SQL connections

    What the SQL coordinators and the SQL storage rely on of their database:
    a connection runs one statement at a time on the tables, any statement may
    fail and then changes nothing, and a transaction that is not committed is
    rolled back.  The conversions of integers are those of rusqlite. *)
From S2P Require Import Prelude.

(** ** Integers of SQL: an [INTEGER] or [BIGINT] column holds an [i64] *)

Definition I64_MAX : Z := 9223372036854775807.

(** [x as i64] and [z as u64]. *)
Definition as_i64 (x : N) : Z :=
  if (Z.of_N x <=? I64_MAX)%Z then Z.of_N x else (Z.of_N x - 18446744073709551616)%Z.
Definition as_u64 (z : Z) : N :=
  if (0 <=? z)%Z then Z.to_N z else Z.to_N (z + 18446744073709551616).

(** An unsigned integer as a parameter of a statement, and as a column of a
    row: both are checked conversions. *)
Definition out_of_range : string := "out of range integral type conversion attempted".
Definition to_sql (x : N) : result Z string :=
  if (Z.of_N x <=? I64_MAX)%Z then Ok (Z.of_N x) else Err out_of_range.
Definition from_sql (z : Z) : result N string :=
  if (0 <=? z)%Z then Ok (Z.to_N z) else Err out_of_range.

Definition fits_i64 (x : N) : bool := (Z.of_N x <=? I64_MAX)%Z.

Lemma as_u64_i64 x : (x ≤ U64_MAX)%N → as_u64 (as_i64 x) = x.
Proof.
  unfold as_u64, as_i64, U64_MAX, I64_MAX. intros Hx.
  destruct (Z.leb_spec (Z.of_N x) 9223372036854775807).
  - destruct (Z.leb_spec 0 (Z.of_N x)); lia.
  - destruct (Z.leb_spec 0 (Z.of_N x - 18446744073709551616)); lia.
Qed.

Lemma as_i64_small x : fits_i64 x = true → as_i64 x = Z.of_N x.
Proof. unfold as_i64, fits_i64. by intros ->. Qed.

Lemma as_i64_large x : fits_i64 x = false → (x ≤ U64_MAX)%N → (as_i64 x < 0)%Z.
Proof.
  unfold as_i64, fits_i64, U64_MAX, I64_MAX. intros ->. lia.
Qed.

Lemma from_sql_nonneg z : (0 ≤ z)%Z → from_sql z = Ok (Z.to_N z).
Proof. unfold from_sql. intros H. by apply Z.leb_le in H as ->. Qed.

Lemma from_to_sql x : fits_i64 x = true → from_sql (as_i64 x) = Ok x.
Proof.
  intros Hx. rewrite as_i64_small by done. rewrite from_sql_nonneg by lia. by rewrite N2Z.id.
Qed.

Lemma to_sql_fits x : fits_i64 x = true → to_sql x = Ok (Z.of_N x).
Proof. unfold to_sql, fits_i64. by intros ->. Qed.

(** The rows that a query maps to values, up to the first that does not
    convert; [collect] of an iterator of results. *)
Fixpoint collect {A B E} (f : A → result B E) (l : list A) : result (list B) E :=
  match l with
  | [] => Ok []
  | a :: l' =>
      match f a with
      | Err e => Err e
      | Ok b => match collect f l' with Err e => Err e | Ok bs => Ok (b :: bs) end
      end
  end.

Lemma collect_ok {A B E} (f : A → result B E) (g : A → B) l :
  (∀ a, a ∈ l → f a = Ok (g a)) → collect f l = Ok (map g l).
Proof.
  induction l as [|a l IH]; intros Hf; simpl; [done|].
  rewrite (Hf a) by left. rewrite IH; [done|]. intros b Hb. apply Hf. by right.
Qed.

Lemma collect_err {A B E} (f : A → result B E) l a e :
  a ∈ l → f a = Err e → ∃ e', collect f l = Err e'.
Proof.
  intros Hl Hf. induction l as [|b l IH]; [by apply elem_of_nil in Hl|]. simpl.
  apply elem_of_cons in Hl as [<-|Hl]; [rewrite Hf; by eexists|].
  destruct (f b) as [v|e']; [|by eexists]. destruct IH as [e' ->]; [done|by eexists].
Qed.

(** ** Connections *)

(** How the next statements will end: a statement runs, leaving a gap of
    [skip] unused values in the sequence if it takes one, or fails. *)
Inductive outcome := Runs (skip : N) | Faults (msg : string).

Record conn (D : Type) := Conn { cn_db : D; cn_outcomes : list outcome }.
Arguments Conn {D} _ _.
Arguments cn_db {D} _.
Arguments cn_outcomes {D} _.

Section engine.
Context {D : Type}.

Definition statement {A} (f : N → D → result A string * D) : SM (conn D) string A := λ c,
  match cn_outcomes c with
  | Faults msg :: o => (Err msg, Conn (cn_db c) o)
  | Runs skip :: o => let '(r, db) := f skip (cn_db c) in (r, Conn db o)
  | [] => let '(r, db) := f 0%N (cn_db c) in (r, Conn db [])
  end.

(** A [SELECT], an [UPDATE], [DELETE] or [INSERT] with a count of rows, and a
    statement that touches no table ([prepare], [BEGIN], [COMMIT]). *)
Definition query {A} (f : D → A) : SM (conn D) string A :=
  statement (λ _ db, (Ok (f db), db)).
Definition execute {A} (f : D → A * D) : SM (conn D) string A :=
  statement (λ _ db, let '(a, db') := f db in (Ok a, db')).
Definition prepare : SM (conn D) string unit := query (λ _, tt).

(** The conversion of a parameter or of the rows of a result. *)
Definition convert {A} (r : result A string) : SM (conn D) string A := λ c, (r, c).

(** [let tx = conn.transaction()?; body; tx.commit()?]: leaving the block
    before the commit rolls back. *)
Definition transaction {A} (body : SM (conn D) string A) : SM (conn D) string A := λ c,
  match (prepare;; a ← body; prepare;; mret a) c with
  | (Ok a, c') => (Ok a, c')
  | (Err e, c') => (Err e, Conn (cn_db c) (cn_outcomes c'))
  end.

Lemma transaction_err {A} (body : SM (conn D) string A) c e c' :
  transaction body c = (Err e, c') → cn_db c' = cn_db c.
Proof.
  unfold transaction.
  destruct ((prepare;; a ← body; prepare;; mret a) c) as [[] ?]; [done|]. by intros [= _ <-].
Qed.

Lemma prepare_db c r c' : prepare c = (r, c') → cn_db c' = cn_db c.
Proof.
  unfold prepare, query, statement. destruct (cn_outcomes c) as [|[]]; by intros [= _ <-].
Qed.

Lemma query_db {A} (f : D → A) c r c' : query f c = (r, c') → cn_db c' = cn_db c.
Proof.
  unfold query, statement. destruct (cn_outcomes c) as [|[]]; by intros [= _ <-].
Qed.

Lemma transaction_ok {A} (body : SM (conn D) string A) c a c' :
  transaction body c = (Ok a, c') →
  ∃ c1 c2, cn_db c1 = cn_db c ∧ body c1 = (Ok a, c2) ∧ cn_db c' = cn_db c2.
Proof.
  unfold transaction.
  destruct ((prepare;; a ← body; prepare;; mret a) c) as [[a'|e] c0] eqn:Hrun; [|done].
  intros [= -> ->].
  apply sm_bind_ok_inv in Hrun as ([] & c1 & Hb & Hrun).
  apply sm_bind_ok_inv in Hrun as (a1 & c2 & Hbody & Hrun).
  apply sm_bind_ok_inv in Hrun as ([] & c3 & Hcommit & [= -> ->]).
  exists c1, c2. split_and!; [by eapply prepare_db|done|by eapply prepare_db].
Qed.

(** A connection whose statements all run, without gaps. *)
Lemma transaction_reliable {A} (body : SM (conn D) string A) db a db' :
  body (Conn db []) = (Ok a, Conn db' []) → transaction body (Conn db []) = (Ok a, Conn db' []).
Proof. intros Hb. unfold transaction. sm_unfold. cbn. by rewrite Hb. Qed.
End engine.
