(* ===== verification/SqliteStorage.v ===== *)
(** * The SQLite storage

    [storage/sqlite.rs]: documents, the log, sync states, schemas, migrations
    and keys in tables, each operation one statement or one transaction on the
    connection ([Sql]).  The order in which SQLite visits the rows of the log,
    where a statement does not say, is a parameter. *)
From S2P Require Import Prelude Types Storage Sql.

(** ** The tables *)

Record oplog_row := OplogRow {
  or_id : string;
  or_namespace : string;
  or_replica_id : string;
  or_mutation_type : string;
  or_doc_id : string;
  or_record_id : string;
  or_yrs_update : bytes;
  or_encrypted_blob : option bytes;
  or_timestamp : Z;
  or_sequence : option Z;
  or_sync_status : string;
  or_synced_at : option Z;
  or_created_at : Z;
}.

Record sync_state_row := SyncStateRow {
  ssr_replica_id : string;
  ssr_last_synced_sequence : Z;
  ssr_connection_status : string;
  ssr_leader_status : option string;
  ssr_last_connected_at : option Z;
  ssr_last_sync_at : option Z;
  ssr_schema_version : Z;
  ssr_generation_id : string;
}.

(** Tables with a primary key are maps; the log keeps the order of insertion. *)
Record sqlite_db := SqliteDb {
  sd_documents : gmap doc_key bytes;
  sd_oplog : list oplog_row;
  sd_sync_state : gmap string sync_state_row;
  sd_schemas : gmap string (Z * bytes);
  sd_migrations : gmap string (Z * string);
  sd_keys : gmap (string * Z) bytes;
}.

(** [init_tables] on a new database. *)
Definition init_tables : sqlite_db := SqliteDb ∅ [] ∅ ∅ ∅ ∅.

Definition on_documents (f : gmap doc_key bytes → gmap doc_key bytes) (db : sqlite_db) : sqlite_db :=
  SqliteDb (f (sd_documents db)) (sd_oplog db) (sd_sync_state db) (sd_schemas db) (sd_migrations db) (sd_keys db).
Definition on_oplog (f : list oplog_row → list oplog_row) (db : sqlite_db) : sqlite_db :=
  SqliteDb (sd_documents db) (f (sd_oplog db)) (sd_sync_state db) (sd_schemas db) (sd_migrations db) (sd_keys db).

(** ** Rows of the log *)

(** [format!("{:?}", ..)] of the two enums. *)
Definition show_mutation_type (t : MutationType) : string :=
  match t with
  | CrdtUpdate => "CrdtUpdate" | CrdtInsert => "CrdtInsert" | CrdtDelete => "CrdtDelete" | CrdtBatch => "CrdtBatch"
  end.
Definition show_sync_status (s : SyncStatus) : string :=
  match s with
  | Pending => "Pending" | Synced => "Synced" | Failed => "Failed" | Optimistic => "Optimistic"
  end.

(** [map_oplog_entry]. *)
Definition read_sync_status (s : string) : SyncStatus :=
  if bool_decide (s = "Synced") then Synced else if bool_decide (s = "Failed") then Failed else Pending.
Definition read_mutation_type (s : string) : MutationType :=
  if bool_decide (s = "CrdtInsert") then CrdtInsert
  else if bool_decide (s = "CrdtDelete") then CrdtDelete
  else if bool_decide (s = "CrdtBatch") then CrdtBatch
  else CrdtUpdate.
Definition map_oplog_entry (row : oplog_row) : OplogEntry :=
  OplogEntry_new (or_id row) (or_replica_id row) (or_namespace row) (read_mutation_type (or_mutation_type row))
    (or_doc_id row) (or_record_id row) (or_yrs_update row) (or_encrypted_blob row) (as_u64 (or_timestamp row))
    (as_u64 <$> or_sequence row) (read_sync_status (or_sync_status row)) (as_u64 <$> or_synced_at row)
    (as_u64 (or_created_at row)) 0 OUnknown "".

(** The parameters of the [INSERT INTO oplog]; [synced_at] is left out. *)
Definition row_of_entry (e : OplogEntry) : result oplog_row string :=
  match to_sql (oe_timestamp e),
        match oe_sequence e with
        | Some s => match to_sql s with Ok z => Ok (Some z) | Err m => Err m end
        | None => Ok None
        end,
        to_sql (oe_created_at e) with
  | Ok ts, Ok seq, Ok created =>
      Ok (OplogRow (oe_id e) (oe_namespace e) (oe_replica_id e) (show_mutation_type (oe_mutation_type e))
            (oe_doc_id e) (oe_record_id e) (oe_yrs_update e) (oe_encrypted_blob e) ts seq
            (show_sync_status (oe_sync_status e)) None created)
  | _, _, _ => Err out_of_range
  end.

(** The statement itself: the id is the primary key. *)
Definition insert_row (row : oplog_row) : N → sqlite_db → result unit string * sqlite_db := λ _ db,
  if existsb (λ r, bool_decide (or_id r = or_id row)) (sd_oplog db)
  then (Err "UNIQUE constraint failed: oplog.id", db)
  else (Ok tt, on_oplog (λ log, log ++ [row]) db).

(** [UPDATE oplog SET .. WHERE p] and [DELETE FROM oplog WHERE p], with the
    number of rows. *)
Definition update_rows (p : oplog_row → bool) (f : oplog_row → oplog_row) : sqlite_db → nat * sqlite_db := λ db,
  (length (filterb p (sd_oplog db)), on_oplog (map_if p f) db).
Definition delete_rows (p : oplog_row → bool) : sqlite_db → nat * sqlite_db := λ db,
  (length (filterb p (sd_oplog db)), on_oplog (filterb (λ r, negb (p r))) db).

Definition row_synced (sequence : Z) (now : Z) (r : oplog_row) : oplog_row :=
  OplogRow (or_id r) (or_namespace r) (or_replica_id r) (or_mutation_type r) (or_doc_id r) (or_record_id r)
    (or_yrs_update r) (or_encrypted_blob r) (or_timestamp r) (Some sequence) "Synced" (Some now) (or_created_at r).
Definition row_status (status : string) (r : oplog_row) : oplog_row :=
  OplogRow (or_id r) (or_namespace r) (or_replica_id r) (or_mutation_type r) (or_doc_id r) (or_record_id r)
    (or_yrs_update r) (or_encrypted_blob r) (or_timestamp r) (or_sequence r) status (or_synced_at r) (or_created_at r).
Definition row_blob (blob : bytes) (r : oplog_row) : oplog_row :=
  OplogRow (or_id r) (or_namespace r) (or_replica_id r) (or_mutation_type r) (or_doc_id r) (or_record_id r)
    (or_yrs_update r) (Some blob) (or_timestamp r) (or_sequence r) (or_sync_status r) (or_synced_at r) (or_created_at r).

(** The tests of the [WHERE] clauses. *)
Definition r_has_id (ent : string) (r : oplog_row) : bool := bool_decide (or_id r = ent).
Definition r_in (ns : string) (r : oplog_row) : bool := bool_decide (or_namespace r = ns).
Definition r_synced (r : oplog_row) : bool := bool_decide (or_sync_status r = "Synced").
Definition r_uploadable (r : oplog_row) : bool :=
  bool_decide (or_sync_status r = "Pending") || bool_decide (or_sync_status r = "Optimistic").
Definition r_document (d r : string) (row : oplog_row) : bool :=
  bool_decide (or_doc_id row = d) && bool_decide (or_record_id row = r).
Definition r_before (t : Z) (r : oplog_row) : bool := (or_created_at r <? t)%Z.
(** A comparison with [NULL] holds for no row. *)
Definition r_after_sequence (seq : Z) (r : oplog_row) : bool :=
  match or_sequence r with Some s => (seq <? s)%Z | None => false end.
Definition r_synced_before (t : Z) (r : oplog_row) : bool :=
  match or_synced_at r with Some s => (s <? t)%Z | None => false end.

Definition created_le (a b : oplog_row) : Prop := (or_created_at a ≤ or_created_at b)%Z.
#[export] Instance created_le_dec : RelDecision created_le.
Proof. intros a b. unfold created_le. apply _. Defined.
(** [NULL] sorts first. *)
Definition row_sequence_le (a b : oplog_row) : Prop :=
  match or_sequence a, or_sequence b with
  | None, _ => True
  | Some _, None => False
  | Some x, Some y => (x ≤ y)%Z
  end.
#[export] Instance row_sequence_le_dec : RelDecision row_sequence_le.
Proof. intros a b. unfold row_sequence_le. destruct (or_sequence a), (or_sequence b); apply _. Defined.

(** ** [SQLiteStorage] *)

Module SQLiteStorage.
Section storage.
(** The order in which the rows of the log are visited. *)
Context (scan : list oplog_row → list oplog_row).

(** The connection behind its mutex. *)
Definition t := rwlock (conn sqlite_db).

Definition new : t := rw_new (Conn init_tables []).

Abbreviation M := (SM t VaultSyncError).
Abbreviation Q := (SM (conn sqlite_db) string).

(** [spawn_blocking(move || { let conn = conn.lock().unwrap(); .. })]: the panic
    on a poisoned mutex is the error of the joined task. *)
Definition run {A} (q : Q A) : M A := λ c,
  if rw_poisoned c then (Err (EStorage "spawn_blocking error: task panicked"), c)
  else
    let '(r, k) := q (rw_val c) in
    (match r with Ok a => Ok a | Err e => Err (ESqlite e) end, rw_set k c).

Definition upsert_document (d r : string) (bs : bytes) : sqlite_db → unit * sqlite_db := λ db,
  (tt, on_documents <[(d, r) := bs]> db).
Definition remove_document (d r : string) : sqlite_db → unit * sqlite_db := λ db,
  (tt, on_documents (delete (d, r)) db).
Definition insert_oplog (e : OplogEntry) : Q unit :=
  row ← convert (row_of_entry e);
  statement (insert_row row).

Definition insert_document (d r : string) (bs : bytes) : M unit := run (execute (upsert_document d r bs)).

Definition get_document (d r : string) : M (option bytes) :=
  run (prepare;; query (λ db, sd_documents db !! (d, r))).

Definition delete_document (d r : string) : M unit := run (execute (remove_document d r)).

Definition list_documents (d : string) : M (list (string * bytes)) :=
  run (prepare;; query (λ db,
    omap (λ '((did, rid), bs), if bool_decide (did = d) then Some (rid, bs) else None)
      (map_to_list (sd_documents db)))).

Definition write_document_and_oplog (d r : string) (bs : bytes) (e : OplogEntry) : M unit :=
  run (transaction (execute (upsert_document d r bs);; insert_oplog e)).

Definition delete_document_and_oplog (d r : string) (e : OplogEntry) : M unit :=
  run (transaction (execute (remove_document d r);; insert_oplog e)).

Definition append_oplog (e : OplogEntry) : M unit := run (insert_oplog e).

(** [SELECT .. FROM oplog WHERE p], in the order of the scan. *)
Definition select_rows (p : oplog_row → bool) (db : sqlite_db) : list oplog_row :=
  filterb p (scan (sd_oplog db)).

(** A negative [LIMIT] is none. *)
Definition limit_rows {A} (limit : Z) (l : list A) : list A :=
  if (limit <? 0)%Z then l else take (Z.to_nat limit) l.

Definition read_pending_oplog (ns : string) (limit : nat) : M (list OplogEntry) :=
  run (prepare;;
       rows ← query (λ db, limit_rows (as_i64 (N.of_nat limit))
         (stable_sort created_le (select_rows (λ r, r_in ns r && r_uploadable r) db)));
       mret (map map_oplog_entry rows)).

Definition mark_synced (now_secs : N) (ent : string) (sequence : N) : M unit :=
  run (execute (update_rows (r_has_id ent) (row_synced (as_i64 sequence) (Z.of_N now_secs)));; mret tt).

Definition mark_failed (ent _error : string) : M unit :=
  run (execute (update_rows (r_has_id ent) (row_status "Failed"));; mret tt).

Definition read_oplog_after_sequence (ns : string) (seq : N) : M (list OplogEntry) :=
  run (prepare;;
       rows ← query (λ db, stable_sort row_sequence_le
         (select_rows (λ r, r_in ns r && r_after_sequence (as_i64 seq) r) db));
       mret (map map_oplog_entry rows)).

Definition show_connection_status (s : ConnectionStatus) : string :=
  match s with Connected => "Connected" | Disconnected => "Disconnected" | Syncing => "Syncing" end.

(** [Option<u64>] as a column. *)
Definition from_sql_opt (z : option Z) : result (option N) string :=
  match z with
  | None => Ok None
  | Some z => match from_sql z with Ok n => Ok (Some n) | Err e => Err e end
  end.
Definition to_sql_opt (n : option N) : result (option Z) string :=
  match n with
  | None => Ok None
  | Some n => match to_sql n with Ok z => Ok (Some z) | Err e => Err e end
  end.

Definition read_sync_state (ns : string) : M (option SyncState) :=
  run (prepare;;
       row ← query (λ db, sd_sync_state db !! ns);
       match row with
       | None => mret None
       | Some row =>
           connected ← convert (from_sql_opt (ssr_last_connected_at row));
           synced ← convert (from_sql_opt (ssr_last_sync_at row));
           mret (Some (SyncState_new ns (ssr_replica_id row) (as_u64 (ssr_last_synced_sequence row))
             (connection_status_from_str (ssr_connection_status row))
             ((λ s, bool_decide (s = "Leader")) <$> ssr_leader_status row)
             connected synced (as_u64 (ssr_schema_version row)) (ssr_generation_id row)))
       end).

Definition write_sync_state (state : SyncState) : M unit :=
  run (connected ← convert (to_sql_opt (ss_last_connected_at state));
       synced ← convert (to_sql_opt (ss_last_sync_at state));
       execute (λ db, (tt, SqliteDb (sd_documents db) (sd_oplog db)
         (<[ss_namespace state := SyncStateRow (ss_replica_id state) (as_i64 (ss_last_synced_sequence state))
            (show_connection_status (ss_connection_status state))
            ((λ b : bool, if b then "Leader" else "Reader") <$> ss_leader_status state)
            connected synced (as_i64 (ss_schema_version state)) (ss_generation_id state)]> (sd_sync_state db))
         (sd_schemas db) (sd_migrations db) (sd_keys db)))).

Definition schema_of (p : string * (Z * bytes)) : SchemaMeta := SchemaMeta_new p.1 (as_u64 p.2.1) p.2.2.

Definition read_schema (d : string) : M (option SchemaMeta) :=
  run (prepare;;
       row ← query (λ db, sd_schemas db !! d);
       mret ((λ v, schema_of (d, v)) <$> row)).

Definition write_schema (meta : SchemaMeta) : M unit :=
  run (execute (λ db, (tt, SqliteDb (sd_documents db) (sd_oplog db) (sd_sync_state db)
    (<[sm_doc_id meta := (as_i64 (sm_version meta), sm_schema_bytes meta)]> (sd_schemas db))
    (sd_migrations db) (sd_keys db)))).

Definition list_schemas : M (list SchemaMeta) :=
  run (prepare;; rows ← query (λ db, map_to_list (sd_schemas db)); mret (map schema_of rows)).

Definition applied_le (a b : string * (Z * string)) : Prop := (a.2.1 ≤ b.2.1)%Z.
#[local] Instance applied_le_dec : RelDecision applied_le.
Proof. intros a b. unfold applied_le. apply _. Defined.

Definition read_migrations : M (list MigrationRecord) :=
  run (prepare;;
       rows ← query (λ db, stable_sort applied_le (map_to_list (sd_migrations db)));
       convert (collect (λ p : string * (Z * string),
         match from_sql p.2.1 with
         | Ok at_ => Ok (MigrationRecord_new p.1 at_ p.2.2)
         | Err e => Err e
         end) rows)).

Definition write_migration (record : MigrationRecord) : M unit :=
  run (execute (λ db, (tt, SqliteDb (sd_documents db) (sd_oplog db) (sd_sync_state db) (sd_schemas db)
    (<[mr_version record := (as_i64 (mr_applied_at record), mr_checksum record)]> (sd_migrations db))
    (sd_keys db)))).

Definition version_le (a b : (string * Z) * bytes) : Prop := (a.1.2 ≤ b.1.2)%Z.
#[local] Instance version_le_dec : RelDecision version_le.
Proof. intros a b. unfold version_le. apply _. Defined.

Definition read_keys (ns : string) : M (list KeyRecord) :=
  run (prepare;;
       rows ← query (λ db, stable_sort version_le
         (filterb (λ p : (string * Z) * bytes, bool_decide (p.1.1 = ns)) (map_to_list (sd_keys db))));
       mret (map (λ p : (string * Z) * bytes, KeyRecord_new p.1.1 p.2 (as_u64 p.1.2)) rows)).

Definition write_key (key : KeyRecord) : M unit :=
  run (execute (λ db, (tt, SqliteDb (sd_documents db) (sd_oplog db) (sd_sync_state db) (sd_schemas db)
    (sd_migrations db) (<[(kr_namespace key, as_i64 (kr_version key)) := kr_key_bytes key]> (sd_keys db))))).

Definition reset_stale_pending (now : N) (ns : string) (older_than_ms : N) : M nat :=
  let threshold := as_i64 (saturating_sub now older_than_ms) in
  run (execute (update_rows (λ r, r_in ns r && negb (r_synced r) && r_before threshold r) (row_status "Pending"))).

Definition delete_synced_oplog_older_than (now_secs : N) (ns : string) (older_than_secs : N) : M nat :=
  let threshold := as_i64 (saturating_sub now_secs older_than_secs) in
  run (execute (delete_rows (λ r, r_in ns r && r_synced r && r_synced_before threshold r))).

Definition list_tombstoned_documents (now_ms : N) (ns : string) (older_than_secs : N) : M (list doc_key) :=
  let threshold := as_i64 (saturating_sub now_ms (wrapping_mul64 older_than_secs 1000)) in
  run (prepare;; query (λ db,
    elements (list_to_set (map (λ r, (or_doc_id r, or_record_id r))
      (select_rows (λ r, r_in ns r && bool_decide (or_mutation_type r = "CrdtDelete") && r_synced r &&
         r_before threshold r) db)) : gset doc_key))).

Definition update_oplog_encrypted_blob (ent : string) (new_blob : bytes) : M unit :=
  run (execute (update_rows (r_has_id ent) (row_blob new_blob));; mret tt).

Definition list_active_documents (ns : string) : M (list doc_key) :=
  run (prepare;; query (λ db,
    elements (list_to_set (map (λ r, (or_doc_id r, or_record_id r)) (select_rows (r_in ns) db)) : gset doc_key))).

Definition read_synced_oplog_for_document (ns d r : string) : M (list OplogEntry) :=
  run (prepare;;
       rows ← query (λ db, stable_sort row_sequence_le
         (select_rows (λ row, r_in ns row && r_document d r row && r_synced row) db));
       mret (map map_oplog_entry rows)).

Definition delete_synced_oplog_before_timestamp (ns d r : string) (timestamp : N) : M nat :=
  run (execute (delete_rows (λ row, r_in ns row && r_document d r row && r_synced row &&
    r_before (as_i64 timestamp) row))).

Definition delete_synced_before (ns : string) (cutoff_ms : N) : M nat :=
  run (execute (delete_rows (λ row, r_in ns row && r_synced row && r_before (as_i64 cutoff_ms) row))).

Definition write_batch_reconciliation (docs : list (string * string * bytes)) : M unit :=
  run (transaction (for_each (λ '(d, r, bs), execute (upsert_document d r bs)) docs)).

(** The trait's defaults. *)
Definition pending_count (ns : string) : M nat :=
  l ← read_pending_oplog ns (N.to_nat 50000);
  mret (length l).
Definition begin_transaction : M Empty_set := sm_fail (EStorage "transactions not supported").
End storage.
End SQLiteStorage.

(** The instance of the storage interface. *)
Definition sqlite_storage (scan : list oplog_row → list oplog_row) : Storage SQLiteStorage.t := {|
  storage_tx := Empty_set;
  insert_document := SQLiteStorage.insert_document;
  get_document := SQLiteStorage.get_document;
  delete_document := SQLiteStorage.delete_document;
  list_documents := SQLiteStorage.list_documents;
  write_document_and_oplog := SQLiteStorage.write_document_and_oplog;
  delete_document_and_oplog := SQLiteStorage.delete_document_and_oplog;
  append_oplog := SQLiteStorage.append_oplog;
  read_pending_oplog := SQLiteStorage.read_pending_oplog scan;
  mark_synced := SQLiteStorage.mark_synced;
  mark_failed := SQLiteStorage.mark_failed;
  read_oplog_after_sequence := SQLiteStorage.read_oplog_after_sequence scan;
  read_sync_state := SQLiteStorage.read_sync_state;
  write_sync_state := SQLiteStorage.write_sync_state;
  read_schema := SQLiteStorage.read_schema;
  write_schema := SQLiteStorage.write_schema;
  list_schemas := SQLiteStorage.list_schemas;
  read_migrations := SQLiteStorage.read_migrations;
  write_migration := SQLiteStorage.write_migration;
  read_keys := SQLiteStorage.read_keys;
  write_key := SQLiteStorage.write_key;
  reset_stale_pending := SQLiteStorage.reset_stale_pending;
  delete_synced_oplog_older_than := SQLiteStorage.delete_synced_oplog_older_than;
  list_tombstoned_documents := SQLiteStorage.list_tombstoned_documents scan;
  update_oplog_encrypted_blob := SQLiteStorage.update_oplog_encrypted_blob;
  list_active_documents := SQLiteStorage.list_active_documents scan;
  read_synced_oplog_for_document := SQLiteStorage.read_synced_oplog_for_document scan;
  delete_synced_oplog_before_timestamp := SQLiteStorage.delete_synced_oplog_before_timestamp;
  delete_synced_before := SQLiteStorage.delete_synced_before;
  write_batch_reconciliation := SQLiteStorage.write_batch_reconciliation;
  pending_count := SQLiteStorage.pending_count scan;
  begin_transaction := SQLiteStorage.begin_transaction;
  tx_mark_synced := λ tx _ _, match tx with end;
  tx_commit := λ _ tx, match tx with end;
|}.
