(* ===== verification/SqliteStorageTheory.v ===== *)
(** * The SQLite storage implements the abstract store

    A database represents an abstract store ([Storage.astore]) when its rows
    are those of the entries.  The operations keep this, and the reads return
    the entries as far as the columns hold them ([kept]). *)
From S2P Require Import Prelude Types Storage Sql SqliteStorage.
Import SQLiteStorage.

(** ** Entries and rows *)

Definition the_row (e : OplogEntry) : oplog_row :=
  OplogRow (oe_id e) (oe_namespace e) (oe_replica_id e) (show_mutation_type (oe_mutation_type e)) (oe_doc_id e)
    (oe_record_id e) (oe_yrs_update e) (oe_encrypted_blob e) (Z.of_N (oe_timestamp e)) (Z.of_N <$> oe_sequence e)
    (show_sync_status (oe_sync_status e)) (Z.of_N <$> oe_synced_at e) (Z.of_N (oe_created_at e)).

(** What reading an entry back gives: the schema version and the origin are not
    stored, and an optimistic entry is read as pending. *)
Definition kept (e : OplogEntry) : OplogEntry :=
  OplogEntry_new (oe_id e) (oe_replica_id e) (oe_namespace e) (oe_mutation_type e) (oe_doc_id e) (oe_record_id e)
    (oe_yrs_update e) (oe_encrypted_blob e) (oe_timestamp e) (oe_sequence e)
    (match oe_sync_status e with Optimistic => Pending | st => st end) (oe_synced_at e) (oe_created_at e) 0 OUnknown "".

(** The numbers fit the columns, and a synced entry has the time it was synced. *)
Definition entry_fits (e : OplogEntry) : bool :=
  fits_i64 (oe_timestamp e) && fits_i64 (oe_created_at e) &&
  match oe_sequence e with Some s => fits_i64 s | None => true end &&
  (negb (is_synced e) || bool_decide (is_Some (oe_synced_at e))).

Lemma as_u64_of_N n : as_u64 (Z.of_N n) = n.
Proof. unfold as_u64. destruct (Z.leb_spec 0 (Z.of_N n)); lia. Qed.

Lemma map_the_row e : map_oplog_entry (the_row e) = kept e.
Proof.
  unfold map_oplog_entry, the_row, kept. simpl. rewrite !as_u64_of_N.
  assert (∀ o : option N, as_u64 <$> (Z.of_N <$> o) = o) as Ho.
  { intros [n|]; simpl; [by rewrite as_u64_of_N|done]. }
  rewrite !Ho. f_equal.
  - by destruct (oe_mutation_type e).
  - by destruct (oe_sync_status e).
Qed.

Lemma row_of_entry_ok e : entry_fits e = true → oe_synced_at e = None → row_of_entry e = Ok (the_row e).
Proof.
  unfold entry_fits. rewrite !andb_true_iff. intros [[[Ht Hc] Hs] _] Hnone.
  unfold row_of_entry, the_row. rewrite !to_sql_fits by done. rewrite Hnone.
  destruct (oe_sequence e) as [s|]; simpl; [by rewrite to_sql_fits|done].
Qed.

(** The tests on rows are those on entries. *)
Lemma the_row_id ent e : r_has_id ent (the_row e) = has_id ent e.
Proof. done. Qed.
Lemma the_row_in ns e : r_in ns (the_row e) = in_namespace ns e.
Proof. done. Qed.
Lemma the_row_synced e : r_synced (the_row e) = is_synced e.
Proof. unfold r_synced, is_synced. simpl. by destruct (oe_sync_status e). Qed.
Lemma the_row_uploadable e : r_uploadable (the_row e) = is_uploadable (oe_sync_status e).
Proof. unfold r_uploadable. simpl. by destruct (oe_sync_status e). Qed.
Lemma the_row_before t e : fits_i64 t = true → r_before (as_i64 t) (the_row e) = (oe_created_at e <? t)%N.
Proof.
  intros Ht. unfold r_before. rewrite as_i64_small by done. simpl.
  destruct (Z.ltb_spec (Z.of_N (oe_created_at e)) (Z.of_N t)), (N.ltb_spec (oe_created_at e) t); lia || done.
Qed.
Lemma the_row_synced_before t e : fits_i64 t = true → is_Some (oe_synced_at e) →
  r_synced_before (as_i64 t) (the_row e) = (default 0%N (oe_synced_at e) <? t)%N.
Proof.
  intros Ht [s Hs]. unfold r_synced_before. rewrite as_i64_small by done. simpl. rewrite Hs. simpl.
  destruct (Z.ltb_spec (Z.of_N s) (Z.of_N t)), (N.ltb_spec s t); lia || done.
Qed.
Lemma the_row_document d r e : r_document d r (the_row e) = of_document d r e.
Proof. done. Qed.
Lemma the_row_delete e : bool_decide (or_mutation_type (the_row e) = "CrdtDelete") =
  bool_decide (oe_mutation_type e = CrdtDelete).
Proof. simpl. by destruct (oe_mutation_type e). Qed.

(** ** Representation *)

Record represents (a : astore) (c : t) : Prop := {
  rp_poison : rw_poisoned c = false;
  rp_outcomes : cn_outcomes (rw_val c) = [];
  rp_docs : sd_documents (cn_db (rw_val c)) = a_docs a;
  rp_log : sd_oplog (cn_db (rw_val c)) = map the_row (a_log a);
  rp_fits : forallb entry_fits (a_log a) = true;
  rp_ids : NoDup (oe_id <$> a_log a);
}.

Lemma represents_new : represents (AStore ∅ []) new.
Proof. split; try done. constructor. Qed.

Section ops.
Context {a : astore} {c : t} (Hrep : represents a c).

Lemma run_ready {A} (q : SM (conn sqlite_db) string A) r db : q (Conn (cn_db (rw_val c)) []) = (Ok r, Conn db []) →
  run q c = (Ok r, RwLock (Conn db []) false).
Proof.
  destruct Hrep as [Hp Ho _ _ _ _]. destruct c as [[db0 o] p]. simpl in *. subst p o.
  unfold run. simpl. by intros ->.
Qed.

Lemma filter_rows p q : (∀ e, e ∈ a_log a → p (the_row e) = q e) →
  filterb p (sd_oplog (cn_db (rw_val c))) = map the_row (filterb q (a_log a)).
Proof.
  intros Hpq. rewrite (rp_log _ _ Hrep), filterb_map. f_equal. by apply filterb_ext.
Qed.

(** A new state of the documents and the log. *)
Lemma represents_next docs log db : sd_documents db = docs → sd_oplog db = map the_row log →
  forallb entry_fits log = true → NoDup (oe_id <$> log) →
  represents (AStore docs log) (RwLock (Conn db []) false).
Proof. by split. Qed.

Lemma update_rows_ok p q f g : (∀ e, e ∈ a_log a → p (the_row e) = q e) →
  (∀ e, e ∈ a_log a → f (the_row e) = the_row (g e) ∧ oe_id (g e) = oe_id e) →
  (∀ e, e ∈ a_log a → q e = true → entry_fits (g e) = true) →
  ∃ c', run (execute (update_rows p f)) c = (Ok (length (filterb q (a_log a))), c') ∧
    represents (AStore (a_docs a) (map_if q g (a_log a))) c'.
Proof.
  intros Hpq Hfg Hfit. eexists. split.
  { apply run_ready. unfold execute, statement, update_rows. simpl.
    rewrite (filter_rows p q) by done. by rewrite length_map. }
  apply represents_next; simpl.
  - apply Hrep.
  - rewrite (rp_log _ _ Hrep). unfold map_if. rewrite !map_map. apply map_ext_in.
    intros e He%list_elem_of_In. rewrite (Hpq e He). by destruct (q e); [apply Hfg|].
  - apply forallb_forall. intros e' He'%list_elem_of_In. apply elem_of_map_if in He' as (e & He & ->).
    destruct (q e) eqn:Hq; [by apply Hfit|].
    eapply forallb_forall; [apply Hrep|by apply list_elem_of_In].
  - replace (oe_id <$> map_if q g (a_log a)) with (oe_id <$> a_log a); [apply Hrep|].
    unfold map_if. rewrite <-list_fmap_compose. apply list_fmap_ext. intros i e He. simpl.
    destruct (q e); [|done]. symmetry. apply Hfg. by eapply list_elem_of_lookup_2.
Qed.

Lemma delete_rows_ok p q : (∀ e, e ∈ a_log a → p (the_row e) = q e) →
  ∃ c', run (execute (delete_rows p)) c = (Ok (length (filterb q (a_log a))), c') ∧
    represents (a_drop q a) c'.
Proof.
  intros Hpq. eexists. split.
  { apply run_ready. unfold execute, statement, delete_rows. simpl.
    rewrite (filter_rows p q) by done. by rewrite length_map. }
  apply represents_next; simpl.
  - apply Hrep.
  - apply filter_rows. intros e He. f_equal. by apply Hpq.
  - apply forallb_forall. intros e He%list_elem_of_In. apply elem_of_filterb in He as [_ He].
    eapply forallb_forall; [apply Hrep|by apply list_elem_of_In].
  - eapply sublist_NoDup; [apply Hrep|]. apply fmap_sublist, sublist_filterb.
Qed.

Lemma documents_ok (f : gmap doc_key bytes → gmap doc_key bytes) :
  ∃ c', run (execute (λ db, (tt, on_documents f db))) c = (Ok tt, c') ∧
    represents (AStore (f (a_docs a)) (a_log a)) c'.
Proof.
  eexists. split; [by apply run_ready|]. apply represents_next; simpl; [|apply Hrep..].
  by rewrite (rp_docs _ _ Hrep).
Qed.

(** An entry that can be appended. *)
Definition appendable (e : OplogEntry) : Prop :=
  entry_fits e = true ∧ oe_synced_at e = None ∧ oe_id e ∉ oe_id <$> a_log a.

Lemma insert_row_ready e db : appendable e → sd_oplog db = map the_row (a_log a) →
  insert_oplog e (Conn db []) = (Ok tt, Conn (on_oplog (λ log, log ++ [the_row e]) db) []).
Proof.
  intros (Hfit & Hnone & Hnew) Hlog. unfold insert_oplog, convert.
  erewrite sm_bind_ok by (by rewrite row_of_entry_ok). unfold statement, insert_row. simpl.
  destruct (existsb _ _) eqn:Hex; [|done]. apply existsb_exists in Hex as (row & Hrow & Hid).
  destruct Hnew. apply bool_decide_eq_true in Hid. rewrite Hlog in Hrow.
  apply in_map_iff in Hrow as (e' & <- & He'). simpl in Hid. apply list_elem_of_fmap.
  exists e'. by rewrite list_elem_of_In.
Qed.

Lemma append_represents docs e db : appendable e → sd_documents db = docs → sd_oplog db = map the_row (a_log a) →
  represents (AStore docs (a_log a ++ [e])) (RwLock (Conn (on_oplog (λ log, log ++ [the_row e]) db) []) false).
Proof.
  intros (Hfit & Hnone & Hnew) Hdocs Hlog. apply represents_next; simpl.
  - done.
  - by rewrite Hlog, map_app.
  - rewrite forallb_app, (rp_fits _ _ Hrep). simpl. by rewrite Hfit.
  - rewrite fmap_app. apply NoDup_app. split_and!; [apply Hrep| |repeat constructor; set_solver].
    intros x Hx ->%list_elem_of_singleton. done.
Qed.

Lemma append_ok e : appendable e →
  ∃ c', append_oplog e c = (Ok tt, c') ∧ represents (a_append e a) c'.
Proof.
  intros He. eexists. split; [apply run_ready, insert_row_ready; [done|apply Hrep]|].
  apply append_represents; [done|apply Hrep..].
Qed.

Lemma write_both_ok (f : gmap doc_key bytes → gmap doc_key bytes) e : appendable e →
  ∃ c', run (transaction (execute (λ db, (tt, on_documents f db));; insert_oplog e)) c = (Ok tt, c') ∧
    represents (AStore (f (a_docs a)) (a_log a ++ [e])) c'.
Proof.
  intros He. eexists. split.
  { apply run_ready, transaction_reliable. erewrite sm_bind_ok by reflexivity.
    apply insert_row_ready; [done|apply Hrep]. }
  apply append_represents; [done| |apply Hrep]. simpl. by rewrite (rp_docs _ _ Hrep).
Qed.

Lemma write_batch_ok_sqlite docs :
  ∃ c', write_batch_reconciliation docs c = (Ok tt, c') ∧ represents (a_write_batch docs a) c'.
Proof.
  assert (∀ db, sd_oplog db = map the_row (a_log a) →
    ∃ db', for_each (λ '(d, r, bs), execute (upsert_document d r bs)) docs (Conn db []) =
        ((Ok tt : result unit string), Conn db' []) ∧
      sd_oplog db' = map the_row (a_log a) ∧
      sd_documents db' = foldl (λ m '(d, r, b), <[(d, r) := b]> m) (sd_documents db) docs) as Hloop.
  { induction docs as [|[[d r] b] docs IH]; intros db Hdb; [by exists db|].
    destruct (IH (on_documents <[(d, r) := b]> db) Hdb) as (db' & Hrun & H1 & H2).
    exists db'. split_and!; [|done..]. cbn [for_each]. by erewrite sm_bind_ok by reflexivity. }
  destruct (Hloop (cn_db (rw_val c))) as (db' & Hrun & Hlog & Hdocs); [apply Hrep|].
  assert (a_write_batch docs a = AStore (sd_documents db') (a_log a)) as ->.
  { rewrite Hdocs, (rp_docs _ _ Hrep). clear. destruct a as [m log]. simpl. revert m.
    induction docs as [|[[d r] b] docs IH]; intros m; simpl; [done|]. apply IH. }
  eexists. split; [by apply run_ready, transaction_reliable|]. by apply represents_next; [|done|apply Hrep..].
Qed.
End ops.

(** ** Histories *)

Inductive store_op :=
  | SInsert (d r : string) (bs : bytes)
  | SDelete (d r : string)
  | SWriteAndLog (d r : string) (bs : bytes) (e : OplogEntry)
  | SDeleteAndLog (d r : string) (e : OplogEntry)
  | SAppend (e : OplogEntry)
  | SMarkSynced (now : N) (ent : string) (seq : N)
  | SMarkFailed (ent : string)
  | SUpdateBlob (ent : string) (blob : bytes)
  | SResetStale (now : N) (ns : string) (ms : N)
  | SDropBefore (ns : string) (cutoff : N)
  | SDropOlder (now : N) (ns : string) (secs : N)
  | SDropOfDocument (ns d r : string) (timestamp : N)
  | SWriteBatch (docs : list (string * string * bytes)).

(** The operation on a storage, and on the abstract store. *)
Definition run_op {S} `{Storage S} (op : store_op) : SM S VaultSyncError unit :=
  match op with
  | SInsert d r bs => Storage.insert_document d r bs
  | SDelete d r => Storage.delete_document d r
  | SWriteAndLog d r bs e => Storage.write_document_and_oplog d r bs e
  | SDeleteAndLog d r e => Storage.delete_document_and_oplog d r e
  | SAppend e => Storage.append_oplog e
  | SMarkSynced now ent seq => Storage.mark_synced now ent seq
  | SMarkFailed ent => Storage.mark_failed ent ""
  | SUpdateBlob ent blob => Storage.update_oplog_encrypted_blob ent blob
  | SResetStale now ns ms => Storage.reset_stale_pending now ns ms;; mret tt
  | SDropBefore ns cutoff => Storage.delete_synced_before ns cutoff;; mret tt
  | SDropOlder now ns secs => Storage.delete_synced_oplog_older_than now ns secs;; mret tt
  | SDropOfDocument ns d r t => Storage.delete_synced_oplog_before_timestamp ns d r t;; mret tt
  | SWriteBatch docs => Storage.write_batch_reconciliation docs
  end.

Definition a_op (op : store_op) (a : astore) : astore :=
  match op with
  | SInsert d r bs => a_insert d r bs a
  | SDelete d r => a_delete d r a
  | SWriteAndLog d r bs e => a_append e (a_insert d r bs a)
  | SDeleteAndLog d r e => a_append e (a_delete d r a)
  | SAppend e => a_append e a
  | SMarkSynced now ent seq => a_mark_synced now ent seq a
  | SMarkFailed ent => a_mark_failed ent a
  | SUpdateBlob ent blob => a_update_blob ent blob a
  | SResetStale now ns ms => a_reset_stale ns (saturating_sub now ms) a
  | SDropBefore ns cutoff => a_drop (synced_before ns cutoff) a
  | SDropOlder now ns secs => a_drop (synced_earlier ns (saturating_sub now secs)) a
  | SDropOfDocument ns d r t => a_drop (synced_of_document ns d r t) a
  | SWriteBatch docs => a_write_batch docs a
  end.

(** Entries are new and not yet synced, and the numbers fit the columns. *)
Definition op_ok (op : store_op) (a : astore) : Prop :=
  match op with
  | SWriteAndLog _ _ _ e | SDeleteAndLog _ _ e | SAppend e => @appendable a e
  | SMarkSynced _ _ seq => fits_i64 seq = true
  | SResetStale now _ ms => fits_i64 (saturating_sub now ms) = true
  | SDropBefore _ cutoff => fits_i64 cutoff = true
  | SDropOlder now _ secs => fits_i64 (saturating_sub now secs) = true
  | SDropOfDocument _ _ _ t => fits_i64 t = true
  | _ => True
  end.

Lemma entry_fits_synced e : entry_fits e = true → is_synced e = true → is_Some (oe_synced_at e).
Proof.
  unfold entry_fits. intros [_ H]%andb_true_iff Hs. rewrite Hs in H. by apply bool_decide_eq_true in H.
Qed.

Lemma update_first_unique {A B} (key : A → B) `{EqDecision B} (k : B) f (l : list A) : NoDup (key <$> l) →
  map_if (λ a, bool_decide (key a = k)) f l = update_first (λ a, bool_decide (key a = k)) f l.
Proof.
  intros Hnd. induction l as [|x l IH]; [done|]. apply NoDup_cons in Hnd as [Hx Hnd]. simpl.
  destruct (bool_decide (key x = k)) eqn:Hk; [|f_equal; by apply IH].
  f_equal. unfold map_if. rewrite <-(map_id l) at 2. apply map_ext_in. intros y Hy.
  rewrite bool_decide_eq_false_2; [done|]. intros Heq. apply bool_decide_eq_true in Hk. destruct Hx.
  rewrite Hk, <-Heq. apply list_elem_of_fmap. exists y. by rewrite list_elem_of_In.
Qed.

Section theorem.
Context (scan : list oplog_row → list oplog_row).
#[local] Existing Instance sqlite_storage.

Lemma discard_count {A} (m : SM t VaultSyncError A) c n c' :
  m c = (Ok n, c') → (m;; mret tt) c = ((Ok tt : result unit VaultSyncError), c').
Proof. intros H. by rewrite (sm_bind_ok _ _ _ _ _ H). Qed.

Lemma run_discard f (c c' : t) n : run (execute (A := nat) f) c = (Ok n, c') →
  run (execute f;; mret tt) c = (Ok tt, c').
Proof.
  unfold run. destruct (rw_poisoned c); [done|]. unfold mbind, sm_bind.
  destruct (execute f (rw_val c)) as [[k|] d]; [|done]. by intros [= _ <-].
Qed.

Lemma fits_of a c e : represents a c → e ∈ a_log a → entry_fits e = true.
Proof. intros Hrep He. eapply forallb_forall; [apply Hrep|by apply list_elem_of_In]. Qed.

Lemma status_fits st e : entry_fits e = true → st ≠ Synced → entry_fits (set_status st e) = true.
Proof.
  unfold entry_fits. rewrite !andb_true_iff. intros [[[H1 H2] H3] _] Hst. simpl. rewrite H1, H2, H3.
  unfold is_synced. simpl. by rewrite bool_decide_eq_false_2.
Qed.

Lemma synced_fits seq now e : fits_i64 seq = true → entry_fits e = true → entry_fits (set_synced seq now e) = true.
Proof.
  unfold entry_fits. rewrite !andb_true_iff. intros Hs [[[H1 H2] _] _]. simpl. by rewrite H1, H2, Hs.
Qed.

Lemma run_op_ok op a c : represents a c → op_ok op a →
  ∃ c', run_op (H := sqlite_storage scan) op c = (Ok tt, c') ∧ represents (a_op op a) c'.
Proof.
  intros Hrep Hok. destruct op as [d r bs|d r|d r bs e|d r e|e|now ent seq|ent|ent blob|now ns ms|ns cut|now ns secs|ns d r ts|docs];
    simpl in Hok |- *.
  - by apply (documents_ok Hrep).
  - by apply (documents_ok Hrep).
  - by apply (write_both_ok Hrep).
  - by apply (write_both_ok Hrep).
  - by apply (append_ok Hrep).
  - destruct (update_rows_ok Hrep (r_has_id ent) (has_id ent) (row_synced (as_i64 seq) (Z.of_N now)) (set_synced seq now))
      as (c' & Hrun & Hr); [done| | |].
    + intros e _. split; [|done]. by rewrite as_i64_small.
    + intros e He _. apply synced_fits; [done|by eapply fits_of].
    + exists c'. split; [|done]. by eapply run_discard.
  - destruct (update_rows_ok Hrep (r_has_id ent) (has_id ent) (row_status "Failed") (set_status Failed))
      as (c' & Hrun & Hr); [done|done| |].
    + intros e He _. apply status_fits; [by eapply fits_of|done].
    + exists c'. split; [|done]. by eapply run_discard.
  - destruct (update_rows_ok Hrep (r_has_id ent) (has_id ent) (row_blob blob) (set_encrypted_blob blob))
      as (c' & Hrun & Hr); [done|done|by intros e He _; exact (fits_of a c e Hrep He)|].
    exists c'. split; [by eapply run_discard|]. unfold a_update_blob. unfold has_id.
    rewrite <-update_first_unique by apply Hrep. done.
  - destruct (update_rows_ok Hrep (λ r, r_in ns r && negb (r_synced r) && r_before (as_i64 (saturating_sub now ms)) r)
      (InMemoryStorage.stale_pending ns (saturating_sub now ms)) (row_status "Pending") (set_status Pending))
      as (c' & Hrun & Hr); [|done| |].
    + intros e _. by rewrite the_row_in, the_row_synced, the_row_before.
    + intros e He _. apply status_fits; [by eapply fits_of|done].
    + exists c'. split; [|done]. by eapply discard_count.
  - destruct (delete_rows_ok Hrep (λ row, r_in ns row && r_synced row && r_before (as_i64 cut) row) (synced_before ns cut))
      as (c' & Hrun & Hr).
    + intros e _. by rewrite the_row_in, the_row_synced, the_row_before.
    + exists c'. split; [|done]. by eapply discard_count.
  - destruct (delete_rows_ok Hrep (λ r, r_in ns r && r_synced r && r_synced_before (as_i64 (saturating_sub now secs)) r)
      (synced_earlier ns (saturating_sub now secs))) as (c' & Hrun & Hr).
    + intros e He. rewrite the_row_in, the_row_synced. unfold synced_earlier.
      destruct (is_synced e) eqn:Hs; [|by rewrite !andb_false_r].
      rewrite the_row_synced_before; [done..|]. eapply entry_fits_synced; [by eapply fits_of|done].
    + exists c'. split; [|done]. by eapply discard_count.
  - destruct (delete_rows_ok Hrep (λ row, r_in ns row && r_document d r row && r_synced row && r_before (as_i64 ts) row)
      (synced_of_document ns d r ts)) as (c' & Hrun & Hr).
    + intros e _. by rewrite the_row_in, the_row_document, the_row_synced, the_row_before.
    + exists c'. split; [|done]. by eapply discard_count.
  - by apply (write_batch_ok_sqlite Hrep).
Qed.

Fixpoint ops_ok (ops : list store_op) (a : astore) : Prop :=
  match ops with
  | [] => True
  | op :: ops => op_ok op a ∧ ops_ok ops (a_op op a)
  end.

Definition a_ops (ops : list store_op) (a : astore) : astore := foldl (λ a op, a_op op a) a ops.

Lemma run_ops_ok ops a c : represents a c → ops_ok ops a →
  ∃ c', for_each (run_op (H := sqlite_storage scan)) ops c = (Ok tt, c') ∧ represents (a_ops ops a) c'.
Proof.
  revert a c. induction ops as [|op ops IH]; intros a c Hrep Hok; [by exists c|].
  destruct Hok as [Hop Hok]. destruct (run_op_ok op a c Hrep Hop) as (c1 & Hrun & Hrep1).
  destruct (IH _ c1 Hrep1 Hok) as (c2 & Hrun2 & Hrep2). exists c2. split; [|done].
  cbn [for_each]. by rewrite (sm_bind_ok _ _ _ _ _ Hrun).
Qed.

(** A query that leaves the database alone leaves the connection alone. *)
Lemma run_reads a c {A} (q : SM (conn sqlite_db) string A) r : represents a c →
  q (Conn (cn_db (rw_val c)) []) = (Ok r, Conn (cn_db (rw_val c)) []) → run q c = (Ok r, c).
Proof.
  intros Hrep Hq. rewrite (run_ready Hrep _ _ _ Hq).
  destruct Hrep as [Hp Ho _ _ _ _]. destruct c as [[db o] p]. simpl in *. by subst.
Qed.

Lemma get_document_represents a c d r : represents a c → get_document d r c = (Ok (a_docs a !! (d, r)), c).
Proof.
  intros Hrep. rewrite <-(rp_docs _ _ Hrep). unfold get_document.
  apply (run_reads a); [done|]. by erewrite sm_bind_ok by reflexivity.
Qed.

Definition entry_created_le (a b : OplogEntry) : Prop := (oe_created_at a ≤ oe_created_at b)%N.

Hypothesis scan_perm : ∀ l, scan l ≡ₚ l.

#[local] Instance created_le_total : Total created_le.
Proof. intros a b. unfold created_le. lia. Qed.
#[local] Instance created_le_trans : Transitive created_le.
Proof. intros a b k. unfold created_le. lia. Qed.

Lemma sorted_rows_entries rows log : StronglySorted created_le rows → rows ≡ₚ map the_row log →
  map map_oplog_entry rows ≡ₚ map kept log ∧ StronglySorted entry_created_le (map map_oplog_entry rows).
Proof.
  intros Hs Hp. split.
  - rewrite Hp, map_map. by rewrite (map_ext _ kept) by apply map_the_row.
  - assert (∀ row, row ∈ rows → (0 ≤ or_created_at row)%Z) as Hpos.
    { intros row Hrow. rewrite Hp in Hrow. apply list_elem_of_fmap in Hrow as (e & -> & _). simpl. lia. }
    clear Hp. induction Hs as [|row rows Hs IH Hall]; simpl; constructor; [apply IH; intros; apply Hpos; by right|].
    apply Forall_map. rewrite Forall_forall in Hall |- *. intros row' Hrow'. specialize (Hall row' Hrow').
    unfold created_le, entry_created_le in *. simpl.
    pose proof (Hpos row ltac:(by left)). pose proof (Hpos row' ltac:(by right)).
    unfold as_u64. rewrite !(proj2 (Z.leb_le _ _)) by done. lia.
Qed.

Lemma read_pending_represents a c ns limit : represents a c →
  length (pending_of ns (a_log a)) ≤ limit → fits_i64 (N.of_nat limit) = true →
  ∃ l, read_pending_oplog scan ns limit c = (Ok l, c) ∧ l ≡ₚ map kept (pending_of ns (a_log a)) ∧
    StronglySorted entry_created_le l.
Proof.
  intros Hrep Hlimit Hfits. set (rows := stable_sort created_le (select_rows scan (λ r, r_in ns r && r_uploadable r) (cn_db (rw_val c)))).
  assert (rows ≡ₚ map the_row (pending_of ns (a_log a))) as Hrows.
  { unfold rows. rewrite stable_sort_Permutation. unfold select_rows. rewrite scan_perm.
    rewrite (filter_rows Hrep _ (uploadable_in ns)); [done|].
    intros e _. unfold uploadable_in. by rewrite the_row_in, the_row_uploadable. }
  exists (map map_oplog_entry rows). split.
  - unfold read_pending_oplog. apply (run_reads a); [done|].
    erewrite sm_bind_ok by reflexivity. erewrite sm_bind_ok by reflexivity. fold rows.
    unfold limit_rows. rewrite as_i64_small by done.
    destruct (Z.ltb_spec (Z.of_N (N.of_nat limit)) 0); [lia|]. rewrite take_ge; [done|].
    cbn [cn_db]. fold rows. rewrite Hrows, length_map. lia.
  - apply sorted_rows_entries; [apply (stable_sort_sorted created_le _)|done].
Qed.

(** C26: The SQLite storage implements the abstract store: after any history of
    writes, deletions, logged writes, marks, resets, clean-ups and batches
    whose entries are new and whose numbers fit the columns, every document
    reads as in the abstract store, and the pending entries of a namespace are
    read completely, ordered by their time of creation, as far as the columns
    keep them (without schema version and origin). *)
Theorem sqlite_storage_refines_store ops a c : represents a c → ops_ok ops a →
  ∃ c', for_each (run_op (H := sqlite_storage scan)) ops c = (Ok tt, c') ∧
    represents (a_ops ops a) c' ∧
    (∀ d r, get_document d r c' = (Ok (a_docs (a_ops ops a) !! (d, r)), c')) ∧
    (∀ ns limit, length (pending_of ns (a_log (a_ops ops a))) ≤ limit → fits_i64 (N.of_nat limit) = true →
      ∃ l, read_pending_oplog scan ns limit c' = (Ok l, c') ∧
        l ≡ₚ map kept (pending_of ns (a_log (a_ops ops a))) ∧ StronglySorted entry_created_le l).
Proof.
  intros Hrep Hok. destruct (run_ops_ok ops a c Hrep Hok) as (c' & Hrun & Hrep').
  exists c'. split_and!; [done..| |]; intros.
  - by apply get_document_represents.
  - by apply read_pending_represents.
Qed.
End theorem.

(** A logged write to the SQLite storage is atomic: if any statement of it
    fails, because the id of the entry is taken, a number does not fit or the
    database reports an error, neither the document nor the log is changed. *)
Theorem sqlite_logged_write_atomic d r bs e c err c' :
  write_document_and_oplog d r bs e c = (Err err, c') →
  cn_db (rw_val c') = cn_db (rw_val c).
Proof.
  unfold write_document_and_oplog, run. destruct (rw_poisoned c); [by intros [= _ <-]|].
  destruct (transaction _ _) as [[u|m] k] eqn:Htx; [done|]. intros [= _ <-].
  by apply transaction_err in Htx.
Qed.

(** ** Witnesses *)

Definition sample_logged (ent : string) (created : N) : OplogEntry :=
  OplogEntry_new ent "replica" "ns" CrdtInsert "todos" "r1" [1%N] None 5 None Optimistic None created 3 OInsert "".

Lemma sqlite_storage_refines_store_witness :
  ∃ c', for_each (run_op (H := sqlite_storage (@rev _)))
      [SWriteAndLog "todos" "r1" [1%N] (sample_logged "a" 20); SWriteAndLog "todos" "r2" [2%N] (sample_logged "b" 10);
       SMarkSynced 9 "a" 1] new = (Ok tt, c') ∧
    get_document "todos" "r2" c' = (Ok (Some [2%N]), c').
Proof.
  destruct (sqlite_storage_refines_store (@rev _) (λ l, symmetry (Permutation_rev l))
    [SWriteAndLog "todos" "r1" [1%N] (sample_logged "a" 20); SWriteAndLog "todos" "r2" [2%N] (sample_logged "b" 10);
     SMarkSynced 9 "a" 1] (AStore ∅ []) new represents_new) as (c' & Hrun & _ & Hget & _).
  - cbn [ops_ok op_ok]. unfold appendable. split_and!; try done; apply (bool_decide_unpack _); by vm_compute.
  - exists c'. split; [exact Hrun|]. rewrite Hget. by vm_compute.
Defined.

Lemma sqlite_logged_write_atomic_witness :
  ∃ err c', write_document_and_oplog "todos" "r1" [9%N] (sample_logged "a" 20)
      (rw_new (Conn (SqliteDb ∅ [the_row (sample_logged "a" 20)] ∅ ∅ ∅ ∅) [])) = (Err err, c') ∧
    sd_documents (cn_db (rw_val c')) = ∅.
Proof.
  eexists _, _. split; [reflexivity|].
  erewrite (sqlite_logged_write_atomic "todos" "r1" [9%N] (sample_logged "a" 20)
    (rw_new (Conn (SqliteDb ∅ [the_row (sample_logged "a" 20)] ∅ ∅ ∅ ∅) []))) by reflexivity.
  reflexivity.
Defined.
