(* ===== verification/Coordinator.v ===== *)
(** * The coordinator interface and the in-memory coordinator

    [coordinator/traits.rs] and [coordinator/memory.rs].  The coordinator
    orders the encrypted mutations of a namespace; replicas push batches to it
    and pull from it by sequence number. *)
From S2P Require Import Prelude BTree Types.

(** ** The [Coordinator] trait *)

Class Coordinator (C : Type) := {
  push : string → list EncryptedMutation → SM C CoordinatorError (list N);
  pull : string → N → nat → SM C CoordinatorError (list PendingMutation);
  register : string → ReplicaInfo → N → SM C CoordinatorError unit;
  heartbeat : string → string → SM C CoordinatorError unit;
  schema_version : string → SM C CoordinatorError N;
  disconnect : SM C CoordinatorError unit;
  generation_id : C → string;
  history_preserved : C → bool;
  max_sequence : C → N;
  update_replica_key : string → string → bytes → N → SM C CoordinatorError unit;
  get_replica_key : string → string → SM C CoordinatorError (option (bytes * N));
  list_replicas : string → SM C CoordinatorError (list ReplicaInfo);
  get_snapshot : string → string → string → SM C CoordinatorError (option Snapshot);
  store_snapshot : string → Snapshot → SM C CoordinatorError unit;
  compact_oplog : string → SM C CoordinatorError CompactionStats;
  list_snapshots : string → SM C CoordinatorError (list Snapshot);
}.

(** The default [cursor_validation]. *)
Definition cursor_validation `{Coordinator C} (cursor : N) (c : C) : CursorValidation :=
  let server_max := max_sequence c in
  if (server_max =? 0)%N then CVUnknown
  else if (cursor <=? server_max)%N then CVValid
  else CVInvalid.

(** ** [InMemoryCoordinator] *)

Module InMemoryCoordinator.

Record t := mk {
  next_seq : N;
  highest_seq : N;
  ops : rwlock (btree (string * N) PendingMutation);
  schema_versions : rwlock (gmap string N);
  replicas : rwlock (gmap (string * string) ReplicaInfo);
  replica_keys : rwlock (gmap (string * string) (bytes * N));
  snapshots : rwlock (gmap (string * string * string) Snapshot);
  (** every message handed to the broadcast channel, oldest first *)
  sent : list PendingMutation;
}.

Definition new : t :=
  mk 1 0 (rw_new []) (rw_new ∅) (rw_new ∅) (rw_new ∅) (rw_new ∅) [].

Abbreviation M := (SM t CoordinatorError).

Definition lock {A} (get : t → rwlock A) : M A := rw_lock NotAvailable get.

Definition with_ops f (c : t) : t :=
  mk (next_seq c) (highest_seq c) (rw_update f (ops c)) (schema_versions c) (replicas c)
    (replica_keys c) (snapshots c) (sent c).

(** The scan of [push] for a mutation it has already stored. *)
Fixpoint find_existing (ns id : string) (m : btree (string * N) PendingMutation) : option N :=
  match m with
  | [] => None
  | ((ns_key, _), pm) :: m' =>
      if bool_decide (ns_key = ns) && bool_decide (pm_id pm = id) then Some (pm_sequence pm)
      else find_existing ns id m'
  end.

Definition to_pending (ns : string) (seq : N) (m : EncryptedMutation) : PendingMutation :=
  PendingMutation_new (em_id m) ns seq (em_doc_id m) (em_record_id m) (em_encrypted_blob m)
    (em_timestamp m) (em_key_version m) (em_replica_id m).

(** [next_seq.fetch_add(1)], then [highest_seq.store(seq)]. *)
Definition take_seq : M N := λ c,
  (Ok (next_seq c),
   mk (wrapping_add64 (next_seq c) 1) (next_seq c) (ops c) (schema_versions c) (replicas c)
     (replica_keys c) (snapshots c) (sent c)).

(** One turn of the loop of [push], under the lock on [ops]: the sequence to
    report, and the mutation to broadcast when it is new. *)
Definition push_one (ns : string) (m : EncryptedMutation) : M (N * option PendingMutation) :=
  stored ← sm_gets (λ c, rw_val (ops c));
  match find_existing ns (em_id m) stored with
  | Some seq => mret (seq, None)
  | None =>
      seq ← take_seq;
      let pm := to_pending ns seq m in
      sm_modify (with_ops (bt_insert (ns, seq) pm));;
      mret (seq, Some pm)
  end.

Definition broadcast (pms : list PendingMutation) (c : t) : t :=
  mk (next_seq c) (highest_seq c) (ops c) (schema_versions c) (replicas c)
    (replica_keys c) (snapshots c) (sent c ++ pms).

(** The part of [push] under the lock: sequences and mutations to broadcast. *)
Definition push_locked (ns : string) (ms : list EncryptedMutation) :
    M (list N * list PendingMutation) :=
  lock ops;;
  res ← map_each (push_one ns) ms;
  mret (map fst res, omap snd res).

Definition push (ns : string) (ms : list EncryptedMutation) : M (list N) :=
  '(seqs, to_broadcast) ← push_locked ns ms;
  sm_modify (broadcast to_broadcast);;
  mret seqs.

Definition pull (ns : string) (after : N) (limit : nat) : M (list PendingMutation) :=
  stored ← lock ops;
  let range := bt_range_from (ns, wrapping_add64 after 1) stored in
  mret (map snd (take limit (filterb (λ p, bool_decide (p.1.1 = ns)) range))).

Definition register (ns : string) (info : ReplicaInfo) (_last_sequence : N) : M unit :=
  lock replicas;;
  sm_modify (λ c, mk (next_seq c) (highest_seq c) (ops c) (schema_versions c)
    (rw_update <[(ns, ri_replica_id info) := info]> (replicas c))
    (replica_keys c) (snapshots c) (sent c));;
  ks ← lock replica_keys;
  sm_modify (λ c, mk (next_seq c) (highest_seq c) (ops c) (schema_versions c) (replicas c)
    (rw_set (match ks !! (ns, ri_replica_id info) with
             | Some _ => ks
             | None => <[(ns, ri_replica_id info) := (ri_public_key info, 1%N)]> ks
             end) (replica_keys c)) (snapshots c) (sent c));;
  versions ← lock schema_versions;
  let current := default 0%N (versions !! ns) in
  sm_modify (λ c, mk (next_seq c) (highest_seq c) (ops c)
    (rw_update <[ns := N.max current (ri_schema_version info)]> (schema_versions c))
    (replicas c) (replica_keys c) (snapshots c) (sent c)).

Definition update_replica_key (ns replica_id : string) (public_key : bytes)
    (key_version : N) : M unit :=
  lock replica_keys;;
  sm_modify (λ c, mk (next_seq c) (highest_seq c) (ops c) (schema_versions c) (replicas c)
    (rw_update <[(ns, replica_id) := (public_key, key_version)]> (replica_keys c))
    (snapshots c) (sent c)).

Definition get_replica_key (ns replica_id : string) : M (option (bytes * N)) :=
  ks ← lock replica_keys;
  mret (ks !! (ns, replica_id)).

Definition heartbeat (_ns _replica_id : string) : M unit := mret tt.

Definition list_replicas (ns : string) : M (list ReplicaInfo) :=
  reps ← lock replicas;
  mret (map snd (filterb (λ p : (string * string) * ReplicaInfo, bool_decide (p.1.1 = ns))
    (map_to_list reps))).

Definition max_sequence (c : t) : N := highest_seq c.

Definition schema_version (ns : string) : M N :=
  versions ← lock schema_versions;
  mret (default 0%N (versions !! ns)).

Definition get_snapshot (ns doc_id record_id : string) : M (option Snapshot) :=
  snaps ← lock snapshots;
  mret (snaps !! (ns, doc_id, record_id)).

Definition store_snapshot (ns : string) (s : Snapshot) : M unit :=
  lock snapshots;;
  sm_modify (λ c, mk (next_seq c) (highest_seq c) (ops c) (schema_versions c) (replicas c)
    (replica_keys c) (rw_update <[(ns, sn_doc_id s, sn_record_id s) := s]> (snapshots c))
    (sent c)).

Definition namespace_snapshots (ns : string) (snaps : gmap (string * string * string) Snapshot) :
    list Snapshot :=
  map snd (filterb (λ p : (string * string * string) * Snapshot, bool_decide (p.1.1.1 = ns))
    (map_to_list snaps)).

Definition list_snapshots (ns : string) : M (list Snapshot) :=
  snaps ← lock snapshots;
  mret (namespace_snapshots ns snaps).

(** A stored mutation that a snapshot has absorbed. *)
Definition covered (ns : string) (s : Snapshot) (p : (string * N) * PendingMutation) : bool :=
  bool_decide (p.1.1 = ns) && bool_decide (pm_doc_id p.2 = sn_doc_id s) &&
  bool_decide (pm_record_id p.2 = sn_record_id s) && (p.1.2 <=? sn_sequence s)%N.

(** One turn of the loop of [compact_oplog]. *)
Definition compact_one (ns : string) (s : Snapshot)
    (acc : btree (string * N) PendingMutation * nat * nat) :
    btree (string * N) PendingMutation * nat * nat :=
  let '(m, removed, collapsed) := acc in
  let keys_to_remove := map fst (filterb (covered ns s) m) in
  match keys_to_remove with
  | [] => (m, removed, collapsed)
  | _ =>
      let '(m', removed') := foldl bt_remove_counting (m, removed) keys_to_remove in
      (m', removed', S collapsed)
  end.

Definition compact_oplog (ns : string) : M CompactionStats :=
  snaps ← lock snapshots;
  let namespace_snaps := namespace_snapshots ns snaps in
  stored ← lock ops;
  let '(m, removed, collapsed) :=
    foldl (λ acc s, compact_one ns s acc) (stored, 0, 0) namespace_snaps in
  sm_modify (with_ops (λ _, m));;
  mret (CompactionStats_new removed 0 collapsed).

End InMemoryCoordinator.

#[export] Instance in_memory_coordinator : Coordinator InMemoryCoordinator.t := {|
  push := InMemoryCoordinator.push;
  pull := InMemoryCoordinator.pull;
  register := InMemoryCoordinator.register;
  heartbeat := InMemoryCoordinator.heartbeat;
  schema_version := InMemoryCoordinator.schema_version;
  disconnect := mret tt;
  generation_id := λ _, "";
  history_preserved := λ _, false;
  max_sequence := InMemoryCoordinator.max_sequence;
  update_replica_key := InMemoryCoordinator.update_replica_key;
  get_replica_key := InMemoryCoordinator.get_replica_key;
  list_replicas := InMemoryCoordinator.list_replicas;
  get_snapshot := InMemoryCoordinator.get_snapshot;
  store_snapshot := InMemoryCoordinator.store_snapshot;
  compact_oplog := InMemoryCoordinator.compact_oplog;
  list_snapshots := InMemoryCoordinator.list_snapshots;
|}.
