(* ===== verification/CoordinatorTheory.v ===== *)
(** * What the in-memory coordinator promises

    The specification is one append-only log per namespace ([alog_push],
    [alog_pull]); [InMemoryCoordinator] keeps all namespaces in one ordered map
    and is shown to implement it. *)
From S2P Require Import Prelude BTree Types Coordinator.
Import InMemoryCoordinator.

(** ** The abstract log *)

Definition log_find (ent : string) (log : list PendingMutation) : option N :=
  pm_sequence <$> head (filterb (λ pm, bool_decide (pm_id pm = ent)) log).

(** Pushing a batch: a known id keeps its sequence, a new one is appended with
    the next sequence. *)
Fixpoint alog_push (ns : string) (ms : list EncryptedMutation) (next : N)
    (log : list PendingMutation) : list N * list PendingMutation * N :=
  match ms with
  | [] => ([], log, next)
  | m :: ms' =>
      match log_find (em_id m) log with
      | Some seq =>
          let '(seqs, log', next') := alog_push ns ms' next log in
          (seq :: seqs, log', next')
      | None =>
          let '(seqs, log', next') :=
            alog_push ns ms' (next + 1)%N (log ++ [to_pending ns next m]) in
          (next :: seqs, log', next')
      end
  end.

Definition alog_pull (after : N) (limit : nat) (log : list PendingMutation) :
    list PendingMutation :=
  take limit (filterb (λ pm, (after <? pm_sequence pm)%N) log).

Lemma log_find_app ent log log' seq :
  log_find ent log = Some seq → log_find ent (log ++ log') = Some seq.
Proof.
  unfold log_find. rewrite filterb_app. by destruct (filterb _ log) as [|pm l].
Qed.

Lemma log_find_snoc ns seq m log :
  log_find (em_id m) log = None →
  log_find (em_id m) (log ++ [to_pending ns seq m]) = Some seq.
Proof.
  unfold log_find. rewrite filterb_app.
  destruct (filterb _ log) as [|pm l]; simpl; [|done].
  intros _. by rewrite bool_decide_true.
Qed.

Lemma log_find_Some ent log seq :
  log_find ent log = Some seq → ∃ pm, pm ∈ log ∧ pm_id pm = ent ∧ pm_sequence pm = seq.
Proof.
  unfold log_find. destruct (filterb _ log) as [|pm l] eqn:Hf; simpl; [done|].
  intros [= <-]. exists pm.
  assert (Hin : pm ∈ filterb (λ pm, bool_decide (pm_id pm = ent)) log) by (rewrite Hf; left).
  apply elem_of_filterb in Hin as [Hid%bool_decide_eq_true Hin]. done.
Qed.

Lemma log_find_None ent log pm : log_find ent log = None → pm ∈ log → pm_id pm ≠ ent.
Proof.
  unfold log_find. intros Hf Hpm Hid.
  assert (Hin : pm ∈ filterb (λ pm, bool_decide (pm_id pm = ent)) log).
  { apply elem_of_filterb. by rewrite bool_decide_true. }
  destruct (filterb _ log); [by apply elem_of_nil in Hin|done].
Qed.

(** A push extends the log and records every mutation of the batch under the
    sequence it reports. *)
Lemma alog_push_extends ns ms next log seqs log' next' :
  alog_push ns ms next log = (seqs, log', next') →
  (∃ ext, log' = log ++ ext) ∧
  Forall2 (λ m seq, log_find (em_id m) log' = Some seq) ms seqs.
Proof.
  revert next log seqs log' next'.
  induction ms as [|m ms IH]; intros next log seqs log' next'; simpl.
  { intros [= <- <- <-]. split; [exists []; by rewrite app_nil_r|constructor]. }
  destruct (log_find (em_id m) log) as [seq|] eqn:Hf.
  - destruct (alog_push ns ms next log) as [[seqs1 log1] next1] eqn:Hp. intros [= <- <- <-].
    apply IH in Hp as [[ext ->] Hall]. split; [by exists ext|].
    constructor; [by apply log_find_app|done].
  - destruct (alog_push ns ms (next + 1) _) as [[seqs1 log1] next1] eqn:Hp.
    intros [= <- <- <-]. apply IH in Hp as [[ext ->] Hall]. split.
    + exists ([to_pending ns next m] ++ ext). by rewrite app_assoc.
    + constructor; [|done]. by apply log_find_app, log_find_snoc.
Qed.

(** A mutation with a new id gets a sequence no smaller than the counter. *)
Lemma alog_push_fresh ns ms next log seqs log' next' :
  alog_push ns ms next log = (seqs, log', next') →
  ∀ m, m ∈ ms → log_find (em_id m) log = None → ∃ seq, seq ∈ seqs ∧ (next ≤ seq)%N.
Proof.
  revert next log seqs log' next'.
  induction ms as [|m0 ms IH]; intros next log seqs log' next' Hp m Hin Hnone;
    [by apply elem_of_nil in Hin|].
  simpl in Hp. destruct (log_find (em_id m0) log) as [seq0|] eqn:Hf.
  - destruct (alog_push ns ms next log) as [[seqs1 log1] next1] eqn:Hp1. injection Hp as <- <- <-.
    apply elem_of_cons in Hin as [->|Hin]; [congruence|].
    destruct (IH _ _ _ _ _ Hp1 m Hin Hnone) as (seq & ? & ?). exists seq. split; [by right|done].
  - destruct (alog_push ns ms (next + 1) _) as [[seqs1 log1] next1]. injection Hp as <- <- <-.
    exists next. split; [left|lia].
Qed.

(** A batch of new ids is appended whole, in order. *)
Lemma alog_push_all_fresh ns ms next log :
  NoDup (em_id <$> ms) → (∀ m, m ∈ ms → log_find (em_id m) log = None) →
  ∃ seqs, alog_push ns ms next log =
    (seqs, log ++ imap (λ i m, to_pending ns (next + N.of_nat i) m) ms, (next + N.of_nat (length ms))%N).
Proof.
  revert next log. induction ms as [|m ms IH]; intros next log Hnd Hf.
  { exists []. simpl. by rewrite app_nil_r, N.add_0_r. }
  apply NoDup_cons in Hnd as [Hnin Hnd]. simpl. rewrite (Hf m) by left.
  destruct (IH (next + 1)%N (log ++ [to_pending ns next m])) as [seqs Hp]; [done| |].
  { intros m' Hm'. specialize (Hf m' ltac:(by right)). unfold log_find in *. rewrite filterb_app.
    destruct (filterb _ log); [|done]. simpl. rewrite bool_decide_false; [done|].
    intros Heq. apply Hnin. rewrite Heq. by apply list_elem_of_fmap_2. }
  rewrite Hp. exists (next :: seqs).
  replace (next + 1 + N.of_nat (length ms))%N with (next + N.of_nat (S (length ms)))%N by lia.
  rewrite <-app_assoc. simpl. rewrite N.add_0_r. do 4 f_equal. apply imap_ext. intros i x _. simpl. f_equal. lia.
Qed.

(** A batch whose mutations are all recorded changes nothing. *)
Lemma alog_push_recorded ns ms next log seqs :
  Forall2 (λ m seq, log_find (em_id m) log = Some seq) ms seqs →
  alog_push ns ms next log = (seqs, log, next).
Proof. induction 1 as [|m seq ms seqs Hf _ IH]; simpl; [done|]. by rewrite Hf, IH. Qed.

(** ** The ordered map as a family of logs *)

Definition in_ns {K V} (ns : string) (p : (string * K) * V) : bool := bool_decide (p.1.1 = ns).

Definition ns_log (ns : string) (c : t) : list PendingMutation :=
  map snd (filterb (in_ns ns) (rw_val (ops c))).

(** The invariant of the coordinator: the map is ordered, a mutation is filed
    under its own namespace and sequence, sequences are below the counter, the
    ids of a namespace are distinct, and the two counters agree. *)
Record coord_inv (c : t) : Prop := {
  inv_wf : bt_wf (rw_val (ops c));
  inv_key ns s pm : ((ns, s), pm) ∈ rw_val (ops c) →
    pm_namespace pm = ns ∧ pm_sequence pm = s ∧ (0 < s < next_seq c)%N;
  inv_ids ns : NoDup (pm_id <$> ns_log ns c);
  inv_next : next_seq c = (highest_seq c + 1)%N;
}.

Lemma coord_inv_new : coord_inv new.
Proof.
  split; simpl; [constructor| |constructor|done]. intros ns s pm []%elem_of_nil.
Qed.

Lemma find_existing_log ns ent m :
  find_existing ns ent m = log_find ent (map snd (filterb (in_ns ns) m)).
Proof.
  unfold log_find, filterb. induction m as [|[[ns' s] pm] m IH]; simpl; [done|].
  unfold in_ns at 1. simpl. destruct (bool_decide (ns' = ns)); simpl; [|done].
  by destruct (bool_decide (pm_id pm = ent)).
Qed.

Lemma elem_of_ns_log ns c pm : pm ∈ ns_log ns c ↔ ∃ s, ((ns, s), pm) ∈ rw_val (ops c).
Proof.
  unfold ns_log. rewrite list_elem_of_In, in_map_iff. split.
  - intros ([[ns' s] pm'] & <- & Hin). apply list_elem_of_In, elem_of_filterb in Hin
      as [Hns%bool_decide_eq_true Hin]. simpl in Hns. subst. by exists s.
  - intros [s Hin]. exists ((ns, s), pm). split; [done|].
    apply list_elem_of_In, elem_of_filterb. split; [|done]. by apply bool_decide_eq_true.
Qed.

Lemma filterb_insert_other ns ns' s pm (m : btree (string * N) PendingMutation) :
  ns' ≠ ns → bt_wf m →
  filterb (in_ns ns') (bt_insert (ns, s) pm m) = filterb (in_ns ns') m.
Proof.
  intros Hne. unfold filterb.
  assert (Hf : in_ns ns' ((ns, s), pm) = false) by (by apply bool_decide_eq_false; simpl).
  induction m as [|[k v] m IH]; intros Hwf; cbn [bt_insert List.filter].
  { by rewrite Hf. }
  apply bt_wf_cons_inv in Hwf as [Hwf _].
  destruct (kcmp (ns, s) k) eqn:Hk; cbn [List.filter]; rewrite ?Hf; try done.
  - apply kcmp_eq in Hk as <-. assert (in_ns ns' ((ns, s), v) = false) as ->; [|done].
    by apply bool_decide_eq_false; simpl.
  - by rewrite IH.
Qed.

Lemma filterb_insert_above ns s pm (m : btree (string * N) PendingMutation) :
  bt_wf m → (∀ s' pm', ((ns, s'), pm') ∈ m → (s' < s)%N) →
  filterb (in_ns ns) (bt_insert (ns, s) pm m) = filterb (in_ns ns) m ++ [((ns, s), pm)].
Proof.
  assert (Hf : in_ns ns ((ns, s), pm) = true) by (by apply bool_decide_eq_true).
  unfold filterb. induction m as [|[[ns' s'] v] m IH]; intros Hwf Hlt;
    cbn [bt_insert List.filter]; [by rewrite Hf|].
  apply bt_wf_cons_inv in Hwf as [Hwf Hall]. rewrite Forall_forall in Hall.
  assert (IH' := IH Hwf (λ s0 pm0 Hin, Hlt s0 pm0 ltac:(by right))).
  destruct (kcmp (ns, s) (ns', s')) eqn:Hk; cbn [List.filter].
  - apply kcmp_eq in Hk. injection Hk as <- <-. specialize (Hlt s v). lia || (
    exfalso; assert (s < s)%N by (apply Hlt; left); lia).
  - rewrite Hf. assert (Hnone : ∀ p, p ∈ ((ns', s'), v) :: m → in_ns ns p = false).
    { intros [[n0 s0] v0] Hp. apply bool_decide_eq_false. simpl. intros ->.
      assert (Hk0 : kcmp (ns, s) (ns, s0) = Lt).
      { apply elem_of_cons in Hp as [[= -> -> ->]|Hp]; [done|].
        eapply kcmp_trans; [exact Hk|]. apply (Hall _ Hp). }
      simpl in Hk0. unfold pair_cmp in Hk0. simpl in Hk0.
      rewrite string_compare_refl, N.compare_lt_iff in Hk0.
      specialize (Hlt s0 v0 Hp). lia. }
    pose proof (filterb_none _ _ Hnone) as Hnil. unfold filterb in Hnil.
    cbn [List.filter] in Hnil. by rewrite Hnil.
  - destruct (in_ns ns ((ns', s'), v)); [|done]. simpl. by rewrite IH'.
Qed.

(** ** Pushing *)

(** The coordinator after storing [pm], apart from its counters. *)
Lemma ns_log_insert ns seq m c : coord_inv c → seq = next_seq c →
  let pm := to_pending ns seq m in
  let c' := with_ops (bt_insert (ns, seq) pm) c in
  ns_log ns c' = ns_log ns c ++ [pm] ∧ ∀ ns', ns' ≠ ns → ns_log ns' c' = ns_log ns' c.
Proof.
  intros Hinv -> pm c'. unfold ns_log, c'. simpl. split.
  - rewrite filterb_insert_above; [by rewrite map_app|apply Hinv|].
    intros s' pm' Hin. apply (inv_key _ Hinv) in Hin. lia.
  - intros ns' Hne. by rewrite filterb_insert_other by (done || apply Hinv).
Qed.

(** What one turn of the loop leaves alone. *)
Definition same_rest (c c' : t) : Prop :=
  schema_versions c' = schema_versions c ∧ replicas c' = replicas c ∧
  replica_keys c' = replica_keys c ∧ snapshots c' = snapshots c ∧
  rw_poisoned (ops c') = rw_poisoned (ops c).

Lemma push_one_recorded ns m c seq :
  log_find (em_id m) (ns_log ns c) = Some seq → push_one ns m c = (Ok (seq, None), c).
Proof.
  unfold ns_log. intros Hf. unfold push_one. sm_simpl. by rewrite find_existing_log, Hf.
Qed.

Lemma push_one_fresh ns m c :
  coord_inv c → (next_seq c + 1 ≤ U64_MAX)%N → log_find (em_id m) (ns_log ns c) = None →
  ∃ c', push_one ns m c = (Ok (next_seq c, Some (to_pending ns (next_seq c) m)), c') ∧
    coord_inv c' ∧ next_seq c' = (next_seq c + 1)%N ∧
    ns_log ns c' = ns_log ns c ++ [to_pending ns (next_seq c) m] ∧
    (∀ ns', ns' ≠ ns → ns_log ns' c' = ns_log ns' c) ∧
    sent c' = sent c ∧ same_rest c c'.
Proof.
  intros Hinv Hmax Hf.
  destruct (ns_log_insert ns (next_seq c) m c Hinv eq_refl) as [Hlog Hother].
  eexists. split_and!.
  - unfold push_one. sm_simpl. rewrite find_existing_log. unfold ns_log in Hf.
    by rewrite Hf.
  - split; simpl.
    + apply bt_insert_wf, Hinv.
    + intros ns' s pm [[= -> -> ->]|[Hin _]]%elem_of_bt_insert; [| |apply Hinv].
      * rewrite wrapping_add64_small by done. simpl.
        pose proof (inv_next c Hinv). split_and!; [done..|lia|lia].
      * rewrite wrapping_add64_small by done. apply (inv_key _ Hinv) in Hin as (? & ? & ?).
        split_and!; [done..|lia|lia].
    + intros ns'. destruct (decide (ns' = ns)) as [->|Hne].
      * change (NoDup (pm_id <$> ns_log ns
          (with_ops (bt_insert (ns, next_seq c) (to_pending ns (next_seq c) m)) c))).
        rewrite Hlog, fmap_app. apply NoDup_app. split_and!; [apply Hinv| |apply NoDup_singleton].
        intros ent Hent [Heq|Hnil]%elem_of_cons; [|by apply elem_of_nil in Hnil].
        apply list_elem_of_fmap in Hent as (pm & -> & Hpm). by eapply log_find_None.
      * change (NoDup (pm_id <$> ns_log ns'
          (with_ops (bt_insert (ns, next_seq c) (to_pending ns (next_seq c) m)) c))).
        rewrite Hother by done. apply Hinv.
    + by rewrite wrapping_add64_small.
  - by apply wrapping_add64_small.
  - exact Hlog.
  - exact Hother.
  - done.
  - done.
Qed.

Lemma same_rest_refl c : same_rest c c.
Proof. done. Qed.

Lemma same_rest_trans c1 c2 c3 : same_rest c1 c2 → same_rest c2 c3 → same_rest c1 c3.
Proof. unfold same_rest. intuition congruence. Qed.

(** The loop of [push] implements the abstract push. *)
Lemma push_loop ns ms c :
  coord_inv c → (next_seq c + N.of_nat (length ms) ≤ U64_MAX)%N →
  ∃ res c', map_each (push_one ns) ms c = (Ok res, c') ∧
    alog_push ns ms (next_seq c) (ns_log ns c) = (map fst res, ns_log ns c', next_seq c') ∧
    ns_log ns c' = ns_log ns c ++ omap snd res ∧
    coord_inv c' ∧ (∀ ns', ns' ≠ ns → ns_log ns' c' = ns_log ns' c) ∧
    sent c' = sent c ∧ same_rest c c'.
Proof.
  revert c. induction ms as [|m ms IH]; intros c Hinv Hmax.
  { exists [], c. simpl. rewrite app_nil_r. split_and!; done. }
  cbn [map_each alog_push length] in *.
  destruct (log_find (em_id m) (ns_log ns c)) as [seq|] eqn:Hf.
  - destruct (IH c Hinv ltac:(lia)) as (res & c' & Hrun & Hspec & Hlog & Hrest).
    exists ((seq, None) :: res), c'. sm_unfold.
    rewrite (push_one_recorded ns m c seq Hf), Hrun, Hspec. done.
  - destruct (push_one_fresh ns m c Hinv ltac:(lia) Hf)
      as (c1 & Hone & Hinv1 & Hnext & Hlog1 & Hoth1 & Hsent1 & Hrest1).
    destruct (IH c1 Hinv1 ltac:(lia)) as (res & c' & Hrun & Hspec & Hlog & Hinv' & Hoth & Hsent & Hrest).
    exists ((next_seq c, Some (to_pending ns (next_seq c) m)) :: res), c'.
    rewrite Hnext, Hlog1 in Hspec. sm_unfold. rewrite Hone, Hrun, Hspec. simpl.
    split_and!; try done.
    + by rewrite Hlog, Hlog1, <-app_assoc.
    + intros ns' Hne. by rewrite Hoth, Hoth1.
    + congruence.
    + by eapply same_rest_trans.
Qed.

(** Room for a batch of [n] mutations below the top of the counter, and a lock
    that no thread has poisoned. *)
Definition can_push (n : nat) (c : t) : Prop :=
  rw_poisoned (ops c) = false ∧ (next_seq c + N.of_nat n ≤ U64_MAX)%N.

Lemma push_spec ns ms c : coord_inv c → can_push (length ms) c →
  ∃ seqs fresh c', push ns ms c = (Ok seqs, c') ∧
    alog_push ns ms (next_seq c) (ns_log ns c) = (seqs, ns_log ns c', next_seq c') ∧
    ns_log ns c' = ns_log ns c ++ fresh ∧ sent c' = sent c ++ fresh ∧
    coord_inv c' ∧ (∀ ns', ns' ≠ ns → ns_log ns' c' = ns_log ns' c) ∧ same_rest c c'.
Proof.
  intros Hinv [Hp Hmax].
  destruct (push_loop ns ms c Hinv Hmax)
    as (res & c1 & Hrun & Hspec & Hlog & Hinv1 & Hoth & Hsent & Hrest).
  exists (map fst res), (omap snd res), (broadcast (omap snd res) c1). split_and!; try done.
  - unfold push, push_locked, lock, rw_lock. sm_unfold. rewrite Hp, Hrun. done.
  - simpl. by rewrite Hsent.
  - destruct Hinv1. by split.
Qed.

Lemma push_inv_any ns ms c r c' :
  coord_inv c → can_push (length ms) c → push ns ms c = (r, c') → coord_inv c'.
Proof.
  intros Hinv Hcan Hp. destruct (push_spec ns ms c Hinv Hcan)
    as (seqs & fresh & c1 & Hp1 & _ & _ & _ & Hinv1 & _). congruence.
Qed.

(** ** Pulling *)

Lemma kcmp_same_ns (ns : string) (s s' : N) : kcmp (ns, s) (ns, s') = (s ?= s')%N.
Proof. simpl. unfold pair_cmp. simpl. by rewrite string_compare_refl. Qed.

(** Sequences increase along the log of a namespace. *)
Definition seq_lt (a b : PendingMutation) : Prop := (pm_sequence a < pm_sequence b)%N.

Lemma ns_log_sorted ns c : coord_inv c → StronglySorted seq_lt (ns_log ns c).
Proof.
  intros Hinv. unfold ns_log.
  assert (Hwf : bt_wf (filterb (in_ns ns) (rw_val (ops c)))).
  { eapply bt_sublist_wf; [apply sublist_filterb|apply Hinv]. }
  assert (Hkey : ∀ p, p ∈ filterb (in_ns ns) (rw_val (ops c)) →
    p.1.1 = ns ∧ pm_sequence p.2 = p.1.2).
  { intros [[ns' s] pm] [Hns%bool_decide_eq_true Hin]%elem_of_filterb. simpl in *.
    split; [done|]. by apply (inv_key _ Hinv) in Hin as (_ & ? & _). }
  induction Hwf as [|p m Hwf IH Hall]; simpl; [constructor|]. constructor.
  - apply IH. intros q Hq. apply Hkey. by right.
  - apply Forall_forall. intros pm Hpm. apply list_elem_of_In, in_map_iff in Hpm.
    destruct Hpm as (q & <- & Hq%list_elem_of_In).
    pose proof (proj1 (Forall_forall _ _) Hall q Hq) as Hlt. clear Hall. destruct (Hkey p ltac:(by left)) as [Hp1 Hp2].
    destruct (Hkey q ltac:(by right)) as [Hq1 Hq2]. unfold seq_lt. rewrite Hp2, Hq2.
    unfold key_lt in Hlt. destruct p as [[pn ps] pv], q as [[qn qs] qv]. cbn [fst snd] in *. subst.
    by rewrite kcmp_same_ns, N.compare_lt_iff in Hlt.
Qed.

(** The range of the map from the cursor is the part of the log above it. *)
Lemma pull_range ns after c : coord_inv c → (after < U64_MAX)%N →
  map snd (filterb (λ p, bool_decide (p.1.1 = ns))
    (bt_range_from (ns, wrapping_add64 after 1) (rw_val (ops c)))) =
  filterb (λ pm, (after <? pm_sequence pm)%N) (ns_log ns c).
Proof.
  intros Hinv Hafter. rewrite wrapping_add64_small by lia. unfold ns_log, bt_range_from, filterb.
  assert (Hkey : ∀ ns s pm, ((ns, s), pm) ∈ rw_val (ops c) → pm_sequence pm = s).
  { intros ns' s pm Hin. by apply (inv_key _ Hinv) in Hin as (_ & ? & _). }
  induction (rw_val (ops c)) as [|[[ns' s] pm] m IH]; [done|].
  specialize (IH (λ n s v Hin, Hkey n s v ltac:(by right))).
  specialize (Hkey ns' s pm ltac:(left)). cbn [List.filter].
  unfold in_ns at 1. cbn [fst snd].
  destruct (bool_decide_reflect (ns' = ns)) as [->|Hne].
  - rewrite kcmp_same_ns. cbn [List.filter map snd]. rewrite Hkey.
    destruct (N.compare_spec s (after + 1)), (N.ltb_spec after s); try lia; cbn [List.filter map snd];
      rewrite ?bool_decide_true by done; cbn [map snd]; rewrite ?IH; done.
  - destruct (kcmp (ns', s) _); simpl; rewrite ?bool_decide_false by done; done.
Qed.

Lemma map_take_snd {A B} n (l : list (A * B)) : map snd (take n l) = take n (map snd l).
Proof. revert n. induction l; intros [|n]; simpl; f_equal; auto. Qed.

Lemma pull_spec ns after limit c :
  coord_inv c → rw_poisoned (ops c) = false → (after < U64_MAX)%N →
  pull ns after limit c = (Ok (alog_pull after limit (ns_log ns c)), c).
Proof.
  intros Hinv Hp Hafter. unfold pull, lock, rw_lock. sm_unfold. rewrite Hp.
  by rewrite map_take_snd, pull_range.
Qed.

(** ** Compaction *)

Definition covered_by_any (ns : string) (snaps : list Snapshot)
    (p : (string * N) * PendingMutation) : bool := existsb (λ s, covered ns s p) snaps.

Lemma compact_one_spec ns s m removed collapsed : bt_wf m →
  ∃ collapsed', compact_one ns s (m, removed, collapsed) =
    (filterb (λ p, negb (covered ns s p)) m, removed + length (filterb (covered ns s) m), collapsed').
Proof.
  intros Hwf. unfold compact_one.
  pose proof (bt_remove_loop (covered ns s) [] m removed Hwf) as Hloop. simpl in Hloop.
  pose proof (filterb_split_length (covered ns s) m) as Hlen.
  destruct (filterb (covered ns s) m) as [|p l] eqn:Hf; simpl in *.
  - exists collapsed. injection Hloop as Hm. rewrite Nat.add_0_r. by rewrite <-Hm.
  - exists (S collapsed). by rewrite Hloop.
Qed.

Lemma compact_loop ns snaps m removed collapsed : bt_wf m →
  ∃ collapsed', foldl (λ acc s, compact_one ns s acc) (m, removed, collapsed) snaps =
    (filterb (λ p, negb (covered_by_any ns snaps p)) m,
     removed + length (filterb (covered_by_any ns snaps) m), collapsed').
Proof.
  revert m removed collapsed.
  induction snaps as [|s snaps IH]; intros m removed collapsed Hwf.
  { exists collapsed. simpl. rewrite filterb_all by done.
    rewrite (filterb_none _ m) by done. by rewrite Nat.add_0_r. }
  cbn [foldl]. destruct (compact_one_spec ns s m removed collapsed Hwf) as [c1 ->].
  destruct (IH (filterb (λ p, negb (covered ns s p)) m)
    (removed + length (filterb (covered ns s) m)) c1) as [c2 ->].
  { eapply bt_sublist_wf, Hwf. apply sublist_filterb. }
  exists c2. unfold covered_by_any. cbn [existsb].
  rewrite !filterb_filterb. f_equal; f_equal.
  - apply filterb_ext. intros p _. by rewrite negb_orb.
  - rewrite <-Nat.add_assoc. f_equal.
    clear. unfold filterb. induction m as [|p m IH]; [done|]. simpl.
    destruct (covered ns s p); simpl; [by rewrite IH|].
    destruct (existsb _ snaps); simpl; rewrite <-IH; lia.
Qed.

Lemma coord_inv_filter f c : coord_inv c → coord_inv (with_ops (filterb f) c).
Proof.
  intros Hinv. split; simpl.
  - eapply bt_sublist_wf, (inv_wf _ Hinv). apply sublist_filterb.
  - intros ns s pm [_ Hin]%elem_of_filterb. by apply (inv_key _ Hinv).
  - intros ns. eapply sublist_NoDup; [apply (inv_ids _ Hinv ns)|].
    unfold ns_log. simpl. apply (fmap_sublist pm_id), (fmap_sublist snd).
    unfold filterb. generalize (rw_val (ops c)) as l. clear.
    induction l as [|p l IH]; simpl; [done|].
    destruct (f p); simpl; destruct (in_ns ns p); simpl;
      try apply sublist_skip; try apply sublist_cons; done.
  - apply Hinv.
Qed.

Lemma compact_oplog_spec ns c :
  coord_inv c → rw_poisoned (snapshots c) = false → rw_poisoned (ops c) = false →
  let gone := covered_by_any ns (namespace_snapshots ns (rw_val (snapshots c))) in
  ∃ collapsed, compact_oplog ns c =
    (Ok (CompactionStats_new (length (filterb gone (rw_val (ops c)))) 0 collapsed),
     with_ops (filterb (λ p, negb (gone p))) c).
Proof.
  intros Hinv Hs Ho gone.
  destruct (compact_loop ns (namespace_snapshots ns (rw_val (snapshots c))) (rw_val (ops c)) 0 0
    (inv_wf _ Hinv)) as [collapsed Hloop].
  exists collapsed. unfold compact_oplog, lock, rw_lock. sm_unfold. rewrite Hs, Ho, Hloop. done.
Qed.

(** ** Histories of calls *)

Inductive command :=
  | CPush (ns : string) (ms : list EncryptedMutation)
  | CPull (ns : string) (after : N) (limit : nat)
  | CRegister (ns : string) (info : ReplicaInfo) (last_sequence : N)
  | CUpdateKey (ns replica_id : string) (public_key : bytes) (key_version : N)
  | CStoreSnapshot (ns : string) (s : Snapshot)
  | CCompact (ns : string).

Definition exec (c : t) (cmd : command) : t :=
  match cmd with
  | CPush ns ms => (push ns ms c).2
  | CPull ns after limit => (pull ns after limit c).2
  | CRegister ns info last => (register ns info last c).2
  | CUpdateKey ns r k v => (update_replica_key ns r k v c).2
  | CStoreSnapshot ns s => (store_snapshot ns s c).2
  | CCompact ns => (compact_oplog ns c).2
  end.

Definition execs (c : t) (cmds : list command) : t := foldl exec c cmds.

(** Mutations a history pushes: the room it needs below the top of the counter. *)
Definition cmd_size (cmd : command) : nat :=
  match cmd with CPush _ ms => length ms | _ => 0 end.
Definition cmds_size (cmds : list command) : nat := list_sum (map cmd_size cmds).

Definition is_compact (cmd : command) : bool :=
  match cmd with CCompact _ => true | _ => false end.

Definition unpoisoned (c : t) : Prop :=
  rw_poisoned (ops c) = false ∧ rw_poisoned (schema_versions c) = false ∧
  rw_poisoned (replicas c) = false ∧ rw_poisoned (replica_keys c) = false ∧
  rw_poisoned (snapshots c) = false.

(** A state in which [n] more mutations can be pushed. *)
Definition coord_ok (n : nat) (c : t) : Prop :=
  coord_inv c ∧ unpoisoned c ∧ (next_seq c + N.of_nat n ≤ U64_MAX)%N.

Lemma alog_push_next ns ms next log seqs log' next' :
  alog_push ns ms next log = (seqs, log', next') →
  (next ≤ next' ≤ next + N.of_nat (length ms))%N.
Proof.
  revert next log seqs log' next'. induction ms as [|m ms IH]; simpl; intros next log seqs log' next'.
  { intros [= <- <- <-]. lia. }
  destruct (log_find _ _); [destruct (alog_push ns ms next log) as [[??]?] eqn:Hp|
    destruct (alog_push ns ms (next + 1) _) as [[??]?] eqn:Hp];
    intros [= <- <- <-]; apply IH in Hp; lia.
Qed.

Lemma alog_push_appended ns ms next log seqs log' next' :
  alog_push ns ms next log = (seqs, log', next') →
  ∃ ext, log' = log ++ ext ∧
    Forall (λ pm, pm_namespace pm = ns ∧ (next ≤ pm_sequence pm < next')%N) ext.
Proof.
  revert next log seqs log' next'. induction ms as [|m ms IH]; simpl; intros next log seqs log' next'.
  { intros [= <- <- <-]. exists []. split; [by rewrite app_nil_r|constructor]. }
  destruct (log_find _ _).
  - destruct (alog_push ns ms next log) as [[??]?] eqn:Hp. intros [= <- <- <-]. by apply IH in Hp.
  - destruct (alog_push ns ms (next + 1) _) as [[??]?] eqn:Hp. intros [= <- <- <-].
    pose proof (alog_push_next _ _ _ _ _ _ _ Hp) as Hn. apply IH in Hp as (ext & -> & Hext).
    exists (to_pending ns next m :: ext). split; [by rewrite <-app_assoc|].
    constructor; [simpl; split; [done|lia]|].
    eapply Forall_impl; [exact Hext|]. simpl. intros pm [? ?]. split; [done|lia].
Qed.

(** One call: the state stays good, the counter only grows, and unless the call
    is a compaction every log only grows. *)
Lemma exec_ok n c cmd : coord_ok (cmd_size cmd + n) c →
  coord_ok n (exec c cmd) ∧ (next_seq c ≤ next_seq (exec c cmd))%N ∧
  (is_compact cmd = false → ∀ ns, ∃ ext, ns_log ns (exec c cmd) = ns_log ns c ++ ext).
Proof.
  intros (Hinv & Hup & Hmax). pose proof Hup as (Ho & Hv & Hr & Hk & Hs).
  destruct cmd as [ns ms|ns after limit|ns info last|ns r k v|ns s|ns]; simpl in *.
  - destruct (push_spec ns ms c Hinv ltac:(split; [done|lia]))
      as (seqs & fresh & c' & -> & Hspec & Hlog & Hsent & Hinv' & Hoth & Hrest). simpl.
    apply alog_push_next in Hspec. destruct Hrest as (E1 & E2 & E3 & E4 & E5).
    split_and!; [|lia|].
    + split_and!; [done| |lia]. unfold unpoisoned in *. intuition congruence.
    + intros _ ns'. destruct (decide (ns' = ns)) as [->|Hne]; [by exists fresh|].
      exists []. rewrite app_nil_r. by apply Hoth.
  - unfold pull, lock, rw_lock. sm_unfold. rewrite Ho. simpl.
    split_and!; [by split_and!; [| |lia]|done|]. intros _ ns'. exists []. by rewrite app_nil_r.
  - unfold register, lock, rw_lock. sm_unfold. rewrite Hr. simpl. rewrite Hk. simpl. rewrite Hv. simpl.
    split_and!; [|done|intros _ ns'; exists []; by rewrite app_nil_r].
    split_and!; [destruct Hinv; by split|by unfold unpoisoned; simpl|simpl; lia].
  - unfold update_replica_key, lock, rw_lock. sm_unfold. rewrite Hk. simpl.
    split_and!; [|done|intros _ ns'; exists []; by rewrite app_nil_r].
    split_and!; [destruct Hinv; by split|by unfold unpoisoned; simpl|simpl; lia].
  - unfold store_snapshot, lock, rw_lock. sm_unfold. rewrite Hs. simpl.
    split_and!; [|done|intros _ ns'; exists []; by rewrite app_nil_r].
    split_and!; [destruct Hinv; by split|by unfold unpoisoned; simpl|simpl; lia].
  - destruct (compact_oplog_spec ns c Hinv Hs Ho) as [collapsed ->]. simpl.
    split_and!; [|done|done]. split_and!; [by apply coord_inv_filter|done|simpl; lia].
Qed.

Lemma execs_ok n c cmds : coord_ok (cmds_size cmds + n) c →
  coord_ok n (execs c cmds) ∧ (next_seq c ≤ next_seq (execs c cmds))%N ∧
  (existsb is_compact cmds = false → ∀ ns, ∃ ext, ns_log ns (execs c cmds) = ns_log ns c ++ ext).
Proof.
  revert c. induction cmds as [|cmd cmds IH]; intros c Hok; simpl.
  { split_and!; [done|done|]. intros _ ns. exists []. by rewrite app_nil_r. }
  unfold cmds_size in Hok. simpl in Hok. rewrite <-Nat.add_assoc in Hok.
  apply exec_ok in Hok as (Hok & Hnext & Hgrow). apply IH in Hok as (Hok & Hnext' & Hgrow').
  split_and!; [done|lia|]. intros [H1 H2]%orb_false_iff ns.
  destruct (Hgrow H1 ns) as [e1 E1], (Hgrow' H2 ns) as [e2 E2].
  exists (e1 ++ e2). by rewrite E2, E1, app_assoc.
Qed.

Lemma coord_ok_new n : (N.of_nat n < U64_MAX)%N → coord_ok n new.
Proof. intros Hn. split_and!; [apply coord_inv_new|done|simpl; lia]. Qed.

Lemma log_find_lt_next ns c ent seq :
  coord_inv c → log_find ent (ns_log ns c) = Some seq → (0 < seq < next_seq c)%N.
Proof.
  intros Hinv (pm & Hin & _ & <-)%log_find_Some.
  apply elem_of_ns_log in Hin as [s Hin]. by apply (inv_key _ Hinv) in Hin as (_ & -> & ?).
Qed.

(** ** Paging *)

(** A client that pulls pages until it gets an empty one, each time from the
    sequence of the last mutation it received. *)
Fixpoint pull_pages (fuel : nat) (ns : string) (after : N) (limit : nat) (c : t) :
    option (list PendingMutation) :=
  match fuel with
  | O => None
  | S fuel =>
      match (pull ns after limit c).1 with
      | Err _ => None
      | Ok page =>
          match list.last page with
          | None => Some []
          | Some pm => app page <$> pull_pages fuel ns (pm_sequence pm) limit c
          end
      end
  end.

Lemma filterb_above_page after page rest pm :
  StronglySorted seq_lt (page ++ pm :: rest) →
  Forall (λ q, (after < pm_sequence q)%N) (page ++ pm :: rest) →
  filterb (λ q, (pm_sequence pm <? pm_sequence q)%N) (page ++ pm :: rest) = rest.
Proof.
  induction page as [|q page IH]; intros Hs Hall; simpl.
  - inversion Hs as [|?? Hs' Hlt]; subst. unfold filterb. simpl. rewrite N.ltb_irrefl.
    apply filterb_all. intros x Hx. apply N.ltb_lt. by apply (proj1 (Forall_forall _ _) Hlt).
  - inversion Hs as [|?? Hs' Hlt]; subst. unfold filterb in *. simpl.
    pose proof (proj1 (Forall_forall _ _) Hlt pm ltac:(apply elem_of_app; right; left)) as Hq.
    unfold seq_lt in Hq. destruct (N.ltb_spec (pm_sequence pm) (pm_sequence q)); [lia|].
    inversion Hall; subst. by apply IH.
Qed.

Lemma filterb_mono_above after s l : (after ≤ s)%N →
  filterb (λ q, (s <? pm_sequence q)%N) (filterb (λ q, (after <? pm_sequence q)%N) l) =
  filterb (λ q, (s <? pm_sequence q)%N) l.
Proof.
  intros Hle. rewrite filterb_filterb. apply filterb_ext. intros q _.
  destruct (N.ltb_spec after (pm_sequence q)), (N.ltb_spec s (pm_sequence q)); simpl; lia || done.
Qed.

Lemma pull_pages_spec fuel ns after limit c :
  coord_inv c → rw_poisoned (ops c) = false → (after < U64_MAX)%N → (next_seq c ≤ U64_MAX)%N →
  0 < limit →
  length (filterb (λ pm, (after <? pm_sequence pm)%N) (ns_log ns c)) < fuel →
  pull_pages fuel ns after limit c =
    Some (filterb (λ pm, (after <? pm_sequence pm)%N) (ns_log ns c)).
Proof.
  intros Hinv Hp Hafter Hnext Hlim. revert after Hafter.
  induction fuel as [|fuel IH]; intros after Hafter Hfuel; [lia|]. cbn [pull_pages].
  rewrite pull_spec by done. cbn [fst]. unfold alog_pull.
  set (above := filterb _ (ns_log ns c)) in *.
  assert (Hs : StronglySorted seq_lt above).
  { eapply StronglySorted_sublist, (ns_log_sorted ns c Hinv). apply sublist_filterb. }
  assert (Hall : Forall (λ q, (after < pm_sequence q)%N) above).
  { apply Forall_forall. by intros q [Hq%N.ltb_lt _]%elem_of_filterb. }
  destruct (list.last (take limit above)) as [pm|] eqn:Hlast.
  - apply last_Some in Hlast as [page Hpage].
    rewrite <-(take_drop limit above) in Hs, Hall. rewrite Hpage, <-app_assoc in Hs, Hall.
    assert (Hlt : (after < pm_sequence pm)%N).
    { apply (proj1 (Forall_forall _ _) Hall). apply elem_of_app. right. left. }
    assert (Hin : pm ∈ ns_log ns c).
    { assert (pm ∈ take limit above) as Htk by (rewrite Hpage; apply elem_of_app; right; left).
      apply elem_of_take_mono in Htk. by apply elem_of_filterb in Htk as [_ ?]. }
    apply elem_of_ns_log in Hin as [s Hin]. apply (inv_key _ Hinv) in Hin as (_ & Hseq & Hb).
    pose proof (filterb_above_page after page (drop limit above) pm Hs Hall) as Hrest.
    replace (page ++ pm :: drop limit above) with above in Hrest
      by (rewrite <-(take_drop limit above) at 1; by rewrite Hpage, <-app_assoc).
    unfold above at 1 in Hrest. rewrite filterb_mono_above in Hrest by lia.
    rewrite IH; [|lia|].
    + rewrite Hrest. simpl. by rewrite take_drop.
    + rewrite Hrest, length_drop. destruct above as [|q l]; [|simpl in *; lia].
      rewrite take_nil in Hpage. by destruct page.
  - apply last_None in Hlast. destruct above as [|q l]; [done|]. destruct limit; [lia|done].
Qed.

(** A call that succeeds and leaves the logs alone. *)
Definition quiet_call {C E A} (log : string → C → list PendingMutation) (next : C → N)
    (ready : nat → C → Prop) (m : SM C E A) : Prop :=
  ∀ n c, ready n c → ∃ v c', m c = (Ok v, c') ∧ (∀ ns, log ns c' = log ns c) ∧ next c' = next c ∧
    ready n c'.

(** ** What a coordinator promises its clients

    One append-only log per namespace, on a state with room for [n] more
    mutations. *)
Class CoordinatorSpec (C : Type) {HC : Coordinator C} := {
  co_log : string → C → list PendingMutation;
  co_next : C → N;
  co_ready : nat → C → Prop;
  co_ready_mono n m c : n ≤ m → co_ready m c → co_ready n c;
  co_push_ok n ns ms c : co_ready (length ms + n) c →
    ∃ seqs c', Coordinator.push ns ms c = (Ok seqs, c') ∧
      alog_push ns ms (co_next c) (co_log ns c) = (seqs, co_log ns c', co_next c') ∧
      (∀ ns', ns' ≠ ns → co_log ns' c' = co_log ns' c) ∧ co_ready n c';
  co_pull_ok n ns after limit c : co_ready n c → (after < U64_MAX)%N →
    Coordinator.pull ns after limit c = (Ok (alog_pull after limit (co_log ns c)), c);
  co_sorted n ns c : co_ready n c → StronglySorted seq_lt (co_log ns c);
  co_entry n ns c pm : co_ready n c → pm ∈ co_log ns c →
    pm_namespace pm = ns ∧ (0 < pm_sequence pm < co_next c)%N ∧ (co_next c ≤ U64_MAX)%N;
  co_ids n ns c : co_ready n c → NoDup (pm_id <$> co_log ns c);
  co_register_quiet ns info last : quiet_call co_log co_next co_ready (Coordinator.register ns info last);
  co_update_key_quiet ns r k v :
    quiet_call co_log co_next co_ready (Coordinator.update_replica_key ns r k v);
  co_get_key_quiet ns r : quiet_call co_log co_next co_ready (Coordinator.get_replica_key ns r);
  co_list_replicas_quiet ns : quiet_call co_log co_next co_ready (Coordinator.list_replicas ns);
  co_schema_version_quiet ns : quiet_call co_log co_next co_ready (Coordinator.schema_version ns);
  co_store_snapshot_quiet ns s : quiet_call co_log co_next co_ready (Coordinator.store_snapshot ns s);
  co_list_snapshots_quiet ns : quiet_call co_log co_next co_ready (Coordinator.list_snapshots ns);
}.

(** The calls on the in-memory coordinator that only take other locks. *)
Ltac mem_quiet :=
  intros n c (Hinv & (Ho & Hv & Hr & Hk & Hs) & Hmax);
  unfold Coordinator.register, Coordinator.update_replica_key, Coordinator.get_replica_key,
    Coordinator.list_replicas, Coordinator.schema_version, Coordinator.store_snapshot,
    Coordinator.list_snapshots; cbn [in_memory_coordinator];
  unfold register, update_replica_key, get_replica_key, list_replicas, schema_version,
    store_snapshot, list_snapshots, lock, rw_lock; sm_unfold;
  repeat first [rewrite Hv | rewrite Hr | rewrite Hk | rewrite Hs | progress cbn];
  eexists _, _; split; [reflexivity|]; split; [done|]; split; [done|];
  split_and!; [destruct Hinv; by split|by unfold unpoisoned|done].

#[export, program] Instance in_memory_coordinator_spec : CoordinatorSpec t := {|
  co_log := ns_log;
  co_next := next_seq;
  co_ready := coord_ok;
|}.
Next Obligation. intros n m c Hle (? & ? & ?). split_and!; [done..|lia]. Qed.
Next Obligation.
  intros n ns ms c Hok. pose proof (exec_ok n c (CPush ns ms) Hok) as (Hok' & _).
  destruct Hok as (Hinv & (Ho & _) & Hmax).
  destruct (push_spec ns ms c Hinv) as (seqs & fresh & c' & Hp & Hspec & _ & _ & _ & Hoth & _);
    [split; [done|lia]|].
  simpl in *. rewrite Hp in Hok'. by exists seqs, c'.
Qed.
Next Obligation.
  intros n ns after limit c (Hinv & (Ho & _) & _) Hafter. by apply pull_spec.
Qed.
Next Obligation. intros n ns c (Hinv & _). by apply ns_log_sorted. Qed.
Next Obligation.
  intros n ns c pm (Hinv & _ & Hmax) [s Hin]%elem_of_ns_log.
  apply (inv_key _ Hinv) in Hin as (? & -> & ?). split_and!; lia || done.
Qed.
Next Obligation. intros n ns c (Hinv & _). apply Hinv. Qed.
Next Obligation. intros ns info last. mem_quiet. Qed.
Next Obligation. intros ns r k v. mem_quiet. Qed.
Next Obligation. intros ns r. mem_quiet. Qed.
Next Obligation. intros ns. mem_quiet. Qed.
Next Obligation. intros ns. mem_quiet. Qed.
Next Obligation. intros ns s. mem_quiet. Qed.
Next Obligation. intros ns. mem_quiet. Qed.

(** ** Theorems *)

(** In every state that any sequence of pushes, pulls, registrations, key
    updates, snapshot uploads and compactions can reach from an empty
    coordinator (short of exhausting the 64-bit counter), each stored mutation
    is filed under its own namespace and sequence, no two mutations of a
    namespace share an id, each namespace's log is strictly ordered by sequence,
    and [max_sequence] bounds every stored sequence. *)
Theorem coordinator_reachable_invariant cmds ns :
  (N.of_nat (cmds_size cmds) < U64_MAX)%N →
  let c := execs new cmds in
  coord_inv c ∧ StronglySorted seq_lt (ns_log ns c) ∧ NoDup (pm_id <$> ns_log ns c) ∧
  Forall (λ pm, pm_namespace pm = ns ∧ (0 < pm_sequence pm ≤ max_sequence c)%N) (ns_log ns c).
Proof.
  intros Hsize c. destruct (execs_ok 0 new cmds) as ((Hinv & _) & _).
  { apply coord_ok_new. lia. }
  fold c in Hinv. split_and!; [done|by apply ns_log_sorted|apply Hinv|].
  apply Forall_forall. intros pm [s Hin]%elem_of_ns_log.
  apply (inv_key _ Hinv) in Hin as (Hns & Hs & Hb).
  pose proof (inv_next _ Hinv). unfold max_sequence. split; [done|lia].
Qed.

(** C2: [push] implements the abstract log: on every consistent state with room
    in the counter it succeeds, reports for each mutation the sequence the
    abstract log reports, leaves the abstract log's content and counter, leaves
    every other namespace alone, and broadcasts exactly the mutations it
    appended, in order. *)
Theorem push_refines_log ns ms c :
  coord_inv c → can_push (length ms) c →
  ∃ seqs fresh c', push ns ms c = (Ok seqs, c') ∧
    alog_push ns ms (next_seq c) (ns_log ns c) = (seqs, ns_log ns c', next_seq c') ∧
    ns_log ns c' = ns_log ns c ++ fresh ∧ sent c' = sent c ++ fresh ∧
    coord_inv c' ∧ (∀ ns', ns' ≠ ns → ns_log ns' c' = ns_log ns' c).
Proof.
  intros Hinv Hcan. destruct (push_spec ns ms c Hinv Hcan)
    as (seqs & fresh & c' & ? & ? & ? & ? & ? & ? & _).
  by exists seqs, fresh, c'.
Qed.

(** Retrying a batch is idempotent: once [push] has returned the sequences
    of a batch, pushing the same batch again after any further calls except
    compactions returns the same sequences, stores nothing and broadcasts
    nothing. *)
Theorem push_retry_idempotent ns ms cmds c seqs c1 :
  coord_ok (length ms + (cmds_size cmds + length ms)) c →
  existsb is_compact cmds = false →
  push ns ms c = (Ok seqs, c1) →
  let c2 := execs c1 cmds in
  ∃ c3, push ns ms c2 = (Ok seqs, c3) ∧ next_seq c3 = next_seq c2 ∧
    ns_log ns c3 = ns_log ns c2 ∧ sent c3 = sent c2.
Proof.
  intros Hok Hnc Hpush c2.
  pose proof (exec_ok (cmds_size cmds + length ms) c (CPush ns ms) Hok) as (Hok1 & _).
  simpl in Hok1. rewrite Hpush in Hok1. simpl in Hok1.
  destruct (execs_ok (length ms) c1 cmds Hok1) as ((Hinv2 & Hup2 & Hmax2) & _ & Hgrow).
  fold c2 in Hinv2, Hup2, Hmax2, Hgrow. destruct (Hgrow Hnc ns) as [ext Hext].
  destruct Hok as (Hinv & Hup & Hmax).
  destruct (push_spec ns ms c Hinv) as (seqs' & fresh & c1' & Hp & Hspec & _).
  { split; [apply Hup|lia]. }
  rewrite Hpush in Hp. injection Hp as <- <-.
  apply alog_push_extends in Hspec as [_ Hrec].
  destruct (push_spec ns ms c2 Hinv2) as (seqs3 & fresh3 & c3 & Hp3 & Hspec3 & Hlog3 & Hsent3 & _).
  { split; [apply Hup2|done]. }
  rewrite alog_push_recorded with (seqs := seqs) in Hspec3.
  2:{ eapply Forall2_impl; [exact Hrec|]. intros m seq Hf. simpl in *. rewrite Hext.
      by apply log_find_app. }
  injection Hspec3 as <- Hlog Hnext. exists c3. split_and!; [done|done|done|].
  rewrite <-Hlog in Hlog3. symmetry in Hlog3.
  rewrite <-(app_nil_r (ns_log ns c2)) in Hlog3 at 2. apply app_inv_head in Hlog3. subst fresh3.
  by rewrite app_nil_r in Hsent3.
Qed.

(** Idempotence does not survive compaction: a mutation that a stored
    snapshot covers is forgotten by [compact_oplog], so a client that retries it
    afterwards gets a second, higher sequence, and the mutation is stored and
    broadcast a second time. *)
Theorem push_retry_after_compaction ns m s seq c :
  coord_ok 1 c → log_find (em_id m) (ns_log ns c) = Some seq →
  s ∈ namespace_snapshots ns (rw_val (snapshots c)) →
  Forall (λ pm, pm_doc_id pm = sn_doc_id s ∧ pm_record_id pm = sn_record_id s ∧
    (pm_sequence pm ≤ sn_sequence s)%N)
    (filterb (λ pm, bool_decide (pm_id pm = em_id m)) (ns_log ns c)) →
  ∃ stats c1 c2 seq', compact_oplog ns c = (Ok stats, c1) ∧
    push ns [m] c1 = (Ok [seq'], c2) ∧ (seq < seq')%N ∧
    sent c2 = sent c ++ [to_pending ns seq' m].
Proof.
  intros (Hinv & Hup & Hmax) Hf Hsnap Hcov. destruct Hup as (Ho & _ & _ & _ & Hs).
  destruct (compact_oplog_spec ns c Hinv Hs Ho) as [collapsed Hc].
  set (gone := covered_by_any ns _) in Hc.
  set (c1 := with_ops (filterb (λ p, negb (gone p))) c) in *.
  assert (Hinv1 : coord_inv c1) by by apply coord_inv_filter.
  assert (Hnone : log_find (em_id m) (ns_log ns c1) = None).
  { destruct (log_find (em_id m) (ns_log ns c1)) as [s'|] eqn:Hf'; [exfalso|done].
    apply log_find_Some in Hf' as (pm & [k Hin]%elem_of_ns_log & Hid & _). simpl in Hin.
    apply elem_of_filterb in Hin as [Hg%negb_true_iff Hin].
    assert (Hns : pm ∈ ns_log ns c) by (apply elem_of_ns_log; by exists k).
    pose proof (proj1 (Forall_forall _ _) Hcov pm) as Hpm.
    destruct Hpm as (Hd & Hr & Hle); [apply elem_of_filterb; by rewrite bool_decide_true|].
    apply (inv_key _ Hinv) in Hin as (_ & Hk & _).
    assert (gone (ns, k, pm) = true); [|congruence].
    apply existsb_exists. exists s. split; [by apply list_elem_of_In|].
    unfold covered. simpl. rewrite !bool_decide_true by done. by apply N.leb_le; lia. }
  destruct (push_one_fresh ns m c1 Hinv1) as (c2 & Hone & _ & _ & _ & _ & Hsent & _); [simpl; lia|done|].
  eexists _, c1, (broadcast [to_pending ns (next_seq c1) m] c2), (next_seq c1).
  split_and!; [done| |by apply (log_find_lt_next ns c (em_id m))|].
  - unfold push, push_locked, lock, rw_lock. sm_unfold. cbn [map_each]. simpl. rewrite Ho.
    sm_unfold. rewrite Hone. done.
  - simpl. rewrite Hsent. done.
Qed.

(** A replica that pulls pages of any positive size from its cursor until
    one comes back empty gets every mutation of the namespace above the cursor,
    in sequence order, each exactly once, and stops within one pull more than
    there are mutations. *)
Theorem pull_pages_complete ns after limit c :
  coord_inv c → can_push 0 c → (after < U64_MAX)%N → 0 < limit →
  let above := filterb (λ pm, (after <? pm_sequence pm)%N) (ns_log ns c) in
  pull_pages (S (length above)) ns after limit c = Some above ∧ StronglySorted seq_lt above.
Proof.
  intros Hinv [Hp Hmax] Hafter Hlim above. subst above. split.
  - apply pull_pages_spec; try done; lia.
  - eapply StronglySorted_sublist, (ns_log_sorted ns c Hinv). apply sublist_filterb.
Qed.

(** [compact_oplog] removes from the namespace exactly the mutations that
    one of its snapshots covers (same document and record, sequence at most the
    snapshot's), counts them, and touches neither the other namespaces nor the
    counters nor the snapshots. *)
Theorem compact_oplog_exact ns c :
  coord_inv c → unpoisoned c →
  let snaps := namespace_snapshots ns (rw_val (snapshots c)) in
  let absorbed pm := existsb (λ s, bool_decide (pm_doc_id pm = sn_doc_id s) &&
    bool_decide (pm_record_id pm = sn_record_id s) && (pm_sequence pm <=? sn_sequence s)%N) snaps in
  ∃ stats c', compact_oplog ns c = (Ok stats, c') ∧ coord_inv c' ∧
    ns_log ns c' = filterb (λ pm, negb (absorbed pm)) (ns_log ns c) ∧
    cs_oplog_removed stats = length (filterb absorbed (ns_log ns c)) ∧
    (∀ ns', ns' ≠ ns → ns_log ns' c' = ns_log ns' c) ∧
    max_sequence c' = max_sequence c ∧ snapshots c' = snapshots c.
Proof.
  intros Hinv (Ho & _ & _ & _ & Hs) snaps absorbed.
  destruct (compact_oplog_spec ns c Hinv Hs Ho) as [collapsed Hc].
  assert (Hkey : ∀ n s pm, (n, s, pm) ∈ rw_val (ops c) → pm_sequence pm = s).
  { intros n s pm Hin. by apply (inv_key _ Hinv) in Hin as (_ & ? & _). }
  eexists _, _. split; [exact Hc|]. split; [by apply coord_inv_filter|].
  unfold ns_log. simpl. fold snaps.
  assert (Hgone : ∀ n s pm, (n, s, pm) ∈ rw_val (ops c) →
    covered_by_any ns snaps (n, s, pm) = bool_decide (n = ns) && absorbed pm).
  { intros n s pm Hin. apply Hkey in Hin. unfold covered_by_any, absorbed, covered. simpl.
    induction snaps as [|sn l IH]; simpl; [by rewrite andb_false_r|]. rewrite IH, Hin.
    by destruct (bool_decide (n = ns)). }
  rewrite !filterb_map, length_map, !filterb_filterb. split_and!; try done.
  - f_equal. apply filterb_ext. intros [[n s] pm] Hin. unfold in_ns. simpl.
    rewrite Hgone by done. by destruct (bool_decide (n = ns)), (absorbed pm).
  - f_equal. apply filterb_ext. intros [[n s] pm] Hin. unfold in_ns. simpl. by apply Hgone.
  - intros ns' Hne. rewrite filterb_filterb. f_equal. apply filterb_ext.
    intros [[n s] pm] Hin. unfold in_ns. simpl. rewrite Hgone by done.
    destruct (bool_decide_reflect (n = ns')) as [->|?]; [|by rewrite andb_false_r].
    by rewrite bool_decide_false.
Qed.

(** A cursor the coordinator has handed out stays valid: every sequence that
    [push] returned is accepted by [cursor_validation] after any further calls,
    compactions included. *)
Theorem issued_cursor_stays_valid ns ms cmds c seqs c1 seq :
  coord_ok (length ms + cmds_size cmds) c → push ns ms c = (Ok seqs, c1) → seq ∈ seqs →
  cursor_validation seq (execs c1 cmds) = CVValid.
Proof.
  intros Hok Hpush Hseq.
  pose proof (exec_ok (cmds_size cmds) c (CPush ns ms) Hok) as (Hok1 & _).
  simpl in Hok1. rewrite Hpush in Hok1. simpl in Hok1.
  destruct (execs_ok 0 c1 cmds) as ((Hinv2 & _) & Hnext & _); [by rewrite Nat.add_0_r|].
  assert (Hlt : (0 < seq < next_seq c1)%N).
  { destruct Hok as (Hinv & (Ho & _) & Hmax), Hok1 as (Hinv1 & _).
    destruct (push_spec ns ms c Hinv) as (seqs' & fresh & c1' & Hp & Hspec & _); [split; [done|lia]|].
    rewrite Hpush in Hp. injection Hp as <- <-. apply alog_push_extends in Hspec as [_ Hrec].
    apply list_elem_of_lookup in Hseq as [i Hi].
    destruct (Forall2_lookup_r _ _ _ _ _ Hrec Hi) as (m & _ & Hf).
    by eapply log_find_lt_next. }
  pose proof (inv_next _ Hinv2). unfold cursor_validation. simpl. unfold max_sequence.
  destruct (N.eqb_spec (highest_seq (execs c1 cmds)) 0); [lia|].
  destruct (N.leb_spec seq (highest_seq (execs c1 cmds))); [done|lia].
Qed.

(** ** Witnesses *)

Definition sample_mutation (ent : string) : EncryptedMutation :=
  EncryptedMutation_new ent "ns" "alice" "todos" "r1" [1; 2]%N 7 1 1.

Definition sample_snapshot : Snapshot :=
  Snapshot_new "todos" "r1" 1 2 7 [9]%N 0.

Definition sample_history : list command :=
  [CPush "ns" [sample_mutation "m1"; sample_mutation "m2"];
   CPush "other" [sample_mutation "m1"];
   CStoreSnapshot "ns" sample_snapshot].

Definition sample_coord : t := execs new sample_history.

Lemma sample_coord_ok n : (N.of_nat n + 3 < U64_MAX)%N → coord_ok n sample_coord.
Proof.
  intros Hn. apply (execs_ok n new sample_history). apply coord_ok_new.
  replace (cmds_size sample_history) with 3 by done. lia.
Qed.

Lemma coordinator_reachable_invariant_witness :
  Forall (λ pm, pm_namespace pm = "ns" ∧ (0 < pm_sequence pm ≤ 3)%N) (ns_log "ns" sample_coord) ∧
  length (ns_log "ns" sample_coord) = 2.
Proof.
  split; [|reflexivity].
  destruct (coordinator_reachable_invariant sample_history "ns") as (_ & _ & _ & H).
  - vm_compute. reflexivity.
  - exact H.
Defined.

Lemma push_refines_log_witness :
  ∃ seqs fresh c', push "ns" [sample_mutation "m2"; sample_mutation "m3"] sample_coord = (Ok seqs, c') ∧
    ns_log "ns" c' = ns_log "ns" sample_coord ++ fresh ∧ seqs = [2; 4]%N.
Proof.
  destruct (push_refines_log "ns" [sample_mutation "m2"; sample_mutation "m3"] sample_coord)
    as (seqs & fresh & c' & Hp & _ & Hl & _).
  - apply (sample_coord_ok 2). vm_compute. reflexivity.
  - split; vm_compute; [reflexivity|congruence].
  - exists seqs, fresh, c'. split; [exact Hp|]. split; [exact Hl|].
    vm_compute in Hp. injection Hp as <- _. reflexivity.
Defined.

Lemma push_retry_idempotent_witness :
  ∃ c3, push "ns" [sample_mutation "m3"]
    (execs (push "ns" [sample_mutation "m3"] sample_coord).2 [CPush "ns" [sample_mutation "m4"]]) =
    (Ok [4%N], c3).
Proof.
  destruct (push_retry_idempotent "ns" [sample_mutation "m3"] [CPush "ns" [sample_mutation "m4"]]
    sample_coord [4%N] (push "ns" [sample_mutation "m3"] sample_coord).2) as (c3 & Hp & _).
  - apply sample_coord_ok. vm_compute. reflexivity.
  - reflexivity.
  - vm_compute. reflexivity.
  - exists c3. exact Hp.
Defined.

Lemma push_retry_after_compaction_witness :
  ∃ stats c1 c2 seq', compact_oplog "ns" sample_coord = (Ok stats, c1) ∧
    push "ns" [sample_mutation "m1"] c1 = (Ok [seq'], c2) ∧ (1 < seq')%N.
Proof.
  destruct (push_retry_after_compaction "ns" (sample_mutation "m1") sample_snapshot 1 sample_coord)
    as (stats & c1 & c2 & seq' & Hc & Hp & Hlt & _).
  - apply sample_coord_ok. vm_compute. reflexivity.
  - vm_compute. reflexivity.
  - apply (bool_decide_unpack _). vm_compute. exact I.
  - apply (bool_decide_unpack _). vm_compute. exact I.
  - exists stats, c1, c2, seq'. split; [exact Hc|]. split; [exact Hp|exact Hlt].
Defined.

Lemma pull_pages_complete_witness :
  pull_pages 3 "ns" 0 1 sample_coord = Some (ns_log "ns" sample_coord).
Proof.
  apply (pull_pages_complete "ns" 0 1 sample_coord).
  - apply (sample_coord_ok 0). vm_compute. reflexivity.
  - split; vm_compute; [reflexivity|congruence].
  - vm_compute. reflexivity.
  - lia.
Defined.

Lemma compact_oplog_exact_witness :
  ∃ stats c', compact_oplog "ns" sample_coord = (Ok stats, c') ∧ ns_log "ns" c' = [] ∧
    cs_oplog_removed stats = 2.
Proof.
  destruct (compact_oplog_exact "ns" sample_coord) as (stats & c' & Hc & _ & Hl & Hr & _).
  - apply (sample_coord_ok 0). vm_compute. reflexivity.
  - apply (sample_coord_ok 0). vm_compute. reflexivity.
  - exists stats, c'. split; [exact Hc|]. split; [rewrite Hl; vm_compute|rewrite Hr; vm_compute]; reflexivity.
Defined.

Lemma issued_cursor_stays_valid_witness :
  cursor_validation 4 (execs (push "ns" [sample_mutation "m3"] sample_coord).2 [CCompact "ns"]) = CVValid.
Proof.
  apply (issued_cursor_stays_valid "ns" [sample_mutation "m3"] [CCompact "ns"] sample_coord [4%N]).
  - apply sample_coord_ok. vm_compute. reflexivity.
  - vm_compute. reflexivity.
  - left.
Defined.
