(* ===== verification/Subscribe.v ===== *)
(** * Live subscriptions to the in-memory coordinator

    The task that [InMemoryCoordinator::subscribe] spawns, interleaved with
    concurrent pushes: a push stores its mutations under the lock and hands
    them to the broadcast channel one by one after releasing it, so two pushes
    may broadcast in either order. *)
From S2P Require Import Prelude BTree Types Coordinator CoordinatorTheory.
Import InMemoryCoordinator.

(** ** The system *)

(** Slots of the broadcast ring; a receiver further behind has lost messages. *)
Definition broadcast_capacity : nat := N.to_nat 4096.

(** The task: its place in the broadcast stream, whether it has sent the
    stored mutations, the highest sequence it sent, and what it sent. *)
Record subscription := Sub {
  su_namespace : string;
  su_from : N;
  su_pos : nat;
  su_streaming : bool;
  su_last_sent : N;
  su_out : list PendingMutation;
}.

(** The coordinator, the pushes that have released the lock with the messages
    they still have to send, and a subscription. *)
Record system := Sys {
  sy_coord : t;
  sy_sending : list (list PendingMutation);
  sy_sub : subscription;
}.

(** [subscribe]: the receiver sees what is sent from now on. *)
Definition subscribe (ns : string) (from_sequence : N) (c : t) : subscription :=
  Sub ns from_sequence (length (sent c)) false from_sequence [].

(** The first part of the task: the stored mutations, read under the lock; a
    poisoned lock yields none. *)
Definition collect_existing (s : subscription) (c : t) : list PendingMutation :=
  if rw_poisoned (ops c) then []
  else map snd (filterb (λ p, bool_decide (p.1.1 = su_namespace s))
         (bt_range_from (su_namespace s, wrapping_add64 (su_from s) 1) (rw_val (ops c)))).

Definition send_existing (existing : list PendingMutation) (s : subscription) : subscription :=
  Sub (su_namespace s) (su_from s) (su_pos s) true
    (foldl (λ last v, N.max last (pm_sequence v)) (su_last_sent s) existing)
    (su_out s ++ existing).

(** One turn of the loop: a receiver that has fallen out of the ring skips to
    its oldest slot, otherwise it takes the next message. *)
Definition receive (msgs : list PendingMutation) (s : subscription) : subscription :=
  if broadcast_capacity <? length msgs - su_pos s then
    Sub (su_namespace s) (su_from s) (length msgs - broadcast_capacity) true (su_last_sent s) (su_out s)
  else
    match msgs !! su_pos s with
    | None => s
    | Some m =>
        if bool_decide (pm_namespace m = su_namespace s) && (su_last_sent s <? pm_sequence m)%N then
          Sub (su_namespace s) (su_from s) (S (su_pos s)) true (pm_sequence m) (su_out s ++ [m])
        else Sub (su_namespace s) (su_from s) (S (su_pos s)) true (su_last_sent s) (su_out s)
    end.

(** The steps of the system.  [k] is the push whose next message is sent. *)
Inductive sys_label := LPush (ms : list EncryptedMutation) | LSend (k : nat) | LCollect | LReceive.

Inductive sys_step : sys_label → system → system → Prop :=
  | step_push ns ms c c' seqs fresh sending s :
      push_locked ns ms c = (Ok (seqs, fresh), c') →
      sys_step (LPush ms) (Sys c sending s) (Sys c' (sending ++ [fresh]) s)
  | step_send k pm rest c sending s :
      sending !! k = Some (pm :: rest) →
      sys_step (LSend k) (Sys c sending s)
        (Sys (broadcast [pm] c) (<[k := rest]> sending) s)
  | step_collect c sending s :
      su_streaming s = false →
      sys_step LCollect (Sys c sending s) (Sys c sending (send_existing (collect_existing s c) s))
  | step_receive c sending s :
      su_streaming s = true → su_pos s < length (sent c) →
      sys_step LReceive (Sys c sending s) (Sys c sending (receive (sent c) s)).

Inductive sys_run : list sys_label → system → system → Prop :=
  | run_nil x : sys_run [] x x
  | run_cons l ls x y z : sys_step l x y → sys_run ls y z → sys_run (l :: ls) x z.

(** ** Pushes that broadcast in the order they took the lock *)

(** A push sends only once every earlier one is through. *)
Definition in_order (l : sys_label) (x : system) : Prop :=
  match l with
  | LSend k => Forall (λ b, b = []) (take k (sy_sending x))
  | _ => True
  end.

(** No receive finds the ring overrun. *)
Definition no_lag (l : sys_label) (x : system) : Prop :=
  match l with
  | LReceive => length (sent (sy_coord x)) - su_pos (sy_sub x) ≤ broadcast_capacity
  | _ => True
  end.

(** A push finds room in the counter. *)
Definition has_room (l : sys_label) (x : system) : Prop :=
  match l with
  | LPush ms => (next_seq (sy_coord x) + N.of_nat (length ms) ≤ U64_MAX)%N
  | _ => True
  end.

Inductive orderly_run : system → system → Prop :=
  | orderly_nil x : orderly_run x x
  | orderly_cons l x y z : sys_step l x y → in_order l x → no_lag l x → has_room l x →
      orderly_run y z → orderly_run x z.

(** All messages of the channel, sent or still to send. *)
Definition channel (x : system) : list PendingMutation := sent (sy_coord x) ++ concat (sy_sending x).

Definition above (ns : string) (last : N) (pm : PendingMutation) : bool :=
  bool_decide (pm_namespace pm = ns) && (last <? pm_sequence pm)%N.
Definition newer (last : N) (pm : PendingMutation) : bool := (last <? pm_sequence pm)%N.
Definition upto (last : N) (pm : PendingMutation) : bool := (pm_sequence pm <=? last)%N.

(** The invariant of an orderly run: what the channel still holds for the
    subscriber is the part of the log it has not sent, and what it sent is the
    rest of the log above its starting point. *)
Record sub_inv (x : system) : Prop := {
  si_coord : coord_inv (sy_coord x);
  si_unpoisoned : rw_poisoned (ops (sy_coord x)) = false;
  si_pos : su_pos (sy_sub x) ≤ length (sent (sy_coord x));
  si_from : (su_from (sy_sub x) ≤ su_last_sent (sy_sub x))%N;
  si_last : su_last_sent (sy_sub x) = su_from (sy_sub x) ∨
    (su_last_sent (sy_sub x) < next_seq (sy_coord x))%N;
  si_from_max : (su_from (sy_sub x) < U64_MAX)%N;
  si_known pm : pm ∈ drop (su_pos (sy_sub x)) (channel x) →
    pm_namespace pm = su_namespace (sy_sub x) →
    pm ∈ ns_log (su_namespace (sy_sub x)) (sy_coord x);
  si_phase :
    if su_streaming (sy_sub x) then
      filterb (above (su_namespace (sy_sub x)) (su_last_sent (sy_sub x)))
        (drop (su_pos (sy_sub x)) (channel x)) =
      filterb (newer (su_last_sent (sy_sub x))) (ns_log (su_namespace (sy_sub x)) (sy_coord x)) ∧
      su_out (sy_sub x) = filterb (λ pm, newer (su_from (sy_sub x)) pm && upto (su_last_sent (sy_sub x)) pm)
        (ns_log (su_namespace (sy_sub x)) (sy_coord x))
    else su_last_sent (sy_sub x) = su_from (sy_sub x) ∧ su_out (sy_sub x) = [];
}.

Lemma push_locked_spec ns ms c seqs fresh c' :
  coord_inv c → (next_seq c + N.of_nat (length ms) ≤ U64_MAX)%N →
  push_locked ns ms c = (Ok (seqs, fresh), c') →
  coord_inv c' ∧ rw_poisoned (ops c') = rw_poisoned (ops c) ∧ sent c' = sent c ∧
  ns_log ns c' = ns_log ns c ++ fresh ∧ (∀ ns', ns' ≠ ns → ns_log ns' c' = ns_log ns' c) ∧
  (next_seq c ≤ next_seq c')%N ∧
  Forall (λ pm, pm_namespace pm = ns ∧ (next_seq c ≤ pm_sequence pm < next_seq c')%N) fresh.
Proof.
  intros Hinv Hroom Hp.
  destruct (push_loop ns ms c Hinv Hroom) as (res & c1 & Hrun & Hspec & Hlog & Hinv1 & Hoth & Hsent & Hrest).
  unfold push_locked, lock, rw_lock in Hp. sm_unfold. destruct (rw_poisoned (ops c)) eqn:Hpo; [done|].
  rewrite Hrun in Hp. injection Hp as <- <- <-.
  pose proof (alog_push_next _ _ _ _ _ _ _ Hspec) as Hn. destruct Hrest as (_ & _ & _ & _ & Hpo1).
  split_and!; [done|congruence|done|done|done|lia|].
  apply alog_push_appended in Hspec as (ext & Hext & Hall). rewrite Hlog in Hext.
  by apply app_inv_head in Hext as ->.
Qed.

Lemma sub_inv_push ms x y : sub_inv x → has_room (LPush ms) x → sys_step (LPush ms) x y → sub_inv y.
Proof.
  intros [Hc Hp Hpos Hfrom Hlast Hmax Hknown Hphase] Hroom Hstep.
  inversion Hstep as [ns ms' c c' seqs fresh sending s Hrun| | |]; subst. simpl in *.
  destruct (push_locked_spec _ _ _ _ _ _ Hc Hroom Hrun) as (Hc' & Hp' & Hsent & Hlog & Hoth & Hnext & Hfresh).
  assert (Hch : channel (Sys c' (sending ++ [fresh]) s) = channel (Sys c sending s) ++ fresh).
  { unfold channel. simpl. by rewrite Hsent, concat_app, app_assoc; simpl; rewrite app_nil_r. }
  assert (Hlen : su_pos s ≤ length (channel (Sys c sending s))).
  { unfold channel. simpl. rewrite length_app. lia. }
  assert (Hns : ∀ f, filterb (λ pm, bool_decide (pm_namespace pm = su_namespace s) && f pm) fresh =
    if bool_decide (ns = su_namespace s) then filterb f fresh else []).
  { intros f. case_bool_decide as Hd.
    - apply filterb_ext. intros pm Hin. rewrite Forall_forall in Hfresh. apply Hfresh in Hin as [Hn _].
      cbn beta. by rewrite bool_decide_true by congruence.
    - apply filterb_none. intros pm Hin. rewrite Forall_forall in Hfresh. apply Hfresh in Hin as [Hn _].
      cbn beta. by rewrite bool_decide_false by congruence. }
  assert (Hl : ns_log (su_namespace s) c' =
    ns_log (su_namespace s) c ++ if bool_decide (ns = su_namespace s) then fresh else []).
  { case_bool_decide as Hd; [by rewrite <-Hd|]. rewrite app_nil_r. by apply Hoth. }
  split; simpl; try done.
  - congruence.
  - by rewrite Hsent.
  - destruct Hlast as [?|?]; [by left|right; lia].
  - intros pm Hin Hpm. rewrite Hch, drop_app_le in Hin by done. rewrite Hl. apply elem_of_app.
    apply elem_of_app in Hin as [Hin|Hin]; [left; by apply Hknown|right].
    rewrite bool_decide_true; [done|]. rewrite Forall_forall in Hfresh. apply Hfresh in Hin as [Hn _]. congruence.
  - destruct (su_streaming s); [|done]. destruct Hphase as [Hq Hout].
    rewrite Hch, drop_app_le, filterb_app, Hl, !filterb_app, Hq by done. unfold above at 1. rewrite Hns.
    split; [by case_bool_decide|]. rewrite Hout, (filterb_none _ (if bool_decide (ns = su_namespace s) then fresh else [])),
      app_nil_r; [done|].
    intros pm Hin. assert (Hge : (next_seq c ≤ pm_sequence pm)%N).
    { case_bool_decide; [|by apply elem_of_nil in Hin]. rewrite Forall_forall in Hfresh.
      by destruct (Hfresh pm Hin) as [_ [? _]]. }
    unfold newer, upto. destruct Hlast as [Heq|Hlt]; [rewrite Heq|].
    + destruct (N.ltb_spec (su_from s) (pm_sequence pm)), (N.leb_spec (pm_sequence pm) (su_from s)); simpl; lia || done.
    + destruct (N.leb_spec (pm_sequence pm) (su_last_sent s)); [lia|]. by rewrite andb_false_r.
Qed.

(** An in-order send only moves the border between sent and unsent. *)
Lemma channel_send k pm rest c sending s :
  sending !! k = Some (pm :: rest) → Forall (λ b, b = []) (take k sending) →
  channel (Sys (broadcast [pm] c) (<[k := rest]> sending) s) = channel (Sys c sending s).
Proof.
  unfold channel. simpl. intros Hk Hall. rewrite <-app_assoc. f_equal.
  revert k Hk Hall. induction sending as [|b sending IH]; intros [|k] Hk Hall; simpl in *; try done.
  - by injection Hk as ->.
  - inversion Hall; subst. simpl. by apply (IH k).
Qed.

Lemma sub_inv_send k x y : sub_inv x → in_order (LSend k) x → sys_step (LSend k) x y → sub_inv y.
Proof.
  intros [Hc Hp Hpos Hfrom Hlast Hmax Hknown Hphase] Hord Hstep.
  inversion Hstep as [|k' pm rest c sending s Hk| |]; subst. simpl in *.
  pose proof (channel_send k pm rest c sending s Hk Hord) as Hch.
  split; simpl; try done.
  - destruct Hc. by split.
  - rewrite length_app. lia.
  - intros pm' Hin. rewrite Hch in Hin. by apply Hknown.
  - by rewrite Hch.
Qed.

Lemma last_of_existing last l :
  let m := foldl (λ last v, N.max last (pm_sequence v)) last l in
  (last ≤ m)%N ∧ Forall (λ v, (pm_sequence v ≤ m)%N) l ∧ (m = last ∨ ∃ v, v ∈ l ∧ m = pm_sequence v).
Proof.
  revert last. induction l as [|v l IH]; intros last; simpl; [split_and!; [lia|done|by left]|].
  destruct (IH (N.max last (pm_sequence v))) as (H1 & H2 & H3). split_and!.
  - lia.
  - constructor; [lia|done].
  - destruct H3 as [->|(w & Hw & ->)]; [|right; exists w; split; [by right|done]].
    destruct (N.max_spec last (pm_sequence v)) as [[_ ->]|[_ ->]]; [right; exists v; split; [left|done]|by left].
Qed.

Lemma sub_inv_collect x y : sub_inv x → sys_step LCollect x y → sub_inv y.
Proof.
  intros [Hc Hp Hpos Hfrom Hlast Hmax Hknown Hphase] Hstep.
  inversion Hstep as [| |c sending s Hst|]; subst. simpl in *. rewrite Hst in Hphase.
  destruct Hphase as [Hls Hout].
  assert (Hex : collect_existing s c = filterb (newer (su_from s)) (ns_log (su_namespace s) c)).
  { unfold collect_existing. rewrite Hp. by apply pull_range. }
  destruct (last_of_existing (su_last_sent s) (collect_existing s c)) as (Hge & Hall & Hcase).
  set (m := foldl _ _ (collect_existing s c)) in *.
  assert (Hle : ∀ pm, pm ∈ ns_log (su_namespace s) c → (pm_sequence pm ≤ m)%N).
  { intros pm Hin. destruct (N.le_gt_cases (pm_sequence pm) (su_from s)); [lia|].
    rewrite Forall_forall in Hall. apply Hall. rewrite Hex. apply elem_of_filterb.
    split; [by apply N.ltb_lt|done]. }
  split; simpl; try done.
  - lia.
  - fold m. destruct Hcase as [Hm|(v & Hv & Hm)]; [left; congruence|right]. rewrite Hm, Hex in *.
    apply elem_of_filterb in Hv as [_ [k Hin]%elem_of_ns_log].
    by apply (inv_key _ Hc) in Hin as (_ & <- & [_ ?]).
  - fold m. rewrite Hout, Hex. split.
    + rewrite (filterb_none (newer m)), filterb_none; [done| |].
      * intros pm Hin. unfold above. case_bool_decide as Hns; [|done]. simpl.
        apply N.ltb_ge, Hle. by apply Hknown.
      * intros pm Hin. by apply N.ltb_ge, Hle.
    + simpl. apply filterb_ext. intros pm Hin. unfold upto.
      rewrite (proj2 (N.leb_le _ _) (Hle pm Hin)). by rewrite andb_true_r.
Qed.

(** Removing the head of a sorted list of newer mutations. *)
Lemma filterb_newer_tail last m l rest :
  StronglySorted seq_lt l → (last ≤ pm_sequence m)%N → filterb (newer last) l = m :: rest →
  filterb (newer (pm_sequence m)) l = rest ∧ filterb (newer (pm_sequence m)) rest = rest ∧
  filterb (λ pm, newer last pm && upto (pm_sequence m) pm) l = [m].
Proof.
  intros Hs Hle Heq.
  assert (Hs' : StronglySorted seq_lt (m :: rest)).
  { rewrite <-Heq. eapply StronglySorted_sublist, Hs. apply sublist_filterb. }
  inversion Hs' as [|?? _ Hlt]; subst. rewrite Forall_forall in Hlt.
  assert (Hrest : filterb (newer (pm_sequence m)) rest = rest).
  { apply filterb_all. intros q Hq. by apply N.ltb_lt, Hlt. }
  split_and!; [|done|].
  - unfold newer at 1. rewrite <-(filterb_mono_above last (pm_sequence m) l Hle).
    fold (newer last). rewrite Heq. unfold filterb at 1. simpl. rewrite N.ltb_irrefl. exact Hrest.
  - rewrite <-filterb_filterb, Heq. unfold filterb, upto. simpl. rewrite N.leb_refl. f_equal.
    apply filterb_none. intros q Hq. apply N.leb_gt, Hlt, Hq.
Qed.

(** A sorted list splits at any point. *)
Lemma filterb_range_split a b c l : StronglySorted seq_lt l → (a ≤ b ≤ c)%N →
  filterb (λ pm, newer a pm && upto c pm) l =
  filterb (λ pm, newer a pm && upto b pm) l ++ filterb (λ pm, newer b pm && upto c pm) l.
Proof.
  intros Hs Habc. induction Hs as [|x l Hs IH Hlt]; [done|].
  unfold filterb in *. cbn [List.filter].
  destruct (N.leb_spec (pm_sequence x) b) as [Hb|Hb].
  - assert (newer b x = false) as -> by by apply N.ltb_ge.
    assert (upto b x = true) as -> by by apply N.leb_le.
    assert (upto c x = true) as -> by (apply N.leb_le; lia).
    destruct (newer a x); simpl; [by f_equal|done].
  - assert (newer b x = true) as -> by by apply N.ltb_lt.
    assert (upto b x = false) as -> by by apply N.leb_gt.
    assert (newer a x = true) as -> by (apply N.ltb_lt; lia).
    assert (Hnil : List.filter (λ pm, newer a pm && upto b pm) l = []).
    { apply filterb_none. intros y Hy. rewrite Forall_forall in Hlt. apply Hlt in Hy. unfold seq_lt in Hy.
      unfold upto. rewrite (proj2 (N.leb_gt _ _)) by lia. by rewrite andb_false_r. }
    rewrite Hnil in *. simpl. destruct (upto c x); [by f_equal|done].
Qed.

Lemma sub_inv_receive x y : sub_inv x → no_lag LReceive x → sys_step LReceive x y → sub_inv y.
Proof.
  intros [Hc Hp Hpos Hfrom Hlast Hmax Hknown Hphase] Hlag Hstep.
  inversion Hstep as [| | |c sending s Hst Hlt]; subst. simpl in *. rewrite Hst in Hphase.
  destruct Hphase as [Hq Hout]. unfold receive.
  destruct (Nat.ltb_spec broadcast_capacity (length (sent c) - su_pos s)); [lia|].
  destruct (sent c !! su_pos s) as [m|] eqn:Hm; [|apply lookup_ge_None in Hm; lia].
  assert (Hdrop : drop (su_pos s) (channel (Sys c sending s)) = m :: drop (S (su_pos s)) (channel (Sys c sending s))).
  { apply drop_S. unfold channel. simpl. by apply lookup_app_l_Some. }
  rewrite Hdrop in Hq, Hknown. unfold filterb at 1 in Hq. cbn [List.filter] in Hq.
  fold (filterb (above (su_namespace s) (su_last_sent s))) in Hq.
  destruct (above (su_namespace s) (su_last_sent s) m) eqn:Hab; unfold above in Hab; rewrite Hab.
  - apply andb_true_iff in Hab as [Hns%bool_decide_eq_true Hnew%N.ltb_lt].
    symmetry in Hq. pose proof (ns_log_sorted (su_namespace s) c Hc) as Hs.
    destruct (filterb_newer_tail _ _ _ _ Hs (N.lt_le_incl _ _ Hnew) Hq) as (Htail & Hrest & Hhead).
    assert (Hin : m ∈ ns_log (su_namespace s) c) by (apply Hknown; [left|done]).
    split; simpl; try done; try lia.
    + right. apply elem_of_ns_log in Hin as [k Hin]. by apply (inv_key _ Hc) in Hin as (_ & <- & [_ ?]).
    + intros pm Hpm. apply Hknown. by right.
    + split.
      * rewrite Htail, <-Hrest, filterb_filterb. apply filterb_ext. intros pm _. unfold above, newer.
        destruct (N.ltb_spec (pm_sequence m) (pm_sequence pm)), (N.ltb_spec (su_last_sent s) (pm_sequence pm));
          by rewrite ?andb_true_r, ?andb_false_r; lia || done.
      * rewrite Hout, (filterb_range_split (su_from s) (su_last_sent s) (pm_sequence m)) by (done || lia). by rewrite Hhead.
  - split; simpl; try done; try lia. intros pm Hpm. apply Hknown. by right.
Qed.

Lemma orderly_run_inv x y : sub_inv x → orderly_run x y → sub_inv y.
Proof.
  intros Hx Hrun. induction Hrun as [|[ms|k| |] x y z Hstep Hord Hlag Hroom _ IH]; [done|..]; apply IH.
  - by eapply sub_inv_push.
  - by eapply sub_inv_send.
  - by eapply sub_inv_collect.
  - by eapply sub_inv_receive.
Qed.

(** The state right after [subscribe], with no push in flight. *)
Lemma sub_inv_start ns from c : coord_inv c → rw_poisoned (ops c) = false → (from < U64_MAX)%N →
  sub_inv (Sys c [] (subscribe ns from c)).
Proof.
  intros Hc Hp Hf. split; simpl; try done; [by left|].
  intros pm Hin. unfold channel in Hin. simpl in Hin. rewrite app_nil_r, drop_all in Hin.
  by apply elem_of_nil in Hin.
Qed.

(** ** Theorems *)

(** Every message has been sent and the subscriber has seen it. *)
Definition quiescent (x : system) : Prop :=
  concat (sy_sending x) = [] ∧ su_streaming (sy_sub x) = true ∧
  su_pos (sy_sub x) = length (sent (sy_coord x)).

(** C39: A subscription delivers everything, once and in order, while pushes
    broadcast in the order they took the lock and the receiver does not fall a
    full ring behind: whatever the interleaving of pushes, broadcasts and the
    subscriber's own steps, what it has sent is always a prefix of the
    namespace's log above the starting sequence, and all of it once nothing is
    in flight. *)
Theorem subscription_complete ns from c y :
  coord_inv c → rw_poisoned (ops c) = false → (from < U64_MAX)%N →
  orderly_run (Sys c [] (subscribe ns from c)) y →
  let log := filterb (newer from) (ns_log ns (sy_coord y)) in
  su_out (sy_sub y) `prefix_of` log ∧ (quiescent y → su_out (sy_sub y) = log).
Proof.
  intros Hc Hp Hf Hrun log. pose proof (sub_inv_start ns from c Hc Hp Hf) as Hstart.
  assert (Hsame : su_namespace (sy_sub y) = ns ∧ su_from (sy_sub y) = from).
  { clear -Hrun. remember (Sys c [] (subscribe ns from c)) as x eqn:Hx.
    assert (Hx' : su_namespace (sy_sub x) = ns ∧ su_from (sy_sub x) = from) by by subst.
    clear Hx. induction Hrun as [|l x y z Hstep _ _ _ _ IH]; [done|]. apply IH.
    inversion Hstep; subst; simpl in *; try done. unfold receive.
    destruct (_ <? _); [done|]. destruct (_ !! _); [|done]. by destruct (_ && _). }
  destruct Hsame as [Hns Hfr].
  pose proof (orderly_run_inv _ _ Hstart Hrun) as [Hc' _ _ Hfrom Hlast _ _ Hphase].
  rewrite Hns, Hfr in *. destruct (su_streaming (sy_sub y)) eqn:Hst.
  2:{ destruct Hphase as [_ ->]. split; [apply prefix_nil|]. intros (_ & Hs & _). congruence. }
  destruct Hphase as [Hq Hout].
  assert (Hsplit : log = su_out (sy_sub y) ++ filterb (newer (su_last_sent (sy_sub y))) (ns_log ns (sy_coord y))).
  { set (top := N.max (su_last_sent (sy_sub y)) (next_seq (sy_coord y))).
    assert (Htop : ∀ a, filterb (newer a) (ns_log ns (sy_coord y)) =
      filterb (λ pm, newer a pm && upto top pm) (ns_log ns (sy_coord y))).
    { intros a. apply filterb_ext. intros pm [k Hin]%elem_of_ns_log.
      apply (inv_key _ Hc') in Hin as (_ & Hk & Hb). unfold upto.
      rewrite (proj2 (N.leb_le _ _)) by lia. by rewrite andb_true_r. }
    unfold log. rewrite !Htop, Hout. apply filterb_range_split; [by apply ns_log_sorted|lia]. }
  split; [by eexists|]. intros (Hsending & _ & Hpos). rewrite Hsplit, <-Hq.
  unfold channel. rewrite Hsending, app_nil_r, Hpos, drop_all. by rewrite app_nil_r.
Qed.

(** Pushes that broadcast out of order lose mutations for subscribers: two
    pushes store sequences 1 and 2, the second reaches the broadcast channel
    first, and the subscriber, having sent 2, drops 1; when everything has been
    delivered the log holds both and the subscriber has only the second. *)
Theorem subscription_drops_overtaken :
  let ma := EncryptedMutation_new "a" "ns" "r1" "todos" "x" [1]%N 0 0 1 in
  let mb := EncryptedMutation_new "b" "ns" "r2" "todos" "x" [2]%N 0 0 1 in
  ∃ y, sys_run [LCollect; LPush [ma]; LPush [mb]; LSend 1; LSend 0; LReceive; LReceive]
      (Sys new [] (subscribe "ns" 0 new)) y ∧
    quiescent y ∧ ns_log "ns" (sy_coord y) = [to_pending "ns" 1 ma; to_pending "ns" 2 mb] ∧
    su_out (sy_sub y) = [to_pending "ns" 2 mb].
Proof.
  intros ma mb. eexists. split.
  - econstructor; [by apply step_collect|]. econstructor; [by eapply (step_push "ns" [ma])|].
    econstructor; [by eapply (step_push "ns" [mb])|].
    econstructor; [by eapply step_send|]. econstructor; [by eapply step_send|].
    econstructor; [apply step_receive; [done|vm_compute; lia]|].
    econstructor; [apply step_receive; [done|vm_compute; lia]|]. constructor.
  - unfold quiescent. split_and!; vm_compute; reflexivity.
Qed.

(** ** Witness *)

Lemma subscription_complete_witness :
  su_out (subscribe "ns" 0 sample_coord) `prefix_of` filterb (newer 0) (ns_log "ns" sample_coord) ∧
  ∃ y, quiescent y ∧ su_out (sy_sub y) = ns_log "ns" (sy_coord y) ∧ length (su_out (sy_sub y)) = 2.
Proof.
  assert (Hok : coord_ok 0 sample_coord) by (apply sample_coord_ok; vm_compute; reflexivity).
  destruct Hok as (Hinv & (Ho & _) & _).
  split; [apply prefix_nil|].
  exists (Sys sample_coord [] (send_existing (collect_existing (subscribe "ns" 0 sample_coord) sample_coord)
    (subscribe "ns" 0 sample_coord))).
  assert (Hq : quiescent (Sys sample_coord [] (send_existing
    (collect_existing (subscribe "ns" 0 sample_coord) sample_coord) (subscribe "ns" 0 sample_coord))))
    by (unfold quiescent; split_and!; vm_compute; reflexivity).
  split; [exact Hq|]. split; [|vm_compute; reflexivity].
  destruct (subscription_complete "ns" 0 sample_coord (Sys sample_coord [] (send_existing
    (collect_existing (subscribe "ns" 0 sample_coord) sample_coord) (subscribe "ns" 0 sample_coord))))
    as [_ Hall].
  - exact Hinv.
  - exact Ho.
  - vm_compute. reflexivity.
  - eapply orderly_cons; [by apply step_collect|exact I|exact I|exact I|]. apply orderly_nil.
  - rewrite (Hall Hq). vm_compute. reflexivity.
Defined.
