(* ===== verification/Failover.v ===== *)
(** * The failover coordinator

    [coordinator/failover.rs]: calls go to the active candidate and move on to
    the next when it is not available; enough failures make the next one the
    active candidate.  The candidates are states of one type [C] that
    implements the interface. *)
From S2P Require Import Prelude BTree Types Coordinator CoordinatorTheory.

Section failover.
Context {C : Type} {HC : Coordinator C}.

Record FailoverCoordinator := Failover {
  fo_candidates : list C;
  fo_current : nat;
  fo_failure_count : N;
  fo_max_failures : N;
}.

(** [new]; [None] where the assertion that there is a candidate fails. *)
Definition failover_new (candidates : list C) : option FailoverCoordinator :=
  match candidates with
  | [] => None
  | _ => Some (Failover candidates 0 0 3)
  end.

Definition with_max_failures (n : N) (f : FailoverCoordinator) : FailoverCoordinator :=
  Failover (fo_candidates f) (fo_current f) (fo_failure_count f) n.

Definition active_index (f : FailoverCoordinator) : nat := fo_current f.

Definition fo_record_failure (idx : nat) (f : FailoverCoordinator) : bool * FailoverCoordinator :=
  let current_idx := fo_current f in
  if negb (idx =? current_idx) then (false, f)
  else
    let count := wrapping_add32 (fo_failure_count f) 1 in
    let f := Failover (fo_candidates f) current_idx count (fo_max_failures f) in
    if (fo_max_failures f <=? count)%N then
      let next_idx := (current_idx + 1) mod length (fo_candidates f) in
      if negb (next_idx =? current_idx) then
        (true, Failover (fo_candidates f) next_idx 0 (fo_max_failures f))
      else (false, f)
    else (false, f).

Definition fo_record_success (idx : nat) (f : FailoverCoordinator) : FailoverCoordinator :=
  if idx =? fo_current f then Failover (fo_candidates f) (fo_current f) 0 (fo_max_failures f) else f.

Definition set_candidate (idx : nat) (c : C) (f : FailoverCoordinator) : FailoverCoordinator :=
  Failover (<[idx := c]> (fo_candidates f)) (fo_current f) (fo_failure_count f) (fo_max_failures f).

(** The errors that make the macro try another candidate. *)
Definition is_unavailable (e : CoordinatorError) : bool :=
  match e with NotAvailable | Timeout => true | _ => false end.

(** The loop of [try_coord!]; it ends within [limit] turns. *)
Fixpoint try_loop {A} (call : SM C CoordinatorError A) (limit start_idx retries fuel : nat) :
    SM FailoverCoordinator CoordinatorError A := λ f,
  match fuel with
  | O => (Err NotAvailable, f)
  | S fuel =>
      let idx := (start_idx + retries) mod limit in
      match fo_candidates f !! idx with
      | None => (Err NotAvailable, f)
      | Some coord =>
          match call coord with
          | (Ok val, coord') => (Ok val, fo_record_success idx (set_candidate idx coord' f))
          | (Err e, coord') =>
              let f := set_candidate idx coord' f in
              if is_unavailable e then
                let f := (fo_record_failure idx f).2 in
                if limit <=? S retries then (Err e, f)
                else try_loop call limit start_idx (S retries) fuel f
              else (Err e, f)
          end
      end
  end.

Definition try_coord {A} (call : SM C CoordinatorError A) :
    SM FailoverCoordinator CoordinatorError A := λ f,
  let limit := length (fo_candidates f) in
  try_loop call limit (active_index f) 0 limit f.

(** The trait's methods, each through the macro; the ones the implementation
    does not override keep the trait's defaults. *)
#[export] Instance failover_coordinator : Coordinator FailoverCoordinator := {|
  push ns ms := try_coord (push ns ms);
  pull ns after limit := try_coord (pull ns after limit);
  register ns info last_sequence := try_coord (register ns info last_sequence);
  heartbeat ns replica_id := try_coord (heartbeat ns replica_id);
  schema_version ns := try_coord (schema_version ns);
  disconnect := mret tt;
  generation_id _ := "";
  history_preserved _ := false;
  max_sequence _ := 0%N;
  update_replica_key ns replica_id key ver := try_coord (update_replica_key ns replica_id key ver);
  get_replica_key ns replica_id := try_coord (get_replica_key ns replica_id);
  list_replicas ns := try_coord (list_replicas ns);
  get_snapshot ns doc_id record_id := try_coord (get_snapshot ns doc_id record_id);
  store_snapshot ns s := try_coord (store_snapshot ns s);
  compact_oplog ns := try_coord (compact_oplog ns);
  list_snapshots ns := try_coord (list_snapshots ns);
|}.

(** ** Specification *)

(** The answer of the first candidate, going around from the active one, that
    is available; the last unavailability if none is. *)
Fixpoint first_answer {A} (call : SM C CoordinatorError A) (cands : list C) : result A CoordinatorError :=
  match cands with
  | [] => Err NotAvailable
  | [c] => (call c).1
  | c :: cands' =>
      match (call c).1 with
      | Err e => if is_unavailable e then first_answer call cands' else Err e
      | Ok v => Ok v
      end
  end.

Definition rotate_from (n : nat) (l : list C) : list C := drop n l ++ take n l.

(** Candidate index in range, and a count of failures below the threshold
    unless there is nowhere to go. *)
Definition failover_wf (f : FailoverCoordinator) : Prop :=
  fo_current f < length (fo_candidates f) ∧
  (1 < length (fo_candidates f) → (fo_failure_count f < N.max 1 (fo_max_failures f))%N).

Lemma set_candidate_wf idx c f : failover_wf f → failover_wf (set_candidate idx c f).
Proof. unfold failover_wf. simpl. by rewrite length_insert. Qed.

Lemma record_success_wf idx f : failover_wf f → failover_wf (fo_record_success idx f).
Proof.
  intros [H1 H2]. unfold fo_record_success. destruct (_ =? _); [|done]. split; simpl; [done|lia].
Qed.

Lemma record_failure_wf idx f : (fo_max_failures f ≤ U32_MAX)%N → failover_wf f →
  failover_wf (fo_record_failure idx f).2 ∧
  length (fo_candidates (fo_record_failure idx f).2) = length (fo_candidates f) ∧
  fo_candidates (fo_record_failure idx f).2 = fo_candidates f ∧
  fo_max_failures (fo_record_failure idx f).2 = fo_max_failures f.
Proof.
  intros Hmax [H1 H2]. unfold fo_record_failure.
  destruct (Nat.eqb_spec idx (fo_current f)); simpl; [|done].
  destruct (N.leb_spec (fo_max_failures f) (wrapping_add32 (fo_failure_count f) 1)) as [Hle|Hlt].
  - destruct (Nat.eqb_spec ((fo_current f + 1) mod length (fo_candidates f)) (fo_current f)) as [Heq|Hne];
      simpl; split_and!; try done; split; simpl; try done.
    + intros Hlen. exfalso. destruct (decide (fo_current f + 1 = length (fo_candidates f))) as [Ha|Ha].
      * rewrite Ha, Nat.Div0.mod_same in Heq. lia.
      * rewrite Nat.mod_small in Heq; lia.
    + apply Nat.mod_upper_bound. lia.
    + lia.
  - simpl. split_and!; try done. split; simpl; [done|]. intros Hlen. lia.
Qed.

Lemma rotated_index start j limit : start < limit → j < limit →
  (start + j) mod limit = if start + j <? limit then start + j else start + j - limit.
Proof.
  intros Hs Hj. destruct (Nat.ltb_spec (start + j) limit); [by apply Nat.mod_small|].
  rewrite <-(Nat.mod_small (start + j - limit) limit) by lia.
  replace (start + j) with (start + j - limit + 1 * limit) at 1 by lia. by rewrite Nat.Div0.mod_add.
Qed.

Lemma rotate_lookup start j (l : list C) : start < length l → j < length l →
  rotate_from start l !! j = l !! ((start + j) mod length l).
Proof.
  intros Hs Hj. rewrite rotated_index by done. unfold rotate_from.
  destruct (Nat.ltb_spec (start + j) (length l)).
  - rewrite lookup_app_l by (rewrite length_drop; lia). by rewrite lookup_drop.
  - rewrite lookup_app_r by (rewrite length_drop; lia). rewrite length_drop, lookup_take_lt by lia.
    f_equal. lia.
Qed.

(** What a call leaves intact. *)
Definition same_shape (f f' : FailoverCoordinator) : Prop :=
  failover_wf f' ∧ length (fo_candidates f') = length (fo_candidates f) ∧
  fo_max_failures f' = fo_max_failures f.

Lemma try_loop_spec {A} (call : SM C CoordinatorError A) rot start fuel r f :
  r + fuel = length rot → 0 < fuel → start < length rot → length (fo_candidates f) = length rot →
  (fo_max_failures f ≤ U32_MAX)%N → failover_wf f →
  (∀ j, r ≤ j < length rot → fo_candidates f !! ((start + j) mod length rot) = rot !! j) →
  (try_loop call (length rot) start r fuel f).1 = first_answer call (drop r rot) ∧
  same_shape f (try_loop call (length rot) start r fuel f).2.
Proof.
  revert r f. induction fuel as [|fuel IH]; intros r f Hr Hpos Hs Hlen Hmax Hwf Hrot; [lia|].
  cbn [try_loop]. rewrite (Hrot r) by lia.
  destruct (rot !! r) as [c|] eqn:Hc; [|apply lookup_ge_None in Hc; lia].
  rewrite (drop_S _ _ _ Hc). set (idx := (start + r) mod length rot).
  assert (Hset : ∀ c', same_shape f (set_candidate idx c' f)).
  { intros c'. split_and!; [by apply set_candidate_wf|simpl; by rewrite length_insert|done]. }
  destruct (call c) as [[v|e] c'] eqn:Hcall.
  { split; [destruct (drop (S r) rot); simpl; by rewrite Hcall|].
    destruct (Hset c') as (H1 & H2 & H3). split_and!; [by apply record_success_wf|..];
      unfold fo_record_success; destruct (_ =? _); done. }
  destruct (is_unavailable e) eqn:He.
  2:{ split; [destruct (drop (S r) rot); simpl; rewrite Hcall; simpl; by rewrite ?He|apply Hset]. }
  destruct (Hset c') as (H1 & H2 & H3).
  destruct (record_failure_wf idx (set_candidate idx c' f) ltac:(by rewrite H3) H1) as (G1 & G2 & G3 & G4).
  set (f' := (fo_record_failure idx (set_candidate idx c' f)).2) in *.
  destruct (Nat.leb_spec (length rot) (S r)) as [Hend|Hmore].
  - split; [|split_and!; simpl; [done|by rewrite G2|by rewrite G4]].
    rewrite drop_ge by lia. simpl. by rewrite Hcall.
  - destruct (IH (S r) f' ltac:(lia) ltac:(lia) Hs) as (I1 & I2 & I3 & I4);
      [by rewrite G2, H2|by rewrite G4, H3|done| |].
    + intros j Hj. rewrite G3. simpl. rewrite list_lookup_insert_ne; [apply Hrot; lia|].
      unfold idx. rewrite !rotated_index by lia.
      destruct (Nat.ltb_spec (start + r) (length rot)), (Nat.ltb_spec (start + j) (length rot)); lia.
    + split; [|split_and!; [done|by rewrite I3, G2|by rewrite I4, G4]]. rewrite I1.
      destruct (drop (S r) rot) eqn:Hd; [|simpl; rewrite Hcall; simpl; by rewrite He].
      apply (f_equal length) in Hd. rewrite length_drop in Hd. simpl in Hd. lia.
Qed.

(** ** Theorems *)

(** A call through the failover coordinator answers with the first candidate,
    going around from the active one, that is available: its value if it
    succeeds, its error if it refuses, and an unavailability only when every
    candidate is unavailable; it terminates after at most one attempt per
    candidate and keeps the active index in range. *)
Theorem failover_first_available {A} (call : SM C CoordinatorError A) f :
  failover_wf f → (fo_max_failures f ≤ U32_MAX)%N →
  (try_coord call f).1 = first_answer call (rotate_from (active_index f) (fo_candidates f)) ∧
  failover_wf (try_coord call f).2 ∧
  length (fo_candidates (try_coord call f).2) = length (fo_candidates f).
Proof.
  intros Hwf Hmax. pose proof Hwf as [Hcur _]. set (rot := rotate_from (fo_current f) (fo_candidates f)).
  assert (Hlen : length rot = length (fo_candidates f)).
  { unfold rot, rotate_from. rewrite length_app, length_drop, length_take. lia. }
  destruct (try_loop_spec call rot (fo_current f) (length rot) 0 f) as (H1 & H2 & H3 & _);
    try lia; try done.
  { intros j Hj. rewrite Hlen. unfold rot. rewrite rotate_lookup by lia. done. }
  unfold try_coord, active_index. cbv zeta. rewrite <-Hlen.
  split_and!; [exact H1|exact H2|by rewrite H3].
Qed.

(** The active candidate is given up exactly at the threshold: starting from a
    clean count, the first [max_failures - 1] failures of the active candidate
    leave it active, and the next one moves on to the following candidate (the
    first after the last) with a clean count. *)
Theorem failover_threshold f n :
  1 < length (fo_candidates f) → fo_current f < length (fo_candidates f) →
  fo_failure_count f = 0%N → (0 < fo_max_failures f ≤ U32_MAX)%N →
  let fail f := (fo_record_failure (fo_current f) f).2 in
  let f' := Nat.iter n fail f in
  ((N.of_nat n < fo_max_failures f)%N → fo_current f' = fo_current f ∧ fo_failure_count f' = N.of_nat n) ∧
  (N.of_nat n = fo_max_failures f →
     fo_current f' = (fo_current f + 1) mod length (fo_candidates f) ∧
     fo_current f' ≠ fo_current f ∧ fo_failure_count f' = 0%N).
Proof.
  intros Hlen Hcur Hcount Hmax fail.
  assert (Hbelow : ∀ k, (N.of_nat k < fo_max_failures f)%N → Nat.iter k fail f =
    Failover (fo_candidates f) (fo_current f) (N.of_nat k) (fo_max_failures f)).
  { induction k as [|k IH]; intros Hk; [destruct f; simpl in *; by subst|].
    cbn [Nat.iter nat_rect]. change (nat_rect _ _ _ k) with (Nat.iter k fail f). rewrite IH by lia.
    unfold fail, fo_record_failure. simpl. rewrite Nat.eqb_refl. simpl.
    rewrite wrapping_add32_small by lia. destruct (N.leb_spec (fo_max_failures f) (N.of_nat k + 1)); [lia|].
    simpl. f_equal. lia. }
  split; [intros Hn; by rewrite Hbelow|]. destruct n as [|n]; [lia|]. intros Hn.
  change (Nat.iter (S n) fail f) with (fail (Nat.iter n fail f)). rewrite Hbelow by lia.
  unfold fail, fo_record_failure. simpl. rewrite Nat.eqb_refl. simpl. rewrite wrapping_add32_small by lia.
  destruct (N.leb_spec (fo_max_failures f) (N.of_nat n + 1)); [|lia].
  assert (Hne : (fo_current f + 1) mod length (fo_candidates f) ≠ fo_current f).
  { rewrite rotated_index by lia. destruct (Nat.ltb_spec (fo_current f + 1) (length (fo_candidates f))); lia. }
  rewrite (proj2 (Nat.eqb_neq _ _) Hne). done.
Qed.
End failover.
Arguments FailoverCoordinator : clear implicits.

(** ** Witnesses *)

(** A candidate that is down, then one that works. *)
Definition sample_failover : FailoverCoordinator InMemoryCoordinator.t :=
  Failover [InMemoryCoordinator.mk 1 0 (RwLock [] true) (rw_new ∅) (rw_new ∅) (rw_new ∅) (rw_new ∅) [];
            sample_coord] 0 0 3.

Lemma failover_first_available_witness :
  (push "ns" [sample_mutation "m3"] sample_failover).1 = Ok [4%N].
Proof.
  change (push "ns" [sample_mutation "m3"] sample_failover) with
    (try_coord (push "ns" [sample_mutation "m3"]) sample_failover).
  destruct (failover_first_available (push "ns" [sample_mutation "m3"]) sample_failover) as [H _].
  - split; [vm_compute; lia|]. intros _. vm_compute. reflexivity.
  - vm_compute. discriminate.
  - rewrite H. vm_compute. reflexivity.
Defined.

Lemma failover_threshold_witness :
  fo_current (Nat.iter 3 (λ f, (fo_record_failure (fo_current f) f).2) sample_failover) = 1.
Proof.
  apply (failover_threshold sample_failover 3).
  - vm_compute. lia.
  - vm_compute. lia.
  - reflexivity.
  - split; vm_compute; [reflexivity|discriminate].
  - reflexivity.
Defined.
