(* ===== verification/Migration.v ===== *)
(** * Moving a namespace between coordinators

    [coordinator/migration.rs]: replicas with their keys, snapshots and then
    the mutations, chunk by chunk, are copied from one coordinator to
    another. *)
From S2P Require Import Prelude BTree Types Coordinator CoordinatorTheory.

Section migration.
Context {C1 C2 : Type} {HC1 : Coordinator C1} {HC2 : Coordinator C2}.

(** The two coordinators and the totals the callback has been given. *)
Record migration := Migration {
  mi_from : C1;
  mi_to : C2;
  mi_progress : list nat;
}.

(** Errors of the coordinators; [None] stands for a loop cut off by its fuel. *)
Abbreviation M := (SM migration (option CoordinatorError)).

Definition on_from {A} (m : SM C1 CoordinatorError A) : M A :=
  zoom mi_from (λ c g, Migration c (mi_to g) (mi_progress g)) (sm_map_err Some m).
Definition on_to {A} (m : SM C2 CoordinatorError A) : M A :=
  zoom mi_to (λ c g, Migration (mi_from g) c (mi_progress g)) (sm_map_err Some m).
Definition progress_callback (total : nat) : M unit :=
  sm_modify (λ g, Migration (mi_from g) (mi_to g) (mi_progress g ++ [total])).

(** The form in which a pulled mutation is pushed. *)
Definition migrated (schema_version : N) (pm : PendingMutation) : EncryptedMutation :=
  EncryptedMutation_new (pm_id pm) (pm_namespace pm) "migrated" (pm_doc_id pm) (pm_record_id pm)
    (pm_encrypted_blob pm) (pm_timestamp pm) schema_version (pm_key_version pm).

Definition migrate_replica (ns : string) (r : ReplicaInfo) : M unit :=
  on_to (register ns r 0);;
  key ← on_from (get_replica_key ns (ri_replica_id r));
  match key with
  | Some (pub_key, key_ver) => on_to (update_replica_key ns (ri_replica_id r) pub_key key_ver)
  | None => mret tt
  end.

(** The loop over the chunks. *)
Fixpoint migrate_mutations (fuel : nat) (ns : string) (chunk_size : nat) (schema_version : N)
    (after : N) (total_migrated : nat) : M nat :=
  match fuel with
  | O => sm_fail None
  | S fuel =>
      pending_muts ← on_from (pull ns after chunk_size);
      match list.last pending_muts with
      | None => mret total_migrated
      | Some last_pm =>
          let encrypted_muts := map (migrated schema_version) pending_muts in
          on_to (push ns encrypted_muts);;
          let total := total_migrated + length encrypted_muts in
          progress_callback total;;
          migrate_mutations fuel ns chunk_size schema_version (pm_sequence last_pm) total
      end
  end.

Definition migrate (fuel : nat) (ns : string) (chunk_size : nat) : M nat :=
  replicas ← on_from (list_replicas ns);
  for_each (migrate_replica ns) replicas;;
  snapshots ← on_from (list_snapshots ns);
  for_each (λ s, on_to (store_snapshot ns s)) snapshots;;
  version ← on_from (schema_version ns);
  migrate_mutations fuel ns chunk_size version 0 0.

(** ** Theory *)

Context {HS1 : CoordinatorSpec C1} {HS2 : CoordinatorSpec C2}.

(** What a migration carries over of a mutation. *)
Definition content (pm : PendingMutation) : string * string * string * bytes * N * N :=
  (pm_id pm, pm_doc_id pm, pm_record_id pm, pm_encrypted_blob pm, pm_timestamp pm, pm_key_version pm).

(** The logs of both sides and their room are as in another state. *)
Definition logs_kept (n1 n2 : nat) (g g' : migration) : Prop :=
  (∀ ns, co_log ns (mi_from g') = co_log ns (mi_from g)) ∧
  (∀ ns, co_log ns (mi_to g') = co_log ns (mi_to g)) ∧
  co_ready n1 (mi_from g') ∧ co_ready n2 (mi_to g').

Lemma logs_kept_trans n1 n2 g1 g2 g3 : logs_kept n1 n2 g1 g2 → logs_kept n1 n2 g2 g3 → logs_kept n1 n2 g1 g3.
Proof.
  intros (A1 & A2 & _ & _) (B1 & B2 & ? & ?). split_and!; [..|done|done]; intros ns.
  - by rewrite B1. - by rewrite B2.
Qed.

(** A step that succeeds and keeps the logs. *)
Definition keeps_logs {A} (m : M A) : Prop :=
  ∀ n1 n2 g, co_ready n1 (mi_from g) → co_ready n2 (mi_to g) →
    ∃ v g', m g = (Ok v, g') ∧ logs_kept n1 n2 g g'.

Lemma on_from_keeps {A} (m : SM C1 CoordinatorError A) :
  quiet_call co_log co_next co_ready m → keeps_logs (on_from m).
Proof.
  intros Hq n1 n2 g H1 H2. destruct (Hq n1 _ H1) as (v & c' & Hrun & Hlog & _ & Hr).
  unfold on_from. sm_unfold. rewrite Hrun. eexists _, _. split; [done|]. by split_and!.
Qed.

Lemma on_to_keeps {A} (m : SM C2 CoordinatorError A) :
  quiet_call co_log co_next co_ready m → keeps_logs (on_to m).
Proof.
  intros Hq n1 n2 g H1 H2. destruct (Hq n2 _ H2) as (v & c' & Hrun & Hlog & _ & Hr).
  unfold on_to. sm_unfold. rewrite Hrun. eexists _, _. split; [done|]. by split_and!.
Qed.

Lemma keeps_logs_bind {A B} (m : M A) (f : A → M B) :
  keeps_logs m → (∀ a, keeps_logs (f a)) → keeps_logs (m ≫= f).
Proof.
  intros Hm Hf n1 n2 g H1 H2. destruct (Hm n1 n2 g H1 H2) as (a & g1 & E1 & K1).
  pose proof K1 as (_ & _ & R1 & R2). destruct (Hf a n1 n2 g1 R1 R2) as (b & g2 & E2 & K2).
  exists b, g2. sm_unfold. rewrite E1. split; [done|]. by eapply logs_kept_trans.
Qed.

Lemma keeps_ret {A} (a : A) : keeps_logs (mret a).
Proof. intros n1 n2 g H1 H2. by eexists _, _. Qed.

Lemma keeps_logs_for_each {A} (f : A → M unit) l : (∀ a, keeps_logs (f a)) → keeps_logs (for_each f l).
Proof.
  intros Hf. induction l as [|a l IH]; simpl; [apply keeps_ret|]. apply keeps_logs_bind; [apply Hf|done].
Qed.

Lemma migrate_replica_keeps ns r : keeps_logs (migrate_replica ns r).
Proof.
  apply keeps_logs_bind; [apply on_to_keeps, co_register_quiet|]. intros _.
  apply keeps_logs_bind; [apply on_from_keeps, co_get_key_quiet|]. intros [[k v]|].
  - apply on_to_keeps, co_update_key_quiet.
  - apply keeps_ret.
Qed.

(** The part of a log that has been copied: same content, in order, under the
    replica id [migrated]. *)
Definition copied (src dst : list PendingMutation) : Prop :=
  content <$> dst = content <$> src ∧ Forall (λ pm, pm_replica_id pm = "migrated") dst.

Lemma copied_ids src dst : copied src dst → pm_id <$> dst = pm_id <$> src.
Proof.
  intros [Hc _]. change pm_id with ((λ x : string * string * string * bytes * N * N, x.1.1.1.1.1) ∘ content).
  by rewrite !list_fmap_compose, Hc.
Qed.

Lemma copied_app src dst page ns next sv : copied src dst →
  copied (src ++ page) (dst ++ imap (λ i m, InMemoryCoordinator.to_pending ns (next + N.of_nat i) m)
    (map (migrated sv) page)).
Proof.
  change (map (migrated sv) page) with (migrated sv <$> page). intros [Hc Hm]. split.
  - rewrite !fmap_app, Hc. f_equal. rewrite fmap_imap, imap_fmap.
    etrans; [apply (imap_ext _ (const content)); by intros|]. apply imap_const.
  - apply Forall_app. split; [done|]. apply Forall_forall.
    intros pm (i & m & -> & Hm')%elem_of_lookup_imap. rewrite list_lookup_fmap in Hm'.
    destruct (page !! i); [|done]. by injection Hm' as <-.
Qed.

(** A chunk pushed onto the copied part is appended whole. *)
Lemma push_chunk n2 ns sv src dst page todo c :
  NoDup (pm_id <$> src ++ page ++ todo) → co_log ns c = dst → copied src dst →
  co_ready (length page + n2) c →
  ∃ seqs c', push ns (map (migrated sv) page) c = (Ok seqs, c') ∧ co_ready n2 c' ∧
    copied (src ++ page) (co_log ns c').
Proof.
  intros Hnd Hdst Hcp Hroom. rewrite !fmap_app in Hnd.
  apply NoDup_app in Hnd as (_ & Hdis & [Hnd _]%NoDup_app).
  destruct (co_push_ok n2 ns (map (migrated sv) page) c) as (seqs & c' & Hp & Hspec & _ & Hr).
  { by rewrite length_map. }
  destruct (alog_push_all_fresh ns (map (migrated sv) page) (co_next c) (co_log ns c)) as [seqs' Hf].
  { change (map (migrated sv) page) with (migrated sv <$> page). by rewrite <-list_fmap_compose. }
  { intros m Hm. change (m ∈ migrated sv <$> page) in Hm. apply list_elem_of_fmap in Hm as (pm & -> & Hpm). simpl.
    destruct (log_find (pm_id pm) (co_log ns c)) as [s|] eqn:Hfind; [exfalso|done].
    apply log_find_Some in Hfind as (pm' & Hin & Hid & _). rewrite Hdst in Hin.
    apply (Hdis (pm_id pm)).
    - rewrite <-(copied_ids _ _ Hcp), <-Hid. by apply list_elem_of_fmap_2.
    - apply elem_of_app. left. by apply list_elem_of_fmap_2. }
  rewrite Hf in Hspec. injection Hspec as _ Hlog _. exists seqs, c'. split_and!; [done|done|].
  rewrite <-Hlog, Hdst. by apply copied_app.
Qed.

Lemma migrate_mutations_ok fuel ns chunk sv n1 n2 after src todo g :
  co_ready n1 (mi_from g) → co_ready (length todo + n2) (mi_to g) → 0 < chunk →
  co_log ns (mi_from g) = src ++ todo → copied src (co_log ns (mi_to g)) →
  filterb (λ pm, (after <? pm_sequence pm)%N) (src ++ todo) = todo → (after < U64_MAX)%N →
  length todo < fuel →
  ∃ g', migrate_mutations fuel ns chunk sv after (length src) g = (Ok (length src + length todo), g') ∧
    copied (src ++ todo) (co_log ns (mi_to g')) ∧ mi_from g' = mi_from g ∧ co_ready n2 (mi_to g').
Proof.
  revert after src todo g. induction fuel as [|fuel IH]; intros after src todo g R1 R2 Hchunk Hlog Hcp Habove Hafter Hfuel; [lia|].
  cbn [migrate_mutations]. unfold on_from at 1. sm_unfold.
  rewrite (co_pull_ok n1) by done. rewrite Hlog. unfold alog_pull. rewrite Habove.
  pose proof (co_sorted n1 ns _ R1) as Hsort. pose proof (co_ids n1 ns _ R1) as Hids.
  rewrite Hlog in Hsort, Hids. set (page := take chunk todo). set (rest := drop chunk todo).
  assert (Htodo : todo = page ++ rest) by (symmetry; apply take_drop).
  destruct (list.last page) as [pm|] eqn:Hlast.
  2:{ apply last_None in Hlast. assert (todo = []) as ->.
      { unfold page in Hlast. destruct todo; [done|]. destruct chunk; [lia|done]. }
      eexists. split; [by rewrite Nat.add_0_r|]. rewrite app_nil_r. by destruct g. }
  apply last_Some in Hlast as [p0 Hp0].
  destruct (push_chunk (length rest + n2) ns sv src (co_log ns (mi_to g)) page rest (mi_to g)) as (seqs & c' & Hp & R2' & Hcp').
  { by rewrite <-Htodo. } { done. } { done. }
  { eapply co_ready_mono, R2. rewrite Htodo, length_app. lia. }
  unfold on_to. sm_unfold. simpl. rewrite Hp, length_map. simpl.
  assert (Hsrc : src ++ todo = (src ++ p0) ++ pm :: rest).
  { by rewrite Htodo, Hp0, <-!app_assoc. }
  assert (Hin : pm ∈ co_log ns (mi_from g)).
  { rewrite Hlog, Hsrc. apply elem_of_app. right. left. }
  destruct (co_entry n1 ns _ pm R1 Hin) as (_ & Hb & Hmax).
  destruct (IH (pm_sequence pm) (src ++ page) rest (Migration (mi_from g) c' (mi_progress g ++ [length src + length page])))
    as (g' & Hrun & Hg'); try done.
  - simpl. by rewrite Hlog, Htodo, app_assoc.
  - rewrite <-app_assoc, <-Htodo, Hsrc. apply (filterb_above_page 0); [by rewrite <-Hsrc|].
    rewrite <-Hsrc, <-Hlog. apply Forall_forall. intros q Hq.
    by destruct (co_entry n1 ns _ q R1 Hq) as (_ & [? _] & _).
  - lia.
  - assert (0 < length page) by (rewrite Hp0, length_app; simpl; lia).
    rewrite Htodo, length_app in Hfuel. lia.
  - exists g'. rewrite length_app in Hrun. rewrite Hrun. rewrite <-app_assoc, <-Htodo in Hg'.
    split; [|done]. rewrite Htodo, length_app. do 2 f_equal. lia.
Qed.

(** A migration copies a namespace completely: into a coordinator with no
    mutations of the namespace it copies every mutation of the source, in
    order, with id, document, record, blob, timestamp and key version
    unchanged, and returns their number; it needs one pull more than there are
    mutations and leaves the source's log as it is.  The author of every copied
    mutation becomes the replica [migrated]. *)
Theorem migrate_complete fuel ns chunk n1 n2 g :
  co_ready n1 (mi_from g) → co_log ns (mi_to g) = [] → 0 < chunk →
  co_ready (length (co_log ns (mi_from g)) + n2) (mi_to g) →
  length (co_log ns (mi_from g)) < fuel →
  ∃ g', migrate fuel ns chunk g = (Ok (length (co_log ns (mi_from g))), g') ∧
    content <$> co_log ns (mi_to g') = content <$> co_log ns (mi_from g) ∧
    Forall (λ pm, pm_replica_id pm = "migrated") (co_log ns (mi_to g')) ∧
    co_log ns (mi_from g') = co_log ns (mi_from g).
Proof.
  intros R1 Hempty Hchunk R2 Hfuel.
  assert (Hpre : keeps_logs (replicas ← on_from (list_replicas ns);
    for_each (migrate_replica ns) replicas;;
    snapshots ← on_from (list_snapshots ns);
    for_each (λ s, on_to (store_snapshot ns s)) snapshots;;
    on_from (schema_version ns))).
  { repeat (apply keeps_logs_bind; [|intros ?]); try apply keeps_logs_for_each; intros;
      try apply migrate_replica_keeps; try (apply on_from_keeps);
      try (apply on_to_keeps, co_store_snapshot_quiet).
    - apply co_list_replicas_quiet. - apply co_list_snapshots_quiet. - apply co_schema_version_quiet. }
  destruct (Hpre _ _ g R1 R2) as (sv & g1 & E1 & L1 & L2 & K1 & K2).
  assert (Hsplit : migrate fuel ns chunk g = migrate_mutations fuel ns chunk sv 0 0 g1).
  { unfold migrate. revert E1. sm_unfold.
    repeat match goal with
    | |- context [let (_, _) := ?m in _] => destruct m as [[?|?] ?]; try discriminate
    end. by intros [= -> ->]. }
  rewrite Hsplit. rewrite <-(L1 ns) in Hfuel, K2 |- *.
  destruct (migrate_mutations_ok fuel ns chunk sv n1 n2 0 [] (co_log ns (mi_from g1)) g1) as (g' & Hrun & [Hc Hm] & Hfrom & _);
    try done.
  - by rewrite L2, Hempty.
  - apply filterb_all. intros pm Hin. apply N.ltb_lt.
    by destruct (co_entry n1 ns _ pm K1 Hin) as (_ & [? _] & _).
  - exists g'. split_and!; [done|done|done|by rewrite Hfrom].
Qed.
End migration.
Arguments migration : clear implicits.

(** ** Witness *)

Lemma migrate_complete_witness :
  ∃ g', migrate 5 "ns" 1 (Migration sample_coord InMemoryCoordinator.new []) = (Ok 2, g') ∧
    Forall (λ pm, pm_replica_id pm = "migrated") (co_log "ns" (mi_to g')).
Proof.
  destruct (migrate_complete 5 "ns" 1 0 0 (Migration sample_coord InMemoryCoordinator.new []))
    as (g' & Hrun & _ & Hm & _).
  - apply (sample_coord_ok 0). vm_compute. reflexivity.
  - reflexivity.
  - lia.
  - apply coord_ok_new. vm_compute. reflexivity.
  - vm_compute. lia.
  - exists g'. split; [exact Hrun|exact Hm].
Defined.
