(* ===== verification/Retry.v ===== *)
(** * The retry engine

    [sync/retry.rs]: counts failed uploads per entry, delays the next attempt
    with exponential backoff and gives up after [max_attempts].  Readings of
    the monotonic clock and random numbers are arguments. *)
From S2P Require Import Prelude F64 Types.

Record RetryConfig := RetryConfig_new {
  rc_max_attempts : N;
  rc_initial_delay : N;
  rc_max_delay : N;
  rc_backoff_factor : f64;
  rc_jitter : bool;
}.

Definition retry_config_default : RetryConfig :=
  RetryConfig_new 10 (from_millis 500) (from_secs 120) (f64_of_Z 2) true.

Record RetryEngine := RetryEngine_new {
  re_config : RetryConfig;
  re_attempts : gmap string N;
  re_next_retry : gmap string N;
}.

Definition retry_new (config : RetryConfig) : RetryEngine := RetryEngine_new config ∅ ∅.

Definition failure_count (ent : string) (e : RetryEngine) : N := default 0%N (re_attempts e !! ent).

(** The delay before the attempt that follows the given number of failures;
    [None] where the conversion of the float panics. *)
Definition retry_delay (config : RetryConfig) (rnd : f64) (attempts : N) : option N :=
  let delay := f64_mul (as_secs_f64 (rc_initial_delay config))
    (f64_powi (rc_backoff_factor config) (wrap_i32 (wrap_i32 (Z.of_N attempts) - 1))) in
  let delay := f64_min delay (as_secs_f64 (rc_max_delay config)) in
  delay ← from_secs_f64 delay;
  if rc_jitter config then
    let jitter := f64_add (f64_mul rnd (f64_lit 1 2)) (f64_lit 3 4) in
    from_secs_f64 (f64_mul (as_secs_f64 delay) jitter)
  else Some delay.

Definition retry_record_failure {E} (now : N) (rnd : f64) (ent : string) :
    SM RetryEngine (fault E) (option N) := λ e,
  let attempts := wrapping_add32 (failure_count ent e) 1 in
  let e := RetryEngine_new (re_config e) (<[ent := attempts]> (re_attempts e)) (re_next_retry e) in
  if (rc_max_attempts (re_config e) <=? attempts)%N then
    (Ok None, RetryEngine_new (re_config e) (re_attempts e) (delete ent (re_next_retry e)))
  else
    match retry_delay (re_config e) rnd attempts with
    | None => (Err Panicked, e)
    | Some delay =>
        (Ok (Some delay), RetryEngine_new (re_config e) (re_attempts e)
           (<[ent := (now + delay)%N]> (re_next_retry e)))
    end.

Definition retry_record_success (ent : string) (e : RetryEngine) : RetryEngine :=
  RetryEngine_new (re_config e) (delete ent (re_attempts e)) (delete ent (re_next_retry e)).

Definition is_exhausted (ent : string) (e : RetryEngine) : bool :=
  (rc_max_attempts (re_config e) <=? failure_count ent e)%N.

Definition can_retry (now : N) (ent : string) (e : RetryEngine) : bool :=
  if is_exhausted ent e then false
  else match re_next_retry e !! ent with
       | Some time => (time <=? now)%N
       | None => true
       end.

(** ** Histories of the engine *)

Inductive retry_event :=
  | RFail (now : N) (rnd : f64) (ent : string)
  | RSuccess (ent : string).

Definition event_entry (ev : retry_event) : string :=
  match ev with RFail _ _ ent | RSuccess ent => ent end.

Definition retry_step (e : RetryEngine) (ev : retry_event) : RetryEngine :=
  match ev with
  | RFail now rnd ent => (@retry_record_failure VaultSyncError now rnd ent e).2
  | RSuccess ent => retry_record_success ent e
  end.

Definition retry_run (e : RetryEngine) (evs : list retry_event) : RetryEngine :=
  foldl retry_step e evs.

(** Failures of an entry since its last success. *)
Definition count_step (ent : string) (n : N) (ev : retry_event) : N :=
  match ev with
  | RFail _ _ ent' => if bool_decide (ent' = ent) then (n + 1)%N else n
  | RSuccess ent' => if bool_decide (ent' = ent) then 0%N else n
  end.
Definition failures_since_success (ent : string) (evs : list retry_event) : N :=
  foldl (count_step ent) 0%N evs.

Lemma retry_step_config e ev : re_config (retry_step e ev) = re_config e.
Proof.
  destruct ev as [now rnd ent|ent]; simpl; [|done]. unfold retry_record_failure. simpl.
  destruct (_ <=? _)%N; [done|]. by destruct (retry_delay _ _ _).
Qed.

Lemma retry_run_config e evs : re_config (retry_run e evs) = re_config e.
Proof.
  revert e. induction evs as [|ev evs IH]; intros e; [done|]. simpl.
  by rewrite IH, retry_step_config.
Qed.

Lemma retry_step_count ent e ev : (failure_count ent e < U32_MAX)%N →
  failure_count ent (retry_step e ev) = count_step ent (failure_count ent e) ev.
Proof.
  intros Hlt. unfold failure_count in *. destruct ev as [now rnd ent'|ent']; simpl.
  - assert (Ha : re_attempts (retry_step e (RFail now rnd ent')) =
      <[ent' := wrapping_add32 (default 0%N (re_attempts e !! ent')) 1]> (re_attempts e)).
    { simpl. unfold retry_record_failure. simpl. unfold failure_count.
      destruct (_ <=? _)%N; [done|]. by destruct (retry_delay _ _ _). }
    simpl in Ha. rewrite Ha. destruct (bool_decide_reflect (ent' = ent)) as [->|Hne].
    + rewrite lookup_insert_eq. simpl. by rewrite wrapping_add32_small by lia.
    + by rewrite lookup_insert_ne.
  - destruct (bool_decide_reflect (ent' = ent)) as [->|Hne].
    + by rewrite lookup_delete_eq.
    + by rewrite lookup_delete_ne.
Qed.

Lemma failure_count_new config ent : failure_count ent (retry_new config) = 0%N.
Proof. unfold failure_count. simpl. by rewrite lookup_empty. Qed.

Lemma count_step_bound ent n ev : (count_step ent n ev ≤ n + 1)%N.
Proof. destruct ev; simpl; case_bool_decide; lia. Qed.

Lemma retry_run_count ent e evs :
  (failure_count ent e + N.of_nat (length evs) ≤ U32_MAX)%N →
  failure_count ent (retry_run e evs) = foldl (count_step ent) (failure_count ent e) evs.
Proof.
  revert e. induction evs as [|ev evs IH]; intros e Hlen; [done|]. cbn [length] in Hlen. simpl.
  rewrite IH; rewrite retry_step_count by lia; [done|].
  pose proof (count_step_bound ent (failure_count ent e) ev). lia.
Qed.

Lemma retry_step_other ent e ev : event_entry ev ≠ ent →
  re_next_retry (retry_step e ev) !! ent = re_next_retry e !! ent ∧
  re_attempts (retry_step e ev) !! ent = re_attempts e !! ent.
Proof.
  destruct ev as [now rnd ent'|ent']; simpl; intros Hne.
  - unfold retry_record_failure. simpl. destruct (_ <=? _)%N; simpl.
    + by rewrite lookup_delete_ne, lookup_insert_ne.
    + destruct (retry_delay _ _ _); simpl; by rewrite ?lookup_insert_ne.
  - by rewrite !lookup_delete_ne.
Qed.

Lemma retry_run_other ent e evs : Forall (λ ev, event_entry ev ≠ ent) evs →
  re_next_retry (retry_run e evs) !! ent = re_next_retry e !! ent ∧
  re_attempts (retry_run e evs) !! ent = re_attempts e !! ent.
Proof.
  intros Hall. revert e. induction Hall as [|ev evs Hne _ IH]; intros e; [done|]. simpl.
  destruct (IH (retry_step e ev)) as [-> ->]. by apply retry_step_other.
Qed.

(** ** Theorems *)

(** The retry budget: after any history, an entry counts as exhausted exactly
    when it has failed [max_attempts] times since its last success, and from
    then on no passage of time makes it eligible again. *)
Theorem retry_budget config evs ent now :
  (N.of_nat (length evs) ≤ U32_MAX)%N →
  let e := retry_run (retry_new config) evs in
  failure_count ent e = failures_since_success ent evs ∧
  (is_exhausted ent e = true ↔ (rc_max_attempts config ≤ failures_since_success ent evs)%N) ∧
  (can_retry now ent e = true → (failures_since_success ent evs < rc_max_attempts config)%N).
Proof.
  intros Hlen e. assert (Hc : failure_count ent e = failures_since_success ent evs).
  { unfold e. rewrite retry_run_count; rewrite failure_count_new; [done|lia]. }
  assert (Hx : is_exhausted ent e = (rc_max_attempts config <=? failures_since_success ent evs)%N).
  { unfold is_exhausted. rewrite Hc. unfold e. by rewrite retry_run_config. }
  split_and!; [done| |].
  - rewrite Hx. apply N.leb_le.
  - unfold can_retry. rewrite Hx. destruct (N.leb_spec (rc_max_attempts config)
      (failures_since_success ent evs)); [done|lia].
Qed.

(** The backoff gate: when a failure at time [now] returns a delay, then
    whatever happens to other entries the failed one becomes eligible exactly
    when that delay has passed; when it returns no delay the entry is out of
    attempts. *)
Theorem retry_gate now rnd ent e r e' evs time :
  @retry_record_failure VaultSyncError now rnd ent e = (Ok r, e') →
  Forall (λ ev, event_entry ev ≠ ent) evs →
  can_retry time ent (retry_run e' evs) =
    match r with Some delay => (now + delay <=? time)%N | None => false end.
Proof.
  intros Hf Hall. destruct (retry_run_other ent e' evs Hall) as [Hn Ha].
  unfold can_retry, is_exhausted, failure_count. rewrite Hn, Ha, retry_run_config.
  revert Hf. unfold retry_record_failure. simpl.
  destruct (N.leb_spec (rc_max_attempts (re_config e))
    (wrapping_add32 (failure_count ent e) 1)) as [Hle|Hlt].
  - intros [= <- <-]. simpl. rewrite lookup_insert_eq. simpl. by apply N.leb_le in Hle as ->.
  - destruct (retry_delay _ _ _) as [d|]; [|done]. intros [= <- <-]. simpl.
    rewrite !lookup_insert_eq. simpl. by apply N.leb_gt in Hlt as ->.
Qed.

(** The default schedule: without jitter the nine delays before the tenth and
    last failure are half a second doubling up to the cap of two minutes, and
    with the extreme random draws each stays within a quarter of those. *)
Theorem retry_default_schedule rnd :
  let plain := RetryConfig_new 10 (from_millis 500) (from_secs 120) (f64_of_Z 2) false in
  let attempts := [1; 2; 3; 4; 5; 6; 7; 8; 9]%N in
  map (retry_delay plain rnd) attempts =
    Some ∘ from_millis <$> [500; 1000; 2000; 4000; 8000; 16000; 32000; 64000; 120000]%N ∧
  map (retry_delay retry_config_default (f64_of_Z 0)) attempts =
    Some ∘ from_millis <$> [375; 750; 1500; 3000; 6000; 12000; 24000; 48000; 90000]%N ∧
  map (retry_delay retry_config_default (f64_of_Z 1)) attempts =
    Some ∘ from_millis <$> [625; 1250; 2500; 5000; 10000; 20000; 40000; 80000; 150000]%N.
Proof. split_and!; vm_compute; reflexivity. Qed.

(** ** Witnesses *)

Definition sample_failures : list retry_event :=
  replicate 10 (RFail 0 (f64_of_Z 0) "m1") ++ [RFail 5 (f64_of_Z 0) "m2"].

Lemma retry_budget_witness :
  is_exhausted "m1" (retry_run (retry_new retry_config_default) sample_failures) = true.
Proof.
  apply (retry_budget retry_config_default sample_failures "m1" 99); vm_compute; congruence.
Defined.

Lemma retry_gate_witness :
  can_retry 375000000 "m1" (retry_run
    (@retry_record_failure VaultSyncError 0 (f64_of_Z 0) "m1" (retry_new retry_config_default)).2
    [RFail 0 (f64_of_Z 0) "m2"]) = true.
Proof.
  rewrite (retry_gate 0 (f64_of_Z 0) "m1" (retry_new retry_config_default) (Some 375000000%N)
    (@retry_record_failure VaultSyncError 0 (f64_of_Z 0) "m1" (retry_new retry_config_default)).2
    [RFail 0 (f64_of_Z 0) "m2"] 375000000).
  - reflexivity.
  - vm_compute. reflexivity.
  - repeat constructor. discriminate.
Defined.
