(* ===== verification/SyncStateStore.v ===== *)
(** * Cursor and generation state

    [sync/sync_state_store.rs]: the store the download and upload queues keep
    their cursor and generation in.  [sync/state_manager.rs]: the manager that
    persists the same state through a storage. *)
From S2P Require Import Prelude Types Storage.

(** ** The [SyncStateStore] trait *)

Class SyncStateStore (T : Type) := {
  cursor : SM T (fault VaultSyncError) N;
  set_cursor : N → SM T (fault VaultSyncError) unit;
  generation : SM T (fault VaultSyncError) string;
  set_generation : string → SM T (fault VaultSyncError) unit;
}.

(** What the queues rely on: the cursor reads back, and changes of the one
    leave the other alone. *)
Class SyncStateStoreSpec (T : Type) `{SyncStateStore T} := {
  store_cursor : T → N;
  store_generation : T → string;
  store_healthy : T → Prop;
  cursor_ok s : cursor s = (Ok (store_cursor s), s);
  set_cursor_ok seq s : ∃ s', set_cursor seq s = (Ok tt, s') ∧ store_cursor s' = seq ∧
    store_generation s' = store_generation s ∧ (store_healthy s → store_healthy s');
  generation_ok s : store_healthy s → generation s = (Ok (store_generation s), s);
  set_generation_ok gen s : store_healthy s → ∃ s', set_generation gen s = (Ok tt, s') ∧
    store_cursor s' = store_cursor s ∧ store_generation s' = gen ∧ store_healthy s';
}.

(** ** [InMemorySyncStateStore] *)

Module InMemorySyncStateStore.

Record t := mk { s_cursor : N; s_generation : rwlock string }.

Definition new : t := mk 0 (rw_new "").
Definition with_cursor (c : N) : t := mk c (rw_new "").
Definition with_cursor_and_generation (c : N) (gen : string) : t := mk c (rw_new gen).

Definition cursor : SM t (fault VaultSyncError) N := sm_gets s_cursor.
Definition set_cursor (seq : N) : SM t (fault VaultSyncError) unit :=
  sm_modify (λ s, mk seq (s_generation s)).
Definition generation : SM t (fault VaultSyncError) string := rw_lock Panicked s_generation.
Definition set_generation (gen : string) : SM t (fault VaultSyncError) unit :=
  rw_lock Panicked s_generation;;
  sm_modify (λ s, mk (s_cursor s) (rw_set gen (s_generation s))).

End InMemorySyncStateStore.

#[export] Instance in_memory_sync_state_store : SyncStateStore InMemorySyncStateStore.t := {|
  cursor := InMemorySyncStateStore.cursor;
  set_cursor := InMemorySyncStateStore.set_cursor;
  generation := InMemorySyncStateStore.generation;
  set_generation := InMemorySyncStateStore.set_generation;
|}.

#[export, program] Instance in_memory_sync_state_store_spec :
  SyncStateStoreSpec InMemorySyncStateStore.t := {|
  store_cursor := InMemorySyncStateStore.s_cursor;
  store_generation s := rw_val (InMemorySyncStateStore.s_generation s);
  store_healthy s := rw_poisoned (InMemorySyncStateStore.s_generation s) = false;
|}.
Next Obligation. done. Qed.
Next Obligation. intros seq s. eexists. by split_and!. Qed.
Next Obligation.
  intros s Hp. simpl. unfold InMemorySyncStateStore.generation, rw_lock. by rewrite Hp.
Qed.
Next Obligation.
  intros gen s Hp. simpl. unfold InMemorySyncStateStore.set_generation, rw_lock. sm_unfold.
  rewrite Hp. eexists. by split_and!.
Qed.

(** ** Persisted sync state of a storage *)

Class SyncStateSpec (S : Type) `{Storage S} := {
  sync_view : S → gmap string SyncState;
  sync_healthy : S → Prop;
  read_sync_state_ok ns s : sync_healthy s → read_sync_state ns s = (Ok (sync_view s !! ns), s);
  write_sync_state_ok st s : sync_healthy s → ∃ s', write_sync_state st s = (Ok tt, s') ∧
    sync_view s' = <[ss_namespace st := st]> (sync_view s) ∧ sync_healthy s';
}.

#[export, program] Instance in_memory_sync_state_spec : SyncStateSpec InMemoryStorage.t := {|
  sync_view s := rw_val (InMemoryStorage.sync_states s);
  sync_healthy s := rw_poisoned (InMemoryStorage.sync_states s) = false;
|}.
Next Obligation.
  intros ns s Hp. simpl. unfold InMemoryStorage.read_sync_state, InMemoryStorage.lock, rw_lock.
  sm_unfold. by rewrite Hp.
Qed.
Next Obligation.
  intros st s Hp. simpl. unfold InMemoryStorage.write_sync_state, InMemoryStorage.lock, rw_lock.
  sm_unfold. rewrite Hp. eexists. by split_and!.
Qed.

(** ** [SyncStateManager] *)

Section manager.
Context {S : Type} {HS : Storage S}.

(** The manager and the storage it shares. *)
Record SyncStateManager := Manager {
  mg_namespace : string;
  mg_storage : S;
  mg_cursor : N;
  mg_generation : rwlock string;
}.

Abbreviation M := (SM SyncStateManager (fault VaultSyncError)).

Definition mg_zoom {A} (m : SM S VaultSyncError A) : M A :=
  zoom mg_storage (λ s g, Manager (mg_namespace g) s (mg_cursor g) (mg_generation g)) (may_fault m).

Definition set_mg_cursor (c : N) : M unit :=
  sm_modify (λ g, Manager (mg_namespace g) (mg_storage g) c (mg_generation g)).

(** [SyncStateManager::new], on the storage it is given. *)
Definition manager_new (ns : string) (s : S) : result SyncStateManager VaultSyncError * S :=
  match read_sync_state ns s with
  | (Err e, s') => (Err e, s')
  | (Ok (Some st), s') =>
      (Ok (Manager ns s' (ss_last_synced_sequence st) (rw_new (ss_generation_id st))), s')
  | (Ok None, s') => (Ok (Manager ns s' 0 (rw_new "")), s')
  end.

Definition persist (now : N) (c : N) (gen : string) : M unit :=
  ns ← sm_gets mg_namespace;
  let state := SyncState_new ns "" c Connected None None (Some now) 0 gen in
  mg_zoom (write_sync_state state).

Definition advance_cursor (new_seq : N) (g : SyncStateManager) : SyncStateManager :=
  Manager (mg_namespace g) (mg_storage g) (N.max (mg_cursor g) new_seq) (mg_generation g).

Definition manager_reset_cursor (now to : N) : M unit :=
  set_mg_cursor to;;
  gen ← rw_lock Panicked mg_generation;
  persist now to gen.

Definition manager_check_generation (now : N) (server_gen : string) : M bool :=
  if bool_decide (server_gen = "") then mret false
  else
    local_gen ← rw_lock Panicked mg_generation;
    if bool_decide (local_gen = server_gen) then mret false
    else
      sm_modify (λ g, Manager (mg_namespace g) (mg_storage g) (mg_cursor g)
        (rw_set server_gen (mg_generation g)));;
      set_mg_cursor 0;;
      persist now 0 server_gen;;
      mret true.

Context {HSync : SyncStateSpec S}.

Lemma persist_ok now c gen g : sync_healthy (mg_storage g) →
  ∃ s', persist now c gen g =
      (Ok tt, Manager (mg_namespace g) s' (mg_cursor g) (mg_generation g)) ∧
    sync_healthy s' ∧
    sync_view s' !! mg_namespace g =
      Some (SyncState_new (mg_namespace g) "" c Connected None None (Some now) 0 gen).
Proof.
  intros Hh. unfold persist, mg_zoom, may_fault. sm_unfold.
  destruct (write_sync_state_ok
    (SyncState_new (mg_namespace g) "" c Connected None None (Some now) 0 gen) _ Hh)
    as (s' & -> & Hv & Hh').
  exists s'. split_and!; [done..|]. rewrite Hv. apply lookup_insert_eq.
Qed.

(** What a restart loads. *)
Lemma manager_new_ok ns s : sync_healthy s →
  manager_new ns s = (Ok (Manager ns s
    (default 0%N (ss_last_synced_sequence <$> sync_view s !! ns))
    (rw_new (default "" (ss_generation_id <$> sync_view s !! ns)))), s).
Proof.
  intros Hh. unfold manager_new. rewrite (read_sync_state_ok ns s Hh).
  by destruct (sync_view s !! ns).
Qed.

(** A new server generation survives a restart: when [check_generation] sees a
    generation id different from the local one it resets the cursor to 0 and
    persists both, so a manager built again from the storage starts at cursor 0
    in the server's generation, and a second check changes nothing. *)
Theorem check_generation_survives_restart now now' gen g :
  sync_healthy (mg_storage g) → rw_poisoned (mg_generation g) = false →
  gen ≠ "" → rw_val (mg_generation g) ≠ gen →
  ∃ g' g2, manager_check_generation now gen g = (Ok true, g') ∧
    manager_new (mg_namespace g) (mg_storage g') = (Ok g2, mg_storage g') ∧
    mg_cursor g2 = 0%N ∧ rw_val (mg_generation g2) = gen ∧
    manager_check_generation now' gen g2 = (Ok false, g2) ∧
    manager_check_generation now' gen g' = (Ok false, g').
Proof.
  intros Hh Hp Hne Hdiff. unfold manager_check_generation at 1, rw_lock.
  rewrite bool_decide_false by done. sm_unfold. rewrite Hp, bool_decide_false by done.
  set (g1 := Manager _ _ _ (rw_set gen (mg_generation g))).
  destruct (persist_ok now 0 gen (Manager (mg_namespace g1) (mg_storage g1) 0 (mg_generation g1)) Hh)
    as (s' & Hrun & Hh' & Hv).
  unfold set_mg_cursor. sm_unfold. rewrite Hrun. simpl in *.
  eexists _, _. split; [done|]. split; [by apply manager_new_ok|]. simpl. rewrite Hv. simpl.
  split_and!; try done; unfold manager_check_generation, rw_lock;
    rewrite bool_decide_false by done; sm_unfold; simpl; rewrite ?Hp; by rewrite bool_decide_true.
Qed.

(** [reset_cursor] is durable, also downwards: after it succeeds a manager
    built again from the storage has that cursor and the current generation,
    whereas cursors reached by [advance_cursor] alone are only in memory. *)
Theorem reset_cursor_survives_restart now to g later :
  sync_healthy (mg_storage g) → rw_poisoned (mg_generation g) = false →
  ∃ g' g2, manager_reset_cursor now to g = (Ok tt, g') ∧ mg_cursor g' = to ∧
    manager_new (mg_namespace g) (mg_storage (advance_cursor later g')) =
      (Ok g2, mg_storage g') ∧
    mg_cursor g2 = to ∧ rw_val (mg_generation g2) = rw_val (mg_generation g).
Proof.
  intros Hh Hp. unfold manager_reset_cursor, set_mg_cursor, rw_lock. sm_unfold. simpl.
  rewrite Hp. simpl.
  destruct (persist_ok now to (rw_val (mg_generation g))
    (Manager (mg_namespace g) (mg_storage g) to (mg_generation g)) Hh) as (s' & Hrun & Hh' & Hv).
  rewrite Hrun. eexists _, _. split; [done|]. split; [done|].
  split; [by apply manager_new_ok|]. simpl in *. by rewrite Hv.
Qed.
End manager.
Arguments SyncStateManager : clear implicits.

(** ** Witnesses *)

Definition sample_manager : SyncStateManager InMemoryStorage.t :=
  Manager "ns" InMemoryStorage.new 12 (rw_new "g1").

Lemma check_generation_survives_restart_witness :
  ∃ g' g2, manager_check_generation 5 "g2" sample_manager = (Ok true, g') ∧
    manager_new "ns" (mg_storage g') = (Ok g2, mg_storage g') ∧ mg_cursor g2 = 0%N.
Proof.
  destruct (check_generation_survives_restart 5 6 "g2" sample_manager)
    as (g' & g2 & H1 & H2 & H3 & _).
  - reflexivity.
  - reflexivity.
  - discriminate.
  - discriminate.
  - exists g', g2. split; [exact H1|]. split; [exact H2|exact H3].
Defined.

Lemma reset_cursor_survives_restart_witness :
  ∃ g' g2, manager_reset_cursor 5 3 sample_manager = (Ok tt, g') ∧
    manager_new "ns" (mg_storage (advance_cursor 40 g')) = (Ok g2, mg_storage g') ∧
    mg_cursor g2 = 3%N.
Proof.
  destruct (reset_cursor_survives_restart 5 3 sample_manager 40) as (g' & g2 & H1 & _ & H2 & H3 & _).
  - reflexivity.
  - reflexivity.
  - exists g', g2. split; [exact H1|]. split; [exact H2|exact H3].
Defined.
