(* ===== verification/Connection.v ===== *)
(** * The connection manager

    [connection_manager.rs]: the state machine of the server connection and
    the events its transitions send. *)
From S2P Require Import Prelude Types.

Inductive ConnectionState :=
  | COffline
  | CConnecting
  | CAuthenticating
  | CRegistering
  | CSyncing
  | COnline
  | CReconnecting (attempt backoff_ms : N)
  | CClosing
  | CClosed.

#[export] Instance ConnectionState_eq_dec : EqDecision ConnectionState.
Proof. solve_decision. Defined.

Inductive ConnectionEvent :=
  | EvOpened
  | EvEstablished
  | EvClosed (reason : N)
  | EvLost
  | EvReconnecting (attempt backoff_ms : N)
  | EvReconnected
  | EvAuthFailed (msg : string)
  | EvRegisterFailed (msg : string)
  | EvHeartbeatTimeout.

Record ConnectionHealth := Health {
  ch_reconnects : N;
  ch_last_connected_at : option N;
  ch_last_disconnected_at : option N;
  ch_consecutive_failures : N;
}.

(** The manager, with the channels it has created: channel 0 is the one
    [event_tx] sends to, and a channel whose sender is gone delivers what it
    holds and no more. *)
Record ConnectionManager := ConnMgr {
  cm_state : rwlock ConnectionState;
  cm_health : rwlock ConnectionHealth;
  cm_channels : list (list ConnectionEvent);
}.

Abbreviation M := (SM ConnectionManager (fault VaultSyncError)).

(** The manager and the receiver, as the index of its channel. *)
Definition conn_new : ConnectionManager * nat :=
  (ConnMgr (rw_new COffline) (rw_new (Health 0 None None 0)) [[]], 0).

Definition is_online : M bool :=
  st ← rw_lock Panicked cm_state;
  mret (bool_decide (st = COnline)).

Definition wrapping_add8 (a b : N) : N := ((a + b) mod 256)%N.

(** The change of the health record on entering a state. *)
Definition note_health (now : N) (st : ConnectionState) (h : ConnectionHealth) : ConnectionHealth :=
  match st with
  | COnline => Health (ch_reconnects h) (Some now) (ch_last_disconnected_at h) 0
  | CClosed | COffline =>
      Health (ch_reconnects h) (ch_last_connected_at h) (Some now) (ch_consecutive_failures h)
  | CReconnecting _ _ =>
      Health (wrapping_add64 (ch_reconnects h) 1) (ch_last_connected_at h)
        (ch_last_disconnected_at h) (wrapping_add8 (ch_consecutive_failures h) 1)
  | _ => h
  end.

Definition transition_event (st : ConnectionState) : option ConnectionEvent :=
  match st with
  | COnline => Some EvReconnected
  | CReconnecting attempt backoff_ms => Some (EvReconnecting attempt backoff_ms)
  | CConnecting => Some EvOpened
  | CClosed => Some EvLost
  | CAuthenticating => Some EvEstablished
  | _ => None
  end.

(** [event_tx.unbounded_send]. *)
Definition send_event (ev : ConnectionEvent) (cm : ConnectionManager) : ConnectionManager :=
  ConnMgr (cm_state cm) (cm_health cm) (alter (λ q, q ++ [ev]) 0 (cm_channels cm)).

Definition transition (now : N) (new : ConnectionState) :
    M (ConnectionState * option ConnectionEvent) :=
  old ← rw_lock Panicked cm_state;
  if bool_decide (old = new) then mret (new, None)
  else
    sm_modify (λ cm, ConnMgr (rw_set new (cm_state cm)) (cm_health cm) (cm_channels cm));;
    rw_lock Panicked cm_health;;
    sm_modify (λ cm, ConnMgr (cm_state cm) (rw_update (note_health now new) (cm_health cm))
      (cm_channels cm));;
    sm_modify (λ cm, match transition_event new with
                     | Some ev => send_event ev cm
                     | None => cm
                     end);;
    mret (old, transition_event new).

Definition conn_health : M ConnectionHealth := rw_lock Panicked cm_health.

(** A fresh channel, whose sender is dropped on return. *)
Definition conn_subscribe : M nat :=
  n ← sm_gets (λ cm, length (cm_channels cm));
  sm_modify (λ cm, ConnMgr (cm_state cm) (cm_health cm) (cm_channels cm ++ [[]]));;
  mret n.

(** ** Histories *)

Inductive conn_call := CallTransition (now : N) (st : ConnectionState) | CallSubscribe.

Definition conn_exec (cm : ConnectionManager) (c : conn_call) : ConnectionManager :=
  match c with
  | CallTransition now st => (transition now st cm).2
  | CallSubscribe => (conn_subscribe cm).2
  end.

Definition conn_execs (cm : ConnectionManager) (cs : list conn_call) : ConnectionManager :=
  foldl conn_exec cm cs.

(** The states a history enters, leaving out transitions to the current one. *)
Fixpoint entered (cur : ConnectionState) (cs : list conn_call) : list ConnectionState :=
  match cs with
  | [] => []
  | CallTransition _ st :: cs' =>
      if bool_decide (cur = st) then entered cur cs' else st :: entered st cs'
  | CallSubscribe :: cs' => entered cur cs'
  end.

Definition is_reconnecting (st : ConnectionState) : bool :=
  match st with CReconnecting _ _ => true | _ => false end.

(** No lock is poisoned, and only channel 0 holds events. *)
Record conn_ok (cm : ConnectionManager) : Prop := {
  ok_state : rw_poisoned (cm_state cm) = false;
  ok_health : rw_poisoned (cm_health cm) = false;
  ok_others i q : cm_channels cm !! S i = Some q → q = [];
}.

Lemma transition_step now st cm q : conn_ok cm → cm_channels cm !! 0 = Some q →
  let cm' := (transition now st cm).2 in
  let same := bool_decide (rw_val (cm_state cm) = st) in
  conn_ok cm' ∧ rw_val (cm_state cm') = st ∧
  cm_channels cm' !! 0 =
    Some (q ++ if same then [] else option_list (transition_event st)) ∧
  ch_reconnects (rw_val (cm_health cm')) =
    (if same then ch_reconnects (rw_val (cm_health cm))
     else if is_reconnecting st then wrapping_add64 (ch_reconnects (rw_val (cm_health cm))) 1
     else ch_reconnects (rw_val (cm_health cm))).
Proof.
  intros [Hs Hh Ho] Hq. unfold transition, rw_lock. sm_unfold. rewrite Hs.
  case_bool_decide as Heq; simpl.
  { split_and!; [by split|done|by rewrite app_nil_r|done]. }
  rewrite Hh. simpl.
  destruct st; simpl; (split_and!; [split; simpl; try done|done| |done]);
    try (intros i q'; rewrite list_lookup_alter_ne by done; apply Ho);
    by rewrite ?list_lookup_alter_eq, Hq, ?app_nil_r.
Qed.

Lemma conn_execs_ok cs cm q : conn_ok cm → cm_channels cm !! 0 = Some q →
  conn_ok (conn_execs cm cs) ∧
  rw_val (cm_state (conn_execs cm cs)) =
    default (rw_val (cm_state cm)) (list.last (entered (rw_val (cm_state cm)) cs)) ∧
  cm_channels (conn_execs cm cs) !! 0 =
    Some (q ++ omap transition_event (entered (rw_val (cm_state cm)) cs)).
Proof.
  revert cm q. induction cs as [|[now st|] cs IH]; intros cm q Hok Hq.
  { simpl. by rewrite app_nil_r. }
  - destruct (transition_step now st cm q Hok Hq) as (Hok' & Hst & Hq' & _).
    destruct (IH _ _ Hok' Hq') as (Hok2 & Hst2 & Hq2). rewrite Hst in Hst2, Hq2.
    change (conn_execs cm (CallTransition now st :: cs)) with
      (conn_execs (transition now st cm).2 cs). cbn [entered].
    split_and!; [done| |]; rewrite ?Hst2, ?Hq2; case_bool_decide as Heq.
    + by rewrite Heq.
    + rewrite last_cons. by destruct (list.last (entered st cs)).
    + by rewrite app_nil_r, Heq.
    + simpl. rewrite <-app_assoc. by destruct (transition_event st).
  - assert (Hok' : conn_ok (conn_subscribe cm).2).
    { destruct Hok as [Hs Hh Ho]. split; [done|done|]. intros i q' Hi. simpl in Hi.
      apply lookup_app_Some in Hi as [Hi|[_ Hi]]; [by eapply Ho|].
      by apply list_lookup_singleton_Some in Hi as [_ <-]. }
    apply (IH _ q Hok'). simpl. by apply lookup_app_l_Some.
Qed.

Lemma conn_new_ok : conn_ok conn_new.1.
Proof. by split. Qed.

(** The receiver created with the manager sees exactly the events of the state
    changes, in order: a transition to the current state sends nothing, and the
    manager is in the state entered last. *)
Theorem connection_events_in_order cs :
  let cm := conn_execs conn_new.1 cs in
  rw_val (cm_state cm) = default COffline (list.last (entered COffline cs)) ∧
  cm_channels cm !! conn_new.2 = Some (omap transition_event (entered COffline cs)).
Proof.
  destruct (conn_execs_ok cs conn_new.1 [] conn_new_ok eq_refl) as (_ & Hst & Hq). done.
Qed.

(** A receiver handed out by [subscribe] never receives an event, whatever
    transitions follow: its channel is not the one the manager sends to, and
    its sender is dropped at once. *)
Theorem connection_subscribe_is_deaf cs cs' :
  let cm := conn_execs conn_new.1 cs in
  ∃ rx cm1, conn_subscribe cm = (Ok rx, cm1) ∧
    cm_channels (conn_execs cm1 cs') !! rx = Some [].
Proof.
  intros cm. destruct (conn_execs_ok cs conn_new.1 [] conn_new_ok eq_refl) as (Hok & _ & Hq).
  fold cm in Hok, Hq. eexists _, _. split; [done|].
  assert (Hlen : ∀ cs0 cm0, length (cm_channels cm0) ≤ length (cm_channels (conn_execs cm0 cs0))).
  { clear. induction cs0 as [|[now st|] cs0 IH]; intros cm0; [done| |]; simpl;
      (etrans; [|apply IH]).
    - unfold transition, rw_lock. sm_unfold. destruct (rw_poisoned (cm_state cm0)); [done|].
      case_bool_decide; [done|]. destruct (rw_poisoned _); [done|].
      destruct st; simpl; by rewrite ?length_alter.
    - simpl. rewrite length_app. lia. }
  set (cm1 := (conn_subscribe cm).2). specialize (Hlen cs' cm1).
  destruct (conn_execs_ok (CallSubscribe :: cs') cm _ Hok Hq) as (Hok2 & _ & _).
  apply lookup_lt_Some in Hq. simpl in Hlen. rewrite length_app in Hlen. simpl in Hlen.
  destruct (lookup_lt_is_Some_2 (cm_channels (conn_execs cm1 cs')) (length (cm_channels cm)))
    as [q Hlook]; [subst cm1; simpl in *; lia|].
  destruct (length (cm_channels cm)) as [|n] eqn:Hn; [lia|].
  change (conn_execs cm (CallSubscribe :: cs')) with (conn_execs cm1 cs') in Hok2.
  rewrite (ok_others _ Hok2 n q Hlook) in Hlook. subst cm1. simpl in *.
  exact Hlook.
Qed.
