(* ===== verification/Upload.v ===== *)
(** * The upload queue

    [sync/upload.rs]: one call of [process_batch] reads a batch of pending
    entries, drops those the retry engine holds back, pushes the rest to the
    coordinator and marks the outcome in the oplog. *)
From S2P Require Import Prelude F64 Types Storage Oplog Coordinator CoordinatorTheory Retry SyncStateStore Connection.
From stdpp Require Import pretty.

Record UploadConfig := UploadConfig_new { uc_batch_size : nat }.
Definition upload_config_default : UploadConfig := UploadConfig_new 50.

(** The readings of the clocks and the random draws of one call, by the
    position of the entry they are made for; the marking loops by the number
    of the loop first. *)
Record upload_readings := Readings {
  can_now : nat → N;
  mark_now : nat → nat → N;
  commit_now : N;
  fail_now : nat → N;
  fail_rnd : nat → f64;
}.

(** One turn of the loops that record the failures: the id and the count of an
    entry that is out of attempts. *)
Definition failure_turn (rd : upload_readings) (p : nat * OplogEntry) :
    SM RetryEngine (fault VaultSyncError) (option (string * N)) :=
  let '(i, e) := p in
  remaining ← retry_record_failure (fail_now rd i) (fail_rnd rd i) (oe_id e);
  count ← sm_gets (failure_count (oe_id e));
  mret (match remaining with None => Some (oe_id e, count) | Some _ => None end).

Section upload.
Context {S C T : Type} {HS : Storage S} {HC : Coordinator C} {HT : SyncStateStore T}.

(** The [Debug] form of a string. *)
Context (debug_str : string → string).

(** The queue with the storage, coordinator and cursor store it shares. *)
Record UploadQueue := Queue {
  uq_oplog : OpLog;
  uq_storage : S;
  uq_coordinator : C;
  uq_config : UploadConfig;
  uq_retry_engine : rwlock RetryEngine;
  uq_connection : option ConnectionManager;
  uq_sync_state_store : option T;
}.

Abbreviation M := (SM UploadQueue (fault VaultSyncError)).

Definition with_storage (s : S) (q : UploadQueue) : UploadQueue :=
  Queue (uq_oplog q) s (uq_coordinator q) (uq_config q) (uq_retry_engine q) (uq_connection q)
    (uq_sync_state_store q).
Definition with_coordinator (c : C) (q : UploadQueue) : UploadQueue :=
  Queue (uq_oplog q) (uq_storage q) c (uq_config q) (uq_retry_engine q) (uq_connection q)
    (uq_sync_state_store q).
Definition with_engine (e : RetryEngine) (q : UploadQueue) : UploadQueue :=
  Queue (uq_oplog q) (uq_storage q) (uq_coordinator q) (uq_config q)
    (rw_set e (uq_retry_engine q)) (uq_connection q) (uq_sync_state_store q).
Definition with_store (st : option T) (q : UploadQueue) : UploadQueue :=
  Queue (uq_oplog q) (uq_storage q) (uq_coordinator q) (uq_config q) (uq_retry_engine q)
    (uq_connection q) st.

Definition on_storage {A} (m : SM S VaultSyncError A) : M A :=
  zoom uq_storage with_storage (may_fault m).

Definition on_coordinator {A} (m : SM C CoordinatorError A) : M (result A CoordinatorError) :=
  zoom uq_coordinator with_coordinator (sm_try m).

(** [self.retry_engine.lock().unwrap()], then the block that holds the guard. *)
Definition on_engine {A} (m : SM RetryEngine (fault VaultSyncError) A) : M A :=
  rw_lock Panicked uq_retry_engine;;
  zoom (rw_val ∘ uq_retry_engine) with_engine m.

(** A call whose result only goes to the trace. *)
Definition observe {A} (m : M A) : M unit := _ ← try_fault m; mret tt.

(** [true] unless a connection manager is attached and not online. *)
Definition upload_enabled : M bool := λ q,
  match uq_connection q with
  | None => (Ok true, q)
  | Some cm => ((is_online cm).1, q)
  end.

(** The key version a blob starts with. *)
Definition blob_key_version (blob : option bytes) : N :=
  match blob with
  | Some b => if 8 <=? length b then u64_from_le_bytes (take 8 b) else 1%N
  | None => 1%N
  end.

Definition to_mutation (e : OplogEntry) : EncryptedMutation :=
  EncryptedMutation_new (oe_id e) (oe_namespace e) (oe_replica_id e) (oe_doc_id e)
    (oe_record_id e) (default [] (oe_encrypted_blob e)) (oe_timestamp e) 0
    (blob_key_version (oe_encrypted_blob e)).

(** The filter on [can_retry]. *)
Definition select_entries (rd : upload_readings) (raw : list OplogEntry) (eng : RetryEngine) :
    list OplogEntry :=
  omap (λ '(i, e), if can_retry (can_now rd i) (oe_id e) eng then Some e else None)
    (imap pair raw).

(** The loop that marks the entries one by one. *)
Definition mark_individually (rd : upload_readings) (loop : nat)
    (pairs : list (nat * (OplogEntry * N))) : M unit :=
  for_each (λ '(i, (e, seq)), on_storage (ol_mark_synced (mark_now rd loop i) (oe_id e) seq)) pairs.

(** The loop over the transaction: on the first error everything is marked
    individually and the loop is left. *)
Fixpoint mark_in_tx (rd : upload_readings) (all pairs : list (nat * (OplogEntry * N)))
    (tx : storage_tx) : M storage_tx :=
  match pairs with
  | [] => mret tx
  | (_, (e, seq)) :: pairs' =>
      match tx_mark_synced tx (oe_id e) seq with
      | (Ok _, tx') => mark_in_tx rd all pairs' tx'
      | (Err _, tx') => mark_individually rd 0 all;; mret tx'
      end
  end.

Definition mark_batch (rd : upload_readings) (pairs : list (nat * (OplogEntry * N))) : M unit :=
  r ← try_fault (on_storage begin_transaction);
  match r with
  | Ok tx =>
      tx ← mark_in_tx rd pairs pairs tx;
      r ← try_fault (on_storage (tx_commit (commit_now rd) tx));
      match r with
      | Ok _ => mret tt
      | Err _ => mark_individually rd 1 pairs
      end
  | Err _ => mark_individually rd 2 pairs
  end.

(** The cursor store is moved to the highest acknowledged sequence. *)
Definition max_of (l : list N) : option N :=
  match l with
  | [] => None
  | x :: l' => Some (foldl N.max x l')
  end.

Definition advance_store (sequences : list N) : M unit := λ q,
  match max_of sequences, uq_sync_state_store q with
  | Some max_seq, Some store =>
      let '(r, store) := (
        before ← try_fault cursor;
        let cursor_before := match before with Ok c => c | Err _ => 0%N end in
        if (cursor_before <? max_seq)%N then set_cursor max_seq else mret tt) store in
      (r, with_store (Some store) q)
  | _, _ => (Ok tt, q)
  end.

Definition upload_succeeded (rd : upload_readings) (entries : list OplogEntry)
    (sequences : list N) : M nat :=
  q ← sm_get;
  let count := on_storage (ol_count_pending (uq_oplog q)) in
  observe count;;
  mark_batch rd (imap pair (zip entries sequences));;
  observe count;;
  advance_store sequences;;
  observe count;;
  observe (on_storage (ol_read_pending (uq_oplog q) (uc_batch_size (uq_config q))));;
  observe count;;
  on_engine (sm_modify (λ eng, foldl (λ eng e, retry_record_success (oe_id e) eng) eng entries));;
  mret (length entries).

(** The failures are counted under the engine's lock; the entries that are out
    of attempts are returned with their counts. *)
Definition record_failures (rd : upload_readings) (entries : list OplogEntry) :
    M (list (string * N)) :=
  on_engine (
    res ← map_each (failure_turn rd) (imap pair entries);
    mret (omap id res)).

Definition upload_unavailable (rd : upload_readings) (entries : list OplogEntry) : M nat :=
  failed_ids ← record_failures rd entries;
  for_each (λ '(ent, retry_count), on_storage (ol_mark_failed ent
    ("Coordinator not available (" +:+ pretty retry_count +:+ " retries exhausted)")%string))
    failed_ids;;
  mret 0.

Definition coordinator_error_debug (e : CoordinatorError) : string :=
  match e with
  | NotAvailable => "NotAvailable"
  | AuthFailed => "AuthFailed"
  | SchemaMismatch => "SchemaMismatch"
  | Timeout => "Timeout"
  | NotSupported msg => "NotSupported(" +:+ debug_str msg +:+ ")"
  | Internal msg => "Internal(" +:+ debug_str msg +:+ ")"
  end.

Definition upload_error_message (e : CoordinatorError) : string :=
  "upload failed: " +:+ coordinator_error_debug e.

Definition upload_failed (rd : upload_readings) (entries : list OplogEntry)
    (e : CoordinatorError) : M nat :=
  failed_ids ← record_failures rd entries;
  for_each (λ '(ent, _), on_storage (ol_mark_failed ent (upload_error_message e))) failed_ids;;
  sm_fail (Fail (ECoordinator (upload_error_message e))).

Definition upload_process_batch (rd : upload_readings) : M nat :=
  enabled ← upload_enabled;
  if negb enabled then mret 0
  else
    q ← sm_get;
    raw_entries ← on_storage (ol_read_pending (uq_oplog q) (uc_batch_size (uq_config q)));
    match raw_entries with
    | [] => observe (on_storage (ol_count_pending (uq_oplog q)));; mret 0
    | _ =>
        eng ← rw_lock Panicked uq_retry_engine;
        let entries := select_entries rd raw_entries eng in
        match entries with
        | [] => mret 0
        | _ =>
            push_result ← on_coordinator
              (push (ol_namespace (uq_oplog q)) (map to_mutation entries));
            match push_result with
            | Ok sequences => upload_succeeded rd entries sequences
            | Err NotAvailable => upload_unavailable rd entries
            | Err e => upload_failed rd entries e
            end
        end
    end.

Definition upload_pending_count : M nat :=
  q ← sm_get;
  on_storage (ol_count_pending (uq_oplog q)).
End upload.
Arguments UploadQueue : clear implicits.
