(* ===== verification/UploadTheory.v ===== *)
(** * What an upload batch does to the oplog and the coordinator

    Proved against the interfaces: any storage that implements the abstract
    store, any coordinator that implements the abstract log. *)
From S2P Require Import Prelude F64 Types Storage Oplog Coordinator CoordinatorTheory Retry SyncStateStore Connection Upload.

(** ** Marking entries *)

Section marks.
Context (pairs : list (string * N)).

(** How an entry may come out of marking the ids of [pairs], once those of
    [done] have been marked: as it was, or synced under a sequence [pairs]
    gives its id. *)
Definition synced_by (e e' : OplogEntry) : Prop :=
  ∃ seq now, (oe_id e, seq) ∈ pairs ∧ e' = set_synced seq now e.

Definition marking (processed : list string) (e e' : OplogEntry) : Prop :=
  (oe_id e ∈ processed → synced_by e e') ∧ (e' = e ∨ synced_by e e').

Lemma marking_refl log : Forall2 (marking []) log log.
Proof.
  apply Forall_Forall2_diag, Forall_forall. intros e _. split; [by intros ?%elem_of_nil|by left].
Qed.

Lemma marking_weaken processed processed' log log' : processed' ⊆ processed →
  Forall2 (marking processed) log log' → Forall2 (marking processed') log log'.
Proof.
  intros Hsub Hall. eapply Forall2_impl; [exact Hall|]. intros e e' [H1 H2]. split; [|done].
  intros Hin. apply H1. by apply Hsub.
Qed.

Lemma marking_step ent seq now processed log log' : (ent, seq) ∈ pairs →
  Forall2 (marking processed) log log' →
  Forall2 (marking (ent :: processed)) log (map_if (has_id ent) (set_synced seq now) log').
Proof.
  intros Hin Hall. unfold map_if. induction Hall as [|e e' log log' [H1 H2] _ IH]; simpl; [done|].
  constructor; [|done]. clear IH.
  assert (Hid : oe_id e' = oe_id e).
  { destruct H2 as [->|(? & ? & _ & ->)]; done. }
  unfold has_id. rewrite Hid. case_bool_decide as Heq.
  - assert (Hs : synced_by e (set_synced seq now e')).
    { exists seq, now. split; [by rewrite Heq|]. by destruct H2 as [->|(? & ? & _ & ->)]. }
    split; [done|by right].
  - split; [|done]. intros [Heq'|Hp]%elem_of_cons; [done|by apply H1].
Qed.

(** A store reached by marking: documents untouched, each entry as [marking]
    allows. *)
Definition marked_store (processed : list string) (a a' : astore) : Prop :=
  a_docs a' = a_docs a ∧ Forall2 (marking processed) (a_log a) (a_log a').

Lemma marked_store_refl a : marked_store [] a a.
Proof. split; [done|apply marking_refl]. Qed.

Lemma marked_store_weaken processed processed' a a' : processed' ⊆ processed →
  marked_store processed a a' → marked_store processed' a a'.
Proof. intros Hsub [Hd Hl]. split; [done|]. by eapply marking_weaken. Qed.

Lemma marked_store_step ent seq now processed a a' : (ent, seq) ∈ pairs →
  marked_store processed a a' →
  marked_store (ent :: processed) a (a_mark_synced now ent seq a').
Proof. intros Hin [Hd Hl]. split; [done|]. by apply marking_step. Qed.

Lemma marked_store_fold ents now processed a a' : ents ⊆ pairs →
  marked_store processed a a' →
  marked_store (ents.*1 ++ processed) a
    (foldl (λ a '(ent, seq), a_mark_synced now ent seq a) a' ents).
Proof.
  revert a' processed. induction ents as [|[ent seq] ents IH]; intros a' processed Hsub Ha; [done|].
  simpl. eapply marked_store_weaken; [|apply (IH _ (ent :: processed)); [set_solver|]].
  - set_solver.
  - apply marked_store_step; [set_solver|done].
Qed.
End marks.

Section upload_theory.
Context {S C T : Type} {HS : Storage S} {HSpec : StorageSpec S} {HTx : TransactionSpec S}.
Context {HC : Coordinator C} {HCSpec : CoordinatorSpec C}.
Context {HT : SyncStateStore T} {HTSpec : SyncStateStoreSpec T}.
Implicit Types q : UploadQueue S C T.

Abbreviation M := (SM (UploadQueue S C T) (fault VaultSyncError)).
Abbreviation view q := (st_view (uq_storage q)).

Lemma on_storage_ok {A} (m : SM S VaultSyncError A) res f q :
  refines_op st_view st_healthy m res f → st_healthy (uq_storage q) →
  ∃ s', (on_storage m : M A) q = (Ok (res (view q)), with_storage s' q) ∧
    st_view s' = f (view q) ∧ st_healthy s'.
Proof.
  intros Hm Hh. destruct (Hm (uq_storage q)) as (H1 & _ & _).
  destruct (H1 Hh) as (s' & Hrun & Hv & Hh'). exists s'.
  unfold on_storage, may_fault. sm_unfold. by rewrite Hrun.
Qed.

Lemma observe_ok {A} (m : SM S VaultSyncError A) res q :
  refines_op st_view st_healthy m res id → st_healthy (uq_storage q) →
  ∃ s', (observe (on_storage m) : M unit) q = (Ok tt, with_storage s' q) ∧
    st_view s' = view q ∧ st_healthy s'.
Proof.
  intros Hm Hh. destruct (on_storage_ok m res id q Hm Hh) as (s' & Hrun & Hv & Hh').
  exists s'. unfold observe, try_fault. sm_unfold. by rewrite Hrun.
Qed.

(** The pairs a loop over [zip entries sequences] marks. *)
Definition marks_of (l : list (nat * (OplogEntry * N))) : list (string * N) :=
  map (λ '(_, (e, seq)), (oe_id e, seq)) l.

Lemma mark_individually_ok rd loop pairs l processed a q :
  marks_of l ⊆ pairs → st_healthy (uq_storage q) → marked_store pairs processed a (view q) →
  ∃ s', (mark_individually rd loop l : M unit) q = (Ok tt, with_storage s' q) ∧
    st_healthy s' ∧ marked_store pairs ((marks_of l).*1 ++ processed) a (st_view s').
Proof.
  unfold mark_individually. revert processed q.
  induction l as [|[i [e seq]] l IH]; intros processed q Hsub Hh Ha.
  { exists (uq_storage q). by destruct q. }
  cbn [for_each marks_of map] in *. sm_unfold.
  destruct (on_storage_ok _ _ _ q (mark_synced_ok (mark_now rd loop i) (oe_id e) seq) Hh)
    as (s1 & Hrun & Hv & Hh1).
  unfold ol_mark_synced. rewrite Hrun.
  destruct (IH (oe_id e :: processed) (with_storage s1 q)) as (s2 & Hrun2 & Hh2 & Ha2).
  - set_solver.
  - done.
  - simpl. rewrite Hv. apply marked_store_step; [set_solver|done].
  - exists s2. unfold ol_mark_synced in Hrun2. rewrite Hrun2. split_and!; [done|done|].
    eapply marked_store_weaken, Ha2. set_solver.
Qed.

Lemma mark_in_tx_ok rd all l tx a q :
  marks_of l ⊆ marks_of all → tx_buffer tx ⊆ marks_of all →
  st_healthy (uq_storage q) → marked_store (marks_of all) [] a (view q) →
  ∃ s' tx', (mark_in_tx rd all l tx : M storage_tx) q = (Ok tx', with_storage s' q) ∧
    st_healthy s' ∧ tx_buffer tx' ⊆ marks_of all ∧
    (marked_store (marks_of all) (marks_of all).*1 a (st_view s') ∨
     st_view s' = view q ∧ tx_buffer tx' = tx_buffer tx ++ marks_of l).
Proof.
  revert tx. induction l as [|[i [e seq]] l IH]; intros tx Hsub Hbuf Hh Ha.
  { exists (uq_storage q), tx. split; [by destruct q|]. split_and!; [done..|]. right.
    by rewrite app_nil_r. }
  cbn [mark_in_tx]. destruct (tx_mark_synced tx (oe_id e) seq) as [[[]|err] tx'] eqn:Htx.
  - apply tx_mark_synced_ok in Htx. destruct (IH tx') as (s' & tx2 & Hrun & Hh' & Hb2 & Hor).
    + set_solver.
    + rewrite Htx. set_solver.
    + done.
    + done.
    + exists s', tx2. split_and!; [done..|]. destruct Hor as [?|[Hv Hb]]; [by left|right].
      split; [done|]. by rewrite Hb, Htx, <-app_assoc.
  - apply tx_mark_synced_err in Htx. sm_unfold.
    destruct (mark_individually_ok rd 0 (marks_of all) all [] a q) as (s' & Hrun & Hh' & Ha'); [done..|].
    exists s', tx'. rewrite Hrun. rewrite app_nil_r in Ha'. split_and!; [done|done| |by left].
    by rewrite Htx.
Qed.

Lemma mark_batch_ok rd l q : st_healthy (uq_storage q) →
  ∃ s', (mark_batch rd l : M unit) q = (Ok tt, with_storage s' q) ∧ st_healthy s' ∧
    marked_store (marks_of l) (marks_of l).*1 (view q) (st_view s').
Proof.
  intros Hh. unfold mark_batch, try_fault, on_storage, may_fault. sm_unfold.
  destruct (begin_transaction_ok (uq_storage q)) as (r & s1 & Hrun & Hv1 & Hh1 & Htx).
  rewrite Hrun. pose proof (marked_store_refl (marks_of l) (view q)) as Hrefl.
  destruct r as [tx|e]; simpl.
  - specialize (Htx tx eq_refl).
    destruct (mark_in_tx_ok rd l l tx (view q) (with_storage s1 q)) as (s2 & tx2 & Hrun2 & Hh2 & Hb2 & Hor).
    + done.
    + rewrite Htx. set_solver.
    + by apply Hh1.
    + simpl. by rewrite Hv1.
    + rewrite Hrun2. simpl.
      destruct (tx_commit_ok (commit_now rd) tx2 s2) as (r & s3 & Hrun3 & Hh3 & Hv3). rewrite Hrun3.
      assert (Hpart : marked_store (marks_of l) [] (view q) (st_view s2)).
      { destruct Hor as [H|[Hv _]]; [|simpl in Hv; by rewrite Hv, Hv1].
        eapply marked_store_weaken, H. set_solver. }
      destruct r as [[]|e]; simpl.
      * exists s3. split_and!; [done|by apply Hh3|]. rewrite Hv3.
        destruct Hor as [H|[_ Hb]].
        -- eapply marked_store_weaken, marked_store_fold, H; set_solver.
        -- eapply marked_store_weaken, marked_store_fold, Hpart; [|done]. rewrite Hb, Htx. set_solver.
      * destruct (mark_individually_ok rd 1 (marks_of l) l [] (view q) (with_storage s3 q))
          as (s4 & Hrun4 & Hh4 & Ha4); [done|by apply Hh3|simpl; by rewrite Hv3|].
        rewrite app_nil_r in Ha4. exists s4. split; [exact Hrun4|done].
  - destruct (mark_individually_ok rd 2 (marks_of l) l [] (view q) (with_storage s1 q))
      as (s2 & Hrun2 & Hh2 & Ha2); [done|by apply Hh1|simpl; by rewrite Hv1|].
    rewrite app_nil_r in Ha2. exists s2. rewrite Hrun2. done.
Qed.

(** ** The successful branch *)

Lemma max_of_spec l m : max_of l = Some m → m ∈ l ∧ Forall (λ x, (x ≤ m)%N) l.
Proof.
  destruct l as [|x l]; [done|]. simpl. intros [= <-]. revert x.
  induction l as [|y l IH]; intros x; simpl; [split; [left|by constructor]|].
  destruct (IH (N.max x y)) as [H1 H2]. inversion H2 as [|?? Hxy H3]; subst. split.
  - apply elem_of_cons in H1 as [H1|H1]; [|set_solver]. rewrite H1.
    destruct (N.max_spec x y) as [[_ ->]|[_ ->]]; set_solver.
  - constructor; [lia|]. constructor; [lia|done].
Qed.

(** The cursor after acknowledging the sequences. *)
Definition advanced_cursor (sequences : list N) (cur : N) : N :=
  N.max cur (default 0%N (max_of sequences)).

Lemma advance_store_ok seqs q : ∃ st, (advance_store seqs : M unit) q = (Ok tt, with_store st q) ∧
  store_cursor <$> st = advanced_cursor seqs ∘ store_cursor <$> uq_sync_state_store q.
Proof.
  unfold advance_store, advanced_cursor.
  destruct (max_of seqs) as [m|]; [|exists (uq_sync_state_store q); destruct q as [? ? ? ? ? ? []];
    simpl; split; [done|f_equal; lia|done|done]].
  destruct (uq_sync_state_store q) as [st|] eqn:Hst; simpl.
  2:{ exists None. split; [|done]. destruct q; simpl in *. by subst. }
  unfold try_fault. sm_unfold. rewrite cursor_ok.
  destruct (N.ltb_spec (store_cursor st) m).
  - destruct (set_cursor_ok m st) as (st' & -> & Hc & _). exists (Some st'). simpl.
    split; [done|]. rewrite Hc. f_equal. lia.
  - exists (Some st). simpl. split; [done|]. f_equal. lia.
Qed.

Lemma upload_succeeded_ok rd entries seqs q :
  st_healthy (uq_storage q) → rw_poisoned (uq_retry_engine q) = false →
  let l := imap pair (zip entries seqs) in
  ∃ q', (upload_succeeded rd entries seqs : M nat) q = (Ok (length entries), q') ∧
    marked_store (marks_of l) (marks_of l).*1 (view q) (view q') ∧
    st_healthy (uq_storage q') ∧ uq_coordinator q' = uq_coordinator q ∧
    store_cursor <$> uq_sync_state_store q' =
      advanced_cursor seqs ∘ store_cursor <$> uq_sync_state_store q.
Proof.
  intros Hh Hp l. unfold upload_succeeded. sm_unfold.
  pose proof (pending_count_ok (ol_namespace (uq_oplog q))) as Hcount.
  pose proof (read_pending_ok (ol_namespace (uq_oplog q)) (uc_batch_size (uq_config q))) as Hread.
  destruct (observe_ok _ _ q Hcount Hh) as (s1 & E1 & V1 & H1).
  unfold ol_count_pending. rewrite E1.
  destruct (mark_batch_ok rd l (with_storage s1 q) H1) as (s2 & E2 & H2 & V2).
  fold l. rewrite E2. simpl in V2.
  destruct (observe_ok _ _ (with_storage s2 q) Hcount H2) as (s3 & E3 & V3 & H3).
  change (with_storage s2 (with_storage s1 q)) with (with_storage s2 q). rewrite E3.
  change (with_storage s3 (with_storage s2 q)) with (with_storage s3 q).
  destruct (advance_store_ok seqs (with_storage s3 q)) as (st & E4 & Hst). rewrite E4.
  set (q4 := with_store st (with_storage s3 q)).
  destruct (observe_ok _ _ q4 Hcount H3) as (s5 & E5 & V5 & H5). rewrite E5.
  destruct (observe_ok _ _ (with_storage s5 q4) Hread H5) as (s6 & E6 & V6 & H6).
  unfold ol_read_pending. rewrite E6.
  change (with_storage s6 (with_storage s5 q4)) with (with_storage s6 q4).
  destruct (observe_ok _ _ (with_storage s6 q4) Hcount H6) as (s7 & E7 & V7 & H7). rewrite E7.
  unfold on_engine, rw_lock. sm_unfold. simpl. rewrite Hp. eexists. split; [done|]. simpl in *.
  rewrite V7, V6, V5, V3, <-V1. by split_and!.
Qed.

(** ** Theorems *)

(** The entries a call selects. *)
Definition selected (rd : upload_readings) q : list OplogEntry :=
  select_entries rd (take (uc_batch_size (uq_config q))
    (pending_of (ol_namespace (uq_oplog q)) (a_log (view q)))) (rw_val (uq_retry_engine q)).

(** The queue can work: the storage is healthy, the engine's lock is not
    poisoned, and the connection manager, if any, reports the state online. *)
Definition queue_ready q : Prop :=
  st_healthy (uq_storage q) ∧ rw_poisoned (uq_retry_engine q) = false ∧
  upload_enabled q = (Ok true, q).

Lemma select_entries_length rd raw eng : length (select_entries rd raw eng) ≤ length raw.
Proof.
  unfold select_entries. transitivity (length (imap pair raw)); [|by rewrite length_imap].
  generalize (imap pair raw) as l. induction l as [|[i e] l IH]; [done|]. cbn [omap list_omap length].
  destruct (can_retry _ _ _); cbn [length]; unfold omap in *; lia.
Qed.

Lemma select_entries_elem rd raw eng e : e ∈ select_entries rd raw eng → e ∈ raw.
Proof.
  unfold select_entries. intros ([i e'] & Hin & Hc)%list_elem_of_omap.
  apply elem_of_lookup_imap in Hin as (j & e2 & [= -> ->] & Hlk).
  destruct (can_retry _ _ _); [|done]. injection Hc as <-. by eapply list_elem_of_lookup_2.
Qed.

Lemma marks_of_zip sel seqs :
  marks_of (imap pair (zip sel seqs)) = zip (oe_id <$> sel) seqs.
Proof.
  transitivity (imap (const (prod_map oe_id (@id N))) (zip sel seqs)).
  { unfold marks_of. etrans; [apply fmap_imap|]. apply imap_ext. by intros i [e seq] _. }
  rewrite imap_const. revert seqs. induction sel as [|e sel IH]; intros [|seq seqs]; simpl; [done..|].
  by rewrite <-IH.
Qed.

Lemma alog_push_length ns ms next log seqs log' next' :
  alog_push ns ms next log = (seqs, log', next') → length seqs = length ms.
Proof. intros [_ H]%alog_push_extends. symmetry. by eapply Forall2_length. Qed.

(** What [marked_store] says once every acknowledged entry is marked. *)
Lemma marked_store_acked sel seqs (log : list PendingMutation) a a' :
  Forall2 (λ m seq, log_find (em_id m) log = Some seq) (map to_mutation sel) seqs →
  marked_store (zip (oe_id <$> sel) seqs) (zip (oe_id <$> sel) seqs).*1 a a' →
  Forall2 (λ e e', (oe_id e ∈ oe_id <$> sel → ∃ seq now, e' = set_synced seq now e ∧
                      log_find (oe_id e) log = Some seq) ∧
                   (oe_id e ∉ oe_id <$> sel → e' = e)) (a_log a) (a_log a').
Proof.
  intros Hf [_ Hm]. eapply Forall2_impl; [exact Hm|]. clear Hm.
  assert (Hz : ∀ ent seq, (ent, seq) ∈ zip (oe_id <$> sel) seqs →
    ent ∈ oe_id <$> sel ∧ log_find ent log = Some seq).
  { revert seqs Hf. induction sel as [|e sel IH]; intros seqs Hf; inversion Hf as [|?? seqs' ? Hh Ht];
      subst; simpl; intros ent seq' Hin; [by apply elem_of_nil in Hin|].
    apply elem_of_cons in Hin as [[= -> ->]|Hin]; [split; [left|done]|].
    destruct (IH _ Ht _ _ Hin). split; [by right|done]. }
  intros e e' [H1 H2]. split.
  - intros Hin. destruct H1 as (seq & now & Hp & ->).
    { rewrite fst_zip; [done|]. apply Forall2_length in Hf. rewrite length_map in Hf.
      rewrite length_fmap. lia. }
    exists seq, now. split; [done|]. by apply Hz in Hp as [_ ?].
  - intros Hnin. destruct H2 as [->|(seq & now & Hp & _)]; [done|]. by apply Hz in Hp as [? _].
Qed.

Context (debug_str : string → string).
Abbreviation process_batch := (upload_process_batch debug_str).

(** The outcome of a call that pushed the entries [sel] and was acknowledged
    with [seqs]; [n] is the room left at the coordinator. *)
Record delivered (n : nat) (sel : list OplogEntry) (seqs : list N) q q' : Prop := {
  dl_push : alog_push (ol_namespace (uq_oplog q)) (map to_mutation sel)
      (co_next (uq_coordinator q)) (co_log (ol_namespace (uq_oplog q)) (uq_coordinator q)) =
    (seqs, co_log (ol_namespace (uq_oplog q)) (uq_coordinator q'), co_next (uq_coordinator q'));
  dl_marks : marked_store (zip (oe_id <$> sel) seqs) (zip (oe_id <$> sel) seqs).*1 (view q) (view q');
  dl_cursor : store_cursor <$> uq_sync_state_store q' =
    advanced_cursor seqs ∘ store_cursor <$> uq_sync_state_store q;
  dl_healthy : st_healthy (uq_storage q');
  dl_ready : co_ready n (uq_coordinator q');
}.

Lemma delivered_nothing n m s q : st_healthy s → st_view s = view q →
  co_ready (m + n) (uq_coordinator q) → delivered n [] [] q (with_storage s q).
Proof.
  intros Hs Hv Hroom. split; [done| | |done|].
  - simpl. rewrite Hv. apply marked_store_refl.
  - simpl. destruct (uq_sync_state_store q); [|done]. simpl. unfold advanced_cursor. f_equal. simpl. lia.
  - eapply co_ready_mono, Hroom. lia.
Qed.

Lemma upload_process_ok rd n q : queue_ready q →
  co_ready (uc_batch_size (uq_config q) + n) (uq_coordinator q) →
  ∃ q' seqs, process_batch rd q = (Ok (length (selected rd q)), q') ∧
    delivered n (selected rd q) seqs q q'.
Proof.
  intros (Hh & Hp & Hon) Hroom. unfold upload_process_batch. sm_unfold. rewrite Hon. cbn [negb].
  set (ns := ol_namespace (uq_oplog q)). unfold selected. fold ns.
  destruct (on_storage_ok _ _ _ q (read_pending_ok ns (uc_batch_size (uq_config q))) Hh)
    as (s1 & E1 & V1 & H1). unfold ol_read_pending. fold ns. rewrite E1.
  pose proof (length_take (pending_of ns (a_log (view q))) (uc_batch_size (uq_config q))) as Hraw.
  destruct (take _ (pending_of ns (a_log (view q)))) as [|e0 raw].
  { destruct (observe_ok _ _ (with_storage s1 q) (pending_count_ok ns) H1) as (s2 & E2 & V2 & H2).
    unfold ol_count_pending. fold ns. rewrite E2. eexists _, []. split; [done|].
    eapply (delivered_nothing n _ s2 q); [done| |done]. by rewrite V2. }
  unfold rw_lock. cbn [uq_retry_engine with_storage]. rewrite Hp.
  pose proof (select_entries_length rd (e0 :: raw) (rw_val (uq_retry_engine q))) as Hlen.
  destruct (select_entries rd (e0 :: raw) (rw_val (uq_retry_engine q))) as [|e sel'] eqn:Es.
  { eexists _, []. split; [done|]. by eapply delivered_nothing. }
  rewrite <-Es in *. set (sel := select_entries rd (e0 :: raw) _) in *.
  destruct (co_push_ok n ns (map to_mutation sel) (uq_coordinator q)) as (seqs & c' & E3 & Hspec & _ & Hr).
  { eapply co_ready_mono, Hroom. rewrite length_map. lia. }
  unfold on_coordinator. sm_unfold. cbn [uq_coordinator with_storage]. rewrite E3.
  destruct (upload_succeeded_ok rd sel seqs (with_coordinator c' (with_storage s1 q)) H1 Hp)
    as (q' & E4 & Hm & H4 & Hc & Hst). rewrite E4. exists q', seqs. split; [done|].
  rewrite marks_of_zip in Hm. simpl in Hm, Hc, Hst. rewrite V1 in Hm.
  split; rewrite ?Hc; done.
Qed.

(** C4: A successful upload: on a healthy queue with an online connection the call
    pushes exactly the pending entries of the namespace that the retry engine
    lets through, up to the batch size, and returns their number; every entry
    with such an id ends up synced under the sequence the coordinator stored it
    at, every other entry and every document is as before, and the cursor store
    is moved to the highest acknowledged sequence if that is ahead. *)
Theorem upload_delivers_batch rd n q : queue_ready q →
  co_ready (uc_batch_size (uq_config q) + n) (uq_coordinator q) →
  let ns := ol_namespace (uq_oplog q) in
  let ids := oe_id <$> selected rd q in
  ∃ q' seqs, process_batch rd q = (Ok (length (selected rd q)), q') ∧
    alog_push ns (map to_mutation (selected rd q)) (co_next (uq_coordinator q))
      (co_log ns (uq_coordinator q)) =
      (seqs, co_log ns (uq_coordinator q'), co_next (uq_coordinator q')) ∧
    a_docs (view q') = a_docs (view q) ∧
    Forall2 (λ e e', (oe_id e ∈ ids → ∃ seq now, e' = set_synced seq now e ∧
                        log_find (oe_id e) (co_log ns (uq_coordinator q')) = Some seq) ∧
                     (oe_id e ∉ ids → e' = e)) (a_log (view q)) (a_log (view q')) ∧
    store_cursor <$> uq_sync_state_store q' =
      advanced_cursor seqs ∘ store_cursor <$> uq_sync_state_store q.
Proof.
  intros Hq Hroom ns ids. destruct (upload_process_ok rd n q Hq Hroom) as (q' & seqs & Hrun & Hd).
  exists q', seqs. pose proof (dl_push _ _ _ _ _ Hd) as Hpush. pose proof (dl_marks _ _ _ _ _ Hd) as Hm.
  split_and!; [done|done|apply Hm| |by apply (dl_cursor _ _ _ _ _ Hd)].
  apply alog_push_extends in Hpush as [_ Hf]. by eapply marked_store_acked.
Qed.

(** A crash between the push and the marking neither loses nor duplicates a
    mutation: if the coordinator has accepted the batch but the process died
    before any entry was marked, the call after the restart (with any retry
    state that selects the same entries) leaves the coordinator's log as it is
    and marks each entry with the sequence of the first push. *)
Theorem upload_crash_before_marking rd rd' n q seqs c1 engine :
  queue_ready q →
  co_ready (uc_batch_size (uq_config q) + (uc_batch_size (uq_config q) + n)) (uq_coordinator q) →
  let ns := ol_namespace (uq_oplog q) in
  push ns (map to_mutation (selected rd q)) (uq_coordinator q) = (Ok seqs, c1) →
  let q1 := with_engine engine (with_coordinator c1 q) in
  selected rd' q1 = selected rd q →
  ∃ q2, process_batch rd' q1 = (Ok (length (selected rd q)), q2) ∧
    co_log ns (uq_coordinator q2) = co_log ns c1 ∧
    ∀ i e seq e', selected rd q !! i = Some e → seqs !! i = Some seq →
      e' ∈ a_log (view q2) → oe_id e' = oe_id e →
      oe_sync_status e' = Synced ∧ oe_sequence e' = Some seq.
Proof.
  intros Hq Hroom ns Hpush q1 Hsel.
  assert (Hlen : length (selected rd q) ≤ uc_batch_size (uq_config q)).
  { etrans; [apply select_entries_length|]. rewrite length_take. lia. }
  destruct (co_push_ok (uc_batch_size (uq_config q) + n) ns (map to_mutation (selected rd q))
    (uq_coordinator q)) as (seqs' & c1' & Hp & Hspec & _ & Hr).
  { eapply co_ready_mono, Hroom. rewrite length_map. lia. }
  rewrite Hpush in Hp. injection Hp as <- <-. apply alog_push_extends in Hspec as [_ Hrec].
  destruct (upload_process_ok rd' n q1) as (q2 & seqs2 & Hrun & Hd).
  { destruct Hq as (? & ? & Hon). split_and!; [done..|]. unfold upload_enabled in *. simpl.
    destruct (uq_connection q); [|done]. injection Hon as ->. done. }
  { done. }
  rewrite Hsel in Hrun, Hd. pose proof (dl_push _ _ _ _ _ Hd) as Hpush2. simpl in Hpush2. fold ns in Hpush2.
  rewrite (alog_push_recorded _ _ _ _ _ Hrec) in Hpush2. injection Hpush2 as <- Hlog _.
  exists q2. split_and!; [done|done|].
  pose proof (marked_store_acked _ _ _ _ _ Hrec (dl_marks _ _ _ _ _ Hd)) as Hall.
  intros i e seq e' Hi1 Hi2 He' Hid.
  assert (Hf : log_find (oe_id e) (co_log ns c1) = Some seq).
  { eapply (Forall2_lookup_lr _ _ _ i (to_mutation e)) in Hrec; [done| |done].
    by rewrite list_lookup_fmap, Hi1. }
  assert (Hin : oe_id e' ∈ oe_id <$> selected rd q).
  { rewrite Hid. apply list_elem_of_fmap_2. by eapply list_elem_of_lookup_2. }
  apply list_elem_of_lookup in He' as [j Hj].
  destruct (Forall2_lookup_r _ _ _ _ _ Hall Hj) as (e0 & _ & Hmark & Hkeep).
  assert (Hid0 : oe_id e0 = oe_id e').
  { destruct (decide (oe_id e0 ∈ oe_id <$> selected rd q)) as [Hd0|Hd0].
    - destruct (Hmark Hd0) as (? & ? & -> & _). done.
    - by rewrite (Hkeep Hd0). }
  destruct Hmark as (seq' & now & -> & Hf'); [by rewrite Hid0|]. simpl in *. split; [done|].
  rewrite Hid, Hf in Hf'. congruence.
Qed.

(** An upload moves the cursor past mutations that were never downloaded: a
    mutation of another replica that sits in the coordinator's log above the
    stored cursor and below the sequences of the upload is no longer returned by
    a pull from the cursor the upload leaves in the store. *)
Theorem upload_cursor_skips_remote rd n q st pm :
  queue_ready q → co_ready (uc_batch_size (uq_config q) + n) (uq_coordinator q) →
  uq_sync_state_store q = Some st →
  let ns := ol_namespace (uq_oplog q) in
  pm ∈ co_log ns (uq_coordinator q) → (store_cursor st < pm_sequence pm)%N →
  Exists (λ e, log_find (oe_id e) (co_log ns (uq_coordinator q)) = None) (selected rd q) →
  ∃ q' st', process_batch rd q = (Ok (length (selected rd q)), q') ∧
    uq_sync_state_store q' = Some st' ∧ pm ∈ co_log ns (uq_coordinator q') ∧
    ∀ limit, pm ∉ alog_pull (store_cursor st') limit (co_log ns (uq_coordinator q')).
Proof.
  intros Hq Hroom Hst ns Hpm Hcur Hnew.
  destruct (upload_process_ok rd n q Hq Hroom) as (q' & seqs & Hrun & Hd).
  pose proof (dl_cursor _ _ _ _ _ Hd) as Hc. rewrite Hst in Hc. simpl in Hc.
  destruct (uq_sync_state_store q') as [st'|] eqn:Hst'; [|done]. injection Hc as Hc.
  pose proof (dl_push _ _ _ _ _ Hd) as Hpush. fold ns in Hpush.
  assert (Hmax : (co_next (uq_coordinator q) ≤ advanced_cursor seqs (store_cursor st))%N).
  { apply Exists_exists in Hnew as (e & Hin & Hnone).
    destruct (alog_push_fresh _ _ _ _ _ _ _ Hpush (to_mutation e)) as (seq & Hseq & Hle).
    { apply list_elem_of_In, in_map, list_elem_of_In. done. }
    { done. }
    unfold advanced_cursor. destruct (max_of seqs) as [m|] eqn:Hm.
    - apply max_of_spec in Hm as [_ Hall]. rewrite Forall_forall in Hall. apply Hall in Hseq. simpl. lia.
    - destruct seqs; [by apply elem_of_nil in Hseq|done]. }
  exists q', st'. split_and!; [done|done| |].
  - apply alog_push_extends in Hpush as [[ext Hext] _]. rewrite Hext. apply elem_of_app. by left.
  - intros limit [Hlt%N.ltb_lt _]%elem_of_take_mono%elem_of_filterb.
    destruct (co_entry _ ns _ pm Hroom Hpm) as (_ & Hb & _). rewrite Hc in Hlt. lia.
Qed.

(** ** The failing branches *)

Definition failure_events (rd : upload_readings) (entries : list (nat * OplogEntry)) : list retry_event :=
  map (λ '(i, e), RFail (fail_now rd i) (fail_rnd rd i) (oe_id e)) entries.

(** The failure that uses up the budget of an entry. *)
Definition out_of_attempts (eng : RetryEngine) (e : OplogEntry) : bool :=
  (rc_max_attempts (re_config eng) <=? failure_count (oe_id e) eng + 1)%N.

Lemma failure_turn_ok rd i e eng :
  (∀ n, (n < rc_max_attempts (re_config eng))%N → retry_delay (re_config eng) (fail_rnd rd i) n ≠ None) →
  (failure_count (oe_id e) eng < U32_MAX)%N →
  ∃ r, failure_turn rd (i, e) eng = (Ok r, retry_step eng (RFail (fail_now rd i) (fail_rnd rd i) (oe_id e))) ∧
    fst <$> r = if out_of_attempts eng e then Some (oe_id e) else None.
Proof.
  intros Hd Hlt. unfold failure_turn, out_of_attempts. sm_unfold. simpl. unfold retry_record_failure.
  rewrite wrapping_add32_small by lia. simpl.
  destruct (N.leb_spec (rc_max_attempts (re_config eng)) (failure_count (oe_id e) eng + 1)) as [Hle|Hgt].
  - by eexists.
  - specialize (Hd _ Hgt). destruct (retry_delay _ _ _); [|done]. by eexists.
Qed.

Lemma failure_loop_ok rd l eng :
  (∀ i e n, (i, e) ∈ l → (n < rc_max_attempts (re_config eng))%N →
    retry_delay (re_config eng) (fail_rnd rd i) n ≠ None) →
  (∀ i e, (i, e) ∈ l → (failure_count (oe_id e) eng < U32_MAX)%N) →
  NoDup (oe_id ∘ snd <$> l) →
  ∃ res, map_each (failure_turn rd) l eng = (Ok res, retry_run eng (failure_events rd l)) ∧
    fst <$> omap id res = omap (λ '(_, e), if out_of_attempts eng e then Some (oe_id e) else None) l.
Proof.
  revert eng. induction l as [|[i e] l IH]; intros eng Hd Hlt Hnd; [by exists []|].
  apply NoDup_cons in Hnd as [Hnin Hnd].
  destruct (failure_turn_ok rd i e eng) as (r & Hrun & Hr).
  { intros n. apply (Hd i e). left. } { apply (Hlt i). left. }
  set (eng1 := retry_step eng _) in Hrun.
  assert (Hsame : ∀ j e', (j, e') ∈ l → failure_count (oe_id e') eng1 = failure_count (oe_id e') eng).
  { intros j e' Hin. unfold failure_count, eng1.
    destruct (retry_step_other (oe_id e') eng (RFail (fail_now rd i) (fail_rnd rd i) (oe_id e)))
      as [_ ->]; [|done].
    simpl. intros Heq. apply Hnin. simpl. rewrite Heq. apply (list_elem_of_fmap_2 (oe_id ∘ snd) _ (j, e') Hin). }
  destruct (IH eng1) as (res & Hrun2 & Hres).
  - unfold eng1. rewrite retry_step_config. intros j e' n Hin. apply (Hd j e'). by right.
  - intros j e' Hin. rewrite (Hsame j e' Hin). apply (Hlt j). by right.
  - done.
  - exists (r :: res). cbn [map_each]. sm_unfold. rewrite Hrun, Hrun2. split; [done|].
    assert (Ho : omap (λ '(_, e), if out_of_attempts eng1 e then Some (oe_id e) else None) l =
      omap (λ '(_, e), if out_of_attempts eng e then Some (oe_id e) else None) l).
    { apply list_omap_ext, Forall_Forall2_diag, Forall_forall. intros [j e'] Hin. unfold out_of_attempts, eng1.
      rewrite retry_step_config. by rewrite <-(Hsame j e' Hin). }
    transitivity (option_list (fst <$> r) ++ (fst <$> omap id res)); [by destruct r as [[]|]|].
    rewrite Hr, Hres, Ho. by destruct (out_of_attempts eng e) eqn:He; cbn; rewrite He.
Qed.

Definition fail_ids (ids : list string) (log : list OplogEntry) : list OplogEntry :=
  map_if (λ e, bool_decide (oe_id e ∈ ids)) (set_status Failed) log.

Lemma mark_failed_loop_ok (f : string * N → M unit) l q :
  (∀ p, ∃ msg, f p = on_storage (ol_mark_failed p.1 msg)) → st_healthy (uq_storage q) →
  ∃ s', for_each f l q = (Ok tt, with_storage s' q) ∧ st_healthy s' ∧
    st_view s' = AStore (a_docs (view q)) (fail_ids l.*1 (a_log (view q))).
Proof.
  intros Hf. revert q. induction l as [|p l IH]; intros q Hh.
  { exists (uq_storage q). split; [by destruct q|]. split; [done|]. destruct (view q) as [docs log].
    simpl. f_equal. unfold fail_ids, map_if. rewrite <-(map_id log) at 1. apply map_ext.
    intros e. by rewrite bool_decide_false by apply not_elem_of_nil. }
  cbn [for_each]. sm_unfold. destruct (Hf p) as [msg ->].
  destruct (on_storage_ok _ _ _ q (mark_failed_ok p.1 msg) Hh) as (s1 & E1 & V1 & H1).
  unfold ol_mark_failed. rewrite E1.
  destruct (IH (with_storage s1 q) H1) as (s2 & E2 & H2 & V2). rewrite E2.
  exists s2. split_and!; [done|done|]. rewrite V2. simpl. rewrite V1. simpl. f_equal.
  unfold fail_ids, map_if. rewrite map_map. apply map_ext. intros e. unfold has_id.
  destruct (bool_decide_reflect (oe_id e = p.1)) as [He|Hne]; simpl.
  - repeat case_bool_decide; done || set_solver.
  - repeat case_bool_decide; done || set_solver.
Qed.

Lemma record_failures_ok rd entries q :
  let eng := rw_val (uq_retry_engine q) in
  rw_poisoned (uq_retry_engine q) = false →
  (∀ i n, (n < rc_max_attempts (re_config eng))%N → retry_delay (re_config eng) (fail_rnd rd i) n ≠ None) →
  (∀ e, e ∈ entries → (failure_count (oe_id e) eng < U32_MAX)%N) → NoDup (oe_id <$> entries) →
  ∃ failed, (record_failures rd entries : M _) q =
      (Ok failed, with_engine (retry_run eng (failure_events rd (imap pair entries))) q) ∧
    failed.*1 = oe_id <$> filterb (out_of_attempts eng) entries.
Proof.
  intros eng Hp Hd Hlt Hnd. unfold record_failures, on_engine, rw_lock. sm_unfold. rewrite Hp.
  assert (Hsnd : snd <$> imap pair entries = entries).
  { rewrite fmap_imap. etrans; [apply imap_ext; intros; by apply (eq_refl (const id i x))|].
    rewrite imap_const. apply list_fmap_id. }
  destruct (failure_loop_ok rd (imap pair entries) eng) as (res & Hrun & Hres).
  - intros i e n _. apply Hd.
  - intros i e Hin. apply Hlt. apply elem_of_lookup_imap in Hin as (? & ? & [= -> ->] & Hl).
    by eapply list_elem_of_lookup_2.
  - rewrite list_fmap_compose, Hsnd. done.
  - exists (omap id res). split.
    + change ((rw_val ∘ uq_retry_engine) q) with eng. by rewrite Hrun.
    + rewrite Hres. clear -Hsnd. rewrite <-Hsnd at 2. generalize (imap pair entries) as l.
      induction l as [|[i e] l IH]; [done|]. cbn. unfold filterb in *. cbn.
      destruct (out_of_attempts eng e); cbn; [by f_equal|done].
Qed.

(** The random draws of a call make no delay computation panic. *)
Definition delays_defined (rd : upload_readings) (eng : RetryEngine) : Prop :=
  ∀ i n, (n < rc_max_attempts (re_config eng))%N → retry_delay (re_config eng) (fail_rnd rd i) n ≠ None.

Lemma selected_below_max rd q e : e ∈ selected rd q →
  let eng := rw_val (uq_retry_engine q) in
  (failure_count (oe_id e) eng < rc_max_attempts (re_config eng))%N.
Proof.
  unfold selected, select_entries. intros ([i e'] & _ & Hc)%list_elem_of_omap.
  unfold can_retry, is_exhausted in Hc.
  destruct (N.leb_spec (rc_max_attempts (re_config (rw_val (uq_retry_engine q))))
    (failure_count (oe_id e') (rw_val (uq_retry_engine q)))); [done|].
  destruct (re_next_retry _ !! _) as [time|]; [destruct (time <=? can_now rd i)%N; [|done]|];
    by injection Hc as <-.
Qed.

(** What a failed push leaves: the failures counted, the entries that are out
    of attempts marked. *)
Record failure_recorded (rd : upload_readings) c' q q' : Prop := {
  fr_coordinator : uq_coordinator q' = c';
  fr_engine : rw_val (uq_retry_engine q') =
    retry_run (rw_val (uq_retry_engine q)) (failure_events rd (imap pair (selected rd q)));
  fr_store : view q' = AStore (a_docs (view q))
    (fail_ids (oe_id <$> filterb (out_of_attempts (rw_val (uq_retry_engine q))) (selected rd q))
      (a_log (view q)));
  fr_cursor : uq_sync_state_store q' = uq_sync_state_store q;
}.

(** A failed push loses nothing: whatever error the coordinator returns, the
    call counts one failure for every entry it tried, marks as failed exactly
    those entries whose failure was their last attempt, and leaves all other
    entries (which stay pending), the documents and the cursor as they were; it
    returns 0 when the coordinator was not available and the error otherwise. *)
Theorem upload_failure_loses_nothing rd q err c' :
  queue_ready q → delays_defined rd (rw_val (uq_retry_engine q)) →
  (rc_max_attempts (re_config (rw_val (uq_retry_engine q))) ≤ U32_MAX)%N →
  NoDup (oe_id <$> selected rd q) → selected rd q ≠ [] →
  push (ol_namespace (uq_oplog q)) (map to_mutation (selected rd q)) (uq_coordinator q) = (Err err, c') →
  ∃ q', process_batch rd q =
      (match err with
       | NotAvailable => Ok 0
       | _ => Err (Fail (ECoordinator (upload_error_message debug_str err)))
       end, q') ∧ failure_recorded rd c' q q'.
Proof.
  intros (Hh & Hp & Hon) Hd Hmax Hnd Hne Hpush.
  pose proof (λ e Hin, N.lt_le_trans _ _ _ (selected_below_max rd q e Hin) Hmax) as Hlt.
  unfold upload_process_batch. sm_unfold. rewrite Hon. cbn [negb].
  destruct (on_storage_ok _ _ _ q (read_pending_ok (ol_namespace (uq_oplog q))
    (uc_batch_size (uq_config q))) Hh) as (s1 & E1 & V1 & H1).
  unfold ol_read_pending. rewrite E1. unfold rw_lock.
  fold (selected rd q) in *. unfold selected in Hne.
  destruct (take _ _) as [|e0 raw] eqn:Hraw; [done|]. cbn [uq_retry_engine with_storage]. rewrite Hp.
  assert (Hsel : select_entries rd (e0 :: raw) (rw_val (uq_retry_engine q)) = selected rd q)
    by (unfold selected; by rewrite Hraw).
  rewrite Hsel in Hne |- *. destruct (selected rd q) as [|e sel] eqn:Es; [done|]. rewrite <-Es in *.
  unfold on_coordinator. sm_unfold. cbn [uq_coordinator with_storage]. rewrite Hpush.
  set (q1 := with_coordinator c' (with_storage s1 q)).
  destruct (record_failures_ok rd (selected rd q) q1 Hp Hd Hlt Hnd) as (failed & E2 & Hf).
  set (q2 := with_engine _ q1) in E2.
  assert (Hdone : ∀ f, (∀ p, ∃ msg, f p = on_storage (ol_mark_failed p.1 msg)) →
    ∃ s', for_each f failed q2 = (Ok tt, with_storage s' q2) ∧
      failure_recorded rd c' q (with_storage s' q2)).
  { intros f Hfn. destruct (mark_failed_loop_ok f failed q2 Hfn H1) as (s' & E3 & _ & V3).
    exists s'. split; [done|]. split; try done. simpl. rewrite V3, Hf. simpl. by rewrite V1. }
  destruct err; unfold upload_unavailable, upload_failed; sm_unfold; rewrite E2;
    match goal with |- context [for_each ?f failed q2] =>
      destruct (Hdone f) as (s' & E3 & Hrec); [intros []; by eexists|] end;
    rewrite E3; by eexists.
Qed.
End upload_theory.

(** ** Witnesses *)

Definition sample_pending (ent : string) : OplogEntry :=
  OplogEntry_new ent "alice" "ns" CrdtInsert "todos" "r1" [1]%N (Some [2; 0; 0; 0; 0; 0; 0; 0; 9]%N)
    7 None Pending None 7 1 OInsert "".

Definition sample_readings : upload_readings :=
  Readings (λ _, 0%N) (λ _ _, 9%N) 9 (λ _, 0%N) (λ _, f64_of_Z 0).

Definition sample_queue (c : InMemoryCoordinator.t) :
    UploadQueue InMemoryStorage.t InMemoryCoordinator.t InMemorySyncStateStore.t :=
  Queue (OpLog_new "ns")
    (InMemoryStorage.with_oplog (λ _, [sample_pending "m3"; sample_pending "m4"]) InMemoryStorage.new)
    c (UploadConfig_new 50) (rw_new (retry_new retry_config_default)) None
    (Some (InMemorySyncStateStore.with_cursor 1)).

Lemma sample_queue_ready c : queue_ready (sample_queue c).
Proof. by split_and!. Qed.

Lemma sample_queue_room n : (N.of_nat n + 60 < U64_MAX)%N → coord_ok (50 + n) sample_coord.
Proof. intros Hn. apply sample_coord_ok. lia. Qed.

Lemma upload_delivers_batch_witness :
  ∃ q' seqs, upload_process_batch id sample_readings (sample_queue sample_coord) = (Ok 2, q') ∧
    store_cursor <$> uq_sync_state_store q' = Some (advanced_cursor seqs 1).
Proof.
  destruct (upload_delivers_batch id sample_readings 0 (sample_queue sample_coord))
    as (q' & seqs & Hrun & _ & _ & _ & Hc).
  - apply sample_queue_ready.
  - apply (sample_queue_room 0). vm_compute. reflexivity.
  - exists q', seqs. split; [exact Hrun|exact Hc].
Defined.

Lemma upload_crash_before_marking_witness :
  ∃ q2, upload_process_batch id sample_readings
      (with_engine (retry_new retry_config_default) (with_coordinator
        (InMemoryCoordinator.push "ns" (map to_mutation [sample_pending "m3"; sample_pending "m4"])
          sample_coord).2 (sample_queue sample_coord))) = (Ok 2, q2).
Proof.
  destruct (upload_crash_before_marking id sample_readings sample_readings 0 (sample_queue sample_coord)
    [4; 5]%N (InMemoryCoordinator.push "ns"
      (map to_mutation [sample_pending "m3"; sample_pending "m4"]) sample_coord).2
    (retry_new retry_config_default)) as (q2 & Hrun & _).
  - apply sample_queue_ready.
  - apply (sample_queue_room 50). vm_compute. reflexivity.
  - vm_compute. reflexivity.
  - reflexivity.
  - exists q2. exact Hrun.
Defined.

Lemma upload_cursor_skips_remote_witness :
  ∃ q' st', upload_process_batch id sample_readings (sample_queue sample_coord) = (Ok 2, q') ∧
    uq_sync_state_store q' = Some st' ∧
    ∀ limit, InMemoryCoordinator.to_pending "ns" 2 (sample_mutation "m2") ∉
      alog_pull (store_cursor st') limit (co_log "ns" (uq_coordinator q')).
Proof.
  destruct (upload_cursor_skips_remote id sample_readings 0 (sample_queue sample_coord)
    (InMemorySyncStateStore.with_cursor 1) (InMemoryCoordinator.to_pending "ns" 2 (sample_mutation "m2")))
    as (q' & st' & Hrun & Hst & _ & Hskip).
  - apply sample_queue_ready.
  - apply (sample_queue_room 0). vm_compute. reflexivity.
  - reflexivity.
  - apply (bool_decide_unpack _). vm_compute. exact I.
  - vm_compute. reflexivity.
  - apply (bool_decide_unpack _). vm_compute. exact I.
  - exists q', st'. split; [exact Hrun|]. split; [exact Hst|exact Hskip].
Defined.

(** A coordinator whose lock is poisoned answers every push with [NotAvailable]. *)
Definition down_coord : InMemoryCoordinator.t :=
  InMemoryCoordinator.mk 1 0 (RwLock [] true) (rw_new ∅) (rw_new ∅) (rw_new ∅) (rw_new ∅) [].

Lemma sample_delays_defined : delays_defined sample_readings (retry_new retry_config_default).
Proof.
  intros i n Hn. simpl in Hn. change (n < 10)%N in Hn.
  assert (Hall : ∀ m, m ∈ N.of_nat <$> seq 0 10 →
    retry_delay retry_config_default (f64_of_Z 0) m ≠ None).
  { apply Forall_forall, (bool_decide_unpack _). vm_compute. exact I. }
  apply Hall, list_elem_of_fmap. exists (N.to_nat n). split; [lia|]. apply elem_of_seq. lia.
Qed.

Lemma upload_failure_loses_nothing_witness :
  ∃ q', upload_process_batch id sample_readings (sample_queue down_coord) = (Ok 0, q') ∧
    st_view (uq_storage q') = st_view (uq_storage (sample_queue down_coord)).
Proof.
  destruct (upload_failure_loses_nothing id sample_readings (sample_queue down_coord) NotAvailable down_coord)
    as (q' & Hrun & Hrec).
  - apply sample_queue_ready.
  - exact sample_delays_defined.
  - vm_compute. discriminate.
  - apply (bool_decide_unpack _). vm_compute. exact I.
  - discriminate.
  - reflexivity.
  - exists q'. split; [exact Hrun|]. rewrite (fr_store _ _ _ _ Hrec). vm_compute. reflexivity.
Defined.
