(* ===== verification/CrdtValue.v ===== *)
(** * Values of a document

    [crdt/types.rs] and the conversions of [crdt/document.rs] between the
    values of the library and the values of the Yrs map.  A [HashMap] inside a
    value is an association list in the order its iteration yields. *)
From S2P Require Import Prelude F64.
#[local] Set Warnings "-register-all".

Inductive CrdtType := LwwRegister | PnCounter | OrSet | Text | TArray.

Definition crdt_type_as_str (t : CrdtType) : string :=
  match t with
  | LwwRegister => "lww"
  | PnCounter => "counter"
  | OrSet => "orset"
  | Text => "text"
  | TArray => "array"
  end.

Inductive CrdtValue :=
  | VString (s : string)
  | VNumber (n : f64)
  | VBoolean (b : bool)
  | VArray (l : list CrdtValue)
  | VMap (m : list (string * CrdtValue))
  | VNull.

(** The values Yrs stores in a map: its [Any], and its [Out], which is an [Any]
    or a shared type of its own. *)
Inductive yany :=
  | AnyNull
  | AnyUndefined
  | AnyBool (b : bool)
  | AnyNumber (n : f64)
  | AnyBigInt (z : Z)
  | AnyString (s : string)
  | AnyBuffer (b : bytes)
  | AnyArray (l : list yany)
  | AnyMap (m : list (string * yany)).

Inductive yout :=
  | OutAny (a : yany)
  | OutText (s : string)
  | OutArray (l : list yout)
  | OutMap (m : list (string * yout))
  | OutOther.

Section value_ind.
Variable P : CrdtValue → Prop.
Hypothesis HString : ∀ s, P (VString s).
Hypothesis HNumber : ∀ n, P (VNumber n).
Hypothesis HBoolean : ∀ b, P (VBoolean b).
Hypothesis HArray : ∀ l, Forall P l → P (VArray l).
Hypothesis HMap : ∀ m, Forall (λ kv, P kv.2) m → P (VMap m).
Hypothesis HNull : P VNull.

(** Induction that reaches into arrays and maps. *)
Fixpoint CrdtValue_nested_ind (v : CrdtValue) : P v :=
  match v with
  | VString s => HString s
  | VNumber n => HNumber n
  | VBoolean b => HBoolean b
  | VArray l => HArray l ((fix go l : Forall P l :=
      match l with
      | [] => Forall_nil_2 _
      | x :: l' => Forall_cons_2 _ _ _ (CrdtValue_nested_ind x) (go l')
      end) l)
  | VMap m => HMap m ((fix go (m : list (string * CrdtValue)) : Forall (λ kv, P kv.2) m :=
      match m with
      | [] => Forall_nil_2 _
      | kv :: m' => Forall_cons_2 (λ kv, P kv.2) kv m' (CrdtValue_nested_ind kv.2) (go m')
      end) m)
  | VNull => HNull
  end.
End value_ind.

(** ** Accessors *)

Definition as_str (v : CrdtValue) : option string :=
  match v with VString s => Some s | _ => None end.
Definition as_f64 (v : CrdtValue) : option f64 :=
  match v with VNumber n => Some n | _ => None end.
Definition as_bool (v : CrdtValue) : option bool :=
  match v with VBoolean b => Some b | _ => None end.
Definition is_null (v : CrdtValue) : bool :=
  match v with VNull => true | _ => false end.

(** [HashMap::get] on an association list. *)
Definition assoc_get {A} (k : string) (m : list (string * A)) : option A :=
  (λ p : nat * (string * A), p.2.2) <$> list_find (λ kv : string * A, kv.1 = k) m.

(** [==] on values: numbers as [f64], maps regardless of order. *)
Fixpoint crdt_eqb (v w : CrdtValue) : bool :=
  match v, w with
  | VString s, VString s' => bool_decide (s = s')
  | VNumber n, VNumber n' => f64_eqb n n'
  | VBoolean b, VBoolean b' => Bool.eqb b b'
  | VArray l, VArray l' =>
      (fix go l l' :=
         match l, l' with
         | [], [] => true
         | x :: l, y :: l' => crdt_eqb x y && go l l'
         | _, _ => false
         end) l l'
  | VMap m, VMap m' =>
      (length m =? length m') &&
      forallb (λ '(k, x), match assoc_get k m' with Some y => crdt_eqb x y | None => false end) m
  | VNull, VNull => true
  | _, _ => false
  end.

(** ** Conversions *)

Fixpoint any_to_crdt_value (a : yany) : CrdtValue :=
  match a with
  | AnyString s => VString s
  | AnyNumber n => VNumber n
  | AnyBool b => VBoolean b
  | AnyArray l => VArray (map any_to_crdt_value l)
  | AnyMap m => VMap (map (λ '(k, v), (k, any_to_crdt_value v)) m)
  | AnyNull => VNull
  | _ => VNull
  end.

Fixpoint crdt_value_to_any (v : CrdtValue) : yany :=
  match v with
  | VString s => AnyString s
  | VNumber n => AnyNumber n
  | VBoolean b => AnyBool b
  | VArray l => AnyArray (map crdt_value_to_any l)
  | VMap m => AnyMap (map (λ '(k, x), (k, crdt_value_to_any x)) m)
  | VNull => AnyNull
  end.

Fixpoint out_to_crdt_value (o : yout) : CrdtValue :=
  match o with
  | OutAny a => any_to_crdt_value a
  | OutText s => VString s
  | OutArray l => VArray (map out_to_crdt_value l)
  | OutMap m => VMap (map (λ '(k, x), (k, out_to_crdt_value x)) m)
  | OutOther => VNull
  end.

Definition extract_string (o : yout) : option string :=
  match o with
  | OutAny (AnyString s) => Some s
  | _ => None
  end.

Lemma any_to_crdt_value_inverse v : any_to_crdt_value (crdt_value_to_any v) = v.
Proof.
  induction v as [| | |l IH|m IH|] using CrdtValue_nested_ind; simpl; try done; f_equal.
  - rewrite map_map. induction IH as [|x l Hx _ IHl]; simpl; [done|]. by rewrite Hx, IHl.
  - rewrite map_map. induction IH as [|[k x] m Hx _ IHm]; simpl in *; [done|]. by rewrite Hx, IHm.
Qed.
