(* ===== verification/Schema.v ===== *)
(** * Schemas and schema migrations

    [schema/field.rs], [schema/registry.rs] and [schema/migration.rs].  JSON
    and SHA-256 are libraries and enter as parameters; the closures of a
    migration are their results, and the runner keeps the trace of the calls. *)
From stdpp Require Import pretty.
From S2P Require Import Prelude BTree Types Storage F64 CrdtValue.

Inductive ValueType := TString | TNumber | TBoolean | TArray | TObject.

Record FieldDefinition := FieldDefinition_new {
  fd_name : string;
  fd_value_type : ValueType;
  fd_crdt_type : CrdtType;
  fd_primary_key : bool;
  fd_indexed : bool;
  fd_sync : bool;
}.

Record DocumentSchema := DocumentSchema_new {
  ds_doc_id : string;
  ds_fields : list FieldDefinition;
  ds_version : N;
}.

(** ** [SchemaRegistry] *)

Record SchemaRegistry := Registry {
  sr_schemas : gmap string DocumentSchema;
  sr_watermarks : gmap (string * string) N;
}.

Definition registry_new : SchemaRegistry := Registry ∅ ∅.

Definition define_local (doc_id : string) (schema : DocumentSchema) (r : SchemaRegistry) : SchemaRegistry :=
  Registry (<[doc_id := schema]> (sr_schemas r)) (sr_watermarks r).

Definition registry_get (doc_id : string) (r : SchemaRegistry) : option DocumentSchema := sr_schemas r !! doc_id.

Definition validate_version (doc_id : string) (proposed : N) (r : SchemaRegistry) : result unit VaultSyncError :=
  match sr_schemas r !! doc_id with
  | Some schema => if (ds_version schema =? proposed)%N then Ok tt
                   else Err (EVersionMismatch proposed (ds_version schema) doc_id)
  | None => Ok tt
  end.

Definition registry_watermark (doc_id record_id : string) (version : N) (r : SchemaRegistry) : SchemaRegistry :=
  let entry := default 0%N (sr_watermarks r !! (doc_id, record_id)) in
  Registry (sr_schemas r)
    (<[(doc_id, record_id) := if (entry <? version)%N then version else entry]> (sr_watermarks r)).

Definition max_seen_version (doc_id record_id : string) (r : SchemaRegistry) : N :=
  default 0%N (sr_watermarks r !! (doc_id, record_id)).

Definition validate_update (doc_id field : string) (_value : CrdtValue) (r : SchemaRegistry) :
    result unit VaultSyncError :=
  match sr_schemas r !! doc_id with
  | Some schema =>
      if existsb (λ f, String.eqb (fd_name f) field) (ds_fields schema) then Ok tt
      else Err (ESchema ("unknown field '" +:+ field +:+ "' in doc '" +:+ doc_id +:+ "'"))
  | None => Ok tt
  end.

Section persistence.
Context {S : Type} {HS : Storage S}.
(** [serde_json::to_vec] and [serde_json::from_slice] on schemas *)
Context (to_json : DocumentSchema → bytes) (from_json : bytes → option DocumentSchema).

Definition load_from_storage : SM (SchemaRegistry * S) VaultSyncError unit :=
  all ← zoom snd (λ s p, (p.1, s)) list_schemas;
  sm_modify (λ p, (foldl (λ r meta,
    match from_json (sm_schema_bytes meta) with
    | Some schema => define_local (sm_doc_id meta) schema r
    | None => r
    end) p.1 all, p.2)).

(** With [storage = Some(..)]: the schema is kept in memory even when the write
    fails. *)
Definition registry_define (doc_id : string) (schema : DocumentSchema) : SM (SchemaRegistry * S) VaultSyncError unit :=
  sm_modify (λ p, (define_local doc_id schema p.1, p.2));;
  zoom snd (λ s p, (p.1, s)) (write_schema (SchemaMeta_new doc_id (ds_version schema) (to_json schema))).
End persistence.

(** ** Migrations *)

Record MigrationDefinition := MigrationDefinition_new {
  md_version : string;
  md_checksum : string;
  md_apply : result unit VaultSyncError;
  md_rollback : option (result unit VaultSyncError);
}.

Section migrations.
(** [hex::encode(Sha256::digest(..))] *)
Context (hex_sha256 : string → string).

Definition compute_checksum (version : string) : string := hex_sha256 version.

Definition migration_definition_new (version : string) (apply : result unit VaultSyncError) : MigrationDefinition :=
  MigrationDefinition_new version (compute_checksum version) apply None.

Definition with_rollback (rollback : result unit VaultSyncError) (m : MigrationDefinition) : MigrationDefinition :=
  MigrationDefinition_new (md_version m) (md_checksum m) (md_apply m) (Some rollback).

Definition migration_verify_checksum (m : MigrationDefinition) : bool :=
  String.eqb (compute_checksum (md_version m)) (md_checksum m).
End migrations.

Definition rollback_result (m : MigrationDefinition) : result unit VaultSyncError :=
  default (Err (ESchema "no rollback defined")) (md_rollback m).

(** [a.version.cmp(&b.version)]: strings in lexicographic order. *)
Definition version_le (a b : MigrationDefinition) : Prop :=
  String.compare (md_version a) (md_version b) ≠ Gt.
#[export] Instance version_le_dec : RelDecision version_le.
Proof. intros a b. unfold version_le. apply _. Defined.

(** [MigrationRegistry::register]: push, then a stable sort. *)
Definition migration_register (migrations : list MigrationDefinition) (m : MigrationDefinition) :
    list MigrationDefinition :=
  stable_sort version_le (migrations ++ [m]).

Inductive migration_call := CalledApply (version : string) | CalledRollback (version : string).

Section runner.
Context {S : Type} {HS : Storage S}.

(** The runner with its storage and the calls made so far. *)
Record MigrationRunner := Runner {
  ru_storage : S;
  ru_migrations : list MigrationDefinition;
  ru_applied_cache : rwlock (option (list MigrationRecord));
  ru_calls : list migration_call;
}.

Abbreviation M := (SM MigrationRunner (fault VaultSyncError)).

Definition runner_new (s : S) (migrations : list MigrationDefinition) : MigrationRunner :=
  Runner s migrations (rw_new None) [].

Definition runner_storage {A} (m : SM S VaultSyncError A) : M A :=
  zoom ru_storage (λ s r, Runner s (ru_migrations r) (ru_applied_cache r) (ru_calls r)) (may_fault m).

Definition set_applied_cache (c : option (list MigrationRecord)) : M unit :=
  rw_lock Panicked ru_applied_cache;;
  sm_modify (λ r, Runner (ru_storage r) (ru_migrations r) (rw_set c (ru_applied_cache r)) (ru_calls r)).

Definition log_call (c : migration_call) : M unit :=
  sm_modify (λ r, Runner (ru_storage r) (ru_migrations r) (ru_applied_cache r) (ru_calls r ++ [c])).

Definition get_applied : M (list MigrationRecord) :=
  cache ← rw_lock Panicked ru_applied_cache;
  match cache with
  | Some cached => mret cached
  | None =>
      applied ← runner_storage read_migrations;
      set_applied_cache (Some applied);;
      mret applied
  end.

Definition already_applied (applied : list MigrationRecord) (m : MigrationDefinition) : bool :=
  existsb (λ r, String.eqb (mr_version r) (md_version m)) applied.

(** One migration that is not applied yet. *)
Definition run_migration (now : N) (m : MigrationDefinition) : M unit :=
  log_call (CalledApply (md_version m));;
  match md_apply m with
  | Err e =>
      (match md_rollback m with
       | Some _ => log_call (CalledRollback (md_version m))
       | None => mret tt
       end);;
      sm_fail (Fail e)
  | Ok _ =>
      runner_storage (write_migration (MigrationRecord_new (md_version m) now (md_checksum m)));;
      set_applied_cache None
  end.

Definition run_pending (now : nat → N) : M unit :=
  applied ← get_applied;
  migrations ← sm_gets ru_migrations;
  for_each (λ '(i, m), if already_applied applied m then mret tt else run_migration (now i) m)
    (imap pair migrations).

Fixpoint check_records (migrations : list MigrationDefinition) (applied : list MigrationRecord) :
    result unit VaultSyncError :=
  match applied with
  | [] => Ok tt
  | record :: applied' =>
      match find (λ m, String.eqb (md_version m) (mr_version record)) migrations with
      | Some registered =>
          if String.eqb (mr_checksum record) (md_checksum registered) then check_records migrations applied'
          else Err (ESchema ("Migration checksum mismatch for version " +:+ mr_version record +:+ ": expected " +:+
                 md_checksum registered +:+ ", found " +:+ mr_checksum record))
      | None => check_records migrations applied'
      end
  end.

Definition validate_applied : M unit :=
  applied ← get_applied;
  r ← sm_get;
  match check_records (ru_migrations r) applied with
  | Ok _ => mret tt
  | Err e => sm_fail (Fail e)
  end.

(** The first run of digits of a version. *)
Definition ascii_digit (c : Ascii.ascii) : option N :=
  let n := Ascii.N_of_ascii c in
  if (48 <=? n)%N && (n <=? 57)%N then Some (n - 48)%N else None.

Fixpoint take_digits (s : string) : list N :=
  match s with
  | String c s' => match ascii_digit c with Some d => d :: take_digits s' | None => [] end
  | EmptyString => []
  end.

Fixpoint skip_to_digits (s : string) : list N :=
  match s with
  | String c s' => match ascii_digit c with Some _ => take_digits s | None => skip_to_digits s' end
  | EmptyString => []
  end.

(** [digits.parse::<u64>().ok()]. *)
Definition parse_u64 (digits : list N) : option N :=
  match digits with
  | [] => None
  | _ => let n := foldl (λ acc d, (10 * acc + d)%N) 0%N digits in
         if (n <=? U64_MAX)%N then Some n else None
  end.

Definition current_version : M N :=
  r ← try_fault get_applied;
  mret match r with
       | Ok applied => foldl N.max 0%N (omap (λ m, parse_u64 (skip_to_digits (mr_version m))) applied)
       | Err _ => 0%N
       end.
End runner.
Arguments MigrationRunner : clear implicits.

(** ** What the runner promises *)

(** The migration table of a storage. *)
Class MigrationSpec (S : Type) {HS : Storage S} := {
  mig_view : S → list MigrationRecord;
  mig_healthy : S → Prop;
  read_migrations_ok s : mig_healthy s → read_migrations s = (Ok (mig_view s), s);
  write_migration_ok rec s : mig_healthy s →
    ∃ s', write_migration rec s = (Ok tt, s') ∧ mig_view s' = mig_view s ++ [rec] ∧ mig_healthy s';
}.

#[export, program] Instance in_memory_migration_spec : MigrationSpec InMemoryStorage.t := {|
  mig_view s := rw_val (InMemoryStorage.migrations s);
  mig_healthy s := rw_poisoned (InMemoryStorage.migrations s) = false;
|}.
Next Obligation.
  intros s Hp. simpl. unfold InMemoryStorage.read_migrations, InMemoryStorage.lock, rw_lock. by rewrite Hp.
Qed.
Next Obligation.
  intros rec s Hp. simpl. unfold InMemoryStorage.write_migration, InMemoryStorage.lock, rw_lock.
  sm_unfold. rewrite Hp. eexists. by split_and!.
Qed.

(** What a run is meant to do: the calls it makes, the records it adds and its
    outcome. *)
Fixpoint pending_run (now : nat → N) (ms : list (nat * MigrationDefinition)) :
    list migration_call * list MigrationRecord * result unit (fault VaultSyncError) :=
  match ms with
  | [] => ([], [], Ok tt)
  | (i, m) :: ms' =>
      match md_apply m with
      | Ok _ =>
          let '(calls, recs, out) := pending_run now ms' in
          (CalledApply (md_version m) :: calls,
           MigrationRecord_new (md_version m) (now i) (md_checksum m) :: recs, out)
      | Err e =>
          (CalledApply (md_version m) ::
             match md_rollback m with Some _ => [CalledRollback (md_version m)] | None => [] end,
           [], Err (Fail e))
      end
  end.

Section theory.
Context {S : Type} {HS : Storage S} {HM : MigrationSpec S}.
Implicit Types r : MigrationRunner S.

(** Locks intact, and the cache, if filled, agrees with the table. *)
Definition runner_ok r : Prop :=
  mig_healthy (ru_storage r) ∧ rw_poisoned (ru_applied_cache r) = false ∧
  (∀ l, rw_val (ru_applied_cache r) = Some l → l = mig_view (ru_storage r)).

Definition pending_of_runner r : list (nat * MigrationDefinition) :=
  filterb (λ p, negb (already_applied (mig_view (ru_storage r)) p.2)) (imap pair (ru_migrations r)).

Lemma get_applied_ok r : runner_ok r → ∃ r', get_applied r = (Ok (mig_view (ru_storage r)), r') ∧
  runner_ok r' ∧ mig_view (ru_storage r') = mig_view (ru_storage r) ∧ ru_migrations r' = ru_migrations r ∧
  ru_calls r' = ru_calls r.
Proof.
  intros (Hh & Hp & Hc). unfold get_applied, rw_lock. unfold mbind at 1, sm_bind at 1. rewrite Hp.
  destruct (rw_val (ru_applied_cache r)) as [l|] eqn:Hl.
  { exists r. rewrite (Hc l eq_refl). split; [done|]. split; [|done]. split_and!; [done|done|].
    rewrite Hl. exact Hc. }
  unfold runner_storage, may_fault, set_applied_cache, rw_lock. sm_unfold.
  rewrite (read_migrations_ok _ Hh). cbn. rewrite Hp. eexists. split; [reflexivity|]. unfold runner_ok. cbn.
  split_and!; try done. by intros ? [= <-].
Qed.

Lemma run_migration_ok now m r : mig_healthy (ru_storage r) → rw_poisoned (ru_applied_cache r) = false →
  md_apply m = Ok tt →
  ∃ r', run_migration now m r = (Ok tt, r') ∧ mig_healthy (ru_storage r') ∧
    rw_poisoned (ru_applied_cache r') = false ∧ rw_val (ru_applied_cache r') = None ∧
    mig_view (ru_storage r') = mig_view (ru_storage r) ++ [MigrationRecord_new (md_version m) now (md_checksum m)] ∧
    ru_migrations r' = ru_migrations r ∧ ru_calls r' = ru_calls r ++ [CalledApply (md_version m)].
Proof.
  intros Hh Hp Ha. destruct (write_migration_ok (MigrationRecord_new (md_version m) now (md_checksum m)) _ Hh)
    as (s' & Hw & Hv & Hh').
  eexists. unfold run_migration, log_call, runner_storage, may_fault, set_applied_cache, rw_lock. sm_unfold.
  rewrite Ha. cbn. rewrite Hw. cbn. rewrite Hp. split; [reflexivity|]. by split_and!.
Qed.

Lemma run_list_ok now applied ms r calls recs out : runner_ok r →
  pending_run now (filterb (λ p, negb (already_applied applied p.2)) ms) = (calls, recs, out) →
  ∃ r', for_each (λ '(i, m), if already_applied applied m then mret tt else run_migration (now i) m) ms r = (out, r') ∧
    runner_ok r' ∧ mig_view (ru_storage r') = mig_view (ru_storage r) ++ recs ∧
    ru_migrations r' = ru_migrations r ∧ ru_calls r' = ru_calls r ++ calls.
Proof.
  revert r calls recs out. induction ms as [|[i m] ms IH]; intros r calls recs out Hok; unfold filterb in *.
  { simpl. intros [= <- <- <-]. exists r. rewrite !app_nil_r. by split_and!. }
  simpl. destruct (already_applied applied m) eqn:Hap; simpl.
  { intros Hrun. destruct (IH r calls recs out Hok Hrun) as (r' & Hr' & H). exists r'. split; [exact Hr'|done]. }
  unfold mbind, sm_bind. destruct Hok as (Hh & Hp & Hc).
  destruct (md_apply m) as [[]|e] eqn:Ha.
  - destruct (pending_run now _) as [[calls' recs'] out'] eqn:Hrest. intros [= <- <- <-].
    destruct (run_migration_ok (now i) m r Hh Hp Ha) as (r1 & Hrun1 & Hh1 & Hp1 & Hn1 & Hv1 & Hm1 & Hc1).
    destruct (IH r1 calls' recs' out') as (r' & Hr' & Hok' & Hv' & Hm' & Hc').
    { split_and!; [done|done|]. rewrite Hn1. done. } { done. }
    exists r'. rewrite Hrun1. split; [exact Hr'|]. split_and!; [done| | |].
    + by rewrite Hv', Hv1, <-app_assoc.
    + congruence.
    + by rewrite Hc', Hc1, <-app_assoc.
  - intros [= <- <- <-]. unfold run_migration, log_call. sm_unfold. rewrite Ha.
    destruct (md_rollback m); cbn; eexists; (split; [reflexivity|]); cbn; rewrite ?app_nil_r, <-?app_assoc; by split_and!.
Qed.

Lemma pending_run_records now ms calls recs i m : pending_run now ms = (calls, recs, Ok tt) → (i, m) ∈ ms →
  ∃ rec, rec ∈ recs ∧ mr_version rec = md_version m.
Proof.
  revert calls recs. induction ms as [|[j x] ms IH]; intros calls recs; simpl; [by intros _ ?%elem_of_nil|].
  destruct (md_apply x); [|done]. destruct (pending_run now ms) as [[calls' recs'] out']. intros [= <- <- ->].
  intros [[= -> ->]|Hin]%elem_of_cons; [eexists; split; [by left|done]|].
  destruct (IH _ _ eq_refl Hin) as (rec & Hr & Hv). exists rec. split; [by right|done].
Qed.

Lemma already_applied_true l m : already_applied l m = true ↔ ∃ rec, rec ∈ l ∧ mr_version rec = md_version m.
Proof.
  unfold already_applied. rewrite existsb_exists. setoid_rewrite String.eqb_eq. setoid_rewrite <-list_elem_of_In. done.
Qed.

(** C24: Migrations run in order, once: [run_pending] calls exactly the migrations
    that have no record yet, in the order of the list, stopping at the first that
    fails after calling its rollback; it records exactly those that succeeded,
    and when all succeeded a second run calls none. *)
Theorem run_pending_exact now now' r calls recs out : runner_ok r →
  pending_run now (pending_of_runner r) = (calls, recs, out) →
  ∃ r', run_pending now r = (out, r') ∧ mig_view (ru_storage r') = mig_view (ru_storage r) ++ recs ∧
    ru_calls r' = ru_calls r ++ calls ∧
    (out = Ok tt → ∃ r'', run_pending now' r' = (Ok tt, r'') ∧ ru_calls r'' = ru_calls r').
Proof.
  intros Hok Hrun. unfold run_pending.
  destruct (get_applied_ok r Hok) as (r1 & Hget & Hok1 & Hv1 & Hm1 & Hc1).
  erewrite sm_bind_ok by exact Hget. unfold sm_gets at 1. unfold mbind at 1, sm_bind at 1. rewrite Hm1.
  destruct (run_list_ok now (mig_view (ru_storage r)) (imap pair (ru_migrations r)) r1 calls recs out Hok1 Hrun)
    as (r2 & Hrun2 & Hok2 & Hv2 & Hm2 & Hc2).
  exists r2. split; [exact Hrun2|]. split; [by rewrite Hv2, Hv1|]. split; [by rewrite Hc2, Hc1|].
  intros ->. destruct (get_applied_ok r2 Hok2) as (r3 & Hget3 & Hok3 & Hv3 & Hm3 & Hc3).
  erewrite sm_bind_ok by exact Hget3. unfold sm_gets at 1. unfold mbind at 1, sm_bind at 1.
  destruct (run_list_ok now' (mig_view (ru_storage r2)) (imap pair (ru_migrations r3)) r3 [] [] (Ok tt) Hok3)
    as (r4 & Hrun4 & _ & _ & _ & Hc4).
  { rewrite filterb_none; [done|]. intros [i m] Hin. apply negb_false_iff, already_applied_true. cbn [snd].
    rewrite Hm3, Hm2, Hm1 in Hin. rewrite Hv2, Hv1.
    destruct (already_applied (mig_view (ru_storage r)) m) eqn:Hap.
    - apply already_applied_true in Hap as (rec & Hrec & Hv). exists rec. split; [|done]. apply elem_of_app. by left.
    - destruct (pending_run_records now _ _ _ i m Hrun) as (rec & Hrec & Hv).
      { apply elem_of_filterb. cbn [snd]. by rewrite Hap. }
      exists rec. split; [|done]. apply elem_of_app. by right. }
  exists r4. split; [exact Hrun4|]. rewrite Hc4, app_nil_r. congruence.
Qed.
End theory.

(** Versions run in the order of their text, not of their numbers. *)
Lemma migration_order_is_lexicographic sha apply :
  let m v := migration_definition_new sha v apply in
  md_version <$> migration_register (migration_register [] (m "v9")) (m "v10") = ["v10"; "v9"].
Proof. reflexivity. Qed.

(** The checksum covers the version only: two migrations that differ in what
    they do have the same one. *)
Lemma migration_checksum_ignores_code sha v apply apply' :
  md_checksum (migration_definition_new sha v apply) = md_checksum (migration_definition_new sha v apply').
Proof. done. Qed.

(** ** Witnesses *)

Definition sample_migration (v : string) (apply : result unit VaultSyncError) : MigrationDefinition :=
  migration_definition_new (λ s, s) v apply.

Lemma run_pending_exact_witness :
  ∃ r', run_pending (λ _, 7%N) (runner_new InMemoryStorage.new
      [sample_migration "v1" (Ok tt); sample_migration "v2" (Err (ESchema "bad")); sample_migration "v3" (Ok tt)]) =
      (Err (Fail (ESchema "bad")), r') ∧
    ru_calls r' = [CalledApply "v1"; CalledApply "v2"].
Proof.
  destruct (run_pending_exact (λ _, 7%N) (λ _, 8%N) (runner_new InMemoryStorage.new
      [sample_migration "v1" (Ok tt); sample_migration "v2" (Err (ESchema "bad")); sample_migration "v3" (Ok tt)])
      [CalledApply "v1"; CalledApply "v2"] [MigrationRecord_new "v1" 7 "v1"] (Err (Fail (ESchema "bad"))))
    as (r' & H1 & _ & H2 & _).
  - split; [reflexivity|]. split; [reflexivity|]. intros l Hl. discriminate Hl.
  - reflexivity.
  - exists r'. split; [exact H1|exact H2].
Defined.
