(* ===== verification/Document.v ===== *)
(** * Documents

    [crdt/document.rs], [crdt/merge.rs], [crdt/compaction.rs] and
    [crdt/snapshot.rs].  The CRDT itself is the Yrs library, which is not part
    of the repository: it enters as the interface [Yrs] and the laws [YrsSpec]
    that its documentation states. *)
From S2P Require Import Prelude F64 Types CrdtValue.

(** ** The Yrs library *)

Abbreviation state_vector := (gmap N N).

(** Every clock of the first vector is covered by the second. *)
Definition sv_covered (upd doc : state_vector) : bool :=
  forallb (λ p : N * N, (p.2 <=? default 0%N (doc !! p.1))%N) (map_to_list upd).

Class Yrs := {
  ydoc : Type;
  yupdate : Type;
  (** [Doc::new], with the random client id it draws *)
  y_new : N → ydoc;
  (** [Update::decode_v1], with the text of its error *)
  y_decode : bytes → result yupdate string;
  (** [txn.apply_update] *)
  y_apply : yupdate → ydoc → ydoc;
  (** [txn.encode_state_as_update_v1(&StateVector::default())] *)
  y_encode_state : ydoc → bytes;
  (** [txn.encode_diff_v1(&sv)] *)
  y_encode_diff : state_vector → ydoc → bytes;
  (** [txn.state_vector] and [update.state_vector] *)
  y_state_vector : ydoc → state_vector;
  y_update_vector : yupdate → state_vector;
  (** whether the update carries deletions *)
  y_has_deletes : yupdate → bool;
  (** the map [root]: its entries, [insert] and [remove] *)
  y_root : ydoc → gmap string yout;
  y_insert : string → yany → ydoc → ydoc;
  y_remove : string → ydoc → ydoc;
}.

Definition y_inserts {Y : Yrs} (es : list (string * yany)) (d : ydoc) : ydoc :=
  foldl (λ d p, y_insert p.1 p.2 d) d es.

(** Documents with the same content; an update is a join, so updates commute
    and repeat without effect; a state encodes and decodes to itself. *)
Class YrsSpec (Y : Yrs) := {
  y_equiv : Equiv ydoc;
  y_equivalence : Equivalence (≡@{ydoc});
  y_apply_proper u : Proper ((≡) ==> (≡)) (y_apply u);
  y_root_proper : Proper ((≡) ==> (=)) y_root;
  y_state_vector_proper : Proper ((≡) ==> (=)) y_state_vector;
  y_apply_comm u v d : y_apply u (y_apply v d) ≡ y_apply v (y_apply u d);
  y_apply_idemp u d : y_apply u (y_apply u d) ≡ y_apply u d;
  y_encode_state_ok d : ∃ u, y_decode (y_encode_state d) = Ok u ∧
    (∀ cid, y_apply u (y_new cid) ≡ d);
  (** an update whose insertions are all present adds only its deletions *)
  y_apply_known u d : y_has_deletes u = false → sv_covered (y_update_vector u) (y_state_vector d) = true →
    y_apply u d ≡ d;
  y_new_root cid : y_root (y_new cid) = ∅;
  y_insert_root k a d : y_root (y_insert k a d) = <[k := OutAny a]> (y_root d);
  y_remove_root k d : y_root (y_remove k d) = delete k (y_root d);
  (** a difference from an older state of the same document brings the old
      state to the new one *)
  y_insert_diff k a d d' : d' ≡ d → ∃ u,
    y_decode (y_encode_diff (y_state_vector d) (y_insert k a d)) = Ok u ∧ y_apply u d' ≡ y_insert k a d;
  y_remove_diff k d d' : d' ≡ d → ∃ u,
    y_decode (y_encode_diff (y_state_vector d) (y_remove k d)) = Ok u ∧ y_apply u d' ≡ y_remove k d;
  (** the keys of the map are independent: a document made of insertions changes
      no key but those inserted where it is merged *)
  y_merge_other_keys cid es k d u : k ∉ es.*1 → y_decode (y_encode_state (y_inserts es (y_new cid))) = Ok u →
    y_root (y_apply u d) !! k = y_root d !! k;
}.
#[export] Existing Instance y_equiv.
#[export] Existing Instance y_equivalence.
#[export] Existing Instance y_apply_proper.
#[export] Existing Instance y_root_proper.
#[export] Existing Instance y_state_vector_proper.

(** ** [CRDTDocument] *)

Section document.
Context {Y : Yrs}.

Record CRDTDocument := Doc {
  cd_doc_id : string;
  cd_record_id : string;
  cd_schema_version : N;
  cd_inner : ydoc;
}.

Definition MAX_SNAPSHOT_SIZE : N := 104857600.

Definition document_new (cid : N) (doc_id record_id : string) (schema_version : N) : CRDTDocument :=
  Doc doc_id record_id schema_version
    (y_insert "schema_version" (AnyNumber (f64_of_N schema_version))
      (y_insert "record_id" (AnyString record_id)
        (y_insert "doc_id" (AnyString doc_id) (y_new cid)))).

(** The fields [from_snapshot] reads out of the root map. *)
Definition root_string (k : string) (d : ydoc) : string := default "" (y_root d !! k ≫= extract_string).
Definition root_schema_version (d : ydoc) : N :=
  default 0%N (y_root d !! "schema_version" ≫= λ v,
    match v with OutAny (AnyNumber n) => Some (u64_of_f64 n) | _ => None end).

Definition from_snapshot (cid : N) (bs : bytes) : result CRDTDocument VaultSyncError :=
  if (MAX_SNAPSHOT_SIZE <? N.of_nat (length bs))%N then
    Err (EDocumentTooLarge (N.of_nat (length bs)) MAX_SNAPSHOT_SIZE)
  else
    match y_decode bs with
    | Err e => Err (ECrdt ("failed to decode snapshot: " +:+ e))
    | Ok update =>
        let d := y_apply update (y_new cid) in
        Ok (Doc (root_string "doc_id" d) (root_string "record_id" d) (root_schema_version d) d)
    end.

Definition to_snapshot (doc : CRDTDocument) : bytes := y_encode_state (cd_inner doc).

Definition set_inner (d : ydoc) (doc : CRDTDocument) : CRDTDocument :=
  Doc (cd_doc_id doc) (cd_record_id doc) (cd_schema_version doc) d.

Definition apply_update (update : bytes) (doc : CRDTDocument) : result CRDTDocument VaultSyncError :=
  if (MAX_SNAPSHOT_SIZE <? N.of_nat (length update))%N then
    Err (EDocumentTooLarge (N.of_nat (length update)) MAX_SNAPSHOT_SIZE)
  else
    match y_decode update with
    | Err e => Err (ECrdt ("failed to decode update: " +:+ e))
    | Ok decoded => Ok (set_inner (y_apply decoded (cd_inner doc)) doc)
    end.

Definition get_field (field : string) (doc : CRDTDocument) : option CrdtValue :=
  out_to_crdt_value <$> y_root (cd_inner doc) !! field.

(** The delta and the changed document. *)
Definition set_field (field : string) (value : CrdtValue) (doc : CRDTDocument) : bytes * CRDTDocument :=
  let sv := y_state_vector (cd_inner doc) in
  let d := y_insert field (crdt_value_to_any value) (cd_inner doc) in
  (y_encode_diff sv d, set_inner d doc).

Definition capture_incremental_update (f : CRDTDocument → CRDTDocument) (doc : CRDTDocument) :
    bytes * CRDTDocument :=
  let doc := f doc in
  (y_encode_state (cd_inner doc), doc).

Definition delete_field (field : string) (doc : CRDTDocument) : bytes * CRDTDocument :=
  let sv := y_state_vector (cd_inner doc) in
  let d := y_remove field (cd_inner doc) in
  (y_encode_diff sv d, set_inner d doc).

Definition encode_update (doc : CRDTDocument) : bytes := y_encode_diff ∅ (cd_inner doc).

Definition is_consistent (doc : CRDTDocument) : bool :=
  bool_decide (is_Some (y_root (cd_inner doc) !! "doc_id")) &&
  bool_decide (is_Some (y_root (cd_inner doc) !! "record_id")).

Definition to_map (doc : CRDTDocument) : gmap string CrdtValue :=
  out_to_crdt_value <$> y_root (cd_inner doc).

(** ** [merge.rs] *)

Fixpoint merge_batch (updates : list bytes) (doc : CRDTDocument) : result unit VaultSyncError * CRDTDocument :=
  match updates with
  | [] => (Ok tt, doc)
  | update :: updates' =>
      match y_decode update with
      | Err e => (Err (ECrdt ("failed to decode batch update: " +:+ e)), doc)
      | Ok decoded => merge_batch updates' (set_inner (y_apply decoded (cd_inner doc)) doc)
      end
  end.

(** ** [crdt/compaction.rs] *)

Record CompactionConfig := CompactionConfig_new {
  cc_tombstone_ttl : N;
  cc_snapshot_interval : nat;
  cc_max_oplog_age : N;
}.

Definition compaction_config_default : CompactionConfig :=
  CompactionConfig_new (from_secs 86400) 1000 (from_secs 604800).

(** A field whose value marks it as deleted long enough ago. *)
Definition expired_tombstone (now ttl_ms : N) (v : CrdtValue) : bool :=
  match v with
  | VMap inner =>
      match assoc_get "_deleted" inner, assoc_get "_deleted_at" inner with
      | Some (VBoolean true), Some (VNumber deleted_at) =>
          (wrapping_add64 (u64_of_f64 deleted_at) ttl_ms <=? now)%N
      | _, _ => false
      end
  | _ => false
  end.

Definition gc_tombstones (now : N) (config : CompactionConfig) (doc : CRDTDocument) : bytes * CRDTDocument :=
  let ttl_ms := (cc_tombstone_ttl config / 1000000)%N in
  let keys_to_delete := map fst (filterb (λ p : string * CrdtValue, expired_tombstone now ttl_ms p.2)
    (map_to_list (to_map doc))) in
  foldl (λ '(combined, doc) key,
    let '(update, doc) := delete_field key doc in (combined ++ update, doc)) ([], doc) keys_to_delete.

Definition should_compact (oplog_len : nat) (config : CompactionConfig) : bool :=
  cc_snapshot_interval config <=? oplog_len.
End document.
Arguments CRDTDocument : clear implicits.
Arguments CRDTDocument {Y}.

(** ** Snapshots of a document

    [bincode] and [crc32fast] are libraries: the encoding of a snapshot and the
    checksum are parameters. *)
Class SnapshotCodec := {
  bincode_serialize : Snapshot → result bytes string;
  bincode_deserialize : bytes → result Snapshot string;
  crc32 : bytes → N;
}.

Class SnapshotCodecSpec (K : SnapshotCodec) := {
  bincode_round_trip s : ∃ bs, bincode_serialize s = Ok bs ∧ bincode_deserialize bs = Ok s;
}.

Section snapshot.
Context {Y : Yrs} {K : SnapshotCodec}.

Definition snapshot_from_document (now : N) (doc : CRDTDocument) (sequence : N) : Snapshot :=
  let bs := to_snapshot doc in
  Snapshot_new (cd_doc_id doc) (cd_record_id doc) (cd_schema_version doc) sequence now bs (crc32 bs).

Definition snapshot_encode (s : Snapshot) : result bytes VaultSyncError :=
  match bincode_serialize s with
  | Ok bs => Ok bs
  | Err e => Err (ECrdt ("failed to serialize snapshot: " +:+ e))
  end.

Definition snapshot_decode (bs : bytes) : result Snapshot VaultSyncError :=
  match bincode_deserialize bs with
  | Ok s => Ok s
  | Err e => Err (ECrdt ("failed to deserialize snapshot: " +:+ e))
  end.

Definition verify_checksum (s : Snapshot) : bool := (crc32 (sn_bytes s) =? sn_checksum s)%N.

Definition create_snapshot (now : N) (doc : CRDTDocument) : bytes :=
  match snapshot_encode (snapshot_from_document now doc 0) with
  | Ok bs => bs
  | Err _ => []
  end.

Definition create_snapshot_with_meta (now : N) (doc : CRDTDocument) (sequence : N) : result bytes VaultSyncError :=
  snapshot_encode (snapshot_from_document now doc sequence).

Definition load_and_verify_snapshot (cid : N) (bs : bytes) : result (CRDTDocument * Snapshot) VaultSyncError :=
  match snapshot_decode bs with
  | Err e => Err e
  | Ok snap =>
      if negb (verify_checksum snap) then Err (ECrdt "snapshot checksum verification failed")
      else
        match from_snapshot cid (sn_bytes snap) with
        | Err e => Err e
        | Ok doc => Ok (doc, snap)
        end
  end.

Definition load_snapshot (cid : N) (bs : bytes) : result CRDTDocument VaultSyncError :=
  match snapshot_decode bs with
  | Err e => Err e
  | Ok snap =>
      if negb (verify_checksum snap) then Err (ECrdt "snapshot checksum verification failed")
      else from_snapshot cid (sn_bytes snap)
  end.

Definition snapshot_diff (from to : CRDTDocument) : result bytes VaultSyncError :=
  Ok (y_encode_diff (y_state_vector (cd_inner from)) (cd_inner to)).

(** [compact]: the encoded snapshot and the new length of the oplog. *)
Definition crdt_compact (now : N) (doc : CRDTDocument) (oplog_len : nat) (_config : CompactionConfig) :
    result bytes VaultSyncError * nat :=
  match snapshot_encode (snapshot_from_document now doc 0) with
  | Ok bs => (Ok bs, 0)
  | Err e => (Err e, oplog_len)
  end.
End snapshot.

(** ** Theory *)

Section theory.
Context {Y : Yrs} {YS : YrsSpec Y}.
Implicit Types d : ydoc.

(** A snapshot that fits the limit loads back to the same document. *)
Lemma from_snapshot_encode cid d : (N.of_nat (length (y_encode_state d)) ≤ MAX_SNAPSHOT_SIZE)%N →
  ∃ d', from_snapshot cid (y_encode_state d) =
      Ok (Doc (root_string "doc_id" d) (root_string "record_id" d) (root_schema_version d) d') ∧ d' ≡ d.
Proof.
  intros Hlen. unfold from_snapshot. destruct (N.ltb_spec MAX_SNAPSHOT_SIZE
    (N.of_nat (length (y_encode_state d)))); [lia|].
  destruct (y_encode_state_ok d) as (u & -> & Hu). specialize (Hu cid).
  exists (y_apply u (y_new cid)). split; [|done]. unfold root_string, root_schema_version. by rewrite (y_root_proper _ _ Hu).
Qed.

Lemma apply_update_ok update u doc : y_decode update = Ok u →
  (N.of_nat (length update) ≤ MAX_SNAPSHOT_SIZE)%N →
  apply_update update doc = Ok (set_inner (y_apply u (cd_inner doc)) doc).
Proof.
  intros Hu Hlen. unfold apply_update. rewrite Hu.
  destruct (N.ltb_spec MAX_SNAPSHOT_SIZE (N.of_nat (length update))); [lia|done].
Qed.

Lemma y_encode_state_inj d d' : y_encode_state d = y_encode_state d' → d ≡ d'.
Proof.
  intros Heq. destruct (y_encode_state_ok d) as (u & Hu & Hd), (y_encode_state_ok d') as (u' & Hu' & Hd').
  rewrite Heq, Hu' in Hu. injection Hu as <-. by rewrite <-(Hd 0%N), <-(Hd' 0%N).
Qed.

(** Updates applied one after the other. *)
Definition y_apply_all (us : list yupdate) d : ydoc := foldl (λ d u, y_apply u d) d us.

#[export] Instance y_apply_all_proper us : Proper ((≡) ==> (≡)) (y_apply_all us).
Proof.
  induction us as [|u us IH]; intros d d' Hd; simpl; [done|]. apply IH. by rewrite Hd.
Qed.

Lemma y_apply_all_comm u us d : y_apply_all us (y_apply u d) ≡ y_apply u (y_apply_all us d).
Proof.
  revert d. induction us as [|v us IH]; intros d; simpl; [done|].
  rewrite <-IH. apply y_apply_all_proper. by rewrite y_apply_comm.
Qed.

Lemma y_apply_all_absorb u us d : u ∈ us → y_apply u (y_apply_all us d) ≡ y_apply_all us d.
Proof.
  revert d. induction us as [|v us IH]; intros d Hin; [by apply elem_of_nil in Hin|]. simpl.
  apply elem_of_cons in Hin as [->|Hin]; [|by apply IH].
  rewrite y_apply_all_comm. by rewrite y_apply_idemp.
Qed.

Lemma y_apply_all_subset us vs d : us ⊆ vs → y_apply_all us (y_apply_all vs d) ≡ y_apply_all vs d.
Proof.
  induction us as [|u us IH]; intros Hsub; simpl; [done|].
  rewrite (y_apply_all_proper us _ _ (y_apply_all_absorb u vs d ltac:(set_solver))). apply IH. set_solver.
Qed.

Lemma y_apply_all_swap us vs d : y_apply_all us (y_apply_all vs d) ≡ y_apply_all vs (y_apply_all us d).
Proof.
  revert d. induction us as [|u us IH]; intros d; simpl; [done|].
  rewrite <-IH. apply y_apply_all_proper. by rewrite y_apply_all_comm.
Qed.

(** The order and the repetition of updates do not matter. *)
Lemma y_apply_all_same_set us vs d : us ⊆ vs → vs ⊆ us → y_apply_all us d ≡ y_apply_all vs d.
Proof.
  intros H1 H2. rewrite <-(y_apply_all_subset vs us d H2), y_apply_all_swap. by apply y_apply_all_subset.
Qed.

Lemma merge_batch_ok updates us doc : Forall2 (λ b u, y_decode b = Ok u) updates us →
  merge_batch updates doc = (Ok tt, set_inner (y_apply_all us (cd_inner doc)) doc).
Proof.
  intros Hall. revert doc. induction Hall as [|b u updates us Hb _ IH]; intros doc; simpl; [by destruct doc|].
  rewrite Hb, IH. done.
Qed.
End theory.
