(* ===== verification/OpSet.v ===== *)
(** * A small CRDT that satisfies the laws assumed of Yrs

    A document is a set of write operations and a set of deleted ones; an
    update is the same, and applying it is union.  The instance shows that the
    laws of [YrsSpec] can hold together, and the witnesses evaluate on it. *)
From Stdlib Require Import SpecFloat.
From S2P Require Import Prelude F64 Types CrdtValue Document.

(** ** Values are countable *)

#[export] Instance spec_float_eq_dec : EqDecision spec_float.
Proof. solve_decision. Defined.

Definition float_code (x : f64) : bool + bool + unit + (bool * positive * Z) :=
  match x with
  | S754_zero s => inl (inl (inl s))
  | S754_infinity s => inl (inl (inr s))
  | S754_nan => inl (inr tt)
  | S754_finite s m e => inr (s, m, e)
  end.
Definition float_decode (c : bool + bool + unit + (bool * positive * Z)) : f64 :=
  match c with
  | inl (inl (inl s)) => S754_zero s
  | inl (inl (inr s)) => S754_infinity s
  | inl (inr tt) => S754_nan
  | inr (s, m, e) => S754_finite s m e
  end.
#[export] Instance spec_float_countable : Countable spec_float.
Proof. apply (inj_countable' float_code float_decode). by intros []. Defined.

Abbreviation leaf := (bool + f64 + Z + string + bytes)%type.

Fixpoint any_tree (a : yany) : gen_tree leaf :=
  match a with
  | AnyNull => GenNode 0 []
  | AnyUndefined => GenNode 1 []
  | AnyBool b => GenLeaf (inl (inl (inl (inl b))))
  | AnyNumber n => GenLeaf (inl (inl (inl (inr n))))
  | AnyBigInt z => GenLeaf (inl (inl (inr z)))
  | AnyString s => GenLeaf (inl (inr s))
  | AnyBuffer b => GenLeaf (inr b)
  | AnyArray l => GenNode 2 (map any_tree l)
  | AnyMap m => GenNode 3 (map (λ kv, GenNode 4 [GenLeaf (inl (inr kv.1)); any_tree kv.2]) m)
  end.

Fixpoint tree_any (t : gen_tree leaf) : yany :=
  match t with
  | GenNode 0 _ => AnyNull
  | GenNode 1 _ => AnyUndefined
  | GenLeaf (inl (inl (inl (inl b)))) => AnyBool b
  | GenLeaf (inl (inl (inl (inr n)))) => AnyNumber n
  | GenLeaf (inl (inl (inr z))) => AnyBigInt z
  | GenLeaf (inl (inr s)) => AnyString s
  | GenLeaf (inr b) => AnyBuffer b
  | GenNode 2 l => AnyArray (map tree_any l)
  | GenNode 3 l => AnyMap (map (λ t,
      match t with
      | GenNode 4 [GenLeaf (inl (inr k)); t'] => (k, tree_any t')
      | _ => ("", AnyNull)
      end) l)
  | GenNode _ _ => AnyNull
  end.

Fixpoint tree_any_tree (a : yany) : tree_any (any_tree a) = a.
Proof.
  destruct a as [| | | | | | |l|m]; simpl; try done; f_equal.
  - induction l as [|x l IH]; simpl; [done|]. f_equal; [apply tree_any_tree|exact IH].
  - induction m as [|[k x] m IH]; simpl; [done|]. f_equal; [f_equal; apply tree_any_tree|exact IH].
Qed.

#[export] Instance yany_eq_dec : EqDecision yany.
Proof.
  intros a b. refine (cast_if (decide (any_tree a = any_tree b)));
    [by rewrite <-(tree_any_tree a), e, tree_any_tree|by intros ->].
Defined.
#[export] Instance yany_countable : Countable yany := inj_countable' any_tree tree_any tree_any_tree.

(** ** Operations *)

(** Stamp, client, key and value of a write. *)
Abbreviation op := (N * N * string * yany)%type.
Definition op_stamp (x : op) : N := x.1.1.1.
Definition op_key (x : op) : string := x.1.2.
Definition op_val (x : op) : yany := x.2.
Definition op_code (x : op) : N := Npos (encode x).

Record opset := OpSet { os_client : N; os_ops : gset op; os_dels : gset op }.

(** Later stamps win, then the code decides. *)
Definition op_leb (x y : op) : bool :=
  (op_stamp x <? op_stamp y)%N || ((op_stamp x =? op_stamp y)%N && (op_code x <=? op_code y)%N).

Definition max_op (l : list op) : option op :=
  foldr (λ x acc, match acc with
                  | None => Some x
                  | Some y => if op_leb y x then Some x else Some y
                  end) None l.

Definition winner (k : string) (d : opset) : option op :=
  max_op (elements (filter (λ x, op_key x = k) (os_ops d))).

Definition live (k : string) (d : opset) : option yout :=
  x ← winner k d; if decide (x ∈ os_dels d) then None else Some (OutAny (op_val x)).

Definition opset_root (d : opset) : gmap string yout :=
  map_imap (λ k _, live k d) (gset_to_gmap tt (set_map op_key (os_ops d) : gset string)).

Definition next_stamp (d : opset) : N :=
  set_fold (λ x n, N.max (op_stamp x + 1) n) 0%N (os_ops d ∪ os_dels d).

Definition opset_vector (ops : gset op) : state_vector := gset_to_gmap 1%N (set_map op_code ops : gset N).

Definition opset_insert (k : string) (a : yany) (d : opset) : opset :=
  OpSet (os_client d) ({[(next_stamp d, os_client d, k, a)]} ∪ os_ops d) (os_dels d).

Definition opset_remove (k : string) (d : opset) : opset :=
  match winner k d with
  | Some x => OpSet (os_client d) (os_ops d) ({[x]} ∪ os_dels d)
  | None => d
  end.

(** Sets of operations as bytes: the bits of their code. *)
Fixpoint pos_bits (p : positive) : bytes :=
  match p with
  | xH => []
  | xO p => 0%N :: pos_bits p
  | xI p => 1%N :: pos_bits p
  end.
Fixpoint bits_pos (l : bytes) : positive :=
  match l with
  | [] => xH
  | 0%N :: l => xO (bits_pos l)
  | _ :: l => xI (bits_pos l)
  end.
Lemma bits_pos_bits p : bits_pos (pos_bits p) = p.
Proof. induction p; simpl; congruence. Qed.

Definition ops_encode (u : gset op * gset op) : bytes := pos_bits (encode u).
Definition ops_decode (b : bytes) : result (gset op * gset op) string :=
  match decode (bits_pos b) with
  | Some u => Ok u
  | None => Err "unexpected end of buffer"
  end.

Lemma ops_decode_encode u : ops_decode (ops_encode u) = Ok u.
Proof. unfold ops_decode, ops_encode. by rewrite bits_pos_bits, decode_encode. Qed.

#[export] Instance opset_yrs : Yrs := {|
  ydoc := opset;
  yupdate := gset op * gset op;
  y_new cid := OpSet cid ∅ ∅;
  y_decode := ops_decode;
  y_apply u d := OpSet (os_client d) (u.1 ∪ os_ops d) (u.2 ∪ os_dels d);
  y_encode_state d := ops_encode (os_ops d, os_dels d);
  y_encode_diff sv d := ops_encode (filter (λ x, sv !! op_code x = None) (os_ops d), os_dels d);
  y_state_vector d := opset_vector (os_ops d);
  y_update_vector u := opset_vector u.1;
  y_has_deletes u := bool_decide (u.2 ≠ ∅);
  y_root := opset_root;
  y_insert := opset_insert;
  y_remove := opset_remove;
|}.

(** ** The laws *)

Lemma op_code_inj x y : op_code x = op_code y → x = y.
Proof. intros [= H]. by apply (inj encode). Qed.

Lemma op_leb_refl x : op_leb x x = true.
Proof. unfold op_leb. rewrite N.eqb_refl, N.leb_refl. by rewrite orb_true_r. Qed.

Lemma op_leb_total x y : op_leb x y = false → op_leb y x = true.
Proof.
  unfold op_leb. destruct (N.ltb_spec (op_stamp x) (op_stamp y)), (N.eqb_spec (op_stamp x) (op_stamp y)),
    (N.leb_spec (op_code x) (op_code y)), (N.ltb_spec (op_stamp y) (op_stamp x)),
    (N.eqb_spec (op_stamp y) (op_stamp x)), (N.leb_spec (op_code y) (op_code x)); simpl; done || lia.
Qed.

Lemma op_leb_trans x y z : op_leb x y = true → op_leb y z = true → op_leb x z = true.
Proof.
  unfold op_leb. destruct (N.ltb_spec (op_stamp x) (op_stamp y)), (N.eqb_spec (op_stamp x) (op_stamp y)),
    (N.leb_spec (op_code x) (op_code y)), (N.ltb_spec (op_stamp y) (op_stamp z)),
    (N.eqb_spec (op_stamp y) (op_stamp z)), (N.leb_spec (op_code y) (op_code z)),
    (N.ltb_spec (op_stamp x) (op_stamp z)),
    (N.eqb_spec (op_stamp x) (op_stamp z)), (N.leb_spec (op_code x) (op_code z)); simpl; done || lia.
Qed.

Lemma op_leb_antisym x y : op_leb x y = true → op_leb y x = true → x = y.
Proof.
  intros H1 H2. apply op_code_inj. revert H1 H2. unfold op_leb.
  destruct (N.ltb_spec (op_stamp x) (op_stamp y)), (N.eqb_spec (op_stamp x) (op_stamp y)),
    (N.leb_spec (op_code x) (op_code y)), (N.ltb_spec (op_stamp y) (op_stamp x)),
    (N.eqb_spec (op_stamp y) (op_stamp x)), (N.leb_spec (op_code y) (op_code x)); simpl; done || lia.
Qed.

Lemma max_op_Some l x : max_op l = Some x → x ∈ l ∧ ∀ y, y ∈ l → op_leb y x = true.
Proof.
  revert x. induction l as [|z l IH]; intros x; simpl; [done|].
  destruct (max_op l) as [m|] eqn:Hm.
  - destruct (IH m eq_refl) as [Hin Hmax]. destruct (op_leb m z) eqn:Hle; intros [= <-].
    + split; [left|]. intros y [->|Hy]%elem_of_cons; [apply op_leb_refl|].
      eapply op_leb_trans; [by apply Hmax|done].
    + split; [by right|]. intros y [->|Hy]%elem_of_cons; [by apply op_leb_total|by apply Hmax].
  - intros [= <-]. split; [left|]. intros y [->|Hy]%elem_of_cons; [apply op_leb_refl|].
    destruct l as [|z' l]; [by apply elem_of_nil in Hy|]. simpl in Hm. destruct (max_op l); [|done].
    by destruct (op_leb _ _).
Qed.

Lemma max_op_None l : max_op l = None → l = [].
Proof.
  destruct l as [|z l]; [done|]. simpl. destruct (max_op l); [|done]. by destruct (op_leb _ _).
Qed.

Lemma winner_Some k d x : winner k d = Some x ↔
  x ∈ os_ops d ∧ op_key x = k ∧ ∀ y, y ∈ os_ops d → op_key y = k → op_leb y x = true.
Proof.
  unfold winner. split.
  - intros [Hin Hmax]%max_op_Some. apply elem_of_elements, elem_of_filter in Hin as [Hk Hin].
    split_and!; [done|done|]. intros y Hy Hky. apply Hmax. apply elem_of_elements, elem_of_filter. done.
  - intros (Hin & Hk & Hmax).
    assert (Hx : x ∈ elements (filter (λ x, op_key x = k) (os_ops d))).
    { by apply elem_of_elements, elem_of_filter. }
    destruct (max_op _) as [m|] eqn:Hm.
    + apply max_op_Some in Hm as [Hmin Hmm]. f_equal. apply op_leb_antisym; [|by apply Hmm].
      apply elem_of_elements, elem_of_filter in Hmin as [Hmk Hmin]. by apply Hmax.
    + apply max_op_None in Hm. rewrite Hm in Hx. by apply elem_of_nil in Hx.
Qed.

Lemma opset_root_lookup d k : opset_root d !! k = live k d.
Proof.
  unfold opset_root. rewrite map_lookup_imap, lookup_gset_to_gmap.
  destruct (decide (k ∈ (set_map op_key (os_ops d) : gset string))) as [Hk|Hk].
  - by rewrite option_guard_True.
  - rewrite option_guard_False by done. simpl. unfold live.
    destruct (winner k d) as [x|] eqn:Hw; [|done]. apply winner_Some in Hw as (Hin & Hkx & _).
    exfalso. apply Hk. apply elem_of_map. eauto.
Qed.

Lemma next_stamp_above d x : x ∈ os_ops d ∪ os_dels d → (op_stamp x < next_stamp d)%N.
Proof.
  unfold next_stamp. generalize (os_ops d ∪ os_dels d). intros s.
  apply (set_fold_ind_L (λ n s, x ∈ s → (op_stamp x < n)%N)); [set_solver|].
  intros y s' n Hy IH [->%elem_of_singleton|Hx]%elem_of_union; [lia|]. specialize (IH Hx). lia.
Qed.

Lemma opset_insert_root k a d : opset_root (opset_insert k a d) = <[k := OutAny a]> (opset_root d).
Proof.
  apply map_eq. intros j. rewrite opset_root_lookup. set (x := (next_stamp d, os_client d, k, a) : op).
  assert (Hnew : ∀ y, y ∈ os_ops d ∪ os_dels d → op_leb y x = true).
  { intros y Hy. unfold op_leb. apply next_stamp_above in Hy.
    change (op_stamp x) with (next_stamp d). by rewrite (proj2 (N.ltb_lt _ _) Hy). }
  destruct (decide (j = k)) as [->|Hne].
  - rewrite lookup_insert_eq. unfold live. rewrite (proj2 (winner_Some k _ x)).
    + simpl. rewrite decide_False; [done|]. intros Hd.
      pose proof (next_stamp_above d x ltac:(set_solver)) as Hlt. simpl in Hlt.
      unfold op_stamp, x in Hlt. simpl in Hlt. lia.
    + split_and!; [simpl; set_solver|done|]. simpl. intros y [->%elem_of_singleton|Hy]%elem_of_union _.
      * apply op_leb_refl.
      * apply Hnew. set_solver.
  - rewrite lookup_insert_ne, opset_root_lookup by done. unfold live.
    assert (Hw : winner j (opset_insert k a d) = winner j d); [|by rewrite Hw].
    unfold winner. f_equal. f_equal. simpl. apply leibniz_equiv. intros y.
    rewrite !elem_of_filter, elem_of_union, elem_of_singleton.
    split; [intros [Hj [->|Hy]]; [done|done]|naive_solver].
Qed.

Lemma opset_remove_root k d : opset_root (opset_remove k d) = delete k (opset_root d).
Proof.
  apply map_eq. intros j. rewrite opset_root_lookup. unfold opset_remove.
  destruct (winner k d) as [x|] eqn:Hw.
  - assert (Hext : ∀ i, winner i (OpSet (os_client d) (os_ops d) ({[x]} ∪ os_dels d)) = winner i d) by done.
    destruct (decide (j = k)) as [->|Hne].
    + rewrite lookup_delete_eq. unfold live. rewrite Hext, Hw. simpl.
      by rewrite decide_True by set_solver.
    + rewrite lookup_delete_ne, opset_root_lookup by done. unfold live.
      rewrite Hext. destruct (winner j d) as [y|] eqn:Hy; [|done]. simpl.
      assert (y ≠ x).
      { intros ->. apply winner_Some in Hw as (_ & ? & _), Hy as (_ & ? & _). congruence. }
      destruct (decide (y ∈ os_dels d)) as [Hd|Hd].
      * by rewrite decide_True by set_solver.
      * by rewrite decide_False by set_solver.
  - destruct (decide (j = k)) as [->|Hne].
    + rewrite lookup_delete_eq. unfold live. by rewrite Hw.
    + by rewrite lookup_delete_ne, opset_root_lookup by done.
Qed.

Lemma opset_vector_lookup ops x : opset_vector ops !! op_code x = None ↔ x ∉ ops.
Proof.
  unfold opset_vector. rewrite lookup_gset_to_gmap_None, elem_of_map. split.
  - intros Hn Hx. apply Hn. eauto.
  - intros Hn (y & Hc%op_code_inj & Hy). by subst.
Qed.

Lemma sv_covered_ops us ops : sv_covered (opset_vector us) (opset_vector ops) = true → us ⊆ ops.
Proof.
  unfold sv_covered. intros Hall x Hx. rewrite forallb_forall in Hall.
  destruct (decide (x ∈ ops)) as [?|Hn]; [done|exfalso].
  specialize (Hall (op_code x, 1%N)). apply opset_vector_lookup in Hn. simpl in Hall. rewrite Hn in Hall.
  assert (In (op_code x, 1%N) (map_to_list (opset_vector us))); [|by discriminate Hall].
  apply list_elem_of_In, elem_of_map_to_list. unfold opset_vector.
  apply lookup_gset_to_gmap_Some. split; [|done]. apply elem_of_map. eauto.
Qed.

(** Insertions add operations on their keys only. *)
Lemma inserts_ops es (d : opset) :
  (∀ x, x ∈ os_ops (y_inserts es d) → x ∈ os_ops d ∨ op_key x ∈ es.*1) ∧ os_dels (y_inserts es d) = os_dels d.
Proof.
  revert d. induction es as [|[k a] es IH]; intros d; [split; [by left|done]|].
  destruct (IH (opset_insert k a d)) as [Hops Hdels]. split; [|done].
  intros x [Hx|Hx]%Hops; [|right; by right]. simpl in Hx. apply elem_of_union in Hx as [Hx|Hx]; [|by left].
  apply elem_of_singleton in Hx as ->. right. left.
Qed.

#[export, program] Instance opset_yrs_spec : YrsSpec opset_yrs := {|
  y_equiv d d' := os_ops d = os_ops d' ∧ os_dels d = os_dels d';
|}.
Next Obligation.
  split; [done|by intros d d' [? ?]|]. intros d1 d2 d3 [? ?] [? ?]. split; congruence.
Qed.
Next Obligation. intros u d d' [H1 H2]. by split; simpl; rewrite ?H1, ?H2. Qed.
Next Obligation.
  intros d d' [H1 H2]. apply map_eq. intros k. simpl. rewrite !opset_root_lookup. unfold live, winner.
  by rewrite H1, H2.
Qed.
Next Obligation. intros d d' [H1 _]. simpl. by rewrite H1. Qed.
Next Obligation. intros u v d. split; simpl; set_solver. Qed.
Next Obligation. intros u d. split; simpl; set_solver. Qed.
Next Obligation.
  intros d. eexists. split; [apply ops_decode_encode|]. intros cid. split; simpl; set_solver.
Qed.
Next Obligation.
  intros u d Hdel Hsv. simpl in *. apply bool_decide_eq_false in Hdel. apply sv_covered_ops in Hsv.
  apply dec_stable in Hdel. split; simpl; set_solver.
Qed.
Next Obligation. intros cid. apply map_eq. intros k. simpl. by rewrite opset_root_lookup. Qed.
Next Obligation. intros k a d. apply opset_insert_root. Qed.
Next Obligation. intros k d. apply opset_remove_root. Qed.
Next Obligation.
  intros k a d d' [H1 H2]. eexists. split; [apply ops_decode_encode|].
  split; simpl; rewrite ?H1, ?H2; [|set_solver].
  apply leibniz_equiv. intros x. rewrite elem_of_union, elem_of_filter. split; [set_solver|].
  intros Hx. destruct (decide (x ∈ os_ops d)); [by right|left]. split; [|done].
  by apply opset_vector_lookup.
Qed.
Next Obligation.
  intros k d d' [H1 H2]. eexists. split; [apply ops_decode_encode|]. simpl. unfold opset_remove.
  destruct (winner k d); split; simpl; rewrite ?H1, ?H2; set_solver.
Qed.
Next Obligation.
  intros cid es k d u Hk Hu. simpl in Hu. rewrite ops_decode_encode in Hu. injection Hu as <-.
  destruct (inserts_ops es (OpSet cid ∅ ∅)) as [Hops Hdels].
  assert (Hnone : filter (λ x, op_key x = k) (os_ops (y_inserts es (OpSet cid ∅ ∅))) = ∅).
  { apply leibniz_equiv. intros x. rewrite elem_of_filter. split; [|set_solver].
    intros [<- [Hx|Hx]%Hops]; [set_solver|]. by destruct Hk. }
  simpl. rewrite !opset_root_lookup. unfold live, winner. cbn [os_ops os_dels fst snd].
  change (y_inserts es _) with (y_inserts es (OpSet cid ∅ ∅)).
  rewrite filter_union_L by apply _. rewrite Hnone, Hdels. cbn [os_dels]. by rewrite !(left_id_L ∅ (∪)).
Qed.
