(* ===== verification/DocumentTheory.v ===== *)
(** * What documents promise

    Convergence of merges, replication of local edits and the snapshot round
    trip, against the laws of Yrs, with witnesses on the operation-set CRDT. *)
From S2P Require Import Prelude F64 Types CrdtValue Document OpSet.

Section theorems.
Context {Y : Yrs} {YS : YrsSpec Y} {K : SnapshotCodec} {KS : SnapshotCodecSpec K}.

(** C8: Replicas converge: two replicas that hold the same document and merge the
    same set of updates, in any order and with any repetitions, succeed and hold
    the same document again, with the same fields: the old document with every
    one of the updates applied. *)
Theorem merge_batch_converges (doc1 doc2 : CRDTDocument) batch1 batch2 us1 us2 :
  cd_inner doc1 ≡ cd_inner doc2 →
  Forall2 (λ b u, y_decode b = Ok u) batch1 us1 → Forall2 (λ b u, y_decode b = Ok u) batch2 us2 →
  us1 ⊆ us2 → us2 ⊆ us1 →
  ∃ doc1' doc2', merge_batch batch1 doc1 = (Ok tt, doc1') ∧ merge_batch batch2 doc2 = (Ok tt, doc2') ∧
    cd_inner doc1' ≡ y_apply_all us1 (cd_inner doc1) ∧ cd_inner doc2' ≡ cd_inner doc1' ∧ to_map doc1' = to_map doc2'.
Proof.
  intros Heq H1 H2 Hs1 Hs2. rewrite (merge_batch_ok _ _ doc1 H1), (merge_batch_ok _ _ doc2 H2).
  assert (Hd : y_apply_all us1 (cd_inner doc1) ≡ y_apply_all us2 (cd_inner doc2)).
  { rewrite (y_apply_all_proper us1 _ _ Heq). by apply y_apply_all_same_set. }
  eexists _, _. split_and!; [done|done|done|by symmetry|]. unfold to_map. simpl. by rewrite (y_root_proper _ _ Hd).
Qed.

(** A local edit is visible and replicates: after [set_field] the field reads
    back as the value written and every other field is unchanged, and after
    [delete_field] it is absent; and a replica that held the same document and
    applies the returned delta holds the edited document. *)
Theorem local_edit_replicates (doc rep : CRDTDocument) field value :
  cd_inner rep ≡ cd_inner doc →
  let '(delta, doc') := set_field field value doc in
  let '(delta_del, doc_del) := delete_field field doc in
  to_map doc' = <[field := value]> (to_map doc) ∧ to_map doc_del = delete field (to_map doc) ∧
  ((N.of_nat (length delta) ≤ MAX_SNAPSHOT_SIZE)%N → ∃ rep', apply_update delta rep = Ok rep' ∧
    cd_inner rep' ≡ cd_inner doc' ∧ to_map rep' = to_map doc') ∧
  ((N.of_nat (length delta_del) ≤ MAX_SNAPSHOT_SIZE)%N → ∃ rep', apply_update delta_del rep = Ok rep' ∧
    cd_inner rep' ≡ cd_inner doc_del ∧ to_map rep' = to_map doc_del).
Proof.
  intros Hrep. simpl. unfold to_map. simpl. split_and!.
  - rewrite y_insert_root, fmap_insert. f_equal. apply any_to_crdt_value_inverse.
  - by rewrite y_remove_root, fmap_delete.
  - intros Hlen. destruct (y_insert_diff field (crdt_value_to_any value) _ _ Hrep) as (u & Hu & Hd).
    eexists. split; [by apply (apply_update_ok _ u)|]. simpl. split; [done|].
    by rewrite (y_root_proper _ _ Hd).
  - intros Hlen. destruct (y_remove_diff field _ _ Hrep) as (u & Hu & Hd).
    eexists. split; [by apply (apply_update_ok _ u)|]. simpl. split; [done|].
    by rewrite (y_root_proper _ _ Hd).
Qed.

(** A snapshot loads back: for a document within the size limit the stored
    snapshot decodes, passes its checksum and yields a document with the same
    content, carrying the sequence it was taken at. *)
Theorem snapshot_round_trip now seq cid (doc : CRDTDocument) :
  (N.of_nat (length (to_snapshot doc)) ≤ MAX_SNAPSHOT_SIZE)%N →
  ∃ bs doc' snap, create_snapshot_with_meta now doc seq = Ok bs ∧
    load_and_verify_snapshot cid bs = Ok (doc', snap) ∧ load_snapshot cid bs = Ok doc' ∧
    sn_sequence snap = seq ∧ sn_doc_id snap = cd_doc_id doc ∧ sn_record_id snap = cd_record_id doc ∧
    cd_inner doc' ≡ cd_inner doc ∧ to_map doc' = to_map doc.
Proof.
  intros Hlen. destruct (from_snapshot_encode cid (cd_inner doc) Hlen) as (d' & Hload & Hd).
  destruct (bincode_round_trip (snapshot_from_document now doc seq)) as (bs & Hser & Hde).
  exists bs. do 2 eexists. unfold create_snapshot_with_meta, load_and_verify_snapshot, load_snapshot,
    snapshot_encode, snapshot_decode. rewrite Hser, Hde.
  unfold verify_checksum. simpl. rewrite N.eqb_refl. simpl. unfold to_snapshot in *. rewrite Hload.
  split_and!; try done. unfold to_map. simpl. by rewrite (y_root_proper _ _ Hd).
Qed.
End theorems.

(** ** Witnesses *)

Definition sample_doc : CRDTDocument := document_new 1 "todos" "r1" 1.

(** Updates two replicas made concurrently, as bytes and decoded. *)
Definition sample_delta (cid : N) (k : string) (v : CrdtValue) : bytes :=
  (set_field k v (set_inner (OpSet cid (os_ops (cd_inner sample_doc)) ∅) sample_doc)).1.
Definition decoded (b : bytes) : gset op * gset op :=
  match ops_decode b with Ok u => u | Err _ => (∅, ∅) end.

Lemma merge_batch_converges_witness :
  let a := sample_delta 2 "title" (VString "x") in
  let b := sample_delta 3 "title" (VString "y") in
  ∃ doc1' doc2', merge_batch [a; b] sample_doc = (Ok tt, doc1') ∧
    merge_batch [b; a; b] sample_doc = (Ok tt, doc2') ∧ to_map doc1' = to_map doc2'.
Proof.
  assert (Hs : ∀ x y : gset op * gset op, [x; y] ⊆ [y; x; y] ∧ [y; x; y] ⊆ [x; y])
    by (intros x y; split; set_solver).
  intros a b.
  destruct (merge_batch_converges sample_doc sample_doc [a; b] [b; a; b]
    [decoded a; decoded b] [decoded b; decoded a; decoded b]) as (d1 & d2 & H1 & H2 & _ & _ & H3).
  - reflexivity.
  - repeat constructor; vm_compute; reflexivity.
  - repeat constructor; vm_compute; reflexivity.
  - apply Hs.
  - apply Hs.
  - exists d1, d2. split; [exact H1|]. split; [exact H2|exact H3].
Defined.

Lemma local_edit_replicates_witness :
  to_map (set_field "title" (VString "x") sample_doc).2 = <["title" := VString "x"]> (to_map sample_doc).
Proof.
  apply (local_edit_replicates sample_doc sample_doc "title" (VString "x")). reflexivity.
Defined.

(** Snapshots as bytes by the coding of the fields. *)
Definition snapshot_code (s : Snapshot) : string * string * N * N * N * bytes * N :=
  (sn_doc_id s, sn_record_id s, sn_schema_version s, sn_sequence s, sn_created_at s, sn_bytes s, sn_checksum s).
Definition sample_codec : SnapshotCodec := {|
  bincode_serialize s := Ok (pos_bits (encode (snapshot_code s)));
  bincode_deserialize b :=
    match decode (bits_pos b) with
    | Some (d, r, v, q, c, bs, k) => Ok (Snapshot_new d r v q c bs k)
    | None => Err "unexpected end of file"
    end;
  crc32 b := N.of_nat (length b);
|}.
Lemma sample_codec_spec : SnapshotCodecSpec sample_codec.
Proof.
  split. intros s. eexists. split; [done|]. simpl.
  rewrite bits_pos_bits, decode_encode. by destruct s.
Qed.

Lemma snapshot_round_trip_witness :
  ∃ bs doc' snap, @create_snapshot_with_meta _ sample_codec 9 sample_doc 4 = Ok bs ∧
    @load_and_verify_snapshot _ sample_codec 5 bs = Ok (doc', snap) ∧ to_map doc' = to_map sample_doc.
Proof.
  destruct (@snapshot_round_trip _ _ sample_codec sample_codec_spec 9 4 5 sample_doc)
    as (bs & doc' & snap & H1 & H2 & _ & _ & _ & _ & _ & H3).
  - vm_compute. discriminate.
  - exists bs, doc', snap. split; [exact H1|]. split; [exact H2|exact H3].
Defined.
