(* ===== verification/SnapshotStore.v ===== *)
(** * Segments of snapshots and their store

    [crdt/segment_snapshot.rs] and [crdt/snapshot_store.rs].  The hasher of
    [crc32fast] over several chunks is the checksum of their concatenation;
    [bincode] on segments is a parameter. *)
From S2P Require Import Prelude Types CrdtValue Document.

(** ** [SegmentSnapshot] *)

Record SegmentSnapshot := Segment {
  sg_segment_id : string;
  sg_namespace : string;
  sg_documents : list Snapshot;
  sg_checksum : N;
  sg_created_at : N;
  sg_byte_len : N;
}.

Section segment.
Context {K : SnapshotCodec}.

Definition segment_new (segment_id namespace : string) (now_ms : N) : SegmentSnapshot :=
  Segment segment_id namespace [] 0 now_ms 0.

(** What [recompute_checksum] and [verify_checksum] feed the hasher. *)
Definition documents_checksum (docs : list Snapshot) : N :=
  crc32 (concat (map (λ d, u32_to_le_bytes (sn_checksum d)) docs)).

Definition recompute_checksum (s : SegmentSnapshot) : SegmentSnapshot :=
  Segment (sg_segment_id s) (sg_namespace s) (sg_documents s) (documents_checksum (sg_documents s))
    (sg_created_at s) (sg_byte_len s).

Definition from_documents (segment_id namespace : string) (docs : list Snapshot) (now_ms : N) : SegmentSnapshot :=
  recompute_checksum (Segment segment_id namespace docs 0 now_ms
    (foldl (λ n d, wrapping_add64 n (N.of_nat (length (sn_bytes d)))) 0%N docs)).

Definition add_document (snapshot : Snapshot) (s : SegmentSnapshot) : SegmentSnapshot :=
  recompute_checksum (Segment (sg_segment_id s) (sg_namespace s) (sg_documents s ++ [snapshot]) (sg_checksum s)
    (sg_created_at s) (wrapping_add64 (sg_byte_len s) (N.of_nat (length (sn_bytes snapshot))))).

Definition segment_verify (s : SegmentSnapshot) : bool := (documents_checksum (sg_documents s) =? sg_checksum s)%N.

Definition document_ids (s : SegmentSnapshot) : list (string * string) := map (λ d, (sn_doc_id d, sn_record_id d)) (sg_documents s).

(** [.max().unwrap_or(0)] and [.min().unwrap_or(0)]. *)
Definition segment_max_sequence (s : SegmentSnapshot) : N := foldr N.max 0%N (map sn_sequence (sg_documents s)).
Definition segment_min_sequence (s : SegmentSnapshot) : N :=
  match map sn_sequence (sg_documents s) with [] => 0%N | x :: l => foldr N.min x l end.
End segment.

(** ** [InMemorySnapshotStore] *)

Record InMemorySnapshotStore := SnapStore {
  ims_snapshots : rwlock (gmap (string * string * string) Snapshot);
  ims_segments : rwlock (gmap (string * string) SegmentSnapshot);
}.

Definition snap_store_new : InMemorySnapshotStore := SnapStore (rw_new ∅) (rw_new ∅).

Abbreviation M := (SM InMemorySnapshotStore string).

Definition ss_store_snapshot (ns : string) (s : Snapshot) : M unit :=
  rw_lock "Failed to acquire lock" ims_snapshots;;
  sm_modify (λ st, SnapStore (rw_update <[(ns, sn_doc_id s, sn_record_id s) := s]> (ims_snapshots st)) (ims_segments st)).

Definition ss_get_snapshot (ns doc_id record_id : string) : M (option Snapshot) :=
  snaps ← rw_lock poison_message ims_snapshots;
  mret (snaps !! (ns, doc_id, record_id)).

Definition ss_list_snapshots (ns : string) : M (list Snapshot) :=
  snaps ← rw_lock poison_message ims_snapshots;
  mret (map snd (filterb (λ p, String.eqb p.1.1.1 ns) (map_to_list snaps))).

Definition ss_store_segment (s : SegmentSnapshot) : M unit :=
  rw_lock "Failed to acquire lock" ims_segments;;
  sm_modify (λ st, SnapStore (ims_snapshots st) (rw_update <[(sg_namespace s, sg_segment_id s) := s]> (ims_segments st))).

Definition ss_get_segment (ns segment_id : string) : M (option SegmentSnapshot) :=
  segs ← rw_lock poison_message ims_segments;
  mret (segs !! (ns, segment_id)).

Definition ss_list_segments (ns : string) : M (list SegmentSnapshot) :=
  segs ← rw_lock poison_message ims_segments;
  mret (map snd (filterb (λ p, String.eqb p.1.1 ns) (map_to_list segs))).

(** ** Properties *)

Section properties.
Context {K : SnapshotCodec}.

(** How a segment comes about. *)
Inductive segment_built : SegmentSnapshot → Prop :=
  | built_from segment_id ns docs now : segment_built (from_documents segment_id ns docs now)
  | built_first segment_id ns now d : segment_built (add_document d (segment_new segment_id ns now))
  | built_add d s : segment_built s → segment_built (add_document d s).

Definition total_bytes (docs : list Snapshot) : N := foldr (λ d n, (N.of_nat (length (sn_bytes d)) + n)%N) 0%N docs.

Lemma byte_len_sum docs n : (n + total_bytes docs ≤ U64_MAX)%N →
  foldl (λ n d, wrapping_add64 n (N.of_nat (length (sn_bytes d)))) n docs = (n + total_bytes docs)%N.
Proof.
  revert n. induction docs as [|d docs IH]; intros n H; simpl in *; [lia|].
  rewrite wrapping_add64_small by lia. rewrite IH by lia. lia.
Qed.

Lemma total_bytes_app docs docs' : total_bytes (docs ++ docs') = (total_bytes docs + total_bytes docs')%N.
Proof. induction docs as [|d docs IH]; simpl; [done|]. rewrite IH. lia. Qed.

(** A segment with documents verifies, however it was built, and reports the
    number of bytes of its documents as long as that number fits. *)
Theorem segment_verifies s : segment_built s → segment_verify s = true ∧
  ((total_bytes (sg_documents s) ≤ U64_MAX)%N → sg_byte_len s = total_bytes (sg_documents s)).
Proof.
  intros Hb. split; [destruct Hb; apply N.eqb_refl|].
  induction Hb as [i ns docs now|i ns now d|d s Hb IH]; simpl.
  - intros H. rewrite byte_len_sum; lia.
  - intros H. rewrite wrapping_add64_small; lia.
  - rewrite total_bytes_app. simpl. intros H. rewrite IH by lia. rewrite wrapping_add64_small by lia. lia.
Qed.

(** A stored snapshot or segment is found under its name and listed once in
    its namespace and in no other; storing it again replaces it. *)
Theorem segment_store_round_trip (s : SegmentSnapshot) st : rw_poisoned (ims_segments st) = false →
  ∃ st', ss_store_segment s st = (Ok tt, st') ∧
    ss_get_segment (sg_namespace s) (sg_segment_id s) st' = (Ok (Some s), st') ∧
    (∀ ns i, (ns, i) ≠ (sg_namespace s, sg_segment_id s) → ss_get_segment ns i st' = ((ss_get_segment ns i st).1, st')) ∧
    ∃ l, ss_list_segments (sg_namespace s) st' = (Ok l, st') ∧ s ∈ l.
Proof.
  intros Hp. destruct st as [sn [segs p]]. cbn in Hp. subst p.
  eexists. split; [reflexivity|]. unfold ss_get_segment, ss_list_segments. split_and!.
  - erewrite sm_bind_ok by reflexivity. cbn. by rewrite lookup_insert_eq.
  - intros ns i Hne. erewrite sm_bind_ok by reflexivity. cbn. by rewrite lookup_insert_ne.
  - eexists. erewrite sm_bind_ok by reflexivity. split; [reflexivity|]. cbn.
    apply list_elem_of_In, in_map_iff. exists (sg_namespace s, sg_segment_id s, s). split; [done|].
    apply list_elem_of_In, elem_of_filterb. split; [apply String.eqb_refl|]. apply elem_of_map_to_list. by rewrite lookup_insert_eq.
Qed.
End properties.
