(* ===== verification/SqlCoordinator.v ===== *)
(** * The SQL coordinators

    [vaultsync-coordinator-sqlite] and [vaultsync-coordinator-postgres]: the
    log of mutations, the replicas and the snapshots in four tables of the same
    layout ([migrations.rs] of both).  The statements are functions on the
    tables, the operations run them through a connection ([Sql]). *)
From S2P Require Import Prelude Types Sql Document.

(** ** The tables *)

Record mutation_row := MutationRow {
  mu_sequence : Z;
  mu_id : string;
  mu_namespace : string;
  mu_replica_id : string;
  mu_doc_id : string;
  mu_record_id : string;
  mu_blob : bytes;
  mu_timestamp : Z;
  mu_key_version : Z;
}.

Record replica_row := ReplicaRow {
  re_namespace : string;
  re_public_key : bytes;
  re_schema_version : Z;
  re_last_seen : Z;
  re_key_version : Z;
}.

Record snapshot_row := SnapshotRow {
  sr_sequence : Z;
  sr_created_at : Z;
  sr_bytes : bytes;
  sr_checksum : Z;
}.

(** [mutations] in the order of insertion, with the last value its sequence
    gave out; [replicas] by [replica_id], [schema_versions] by namespace and
    [snapshots] by namespace, document and record, their primary keys. *)
Record tables := Tables {
  tb_mutations : list mutation_row;
  tb_last_sequence : Z;
  tb_replicas : gmap string replica_row;
  tb_schema_versions : gmap string Z;
  tb_snapshots : gmap (string * string * string) snapshot_row;
}.

(** [migrations::initialize] on a new database. *)
Definition initialize : tables := Tables [] 0 ∅ ∅ ∅.

Definition with_mutations (f : list mutation_row → list mutation_row) (db : tables) : tables :=
  Tables (f (tb_mutations db)) (tb_last_sequence db) (tb_replicas db) (tb_schema_versions db)
    (tb_snapshots db).
Definition with_replicas (f : gmap string replica_row → gmap string replica_row) (db : tables) :
    tables :=
  Tables (tb_mutations db) (tb_last_sequence db) (f (tb_replicas db)) (tb_schema_versions db)
    (tb_snapshots db).
Definition with_schema_versions (f : gmap string Z → gmap string Z) (db : tables) : tables :=
  Tables (tb_mutations db) (tb_last_sequence db) (tb_replicas db) (f (tb_schema_versions db))
    (tb_snapshots db).
Definition with_snapshots (f : gmap (string * string * string) snapshot_row → gmap (string * string * string) snapshot_row)
    (db : tables) : tables :=
  Tables (tb_mutations db) (tb_last_sequence db) (tb_replicas db) (tb_schema_versions db)
    (f (tb_snapshots db)).

(** ** The statements *)

Definition row_has_id (ent : string) (row : mutation_row) : bool := bool_decide (mu_id row = ent).

(** The row a mutation is stored as. *)
Definition row_of (ns : string) (seq : Z) (m : EncryptedMutation) : mutation_row :=
  MutationRow seq (em_id m) ns (em_replica_id m) (em_doc_id m) (em_record_id m)
    (em_encrypted_blob m) (as_i64 (em_timestamp m)) (as_i64 (em_key_version m)).

(** [INSERT OR IGNORE INTO mutations] and [INSERT .. ON CONFLICT (id) DO
    NOTHING]: the sequence of the new row, if the id was free.  The sequence
    only moves up, possibly by more than one. *)
Definition insert_mutation (ns : string) (m : EncryptedMutation) (skip : N) (db : tables) :
    result (option Z) string * tables :=
  if existsb (row_has_id (em_id m)) (tb_mutations db) then (Ok None, db)
  else
    let seq := (tb_last_sequence db + 1 + Z.of_N skip)%Z in
    if (seq <=? I64_MAX)%Z then
      (Ok (Some seq),
       Tables (tb_mutations db ++ [row_of ns seq m]) seq (tb_replicas db) (tb_schema_versions db)
         (tb_snapshots db))
    else (Err "sequence exhausted", db).

(** [SELECT sequence FROM mutations WHERE id = ?1] for one row. *)
Definition lookup_sequence (ent : string) (db : tables) : result Z string :=
  match find (row_has_id ent) (tb_mutations db) with
  | Some row => Ok (mu_sequence row)
  | None => Err "Query returned no rows"
  end.

(** The sequence of a pushed mutation: that of its new row, or of the row that
    already has its id. *)
Definition insert_or_lookup (ins : N → tables → result (option Z) string * tables) (ent : string) :
    SM (conn tables) string N :=
  inserted ← statement ins;
  match inserted with
  | Some seq => mret (as_u64 seq)
  | None => z ← statement (λ _ db, (lookup_sequence ent db, db)); mret (as_u64 z)
  end.

Definition sequence_le (a b : mutation_row) : Prop := (mu_sequence a ≤ mu_sequence b)%Z.
#[export] Instance sequence_le_dec : RelDecision sequence_le.
Proof. intros a b. unfold sequence_le. apply _. Defined.

(** [SELECT .. FROM mutations WHERE namespace = ?1 AND sequence > ?2 ORDER BY
    sequence ASC]. *)
Definition select_after (ns : string) (after : Z) (db : tables) : list mutation_row :=
  stable_sort sequence_le
    (filterb (λ row, bool_decide (mu_namespace row = ns) && (after <? mu_sequence row)%Z)
       (tb_mutations db)).

(** [INSERT INTO schema_versions .. ON CONFLICT DO UPDATE] to the larger version. *)
Definition upsert_schema_version (ns : string) (version : Z) : tables → unit * tables := λ db,
  (tt, with_schema_versions (λ m, <[ns := match m !! ns with
                                          | Some v => Z.max v version
                                          | None => version end]> m) db).

Definition select_replica (ns replica_id : string) (db : tables) : option replica_row :=
  match tb_replicas db !! replica_id with
  | Some row => if bool_decide (re_namespace row = ns) then Some row else None
  | None => None
  end.

(** [UPDATE replicas SET .. WHERE namespace = ? AND replica_id = ?]. *)
Definition update_replica (ns replica_id : string) (f : replica_row → replica_row) :
    tables → unit * tables := λ db,
  (tt, match select_replica ns replica_id db with
       | Some row => with_replicas <[replica_id := f row]> db
       | None => db
       end).

Definition set_last_seen (now : Z) (row : replica_row) : replica_row :=
  ReplicaRow (re_namespace row) (re_public_key row) (re_schema_version row) now (re_key_version row).
Definition set_public_key (key : bytes) (version : Z) (row : replica_row) : replica_row :=
  ReplicaRow (re_namespace row) key (re_schema_version row) (re_last_seen row) version.

(** [SELECT .. FROM replicas WHERE namespace = ?1]. *)
Definition select_replicas (ns : string) (db : tables) : list (string * replica_row) :=
  filterb (λ p : string * replica_row, bool_decide (re_namespace p.2 = ns))
    (map_to_list (tb_replicas db)).

Definition to_replica_info (p : string * replica_row) : ReplicaInfo :=
  ReplicaInfo_new p.1 (re_namespace p.2) (re_public_key p.2) (as_u64 (re_schema_version p.2)).

Definition select_snapshots (ns : string) (db : tables) : list ((string * string) * snapshot_row) :=
  omap (λ p : (string * string * string) * snapshot_row,
      if bool_decide (p.1.1.1 = ns) then Some ((p.1.1.2, p.1.2), p.2) else None)
    (map_to_list (tb_snapshots db)).

Definition row_covered (ns doc_id record_id : string) (sequence : Z) (row : mutation_row) : bool :=
  bool_decide (mu_namespace row = ns) && bool_decide (mu_doc_id row = doc_id) &&
  bool_decide (mu_record_id row = record_id) && (mu_sequence row <=? sequence)%Z.

(** [DELETE FROM mutations WHERE namespace, doc_id and record_id AND sequence
    <= ?4], with the number of rows. *)
Definition delete_covered (ns doc_id record_id : string) (sequence : Z) : tables → nat * tables := λ db,
  let covered := row_covered ns doc_id record_id sequence in
  (length (filterb covered (tb_mutations db)),
   with_mutations (filterb (λ row, negb (covered row))) db).

(** A turn of the loop of [compact_oplog] over the snapshots of the namespace:
    the counts of removed rows and of snapshots that removed some. *)
Definition compact_turn (ns : string) (acc : nat * nat) (s : (string * string) * snapshot_row) :
    SM (conn tables) string (nat * nat) :=
  deleted ← execute (delete_covered ns s.1.1 s.1.2 (sr_sequence s.2));
  mret (if 0 <? deleted then (acc.1 + deleted, S acc.2) else acc).

Fixpoint compact_loop (ns : string) (snaps : list ((string * string) * snapshot_row)) (acc : nat * nat) :
    SM (conn tables) string (nat * nat) :=
  match snaps with
  | [] => mret acc
  | s :: snaps => acc ← compact_turn ns acc s; compact_loop ns snaps acc
  end.

(** The snapshot column of a row, decoded. *)
Section codec.
Context {K : SnapshotCodec} (error_display : VaultSyncError → string).

Definition decode_snapshot (row : snapshot_row) : result Snapshot string :=
  match snapshot_decode (sr_bytes row) with
  | Ok s => Ok s
  | Err e => Err (error_display e)
  end.

(** [INSERT OR REPLACE INTO snapshots] and its [ON CONFLICT DO UPDATE] form
    write the same row. *)
Definition upsert_snapshot (ns : string) (s : Snapshot) (bs : bytes) : tables → unit * tables := λ db,
  (tt, with_snapshots <[(ns, sn_doc_id s, sn_record_id s) :=
      SnapshotRow (as_i64 (sn_sequence s)) (as_i64 (sn_created_at s)) bs (Z.of_N (sn_checksum s))]> db).
End codec.

(** ** [SQLiteCoordinator] *)

Module SqliteCoordinator.

(** The connection behind its mutex, and every message handed to the broadcast
    channel, oldest first. *)
Record t := mk { sq_conn : rwlock (conn tables); sq_sent : list PendingMutation }.

Definition new : t := mk (rw_new (Conn initialize [])) [].

Abbreviation M := (SM t CoordinatorError).
Abbreviation Q := (SM (conn tables) string).

(** [spawn_blocking(move || { let conn = conn.lock()..?; .. })]. *)
Definition run {A} (q : Q A) : M A := λ c,
  if rw_poisoned (sq_conn c) then (Err (Internal poison_message), c)
  else
    let '(r, k) := q (rw_val (sq_conn c)) in
    (match r with Ok a => Ok a | Err e => Err (Internal e) end,
     mk (rw_set k (sq_conn c)) (sq_sent c)).

(** One turn of the loop of [push]. *)
Definition push_one (ns : string) (m : EncryptedMutation) : Q (N * PendingMutation) :=
  seq ← insert_or_lookup (insert_mutation ns m) (em_id m);
  mret (seq, PendingMutation_new (em_id m) ns seq (em_doc_id m) (em_record_id m)
    (em_encrypted_blob m) (em_timestamp m) (em_key_version m) (em_replica_id m)).

Definition push (ns : string) (ms : list EncryptedMutation) : M (list N) :=
  res ← run (transaction (prepare;; prepare;; map_each (push_one ns) ms));
  sm_modify (λ c, mk (sq_conn c) (sq_sent c ++ map snd res));;
  mret (map fst res).

(** The closure that maps a row of the log. *)
Definition pending_of (row : mutation_row) : result PendingMutation string :=
  match from_sql (mu_sequence row), from_sql (mu_timestamp row), from_sql (mu_key_version row) with
  | Ok seq, Ok ts, Ok kv =>
      Ok (PendingMutation_new (mu_id row) (mu_namespace row) seq (mu_doc_id row) (mu_record_id row)
            (mu_blob row) ts kv (mu_replica_id row))
  | _, _, _ => Err out_of_range
  end.

Definition pull (ns : string) (after : N) (limit : nat) : M (list PendingMutation) :=
  run (prepare;;
       prepare;;
       after ← convert (to_sql after);
       limit ← convert (to_sql (N.of_nat limit));
       rows ← query (λ db, take (Z.to_nat limit) (select_after ns after db));
       convert (collect pending_of rows)).

Definition replace_replica (now : Z) (ns : string) (info : ReplicaInfo) : tables → unit * tables := λ db,
  (tt, with_replicas <[ri_replica_id info :=
      ReplicaRow ns (ri_public_key info) (as_i64 (ri_schema_version info)) now 1]> db).

Definition register (now : Z) (ns : string) (info : ReplicaInfo) (_last_sequence : N) : M unit :=
  run (transaction (
    execute (replace_replica now ns info);;
    execute (upsert_schema_version ns (as_i64 (ri_schema_version info))))).

Definition heartbeat (now : Z) (ns replica_id : string) : M unit :=
  run (execute (update_replica ns replica_id (set_last_seen now))).

Definition schema_version (ns : string) : M N :=
  run (prepare;;
       v ← query (λ db, tb_schema_versions db !! ns);
       mret (match v with Some v => as_u64 v | None => 0%N end)).

Definition update_replica_key (ns replica_id : string) (public_key : bytes) (key_version : N) : M unit :=
  run (execute (update_replica ns replica_id (set_public_key public_key (as_i64 key_version)))).

Definition get_replica_key (ns replica_id : string) : M (option (bytes * N)) :=
  run (prepare;;
       row ← query (select_replica ns replica_id);
       mret ((λ r, (re_public_key r, as_u64 (re_key_version r))) <$> row)).

Definition list_replicas (ns : string) : M (list ReplicaInfo) :=
  run (prepare;; rows ← query (select_replicas ns); mret (map to_replica_info rows)).

Section snapshots.
Context {K : SnapshotCodec} (error_display : VaultSyncError → string).

Definition get_snapshot (ns doc_id record_id : string) : M (option Snapshot) :=
  run (prepare;;
       row ← query (λ db, tb_snapshots db !! (ns, doc_id, record_id));
       match row with
       | Some row => s ← convert (decode_snapshot error_display row); mret (Some s)
       | None => mret None
       end).

Definition store_snapshot (ns : string) (s : Snapshot) : M unit :=
  match snapshot_encode s with
  | Err e => sm_fail (Internal (error_display e))
  | Ok bs => run (execute (upsert_snapshot ns s bs))
  end.

Definition list_snapshots (ns : string) : M (list Snapshot) :=
  run (prepare;;
       rows ← query (select_snapshots ns);
       convert (collect (λ p, decode_snapshot error_display p.2) rows)).
End snapshots.

Definition compact_oplog (ns : string) : M CompactionStats :=
  run (transaction (
    prepare;;
    snaps ← query (select_snapshots ns);
    prepare;;
    '(removed, collapsed) ← compact_loop ns snaps (0, 0);
    mret (CompactionStats_new removed 0 collapsed))).

(** *** Subscriptions *)

(** The task of a subscription: the highest sequence it sent and what it sent. *)
Record subscription := Sub { su_last_sent : N; su_out : list PendingMutation }.

Inductive event := Received (m : PendingMutation) | Lagged.

(** The mutations above a sequence; rows that do not convert are passed over. *)
Definition stored_after (ns : string) (after : N) : Q (list PendingMutation) :=
  prepare;;
  after ← convert (to_sql after);
  rows ← query (select_after ns after);
  mret (omap (λ row, match pending_of row with Ok m => Some m | Err _ => None end) rows).

Definition send_all (ms : list PendingMutation) (s : subscription) : subscription :=
  Sub (foldl (λ last m, N.max last (pm_sequence m)) (su_last_sent s) ms) (su_out s ++ ms).

(** The query at the start, and again after a lag: an error sends nothing. *)
Definition catch_up (ns : string) (s : subscription) : M subscription :=
  found ← sm_try (run (stored_after ns (su_last_sent s)));
  mret (match found with Ok ms => send_all ms s | Err _ => s end).

Definition subscribe (ns : string) (from_sequence : N) : M subscription :=
  catch_up ns (Sub from_sequence []).

(** One turn of the loop. *)
Definition sub_turn (ns : string) (e : event) (s : subscription) : M subscription :=
  match e with
  | Received m =>
      mret (if bool_decide (pm_namespace m = ns) && (su_last_sent s <? pm_sequence m)%N
            then Sub (pm_sequence m) (su_out s ++ [m]) else s)
  | Lagged => catch_up ns s
  end.
End SqliteCoordinator.

(** ** [PostgresCoordinator] *)

Module PostgresCoordinator.

(** The client of the connection and the notifications it has sent. *)
Record t := mk { pg_client : conn tables; pg_notified : list string }.

Definition new : t := mk (Conn initialize []) [].

Abbreviation M := (SM t CoordinatorError).
Abbreviation Q := (SM (conn tables) string).

Definition run {A} (q : Q A) : M A := λ c,
  let '(r, k) := q (pg_client c) in
  (match r with Ok a => Ok a | Err e => Err (Internal e) end, mk k (pg_notified c)).

(** A [VARCHAR(255)] column: at most 255 characters, which in UTF-8 are the
    bytes that do not continue one. *)
Definition varchar (s : string) : bool :=
  length (filterb (λ b, negb ((128 <=? b) && (b <? 192))%N) (utf8 s)) <=? 255.
Definition too_long : string := "value too long for type character varying(255)".

(** A statement that writes these columns. *)
Definition checked {A} (columns : list string) (f : N → tables → result A string * tables) :
    N → tables → result A string * tables := λ skip db,
  if forallb varchar columns then f skip db else (Err too_long, db).

Definition executed {A} (f : tables → A * tables) : N → tables → result A string * tables := λ _ db,
  let '(a, db') := f db in (Ok a, db').

Definition push_one (ns : string) (m : EncryptedMutation) : Q N :=
  insert_or_lookup (checked [em_id m; ns; em_replica_id m; em_doc_id m; em_record_id m]
    (insert_mutation ns m)) (em_id m).

(** [SELECT pg_notify(..)] after the commit. *)
Definition notify (ns : string) : M unit :=
  run prepare;;
  sm_modify (λ c, mk (pg_client c) (pg_notified c ++ [ns])).

Definition push (ns : string) (ms : list EncryptedMutation) : M (list N) :=
  seqs ← run (transaction (map_each (push_one ns) ms));
  notify ns;;
  mret seqs.

Definition pending_of (row : mutation_row) : PendingMutation :=
  PendingMutation_new (mu_id row) (mu_namespace row) (as_u64 (mu_sequence row)) (mu_doc_id row)
    (mu_record_id row) (mu_blob row) (as_u64 (mu_timestamp row)) (as_u64 (mu_key_version row))
    (mu_replica_id row).

(** [SELECT .. LIMIT $3]. *)
Definition select_page (ns : string) (after limit : Z) : Q (list mutation_row) :=
  statement (λ _ db,
    if (limit <? 0)%Z then (Err "LIMIT must not be negative", db)
    else (Ok (take (Z.to_nat limit) (select_after ns after db)), db)).

Definition pull (ns : string) (after : N) (limit : nat) : M (list PendingMutation) :=
  rows ← run (select_page ns (as_i64 after) (as_i64 (N.of_nat limit)));
  mret (map pending_of rows).

(** [INSERT INTO replicas .. ON CONFLICT (replica_id) DO UPDATE]: the key
    version of a replica that is already there stays. *)
Definition upsert_replica (now : Z) (ns : string) (info : ReplicaInfo) : tables → unit * tables := λ db,
  (tt, with_replicas (λ m, <[ri_replica_id info :=
      ReplicaRow ns (ri_public_key info) (as_i64 (ri_schema_version info)) now
        match m !! ri_replica_id info with Some row => re_key_version row | None => 1%Z end]> m) db).

Definition register (now : Z) (ns : string) (info : ReplicaInfo) (_last_sequence : N) : M unit :=
  run (transaction (
    statement (checked [ri_replica_id info; ns] (executed (upsert_replica now ns info)));;
    statement (checked [ns] (executed (upsert_schema_version ns (as_i64 (ri_schema_version info))))))).

Definition heartbeat (now : Z) (ns replica_id : string) : M unit :=
  run (execute (update_replica ns replica_id (set_last_seen now))).

Definition schema_version (ns : string) : M N :=
  v ← run (query (λ db, tb_schema_versions db !! ns));
  mret (match v with Some v => as_u64 v | None => 0%N end).

Definition update_replica_key (ns replica_id : string) (public_key : bytes) (key_version : N) : M unit :=
  run (execute (update_replica ns replica_id (set_public_key public_key (as_i64 key_version)))).

Definition get_replica_key (ns replica_id : string) : M (option (bytes * N)) :=
  row ← run (query (select_replica ns replica_id));
  mret ((λ r, (re_public_key r, as_u64 (re_key_version r))) <$> row).

Definition list_replicas (ns : string) : M (list ReplicaInfo) :=
  rows ← run (query (select_replicas ns));
  mret (map to_replica_info rows).

Section snapshots.
Context {K : SnapshotCodec} (error_display : VaultSyncError → string).

Definition get_snapshot (ns doc_id record_id : string) : M (option Snapshot) :=
  run (row ← query (λ db, tb_snapshots db !! (ns, doc_id, record_id));
       match row with
       | Some row => s ← convert (decode_snapshot error_display row); mret (Some s)
       | None => mret None
       end).

Definition store_snapshot (ns : string) (s : Snapshot) : M unit :=
  match snapshot_encode s with
  | Err e => sm_fail (Internal (error_display e))
  | Ok bs =>
      run (statement (checked [ns; sn_doc_id s; sn_record_id s] (executed (upsert_snapshot ns s bs))))
  end.

Definition list_snapshots (ns : string) : M (list Snapshot) :=
  run (rows ← query (select_snapshots ns);
       convert (collect (λ p, decode_snapshot error_display p.2) rows)).
End snapshots.

Definition compact_oplog (ns : string) : M CompactionStats :=
  run (transaction (
    snaps ← query (select_snapshots ns);
    '(removed, collapsed) ← compact_loop ns snaps (0, 0);
    mret (CompactionStats_new removed 0 collapsed))).

(** *** Subscriptions *)

Definition pull_limit : nat := N.to_nat 1000.

Record subscription := Sub { su_last_sent : N; su_out : list PendingMutation }.

Definition send_all (ms : list PendingMutation) (s : subscription) : subscription :=
  Sub (foldl (λ last m, N.max last (pm_sequence m)) (su_last_sent s) ms) (su_out s ++ ms).

(** The loop that pages through the log until a page is not full; an error ends
    it.  [false] when the given number of turns did not suffice. *)
Fixpoint fetch_pages (turns : nat) (ns : string) (s : subscription) : M (bool * subscription) :=
  match turns with
  | O => mret (false, s)
  | S turns =>
      page ← sm_try (run (select_page ns (as_i64 (su_last_sent s)) (Z.of_nat pull_limit)));
      match page with
      | Err _ => mret (true, s)
      | Ok rows =>
          let s := send_all (map pending_of rows) s in
          if length rows <? pull_limit then mret (true, s) else fetch_pages turns ns s
      end
  end.

Inductive event := Notified (ns : string) | Lagged.

Definition sub_turn (turns : nat) (ns : string) (e : event) (s : subscription) : M (bool * subscription) :=
  match e with
  | Notified ns' => if bool_decide (ns' = ns) then fetch_pages turns ns s else mret (true, s)
  | Lagged => mret (true, s)
  end.
End PostgresCoordinator.
