(* ===== verification/SqlCoordinatorTheory.v ===== *)
(** * The SQL coordinators keep an append-only log

    A push is one transaction: it fails and changes nothing, or it appends the
    mutations whose ids are new, in order, under sequences above every earlier
    one.  The theorems hold for any failures of the statements and any gaps
    the database leaves in its sequence. *)
From S2P Require Import Prelude Types Sql Document SqlCoordinator.

(** ** The log *)

Definition seq_below (a b : mutation_row) : Prop := (mu_sequence a < mu_sequence b)%Z.

(** What holds of the table of mutations and its sequence. *)
Record log_inv (db : tables) : Prop := {
  li_sorted : StronglySorted seq_below (tb_mutations db);
  li_bound row : row ∈ tb_mutations db → (0 < mu_sequence row ≤ tb_last_sequence db)%Z;
  li_last : (0 ≤ tb_last_sequence db ≤ I64_MAX)%Z;
  li_ids : NoDup (mu_id <$> tb_mutations db);
}.

(** The abstract log: a push of [ms] appends to [log], whose sequence was last
    at [last], and answers [seqs]. *)
Inductive log_appends (ns : string) :
    list EncryptedMutation → list mutation_row * Z → list N → list mutation_row * Z → Prop :=
  | appends_nil log last : log_appends ns [] (log, last) [] (log, last)
  | appends_known m ms row log last seqs log' :
      row ∈ log → mu_id row = em_id m →
      log_appends ns ms (log, last) seqs log' →
      log_appends ns (m :: ms) (log, last) (Z.to_N (mu_sequence row) :: seqs) log'
  | appends_fresh m ms seq log last seqs log' :
      em_id m ∉ mu_id <$> log → (last < seq ≤ I64_MAX)%Z →
      log_appends ns ms (log ++ [row_of ns seq m], seq) seqs log' →
      log_appends ns (m :: ms) (log, last) (Z.to_N seq :: seqs) log'.

Definition log_of (db : tables) : list mutation_row * Z := (tb_mutations db, tb_last_sequence db).

(** The other tables. *)
Definition rest_of (db : tables) := (tb_replicas db, tb_schema_versions db, tb_snapshots db).

Lemma log_inv_initialize : log_inv initialize.
Proof. split; simpl; [constructor|by intros ? ?%elem_of_nil|done|constructor]. Qed.

Lemma log_inv_same db db' : log_of db' = log_of db → log_inv db → log_inv db'.
Proof. unfold log_of. intros [= Hm Hl] []. split; rewrite ?Hm, ?Hl; done. Qed.

Lemma existsb_id ent log : existsb (row_has_id ent) log = true ↔ ent ∈ mu_id <$> log.
Proof.
  unfold row_has_id. rewrite existsb_exists, list_elem_of_fmap. setoid_rewrite <- list_elem_of_In.
  split; intros (row & H1 & H2); exists row.
  - apply bool_decide_eq_true in H2. done.
  - split; [done|]. by apply bool_decide_eq_true.
Qed.

Lemma log_inv_insert ns m skip db : log_inv db → em_id m ∉ mu_id <$> tb_mutations db →
  let seq := (tb_last_sequence db + 1 + Z.of_N skip)%Z in (seq ≤ I64_MAX)%Z →
  log_inv (Tables (tb_mutations db ++ [row_of ns seq m]) seq (tb_replicas db)
    (tb_schema_versions db) (tb_snapshots db)).
Proof.
  intros [Hs Hb Hl Hi] Hnew seq Hmax. split; simpl.
  - apply StronglySorted_app_2; [|done|repeat constructor].
    intros a b Ha ->%list_elem_of_singleton. unfold seq_below. simpl.
    specialize (Hb a Ha). unfold seq. lia.
  - intros row [Hrow| ->%list_elem_of_singleton]%elem_of_app; simpl.
    + specialize (Hb row Hrow). unfold seq. lia.
    + unfold seq. lia.
  - unfold seq in *. lia.
  - rewrite fmap_app. apply NoDup_app. split_and!; [done| |repeat constructor; set_solver].
    intros x Hx ->%list_elem_of_singleton. done.
Qed.

Lemma statement_inv {D A} (f : N → D → result A string * D) c r c' :
  statement f c = (r, c') →
  (∃ msg, r = Err msg ∧ cn_db c' = cn_db c) ∨ (∃ skip, f skip (cn_db c) = (r, cn_db c')).
Proof.
  unfold statement. destruct (cn_outcomes c) as [|[skip|msg] o].
  - destruct (f 0%N (cn_db c)) as [r0 db] eqn:Hf. intros [= <- <-]. right. by exists 0%N.
  - destruct (f skip (cn_db c)) as [r0 db] eqn:Hf. intros [= <- <-]. right. by exists skip.
  - intros [= <- <-]. left. by exists msg.
Qed.

Lemma lookup_sequence_ok ent db z : lookup_sequence ent db = Ok z →
  ∃ row, row ∈ tb_mutations db ∧ mu_id row = ent ∧ mu_sequence row = z.
Proof.
  unfold lookup_sequence. destruct (find _ _) as [row|] eqn:Hf; [|done]. intros [= <-].
  apply find_some in Hf as [Hin Hid]. apply bool_decide_eq_true in Hid.
  exists row. by rewrite list_elem_of_In.
Qed.

Lemma as_u64_pos z : (0 ≤ z)%Z → as_u64 z = Z.to_N z.
Proof. unfold as_u64. by intros ->%Z.leb_le. Qed.

(** ** A push *)

Lemma appends_cons ns m ms l s l' seqs l'' :
  log_appends ns [m] l [s] l' → log_appends ns ms l' seqs l'' →
  log_appends ns (m :: ms) l (s :: seqs) l''.
Proof.
  intros H1 H2. inversion H1 as [|? ? ? ? ? ? ? Hin Hid H|? ? ? ? ? ? ? Hnew Hseq H]; subst;
    inversion H; subst; [by econstructor|by apply appends_fresh].
Qed.

Lemma insert_or_lookup_spec ns m ins c seq c' :
  (∀ skip db x db', ins skip db = (Ok x, db') → insert_mutation ns m skip db = (Ok x, db')) →
  log_inv (cn_db c) → insert_or_lookup ins (em_id m) c = (Ok seq, c') →
  log_inv (cn_db c') ∧ rest_of (cn_db c') = rest_of (cn_db c) ∧
  log_appends ns [m] (log_of (cn_db c)) [seq] (log_of (cn_db c')).
Proof.
  intros Hins Hinv Hrun. apply sm_bind_ok_inv in Hrun as (x & c1 & Hst & Hrun).
  apply statement_inv in Hst as [(? & ? & _)|[skip Hf]]; [done|].
  apply Hins in Hf. unfold insert_mutation in Hf.
  destruct (existsb _ _) eqn:Hex.
  - injection Hf as <- Heq. apply sm_bind_ok_inv in Hrun as (z & c2 & Hlook & [= <- <-]).
    apply statement_inv in Hlook as [(? & ? & _)|[_ [= Hz Hdb]]]; [done|].
    apply lookup_sequence_ok in Hz as (row & Hin & Hid & <-).
    rewrite <-Heq in Hin. rewrite <-Hdb, <-Heq. split_and!; [done..|].
    rewrite as_u64_pos by (pose proof (li_bound _ Hinv row Hin); lia).
    eapply appends_known; [done|done|constructor].
  - assert (em_id m ∉ mu_id <$> tb_mutations (cn_db c)) as Hnew.
    { rewrite <-existsb_id, Hex. done. }
    destruct (Z.leb_spec (tb_last_sequence (cn_db c) + 1 + Z.of_N skip) I64_MAX); [|done].
    injection Hf as <- Heq. injection Hrun as <- <-. rewrite <-Heq.
    split_and!; [by apply log_inv_insert|done|].
    pose proof (li_last _ Hinv). rewrite as_u64_pos by lia.
    apply appends_fresh; [done|lia|constructor].
Qed.

Section push_loop.
Context {B : Type} (f : EncryptedMutation → SM (conn tables) string B) (answer : B → N) (ns : string).
Hypothesis f_spec : ∀ m c b c', log_inv (cn_db c) → f m c = (Ok b, c') →
  log_inv (cn_db c') ∧ rest_of (cn_db c') = rest_of (cn_db c) ∧
  log_appends ns [m] (log_of (cn_db c)) [answer b] (log_of (cn_db c')).

Lemma push_loop_spec ms c bs c' : log_inv (cn_db c) → map_each f ms c = (Ok bs, c') →
  log_inv (cn_db c') ∧ rest_of (cn_db c') = rest_of (cn_db c) ∧
  log_appends ns ms (log_of (cn_db c)) (map answer bs) (log_of (cn_db c')).
Proof.
  revert c bs. induction ms as [|m ms IH]; intros c bs Hinv Hrun.
  { injection Hrun as <- <-. split_and!; [done..|]. constructor. }
  apply sm_bind_ok_inv in Hrun as (b & c1 & Hf & Hrun).
  apply sm_bind_ok_inv in Hrun as (bs' & c2 & Hloop & [= <- <-]).
  apply f_spec in Hf as (Hinv1 & Hrest1 & Happ1); [|done].
  apply IH in Hloop as (Hinv2 & Hrest2 & Happ2); [|done].
  split_and!; [done|by rewrite Hrest2|]. by eapply appends_cons.
Qed.
End push_loop.

(** What a push leaves of the older log. *)
Lemma appends_prefix ns ms l seqs l' : log_appends ns ms l seqs l' →
  ∃ added, l'.1 = l.1 ++ added ∧ (l.2 ≤ l'.2)%Z ∧
    (∀ row, row ∈ added → mu_namespace row = ns ∧ (l.2 < mu_sequence row ≤ l'.2)%Z).
Proof.
  induction 1 as [log last|m ms row log last seqs log' Hin Hid H IH|m ms seq log last seqs log' Hnew Hseq H IH].
  - exists []. rewrite app_nil_r. split_and!; [done|lia|by intros ? ?%elem_of_nil].
  - done.
  - destruct IH as (added & Heq & Hle & Hadd). simpl in *.
    exists (row_of ns seq m :: added). split_and!; [by rewrite Heq, <-app_assoc|lia|].
    intros row [->|Hrow]%elem_of_cons; simpl; [split; [done|lia]|].
    destruct (Hadd row Hrow). split; [done|lia].
Qed.

(** ** The coordinators *)

Import SqliteCoordinator.

Definition sq_db (c : t) : tables := cn_db (rw_val (sq_conn c)).
Definition sq_log (c : t) : list mutation_row * Z := log_of (sq_db c).

(** The connection is usable and no statement will fail. *)
Definition sq_ready (c : t) : Prop :=
  rw_poisoned (sq_conn c) = false ∧ cn_outcomes (rw_val (sq_conn c)) = [].

Lemma run_inv {A} (q : Q A) c r c' : run q c = (r, c') → sq_sent c' = sq_sent c ∧
  ((∃ e, r = Err e ∧ c' = c) ∨
   ∃ r0 k, q (rw_val (sq_conn c)) = (r0, k) ∧ rw_val (sq_conn c') = k ∧
     r = match r0 with Ok a => Ok a | Err e => Err (Internal e) end).
Proof.
  unfold run. destruct (rw_poisoned _) eqn:Hp.
  { intros [= <- <-]. split; [done|]. left. by eexists. }
  destruct (q _) as [r0 k] eqn:Hq. intros [= <- <-]. split; [done|]. right. by exists r0, k.
Qed.

Lemma sqlite_push_one_spec ns m c b c' : log_inv (cn_db c) → push_one ns m c = (Ok b, c') →
  log_inv (cn_db c') ∧ rest_of (cn_db c') = rest_of (cn_db c) ∧
  log_appends ns [m] (log_of (cn_db c)) [b.1] (log_of (cn_db c')).
Proof.
  intros Hinv Hrun. apply sm_bind_ok_inv in Hrun as (seq & c1 & Hrun & [= <- <-]).
  by eapply insert_or_lookup_spec.
Qed.

Lemma postgres_push_one_spec ns m c seq c' : log_inv (cn_db c) →
  PostgresCoordinator.push_one ns m c = (Ok seq, c') →
  log_inv (cn_db c') ∧ rest_of (cn_db c') = rest_of (cn_db c) ∧
  log_appends ns [m] (log_of (cn_db c)) [seq] (log_of (cn_db c')).
Proof.
  intros Hinv Hrun. eapply insert_or_lookup_spec; [|done|exact Hrun].
  intros skip db x db'. unfold PostgresCoordinator.checked. by destruct (forallb _ _).
Qed.

(** A transaction that pushes, at the level of the connection. *)
Lemma push_transaction {B} (body : SM (conn tables) string (list B)) (answer : B → N) ns ms c r c' :
  (∀ c0 bs c1, log_inv (cn_db c0) → body c0 = (Ok bs, c1) →
     log_inv (cn_db c1) ∧ rest_of (cn_db c1) = rest_of (cn_db c0) ∧
     log_appends ns ms (log_of (cn_db c0)) (map answer bs) (log_of (cn_db c1))) →
  log_inv (cn_db c) → transaction body c = (r, c') →
  log_inv (cn_db c') ∧
  match r with
  | Err _ => cn_db c' = cn_db c
  | Ok bs => rest_of (cn_db c') = rest_of (cn_db c) ∧
      log_appends ns ms (log_of (cn_db c)) (map answer bs) (log_of (cn_db c'))
  end.
Proof.
  intros Hbody Hinv Hrun. destruct r as [bs|e].
  - apply transaction_ok in Hrun as (c1 & c2 & H1 & Hrun & H2).
    apply Hbody in Hrun as (Hinv' & Hrest & Happ); [|by rewrite H1].
    rewrite H2, <-H1. done.
  - apply transaction_err in Hrun. by rewrite Hrun.
Qed.

Lemma find_id_ok ent db : ent ∈ mu_id <$> tb_mutations db → is_ok (lookup_sequence ent db) = true.
Proof.
  intros Hin. unfold lookup_sequence. destruct (find _ _) as [row|] eqn:Hf; [done|].
  apply list_elem_of_fmap in Hin as (row & -> & Hrow). apply list_elem_of_In in Hrow.
  pose proof (find_none _ _ Hf row Hrow) as Hno. unfold row_has_id in Hno.
  by rewrite bool_decide_eq_true_2 in Hno.
Qed.

(** Without failures and with room in the sequence, every mutation is taken. *)
Lemma insert_or_lookup_ready ns m db : (tb_last_sequence db < I64_MAX)%Z →
  ∃ seq db', insert_or_lookup (insert_mutation ns m) (em_id m) (Conn db []) = (Ok seq, Conn db' []) ∧
    (tb_last_sequence db' ≤ tb_last_sequence db + 1)%Z.
Proof.
  intros Hroom. unfold insert_or_lookup, insert_mutation. sm_unfold. cbn.
  destruct (existsb _ _) eqn:Hex.
  - pose proof (find_id_ok (em_id m) db) as Hok. rewrite existsb_id in Hex. specialize (Hok Hex).
    cbn. destruct (lookup_sequence _ _) as [z|]; [|done]. eexists _, db. split; [reflexivity|lia].
  - destruct (Z.leb_spec (tb_last_sequence db + 1 + 0) I64_MAX); [|lia].
    eexists _, _. split; [reflexivity|]. cbn. lia.
Qed.

Lemma push_loop_ready ns ms db : (tb_last_sequence db + Z.of_nat (length ms) ≤ I64_MAX)%Z →
  ∃ bs db', map_each (push_one ns) ms (Conn db []) = (Ok bs, Conn db' []).
Proof.
  revert db. induction ms as [|m ms IH]; intros db Hroom; [by eexists [], db|].
  destruct (insert_or_lookup_ready ns m db) as (seq & db1 & Hone & Hle); [simpl in Hroom; lia|].
  assert (∃ b, push_one ns m (Conn db []) = (Ok b, Conn db1 [])) as [b Hb].
  { unfold push_one. rewrite (sm_bind_ok _ _ _ _ _ Hone). by eexists. }
  destruct (IH db1) as (bs & db2 & Hbs); [simpl in Hroom; lia|].
  exists (b :: bs), db2. cbn [map_each]. rewrite (sm_bind_ok _ _ _ _ _ Hb).
  by rewrite (sm_bind_ok _ _ _ _ _ Hbs).
Qed.

Lemma sqlite_push_ready ns ms c : sq_ready c →
  (tb_last_sequence (sq_db c) + Z.of_nat (length ms) ≤ I64_MAX)%Z →
  ∃ seqs c', push ns ms c = (Ok seqs, c') ∧ sq_ready c'.
Proof.
  destruct c as [[[db o] p] sent]. intros [Hp Ho] Hroom. cbn in Hp, Ho. subst p o.
  destruct (push_loop_ready ns ms db Hroom) as (bs & db' & Hrun).
  assert ((prepare;; prepare;; map_each (push_one ns) ms) (Conn db []) = (Ok bs, Conn db' [])) as Hbody.
  { by do 2 erewrite sm_bind_ok by reflexivity. }
  apply transaction_reliable in Hbody. unfold push.
  erewrite sm_bind_ok; [|unfold run; cbn [sq_conn rw_poisoned rw_val]; rewrite Hbody; reflexivity].
  by eexists _, _.
Qed.

(** ** Reading the log *)

Lemma select_after_sorted ns after db : log_inv db →
  select_after ns after db =
  filterb (λ row, bool_decide (mu_namespace row = ns) && (after <? mu_sequence row)%Z) (tb_mutations db).
Proof.
  intros Hinv. apply stable_sort_id.
  apply (StronglySorted_weaken seq_below); [unfold seq_below, sequence_le; lia|].
  eapply StronglySorted_sublist; [apply sublist_filterb|apply Hinv].
Qed.

Lemma pull_ready ns after limit c : sq_ready c → log_inv (sq_db c) →
  fits_i64 after = true → fits_i64 (N.of_nat limit) = true →
  pull ns after limit c =
  (match collect pending_of (take limit (filterb (λ row, bool_decide (mu_namespace row = ns) &&
            (Z.of_N after <? mu_sequence row)%Z) (tb_mutations (sq_db c)))) with
   | Ok ms => Ok ms
   | Err e => Err (Internal e)
   end, c).
Proof.
  destruct c as [[[db o] p] sent]. intros [Hp Ho] Hinv Hafter Hlimit. cbn in Hp, Ho. subst p o.
  unfold pull, run. cbn [sq_conn rw_poisoned rw_val].
  do 2 erewrite sm_bind_ok by reflexivity.
  erewrite sm_bind_ok by (unfold convert; by rewrite to_sql_fits).
  erewrite sm_bind_ok by (unfold convert; by rewrite to_sql_fits).
  erewrite sm_bind_ok by reflexivity. unfold convert. cbn [cn_db].
  rewrite select_after_sorted by done.
  replace (Z.to_nat (Z.of_N (N.of_nat limit))) with limit by lia. done.
Qed.

(** The mutations a push of new ids appends. *)
Lemma appends_all_fresh ns ms l seqs l' : log_appends ns ms l seqs l' →
  NoDup (em_id <$> ms) → (∀ m, m ∈ ms → em_id m ∉ mu_id <$> l.1) →
  ∃ zs, length zs = length ms ∧ seqs = map Z.to_N zs ∧ l'.1 = l.1 ++ zip_with (row_of ns) zs ms ∧
    Forall (λ z, l.2 < z ≤ I64_MAX)%Z zs.
Proof.
  induction 1 as [log last|m ms row log last seqs log' Hin Hid H IH|m ms seq log last seqs log' Hnew Hseq H IH];
    intros Hnd Hfresh; simpl in *.
  - exists []. rewrite app_nil_r. by split_and!.
  - destruct (Hfresh m); [left|]. rewrite <-Hid. apply list_elem_of_fmap. by exists row.
  - apply NoDup_cons in Hnd as [Hm Hnd].
    destruct IH as (zs & Hlen & -> & Hlog & Hzs); [done| |].
    { intros m' Hm'. rewrite fmap_app. apply not_elem_of_app.
      split; [apply Hfresh; by right|]. intros Heq%list_elem_of_singleton. simpl in Heq.
      apply Hm. rewrite <-Heq. apply list_elem_of_fmap. by exists m'. }
    exists (seq :: zs). simpl. split_and!; [by rewrite Hlen|done|by rewrite Hlog, <-app_assoc|].
    constructor; [done|]. eapply Forall_impl; [exact Hzs|]. simpl. lia.
Qed.

(** A mutation whose numbers fit the columns comes back as it was pushed. *)
Definition representable (m : EncryptedMutation) : bool :=
  fits_i64 (em_timestamp m) && fits_i64 (em_key_version m).

Definition as_pending (ns : string) (seq : N) (m : EncryptedMutation) : PendingMutation :=
  PendingMutation_new (em_id m) ns seq (em_doc_id m) (em_record_id m) (em_encrypted_blob m)
    (em_timestamp m) (em_key_version m) (em_replica_id m).

Lemma pending_of_row ns z m : representable m = true → (0 < z)%Z →
  pending_of (row_of ns z m) = Ok (as_pending ns (Z.to_N z) m).
Proof.
  intros [Ht Hk]%andb_true_iff Hz. unfold pending_of. simpl.
  rewrite !from_to_sql, from_sql_nonneg by (done || lia). done.
Qed.

Lemma collect_rows ns zs ms : length zs = length ms → Forall (λ z, 0 < z)%Z zs →
  forallb representable ms = true →
  collect pending_of (zip_with (row_of ns) zs ms) = Ok (zip_with (as_pending ns) (map Z.to_N zs) ms).
Proof.
  revert ms. induction zs as [|z zs IH]; intros [|m ms] Hlen Hz Hms; try done. simpl in *.
  apply andb_true_iff in Hms as [Hm Hms]. apply Forall_cons in Hz as [Hz Hzs].
  rewrite pending_of_row by done. rewrite IH by (done || lia). done.
Qed.

Lemma sqlite_push_spec ns ms c r c' : log_inv (sq_db c) → push ns ms c = (r, c') →
  log_inv (sq_db c') ∧
  match r with
  | Ok seqs => log_appends ns ms (sq_log c) seqs (sq_log c') ∧ rest_of (sq_db c') = rest_of (sq_db c) ∧
      ∃ msgs, sq_sent c' = sq_sent c ++ msgs ∧ length msgs = length seqs
  | Err _ => sq_db c' = sq_db c ∧ sq_sent c' = sq_sent c
  end.
Proof.
  intros Hinv Hpush. unfold push, mbind, sm_bind in Hpush.
  destruct (run _ c) as [[bs|e] c1] eqn:Hrun.
  - injection Hpush as <- <-. apply run_inv in Hrun as [Hsent [(? & ? & _)|(r0 & k & Htx & Hk & Hr)]]; [done|].
    destruct r0 as [bs'|]; [|done]. injection Hr as <-.
    apply (push_transaction _ fst ns ms) in Htx as (Hinv' & Hrest & Happ); [|clear|done].
    + unfold sq_log, sq_db. cbn [sq_conn sq_sent]. rewrite Hk, Hsent. split_and!; [done..|].
      exists (map snd bs). by rewrite !length_map.
    + intros c0 bs c1 Hinv Hrun. apply sm_bind_ok_inv in Hrun as ([] & k1 & Hp1 & Hrun).
      apply sm_bind_ok_inv in Hrun as ([] & k2 & Hp2 & Hrun).
      apply prepare_db in Hp1. apply prepare_db in Hp2. rewrite Hp1 in Hp2.
      apply (push_loop_spec _ fst ns (sqlite_push_one_spec ns)) in Hrun; [|by rewrite Hp2].
      by rewrite Hp2 in Hrun.
  - injection Hpush as <- <-. apply run_inv in Hrun as [Hsent [(? & _ & ->)|(r0 & k & Htx & Hk & Hr)]]; [done|].
    destruct r0 as [|]; [done|]. apply transaction_err in Htx.
    unfold sq_db. by rewrite Hk, Htx.
Qed.

(** C37: A push to the SQLite coordinator is atomic and appends to one ordered
    log, whatever statements fail and whatever gaps SQLite leaves: if it fails,
    the tables are as before and nothing is broadcast; if it succeeds, a
    mutation whose id is known answers the sequence of its row, and the others
    are appended in order under sequences above all earlier ones, so that the
    rows stay strictly ordered and the ids unique.  A push on a working
    connection whose sequence has room succeeds. *)
Theorem sqlite_push_refines_log ns ms c r c' : log_inv (sq_db c) → push ns ms c = (r, c') →
  log_inv (sq_db c') ∧
  match r with
  | Ok seqs => log_appends ns ms (sq_log c) seqs (sq_log c') ∧ rest_of (sq_db c') = rest_of (sq_db c)
  | Err _ => sq_db c' = sq_db c ∧ sq_sent c' = sq_sent c
  end ∧
  (sq_ready c → (tb_last_sequence (sq_db c) + Z.of_nat (length ms) ≤ I64_MAX)%Z → is_ok r = true).
Proof.
  intros Hinv Hpush. pose proof (sqlite_push_spec ns ms c r c' Hinv Hpush) as (Hinv' & Hres).
  split; [done|]. split; [destruct r; [by destruct Hres as (? & ? & _)|done]|].
  intros Hready Hroom. destruct (sqlite_push_ready ns ms c Hready Hroom) as (seqs & c1 & Hok & _).
  rewrite Hok in Hpush. by injection Hpush as <- <-.
Qed.

(** What is pushed to the SQLite coordinator is pulled back: pushing
    mutations with new, distinct ids succeeds, and a pull from the last
    sequence before it returns exactly these mutations, field for field, in the
    order of the batch and under the sequences the push answered. *)
Theorem sqlite_push_then_pull ns ms limit c :
  log_inv (sq_db c) → sq_ready c →
  NoDup (em_id <$> ms) → (∀ m, m ∈ ms → em_id m ∉ mu_id <$> (sq_log c).1) →
  forallb representable ms = true →
  (tb_last_sequence (sq_db c) + Z.of_nat (length ms) ≤ I64_MAX)%Z →
  length ms ≤ limit → fits_i64 (N.of_nat limit) = true →
  ∃ seqs c', push ns ms c = (Ok seqs, c') ∧ length seqs = length ms ∧
    pull ns (Z.to_N (tb_last_sequence (sq_db c))) limit c' = (Ok (zip_with (as_pending ns) seqs ms), c').
Proof.
  intros Hinv Hready Hnd Hfresh Hrep Hroom Hlimit Hfits.
  destruct (sqlite_push_ready ns ms c Hready Hroom) as (seqs & c' & Hpush & Hready').
  pose proof (sqlite_push_spec ns ms c _ c' Hinv Hpush) as (Hinv' & Happ & _).
  apply appends_all_fresh in Happ as (zs & Hlen & -> & Hlog & Hzs); [|done..].
  pose proof (li_last _ Hinv) as Hlast.
  exists (map Z.to_N zs), c'. split_and!; [done|by rewrite length_map|].
  rewrite pull_ready; [|done|done| |done].
  2:{ unfold fits_i64. apply Z.leb_le. lia. }
  unfold sq_log, log_of in Hlog. simpl in Hlog, Hzs. rewrite Hlog, filterb_app.
  rewrite filterb_none, app_nil_l.
  2:{ intros row Hrow. pose proof (li_bound _ Hinv row Hrow). apply andb_false_intro2, Z.ltb_ge. lia. }
  rewrite filterb_all, take_ge.
  - rewrite collect_rows; [done|done| |done]. eapply Forall_impl; [exact Hzs|]. simpl. lia.
  - rewrite length_zip_with. lia.
  - intros row Hrow. apply elem_of_lookup_zip_with in Hrow as (i & z & m & -> & Hz & Hm).
    eapply Forall_lookup_1 in Hz; [|exact Hzs]. simpl in *.
    apply andb_true_intro. split; [by apply bool_decide_eq_true|]. apply Z.ltb_lt. lia.
Qed.

(** A time stamp of 2^63 or more is accepted by a push to the SQLite
    coordinator, stored as a negative number, and refused when it is read: from
    then on every pull of the namespace that reaches the mutation fails. *)
Theorem sqlite_large_timestamp_blocks_pull ns m c :
  log_inv (sq_db c) → sq_ready c → em_id m ∉ mu_id <$> (sq_log c).1 →
  fits_i64 (em_timestamp m) = false → (em_timestamp m ≤ U64_MAX)%N →
  (tb_last_sequence (sq_db c) < I64_MAX)%Z →
  ∃ seq c', push ns [m] c = (Ok [seq], c') ∧
    ∀ after limit, (after < seq)%N → length (tb_mutations (sq_db c')) ≤ limit →
      fits_i64 (N.of_nat limit) = true →
      ∃ e, pull ns after limit c' = (Err (Internal e), c').
Proof.
  intros Hinv Hready Hfresh Hts Hmax Hroom.
  destruct (sqlite_push_ready ns [m] c Hready) as (seqs & c' & Hpush & Hready'); [simpl; lia|].
  pose proof (sqlite_push_spec ns [m] c _ c' Hinv Hpush) as (Hinv' & Happ & _).
  apply appends_all_fresh in Happ as (zs & Hlen & -> & Hlog & Hzs);
    [|by apply NoDup_singleton|by intros ? ->%list_elem_of_singleton].
  destruct zs as [|z [|]]; try done. simpl in *.
  rewrite Forall_singleton in Hzs. pose proof (li_last _ Hinv) as Hlast.
  exists (Z.to_N z), c'. split; [done|]. intros after limit Hafter Hlimit Hfits.
  unfold sq_log, log_of in Hzs. simpl in Hzs.
  rewrite pull_ready; [|done|done|unfold fits_i64; apply Z.leb_le; lia|done].
  rewrite take_ge by (etrans; [apply sublist_length, sublist_filterb|done]).
  destruct (collect_err pending_of (filterb (λ row, bool_decide (mu_namespace row = ns) &&
    (Z.of_N after <? mu_sequence row)%Z) (tb_mutations (sq_db c'))) (row_of ns z m) out_of_range) as [e ->].
  - apply elem_of_filterb. split.
    + simpl. rewrite bool_decide_eq_true_2 by done. apply Z.ltb_lt. lia.
    + unfold sq_log, log_of in Hlog. simpl in Hlog. rewrite Hlog. apply elem_of_app. right. by left.
  - unfold pending_of. simpl. rewrite from_sql_nonneg by lia.
    pose proof (as_i64_large _ Hts Hmax). unfold from_sql.
    destruct (Z.leb_spec 0 (as_i64 (em_timestamp m))); [lia|done].
  - by exists e.
Qed.

Lemma row_unique_id log a b : NoDup (mu_id <$> log) → a ∈ log → b ∈ log → mu_id a = mu_id b → a = b.
Proof.
  intros Hnd [i Hi]%list_elem_of_lookup [j Hj]%list_elem_of_lookup Hid.
  assert (i = j) as ->; [|congruence].
  apply (NoDup_lookup _ i j (mu_id a) Hnd); rewrite list_lookup_fmap;
    [by rewrite Hi|rewrite Hj; simpl; by rewrite Hid].
Qed.

Lemma appends_known_id ns m row l seqs l' : NoDup (mu_id <$> l.1) → row ∈ l.1 → mu_id row = em_id m →
  log_appends ns [m] l seqs l' → seqs = [Z.to_N (mu_sequence row)] ∧ l' = l.
Proof.
  intros Hnd Hrow Hid Happ.
  inversion Happ as [|? ? row' ? ? ? ? Hin' Hid' H|? ? ? ? ? ? ? Hnew Hseq H]; subst; simpl in *.
  - inversion H; subst. rewrite (row_unique_id log row' row) by congruence. done.
  - destruct Hnew. rewrite <-Hid. apply list_elem_of_fmap. by exists row.
Qed.

Lemma tables_eq a b : log_of a = log_of b → rest_of a = rest_of b → a = b.
Proof. destruct a, b. unfold log_of, rest_of. simpl. congruence. Qed.

(** The ids of mutations are unique across all namespaces of a SQL
    coordinator: pushing a mutation whose id a row of another namespace has is
    acknowledged with the sequence of that row, and not stored. *)
Theorem sqlite_foreign_id_dropped ns m row c seqs c' :
  log_inv (sq_db c) → row ∈ (sq_log c).1 → mu_id row = em_id m → mu_namespace row ≠ ns →
  push ns [m] c = (Ok seqs, c') →
  seqs = [Z.to_N (mu_sequence row)] ∧ sq_db c' = sq_db c ∧
  ∀ row', row' ∈ (sq_log c').1 → mu_namespace row' = ns → mu_id row' ≠ em_id m.
Proof.
  intros Hinv Hrow Hid Hns Hpush.
  pose proof (sqlite_push_spec ns [m] c _ c' Hinv Hpush) as (Hinv' & Happ & Hrest & _).
  apply (appends_known_id _ _ row) in Happ as [-> Hlog]; [|apply Hinv|done..].
  assert (sq_db c' = sq_db c) as Hdb by by apply tables_eq.
  split_and!; [done..|]. unfold sq_log. rewrite Hdb. intros row' Hrow' Hns' Hid'.
  apply Hns. rewrite <-Hns'. f_equal. eapply (row_unique_id (tb_mutations (sq_db c))); [apply Hinv|done..|].
  by rewrite Hid, Hid'.
Qed.

(** ** Compaction *)

Lemma execute_inv {A} (f : tables → A * tables) c a c' :
  execute f c = (Ok a, c') → f (cn_db c) = (a, cn_db c').
Proof.
  intros [(? & ? & _)|[skip H]]%statement_inv; [done|]. destruct (f (cn_db c)). by injection H as -> ->.
Qed.

Definition covered_by (ns : string) (snaps : list ((string * string) * snapshot_row)) (row : mutation_row) : bool :=
  existsb (λ s, row_covered ns s.1.1 s.1.2 (sr_sequence s.2) row) snaps.

Lemma compact_loop_spec ns snaps acc c res c' : compact_loop ns snaps acc c = (Ok res, c') →
  tb_mutations (cn_db c') = filterb (λ row, negb (covered_by ns snaps row)) (tb_mutations (cn_db c)) ∧
  tb_last_sequence (cn_db c') = tb_last_sequence (cn_db c) ∧ rest_of (cn_db c') = rest_of (cn_db c) ∧
  res.1 + length (tb_mutations (cn_db c')) = acc.1 + length (tb_mutations (cn_db c)).
Proof.
  revert acc c. induction snaps as [|s snaps IH]; intros acc c Hrun.
  { injection Hrun as <- <-. split_and!; try done. by rewrite filterb_all. }
  apply sm_bind_ok_inv in Hrun as (acc' & c1 & Hturn & Hrun).
  apply sm_bind_ok_inv in Hturn as (deleted & c2 & Hex & [= <- <-]).
  apply execute_inv in Hex. unfold delete_covered in Hex. injection Hex as <- Hdb.
  apply IH in Hrun as (Hm & Hl & Hr & Hcount). rewrite <-Hdb in *. simpl in *.
  set (cov := row_covered ns s.1.1 s.1.2 (sr_sequence s.2)) in *. split_and!; [|done..|].
  - rewrite Hm, filterb_filterb. apply filterb_ext. intros row _. simpl. by rewrite negb_orb.
  - rewrite Hcount. pose proof (filterb_split_length cov (tb_mutations (cn_db c))) as Hsplit.
    destruct (0 <? _) eqn:Hpos; simpl; [lia|]. apply Nat.ltb_ge in Hpos. lia.
Qed.

Lemma log_inv_filter p db db' : tb_mutations db' = filterb p (tb_mutations db) →
  tb_last_sequence db' = tb_last_sequence db → log_inv db → log_inv db'.
Proof.
  intros Hm Hl [Hs Hb Hlast Hi]. split; rewrite ?Hm, ?Hl.
  - eapply StronglySorted_sublist; [apply sublist_filterb|done].
  - intros row [_ Hrow]%elem_of_filterb. by apply Hb.
  - done.
  - eapply sublist_NoDup; [done|]. apply fmap_sublist, sublist_filterb.
Qed.

Lemma sqlite_compact_spec ns c r c' : compact_oplog ns c = (r, c') →
  sq_sent c' = sq_sent c ∧
  match r with
  | Err _ => sq_db c' = sq_db c
  | Ok stats =>
      tb_mutations (sq_db c') =
        filterb (λ row, negb (covered_by ns (select_snapshots ns (sq_db c)) row)) (tb_mutations (sq_db c)) ∧
      tb_last_sequence (sq_db c') = tb_last_sequence (sq_db c) ∧ rest_of (sq_db c') = rest_of (sq_db c) ∧
      cs_oplog_removed stats + length (tb_mutations (sq_db c')) = length (tb_mutations (sq_db c))
  end.
Proof.
  intros Hrun. apply run_inv in Hrun as [Hsent [(e & -> & ->)|(r0 & k & Htx & Hk & ->)]]; [done|].
  split; [done|]. unfold sq_db. rewrite Hk. destruct r0 as [stats|e]; [|by apply transaction_err in Htx].
  apply transaction_ok in Htx as (c1 & c2 & H1 & Hrun & H2). rewrite H2, <-H1.
  apply sm_bind_ok_inv in Hrun as ([] & c3 & Hp & Hrun).
  apply sm_bind_ok_inv in Hrun as (snaps & c4 & Hq & Hrun).
  apply sm_bind_ok_inv in Hrun as ([] & c5 & Hp' & Hrun).
  apply sm_bind_ok_inv in Hrun as ([removed collapsed] & c6 & Hloop & [= <- <-]).
  apply prepare_db in Hp. apply prepare_db in Hp'.
  pose proof (query_db _ _ _ _ Hq) as Hqdb.
  apply statement_inv in Hq as [(? & ? & _)|[_ [= <- _]]]; [done|].
  apply compact_loop_spec in Hloop as (Hm & Hl & Hr & Hcount).
  rewrite Hp', Hqdb, Hp in *. simpl in *. done.
Qed.

(** ** Histories *)

Inductive command :=
  | CPush (ns : string) (ms : list EncryptedMutation)
  | CCompact (ns : string)
  | CRegister (now : Z) (ns : string) (info : ReplicaInfo)
  | CUpdateKey (ns replica_id : string) (key : bytes) (version : N)
  | CStoreRow (ns : string) (s : Snapshot) (bs : bytes).

(** A command, with the sequences it acknowledged. *)
Definition exec (cmd : command) (c : t) : list (string * N) * t :=
  match cmd with
  | CPush ns ms =>
      match push ns ms c with
      | (Ok seqs, c') => (zip (em_id <$> ms) seqs, c')
      | (Err _, c') => ([], c')
      end
  | CCompact ns => ([], (compact_oplog ns c).2)
  | CRegister now ns info => ([], (register now ns info 0 c).2)
  | CUpdateKey ns r k v => ([], (update_replica_key ns r k v c).2)
  | CStoreRow ns s bs => ([], (run (execute (upsert_snapshot ns s bs)) c).2)
  end.

Fixpoint execs (cmds : list command) (c : t) : list (string * N) * t :=
  match cmds with
  | [] => ([], c)
  | cmd :: cmds =>
      let '(acks, c1) := exec cmd c in
      let '(acks', c2) := execs cmds c1 in
      (acks ++ acks', c2)
  end.

(** A new database whose statements will end as given. *)
Definition opened (outcomes : list outcome) : t := mk (rw_new (Conn initialize outcomes)) [].

(** The acknowledged sequences against the log: each is at most the last one
    given out, and belongs to one id. *)
Record acks_inv (l : list mutation_row * Z) (acks : list (string * N)) : Prop := {
  ai_bound ent seq : (ent, seq) ∈ acks → (0 < Z.of_N seq ≤ l.2)%Z;
  ai_row ent seq row : (ent, seq) ∈ acks → row ∈ l.1 → mu_sequence row = Z.of_N seq → mu_id row = ent;
  ai_unique ent ent' seq : (ent, seq) ∈ acks → (ent', seq) ∈ acks → ent = ent';
}.

Definition rows_ok (l : list mutation_row * Z) : Prop :=
  (0 ≤ l.2)%Z ∧ (∀ row, row ∈ l.1 → (0 < mu_sequence row ≤ l.2)%Z) ∧
  (∀ a b, a ∈ l.1 → b ∈ l.1 → mu_sequence a = mu_sequence b → a = b).

Lemma log_inv_rows_ok db : log_inv db → rows_ok (log_of db).
Proof.
  intros [Hs Hb [Hl _] _]. split_and!; [done..|]. simpl. clear Hb Hl.
  induction Hs as [|x l Hs IH Hall]; [by intros ? ? ?%elem_of_nil|].
  rewrite Forall_forall in Hall. unfold seq_below in Hall.
  intros a b [->|Ha]%elem_of_cons [->|Hb]%elem_of_cons Heq; [done| | |by apply IH].
  - specialize (Hall b Hb). lia.
  - specialize (Hall a Ha). lia.
Qed.

Lemma acks_known l acks row ent : rows_ok l → acks_inv l acks → row ∈ l.1 → mu_id row = ent →
  acks_inv l (acks ++ [(ent, Z.to_N (mu_sequence row))]).
Proof.
  intros (H0 & Hb & Hu) [Ab Ar Au] Hrow Hid. pose proof (Hb row Hrow) as Hpos.
  split.
  - intros e s [H|[= -> ->]%list_elem_of_singleton]%elem_of_app; [by eapply Ab|lia].
  - intros e s row' [H|[= -> ->]%list_elem_of_singleton]%elem_of_app Hrow' Heq; [by eapply Ar|].
    by rewrite (Hu row' row) by (done || lia).
  - intros e e' s [H|[= -> ->]%list_elem_of_singleton]%elem_of_app [H'|H']%elem_of_app.
    + by eapply Au.
    + apply list_elem_of_singleton in H' as [= -> ->]. symmetry. rewrite <-Hid.
      eapply Ar; [done|done|lia].
    + rewrite <-Hid. eapply Ar; [done|done|lia].
    + by apply list_elem_of_singleton in H' as [= ->].
Qed.

Lemma rows_ok_snoc log last ns seq m : rows_ok (log, last) → (last < seq)%Z →
  rows_ok (log ++ [row_of ns seq m], seq).
Proof.
  intros (H0 & Hb & Hu) Hseq. simpl in *. split_and!; simpl; [lia| |].
  - intros row [H| ->%list_elem_of_singleton]%elem_of_app; [specialize (Hb row H)|simpl]; lia.
  - intros a b [Ha| ->%list_elem_of_singleton]%elem_of_app [Hb'|H]%elem_of_app Heq.
    + by apply Hu.
    + apply list_elem_of_singleton in H as ->. specialize (Hb a Ha). simpl in Heq. lia.
    + specialize (Hb b Hb'). simpl in Heq. lia.
    + by apply list_elem_of_singleton in H as ->.
Qed.

Lemma acks_fresh log last acks ns seq m : rows_ok (log, last) → acks_inv (log, last) acks → (last < seq)%Z →
  acks_inv (log ++ [row_of ns seq m], seq) (acks ++ [(em_id m, Z.to_N seq)]).
Proof.
  intros (H0 & Hb & Hu) [Ab Ar Au] Hseq. simpl in *. split; simpl.
  - intros e s [H|[= -> ->]%list_elem_of_singleton]%elem_of_app; [specialize (Ab e s H)|]; lia.
  - intros e s row [H|[= -> ->]%list_elem_of_singleton]%elem_of_app [Hr|Hr]%elem_of_app Heq.
    + by eapply Ar.
    + apply list_elem_of_singleton in Hr as ->. simpl in Heq. specialize (Ab e s H). lia.
    + specialize (Hb row Hr). lia.
    + by apply list_elem_of_singleton in Hr as ->.
  - intros e e' s [H|[= -> ->]%list_elem_of_singleton]%elem_of_app [H'|H']%elem_of_app.
    + by eapply Au.
    + apply list_elem_of_singleton in H' as [= -> ->]. specialize (Ab e _ H). lia.
    + specialize (Ab e' _ H'). lia.
    + by apply list_elem_of_singleton in H' as [= ->].
Qed.

Lemma acks_appends ns ms l seqs l' acks : log_appends ns ms l seqs l' → rows_ok l → acks_inv l acks →
  acks_inv l' (acks ++ zip (em_id <$> ms) seqs).
Proof.
  intros Happ. revert acks.
  induction Happ as [log last|m ms row log last seqs log' Hin Hid H IH|m ms seq log last seqs log' Hnew Hseq H IH];
    intros acks Hok Hacks; simpl.
  - by rewrite app_nil_r.
  - rewrite cons_middle, app_assoc. apply IH; [done|]. by apply acks_known.
  - rewrite cons_middle, app_assoc. apply IH; [by apply (rows_ok_snoc log last); [|lia]|].
    apply (acks_fresh log last); [done..|lia].
Qed.

(** A command that leaves the log alone. *)
Lemma run_execute_log {A} (f : tables → A * tables) c :
  (∀ db, log_of (f db).2 = log_of db) → log_of (sq_db (run (execute f) c).2) = log_of (sq_db c).
Proof.
  intros Hf. destruct (run (execute f) c) as [r c'] eqn:Hrun.
  apply run_inv in Hrun as [_ [(e & _ & ->)|(r0 & k & Hq & Hk & _)]]; [done|].
  unfold sq_db. simpl. rewrite Hk.
  apply statement_inv in Hq as [(? & _ & Heq)|[skip Hq]]; [by rewrite Heq|].
  specialize (Hf (cn_db (rw_val (sq_conn c)))). destruct (f _). by injection Hq as _ <-.
Qed.

Lemma update_replica_log ns r f db : log_of (update_replica ns r f db).2 = log_of db.
Proof. unfold update_replica. simpl. by destruct (select_replica ns r db). Qed.

Lemma register_log now ns info c : log_of (sq_db (register now ns info 0 c).2) = log_of (sq_db c).
Proof.
  destruct (register now ns info 0 c) as [r c'] eqn:Hrun.
  apply run_inv in Hrun as [_ [(e & _ & ->)|(r0 & k & Hq & Hk & _)]]; [done|].
  unfold sq_db. simpl. rewrite Hk. destruct r0 as [[]|e]; [|by apply transaction_err in Hq as ->].
  apply transaction_ok in Hq as (c1 & c2 & H1 & Hq & H2). rewrite H2, <-H1.
  apply sm_bind_ok_inv in Hq as ([] & c3 & Ha & Hb).
  apply execute_inv in Ha, Hb. injection Ha as Ha. injection Hb as Hb. by rewrite <-Hb, <-Ha.
Qed.

Lemma exec_acks cmd c acks : log_inv (sq_db c) → acks_inv (sq_log c) acks →
  log_inv (sq_db (exec cmd c).2) ∧ acks_inv (sq_log (exec cmd c).2) (acks ++ (exec cmd c).1).
Proof.
  intros Hinv Hacks. assert (∀ c', log_of (sq_db c') = log_of (sq_db c) →
    log_inv (sq_db c') ∧ acks_inv (sq_log c') (acks ++ [])) as Hsame.
  { intros c' Heq. rewrite app_nil_r. unfold sq_log. rewrite Heq. split; [|done].
    by eapply log_inv_same. }
  destruct cmd as [ns ms|ns|now ns info|ns r k v|ns s bs]; simpl.
  - destruct (push ns ms c) as [r c'] eqn:Hpush.
    pose proof (sqlite_push_spec ns ms c r c' Hinv Hpush) as (Hinv' & Hres).
    destruct r as [seqs|e]; simpl.
    + destruct Hres as (Happ & _). split; [done|].
      eapply acks_appends; [done| |done]. by apply log_inv_rows_ok.
    + destruct Hres as [Hdb _]. apply Hsame. by rewrite Hdb.
  - destruct (compact_oplog ns c) as [r c'] eqn:Hrun.
    apply sqlite_compact_spec in Hrun as [_ Hres]. simpl. destruct r as [stats|e].
    + destruct Hres as (Hm & Hl & _ & _). split; [by eapply log_inv_filter|].
      rewrite app_nil_r. destruct Hacks as [Ab Ar Au]. unfold sq_log, log_of in *. simpl in *.
      rewrite Hl. split; simpl; [done| |done].
      intros ent seq row Ha Hrow Heq. rewrite Hm in Hrow. apply elem_of_filterb in Hrow as [_ Hrow].
      by eapply Ar.
    + apply Hsame. by rewrite Hres.
  - apply Hsame, register_log.
  - apply Hsame, run_execute_log. intros db. apply update_replica_log.
  - apply Hsame, run_execute_log. done.
Qed.

Lemma execs_acks cmds c acks : log_inv (sq_db c) → acks_inv (sq_log c) acks →
  log_inv (sq_db (execs cmds c).2) ∧ acks_inv (sq_log (execs cmds c).2) (acks ++ (execs cmds c).1).
Proof.
  revert c acks. induction cmds as [|cmd cmds IH]; intros c acks Hinv Hacks; simpl.
  { by rewrite app_nil_r. }
  pose proof (exec_acks cmd c acks Hinv Hacks) as [Hinv1 Hacks1].
  destruct (exec cmd c) as [a1 c1]. simpl in *.
  specialize (IH c1 (acks ++ a1) Hinv1 Hacks1) as [Hinv2 Hacks2].
  destruct (execs cmds c1) as [a2 c2]. simpl in *. by rewrite app_assoc.
Qed.

(** Over any history of pushes, compactions, registrations, key updates
    and stored snapshots on a new SQLite database, with any failures of its
    statements, the rows of the log stay ordered with unique ids, and no
    sequence is ever acknowledged for two different mutations, even after
    compaction removed the rows. *)
Theorem sqlite_sequences_never_reused outcomes cmds :
  let '(acks, c) := execs cmds (opened outcomes) in
  log_inv (sq_db c) ∧
  ∀ ent ent' seq, (ent, seq) ∈ acks → (ent', seq) ∈ acks → ent = ent'.
Proof.
  pose proof (execs_acks cmds (opened outcomes) [] log_inv_initialize) as H.
  destruct (execs cmds (opened outcomes)) as [acks c]. simpl in H.
  destruct H as [Hinv [_ _ Hu]]; [by split; intros * ?%elem_of_nil|done].
Qed.

(** The table of replicas of a SQL coordinator is keyed by the replica
    alone: registering a replica in a second namespace takes it out of the
    first, where its key is no longer found. *)
Theorem sqlite_register_moves_replica now ns ns' info last c :
  sq_ready c → ns ≠ ns' →
  ∃ c', register now ns' info last c = (Ok tt, c') ∧
    get_replica_key ns (ri_replica_id info) c' = (Ok None, c') ∧
    ∃ infos, list_replicas ns c' = (Ok infos, c') ∧ ∀ i, i ∈ infos → ri_replica_id i ≠ ri_replica_id info.
Proof.
  destruct c as [[[db o] p] sent]. intros [Hp Ho] Hns. cbn in Hp, Ho. subst p o.
  pose (db' := (upsert_schema_version ns' (as_i64 (ri_schema_version info))
    (replace_replica now ns' info db).2).2).
  exists (mk (rw_new (Conn db' [])) sent). split; [reflexivity|].
  assert (∃ row, tb_replicas db' !! ri_replica_id info = Some row ∧ re_namespace row = ns') as (row & Hrow & Hre).
  { eexists. split; [apply lookup_insert_eq|done]. }
  clearbody db'. split.
  - assert (select_replica ns (ri_replica_id info) db' = None) as Hnone.
    { unfold select_replica. rewrite Hrow. rewrite bool_decide_eq_false_2; [done|congruence]. }
    unfold get_replica_key, run. sm_unfold. cbn. by rewrite Hnone.
  - eexists. split; [reflexivity|]. intros i (p & -> & Hi)%list_elem_of_fmap.
    apply elem_of_filterb in Hi as [Hp Hin]. destruct p as [r row']. apply elem_of_map_to_list in Hin.
    simpl in *. intros ->. apply bool_decide_eq_true in Hp. congruence.
Qed.

(** ** Subscriptions to the SQLite coordinator *)

Definition pm_before (a b : PendingMutation) : Prop := (pm_sequence a < pm_sequence b)%N.

(** The states of a subscription: it starts on some state of the database and
    takes events while the database changes. *)
Inductive sub_reachable (ns : string) (from : N) : subscription → Prop :=
  | reach_start c s c' : log_inv (sq_db c) → subscribe ns from c = (Ok s, c') → sub_reachable ns from s
  | reach_turn s e c s' c' : sub_reachable ns from s → log_inv (sq_db c) →
      sub_turn ns e s c = (Ok s', c') → sub_reachable ns from s'.

Record sub_ordered (ns : string) (from : N) (s : subscription) : Prop := {
  so_sorted : StronglySorted pm_before (su_out s);
  so_from : (from ≤ su_last_sent s)%N;
  so_bound m : m ∈ su_out s → pm_namespace m = ns ∧ (from < pm_sequence m ≤ su_last_sent s)%N;
}.

Lemma pending_of_fields row m : pending_of row = Ok m →
  pm_namespace m = mu_namespace row ∧ Z.of_N (pm_sequence m) = mu_sequence row.
Proof.
  unfold pending_of, from_sql.
  destruct (Z.leb_spec 0 (mu_sequence row)), (0 <=? mu_timestamp row)%Z, (0 <=? mu_key_version row)%Z;
    try done. intros [= <-]. simpl. split; [done|lia].
Qed.

Definition row_message (row : mutation_row) : option PendingMutation :=
  match pending_of row with Ok m => Some m | Err _ => None end.

Lemma omap_rows_sorted rows : StronglySorted seq_below rows →
  StronglySorted pm_before (omap row_message rows).
Proof.
  induction 1 as [|row rows Hs IH Hall]; simpl; [constructor|].
  unfold row_message at 1. destruct (pending_of row) as [m|] eqn:Hm; [|done].
  constructor; [done|]. apply Forall_forall. intros m' (row' & Hrow' & Hm')%list_elem_of_omap.
  unfold row_message in Hm'. destruct (pending_of row') as [m0|] eqn:Hm0; [|done]. injection Hm' as ->.
  apply pending_of_fields in Hm, Hm0. rewrite Forall_forall in Hall.
  specialize (Hall row' Hrow'). unfold seq_below, pm_before in *. lia.
Qed.

Lemma foldl_max_bound ms last : (last ≤ foldl (λ n m, N.max n (pm_sequence m)) last ms)%N ∧
  ∀ m, m ∈ ms → (pm_sequence m ≤ foldl (λ n m, N.max n (pm_sequence m)) last ms)%N.
Proof.
  revert last. induction ms as [|m ms IH]; intros last; simpl; [split; [lia|by intros ? ?%elem_of_nil]|].
  destruct (IH (N.max last (pm_sequence m))) as [H1 H2]. split; [lia|].
  intros m' [->|Hm]%elem_of_cons; [lia|by apply H2].
Qed.

Lemma send_all_ordered ns from s ms : sub_ordered ns from s → StronglySorted pm_before ms →
  (∀ m, m ∈ ms → pm_namespace m = ns ∧ (su_last_sent s < pm_sequence m)%N) →
  sub_ordered ns from (send_all ms s).
Proof.
  intros [Hs Hf Hb] Hms Hnew. destruct (foldl_max_bound ms (su_last_sent s)) as [H1 H2].
  split; simpl.
  - apply StronglySorted_app_2; [|done..]. intros a b Ha Hb'.
    destruct (Hb a Ha), (Hnew b Hb'). unfold pm_before. lia.
  - lia.
  - intros m [Hm|Hm]%elem_of_app.
    + destruct (Hb m Hm). split; [done|lia].
    + destruct (Hnew m Hm). split; [done|]. specialize (H2 m Hm). lia.
Qed.

(** What a query of the log finds, if it succeeds. *)
Lemma stored_after_ok ns after c ms c' : log_inv (cn_db c) → stored_after ns after c = (Ok ms, c') →
  StronglySorted pm_before ms ∧ ∀ m, m ∈ ms → pm_namespace m = ns ∧ (after < pm_sequence m)%N.
Proof.
  intros Hinv Hrun. apply sm_bind_ok_inv in Hrun as ([] & c1 & Hp & Hrun).
  apply sm_bind_ok_inv in Hrun as (z & c2 & Hz & Hrun). injection Hz as Hz <-.
  apply sm_bind_ok_inv in Hrun as (rows & c3 & Hq & [= <- <-]).
  apply prepare_db in Hp. apply statement_inv in Hq as [(? & ? & _)|[_ [= <- _]]]; [done|].
  rewrite Hp, select_after_sorted by done.
  unfold to_sql in Hz. destruct (Z.of_N after <=? I64_MAX)%Z; [|done]. injection Hz as <-. split.
  - apply omap_rows_sorted. eapply StronglySorted_sublist; [apply sublist_filterb|apply Hinv].
  - intros m (row & Hrow & Hm)%list_elem_of_omap.
    apply elem_of_filterb in Hrow as [[Hns Hlt]%andb_true_iff _].
    apply bool_decide_eq_true in Hns. apply Z.ltb_lt in Hlt.
    destruct (pending_of row) as [m0|] eqn:Hm0; [|done]. injection Hm as ->.
    apply pending_of_fields in Hm0 as [Hn Hseq]. split; [congruence|lia].
Qed.

Lemma catch_up_ordered ns from s c s' c' : log_inv (sq_db c) → sub_ordered ns from s →
  catch_up ns s c = (Ok s', c') → sub_ordered ns from s'.
Proof.
  intros Hinv Hord Hrun. apply sm_bind_ok_inv in Hrun as (found & c1 & Htry & [= <- <-]).
  unfold sm_try in Htry. destruct (run _ c) as [r c2] eqn:Hrun. injection Htry as -> ->.
  apply run_inv in Hrun as [_ [(e & -> & _)|(r0 & k & Hq & _ & ->)]]; [done|].
  destruct r0 as [ms|e]; [|done]. apply stored_after_ok in Hq as [Hs Hb]; [|done].
  by apply send_all_ordered.
Qed.

(** A subscriber to the SQLite coordinator gets the mutations of its
    namespace in strictly ascending order of their sequences, all above the
    one it asked for, so none twice: whatever is broadcast, also again by a
    retried push, and however often it falls behind and reads the log again. *)
Theorem sqlite_subscription_ordered ns from s : sub_reachable ns from s →
  StronglySorted pm_before (su_out s) ∧
  ∀ m, m ∈ su_out s → pm_namespace m = ns ∧ (from < pm_sequence m ≤ su_last_sent s)%N.
Proof.
  intros Hreach. assert (sub_ordered ns from s) as [? ? ?]; [|done].
  induction Hreach as [c s c' Hinv Hsub|s e c s' c' Hreach IH Hinv Hturn].
  - eapply catch_up_ordered; [done| |exact Hsub]. split; simpl; [constructor|lia|by intros ? ?%elem_of_nil].
  - destruct e as [m|]; [|by eapply catch_up_ordered].
    injection Hturn as <- _. destruct (bool_decide _ && _) eqn:Hnew; [|done].
    apply andb_true_iff in Hnew as [Hns Hlt]. apply bool_decide_eq_true in Hns. apply N.ltb_lt in Hlt.
    replace (Sub (pm_sequence m) (su_out s ++ [m])) with (send_all [m] s)
      by (unfold send_all; simpl; f_equal; lia).
    apply send_all_ordered; [done|repeat constructor|]. by intros ? ->%list_elem_of_singleton.
Qed.

(** A subscriber that fell behind has caught up with the log after it read it. *)
Lemma sqlite_lag_recovers ns s c : sq_ready c → log_inv (sq_db c) → fits_i64 (su_last_sent s) = true →
  ∃ s', sub_turn ns Lagged s c = (Ok s', c) ∧
    su_out s' = su_out s ++ omap row_message (filterb (λ row, bool_decide (mu_namespace row = ns) &&
      (Z.of_N (su_last_sent s) <? mu_sequence row)%Z) (tb_mutations (sq_db c))).
Proof.
  destruct c as [[[db o] p] sent]. intros [Hp Ho] Hinv Hfits. cbn in Hp, Ho. subst p o.
  unfold sub_turn, catch_up.
  assert (stored_after ns (su_last_sent s) (Conn db []) = (Ok (omap row_message
    (filterb (λ row, bool_decide (mu_namespace row = ns) &&
      (Z.of_N (su_last_sent s) <? mu_sequence row)%Z) (tb_mutations db))), Conn db [])) as Hq.
  { unfold stored_after. erewrite sm_bind_ok by reflexivity.
    erewrite sm_bind_ok by (unfold convert; by rewrite to_sql_fits).
    erewrite sm_bind_ok by reflexivity. cbn [cn_db]. by rewrite select_after_sorted. }
  erewrite sm_bind_ok by (unfold sm_try, run; cbn [sq_conn rw_poisoned rw_val]; rewrite Hq; reflexivity).
  by eexists.
Qed.

(** ** Witnesses *)

Definition sample_push (ent : string) : EncryptedMutation :=
  EncryptedMutation_new ent "ns" "replica" "todos" "r1" [1%N; 2%N] 1000 1 1.
Definition sample_late : EncryptedMutation :=
  EncryptedMutation_new "late" "ns" "replica" "todos" "r1" [1%N] U64_MAX 1 1.

(** A database with one mutation, and one whose second push meets a failing
    statement. *)
Definition sample_sq : t := (push "ns" [sample_push "a"] (opened [])).2.

Lemma sample_sq_inv : log_inv (sq_db sample_sq).
Proof.
  destruct (push "ns" [sample_push "a"] (opened [])) as [r c] eqn:Hpush.
  unfold sample_sq. rewrite Hpush. by eapply (sqlite_push_spec _ _ (opened [])); [apply log_inv_initialize|exact Hpush].
Qed.

Lemma sqlite_push_refines_log_witness :
  let c := opened [Runs 0; Runs 0; Runs 0; Runs 2; Runs 0; Faults "disk full"] in
  let '(r, c') := push "ns" [sample_push "a"; sample_push "a"; sample_push "b"] c in
  is_ok r = false ∧ log_inv (sq_db c').
Proof.
  destruct (push "ns" [sample_push "a"; sample_push "a"; sample_push "b"]
    (opened [Runs 0; Runs 0; Runs 0; Runs 2; Runs 0; Faults "disk full"])) as [r c'] eqn:Hpush.
  cbv zeta. rewrite Hpush. split; [by vm_compute in Hpush; injection Hpush as <- _|].
  apply (sqlite_push_refines_log "ns" [sample_push "a"; sample_push "a"; sample_push "b"]
    (opened [Runs 0; Runs 0; Runs 0; Runs 2; Runs 0; Faults "disk full"]) r c'); [apply log_inv_initialize|done].
Defined.

Lemma sqlite_push_then_pull_witness :
  ∃ seqs c', push "ns" [sample_push "b"; sample_push "c"] sample_sq = (Ok seqs, c') ∧ length seqs = 2 ∧
    pull "ns" 1 10 c' = (Ok (zip_with (as_pending "ns") seqs [sample_push "b"; sample_push "c"]), c').
Proof.
  apply (sqlite_push_then_pull "ns" [sample_push "b"; sample_push "c"] 10 sample_sq).
  - exact sample_sq_inv.
  - by vm_compute.
  - apply (bool_decide_unpack _). by vm_compute.
  - apply Forall_forall. repeat constructor; apply (bool_decide_unpack _); by vm_compute.
  - reflexivity.
  - apply Z.leb_le. reflexivity.
  - simpl. lia.
  - reflexivity.
Defined.

Lemma sqlite_large_timestamp_blocks_pull_witness :
  ∃ seq c', push "ns" [sample_late] sample_sq = (Ok [seq], c') ∧
    ∀ after limit, (after < seq)%N → length (tb_mutations (sq_db c')) ≤ limit →
      fits_i64 (N.of_nat limit) = true → ∃ e, pull "ns" after limit c' = (Err (Internal e), c').
Proof.
  apply (sqlite_large_timestamp_blocks_pull "ns" sample_late sample_sq).
  - exact sample_sq_inv.
  - by vm_compute.
  - apply (bool_decide_unpack _). by vm_compute.
  - reflexivity.
  - apply N.leb_le. reflexivity.
  - apply Z.ltb_lt. reflexivity.
Defined.

Lemma sqlite_foreign_id_dropped_witness :
  ∃ seqs c', push "other" [sample_push "a"] sample_sq = (Ok seqs, c') ∧ seqs = [1%N].
Proof.
  eexists _, _. split; [by vm_compute|].
  by eapply (sqlite_foreign_id_dropped "other" (sample_push "a") (row_of "ns" 1 (sample_push "a")) sample_sq);
    [exact sample_sq_inv|vm_compute; left|vm_compute|vm_compute|vm_compute].
Defined.

Lemma sqlite_register_moves_replica_witness :
  ∃ c', register 5 "ns2" (ReplicaInfo_new "replica" "ns2" [7%N] 1) 0 sample_sq = (Ok tt, c') ∧
    get_replica_key "ns" "replica" c' = (Ok None, c').
Proof.
  destruct (sqlite_register_moves_replica 5 "ns" "ns2" (ReplicaInfo_new "replica" "ns2" [7%N] 1) 0 sample_sq)
    as (c' & H1 & H2 & _); [by vm_compute|done|]. by exists c'.
Defined.

Lemma sqlite_subscription_ordered_witness :
  ∃ s, sub_reachable "ns" 0 s ∧ length (su_out s) = 1 ∧ StronglySorted pm_before (su_out s).
Proof.
  destruct (subscribe "ns" 0 sample_sq) as [[s|] c] eqn:Hsub; [|by vm_compute in Hsub].
  exists s. assert (sub_reachable "ns" 0 s) as Hr by by eapply reach_start; [exact sample_sq_inv|].
  split_and!; [done|by vm_compute in Hsub; injection Hsub as <- _|].
  by apply (sqlite_subscription_ordered "ns" 0 s Hr).
Defined.

(** ** The Postgres coordinator

    Its log is that of the SQLite coordinator; what differs is the notification
    after the commit, the conversions of integers and the paging of
    subscriptions. *)

Import PostgresCoordinator.

Definition pg_db (c : t) : tables := cn_db (pg_client c).
Definition pg_log (c : t) : list mutation_row * Z := log_of (pg_db c).
Definition pg_ready (c : t) : Prop := cn_outcomes (pg_client c) = [].

Lemma pg_push_spec ns ms c r c' : log_inv (pg_db c) → push ns ms c = (r, c') →
  log_inv (pg_db c') ∧
  match r with
  | Ok seqs => log_appends ns ms (pg_log c) seqs (pg_log c') ∧ pg_notified c' = pg_notified c ++ [ns]
  | Err _ => pg_notified c' = pg_notified c ∧
      (pg_db c' = pg_db c ∨ ∃ seqs, log_appends ns ms (pg_log c) seqs (pg_log c'))
  end.
Proof.
  intros Hinv Hpush. unfold push, mbind, sm_bind in Hpush.
  destruct (run (transaction _) c) as [r1 c1] eqn:Hrun. unfold run in Hrun.
  destruct (transaction _ (pg_client c)) as [r0 k] eqn:Htx. injection Hrun as <- <-.
  apply (push_transaction _ id ns ms) in Htx as [Hinv1 Htx]; [| |done].
  2:{ intros c0 bs c2 Hinv0 Hloop.
      by apply (push_loop_spec _ id ns (postgres_push_one_spec ns)) in Hloop. }
  destruct r0 as [seqs|e]; simpl in Hpush.
  - destruct Htx as [_ Happ]. rewrite map_id in Happ.
    unfold notify, mbind, sm_bind, run in Hpush. cbn [pg_client] in Hpush.
    destruct (prepare k) as [rn k'] eqn:Hn. apply prepare_db in Hn.
    destruct rn as [[]|e]; injection Hpush as <- <-; unfold pg_log, pg_db in *; cbn; rewrite Hn.
    + done.
    + split; [done|]. split; [done|]. right. by exists seqs.
  - injection Hpush as <- <-. split; [done|]. split; [done|]. by left.
Qed.

(** A push to the Postgres coordinator appends to one ordered log.  If it
    fails, nothing was stored, or the whole batch was committed and only the
    notification of the subscribers failed; the caller is told the same, and a
    retry answers the sequences of the rows that are there. *)
Theorem postgres_push_refines_log ns ms c r c' : log_inv (pg_db c) → push ns ms c = (r, c') →
  log_inv (pg_db c') ∧
  match r with
  | Ok seqs => log_appends ns ms (pg_log c) seqs (pg_log c') ∧ pg_notified c' = pg_notified c ++ [ns]
  | Err _ => pg_notified c' = pg_notified c ∧
      (pg_db c' = pg_db c ∨ ∃ seqs, log_appends ns ms (pg_log c) seqs (pg_log c'))
  end.
Proof.
  apply pg_push_spec.
Qed.

(** ** Paging *)

Lemma pg_pending_of_row ns z m : (0 < z)%Z → (em_timestamp m ≤ U64_MAX)%N → (em_key_version m ≤ U64_MAX)%N →
  pending_of (row_of ns z m) = as_pending ns (Z.to_N z) m.
Proof. intros Hz Ht Hk. unfold pending_of, as_pending. simpl. by rewrite !as_u64_i64, as_u64_pos by (done || lia). Qed.

Definition above (ns : string) (after : Z) (row : mutation_row) : bool :=
  bool_decide (mu_namespace row = ns) && (after <? mu_sequence row)%Z.

Lemma select_page_ready ns after limit db : log_inv db → (0 ≤ limit)%Z →
  select_page ns after limit (Conn db []) =
  (Ok (take (Z.to_nat limit) (filterb (above ns after) (tb_mutations db))), Conn db []).
Proof.
  intros Hinv Hlim. unfold select_page, statement. cbn [cn_outcomes cn_db].
  destruct (Z.ltb_spec limit 0); [lia|]. by rewrite select_after_sorted.
Qed.

(** In a sorted list, what is above the last element of a page is what follows
    the page. *)
Lemma above_page ns after rows page x rest : StronglySorted seq_below rows →
  filterb (above ns after) rows = page ++ x :: rest → filterb (above ns (mu_sequence x)) rows = rest.
Proof.
  intros Hs Heq.
  assert (filterb (above ns (mu_sequence x)) rows =
    filterb (above ns (mu_sequence x)) (filterb (above ns after) rows)) as ->.
  { rewrite filterb_filterb. apply filterb_ext. intros row _. unfold above.
    assert (x ∈ filterb (above ns after) rows) as [Hx _]%elem_of_filterb.
    { rewrite Heq. apply elem_of_app. right. by left. }
    apply andb_true_iff in Hx as [_ Hx]. apply Z.ltb_lt in Hx.
    destruct (bool_decide _); simpl; [|done].
    destruct (Z.ltb_spec (mu_sequence x) (mu_sequence row)), (Z.ltb_spec after (mu_sequence row)); lia || done. }
  assert (∀ row, row ∈ filterb (above ns after) rows → mu_namespace row = ns) as Hns.
  { intros row [H _]%elem_of_filterb. by apply andb_true_iff in H as [H%bool_decide_eq_true _]. }
  assert (StronglySorted seq_below (page ++ x :: rest)) as Hsort.
  { rewrite <-Heq. eapply StronglySorted_sublist; [apply sublist_filterb|done]. }
  rewrite Heq in *. rewrite filterb_app, filterb_none.
  - simpl. unfold above at 1. rewrite (Hns x) by (apply elem_of_app; right; by left).
    rewrite bool_decide_eq_true_2, Z.ltb_irrefl by done. simpl. apply filterb_all.
    intros row Hrow. apply StronglySorted_app_1_r in Hsort. inversion Hsort as [|? ? _ Hall]; subst.
    rewrite Forall_forall in Hall. specialize (Hall row Hrow). unfold seq_below in Hall.
    unfold above. rewrite (Hns row) by (apply elem_of_app; right; by right).
    rewrite bool_decide_eq_true_2 by done. by apply Z.ltb_lt.
  - intros row Hrow. apply andb_false_intro2, Z.ltb_ge.
    assert (seq_below row x) as H; [|unfold seq_below in H; lia].
    eapply (StronglySorted_app_1_elem_of _ page (x :: rest)); [done..|]. by left.
Qed.

Lemma page_last_sent last page x :
  StronglySorted seq_below (page ++ [x]) →
  (∀ row, row ∈ page ++ [x] → (Z.of_N last < mu_sequence row)%Z) →
  foldl (λ n m, N.max n (pm_sequence m)) last (map pending_of (page ++ [x])) = Z.to_N (mu_sequence x).
Proof.
  intros Hs Hlast. rewrite map_app, foldl_app. simpl.
  assert (Z.of_N last < mu_sequence x)%Z as Hx by (apply Hlast, elem_of_app; right; by left).
  rewrite as_u64_pos by lia.
  assert (foldl (λ n m, N.max n (pm_sequence m)) last (map pending_of page) ≤ Z.to_N (mu_sequence x))%N; [|lia].
  assert (∀ row, row ∈ page → (0 ≤ mu_sequence row ≤ mu_sequence x)%Z) as Hle.
  { intros row Hrow. split; [specialize (Hlast row (proj2 (elem_of_app _ _ _) (or_introl Hrow))); lia|].
    assert (seq_below row x) as H; [|unfold seq_below in H; lia].
    eapply (StronglySorted_app_1_elem_of _ page [x]); [done..|]. by left. }
  assert (last ≤ Z.to_N (mu_sequence x))%N as H0 by lia. clear Hs Hlast Hx. revert last H0.
  induction page as [|row page IH]; intros last H0; simpl; [done|].
  apply IH; [intros; apply Hle; by right|].
  destruct (Hle row); [by left|]. rewrite as_u64_pos by lia. lia.
Qed.

Lemma fetch_pages_spec turns ns s c : pg_ready c → log_inv (pg_db c) → fits_i64 (su_last_sent s) = true →
  length (filterb (above ns (Z.of_N (su_last_sent s))) (tb_mutations (pg_db c))) < turns →
  ∃ s', fetch_pages turns ns s c = (Ok (true, s'), c) ∧
    su_out s' = su_out s ++
      map pending_of (filterb (above ns (Z.of_N (su_last_sent s))) (tb_mutations (pg_db c))).
Proof.
  destruct c as [[db o] sent]. unfold pg_ready, pg_db. cbn [pg_client cn_outcomes cn_db]. intros -> Hinv.
  revert s. induction turns as [|turns IH]; intros s Hfits Hlen; [lia|].
  set (rows := filterb (above ns (Z.of_N (su_last_sent s))) (tb_mutations db)) in *.
  cbn [fetch_pages].
  erewrite sm_bind_ok.
  2:{ unfold sm_try, run. cbn [pg_client]. rewrite as_i64_small by done.
      rewrite select_page_ready by (done || lia). rewrite Nat2Z.id. reflexivity. }
  cbn beta iota. fold rows. remember (take pull_limit rows) as page eqn:Hpage.
  destruct (Nat.ltb_spec (length page) pull_limit) as [Hshort|Hfull].
  - assert (page = rows) as ->. { rewrite Hpage in *. rewrite length_take in Hshort. apply take_ge. lia. }
    by eexists.
  - assert (length page = pull_limit) as Hpl. { rewrite Hpage, length_take in *. lia. }
    destruct (exists_last (l := page)) as (p & x & ->); [intros ->; by vm_compute in Hpl|].
    assert (rows = p ++ x :: drop pull_limit rows) as Hsplit.
    { rewrite <-(take_drop pull_limit rows) at 1. by rewrite <-Hpage, <-app_assoc. }
    assert (∀ row, row ∈ p ++ [x] → (Z.of_N (su_last_sent s) < mu_sequence row)%Z ∧ row ∈ tb_mutations db) as Hpos.
    { intros row Hrow. rewrite Hpage in Hrow. apply elem_of_take_mono, elem_of_filterb in Hrow as [Hrow Hin].
      by apply andb_true_iff in Hrow as [_ Hrow%Z.ltb_lt]. }
    assert (x ∈ p ++ [x]) as Hx by (apply elem_of_app; right; by left).
    pose proof (li_bound _ Hinv x (proj2 (Hpos x Hx))) as Hxb. pose proof (li_last _ Hinv) as Hl.
    assert (StronglySorted seq_below (p ++ [x])) as Hsorted.
    { rewrite Hpage. eapply StronglySorted_sublist; [apply sublist_take|].
      eapply StronglySorted_sublist; [apply sublist_filterb|apply Hinv]. }
    assert (su_last_sent (send_all (map pending_of (p ++ [x])) s) = Z.to_N (mu_sequence x)) as Hlast.
    { apply page_last_sent; [done|]. intros row Hrow. by apply Hpos. }
    assert (filterb (above ns (mu_sequence x)) (tb_mutations db) = drop pull_limit rows) as Hrest.
    { eapply above_page; [apply Hinv|exact Hsplit]. }
    destruct (IH (send_all (map pending_of (p ++ [x])) s)) as (s' & Hrun & Hout).
    + rewrite Hlast. unfold fits_i64. apply Z.leb_le. lia.
    + rewrite Hlast, Z2N.id, Hrest, length_drop by lia.
      assert (0 < pull_limit) by by apply Nat.ltb_lt.
      apply (f_equal length) in Hpage. rewrite length_take in Hpage. lia.
    + exists s'. split; [done|]. rewrite Hout, Hlast, Z2N.id, Hrest by lia. cbn [send_all su_out].
      rewrite <-app_assoc, <-map_app, Hpage. by rewrite take_drop.
Qed.

(** The paging loop of a Postgres subscription ends and is complete: on a
    working connection, with one turn more than there are mutations to send, it
    sends exactly the mutations of the namespace above the last one sent, in
    the order of their sequences. *)
Theorem postgres_fetch_complete turns ns s c :
  pg_ready c → log_inv (pg_db c) → fits_i64 (su_last_sent s) = true →
  length (filterb (above ns (Z.of_N (su_last_sent s))) (tb_mutations (pg_db c))) < turns →
  ∃ s', sub_turn turns ns (Notified ns) s c = (Ok (true, s'), c) ∧
    su_out s' = su_out s ++
      map pending_of (filterb (above ns (Z.of_N (su_last_sent s))) (tb_mutations (pg_db c))).
Proof.
  intros. unfold sub_turn. rewrite bool_decide_eq_true_2 by done. by apply fetch_pages_spec.
Qed.

(** A cursor of 2^63 or more is taken for a negative number: a pull then starts
    again at the first mutation. *)
Lemma postgres_large_cursor_restarts ns after limit c :
  pg_ready c → log_inv (pg_db c) → fits_i64 after = false → (after ≤ U64_MAX)%N →
  fits_i64 (N.of_nat limit) = true →
  pull ns after limit c =
    (Ok (map pending_of (take limit (filterb (λ row, bool_decide (mu_namespace row = ns)) (tb_mutations (pg_db c))))), c).
Proof.
  destruct c as [[db o] sent]. unfold pg_ready, pg_db. cbn [pg_client cn_outcomes cn_db].
  intros -> Hinv Hafter Hmax Hlimit. pose proof (as_i64_large after Hafter Hmax).
  unfold pull. erewrite sm_bind_ok.
  2:{ unfold run. cbn [pg_client]. rewrite select_page_ready; [reflexivity|done|].
      rewrite as_i64_small by done. lia. }
  rewrite as_i64_small by done. replace (Z.to_nat (Z.of_N (N.of_nat limit))) with limit by lia.
  erewrite (filterb_ext (above ns (as_i64 after))); [reflexivity|]. intros row Hrow.
  pose proof (li_bound _ Hinv row Hrow). unfold above.
  destruct (Z.ltb_spec (as_i64 after) (mu_sequence row)); [by rewrite andb_true_r|lia].
Qed.

(** ** Witnesses *)

Definition sample_pg : t := (push "ns" [sample_push "a"; sample_push "b"] new).2.

Lemma sample_pg_inv : log_inv (pg_db sample_pg).
Proof.
  destruct (push "ns" [sample_push "a"; sample_push "b"] new) as [r c] eqn:Hpush.
  unfold sample_pg. rewrite Hpush. by eapply (pg_push_spec _ _ new); [apply log_inv_initialize|exact Hpush].
Qed.

Lemma postgres_push_refines_log_witness :
  let '(r, c') := push "ns" [sample_push "a"; sample_push "c"]
    (mk (Conn (pg_db sample_pg) (repeat (Runs 0) 5 ++ [Faults "connection closed"])) []) in
  is_ok r = false ∧ log_inv (pg_db c') ∧ length (tb_mutations (pg_db c')) = 3.
Proof.
  destruct (push "ns" [sample_push "a"; sample_push "c"]
    (mk (Conn (pg_db sample_pg) (repeat (Runs 0) 5 ++ [Faults "connection closed"])) [])) as [r c'] eqn:Hpush.
  split_and!; [by vm_compute in Hpush; injection Hpush as <- _| |by vm_compute in Hpush; injection Hpush as _ <-].
  by apply (postgres_push_refines_log "ns" [sample_push "a"; sample_push "c"]
    (mk (Conn (pg_db sample_pg) (repeat (Runs 0) 5 ++ [Faults "connection closed"])) []) r c' sample_pg_inv).
Defined.

Lemma postgres_fetch_complete_witness :
  ∃ s', sub_turn 4 "ns" (Notified "ns") (Sub 0 []) sample_pg = (Ok (true, s'), sample_pg) ∧
    length (su_out s') = 2.
Proof.
  destruct (postgres_fetch_complete 4 "ns" (Sub 0 []) sample_pg) as (s' & Hrun & Hout).
  - reflexivity.
  - exact sample_pg_inv.
  - reflexivity.
  - apply Nat.ltb_lt. by vm_compute.
  - exists s'. split; [exact Hrun|]. rewrite Hout. by vm_compute.
Defined.
