(* ===== verification/RedisCoordinator.v ===== *)
(** * The Redis coordinator

    [vaultsync-coordinator-redis]: the log of a namespace is a Redis stream,
    the ids already pushed a set, replicas and keys hashes, snapshots plain
    values.  The server is a parameter: the class [Redis] of the commands the
    code sends, and the class [RedisSpec] of what its documentation says they do
    to an abstract key space.  Any command may fail. *)
From Stdlib Require Import Ascii.
From S2P Require Import Prelude Text Types Sql Document.

(** ** What the commands do *)

(** A reply as the client library decodes it. *)
Inductive Value := VNil | VInt (z : Z) | VData (d : bytes) | VBulk (l : list Value).

Abbreviation stream_id := (N * N)%type.
Abbreviation fields := (list (string * bytes)).

(** What a key holds. *)
Inductive kind :=
  | KStream (last : stream_id) (items : list (stream_id * fields))
  | KSet (members : gset string)
  | KHash (entries : gmap string string)
  | KText (value : bytes).

Abbreviation keyspace := (gmap string kind).

Definition wrong_type : string :=
  "WRONGTYPE Operation against a key holding the wrong kind of value".

Definition id_le (a b : stream_id) : bool := ((a.1 <? b.1) || ((a.1 =? b.1) && (a.2 <=? b.2)))%N.
Definition id_lt (a b : stream_id) : bool := ((a.1 <? b.1) || ((a.1 =? b.1) && (a.2 <? b.2)))%N.

Definition show_id (i : stream_id) : string := show_N i.1 +:+ String "-"%char (show_N i.2).
(** An id as an argument of a command. *)
Definition read_id (s : string) : option stream_id :=
  match split_once "-"%char s with
  | Some (ms, seq) =>
      match parse_u64 ms, parse_u64 seq with Some ms, Some seq => Some (ms, seq) | _, _ => None end
  | None => match parse_u64 s with Some ms => Some (ms, 0%N) | None => None end
  end.
Definition invalid_id : string := "ERR Invalid stream ID specified as stream command argument".

(** A command on the key space at the time [now] of the server. *)
Definition command (A : Type) := N → keyspace → result A string * keyspace.

Definition stream_at (key : string) (db : keyspace) : result (stream_id * list (stream_id * fields)) string :=
  match db !! key with
  | None => Ok ((0, 0)%N, [])
  | Some (KStream last items) => Ok (last, items)
  | Some _ => Err wrong_type
  end.

(** [SADD key member]: how many members are new. *)
Definition do_sadd (key member : string) : command nat := λ _ db,
  match db !! key with
  | None => (Ok 1, <[key := KSet {[member]}]> db)
  | Some (KSet ms) =>
      if bool_decide (member ∈ ms) then (Ok 0, db) else (Ok 1, <[key := KSet ({[member]} ∪ ms)]> db)
  | Some _ => (Err wrong_type, db)
  end.

Definition do_smembers (key : string) : command (list string) := λ _ db,
  match db !! key with
  | None => (Ok [], db)
  | Some (KSet ms) => (Ok (elements ms), db)
  | Some _ => (Err wrong_type, db)
  end.

(** The id [XADD key * ..] gives: the time, or the successor of the last id. *)
Definition next_id (now : N) (last : stream_id) : stream_id :=
  if (last.1 <? now)%N then (now, 0%N) else (last.1, last.2 + 1)%N.

Definition do_xadd (key : string) (fs : fields) : command string := λ now db,
  match stream_at key db with
  | Ok (last, items) =>
      let i := next_id now last in
      (Ok (show_id i), <[key := KStream i (items ++ [(i, fs)])]> db)
  | Err e => (Err e, db)
  end.

(** An entry of a stream in a reply. *)
Definition entry_value (e : stream_id * fields) : Value :=
  VBulk [VData (utf8 (show_id e.1));
         VBulk (flat_map (λ f : string * bytes, [VData (utf8 f.1); VData f.2]) e.2)].

(** [XRANGE key start end [COUNT n]]; [None] for the end is [+]. *)
Definition do_xrange (key start : string) (end_ : option string) (count : option nat) : command Value := λ _ db,
    match read_id start, (match end_ with Some e => Some <$> read_id e | None => Some None end) with
    | Some lo, Some hi =>
        match stream_at key db with
        | Ok (_, items) =>
            let found := filterb (λ e : stream_id * fields, id_le lo e.1 &&
              match hi with Some hi => id_le e.1 hi | None => true end) items in
            (Ok (VBulk (map entry_value match count with Some n => take n found | None => found end)), db)
        | Err e => (Err e, db)
        end
    | _, _ => (Err invalid_id, db)
    end.

(** [XREAD BLOCK ms COUNT n STREAMS key id] when there are entries, or the time
    is over. *)
Definition do_xread (count : nat) (key id : string) : command Value := λ _ db,
  match read_id id, stream_at key db with
  | Some after, Ok (_, items) =>
      match filterb (λ e : stream_id * fields, id_lt after e.1) items with
      | [] => (Ok VNil, db)
      | found => (Ok (VBulk [VBulk [VData (utf8 key); VBulk (map entry_value (take count found))]]), db)
      end
  | None, _ => (Err invalid_id, db)
  | _, Err e => (Err e, db)
  end.

(** [XDEL key id]: how many entries went. *)
Definition do_xdel (key id : string) : command nat := λ _ db,
  match read_id id with
  | None => (Err invalid_id, db)
  | Some i =>
      match db !! key with
      | None => (Ok 0, db)
      | Some (KStream last items) =>
          let rest := filterb (λ e : stream_id * fields, negb (bool_decide (e.1 = i))) items in
          (Ok (length items - length rest), <[key := KStream last rest]> db)
      | Some _ => (Err wrong_type, db)
      end
  end.

Definition do_hset (key field value : string) : command unit := λ _ db,
  match db !! key with
  | None => (Ok tt, <[key := KHash {[field := value]}]> db)
  | Some (KHash m) => (Ok tt, <[key := KHash (<[field := value]> m)]> db)
  | Some _ => (Err wrong_type, db)
  end.

Definition hash_at (key : string) (db : keyspace) : result (gmap string string) string :=
  match db !! key with
  | None => Ok ∅
  | Some (KHash m) => Ok m
  | Some _ => Err wrong_type
  end.

Definition do_hget (key field : string) : command (option string) := λ _ db,
  match hash_at key db with Ok m => (Ok (m !! field), db) | Err e => (Err e, db) end.
Definition do_hvals (key : string) : command (list string) := λ _ db,
  match hash_at key db with Ok m => (Ok (map snd (map_to_list m)), db) | Err e => (Err e, db) end.

(** [SET] replaces whatever the key held. *)
Definition do_set_value (key : string) (value : bytes) : command unit := λ _ db,
  (Ok tt, <[key := KText value]> db).
Definition do_get_value (key : string) : command (option bytes) := λ _ db,
  match db !! key with
  | None => (Ok None, db)
  | Some (KText v) => (Ok (Some v), db)
  | Some _ => (Err wrong_type, db)
  end.
(** [MGET]: a key that holds no plain value gives nothing. *)
Definition do_mget (keys : list string) : command (list (option bytes)) := λ _ db,
  (Ok (map (λ k, match db !! k with Some (KText v) => Some v | _ => None end) keys), db).

(** ** The server *)

Class Redis (D : Type) := {
  sadd : string → string → SM D string nat;
  smembers : string → SM D string (list string);
  xadd : string → fields → SM D string string;
  xrange : string → string → option string → option nat → SM D string Value;
  xread : nat → string → string → SM D string Value;
  xdel : string → string → SM D string nat;
  hset : string → string → string → SM D string unit;
  hget : string → string → SM D string (option string);
  hvals : string → SM D string (list string);
  set_value : string → bytes → SM D string unit;
  get_value : string → SM D string (option bytes);
  mget : list string → SM D string (list (option bytes));
}.

(** A command fails and changes nothing, or does what is documented; on a
    server that works ([live]) it does the latter. *)
Definition performs {D A} (view : D → keyspace) (live : D → Prop) (m : SM D string A) (f : command A) : Prop :=
  ∀ d r d', m d = (r, d') →
    ((∃ e, r = Err e ∧ view d' = view d ∧ ¬ live d) ∨ (∃ now, f now (view d) = (r, view d'))) ∧
    (live d → live d').

Class RedisSpec (D : Type) {HR : Redis D} := {
  rd_view : D → keyspace;
  rd_live : D → Prop;
  sadd_ok k m : performs rd_view rd_live (sadd k m) (do_sadd k m);
  smembers_ok k : performs rd_view rd_live (smembers k) (do_smembers k);
  xadd_ok k fs : performs rd_view rd_live (xadd k fs) (do_xadd k fs);
  xrange_ok k lo hi n : performs rd_view rd_live (xrange k lo hi n) (do_xrange k lo hi n);
  xread_ok n k i : performs rd_view rd_live (xread n k i) (do_xread n k i);
  xdel_ok k i : performs rd_view rd_live (xdel k i) (do_xdel k i);
  hset_ok k f v : performs rd_view rd_live (hset k f v) (do_hset k f v);
  hget_ok k f : performs rd_view rd_live (hget k f) (do_hget k f);
  hvals_ok k : performs rd_view rd_live (hvals k) (do_hvals k);
  set_value_ok k v : performs rd_view rd_live (set_value k v) (do_set_value k v);
  get_value_ok k : performs rd_view rd_live (get_value k) (do_get_value k);
  mget_ok ks : performs rd_view rd_live (mget ks) (do_mget ks);
}.

(** ** Sequences and stream ids *)

Definition stream_id_to_seq (id : string) : N :=
  let '(ms, seq) := default (id, "0") (split_once "-"%char id) in
  let ms := default 0%N (parse_u64 ms) in
  let seq := default 0%N (parse_u64 seq) in
  wrapping_add64 (wrapping_mul64 ms 1000000) seq.

Definition seq_to_stream_id (seq : N) : string :=
  show_N (seq / 1000000) +:+ String "-"%char (show_N (seq mod 1000000)).

(** [saturating_add(1)]. *)
Definition saturating_succ (n : N) : N := N.min (n + 1) U64_MAX.

(** ** Entries of the stream *)

(** The variables of the loop of [parse_stream_entry]. *)
Record parsed := Parsed {
  pa_id : option string;
  pa_doc_id : option string;
  pa_record_id : option string;
  pa_blob : option bytes;
  pa_timestamp : option N;
  pa_key_version : option N;
  pa_replica_id : option string;
}.

Definition parsed_none : parsed := Parsed None None None None None None None.

(** [if let Data(d) = v { x = Some(from_utf8(d).ok()?.to_string()) }]. *)
Definition parse_text (v : Value) (old : option string) : option (option string) :=
  match v with
  | VData d => match from_utf8 d with Some s => Some (Some s) | None => None end
  | _ => Some old
  end.

Definition parse_number (v : Value) (old : option N) : option (option N) :=
  match v with
  | VData d =>
      match from_utf8 d with
      | Some s => match parse_u64 s with Some n => Some (Some n) | None => None end
      | None => None
      end
  | VInt i => Some (Some (as_u64 i))
  | _ => Some old
  end.

(** The match on the name of a field. *)
Definition parse_field (key : string) (v : Value) (p : parsed) : option parsed :=
  let '(Parsed i d r b t k rep) := p in
  if bool_decide (key = "id") then i ← parse_text v i; Some (Parsed i d r b t k rep)
  else if bool_decide (key = "doc_id") then d ← parse_text v d; Some (Parsed i d r b t k rep)
  else if bool_decide (key = "record_id") then r ← parse_text v r; Some (Parsed i d r b t k rep)
  else if bool_decide (key = "blob") then
    Some (Parsed i d r (match v with VData bs => Some bs | _ => b end) t k rep)
  else if bool_decide (key = "ts") then t ← parse_number v t; Some (Parsed i d r b t k rep)
  else if bool_decide (key = "key_version") then k ← parse_number v k; Some (Parsed i d r b t k rep)
  else if bool_decide (key = "replica_id") then rep ← parse_text v rep; Some (Parsed i d r b t k rep)
  else Some p.

(** The loop over [fields.chunks_exact(2)]. *)
Fixpoint parse_fields (l : list Value) (p : parsed) : option parsed :=
  match l with
  | VData key :: v :: l =>
      key ← from_utf8 key;
      p ← parse_field key v p;
      parse_fields l p
  | _ :: _ :: l => parse_fields l p
  | _ => Some p
  end.

Definition parse_stream_entry (entry_val : Value) (ns : string) : option PendingMutation :=
  match entry_val with
  | VBulk [VData d; VBulk fs] =>
      id_str ← from_utf8 d;
      p ← parse_fields fs parsed_none;
      id ← pa_id p;
      doc_id ← pa_doc_id p;
      record_id ← pa_record_id p;
      blob ← pa_blob p;
      Some (PendingMutation_new id ns (stream_id_to_seq id_str) doc_id record_id blob
        (default 0%N (pa_timestamp p)) (default 1%N (pa_key_version p)) (default "" (pa_replica_id p)))
  | _ => None
  end.

(** ** [RedisCoordinator] *)

Module RedisCoordinator.
Section coordinator.
Context {D : Type} {HR : Redis D}.
(** [serde_json] for a replica and for a key with its version. *)
Context (replica_to_json : ReplicaInfo → result string string) (replica_from_json : string → option ReplicaInfo).
Context (key_to_json : bytes * N → result string string) (key_from_json : string → result (bytes * N) string).

Abbreviation M := (SM D CoordinatorError).

Definition run {A} (m : SM D string A) : M A := sm_map_err Internal m.

Definition stream_key (ns : string) : string := "vaultsync:" +:+ ns +:+ ":mutations".
Definition pushed_key (ns : string) : string := "vaultsync:" +:+ ns +:+ ":pushed".
Definition replicas_key (ns : string) : string := "vaultsync:" +:+ ns +:+ ":replicas".
Definition schema_key (ns : string) : string := "vaultsync:" +:+ ns +:+ ":schema_version".
Definition heartbeats_key (ns : string) : string := "vaultsync:" +:+ ns +:+ ":replicas:heartbeats".
Definition replica_keys_key (ns : string) : string := "vaultsync:" +:+ ns +:+ ":replica_keys".
Definition snapshot_key (ns doc_id record_id : string) : string :=
  "vaultsync:" +:+ ns +:+ ":snapshot:" +:+ doc_id +:+ ":" +:+ record_id.
Definition snapshot_keys_key (ns : string) : string := "vaultsync:" +:+ ns +:+ ":snapshot_keys".

(** The arguments of [XADD]. *)
Definition stream_fields (m : EncryptedMutation) : fields :=
  [("id", utf8 (em_id m)); ("replica_id", utf8 (em_replica_id m)); ("doc_id", utf8 (em_doc_id m));
   ("record_id", utf8 (em_record_id m)); ("blob", em_encrypted_blob m);
   ("ts", utf8 (show_N (em_timestamp m))); ("schema_version", utf8 (show_N (em_schema_version m)));
   ("key_version", utf8 (show_N (em_key_version m)))].

(** One turn of the loop of [push]. *)
Definition push_one (ns : string) (m : EncryptedMutation) : M N :=
  is_new ← run (sadd (pushed_key ns) (em_id m));
  if is_new =? 0 then mret 0%N
  else id ← run (xadd (stream_key ns) (stream_fields m)); mret (stream_id_to_seq id).

Definition push (ns : string) (ms : list EncryptedMutation) : M (list N) := map_each (push_one ns) ms.

Definition entries_of (v : Value) : list Value := match v with VBulk l => l | _ => [] end.

Definition pull (ns : string) (after : N) (limit : nat) : M (list PendingMutation) :=
  res ← run (xrange (stream_key ns) (seq_to_stream_id (saturating_succ after)) None (Some limit));
  mret (omap (λ e, parse_stream_entry e ns) (entries_of res)).

Definition register (ns : string) (info : ReplicaInfo) (_last_sequence : N) : M unit :=
  match replica_to_json info with
  | Err e => sm_fail (Internal e)
  | Ok info_str =>
      run (hset (replicas_key ns) (ri_replica_id info) info_str);;
      current ← run (get_value (schema_key ns));
      current ← match current with
                | Some bs => match from_utf8 bs with
                             | Some s => mret (default 0%N (parse_u64 s))
                             | None => sm_fail (Internal "Invalid UTF-8")
                             end
                | None => mret 0%N
                end;
      if (current <? ri_schema_version info)%N then
        run (set_value (schema_key ns) (utf8 (show_N (ri_schema_version info))))
      else mret tt
  end.

Definition heartbeat (now : N) (ns replica_id : string) : M unit :=
  run (hset (heartbeats_key ns) replica_id (show_N now)).

Definition schema_version (ns : string) : M N :=
  res ← run (get_value (schema_key ns));
  match res with
  | Some bs => match from_utf8 bs with
               | Some s => mret (default 0%N (parse_u64 s))
               | None => sm_fail (Internal "Invalid UTF-8")
               end
  | None => mret 0%N
  end.

Definition list_replicas (ns : string) : M (list ReplicaInfo) :=
  res ← run (hvals (replicas_key ns));
  mret (omap replica_from_json res).

Definition update_replica_key (ns replica_id : string) (public_key : bytes) (key_version : N) : M unit :=
  match key_to_json (public_key, key_version) with
  | Err e => sm_fail (Internal e)
  | Ok val => run (hset (replica_keys_key ns) replica_id val)
  end.

Definition get_replica_key (ns replica_id : string) : M (option (bytes * N)) :=
  res ← run (hget (replica_keys_key ns) replica_id);
  match res with
  | None => mret None
  | Some s => match key_from_json s with Ok k => mret (Some k) | Err e => sm_fail (Internal e) end
  end.

Section snapshots.
Context {K : SnapshotCodec} (error_display : VaultSyncError → string).

Definition get_snapshot (ns doc_id record_id : string) : M (option Snapshot) :=
  res ← run (get_value (snapshot_key ns doc_id record_id));
  match res with
  | None => mret None
  | Some bs =>
      match snapshot_decode bs with
      | Ok s => mret (Some s)
      | Err e => sm_fail (Internal (error_display e))
      end
  end.

Definition store_snapshot (ns : string) (s : Snapshot) : M unit :=
  let key := snapshot_key ns (sn_doc_id s) (sn_record_id s) in
  match snapshot_encode s with
  | Err e => sm_fail (Internal (error_display e))
  | Ok bs => run (set_value key bs);; run (sadd (snapshot_keys_key ns) key);; mret tt
  end.

Definition list_snapshots (ns : string) : M (list Snapshot) :=
  keys ← run (smembers (snapshot_keys_key ns));
  match keys with
  | [] => mret []
  | _ =>
      res ← run (mget keys);
      mret (omap (λ v, match v with
                       | Some bs => match snapshot_decode bs with Ok s => Some s | Err _ => None end
                       | None => None
                       end) res)
  end.

(** The inner loop of [compact_oplog]: delete every entry of the range. *)
Fixpoint delete_entries (ns : string) (entries : list Value) (removed : nat) : M nat :=
  match entries with
  | [] => mret removed
  | VBulk [VData id_bytes; _] :: entries =>
      match from_utf8 id_bytes with
      | Some stream_id =>
          deleted ← run (xdel (stream_key ns) stream_id);
          delete_entries ns entries (removed + deleted)
      | None => delete_entries ns entries removed
      end
  | _ :: entries => delete_entries ns entries removed
  end.

Fixpoint compact_loop (ns : string) (snaps : list Snapshot) (removed collapsed : nat) : M (nat * nat) :=
  match snaps with
  | [] => mret (removed, collapsed)
  | snap :: snaps =>
      res ← run (xrange (stream_key ns) "0-0" (Some (seq_to_stream_id (sn_sequence snap))) None);
      match res with
      | VBulk entries =>
          removed ← delete_entries ns entries removed;
          compact_loop ns snaps removed (S collapsed)
      | _ => compact_loop ns snaps removed collapsed
      end
  end.

Definition compact_oplog (ns : string) : M CompactionStats :=
  snaps ← list_snapshots ns;
  '(removed, collapsed) ← compact_loop ns snaps 0 0;
  mret (CompactionStats_new removed 0 collapsed).
End snapshots.

(** *** Subscriptions *)

(** The id to read after and what was sent. *)
Record subscription := Sub { su_last_id : string; su_out : list PendingMutation }.

Definition subscribe (from_sequence : N) : subscription :=
  Sub (if (from_sequence =? 0)%N then "0-0" else seq_to_stream_id from_sequence) [].

(** The entries of a reply of [XREAD]. *)
Definition read_entries (v : Value) : list Value :=
  flat_map (λ s, match s with VBulk [_; VBulk e] => e | _ => [] end) (entries_of v).

Definition deliver (ns : string) (s : subscription) (entry : Value) : subscription :=
  match entry with
  | VBulk [VData d; _] =>
      match from_utf8 d, parse_stream_entry entry ns with
      | Some id_str, Some m => Sub id_str (su_out s ++ [m])
      | _, _ => s
      end
  | _ => s
  end.

(** One turn of the loop; after an error the task sleeps and tries again. *)
Definition sub_turn (ns : string) (s : subscription) : M subscription :=
  res ← sm_try (run (xread 100 (stream_key ns) (su_last_id s)));
  mret (match res with Ok v => foldl (deliver ns) s (read_entries v) | Err _ => s end).
End coordinator.
End RedisCoordinator.

(** ** A server that answers as documented *)

#[export] Instance redis_conn : Redis (conn keyspace) := {|
  sadd k m := statement (do_sadd k m);
  smembers k := statement (do_smembers k);
  xadd k fs := statement (do_xadd k fs);
  xrange k lo hi n := statement (do_xrange k lo hi n);
  xread n k i := statement (do_xread n k i);
  xdel k i := statement (do_xdel k i);
  hset k f v := statement (do_hset k f v);
  hget k f := statement (do_hget k f);
  hvals k := statement (do_hvals k);
  set_value k v := statement (do_set_value k v);
  get_value k := statement (do_get_value k);
  mget ks := statement (do_mget ks);
|}.

(** No command will fail. *)
Definition no_faults (c : conn keyspace) : Prop :=
  Forall (λ o, match o with Runs _ => True | Faults _ => False end) (cn_outcomes c).

Lemma statement_performs {A} (f : command A) : performs cn_db no_faults (statement f) f.
Proof.
  intros c r c'. unfold statement, no_faults. destruct (cn_outcomes c) as [|[now|msg] o].
  - destruct (f 0%N (cn_db c)) as [r0 db] eqn:Hf. intros [= <- <-]. split; [right; by exists 0%N|done].
  - destruct (f now (cn_db c)) as [r0 db] eqn:Hf. intros [= <- <-]. split; [right; by exists now|].
    by intros [_ H]%Forall_cons.
  - intros [= <- <-]. split; [left|by intros [[] _]%Forall_cons].
    exists msg. split_and!; [done..|]. by intros [[] _]%Forall_cons.
Qed.

#[export] Instance redis_conn_spec : RedisSpec (conn keyspace) := {|
  rd_view := cn_db;
  rd_live := no_faults;
  sadd_ok k m := statement_performs _;
  smembers_ok k := statement_performs _;
  xadd_ok k fs := statement_performs _;
  xrange_ok k lo hi n := statement_performs _;
  xread_ok n k i := statement_performs _;
  xdel_ok k i := statement_performs _;
  hset_ok k f v := statement_performs _;
  hget_ok k f := statement_performs _;
  hvals_ok k := statement_performs _;
  set_value_ok k v := statement_performs _;
  get_value_ok k := statement_performs _;
  mget_ok ks := statement_performs _;
|}.
