(* ===== verification/RedisCoordinatorTheory.v ===== *)
(** * What the Redis coordinator keeps and what it loses

    Against any server that satisfies [RedisSpec]: a pushed mutation is pulled
    back as it was, but a push that fails between its two commands loses the
    mutation, and compaction removes the mutations of every document. *)
From Stdlib Require Import Ascii.
From S2P Require Import Prelude Text Types Sql Document RedisCoordinator.
Import RedisCoordinator.

(** ** Ids *)

Definition seq_of (i : stream_id) : N := (i.1 * 1000000 + i.2)%N.
Definition id_of (seq : N) : stream_id := (seq / 1000000, seq mod 1000000)%N.

(** An id that a sequence can express. *)
Definition id_ok (i : stream_id) : bool := ((i.2 <? 1000000) && (seq_of i <? U64_MAX))%N.

Lemma id_ok_spec i : id_ok i = true → (i.2 < 1000000 ∧ seq_of i < U64_MAX ∧ i.1 ≤ U64_MAX ∧ i.2 ≤ U64_MAX)%N.
Proof.
  unfold id_ok, seq_of. intros [H1%N.ltb_lt H2%N.ltb_lt]%andb_true_iff.
  split_and!; [done..|lia|unfold U64_MAX; lia].
Qed.

Lemma dash_not_digit : is_digit "-"%char = false.
Proof. done. Qed.

Lemma split_show_id i : split_once "-"%char (show_id i) = Some (show_N i.1, show_N i.2).
Proof. apply split_once_app, digits_lack; [done|apply show_N_digits]. Qed.

Lemma read_show_id i : (i.1 ≤ U64_MAX)%N → (i.2 ≤ U64_MAX)%N → read_id (show_id i) = Some i.
Proof. intros H1 H2. unfold read_id. rewrite split_show_id, !parse_show by done. by destruct i. Qed.

Lemma stream_id_to_seq_ok i : id_ok i = true → stream_id_to_seq (show_id i) = seq_of i.
Proof.
  intros (H1 & H2 & H3 & H4)%id_ok_spec. unfold stream_id_to_seq. rewrite split_show_id. simpl.
  rewrite !parse_show by done. simpl. unfold wrapping_add64, wrapping_mul64, seq_of, U64_MAX in *.
  rewrite N.mod_small; [|rewrite N.mod_small; lia]. rewrite N.mod_small; lia.
Qed.

Lemma seq_to_stream_id_ok seq : seq_to_stream_id seq = show_id (id_of seq).
Proof. done. Qed.

Lemma seq_of_id_of seq : seq_of (id_of seq) = seq.
Proof. unfold seq_of, id_of. simpl. pose proof (N.div_mod seq 1000000). lia. Qed.

Lemma id_of_bounds seq : (seq ≤ U64_MAX)%N → ((id_of seq).1 ≤ U64_MAX ∧ (id_of seq).2 < 1000000)%N.
Proof.
  intros H. simpl. split; [|apply N.mod_upper_bound; lia].
  etrans; [apply N.Div0.div_le_upper_bound with (q := seq)|]; lia.
Qed.

Lemma read_seq_id seq : (seq ≤ U64_MAX)%N → read_id (seq_to_stream_id seq) = Some (id_of seq).
Proof.
  intros H. destruct (id_of_bounds seq H). rewrite seq_to_stream_id_ok. apply read_show_id; [done|].
  unfold U64_MAX. lia.
Qed.

(** The order of ids is that of their sequences. *)
Lemma id_le_seq a b : (a.2 < 1000000)%N → (b.2 < 1000000)%N → id_le a b = (seq_of a <=? seq_of b)%N.
Proof.
  intros Ha Hb. unfold id_le, seq_of. destruct (N.leb_spec (a.1 * 1000000 + a.2) (b.1 * 1000000 + b.2)),
    (N.ltb_spec a.1 b.1), (N.eqb_spec a.1 b.1), (N.leb_spec a.2 b.2); simpl; lia || done.
Qed.

Lemma from_utf8_digits s : all_chars is_digit s = true → Forall (λ b, b < 128)%N (utf8 s).
Proof.
  unfold utf8. induction s as [|c s IH]; simpl; [constructor|]. intros [Hc Hs]%andb_true_iff.
  constructor; [|by apply IH]. unfold is_digit in Hc. apply andb_true_iff in Hc as [_ Hc%N.leb_le]. lia.
Qed.

Lemma utf8_app a b : utf8 (a +:+ b) = utf8 a ++ utf8 b.
Proof. unfold utf8. rewrite <-map_app. f_equal. induction a as [|c a IH]; simpl; [done|]. by rewrite <-IH. Qed.

Lemma show_id_text i : is_text (show_id i) = true.
Proof.
  apply utf8_valid_ascii; [done|]. unfold show_id. rewrite utf8_app. apply Forall_app. split.
  - apply from_utf8_digits, show_N_digits.
  - simpl. constructor; [done|]. apply from_utf8_digits, show_N_digits.
Qed.

Lemma show_N_text n : is_text (show_N n) = true.
Proof. apply utf8_valid_ascii; [done|]. apply from_utf8_digits, show_N_digits. Qed.

(** ** Entries *)

(** The strings of a mutation are text and its numbers are 64-bit. *)
Definition mutation_ok (m : EncryptedMutation) : bool :=
  is_text (em_id m) && is_text (em_replica_id m) && is_text (em_doc_id m) && is_text (em_record_id m) &&
  (em_timestamp m <=? U64_MAX)%N && (em_key_version m <=? U64_MAX)%N.

Definition pulled (ns : string) (seq : N) (m : EncryptedMutation) : PendingMutation :=
  PendingMutation_new (em_id m) ns seq (em_doc_id m) (em_record_id m) (em_encrypted_blob m)
    (em_timestamp m) (em_key_version m) (em_replica_id m).

Lemma from_utf8_ascii s : forallb (λ b, b <? 128)%N (utf8 s) = true → from_utf8 (utf8 s) = Some s.
Proof.
  intros H. apply from_utf8_text, utf8_valid_ascii; [done|]. apply Forall_forall. intros b Hb.
  rewrite forallb_forall in H. apply N.ltb_lt, H. by apply list_elem_of_In.
Qed.

Lemma parse_fields_step key v l p : forallb (λ b, b <? 128)%N (utf8 key) = true →
  parse_fields (VData (utf8 key) :: v :: l) p = (p ← parse_field key v p; parse_fields l p).
Proof. intros H. cbn [parse_fields]. by rewrite from_utf8_ascii. Qed.

Lemma parse_entry ns i m : mutation_ok m = true → id_ok i = true →
  parse_stream_entry (entry_value (i, stream_fields m)) ns = Some (pulled ns (seq_of i) m).
Proof.
  intros Hm Hi. unfold mutation_ok in Hm. rewrite !andb_true_iff in Hm.
  destruct Hm as (((((Hid & Hrep) & Hdoc) & Hrec) & Hts%N.leb_le) & Hkv%N.leb_le).
  unfold parse_stream_entry, entry_value, stream_fields. cbn [fst snd flat_map app].
  rewrite from_utf8_text by apply show_id_text. cbn [mbind option_bind].
  repeat (rewrite parse_fields_step by reflexivity; unfold parse_field at 1, parsed_none;
    repeat rewrite bool_decide_eq_false_2 by done; try rewrite bool_decide_eq_true_2 by done;
    cbn [parse_text parse_number];
    try rewrite from_utf8_text by (first [assumption|apply show_N_text]);
    try rewrite parse_show by done; cbn [mbind option_bind]).
  cbn [parse_fields mbind option_bind pa_id pa_doc_id pa_record_id pa_blob pa_timestamp pa_key_version pa_replica_id
    default]. by rewrite stream_id_to_seq_ok.
Qed.

Section theory.
Context {D : Type} {HR : Redis D} {HS : RedisSpec D}.

(** A command whose documented effect cannot fail, on a server that works. *)
Lemma performs_live {A} (m : SM D string A) (f : command A) d :
  performs rd_view rd_live m f → rd_live d → (∀ now, is_ok (f now (rd_view d)).1 = true) →
  ∃ a d' now, m d = (Ok a, d') ∧ rd_live d' ∧ f now (rd_view d) = (Ok a, rd_view d').
Proof.
  intros Hm Hlive Hok. destruct (m d) as [r d'] eqn:Hrun.
  destruct (Hm d r d' Hrun) as [[(e & _ & _ & Hdead)|[now Hf]] Hl]; [done|].
  specialize (Hok now). rewrite Hf in Hok. destruct r as [a|e]; [|done]. exists a, d', now. by auto.
Qed.

Definition pushed_ids (ns : string) (db : keyspace) : option (gset string) :=
  match db !! pushed_key ns with
  | None => Some ∅
  | Some (KSet ms) => Some ms
  | Some _ => None
  end.

Lemma keys_differ ns : pushed_key ns ≠ stream_key ns.
Proof.
  unfold pushed_key, stream_key. intros H. apply (inj (String.app "vaultsync:")), (inj (String.app ns)) in H. done.
Qed.

(** The stream of the namespace, when its key holds one. *)
Definition stream (ns : string) (d : D) : option (stream_id * list (stream_id * fields)) :=
  match stream_at (stream_key ns) (rd_view d) with Ok s => Some s | Err _ => None end.

Lemma stream_other ns k v d d' : rd_view d' = <[k := v]> (rd_view d) → k ≠ stream_key ns → stream ns d' = stream ns d.
Proof. intros Hv Hk. unfold stream, stream_at. rewrite Hv. by rewrite lookup_insert_ne. Qed.

Lemma stream_view ns d d' : rd_view d' = rd_view d → stream ns d' = stream ns d.
Proof. unfold stream. by intros ->. Qed.

(** The first command of a push. *)
Lemma sadd_new ns ent ids d : rd_live d → pushed_ids ns (rd_view d) = Some ids → ent ∉ ids →
  ∃ d', sadd (pushed_key ns) ent d = (Ok 1, d') ∧ rd_live d' ∧
    pushed_ids ns (rd_view d') = Some ({[ent]} ∪ ids) ∧ stream ns d' = stream ns d.
Proof.
  intros Hlive Hids Hnew. unfold pushed_ids in Hids.
  assert (∀ now, do_sadd (pushed_key ns) ent now (rd_view d) =
    (Ok 1, <[pushed_key ns := KSet ({[ent]} ∪ ids)]> (rd_view d))) as Hdo.
  { intros now. unfold do_sadd. destruct (rd_view d !! pushed_key ns) as [[]|]; try done; injection Hids as <-.
    - by rewrite bool_decide_eq_false_2.
    - by rewrite (right_id_L ∅ (∪)). }
  destruct (performs_live _ _ d (sadd_ok (pushed_key ns) ent) Hlive) as (a & d' & now & Hrun & Hl & Hf).
  { intros now. by rewrite Hdo. }
  rewrite Hdo in Hf. injection Hf as <- Hview. exists d'. split_and!; [done..| |].
  - unfold pushed_ids. by rewrite <-Hview, lookup_insert_eq.
  - eapply stream_other; [by symmetry|apply keys_differ].
Qed.

Lemma sadd_known ns ent ids d : rd_live d → pushed_ids ns (rd_view d) = Some ids → ent ∈ ids →
  ∃ d', sadd (pushed_key ns) ent d = (Ok 0, d') ∧ rd_live d' ∧ rd_view d' = rd_view d.
Proof.
  intros Hlive Hids Hin. unfold pushed_ids in Hids.
  assert (∀ now, do_sadd (pushed_key ns) ent now (rd_view d) = (Ok 0, rd_view d)) as Hdo.
  { intros now. unfold do_sadd. destruct (rd_view d !! pushed_key ns) as [[]|]; try done; injection Hids as <-.
    - by rewrite bool_decide_eq_true_2.
    - set_solver. }
  destruct (performs_live _ _ d (sadd_ok (pushed_key ns) ent) Hlive) as (a & d' & now & Hrun & Hl & Hf).
  { intros now. by rewrite Hdo. }
  rewrite Hdo in Hf. injection Hf as <- Hview. by exists d'.
Qed.

(** A push of an id that is already in the set. *)
Lemma push_known ns m ids d : rd_live d → pushed_ids ns (rd_view d) = Some ids → em_id m ∈ ids →
  ∃ d', push ns [m] d = (Ok [0%N], d') ∧ rd_view d' = rd_view d.
Proof.
  intros Hlive Hids Hin. destruct (sadd_known ns (em_id m) ids d Hlive Hids Hin) as (d' & Hrun & _ & Hview).
  exists d'. split; [|done]. unfold push, map_each, push_one, run, sm_map_err. sm_unfold.
  by rewrite Hrun.
Qed.

(** A push to the Redis coordinator whose second command fails loses the
    mutation for good: the first command has recorded its id, so that the
    caller gets an error, and every retry on the recovered server is
    acknowledged as a duplicate, with sequence 0, without adding the mutation
    to the log. *)
Theorem redis_interrupted_push_loses_mutation ns m d d1 e d2 :
  sadd (pushed_key ns) (em_id m) d = (Ok 1, d1) →
  xadd (stream_key ns) (stream_fields m) d1 = (Err e, d2) →
  rd_live d2 →
  push ns [m] d = (Err (Internal e), d2) ∧ stream ns d2 = stream ns d ∧
  ∃ d3, push ns [m] d2 = (Ok [0%N], d3) ∧ stream ns d3 = stream ns d.
Proof.
  intros Hsadd Hxadd Hlive.
  assert (∃ ids, pushed_ids ns (rd_view d1) = Some ids ∧ em_id m ∈ ids) as (ids & Hids & Hin).
  { destruct (sadd_ok _ _ _ _ _ Hsadd) as [[(? & ? & _)|[now Hf]] _]; [done|].
    unfold do_sadd in Hf. unfold pushed_ids.
    destruct (rd_view d !! pushed_key ns) as [[]|] eqn:E; try done;
      [destruct (bool_decide _); [done|]|]; injection Hf as Hf; rewrite <-Hf, lookup_insert_eq;
      eexists; (split; [done|]); set_solver. }
  assert (stream ns d1 = stream ns d) as Hs1.
  { destruct (sadd_ok _ _ _ _ _ Hsadd) as [[(? & ? & _)|[now Hf]] _]; [done|].
    unfold do_sadd in Hf.
    destruct (rd_view d !! pushed_key ns) as [[]|] eqn:E; try done;
      [destruct (bool_decide _); [done|]|]; injection Hf as Hf;
      (eapply stream_other; [by symmetry|apply keys_differ]). }
  assert (rd_view d2 = rd_view d1) as Hv.
  { destruct (xadd_ok _ _ _ _ _ Hxadd) as [[(? & _ & ? & _)|[now Hf]] _]; [done|].
    unfold do_xadd in Hf. destruct (stream_at _ _) as [[]|]; [done|]. by injection Hf as _ ->. }
  split_and!.
  - unfold push, map_each, push_one, run, sm_map_err. sm_unfold. rewrite Hsadd. cbn. by rewrite Hxadd.
  - rewrite <-Hs1. by apply stream_view.
  - destruct (push_known ns m ids d2) as (d3 & Hp & Hv3); [done|by rewrite Hv|done|].
    exists d3. split; [done|]. rewrite <-Hs1. apply stream_view. congruence.
Qed.

(** ** Reading back *)

(** The ids of a stream are expressible and at most its last one. *)
Definition stream_wf (s : stream_id * list (stream_id * fields)) : Prop :=
  id_ok s.1 = true ∧ ∀ e, e ∈ s.2 → id_ok e.1 = true ∧ (seq_of e.1 ≤ seq_of s.1)%N.

Lemma next_id_above now last : id_ok (next_id now last) = true → (seq_of last < seq_of (next_id now last))%N ∨ id_ok last = false.
Proof.
  intros (H1 & _)%id_ok_spec. destruct (id_ok last) eqn:Hlast; [left|by right].
  apply id_ok_spec in Hlast as (H2 & _). unfold next_id, seq_of in *.
  destruct (N.ltb_spec last.1 now); simpl in *; lia.
Qed.

Lemma xadd_live ns fs last items d : rd_live d → stream ns d = Some (last, items) →
  ∃ now d', xadd (stream_key ns) fs d = (Ok (show_id (next_id now last)), d') ∧ rd_live d' ∧
    stream ns d' = Some (next_id now last, items ++ [(next_id now last, fs)]).
Proof.
  intros Hlive Hs. unfold stream in Hs.
  destruct (stream_at (stream_key ns) (rd_view d)) as [s|] eqn:Hat; [|done]. injection Hs as ->.
  destruct (performs_live _ _ d (xadd_ok (stream_key ns) fs) Hlive) as (a & d' & now & Hrun & Hl & Hf).
  { intros now. unfold do_xadd. by rewrite Hat. }
  unfold do_xadd in Hf. rewrite Hat in Hf. injection Hf as <- Hview.
  exists now, d'. split_and!; [done..|]. unfold stream, stream_at. by rewrite <-Hview, lookup_insert_eq.
Qed.

Lemma xrange_live ns lo hi count slo shi last items d : rd_live d → stream ns d = Some (last, items) →
  read_id slo = Some lo →
  match shi, hi with Some s, Some i => read_id s = Some i | None, None => True | _, _ => False end →
  ∃ d', xrange (stream_key ns) slo shi count d =
    (Ok (VBulk (map entry_value
       match count with
       | Some n => take n (filterb (λ e, id_le lo e.1 && match hi with Some hi => id_le e.1 hi | None => true end) items)
       | None => filterb (λ e, id_le lo e.1 && match hi with Some hi => id_le e.1 hi | None => true end) items
       end)), d') ∧ rd_live d' ∧ rd_view d' = rd_view d.
Proof.
  intros Hlive Hs Hlo Hhi. unfold stream in Hs.
  destruct (stream_at (stream_key ns) (rd_view d)) as [s|] eqn:Hat; [|done]. injection Hs as ->.
  assert (∀ now, do_xrange (stream_key ns) slo shi count now (rd_view d) = (Ok (VBulk (map entry_value
       match count with
       | Some n => take n (filterb (λ e, id_le lo e.1 && match hi with Some hi => id_le e.1 hi | None => true end) items)
       | None => filterb (λ e, id_le lo e.1 && match hi with Some hi => id_le e.1 hi | None => true end) items
       end)), rd_view d)) as Hdo.
  { intros now. unfold do_xrange. rewrite Hlo. destruct shi as [si|], hi as [hi'|]; try done.
    - rewrite Hhi. cbn [fmap option_fmap option_map]. by rewrite Hat.
    - by rewrite Hat. }
  destruct (performs_live _ _ d (xrange_ok (stream_key ns) slo shi count) Hlive) as (a & d' & now & Hrun & Hl & Hf).
  { intros now. by rewrite Hdo. }
  rewrite Hdo in Hf. injection Hf as <- Hview. by exists d'.
Qed.

(** C38: A mutation pushed to a working Redis coordinator is pulled back: the
    push of a new id answers the sequence of its entry, and a pull from the
    sequence of the last entry before it returns exactly that mutation, field
    for field, as long as the new stream id can be written as a sequence. *)
Theorem redis_push_then_pull ns m limit ids last items d :
  rd_live d → pushed_ids ns (rd_view d) = Some ids → em_id m ∉ ids →
  stream ns d = Some (last, items) → stream_wf (last, items) → mutation_ok m = true → 0 < limit →
  ∃ i d', push ns [m] d = (Ok [stream_id_to_seq (show_id i)], d') ∧
    stream ns d' = Some (i, items ++ [(i, stream_fields m)]) ∧
    (id_ok i = true → stream_id_to_seq (show_id i) = seq_of i ∧ (seq_of last < seq_of i)%N ∧
      ∃ d'', pull ns (seq_of last) limit d' = (Ok [pulled ns (seq_of i) m], d'')).
Proof.
  intros Hlive Hids Hnew Hs [Hlast Hitems] Hm Hlimit. simpl in *.
  destruct (sadd_new ns (em_id m) ids d Hlive Hids Hnew) as (d1 & Hsadd & Hl1 & _ & Hs1).
  rewrite <-Hs1 in Hs.
  destruct (xadd_live ns (stream_fields m) last items d1 Hl1 Hs) as (now & d2 & Hxadd & Hl2 & Hs2).
  set (i := next_id now last) in *. exists i, d2. split_and!; [|done|].
  { unfold push, map_each, push_one, run, sm_map_err. sm_unfold. rewrite Hsadd. cbn. by rewrite Hxadd. }
  intros Hi. assert (seq_of last < seq_of i)%N as Hlt by (destruct (next_id_above now last Hi); [done|congruence]).
  split_and!; [by apply stream_id_to_seq_ok|done|].
  apply id_ok_spec in Hlast as (Ha & Hb & _). pose proof (id_ok_spec i Hi) as (Hc & _).
  destruct (xrange_live ns (id_of (seq_of last + 1)) None (Some limit)
    (seq_to_stream_id (saturating_succ (seq_of last))) None i (items ++ [(i, stream_fields m)]) d2)
    as (d3 & Hrun & _ & _); [done|done| |done|].
  { unfold saturating_succ. rewrite N.min_l by lia. apply read_seq_id. lia. }
  exists d3. unfold pull, run, sm_map_err. sm_unfold. rewrite Hrun. cbn [entries_of].
  pose proof (id_of_bounds (seq_of last + 1)) as [_ Hlo]; [lia|].
  rewrite filterb_app, filterb_none.
  - cbn [app filterb List.filter fst]. rewrite id_le_seq, seq_of_id_of by done.
    rewrite (proj2 (N.leb_le _ _)) by lia. cbn [andb]. destruct limit as [|limit]; [lia|].
    cbn [take map omap list_omap]. rewrite parse_entry by done. by destruct limit.
  - intros e He. destruct (Hitems e He) as [(He2 & _)%id_ok_spec Hle]. rewrite andb_true_r.
    rewrite id_le_seq, seq_of_id_of by done. apply N.leb_gt. lia.
Qed.

(** ** Compaction *)

Definition among (todo : list (stream_id * fields)) (e : stream_id * fields) : bool :=
  existsb (λ t : stream_id * fields, bool_decide (e.1 = t.1)) todo.

Definition held (ns : string) (d : D) (last : stream_id) (items : list (stream_id * fields)) : Prop :=
  rd_view d !! stream_key ns = Some (KStream last items).

Lemma held_stream ns d last items : held ns d last items → stream ns d = Some (last, items).
Proof. unfold held, stream, stream_at. by intros ->. Qed.

Lemma xdel_live ns i last items d : rd_live d → held ns d last items →
  (i.1 ≤ U64_MAX)%N → (i.2 ≤ U64_MAX)%N →
  ∃ n d', xdel (stream_key ns) (show_id i) d = (Ok n, d') ∧ rd_live d' ∧
    held ns d' last (filterb (λ e, negb (bool_decide (e.1 = i))) items) ∧
    n + length (filterb (λ e : stream_id * fields, negb (bool_decide (e.1 = i))) items) = length items.
Proof.
  intros Hlive Hat H1 H2. unfold held in *.
  set (rest := filterb (λ e : stream_id * fields, negb (bool_decide (e.1 = i))) items).
  assert (∀ now, do_xdel (stream_key ns) (show_id i) now (rd_view d) =
    (Ok (length items - length rest), <[stream_key ns := KStream last rest]> (rd_view d))) as Hdo.
  { intros now. unfold do_xdel. by rewrite read_show_id, Hat. }
  destruct (performs_live _ _ d (xdel_ok (stream_key ns) (show_id i)) Hlive) as (a & d' & now & Hrun & Hl & Hf).
  { intros now. by rewrite Hdo. }
  rewrite Hdo in Hf. injection Hf as <- Hview. exists (length items - length rest), d'. split_and!; [done..| |].
  - by rewrite <-Hview, lookup_insert_eq.
  - pose proof (sublist_length _ _ (sublist_filterb (λ e : stream_id * fields, negb (bool_decide (e.1 = i))) items)).
    fold rest in H. lia.
Qed.

Lemma delete_entries_spec ns todo last items d removed : rd_live d → held ns d last items →
  Forall (λ e : stream_id * fields, e.1.1 ≤ U64_MAX ∧ e.1.2 ≤ U64_MAX)%N todo →
  ∃ n d', delete_entries ns (map entry_value todo) removed d = (Ok n, d') ∧ rd_live d' ∧
    held ns d' last (filterb (λ e, negb (among todo e)) items) ∧
    n + length (filterb (λ e, negb (among todo e)) items) = removed + length items.
Proof.
  revert items d removed. induction todo as [|t todo IH]; intros items d removed Hlive Hh Htodo.
  { exists removed, d. rewrite filterb_all by done. done. }
  apply Forall_cons in Htodo as [[H1 H2] Htodo].
  destruct (xdel_live ns t.1 last items d Hlive Hh H1 H2) as (n & d1 & Hrun & Hl & Hh1 & Hn).
  destruct (IH _ d1 (removed + n) Hl Hh1 Htodo) as (n' & d2 & Hrun2 & Hl2 & Hh2 & Hn2).
  assert (filterb (λ e, negb (among todo e)) (filterb (λ e, negb (bool_decide (e.1 = t.1))) items) =
    filterb (λ e, negb (among (t :: todo) e)) items) as Heq.
  { rewrite filterb_filterb. apply filterb_ext. intros e _. simpl. by rewrite negb_orb. }
  rewrite Heq in *. exists n', d2. split_and!; [|done..|lia].
  cbn [map delete_entries entry_value]. rewrite from_utf8_text by apply show_id_text.
  unfold run, sm_map_err. unfold mbind at 1, sm_bind at 1. by rewrite Hrun.
Qed.

(** Deleting the entries of a range by their ids leaves what is above it. *)
Lemma among_found items hi :
  filterb (λ e, negb (among (filterb (λ e, id_le (0, 0)%N e.1 && id_le e.1 hi) items) e)) items =
  filterb (λ e : stream_id * fields, negb (id_le e.1 hi)) items.
Proof.
  apply filterb_ext. intros e He. f_equal. apply eq_true_iff_eq. unfold among. rewrite existsb_exists. split.
  - intros (t & [Ht _]%list_elem_of_In%elem_of_filterb & Heq%bool_decide_eq_true).
    apply andb_true_iff in Ht as [_ Ht]. by rewrite Heq.
  - intros Hle. exists e. split; [|by apply bool_decide_eq_true]. apply list_elem_of_In, elem_of_filterb.
    split; [|done]. rewrite Hle, andb_true_r. by destruct e as [[[] []] ?].
Qed.

(** The entries above every snapshot. *)
Definition above_all (snaps : list Snapshot) (e : stream_id * fields) : bool :=
  negb (existsb (λ s, id_le e.1 (id_of (sn_sequence s))) snaps).

Lemma redis_compact_loop_spec ns snaps last items d removed collapsed :
  rd_live d → stream ns d = Some (last, items) →
  Forall (λ e : stream_id * fields, e.1.1 ≤ U64_MAX ∧ e.1.2 ≤ U64_MAX)%N items →
  Forall (λ s, sn_sequence s ≤ U64_MAX)%N snaps →
  ∃ n k d', compact_loop ns snaps removed collapsed d = (Ok (n, k), d') ∧
    stream ns d' = Some (last, filterb (above_all snaps) items) ∧
    n + length (filterb (above_all snaps) items) = removed + length items.
Proof.
  revert items d removed collapsed. induction snaps as [|s snaps IH]; intros items d removed collapsed Hlive Hs Hit Hsn.
  { exists removed, collapsed, d. rewrite filterb_all by done. done. }
  apply Forall_cons in Hsn as [Hseq Hsn]. set (hi := id_of (sn_sequence s)).
  destruct (xrange_live ns (0, 0)%N (Some hi) None "0-0" (Some (seq_to_stream_id (sn_sequence s))) last items d)
    as (d1 & Hrun & Hl1 & Hv1); [done|done|done|by apply read_seq_id|].
  set (found := filterb (λ e, id_le (0, 0)%N e.1 && id_le e.1 hi) items) in *.
  pose proof (among_found items hi) as Hrest. fold found in Hrest.
  assert (∃ n d2, delete_entries ns (map entry_value found) removed d1 = (Ok n, d2) ∧ rd_live d2 ∧
    stream ns d2 = Some (last, filterb (λ e, negb (id_le e.1 hi)) items) ∧
    n + length (filterb (λ e, negb (id_le e.1 hi)) items) = removed + length items) as (n & d2 & Hdel & Hl2 & Hs2 & Hn).
  { rewrite <-(stream_view ns d d1) in Hs by done. unfold stream, stream_at in Hs.
    destruct (rd_view d1 !! stream_key ns) as [[l0 i0| | |]|] eqn:Hat; try done; injection Hs as <- <-.
    - destruct (delete_entries_spec ns found l0 i0 d1 removed Hl1 Hat) as (n & d2 & H1 & H2 & H3 & H4).
      { eapply Forall_impl with (P := λ e, e ∈ found); [by apply Forall_forall|].
        intros e [_ He]%elem_of_filterb. by apply (proj1 (Forall_forall _ _) Hit). }
      rewrite Hrest in *. exists n, d2. split_and!; [done..|by apply held_stream|done].
    - exists removed, d1. split_and!; try done. unfold stream, stream_at. by rewrite Hat. }
  destruct (IH _ d2 n (S collapsed) Hl2 Hs2) as (n' & k & d3 & Hloop & Hs3 & Hn3); [|done|].
  { apply Forall_forall. intros e [_ He]%elem_of_filterb. by apply (proj1 (Forall_forall _ _) Hit). }
  assert (filterb (above_all snaps) (filterb (λ e, negb (id_le e.1 hi)) items) =
    filterb (above_all (s :: snaps)) items) as Heq.
  { rewrite filterb_filterb. apply filterb_ext. intros e _. unfold above_all. simpl. by rewrite negb_orb. }
  rewrite Heq in *. exists n', k, d3. split_and!; [|done|lia].
  cbn [compact_loop]. unfold run, sm_map_err. unfold mbind at 1, sm_bind at 1. rewrite Hrun.
  unfold mbind at 1, sm_bind at 1. by rewrite Hdel.
Qed.

Section snapshots.
Context {K : SnapshotCodec} (error_display : VaultSyncError → string).

(** Listing the snapshots reads only. *)
Lemma list_snapshots_reads ns d snaps d' : rd_live d → list_snapshots ns d = (Ok snaps, d') →
  rd_live d' ∧ rd_view d' = rd_view d.
Proof.
  intros Hlive Hrun. apply sm_bind_ok_inv in Hrun as (keys & d1 & Hk & Hrun).
  unfold run, sm_map_err in Hk. destruct (smembers _ d) as [r d1'] eqn:Hsm.
  destruct (smembers_ok _ _ _ _ Hsm) as [Hview Hl]. destruct r as [ks|]; [|done]. injection Hk as -> ->.
  assert (rd_view d1 = rd_view d) as Hv1.
  { destruct Hview as [(? & ? & _)|[now Hf]]; [done|]. unfold do_smembers in Hf.
    by destruct (rd_view d !! snapshot_keys_key ns) as [[]|]; injection Hf. }
  destruct keys as [|k keys]; [injection Hrun as _ <-; by auto|].
  apply sm_bind_ok_inv in Hrun as (vals & d2 & Hg & [= _ <-]).
  unfold run, sm_map_err in Hg. destruct (mget _ d1) as [r d2'] eqn:Hm.
  destruct (mget_ok _ _ _ _ Hm) as [Hview2 Hl2]. destruct r as [vs|]; [|done]. injection Hg as -> ->.
  split; [by auto|]. destruct Hview2 as [(? & ? & _)|[now Hf]]; [done|].
  unfold do_mget in Hf. by injection Hf as _ <-.
Qed.

(** Compaction of the Redis coordinator does not look at documents: it
    keeps exactly the mutations whose ids are above the sequence of every
    snapshot of the namespace, so that one snapshot removes the earlier
    mutations of all other documents, which no snapshot holds. *)
Theorem redis_compaction_ignores_documents ns snaps last items d d1 :
  rd_live d → stream ns d = Some (last, items) → stream_wf (last, items) →
  list_snapshots ns d = (Ok snaps, d1) → Forall (λ s, sn_sequence s ≤ U64_MAX)%N snaps →
  ∃ stats d', compact_oplog ns d = (Ok stats, d') ∧
    stream ns d' = Some (last, filterb (above_all snaps) items) ∧
    cs_oplog_removed stats + length (filterb (above_all snaps) items) = length items.
Proof.
  intros Hlive Hs [_ Hwf] Hlist Hsn. destruct (list_snapshots_reads ns d snaps d1 Hlive Hlist) as [Hl1 Hv1].
  destruct (redis_compact_loop_spec ns snaps last items d1 0 0) as (n & k & d2 & Hloop & Hs2 & Hn); [done| | |done|].
  - by rewrite (stream_view ns d d1).
  - apply Forall_forall. intros e He. destruct (Hwf e He) as [(? & ? & ? & ?)%id_ok_spec _]. done.
  - exists (CompactionStats_new n 0 k), d2. split_and!; [|done..].
    unfold compact_oplog. rewrite (sm_bind_ok _ _ _ _ _ Hlist). by rewrite (sm_bind_ok _ _ _ _ _ Hloop).
Qed.

(** Two records whose names give the same key share one snapshot: the later
    snapshot is returned for both. *)
Lemma redis_snapshot_keys_collide {KS : SnapshotCodecSpec K} ns doc_id record_id s d d' :
  doc_id +:+ ":" +:+ record_id = sn_doc_id s +:+ ":" +:+ sn_record_id s →
  rd_live d → store_snapshot error_display ns s d = (Ok tt, d') →
  snapshot_keys_key ns ≠ snapshot_key ns doc_id record_id →
  ∃ d'', get_snapshot error_display ns doc_id record_id d' = (Ok (Some s), d'').
Proof.
  intros Hkey Hlive Hstore Hne. destruct (bincode_round_trip s) as (bs & Henc & Hdec).
  assert (snapshot_key ns (sn_doc_id s) (sn_record_id s) = snapshot_key ns doc_id record_id) as Hk.
  { unfold snapshot_key. by rewrite Hkey. }
  unfold store_snapshot, snapshot_encode in Hstore. rewrite Henc, Hk in Hstore.
  apply sm_bind_ok_inv in Hstore as ([] & d1 & Hset & Hstore).
  apply sm_bind_ok_inv in Hstore as (n & d2 & Hadd & [= <-]).
  unfold run, sm_map_err in Hset, Hadd.
  destruct (set_value _ _ d) as [[u|] d1'] eqn:Hs1; [|done]. injection Hset as _ ->.
  destruct (sadd _ _ d1) as [[k|] d2'] eqn:Hs2; [|done]. injection Hadd as -> ->.
  destruct (set_value_ok _ _ _ _ _ Hs1) as [[(? & ? & _)|[now Hf]] Hl1]; [done|]. injection Hf as _ Hf.
  destruct (sadd_ok _ _ _ _ _ Hs2) as [[(? & ? & _)|[now' Hf2]] Hl2]; [done|].
  assert (rd_view d2 !! snapshot_key ns doc_id record_id = Some (KText bs)) as Hat.
  { unfold do_sadd in Hf2. destruct (rd_view d1 !! snapshot_keys_key ns) as [[]|]; try done;
      [destruct (bool_decide _)|]; injection Hf2 as _ <-; rewrite ?lookup_insert_ne by done; rewrite <-?Hf;
      by rewrite lookup_insert_eq. }
  destruct (performs_live _ _ d2 (get_value_ok (snapshot_key ns doc_id record_id))) as (a & d3 & now3 & Hg & _ & Hgf).
  - by auto.
  - intros ?. unfold do_get_value. by rewrite Hat.
  - unfold do_get_value in Hgf. rewrite Hat in Hgf. injection Hgf as <- _.
    exists d3. unfold get_snapshot, run, sm_map_err. unfold mbind, sm_bind. rewrite Hg.
    unfold snapshot_decode. by rewrite Hdec.
Qed.
End snapshots.
End theory.

(** ** Witnesses *)

Definition sample_redis_mutation (ent doc_id : string) : EncryptedMutation :=
  EncryptedMutation_new ent "ns" "replica" doc_id "r1" [1%N; 2%N] 1000 1 1.

Lemma redis_interrupted_push_loses_mutation_witness :
  let d := Conn ∅ [Runs 5; Faults "connection reset"] : conn keyspace in
  ∃ d2, push "ns" [sample_redis_mutation "a" "todos"] d = (Err (Internal "connection reset"), d2) ∧
    ∃ d3, push "ns" [sample_redis_mutation "a" "todos"] d2 = (Ok [0%N], d3) ∧ stream "ns" d3 = stream "ns" d.
Proof.
  intros d.
  destruct (redis_interrupted_push_loses_mutation "ns" (sample_redis_mutation "a" "todos") d
    (Conn {[pushed_key "ns" := KSet {["a"]}]} [Faults "connection reset"]) "connection reset"
    (Conn {[pushed_key "ns" := KSet {["a"]}]} [])) as (H1 & _ & H2); [reflexivity|reflexivity|constructor|].
  eexists. split; [exact H1|exact H2].
Defined.

(** A log with two mutations of one document. *)
Definition sample_redis : conn keyspace :=
  (push "ns" [sample_redis_mutation "a" "todos"; sample_redis_mutation "b" "notes"]
    (Conn ∅ [Runs 0; Runs 5; Runs 0; Runs 7])).2.

Definition sample_items : list (stream_id * fields) :=
  [((5, 0)%N, stream_fields (sample_redis_mutation "a" "todos"));
   ((7, 0)%N, stream_fields (sample_redis_mutation "b" "notes"))].

Lemma sample_redis_stream : stream "ns" sample_redis = Some ((7, 0)%N, sample_items).
Proof. by vm_compute. Qed.

Lemma sample_redis_wf : stream_wf ((7, 0)%N, sample_items).
Proof.
  split; [done|]. intros e He. simpl in He.
  repeat (apply elem_of_cons in He as [->|He]; [split; [done|]; apply N.leb_le; by vm_compute|]).
  by apply elem_of_nil in He.
Qed.

Lemma redis_push_then_pull_witness :
  ∃ i d', push "ns" [sample_redis_mutation "c" "todos"] sample_redis = (Ok [stream_id_to_seq (show_id i)], d') ∧
    stream "ns" d' = Some (i, sample_items ++ [(i, stream_fields (sample_redis_mutation "c" "todos"))]).
Proof.
  destruct (redis_push_then_pull "ns" (sample_redis_mutation "c" "todos") 10 {["a"; "b"]} (7, 0)%N sample_items
    sample_redis) as (i & d' & H1 & H2 & _).
  - by vm_compute.
  - by vm_compute.
  - apply (bool_decide_unpack _). by vm_compute.
  - exact sample_redis_stream.
  - exact sample_redis_wf.
  - by vm_compute.
  - lia.
  - by exists i, d'.
Defined.

(** A snapshot of a record of [todos], taken after the mutation of [notes]. *)
Definition sample_redis_snapshot : Snapshot := Snapshot_new "todos" "r1" 1 7000000 9 [] 0.

(** A coding of this one snapshot. *)
Definition one_snapshot_codec : SnapshotCodec := {|
  bincode_serialize _ := Ok [];
  bincode_deserialize _ := Ok sample_redis_snapshot;
  crc32 _ := 0%N;
|}.

Definition sample_compactable : conn keyspace :=
  (@store_snapshot _ _ one_snapshot_codec (λ _, "") "ns" sample_redis_snapshot sample_redis).2.

Lemma redis_compaction_ignores_documents_witness :
  ∃ stats d', @compact_oplog _ _ one_snapshot_codec "ns" sample_compactable = (Ok stats, d') ∧
    stream "ns" d' = Some ((7, 0)%N, []) ∧ cs_oplog_removed stats = 2.
Proof.
  destruct (@redis_compaction_ignores_documents _ _ _ one_snapshot_codec "ns" [sample_redis_snapshot] (7, 0)%N sample_items
    sample_compactable sample_compactable) as (stats & d' & H1 & H2 & H3).
  - constructor.
  - vm_compute. reflexivity.
  - exact sample_redis_wf.
  - vm_compute. reflexivity.
  - repeat constructor. apply N.leb_le. by vm_compute.
  - exists stats, d'. split_and!; [exact H1|exact H2|].
    change (cs_oplog_removed stats + 0 = 2) in H3. lia.
Defined.
