(* ===== verification/Opfs.v ===== *)
(** * The browser's file system and the page codec

    What [vaultsync-wasm] uses of the origin private file system: reading,
    writing and removing a file of a directory, listing it, and the clock.  The
    browser is a class [Opfs]; its documented behaviour is [OpfsSpec], over the
    files of the directory.  [postcard] is the class [Postcard].  The file ends
    with a directory with scheduled failures that satisfies the laws, and the
    wire format of [postcard]: values one after the other, integers in groups of
    seven bits, sequences and texts with their length in front, options and
    enums with a tag. *)
From Stdlib Require Import Ascii.
From S2P Require Import Prelude Text.

(** ** Files *)

(** Errors are the [{:?}] text of the JavaScript error, with the step that
    failed. *)
Class Opfs (D : Type) := {
  (** [get_file_handle] without [create], [get_file], [array_buffer]. *)
  file_read : string → SM D string bytes;
  (** The same, with [Blob.slice(0, n)]. *)
  file_head : nat → string → SM D string bytes;
  (** [get_file_handle] with [create], [create_writable], [write], [close]. *)
  file_write : string → bytes → SM D string unit;
  (** [remove_entry]. *)
  file_remove : string → SM D string unit;
  (** The names [entries()] yields. *)
  dir_entries : D → list string * D;
  (** [Date.now()]. *)
  date_now : D → N * D;
}.

(** The text of the [DOMException] named [NotFoundError]. *)
Definition says_not_found (e : string) : bool := contains "NotFoundError" e || contains "NotFound" e.

(** A write goes to a copy that replaces the file when the stream is closed: a
    write that fails leaves the file as it was, or, if there was none, may
    leave the empty file its handle was created with.  In a browser that works
    ([fs_works]) only the absence of a file makes an operation fail. *)
Class OpfsSpec (D : Type) {HO : Opfs D} := {
  fs_files : D → gmap string bytes;
  fs_works : D → Prop;
  file_read_spec n d : let '(r, d') := file_read n d in
    fs_files d' = fs_files d ∧ (fs_works d → fs_works d') ∧
    match r with
    | Ok bs => fs_files d !! n = Some bs
    | Err e => fs_works d → fs_files d !! n = None ∧ says_not_found e = true
    end;
  file_head_spec k n d : let '(r, d') := file_head k n d in
    fs_files d' = fs_files d ∧ (fs_works d → fs_works d') ∧
    match r with
    | Ok bs => take k <$> fs_files d !! n = Some bs
    | Err e => fs_works d → fs_files d !! n = None ∧ says_not_found e = true
    end;
  file_write_spec n bs d : let '(r, d') := file_write n bs d in
    (fs_works d → fs_works d' ∧ r = Ok tt) ∧
    match r with
    | Ok _ => fs_files d' = <[n := bs]> (fs_files d)
    | Err _ => fs_files d' = fs_files d ∨ (fs_files d !! n = None ∧ fs_files d' = <[n := []]> (fs_files d))
    end;
  file_remove_spec n d : let '(r, d') := file_remove n d in
    (fs_works d → fs_works d') ∧
    match r with
    | Ok _ => is_Some (fs_files d !! n) ∧ fs_files d' = delete n (fs_files d)
    | Err e => fs_files d' = fs_files d ∧ (fs_works d → fs_files d !! n = None ∧ says_not_found e = true)
    end;
  dir_entries_spec d : let '(names, d') := dir_entries d in
    fs_files d' = fs_files d ∧ (fs_works d → fs_works d') ∧ NoDup names ∧
    (∀ n, n ∈ names → is_Some (fs_files d !! n)) ∧
    (fs_works d → ∀ n, is_Some (fs_files d !! n) → n ∈ names);
  date_now_spec d : let '(_, d') := date_now d in
    fs_files d' = fs_files d ∧ (fs_works d → fs_works d');
}.

(** ** postcard *)

(** [to_allocvec] and [from_bytes], which reads a value from the front of its
    input and leaves the rest. *)
Class Postcard (A : Type) := {
  to_allocvec : A → result bytes string;
  from_bytes : bytes → result A string;
}.

(** Values of derived types can be serialized. *)
Class PostcardSpec (A : Type) {HP : Postcard A} := {
  to_allocvec_ok a : ∃ bs, to_allocvec a = Ok bs;
  from_to_postcard a bs rest : to_allocvec a = Ok bs → from_bytes (bs ++ rest) = Ok a;
}.

(** ** A directory *)

(** An operation runs, or fails with a message; a failing write may come after
    the file was created. *)
Inductive fs_outcome := FRuns | FFails (created : bool) (msg : string).

Record disk := Disk { dk_files : gmap string bytes; dk_clock : N; dk_outcomes : list fs_outcome }.

Definition next_outcome (d : disk) : fs_outcome * disk :=
  match dk_outcomes d with
  | [] => (FRuns, d)
  | o :: os => (o, Disk (dk_files d) (dk_clock d) os)
  end.
Definition not_found : string := "get_file_handle: JsValue(NotFoundError)".

#[export] Instance disk_opfs : Opfs disk := {|
  file_read n d :=
    let '(o, d) := next_outcome d in
    match o with
    | FRuns => (match dk_files d !! n with Some bs => Ok bs | None => Err not_found end, d)
    | FFails _ msg => (Err msg, d)
    end;
  file_head k n d :=
    let '(o, d) := next_outcome d in
    match o with
    | FRuns => (match dk_files d !! n with Some bs => Ok (take k bs) | None => Err not_found end, d)
    | FFails _ msg => (Err msg, d)
    end;
  file_write n bs d :=
    let '(o, d) := next_outcome d in
    match o with
    | FRuns => (Ok tt, Disk (<[n := bs]> (dk_files d)) (dk_clock d) (dk_outcomes d))
    | FFails created msg =>
        (Err msg, if created && bool_decide (dk_files d !! n = None)
                  then Disk (<[n := []]> (dk_files d)) (dk_clock d) (dk_outcomes d) else d)
    end;
  file_remove n d :=
    let '(o, d) := next_outcome d in
    match o with
    | FRuns =>
        match dk_files d !! n with
        | Some _ => (Ok tt, Disk (delete n (dk_files d)) (dk_clock d) (dk_outcomes d))
        | None => (Err not_found, d)
        end
    | FFails _ msg => (Err msg, d)
    end;
  dir_entries d := (elements (dom (dk_files d)), d);
  date_now d := (dk_clock d, Disk (dk_files d) (dk_clock d + 1) (dk_outcomes d));
|}.

Lemma next_outcome_spec d : let '(o, d') := next_outcome d in
  dk_files d' = dk_files d ∧ (dk_outcomes d = [] → dk_outcomes d' = [] ∧ o = FRuns).
Proof. unfold next_outcome. destruct (dk_outcomes d) as [|o os] eqn:E; simpl; [by rewrite E|done]. Qed.

#[export, program] Instance disk_opfs_spec : OpfsSpec disk := {|
  fs_files := dk_files;
  fs_works d := dk_outcomes d = [];
|}.
Next Obligation.
  intros n d. simpl. pose proof (next_outcome_spec d) as H. destruct (next_outcome d) as [[|c msg] d'], H as [Hf Hw].
  - destruct (dk_files d' !! n) eqn:E; rewrite Hf in E; split_and!; try done; naive_solver.
  - split_and!; naive_solver.
Qed.
Next Obligation.
  intros k n d. simpl. pose proof (next_outcome_spec d) as H. destruct (next_outcome d) as [[|c msg] d'], H as [Hf Hw].
  - destruct (dk_files d' !! n) eqn:E; rewrite Hf in E; rewrite ?E; split_and!; try done; naive_solver.
  - split_and!; naive_solver.
Qed.
Next Obligation.
  intros n bs d. simpl. pose proof (next_outcome_spec d) as H. destruct (next_outcome d) as [[|c msg] d'], H as [Hf Hw].
  - simpl. rewrite Hf. naive_solver.
  - destruct (c && bool_decide (dk_files d' !! n = None)) eqn:E; simpl; [|naive_solver].
    apply andb_true_iff in E as [_ E%bool_decide_eq_true]. rewrite Hf in *. naive_solver.
Qed.
Next Obligation.
  intros n d. simpl. pose proof (next_outcome_spec d) as H. destruct (next_outcome d) as [[|c msg] d'], H as [Hf Hw].
  - destruct (dk_files d' !! n) eqn:E; simpl; rewrite Hf in E; rewrite ?Hf, ?E; split_and!; try done; naive_solver.
  - naive_solver.
Qed.
Next Obligation.
  intros d. simpl. split_and!; [done|done|apply NoDup_elements|..];
    intros; by apply elem_of_elements, elem_of_dom || apply elem_of_dom, elem_of_elements.
Qed.
Next Obligation. done. Qed.

(** ** The wire format *)

(** A serializer and its parser. *)
Record wire (A : Type) := Wire {
  ser : A → bytes;
  parse : bytes → option (A * bytes);
  parse_ser a rest : parse (ser a ++ rest) = Some (a, rest);
}.
Arguments Wire {A}.
Arguments ser {A}.
Arguments parse {A}.

Definition wire_postcard {A} (w : wire A) : Postcard A := {|
  to_allocvec a := Ok (ser w a);
  from_bytes bs := match parse w bs with Some (a, _) => Ok a | None => Err "DeserializeError" end;
|}.

Lemma wire_postcard_spec {A} (w : wire A) : PostcardSpec A (HP := wire_postcard w).
Proof.
  split; [by eexists|]. intros a bs rest [= <-]. simpl. by rewrite parse_ser.
Qed.

(** ** Integers *)

(** Groups of seven bits, the last with its high bit clear; the number of bits
    bounds the groups. *)
Fixpoint varint_groups (fuel : nat) (n : N) : bytes :=
  match fuel with
  | O => [n]
  | S fuel' => if (n <? 128)%N then [n] else (128 + n mod 128)%N :: varint_groups fuel' (n / 128)%N
  end.
Definition varint (n : N) : bytes := varint_groups (N.size_nat n) n.

Fixpoint unvarint (bs : bytes) : option (N * bytes) :=
  match bs with
  | [] => None
  | b :: bs' =>
      if (b <? 128)%N then Some (b, bs')
      else match unvarint bs' with
           | Some (hi, rest) => Some ((b - 128 + 128 * hi)%N, rest)
           | None => None
           end
  end.

Lemma unvarint_groups fuel n rest : (n < 128 * 2 ^ N.of_nat fuel)%N → unvarint (varint_groups fuel n ++ rest) = Some (n, rest).
Proof.
  revert n. induction fuel as [|fuel IH]; intros n Hn.
  { change (128 * 2 ^ N.of_nat 0)%N with 128%N in Hn. simpl. by apply N.ltb_lt in Hn as ->. }
  cbn [varint_groups]. destruct (N.ltb_spec n 128).
  { simpl. by rewrite (proj2 (N.ltb_lt n 128)). }
  cbn [app unvarint]. destruct (N.ltb_spec (128 + n mod 128) 128) as [l|_];
    [exfalso; clear -l; revert l; generalize (n mod 128)%N; lia|].
  rewrite IH.
  - do 2 f_equal. pose proof (N.div_mod' n 128) as Hdm. revert Hdm. generalize (n / 128)%N (n mod 128)%N. lia.
  - apply N.Div0.div_lt_upper_bound. rewrite Nat2N.inj_succ, N.pow_succ_r' in Hn.
    revert Hn. generalize (2 ^ N.of_nat fuel)%N. lia.
Qed.

Lemma unvarint_varint n rest : unvarint (varint n ++ rest) = Some (n, rest).
Proof.
  apply unvarint_groups. pose proof (N.size_gt n) as Hs.
  replace (N.of_nat (N.size_nat n)) with (N.size n); [revert Hs; generalize (2 ^ N.size n)%N; lia|].
  destruct n as [|p]; [done|]. clear Hs. cbn [N.size N.size_nat].
  induction p as [p IH|p IH|]; cbn [Pos.size Pos.size_nat]; rewrite ?Nat2N.inj_succ, <-?IH; done.
Qed.

Definition wire_u64 : wire N := Wire varint unvarint unvarint_varint.

Program Definition wire_u8 : wire N :=
  Wire (λ b, [b]) (λ bs, match bs with b :: bs' => Some (b, bs') | [] => None end) _.
Next Obligation. done. Qed.

(** ** Combinators *)

Program Definition wire_iso {A B} (f : A → B) (g : B → A) (Hgf : ∀ a, g (f a) = a) (w : wire B) : wire A :=
  Wire (λ a, ser w (f a)) (λ bs, match parse w bs with Some (b, rest) => Some (g b, rest) | None => None end) _.
Next Obligation. intros A B f g Hgf w a rest. simpl. by rewrite parse_ser, Hgf. Qed.

Program Definition wire_pair {A B} (wa : wire A) (wb : wire B) : wire (A * B) :=
  Wire (λ p, ser wa p.1 ++ ser wb p.2)
    (λ bs, '(a, bs) ← parse wa bs; '(b, bs) ← parse wb bs; Some ((a, b), bs)) _.
Next Obligation. intros A B wa wb [a b] rest. simpl. rewrite <-app_assoc, parse_ser. simpl. by rewrite parse_ser. Qed.

Fixpoint parse_list {A} (p : bytes → option (A * bytes)) (n : nat) (bs : bytes) : option (list A * bytes) :=
  match n with
  | O => Some ([], bs)
  | S n' => '(a, bs) ← p bs; '(l, bs) ← parse_list p n' bs; Some (a :: l, bs)
  end.

Lemma parse_list_ser {A} (w : wire A) l rest :
  parse_list (parse w) (length l) (concat (map (ser w) l) ++ rest) = Some (l, rest).
Proof.
  induction l as [|a l IH]; [done|]. simpl. rewrite <-app_assoc, parse_ser. simpl. by rewrite IH.
Qed.

Program Definition wire_list {A} (w : wire A) : wire (list A) :=
  Wire (λ l, ser wire_u64 (N.of_nat (length l)) ++ concat (map (ser w) l))
    (λ bs, '(n, bs) ← parse wire_u64 bs; parse_list (parse w) (N.to_nat n) bs) _.
Next Obligation.
  intros A w l rest. cbn beta. rewrite <-app_assoc, parse_ser. cbn -[wire_u64]. by rewrite Nat2N.id, parse_list_ser.
Qed.

Definition parse_option {A} (p : bytes → option (A * bytes)) (bs : bytes) : option (option A * bytes) :=
  match bs with
  | 0%N :: bs => Some (None, bs)
  | 1%N :: bs => '(a, bs) ← p bs; Some (Some a, bs)
  | _ => None
  end.

Program Definition wire_option {A} (w : wire A) : wire (option A) :=
  Wire (λ o, match o with None => [0%N] | Some a => 1%N :: ser w a end) (parse_option (parse w)) _.
Next Obligation. intros A w [a|] rest; simpl; [|done]. by rewrite parse_ser. Qed.

(** An enumeration by the position of the value. *)
Definition wire_enum {A} (f : A → N) (g : N → A) (Hgf : ∀ a, g (f a) = a) : wire A := wire_iso f g Hgf wire_u64.

Definition wire_bool : wire bool :=
  wire_enum (λ b : bool, if b then 1%N else 0%N) (λ n, (n =? 1)%N) (λ b, match b with true => eq_refl | false => eq_refl end).

Definition wire_bytes : wire bytes := wire_list wire_u8.
Definition wire_string : wire string := wire_iso utf8 string_of_bytes string_of_bytes_utf8 wire_bytes.
Definition wire_nat : wire nat := wire_iso N.of_nat N.to_nat Nat2N.id wire_u64.

(** Ordered maps and sets are sequences. *)
Definition wire_map {K A} `{Countable K} (wk : wire K) (wa : wire A) : wire (gmap K A) :=
  wire_iso map_to_list list_to_map list_to_map_to_list (wire_list (wire_pair wk wa)).
Definition wire_set {K} `{Countable K} (wk : wire K) : wire (gset K) :=
  wire_iso elements list_to_set list_to_set_elements_L (wire_list wk).
