(* ===== verification/PageStore.v ===== *)
(** * The page store

    [vaultsync-wasm/src/page_store.rs]: numbered pages as files of a directory,
    with a checksummed manifest that holds an index of the live pages, and a
    cache.  The manifest in memory is always present once the store is open;
    tabs run one task at a time and a call is modelled as a whole.  [crc32fast]
    is a parameter. *)
From S2P Require Import Prelude Text Types Opfs.

Abbreviation PageId := N.

(** ** The content index *)

Inductive IndexKey :=
  | KDocument (doc_id record_id : string)
  | KSequence (seq : N)
  | KNamespace (ns : string)
  | KSchema (doc_id : string)
  | KMigration (version : string).

#[export] Instance IndexKey_eq_dec : EqDecision IndexKey.
Proof. solve_decision. Defined.
#[export] Instance IndexKey_countable : Countable IndexKey.
Proof.
  refine (inj_countable'
    (λ k, match k with
          | KDocument d r => inl (inl (d, r))
          | KSequence n => inl (inr n)
          | KNamespace s => inr (0, s)
          | KSchema s => inr (1, s)
          | KMigration s => inr (2, s)
          end)
    (λ k, match k with
          | inl (inl (d, r)) => KDocument d r
          | inl (inr n) => KSequence n
          | inr (0, s) => KNamespace s
          | inr (1, s) => KSchema s
          | inr (_, s) => KMigration s
          end) _).
  by intros [].
Defined.

Record IndexEntry := IndexEntry_new {
  ie_page_id : PageId;
  ie_storage_gen : N;
  ie_checksum : N;
  ie_size : N;
  ie_last_modified : N;
  ie_version : N;
  ie_dirty : bool;
}.

(** The ordered maps and sets are read by key; where their order matters
    ([sorted_ids]) it is written out. *)
Record ContentIndex := ContentIndex_new {
  ci_generation : N;
  ci_entries : gmap IndexKey IndexEntry;
  ci_live_pages : gset PageId;
  ci_page_by_document : gmap string (gmap string IndexEntry);
  ci_page_by_sequence : gmap N IndexEntry;
  ci_dirty_pages : gset PageId;
  ci_page_by_id : gmap PageId IndexKey;
  ci_tombstoned_pages : gset PageId;
  ci_checksum : N;
}.

#[export] Instance IndexEntry_eq_dec : EqDecision IndexEntry.
Proof. solve_decision. Defined.
#[export] Instance ContentIndex_eq_dec : EqDecision ContentIndex.
Proof. solve_decision. Defined.

(** The order of a [BTreeSet]. *)
Definition sorted_ids (X : gset PageId) : list PageId := stable_sort N.le (elements X).

Module ContentIndex.
Definition new : ContentIndex := ContentIndex_new 0 ∅ ∅ ∅ ∅ ∅ ∅ ∅ 0.

Definition lookup (key : IndexKey) (ci : ContentIndex) : option IndexEntry := ci_entries ci !! key.
Definition lookup_page_id (key : IndexKey) (ci : ContentIndex) : option PageId :=
  ie_page_id <$> ci_entries ci !! key.
Definition lookup_document (doc_id record_id : string) (ci : ContentIndex) : option IndexEntry :=
  docs ← ci_page_by_document ci !! doc_id; docs !! record_id.
Definition lookup_sequence (seq : N) (ci : ContentIndex) : option IndexEntry := ci_page_by_sequence ci !! seq.
Definition is_dirty (page_id : PageId) (ci : ContentIndex) : bool := bool_decide (page_id ∈ ci_dirty_pages ci).
Definition dirty_count (ci : ContentIndex) : nat := size (ci_dirty_pages ci).

(** The two secondary maps at [insert] and [remove]. *)
Definition document_insert (key : IndexKey) (entry : IndexEntry) (m : gmap string (gmap string IndexEntry)) :=
  match key with
  | KDocument d r => <[d := <[r := entry]> (default ∅ (m !! d))]> m
  | _ => m
  end.
Definition sequence_insert (key : IndexKey) (entry : IndexEntry) (m : gmap N IndexEntry) :=
  match key with KSequence seq => <[seq := entry]> m | _ => m end.
Definition document_remove (key : IndexKey) (m : gmap string (gmap string IndexEntry)) :=
  match key with
  | KDocument d r =>
      match m !! d with
      | Some docs =>
          let docs := delete r docs in
          if bool_decide (docs = ∅) then delete d m else <[d := docs]> m
      | None => m
      end
  | _ => m
  end.
Definition sequence_remove (key : IndexKey) (m : gmap N IndexEntry) :=
  match key with KSequence seq => delete seq m | _ => m end.

Definition insert (key : IndexKey) (entry : IndexEntry) (ci : ContentIndex) : ContentIndex :=
  let p := ie_page_id entry in
  ContentIndex_new (ci_generation ci) (<[key := entry]> (ci_entries ci)) ({[p]} ∪ ci_live_pages ci)
    (document_insert key entry (ci_page_by_document ci)) (sequence_insert key entry (ci_page_by_sequence ci))
    (ci_dirty_pages ci) (<[p := key]> (ci_page_by_id ci)) (ci_tombstoned_pages ci ∖ {[p]}) (ci_checksum ci).

Definition mark_dirty (page_id : PageId) (ci : ContentIndex) : ContentIndex :=
  ContentIndex_new (ci_generation ci) (ci_entries ci) (ci_live_pages ci) (ci_page_by_document ci)
    (ci_page_by_sequence ci) ({[page_id]} ∪ ci_dirty_pages ci) (ci_page_by_id ci) (ci_tombstoned_pages ci) (ci_checksum ci).
Definition mark_clean (page_id : PageId) (ci : ContentIndex) : ContentIndex :=
  ContentIndex_new (ci_generation ci) (ci_entries ci) (ci_live_pages ci) (ci_page_by_document ci)
    (ci_page_by_sequence ci) (ci_dirty_pages ci ∖ {[page_id]}) (ci_page_by_id ci) (ci_tombstoned_pages ci) (ci_checksum ci).

Definition insert_dirty (key : IndexKey) (entry : IndexEntry) (ci : ContentIndex) : ContentIndex :=
  insert key entry (mark_dirty (ie_page_id entry) ci).

Definition remove (key : IndexKey) (ci : ContentIndex) : ContentIndex :=
  match ci_entries ci !! key with
  | Some entry =>
      let p := ie_page_id entry in
      ContentIndex_new (ci_generation ci) (delete key (ci_entries ci)) (ci_live_pages ci ∖ {[p]})
        (document_remove key (ci_page_by_document ci)) (sequence_remove key (ci_page_by_sequence ci))
        (ci_dirty_pages ci ∖ {[p]}) (delete p (ci_page_by_id ci)) ({[p]} ∪ ci_tombstoned_pages ci) (ci_checksum ci)
  | None => ci
  end.

(** [live_pages.remove(&page_id); tombstoned_pages.insert(page_id)]. *)
Definition bury (page_id : PageId) (ci : ContentIndex) : ContentIndex :=
  ContentIndex_new (ci_generation ci) (ci_entries ci) (ci_live_pages ci ∖ {[page_id]}) (ci_page_by_document ci)
    (ci_page_by_sequence ci) (ci_dirty_pages ci) (ci_page_by_id ci) ({[page_id]} ∪ ci_tombstoned_pages ci) (ci_checksum ci).
Definition forget_page (page_id : PageId) (ci : ContentIndex) : ContentIndex :=
  ContentIndex_new (ci_generation ci) (ci_entries ci) (ci_live_pages ci) (ci_page_by_document ci)
    (ci_page_by_sequence ci) (ci_dirty_pages ci) (delete page_id (ci_page_by_id ci)) (ci_tombstoned_pages ci) (ci_checksum ci).

Definition remove_by_page_id (page_id : PageId) (ci : ContentIndex) : option IndexKey * ContentIndex :=
  match ci_page_by_id ci !! page_id with
  | Some key => (Some key, bury page_id (remove key (forget_page page_id ci)))
  | None => (None, bury page_id ci)
  end.

Definition lookup_key_by_page_id (page_id : PageId) (ci : ContentIndex) : option IndexKey :=
  ci_page_by_id ci !! page_id.

Definition repair_orphans (ci : ContentIndex) : nat * ContentIndex :=
  if bool_decide (ci_page_by_id ci = ∅) then (0, ci)
  else
    let orphans := filterb (λ p, bool_decide (ci_page_by_id ci !! p = None)) (sorted_ids (ci_live_pages ci)) in
    (length orphans, foldl (λ ci p, bury p ci) ci orphans).

(** [live_pages.insert(page_id)], and [page_by_id] if it has no key yet. *)
Definition track (page_id : PageId) (stub : IndexKey) (ci : ContentIndex) : ContentIndex :=
  ContentIndex_new (ci_generation ci) (ci_entries ci) ({[page_id]} ∪ ci_live_pages ci) (ci_page_by_document ci)
    (ci_page_by_sequence ci) (ci_dirty_pages ci)
    (match ci_page_by_id ci !! page_id with Some _ => ci_page_by_id ci | None => <[page_id := stub]> (ci_page_by_id ci) end)
    (ci_tombstoned_pages ci) (ci_checksum ci).
End ContentIndex.

(** ** Headers and manifests *)

Record PageHeader := PageHeader_new {
  ph_version : N;
  ph_checksum : N;
  ph_flags : N;
  ph_data_len : N;
}.

Record StoreManifest := StoreManifest_new {
  sm_manifest_version : N;
  sm_generation : N;
  sm_highest_page_id : PageId;
  sm_current_page : PageId;
  sm_last_sequence : N;
  sm_pending_count : nat;
  sm_live_pages : nat;
  sm_tombstoned_pages : nat;
  sm_created_at : N;
  sm_updated_at : N;
  sm_content_index : ContentIndex;
  sm_checksum : N;
  sm_serialization_version : N;
}.

#[export] Instance PageHeader_eq_dec : EqDecision PageHeader.
Proof. solve_decision. Defined.
#[export] Instance StoreManifest_eq_dec : EqDecision StoreManifest.
Proof. solve_decision. Defined.

(** [migration.rs]: a document page. *)
Record DocEntry := DocEntry_new { de_doc_id : string; de_record_id : string; de_bytes : bytes }.

(** The values the pages hold, and the checksum. *)
Class PageCodec := {
  #[global] header_postcard :: Postcard PageHeader;
  #[global] manifest_postcard :: Postcard StoreManifest;
  #[global] doc_postcard :: Postcard DocEntry;
  #[global] entry_postcard :: Postcard OplogEntry;
  #[global] entries_postcard :: Postcard (list OplogEntry);
  crc32_hash : bytes → N;
}.

(** A header takes at most twelve bytes; what is needed is that the header
    reads find it whole. *)
Class PageCodecSpec (K : PageCodec) := {
  #[global] header_postcard_spec :: PostcardSpec PageHeader;
  #[global] manifest_postcard_spec :: PostcardSpec StoreManifest;
  #[global] doc_postcard_spec :: PostcardSpec DocEntry;
  #[global] entry_postcard_spec :: PostcardSpec OplogEntry;
  #[global] entries_postcard_spec :: PostcardSpec (list OplogEntry);
  header_length (h : PageHeader) bs : to_allocvec h = Ok bs → length bs ≤ 126;
}.

Module StoreManifest.
(** The fields the operations assign. *)
Definition set_checksum (c : N) (m : StoreManifest) : StoreManifest :=
  let '(StoreManifest_new v g h cur seq pend live tomb ca ua ci _ sv) := m in
  StoreManifest_new v g h cur seq pend live tomb ca ua ci c sv.
Definition set_generation (g : N) (m : StoreManifest) : StoreManifest :=
  let '(StoreManifest_new v _ h cur seq pend live tomb ca ua ci c sv) := m in
  StoreManifest_new v g h cur seq pend live tomb ca ua ci c sv.
Definition set_highest (h : PageId) (m : StoreManifest) : StoreManifest :=
  let '(StoreManifest_new v g _ cur seq pend live tomb ca ua ci c sv) := m in
  StoreManifest_new v g h cur seq pend live tomb ca ua ci c sv.
Definition set_current (cur : PageId) (m : StoreManifest) : StoreManifest :=
  let '(StoreManifest_new v g h _ seq pend live tomb ca ua ci c sv) := m in
  StoreManifest_new v g h cur seq pend live tomb ca ua ci c sv.
Definition set_last_sequence (seq : N) (m : StoreManifest) : StoreManifest :=
  let '(StoreManifest_new v g h cur _ pend live tomb ca ua ci c sv) := m in
  StoreManifest_new v g h cur seq pend live tomb ca ua ci c sv.
Definition set_pending (pend : nat) (m : StoreManifest) : StoreManifest :=
  let '(StoreManifest_new v g h cur seq _ live tomb ca ua ci c sv) := m in
  StoreManifest_new v g h cur seq pend live tomb ca ua ci c sv.
Definition set_counts (live tomb : nat) (m : StoreManifest) : StoreManifest :=
  let '(StoreManifest_new v g h cur seq pend _ _ ca ua ci c sv) := m in
  StoreManifest_new v g h cur seq pend live tomb ca ua ci c sv.
Definition set_updated_at (ua : N) (m : StoreManifest) : StoreManifest :=
  let '(StoreManifest_new v g h cur seq pend live tomb ca _ ci c sv) := m in
  StoreManifest_new v g h cur seq pend live tomb ca ua ci c sv.
Definition on_index (f : ContentIndex → ContentIndex) (m : StoreManifest) : StoreManifest :=
  let '(StoreManifest_new v g h cur seq pend live tomb ca ua ci c sv) := m in
  StoreManifest_new v g h cur seq pend live tomb ca ua (f ci) c sv.

(** [m.live_pages = m.content_index.live_pages.len()], alone or with the
    tombstones. *)
Definition count_live (m : StoreManifest) : StoreManifest :=
  set_counts (size (ci_live_pages (sm_content_index m))) (sm_tombstoned_pages m) m.
Definition count_pages (m : StoreManifest) : StoreManifest :=
  set_counts (size (ci_live_pages (sm_content_index m))) (size (ci_tombstoned_pages (sm_content_index m))) m.

Definition increment_generation (m : StoreManifest) : StoreManifest :=
  set_generation (wrapping_add64 (sm_generation m) 1) m.

Section checksum.
Context {K : PageCodec}.

Definition compute_checksum (m : StoreManifest) : N :=
  match to_allocvec (set_checksum 0 m) with
  | Ok buf => crc32_hash buf
  | Err _ => 0
  end.

Definition verify (m : StoreManifest) : bool := (compute_checksum (set_checksum 0 m) =? sm_checksum m)%N.
End checksum.
End StoreManifest.

Definition CURRENT_SERIALIZATION_VERSION : N := 1.

(** ** The page cache *)

Record CachedPage := CachedPage_new { cp_data : bytes; cp_last_access : N; cp_size : nat }.

Record PageCache := PageCache_mk {
  pc_max_entries : nat;
  pc_max_bytes : N;
  pc_entries : gmap PageId CachedPage;
  pc_order : list PageId;
  pc_current_bytes : N;
}.

Module PageCache.
Definition new (max_entries : nat) (max_bytes : N) : PageCache := PageCache_mk max_entries max_bytes ∅ [] 0.

(** [if let Some(pos) = order.iter().position(..) { order.remove(pos); .. }]:
    the first occurrence goes. *)
Fixpoint remove_first (p : PageId) (order : list PageId) : list PageId :=
  match order with
  | [] => []
  | q :: order' => if (q =? p)%N then order' else q :: remove_first p order'
  end.

Definition get (now : N) (p : PageId) (c : PageCache) : option bytes * PageCache :=
  match pc_entries c !! p with
  | Some e =>
      (Some (cp_data e),
       PageCache_mk (pc_max_entries c) (pc_max_bytes c)
         (<[p := CachedPage_new (cp_data e) now (cp_size e)]> (pc_entries c))
         (if bool_decide (p ∈ pc_order c) then remove_first p (pc_order c) ++ [p] else pc_order c)
         (pc_current_bytes c))
  | None => (None, c)
  end.

Definition evict_one (c : PageCache) : bool * PageCache :=
  match pc_order c with
  | [] => (false, c)
  | p :: order =>
      match pc_entries c !! p with
      | Some e => (true, PageCache_mk (pc_max_entries c) (pc_max_bytes c) (delete p (pc_entries c)) order
                           (saturating_sub (pc_current_bytes c) (N.of_nat (cp_size e))))
      | None => (false, PageCache_mk (pc_max_entries c) (pc_max_bytes c) (pc_entries c) order (pc_current_bytes c))
      end
  end.

(** The [while] loop of [insert]; each turn that goes on shortens the order,
    whose length is the fuel. *)
Fixpoint make_room (fuel : nat) (size_ : nat) (c : PageCache) : PageCache :=
  if Nat.leb (pc_max_entries c) (size (pc_entries c)) || (pc_max_bytes c <? pc_current_bytes c + N.of_nat size_)%N then
    match fuel with
    | O => (evict_one c).2
    | S fuel' => let '(evicted, c') := evict_one c in if evicted then make_room fuel' size_ c' else c'
    end
  else c.

Definition insert (now : N) (p : PageId) (data : bytes) (c : PageCache) : PageCache :=
  let size_ := length data in
  match pc_entries c !! p with
  | Some e =>
      PageCache_mk (pc_max_entries c) (pc_max_bytes c)
        (<[p := CachedPage_new data now size_]> (pc_entries c)) (pc_order c)
        (saturating_sub (pc_current_bytes c) (N.of_nat (cp_size e)) + N.of_nat size_)
  | None =>
      let c := make_room (length (pc_order c)) size_ c in
      PageCache_mk (pc_max_entries c) (pc_max_bytes c)
        (<[p := CachedPage_new data now size_]> (pc_entries c)) (pc_order c ++ [p])
        (pc_current_bytes c + N.of_nat size_)
  end.

Definition remove (p : PageId) (c : PageCache) : PageCache :=
  match pc_entries c !! p with
  | Some e =>
      PageCache_mk (pc_max_entries c) (pc_max_bytes c) (delete p (pc_entries c)) (remove_first p (pc_order c))
        (saturating_sub (pc_current_bytes c) (N.of_nat (cp_size e)))
  | None => c
  end.

Definition clear (c : PageCache) : PageCache := new (pc_max_entries c) (pc_max_bytes c).
End PageCache.

(** ** Page files *)

Definition page_filename (page_id : PageId) : string := show_N page_id +:+ ".page".

Definition parse_page_id (name : string) : option PageId :=
  match strip_suffix ".page" name with
  | Some stripped => parse_u64 stripped
  | None => None
  end.

Definition PAGE_MAGIC : bytes := [0x56%N; 0x53%N].
Definition TOMBSTONE : N := 0x02.
Definition is_tombstoned (h : PageHeader) : bool := negb (N.land (ph_flags h) TOMBSTONE =? 0)%N.

(** [x as u32]. *)
Definition as_u32 (n : nat) : N := N.of_nat n mod 4294967296.

(** [is_not_found] and [is_not_readable] look for a word in the [{:?}] text of
    the error; the errors of the file functions are all [Storage]. *)
Definition error_text (e : VaultSyncError) : string :=
  match e with
  | EStorage m | ECoordinator m | ECrdt m | EEncryption m | ESchema m | EConfig m | EIo m | ESqlite m => m
  | _ => ""
  end.
Definition is_not_found (e : VaultSyncError) : bool := says_not_found (error_text e).
Definition is_not_readable (e : VaultSyncError) : bool :=
  contains "NotReadableError" (error_text e) || contains "NotReadable" (error_text e).
Definition is_empty_page (e : VaultSyncError) : bool := contains "empty page" (error_text e).

Section format.
Context {K : PageCodec}.

Definition encode_v3_page (data : bytes) (flags : N) : result bytes VaultSyncError :=
  match to_allocvec (PageHeader_new 1 (crc32_hash data) flags (as_u32 (length data))) with
  | Ok header_bytes => Ok (PAGE_MAGIC ++ header_bytes ++ data)
  | Err e => Err (EStorage ("header encode: " +:+ e))
  end.

(** [encoded_header_len]; a header that was decoded can be encoded. *)
Definition encoded_header_len (h : PageHeader) : nat :=
  match to_allocvec h with Ok bs => length bs | Err _ => 0 end.

(** [bytes.len() >= 2 && bytes[0] == PAGE_MAGIC[0] && bytes[1] == PAGE_MAGIC[1]]. *)
Definition has_magic (bs : bytes) : bool := bool_decide (take 2 bs = PAGE_MAGIC).

(** A header of version 1 at the front of the bytes. *)
Definition v2_header (bs : bytes) : option PageHeader :=
  match from_bytes bs with
  | Ok h => if (ph_version h =? 1)%N then Some h else None
  | Err _ => None
  end.

Definition v1_flags (bs : bytes) : N := le_decode (take 2 (drop 8 bs)) mod 256.
Definition v1_data_len (bs : bytes) : N := le_decode (take 4 (drop 10 bs)).
Definition v1_data (bs : bytes) : bytes := take (N.to_nat (v1_data_len bs)) (drop 14 bs).

Definition decode_page_header (bs : bytes) : result PageHeader VaultSyncError :=
  if has_magic bs then
    match from_bytes (drop 2 bs) with
    | Ok h => if (ph_version h =? 1)%N then Ok h else Err (EStorage "unknown V3 version")
    | Err e => Err (EStorage ("V3 decode: " +:+ e))
    end
  else
    match v2_header bs with
    | Some h => Ok h
    | None =>
        if Nat.leb 14 (length bs) then Ok (PageHeader_new 0 0 (v1_flags bs) (v1_data_len bs))
        else Err (EStorage "unrecognized page format")
    end.

Definition extract_page_data (bs : bytes) : result bytes VaultSyncError :=
  match bs with
  | [] => Err (EStorage "empty page")
  | _ =>
      if has_magic bs then
        match from_bytes (drop 2 bs) with
        | Ok h =>
            if negb (ph_version h =? 1)%N then Err (EStorage "unknown V3 version")
            else
              let header_end := (2 + encoded_header_len h)%nat in
              if Nat.ltb (length bs) header_end then Err (EStorage "truncated V3 page")
              else Ok (take (N.to_nat (ph_data_len h)) (drop header_end bs))
        | Err e => Err (EStorage ("V3 decode: " +:+ e))
        end
      else
        match v2_header bs with
        | Some h =>
            let header_end := encoded_header_len h in
            if Nat.ltb (length bs) header_end then Err (EStorage "truncated V2 page")
            else Ok (take (N.to_nat (ph_data_len h)) (drop header_end bs))
        | None =>
            if Nat.leb 14 (length bs) then Ok (v1_data bs) else Err (EStorage "unrecognized page format")
        end
  end.

(** The bytes of [read_page_file_raw]: header and everything behind it. *)
Definition split_page_bytes (bs : bytes) : result (PageHeader * bytes) VaultSyncError :=
  match bs with
  | [] => Err (EStorage "empty page")
  | _ =>
      if has_magic bs then
        match from_bytes (drop 2 bs) with
        | Ok h =>
            if negb (ph_version h =? 1)%N then Err (EStorage "unknown V3 version")
            else
              let header_end := (2 + encoded_header_len h)%nat in
              if Nat.ltb (length bs) header_end then Err (EStorage "truncated V3 page")
              else Ok (h, drop header_end bs)
        | Err e => Err (EStorage ("V3 decode: " +:+ e))
        end
      else
        match v2_header bs with
        | Some h =>
            let header_end := encoded_header_len h in
            if Nat.ltb (length bs) header_end then Err (EStorage "truncated V2 page")
            else Ok (h, drop header_end bs)
        | None =>
            if Nat.leb 14 (length bs)
            then Ok (PageHeader_new 0 0 (v1_flags bs) (as_u32 (length (v1_data bs))), v1_data bs)
            else Err (EStorage "corrupt page: unrecognized format")
        end
  end.
End format.

(** ** The store *)

Record page_store (D : Type) := PageStore_mk {
  ps_dir : D;
  ps_store_name : string;
  ps_gc_needed : bool;
  ps_split_pending : bool;
  ps_manifest : StoreManifest;
  ps_page_cache : PageCache;
  ps_pending_count : nat;
}.
Arguments PageStore_mk {D}.
Arguments ps_dir {D}.
Arguments ps_store_name {D}.
Arguments ps_gc_needed {D}.
Arguments ps_split_pending {D}.
Arguments ps_manifest {D}.
Arguments ps_page_cache {D}.
Arguments ps_pending_count {D}.

Section file_functions.
Context {D : Type} `{Opfs D} {K : PageCodec}.
Abbreviation F := (SM D VaultSyncError).

Definition fs {A} (m : SM D string A) : F A := sm_map_err EStorage m.
Definition clock : F N := λ d, let '(n, d') := date_now d in (Ok n, d').
Definition entries : F (list string) := λ d, let '(names, d') := dir_entries d in (Ok names, d').
Definition lift_result {A} (r : result A VaultSyncError) : F A := λ d, (r, d).

Definition read_all_bytes (name : string) : F bytes := fs (file_read name).
Definition write_file (name : string) (data : bytes) : F unit := fs (file_write name data).
Definition delete_file (name : string) : F unit := fs (file_remove name).
Definition read_header_bytes (name : string) : F bytes := fs (file_head 128 name).

Definition rename_file (from to : string) : F unit :=
  if bool_decide (from = to) then mret tt
  else
    data ← read_all_bytes from;
    write_file to data;;
    delete_file from.

Definition read_page_header (name : string) : F (option PageHeader) :=
  r ← sm_try (read_header_bytes name);
  match r with
  | Err e => if is_not_found e then mret None else sm_fail e
  | Ok [] => sm_fail (EStorage ("empty page " +:+ name))
  | Ok bs => h ← lift_result (decode_page_header bs); mret (Some h)
  end.

Definition read_page_file_raw (name : string) : F (option (PageHeader * bytes)) :=
  r ← sm_try (read_all_bytes name);
  match r with
  | Err e => if is_not_found e then mret None else sm_fail e
  | Ok bs => p ← lift_result (split_page_bytes bs); mret (Some p)
  end.

Definition read_page_file (name : string) : F (option (PageHeader * bytes)) :=
  r ← read_page_file_raw name;
  match r with
  | Some (h, data) =>
      if (1 <=? ph_version h)%N && negb (as_u32 (length data) =? ph_data_len h)%N
      then sm_fail (EStorage "page data len mismatch")
      else mret (Some (h, data))
  | None => mret None
  end.

Definition read_manifest : D → option StoreManifest * D := λ d,
  match read_all_bytes "_manifest" d with
  | (Ok bs, d') =>
      (match from_bytes bs with
       | Ok m => if StoreManifest.verify m then Some m else None
       | Err _ => None
       end, d')
  | (Err _, d') => (None, d')
  end.

Definition write_manifest (m : StoreManifest) : F unit :=
  let copy := StoreManifest.set_checksum 0 m in
  let copy := StoreManifest.set_checksum (StoreManifest.compute_checksum copy) copy in
  match to_allocvec copy with
  | Ok bs => write_file "_manifest" bs
  | Err e => sm_fail (EStorage ("manifest encode: " +:+ e))
  end.
End file_functions.

Section rebuild.
Context {D : Type} `{Opfs D} {K : PageCodec}.
Abbreviation F := (SM D VaultSyncError).

(** The entry of a live page found by the scan: a page that decodes as a
    document is indexed by it, any other by its own number. *)
Definition index_scanned (id : PageId) (entry : IndexEntry) (data : bytes) (ci : ContentIndex) : ContentIndex :=
  match from_bytes data with
  | Ok doc => ContentIndex.insert (KDocument (de_doc_id doc) (de_record_id doc)) entry ci
  | Err _ =>
      ContentIndex_new (ci_generation ci) (<[KSequence id := entry]> (ci_entries ci)) ({[id]} ∪ ci_live_pages ci)
        (ci_page_by_document ci) (ci_page_by_sequence ci) (ci_dirty_pages ci)
        (<[id := KSequence id]> (ci_page_by_id ci)) (ci_tombstoned_pages ci) (ci_checksum ci)
  end.

Definition tombstone_scanned (id : PageId) (ci : ContentIndex) : ContentIndex :=
  ContentIndex_new (ci_generation ci) (ci_entries ci) (ci_live_pages ci) (ci_page_by_document ci)
    (ci_page_by_sequence ci) (ci_dirty_pages ci) (ci_page_by_id ci) ({[id]} ∪ ci_tombstoned_pages ci) (ci_checksum ci).

Definition rebuild_entry (now : N) (name : string) (acc : PageId * ContentIndex) : F (PageId * ContentIndex) :=
  match parse_page_id name with
  | None => mret acc
  | Some id =>
      let highest := N.max acc.1 id in
      r ← sm_try (read_page_file name);
      match r with
      | Ok (Some (h, data)) =>
          if is_tombstoned h then mret (highest, tombstone_scanned id acc.2)
          else mret (highest, index_scanned id
                 (IndexEntry_new id 0 (ph_checksum h) (as_u32 (length data)) now 1 false) data acc.2)
      | _ => mret (highest, acc.2)
      end
  end.

Fixpoint rebuild_scan (now : N) (names : list string) (acc : PageId * ContentIndex) : F (PageId * ContentIndex) :=
  match names with
  | [] => mret acc
  | name :: names => acc ← rebuild_entry now name acc; rebuild_scan now names acc
  end.

Definition rebuild_manifest_with_index : F StoreManifest :=
  now ← clock;
  names ← entries;
  '(highest, ci) ← rebuild_scan now names (0%N, ContentIndex.new);
  let m := StoreManifest_new 2 0 highest 0 0 0 (size (ci_live_pages ci)) (size (ci_tombstoned_pages ci))
             now now ci 0 CURRENT_SERIALIZATION_VERSION in
  mret (StoreManifest.set_checksum (StoreManifest.compute_checksum m) m).

(** The legacy scan, which only counts. *)
Fixpoint count_scan (names : list string) (acc : PageId * nat * nat) : F (PageId * nat * nat) :=
  match names with
  | [] => mret acc
  | name :: names =>
      let '(highest, live, tombstoned) := acc in
      match parse_page_id name with
      | None => count_scan names acc
      | Some id =>
          r ← sm_try (read_page_header name);
          count_scan names
            (match r with
             | Ok (Some h) => if is_tombstoned h then (N.max highest id, live, S tombstoned)
                              else (N.max highest id, S live, tombstoned)
             | _ => (N.max highest id, live, tombstoned)
             end)
      end
  end.

Definition rebuild_manifest : F StoreManifest :=
  now ← clock;
  names ← entries;
  '(highest, live, tombstoned) ← count_scan names (0%N, 0, 0);
  let m := StoreManifest_new 1 0 highest 0 0 0 live tombstoned now now ContentIndex.new 0
             CURRENT_SERIALIZATION_VERSION in
  mret (StoreManifest.set_checksum (StoreManifest.compute_checksum m) m).

(** [ContentIndex::async_rebuild_from_scan]. *)
Definition async_rebuild_from_scan : F ContentIndex :=
  names ← entries;
  mret (foldl (λ ci name,
    match parse_page_id name with
    | Some id => ContentIndex_new (ci_generation ci) (ci_entries ci) ({[id]} ∪ ci_live_pages ci) (ci_page_by_document ci)
                   (ci_page_by_sequence ci) (ci_dirty_pages ci) (ci_page_by_id ci) (ci_tombstoned_pages ci) (ci_checksum ci)
    | None => ci
    end) ContentIndex.new names).
End rebuild.

(** [check_manifest_rebuild_duplicates]: documents with more than one page
    among the entries of the index. *)
Definition document_pages (d r : string) (ci : ContentIndex) : list PageId :=
  omap (λ '(key, entry), if bool_decide (key = KDocument d r) then Some (ie_page_id entry) else None)
    (map_to_list (ci_entries ci)).
Definition has_duplicates (ci : ContentIndex) : bool :=
  existsb (λ '(key, _), match key with KDocument d r => Nat.ltb 1 (length (document_pages d r ci)) | _ => false end)
    (map_to_list (ci_entries ci)).

(** ** Operations of the store *)

Inductive PageTxOp :=
  | TxWrite (page_id : PageId) (key : option IndexKey)
  | TxTombstone (page_id : PageId)
  | TxDelete (page_id : PageId).

Record PageTransaction := PageTransaction_new { pt_ops : list PageTxOp; pt_started_at : N }.

Module PageStore.
Definition SOFT_SPLIT_BYTES : N := 8000000.
Definition HARD_SPLIT_BYTES : N := 16000000.
Definition MAX_ENTRIES_PER_PAGE : nat := 4096.

Section store.
Context {D : Type} `{Opfs D} {K : PageCodec}.
Abbreviation M := (SM (page_store D) VaultSyncError).

Definition set_dir (d : D) (s : page_store D) : page_store D :=
  PageStore_mk d (ps_store_name s) (ps_gc_needed s) (ps_split_pending s) (ps_manifest s) (ps_page_cache s) (ps_pending_count s).
Definition set_manifest (m : StoreManifest) (s : page_store D) : page_store D :=
  PageStore_mk (ps_dir s) (ps_store_name s) (ps_gc_needed s) (ps_split_pending s) m (ps_page_cache s) (ps_pending_count s).
Definition set_cache (c : PageCache) (s : page_store D) : page_store D :=
  PageStore_mk (ps_dir s) (ps_store_name s) (ps_gc_needed s) (ps_split_pending s) (ps_manifest s) c (ps_pending_count s).
Definition set_gc (b : bool) (s : page_store D) : page_store D :=
  PageStore_mk (ps_dir s) (ps_store_name s) b (ps_split_pending s) (ps_manifest s) (ps_page_cache s) (ps_pending_count s).
Definition set_split (b : bool) (s : page_store D) : page_store D :=
  PageStore_mk (ps_dir s) (ps_store_name s) (ps_gc_needed s) b (ps_manifest s) (ps_page_cache s) (ps_pending_count s).
Definition set_count (n : nat) (s : page_store D) : page_store D :=
  PageStore_mk (ps_dir s) (ps_store_name s) (ps_gc_needed s) (ps_split_pending s) (ps_manifest s) (ps_page_cache s) n.

Definition on_dir {A} (m : SM D VaultSyncError A) : M A := zoom ps_dir set_dir m.
Definition now : M N := on_dir clock.
Definition modify_manifest (f : StoreManifest → StoreManifest) : M unit :=
  sm_modify (λ s, set_manifest (f (ps_manifest s)) s).
Definition modify_cache (f : PageCache → PageCache) : M unit :=
  sm_modify (λ s, set_cache (f (ps_page_cache s)) s).

(** [write_manifest(&self.dir, .., &manifest.clone())]. *)
Definition flush : M unit := m ← sm_gets ps_manifest; on_dir (write_manifest m).

Definition open (store_name : string) (d : D) : result (page_store D) VaultSyncError * D :=
  let '(m, d) := read_manifest d in
  let '(r, d) := match m with
                 | Some m => (Ok m, d)
                 | None =>
                     (m ← rebuild_manifest_with_index;
                      write_manifest m;;
                      mret m) d
                 end in
  match r with
  | Ok m => (Ok (PageStore_mk d store_name false false m (PageCache.new 500 20971520) (sm_pending_count m)), d)
  | Err e => (Err e, d)
  end.

Definition list_page_ids : M (list PageId) :=
  sm_gets (λ s, sorted_ids (ci_live_pages (sm_content_index (ps_manifest s)))).

Definition content_index_lookup (key : IndexKey) : M (option IndexEntry) :=
  ci ← sm_gets (λ s, sm_content_index (ps_manifest s));
  mret (match ContentIndex.lookup key ci with
        | Some e => Some e
        | None => match key with
                  | KDocument d r => ContentIndex.lookup_document d r ci
                  | _ => None
                  end
        end).

(** The entry of a page that was just written. *)
Definition written_entry (page_id : PageId) (gen t : N) : IndexEntry := IndexEntry_new page_id gen 0 0 t 1 true.

Definition update_content_index (key : IndexKey) (page_id : PageId) : M unit :=
  modify_manifest StoreManifest.increment_generation;;
  t ← now;
  modify_manifest (λ m, StoreManifest.count_live (StoreManifest.on_index
    (ContentIndex.insert key (written_entry page_id (sm_generation m) t)) m));;
  t ← now;
  modify_manifest (StoreManifest.set_updated_at t);;
  flush.

(** [entries.get_mut(key)]; the copies in the secondary maps stay. *)
Definition alter_entry (key : IndexKey) (f : IndexEntry → IndexEntry) (ci : ContentIndex) : ContentIndex :=
  ContentIndex_new (ci_generation ci) (alter f key (ci_entries ci)) (ci_live_pages ci) (ci_page_by_document ci)
    (ci_page_by_sequence ci) (ci_dirty_pages ci) (ci_page_by_id ci) (ci_tombstoned_pages ci) (ci_checksum ci).

Definition mark_index_dirty (key : IndexKey) : M unit :=
  e ← sm_gets (λ s, ContentIndex.lookup key (sm_content_index (ps_manifest s)));
  match e with
  | Some _ =>
      t ← now;
      modify_manifest (StoreManifest.on_index (alter_entry key (λ e,
        IndexEntry_new (ie_page_id e) (ie_storage_gen e) (ie_checksum e) (ie_size e) t (wrapping_add64 (ie_version e) 1) true)))
  | None => mret tt
  end;;
  modify_manifest StoreManifest.increment_generation;;
  t ← now;
  modify_manifest (StoreManifest.set_updated_at t);;
  flush.

Definition mark_index_clean (key : IndexKey) : M unit :=
  modify_manifest (StoreManifest.on_index (alter_entry key (λ e,
    IndexEntry_new (ie_page_id e) (ie_storage_gen e) (ie_checksum e) (ie_size e) (ie_last_modified e) (ie_version e) false)));;
  modify_manifest StoreManifest.increment_generation;;
  t ← now;
  modify_manifest (StoreManifest.set_updated_at t);;
  flush.

Definition dirty_count (s : page_store D) : nat :=
  length (filterb ie_dirty (map snd (map_to_list (ci_entries (sm_content_index (ps_manifest s)))))).

Definition remove_from_index (key : IndexKey) : M unit :=
  modify_manifest StoreManifest.increment_generation;;
  modify_manifest (StoreManifest.on_index (ContentIndex.remove key));;
  modify_manifest (λ m, StoreManifest.count_live (StoreManifest.set_counts (sm_live_pages m) (S (sm_tombstoned_pages m)) m));;
  t ← now;
  modify_manifest (StoreManifest.set_updated_at t);;
  flush.

Definition commit_allocated_page_id (page_id : PageId) : M unit :=
  modify_manifest (StoreManifest.on_index (ContentIndex.track page_id (KSequence page_id)));;
  modify_manifest (λ m, StoreManifest.set_counts (S (sm_live_pages m)) (sm_tombstoned_pages m) m);;
  t ← now;
  modify_manifest (StoreManifest.set_updated_at t);;
  flush.

(** The next number; 0 to 99 are reserved. *)
Definition next_page (m : StoreManifest) : PageId :=
  if (sm_highest_page_id m <? 100)%N then 100%N else sm_highest_page_id m.

Definition allocate_page_id : M PageId :=
  page_id ← sm_gets (λ s, next_page (ps_manifest s));
  modify_manifest (StoreManifest.set_highest (wrapping_add64 page_id 1));;
  modify_manifest (StoreManifest.on_index (ContentIndex.track page_id (KSequence page_id)));;
  t ← now;
  modify_manifest (StoreManifest.set_updated_at t);;
  flush;;
  mret page_id.

Definition write_page_raw (page_id : PageId) (data : bytes) : M unit :=
  buf ← on_dir (lift_result (encode_v3_page data 0));
  on_dir (write_file (page_filename page_id) buf);;
  t ← now;
  modify_cache (PageCache.insert t page_id data).

Definition commit_page_write (page_id : PageId) (key : option IndexKey) : M unit :=
  modify_manifest StoreManifest.increment_generation;;
  modify_manifest (StoreManifest.on_index (ContentIndex.track page_id (default (KSequence page_id) key)));;
  match key with
  | Some index_key =>
      t ← now;
      modify_manifest (λ m, StoreManifest.on_index
        (ContentIndex.insert index_key (written_entry page_id (sm_generation m) t)) m)
  | None => mret tt
  end;;
  modify_manifest StoreManifest.count_live;;
  t ← now;
  modify_manifest (StoreManifest.set_updated_at t);;
  flush.

Definition read_page (page_id : PageId) : M (option bytes) :=
  cached ← sm_gets (λ s, pc_entries (ps_page_cache s) !! page_id);
  match cached with
  | Some e =>
      t ← now;
      modify_cache (λ c, (PageCache.get t page_id c).2);;
      mret (Some (cp_data e))
  | None =>
      r ← on_dir (read_page_file (page_filename page_id));
      match r with
      | None => mret None
      | Some (h, data) =>
          if (1 <=? ph_version h)%N && negb (crc32_hash data =? ph_checksum h)%N
          then sm_fail (EStorage "checksum mismatch page")
          else if is_tombstoned h then mret None
          else
            t ← now;
            modify_cache (PageCache.insert t page_id data);;
            mret (Some data)
      end
  end.

Definition delete_page (page_id : PageId) : M unit :=
  on_dir (delete_file (page_filename page_id));;
  modify_cache (PageCache.remove page_id);;
  modify_manifest StoreManifest.increment_generation;;
  modify_manifest (λ m,
    if Nat.ltb 0 (sm_live_pages m) then StoreManifest.set_counts (pred (sm_live_pages m)) (sm_tombstoned_pages m) m
    else StoreManifest.set_counts (sm_live_pages m) (pred (sm_tombstoned_pages m)) m);;
  t ← now;
  modify_manifest (StoreManifest.set_updated_at t);;
  flush.

Definition remove_from_manifest_index (page_id : PageId) : M unit :=
  modify_manifest StoreManifest.increment_generation;;
  modify_manifest (StoreManifest.on_index (λ ci, (ContentIndex.remove_by_page_id page_id ci).2));;
  modify_manifest StoreManifest.count_pages;;
  t ← now;
  modify_manifest (StoreManifest.set_updated_at t);;
  flush.

(** Rewriting a page file with the tombstone flag. *)
Definition bury_file (name : string) (existing : bytes) : SM D VaultSyncError unit :=
  data ← lift_result (extract_page_data existing);
  buf ← lift_result (encode_v3_page data TOMBSTONE);
  write_file name buf.

Definition tombstone_page (page_id : PageId) : M unit :=
  let name := page_filename page_id in
  r ← sm_try (on_dir (read_all_bytes name));
  match r with
  | Err e => if is_not_found e || is_not_readable e then remove_from_manifest_index page_id else sm_fail e
  | Ok existing =>
      on_dir (bury_file name existing);;
      modify_cache (PageCache.remove page_id);;
      remove_from_manifest_index page_id
  end.

Definition tombstone_page_file_only (page_id : PageId) : M unit :=
  let name := page_filename page_id in
  modify_cache (PageCache.remove page_id);;
  r ← sm_try (on_dir (read_all_bytes name));
  match r with
  | Err e => if is_not_found e || is_not_readable e then mret tt else sm_fail e
  | Ok existing => on_dir (bury_file name existing)
  end.

Definition begin_tx : M PageTransaction := t ← now; mret (PageTransaction_new [] t).

Definition write_page_tx (tx : PageTransaction) (page_id : PageId) (key : option IndexKey) (data : bytes) :
    M PageTransaction :=
  write_page_raw page_id data;;
  mret (PageTransaction_new (pt_ops tx ++ [TxWrite page_id key]) (pt_started_at tx)).

Definition tombstone_page_tx (tx : PageTransaction) (page_id : PageId) : M PageTransaction :=
  let name := page_filename page_id in
  modify_cache (PageCache.remove page_id);;
  r ← sm_try (on_dir (read_all_bytes name));
  match r with
  | Err e => if is_not_found e then mret tx else sm_fail e
  | Ok existing =>
      on_dir (bury_file name existing);;
      mret (PageTransaction_new (pt_ops tx ++ [TxTombstone page_id]) (pt_started_at tx))
  end.

Definition apply_tx_op (op : PageTxOp) : M unit :=
  match op with
  | TxWrite page_id (Some key) =>
      modify_manifest (StoreManifest.on_index (λ ci, (ContentIndex.remove_by_page_id page_id ci).2));;
      t ← now;
      modify_manifest (λ m, StoreManifest.on_index
        (ContentIndex.insert key (written_entry page_id (sm_generation m) t)) m)
  | TxWrite page_id None =>
      modify_manifest (StoreManifest.on_index (ContentIndex.track page_id (KSequence page_id)))
  | TxTombstone page_id | TxDelete page_id =>
      modify_manifest (StoreManifest.on_index (λ ci, (ContentIndex.remove_by_page_id page_id ci).2))
  end.

Definition commit_tx (tx : PageTransaction) : M unit :=
  match pt_ops tx with
  | [] => mret tt
  | ops =>
      modify_manifest StoreManifest.increment_generation;;
      for_each apply_tx_op ops;;
      modify_manifest StoreManifest.count_pages;;
      t ← now;
      modify_manifest (StoreManifest.set_updated_at t);;
      flush;;
      now;;
      mret tt
  end.

Definition decode_entries (data : bytes) : option (list OplogEntry) :=
  match from_bytes data with Ok l => Some l | Err _ => None end.

Definition estimate_entry_count (data : bytes) : nat :=
  match decode_entries data with
  | Some l => length l
  | None => match data with [] => 0 | _ => Nat.max 1 (length data / 256) end
  end.

Definition should_split (data : bytes) (entry_count_hint : nat) : bool :=
  (HARD_SPLIT_BYTES <? N.of_nat (length data))%N || Nat.ltb MAX_ENTRIES_PER_PAGE entry_count_hint
  || (SOFT_SPLIT_BYTES <? N.of_nat (length data))%N.

Definition encode_entries (what : string) (l : list OplogEntry) : result bytes VaultSyncError :=
  match to_allocvec l with Ok bs => Ok bs | Err e => Err (EStorage (what +:+ e)) end.

Definition split_page (page_id : PageId) : M unit :=
  r ← read_page page_id;
  match r with
  | None => mret tt
  | Some data =>
      match decode_entries data with
      | None => mret tt
      | Some l =>
          let mid := (length l / 2)%nat in
          left ← on_dir (lift_result (encode_entries "split encode left: " (take mid l)));
          right ← on_dir (lift_result (encode_entries "split encode right: " (drop mid l)));
          tx ← begin_tx;
          left_id ← allocate_page_id;
          right_id ← allocate_page_id;
          tx ← write_page_tx tx left_id None left;
          tx ← write_page_tx tx right_id None right;
          tx ← tombstone_page_tx tx page_id;
          commit_tx tx
      end
  end.

Definition write_page (page_id : PageId) (data : bytes) : M unit :=
  let entry_count := estimate_entry_count data in
  let len := N.of_nat (length data) in
  if (HARD_SPLIT_BYTES <? len)%N || Nat.ltb (MAX_ENTRIES_PER_PAGE * 2) entry_count then
    tmp_id ← allocate_page_id;
    write_page_raw tmp_id data;;
    split_page tmp_id
  else
    (if (SOFT_SPLIT_BYTES <? len)%N || Nat.ltb MAX_ENTRIES_PER_PAGE entry_count
     then sm_modify (set_split true) else mret tt);;
    write_page_raw page_id data;;
    commit_page_write page_id None.

Definition write_page_verify (page_id : PageId) (data : bytes) : M unit :=
  let tmp := page_filename (wrapping_add64 page_id 0x8000000000000000) in
  buf ← on_dir (lift_result (encode_v3_page data 0));
  on_dir (write_file tmp buf);;
  read_back ← on_dir (read_page_file tmp);
  match read_back with
  | Some (_, read_data) =>
      if bool_decide (read_data = data) then
        on_dir (rename_file tmp (page_filename page_id));;
        commit_page_write page_id None
      else
        _ ← sm_try (on_dir (delete_file tmp));
        sm_fail (EStorage "verify mismatch on write")
  | None => sm_fail (EStorage "verify read failed")
  end.

Definition schedule_split : M unit := sm_modify (set_split true).
(** [split_pending.swap(false)]. *)
Definition is_split_pending : M bool := b ← sm_gets ps_split_pending; sm_modify (set_split false);; mret b.

Fixpoint split_all (ids : list PageId) (count : nat) : M nat :=
  match ids with
  | [] => mret count
  | id :: ids =>
      r ← read_page id;
      match r with
      | Some data =>
          if (SOFT_SPLIT_BYTES <? N.of_nat (length data))%N || Nat.ltb MAX_ENTRIES_PER_PAGE (estimate_entry_count data) then
            r ← sm_try (split_page id);
            split_all ids (match r with Ok _ => S count | Err _ => count end)
          else split_all ids count
      | None => split_all ids count
      end
  end.

Definition run_pending_split : M nat :=
  pending ← is_split_pending;
  if pending : bool then ids ← list_page_ids; split_all ids 0 else mret 0.

(** The rebuilt manifest is written to the directory only. *)
Definition recover : M unit := m ← on_dir rebuild_manifest_with_index; on_dir (write_manifest m).

Definition persist_manifest (m : StoreManifest) : M unit :=
  pending ← sm_gets ps_pending_count;
  let m := StoreManifest.set_pending pending m in
  on_dir (write_manifest m);;
  sm_modify (set_manifest m).

Definition persist_current_manifest : M unit := m ← sm_gets ps_manifest; persist_manifest m.

(** One name of the listing in [cleanup_tombstoned_pages]; the result is whether
    its file was removed. *)
Definition cleanup_entry (name : string) : SM D VaultSyncError bool :=
  match parse_page_id name with
  | None => mret false
  | Some id =>
      stale ← (if (id =? 0)%N then
                 r ← sm_try (read_header_bytes name);
                 mret (match r with Ok (b :: _) => (b =? 123)%N | _ => false end)
               else mret false);
      if stale : bool then delete_file name;; mret true
      else
        r ← sm_try (read_page_header name);
        match r with
        | Ok (Some h) => if is_tombstoned h then delete_file name;; mret true else mret false
        | Ok None => mret false
        | Err e => if is_empty_page e then delete_file name;; mret true else sm_fail e
        end
  end.

Fixpoint cleanup_files (names : list string) : SM D VaultSyncError nat :=
  match names with
  | [] => mret 0
  | name :: names =>
      removed ← cleanup_entry name;
      n ← cleanup_files names;
      mret (if removed : bool then S n else n)
  end.

Definition cleanup_tombstoned_pages : M nat :=
  cleaned ← on_dir (names ← entries; cleanup_files names);
  (if Nat.ltb 0 cleaned then
     rebuilt ← on_dir rebuild_manifest_with_index;
     persist_manifest rebuilt
   else mret tt);;
  mret cleaned.

Definition set_current_page (page_id : PageId) : M unit :=
  m ← sm_gets ps_manifest;
  t ← now;
  persist_manifest (StoreManifest.set_updated_at t (StoreManifest.set_current page_id m)).

Definition allocate_and_rotate : M (PageId * PageId) :=
  old_page ← sm_gets (λ s, sm_current_page (ps_manifest s));
  new_page ← sm_gets (λ s, next_page (ps_manifest s));
  modify_manifest (StoreManifest.set_highest (wrapping_add64 new_page 1));;
  modify_manifest (StoreManifest.on_index (ContentIndex.track new_page (KSequence new_page)));;
  modify_manifest (StoreManifest.set_current new_page);;
  (if (0 <? old_page)%N && negb (old_page =? new_page)%N
   then modify_manifest (StoreManifest.on_index (λ ci, (ContentIndex.remove_by_page_id old_page ci).2))
   else mret tt);;
  modify_manifest StoreManifest.count_pages;;
  t ← now;
  modify_manifest (StoreManifest.set_updated_at t);;
  m ← sm_gets ps_manifest;
  persist_manifest m;;
  mret (new_page, old_page).

(** The current page as the manifest on disk has it. *)
Definition current_page : M PageId := λ s,
  let '(m, d) := read_manifest (ps_dir s) in
  (Ok (match m with Some m => sm_current_page m | None => 0%N end), set_dir d s).

Definition set_manifest_meta (last_sequence : N) (_pending_count : nat) : M unit :=
  m ← sm_gets ps_manifest;
  t ← now;
  persist_manifest (StoreManifest.set_updated_at t (StoreManifest.set_last_sequence last_sequence m)).

Definition schedule_gc : M unit := sm_modify (set_gc true).
Definition pending_count : M nat := sm_gets ps_pending_count.
Definition set_pending_count (count : nat) : M unit := sm_modify (set_count count).
(** [saturating_add] and [saturating_sub] of an [i32]. *)
Definition adjust_pending_count (delta : Z) : M unit :=
  sm_modify (λ s, set_count
    (if (0 <=? delta)%Z then (ps_pending_count s + Z.to_nat delta)%nat
     else (ps_pending_count s - Z.to_nat (- delta))%nat) s).

Definition gc_entry (current : PageId) (name : string) : SM D VaultSyncError bool :=
  match parse_page_id name with
  | Some id =>
      if (id <? current)%N then
        r ← sm_try (delete_file name);
        match r with
        | Err e => if is_not_found e then mret true else sm_fail e
        | Ok _ => mret true
        end
      else mret false
  | None => mret false
  end.

Fixpoint gc_files (current : PageId) (names : list string) : SM D VaultSyncError nat :=
  match names with
  | [] => mret 0
  | name :: names =>
      removed ← gc_entry current name;
      n ← gc_files current names;
      mret (if removed : bool then S n else n)
  end.

Definition run_pending_gc : M nat :=
  needed ← sm_gets ps_gc_needed;
  if negb needed then mret 0
  else
    m ← (λ s, let '(m, d) := read_manifest (ps_dir s) in (Ok m, set_dir d s));
    match m with
    | Some m =>
        let current := sm_current_page m in
        if negb (0 <? current)%N then mret 0
        else
          deleted ← on_dir (names ← entries; gc_files current names);
          (if Nat.ltb 0 deleted then
             rebuilt ← on_dir rebuild_manifest_with_index;
             t ← now;
             persist_manifest (StoreManifest.set_updated_at t (StoreManifest.set_current current rebuilt))
           else mret tt);;
          sm_modify (set_gc false);;
          mret deleted
    | None => mret 0
    end.
End store.
End PageStore.
