(* ===== verification/OpfsStorage.v ===== *)
(** * The browser storage

    The storage of [vaultsync-wasm] over six page stores: [storage.rs]
    ([OpfsStorage]), [version_chain.rs], [transaction.rs], [storage_runtime.rs]
    with [storage_scheduler.rs], [metadata_store.rs], [metadata_runtime.rs] and
    the page side of [migration.rs].  Clones of a page store share their state,
    so each store occurs once.  The order of a [HashMap] is that of
    [map_to_list]. *)
From S2P Require Import Prelude Text Types Storage Opfs PageStore.

(** ** The stores *)

Record pages_dir (D : Type) := PagesDir {
  pd_doc_data : page_store D;
  pd_oplog : page_store D;
  pd_sync_states : page_store D;
  pd_schemas : page_store D;
  pd_migrations : page_store D;
  pd_keys : page_store D;
}.
Arguments PagesDir {D}.
Arguments pd_doc_data {D}.
Arguments pd_oplog {D}.
Arguments pd_sync_states {D}.
Arguments pd_schemas {D}.
Arguments pd_migrations {D}.
Arguments pd_keys {D}.

(** [get_store]; an unknown name is the first store. *)
Inductive store_id := DocData | OplogStore | SyncStates | Schemas | Migrations | Keys.

Definition store_of_name (name : string) : store_id :=
  if bool_decide (name = "doc_data") then DocData
  else if bool_decide (name = "oplog") then OplogStore
  else if bool_decide (name = "sync_states") then SyncStates
  else if bool_decide (name = "schemas") then Schemas
  else if bool_decide (name = "migrations") then Migrations
  else if bool_decide (name = "keys") then Keys
  else DocData.
Definition store_index (name : string) : nat :=
  match store_of_name name with
  | DocData => 0 | OplogStore => 1 | SyncStates => 2 | Schemas => 3 | Migrations => 4 | Keys => 5
  end.
Definition all_stores : list store_id := [DocData; OplogStore; SyncStates; Schemas; Migrations; Keys].

Definition get_store {D} (i : store_id) (pd : pages_dir D) : page_store D :=
  match i with
  | DocData => pd_doc_data pd | OplogStore => pd_oplog pd | SyncStates => pd_sync_states pd
  | Schemas => pd_schemas pd | Migrations => pd_migrations pd | Keys => pd_keys pd
  end.
Definition set_store {D} (i : store_id) (s : page_store D) (pd : pages_dir D) : pages_dir D :=
  let '(PagesDir a b c d e f) := pd in
  match i with
  | DocData => PagesDir s b c d e f | OplogStore => PagesDir a s c d e f | SyncStates => PagesDir a b s d e f
  | Schemas => PagesDir a b c s e f | Migrations => PagesDir a b c d s f | Keys => PagesDir a b c d e s
  end.

(** [PagesDir::open] on the six directories. *)
Definition pages_open {D} `{Opfs D} {K : PageCodec} (dirs : store_id → D) : result (pages_dir D) VaultSyncError :=
  match PageStore.open "doc_data" (dirs DocData), PageStore.open "oplog" (dirs OplogStore),
        PageStore.open "sync_states" (dirs SyncStates), PageStore.open "schemas" (dirs Schemas),
        PageStore.open "migrations" (dirs Migrations), PageStore.open "keys" (dirs Keys) with
  | (Ok a, _), (Ok b, _), (Ok c, _), (Ok d, _), (Ok e, _), (Ok f, _) => Ok (PagesDir a b c d e f)
  | (Err err, _), _, _, _, _, _ | _, (Err err, _), _, _, _, _ | _, _, (Err err, _), _, _, _
  | _, _, _, (Err err, _), _, _ | _, _, _, _, (Err err, _), _ | _, _, _, _, _, (Err err, _) => Err err
  end.

(** ** Resolving the log *)

Section chain.
Context {D : Type} `{Opfs D} {K : PageCodec}.
Abbreviation P := (SM (page_store D) VaultSyncError).

(** A base page is a list of entries; a later page may also be a single one. *)
Definition base_chunk (data : bytes) : list OplogEntry := default [] (PageStore.decode_entries data).
Definition delta_chunk (data : bytes) : list OplogEntry :=
  match PageStore.decode_entries data with
  | Some l => l
  | None => match from_bytes data with Ok e => [e] | Err _ => [] end
  end.

Definition see (seen : gmap string OplogEntry) (e : OplogEntry) : gmap string OplogEntry := <[oe_id e := e]> seen.

(** A page that cannot be read is skipped. *)
Definition resolve_page (chunk : bytes → list OplogEntry) (id : PageId) (seen : gmap string OplogEntry) :
    P (gmap string OplogEntry) :=
  r ← sm_try (PageStore.read_page id);
  mret (match r with
        | Ok (Some data) => foldl see seen (chunk data)
        | _ => seen
        end).

Fixpoint resolve_pages (ids : list PageId) (seen : gmap string OplogEntry) : P (gmap string OplogEntry) :=
  match ids with
  | [] => mret seen
  | id :: ids => seen ← resolve_page delta_chunk id seen; resolve_pages ids seen
  end.

(** [VersionChain::resolve]. *)
Definition resolve (base_id : PageId) (delta_ids orphan_ids : list PageId) : P (list OplogEntry) :=
  seen ← (if (0 <? base_id)%N then resolve_page base_chunk base_id ∅ else mret ∅);
  seen ← resolve_pages (stable_sort N.le delta_ids) seen;
  seen ← resolve_pages (stable_sort N.le orphan_ids) seen;
  mret (map snd (map_to_list seen)).

Definition read_all_oplog_entries : P (list OplogEntry) :=
  current ← PageStore.current_page;
  ids ← PageStore.list_page_ids;
  let page_ids := stable_sort N.le ids in
  match page_ids with
  | [] => mret []
  | _ =>
      if (0 <? current)%N
      then resolve current (filterb (λ id, current <? id)%N page_ids) (filterb (λ id, id <? current)%N page_ids)
      else resolve 0 page_ids []
  end.
End chain.

(** ** Page numbers *)

Record PageManager := PageManager_mk {
  pm_next_id : N;
  pm_free_list : list PageId;
  pm_tombstone_count : N;
  pm_live_count : N;
  pm_watermark_high : N;
  pm_allocation_count : N;
}.

(** [fetch_sub(1)]. *)
Definition wrapping_pred64 (n : N) : N := wrapping_add64 n U64_MAX.

Module PageManager.
Definition SYSTEM_PAGE_RESERVED : N := 100.

Definition new (highest_id : PageId) : PageManager :=
  let start := if (highest_id <? SYSTEM_PAGE_RESERVED)%N then SYSTEM_PAGE_RESERVED else highest_id in
  PageManager_mk start [] 0 0 start 0.

(** The free list is a stack whose top is its last element. *)
Definition allocate (pm : PageManager) : PageId * PageManager :=
  match last (pm_free_list pm) with
  | Some id =>
      (id, PageManager_mk (pm_next_id pm) (removelast (pm_free_list pm)) (pm_tombstone_count pm)
             (wrapping_add64 (pm_live_count pm) 1) (pm_watermark_high pm) (wrapping_add64 (pm_allocation_count pm) 1))
  | None =>
      let id := pm_next_id pm in
      (id, PageManager_mk (wrapping_add64 id 1) (pm_free_list pm) (pm_tombstone_count pm)
             (wrapping_add64 (pm_live_count pm) 1) (N.max (pm_watermark_high pm) id)
             (wrapping_add64 (pm_allocation_count pm) 1))
  end.

Definition free (page_id : PageId) (pm : PageManager) : PageManager :=
  PageManager_mk (pm_next_id pm) (pm_free_list pm ++ [page_id]) (pm_tombstone_count pm)
    (wrapping_pred64 (pm_live_count pm)) (pm_watermark_high pm) (pm_allocation_count pm).

Definition record_tombstone (pm : PageManager) : PageManager :=
  PageManager_mk (pm_next_id pm) (pm_free_list pm) (wrapping_add64 (pm_tombstone_count pm) 1)
    (wrapping_pred64 (pm_live_count pm)) (pm_watermark_high pm) (pm_allocation_count pm).

Definition record_deletion (pm : PageManager) : PageManager :=
  PageManager_mk (pm_next_id pm) (pm_free_list pm) (pm_tombstone_count pm)
    (wrapping_pred64 (pm_live_count pm)) (pm_watermark_high pm) (pm_allocation_count pm).

Definition reset_to (highest_id : PageId) (_ : PageManager) : PageManager :=
  PageManager_mk highest_id [] 0 0 highest_id 0.
End PageManager.

(** ** The scheduler *)

Inductive StorageOp :=
  | WritePage (store : string) (page_id : PageId) (data : bytes)
  | ReadPage (store : string) (page_id : PageId)
  | TombstonePage (store : string) (page_id : PageId)
  | DeletePage (store : string) (page_id : PageId)
  | AllocatePageId (store : string)
  | FlushManifest (store : string)
  | Checkpoint (seq : N) (count : nat)
  | Compaction (ns : string).

(** [StoragePriority], as the number it is ordered by. *)
Definition Critical : N := 0.
Definition Immediate : N := 1.
Definition High : N := 2.
Definition Normal : N := 3.
Definition Background : N := 4.

Definition op_priority (op : StorageOp) : N :=
  match op with
  | WritePage _ _ _ => High
  | ReadPage _ _ | AllocatePageId _ => Immediate
  | TombstonePage _ _ | DeletePage _ _ | FlushManifest _ => Normal
  | Checkpoint _ _ | Compaction _ => Background
  end.

(** A queued operation with its priority; the time and the caller, which nothing
    reads, are left out. *)
Record QueuedOp := QueuedOp_new { qo_op : StorageOp; qo_priority : N }.

Record StorageScheduler := StorageScheduler_mk {
  sc_queue : list QueuedOp;
  sc_processing : bool;
  sc_state : N;
  sc_startup_guard : bool;
}.

Definition priority_le (a b : QueuedOp) : Prop := (qo_priority a ≤ qo_priority b)%N.
#[export] Instance priority_le_dec : RelDecision priority_le.
Proof. intros a b. unfold priority_le. apply _. Defined.

Module StorageScheduler.
Definition new : StorageScheduler := StorageScheduler_mk [] false 0 true.
Definition set_queue (q : list QueuedOp) (sc : StorageScheduler) : StorageScheduler :=
  StorageScheduler_mk q (sc_processing sc) (sc_state sc) (sc_startup_guard sc).

Definition enqueue_with_priority (op : StorageOp) (priority : N) (sc : StorageScheduler) : StorageScheduler :=
  set_queue (sc_queue sc ++ [QueuedOp_new op priority]) sc.
Definition enqueue (op : StorageOp) (sc : StorageScheduler) : StorageScheduler :=
  enqueue_with_priority op (op_priority op) sc.
Definition drain_pending (sc : StorageScheduler) : list QueuedOp * StorageScheduler :=
  (stable_sort priority_le (sc_queue sc), set_queue [] sc).
Definition try_begin_process (sc : StorageScheduler) : bool * StorageScheduler :=
  if sc_processing sc then (false, sc)
  else (true, StorageScheduler_mk (sc_queue sc) true (sc_state sc) (sc_startup_guard sc)).
Definition end_process (sc : StorageScheduler) : StorageScheduler :=
  StorageScheduler_mk (sc_queue sc) false (sc_state sc) (sc_startup_guard sc).
Definition set_startup_guard (active : bool) (sc : StorageScheduler) : StorageScheduler :=
  StorageScheduler_mk (sc_queue sc) (sc_processing sc) (sc_state sc) active.
Definition set_state (state : N) (sc : StorageScheduler) : StorageScheduler :=
  StorageScheduler_mk (sc_queue sc) (sc_processing sc) state (sc_startup_guard sc).
Definition commit_transaction (ops : list StorageOp) (sc : StorageScheduler) : StorageScheduler :=
  foldl (λ sc op, enqueue op sc) sc ops.
Definition clear (sc : StorageScheduler) : StorageScheduler := set_queue [] sc.
End StorageScheduler.

(** ** The storage runtime *)

Inductive StorageHealth := Healthy | Degraded | NeedsRepair | ReadOnly | Corrupt.

#[export] Instance StorageHealth_eq_dec : EqDecision StorageHealth.
Proof. solve_decision. Defined.

Record runtime := Runtime_mk {
  rt_page_managers : list PageManager;
  rt_scheduler : StorageScheduler;
  rt_startup_done : bool;
  rt_health : StorageHealth;
  rt_orphan_count : N;
}.

Module StorageRuntime.
Section runtime.
Context {D : Type} `{Opfs D} {K : PageCodec}.
Abbreviation R := (SM (pages_dir D) VaultSyncError).

Definition on_store {A} (i : store_id) (m : SM (page_store D) VaultSyncError A) : R A :=
  zoom (get_store i) (set_store i) m.

(** The checksum in memory differs from the one computed. *)
Definition checksum_differs (m : StoreManifest) : bool :=
  negb (sm_checksum m =? 0)%N && negb (StoreManifest.compute_checksum m =? sm_checksum m)%N.

Definition excess_pages (m : StoreManifest) : N :=
  let ci := sm_content_index m in
  saturating_sub (N.of_nat (size (ci_page_by_id ci)))
    (N.of_nat (size (ci_live_pages ci) + size (ci_tombstoned_pages ci))).

Definition classify (pd : pages_dir D) : StorageHealth * N :=
  let manifests := map (λ i, ps_manifest (get_store i pd)) all_stores in
  if existsb checksum_differs manifests then (Corrupt, 0%N)
  else
    let orphans := foldl (λ n m, n + excess_pages m)%N 0%N manifests in
    (if (50 <? orphans)%N then NeedsRepair else if (10 <? orphans)%N then Degraded else Healthy, orphans).

Definition repair_store : SM (page_store D) VaultSyncError unit :=
  '(count, ci) ← sm_gets (λ s, ContentIndex.repair_orphans (sm_content_index (ps_manifest s)));
  if Nat.ltb 0 count then
    PageStore.modify_manifest (λ m, StoreManifest.count_pages (StoreManifest.on_index (λ _, ci) m));;
    t ← PageStore.now;
    PageStore.modify_manifest (StoreManifest.set_updated_at t);;
    _ ← sm_try (E' := VaultSyncError) PageStore.flush;
    mret tt
  else mret tt.

Definition new : R runtime :=
  managers ← sm_gets (λ pd, map (λ i, PageManager.new (sm_highest_page_id (ps_manifest (get_store i pd)))) all_stores);
  '(health, orphans) ← sm_gets classify;
  (if bool_decide (health = Corrupt) || bool_decide (health = NeedsRepair)
   then for_each (λ i, on_store i repair_store) all_stores else mret tt);;
  mret (Runtime_mk managers StorageScheduler.new false health orphans).

(** [process_pending] on the drained operations: a failure is only logged. *)
Definition process_op (op : StorageOp) : R unit :=
  match op with
  | WritePage store page_id data =>
      _ ← sm_try (E' := VaultSyncError) (on_store (store_of_name store) (PageStore.write_page page_id data)); mret tt
  | TombstonePage store page_id =>
      _ ← sm_try (E' := VaultSyncError) (on_store (store_of_name store) (PageStore.tombstone_page page_id)); mret tt
  | DeletePage store page_id =>
      _ ← sm_try (E' := VaultSyncError) (on_store (store_of_name store) (PageStore.delete_page page_id)); mret tt
  | _ => mret tt
  end.

Definition process_pending (rt : runtime) : R (nat * runtime) :=
  let '(ops, sc) := StorageScheduler.drain_pending (rt_scheduler rt) in
  for_each (λ qop, process_op (qo_op qop)) ops;;
  mret (length ops, Runtime_mk (rt_page_managers rt) sc (rt_startup_done rt) (rt_health rt) (rt_orphan_count rt)).

(** [enqueue_write_page] and [enqueue_tombstone_page]. *)
Definition enqueue_now (op : StorageOp) (rt : runtime) : R runtime :=
  '(_, rt) ← process_pending (Runtime_mk (rt_page_managers rt) (StorageScheduler.enqueue op (rt_scheduler rt))
                                (rt_startup_done rt) (rt_health rt) (rt_orphan_count rt));
  mret rt.

Definition with_managers (pms : list PageManager) (rt : runtime) : runtime :=
  Runtime_mk pms (rt_scheduler rt) (rt_startup_done rt) (rt_health rt) (rt_orphan_count rt).

Definition allocate_page_id (store : string) (rt : runtime) : PageId * runtime :=
  let idx := store_index store in
  match rt_page_managers rt !! idx with
  | Some pm => let '(id, pm) := PageManager.allocate pm in (id, with_managers (<[idx := pm]> (rt_page_managers rt)) rt)
  | None => (0%N, rt)
  end.
Definition free_page_id (store : string) (page_id : PageId) (rt : runtime) : runtime :=
  with_managers (alter (PageManager.free page_id) (store_index store) (rt_page_managers rt)) rt.
Definition record_tombstone (store : string) (rt : runtime) : runtime :=
  with_managers (alter PageManager.record_tombstone (store_index store) (rt_page_managers rt)) rt.

Definition mark_startup_done (rt : runtime) : runtime :=
  Runtime_mk (rt_page_managers rt) (StorageScheduler.set_startup_guard false (rt_scheduler rt)) true
    (rt_health rt) (rt_orphan_count rt).

(** The checks of [verify_engine_invariants] a release build makes. *)
Definition store_violations (name : string) (s : page_store D) : list (string * string) :=
  let ci := sm_content_index (ps_manifest s) in
  omap (λ p, if bool_decide (p ∈ ci_live_pages ci) || bool_decide (p ∈ ci_tombstoned_pages ci) then None
             else Some (name, "page_by_id_orphan")) (sorted_ids (dom (ci_page_by_id ci))) ++
  (if Nat.eqb (size (ci_live_pages ci)) (size (ci_page_by_id ci)) then [] else [(name, "live_vs_index_count")]).

Definition store_name (i : store_id) : string :=
  match i with
  | DocData => "doc_data" | OplogStore => "oplog" | SyncStates => "sync_states"
  | Schemas => "schemas" | Migrations => "migrations" | Keys => "keys"
  end.

Definition verify_engine_invariants (pd : pages_dir D) : list (string * string) :=
  concat (map (λ i, store_violations (store_name i) (get_store i pd)) all_stores).

Definition cleanup_tombstoned_pages : R nat :=
  ns ← map_each (λ i, on_store i PageStore.cleanup_tombstoned_pages) all_stores;
  mret (sum_list ns).
End runtime.
End StorageRuntime.

(** ** Metadata *)

(** The values of the four metadata stores. *)
Class MetaCodec := {
  #[global] sync_state_postcard :: Postcard SyncState;
  #[global] schemas_postcard :: Postcard (list (string * SchemaMeta));
  #[global] migrations_postcard :: Postcard (list MigrationRecord);
  #[global] keys_postcard :: Postcard (list KeyRecord);
}.

Module MetadataStore.
Section metadata.
Context {D : Type} `{Opfs D} {K : PageCodec} {T : Type} `{Postcard T}.
Abbreviation P := (SM (page_store D) VaultSyncError).

Definition write (value : T) : P unit :=
  match to_allocvec value with
  | Err e => sm_fail (EStorage ("metadata encode: " +:+ e))
  | Ok encoded =>
      '(new_page, old_page) ← PageStore.allocate_and_rotate;
      PageStore.write_page_raw new_page encoded;;
      if (0 <? old_page)%N && negb (old_page =? new_page)%N then
        _ ← sm_try (E' := VaultSyncError) (PageStore.tombstone_page_file_only old_page); mret tt
      else mret tt
  end.

Definition read : P (option T) :=
  current ← PageStore.current_page;
  if (current =? 0)%N then mret None
  else
    r ← sm_try (PageStore.read_page current);
    mret (match r with
          | Ok (Some data) => match from_bytes data with Ok v => Some v | Err _ => None end
          | _ => None
          end).

Definition delete : P unit :=
  current ← PageStore.current_page;
  if (0 <? current)%N then
    PageStore.modify_manifest (StoreManifest.set_current 0);;
    PageStore.modify_manifest (StoreManifest.on_index (λ ci, (ContentIndex.remove_by_page_id current ci).2));;
    PageStore.modify_manifest StoreManifest.count_pages;;
    t ← PageStore.now;
    PageStore.modify_manifest (StoreManifest.set_updated_at t);;
    PageStore.flush;;
    _ ← sm_try (E' := VaultSyncError) (PageStore.tombstone_page_file_only current);
    mret tt
  else mret tt.
End metadata.
End MetadataStore.

(** The metadata kept in memory. *)
Record metadata := Metadata {
  md_sync_state : option SyncState;
  md_schemas : list (string * SchemaMeta);
  md_migrations : list MigrationRecord;
  md_keys : list KeyRecord;
  md_dirty : bool;
}.

(** Replaces the schema of the document, or adds it at the end. *)
Definition put_schema (meta : SchemaMeta) (all : list (string * SchemaMeta)) : list (string * SchemaMeta) :=
  if existsb (λ p, bool_decide (p.1 = sm_doc_id meta)) all
  then update_first (λ p, bool_decide (p.1 = sm_doc_id meta)) (λ _, (sm_doc_id meta, meta)) all
  else all ++ [(sm_doc_id meta, meta)].
Definition find_schema (d : string) (all : list (string * SchemaMeta)) : option SchemaMeta :=
  snd <$> List.find (λ p, bool_decide (p.1 = d)) all.
Definition keys_of (ns : string) (all : list KeyRecord) : list KeyRecord :=
  filterb (λ k, bool_decide (kr_namespace k = ns)) all.

Module MetadataRuntime.
Definition write_sync_state (state : SyncState) (md : metadata) : metadata :=
  Metadata (Some state) (md_schemas md) (md_migrations md) (md_keys md) true.
Definition write_schema (meta : SchemaMeta) (md : metadata) : metadata :=
  Metadata (md_sync_state md) (put_schema meta (md_schemas md)) (md_migrations md) (md_keys md) true.
Definition write_migration (record : MigrationRecord) (md : metadata) : metadata :=
  Metadata (md_sync_state md) (md_schemas md) (md_migrations md ++ [record]) (md_keys md) true.
Definition write_key (key : KeyRecord) (md : metadata) : metadata :=
  Metadata (md_sync_state md) (md_schemas md) (md_migrations md) (md_keys md ++ [key]) true.
Definition list_schemas (md : metadata) : list SchemaMeta := map snd (md_schemas md).

Section runtime.
Context {D : Type} `{Opfs D} {K : PageCodec} {KM : MetaCodec}.
Abbreviation R := (SM (pages_dir D) VaultSyncError).

Definition load : R metadata :=
  sync_state ← StorageRuntime.on_store SyncStates MetadataStore.read;
  schemas ← StorageRuntime.on_store Schemas MetadataStore.read;
  migrations ← StorageRuntime.on_store Migrations MetadataStore.read;
  keys ← StorageRuntime.on_store Keys MetadataStore.read;
  mret (Metadata sync_state (default [] schemas) (default [] migrations) (default [] keys) false).

(** [current_page] is read before and after for the log lines. *)
Definition checkpoint (md : metadata) : R metadata :=
  if negb (md_dirty md) then mret md
  else
    match md_sync_state md with
    | Some state =>
        StorageRuntime.on_store SyncStates
          (PageStore.current_page;; MetadataStore.write state;; PageStore.current_page;; mret tt)
    | None => mret tt
    end;;
    (if bool_decide (md_schemas md = []) then mret tt else StorageRuntime.on_store Schemas (MetadataStore.write (md_schemas md)));;
    (if bool_decide (md_migrations md = []) then mret tt else StorageRuntime.on_store Migrations (MetadataStore.write (md_migrations md)));;
    (if bool_decide (md_keys md = []) then mret tt else StorageRuntime.on_store Keys (MetadataStore.write (md_keys md)));;
    StorageRuntime.on_store SyncStates PageStore.current_page;;
    mret (Metadata (md_sync_state md) (md_schemas md) (md_migrations md) (md_keys md) false).
End runtime.
End MetadataRuntime.

(** ** The storage *)

Record opfs (D : Type) := Opfs_mk {
  os_pages : pages_dir D;
  os_runtime : option runtime;
  os_metadata : option metadata;
}.
Arguments Opfs_mk {D}.
Arguments os_pages {D}.
Arguments os_runtime {D}.
Arguments os_metadata {D}.

Inductive TxOp :=
  | TxMarkSynced (id : string) (sequence : N)
  | TxMarkFailed (id error : string)
  | TxAppendOplog (entry : OplogEntry).

Record OpfsTransaction := OpfsTransaction_mk {
  ot_runtime : bool;
  ot_ops : list TxOp;
  ot_pending_entries : list OplogEntry;
}.

(** [e.sync_status = Synced; e.sequence = Some(sequence)]; the time stays. *)
Definition mark_entry (sequence : N) (e : OplogEntry) : OplogEntry :=
  OplogEntry_new (oe_id e) (oe_replica_id e) (oe_namespace e) (oe_mutation_type e)
    (oe_doc_id e) (oe_record_id e) (oe_yrs_update e) (oe_encrypted_blob e) (oe_timestamp e)
    (Some sequence) Synced (oe_synced_at e) (oe_created_at e) (oe_schema_version e)
    (oe_origin e) (oe_origin_context e).

Definition uploadable_count (l : list OplogEntry) : nat := length (filterb (λ e, is_uploadable (oe_sync_status e)) l).

Module OpfsTransaction.
Definition mark_synced (id : string) (sequence : N) (tx : OpfsTransaction) : OpfsTransaction :=
  OpfsTransaction_mk (ot_runtime tx) (ot_ops tx ++ [TxMarkSynced id sequence])
    (map_if (has_id id) (mark_entry sequence) (ot_pending_entries tx)).
Definition mark_failed (id error : string) (tx : OpfsTransaction) : OpfsTransaction :=
  OpfsTransaction_mk (ot_runtime tx) (ot_ops tx ++ [TxMarkFailed id error])
    (map_if (has_id id) (set_status Failed) (ot_pending_entries tx)).
Definition append_oplog (entry : OplogEntry) (tx : OpfsTransaction) : OpfsTransaction :=
  OpfsTransaction_mk (ot_runtime tx) (ot_ops tx ++ [TxAppendOplog entry]) (ot_pending_entries tx ++ [entry]).

(** The delta page of [commit]. *)
Definition delta_of (pending : list OplogEntry) (op : TxOp) : list OplogEntry :=
  match op with
  | TxMarkSynced id sequence =>
      match List.find (has_id id) pending with Some e => [mark_entry sequence e] | None => [] end
  | TxMarkFailed id _ =>
      match List.find (has_id id) pending with Some e => [set_status Failed e] | None => [] end
  | TxAppendOplog e => [e]
  end.
Definition delta_entries (tx : OpfsTransaction) : list OplogEntry :=
  concat (map (delta_of (ot_pending_entries tx)) (ot_ops tx)).
End OpfsTransaction.

Module OpfsStorage.
Section storage.
Context {D : Type} `{Opfs D} {K : PageCodec} {KM : MetaCodec}.
Abbreviation M := (SM (opfs D) VaultSyncError).
Abbreviation P := (SM (page_store D) VaultSyncError).

Definition set_pages (pd : pages_dir D) (o : opfs D) : opfs D := Opfs_mk pd (os_runtime o) (os_metadata o).
Definition set_runtime (rt : runtime) (o : opfs D) : opfs D := Opfs_mk (os_pages o) (Some rt) (os_metadata o).
Definition set_metadata (md : metadata) (o : opfs D) : opfs D := Opfs_mk (os_pages o) (os_runtime o) (Some md).

Definition on_pages {A} (m : SM (pages_dir D) VaultSyncError A) : M A := zoom os_pages set_pages m.
Definition on_store {A} (i : store_id) (m : P A) : M A := on_pages (StorageRuntime.on_store i m).

Definition lift {A} (r : result A VaultSyncError) : M A := λ o, (r, o).
Definition encode {A} `{Postcard A} (what : string) (a : A) : M bytes :=
  lift (match to_allocvec a with Ok bs => Ok bs | Err e => Err (EStorage (what +:+ e)) end).

(** Through the runtime if there is one. *)
Definition allocate_store_page_id (i : store_id) : M PageId :=
  rt ← sm_gets os_runtime;
  match rt with
  | Some rt =>
      let '(page_id, rt) := StorageRuntime.allocate_page_id (StorageRuntime.store_name i) rt in
      sm_modify (set_runtime rt);;
      on_store i (PageStore.commit_allocated_page_id page_id);;
      mret page_id
  | None => on_store i PageStore.allocate_page_id
  end.

Definition write_store_page (i : store_id) (page_id : PageId) (data : bytes) : M unit :=
  rt ← sm_gets os_runtime;
  match rt with
  | Some rt =>
      rt ← on_pages (StorageRuntime.enqueue_now (WritePage (StorageRuntime.store_name i) page_id data) rt);
      sm_modify (set_runtime rt)
  | None => on_store i (PageStore.write_page page_id data)
  end.

Definition tombstone_store_page (i : store_id) (page_id : PageId) : M unit :=
  rt ← sm_gets os_runtime;
  match rt with
  | Some rt =>
      rt ← on_pages (StorageRuntime.enqueue_now (TombstonePage (StorageRuntime.store_name i) page_id) rt);
      sm_modify (set_runtime rt)
  | None => on_store i (PageStore.tombstone_page page_id)
  end.

(** *** Documents *)

Definition tombstone_existing_doc_pages (d r : string) : M nat :=
  let key := KDocument d r in
  existing ← on_store DocData (PageStore.content_index_lookup key);
  match existing with
  | Some entry =>
      tombstone_store_page DocData (ie_page_id entry);;
      on_store DocData (PageStore.remove_from_index key);;
      mret 1
  | None => mret 0
  end.

Definition insert_document (d r : string) (bs : bytes) : M unit :=
  tombstone_existing_doc_pages d r;;
  page_id ← allocate_store_page_id DocData;
  encoded ← encode "encode: " (DocEntry_new d r bs);
  write_store_page DocData page_id encoded;;
  on_store DocData (PageStore.update_content_index (KDocument d r) page_id).

Definition get_document (d r : string) : M (option bytes) :=
  existing ← on_store DocData (PageStore.content_index_lookup (KDocument d r));
  match existing with
  | Some entry =>
      data ← on_store DocData (PageStore.read_page (ie_page_id entry));
      mret (match data with
            | Some data => Some (match from_bytes data with Ok doc => de_bytes doc | Err _ => data end)
            | None => None
            end)
  | None => mret None
  end.

Definition delete_document (d r : string) : M unit :=
  existing ← on_store DocData (PageStore.content_index_lookup (KDocument d r));
  match existing with
  | Some entry =>
      tombstone_store_page DocData (ie_page_id entry);;
      on_store DocData (PageStore.remove_from_index (KDocument d r))
  | None => tombstone_existing_doc_pages d r;; mret tt
  end.

Fixpoint latest_documents (d : string) (ids : list PageId) (latest : gmap string bytes) : M (gmap string bytes) :=
  match ids with
  | [] => mret latest
  | id :: ids =>
      data ← on_store DocData (PageStore.read_page id);
      latest_documents d ids
        (match data with
         | Some data =>
             match from_bytes data with
             | Ok doc => if bool_decide (de_doc_id doc = d) then <[de_record_id doc := de_bytes doc]> latest else latest
             | Err _ => latest
             end
         | None => latest
         end)
  end.
Definition list_documents (d : string) : M (list (string * bytes)) :=
  ids ← on_store DocData PageStore.list_page_ids;
  latest ← latest_documents d ids ∅;
  mret (map_to_list latest).

(** *** The log *)

(** The page is read back and the log resolved, to be compared in log lines. *)
Definition verify_oplog_write (page_id : PageId) : M unit :=
  on_store OplogStore (PageStore.read_page page_id);;
  on_store OplogStore read_all_oplog_entries;;
  mret tt.

Definition adjust_oplog_pending_count (delta : Z) : M unit :=
  on_store OplogStore (PageStore.adjust_pending_count delta).

(** The entry alone: an array is written without its length. *)
Definition append_entry (entry : OplogEntry) : M unit :=
  encoded ← encode "encode: " entry;
  page_id ← allocate_store_page_id OplogStore;
  write_store_page OplogStore page_id encoded;;
  (if is_uploadable (oe_sync_status entry) then adjust_oplog_pending_count 1 else mret tt);;
  verify_oplog_write page_id.

Definition append_oplog (entry : OplogEntry) : M unit := append_entry entry.

Definition write_document_and_oplog (d r : string) (bs : bytes) (entry : OplogEntry) : M unit :=
  tombstone_existing_doc_pages d r;;
  encoded_doc ← encode "encode doc: " (DocEntry_new d r bs);
  doc_page_id ← allocate_store_page_id DocData;
  write_store_page DocData doc_page_id encoded_doc;;
  on_store DocData (PageStore.update_content_index (KDocument d r) doc_page_id);;
  append_entry entry.

Definition delete_document_and_oplog (d r : string) (entry : OplogEntry) : M unit :=
  delete_document d r;;
  append_entry entry.

Definition pending_count (_ns : string) : M nat := on_store OplogStore PageStore.pending_count.

Definition read_pending_oplog (ns : string) (limit : nat) : M (list OplogEntry) :=
  on_store OplogStore PageStore.list_page_ids;;
  entries ← on_store OplogStore read_all_oplog_entries;
  mret (take limit (filterb (λ e, is_uploadable (oe_sync_status e)) (filterb (in_namespace ns) entries))).

(** Writes a page of entries. *)
Definition write_entries (l : list OplogEntry) : M PageId :=
  encoded ← encode "encode: " l;
  page_id ← allocate_store_page_id OplogStore;
  write_store_page OplogStore page_id encoded;;
  mret page_id.

Definition schedule_oplog_gc : M unit := on_store OplogStore PageStore.schedule_gc.

Definition mark_synced (id : string) (sequence : N) : M unit :=
  entries ← on_store OplogStore read_all_oplog_entries;
  match filterb (has_id id) entries with
  | [] => mret tt
  | updated =>
      write_entries (map (mark_entry sequence) updated);;
      on_store OplogStore read_all_oplog_entries;;
      adjust_oplog_pending_count (-1);;
      schedule_oplog_gc
  end.

Definition mark_failed (id _error : string) : M unit :=
  entries ← on_store OplogStore read_all_oplog_entries;
  match filterb (has_id id) entries with
  | [] => mret tt
  | updated =>
      write_entries (map (set_status Failed) updated);;
      adjust_oplog_pending_count (-1);;
      schedule_oplog_gc
  end.

Definition read_oplog_after_sequence (ns : string) (seq : N) : M (list OplogEntry) :=
  entries ← on_store OplogStore read_all_oplog_entries;
  mret (filterb (λ e, in_namespace ns e && match oe_sequence e with Some s => (seq <? s)%N | None => false end) entries).

(** The full rewrite of the log without the entries [drop]. *)
Definition rewrite_log (drop : OplogEntry → bool) : M nat :=
  entries ← on_store OplogStore read_all_oplog_entries;
  let remaining := filterb (λ e, negb (drop e)) entries in
  page_id ← write_entries remaining;
  on_store OplogStore (PageStore.set_current_page page_id);;
  schedule_oplog_gc;;
  mret (length entries - length remaining)%nat.

Definition run_oplog_gc : M nat := on_store OplogStore PageStore.run_pending_gc.

(** [older_than_secs * 1000] of a release build. *)
Definition delete_synced_oplog_older_than (ns : string) (older_than_secs : N) : M nat :=
  run_oplog_gc;;
  now ← on_store OplogStore PageStore.now;
  let cutoff := saturating_sub now (wrapping_mul64 older_than_secs 1000) in
  rewrite_log (λ e, in_namespace ns e && is_synced e && (oe_created_at e <? cutoff)%N).

Definition delete_synced_oplog_before_timestamp (ns d r : string) (timestamp : N) : M nat :=
  run_oplog_gc;;
  rewrite_log (λ e, in_namespace ns e && of_document d r e && is_synced e && (oe_created_at e <? timestamp)%N).

Definition delete_synced_before (ns : string) (cutoff_ms : N) : M nat :=
  run_oplog_gc;;
  rewrite_log (λ e, in_namespace ns e && is_synced e && (oe_created_at e <? cutoff_ms)%N).

Definition list_tombstoned_documents (ns : string) (older_than_secs : N) : M (list doc_key) :=
  now ← on_store OplogStore PageStore.now;
  let threshold := saturating_sub now (wrapping_mul64 older_than_secs 1000) in
  entries ← on_store OplogStore read_all_oplog_entries;
  mret (map entry_key (filterb (λ e, in_namespace ns e && bool_decide (oe_mutation_type e = CrdtDelete)
    && is_synced e && (oe_created_at e <? threshold)%N) entries)).

Definition list_active_documents (ns : string) : M (list doc_key) :=
  entries ← on_store OplogStore read_all_oplog_entries;
  mret (elements (list_to_set (map entry_key (filterb (in_namespace ns) entries)) : gset doc_key)).

Definition read_synced_oplog_for_document (ns d r : string) : M (list OplogEntry) :=
  entries ← on_store OplogStore read_all_oplog_entries;
  mret (filterb (λ e, in_namespace ns e && of_document d r e && is_synced e) entries).

(** Not implemented by this storage. *)
Definition reset_stale_pending (_ns : string) (_older_than_ms : N) : M nat := mret 0.
Definition update_oplog_encrypted_blob (_id : string) (_new_blob : bytes) : M unit := mret tt.

(** *** Metadata, in memory if it is loaded *)

Definition read_sync_state (_ns : string) : M (option SyncState) :=
  md ← sm_gets os_metadata;
  match md with
  | Some md => mret (md_sync_state md)
  | None => on_store SyncStates MetadataStore.read
  end.
Definition write_sync_state (state : SyncState) : M unit :=
  md ← sm_gets os_metadata;
  match md with
  | Some md => sm_modify (set_metadata (MetadataRuntime.write_sync_state state md))
  | None => on_store SyncStates (MetadataStore.write state)
  end.

Definition read_schema (d : string) : M (option SchemaMeta) :=
  md ← sm_gets os_metadata;
  match md with
  | Some md => mret (find_schema d (md_schemas md))
  | None => all ← on_store Schemas MetadataStore.read; mret (find_schema d (default [] all))
  end.
Definition write_schema (meta : SchemaMeta) : M unit :=
  md ← sm_gets os_metadata;
  match md with
  | Some md => sm_modify (set_metadata (MetadataRuntime.write_schema meta md))
  | None => all ← on_store Schemas MetadataStore.read; on_store Schemas (MetadataStore.write (put_schema meta (default [] all)))
  end.
(** The default of the trait. *)
Definition list_schemas : M (list SchemaMeta) := mret [].

Definition read_migrations : M (list MigrationRecord) :=
  md ← sm_gets os_metadata;
  match md with
  | Some md => mret (md_migrations md)
  | None => all ← on_store Migrations MetadataStore.read; mret (default [] all)
  end.
Definition write_migration (record : MigrationRecord) : M unit :=
  md ← sm_gets os_metadata;
  match md with
  | Some md => sm_modify (set_metadata (MetadataRuntime.write_migration record md))
  | None =>
      all ← on_store Migrations MetadataStore.read;
      on_store Migrations (MetadataStore.write (default [] all ++ [record]))
  end.

Definition read_keys (ns : string) : M (list KeyRecord) :=
  md ← sm_gets os_metadata;
  match md with
  | Some md => mret (keys_of ns (md_keys md))
  | None => all ← on_store Keys MetadataStore.read; mret (keys_of ns (default [] all))
  end.
Definition write_key (key : KeyRecord) : M unit :=
  md ← sm_gets os_metadata;
  match md with
  | Some md => sm_modify (set_metadata (MetadataRuntime.write_key key md))
  | None => all ← on_store Keys MetadataStore.read; on_store Keys (MetadataStore.write (default [] all ++ [key]))
  end.

Definition checkpoint_metadata : M unit :=
  md ← sm_gets os_metadata;
  match md with
  | Some md => md ← on_pages (MetadataRuntime.checkpoint md); sm_modify (set_metadata md)
  | None => mret tt
  end.

(** [try_load_metadata_runtime] with [set_metadata_runtime]. *)
Definition load_metadata : M unit :=
  r ← sm_try (on_pages MetadataRuntime.load);
  match r with Ok md => sm_modify (set_metadata md) | Err _ => mret tt end.

(** *** Transactions *)

Definition begin_transaction : M OpfsTransaction :=
  entries ← on_store OplogStore read_all_oplog_entries;
  rt ← sm_gets os_runtime;
  mret (OpfsTransaction_mk (match rt with Some _ => true | None => false end) [] entries).

(** [commit]; the runtime of the transaction is the one of the storage. *)
Definition commit (tx : OpfsTransaction) : M unit :=
  match ot_ops tx with
  | [] => mret tt
  | _ =>
      match OpfsTransaction.delta_entries tx with
      | [] => mret tt
      | delta =>
          encoded ← encode "tx encode: " delta;
          rt ← sm_gets os_runtime;
          match (if ot_runtime tx then rt else None) with
          | Some rt =>
              let '(page_id, rt) := StorageRuntime.allocate_page_id "oplog" rt in
              sm_modify (set_runtime rt);;
              on_store OplogStore (PageStore.commit_allocated_page_id page_id);;
              rt ← on_pages (StorageRuntime.enqueue_now (WritePage "oplog" page_id encoded) rt);
              sm_modify (set_runtime rt)
          | None =>
              page_id ← on_store OplogStore PageStore.allocate_page_id;
              on_store OplogStore (PageStore.write_page page_id encoded)
          end;;
          after ← on_store OplogStore read_all_oplog_entries;
          on_store OplogStore (PageStore.set_pending_count (uploadable_count after));;
          schedule_oplog_gc
      end
  end.

(** *** Maintenance *)

Definition cleanup_tombstoned_pages : M nat := on_pages StorageRuntime.cleanup_tombstoned_pages.

Definition repair_if_diverged : M unit :=
  pending ← on_store OplogStore PageStore.pending_count;
  if Nat.eqb pending 0 then mret tt
  else
    entries ← on_store OplogStore read_all_oplog_entries;
    let actual := uploadable_count entries in
    if Nat.eqb pending actual then mret tt
    else
      on_store OplogStore (PageStore.set_pending_count actual);;
      on_store OplogStore PageStore.persist_current_manifest.

(** [OpfsStorage::new] and the start of a session: open the stores, repair the
    count, build the runtime. *)
Definition start_runtime : M unit := rt ← on_pages StorageRuntime.new; sm_modify (set_runtime rt).
End storage.
End OpfsStorage.

Definition opfs_new {D} `{Opfs D} {K : PageCodec} (dirs : store_id → D) : result (opfs D) VaultSyncError :=
  match pages_open dirs with
  | Ok pd => Ok (Opfs_mk pd None None)
  | Err e => Err e
  end.

(** The instance of the storage interface; the readings of the clock the
    interface passes are not used. *)
Definition opfs_storage {D} `{Opfs D} {K : PageCodec} {KM : MetaCodec} : Storage (opfs D) := {|
  storage_tx := OpfsTransaction;
  insert_document := OpfsStorage.insert_document;
  get_document := OpfsStorage.get_document;
  delete_document := OpfsStorage.delete_document;
  list_documents := OpfsStorage.list_documents;
  write_document_and_oplog := OpfsStorage.write_document_and_oplog;
  delete_document_and_oplog := OpfsStorage.delete_document_and_oplog;
  append_oplog := OpfsStorage.append_oplog;
  read_pending_oplog := OpfsStorage.read_pending_oplog;
  mark_synced _ := OpfsStorage.mark_synced;
  mark_failed := OpfsStorage.mark_failed;
  read_oplog_after_sequence := OpfsStorage.read_oplog_after_sequence;
  read_sync_state := OpfsStorage.read_sync_state;
  write_sync_state := OpfsStorage.write_sync_state;
  read_schema := OpfsStorage.read_schema;
  write_schema := OpfsStorage.write_schema;
  list_schemas := OpfsStorage.list_schemas;
  read_migrations := OpfsStorage.read_migrations;
  write_migration := OpfsStorage.write_migration;
  read_keys := OpfsStorage.read_keys;
  write_key := OpfsStorage.write_key;
  reset_stale_pending _ := OpfsStorage.reset_stale_pending;
  delete_synced_oplog_older_than _ := OpfsStorage.delete_synced_oplog_older_than;
  list_tombstoned_documents _ := OpfsStorage.list_tombstoned_documents;
  update_oplog_encrypted_blob := OpfsStorage.update_oplog_encrypted_blob;
  list_active_documents := OpfsStorage.list_active_documents;
  read_synced_oplog_for_document := OpfsStorage.read_synced_oplog_for_document;
  delete_synced_oplog_before_timestamp := OpfsStorage.delete_synced_oplog_before_timestamp;
  delete_synced_before := OpfsStorage.delete_synced_before;
  write_batch_reconciliation := for_each (λ '(d, r, bs), OpfsStorage.insert_document d r bs);
  pending_count := OpfsStorage.pending_count;
  begin_transaction := OpfsStorage.begin_transaction;
  tx_mark_synced tx id seq := (Ok tt, OpfsTransaction.mark_synced id seq tx);
  tx_commit _ := OpfsStorage.commit;
|}.

(** ** Migration from the first format

    The pages [migrate_index_to_pages] writes.  [v1_docs] is what [read_v1_doc]
    finds of each document of [doc_listing], and the maps of the old index are
    listed in the order they are iterated in. *)

Record V1Index := V1Index_new {
  v1_docs : list (string * string * option bytes);
  v1_oplog : list OplogEntry;
  v1_sync_states : list (string * SyncState);
  v1_schemas : list (string * SchemaMeta);
  v1_migrations : list MigrationRecord;
  v1_keys : list KeyRecord;
}.

Class V1Codec := {
  #[global] v1_sync_state_postcard :: Postcard (string * SyncState);
  #[global] v1_schema_postcard :: Postcard (string * SchemaMeta);
  #[global] v1_migration_postcard :: Postcard MigrationRecord;
  #[global] v1_key_postcard :: Postcard KeyRecord;
}.

Section migrate.
Context {D : Type} `{Opfs D} {K : PageCodec} {K1 : V1Codec}.
Abbreviation R := (SM (pages_dir D) VaultSyncError).

Definition migrate_page {A} `{Postcard A} (i : store_id) (a : A) : R unit :=
  page_id ← StorageRuntime.on_store i PageStore.allocate_page_id;
  match to_allocvec a with
  | Ok encoded => StorageRuntime.on_store i (PageStore.write_page page_id encoded)
  | Err e => sm_fail (EStorage ("encode: " +:+ e))
  end.

Definition migrate_doc (doc : string * string * option bytes) : R unit :=
  match doc with
  | (d, r, Some bs) => migrate_page DocData (DocEntry_new d r bs)
  | _ => mret tt
  end.

(** Chunks of 50 entries; the length of the list is enough fuel. *)
Fixpoint migrate_oplog (fuel : nat) (oplog_batch : list OplogEntry) : R unit :=
  match oplog_batch, fuel with
  | [], _ | _, O => mret tt
  | _, S fuel => migrate_page OplogStore (take 50 oplog_batch);; migrate_oplog fuel (drop 50 oplog_batch)
  end.

Definition migrate_index_to_pages (index : V1Index) : R unit :=
  for_each migrate_doc (v1_docs index);;
  migrate_oplog (length (v1_oplog index)) (v1_oplog index);;
  for_each (migrate_page SyncStates) (v1_sync_states index);;
  for_each (migrate_page Schemas) (v1_schemas index);;
  for_each (migrate_page Migrations) (v1_migrations index);;
  for_each (migrate_page Keys) (v1_keys index).
End migrate.
