(* ===== verification/PageWire.v ===== *)
(** * A codec for the pages

    The values of the browser storage in the wire format of [postcard], field
    after field: an instance of the codecs the storage is stated over. *)
From S2P Require Import Prelude Text Types Opfs PageStore OpfsStorage.

(** ** Enumerations *)

Definition mutation_type_index (t : MutationType) : N :=
  match t with CrdtUpdate => 0 | CrdtInsert => 1 | CrdtDelete => 2 | CrdtBatch => 3 end.
Definition mutation_type_at (n : N) : MutationType :=
  match n with 1%N => CrdtInsert | 2%N => CrdtDelete | 3%N => CrdtBatch | _ => CrdtUpdate end.
Definition sync_status_index (s : SyncStatus) : N :=
  match s with Pending => 0 | Synced => 1 | Failed => 2 | Optimistic => 3 end.
Definition sync_status_at (n : N) : SyncStatus :=
  match n with 1%N => Synced | 2%N => Failed | 3%N => Optimistic | _ => Pending end.
Definition origins : list MutationOrigin :=
  [OUnknown; OInsert; OUpdate; ODelete; OCrashRecovery; ORemotePull; OPushMutation; OP2PBroadcast; OSnapshot; OTestUtils; OTestHarness].
Definition origin_index (o : MutationOrigin) : N :=
  match o with
  | OUnknown => 0 | OInsert => 1 | OUpdate => 2 | ODelete => 3 | OCrashRecovery => 4 | ORemotePull => 5
  | OPushMutation => 6 | OP2PBroadcast => 7 | OSnapshot => 8 | OTestUtils => 9 | OTestHarness => 10
  end.
Definition origin_at (n : N) : MutationOrigin := default OUnknown (origins !! N.to_nat n).
Definition connection_index (s : ConnectionStatus) : N :=
  match s with Connected => 0 | Disconnected => 1 | Syncing => 2 end.
Definition connection_at (n : N) : ConnectionStatus :=
  match n with 0%N => Connected | 2%N => Syncing | _ => Disconnected end.

Lemma mutation_type_at_index t : mutation_type_at (mutation_type_index t) = t.
Proof. by destruct t. Qed.
Lemma sync_status_at_index s : sync_status_at (sync_status_index s) = s.
Proof. by destruct s. Qed.
Lemma origin_at_index o : origin_at (origin_index o) = o.
Proof. by destruct o. Qed.
Lemma connection_at_index s : connection_at (connection_index s) = s.
Proof. by destruct s. Qed.

#[local] Infix "×" := wire_pair (at level 60, right associativity).

(** ** Records *)

Definition wire_entry : wire OplogEntry.
Proof.
  refine (wire_iso
    (λ e, (oe_id e, (oe_replica_id e, (oe_namespace e, (oe_mutation_type e, (oe_doc_id e, (oe_record_id e, (oe_yrs_update e,
       (oe_encrypted_blob e, (oe_timestamp e, (oe_sequence e, (oe_sync_status e, (oe_synced_at e, (oe_created_at e,
       (oe_schema_version e, (oe_origin e, oe_origin_context e))))))))))))))))
    (λ '(a, (b, (c, (d, (e, (f, (g, (h, (i, (j, (k, (l, (m, (n, (o, p))))))))))))))),
       OplogEntry_new a b c d e f g h i j k l m n o p) _
    (wire_string × wire_string × wire_string × wire_enum _ _ mutation_type_at_index × wire_string × wire_string ×
     wire_bytes × wire_option wire_bytes × wire_u64 × wire_option wire_u64 × wire_enum _ _ sync_status_at_index ×
     wire_option wire_u64 × wire_u64 × wire_u64 × wire_enum _ _ origin_at_index × wire_string)).
  by intros [].
Defined.

Definition wire_doc : wire DocEntry.
Proof.
  refine (wire_iso (λ d, (de_doc_id d, (de_record_id d, de_bytes d))) (λ '(d, (r, bs)), DocEntry_new d r bs) _
    (wire_string × wire_string × wire_bytes)).
  by intros [].
Defined.

(** Each field of a header as one unit, so that a header has four. *)
Definition wire_header : wire PageHeader.
Proof.
  refine (wire_iso (λ h, (ph_version h, (ph_checksum h, (ph_flags h, ph_data_len h))))
    (λ '(v, (c, (f, l))), PageHeader_new v c f l) _ (wire_u8 × wire_u8 × wire_u8 × wire_u8)).
  by intros [].
Defined.

Definition wire_index_entry : wire IndexEntry.
Proof.
  refine (wire_iso
    (λ e, (ie_page_id e, (ie_storage_gen e, (ie_checksum e, (ie_size e, (ie_last_modified e, (ie_version e, ie_dirty e)))))))
    (λ '(a, (b, (c, (d, (e, (f, g)))))), IndexEntry_new a b c d e f g) _
    (wire_u64 × wire_u64 × wire_u64 × wire_u64 × wire_u64 × wire_u64 × wire_bool)).
  by intros [].
Defined.

(** The tag, two texts and a number; the unused ones are empty. *)
Definition wire_index_key : wire IndexKey.
Proof.
  refine (wire_iso
    (λ k, match k with
          | KDocument d r => (0%N, (d, (r, 0%N)))
          | KSequence n => (1%N, (""%string, (""%string, n)))
          | KNamespace s => (2%N, (s, (""%string, 0%N)))
          | KSchema s => (3%N, (s, (""%string, 0%N)))
          | KMigration s => (4%N, (s, (""%string, 0%N)))
          end)
    (λ '(t, (d, (r, n))), match t with
          | 0%N => KDocument d r | 1%N => KSequence n | 2%N => KNamespace d | 3%N => KSchema d | _ => KMigration d
          end) _
    (wire_u64 × wire_string × wire_string × wire_u64)).
  by intros [].
Defined.

Definition wire_content_index : wire ContentIndex.
Proof.
  refine (wire_iso
    (λ c, (ci_generation c, (ci_entries c, (ci_live_pages c, (ci_page_by_document c, (ci_page_by_sequence c,
       (ci_dirty_pages c, (ci_page_by_id c, (ci_tombstoned_pages c, ci_checksum c)))))))))
    (λ '(a, (b, (c, (d, (e, (f, (g, (h, i)))))))), ContentIndex_new a b c d e f g h i) _
    (wire_u64 × wire_map wire_index_key wire_index_entry × wire_set wire_u64 ×
     wire_map wire_string (wire_map wire_string wire_index_entry) × wire_map wire_u64 wire_index_entry ×
     wire_set wire_u64 × wire_map wire_u64 wire_index_key × wire_set wire_u64 × wire_u64)).
  by intros [].
Defined.

Definition wire_manifest : wire StoreManifest.
Proof.
  refine (wire_iso
    (λ m, (sm_manifest_version m, (sm_generation m, (sm_highest_page_id m, (sm_current_page m, (sm_last_sequence m,
       (sm_pending_count m, (sm_live_pages m, (sm_tombstoned_pages m, (sm_created_at m, (sm_updated_at m,
       (sm_content_index m, (sm_checksum m, sm_serialization_version m)))))))))))))
    (λ '(a, (b, (c, (d, (e, (f, (g, (h, (i, (j, (k, (l, m)))))))))))), StoreManifest_new a b c d e f g h i j k l m) _
    (wire_u64 × wire_u64 × wire_u64 × wire_u64 × wire_u64 × wire_nat × wire_nat × wire_nat × wire_u64 × wire_u64 ×
     wire_content_index × wire_u64 × wire_u64)).
  by intros [].
Defined.

Definition wire_sync_state : wire SyncState.
Proof.
  refine (wire_iso
    (λ s, (ss_namespace s, (ss_replica_id s, (ss_last_synced_sequence s, (ss_connection_status s, (ss_leader_status s,
       (ss_last_connected_at s, (ss_last_sync_at s, (ss_schema_version s, ss_generation_id s)))))))))
    (λ '(a, (b, (c, (d, (e, (f, (g, (h, i)))))))), SyncState_new a b c d e f g h i) _
    (wire_string × wire_string × wire_u64 × wire_enum _ _ connection_at_index × wire_option wire_bool ×
     wire_option wire_u64 × wire_option wire_u64 × wire_u64 × wire_string)).
  by intros [].
Defined.

Definition wire_schema : wire SchemaMeta.
Proof.
  refine (wire_iso (λ s, (sm_doc_id s, (sm_version s, sm_schema_bytes s))) (λ '(d, (v, bs)), SchemaMeta_new d v bs) _
    (wire_string × wire_u64 × wire_bytes)).
  by intros [].
Defined.
Definition wire_migration : wire MigrationRecord.
Proof.
  refine (wire_iso (λ m, (mr_version m, (mr_applied_at m, mr_checksum m))) (λ '(v, (a, c)), MigrationRecord_new v a c) _
    (wire_string × wire_u64 × wire_string)).
  by intros [].
Defined.
Definition wire_key : wire KeyRecord.
Proof.
  refine (wire_iso (λ k, (kr_namespace k, (kr_key_bytes k, kr_version k))) (λ '(n, (bs, v)), KeyRecord_new n bs v) _
    (wire_string × wire_bytes × wire_u64)).
  by intros [].
Defined.

(** ** The instances *)

(** A checksum of 32 bits. *)
Definition checksum32 (bs : bytes) : N := foldl (λ h b, (31 * h + b) mod 4294967296)%N 7%N bs.

#[export] Instance page_wire : PageCodec := {|
  header_postcard := wire_postcard wire_header;
  manifest_postcard := wire_postcard wire_manifest;
  doc_postcard := wire_postcard wire_doc;
  entry_postcard := wire_postcard wire_entry;
  entries_postcard := wire_postcard (wire_list wire_entry);
  crc32_hash := checksum32;
|}.

#[export] Instance page_wire_spec : PageCodecSpec page_wire.
Proof.
  split; try apply wire_postcard_spec. intros h bs [= <-]. simpl. lia.
Qed.

#[export] Instance meta_wire : MetaCodec := {|
  sync_state_postcard := wire_postcard wire_sync_state;
  schemas_postcard := wire_postcard (wire_list (wire_string × wire_schema));
  migrations_postcard := wire_postcard (wire_list wire_migration);
  keys_postcard := wire_postcard (wire_list wire_key);
|}.
