(* ===== verification/PageStoreTheory.v ===== *)
(** * The page store: theorems

    Pages are read back as they were written, through the cache and the file
    format; the index keeps its invariant under every operation and failure;
    and what a rebuilt manifest does to the next allocation. *)
From S2P Require Import Prelude Text Types Opfs PageStore OpfsStorage PageWire.

(** ** Names *)

Lemma page_filename_inj p q : page_filename p = page_filename q → p = q.
Proof. intros Heq%append_inj_r. by apply show_N_inj. Qed.

Lemma page_filename_manifest p : page_filename p ≠ "_manifest".
Proof.
  unfold page_filename. pose proof (show_N_digits p) as Hd. intros Heq.
  destruct (show_N p) as [|c s] eqn:E; [done|]. simpl in *.
  injection Heq as -> _. by rewrite andb_false_l in Hd || done.
Qed.

Lemma parse_page_filename p : (p ≤ U64_MAX)%N → parse_page_id (page_filename p) = Some p.
Proof. intros Hp. unfold parse_page_id, page_filename. rewrite strip_suffix_app. by apply parse_show. Qed.

(** ** The format of a page *)

Section format.
Context {K : PageCodec} {HK : PageCodecSpec K}.

Definition page_header (data : bytes) (flags : N) : PageHeader :=
  PageHeader_new 1 (crc32_hash data) flags (as_u32 (length data)).

(** The data of a page has a length that fits its field. *)
Definition page_sized (data : bytes) : Prop := (N.of_nat (length data) < 4294967296)%N.

Lemma encode_page_ok data flags : ∃ buf, encode_v3_page data flags = Ok buf.
Proof.
  unfold encode_v3_page. destruct (to_allocvec_ok (page_header data flags)) as [hb Hhb].
  unfold page_header in Hhb. rewrite Hhb. by eexists.
Qed.

Lemma encode_page_inv data flags buf : encode_v3_page data flags = Ok buf →
  ∃ hb, to_allocvec (page_header data flags) = Ok hb ∧ buf = PAGE_MAGIC ++ hb ++ data.
Proof.
  unfold encode_v3_page, page_header. destruct (to_allocvec _) as [hb|e]; [|done]. intros [= <-]. by exists hb.
Qed.

Lemma split_encoded data flags buf : encode_v3_page data flags = Ok buf →
  split_page_bytes buf = Ok (page_header data flags, data).
Proof.
  intros (hb & Hhb & ->)%encode_page_inv. unfold split_page_bytes. simpl. rewrite ?drop_0.
  rewrite (from_to_postcard _ _ _ Hhb). simpl. unfold encoded_header_len. rewrite Hhb.
  rewrite (proj2 (Nat.ltb_ge _ _)) by (rewrite length_app; lia).
  by rewrite drop_app_length.
Qed.

Lemma page_len_u32 data : page_sized data → as_u32 (length data) = N.of_nat (length data).
Proof. intros H. unfold as_u32. by apply N.mod_small. Qed.

Lemma extract_encoded data flags buf : page_sized data → encode_v3_page data flags = Ok buf →
  extract_page_data buf = Ok data.
Proof.
  intros Hsz (hb & Hhb & ->)%encode_page_inv. unfold extract_page_data. simpl. rewrite ?drop_0.
  rewrite (from_to_postcard _ _ _ Hhb). simpl. unfold encoded_header_len. rewrite Hhb.
  rewrite (proj2 (Nat.ltb_ge _ _)) by (rewrite length_app; lia).
  rewrite drop_app_length, page_len_u32, Nat2N.id by done. by rewrite take_ge.
Qed.

Lemma decode_encoded_head data flags buf : encode_v3_page data flags = Ok buf →
  take 128 buf ≠ [] ∧ decode_page_header (take 128 buf) = Ok (page_header data flags).
Proof.
  intros (hb & Hhb & ->)%encode_page_inv. pose proof (header_length _ _ Hhb) as Hl.
  unfold PAGE_MAGIC. cbn [app take]. split; [done|]. rewrite take_app_ge by done.
  unfold decode_page_header. simpl. rewrite ?drop_0. by rewrite (from_to_postcard _ _ _ Hhb).
Qed.
End format.

(** ** The cache *)

Definition cached_bytes (m : gmap PageId CachedPage) : N :=
  map_fold (λ _ e n, N.of_nat (cp_size e) + n)%N 0%N m.

Lemma cached_bytes_insert m p e : m !! p = None → cached_bytes (<[p := e]> m) = (N.of_nat (cp_size e) + cached_bytes m)%N.
Proof. intros Hp. unfold cached_bytes. rewrite map_fold_insert_L; [done| |done]. intros. lia. Qed.

Lemma cached_bytes_delete m p e : m !! p = Some e → cached_bytes m = (N.of_nat (cp_size e) + cached_bytes (delete p m))%N.
Proof. intros Hp. unfold cached_bytes. rewrite (map_fold_delete_L _ _ p e m); [done| |done]. intros. lia. Qed.

(** The order lists the cached pages, and the bytes are counted. *)
Record cache_ok (c : PageCache) : Prop := {
  co_nodup : NoDup (pc_order c);
  co_order p : p ∈ pc_order c ↔ is_Some (pc_entries c !! p);
  co_sizes p e : pc_entries c !! p = Some e → cp_size e = length (cp_data e);
  co_bytes : pc_current_bytes c = cached_bytes (pc_entries c);
}.

Lemma elem_of_remove_first p q l : NoDup l → q ∈ PageCache.remove_first p l ↔ q ∈ l ∧ q ≠ p.
Proof.
  induction l as [|x l IH]; intros Hnd; simpl; [split; [by intros ?%elem_of_nil|by intros [?%elem_of_nil _]]|].
  apply NoDup_cons in Hnd as [Hx Hnd]. destruct (N.eqb_spec x p) as [->|Hne].
  - split; [intros Hq; split; [by right|by intros ->]|]. by intros [[->|?]%elem_of_cons Hq].
  - rewrite !elem_of_cons, IH by done. naive_solver.
Qed.

Lemma NoDup_remove_first p l : NoDup l → NoDup (PageCache.remove_first p l).
Proof.
  induction l as [|x l IH]; intros Hnd; simpl; [constructor|].
  apply NoDup_cons in Hnd as [Hx Hnd]. destruct (x =? p)%N; [done|]. constructor; [|by apply IH].
  rewrite elem_of_remove_first by done. naive_solver.
Qed.

Lemma cache_get_ok now p c : cache_ok c → cache_ok (PageCache.get now p c).2 ∧
  (∀ q, cp_data <$> pc_entries (PageCache.get now p c).2 !! q = cp_data <$> pc_entries c !! q) ∧
  size (pc_entries (PageCache.get now p c).2) = size (pc_entries c).
Proof.
  intros [Hnd Hord Hsz Hby]. unfold PageCache.get. destruct (pc_entries c !! p) as [e|] eqn:Hp; [|by split].
  simpl. rewrite bool_decide_eq_true_2 by (apply Hord; by rewrite Hp). split_and!.
  - split; simpl.
    + apply NoDup_app. split_and!; [by apply NoDup_remove_first| |by apply NoDup_singleton].
      intros q [_ Hq]%elem_of_remove_first ->%list_elem_of_singleton; done.
    + intros q. rewrite elem_of_app, list_elem_of_singleton, elem_of_remove_first, Hord by done.
      destruct (decide (q = p)) as [->|Hne]; [rewrite lookup_insert_eq; naive_solver|].
      rewrite lookup_insert_ne by done. naive_solver.
    + intros q e' Hq. destruct (decide (q = p)) as [->|Hne].
      * rewrite lookup_insert_eq in Hq. injection Hq as <-. exact (Hsz p e Hp).
      * rewrite lookup_insert_ne in Hq by done. by apply (Hsz q).
    + rewrite Hby, (cached_bytes_delete _ _ _ Hp), <-insert_delete_eq, cached_bytes_insert; [done|].
      apply lookup_delete_eq.
  - intros q. destruct (decide (q = p)) as [->|Hne]; [by rewrite lookup_insert_eq, Hp|by rewrite lookup_insert_ne].
  - by rewrite map_size_insert_Some.
Qed.

Lemma cache_remove_ok p c : cache_ok c → cache_ok (PageCache.remove p c) ∧
  pc_entries (PageCache.remove p c) = delete p (pc_entries c).
Proof.
  intros [Hnd Hord Hsz Hby]. unfold PageCache.remove. destruct (pc_entries c !! p) as [e|] eqn:Hp.
  2:{ split; [done|]. by rewrite delete_id. }
  split; [|done]. split; simpl.
  - by apply NoDup_remove_first.
  - intros q. rewrite elem_of_remove_first, Hord by done. destruct (decide (q = p)) as [->|Hne].
    + rewrite lookup_delete_eq. split; [naive_solver|by intros [? ?]].
    + rewrite lookup_delete_ne by done. naive_solver.
  - intros q e' Hq. apply lookup_delete_Some in Hq as [_ Hq]. by apply (Hsz q).
  - rewrite Hby, (cached_bytes_delete _ _ _ Hp). unfold saturating_sub. lia.
Qed.

Lemma evict_one_ok c p order : cache_ok c → pc_order c = p :: order →
  ∃ c', PageCache.evict_one c = (true, c') ∧ cache_ok c' ∧ pc_order c' = order ∧
    pc_entries c' = delete p (pc_entries c) ∧
    pc_max_entries c' = pc_max_entries c ∧ pc_max_bytes c' = pc_max_bytes c.
Proof.
  intros [Hnd Hord Hsz Hby] Hp. unfold PageCache.evict_one. rewrite Hp in *.
  apply NoDup_cons in Hnd as [Hnp Hnd].
  destruct (pc_entries c !! p) as [e|] eqn:He; [|destruct (proj1 (Hord p) ltac:(by left)); congruence].
  eexists. split; [done|]. split_and!; try done. split; simpl; [done|..].
  - intros q. specialize (Hord q). rewrite elem_of_cons in Hord. destruct (decide (q = p)) as [->|Hne].
    + rewrite lookup_delete_eq. split; [done|by intros [? ?]].
    + rewrite lookup_delete_ne by done. naive_solver.
  - intros q e' Hq. apply lookup_delete_Some in Hq as [_ Hq]. by apply (Hsz q).
  - rewrite Hby, (cached_bytes_delete _ _ _ He). unfold saturating_sub. lia.
Qed.

Lemma empty_order c : cache_ok c → pc_order c = [] → pc_entries c = ∅.
Proof.
  intros Hok Ho. apply map_eq. intros p. rewrite lookup_empty. destruct (pc_entries c !! p) eqn:E; [|done].
  assert (p ∈ pc_order c) as Hp by (apply Hok; by rewrite E). rewrite Ho in Hp. by apply elem_of_nil in Hp.
Qed.

(** The loop leaves room for the page, or an empty cache. *)
Lemma make_room_ok fuel n c : cache_ok c → length (pc_order c) ≤ fuel →
  let c' := PageCache.make_room fuel n c in
  cache_ok c' ∧ pc_entries c' ⊆ pc_entries c ∧
  pc_max_entries c' = pc_max_entries c ∧ pc_max_bytes c' = pc_max_bytes c ∧
  (pc_entries c' = ∅ ∨
   size (pc_entries c') < pc_max_entries c' ∧ (pc_current_bytes c' + N.of_nat n ≤ pc_max_bytes c')%N).
Proof.
  revert c. induction fuel as [|fuel IH]; intros c Hok Hlen; cbn [PageCache.make_room];
    destruct (Nat.leb _ _ || _) eqn:Hfull.
  2,4: apply orb_false_iff in Hfull as [H1%Nat.leb_gt H2%N.ltb_ge]; split_and!; auto.
  - destruct (pc_order c) as [|p order] eqn:Ho; [|simpl in Hlen; lia].
    pose proof (empty_order c Hok Ho). unfold PageCache.evict_one. rewrite Ho. simpl. split_and!; auto.
  - destruct (pc_order c) as [|p order] eqn:Ho.
    { pose proof (empty_order c Hok Ho). unfold PageCache.evict_one. rewrite Ho. simpl. split_and!; auto. }
    destruct (evict_one_ok c p order Hok Ho) as (c' & -> & Hok' & Ho' & He' & Hm1 & Hm2).
    destruct (IH c' Hok' ltac:(rewrite Ho'; simpl in Hlen; lia)) as (H1 & H2 & H3 & H4 & H5).
    rewrite <-Hm1, <-Hm2. split_and!; try done. etrans; [exact H2|]. rewrite He'. apply delete_subseteq.
Qed.

Lemma cache_insert_ok now p data c : cache_ok c →
  let c' := PageCache.insert now p data c in
  cache_ok c' ∧ pc_max_entries c' = pc_max_entries c ∧ pc_max_bytes c' = pc_max_bytes c ∧
  (∀ q e, pc_entries c' !! q = Some e → if bool_decide (q = p) then cp_data e = data else pc_entries c !! q = Some e) ∧
  (0 < pc_max_entries c → size (pc_entries c) ≤ pc_max_entries c → size (pc_entries c') ≤ pc_max_entries c) ∧
  (pc_entries c !! p = None → size (pc_entries c') = 1 ∨ (pc_current_bytes c' ≤ pc_max_bytes c)%N).
Proof.
  intros Hok. unfold PageCache.insert. destruct (pc_entries c !! p) as [e|] eqn:Hp.
  - destruct Hok as [Hnd Hord Hsz Hby]. split_and!; simpl; try done.
    + split; simpl; [done|..].
      * intros q. rewrite Hord. destruct (decide (q = p)) as [->|Hne]; [|by rewrite lookup_insert_ne].
        rewrite lookup_insert_eq, Hp. split; intros _; by eexists.
      * intros q e'. rewrite lookup_insert_Some. intros [[-> <-]|[_ Hq]]; [done|by apply (Hsz q)].
      * rewrite Hby, (cached_bytes_delete _ _ _ Hp), <-insert_delete_eq, cached_bytes_insert by apply lookup_delete_eq.
        simpl. unfold saturating_sub. lia.
    + intros q e'. rewrite lookup_insert_Some. intros [[-> <-]|[Hne Hq]]; case_bool_decide; done.
    + by rewrite map_size_insert_Some.
  - destruct (make_room_ok (length (pc_order c)) (length data) c Hok ltac:(done)) as ([Hnd Hord Hsz Hby] & Hsub & Hm1 & Hm2 & Hroom).
    set (c1 := PageCache.make_room _ _ c) in *.
    assert (pc_entries c1 !! p = None) as Hp1 by (by eapply lookup_weaken_None).
    split_and!; simpl; try done.
    + split; simpl.
      * apply NoDup_app. split_and!; [done| |apply NoDup_singleton].
        intros q Hq ->%list_elem_of_singleton. apply Hord in Hq as [? ?]. congruence.
      * intros q. rewrite elem_of_app, list_elem_of_singleton, Hord. destruct (decide (q = p)) as [->|Hne].
        { rewrite lookup_insert_eq. split; [by intros; eexists|by right]. }
        rewrite lookup_insert_ne by done. naive_solver.
      * intros q e'. rewrite lookup_insert_Some. intros [[-> <-]|[_ Hq]]; [done|by apply (Hsz q)].
      * rewrite Hby, cached_bytes_insert by done. simpl. lia.
    + intros q e'. rewrite lookup_insert_Some. intros [[-> <-]|[Hne Hq]]; case_bool_decide; try done.
      by eapply lookup_weaken.
    + intros Hpos _. rewrite map_size_insert_None by done.
      destruct Hroom as [->|[Hlt _]]; [rewrite map_size_empty; lia|]. rewrite Hm1 in Hlt. lia.
    + intros _. rewrite map_size_insert_None by done.
      destruct Hroom as [->|[_ Hle]]; [left; by rewrite map_size_empty|right; by rewrite Hm2 in Hle].
Qed.

(** What a client does to the cache, and to the pages it stands for. *)
Inductive cache_op :=
  | CGet (now : N) (p : PageId)
  | CInsert (now : N) (p : PageId) (data : bytes)
  | CRemove (p : PageId)
  | CClear.

Definition cache_step (c : PageCache) (op : cache_op) : PageCache :=
  match op with
  | CGet now p => (PageCache.get now p c).2
  | CInsert now p data => PageCache.insert now p data c
  | CRemove p => PageCache.remove p c
  | CClear => PageCache.clear c
  end.

Definition pages_step (m : gmap PageId bytes) (op : cache_op) : gmap PageId bytes :=
  match op with
  | CInsert _ p data => <[p := data]> m
  | CRemove p => delete p m
  | CGet _ _ | CClear => m
  end.

(** The cached pages are pages. *)
Definition cache_agrees (c : PageCache) (m : gmap PageId bytes) : Prop :=
  ∀ p e, pc_entries c !! p = Some e → m !! p = Some (cp_data e).

Lemma cache_new_ok n b : cache_ok (PageCache.new n b).
Proof.
  split; simpl; [constructor| | |done].
  - intros p. rewrite lookup_empty. split; [by intros ?%elem_of_nil|by intros [? ?]].
  - intros p e. by rewrite lookup_empty.
Qed.

Lemma cache_insert_agrees now p data c m : cache_ok c → cache_agrees c m →
  cache_agrees (PageCache.insert now p data c) (<[p := data]> m).
Proof.
  intros Hok Hag q e Hq. destruct (cache_insert_ok now p data c Hok) as (_ & _ & _ & Hent & _).
  specialize (Hent q e Hq). case_bool_decide as Hqp; [subst; by rewrite lookup_insert_eq|].
  rewrite lookup_insert_ne by done. by apply Hag.
Qed.

Lemma cache_get_agrees now p c m : cache_ok c → cache_agrees c m → cache_agrees (PageCache.get now p c).2 m.
Proof.
  intros Hok Hag q e Hq. destruct (cache_get_ok now p c Hok) as (_ & Hdata & _). specialize (Hdata q).
  rewrite Hq in Hdata. symmetry in Hdata. apply fmap_Some in Hdata as (e' & He' & ->). by apply Hag.
Qed.

Lemma cache_remove_agrees p c m : cache_ok c → cache_agrees c m → cache_agrees (PageCache.remove p c) (delete p m).
Proof.
  intros Hok Hag q e. destruct (cache_remove_ok p c Hok) as [_ ->]. intros [Hne Hq]%lookup_delete_Some.
  rewrite lookup_delete_ne by done. by apply Hag.
Qed.

(** Over any history of lookups, insertions and removals the page cache keeps
    its books: its order lists each cached page once, its byte count is the sum
    of the cached sizes, it never holds more pages than its limit, and every
    page it holds is the last data inserted for it. *)
Theorem page_cache_faithful max_entries max_bytes ops : 0 < max_entries →
  let c := foldl cache_step (PageCache.new max_entries max_bytes) ops in
  cache_ok c ∧ size (pc_entries c) ≤ max_entries ∧ cache_agrees c (foldl pages_step ∅ ops).
Proof.
  intros Hpos. set (P := λ c m, cache_ok c ∧ pc_max_entries c = max_entries ∧
    size (pc_entries c) ≤ max_entries ∧ cache_agrees c m).
  assert (∀ c m op, P c m → P (cache_step c op) (pages_step m op)) as Hstep.
  { intros c m op (Hok & Hmax & Hsz & Hag). destruct op as [now p|now p data|p|]; unfold P; cbn [cache_step pages_step].
    - destruct (cache_get_ok now p c Hok) as (? & _ & ->). split_and!; try done; [|by apply cache_get_agrees].
      unfold PageCache.get. by destruct (pc_entries c !! p).
    - destruct (cache_insert_ok now p data c Hok) as (? & Hm & _ & _ & Hle & _). rewrite Hm, Hmax in *.
      split_and!; [done|done|by apply Hle|by apply cache_insert_agrees].
    - destruct (cache_remove_ok p c Hok) as [? He]. split_and!; [done| | |by apply cache_remove_agrees].
      + unfold PageCache.remove. by destruct (pc_entries c !! p).
      + rewrite He. etrans; [apply map_subseteq_size, delete_subseteq|done].
    - split_and!; [apply cache_new_ok|done|simpl; rewrite map_size_empty; lia|].
      intros q e. simpl. by rewrite lookup_empty. }
  assert (∀ c m, P c m → P (foldl cache_step c ops) (foldl pages_step m ops)) as Hall.
  { induction ops as [|op ops IH]; intros c m HP; [done|]. simpl. by apply IH, Hstep. }
  destruct (Hall (PageCache.new max_entries max_bytes) ∅) as (? & _ & ? & ?); [|by split_and!].
  split_and!; [apply cache_new_ok|done|simpl; rewrite map_size_empty; lia|intros q e; simpl; by rewrite lookup_empty].
Qed.

(** ** The index tracks the live pages *)

(** The reverse map knows exactly the live pages. *)
Definition tracked (ci : ContentIndex) : Prop := dom (ci_page_by_id ci) = ci_live_pages ci.

Lemma tracked_new : tracked ContentIndex.new.
Proof. unfold tracked. simpl. set_solver. Qed.

Lemma tracked_insert key e ci : tracked ci → tracked (ContentIndex.insert key e ci).
Proof. unfold tracked. simpl. intros <-. by rewrite dom_insert_L. Qed.

Lemma tracked_remove key ci : tracked ci → tracked (ContentIndex.remove key ci).
Proof.
  unfold tracked, ContentIndex.remove. intros Hci. destruct (ci_entries ci !! key); [|done].
  simpl. by rewrite dom_delete_L, Hci.
Qed.

Lemma tracked_remove_page p ci : tracked ci → tracked (ContentIndex.remove_by_page_id p ci).2.
Proof.
  unfold tracked, ContentIndex.remove_by_page_id. intros Hci. destruct (ci_page_by_id ci !! p) as [key|] eqn:Hp; simpl.
  - unfold ContentIndex.remove. simpl. destruct (ci_entries ci !! key); simpl; rewrite !dom_delete_L, Hci; set_solver.
  - apply not_elem_of_dom in Hp. rewrite Hci in *. set_solver.
Qed.

Lemma tracked_track p stub ci : tracked ci → tracked (ContentIndex.track p stub ci).
Proof.
  unfold tracked. simpl. intros Hci. destruct (ci_page_by_id ci !! p) eqn:Hp.
  - apply elem_of_dom_2 in Hp. rewrite Hci in *. set_solver.
  - by rewrite dom_insert_L, Hci.
Qed.

Lemma tracked_scanned `{PageCodec} p e data ci : ie_page_id e = p → tracked ci → tracked (index_scanned p e data ci).
Proof.
  intros <- Hci. unfold index_scanned. destruct (from_bytes data); [by apply tracked_insert|].
  unfold tracked in *. simpl. by rewrite dom_insert_L, Hci.
Qed.

(** With the index in this state the repair of orphans finds none. *)
Lemma tracked_no_orphans ci : tracked ci → ContentIndex.repair_orphans ci = (0, ci).
Proof.
  intros Hci. unfold ContentIndex.repair_orphans. case_bool_decide; [done|].
  rewrite filterb_none; [done|]. intros p Hp. apply bool_decide_eq_false. rewrite <-not_elem_of_dom, Hci.
  unfold sorted_ids in Hp. rewrite stable_sort_Permutation, elem_of_elements in Hp. tauto.
Qed.

Section tracked.
Context {D : Type} `{Opfs D} {K : PageCodec}.
Import PageStore.
Abbreviation M := (SM (page_store D) VaultSyncError).

Definition store_tracked (s : page_store D) : Prop := tracked (sm_content_index (ps_manifest s)).

Lemma keeps_on_dir {A} (m : SM D VaultSyncError A) : keeps store_tracked (on_dir m).
Proof.
  intros s r s'. unfold on_dir, zoom. destruct (m (ps_dir s)) as [r1 d]. intros [= <- <-] Hs. by destruct r1.
Qed.

Lemma yields_on_dir {A} (m : SM D VaultSyncError A) Q : yields (λ _, True) m Q → yields store_tracked (on_dir m) Q.
Proof.
  intros Hm s r s'. unfold on_dir, zoom. destruct (m (ps_dir s)) as [r1 d] eqn:E. intros [= <- <-] Hs.
  split; [done|]. by apply (Hm _ _ _ E).
Qed.

Lemma keeps_modify_manifest f : (∀ m, tracked (sm_content_index m) → tracked (sm_content_index (f m))) →
  keeps store_tracked (modify_manifest f).
Proof. intros Hf. apply keeps_modify. intros s. apply Hf. Qed.

Lemma keeps_modify_cache f : keeps store_tracked (modify_cache f).
Proof. by apply keeps_modify. Qed.

Lemma tracked_on_index f m : (∀ ci, tracked ci → tracked (f ci)) → tracked (sm_content_index m) →
  tracked (sm_content_index (StoreManifest.on_index f m)).
Proof. intros Hf. destruct m. simpl. apply Hf. Qed.

Lemma keeps_persist_manifest m : tracked (sm_content_index m) → keeps store_tracked (persist_manifest m).
Proof.
  intros Hm. unfold persist_manifest. repeat keeps_step; [apply keeps_on_dir|].
  apply keeps_modify. intros s _. unfold store_tracked. by destruct m.
Qed.
End tracked.

#[export] Hint Resolve tracked_insert tracked_remove tracked_remove_page tracked_track tracked_on_index : keeps.

(** Every operation, whatever fails on the way. *)
Ltac tracked_step :=
  match goal with
  | |- yields _ (PageStore.on_dir _) _ => apply keeps_on_dir
  | |- yields _ PageStore.now _ => apply keeps_on_dir
  | |- yields _ (PageStore.modify_cache _) _ => apply keeps_modify_cache
  | |- yields _ (PageStore.modify_manifest _) _ => apply keeps_modify_manifest; intros []; simpl; by auto with keeps
  | |- yields _ (sm_modify _) _ => apply keeps_modify; by auto
  | _ => keeps_step
  end.

Section tracked_ops.
Context {D : Type} `{Opfs D} {K : PageCodec}.
Import PageStore.
Abbreviation ok m := (keeps (store_tracked (D := D)) m).

Lemma tracked_flush : ok flush.
Proof. unfold flush. repeat tracked_step. Qed.
Ltac go :=
  repeat match goal with
         | |- yields _ flush _ => apply tracked_flush
         | _ => tracked_step
         end.

Lemma tracked_update key p : ok (update_content_index key p).
Proof. unfold update_content_index. go. Qed.
Lemma tracked_mark_dirty key : ok (mark_index_dirty key).
Proof. unfold mark_index_dirty. go. Qed.
Lemma tracked_mark_clean key : ok (mark_index_clean key).
Proof. unfold mark_index_clean. go. Qed.
Lemma tracked_remove_from_index key : ok (remove_from_index key).
Proof. unfold remove_from_index. go. Qed.
Lemma tracked_commit_allocated p : ok (commit_allocated_page_id p).
Proof. unfold commit_allocated_page_id. go. Qed.
Lemma tracked_allocate : ok allocate_page_id.
Proof. unfold allocate_page_id. go. Qed.
Lemma tracked_write_raw p data : ok (write_page_raw p data).
Proof. unfold write_page_raw. go. Qed.
Lemma tracked_commit_write p key : ok (commit_page_write p key).
Proof. unfold commit_page_write. go. Qed.
Lemma tracked_read p : ok (read_page p).
Proof. unfold read_page. go. Qed.
Lemma tracked_delete p : ok (delete_page p).
Proof.
  unfold delete_page. go. apply keeps_modify_manifest. intros [] Hm. simpl. by destruct (Nat.ltb _ _).
Qed.
Lemma tracked_remove_manifest p : ok (remove_from_manifest_index p).
Proof. unfold remove_from_manifest_index. go. Qed.
Ltac go ::=
  repeat match goal with
         | |- yields _ flush _ => apply tracked_flush
         | |- yields _ allocate_page_id _ => apply tracked_allocate
         | |- yields _ (write_page_raw _ _) _ => apply tracked_write_raw
         | |- yields _ (commit_page_write _ _) _ => apply tracked_commit_write
         | |- yields _ (read_page _) _ => apply tracked_read
         | |- yields _ (remove_from_manifest_index _) _ => apply tracked_remove_manifest
         | _ => tracked_step
         end.

Lemma tracked_tombstone p : ok (tombstone_page p).
Proof. unfold tombstone_page. go. Qed.
Lemma tracked_tombstone_file p : ok (tombstone_page_file_only p).
Proof. unfold tombstone_page_file_only. go. Qed.
Lemma tracked_tombstone_tx tx p : ok (tombstone_page_tx tx p).
Proof. unfold tombstone_page_tx. go. Qed.
Lemma tracked_commit_tx tx : ok (commit_tx tx).
Proof. unfold commit_tx, apply_tx_op. go. Qed.
Lemma tracked_split p : ok (split_page p).
Proof.
  unfold split_page, begin_tx, write_page_tx. go; [apply tracked_tombstone_tx|apply tracked_commit_tx].
Qed.
Lemma tracked_write p data : ok (write_page p data).
Proof. unfold write_page. go. apply tracked_split. Qed.
Lemma tracked_write_verify p data : ok (write_page_verify p data).
Proof. unfold write_page_verify. go. Qed.

Lemma tracked_split_all ids count : ok (split_all ids count).
Proof.
  revert count. induction ids as [|id ids IH]; intros count; cbn [split_all]; go; try apply IH. apply tracked_split.
Qed.
Lemma tracked_run_split : ok run_pending_split.
Proof. unfold run_pending_split, is_split_pending, list_page_ids. go. apply tracked_split_all. Qed.
Lemma tracked_recover : ok recover.
Proof. unfold recover. go. Qed.

Lemma rebuild_entry_tracked name t acc : tracked acc.2 →
  yields (λ _ : D, True) (rebuild_entry t name acc) (λ acc, tracked acc.2).
Proof.
  intros Hacc. unfold rebuild_entry. destruct (parse_page_id name) as [id|]; [|by apply yields_ret].
  apply (yields_bind _ _ _ (λ _, True)); [by intros ? ? ? ? ?; split; [|destruct r]|].
  intros [[[h data]|]|e] _; try by apply yields_ret.
  destruct (is_tombstoned h); apply yields_ret; [done|]. by apply tracked_scanned.
Qed.

Lemma rebuild_tracked : yields (λ _ : D, True) rebuild_manifest_with_index (λ m, tracked (sm_content_index m)).
Proof.
  unfold rebuild_manifest_with_index.
  apply (yields_bind _ _ _ (λ _, True)); [by intros ? ? ? ? ?; split; [|destruct r]|]. intros t _.
  apply (yields_bind _ _ _ (λ _, True)); [by intros ? ? ? ? ?; split; [|destruct r]|]. intros names _.
  apply (yields_bind _ _ _ (λ acc, tracked acc.2)).
  - assert (tracked (0%N, ContentIndex.new).2) as Hacc by apply tracked_new. revert Hacc.
    generalize (0%N, ContentIndex.new). induction names as [|name names IH]; intros acc Hacc; cbn [rebuild_scan].
    { by apply yields_ret. }
    eapply yields_bind; [by apply rebuild_entry_tracked|]. apply IH.
  - intros [highest ci] Hci. by apply yields_ret.
Qed.

Lemma tracked_cleanup : ok cleanup_tombstoned_pages.
Proof.
  unfold cleanup_tombstoned_pages. apply keeps_bind; [apply keeps_on_dir|intros a].
  apply keeps_bind; [|by intros ?; apply yields_ret].
  destruct (Nat.ltb 0 a); [|by apply yields_ret].
  eapply yields_bind; [apply yields_on_dir, rebuild_tracked|]. apply keeps_persist_manifest.
Qed.

Lemma keeps_with_manifest (f : N → StoreManifest → StoreManifest) :
  (∀ t m, tracked (sm_content_index m) → tracked (sm_content_index (f t m))) →
  ok (m ← sm_gets ps_manifest; t ← now; persist_manifest (f t m)).
Proof.
  intros Hf. apply (yields_bind _ _ _ (λ m, tracked (sm_content_index m))); [by apply yields_gets|].
  intros m Hm. go. by apply keeps_persist_manifest, Hf.
Qed.

Lemma tracked_set_current p : ok (set_current_page p).
Proof. apply (keeps_with_manifest (λ t m, StoreManifest.set_updated_at t (StoreManifest.set_current p m))). by intros t []. Qed.
Lemma tracked_set_meta n c : ok (set_manifest_meta n c).
Proof. apply (keeps_with_manifest (λ t m, StoreManifest.set_updated_at t (StoreManifest.set_last_sequence n m))). by intros t []. Qed.

Lemma tracked_persist : ok persist_current_manifest.
Proof.
  unfold persist_current_manifest. apply (yields_bind _ _ _ (λ m, tracked (sm_content_index m))); [by apply yields_gets|].
  apply keeps_persist_manifest.
Qed.

Lemma tracked_rotate : ok allocate_and_rotate.
Proof.
  unfold allocate_and_rotate. do 9 (apply keeps_bind; [by go|intros ?]).
  apply (yields_bind _ _ _ (λ m, tracked (sm_content_index m))); [by apply yields_gets|]. intros m Hm.
  apply keeps_bind; [by apply keeps_persist_manifest|]. intros _. by apply yields_ret.
Qed.

Lemma tracked_gc : ok run_pending_gc.
Proof.
  unfold run_pending_gc. apply keeps_bind; [by go|intros needed]. destruct (negb needed); [by apply yields_ret|].
  apply keeps_bind.
  { intros s r s'. destruct (read_manifest (ps_dir s)) as [m d]. by intros [= <- <-]. }
  intros [m|]; [|by apply yields_ret]. destruct (negb _); [by apply yields_ret|].
  apply keeps_bind; [apply keeps_on_dir|intros a]. apply keeps_bind; [|intros ?; by go].
  destruct (Nat.ltb 0 a); [|by apply yields_ret].
  eapply yields_bind; [apply yields_on_dir, rebuild_tracked|]. intros m' Hm'. apply keeps_bind; [by go|intros t].
  apply keeps_persist_manifest. by destruct m'.
Qed.
End tracked_ops.

(** The operations of a store. *)
Inductive store_op :=
  | PUpdateIndex (key : IndexKey) (p : PageId)
  | PMarkDirty (key : IndexKey)
  | PMarkClean (key : IndexKey)
  | PRemoveFromIndex (key : IndexKey)
  | PCommitAllocated (p : PageId)
  | PAllocate
  | PWrite (p : PageId) (data : bytes)
  | PWriteVerify (p : PageId) (data : bytes)
  | PRead (p : PageId)
  | PDelete (p : PageId)
  | PTombstone (p : PageId)
  | PTombstoneFile (p : PageId)
  | PCommitTx (tx : PageTransaction)
  | PSplit (p : PageId)
  | PRunSplit
  | PRecover
  | PCleanup
  | PSetCurrent (p : PageId)
  | PRotate
  | PSetMeta (last_sequence : N) (count : nat)
  | PPersist
  | PGc.

Definition store_run {D} `{Opfs D} {K : PageCodec} (op : store_op) : SM (page_store D) VaultSyncError unit :=
  match op with
  | PUpdateIndex key p => PageStore.update_content_index key p
  | PMarkDirty key => PageStore.mark_index_dirty key
  | PMarkClean key => PageStore.mark_index_clean key
  | PRemoveFromIndex key => PageStore.remove_from_index key
  | PCommitAllocated p => PageStore.commit_allocated_page_id p
  | PAllocate => PageStore.allocate_page_id;; mret tt
  | PWrite p data => PageStore.write_page p data
  | PWriteVerify p data => PageStore.write_page_verify p data
  | PRead p => PageStore.read_page p;; mret tt
  | PDelete p => PageStore.delete_page p
  | PTombstone p => PageStore.tombstone_page p
  | PTombstoneFile p => PageStore.tombstone_page_file_only p
  | PCommitTx tx => PageStore.commit_tx tx
  | PSplit p => PageStore.split_page p
  | PRunSplit => PageStore.run_pending_split;; mret tt
  | PRecover => PageStore.recover
  | PCleanup => PageStore.cleanup_tombstoned_pages;; mret tt
  | PSetCurrent p => PageStore.set_current_page p
  | PRotate => PageStore.allocate_and_rotate;; mret tt
  | PSetMeta n c => PageStore.set_manifest_meta n c
  | PPersist => PageStore.persist_current_manifest
  | PGc => PageStore.run_pending_gc;; mret tt
  end.

Lemma store_run_tracked {D} `{Opfs D} {K : PageCodec} op : keeps (store_tracked (D := D)) (store_run op).
Proof.
  destruct op; cbn [store_run];
    try (apply keeps_bind; [|by intros _; apply yields_ret]);
    eauto using tracked_update, tracked_mark_dirty, tracked_mark_clean, tracked_remove_from_index,
      tracked_commit_allocated, tracked_allocate, tracked_write, tracked_write_verify, tracked_read, tracked_delete,
      tracked_tombstone, tracked_tombstone_file, tracked_commit_tx, tracked_split, tracked_run_split, tracked_recover,
      tracked_cleanup, tracked_set_current, tracked_rotate, tracked_set_meta, tracked_persist, tracked_gc.
Qed.

(** ** A store whose browser works *)

Section working.
Context {D : Type} {HO : Opfs D} {HOS : OpfsSpec D} {K : PageCodec} {HK : PageCodecSpec K}.
Import PageStore.

Definition same_dir (d d' : D) : Prop := fs_files d' = fs_files d ∧ fs_works d'.

Lemma clock_runs d : fs_works d → runs clock d (λ _, same_dir d).
Proof.
  intros Hw. unfold runs, clock. pose proof (date_now_spec d) as Hs. destruct (date_now d) as [n d'], Hs as [Hf Hw'].
  eexists _, _. split; [done|]. split; [done|auto].
Qed.

Lemma write_file_runs n bs d : fs_works d →
  runs (write_file n bs) d (λ _ d', fs_files d' = <[n := bs]> (fs_files d) ∧ fs_works d').
Proof.
  intros Hw. unfold runs, write_file, fs, sm_map_err. pose proof (file_write_spec n bs d) as Hs.
  destruct (file_write n bs d) as [r d'], Hs as [Hok Hf]. destruct (Hok Hw) as [Hw' ->]. by eexists _, _.
Qed.

Lemma read_bytes_runs n bs d : fs_works d → fs_files d !! n = Some bs →
  runs (read_all_bytes n) d (λ r d', r = bs ∧ same_dir d d').
Proof.
  intros Hw Hn. unfold runs, read_all_bytes, fs, sm_map_err. pose proof (file_read_spec n d) as Hs.
  destruct (file_read n d) as [[bs'|e] d'], Hs as (Hf & Hw' & Hr).
  - rewrite Hn in Hr. injection Hr as <-. eexists _, _. unfold same_dir. by auto.
  - destruct (Hr Hw) as [Hnone _]. congruence.
Qed.

Lemma read_bytes_missing n d : fs_works d → fs_files d !! n = None →
  ∃ e d', read_all_bytes n d = (Err e, d') ∧ is_not_found e = true ∧ same_dir d d'.
Proof.
  intros Hw Hn. unfold read_all_bytes, fs, sm_map_err. pose proof (file_read_spec n d) as Hs.
  destruct (file_read n d) as [[bs'|e] d'], Hs as (Hf & Hw' & Hr); [congruence|].
  eexists _, _. split; [done|]. split; [by apply Hr|split; auto].
Qed.

(** The manifest with its checksum, as it is written. *)
Definition sealed (m : StoreManifest) : StoreManifest :=
  StoreManifest.set_checksum (StoreManifest.compute_checksum (StoreManifest.set_checksum 0 m)) (StoreManifest.set_checksum 0 m).

Definition on_disk (m : StoreManifest) (d : D) : Prop :=
  ∃ bs, fs_files d !! "_manifest" = Some bs ∧ to_allocvec (sealed m) = Ok bs.

Lemma set_checksum_twice c c' m : StoreManifest.set_checksum c (StoreManifest.set_checksum c' m) = StoreManifest.set_checksum c m.
Proof. by destruct m. Qed.

Lemma sealed_verifies m : StoreManifest.verify (sealed m) = true.
Proof.
  unfold StoreManifest.verify, sealed. rewrite !set_checksum_twice. apply N.eqb_eq. by destruct m.
Qed.

Lemma sealed_twice m : sealed (sealed m) = sealed m.
Proof. unfold sealed. by rewrite !set_checksum_twice. Qed.

Lemma sealed_core m : sm_highest_page_id (sealed m) = sm_highest_page_id m ∧
  sm_current_page (sealed m) = sm_current_page m ∧ sm_content_index (sealed m) = sm_content_index m ∧
  sm_pending_count (sealed m) = sm_pending_count m.
Proof. by destruct m. Qed.

Lemma read_manifest_on_disk m d : fs_works d → on_disk m d →
  ∃ d', read_manifest d = (Some (sealed m), d') ∧ same_dir d d'.
Proof.
  intros Hw (bs & Hbs & Henc). destruct (read_bytes_runs _ _ _ Hw Hbs) as (? & d' & Hr & -> & Hd').
  exists d'. unfold read_manifest. rewrite Hr. split; [|done].
  pose proof (from_to_postcard _ _ [] Henc) as Hdec. rewrite app_nil_r in Hdec.
  by rewrite Hdec, sealed_verifies.
Qed.

Lemma write_manifest_runs m d : fs_works d →
  runs (write_manifest m) d (λ _ d', on_disk m d' ∧ fs_works d' ∧
    ∀ p, fs_files d' !! page_filename p = fs_files d !! page_filename p).
Proof.
  intros Hw. unfold write_manifest. destruct (to_allocvec_ok (sealed m)) as [bs Hbs].
  change (StoreManifest.set_checksum (StoreManifest.compute_checksum (StoreManifest.set_checksum 0 m))
    (StoreManifest.set_checksum 0 m)) with (sealed m). rewrite Hbs.
  eapply runs_weaken; [by apply write_file_runs|]. intros [] d' [Hf Hw']. split_and!; [|done|].
  - exists bs. by rewrite Hf, lookup_insert_eq.
  - intros p. rewrite Hf, lookup_insert_ne; [done|]. intros Heq. by apply (page_filename_manifest p).
Qed.

(** The files hold the live pages [pg], and the cache some of them. *)
Record files_are (pg : gmap PageId bytes) (d : D) : Prop := {
  fa_works : fs_works d;
  fa_files p : match fs_files d !! page_filename p with
    | None => pg !! p = None
    | Some bs => ∃ data, page_sized data ∧
        (encode_v3_page data 0 = Ok bs ∧ pg !! p = Some data ∨ encode_v3_page data TOMBSTONE = Ok bs ∧ pg !! p = None)
    end;
}.

Record pages_are (pg : gmap PageId bytes) (s : page_store D) : Prop := {
  pa_dir : files_are pg (ps_dir s);
  pa_cache : cache_ok (ps_page_cache s);
  pa_agree : cache_agrees (ps_page_cache s) pg;
}.

(** The store between two operations: its manifest is the one on disk. *)
Record store_is (pg : gmap PageId bytes) (m : StoreManifest) (s : page_store D) : Prop := {
  si_pages : pages_are pg s;
  si_manifest : ps_manifest s = m;
  si_disk : on_disk m (ps_dir s);
}.

(** What the pages do not depend on. *)
Definition same_store (s s' : page_store D) : Prop :=
  ps_manifest s' = ps_manifest s ∧ ps_gc_needed s' = ps_gc_needed s ∧ ps_split_pending s' = ps_split_pending s ∧
  ps_pending_count s' = ps_pending_count s ∧ (∀ m, on_disk m (ps_dir s) → on_disk m (ps_dir s')).

Lemma same_store_refl s : same_store s s.
Proof. by split_and!. Qed.
Lemma same_store_trans s1 s2 s3 : same_store s1 s2 → same_store s2 s3 → same_store s1 s3.
Proof. unfold same_store. intros (? & ? & ? & ? & ?) (? & ? & ? & ? & ?). split_and!; [congruence..|auto]. Qed.

Lemma on_disk_same m d d' : fs_files d' = fs_files d → on_disk m d → on_disk m d'.
Proof. intros Hf (bs & Hbs & Henc). exists bs. by rewrite Hf. Qed.

Lemma pages_are_dir pg s d : pages_are pg s → same_dir (ps_dir s) d → pages_are pg (set_dir d s).
Proof. intros [[Hw Hf] Hc Ha] [Hd Hdw]. split; simpl; [|done..]. split; [done|]. by rewrite Hd. Qed.

Lemma same_store_dir s d : same_dir (ps_dir s) d → same_store s (set_dir d s).
Proof. intros [Hd _]. split_and!; try done. intros m. by apply on_disk_same. Qed.

Lemma now_runs pg s : pages_are pg s → runs now s (λ _ s', pages_are pg s' ∧ same_store s s').
Proof.
  intros Hs. apply runs_zoom. eapply runs_weaken; [apply clock_runs, Hs|]. intros t d Hd.
  split; [by apply pages_are_dir|by apply same_store_dir].
Qed.

Lemma page_header_flags data : is_tombstoned (page_header data 0) = false ∧ is_tombstoned (page_header data TOMBSTONE) = true.
Proof. done. Qed.

Lemma read_file_runs pg s p : pages_are pg s →
  runs (read_page_file (page_filename p)) (ps_dir s) (λ r d, same_dir (ps_dir s) d ∧
    match r with
    | None => pg !! p = None
    | Some (h, data) => page_sized data ∧ crc32_hash data = ph_checksum h ∧
        if is_tombstoned h then pg !! p = None else pg !! p = Some data
    end).
Proof.
  intros [[Hw Hf] _ _]. specialize (Hf p). unfold read_page_file, read_page_file_raw.
  destruct (fs_files (ps_dir s) !! page_filename p) as [bs|] eqn:Hp.
  - destruct Hf as (data & Hsz & Henc). assert (∃ flags, encode_v3_page data flags = Ok bs ∧
      (if is_tombstoned (page_header data flags) then pg !! p = None else pg !! p = Some data)) as (flags & Hbs & Hpg).
    { destruct Henc as [[He Hpg]|[He Hpg]]; [by exists 0%N|by exists TOMBSTONE]. }
    do 2 apply runs_bind. apply runs_try_ok. eapply runs_weaken; [by apply read_bytes_runs|].
    intros ? d' [-> Hd']. apply runs_bind. unfold lift_result. rewrite (split_encoded _ _ _ Hbs).
    eapply runs_intro; [done|]. apply runs_ret. cbn -[as_u32].
    rewrite N.eqb_refl. cbn. by apply runs_ret.
  - destruct (read_bytes_missing _ _ Hw Hp) as (e & d' & Hr & Hnf & Hd').
    do 2 apply runs_bind. apply runs_try. rewrite Hr. rewrite Hnf. by do 2 apply runs_ret.
Qed.

Lemma pages_are_cache pg s c : pages_are pg s → cache_ok c → cache_agrees c pg → pages_are pg (set_cache c s).
Proof. intros [Hd _ _] Hc Ha. by split. Qed.

(** A page reads as what it holds. *)
Lemma read_page_runs pg s p : pages_are pg s →
  runs (read_page p) s (λ r s', r = pg !! p ∧ pages_are pg s' ∧ same_store s s').
Proof.
  intros Hs. unfold read_page. apply runs_bind, runs_gets.
  destruct (pc_entries (ps_page_cache s) !! p) as [e|] eqn:Hp.
  - apply runs_bind. eapply runs_weaken; [by apply now_runs|]. intros t s1 [H1 Hr1].
    apply runs_bind, runs_modify, runs_ret. split_and!.
    + symmetry. by apply Hs.
    + destruct (cache_get_ok t p (ps_page_cache s1)) as [Hok _]; [apply H1|].
      apply pages_are_cache; [done|done|]. apply cache_get_agrees; apply H1.
    + eapply same_store_trans; [exact Hr1|]. by split_and!.
  - apply runs_bind, runs_zoom. eapply runs_weaken; [by apply read_file_runs|]. intros r d [Hd Hr].
    pose proof (pages_are_dir _ _ _ Hs Hd) as H1. pose proof (same_store_dir _ _ Hd) as Hr1.
    destruct r as [[h data]|]; [|by apply runs_ret]. destruct Hr as (Hsz & Hcrc & Hpg).
    rewrite Hcrc, N.eqb_refl, andb_false_r. destruct (is_tombstoned h); [by apply runs_ret|].
    apply runs_bind. eapply runs_weaken; [by apply now_runs|]. intros t s2 [H2 Hr2].
    apply runs_bind, runs_modify, runs_ret. split_and!; [done| |].
    + destruct (cache_insert_ok t p data (ps_page_cache s2)) as [Hok _]; [apply H2|].
      apply pages_are_cache; [done|done|]. rewrite <-(insert_id pg p data) by done.
      apply cache_insert_agrees; apply H2.
    + eapply same_store_trans; [exact Hr1|]. eapply same_store_trans; [exact Hr2|]. by split_and!.
Qed.

Lemma files_write pg d d' p data bs : files_are pg d → page_sized data → encode_v3_page data 0 = Ok bs →
  fs_files d' = <[page_filename p := bs]> (fs_files d) → fs_works d' → files_are (<[p := data]> pg) d'.
Proof.
  intros [Hw Hf] Hsz Henc Hd Hw'. split; [done|]. intros q. rewrite Hd. destruct (decide (q = p)) as [->|Hne].
  - rewrite !lookup_insert_eq. exists data. auto.
  - rewrite !lookup_insert_ne by (done || by intros ?%page_filename_inj). apply Hf.
Qed.

Lemma files_bury pg d d' p data bs : files_are pg d → page_sized data → encode_v3_page data TOMBSTONE = Ok bs →
  fs_files d' = <[page_filename p := bs]> (fs_files d) → fs_works d' → files_are (delete p pg) d'.
Proof.
  intros [Hw Hf] Hsz Henc Hd Hw'. split; [done|]. intros q. rewrite Hd. destruct (decide (q = p)) as [->|Hne].
  - rewrite lookup_insert_eq, lookup_delete_eq. exists data. auto.
  - rewrite lookup_insert_ne, lookup_delete_ne by (done || by intros ?%page_filename_inj). apply Hf.
Qed.

Lemma on_disk_page m d d' p bs : fs_files d' = <[page_filename p := bs]> (fs_files d) → on_disk m d → on_disk m d'.
Proof.
  intros Hd (b & Hb & Henc). exists b. rewrite Hd, lookup_insert_ne; [done|apply page_filename_manifest].
Qed.

Lemma write_raw_runs pg s p data : pages_are pg s → page_sized data →
  runs (write_page_raw p data) s (λ _ s', pages_are (<[p := data]> pg) s' ∧ same_store s s').
Proof.
  intros [Hd Hc Ha] Hsz. unfold write_page_raw. destruct (encode_page_ok data 0) as [bs Hbs].
  apply runs_bind, runs_zoom. unfold lift_result. rewrite Hbs. eapply runs_intro; [done|].
  apply runs_bind, runs_zoom. eapply runs_weaken; [apply write_file_runs, Hd|]. intros [] d [Hf Hw]. simpl in Hf.
  assert (files_are (<[p := data]> pg) d) as Hd' by (by eapply files_write).
  apply runs_bind, runs_zoom. eapply runs_weaken; [by apply clock_runs|]. intros t d1 [Hf1 Hw1].
  apply runs_modify. destruct (cache_insert_ok t p data (ps_page_cache s) Hc) as [Hok _]. split.
  - split; simpl; [|done|by apply cache_insert_agrees]. destruct Hd' as [_ Hfs]. split; [done|]. by rewrite Hf1.
  - split_and!; try done. simpl. intros m Hm. eapply on_disk_same; [exact Hf1|]. by eapply on_disk_page.
Qed.

(** The second write of the manifest file leaves the pages. *)
Lemma pages_are_manifest pg s m d : pages_are pg s → fs_works d →
  (∀ p, fs_files d !! page_filename p = fs_files (ps_dir s) !! page_filename p) →
  pages_are pg (set_manifest m (set_dir d s)).
Proof. intros [[Hw Hf] Hc Ha] Hw' Hsame. split; simpl; [|done..]. split; [done|]. intros p. rewrite Hsame. apply Hf. Qed.

Lemma flush_runs pg s : pages_are pg s → runs flush s (λ _ s', store_is pg (ps_manifest s) s' ∧
  ps_gc_needed s' = ps_gc_needed s ∧ ps_pending_count s' = ps_pending_count s).
Proof.
  intros Hs. apply runs_bind, runs_gets, runs_zoom.
  eapply runs_weaken; [apply write_manifest_runs, Hs|]. intros [] d (Hd & Hw & Hsame). split; [|done].
  split; [|done|done]. exact (pages_are_manifest pg s (ps_manifest s) d Hs Hw Hsame).
Qed.

Lemma modify_manifest_runs pg s f (Q : unit → page_store D → Prop) : pages_are pg s →
  (pages_are pg (set_manifest (f (ps_manifest s)) s) → Q tt (set_manifest (f (ps_manifest s)) s)) →
  runs (modify_manifest f) s Q.
Proof. intros [Hd Hc Ha] HQ. apply runs_modify, HQ. by split. Qed.

(** The part of the manifest the operations depend on. *)
Definition core (m : StoreManifest) : PageId * PageId * ContentIndex :=
  (sm_highest_page_id m, sm_current_page m, sm_content_index m).

Lemma core_updated t m : core (StoreManifest.set_updated_at t m) = core m.
Proof. by destruct m. Qed.
Lemma core_generation m : core (StoreManifest.increment_generation m) = core m.
Proof. by destruct m. Qed.
Lemma core_counts n k m : core (StoreManifest.set_counts n k m) = core m.
Proof. by destruct m. Qed.
Lemma core_live m : core (StoreManifest.count_live m) = core m.
Proof. by destruct m. Qed.
Lemma core_pages m : core (StoreManifest.count_pages m) = core m.
Proof. by destruct m. Qed.
Lemma core_pending n m : core (StoreManifest.set_pending n m) = core m.
Proof. by destruct m. Qed.
Lemma core_index f m : core (StoreManifest.on_index f m) = ((core m).1, f (core m).2).
Proof. by destruct m. Qed.
Lemma core_highest h m : core (StoreManifest.set_highest h m) = (h, (core m).1.2, (core m).2).
Proof. by destruct m. Qed.
Lemma core_current c m : core (StoreManifest.set_current c m) = ((core m).1.1, c, (core m).2).
Proof. by destruct m. Qed.
Lemma core_sealed m : core (sealed m) = core m.
Proof. by destruct m. Qed.

(** A store with this core, and the same flags and count as before. *)
Definition store_has (pg : gmap PageId bytes) (h c : PageId) (ci : ContentIndex) (s0 s : page_store D) : Prop :=
  (∃ m, store_is pg m s ∧ core m = (h, c, ci)) ∧
  ps_gc_needed s = ps_gc_needed s0 ∧ ps_pending_count s = ps_pending_count s0.
End working.

Create Rewrite HintDb manifest_core.
#[export] Hint Rewrite @core_updated @core_generation @core_counts @core_live @core_pages @core_pending @core_index
  @core_highest @core_current : manifest_core.

(** Runs the edits of the manifest and the final write. *)
Ltac edits :=
  repeat match goal with
  | |- runs (PageStore.modify_manifest _ ≫= _) _ _ =>
      apply runs_bind; eapply modify_manifest_runs; [eassumption|intros ?]
  | |- runs (PageStore.now ≫= _) _ _ =>
      apply runs_bind; eapply runs_weaken; [eapply now_runs; eassumption|intros ? ? [? (? & ? & ? & ? & ?)]]
  | |- runs (sm_gets _ ≫= _) _ _ => apply runs_bind, runs_gets
  | |- runs PageStore.flush _ _ =>
      eapply runs_weaken; [eapply flush_runs; eassumption|intros [] ? (? & ? & ?)]
  | |- runs (PageStore.flush ≫= _) _ _ =>
      apply runs_bind; eapply runs_weaken; [eapply flush_runs; eassumption|intros [] ? (? & ? & ?)]
  end.
Ltac cores :=
  repeat match goal with
  | H : ps_manifest _ = _ |- _ => rewrite H in *; clear H
  end;
  cbn [ps_manifest PageStore.set_manifest PageStore.set_dir PageStore.set_cache] in *;
  autorewrite with manifest_core; cbn [fst snd].
(** The flags and the count did not change. *)
Ltac rests :=
  cbn [ps_gc_needed ps_pending_count ps_split_pending PageStore.set_manifest PageStore.set_dir PageStore.set_cache] in *;
  split_and!; congruence.

Section operations.
Context {D : Type} {HO : Opfs D} {HOS : OpfsSpec D} {K : PageCodec} {HK : PageCodecSpec K}.
Import PageStore.

Lemma update_index_runs pg h c ci s0 s key p : store_has pg h c ci s0 s →
  runs (update_content_index key p) s (λ _ s', ∃ e, ie_page_id e = p ∧
    store_has pg h c (ContentIndex.insert key e ci) s0 s').
Proof.
  intros [(m & [Hs Hm _] & Hcore) [Hgc Hcount]]. unfold update_content_index. edits.
  eexists. split; [|split; [eexists; split; [eassumption|]|rests]].
  2:{ cores. rewrite Hcore. reflexivity. }
  done.
Qed.

Lemma remove_index_runs pg h c ci s0 s key : store_has pg h c ci s0 s →
  runs (remove_from_index key) s (λ _, store_has pg h c (ContentIndex.remove key ci) s0).
Proof.
  intros [(m & [Hs Hm _] & Hcore) [Hgc Hcount]]. unfold remove_from_index. edits.
  split; [eexists; split; [eassumption|]|rests]. cores. by rewrite Hcore.
Qed.

Lemma commit_allocated_runs pg h c ci s0 s p : store_has pg h c ci s0 s →
  runs (commit_allocated_page_id p) s (λ _, store_has pg h c (ContentIndex.track p (KSequence p) ci) s0).
Proof.
  intros [(m & [Hs Hm _] & Hcore) [Hgc Hcount]]. unfold commit_allocated_page_id. edits.
  split; [eexists; split; [eassumption|]|rests]. cores. by rewrite Hcore.
Qed.

(** The number the next allocation takes. *)
Definition next_id (h : PageId) : PageId := if (h <? 100)%N then 100%N else h.

Lemma allocate_runs pg h c ci s0 s : store_has pg h c ci s0 s →
  runs allocate_page_id s (λ p s', p = next_id h ∧
    store_has pg (wrapping_add64 (next_id h) 1) c (ContentIndex.track (next_id h) (KSequence (next_id h)) ci) s0 s').
Proof.
  intros [(m & [Hs Hm _] & Hcore) [Hgc Hcount]]. unfold allocate_page_id. edits. apply runs_ret.
  assert (next_page (ps_manifest s) = next_id h) as Hnext.
  { unfold next_page, next_id. rewrite Hm. destruct m. by injection Hcore as -> _ _. }
  split; [done|]. split; [eexists; split; [eassumption|]|rests]. cores.
  by rewrite Hcore, <-Hnext.
Qed.

Lemma commit_write_runs pg h c ci s0 s p : pages_are pg s → core (ps_manifest s) = (h, c, ci) →
  ps_gc_needed s = ps_gc_needed s0 → ps_pending_count s = ps_pending_count s0 →
  runs (commit_page_write p None) s (λ _, store_has pg h c (ContentIndex.track p (KSequence p) ci) s0).
Proof.
  intros Hs Hcore Hgc Hcount. unfold commit_page_write. edits. apply runs_bind, runs_ret. edits.
  split; [eexists; split; [eassumption|]|rests]. cores. by rewrite Hcore.
Qed.

(** Data that goes into its page in one piece. *)
Definition page_fits (data : bytes) : Prop :=
  (N.of_nat (length data) <= HARD_SPLIT_BYTES)%N ∧ estimate_entry_count data ≤ MAX_ENTRIES_PER_PAGE * 2.

Lemma page_fits_sized data : page_fits data → page_sized data.
Proof. unfold page_fits, page_sized, HARD_SPLIT_BYTES. lia. Qed.

Lemma write_page_runs pg h c ci s0 s p data : store_has pg h c ci s0 s → page_fits data →
  runs (write_page p data) s (λ _, store_has (<[p := data]> pg) h c (ContentIndex.track p (KSequence p) ci) s0).
Proof.
  intros [(m & [Hs Hm _] & Hcore) [Hgc Hcount]] Hfit. pose proof (page_fits_sized _ Hfit) as Hsz.
  destruct Hfit as [Hlen Hcnt]. unfold write_page.
  rewrite (proj2 (N.ltb_ge _ _) Hlen), (proj2 (Nat.ltb_ge _ _) Hcnt). cbn [orb].
  apply runs_bind. match goal with |- runs (if ?b then _ else _) _ _ => generalize b end. intros b.
  assert (runs (E := VaultSyncError) (if b then sm_modify (set_split true) else mret tt) s (λ _ s1, pages_are pg s1 ∧
    ps_manifest s1 = m ∧ ps_gc_needed s1 = ps_gc_needed s0 ∧ ps_pending_count s1 = ps_pending_count s0)) as Hsplit.
  { destruct b; [apply runs_modify|apply runs_ret]; split_and!; try done. by destruct Hs. }
  eapply runs_weaken; [exact Hsplit|]. intros [] s1 (H1 & Hm1 & Hg1 & Hc1).
  apply runs_bind. eapply runs_weaken; [by apply write_raw_runs|]. intros [] s2 [H2 (Hr2 & Hg2 & _ & Hc2 & _)].
  eapply commit_write_runs; [done|congruence..].
Qed.

Lemma bury_file_runs pg d p bs : files_are pg d → fs_files d !! page_filename p = Some bs →
  runs (bury_file (page_filename p) bs) d (λ _ d', files_are (delete p pg) d' ∧ ∀ m, on_disk m d → on_disk m d').
Proof.
  intros Hd Hp. pose proof (fa_files _ _ Hd p) as Hf. rewrite Hp in Hf. destruct Hf as (data & Hsz & Henc).
  assert (extract_page_data bs = Ok data) as Hex by (destruct Henc as [[He _]|[He _]]; by eapply extract_encoded).
  destruct (encode_page_ok data TOMBSTONE) as [bs' Hbs']. unfold bury_file, lift_result. rewrite Hex.
  apply runs_bind. eapply runs_intro; [done|]. rewrite Hbs'. apply runs_bind. eapply runs_intro; [done|].
  eapply runs_weaken; [apply write_file_runs, Hd|]. intros [] d' [Hf' Hw']. split; [by eapply files_bury|].
  intros m. by eapply on_disk_page.
Qed.

Lemma remove_manifest_index_runs pg h c ci s0 s p : pages_are pg s → core (ps_manifest s) = (h, c, ci) →
  ps_gc_needed s = ps_gc_needed s0 → ps_pending_count s = ps_pending_count s0 →
  runs (remove_from_manifest_index p) s (λ _, store_has pg h c (ContentIndex.remove_by_page_id p ci).2 s0).
Proof.
  intros Hs Hcore Hgc Hcount. unfold remove_from_manifest_index. edits.
  split; [eexists; split; [eassumption|]|rests]. cores. by rewrite Hcore.
Qed.

Lemma pages_are_buried pg s d p : pages_are pg s → files_are (delete p pg) d →
  pages_are (delete p pg) (set_cache (PageCache.remove p (ps_page_cache s)) (set_dir d s)).
Proof.
  intros [_ Hc Ha] Hd. split; simpl; [done|by apply cache_remove_ok|by apply cache_remove_agrees].
Qed.

Lemma tombstone_runs pg h c ci s0 s p : store_has pg h c ci s0 s →
  runs (tombstone_page p) s (λ _, store_has (delete p pg) h c (ContentIndex.remove_by_page_id p ci).2 s0).
Proof.
  intros [(m & [Hs Hm _] & Hcore) [Hgc Hcount]]. unfold tombstone_page. apply runs_bind.
  pose proof (fa_files _ _ (pa_dir _ _ Hs) p) as Hf. pose proof (fa_works _ _ (pa_dir _ _ Hs)) as Hw.
  destruct (fs_files (ps_dir s) !! page_filename p) as [bs|] eqn:Hp.
  - apply runs_try_ok, runs_zoom. eapply runs_weaken; [by apply read_bytes_runs|]. intros ? d [-> Hd].
    apply runs_bind, runs_zoom. pose proof (pages_are_dir _ _ _ Hs Hd) as H1.
    eapply runs_weaken; [eapply bury_file_runs; [apply H1|simpl; by rewrite (proj1 Hd)]|]. intros [] d' [Hd' _].
    apply runs_bind, runs_modify. eapply remove_manifest_index_runs; [exact (pages_are_buried pg _ d' p H1 Hd')|..]; simpl; congruence.
  - destruct (read_bytes_missing _ _ Hw Hp) as (e & d & Hr & Hnf & Hd).
    apply runs_try. unfold on_dir, zoom. rewrite Hr. rewrite Hnf. cbn [orb]. rewrite delete_id by done.
    eapply remove_manifest_index_runs; [by apply pages_are_dir|..]; simpl; congruence.
Qed.

Lemma persist_runs pg s m : pages_are pg s →
  runs (persist_manifest m) s (λ _ s', (∃ m', store_is pg m' s' ∧ core m' = core m) ∧
    ps_gc_needed s' = ps_gc_needed s ∧ ps_pending_count s' = ps_pending_count s).
Proof.
  intros Hs. unfold persist_manifest. apply runs_bind, runs_gets, runs_bind, runs_zoom.
  eapply runs_weaken; [apply write_manifest_runs, Hs|]. intros [] d (Hd & Hw & Hsame).
  apply runs_modify. split; [|done]. eexists. split; [split; [by apply pages_are_manifest|done|exact Hd]|].
  by destruct m.
Qed.

Lemma set_current_runs pg h c ci s0 s p : store_has pg h c ci s0 s →
  runs (set_current_page p) s (λ _, store_has pg h p ci s0).
Proof.
  intros [(m & [Hs Hm _] & Hcore) [Hgc Hcount]]. unfold set_current_page. edits.
  eapply runs_weaken; [by apply persist_runs|]. intros [] s2 [(m' & Hm' & Hcore') [Hg' Hc']].
  split; [|rests]. exists m'. split; [done|]. rewrite Hcore'. autorewrite with manifest_core. rewrite Hm, Hcore. done.
Qed.

Lemma current_page_runs pg h c ci s0 s : store_has pg h c ci s0 s →
  runs current_page s (λ p s', p = c ∧ store_has pg h c ci s0 s').
Proof.
  intros [(m & [Hs Hm Hd] & Hcore) [Hgc Hcount]].
  destruct (read_manifest_on_disk m (ps_dir s)) as (d & Hr & Hdir); [apply Hs|done|].
  unfold current_page, runs. rewrite Hr. eexists _, _. split; [done|].
  split; [destruct m; by injection Hcore as _ -> _|]. split; [|done]. exists m. split; [|done].
  split; [by apply pages_are_dir|done|]. eapply on_disk_same; [apply Hdir|done].
Qed.

Lemma read_has_runs pg h c ci s0 s p : store_has pg h c ci s0 s →
  runs (read_page p) s (λ r s', r = pg !! p ∧ store_has pg h c ci s0 s').
Proof.
  intros [(m & [Hs Hm Hd] & Hcore) [Hgc Hcount]]. eapply runs_weaken; [by apply read_page_runs|].
  intros r s' (-> & Hs' & Hr1 & Hr2 & Hr3 & Hr4 & Hr5). split; [done|].
  split; [exists m; split; [split; [done|congruence|auto]|done]|split; congruence].
Qed.

(** *** Opening *)

(** The store as [open] builds it around a manifest. *)
Definition opened_with (name : string) (m : StoreManifest) (d : D) : page_store D :=
  PageStore_mk d name false false m (PageCache.new 500 20971520) (sm_pending_count m).

Lemma pages_are_opened pg name m d : files_are pg d → pages_are pg (opened_with name m d).
Proof. intros Hd. split; simpl; [done|apply cache_new_ok|]. intros p e. simpl. by rewrite lookup_empty. Qed.

Lemma files_are_same pg d d' : files_are pg d → same_dir d d' → files_are pg d'.
Proof. intros [Hw Hf] [Hd Hw']. split; [done|]. by rewrite Hd. Qed.

(** A store that is closed and opened again has its pages, its index, its
    counter and its current page. *)
Lemma reopen_runs pg m name d : files_are pg d → on_disk m d →
  ∃ s d', open name d = (Ok s, d') ∧ store_is pg (sealed m) s ∧
    ps_pending_count s = sm_pending_count m ∧ ps_gc_needed s = false.
Proof.
  intros Hd Hm. destruct (read_manifest_on_disk m d) as (d1 & Hr & Hd1); [apply Hd|done|].
  unfold open. rewrite Hr. eexists _, _. split; [done|]. split_and!; [|by destruct m|done].
  split; [by apply pages_are_opened, (files_are_same _ d)|done|].
  apply (on_disk_same _ d); [apply Hd1|]. destruct Hm as (bs & Hbs & Henc). exists bs. by rewrite sealed_twice.
Qed.

(** The page numbers among names. *)
Definition highest_of (names : list string) (h : PageId) : PageId :=
  foldl (λ h name, match parse_page_id name with Some id => N.max h id | None => h end) h names.

Lemma read_header_any name d : fs_works d → ∃ r d', read_page_file name d = (r, d') ∧ same_dir d d'.
Proof.
  intros Hw. unfold read_page_file, read_page_file_raw, read_all_bytes, fs, sm_map_err, sm_try, mbind, sm_bind, lift_result.
  pose proof (file_read_spec name d) as Hs. destruct (file_read name d) as [[bs|e] d'], Hs as (Hf & Hw' & _).
  - destruct (split_page_bytes bs) as [[h data]|e]; [|by eexists _, _; split; [done|split; auto]].
    cbn -[as_u32]. destruct (_ && _); eexists _, _; (split; [done|split; auto]).
  - destruct (is_not_found (EStorage e)); by eexists _, _; split; [done|split; auto].
Qed.

Lemma rebuild_scan_runs t names acc d : fs_works d →
  runs (rebuild_scan t names acc) d (λ acc' d', acc'.1 = highest_of names acc.1 ∧ same_dir d d').
Proof.
  revert acc d. induction names as [|name names IH]; intros acc d Hw; cbn [rebuild_scan].
  { apply runs_ret. by split. }
  apply runs_bind. unfold rebuild_entry, highest_of. cbn [foldl]. destruct (parse_page_id name) as [id|].
  - apply runs_bind, runs_try. destruct (read_header_any name d Hw) as (r & d1 & -> & Hf1 & Hw1).
    assert (∀ acc1 : PageId * ContentIndex, acc1.1 = N.max acc.1 id → runs (rebuild_scan t names acc1) d1 (λ acc' d',
      acc'.1 = foldl (λ h name, match parse_page_id name with Some id => N.max h id | None => h end) (N.max acc.1 id) names ∧ same_dir d d')) as Hrest.
    { intros acc1 Hacc. eapply runs_weaken; [by apply IH|]. intros acc' d' [Ha [Hf' Hw']].
      rewrite Ha, Hacc. split; [done|]. split; [congruence|done]. }
    destruct r as [[[h data]|]|e]; [destruct (is_tombstoned h)|..]; apply runs_ret; by apply Hrest.
  - apply runs_ret. by apply IH.
Qed.

Lemma rebuild_runs d : fs_works d →
  runs rebuild_manifest_with_index d (λ m d', same_dir d d' ∧ sm_current_page m = 0%N ∧
    ∃ names, sm_highest_page_id m = highest_of names 0 ∧ ∀ n, n ∈ names ↔ is_Some (fs_files d !! n)).
Proof.
  intros Hw. unfold rebuild_manifest_with_index. apply runs_bind. eapply runs_weaken; [by apply clock_runs|].
  intros t d1 [Hf1 Hw1]. apply runs_bind. unfold entries, runs at 1. pose proof (dir_entries_spec d1) as Hs.
  destruct (dir_entries d1) as [names d2], Hs as (Hf2 & Hw2 & _ & Hin & Hall).
  eexists _, _. split; [done|]. apply runs_bind. eapply runs_weaken; [apply rebuild_scan_runs; auto|].
  intros [highest ci] d3 [Hh [Hf3 Hw3]]. apply runs_ret. split_and!; [split; [congruence|done]|done|].
  exists names. split; [done|]. intros n. rewrite <-Hf1. split; [apply Hin|]. by apply Hall.
Qed.

Lemma highest_of_ge names h : (h ≤ highest_of names h)%N.
Proof.
  unfold highest_of. revert h. induction names as [|name names IH]; intros h; simpl; [lia|].
  destruct (parse_page_id name) as [id|]; [specialize (IH (N.max h id)); lia|apply IH].
Qed.

Lemma highest_of_le names h p : (h ≤ p)%N → (∀ n id, n ∈ names → parse_page_id n = Some id → (id ≤ p)%N) →
  (highest_of names h ≤ p)%N.
Proof.
  unfold highest_of. revert h. induction names as [|name names IH]; intros h Hh Hle; simpl; [done|].
  apply IH; [|intros n id Hn; by apply Hle; right].
  destruct (parse_page_id name) as [id|] eqn:E; [|done]. assert (id ≤ p)%N by (eapply Hle; [by left|done]). lia.
Qed.

Lemma highest_of_elem names h n p : n ∈ names → parse_page_id n = Some p → (p ≤ highest_of names h)%N.
Proof.
  revert h. induction names as [|name names IH]; intros h Hn Hp; [by apply elem_of_nil in Hn|].
  apply elem_of_cons in Hn as [<-|Hn]; [|exact (IH _ Hn Hp)].
  unfold highest_of. simpl. rewrite Hp. pose proof (highest_of_ge names (N.max h p)) as Hge. unfold highest_of in Hge. lia.
Qed.

Lemma read_manifest_any d : fs_works d → same_dir d (read_manifest d).2.
Proof.
  intros Hw. unfold read_manifest, read_all_bytes, fs, sm_map_err. pose proof (file_read_spec "_manifest" d) as Hs.
  destruct (file_read "_manifest" d) as [[bs|e] d'], Hs as (Hf & Hw' & _); by split; auto.
Qed.

(** The contents of a page, if its number is the highest in use. *)
Definition last_page (p : PageId) (pg : gmap PageId bytes) (d : D) : Prop :=
  is_Some (pg !! p) ∧ (100 ≤ p ≤ U64_MAX)%N ∧
  ∀ n id, is_Some (fs_files d !! n) → parse_page_id n = Some id → (id ≤ p)%N.

Lemma rebuilt_highest pg p names d : files_are pg d → last_page p pg d → (∀ n, n ∈ names ↔ is_Some (fs_files d !! n)) →
  highest_of names 0 = p.
Proof.
  intros Hd ([old Hold] & Hp & Hle) Hnames. apply N.le_antisymm.
  - apply highest_of_le; [lia|]. intros n id Hn%Hnames. by apply Hle.
  - apply highest_of_elem with (page_filename p); [|apply parse_page_filename, Hp].
    apply Hnames. pose proof (fa_files _ _ Hd p) as Hf. destruct (fs_files d !! page_filename p); [by eexists|congruence].
Qed.

(** A store whose manifest is lost is rebuilt from its files, and the next
    page it allocates is the highest one that exists: the first write after a
    recovery replaces the contents of the newest live page. *)
Theorem rebuilt_store_overwrites_last_page pg d name p data :
  files_are pg d → (read_manifest d).1 = None → last_page p pg d → page_fits data →
  ∃ s d', open name d = (Ok s, d') ∧ pages_are pg s ∧
    runs (q ← allocate_page_id; write_page q data;; mret q) s
      (λ q s', q = p ∧ pages_are (<[p := data]> pg) s').
Proof.
  intros Hd Hnone Hlast Hfit. pose proof (read_manifest_any d (fa_works _ _ Hd)) as Hd1. unfold open.
  destruct (read_manifest d) as [o d1]. simpl in *. subst o.
  destruct (rebuild_runs d1) as (m & d2 & Hr & Hd2 & Hcur & names & Hhigh & Hnames); [apply Hd1|].
  destruct (write_manifest_runs m d2) as ([] & d3 & Hw & Hdisk & Hw3 & Hsame); [apply Hd2|].
  rewrite (sm_bind_ok _ _ _ _ _ Hr), (sm_bind_ok _ _ _ _ _ Hw). simpl.
  assert (files_are pg d3) as Hd3.
  { split; [done|]. intros q. rewrite Hsame, (proj1 Hd2), (proj1 Hd1). apply Hd. }
  pose proof (pages_are_opened pg name m d3 Hd3) as Hs. eexists _, _. split; [done|]. split; [exact Hs|].
  assert (sm_highest_page_id m = p) as Hp.
  { rewrite Hhigh. eapply rebuilt_highest; [exact Hd|done|]. intros n. by rewrite Hnames, (proj1 Hd1). }
  assert (next_id p = p) as Hnext.
  { unfold next_id. destruct Hlast as (_ & Hp100 & _). destruct (N.ltb_spec p 100); [lia|done]. }
  apply runs_bind. eapply runs_weaken.
  { eapply (allocate_runs pg p 0%N (sm_content_index m) (opened_with name m d3) (opened_with name m d3)).
    split; [|done]. exists m. split; [by split|]. unfold core. by rewrite Hcur, Hp. }
  rewrite Hnext. intros q s' [-> Hs']. apply runs_bind. eapply runs_weaken; [by eapply write_page_runs|].
  intros [] s2 [(m2 & [Hpg _ _] & _) _]. by apply runs_ret.
Qed.

(** Data that is too large goes to a page of its own, which is only divided if
    it is a list of log entries; anything else stays there. *)
Lemma write_oversized_runs pg h c ci s0 s p data : store_has pg h c ci s0 s → page_sized data →
  ¬ page_fits data → decode_entries data = None →
  runs (write_page p data) s (λ _, store_has (<[next_id h := data]> pg) (wrapping_add64 (next_id h) 1) c
    (ContentIndex.track (next_id h) (KSequence (next_id h)) ci) s0).
Proof.
  intros Hs Hsz Hbig Hdec. unfold write_page. destruct (_ || _) eqn:E.
  2:{ apply orb_false_iff in E as [H1%N.ltb_ge H2%Nat.ltb_ge]. by destruct Hbig. }
  apply runs_bind. eapply runs_weaken; [by apply allocate_runs|]. intros q s1 [-> [(m & [H1 Hm1 Hd1] & Hc1) [Hg1 Hp1]]].
  apply runs_bind. eapply runs_weaken; [by apply write_raw_runs|]. intros [] s2 [H2 (Hr2 & Hg2 & _ & Hc2 & Hd2)].
  unfold split_page. apply runs_bind. eapply runs_weaken.
  { eapply (read_has_runs (<[next_id h := data]> pg)). split; [exists m; split; [split; [exact H2|congruence|auto]|exact Hc1]|].
    split; [by rewrite Hg2|by rewrite Hc2]. }
  intros r s3 [-> [H3 [Hg3 Hp3]]]. rewrite lookup_insert_eq, Hdec. apply runs_ret. split; [done|]. split; congruence.
Qed.

(** What clients of a store do, across sessions. *)
Inductive page_op :=
  | OpWrite (p : PageId) (data : bytes)
  | OpTombstone (p : PageId)
  | OpRead (p : PageId)
  | OpAllocate
  | OpReopen.

Definition page_run (op : page_op) : SM (page_store D) VaultSyncError unit :=
  match op with
  | OpWrite p data => write_page p data
  | OpTombstone p => tombstone_page p
  | OpRead p => read_page p;; mret tt
  | OpAllocate => allocate_page_id;; mret tt
  | OpReopen => λ s, match open (ps_store_name s) (ps_dir s) with
                     | (Ok s', _) => (Ok tt, s')
                     | (Err e, d) => (Err e, set_dir d s)
                     end
  end.

Definition page_effect (pg : gmap PageId bytes) (op : page_op) : gmap PageId bytes :=
  match op with
  | OpWrite p data => <[p := data]> pg
  | OpTombstone p => delete p pg
  | OpRead _ | OpAllocate | OpReopen => pg
  end.

Definition op_fits (op : page_op) : Prop := match op with OpWrite _ data => page_fits data | _ => True end.

Lemma page_run_ok pg m s op : store_is pg m s → op_fits op →
  runs (page_run op) s (λ _ s', ∃ m', store_is (page_effect pg op) m' s').
Proof.
  intros Hs Hfit. assert (store_has pg (core m).1.1 (core m).1.2 (core m).2 s s) as Hhas.
  { split; [|done]. exists m. split; [done|]. by destruct (core m) as [[? ?] ?]. }
  destruct op as [p data|p|p| |]; cbn [page_run page_effect].
  - eapply runs_weaken; [by eapply write_page_runs|]. intros [] s' [(m' & Hm' & _) _]. by exists m'.
  - eapply runs_weaken; [by eapply tombstone_runs|]. intros [] s' [(m' & Hm' & _) _]. by exists m'.
  - apply runs_bind. eapply runs_weaken; [by eapply read_has_runs|]. intros r s' [_ [(m' & Hm' & _) _]].
    apply runs_ret. by exists m'.
  - apply runs_bind. eapply runs_weaken; [by eapply allocate_runs|]. intros q s' [_ [(m' & Hm' & _) _]].
    apply runs_ret. by exists m'.
  - destruct (reopen_runs pg m (ps_store_name s) (ps_dir s)) as (s' & d' & Ho & Hs' & _); [apply Hs|apply Hs|].
    exists tt, s'. rewrite Ho. split; [done|]. by exists (sealed m).
Qed.

(** In a browser that works the page store implements a map from page
    numbers to contents, through its cache, its files with their tombstones and
    its manifest: every history of writes that fit a page, tombstones, reads and
    allocations succeeds, with any number of restarts in between, and then each
    page reads as the history left it. *)
Theorem page_store_refines_pages ops pg m s : store_is pg m s → Forall op_fits ops →
  runs (for_each page_run ops) s (λ _ s',
    (∃ m', store_is (foldl page_effect pg ops) m' s') ∧
    ∀ p, runs (read_page p) s' (λ r _, r = foldl page_effect pg ops !! p)).
Proof.
  intros Hs Hfit. eapply runs_weaken.
  { apply (runs_for_each _ ops (λ done s', ∃ m', store_is (foldl page_effect pg done) m' s')); [by exists m|].
    intros done op rest s0 Hops (m0 & Hs0). rewrite foldl_app. eapply page_run_ok; [done|].
    rewrite Hops in Hfit. apply Forall_app in Hfit as [_ Hfit]. by apply Forall_cons in Hfit as [? _]. }
  intros [] s' (m' & Hs'). split; [by exists m'|]. intros p.
  eapply runs_weaken; [by eapply read_page_runs, Hs'|]. by intros r s2 [-> _].
Qed.

(** *** An empty directory *)

Lemma files_are_empty d : fs_works d → fs_files d = ∅ → files_are ∅ d.
Proof. intros Hw Hf. split; [done|]. intros p. by rewrite Hf, lookup_empty. Qed.

(** The first opening makes an empty store. *)
Lemma open_empty name d : fs_works d → fs_files d = ∅ →
  ∃ s d' m, open name d = (Ok s, d') ∧ store_is ∅ m s ∧ core m = (0%N, 0%N, ContentIndex.new) ∧
    ps_pending_count s = 0 ∧ ps_gc_needed s = false.
Proof.
  intros Hw Hf. unfold open. destruct (read_bytes_missing "_manifest" d Hw) as (e & d1 & Hr & _ & Hf1 & Hw1).
  { by rewrite Hf. }
  assert (read_manifest d = (None, d1)) as -> by (unfold read_manifest; by rewrite Hr).
  assert (runs rebuild_manifest_with_index d1 (λ m d', same_dir d1 d' ∧ core m = (0%N, 0%N, ContentIndex.new) ∧
    sm_pending_count m = 0)) as (m & d2 & Hreb & [Hf2 Hw2] & Hcore & Hcount).
  { unfold rebuild_manifest_with_index. apply runs_bind. eapply runs_weaken; [by apply clock_runs|]. intros t d2 [Hf2 Hw2].
    apply runs_bind. unfold entries, runs at 1. pose proof (dir_entries_spec d2) as Hs.
    destruct (dir_entries d2) as [names d3], Hs as (Hf3 & Hw3 & _ & Hin & _). eexists _, _. split; [done|].
    assert (names = []) as ->.
    { destruct names as [|n names]; [done|]. destruct (Hin n) as [x Hx]; [by left|]. by rewrite Hf2, Hf1, Hf in Hx. }
    apply runs_bind, runs_ret, runs_ret. split; [split; [congruence|auto]|]. done. }
  destruct (write_manifest_runs m d2 Hw2) as ([] & d3 & Hwr & Hdisk & Hw3 & Hsame).
  rewrite (sm_bind_ok _ _ _ _ _ Hreb), (sm_bind_ok _ _ _ _ _ Hwr). simpl.
  eexists _, _, m. split; [done|]. split_and!; [|done|done|done].
  split; [|done|done]. apply (pages_are_opened ∅ name m). split; [done|]. intros p.
  by rewrite Hsame, Hf2, Hf1, Hf, lookup_empty.
Qed.
End operations.

(** ** Witnesses *)

Lemma page_cache_faithful_witness : 0 < 2 ∧
  let c := foldl cache_step (PageCache.new 2 100) [CInsert 1 100 [1%N]; CInsert 2 101 [2%N]; CInsert 3 102 [3%N]; CGet 4 101] in
  cache_ok c ∧ size (pc_entries c) ≤ 2.
Proof.
  split; [lia|]. destruct (page_cache_faithful 2 100
    [CInsert 1 100 [1%N]; CInsert 2 101 [2%N]; CInsert 3 102 [3%N]; CGet 4 101]) as (Hok & Hsz & _); [lia|]. by split.
Defined.

(** A directory with one page and no manifest. *)
Definition one_page_dir : disk :=
  Disk {[page_filename 100 := match encode_v3_page [7%N] 0 with Ok bs => bs | Err _ => [] end]} 0 [].

Lemma one_page_files : files_are {[100%N := [7%N]]} one_page_dir.
Proof.
  split; [done|]. intros p. simpl. destruct (decide (p = 100%N)) as [->|Hne].
  - rewrite !lookup_singleton_eq. exists [7%N]. split; [done|]. left. split; [|done]. vm_compute. reflexivity.
  - rewrite !lookup_singleton_ne by (congruence || by intros ?%page_filename_inj). done.
Qed.

Lemma small_fits : page_fits [8%N].
Proof. split; [done|]. vm_compute. lia. Qed.

Lemma rebuilt_store_overwrites_last_page_witness :
  files_are {[100%N := [7%N]]} one_page_dir ∧
  ∃ s d', PageStore.open "oplog" one_page_dir = (Ok s, d') ∧
    runs (q ← PageStore.allocate_page_id; PageStore.write_page q [8%N];; mret q) s
      (λ q s', q = 100%N ∧ pages_are (<[100%N := [8%N]]> {[100%N := [7%N]]}) s').
Proof.
  split; [apply one_page_files|].
  destruct (rebuilt_store_overwrites_last_page {[100%N := [7%N]]} one_page_dir "oplog" 100 [8%N]) as (s & d' & Ho & _ & Hr).
  - apply one_page_files.
  - vm_compute. reflexivity.
  - split_and!; [by rewrite lookup_singleton_eq|done|done|].
    intros n id [x Hx] Hid. simpl in Hx. apply lookup_singleton_Some in Hx as [<- _].
    rewrite parse_page_filename in Hid by done. injection Hid as <-. done.
  - apply small_fits.
  - exists s, d'. split; [exact Ho|exact Hr].
Defined.

Definition empty_dir : disk := Disk ∅ 0 [].

Lemma page_store_refines_pages_witness :
  ∃ s, runs (for_each page_run [OpWrite 100 [8%N]; OpReopen; OpRead 100]) s (λ _ s',
    ∀ p, runs (PageStore.read_page p) s' (λ r _, r = foldl page_effect ∅ [OpWrite 100 [8%N]; OpReopen; OpRead 100] !! p)).
Proof.
  destruct (open_empty "oplog" empty_dir) as (s & d & m & _ & Hs & _); [done..|]. exists s.
  eapply runs_weaken; [apply (page_store_refines_pages _ ∅ m s Hs)|intros ? ? [_ Hp]; exact Hp].
  apply Forall_cons. split; [apply small_fits|]. apply Forall_cons. split; [exact I|]. apply Forall_cons. split; [exact I|apply Forall_nil, I].
Defined.
