(* ===== verification/OpfsStorageTheory.v ===== *)
(** * The browser storage implements its contract, and where it does not

    In a browser that works, a session of the browser storage keeps the
    documents and the log an abstract map describes; the index of every store
    stays consistent whatever fails.  The file also shows what a restart, a
    compaction and a cleanup lose. *)
From S2P Require Import Prelude Text Types Storage Opfs PageStore OpfsStorage PageWire PageStoreTheory.

(** ** Stores of the directory *)

#[export] Instance store_id_eq_dec : EqDecision store_id.
Proof. solve_decision. Defined.

Lemma get_set_store {D} i (s : page_store D) pd : get_store i (set_store i s pd) = s.
Proof. by destruct pd, i. Qed.
Lemma get_set_other {D} i j (s : page_store D) pd : i ≠ j → get_store j (set_store i s pd) = get_store j pd.
Proof. by destruct pd, i, j. Qed.

Lemma store_of_store_name i : store_of_name (StorageRuntime.store_name i) = i.
Proof. by destruct i. Qed.
Lemma store_index_inj i j :
  store_index (StorageRuntime.store_name i) = store_index (StorageRuntime.store_name j) → i = j.
Proof. by destruct i, j. Qed.

(** The storage with one store replaced. *)
Definition put_store {D} (i : store_id) (s : page_store D) (o : opfs D) : opfs D :=
  OpfsStorage.set_pages (set_store i s (os_pages o)) o.
Definition store {D} (i : store_id) (o : opfs D) : page_store D := get_store i (os_pages o).

Lemma runs_on_store {D A} i (m : SM (page_store D) VaultSyncError A) o (Q : A → opfs D → Prop) :
  runs m (store i o) (λ a s, Q a (put_store i s o)) → runs (OpfsStorage.on_store i m) o Q.
Proof. intros Hm. by apply runs_zoom, runs_zoom. Qed.

(** ** A session *)

Section session.
Context {D : Type} {HO : Opfs D} {HOS : OpfsSpec D} {K : PageCodec} {HK : PageCodecSpec K}.
Import OpfsStorage.
Abbreviation O := (opfs D).

(** The number the next allocation of a store takes: the runtime's, whose queue
    is empty between operations, or that of the manifest. *)
Definition allocates (i : store_id) (h : PageId) (o : O) (p : PageId) : Prop :=
  match os_runtime o with
  | None => next_id h = p
  | Some rt => sc_queue (rt_scheduler rt) = [] ∧
      ∃ pm, rt_page_managers rt !! store_index (StorageRuntime.store_name i) = Some pm ∧
        pm_free_list pm = [] ∧ pm_next_id pm = p
  end.

(** The store [i] has the pages [pg], the current page [c] and the index [ci],
    and its next page is [p]; its flags and count are those of [s0]. *)
Definition session (i : store_id) (pg : gmap PageId bytes) (c : PageId) (ci : ContentIndex) (p : PageId)
    (s0 : page_store D) (o : O) : Prop :=
  ∃ h, store_has pg h c ci s0 (store i o) ∧ allocates i h o p.

Definition highest (i : store_id) (o : O) : PageId := sm_highest_page_id (ps_manifest (store i o)).

Lemma has_highest pg h c ci s0 (s : page_store D) : store_has pg h c ci s0 s → sm_highest_page_id (ps_manifest s) = h.
Proof. intros [(m & [_ Hm _] & Hcore) _]. rewrite Hm. by injection Hcore. Qed.

(** The other stores go on where they were, and a store with a runtime does not
    move the counter of its manifest. *)
Definition others_keep (i : store_id) (o o' : O) : Prop :=
  (∀ j pg c ci p s0, i ≠ j → session j pg c ci p s0 o → session j pg c ci p s0 o') ∧
  (is_Some (os_runtime o) → is_Some (os_runtime o') ∧ highest i o' = highest i o).

Lemma others_keep_refl i o : others_keep i o o.
Proof. by split. Qed.
Lemma others_keep_trans i o1 o2 o3 : others_keep i o1 o2 → others_keep i o2 o3 → others_keep i o1 o3.
Proof.
  intros [H12 Hh12] [H23 Hh23]. split; [auto|]. intros Hrt. destruct (Hh12 Hrt) as [Hrt2 Hh].
  destruct (Hh23 Hrt2) as [? ?]. split; [done|congruence].
Qed.

Lemma put_store_keeps i s o : (is_Some (os_runtime o) → sm_highest_page_id (ps_manifest s) = highest i o) →
  others_keep i o (put_store i s o).
Proof.
  intros Hh. split.
  - intros j pg c ci p s0 Hij (h & Hs & Ha). exists h. split; [|done].
    unfold store, put_store. simpl. by rewrite get_set_other.
  - intros Hrt. split; [done|]. unfold highest at 1, store, put_store. simpl. rewrite get_set_store. auto.
Qed.

Lemma put_has_keeps i h pg c ci pg' c' ci' s0 s o : store_has pg h c ci s0 (store i o) → store_has pg' h c' ci' s0 s →
  others_keep i o (put_store i s o).
Proof. intros H1%has_highest H2%has_highest. apply put_store_keeps. unfold highest. congruence. Qed.

(** An operation on the store itself. *)
Lemma session_store {A} (m : SM (page_store D) VaultSyncError A) i pg c ci p s0 o Q pg' c' ci' :
  session i pg c ci p s0 o →
  (∀ h s, store_has pg h c ci s0 s → runs m s (λ a s', Q a ∧ store_has pg' h c' ci' s0 s')) →
  runs (on_store i m) o (λ a o', Q a ∧ session i pg' c' ci' p s0 o' ∧ others_keep i o o').
Proof.
  intros (h & Hs & Ha) Hm. apply runs_on_store. eapply runs_weaken; [by apply Hm|].
  intros a s' [HQ Hs']. split_and!; [done| |by eapply put_has_keeps]. exists h. split; [|done].
  unfold store, put_store. simpl. by rewrite get_set_store.
Qed.

Lemma session_read i pg c ci p s0 o q : session i pg c ci p s0 o →
  runs (on_store i (PageStore.read_page q)) o (λ r o', r = pg !! q ∧ session i pg c ci p s0 o' ∧ others_keep i o o').
Proof. intros Hs. apply (session_store _ _ _ _ _ _ _ _ (λ r, r = pg !! q) _ _ _ Hs). intros h s. apply read_has_runs. Qed.

Lemma session_unit (m : SM (page_store D) VaultSyncError unit) i pg c ci p s0 o pg' c' ci' :
  session i pg c ci p s0 o →
  (∀ h s, store_has pg h c ci s0 s → runs m s (λ _, store_has pg' h c' ci' s0)) →
  runs (on_store i m) o (λ _ o', session i pg' c' ci' p s0 o' ∧ others_keep i o o').
Proof.
  intros Hs Hm. eapply runs_weaken.
  - apply (session_store m i pg c ci p s0 o (λ _, True) pg' c' ci' Hs). intros h s Hh.
    eapply runs_weaken; [by apply Hm|]. done.
  - by intros [] o' (_ & Hs' & Ho').
Qed.

Lemma session_remove i pg c ci p s0 o key : session i pg c ci p s0 o →
  runs (on_store i (PageStore.remove_from_index key)) o (λ _ o', session i pg c (ContentIndex.remove key ci) p s0 o' ∧ others_keep i o o').
Proof. intros Hs. eapply session_unit; [exact Hs|]. intros h s. apply remove_index_runs. Qed.

Lemma session_update i pg c ci p s0 o key q : session i pg c ci p s0 o →
  runs (on_store i (PageStore.update_content_index key q)) o
    (λ _ o', ∃ e, ie_page_id e = q ∧ session i pg c (ContentIndex.insert key e ci) p s0 o' ∧ others_keep i o o').
Proof.
  intros (h & Hs & Ha). apply runs_on_store. eapply runs_weaken; [by apply update_index_runs|].
  intros [] s' (e & He & Hs'). exists e. split_and!; [done| |by eapply put_has_keeps]. exists h. split; [|done].
  unfold store, put_store. simpl. by rewrite get_set_store.
Qed.

Lemma session_set_current i pg c ci p s0 o q : session i pg c ci p s0 o →
  runs (on_store i (PageStore.set_current_page q)) o (λ _ o', session i pg q ci p s0 o' ∧ others_keep i o o').
Proof. intros Hs. eapply session_unit; [exact Hs|]. intros h s. apply set_current_runs. Qed.

(** *** Allocation and writing, with or without a runtime *)

Lemma next_id_succ p : (100 ≤ p < U64_MAX)%N → next_id (wrapping_add64 p 1) = (p + 1)%N ∧ wrapping_add64 p 1 = (p + 1)%N.
Proof.
  intros Hp. assert (wrapping_add64 p 1 = (p + 1)%N) as ->.
  { apply wrapping_add64_small. lia. }
  split; [|done]. unfold next_id. destruct (N.ltb_spec (p + 1) 100); [lia|done].
Qed.

Lemma managers_keep i o rt pm pms : os_runtime o = Some rt →
  pms = <[store_index (StorageRuntime.store_name i) := pm]> (rt_page_managers rt) →
  others_keep i o (set_runtime (StorageRuntime.with_managers pms rt) o).
Proof.
  intros Hrt ->. split; [|done]. intros j pg c ci p s0 Hij (h & Hs & Ha). exists h. split; [done|].
  unfold allocates in *. rewrite Hrt in Ha. simpl.
  destruct Ha as (Hq & pmj & Hpm & Hfree & Hnext). split; [done|]. exists pmj. split; [|done].
  rewrite list_lookup_insert_ne; [done|]. by intros Heq%store_index_inj.
Qed.

Lemma session_allocate i pg c ci p s0 o : session i pg c ci p s0 o → (100 ≤ p < U64_MAX)%N →
  runs (allocate_store_page_id i) o (λ q o', q = p ∧
    session i pg c (ContentIndex.track p (KSequence p) ci) (p + 1) s0 o' ∧ others_keep i o o').
Proof.
  intros (h & Hs & Ha) Hp. destruct (next_id_succ p Hp) as [Hn Hw]. unfold allocate_store_page_id.
  apply runs_bind, runs_gets. pose proof Ha as Ha'. unfold allocates in Ha'.
  destruct (os_runtime o) as [rt|] eqn:Hrt.
  - destruct Ha' as (Hq & pm & Hpm & Hfree & Hnext). unfold StorageRuntime.allocate_page_id, PageManager.allocate.
    rewrite Hpm, Hfree. simpl. apply runs_bind, runs_modify, runs_bind, runs_on_store. rewrite Hnext, Hw.
    eapply runs_weaken; [by apply commit_allocated_runs|]. intros [] s' Hs'. apply runs_ret.
    split_and!; [done| |].
    + exists h. split; [unfold store, put_store; simpl; by rewrite get_set_store|].
      unfold allocates. simpl. split; [done|]. eexists.
      split; [apply list_lookup_insert_eq; by eapply lookup_lt_Some|done].
    + eapply others_keep_trans; [by eapply managers_keep|by eapply put_has_keeps].
  - subst p. apply runs_on_store. eapply runs_weaken; [by apply allocate_runs|]. intros q s' [-> Hs'].
    split_and!; [done| |apply put_store_keeps; rewrite Hrt; by intros []]. exists (next_id h + 1)%N. rewrite Hw in Hs'.
    split; [unfold store, put_store; simpl; by rewrite get_set_store|]. unfold allocates. simpl. rewrite Hrt.
    by rewrite <-Hw at 1.
Qed.

(** An operation through the queue of the runtime, or on the store. *)
Lemma session_queued i pg c ci p s0 o pg' ci' (op : StorageOp) (m : SM (page_store D) VaultSyncError unit) :
  session i pg c ci p s0 o →
  (∀ pd, StorageRuntime.process_op op pd = (_ ← sm_try (E' := VaultSyncError) (StorageRuntime.on_store i m); mret tt) pd) →
  (∀ h s, store_has pg h c ci s0 s → runs m s (λ _, store_has pg' h c ci' s0)) →
  runs (rt ← sm_gets os_runtime;
        match rt with
        | Some rt => rt ← on_pages (StorageRuntime.enqueue_now op rt); sm_modify (set_runtime rt)
        | None => on_store i m
        end) o
    (λ _ o', session i pg' c ci' p s0 o' ∧ others_keep i o o').
Proof.
  intros (h & Hs & Ha) Hop Hm. apply runs_bind, runs_gets. pose proof Ha as Ha'. unfold allocates in Ha'.
  destruct (os_runtime o) as [rt|] eqn:Hrt.
  2:{ eapply session_unit; [exists h; split; [exact Hs|exact Ha]|]. intros h' s. apply Hm. }
  destruct Ha' as (Hq & pm & Hpm & Hfree & Hnext). destruct (Hm h _ Hs) as ([] & s' & Hrun & Hs').
  apply runs_bind. eapply runs_intro.
  { unfold on_pages, zoom, StorageRuntime.enqueue_now, StorageRuntime.process_pending, StorageScheduler.drain_pending. simpl.
    rewrite Hq. simpl. unfold mbind, sm_bind. simpl. unfold mbind, sm_bind. rewrite Hop.
    unfold mbind, sm_bind, sm_try, StorageRuntime.on_store, zoom. unfold store in Hrun. rewrite Hrun. simpl. reflexivity. }
  apply runs_modify. split.
  - exists h. split; [unfold store; simpl; by rewrite get_set_store|]. unfold allocates. simpl. eauto.
  - split.
    + intros j pg1 c1 ci1 p1 s1 Hij (h1 & Hs1 & Ha1). exists h1. split; [unfold store; simpl; by rewrite get_set_other|].
      unfold allocates in *. rewrite Hrt in Ha1. simpl. destruct Ha1 as (_ & Ha1). by split.
    + intros _. split; [done|]. unfold highest at 1, store. simpl. rewrite get_set_store.
      rewrite (has_highest _ _ _ _ _ _ Hs'). symmetry. exact (has_highest _ _ _ _ _ _ Hs).
Qed.

Lemma session_write i pg c ci p s0 o q data : session i pg c ci p s0 o → page_fits data →
  runs (write_store_page i q data) o (λ _ o',
    session i (<[q := data]> pg) c (ContentIndex.track q (KSequence q) ci) p s0 o' ∧ others_keep i o o').
Proof.
  intros Hs Hfit. eapply session_queued; [exact Hs| |].
  - intros pd. simpl. by rewrite store_of_store_name.
  - intros h s Hh. by apply write_page_runs.
Qed.

Lemma session_tombstone i pg c ci p s0 o q : session i pg c ci p s0 o →
  runs (tombstone_store_page i q) o (λ _ o',
    session i (delete q pg) c (ContentIndex.remove_by_page_id q ci).2 p s0 o' ∧ others_keep i o o').
Proof.
  intros Hs. eapply session_queued; [exact Hs| |].
  - intros pd. simpl. by rewrite store_of_store_name.
  - intros h s Hh. by apply tombstone_runs.
Qed.
End session.

(** ** Documents *)

Section documents.
Context {K : PageCodec}.

Definition by_document (m : gmap string (gmap string IndexEntry)) (d r : string) : option IndexEntry :=
  docs ← m !! d; docs !! r.

Lemma by_document_insert d r e m d' r' : by_document (ContentIndex.document_insert (KDocument d r) e m) d' r' =
  if decide ((d', r') = (d, r)) then Some e else by_document m d' r'.
Proof.
  unfold by_document. simpl. destruct (decide (d' = d)) as [->|Hd].
  - rewrite lookup_insert_eq. simpl. destruct (decide (r' = r)) as [->|Hr].
    + by rewrite lookup_insert_eq, decide_True.
    + rewrite lookup_insert_ne, decide_False by congruence. by destruct (m !! d).
  - by rewrite lookup_insert_ne, decide_False by congruence.
Qed.

Lemma by_document_remove d r m d' r' : by_document (ContentIndex.document_remove (KDocument d r) m) d' r' =
  if decide ((d', r') = (d, r)) then None else by_document m d' r'.
Proof.
  unfold by_document. simpl. destruct (m !! d) as [docs|] eqn:Hm.
  2:{ case_decide; [|done]. simplify_eq. by rewrite Hm. }
  destruct (decide (d' = d)) as [->|Hd].
  - case_bool_decide as Hempty.
    + rewrite lookup_delete_eq, Hm. simpl. case_decide; [done|].
      assert (delete r docs !! r' = docs !! r') as <- by (apply lookup_delete_ne; congruence). by rewrite Hempty, lookup_empty.
    + rewrite lookup_insert_eq, Hm. simpl. case_decide as Hr; simplify_eq; [by rewrite lookup_delete_eq|].
      apply lookup_delete_ne. congruence.
  - rewrite decide_False by congruence. case_bool_decide; [by rewrite lookup_delete_ne|by rewrite lookup_insert_ne].
Qed.

(** The pages and the index hold these documents, in pages below [p]; every live
    page is the page of a document. *)
Record docs_are (docs : gmap doc_key bytes) (pg : gmap PageId bytes) (ci : ContentIndex) (p : PageId) : Prop := {
  da_doc d r : match docs !! (d, r) with
    | Some bs => ∃ e enc, ci_entries ci !! KDocument d r = Some e ∧
        ci_page_by_id ci !! ie_page_id e = Some (KDocument d r) ∧
        to_allocvec (DocEntry_new d r bs) = Ok enc ∧ pg !! ie_page_id e = Some enc
    | None => ci_entries ci !! KDocument d r = None
    end;
  da_by_document d r : by_document (ci_page_by_document ci) d r = ci_entries ci !! KDocument d r;
  da_page q key : ci_page_by_id ci !! q = Some key → (100 ≤ q < p)%N ∧
    ∃ d r e, key = KDocument d r ∧ ci_entries ci !! key = Some e ∧ ie_page_id e = q;
  da_tracked : tracked ci;
}.

Lemma docs_none : docs_are ∅ ∅ ContentIndex.new 100.
Proof. split; [done..|]. apply tracked_new. Qed.

(** The document of an entry, and its page. *)
Lemma docs_entry docs pg ci p d r e : docs_are docs pg ci p → ci_entries ci !! KDocument d r = Some e →
  ∃ bs enc, docs !! (d, r) = Some bs ∧ ci_page_by_id ci !! ie_page_id e = Some (KDocument d r) ∧
    to_allocvec (DocEntry_new d r bs) = Ok enc ∧ pg !! ie_page_id e = Some enc ∧ (100 ≤ ie_page_id e < p)%N.
Proof.
  intros Hd He. pose proof (da_doc _ _ _ _ Hd d r) as Hdr. destruct (docs !! (d, r)) as [bs|]; [|congruence].
  destruct Hdr as (e' & enc & He' & Hp & Henc & Hpg). rewrite He in He'. injection He' as <-.
  exists bs, enc. do 4 (split; [done|]). by apply (da_page _ _ _ _ Hd) in Hp as [? _].
Qed.

(** The index after the page of a document was removed from it. *)
Definition without (d r : string) (e : IndexEntry) (ci : ContentIndex) : ContentIndex :=
  ContentIndex.remove (KDocument d r) (ContentIndex.remove_by_page_id (ie_page_id e) ci).2.

Lemma without_fields d r e ci : ci_entries ci !! KDocument d r = Some e →
  ci_page_by_id ci !! ie_page_id e = Some (KDocument d r) →
  ci_entries (without d r e ci) = delete (KDocument d r) (ci_entries ci) ∧
  ci_page_by_id (without d r e ci) = delete (ie_page_id e) (ci_page_by_id ci) ∧
  ci_page_by_document (without d r e ci) = ContentIndex.document_remove (KDocument d r) (ci_page_by_document ci).
Proof.
  intros He Hp. unfold without, ContentIndex.remove_by_page_id. rewrite Hp. cbn [snd].
  set (ci1 := ContentIndex.remove _ (ContentIndex.forget_page _ _)).
  assert (ci_entries ci1 = delete (KDocument d r) (ci_entries ci) ∧
    ci_page_by_id ci1 = delete (ie_page_id e) (delete (ie_page_id e) (ci_page_by_id ci)) ∧
    ci_page_by_document ci1 = ContentIndex.document_remove (KDocument d r) (ci_page_by_document ci)) as (H1 & H2 & H3).
  { subst ci1. unfold ContentIndex.remove, ContentIndex.forget_page. simpl. by rewrite He. }
  clearbody ci1. unfold ContentIndex.remove, ContentIndex.bury. cbn [ci_entries]. rewrite H1, lookup_delete_eq.
  cbn [ci_entries ci_page_by_id ci_page_by_document]. by rewrite H2, H3, delete_delete_eq.
Qed.

Lemma docs_delete docs pg ci p d r e : docs_are docs pg ci p → ci_entries ci !! KDocument d r = Some e →
  docs_are (delete (d, r) docs) (delete (ie_page_id e) pg) (without d r e ci) p.
Proof.
  intros Hd He. destruct (docs_entry _ _ _ _ _ _ _ Hd He) as (bs & enc & Hbs & Hp & _).
  destruct (without_fields d r e ci He Hp) as (Hent & Hid & Hdoc). split.
  - intros d' r'. rewrite Hent, Hid. destruct (decide ((d', r') = (d, r))) as [Heq|Hne].
    { simplify_eq. by rewrite !lookup_delete_eq. }
    rewrite (lookup_delete_ne docs), (lookup_delete_ne (ci_entries ci)) by congruence.
    pose proof (da_doc _ _ _ _ Hd d' r') as Hdr. destruct (docs !! (d', r')) as [bs'|]; [|done].
    destruct Hdr as (e' & enc' & He' & Hp' & Henc' & Hpg'). exists e', enc'.
    assert (ie_page_id e ≠ ie_page_id e') by congruence. by rewrite !lookup_delete_ne.
  - intros d' r'. rewrite Hdoc, Hent, by_document_remove. case_decide as Heq.
    + simplify_eq. by rewrite lookup_delete_eq.
    + rewrite lookup_delete_ne by congruence. apply Hd.
  - intros q key. rewrite Hid, Hent. intros [Hne Hq]%lookup_delete_Some.
    destruct (da_page _ _ _ _ Hd q key Hq) as (Hlt & d' & r' & e' & -> & He' & Hq'). split; [done|].
    exists d', r', e'. split_and!; [done| |done]. rewrite lookup_delete_ne; [done|]. congruence.
  - unfold without. by apply tracked_remove, tracked_remove_page, Hd.
Qed.

(** The index after a page was allocated, written and entered. *)
Definition with_page (d r : string) (e : IndexEntry) (ci : ContentIndex) : ContentIndex :=
  let p := ie_page_id e in
  ContentIndex.insert (KDocument d r) e
    (ContentIndex.track p (KSequence p) (ContentIndex.track p (KSequence p) ci)).

Lemma docs_insert docs pg ci p d r bs e enc : docs_are docs pg ci p → (100 ≤ p)%N → docs !! (d, r) = None → ie_page_id e = p →
  to_allocvec (DocEntry_new d r bs) = Ok enc →
  docs_are (<[(d, r) := bs]> docs) (<[p := enc]> pg) (with_page d r e ci) (p + 1).
Proof.
  intros Hd Hp100 Hnone Hep Henc. assert (ci_page_by_id ci !! p = None) as Hfresh.
  { destruct (ci_page_by_id ci !! p) as [key|] eqn:Hp; [|done]. apply (da_page _ _ _ _ Hd) in Hp as [? _]. lia. }
  assert (ci_page_by_id (with_page d r e ci) = <[p := KDocument d r]> (ci_page_by_id ci)) as Hid.
  { unfold with_page. rewrite Hep. simpl. rewrite Hep, Hfresh, lookup_insert_eq. by rewrite insert_insert_eq. }
  split.
  - intros d' r'. rewrite Hid. change (ci_entries (with_page d r e ci)) with (<[KDocument d r := e]> (ci_entries ci)).
    destruct (decide ((d', r') = (d, r))) as [Heq|Hne].
    { simplify_eq. rewrite !lookup_insert_eq. exists e, enc. by rewrite !lookup_insert_eq. }
    rewrite (lookup_insert_ne docs), (lookup_insert_ne (ci_entries ci)) by congruence.
    pose proof (da_doc _ _ _ _ Hd d' r') as Hdr. destruct (docs !! (d', r')) as [bs'|]; [|done].
    destruct Hdr as (e' & enc' & He' & Hp' & Henc' & Hpg'). exists e', enc'.
    assert (p ≠ ie_page_id e') by congruence. by rewrite !lookup_insert_ne.
  - intros d' r'. change (ci_entries (with_page d r e ci)) with (<[KDocument d r := e]> (ci_entries ci)).
    unfold with_page. simpl. change (<[d := _]> _) with (ContentIndex.document_insert (KDocument d r) e (ci_page_by_document ci)).
    rewrite by_document_insert. case_decide as Heq.
    + simplify_eq. by rewrite lookup_insert_eq.
    + rewrite lookup_insert_ne by congruence. apply Hd.
  - intros q key. rewrite Hid. change (ci_entries (with_page d r e ci)) with (<[KDocument d r := e]> (ci_entries ci)).
    intros [[<- <-]|[Hne Hq]]%lookup_insert_Some.
    + split; [lia|]. exists d, r, e. by rewrite lookup_insert_eq.
    + destruct (da_page _ _ _ _ Hd q key Hq) as (Hlt & d' & r' & e' & -> & He' & Hq'). split; [lia|].
      exists d', r', e'. split_and!; [done| |done]. rewrite lookup_insert_ne; [done|].
      intros [= -> ->]. pose proof (da_doc _ _ _ _ Hd d' r') as Hdr. rewrite Hnone in Hdr. congruence.
  - unfold with_page. by apply tracked_insert, tracked_track, tracked_track, Hd.
Qed.
End documents.

Section document_operations.
Context {D : Type} {HO : Opfs D} {HOS : OpfsSpec D} {K : PageCodec} {HK : PageCodecSpec K} {KM : MetaCodec}.
Import OpfsStorage.

(** A session whose document store holds [docs]; its next page is [p]. *)
Definition docs_session (docs : gmap doc_key bytes) (p : PageId) (o : opfs D) : Prop :=
  (100 ≤ p)%N ∧ ∃ pg c ci s0, session DocData pg c ci p s0 o ∧ docs_are docs pg ci p.

(** The page of the document is written in one piece. *)
Definition doc_fits (d r : string) (bs : bytes) : Prop :=
  ∀ enc, to_allocvec (DocEntry_new d r bs) = Ok enc → page_fits enc.

(** The index is asked for the key, then by document. *)
Lemma session_lookup pg c ci p s0 o d r : session DocData pg c ci p s0 o →
  on_store DocData (PageStore.content_index_lookup (KDocument d r)) o =
    (Ok (match ci_entries ci !! KDocument d r with Some e => Some e | None => by_document (ci_page_by_document ci) d r end), o).
Proof.
  intros (h & [(m & [_ Hm _] & Hcore) _] & _). unfold on_store, on_pages, StorageRuntime.on_store, zoom.
  change (get_store DocData (os_pages o)) with (store DocData o). unfold core in Hcore. injection Hcore as _ _ <-.
  unfold PageStore.content_index_lookup, sm_gets, mbind, sm_bind, mret, sm_ret. rewrite Hm. by destruct o as [[] ? ?].
Qed.

Lemma lookup_docs docs pg c ci p s0 o d r : session DocData pg c ci p s0 o → docs_are docs pg ci p →
  on_store DocData (PageStore.content_index_lookup (KDocument d r)) o = (Ok (ci_entries ci !! KDocument d r), o).
Proof.
  intros Hs Hd. rewrite (session_lookup _ _ _ _ _ _ d r Hs), (da_by_document _ _ _ _ Hd).
  by destruct (ci_entries ci !! KDocument d r).
Qed.

Lemma runs_lookup {A} docs pg c ci p s0 o d r (f : option IndexEntry → SM (opfs D) VaultSyncError A) Q :
  session DocData pg c ci p s0 o → docs_are docs pg ci p → runs (f (ci_entries ci !! KDocument d r)) o Q →
  runs (on_store DocData (PageStore.content_index_lookup (KDocument d r)) ≫= f) o Q.
Proof. intros Hs Hd Hf. apply runs_bind. eapply runs_intro; [by eapply lookup_docs|done]. Qed.

(** The page of the entry goes, and with it the document. *)
Lemma bury_document docs pg c ci p s0 o d r e : session DocData pg c ci p s0 o → docs_are docs pg ci p →
  (100 ≤ p)%N → ci_entries ci !! KDocument d r = Some e →
  runs (tombstone_store_page DocData (ie_page_id e);; on_store DocData (PageStore.remove_from_index (KDocument d r))) o
    (λ _ o', docs_session (delete (d, r) docs) p o' ∧ others_keep DocData o o').
Proof.
  intros Hs Hd Hp He. apply runs_bind. eapply runs_weaken; [by eapply session_tombstone|]. intros [] o1 [Hs1 Ho1].
  eapply runs_weaken; [by eapply session_remove|]. intros [] o2 [Hs2 Ho2].
  split; [|by eapply others_keep_trans]. split; [done|]. eexists _, _, _, _. split; [exact Hs2|]. by apply docs_delete.
Qed.

Lemma docs_absent docs pg ci p d r : docs_are docs pg ci p → ci_entries ci !! KDocument d r = None → delete (d, r) docs = docs.
Proof.
  intros Hd He. apply delete_id. pose proof (da_doc _ _ _ _ Hd d r) as Hdr.
  destruct (docs !! (d, r)); [|done]. destruct Hdr as (e & enc & He' & _). congruence.
Qed.

Lemma tombstone_existing_runs docs p o d r : docs_session docs p o →
  runs (tombstone_existing_doc_pages d r) o (λ _ o', docs_session (delete (d, r) docs) p o' ∧ others_keep DocData o o').
Proof.
  intros [Hp (pg & c & ci & s0 & Hs & Hd)]. unfold tombstone_existing_doc_pages.
  eapply runs_lookup; [done..|]. destruct (ci_entries ci !! KDocument d r) as [e|] eqn:He.
  - pose proof (bury_document docs pg c ci p s0 o d r e Hs Hd Hp He) as ([] & o' & Hrun & Hq).
    apply sm_bind_ok_inv in Hrun as ([] & o1 & H1 & H2).
    apply runs_bind. eapply runs_intro; [exact H1|].
    apply runs_bind. eapply runs_intro; [exact H2|]. by apply runs_ret.
  - apply runs_ret. rewrite (docs_absent _ _ _ _ _ _ Hd He). split; [|apply others_keep_refl].
    split; [done|]. by eexists _, _, _, _.
Qed.

Lemma delete_document_runs docs p o d r : docs_session docs p o →
  runs (delete_document d r) o (λ _ o', docs_session (delete (d, r) docs) p o' ∧ others_keep DocData o o').
Proof.
  intros Hdocs. pose proof Hdocs as [Hp (pg & c & ci & s0 & Hs & Hd)]. unfold delete_document.
  eapply runs_lookup; [done..|]. destruct (ci_entries ci !! KDocument d r) as [e|] eqn:He.
  - by eapply bury_document.
  - apply runs_bind. eapply runs_weaken; [by apply tombstone_existing_runs|]. intros n o1 H1. by apply runs_ret.
Qed.

Lemma get_document_runs docs p o d r : docs_session docs p o →
  runs (get_document d r) o (λ b o', b = docs !! (d, r) ∧ docs_session docs p o' ∧ others_keep DocData o o').
Proof.
  intros [Hp (pg & c & ci & s0 & Hs & Hd)]. unfold get_document. eapply runs_lookup; [done..|].
  pose proof (da_doc _ _ _ _ Hd d r) as Hdr. destruct (ci_entries ci !! KDocument d r) as [e|] eqn:He.
  - destruct (docs_entry _ _ _ _ _ _ _ Hd He) as (bs & enc & Hbs & _ & Henc & Hpg & _).
    apply runs_bind. eapply runs_weaken; [by eapply session_read|]. intros data o1 (-> & Hs1 & Ho1). apply runs_ret.
    rewrite Hpg, Hbs. pose proof (from_to_postcard _ _ [] Henc) as Hdec. rewrite app_nil_r in Hdec. rewrite Hdec.
    split_and!; [done| |done]. split; [done|]. by eexists _, _, _, _.
  - apply runs_ret. split_and!; [|split; [done|by eexists _, _, _, _]|apply others_keep_refl].
    destruct (docs !! (d, r)); [|done]. destruct Hdr as (? & ? & ? & _). congruence.
Qed.

(** Allocation, the page and the entry of the index. *)
Lemma put_document_runs docs p o d r bs enc : docs_session docs p o → (p < U64_MAX)%N → docs !! (d, r) = None →
  to_allocvec (DocEntry_new d r bs) = Ok enc → page_fits enc →
  runs (page_id ← allocate_store_page_id DocData;
        write_store_page DocData page_id enc;;
        on_store DocData (PageStore.update_content_index (KDocument d r) page_id)) o
    (λ _ o', docs_session (<[(d, r) := bs]> docs) (p + 1) o' ∧ others_keep DocData o o').
Proof.
  intros [Hp (pg & c & ci & s0 & Hs & Hd)] Hmax Hnone Henc Hfit.
  apply runs_bind. eapply runs_weaken; [by eapply session_allocate|]. intros q o1 (-> & Hs1 & Ho1).
  apply runs_bind. eapply runs_weaken; [by eapply session_write|]. intros [] o2 (Hs2 & Ho2).
  eapply runs_weaken; [by eapply session_update|]. intros [] o3 (e & He & Hs3 & Ho3).
  split; [|by eauto using others_keep_trans]. split; [lia|]. eexists _, _, _, _. split; [exact Hs3|].
  pose proof (docs_insert docs pg ci p d r bs e enc Hd Hp Hnone He Henc) as Hd3. unfold with_page in Hd3. by rewrite He in Hd3.
Qed.

Lemma insert_document_runs docs p o d r bs : docs_session docs p o → (p < U64_MAX)%N → doc_fits d r bs →
  runs (insert_document d r bs) o (λ _ o', docs_session (<[(d, r) := bs]> docs) (p + 1) o' ∧ others_keep DocData o o').
Proof.
  intros Hdocs Hmax Hfit. destruct (to_allocvec_ok (DocEntry_new d r bs)) as [enc Henc]. unfold insert_document.
  apply runs_bind. eapply runs_weaken; [by apply tombstone_existing_runs|]. intros n o1 (Hdocs1 & Ho1).
  pose proof (put_document_runs _ _ o1 d r bs enc Hdocs1 Hmax (lookup_delete_eq _ _) Henc (Hfit _ Henc)) as Hput.
  rewrite insert_delete_eq in Hput. destruct Hput as ([] & o2 & Hrun & Hdocs2 & Ho2).
  apply sm_bind_ok_inv in Hrun as (q & o3 & Hq & Hrun). apply runs_bind. eapply runs_intro; [exact Hq|].
  apply runs_bind. unfold encode, lift. rewrite Henc. eapply runs_intro; [done|].
  eapply runs_intro; [exact Hrun|]. split; [done|]. by eapply others_keep_trans.
Qed.
End document_operations.

Section document_history.
Context {D : Type} {HO : Opfs D} {HOS : OpfsSpec D} {K : PageCodec} {HK : PageCodecSpec K} {KM : MetaCodec}.
Import OpfsStorage.

Lemma session_index i pg c ci p s0 (o : opfs D) : session i pg c ci p s0 o →
  sm_content_index (ps_manifest (store i o)) = ci ∧ ps_pending_count (store i o) = ps_pending_count s0.
Proof. intros (h & [(m & [_ Hm _] & Hcore) [_ Hn]] & _). rewrite Hm. by injection Hcore. Qed.

Lemma session_list i pg c ci p s0 (o : opfs D) : session i pg c ci p s0 o →
  on_store i PageStore.list_page_ids o = (Ok (sorted_ids (ci_live_pages ci)), o).
Proof.
  intros Hs. apply session_index in Hs as [Hs _]. unfold on_store, on_pages, StorageRuntime.on_store, zoom.
  unfold store in Hs. cbn. rewrite Hs. by destruct o as [[] ? ?], i.
Qed.

Lemma elem_of_sorted_ids q X : q ∈ sorted_ids X ↔ q ∈ X.
Proof. unfold sorted_ids. by rewrite stable_sort_Permutation, elem_of_elements. Qed.

(** The page [q] holds the document [(d, r)] of [docs]. *)
Definition page_of (docs : gmap doc_key bytes) (pg : gmap PageId bytes) (q : PageId) (d r : string) : Prop :=
  ∃ bs enc, docs !! (d, r) = Some bs ∧ to_allocvec (DocEntry_new d r bs) = Ok enc ∧ pg !! q = Some enc.

Lemma latest_documents_runs docs pg c ci p s0 o d ids latest :
  session DocData pg c ci p s0 o → (∀ q, q ∈ ids → ∃ d' r', page_of docs pg q d' r') →
  runs (latest_documents d ids latest) o (λ L o', session DocData pg c ci p s0 o' ∧ others_keep DocData o o' ∧
    (∀ r, L !! r = latest !! r ∨ L !! r = docs !! (d, r)) ∧
    (∀ q r, q ∈ ids → page_of docs pg q d r → L !! r = docs !! (d, r))).
Proof.
  revert o latest. induction ids as [|q ids IH]; intros o latest Hs Hids; cbn [latest_documents].
  { apply runs_ret. split_and!; [done|apply others_keep_refl|by left|by intros q r ?%elem_of_nil]. }
  apply runs_bind. eapply runs_weaken; [by eapply session_read|]. intros data o1 (-> & Hs1 & Ho1).
  destruct (Hids q) as (d' & r' & bs & enc & Hdoc & Henc & Hpg); [by left|]. rewrite Hpg.
  pose proof (from_to_postcard _ _ [] Henc) as Hdec. rewrite app_nil_r in Hdec. rewrite Hdec. cbn [de_doc_id de_record_id de_bytes].
  eapply runs_weaken; [apply IH; [exact Hs1|intros q' Hq'; apply Hids; by right]|].
  intros L o2 (Hs2 & Ho2 & Hor & Hall). split_and!; [done|by eapply others_keep_trans| |].
  - intros r. destruct (Hor r) as [HL|HL]; [|by right]. rewrite HL. case_bool_decide as Hd; [|by left]. subst d'.
    destruct (decide (r' = r)) as [->|Hne]; [right; by rewrite lookup_insert_eq|left; by rewrite lookup_insert_ne].
  - intros q' r [->|Hq']%elem_of_cons Hpage; [|by eapply Hall].
    destruct Hpage as (bs' & enc' & Hdoc' & Henc' & Hpg'). rewrite Hpg in Hpg'. injection Hpg' as <-.
    pose proof (from_to_postcard _ _ [] Henc') as Hdec'. rewrite app_nil_r, Hdec in Hdec'. injection Hdec' as -> -> ->.
    destruct (Hor r) as [HL|HL]; [|done]. rewrite HL, bool_decide_eq_true_2, lookup_insert_eq by done. done.
Qed.

Lemma list_documents_runs docs p o d : docs_session docs p o →
  runs (list_documents d) o (λ l o', NoDup l.*1 ∧ (∀ r bs, (r, bs) ∈ l ↔ docs !! (d, r) = Some bs) ∧
    docs_session docs p o' ∧ others_keep DocData o o').
Proof.
  intros [Hp (pg & c & ci & s0 & Hs & Hd)]. unfold list_documents. apply runs_bind.
  eapply runs_intro; [by eapply session_list|]. apply runs_bind.
  eapply runs_weaken; [eapply (latest_documents_runs docs); [exact Hs|]|].
  - intros q Hq%elem_of_sorted_ids. rewrite <-(da_tracked _ _ _ _ Hd), elem_of_dom in Hq. destruct Hq as [key Hq].
    destruct (da_page _ _ _ _ Hd q key Hq) as (_ & d' & r' & e & -> & He & <-).
    destruct (docs_entry _ _ _ _ _ _ _ Hd He) as (bs & enc & Hbs & _ & Henc & Hpg & _). exists d', r', bs, enc. done.
  - intros L o1 (Hs1 & Ho1 & Hor & Hall). apply runs_ret. split_and!; [apply NoDup_fst_map_to_list| |split; [done|by eexists _, _, _, _]|done].
    intros r bs. rewrite elem_of_map_to_list. pose proof (da_doc _ _ _ _ Hd d r) as Hdr.
    destruct (docs !! (d, r)) as [bs'|] eqn:Hbs.
    + destruct Hdr as (e & enc & He & Hid & Henc & Hpg). rewrite (Hall (ie_page_id e) r), Hbs; [done| |by exists bs', enc].
      apply elem_of_sorted_ids. rewrite <-(da_tracked _ _ _ _ Hd). by eapply elem_of_dom_2.
    + destruct (Hor r) as [->| ->]; [by rewrite lookup_empty|]. by rewrite Hbs.
Qed.

Inductive document_op :=
  | DInsert (d r : string) (bs : bytes)
  | DDelete (d r : string)
  | DGet (d r : string)
  | DList (d : string).

Definition document_run (op : document_op) : SM (opfs D) VaultSyncError unit :=
  match op with
  | DInsert d r bs => insert_document d r bs
  | DDelete d r => delete_document d r
  | DGet d r => get_document d r;; mret tt
  | DList d => list_documents d;; mret tt
  end.
Definition document_effect (docs : gmap doc_key bytes) (op : document_op) : gmap doc_key bytes :=
  match op with
  | DInsert d r bs => <[(d, r) := bs]> docs
  | DDelete d r => delete (d, r) docs
  | DGet _ _ | DList _ => docs
  end.
Definition document_op_fits (op : document_op) : Prop :=
  match op with DInsert d r bs => doc_fits d r bs | _ => True end.

Lemma document_run_ok docs p o op : docs_session docs p o → (p < U64_MAX)%N → document_op_fits op →
  runs (document_run op) o (λ _ o', ∃ p', (p' ≤ p + 1)%N ∧ docs_session (document_effect docs op) p' o').
Proof.
  intros Hd Hmax Hfit. destruct op as [d r bs|d r|d r|d]; cbn [document_run document_effect].
  - eapply runs_weaken; [by apply insert_document_runs|]. intros [] o' [Ho' _]. by exists (p + 1)%N.
  - eapply runs_weaken; [by apply delete_document_runs|]. intros [] o' [Ho' _]. exists p. split; [lia|done].
  - apply runs_bind. eapply runs_weaken; [by apply get_document_runs|]. intros b o' (_ & Ho' & _). apply runs_ret.
    exists p. split; [lia|done].
  - apply runs_bind. eapply runs_weaken; [by apply list_documents_runs|]. intros b o' (_ & _ & Ho' & _). apply runs_ret.
    exists p. split; [lia|done].
Qed.

Lemma document_runs ops docs p o : docs_session docs p o → (p + N.of_nat (length ops) ≤ U64_MAX)%N →
  Forall document_op_fits ops →
  runs (for_each document_run ops) o (λ _ o', ∃ p', docs_session (foldl document_effect docs ops) p' o').
Proof.
  intros Hd Hmax Hfit. eapply runs_weaken.
  { apply (runs_for_each _ ops (λ done o', ∃ p', (p' ≤ p + N.of_nat (length done))%N ∧
      docs_session (foldl document_effect docs done) p' o')); [exists p; split; [simpl; lia|done]|].
    intros done op rest o0 Hops (p0 & Hp0 & Ho0). rewrite foldl_app. eapply runs_weaken.
    - apply document_run_ok; [exact Ho0| |].
      + rewrite Hops, length_app in Hmax. simpl in Hmax. lia.
      + rewrite Hops in Hfit. apply Forall_app in Hfit as [_ Hfit]. by apply Forall_cons in Hfit as [? _].
    - intros [] o1 (p1 & Hp1 & Ho1). exists p1. split; [rewrite length_app; simpl; lia|done]. }
  intros [] o' (p' & _ & Ho'). by exists p'.
Qed.
End document_history.

(** ** Starting a session *)

Section starting.
Context {D : Type} {HO : Opfs D} {HOS : OpfsSpec D} {K : PageCodec} {HK : PageCodecSpec K} {KM : MetaCodec}.
Import OpfsStorage.

(** On empty directories every store is empty, and its first page is 100. *)
Lemma opened_session dirs : (∀ i, fs_works (dirs i) ∧ fs_files (dirs i) = ∅) →
  ∃ o, opfs_new dirs = Ok o ∧ os_runtime o = None ∧ os_metadata o = None ∧
    ∀ i, session i ∅ 0 ContentIndex.new 100 (store i o) o ∧ ps_pending_count (store i o) = 0 ∧
      sm_highest_page_id (ps_manifest (store i o)) = 0%N.
Proof.
  intros Hd. assert (∀ i, ∃ s d' m, PageStore.open (StorageRuntime.store_name i) (dirs i) = (Ok s, d') ∧ store_is ∅ m s ∧
    core m = (0%N, 0%N, ContentIndex.new) ∧ ps_pending_count s = 0 ∧ ps_gc_needed s = false) as Hopen.
  { intros i. destruct (Hd i). by apply open_empty. }
  destruct (Hopen DocData) as (sa & ? & ma & Ha & Ha').
  destruct (Hopen OplogStore) as (sb & ? & mb & Hb & Hb').
  destruct (Hopen SyncStates) as (sc & ? & mc & Hc & Hc').
  destruct (Hopen Schemas) as (sd & ? & md & Hsd & Hd').
  destruct (Hopen Migrations) as (se & ? & me & He & He').
  destruct (Hopen Keys) as (sf & ? & mf & Hf & Hf').
  cbn [StorageRuntime.store_name] in *. unfold opfs_new, pages_open. rewrite Ha, Hb, Hc, Hsd, He, Hf.
  eexists. split; [done|]. split_and!; [done|done|].
  assert (∀ (s : page_store D) m, store_is ∅ m s → core m = (0%N, 0%N, ContentIndex.new) →
    (∃ h, store_has ∅ h 0 ContentIndex.new s s ∧ next_id h = 100%N) ∧ sm_highest_page_id (ps_manifest s) = 0%N) as Hs.
  { intros s m Hs Hm. split.
    - exists 0%N. split; [|done]. split; [|done]. by exists m.
    - rewrite (si_manifest _ _ _ Hs). by injection Hm. }
  intros []; cbn [store get_store os_pages pd_doc_data pd_oplog pd_sync_states pd_schemas pd_migrations pd_keys];
    (split_and!; [eapply Hs; by intuition eauto|tauto|eapply Hs; by intuition eauto]).
Qed.

Lemma repair_tracked (pd : pages_dir D) i : tracked (sm_content_index (ps_manifest (get_store i pd))) →
  StorageRuntime.on_store i StorageRuntime.repair_store pd = (Ok tt, pd).
Proof.
  intros Ht. unfold StorageRuntime.on_store, zoom, StorageRuntime.repair_store, mbind, sm_bind, sm_gets.
  rewrite (tracked_no_orphans _ Ht). simpl. by destruct pd, i.
Qed.

(** The runtime takes its page numbers from the manifests; the repair finds
    nothing. *)
Lemma start_runtime_runs (o : opfs D) : (∀ i, tracked (sm_content_index (ps_manifest (store i o)))) →
  runs start_runtime o (λ _ o', os_pages o' = os_pages o ∧ os_metadata o' = os_metadata o ∧
    ∃ rt, os_runtime o' = Some rt ∧ sc_queue (rt_scheduler rt) = [] ∧
      rt_page_managers rt = map (λ i, PageManager.new (sm_highest_page_id (ps_manifest (store i o)))) all_stores).
Proof.
  intros Ht. unfold start_runtime, on_pages. apply runs_bind, runs_zoom. unfold StorageRuntime.new.
  apply runs_bind, runs_gets, runs_bind, runs_gets. destruct (StorageRuntime.classify (os_pages o)) as [health n].
  apply runs_bind. eapply runs_intro with (a := tt) (s' := os_pages o).
  - destruct (_ || _); [|done].
    assert (∀ l, for_each (λ i, StorageRuntime.on_store i StorageRuntime.repair_store) l (os_pages o) = (Ok tt, os_pages o)) as Hl.
    { induction l as [|i l IH]; [done|]. cbn [for_each]. by rewrite (sm_bind_ok _ _ _ _ _ (repair_tracked (os_pages o) i (Ht i))). }
    apply Hl.
  - apply runs_ret. apply runs_modify. by eauto 10.
Qed.

(** A session after the start of the runtime. *)
Lemma started_session (o o' : opfs D) rt i pg c ci p s0 : session i pg c ci p s0 o →
  os_pages o' = os_pages o → os_runtime o' = Some rt → sc_queue (rt_scheduler rt) = [] →
  rt_page_managers rt = map (λ i, PageManager.new (sm_highest_page_id (ps_manifest (store i o)))) all_stores →
  session i pg c ci (next_id (sm_highest_page_id (ps_manifest (store i o)))) s0 o'.
Proof.
  intros (h & Hs & _) Hpages Hrt Hq Hpms. exists h. split; [unfold store; by rewrite Hpages|].
  unfold allocates. rewrite Hrt. split; [done|]. rewrite Hpms.
  exists (PageManager.new (sm_highest_page_id (ps_manifest (store i o)))). by destruct i.
Qed.

(** A new database, with its runtime. *)
Lemma new_database dirs : (∀ i, fs_works (dirs i) ∧ fs_files (dirs i) = ∅) →
  ∃ o, opfs_new dirs = Ok o ∧ runs start_runtime o (λ _ o', os_metadata o' = None ∧ is_Some (os_runtime o') ∧ ∀ i,
    session i ∅ 0 ContentIndex.new 100 (store i o) o' ∧ ps_pending_count (store i o) = 0 ∧ highest i o' = 0%N).
Proof.
  intros Hd. destruct (opened_session dirs Hd) as (o & Ho & _ & Hmd & Hall). exists o. split; [done|].
  eapply runs_weaken; [apply start_runtime_runs|].
  - intros i. destruct (Hall i) as [Hs _]. apply session_index in Hs as [-> _]. apply tracked_new.
  - intros [] o' (Hpages & Hmd' & rt & Hrt & Hq & Hpms). split_and!; [congruence|by eexists|]. intros i. destruct (Hall i) as (Hs & Hn & Hh).
    split_and!; [|done|unfold highest, store; by rewrite Hpages]. pose proof (started_session o o' rt i _ _ _ _ _ Hs Hpages Hrt Hq Hpms) as Hs'. by rewrite Hh in Hs'.
Qed.

(** The empty document store of a new database. *)
Lemma new_documents dirs : (∀ i, fs_works (dirs i) ∧ fs_files (dirs i) = ∅) →
  ∃ o0, opfs_new dirs = Ok o0 ∧ docs_session ∅ 100 o0 ∧ runs start_runtime o0 (λ _ o1, docs_session ∅ 100 o1).
Proof.
  intros Hd. destruct (opened_session dirs Hd) as (o & Ho & _ & _ & Hall).
  destruct (new_database dirs Hd) as (o1 & Ho1 & Hrun). rewrite Ho in Ho1. injection Ho1 as <-.
  exists o. split; [done|]. split.
  - split; [done|]. destruct (Hall DocData) as [Hs _]. eexists _, _, _, _. split; [exact Hs|apply docs_none].
  - eapply runs_weaken; [exact Hrun|]. intros [] o' (_ & _ & Hall'). destruct (Hall' DocData) as [Hs _]. split; [done|].
    eexists _, _, _, _. split; [exact Hs|apply docs_none].
Qed.

(** C27: In a browser that works, a session of the browser storage whose page
    numbers are fresh is a map from documents to their bytes: every history of
    insertions that fit a page, deletions and reads succeeds, with the runtime's
    page numbers and queue or without, and then each document reads as the history
    left it and [list_documents] lists exactly the documents of its collection.
    The page numbers are fresh if the next one is above the page of every
    document.  That is so for the empty database that is created in empty
    directories, with the runtime started or not, and stays so throughout its
    first session; it is not so for a database with documents that is opened again
    with the runtime, whose counter starts over and overwrites them. *)
Theorem browser_documents_refine_map ops docs p o :
  (∀ dirs, (∀ i, fs_works (dirs i) ∧ fs_files (dirs i) = ∅) →
   ∃ o0, opfs_new dirs = Ok o0 ∧ docs_session ∅ 100 o0 ∧ runs start_runtime o0 (λ _ o1, docs_session ∅ 100 o1)) ∧
  (docs_session docs p o → (p + N.of_nat (length ops) ≤ U64_MAX)%N → Forall document_op_fits ops →
   runs (for_each document_run ops) o (λ _ o',
    (∀ d r, runs (get_document d r) o' (λ b _, b = foldl document_effect docs ops !! (d, r))) ∧
    (∀ d, runs (list_documents d) o' (λ l _, NoDup l.*1 ∧
       ∀ r bs, (r, bs) ∈ l ↔ foldl document_effect docs ops !! (d, r) = Some bs)))).
Proof.
  split; [apply new_documents|]. intros Hd Hmax Hfit. eapply runs_weaken; [by eapply document_runs|].
  intros [] o' (p' & Ho'). split.
  - intros d r. eapply runs_weaken; [by apply get_document_runs|]. by intros b o2 [-> _].
  - intros d. eapply runs_weaken; [by apply list_documents_runs|]. by intros l o2 (Hn & Hl & _).
Qed.
End starting.

(** ** The invariants the engine checks *)

Section invariants.
Context {D : Type} `{Opfs D} {K : PageCodec}.

Definition all_tracked (pd : pages_dir D) : Prop := ∀ i, store_tracked (get_store i pd).

(** An operation on one of the stores, whatever its outcome. *)
Definition engine_step (pd : pages_dir D) (step : store_id * store_op) : pages_dir D :=
  (StorageRuntime.on_store step.1 (store_run step.2) pd).2.

Lemma engine_step_tracked pd step : all_tracked pd → all_tracked (engine_step pd step).
Proof.
  destruct step as [i op]. intros Hpd j. unfold engine_step, StorageRuntime.on_store, zoom. simpl.
  destruct (store_run op (get_store i pd)) as [r s] eqn:Hr. simpl. destruct (decide (i = j)) as [->|Hij].
  - rewrite get_set_store. by apply (store_run_tracked op _ _ _ Hr).
  - by rewrite get_set_other.
Qed.

Lemma store_violations_none name (s : page_store D) : store_tracked s → StorageRuntime.store_violations name s = [].
Proof.
  intros Hs. unfold StorageRuntime.store_violations. unfold store_tracked, tracked in Hs. rewrite <-Hs, size_dom, Nat.eqb_refl, app_nil_r.
  assert (∀ l, (∀ q, q ∈ l → q ∈ dom (ci_page_by_id (sm_content_index (ps_manifest s)))) → omap (λ q,
    if bool_decide (q ∈ dom (ci_page_by_id (sm_content_index (ps_manifest s)))) || bool_decide (q ∈ ci_tombstoned_pages (sm_content_index (ps_manifest s)))
    then None else Some (name, "page_by_id_orphan")) l = []) as Hall.
  { induction l as [|q l IH]; intros Hl; [done|]. cbn. rewrite (bool_decide_eq_true_2 _ (Hl q (list_elem_of_here _ _))). apply IH.
    intros q' Hq'. apply Hl. by right. }
  apply Hall. intros q. by rewrite elem_of_sorted_ids.
Qed.

(** The invariants the engine verifies at startup always hold: over any
    sequence of the operations of the six stores, whichever of them fail and
    wherever, every indexed page is live and the index has as many pages as
    there are live ones. *)
Theorem engine_invariants_hold steps pd : all_tracked pd →
  StorageRuntime.verify_engine_invariants (foldl engine_step pd steps) = [].
Proof.
  intros Hpd. assert (all_tracked (foldl engine_step pd steps)) as Hall.
  { revert pd Hpd. induction steps as [|step steps IH]; intros pd Hpd; [done|]. by apply IH, engine_step_tracked. }
  unfold StorageRuntime.verify_engine_invariants. induction all_stores as [|i l IH]; [done|]. simpl.
  by rewrite (store_violations_none _ _ (Hall i)).
Qed.
End invariants.

(** ** Witnesses *)

Definition empty_dirs (_ : store_id) : disk := empty_dir.

Lemma empty_dirs_work i : fs_works (empty_dirs i) ∧ fs_files (empty_dirs i) = ∅.
Proof. done. Qed.

Definition sample_ops : list document_op :=
  [DInsert "todos" "a" [1%N]; DInsert "todos" "b" [2%N]; DInsert "todos" "a" [3%N]; DDelete "todos" "b"; DList "todos"].

Lemma sample_ops_fit : Forall document_op_fits sample_ops.
Proof.
  unfold sample_ops. repeat (apply Forall_cons; split); try exact I; try (apply Forall_nil; exact I);
    intros enc [= <-]; (split; [vm_compute; discriminate|vm_compute; lia]).
Qed.

Lemma browser_documents_refine_map_witness :
  ∃ o, runs (for_each document_run sample_ops) o (λ _ o',
    ∀ d r, runs (OpfsStorage.get_document d r) o' (λ b _, b = foldl document_effect ∅ sample_ops !! (d, r))).
Proof.
  destruct (new_database empty_dirs empty_dirs_work) as (o & _ & [] & o1 & _ & _ & _ & Hall). exists o1.
  destruct (Hall DocData) as [Hs _].
  assert (docs_session ∅ 100 o1) as Hd by (split; [done|]; eexists _, _, _, _; split; [exact Hs|apply docs_none]).
  eapply runs_weaken; [apply (proj2 (browser_documents_refine_map sample_ops ∅ 100 o1) Hd)|].
  - vm_compute. discriminate.
  - apply sample_ops_fit.
  - intros [] o2 [Hget _]. exact Hget.
Defined.

(** Six new stores of a browser in which every third file operation fails. *)
Definition failing_dir : disk := Disk ∅ 0 [FRuns; FRuns; FFails true "QuotaExceededError"; FRuns; FRuns; FFails false "InvalidStateError"].
Definition failing_pages : pages_dir disk :=
  let s := opened_with "store" (StoreManifest_new 2 0 0 0 0 0 0 0 0 0 ContentIndex.new 0 1) failing_dir in PagesDir s s s s s s.

Lemma engine_invariants_hold_witness :
  StorageRuntime.verify_engine_invariants (foldl engine_step failing_pages
    [(DocData, PAllocate); (DocData, PWrite 100 [1%N]); (OplogStore, PRotate); (DocData, PTombstone 100); (OplogStore, PCleanup)]) = [].
Proof. apply engine_invariants_hold. intros []; apply tracked_new. Defined.

(** ** What a restart and large documents lose

    A restart takes page numbers from a counter that was not advanced, and a
    document may be too large for a page. *)

Section restart.
Context {D : Type} {HO : Opfs D} {HOS : OpfsSpec D} {K : PageCodec} {HK : PageCodecSpec K} {KM : MetaCodec}.
Import OpfsStorage.

(** The directories a session leaves. *)
Definition dirs_of (o : opfs D) (i : store_id) : D := ps_dir (store i o).

Lemma reopen_store pg m (s : page_store D) name : store_is pg m s →
  ∃ s' d', PageStore.open name (ps_dir s) = (Ok s', d') ∧
    ∀ pg m, store_is pg m s → store_is pg (sealed m) s'.
Proof.
  intros Hs. destruct (reopen_runs pg m name (ps_dir s)) as (s' & d' & Ho & _); [apply Hs|apply Hs|].
  exists s', d'. split; [done|]. intros pg' m' Hs'.
  destruct (reopen_runs pg' m' name (ps_dir s)) as (s2 & d2 & Ho2 & Hs2 & _); [apply Hs'|apply Hs'|].
  rewrite Ho in Ho2. by injection Ho2 as <- <-.
Qed.

Lemma session_store_is i pg c ci p s0 (o : opfs D) : session i pg c ci p s0 o →
  ∃ m, store_is pg m (store i o) ∧ core m = (highest i o, c, ci).
Proof.
  intros (h & Hs & _). pose proof (has_highest _ _ _ _ _ _ Hs) as Hh. destruct Hs as [(m & Hm & Hcore) _].
  exists m. split; [done|]. unfold highest. by rewrite Hh.
Qed.

(** Opening the directories again finds every store as it was; its next page is
    the one its manifest counts. *)
Lemma reopened_session (o : opfs D) : (∀ i, ∃ pg c ci p s0, session i pg c ci p s0 o) →
  ∃ o2, opfs_new (dirs_of o) = Ok o2 ∧ ∀ i pg c ci p s0, session i pg c ci p s0 o →
    highest i o2 = highest i o ∧ session i pg c ci (next_id (highest i o)) (store i o2) o2.
Proof.
  intros Hall. assert (∀ i, ∃ s d', PageStore.open (StorageRuntime.store_name i) (dirs_of o i) = (Ok s, d') ∧
    ∀ pg m, store_is pg m (store i o) → store_is pg (sealed m) s) as Hopen.
  { intros i. destruct (Hall i) as (pg & c & ci & p & s0 & Hs). destruct (session_store_is _ _ _ _ _ _ _ Hs) as (m & Hm & _).
    by eapply reopen_store. }
  destruct (Hopen DocData) as (sa & ? & Ha & Ha'). destruct (Hopen OplogStore) as (sb & ? & Hb & Hb').
  destruct (Hopen SyncStates) as (sc & ? & Hc & Hc'). destruct (Hopen Schemas) as (sd & ? & Hd & Hd').
  destruct (Hopen Migrations) as (se & ? & He & He'). destruct (Hopen Keys) as (sf & ? & Hf & Hf').
  cbn [StorageRuntime.store_name] in *. unfold opfs_new, pages_open. rewrite Ha, Hb, Hc, Hd, He, Hf.
  eexists. split; [done|]. intros i pg c ci p s0 Hs. destruct (session_store_is _ _ _ _ _ _ _ Hs) as (m & Hm & Hcore).
  set (o2 := Opfs_mk _ None None).
  assert (store_is pg (sealed m) (store i o2)) as Hm2 by (subst o2; destruct i; simpl; auto).
  assert (store_has pg (highest i o) c ci (store i o2) (store i o2)) as Hhas.
  { split; [|done]. exists (sealed m). split; [done|]. by rewrite core_sealed. }
  split; [exact (has_highest _ _ _ _ _ _ Hhas)|]. by exists (highest i o).
Qed.

Lemma docs_session_index docs p (o : opfs D) : docs_session docs p o →
  tracked (sm_content_index (ps_manifest (store DocData o))).
Proof. intros [_ (pg & c & ci & s0 & Hs & Hd)]. apply session_index in Hs as [-> _]. apply Hd. Qed.

(** The next page number is one that a document has. *)
Lemma insert_over_page pg c ci p s0 (o : opfs D) dA rA dB rB bs e : session DocData pg c ci p s0 o →
  (100 ≤ p < U64_MAX)%N → (dA, rA) ≠ (dB, rB) → ci_entries ci !! KDocument dA rA = Some e → ie_page_id e = p →
  ci_entries ci !! KDocument dB rB = None → by_document (ci_page_by_document ci) dB rB = None → doc_fits dB rB bs →
  runs (insert_document dB rB bs;; get_document dA rA) o (λ r _, r = Some bs).
Proof.
  intros Hs Hp Hne HA Hpage HB HBd Hfit. destruct (to_allocvec_ok (DocEntry_new dB rB bs)) as [enc Henc].
  pose proof (session_lookup _ _ _ _ _ o dB rB Hs) as HlookB. apply runs_bind. unfold insert_document, tombstone_existing_doc_pages.
  apply runs_bind, runs_bind. eapply runs_intro; [exact HlookB|]. rewrite HB, HBd. apply runs_ret.
  apply runs_bind. eapply runs_weaken; [by eapply session_allocate|]. intros q o1 (-> & Hs1 & _).
  apply runs_bind. unfold encode, lift. rewrite Henc. eapply runs_intro; [done|].
  apply runs_bind. eapply runs_weaken; [by eapply session_write, Hfit|]. intros [] o2 (Hs2 & _).
  eapply runs_weaken; [by eapply session_update|]. intros [] o3 (e' & He' & Hs3 & _).
  unfold get_document. apply runs_bind. eapply runs_intro; [exact (session_lookup _ _ _ _ _ o3 dA rA Hs3)|].
  assert (KDocument dB rB ≠ KDocument dA rA) as Hkey by congruence. simpl. rewrite (lookup_insert_ne _ _ _ _ Hkey), HA.
  apply runs_bind. eapply runs_weaken; [by eapply session_read|]. intros data o4 (-> & _). apply runs_ret.
  rewrite Hpage, lookup_insert_eq. pose proof (from_to_postcard _ _ [] Henc) as Hdec. rewrite app_nil_r in Hdec. by rewrite Hdec.
Qed.

Lemma runtime_restarts (o : opfs D) : (∀ i, ∃ pg c ci p s0, session i pg c ci p s0 o ∧ tracked ci) →
  ∃ o2, opfs_new (dirs_of o) = Ok o2 ∧ runs start_runtime o2 (λ _ o3, ∀ i pg c ci p s0,
    session i pg c ci p s0 o → ∃ s1, session i pg c ci (next_id (highest i o)) s1 o3).
Proof.
  intros Hall. destruct (reopened_session o) as (o2 & Ho2 & Hs2).
  { intros i. destruct (Hall i) as (pg & c & ci & p & s0 & Hs & _). by eexists _, _, _, _, _. }
  exists o2. split; [done|]. eapply runs_weaken; [apply start_runtime_runs|].
  - intros i. destruct (Hall i) as (pg & c & ci & p & s0 & Hs & Ht).
    destruct (Hs2 _ _ _ _ _ _ Hs) as [_ Hs']. apply session_index in Hs' as [-> _]. done.
  - intros [] o3 (Hpages & _ & rt & Hrt & Hq & Hpms) i pg c ci p s0 Hs. destruct (Hs2 _ _ _ _ _ _ Hs) as [Hh Hs'].
    pose proof (started_session o2 o3 rt i _ _ _ _ _ Hs' Hpages Hrt Hq Hpms) as Hs3. eexists.
    unfold highest in Hh at 1. rewrite Hh in Hs3. exact Hs3.
Qed.

(** C36: A page number that the runtime hands out is not recorded in the
    manifest, so after a restart the numbers begin again.  A document [A] is
    written to a new database and reads back; the page is closed and opened
    again, another document [B] is written, and from then on reading [A] returns
    the contents of [B]. *)
Theorem restart_overwrites_document dirs dA rA bsA dB rB bsB :
  (∀ i, fs_works (dirs i) ∧ fs_files (dirs i) = ∅) → (dA, rA) ≠ (dB, rB) → doc_fits dA rA bsA → doc_fits dB rB bsB →
  ∃ o, opfs_new dirs = Ok o ∧
    runs (start_runtime;; insert_document dA rA bsA;; get_document dA rA) o (λ r o1, r = Some bsA ∧
      ∃ o2, opfs_new (dirs_of o1) = Ok o2 ∧
        runs (start_runtime;; insert_document dB rB bsB;; get_document dA rA) o2 (λ r _, r = Some bsB)).
Proof.
  intros Hdirs Hne HfitA HfitB. destruct (new_database dirs Hdirs) as (o & Ho & Hstart). exists o. split; [done|].
  apply runs_bind. eapply runs_weaken; [exact Hstart|]. intros [] o1 (_ & Hrt1 & Hall1).
  assert (docs_session ∅ 100 o1) as Hd1.
  { destruct (Hall1 DocData) as [Hs _]. split; [done|]. eexists _, _, _, _. split; [exact Hs|apply docs_none]. }
  apply runs_bind. eapply runs_weaken; [by apply insert_document_runs|]. intros [] o2 (Hd2 & Hk2).
  eapply runs_weaken; [by apply get_document_runs|]. intros b o3 (-> & Hd3 & Hk3).
  split; [apply lookup_insert_eq|]. destruct (others_keep_trans _ _ _ _ Hk2 Hk3) as [Hk Hh].
  destruct (Hh Hrt1) as [_ Hh3]. destruct Hd3 as [_ (pg & c & ci & s0 & Hs3 & Hdocs)].
  destruct (runtime_restarts o3) as (o4 & Ho4 & Hrestart).
  { intros i. destruct (decide (i = DocData)) as [->|Hi]; [eexists _, _, _, _, _; split; [exact Hs3|apply Hdocs]|].
    destruct (Hall1 i) as [Hs _]. eexists _, _, _, _, _. split; [by eapply Hk|apply tracked_new]. }
  exists o4. split; [done|]. apply runs_bind. eapply runs_weaken; [exact Hrestart|]. intros [] o5 Hs5.
  destruct (Hs5 _ _ _ _ _ _ Hs3) as [s1 Hs]. destruct (Hall1 DocData) as (_ & _ & Hzero). rewrite Hh3, Hzero in Hs.
  pose proof (da_doc _ _ _ _ Hdocs dA rA) as HA. rewrite lookup_insert_eq in HA. destruct HA as (e & enc & He & Hid & _).
  destruct (da_page _ _ _ _ Hdocs _ _ Hid) as [Hrange _].
  pose proof (da_doc _ _ _ _ Hdocs dB rB) as HB. rewrite lookup_insert_ne, lookup_empty in HB by done.
  eapply (insert_over_page pg c ci 100 s1 o5 dA rA dB rB bsB e); [exact Hs|done|done|done| |done| |done].
  - change (next_id 0) with 100%N in *. lia.
  - by rewrite (da_by_document _ _ _ _ Hdocs).
Qed.
End restart.

(** ** Witnesses *)

Lemma doc_fits_a : doc_fits "todos" "a" [1%N].
Proof. intros enc [= <-]. split; [vm_compute; discriminate|vm_compute; lia]. Qed.
Lemma doc_fits_b : doc_fits "todos" "b" [2%N].
Proof. intros enc [= <-]. split; [vm_compute; discriminate|vm_compute; lia]. Qed.

Lemma restart_overwrites_document_witness :
  ∃ o, opfs_new empty_dirs = Ok o ∧
    runs (OpfsStorage.start_runtime;; OpfsStorage.insert_document "todos" "a" [1%N];; OpfsStorage.get_document "todos" "a") o
      (λ r o1, r = Some [1%N] ∧ ∃ o2, opfs_new (dirs_of o1) = Ok o2 ∧
        runs (OpfsStorage.start_runtime;; OpfsStorage.insert_document "todos" "b" [2%N];; OpfsStorage.get_document "todos" "a") o2
          (λ r _, r = Some [2%N])).
Proof.
  apply (restart_overwrites_document empty_dirs "todos" "a" [1%N] "todos" "b" [2%N] empty_dirs_work);
    [discriminate|apply doc_fits_a|apply doc_fits_b].
Defined.
