(* ===== verification/OpfsLogTheory.v ===== *)
(** * The log of the browser storage

    The log is written as pages of entries that are resolved at every read:
    the current page, then the later pages, then the earlier ones, each
    overriding by the id of the entry.  Before the first compaction, and after
    its files are collected, that is a map from ids to entries; in between,
    what is read is not what was written. *)
From S2P Require Import Prelude Text Types Storage Opfs PageStore OpfsStorage PageWire PageStoreTheory OpfsStorageTheory.

(** ** Sorted page numbers *)

Lemma N_le_sorted_unique (l k : list N) : StronglySorted N.le l → StronglySorted N.le k → l ≡ₚ k → l = k.
Proof.
  intros Hl Hk Hp. by apply (StronglySorted_unique N.le).
Qed.

Lemma sorted_ids_sorted X : StronglySorted N.le (sorted_ids X).
Proof. apply stable_sort_sorted; apply _. Qed.

Lemma sorted_ids_add p X : (∀ q, q ∈ X → (q < p)%N) → sorted_ids ({[p]} ∪ X) = sorted_ids X ++ [p].
Proof.
  intros HX. apply N_le_sorted_unique; [apply sorted_ids_sorted| |].
  - pose proof (sorted_ids_sorted X) as Hs.
    assert (∀ q, q ∈ sorted_ids X → (q ≤ p)%N) as Hle by (intros q Hq%elem_of_sorted_ids; apply N.lt_le_incl; auto).
    induction Hs as [|q l Hs IH Hq]; simpl; [by repeat constructor|]. constructor.
    + apply IH. intros x Hx. apply Hle. by right.
    + apply Forall_app. split; [done|]. apply Forall_singleton, Hle. by left.
  - unfold sorted_ids. rewrite !stable_sort_Permutation. rewrite elements_union_singleton, Permutation_cons_append; [done|].
    intros Hp%HX. lia.
Qed.

Lemma sorted_sort (X : gset N) : stable_sort N.le (sorted_ids X) = sorted_ids X.
Proof. apply stable_sort_id, sorted_ids_sorted. Qed.

Lemma sorted_filter f (X : gset N) : stable_sort N.le (filterb f (sorted_ids X)) = filterb f (sorted_ids X).
Proof.
  apply stable_sort_id. pose proof (sorted_ids_sorted X) as Hs. induction Hs as [|q l Hs IH Hq]; simpl; [constructor|].
  unfold filterb in *. simpl. destruct (f q); [|done]. constructor; [done|].
  apply Forall_forall. intros x [_ Hx]%(elem_of_filterb f l x). by eapply Forall_forall in Hq.
Qed.

(** ** Resolution *)

Section resolution.
Context {K : PageCodec}.

Definition page_entries (chunk : bytes → list OplogEntry) (pg : gmap PageId bytes) (q : PageId) : list OplogEntry :=
  match pg !! q with Some data => chunk data | None => [] end.

(** The entries in the order they are seen. *)
Definition chain_entries (pg : gmap PageId bytes) (c : PageId) (ids : list PageId) : list OplogEntry :=
  (if (0 <? c)%N then page_entries base_chunk pg c else []) ++
  concat (map (page_entries delta_chunk pg)
    (if (0 <? c)%N then filterb (λ id, c <? id)%N ids ++ filterb (λ id, id <? c)%N ids else ids)).

Definition log_of (pg : gmap PageId bytes) (c : PageId) (ids : list PageId) : gmap string OplogEntry :=
  match ids with [] => ∅ | _ => foldl see ∅ (chain_entries pg c ids) end.

(** An entry is found under its id. *)
Definition keyed (log : gmap string OplogEntry) : Prop := ∀ k e, log !! k = Some e → oe_id e = k.

Lemma keyed_see log e : keyed log → keyed (see log e).
Proof. intros Hl k e'. unfold see. intros [[<- <-]|[_ Hk]]%lookup_insert_Some; auto. Qed.

Lemma keyed_foldl l log : keyed log → keyed (foldl see log l).
Proof. revert log. induction l as [|e l IH]; intros log Hl; [done|]. apply IH. by apply keyed_see. Qed.

Lemma keyed_log_of pg c ids : keyed (log_of pg c ids).
Proof. unfold log_of. destruct ids; [done|]. by apply keyed_foldl. Qed.

Definition log_list (log : gmap string OplogEntry) : list OplogEntry := map snd (map_to_list log).

Lemma elem_of_log_list log e : keyed log → e ∈ log_list log ↔ log !! oe_id e = Some e.
Proof.
  intros Hl. unfold log_list. rewrite list_elem_of_fmap. split.
  - intros ([k e'] & -> & Hk%elem_of_map_to_list). simpl. by rewrite (Hl _ _ Hk).
  - intros He. exists (oe_id e, e). by rewrite elem_of_map_to_list.
Qed.

Lemma log_list_insert log e : log !! oe_id e = None → log_list (see log e) ≡ₚ e :: log_list log.
Proof. intros Hn. unfold log_list, see. by rewrite map_to_list_insert. Qed.


(** At most one entry has an id. *)
Lemma log_list_id log id : keyed log →
  filterb (has_id id) (log_list log) = match log !! id with Some e => [e] | None => [] end.
Proof.
  intros Hl. destruct (log !! id) as [e|] eqn:He.
  - pose proof (Hl _ _ He) as <-. assert (log_list log ≡ₚ e :: log_list (delete (oe_id e) log)) as Hp.
    { rewrite <-(insert_delete_id log (oe_id e) e He) at 1. apply (log_list_insert (delete (oe_id e) log) e), lookup_delete_eq. }
    apply (filterb_Permutation (has_id (oe_id e))) in Hp. apply Permutation_singleton_r. rewrite Hp.
    unfold filterb. simpl. unfold has_id at 1. rewrite bool_decide_eq_true_2 by done. constructor.
    fold (filterb (has_id (oe_id e)) (log_list (delete (oe_id e) log))). rewrite filterb_none; [done|].
    intros e' He'. apply bool_decide_eq_false. intros Heq. apply elem_of_log_list in He'.
    + by rewrite Heq, lookup_delete_eq in He'.
    + intros k x [_ Hx]%lookup_delete_Some. by apply Hl.
  - apply filterb_none. intros e Hin%elem_of_log_list; [|done]. apply bool_decide_eq_false. congruence.
Qed.

Lemma foldl_concat {A B} (f : A → B → A) (ls : list (list B)) (a : A) :
  foldl (λ a l, foldl f a l) a ls = foldl f a (concat ls).
Proof. revert a. induction ls as [|l ls IH]; intros a; [done|]. simpl. by rewrite foldl_app, IH. Qed.
End resolution.

Section reading.
Context {D : Type} {HO : Opfs D} {HOS : OpfsSpec D} {K : PageCodec} {HK : PageCodecSpec K} {KM : MetaCodec}.
Import OpfsStorage.

Lemma resolve_page_runs pg h c ci s0 (s : page_store D) chunk q seen : store_has pg h c ci s0 s →
  runs (resolve_page chunk q seen) s (λ seen' s', seen' = foldl see seen (page_entries chunk pg q) ∧ store_has pg h c ci s0 s').
Proof.
  intros Hs. unfold resolve_page. apply runs_bind, runs_try_ok. eapply runs_weaken; [by eapply read_has_runs|].
  intros r s' [-> Hs']. apply runs_ret. unfold page_entries. by destruct (pg !! q).
Qed.

Lemma resolve_pages_runs pg h c ci s0 (s : page_store D) ids seen : store_has pg h c ci s0 s →
  runs (resolve_pages ids seen) s (λ seen' s',
    seen' = foldl see seen (concat (map (page_entries delta_chunk pg) ids)) ∧ store_has pg h c ci s0 s').
Proof.
  revert seen s. induction ids as [|q ids IH]; intros seen s Hs; cbn [resolve_pages]; [by apply runs_ret|].
  apply runs_bind. eapply runs_weaken; [by apply resolve_page_runs|]. intros seen' s1 [-> Hs1].
  eapply runs_weaken; [by apply IH|]. intros seen2 s2 [-> Hs2]. simpl. by rewrite foldl_app.
Qed.

Lemma resolve_runs pg h c ci s0 (s : page_store D) base deltas orphans : store_has pg h c ci s0 s →
  runs (resolve base deltas orphans) s (λ l s', store_has pg h c ci s0 s' ∧
    l = log_list (foldl see ∅ ((if (0 <? base)%N then page_entries base_chunk pg base else []) ++
      concat (map (page_entries delta_chunk pg) (stable_sort N.le deltas ++ stable_sort N.le orphans))))).
Proof.
  intros Hs. unfold resolve. apply runs_bind. eapply (runs_weaken _ _ (λ seen s', store_has pg h c ci s0 s' ∧
    seen = foldl see ∅ (if (0 <? base)%N then page_entries base_chunk pg base else []))).
  { destruct (0 <? base)%N; [|by apply runs_ret]. eapply runs_weaken; [by apply resolve_page_runs|]. by intros ? ? [-> ?]. }
  intros seen s1 [Hs1 ->]. apply runs_bind. eapply runs_weaken; [by apply resolve_pages_runs|]. intros seen s2 [-> Hs2].
  apply runs_bind. eapply runs_weaken; [by apply resolve_pages_runs|]. intros seen s3 [-> Hs3]. apply runs_ret.
  split; [done|]. by rewrite map_app, concat_app, !foldl_app.
Qed.

Lemma read_all_runs pg h c ci s0 (s : page_store D) : store_has pg h c ci s0 s →
  runs read_all_oplog_entries s (λ l s', l = log_list (log_of pg c (sorted_ids (ci_live_pages ci))) ∧ store_has pg h c ci s0 s').
Proof.
  intros Hs. unfold read_all_oplog_entries. apply runs_bind. eapply runs_weaken; [by eapply current_page_runs|].
  intros cur s1 [-> Hs1]. apply runs_bind. unfold PageStore.list_page_ids. apply runs_gets.
  assert (sm_content_index (ps_manifest s1) = ci) as ->.
  { destruct Hs1 as [(m & [_ Hm _] & Hcore) _]. rewrite Hm. by injection Hcore. }
  rewrite sorted_sort. unfold log_of, chain_entries.
  destruct (sorted_ids (ci_live_pages ci)) as [|id ids] eqn:Hids; [by apply runs_ret|]. rewrite <-Hids.
  destruct (0 <? c)%N eqn:Hc.
  - eapply runs_weaken; [by apply resolve_runs|]. intros l s2 [Hs2 ->]. by rewrite Hc, !sorted_filter.
  - eapply runs_weaken; [by apply resolve_runs|]. intros l s2 [Hs2 ->]. split; [|done]. by rewrite sorted_sort, app_nil_r.
Qed.

(** The entries of a session, as every reader sees them. *)
Definition log_read (pg : gmap PageId bytes) (c : PageId) (ci : ContentIndex) : gmap string OplogEntry :=
  log_of pg c (sorted_ids (ci_live_pages ci)).

Lemma session_read_all pg c ci p s0 (o : opfs D) : session OplogStore pg c ci p s0 o →
  runs (on_store OplogStore read_all_oplog_entries) o (λ l o', l = log_list (log_read pg c ci) ∧
    session OplogStore pg c ci p s0 o' ∧ others_keep OplogStore o o').
Proof.
  intros Hs. apply (session_store _ _ _ _ _ _ _ _ (λ l, l = log_list (log_read pg c ci)) _ _ _ Hs).
  intros h s. apply read_all_runs.
Qed.

(** *** The counter and the flag *)

Lemma has_set_count pg h c ci s0 (s : page_store D) n : store_has pg h c ci s0 s →
  store_has pg h c ci (PageStore.set_count n s0) (PageStore.set_count n s).
Proof. intros [(m & [[Hd Hc Ha] Hm Hdisk] & Hcore) [Hg Hn]]. split; [|done]. exists m. split; [|done]. by split. Qed.
Lemma has_set_gc pg h c ci s0 (s : page_store D) b : store_has pg h c ci s0 s →
  store_has pg h c ci (PageStore.set_gc b s0) (PageStore.set_gc b s).
Proof. intros [(m & [[Hd Hc Ha] Hm Hdisk] & Hcore) [Hg Hn]]. split; [|done]. exists m. split; [|done]. by split. Qed.

Lemma session_modify i pg c ci p s0 (o : opfs D) f s1 : session i pg c ci p s0 o →
  (∀ h s, store_has pg h c ci s0 s → store_has pg h c ci s1 (f s)) →
  runs (on_store i (sm_modify f)) o (λ _ o', session i pg c ci p s1 o' ∧ others_keep i o o').
Proof.
  intros (h & Hs & Ha) Hf. apply runs_on_store, runs_modify. pose proof (Hf _ _ Hs) as Hs'. split.
  - exists h. split; [|done]. unfold store, put_store. simpl. by rewrite get_set_store.
  - apply put_store_keeps. intros _. rewrite (has_highest _ _ _ _ _ _ Hs'). symmetry. exact (has_highest _ _ _ _ _ _ Hs).
Qed.

(** [saturating_add] and [saturating_sub]. *)
Definition adjusted (delta : Z) (n : nat) : nat :=
  if (0 <=? delta)%Z then (n + Z.to_nat delta)%nat else (n - Z.to_nat (- delta))%nat.

Lemma session_adjust pg c ci p s0 (o : opfs D) delta : session OplogStore pg c ci p s0 o →
  runs (adjust_oplog_pending_count delta) o (λ _ o',
    session OplogStore pg c ci p (PageStore.set_count (adjusted delta (ps_pending_count s0)) s0) o' ∧ others_keep OplogStore o o').
Proof.
  intros Hs. apply (session_modify _ _ _ _ _ s0); [done|]. intros h s Hh. pose proof Hh as [_ [_ Hn]].
  unfold adjusted. rewrite Hn. by apply has_set_count.
Qed.

Lemma session_set_count pg c ci p s0 (o : opfs D) n : session OplogStore pg c ci p s0 o →
  runs (on_store OplogStore (PageStore.set_pending_count n)) o (λ _ o',
    session OplogStore pg c ci p (PageStore.set_count n s0) o' ∧ others_keep OplogStore o o').
Proof. intros Hs. apply (session_modify _ _ _ _ _ s0); [done|]. intros h s. apply has_set_count. Qed.

Lemma session_schedule_gc pg c ci p s0 (o : opfs D) : session OplogStore pg c ci p s0 o →
  runs schedule_oplog_gc o (λ _ o',
    session OplogStore pg c ci p (PageStore.set_gc true s0) o' ∧ others_keep OplogStore o o').
Proof. intros Hs. apply (session_modify _ _ _ _ _ s0); [done|]. intros h s. apply has_set_gc. Qed.
End reading.

(** ** The log as a map *)

Section log.
Context {K : PageCodec} {HK : PageCodecSpec K}.

(** The pages resolve to [log]: no page is before the current one. *)
Record log_are (log : gmap string OplogEntry) (pg : gmap PageId bytes) (c : PageId) (ci : ContentIndex) (p : PageId) : Prop := {
  la_tracked : tracked ci;
  la_live q : q ∈ ci_live_pages ci → (100 ≤ q < p)%N;
  la_current : c = 0%N ∨ (c ∈ ci_live_pages ci ∧ ∀ q, q ∈ ci_live_pages ci → (c ≤ q)%N);
  la_log : log_read pg c ci = log;
}.

Lemma log_none : log_are ∅ ∅ 0 ContentIndex.new 100.
Proof. split; [apply tracked_new|intros q Hq; set_solver|by left|done]. Qed.

(** The pages read after the current one. *)
Definition later (c : PageId) (ids : list PageId) : list PageId := if (0 <? c)%N then filterb (λ id, c <? id)%N ids else ids.

Lemma chain_later pg c ids : (c = 0%N ∨ ∀ q, q ∈ ids → (c ≤ q)%N) →
  chain_entries pg c ids = (if (0 <? c)%N then page_entries base_chunk pg c else []) ++
    concat (map (page_entries delta_chunk pg) (later c ids)).
Proof.
  intros Hc. unfold chain_entries, later. destruct (0 <? c)%N eqn:E; [|done]. destruct Hc as [->|Hc]; [done|].
  rewrite (filterb_none (λ id, id <? c)%N), app_nil_r; [done|]. intros q Hq%Hc. by apply N.ltb_ge.
Qed.

Lemma page_entries_other chunk pg p data q : (q < p)%N → page_entries chunk (<[p := data]> pg) q = page_entries chunk pg q.
Proof. intros Hq. unfold page_entries. rewrite lookup_insert_ne by lia. done. Qed.

Definition two_tracks (p : PageId) (ci : ContentIndex) : ContentIndex :=
  ContentIndex.track p (KSequence p) (ContentIndex.track p (KSequence p) ci).

Lemma live_two_tracks p ci : ci_live_pages (two_tracks p ci) = {[p]} ∪ ci_live_pages ci.
Proof. simpl. set_solver. Qed.

(** A new last page is seen after everything before it. *)
Lemma chain_append pg c ids p data : (c < p)%N → (∀ q, q ∈ ids → (q < p)%N) → (c = 0%N ∨ ∀ q, q ∈ ids → (c ≤ q)%N) →
  chain_entries (<[p := data]> pg) c (ids ++ [p]) = chain_entries pg c ids ++ delta_chunk data.
Proof.
  intros Hc Hids Hcur. rewrite !chain_later; [|done|].
  2:{ destruct Hcur as [Hcur|Hcur]; [by left|right]. intros q [Hq| ->%list_elem_of_singleton]%elem_of_app; [auto|lia]. }
  assert (later c (ids ++ [p]) = later c ids ++ [p]) as ->.
  { unfold later. destruct (0 <? c)%N; [|done]. rewrite filterb_app. f_equal. unfold filterb. simpl.
    by rewrite (proj2 (N.ltb_lt c p)). }
  assert (∀ q, q ∈ later c ids → (q < p)%N) as Hlater.
  { intros q Hq. apply Hids. unfold later in Hq. destruct (0 <? c)%N; [by apply elem_of_filterb in Hq as [_ ?]|done]. }
  rewrite map_app, concat_app, page_entries_other by done. rewrite <-app_assoc. f_equal. f_equal.
  - f_equal. apply map_ext_in. intros q Hq. apply page_entries_other, Hlater, list_elem_of_In, Hq.
  - simpl. unfold page_entries. by rewrite lookup_insert_eq, app_nil_r.
Qed.

Lemma log_append log pg c ci p data : log_are log pg c ci p → (100 ≤ p)%N →
  log_are (foldl see log (delta_chunk data)) (<[p := data]> pg) c (two_tracks p ci) (p + 1).
Proof.
  intros [Ht Hlive Hcur Hlog] Hp. assert (c < p)%N as Hcp.
  { destruct Hcur as [->|[Hc _]]; [lia|]. apply Hlive in Hc. lia. }
  split.
  - by do 2 apply tracked_track.
  - intros q. rewrite live_two_tracks. intros [->%elem_of_singleton|Hq%Hlive]%elem_of_union; lia.
  - destruct Hcur as [->|[Hc Hmin]]; [by left|right]. rewrite live_two_tracks. split; [set_solver|].
    intros q [->%elem_of_singleton|Hq%Hmin]%elem_of_union; lia.
  - unfold log_read in *. rewrite live_two_tracks, sorted_ids_add by (intros q Hq%Hlive; lia).
    unfold log_of in *. rewrite chain_append; [|done|intros q Hq%elem_of_sorted_ids%Hlive; lia|].
    + destruct (sorted_ids (ci_live_pages ci)) as [|id ids] eqn:Hids; simpl.
      * subst log. rewrite foldl_app. f_equal. assert (c = 0%N) as ->; [|done].
        destruct Hcur as [->|[Hc%elem_of_sorted_ids _]]; [done|]. by rewrite Hids in Hc; apply elem_of_nil in Hc.
      * rewrite <-Hlog. by rewrite foldl_app.
    + destruct Hcur as [->|[_ Hmin]]; [by left|right]. intros q Hq%elem_of_sorted_ids. auto.
Qed.

Lemma delta_chunk_list l enc : to_allocvec l = Ok enc → delta_chunk enc = l.
Proof.
  intros Henc. pose proof (from_to_postcard _ _ [] Henc) as Hdec. rewrite app_nil_r in Hdec.
  unfold delta_chunk, PageStore.decode_entries. by rewrite Hdec.
Qed.

Lemma delta_chunk_single e enc : to_allocvec e = Ok enc → PageStore.decode_entries enc = None → delta_chunk enc = [e].
Proof.
  intros Henc Hnone. pose proof (from_to_postcard _ _ [] Henc) as Hdec. rewrite app_nil_r in Hdec.
  unfold delta_chunk. by rewrite Hnone, Hdec.
Qed.

(** A page with the entry alone, which must not read as a list; and a page of
    entries. *)
Definition entry_fits (e : OplogEntry) : Prop :=
  ∀ enc, to_allocvec e = Ok enc → page_fits enc ∧ PageStore.decode_entries enc = None.
Definition entries_fit (l : list OplogEntry) : Prop := ∀ enc, to_allocvec l = Ok enc → page_fits enc.

(** [see] on a map that has the entry already. *)
Lemma see_marked log id e f : keyed log → log !! id = Some e → oe_id (f e) = oe_id e → see log (f e) = alter f id log.
Proof.
  intros Hk He Hf. unfold see. rewrite Hf, (Hk _ _ He). apply map_eq. intros k. destruct (decide (k = id)) as [->|Hne].
  - by rewrite lookup_insert_eq, lookup_alter_eq, He.
  - by rewrite lookup_insert_ne, lookup_alter_ne.
Qed.
End log.

Section log_operations.
Context {D : Type} {HO : Opfs D} {HOS : OpfsSpec D} {K : PageCodec} {HK : PageCodecSpec K} {KM : MetaCodec}.
Import OpfsStorage.

(** A session whose log is [log] and whose counter is [n]; its current page is
    [c] and its next page [p]. *)
Definition log_session (c : PageId) (log : gmap string OplogEntry) (n : nat) (p : PageId) (o : opfs D) : Prop :=
  (100 ≤ p)%N ∧ ∃ pg ci s0, session OplogStore pg c ci p s0 o ∧ log_are log pg c ci p ∧ ps_pending_count s0 = n.

Lemma log_session_keyed c log n p o : log_session c log n p o → keyed log.
Proof. intros [_ (pg & ci & s0 & _ & Hl & _)]. rewrite <-(la_log _ _ _ _ _ Hl). apply keyed_log_of. Qed.

Lemma log_read_all c log n p o : log_session c log n p o →
  runs (on_store OplogStore read_all_oplog_entries) o (λ l o', l = log_list log ∧ log_session c log n p o' ∧ others_keep OplogStore o o').
Proof.
  intros [Hp (pg & ci & s0 & Hs & Hl & Hn)]. eapply runs_weaken; [by eapply session_read_all|].
  intros l o' (-> & Hs' & Ho'). rewrite (la_log _ _ _ _ _ Hl). split_and!; [done| |done].
  split; [done|]. by eexists _, _, _.
Qed.

Lemma log_adjust c log n p o delta : log_session c log n p o →
  runs (adjust_oplog_pending_count delta) o (λ _ o', log_session c log (adjusted delta n) p o' ∧ others_keep OplogStore o o').
Proof.
  intros [Hp (pg & ci & s0 & Hs & Hl & Hn)]. eapply runs_weaken; [by eapply session_adjust|].
  intros [] o' (Hs' & Ho'). split; [|done]. split; [done|]. eexists _, _, _. split; [exact Hs'|]. by rewrite Hn.
Qed.

Lemma log_set_count c log n p o n' : log_session c log n p o →
  runs (on_store OplogStore (PageStore.set_pending_count n')) o (λ _ o', log_session c log n' p o' ∧ others_keep OplogStore o o').
Proof.
  intros [Hp (pg & ci & s0 & Hs & Hl & Hn)]. eapply runs_weaken; [by eapply session_set_count|].
  intros [] o' (Hs' & Ho'). split; [|done]. split; [done|]. by eexists _, _, _.
Qed.

Lemma log_schedule_gc c log n p o : log_session c log n p o →
  runs schedule_oplog_gc o (λ _ o', log_session c log n p o' ∧ others_keep OplogStore o o').
Proof.
  intros [Hp (pg & ci & s0 & Hs & Hl & Hn)]. eapply runs_weaken; [by eapply session_schedule_gc|].
  intros [] o' (Hs' & Ho'). split; [|done]. split; [done|]. by eexists _, _, _.
Qed.

Lemma log_read_page c log n p o q : log_session c log n p o →
  runs (on_store OplogStore (PageStore.read_page q)) o (λ _ o', log_session c log n p o' ∧ others_keep OplogStore o o').
Proof.
  intros [Hp (pg & ci & s0 & Hs & Hl & Hn)]. eapply runs_weaken; [by eapply session_read|].
  intros r o' (_ & Hs' & Ho'). split; [|done]. split; [done|]. by eexists _, _, _.
Qed.

(** A new page at the end of the log. *)
Lemma log_new_page c log n p o data : log_session c log n p o → (p < U64_MAX)%N → page_fits data →
  runs (page_id ← allocate_store_page_id OplogStore; write_store_page OplogStore page_id data;; mret page_id) o
    (λ q o', q = p ∧ log_session c (foldl see log (delta_chunk data)) n (p + 1) o' ∧ others_keep OplogStore o o').
Proof.
  intros [Hp (pg & ci & s0 & Hs & Hl & Hn)] Hmax Hfit.
  apply runs_bind. eapply runs_weaken; [by eapply session_allocate|]. intros q o1 (-> & Hs1 & Ho1).
  apply runs_bind. eapply runs_weaken; [by eapply session_write|]. intros [] o2 (Hs2 & Ho2). apply runs_ret.
  split_and!; [done| |by eapply others_keep_trans]. split; [lia|]. eexists _, _, _. split; [exact Hs2|].
  split; [|done]. by apply (log_append log pg c ci p data).
Qed.

(** The same, with the rest of the operation in place of the page number. *)
Lemma log_new_page_then {A} c log n p o data (f : PageId → SM (opfs D) VaultSyncError A) Q :
  log_session c log n p o → (p < U64_MAX)%N → page_fits data →
  (∀ o', log_session c (foldl see log (delta_chunk data)) n (p + 1) o' → others_keep OplogStore o o' → runs (f p) o' Q) →
  runs (page_id ← allocate_store_page_id OplogStore; write_store_page OplogStore page_id data;; f page_id) o Q.
Proof.
  intros Hs Hmax Hfit Hf. destruct (log_new_page c log n p o data Hs Hmax Hfit) as (q & o' & Hrun & -> & Hs' & Ho').
  apply sm_bind_ok_inv in Hrun as (q & o1 & H1 & Hrun). apply sm_bind_ok_inv in Hrun as ([] & o2 & H2 & Hrun).
  injection Hrun as -> ->. apply runs_bind. eapply runs_intro; [exact H1|]. apply runs_bind. eapply runs_intro; [exact H2|]. auto.
Qed.

(** An uploadable entry adds one to the counter. *)
Definition counts (e : OplogEntry) : nat := if is_uploadable (oe_sync_status e) then 1 else 0.

Lemma append_entry_runs c log n p o e : log_session c log n p o → (p < U64_MAX)%N → entry_fits e →
  runs (append_entry e) o (λ _ o', log_session c (see log e) (n + counts e) (p + 1) o' ∧ others_keep OplogStore o o').
Proof.
  intros Hs Hmax Hfit. destruct (to_allocvec_ok e) as [enc Henc]. destruct (Hfit _ Henc) as [Hpage Hnone].
  unfold append_entry. apply runs_bind. unfold encode, lift. rewrite Henc. eapply runs_intro; [done|].
  eapply log_new_page_then; [done..|]. rewrite (delta_chunk_single e enc Henc Hnone). intros o1 Hs1 Ho1.
  apply runs_bind. apply (runs_weaken _ _ (λ _ o', log_session c (see log e) (n + counts e) (p + 1) o' ∧ others_keep OplogStore o1 o')).
  { unfold counts. destruct (is_uploadable (oe_sync_status e)).
    - eapply runs_weaken; [by apply log_adjust|]. done.
    - apply runs_ret. rewrite Nat.add_0_r. split; [done|apply others_keep_refl]. }
  intros [] o2 [Hs2 Ho2]. unfold verify_oplog_write. apply runs_bind. eapply runs_weaken; [by apply log_read_page|].
  intros r o3 [Hs3 Ho3]. apply runs_bind. eapply runs_weaken; [by apply log_read_all|]. intros l o4 (_ & Hs4 & Ho4).
  apply runs_ret. split; [done|]. eauto using others_keep_trans.
Qed.

Lemma write_entries_runs c log n p o l : log_session c log n p o → (p < U64_MAX)%N → entries_fit l →
  runs (write_entries l) o (λ q o', q = p ∧ log_session c (foldl see log l) n (p + 1) o' ∧ others_keep OplogStore o o').
Proof.
  intros Hs Hmax Hfit. destruct (to_allocvec_ok l) as [enc Henc]. unfold write_entries.
  apply runs_bind. unfold encode, lift. rewrite Henc. eapply runs_intro; [done|].
  eapply runs_weaken; [by apply log_new_page, Hfit|]. by rewrite (delta_chunk_list l enc Henc).
Qed.

(** A page with the changed entry, and one less to upload. *)
Lemma rewrite_entry_runs {A} c log n p o id e f (rest : SM (opfs D) VaultSyncError A) Q :
  log_session c log n p o → (p < U64_MAX)%N → log !! id = Some e → oe_id (f e) = oe_id e → entries_fit [f e] →
  (∀ o', log_session c (alter f id log) n (p + 1) o' → others_keep OplogStore o o' → runs rest o' Q) →
  runs (write_entries [f e];; rest) o Q.
Proof.
  intros Hs Hmax He Hid Hfit Hrest. pose proof (log_session_keyed _ _ _ _ _ Hs) as Hk.
  apply runs_bind. eapply runs_weaken; [by apply write_entries_runs|]. intros q o1 (_ & Hs1 & Ho1).
  apply Hrest; [|done]. rewrite <-(see_marked log id e f) by done. done.
Qed.

(** What marking an entry leaves of the log and of the counter. *)
Definition mark_log (id : string) (f : OplogEntry → OplogEntry) (log : gmap string OplogEntry) (n : nat) :
    gmap string OplogEntry * nat :=
  match log !! id with Some _ => (alter f id log, n - 1)%nat | None => (log, n) end.

Definition marks_fit (id : string) (f : OplogEntry → OplogEntry) (log : gmap string OplogEntry) : Prop :=
  ∀ e, log !! id = Some e → entries_fit [f e].

Lemma mark_synced_runs c log n p o id seq : log_session c log n p o → (p < U64_MAX)%N → marks_fit id (mark_entry seq) log →
  runs (mark_synced id seq) o (λ _ o', let '(log', n') := mark_log id (mark_entry seq) log n in
    ∃ p', (p' ≤ p + 1)%N ∧ log_session c log' n' p' o').
Proof.
  intros Hs Hmax Hfit. unfold mark_synced, mark_log. apply runs_bind. eapply runs_weaken; [by apply log_read_all|].
  intros l o1 (-> & Hs1 & Ho1). rewrite log_list_id by (by eapply log_session_keyed).
  destruct (log !! id) as [e|] eqn:He; [|apply runs_ret; exists p; split; [lia|done]].
  cbn [map]. eapply rewrite_entry_runs; [done|done|exact He|done|by apply Hfit|]. intros o2 Hs2 Ho2.
  apply runs_bind. eapply runs_weaken; [by apply log_read_all|]. intros l o3 (_ & Hs3 & Ho3).
  apply runs_bind. eapply runs_weaken; [by apply log_adjust|]. intros [] o4 (Hs4 & Ho4).
  eapply runs_weaken; [by apply log_schedule_gc|]. intros [] o5 (Hs5 & Ho5). by exists (p + 1)%N.
Qed.

Lemma mark_failed_runs c log n p o id err : log_session c log n p o → (p < U64_MAX)%N → marks_fit id (set_status Failed) log →
  runs (mark_failed id err) o (λ _ o', let '(log', n') := mark_log id (set_status Failed) log n in
    ∃ p', (p' ≤ p + 1)%N ∧ log_session c log' n' p' o').
Proof.
  intros Hs Hmax Hfit. unfold mark_failed, mark_log. apply runs_bind. eapply runs_weaken; [by apply log_read_all|].
  intros l o1 (-> & Hs1 & Ho1). rewrite log_list_id by (by eapply log_session_keyed).
  destruct (log !! id) as [e|] eqn:He; [|apply runs_ret; exists p; split; [lia|done]].
  cbn [map]. eapply rewrite_entry_runs; [done|done|exact He|done|by apply Hfit|]. intros o2 Hs2 Ho2.
  apply runs_bind. eapply runs_weaken; [by apply log_adjust|]. intros [] o4 (Hs4 & Ho4).
  eapply runs_weaken; [by apply log_schedule_gc|]. intros [] o5 (Hs5 & Ho5). by exists (p + 1)%N.
Qed.
End log_operations.

(** ** Transactions *)

Section transactions.
Context {D : Type} {HO : Opfs D} {HOS : OpfsSpec D} {K : PageCodec} {HK : PageCodecSpec K} {KM : MetaCodec}.
Import OpfsStorage.

Definition mark_all (marks : list (string * N)) (tx : OpfsTransaction) : OpfsTransaction :=
  foldl (λ tx '(id, seq), OpfsTransaction.mark_synced id seq tx) tx marks.

(** The pending entries of the transaction after the marks. *)
Definition marked_by (marks : list (string * N)) (e : OplogEntry) : OplogEntry :=
  foldl (λ e '(id, seq), if has_id id e then mark_entry seq e else e) e marks.

Lemma marked_by_id marks e : oe_id (marked_by marks e) = oe_id e.
Proof.
  unfold marked_by. revert e. induction marks as [|[id seq] marks IH]; intros e; [done|]. simpl. rewrite IH. by destruct (has_id id e).
Qed.

Lemma mark_marked_by marks seq e : mark_entry seq (marked_by marks e) = mark_entry seq e.
Proof.
  unfold marked_by. revert e. induction marks as [|[id s] marks IH]; intros e; [done|]. simpl. rewrite IH.
  by destruct (has_id id e).
Qed.

Lemma mark_all_fields marks tx :
  ot_runtime (mark_all marks tx) = ot_runtime tx ∧
  ot_ops (mark_all marks tx) = ot_ops tx ++ map (λ '(id, seq), TxMarkSynced id seq) marks ∧
  ot_pending_entries (mark_all marks tx) = map (marked_by marks) (ot_pending_entries tx).
Proof.
  unfold mark_all. revert tx. induction marks as [|[id seq] marks IH]; intros tx.
  { simpl. by rewrite app_nil_r, map_id. }
  simpl. destruct (IH (OpfsTransaction.mark_synced id seq tx)) as (-> & -> & ->). split_and!; [done| |].
  - simpl. by rewrite <-app_assoc.
  - simpl. unfold map_if. rewrite map_map. done.
Qed.

Lemma find_map_id (f : OplogEntry → OplogEntry) id l : (∀ e, oe_id (f e) = oe_id e) →
  List.find (has_id id) (map f l) = f <$> List.find (has_id id) l.
Proof.
  intros Hf. induction l as [|e l IH]; [done|]. simpl.
  replace (has_id id (f e)) with (has_id id e); [by destruct (has_id id e)|]. unfold has_id. by rewrite Hf.
Qed.

Lemma find_head_filterb {A} (p : A → bool) l : List.find p l = head (filterb p l).
Proof. unfold filterb. induction l as [|a l IH]; [done|]. simpl. by destruct (p a). Qed.

Lemma find_log log id : keyed log → List.find (has_id id) (log_list log) = log !! id.
Proof. intros Hk. rewrite find_head_filterb, log_list_id by done. by destruct (log !! id). Qed.

(** The entries a commit writes: those of the marks, as the log has them. *)
Definition delta_marks (log : gmap string OplogEntry) (marks : list (string * N)) : list OplogEntry :=
  omap (λ '(id, seq), mark_entry seq <$> log !! id) marks.

Lemma delta_entries_marks rt log marks : keyed log →
  OpfsTransaction.delta_entries (mark_all marks (OpfsTransaction_mk rt [] (log_list log))) = delta_marks log marks.
Proof.
  intros Hk. unfold OpfsTransaction.delta_entries.
  destruct (mark_all_fields marks (OpfsTransaction_mk rt [] (log_list log))) as (_ & -> & ->). cbn [ot_ops ot_pending_entries app].
  generalize marks at 2 3. intros l. induction l as [|[id seq] l IH]; [done|]. cbn [map concat delta_marks omap list_omap].
  rewrite IH. cbn [OpfsTransaction.delta_of]. rewrite find_map_id by apply marked_by_id. rewrite find_log by done.
  destruct (log !! id) as [e|]; simpl; [by rewrite mark_marked_by|done].
Qed.

Lemma delta_marks_cons log id seq marks : delta_marks log ((id, seq) :: marks) =
  match mark_entry seq <$> log !! id with Some e => e :: delta_marks log marks | None => delta_marks log marks end.
Proof. done. Qed.

(** The marks one after the other. *)
Definition mark_each (marks : list (string * N)) (log : gmap string OplogEntry) : gmap string OplogEntry :=
  foldl (λ log '(id, seq), alter (mark_entry seq) id log) log marks.

Lemma delta_marks_marked log log' marks : (∀ k seq, mark_entry seq <$> log' !! k = mark_entry seq <$> log !! k) →
  delta_marks log' marks = delta_marks log marks.
Proof. intros Heq. induction marks as [|[id seq] l IH]; [done|]. by rewrite !delta_marks_cons, Heq, IH. Qed.

Lemma see_delta log marks : keyed log → foldl see log (delta_marks log marks) = mark_each marks log.
Proof.
  revert log. induction marks as [|[id seq] marks IH]; intros log Hk; [done|]. unfold mark_each. cbn [foldl].
  rewrite delta_marks_cons.
  destruct (log !! id) as [e|] eqn:He; simpl.
  - rewrite (see_marked log id e (mark_entry seq)) by done.
    rewrite <-(delta_marks_marked log (alter (mark_entry seq) id log)).
    + apply IH. intros k e' Hk'. destruct (decide (k = id)) as [->|Hne].
      * rewrite lookup_alter_eq, He in Hk'. injection Hk' as <-. simpl. by apply Hk.
      * rewrite lookup_alter_ne in Hk' by done. by apply Hk.
    + intros k s. destruct (decide (k = id)) as [->|Hne]; [by rewrite lookup_alter_eq, He|by rewrite lookup_alter_ne].
  - assert (alter (mark_entry seq) id log = log) as ->; [|by apply IH]. apply map_eq. intros k.
    destruct (decide (k = id)) as [->|Hne]; [by rewrite lookup_alter_eq, He|by rewrite lookup_alter_ne].
Qed.

(** With a runtime or without, the page is allocated and written. *)
Lemma commit_writes {A} (tx : OpfsTransaction) encoded (o : opfs D) (rest : SM (opfs D) VaultSyncError A) :
  ot_runtime tx = match os_runtime o with Some _ => true | None => false end →
  (rt ← sm_gets os_runtime;
   match (if ot_runtime tx then rt else None) with
   | Some rt =>
       let '(page_id, rt) := StorageRuntime.allocate_page_id "oplog" rt in
       sm_modify (set_runtime rt);;
       on_store OplogStore (PageStore.commit_allocated_page_id page_id);;
       rt ← on_pages (StorageRuntime.enqueue_now (WritePage "oplog" page_id encoded) rt);
       sm_modify (set_runtime rt)
   | None =>
       page_id ← on_store OplogStore PageStore.allocate_page_id;
       on_store OplogStore (PageStore.write_page page_id encoded)
   end;; rest) o =
  (page_id ← allocate_store_page_id OplogStore; write_store_page OplogStore page_id encoded;; rest) o.
Proof.
  intros ->. unfold allocate_store_page_id, write_store_page.
  unfold mbind, sm_bind, sm_gets, sm_modify, mret, sm_ret. destruct (os_runtime o) as [rt|] eqn:Hrt; cbn beta iota.
  - change (StorageRuntime.store_name OplogStore) with "oplog".
    destruct (StorageRuntime.allocate_page_id "oplog" rt) as [q rt']. cbn beta iota.
    unfold on_store, on_pages, zoom. cbn [os_pages set_runtime].
    destruct (StorageRuntime.on_store OplogStore _ _) as [[[]|e] pd]; cbn; [|done].
    by destruct (StorageRuntime.enqueue_now (WritePage "oplog" q encoded) rt' pd) as [[rt2|e] pd'].
  - destruct (on_store OplogStore PageStore.allocate_page_id o) as [[q|e] o1] eqn:Ho; [|done].
    assert (os_runtime o1 = None) as ->; [|done].
    unfold on_store, on_pages, zoom in Ho. by destruct (StorageRuntime.on_store _ _ _) as [r pd]; injection Ho as _ <-.
Qed.
End transactions.

Section log_history.
Context {D : Type} {HO : Opfs D} {HOS : OpfsSpec D} {K : PageCodec} {HK : PageCodecSpec K} {KM : MetaCodec}.
Import OpfsStorage.

(** A commit of marks: if none of the entries exists nothing happens, otherwise
    the counter is counted anew. *)
Definition commit_log (marks : list (string * N)) (log : gmap string OplogEntry) (n : nat) : gmap string OplogEntry * nat :=
  match delta_marks log marks with
  | [] => (log, n)
  | _ => (mark_each marks log, uploadable_count (log_list (mark_each marks log)))
  end.

Lemma commit_marks_runs c log n p (o : opfs D) marks : log_session c log n p o → (p < U64_MAX)%N → entries_fit (delta_marks log marks) →
  runs (tx ← begin_transaction; commit (mark_all marks tx)) o (λ _ o', let '(log', n') := commit_log marks log n in
    ∃ p', (p' ≤ p + 1)%N ∧ log_session c log' n' p' o').
Proof.
  intros Hs Hmax Hfit. pose proof (log_session_keyed _ _ _ _ _ Hs) as Hk. unfold begin_transaction. apply runs_bind, runs_bind.
  eapply runs_weaken; [by apply log_read_all|]. intros l o1 (-> & Hs1 & Ho1). apply runs_bind, runs_gets, runs_ret.
  unfold commit, commit_log. set (tx := OpfsTransaction_mk _ [] (log_list log)). destruct (mark_all_fields marks tx) as (Hrt & Hops & _).
  destruct (ot_ops (mark_all marks tx)) as [|op ops].
  { simpl in Hops. destruct marks; [|done]. apply runs_ret. exists p. split; [lia|done]. }
  subst tx. rewrite delta_entries_marks by done. pose proof (see_delta log marks Hk) as Hsee.
  destruct (delta_marks log marks) as [|e l] eqn:Hdelta; [apply runs_ret; exists p; split; [lia|done]|].
  destruct (to_allocvec_ok (e :: l)) as [enc Henc]. apply runs_bind. unfold encode, lift. rewrite Henc. eapply runs_intro; [done|].
  eapply runs_eq; [by apply commit_writes|]. eapply log_new_page_then; [done|done|by apply Hfit|].
  rewrite (delta_chunk_list _ _ Henc), Hsee. intros o2 Hs2 Ho2.
  apply runs_bind. eapply runs_weaken; [by apply log_read_all|]. intros after o3 (-> & Hs3 & Ho3).
  apply runs_bind. eapply runs_weaken; [by eapply log_set_count|]. intros [] o4 (Hs4 & Ho4).
  eapply runs_weaken; [by apply log_schedule_gc|]. intros [] o5 (Hs5 & Ho5). by exists (p + 1)%N.
Qed.

Inductive log_op :=
  | LAppend (e : OplogEntry)
  | LMarkSynced (id : string) (seq : N)
  | LMarkFailed (id err : string)
  | LCommit (marks : list (string * N)).

Definition log_run (op : log_op) : SM (opfs D) VaultSyncError unit :=
  match op with
  | LAppend e => append_oplog e
  | LMarkSynced id seq => mark_synced id seq
  | LMarkFailed id err => mark_failed id err
  | LCommit marks => tx ← begin_transaction; commit (mark_all marks tx)
  end.

Definition log_effect (ln : gmap string OplogEntry * nat) (op : log_op) : gmap string OplogEntry * nat :=
  let '(log, n) := ln in
  match op with
  | LAppend e => (<[oe_id e := e]> log, n + counts e)%nat
  | LMarkSynced id seq => mark_log id (mark_entry seq) log n
  | LMarkFailed id _ => mark_log id (set_status Failed) log n
  | LCommit marks => commit_log marks log n
  end.

(** The pages an operation writes are written in one piece. *)
Definition log_op_fits (log : gmap string OplogEntry) (op : log_op) : Prop :=
  match op with
  | LAppend e => entry_fits e
  | LMarkSynced id seq => marks_fit id (mark_entry seq) log
  | LMarkFailed id _ => marks_fit id (set_status Failed) log
  | LCommit marks => entries_fit (delta_marks log marks)
  end.

Fixpoint log_history_fits (ln : gmap string OplogEntry * nat) (ops : list log_op) : Prop :=
  match ops with
  | [] => True
  | op :: ops => log_op_fits ln.1 op ∧ log_history_fits (log_effect ln op) ops
  end.

Lemma log_run_ok c log n p o op : log_session c log n p o → (p < U64_MAX)%N → log_op_fits log op →
  runs (log_run op) o (λ _ o', ∃ p', (p' ≤ p + 1)%N ∧
    log_session c (log_effect (log, n) op).1 (log_effect (log, n) op).2 p' o').
Proof.
  intros Hs Hmax Hfit. destruct op as [e|id seq|id err|marks]; cbn [log_run log_effect].
  - eapply runs_weaken; [by apply append_entry_runs|]. intros [] o' [Hs' _]. by exists (p + 1)%N.
  - eapply runs_weaken; [by apply mark_synced_runs|]. intros [] o'. by destruct (mark_log _ _ _ _).
  - eapply runs_weaken; [by apply mark_failed_runs|]. intros [] o'. by destruct (mark_log _ _ _ _).
  - eapply runs_weaken; [by apply commit_marks_runs|]. intros [] o'. by destruct (commit_log _ _ _).
Qed.

Lemma log_runs ops c : ∀ log n p o, log_session c log n p o → (p + N.of_nat (length ops) ≤ U64_MAX)%N →
  log_history_fits (log, n) ops →
  runs (for_each log_run ops) o (λ _ o', ∃ p', log_session c (foldl log_effect (log, n) ops).1 (foldl log_effect (log, n) ops).2 p' o').
Proof.
  induction ops as [|op ops IH]; intros log n p o Hs Hmax Hfit; cbn [for_each foldl].
  { apply runs_ret. by exists p. }
  destruct Hfit as [Hop Hfit]. cbn [length] in Hmax. apply runs_bind.
  eapply runs_weaken; [apply log_run_ok; [exact Hs|lia|exact Hop]|]. intros [] o1 (p1 & Hp1 & Hs1).
  destruct (log_effect (log, n) op) as [log' n']. eapply IH; [exact Hs1|lia|exact Hfit].
Qed.


End log_history.

(** ** Compaction *)

Section compaction.
Context {D : Type} {HO : Opfs D} {HOS : OpfsSpec D} {K : PageCodec} {HK : PageCodecSpec K} {KM : MetaCodec}.
Import OpfsStorage.

(** Later entries win. *)
Lemma foldl_see_union l m : foldl see m l = foldl see ∅ l ∪ m.
Proof.
  revert m. induction l as [|e l IH]; intros m; simpl; [by rewrite map_empty_union|].
  rewrite (IH (see m e)), (IH (see ∅ e)). unfold see. rewrite <-map_union_assoc. f_equal.
  by rewrite insert_empty, insert_union_singleton_l.
Qed.

Lemma foldl_see_keys m l : (∀ k, is_Some (m !! k) → is_Some (foldl see ∅ l !! k)) → foldl see m l = foldl see ∅ l.
Proof.
  intros Hm. rewrite foldl_see_union. apply map_eq. intros k. destruct (foldl see ∅ l !! k) as [e|] eqn:He.
  - by rewrite (lookup_union_Some_l _ _ _ _ He).
  - rewrite lookup_union_r by done. destruct (m !! k) eqn:Hk; [|done]. destruct (Hm k) as [e He']; [by eexists|congruence].
Qed.

Lemma foldl_see_elem l k e : foldl see ∅ l !! k = Some e → e ∈ l ∧ oe_id e = k.
Proof.
  revert e. induction l as [|e' l IH] using rev_ind; intros e; simpl; [by rewrite lookup_empty|].
  rewrite foldl_app. simpl. unfold see at 1. intros [[<- <-]|[_ Hk%IH]]%lookup_insert_Some; [split; [|done]|destruct Hk; split; [|done]];
    apply elem_of_app; [right; by left|by left].
Qed.

(** The pages before the current one hold [log]: they are seen last. *)
Record shadowed (log : gmap string OplogEntry) (pg : gmap PageId bytes) (c : PageId) (ci : ContentIndex) (p : PageId) : Prop := {
  sh_live q : q ∈ ci_live_pages ci → (100 ≤ q < p)%N;
  sh_current : c ∈ ci_live_pages ci;
  sh_log : foldl see ∅ (concat (map (page_entries delta_chunk pg) (filterb (λ id, id <? c)%N (sorted_ids (ci_live_pages ci))))) = log;
}.

Lemma log_of_live pg c (X : gset PageId) q : q ∈ X → log_of pg c (sorted_ids X) = foldl see ∅ (chain_entries pg c (sorted_ids X)).
Proof.
  intros Hq%elem_of_sorted_ids. unfold log_of. destruct (sorted_ids X) eqn:E; [by apply elem_of_nil in Hq|done].
Qed.

(** So every entry of [log] reads as it was then. *)
Lemma shadowed_read log pg c ci p k e : shadowed log pg c ci p → log !! k = Some e → log_read pg c ci !! k = Some e.
Proof.
  intros [Hlive Hc Hlog] He. unfold log_read. rewrite (log_of_live _ _ _ c Hc). pose proof (Hlive c Hc) as Hpos.
  unfold chain_entries. rewrite (proj2 (N.ltb_lt 0 c)) by lia. rewrite map_app, concat_app, app_assoc, foldl_app, foldl_see_union, Hlog.
  by apply lookup_union_Some_l.
Qed.

Lemma shadowed_append log pg c ci p data : shadowed log pg c ci p → shadowed log (<[p := data]> pg) c (two_tracks p ci) (p + 1).
Proof.
  intros [Hlive Hc Hlog]. pose proof (Hlive c Hc) as Hcp. split.
  - intros q. rewrite live_two_tracks. intros [->%elem_of_singleton|Hq%Hlive]%elem_of_union; lia.
  - rewrite live_two_tracks. set_solver.
  - rewrite live_two_tracks, sorted_ids_add by (intros q Hq%Hlive; lia). rewrite filterb_app.
    assert (filterb (λ id, id <? c)%N [p] = []) as -> by (apply filterb_none; intros q ->%list_elem_of_singleton; apply N.ltb_ge; lia).
    rewrite app_nil_r, <-Hlog. f_equal. f_equal. apply map_ext_in. intros q Hq%list_elem_of_In.
    apply elem_of_filterb in Hq as [_ Hq%elem_of_sorted_ids%Hlive]. apply page_entries_other. lia.
Qed.

(** The first compaction. *)
Lemma first_compaction log pg ci p data remaining : log_are log pg 0 ci p → (100 ≤ p)%N → to_allocvec remaining = Ok data →
  (∀ e, e ∈ remaining → e ∈ log_list log) →
  shadowed log (<[p := data]> pg) p (two_tracks p ci) (p + 1) ∧ log_read (<[p := data]> pg) p (two_tracks p ci) = log.
Proof.
  intros Hl Hp Hdata Hsub. pose proof (la_live _ _ _ _ _ Hl) as Hlive.
  assert (filterb (λ id, id <? p)%N (sorted_ids (ci_live_pages ci) ++ [p]) = sorted_ids (ci_live_pages ci)) as Hbefore.
  { rewrite filterb_app, filterb_all by (intros q Hq%elem_of_sorted_ids%Hlive; apply N.ltb_lt; lia).
    rewrite filterb_none by (intros q ->%list_elem_of_singleton; apply N.ltb_ge; lia). apply app_nil_r. }
  assert (concat (map (page_entries delta_chunk (<[p := data]> pg)) (sorted_ids (ci_live_pages ci))) =
    chain_entries pg 0 (sorted_ids (ci_live_pages ci))) as Hsame.
  { unfold chain_entries. simpl. f_equal. apply map_ext_in. intros q Hq%list_elem_of_In%elem_of_sorted_ids%Hlive.
    apply page_entries_other. lia. }
  assert (foldl see ∅ (chain_entries pg 0 (sorted_ids (ci_live_pages ci))) = log) as Hlog.
  { rewrite <-(la_log _ _ _ _ _ Hl). unfold log_read, log_of. by destruct (sorted_ids (ci_live_pages ci)). }
  assert (shadowed log (<[p := data]> pg) p (two_tracks p ci) (p + 1)) as Hsh.
  { split; [| |by rewrite live_two_tracks, sorted_ids_add, Hbefore, Hsame by (intros q Hq%Hlive; lia)].
    - intros q. rewrite live_two_tracks. intros [->%elem_of_singleton|Hq%Hlive]%elem_of_union; lia.
    - rewrite live_two_tracks. set_solver. }
  split; [done|]. unfold log_read. rewrite (log_of_live _ _ _ p) by apply Hsh.
  rewrite live_two_tracks, sorted_ids_add by (intros q Hq%Hlive; lia). unfold chain_entries at 1.
  rewrite (proj2 (N.ltb_lt 0 p)) by lia. rewrite Hbefore.
  rewrite (filterb_none (λ id, p <? id)%N) by (intros q [Hq%elem_of_sorted_ids%Hlive| ->%list_elem_of_singleton]%elem_of_app; apply N.ltb_ge; lia).
  rewrite app_nil_l, Hsame, foldl_app, foldl_see_keys; [done|]. rewrite Hlog. intros k [e He].
  apply foldl_see_elem in He as [He <-]. unfold page_entries in He. rewrite lookup_insert_eq in He.
  assert (base_chunk data = remaining) as Hbase.
  { pose proof (from_to_postcard _ _ [] Hdata) as Hdec. rewrite app_nil_r in Hdec.
    unfold base_chunk, PageStore.decode_entries. by rewrite Hdec. }
  rewrite Hbase in He. apply Hsub, elem_of_log_list in He; [by eexists|].
  rewrite <-(la_log _ _ _ _ _ Hl). apply keyed_log_of.
Qed.
End compaction.

Section compacting.
Context {D : Type} {HO : Opfs D} {HOS : OpfsSpec D} {K : PageCodec} {HK : PageCodecSpec K} {KM : MetaCodec}.
Import OpfsStorage.

(** Without a current page there is nothing to collect. *)
Lemma gc_idle_runs pg h ci s0 (s : page_store D) : store_has pg h 0 ci s0 s →
  runs PageStore.run_pending_gc s (λ n s', n = 0 ∧ store_has pg h 0 ci s0 s').
Proof.
  intros Hs. unfold PageStore.run_pending_gc. apply runs_bind, runs_gets. destruct (ps_gc_needed s) eqn:Hgc; [|by apply runs_ret].
  cbn [negb]. destruct Hs as [(m & [Hpg Hm Hd] & Hcore) [Hg Hn]].
  destruct (read_manifest_on_disk m (ps_dir s)) as (d & Hr & Hdir); [apply Hpg|done|].
  apply runs_bind. eapply runs_intro; [by rewrite Hr|]. cbn beta iota.
  replace (sm_current_page (sealed m)) with 0%N by (destruct m; by injection Hcore). apply runs_ret. split; [done|].
  split; [|done]. exists m. split; [|done]. split; [by apply pages_are_dir|done|]. eapply on_disk_same; [apply Hdir|done].
Qed.

(** A log that was never compacted. *)
Definition uncompacted (log : gmap string OplogEntry) (p : PageId) (o : opfs D) : Prop :=
  (100 ≤ p)%N ∧ ∃ pg ci s0, session OplogStore pg 0 ci p s0 o ∧ log_are log pg 0 ci p.

(** A log after its first compaction. *)
Definition compacted (log : gmap string OplogEntry) (p : PageId) (o : opfs D) : Prop :=
  (100 ≤ p)%N ∧ ∃ pg c ci s0, session OplogStore pg c ci p s0 o ∧ shadowed log pg c ci p.

Lemma rewrite_log_runs log p o drop : uncompacted log p o → (p < U64_MAX)%N →
  entries_fit (filterb (λ e, negb (drop e)) (log_list log)) →
  runs (rewrite_log drop) o (λ n o', n = length (filterb drop (log_list log)) ∧ compacted log (p + 1) o' ∧
    runs (on_store OplogStore read_all_oplog_entries) o' (λ l _, l = log_list log)).
Proof.
  intros [Hp (pg & ci & s0 & Hs & Hl)] Hmax Hfit. unfold rewrite_log. apply runs_bind.
  eapply runs_weaken; [by eapply session_read_all|]. intros l o1 (-> & Hs1 & _). rewrite (la_log _ _ _ _ _ Hl).
  set (remaining := filterb (λ e, negb (drop e)) (log_list log)) in *. destruct (to_allocvec_ok remaining) as [enc Henc].
  unfold write_entries. apply runs_bind, runs_bind. unfold encode, lift. rewrite Henc. eapply runs_intro; [done|].
  apply runs_bind. eapply runs_weaken; [by eapply session_allocate|]. intros q o2 (-> & Hs2 & _).
  apply runs_bind. eapply runs_weaken; [by eapply session_write, Hfit|]. intros [] o3 (Hs3 & _). apply runs_ret.
  apply runs_bind. eapply runs_weaken; [by eapply session_set_current|]. intros [] o4 (Hs4 & _).
  apply runs_bind. eapply runs_weaken; [by eapply session_schedule_gc|]. intros [] o5 (Hs5 & _). apply runs_ret.
  destruct (first_compaction log pg ci p enc remaining Hl Hp Henc) as [Hsh Hread].
  { intros e He. by apply elem_of_filterb in He as [_ ?]. }
  split_and!.
  - pose proof (filterb_split_length drop (log_list log)) as Hlen. unfold remaining. lia.
  - split; [lia|]. eexists _, _, _, _. split; [exact Hs5|exact Hsh].
  - eapply runs_weaken; [by eapply session_read_all|]. intros l o6 (-> & _). f_equal. exact Hread.
Qed.

(** The first compaction of the log reports the entries it removed, but
    every read still finds them: the rewritten page becomes the current one, and
    the pages before it, which hold the old log, are read after it and override
    it. *)
Theorem compaction_removes_nothing log p o ns cutoff :
  uncompacted log p o → (p < U64_MAX)%N →
  entries_fit (filterb (λ e, negb (in_namespace ns e && is_synced e && (oe_created_at e <? cutoff)%N)) (log_list log)) →
  runs (delete_synced_before ns cutoff) o (λ n o',
    n = length (filterb (λ e, in_namespace ns e && is_synced e && (oe_created_at e <? cutoff)%N) (log_list log)) ∧
    runs (on_store OplogStore read_all_oplog_entries) o' (λ l _, l = log_list log)).
Proof.
  intros [Hp (pg & ci & s0 & Hs & Hl)] Hmax Hfit. unfold delete_synced_before, run_oplog_gc. apply runs_bind.
  eapply runs_weaken.
  { apply (session_store _ _ _ _ _ _ _ _ (λ n, n = 0) pg 0%N ci Hs). intros h s. apply gc_idle_runs. }
  intros k o1 (_ & Hs1 & _). eapply runs_weaken; [apply (rewrite_log_runs log p); [split; [done|by eexists _, _, _]|done|done]|].
  intros n o2 (Hn & _ & Hread). by split.
Qed.

(** Marking an entry of a compacted log writes a page that is overridden. *)
Lemma mark_compacted_runs log p o id seq e : compacted log p o → (p < U64_MAX)%N → log !! id = Some e → oe_id e = id →
  entries_fit [mark_entry seq e] → runs (mark_synced id seq) o (λ _, compacted log (p + 1)).
Proof.
  intros [Hp (pg & c & ci & s0 & Hs & Hsh)] Hmax He Hid Hfit. unfold mark_synced. apply runs_bind.
  eapply runs_weaken; [by eapply session_read_all|]. intros l o1 (-> & Hs1 & _).
  rewrite log_list_id by apply keyed_log_of. rewrite (shadowed_read _ _ _ _ _ _ _ Hsh He). cbn [map].
  destruct (to_allocvec_ok [mark_entry seq e]) as [enc Henc]. unfold write_entries.
  apply runs_bind, runs_bind. unfold encode, lift. rewrite Henc. eapply runs_intro; [done|].
  apply runs_bind. eapply runs_weaken; [by eapply session_allocate|]. intros q o2 (-> & Hs2 & _).
  apply runs_bind. eapply runs_weaken; [by eapply session_write, Hfit|]. intros [] o3 (Hs3 & _). apply runs_ret.
  apply runs_bind. eapply runs_weaken; [by eapply session_read_all|]. intros l o4 (_ & Hs4 & _).
  apply runs_bind. eapply runs_weaken; [by eapply session_adjust|]. intros [] o5 (Hs5 & _).
  eapply runs_weaken; [by eapply session_schedule_gc|]. intros [] o6 (Hs6 & _).
  split; [lia|]. eexists _, _, _, _. split; [exact Hs6|]. by apply (shadowed_append log pg c ci p enc).
Qed.

Lemma pending_compacted_runs log p o ns limit e : compacted log p o → log !! oe_id e = Some e → oe_namespace e = ns →
  is_uploadable (oe_sync_status e) = true →
  runs (read_pending_oplog ns limit) o (λ l _, ∃ pending, l = take limit pending ∧ e ∈ pending).
Proof.
  intros [Hp (pg & c & ci & s0 & Hs & Hsh)] He Hns Hup. unfold read_pending_oplog. apply runs_bind.
  eapply runs_intro; [by eapply session_list|]. apply runs_bind. eapply runs_weaken; [by eapply session_read_all|].
  intros l o1 (-> & _). apply runs_ret. eexists. split; [done|]. rewrite !elem_of_filterb. unfold in_namespace.
  rewrite bool_decide_eq_true_2 by done. split; [done|]. split; [done|]. apply elem_of_log_list; [apply keyed_log_of|].
  by eapply shadowed_read.
Qed.

(** After the first compaction an upload does not take: an entry that was
    waiting at that time is uploaded and marked as synced, the call succeeds,
    and the next read of the pending log has it again, still waiting. *)
Theorem compaction_hides_marks log p o ns cutoff id seq e limit :
  uncompacted log p o → (p + 1 < U64_MAX)%N →
  entries_fit (filterb (λ e, negb (in_namespace ns e && is_synced e && (oe_created_at e <? cutoff)%N)) (log_list log)) →
  log !! id = Some e → oe_namespace e = ns → is_uploadable (oe_sync_status e) = true → entries_fit [mark_entry seq e] →
  runs (delete_synced_before ns cutoff;; mark_synced id seq;; read_pending_oplog ns limit) o
    (λ l _, ∃ pending, l = take limit pending ∧ e ∈ pending).
Proof.
  intros [Hp (pg & ci & s0 & Hs & Hl)] Hmax Hfit He Hns Hup Hmark. apply runs_bind. unfold delete_synced_before, run_oplog_gc.
  assert (oe_id e = id) as Hid by (eapply keyed_log_of; unfold log_read in *; by rewrite <-(la_log _ _ _ _ _ Hl) in He).
  apply runs_bind. eapply runs_weaken.
  { apply (session_store _ _ _ _ _ _ _ _ (λ n, n = 0) pg 0%N ci Hs). intros h s. apply gc_idle_runs. }
  intros k o1 (_ & Hs1 & _). eapply runs_weaken; [apply (rewrite_log_runs log p); [split; [done|by eexists _, _, _]|lia|done]|].
  intros n o2 (_ & Hc & _). apply runs_bind. eapply runs_weaken; [by eapply mark_compacted_runs|]. intros [] o3 Hc3.
  eapply pending_compacted_runs; [exact Hc3|by rewrite Hid|done|done].
Qed.
End compacting.

(** ** The counter *)

Lemma uploadable_count_cons e l : uploadable_count (e :: l) = counts e + uploadable_count l.
Proof. unfold uploadable_count, counts, filterb. simpl. by destruct (is_uploadable (oe_sync_status e)). Qed.

Lemma uploadable_count_perm l k : l ≡ₚ k → uploadable_count l = uploadable_count k.
Proof. intros Hp. unfold uploadable_count. by rewrite Hp. Qed.

Lemma uploadable_count_insert log e : log !! oe_id e = None →
  uploadable_count (log_list (<[oe_id e := e]> log)) = counts e + uploadable_count (log_list log).
Proof. intros Hn. etrans; [exact (uploadable_count_perm _ _ (log_list_insert log e Hn))|]. apply uploadable_count_cons. Qed.

Lemma uploadable_count_alter log id e f : keyed log → log !! id = Some e → oe_id (f e) = oe_id e →
  uploadable_count (log_list (alter f id log)) + counts e = uploadable_count (log_list log) + counts (f e).
Proof.
  intros Hk He Hf. pose proof (Hk _ _ He) as Hid.
  assert (alter f id log = <[oe_id (f e) := f e]> (delete (oe_id (f e)) log)) as ->.
  { rewrite Hf, Hid, insert_delete_eq, <-(see_marked log id e f) by done. unfold see. by rewrite Hf, Hid. }
  rewrite uploadable_count_insert by apply lookup_delete_eq.
  assert (log = <[oe_id e := e]> (delete (oe_id e) log)) as Hlog by (rewrite insert_delete_id; [done|by rewrite Hid]).
  rewrite Hlog at 2. rewrite uploadable_count_insert by apply lookup_delete_eq. rewrite Hf. lia.
Qed.

(** What the engine does: new ids, and marks of entries that wait. *)
Definition log_op_regular (log : gmap string OplogEntry) (op : log_op) : Prop :=
  match op with
  | LAppend e => log !! oe_id e = None
  | LMarkSynced id _ | LMarkFailed id _ => ∀ e, log !! id = Some e → is_uploadable (oe_sync_status e) = true
  | LCommit _ => True
  end.

Fixpoint log_history_regular (ln : gmap string OplogEntry * nat) (ops : list log_op) : Prop :=
  match ops with
  | [] => True
  | op :: ops => log_op_regular ln.1 op ∧ log_history_regular (log_effect ln op) ops
  end.

Lemma keyed_alter log id f : keyed log → (∀ e, oe_id (f e) = oe_id e) → keyed (alter f id log).
Proof.
  intros Hk Hf k e He. destruct (decide (k = id)) as [->|Hne].
  - rewrite lookup_alter_eq in He. destruct (log !! id) as [e'|] eqn:E; [|done]. injection He as <-. rewrite Hf. by apply Hk.
  - rewrite lookup_alter_ne in He by done. by apply Hk.
Qed.

Definition counted (ln : gmap string OplogEntry * nat) : Prop := keyed ln.1 ∧ ln.2 = uploadable_count (log_list ln.1).

Lemma mark_log_counted log n id f : counted (log, n) → (∀ e, log !! id = Some e → is_uploadable (oe_sync_status e) = true) →
  (∀ e, oe_id (f e) = oe_id e ∧ is_uploadable (oe_sync_status (f e)) = false) → counted (mark_log id f log n).
Proof.
  intros [Hk Hn] Hup Hf. simpl in *. unfold mark_log. destruct (log !! id) as [e|] eqn:He; [|by split].
  split; [apply keyed_alter; [done|apply Hf]|]. simpl. destruct (Hf e) as [Hid Hno].
  pose proof (uploadable_count_alter log id e f Hk He Hid) as Hc. unfold counts in Hc. rewrite (Hup e), Hno in Hc by done. lia.
Qed.

Lemma log_effect_counted ln op : counted ln → log_op_regular ln.1 op → counted (log_effect ln op).
Proof.
  destruct ln as [log n]. intros [Hk Hn] Hreg. simpl in *. destruct op as [e|id seq|id err|marks]; simpl in *.
  - split; [by apply keyed_see|]. simpl. rewrite uploadable_count_insert by done. lia.
  - by apply mark_log_counted.
  - by apply mark_log_counted.
  - unfold commit_log. destruct (delta_marks log marks); [by split|]. split; [|done]. simpl.
    rewrite <-see_delta by done. by apply keyed_foldl.
Qed.

Section counting.
Context {D : Type} {HO : Opfs D} {HOS : OpfsSpec D} {K : PageCodec} {HK : PageCodecSpec K} {KM : MetaCodec}.

(** The counter of pending entries, which is adjusted and never computed on
    appends and marks, is exact: after any history of appends of new entries,
    marks of waiting entries and committed transactions, [pending_count] is the
    number of entries of the log that are to be uploaded. *)
Theorem browser_pending_count_exact ops c log n p (o : opfs D) ns :
  log_session c log n p o → n = uploadable_count (log_list log) → (p + N.of_nat (length ops) ≤ U64_MAX)%N →
  log_history_fits (log, n) ops → log_history_regular (log, n) ops →
  runs (for_each log_run ops;; OpfsStorage.pending_count ns) o
    (λ k _, k = uploadable_count (log_list (foldl log_effect (log, n) ops).1)).
Proof.
  intros Hs Hn Hmax Hfit Hreg. apply runs_bind. eapply runs_weaken; [by eapply log_runs|]. intros [] o' (p' & Hs').
  assert (counted (foldl log_effect (log, n) ops)) as [_ <-].
  { assert (counted (log, n)) as Hc by (split; [by eapply log_session_keyed|done]). clear -Hc Hreg.
    generalize dependent (log, n). induction ops as [|op ops IH]; intros ln Hreg Hc; [done|].
    destruct Hreg as [Hop Hreg]. simpl. by apply IH, log_effect_counted. }
  destruct Hs' as [_ (pg & ci & s0 & Hs1 & _ & <-)]. apply runs_on_store, runs_gets. by apply session_index in Hs1 as [_ ?].
Qed.
End counting.

(** ** Witnesses *)

Lemma log_session_uncompacted {D} {HO : Opfs D} {HOS : OpfsSpec D} {K : PageCodec} log n p (o : opfs D) :
  log_session 0 log n p o → uncompacted log p o.
Proof. intros [Hp (pg & ci & s0 & Hs & Hl & _)]. split; [done|]. by eexists _, _, _. Qed.

Definition sample_entry (id : string) : OplogEntry :=
  OplogEntry_new id "replica" "app" CrdtUpdate "todos" "a" [1%N] None 5 None Pending None 5 1 OUpdate "".

Definition sample_log : list log_op :=
  [LAppend (sample_entry "entry-1"); LAppend (sample_entry "entry-2"); LMarkSynced "entry-1" 7; LCommit [("entry-2", 8%N)]].

(** A new database, with an empty log. *)
Lemma sample_session : ∃ o : opfs disk, log_session 0 ∅ 0 100 o.
Proof.
  destruct (new_database empty_dirs empty_dirs_work) as (o & _ & [] & o1 & _ & _ & _ & Hall).
  exists o1. destruct (Hall OplogStore) as (Hs & Hn & _). split; [done|]. eexists _, _, _.
  split; [exact Hs|]. split; [apply log_none|exact Hn].
Qed.

Lemma entries_fit_wire l : page_fits (ser (wire_list wire_entry) l) → entries_fit l.
Proof. intros Hfit enc Henc. by injection Henc as <-. Qed.

Ltac page_small := apply entries_fit_wire; split; [vm_compute; discriminate|vm_compute; lia].

Lemma sample_entry_fits id : id = "entry-1" ∨ id = "entry-2" → entry_fits (sample_entry id).
Proof.
  intros [-> | ->] enc [= <-]; (split; [split; [vm_compute; discriminate|vm_compute; lia]|vm_compute; reflexivity]).
Qed.

Lemma sample_log_fits : log_history_fits (∅, 0) sample_log.
Proof.
  cbn [log_history_fits sample_log]. split_and!; [apply sample_entry_fits; by left|apply sample_entry_fits; by right| | |exact I].
  - intros e He. vm_compute in He. injection He as <-. page_small.
  - page_small.
Qed.

Lemma sample_log_regular : log_history_regular (∅, 0) sample_log.
Proof.
  cbn [log_history_regular sample_log]. split_and!; try exact I; try (vm_compute; reflexivity).
  intros e He. vm_compute in He. by injection He as <-.
Qed.


Lemma browser_pending_count_exact_witness : ∃ o : opfs disk,
  runs (for_each log_run sample_log;; OpfsStorage.pending_count "app") o
    (λ k _, k = uploadable_count (log_list (foldl log_effect (∅, 0) sample_log).1)).
Proof.
  destruct sample_session as [o Ho]. exists o.
  apply (browser_pending_count_exact sample_log 0 ∅ 0 100 o "app" Ho);
    [reflexivity|vm_compute; discriminate|apply sample_log_fits|apply sample_log_regular].
Defined.

(** A log with one entry that was never compacted. *)
Lemma sample_uncompacted : ∃ o : opfs disk, uncompacted {["entry-1" := sample_entry "entry-1"]} 101 o.
Proof.
  destruct sample_session as [o Ho].
  destruct (append_entry_runs 0 ∅ 0 100 o (sample_entry "entry-1") Ho) as ([] & o' & _ & Hs & _);
    [done|apply sample_entry_fits; by left|].
  exists o'. eapply log_session_uncompacted. exact Hs.
Qed.

Lemma compaction_removes_nothing_witness : ∃ o : opfs disk,
  runs (OpfsStorage.delete_synced_before "app" 10) o (λ _ o',
    runs (OpfsStorage.on_store OplogStore read_all_oplog_entries) o'
      (λ l _, l = log_list {["entry-1" := sample_entry "entry-1"]})).
Proof.
  destruct sample_uncompacted as [o Ho]. exists o.
  eapply runs_weaken; [apply (compaction_removes_nothing _ 101 o "app" 10 Ho); [vm_compute; reflexivity|page_small]|].
  intros n o' [_ Hr]. exact Hr.
Defined.

Lemma compaction_hides_marks_witness : ∃ o : opfs disk,
  runs (OpfsStorage.delete_synced_before "app" 10;; OpfsStorage.mark_synced "entry-1" 7;;
        OpfsStorage.read_pending_oplog "app" 50) o
    (λ l _, ∃ pending, l = take 50 pending ∧ sample_entry "entry-1" ∈ pending).
Proof.
  destruct sample_uncompacted as [o Ho]. exists o.
  apply (compaction_hides_marks _ 101 o "app" 10 "entry-1" 7 (sample_entry "entry-1") 50 Ho);
    [vm_compute; reflexivity|page_small|reflexivity|reflexivity|reflexivity|page_small].
Defined.
