(* ===== verification/OpfsMetadata.v ===== *)
(** * The metadata of the browser storage

    The sync state, the schemas, the migrations and the keys are values that are
    replaced as a whole, each in the current page of its store.  A value that is
    written reads back; an interrupted write and the cleanup of tombstoned pages
    lose it. *)
From S2P Require Import Prelude Text Types Storage Opfs PageStore OpfsStorage PageWire PageStoreTheory OpfsStorageTheory.

Section metadata.
Context {D : Type} {HO : Opfs D} {HOS : OpfsSpec D} {K : PageCodec} {HK : PageCodecSpec K}.
Import PageStore.

(** The index after the current page was replaced. *)
Definition rotated (n c : PageId) (ci : ContentIndex) : ContentIndex :=
  let ci := ContentIndex.track n (KSequence n) ci in
  if (0 <? c)%N && negb (c =? n)%N then (ContentIndex.remove_by_page_id c ci).2 else ci.

Lemma rotate_runs pg h c ci s0 (s : page_store D) : store_has pg h c ci s0 s →
  runs allocate_and_rotate s (λ r s', r = (next_id h, c) ∧
    store_has pg (wrapping_add64 (next_id h) 1) (next_id h) (rotated (next_id h) c ci) s0 s').
Proof.
  intros [(m & [Hs Hm _] & Hcore) [Hgc Hcount]]. unfold allocate_and_rotate.
  assert (next_page (ps_manifest s) = next_id h) as Hnext.
  { unfold next_page, next_id. rewrite Hm. destruct m. by injection Hcore as -> _ _. }
  assert (sm_current_page (ps_manifest s) = c) as Hcur by (rewrite Hm; destruct m; by injection Hcore as _ -> _).
  edits. rewrite Hnext, Hcur in *. apply runs_bind.
  set (b := (0 <? c)%N && negb (c =? next_id h)%N) in *.
  assert (∀ s1, pages_are pg s1 → core (ps_manifest s1) = (wrapping_add64 (next_id h) 1, next_id h, ContentIndex.track (next_id h) (KSequence (next_id h)) ci) →
    ps_gc_needed s1 = ps_gc_needed s0 → ps_pending_count s1 = ps_pending_count s0 →
    runs (if b then modify_manifest (StoreManifest.on_index (λ ci, (ContentIndex.remove_by_page_id c ci).2)) else mret tt) s1
      (λ _ s2, pages_are pg s2 ∧ core (ps_manifest s2) = (wrapping_add64 (next_id h) 1, next_id h, rotated (next_id h) c ci) ∧
        ps_gc_needed s2 = ps_gc_needed s0 ∧ ps_pending_count s2 = ps_pending_count s0)) as Hif.
  { intros s1 Hs1 Hc1 Hg1 Hp1. unfold rotated. fold b. destruct b; [|by apply runs_ret].
    eapply modify_manifest_runs; [done|]. intros Hs2. split_and!; [done| |done|done]. cores. by rewrite Hc1. }
  eapply runs_weaken; [apply Hif; [eassumption| |done|done]|].
  { cores. by rewrite Hcore. }
  intros [] s2 (Hs2 & Hc2 & Hg2 & Hp2). edits. apply runs_bind.
  eapply runs_weaken; [by apply persist_runs|]. intros [] s3 [(m3 & Hm3 & Hcore3) [Hg3 Hp3]]. apply runs_ret.
  split; [done|]. split; [|rests]. exists m3. split; [done|]. rewrite Hcore3. cores. done.
Qed.

(** The old page is marked in its file only. *)
Lemma tombstone_file_runs pg h c ci s0 (s : page_store D) q : store_has pg h c ci s0 s →
  runs (tombstone_page_file_only q) s (λ _, store_has (delete q pg) h c ci s0).
Proof.
  intros [(m & [Hs Hm Hd] & Hcore) [Hgc Hcount]]. unfold tombstone_page_file_only. apply runs_bind, runs_modify.
  set (s1 := set_cache (PageCache.remove q (ps_page_cache s)) s). pose proof (fa_files _ _ (pa_dir _ _ Hs) q) as Hf.
  pose proof (fa_works _ _ (pa_dir _ _ Hs)) as Hw. destruct Hs as [Hdir Hc Ha]. apply runs_bind.
  assert (∀ d, files_are (delete q pg) d → on_disk m d → store_has (delete q pg) h c ci s0 (set_dir d s1)) as Hend.
  { intros d Hd' Hm'. split; [|done]. exists m. split; [|done]. split; [|done|done].
    split; simpl; [done|by apply cache_remove_ok|by apply cache_remove_agrees]. }
  destruct (fs_files (ps_dir s) !! page_filename q) as [bs|] eqn:Hq.
  - apply runs_try_ok, runs_zoom. eapply runs_weaken; [by apply read_bytes_runs|]. intros ? d [-> Hsame].
    apply runs_zoom. pose proof (files_are_same _ _ _ Hdir Hsame) as Hdir'.
    eapply runs_weaken; [eapply bury_file_runs; [exact Hdir'|simpl; by rewrite (proj1 Hsame)]|]. intros [] d' [Hd' Hdisk].
    apply (Hend d'); [done|]. apply Hdisk. eapply on_disk_same; [apply Hsame|done].
  - destruct (read_bytes_missing _ _ Hw Hq) as (e & d & Hr & Hnf & Hsame).
    apply runs_try. unfold on_dir, zoom. simpl. rewrite Hr. rewrite Hnf. cbn [orb]. apply runs_ret.
    apply (Hend d); [|by eapply on_disk_same; [apply Hsame|]]. rewrite delete_id by done. by eapply files_are_same.
Qed.

Context {T : Type} {HT : Postcard T} {HTS : PostcardSpec T}.

(** The current page holds the value. *)
Lemma read_value_runs pg h c ci s0 (s : page_store D) (v : T) enc : store_has pg h c ci s0 s → c ≠ 0%N →
  pg !! c = Some enc → to_allocvec v = Ok enc →
  runs MetadataStore.read s (λ r s', r = Some v ∧ store_has pg h c ci s0 s').
Proof.
  intros Hs Hc Hpg Henc. unfold MetadataStore.read. apply runs_bind. eapply runs_weaken; [by eapply current_page_runs|].
  intros cur s1 [-> Hs1]. rewrite (proj2 (N.eqb_neq c 0)) by done. apply runs_bind, runs_try_ok.
  eapply runs_weaken; [by eapply read_has_runs|]. intros r s2 [-> Hs2]. apply runs_ret. rewrite Hpg.
  pose proof (from_to_postcard _ _ [] Henc) as Hdec. rewrite app_nil_r in Hdec. by rewrite Hdec.
Qed.

(** No current page, or none that is there. *)
Lemma read_none_runs pg h c ci s0 (s : page_store D) : store_has pg h c ci s0 s → c = 0%N ∨ pg !! c = None →
  runs (MetadataStore.read (T := T)) s (λ r _, r = None).
Proof.
  intros Hs Hc. unfold MetadataStore.read. apply runs_bind. eapply runs_weaken; [by eapply current_page_runs|].
  intros cur s1 [-> Hs1]. destruct (N.eqb_spec c 0) as [->|Hne]; [by apply runs_ret|]. destruct Hc as [Hc|Hc]; [done|].
  apply runs_bind, runs_try_ok. eapply runs_weaken; [by eapply read_has_runs|]. intros r s2 [-> Hs2]. apply runs_ret. by rewrite Hc.
Qed.

Definition value_fits (v : T) : Prop := ∀ enc, to_allocvec v = Ok enc → page_sized enc.

Lemma next_id_pos h : next_id h ≠ 0%N.
Proof. unfold next_id. destruct (N.ltb_spec h 100); lia. Qed.

Lemma write_value_runs pg h c ci s0 (s : page_store D) (v : T) : store_has pg h c ci s0 s → value_fits v →
  runs (MetadataStore.write v) s (λ _ s', ∃ pg' ci' h' c' enc, store_has pg' h' c' ci' s0 s' ∧ c' ≠ 0%N ∧
    pg' !! c' = Some enc ∧ to_allocvec v = Ok enc).
Proof.
  intros Hs Hfit. unfold MetadataStore.write. destruct (to_allocvec_ok v) as [enc Henc]. rewrite Henc.
  apply runs_bind. eapply runs_weaken; [by apply rotate_runs|]. intros [n old] s1 [[= -> ->] Hs1].
  destruct Hs1 as [(m & [Hp1 Hm1 Hd1] & Hc1) [Hg1 Hn1]].
  apply runs_bind. eapply runs_weaken; [by apply write_raw_runs, Hfit|]. intros [] s2 [Hp2 (Hr2 & Hg2 & _ & Hc2 & Hd2)].
  assert (store_has (<[next_id h := enc]> pg) (wrapping_add64 (next_id h) 1) (next_id h) (rotated (next_id h) c ci) s0 s2) as Hs2.
  { split; [|split; congruence]. exists m. split; [|done]. split; [done|congruence|auto]. }
  destruct (_ && _) eqn:Hold.
  - apply runs_bind, runs_try_ok. eapply runs_weaken; [by apply tombstone_file_runs|]. intros [] s3 Hs3. apply runs_ret.
    eexists _, _, _, _, _. split_and!; [exact Hs3|apply next_id_pos| |done].
    apply andb_true_iff in Hold as [_ Hne%negb_true_iff%N.eqb_neq]. rewrite lookup_delete_ne by done. apply lookup_insert_eq.
  - apply runs_ret. eexists _, _, _, _, _. split_and!; [exact Hs2|apply next_id_pos|apply lookup_insert_eq|done].
Qed.

(** A metadata value that was written reads back, in the same session and
    after the directory is opened again, whatever value was there before. *)
Theorem metadata_write_then_read pg h c ci s0 (s : page_store D) (v : T) name : store_has pg h c ci s0 s → value_fits v →
  runs (MetadataStore.write v;; MetadataStore.read) s (λ r s', r = Some v ∧
    ∃ s2 d, open name (ps_dir s') = (Ok s2, d) ∧ runs MetadataStore.read s2 (λ r _, r = Some v)).
Proof.
  intros Hs Hfit. apply runs_bind. eapply runs_weaken; [by eapply write_value_runs|].
  intros [] s1 (pg1 & ci1 & h1 & c1 & enc & Hs1 & Hc1 & Hpg1 & Henc).
  eapply runs_weaken; [by eapply read_value_runs|]. intros r s2 [-> Hs2]. split; [done|].
  destruct Hs2 as [(m & [Hp2 Hm2 Hd2] & Hcore) _].
  destruct (reopen_runs pg1 m name (ps_dir s2)) as (s3 & d & Ho & Hs3 & _); [apply Hp2|done|].
  exists s3, d. split; [done|]. eapply runs_weaken; [eapply (read_value_runs pg1 h1 c1 ci1 s3)|by intros r s4 [-> _]].
  - split; [|done]. exists (sealed m). split; [done|]. by rewrite core_sealed.
  - done.
  - exact Hpg1.
  - exact Henc.
Qed.

(** A metadata write publishes the number of its page before the page is
    written: if the tab closes in between, the store opens with a current page
    that does not exist and reads as empty, although the previous value was
    never removed. *)
Theorem metadata_crash_loses_value pg h c ci s0 (s : page_store D) (old : T) enc name :
  store_has pg h c ci s0 s → c ≠ 0%N → pg !! c = Some enc → to_allocvec old = Ok enc → pg !! next_id h = None →
  runs MetadataStore.read s (λ r _, r = Some old) ∧
  runs allocate_and_rotate s (λ _ s', ∃ s2 d, open name (ps_dir s') = (Ok s2, d) ∧
    runs (MetadataStore.read (T := T)) s2 (λ r _, r = None)).
Proof.
  intros Hs Hc Hpg Henc Hnone. split; [eapply runs_weaken; [by eapply read_value_runs|by intros r s1 [-> _]]|].
  eapply runs_weaken; [by apply rotate_runs|]. intros r s1 [_ Hs1]. destruct Hs1 as [(m & [Hp1 Hm1 Hd1] & Hc1) _].
  destruct (reopen_runs pg m name (ps_dir s1)) as (s2 & d & Ho & Hs2 & _); [apply Hp1|done|].
  exists s2, d. split; [done|]. eapply (read_none_runs pg _ (next_id h) _ s2); [|by right].
  split; [|done]. exists (sealed m). split; [done|]. by rewrite core_sealed.
Qed.
End metadata.

(** ** Cleaning up *)

Section cleanup.
Context {D : Type} {HO : Opfs D} {HOS : OpfsSpec D} {K : PageCodec} {HK : PageCodecSpec K}.
Import PageStore.

(** The directory holds the manifest and page files. *)
Definition tidy (d : D) : Prop :=
  ∀ n, is_Some (fs_files d !! n) → n = "_manifest" ∨ ∃ q, (100 ≤ q ≤ U64_MAX)%N ∧ n = page_filename q.

Lemma header_runs pg d q bs : files_are pg d → fs_files d !! page_filename q = Some bs →
  runs (read_page_header (page_filename q)) d (λ r d', same_dir d d' ∧
    ∃ hd, r = Some hd ∧ (is_tombstoned hd = true ↔ pg !! q = None)).
Proof.
  intros Hd Hq. pose proof (fa_files _ _ Hd q) as Hf. rewrite Hq in Hf. destruct Hf as (data & Hsz & Henc).
  assert (∃ flags, encode_v3_page data flags = Ok bs ∧ (is_tombstoned (page_header data flags) = true ↔ pg !! q = None))
    as (flags & Hbs & Hflags).
  { destruct Henc as [[He Hpg]|[He Hpg]]; [exists 0%N|exists TOMBSTONE]; (split; [done|]); rewrite Hpg; done. }
  destruct (decode_encoded_head _ _ _ Hbs) as [Hne Hdec]. unfold read_page_header. apply runs_bind.
  pose proof (file_head_spec 128 (page_filename q) d) as Hs. apply runs_try. unfold read_header_bytes, fs, sm_map_err.
  destruct (file_head 128 (page_filename q) d) as [[b|e] d'], Hs as (Hf & Hw & Hr).
  - rewrite Hq in Hr. injection Hr as <-. destruct (take 128 bs) as [|x l] eqn:E; [done|].
    apply runs_bind. unfold lift_result. rewrite Hdec. eapply runs_intro; [done|]. apply runs_ret.
    split; [split; [done|apply Hw, Hd]|]. by eexists.
  - destruct (Hr (fa_works _ _ Hd)) as [Hr' _]. congruence.
Qed.

Lemma delete_file_runs n bs d : fs_works d → fs_files d !! n = Some bs →
  runs (delete_file n) d (λ _ d', fs_files d' = delete n (fs_files d) ∧ fs_works d').
Proof.
  intros Hw Hn. unfold runs, delete_file, fs, sm_map_err. pose proof (file_remove_spec n d) as Hs.
  destruct (file_remove n d) as [[[]|e] d'], Hs as [Hw' Hr]; [by eexists _, _; split; [|split; [apply Hr|auto]]|].
  destruct Hr as [_ Hr]. destruct (Hr Hw). congruence.
Qed.

(** Only the files of tombstoned pages go. *)
Lemma cleanup_entry_runs pg d name : files_are pg d → tidy d → is_Some (fs_files d !! name) →
  runs (cleanup_entry name) d (λ removed d', files_are pg d' ∧ (∀ n, n ≠ name → fs_files d' !! n = fs_files d !! n) ∧
    (∀ n, is_Some (fs_files d' !! n) → is_Some (fs_files d !! n)) ∧
    (∀ q, name = page_filename q → pg !! q = None → removed = true)).
Proof.
  intros Hd Htidy [bs Hname]. unfold cleanup_entry. destruct (Htidy name) as [->|(q & Hq & ->)]; [by eexists|..].
  { replace (parse_page_id "_manifest") with (@None PageId) by (vm_compute; reflexivity). apply runs_ret.
    split_and!; [done|done|done|]. intros q Heq. by destruct (page_filename_manifest q). }
  rewrite parse_page_filename by lia. rewrite (proj2 (N.eqb_neq q 0)) by lia. apply runs_bind, runs_ret.
  apply runs_bind, runs_try_ok. eapply runs_weaken; [by eapply header_runs|].
  intros r d1 (Hsame & hd & -> & Hhd). pose proof (files_are_same _ _ _ Hd Hsame) as Hd1.
  assert (fs_files d1 !! page_filename q = Some bs) as Hname1 by (by rewrite (proj1 Hsame)).
  destruct (is_tombstoned hd) eqn:Htomb.
  - apply runs_bind. eapply runs_weaken; [eapply delete_file_runs; [apply Hd1|done]|]. intros [] d2 [Hf2 Hw2]. apply runs_ret.
    assert (pg !! q = None) as Hpg by (by apply Hhd). split_and!; [|intros n Hn|intros n|done].
    + split; [done|]. intros q'. rewrite Hf2. destruct (decide (q' = q)) as [->|Hne]; [by rewrite lookup_delete_eq|].
      rewrite lookup_delete_ne by (by intros ?%page_filename_inj). apply Hd1.
    + by rewrite Hf2, lookup_delete_ne, (proj1 Hsame).
    + rewrite Hf2, lookup_delete_is_Some, (proj1 Hsame). tauto.
  - apply runs_ret. split_and!; [done|intros n _; by rewrite (proj1 Hsame)|intros n; by rewrite (proj1 Hsame)|].
    intros q' ->%page_filename_inj Hpg. by apply Hhd.
Qed.

Lemma cleanup_files_runs pg d names : files_are pg d → tidy d → NoDup names → (∀ n, n ∈ names → is_Some (fs_files d !! n)) →
  runs (cleanup_files names) d (λ k d', files_are pg d' ∧
    (∀ q, page_filename q ∈ names → pg !! q = None → 0 < k)).
Proof.
  revert d. induction names as [|name names IH]; intros d Hd Htidy Hnd Hin; cbn [cleanup_files].
  { apply runs_ret. split; [done|]. by intros q ?%elem_of_nil. }
  apply NoDup_cons in Hnd as [Hnot Hnd]. apply runs_bind.
  eapply runs_weaken; [by eapply cleanup_entry_runs, Hin, list_elem_of_here|]. intros removed d1 (Hd1 & Hsame & Hsub & Hrem).
  apply runs_bind. eapply runs_weaken; [apply (IH d1); [done| |done|]|].
  - intros n Hn. by apply Htidy, Hsub.
  - intros n Hn. rewrite Hsame by congruence. by apply Hin, list_elem_of_further.
  - intros k d2 [Hd2 Hk]. apply runs_ret. split; [done|]. intros q [<-|Hq]%elem_of_cons Hpg.
    + rewrite (Hrem q) by done. lia.
    + specialize (Hk q Hq Hpg). destruct removed; lia.
Qed.

Lemma cleanup_runs pg m (s : page_store D) q : store_is pg m s → tidy (ps_dir s) →
  is_Some (fs_files (ps_dir s) !! page_filename q) → pg !! q = None →
  runs cleanup_tombstoned_pages s (λ k s', 0 < k ∧ ∃ h ci, store_has pg h 0 ci s' s').
Proof.
  intros [[Hd Hc Ha] Hm _] Htidy Hq Hpg. unfold cleanup_tombstoned_pages. apply runs_bind, runs_zoom, runs_bind.
  unfold entries, runs at 1. pose proof (dir_entries_spec (ps_dir s)) as Hs.
  destruct (dir_entries (ps_dir s)) as [names d1], Hs as (Hf1 & Hw1 & Hnd & Hin & Hall). eexists _, _. split; [done|].
  eapply runs_weaken; [apply (cleanup_files_runs pg d1 names); [|by intros n; rewrite Hf1; apply Htidy|done|by rewrite Hf1]|].
  { split; [apply Hw1, Hd|]. rewrite Hf1. apply Hd. }
  intros k d2 [Hd2 Hk]. assert (0 < k) as Hpos by (apply (Hk q); [by apply Hall; [apply Hd|]|done]).
  rewrite (proj2 (Nat.ltb_lt 0 k)) by done. apply runs_bind, runs_bind, runs_zoom.
  eapply runs_weaken; [apply rebuild_runs, Hd2|]. intros rebuilt d3 (Hsame & Hcur & _).
  eapply runs_weaken; [apply (persist_runs pg)|].
  { split; simpl; [by eapply files_are_same|done|done]. }
  intros [] s4 [(m4 & Hm4 & Hcore) _]. apply runs_ret. split; [done|]. exists (sm_highest_page_id rebuilt), (sm_content_index rebuilt).
  split; [|done]. exists m4. split; [done|]. rewrite Hcore. unfold core. by rewrite Hcur.
Qed.

(** Cleaning up the tombstoned pages of a metadata store loses its value:
    the manifest is rebuilt from the files, without a current page, and the
    value, whose page is still there, is not found any more. *)
Theorem cleanup_loses_metadata {T} `{PostcardSpec T} pg h c ci (s : page_store D) (v : T) enc q :
  store_has pg h c ci s s → c ≠ 0%N → pg !! c = Some enc → to_allocvec v = Ok enc →
  tidy (ps_dir s) → is_Some (fs_files (ps_dir s) !! page_filename q) → pg !! q = None →
  runs MetadataStore.read s (λ r _, r = Some v) ∧
  runs (cleanup_tombstoned_pages;; MetadataStore.read (T := T)) s (λ r _, r = None).
Proof.
  intros Hs Hc Hpg Henc Htidy Hq Hnone. split; [eapply runs_weaken; [by eapply read_value_runs|by intros r s1 [-> _]]|].
  destruct Hs as [(m & Hm & Hcore) _]. apply runs_bind. eapply runs_weaken; [by eapply cleanup_runs|].
  intros k s1 (_ & h1 & ci1 & Hs1). eapply read_none_runs; [exact Hs1|by left].
Qed.
End cleanup.

(** ** Witnesses *)

#[local] Instance sync_state_spec : PostcardSpec SyncState := wire_postcard_spec wire_sync_state.

Definition sample_state : SyncState := SyncState_new "app" "replica" 7 Connected None (Some 5%N) None 1 "gen".
Definition sample_page : bytes := ser wire_sync_state sample_state.
Definition sample_manifest : StoreManifest := StoreManifest_new 2 0 102 101 0 0 1 1 0 0 ContentIndex.new 0 1.

Definition encoded_page (data : bytes) (flags : N) : bytes :=
  match encode_v3_page data flags with Ok bs => bs | Err _ => [] end.

(** The current page 101, and the page before it with its tombstone. *)
Definition sample_dir : disk :=
  Disk (<["_manifest" := ser wire_manifest (sealed sample_manifest)]>
       (<[page_filename 101 := encoded_page sample_page 0]> {[page_filename 100 := encoded_page [9%N] TOMBSTONE]})) 0 [].
Definition sample_store : page_store disk := opened_with "sync_states" sample_manifest sample_dir.

Lemma sample_files : files_are {[101%N := sample_page]} sample_dir.
Proof.
  split; [done|]. intros q. unfold sample_dir, fs_files, disk_opfs_spec, dk_files.
  rewrite lookup_insert_ne by (intros Heq; by apply (page_filename_manifest q)).
  destruct (decide (q = 101%N)) as [->|H1]; [|destruct (decide (q = 100%N)) as [->|H2]].
  - rewrite lookup_insert_eq, lookup_singleton_eq. exists sample_page. split; [vm_compute; reflexivity|]. left.
    split; [vm_compute; reflexivity|done].
  - rewrite lookup_insert_ne by (by intros ?%page_filename_inj). rewrite lookup_singleton_eq. exists [9%N].
    split; [vm_compute; reflexivity|]. right. split; [vm_compute; reflexivity|done].
  - rewrite lookup_insert_ne by (by intros ?%page_filename_inj; congruence).
    rewrite !lookup_singleton_ne by (congruence || by intros ?%page_filename_inj; congruence). done.
Qed.

Lemma sample_store_has : store_has {[101%N := sample_page]} 102 101 ContentIndex.new sample_store sample_store.
Proof.
  split; [|done]. exists sample_manifest. split; [|done]. split; [apply (pages_are_opened _ _ sample_manifest), sample_files|done|].
  exists (ser wire_manifest (sealed sample_manifest)). split; [apply lookup_insert_eq|reflexivity].
Qed.

Lemma sample_tidy : tidy sample_dir.
Proof.
  intros n. unfold sample_dir, fs_files, disk_opfs_spec, dk_files.
  rewrite !lookup_insert_is_Some, lookup_singleton_is_Some. intros [<-|[_ [<-|[_ <-]]]]; [by left|right|right].
  - exists 101%N. done.
  - exists 100%N. done.
Qed.

Lemma sample_value_fits : value_fits sample_state.
Proof. intros enc [= <-]. vm_compute. reflexivity. Qed.

Lemma metadata_write_then_read_witness :
  runs (MetadataStore.write sample_state;; MetadataStore.read) sample_store (λ r s', r = Some sample_state ∧
    ∃ s2 d, PageStore.open "sync_states" (ps_dir s') = (Ok s2, d) ∧ runs MetadataStore.read s2 (λ r _, r = Some sample_state)).
Proof. apply (metadata_write_then_read _ _ _ _ _ _ sample_state "sync_states" sample_store_has sample_value_fits). Defined.

Lemma metadata_crash_loses_value_witness :
  runs MetadataStore.read sample_store (λ r _, r = Some sample_state) ∧
  runs PageStore.allocate_and_rotate sample_store (λ _ s', ∃ s2 d, PageStore.open "sync_states" (ps_dir s') = (Ok s2, d) ∧
    runs (MetadataStore.read (T := SyncState)) s2 (λ r _, r = None)).
Proof.
  apply (metadata_crash_loses_value _ _ _ _ _ _ sample_state sample_page "sync_states" sample_store_has);
    [discriminate|reflexivity|reflexivity|reflexivity].
Defined.

Lemma cleanup_loses_metadata_witness :
  runs MetadataStore.read sample_store (λ r _, r = Some sample_state) ∧
  runs (PageStore.cleanup_tombstoned_pages;; MetadataStore.read (T := SyncState)) sample_store (λ r _, r = None).
Proof.
  apply (cleanup_loses_metadata _ _ _ _ _ sample_state sample_page 100 sample_store_has);
    [discriminate|reflexivity|reflexivity|apply sample_tidy| |reflexivity].
  exists (encoded_page [9%N] TOMBSTONE). vm_compute. reflexivity.
Defined.
