(* ===== verification/LeaderElection.v ===== *)
(** * Leader election

    [ipc/leader_election.rs], the event bus of [runtime_bus.rs] and the states of
    [runtime_state.rs].  One of the instances that share a storage leads, by
    holding a lock: a locked file on Unix, a Web Lock in a browser.  The locks are
    interfaces with the laws that their documentation states.  The Unix build is a set of calls over the files
    of the system; the browser build is a set of events, since the browser runs
    the callbacks of a lock between the calls of the program. *)
From S2P Require Import Prelude Text F64 Types.

(** ** The bus

    The handler of a subscriber is represented by the events with which it was
    called. *)
Module RuntimeBus.
Record t (E : Type) := RuntimeBus_new { subscribers : gmap N (list E); next_id : N }.
Arguments RuntimeBus_new {E}.
Arguments subscribers {E}.
Arguments next_id {E}.

Definition new {E} : t E := RuntimeBus_new ∅ 1.

Definition subscribe {E} (b : t E) : N * t E :=
  (next_id b, RuntimeBus_new (<[next_id b := []]> (subscribers b)) (wrapping_add64 (next_id b) 1)).

Definition unsubscribe {E} (id : N) (b : t E) : t E := RuntimeBus_new (delete id (subscribers b)) (next_id b).

Definition publish {E} (event : E) (b : t E) : t E :=
  RuntimeBus_new ((λ called, called ++ [event]) <$> subscribers b) (next_id b).

Definition subscriber_count {E} (b : t E) : nat := size (subscribers b).
End RuntimeBus.

(** ** The states of a runtime

    [runtime_state.rs]. *)
Module RuntimeState.
Inductive DegradedReason := DStorage | DCoordinator | DWebSocket | DBroadcast | DMaintenance.

Inductive t :=
  | Starting
  | Hydrating
  | Mirroring
  | Promoting
  | Leading
  | Degraded (reason : DegradedReason)
  | ShuttingDown.

#[export] Instance DegradedReason_eq_dec : EqDecision DegradedReason.
Proof. solve_decision. Defined.
#[export] Instance state_eq_dec : EqDecision t.
Proof. solve_decision. Defined.

(** [RuntimeState]'s [Debug] is a parameter. *)
Definition transition (debug : t → string) (self target : t) : result t string :=
  match self, target with
  | Starting, Hydrating => Ok target
  | Starting, Leading => Ok target
  | Starting, Mirroring => Ok target
  | Starting, ShuttingDown => Ok target
  | Hydrating, Leading => Ok target
  | Hydrating, Mirroring => Ok target
  | Hydrating, ShuttingDown => Ok target
  | Mirroring, Promoting => Ok target
  | Mirroring, Hydrating => Ok target
  | Mirroring, ShuttingDown => Ok target
  | Promoting, Hydrating => Ok target
  | Promoting, Leading => Ok target
  | Promoting, Mirroring => Ok target
  | Promoting, ShuttingDown => Ok target
  | Leading, Degraded _ => Ok target
  | Leading, ShuttingDown => Ok target
  | Degraded _, Leading => Ok target
  | Degraded _, ShuttingDown => Ok target
  | ShuttingDown, _ => Err "ShuttingDown is terminal — no outgoing transitions"
  | _, _ => Err ("Illegal transition: " +:+ debug self +:+ " → " +:+ debug target)
  end.

(** A build with debug assertions panics instead of returning an error. *)
Definition transition_checked (debug_assertions : bool) (debug : t → string) (self target : t) : result t (fault string) :=
  match transition debug self target with
  | Ok s => Ok s
  | Err msg => if debug_assertions then Err Panicked else Err (Fail msg)
  end.

Definition is_leader (s : t) : bool := match s with Leading => true | _ => false end.
Definition is_follower (s : t) : bool := match s with Mirroring => true | _ => false end.
Definition can_read (s : t) : bool := match s with Leading | Mirroring | Degraded _ => true | _ => false end.
Definition is_hydrating (s : t) : bool := match s with Hydrating => true | _ => false end.
Definition can_write (s : t) : bool := match s with Leading => true | _ => false end.

(** [RuntimeCapabilities]: the bits of STORAGE, COORDINATOR, UPLOADS and
    RECONCILIATION. *)
Definition STORAGE : N := 1.
Definition ALL_CAPABILITIES : N := 15.

Definition default_capabilities (s : t) : N :=
  match s with
  | Leading | Degraded _ => ALL_CAPABILITIES
  | Mirroring | Promoting | Hydrating => STORAGE
  | Starting | ShuttingDown => 0
  end.

Inductive ConnectionState := CLeader | CMirror | CRecovering | CConnecting | CPromoting | COffline.

Definition to_connection_state (s : t) : ConnectionState :=
  match s with
  | Leading => CLeader
  | Mirroring => CMirror
  | Promoting => CPromoting
  | Hydrating => CConnecting
  | Degraded _ => CLeader
  | Starting => CConnecting
  | ShuttingDown => COffline
  end.
End RuntimeState.

(** ** Data *)

Inductive LeaderEvent :=
  | Acquired (timestamp_ms : f64)
  | Waiting
  | Released
  | Lost
  | LeaderFailed (msg : string).

Inductive AcquireMode := Immediate | Wait.

Inductive StorageConfig := Sqlite (path : string) | InMemory | Wasm.

(** [H] is the handle of a lock. *)
Record Lease (H : Type) := Lease_new { ls_handle : H; ls_acquired_at : f64 }.
Arguments Lease_new {H}.
Arguments ls_handle {H}.
Arguments ls_acquired_at {H}.

Inductive AcquireResult (H : Type) :=
  | GotLease (lease : Lease H)
  | MustWait
  | Unsupported.
Arguments GotLease {H}.
Arguments MustWait {H}.
Arguments Unsupported {H}.

Record LeaderElection (H : Type) := LeaderElection_new {
  le_namespace : string;
  le_unique_key : string;
  le_is_leader : bool;
  le_lock_handle : option H;
  le_event_bus : RuntimeBus.t LeaderEvent;
}.
Arguments LeaderElection_new {H}.
Arguments le_namespace {H}.
Arguments le_unique_key {H}.
Arguments le_is_leader {H}.
Arguments le_lock_handle {H}.
Arguments le_event_bus {H}.

Section election.
Context {H : Type}.
(** [hex::encode] of the SHA-256 of a path. *)
Context (sha256_hex : string → string).

Definition unique_key (storage : StorageConfig) : string :=
  match storage with
  | Sqlite path => sha256_hex path
  | InMemory => "in-memory"
  | Wasm => "wasm"
  end.

Definition election_new (namespace : string) (storage : StorageConfig) : LeaderElection H :=
  LeaderElection_new namespace (unique_key storage) false None RuntimeBus.new.

(** [is_leader.store] and [event_bus.publish]. *)
Definition store_leader (b : bool) (e : LeaderElection H) : LeaderElection H :=
  LeaderElection_new (le_namespace e) (le_unique_key e) b (le_lock_handle e) (le_event_bus e).
Definition set_handle (h : option H) (e : LeaderElection H) : LeaderElection H :=
  LeaderElection_new (le_namespace e) (le_unique_key e) (le_is_leader e) h (le_event_bus e).
Definition emit (ev : LeaderEvent) (e : LeaderElection H) : LeaderElection H :=
  LeaderElection_new (le_namespace e) (le_unique_key e) (le_is_leader e) (le_lock_handle e)
    (RuntimeBus.publish ev (le_event_bus e)).

Definition set_is_leader (val : bool) (now : f64) (e : LeaderElection H) : LeaderElection H :=
  if val then emit (Acquired now) (store_leader true e) else emit Released (store_leader false e).

(** What the two builds share of a lock's name. *)
Definition lock_name (e : LeaderElection H) : string :=
  "vaultsync-" +:+ le_namespace e +:+ "-" +:+ le_unique_key e.
End election.

(** ** The Unix build *)

Inductive flock_error := WouldBlock | OtherErrno (text : string).

(** The files of the system: [OpenOptions::open] with [create], [flock] with
    [LOCK_EX | LOCK_NB], and closing.  [file_path] and [lock_holder] describe the
    system's table: the path of an open file, and the open file that has the lock
    of a path. *)
Class LockFiles (W : Type) := {
  open_file : string → SM W string N;
  flock : N → SM W flock_error unit;
  close_file : N → W → W;
  file_path : W → N → option string;
  lock_holder : W → string → option N;
}.

(** What open(2), flock(2) and close(2) say. *)
Class LockFilesSpec (W : Type) `{LockFiles W} := {
  open_file_ok p w fd w' : open_file p w = (Ok fd, w') →
    file_path w fd = None ∧ (∀ fd', file_path w' fd' = if decide (fd' = fd) then Some p else file_path w fd') ∧
    ∀ p', lock_holder w' p' = lock_holder w p';
  open_file_err p w e w' : open_file p w = (Err e, w') → w' = w;
  flock_ok fd p w w' : file_path w fd = Some p → flock fd w = (Ok tt, w') →
    (lock_holder w p = None ∨ lock_holder w p = Some fd) ∧
    (∀ p', lock_holder w' p' = if decide (p' = p) then Some fd else lock_holder w p') ∧
    ∀ fd', file_path w' fd' = file_path w fd';
  flock_err fd p w e w' : file_path w fd = Some p → flock fd w = (Err e, w') →
    w' = w ∧ (e = WouldBlock → ∃ fd', fd' ≠ fd ∧ lock_holder w p = Some fd');
  close_file_path fd w fd' : file_path (close_file fd w) fd' = if decide (fd' = fd) then None else file_path w fd';
  close_file_holder fd w p :
    lock_holder (close_file fd w) p = if decide (lock_holder w p = Some fd) then None else lock_holder w p;
  holder_open w p fd : lock_holder w p = Some fd → file_path w fd = Some p;
}.

Section native.
Context {W : Type} {HW : LockFiles W}.
(** [std::env::temp_dir], with the separator of [join]. *)
Context (temp_dir : string).

(** One election and the files. *)
Record Native := Native_new { na_election : LeaderElection N; na_files : W }.

Abbreviation M := (SM Native VaultSyncError).

Definition on_self (f : LeaderElection N → LeaderElection N) : M unit :=
  sm_modify (λ s, Native_new (f (na_election s)) (na_files s)).
Definition on_files {E A} (m : SM W E A) : SM Native VaultSyncError (result A E) := λ s,
  let '(r, w) := m (na_files s) in (Ok r, Native_new (na_election s) w).
Definition is_leader : M bool := sm_gets (λ s, le_is_leader (na_election s)).

(** [lock_handle.lock().unwrap().take()]. *)
Definition take_handle : M (option N) :=
  handle ← sm_gets (λ s, le_lock_handle (na_election s));
  on_self (set_handle None);;
  mret handle.

(** Closing a file, which is all that dropping a lease does. *)
Definition drop_file (fd : N) : M unit := sm_modify (λ s, Native_new (na_election s) (close_file fd (na_files s))).

Definition lock_path (e : LeaderElection N) : string := temp_dir +:+ lock_name e +:+ ".lock".

Definition acquire_immediate_sync (now : f64) : M (AcquireResult N) :=
  handle ← take_handle;
  match handle with
  | Some handle => on_self (store_leader true);; mret (GotLease (Lease_new handle now))
  | None =>
      path ← sm_gets (λ s, lock_path (na_election s));
      opened ← on_files (open_file path);
      match opened with
      | Err e => sm_fail (EStorage ("failed to open lock file: " +:+ e))
      | Ok fd =>
          ret ← on_files (flock fd);
          match ret with
          | Ok _ =>
              on_self (store_leader true);;
              on_self (emit (Acquired now));;
              mret (GotLease (Lease_new fd now))
          | Err WouldBlock =>
              on_self (emit Waiting);;
              drop_file fd;;
              mret MustWait
          | Err (OtherErrno text) =>
              drop_file fd;;
              sm_fail (EStorage ("flock failed: " +:+ text))
          end
      end
  end.

(** The opening lines of both modes of [acquire]. *)
Definition held_already (now : f64) (otherwise : M (AcquireResult N)) : M (AcquireResult N) :=
  leads ← is_leader;
  match leads with
  | true =>
      handle ← take_handle;
      match handle with
      | Some handle => mret (GotLease (Lease_new handle now))
      | None => otherwise
      end
  | false => otherwise
  end.

Definition acquire_immediate (now : f64) : M (AcquireResult N) := held_already now (acquire_immediate_sync now).
Definition acquire_wait (now : f64) : M (AcquireResult N) := held_already now (acquire_immediate_sync now).

Definition acquire (mode : AcquireMode) (now : f64) : M (AcquireResult N) :=
  match mode with
  | Immediate => acquire_immediate now
  | Wait => acquire_wait now
  end.

Definition drop_lease (lease : Lease N) : M unit := drop_file (ls_handle lease).

Definition try_acquire_immediate_sync (now : f64) : M bool :=
  got ← acquire_immediate_sync now;
  match got with
  | GotLease lease => drop_lease lease;; mret true
  | MustWait => mret false
  | Unsupported => mret true
  end.

Definition try_acquire (now : f64) : M bool :=
  handle ← sm_gets (λ s, le_lock_handle (na_election s));
  match handle with
  | Some _ => is_leader
  | None => try_acquire_immediate_sync now
  end.

Definition release : M unit :=
  handle ← take_handle;
  match handle with Some fd => drop_file fd | None => mret tt end;;
  on_self (store_leader false);;
  on_self (emit Released).
End native.
Arguments Native : clear implicits.
Arguments Native_new {W}.
Arguments na_election {W}.
Arguments na_files {W}.

(** *** Several elections

    The processes that share the files, and the leases that are alive, each with
    the election that gave it. *)
Record System (W : Type) := System_new {
  sy_elections : list (LeaderElection N);
  sy_leases : list (nat * Lease N);
  sy_files : W;
}.
Arguments System_new {W}.
Arguments sy_elections {W}.
Arguments sy_leases {W}.
Arguments sy_files {W}.

Inductive native_call :=
  | CNew (namespace : string) (storage : StorageConfig)
  | CAcquire (i : nat) (mode : AcquireMode) (now : f64)
  | CTryAcquire (i : nat) (now : f64)
  | CTryAcquireSync (i : nat) (now : f64)
  | CRelease (i : nat)
  | CSetIsLeader (i : nat) (val : bool) (now : f64)
  | CDropLease (k : nat).

Section system.
Context {W : Type} {HW : LockFiles W} (sha256_hex : string → string) (temp_dir : string).

(** A call of election [i], and what becomes of its result. *)
Definition call_election {A} (i : nat) (m : SM (Native W) VaultSyncError A)
    (leases : A → list (nat * Lease N)) (s : System W) : System W :=
  match sy_elections s !! i with
  | None => s
  | Some e =>
      let '(r, s') := m (Native_new e (sy_files s)) in
      System_new (<[i := na_election s']> (sy_elections s))
        (sy_leases s ++ match r with Ok a => leases a | Err _ => [] end) (na_files s')
  end.

Definition run_native (c : native_call) (s : System W) : System W :=
  match c with
  | CNew namespace storage =>
      System_new (sy_elections s ++ [election_new sha256_hex namespace storage]) (sy_leases s) (sy_files s)
  | CAcquire i mode now =>
      call_election i (acquire temp_dir mode now)
        (λ got, match got with GotLease lease => [(i, lease)] | _ => [] end) s
  | CTryAcquire i now => call_election i (try_acquire temp_dir now) (λ _, []) s
  | CTryAcquireSync i now => call_election i (try_acquire_immediate_sync temp_dir now) (λ _, []) s
  | CRelease i => call_election i release (λ _, []) s
  | CSetIsLeader i val now => call_election i (on_self (set_is_leader val now)) (λ _, []) s
  | CDropLease k =>
      match sy_leases s !! k with
      | None => s
      | Some (_, lease) =>
          System_new (sy_elections s) (delete k (sy_leases s)) (close_file (ls_handle lease) (sy_files s))
      end
  end.
End system.

(** ** The browser build *)

(** [navigator.locks]: a request that waits, a request with [ifAvailable], the
    grant of a lock to the first that waits, and the end of a callback, which
    frees the lock.  A request may also be rejected.  [wl_held] and [wl_queue]
    describe the lock manager: the request that has a lock, and those that wait. *)
Class WebLocks (L : Type) := {
  wl_request : string → string → L → option L;
  wl_request_available : string → string → L → option (bool * L);
  wl_grant : string → L → option (string * L);
  wl_unlock : string → string → L → L;
  wl_held : L → string → option string;
  wl_queue : L → string → list string;
}.

(** What the Web Locks standard says of exclusive locks. *)
Class WebLocksSpec (L : Type) `{WebLocks L} := {
  request_spec name id l l' : wl_request name id l = Some l' →
    (∀ n, wl_held l' n = wl_held l n) ∧
    ∀ n, wl_queue l' n = if decide (n = name) then wl_queue l name ++ [id] else wl_queue l n;
  request_available_spec name id l b l' : wl_request_available name id l = Some (b, l') →
    (∀ n, wl_queue l' n = wl_queue l n) ∧
    (b = true ↔ wl_held l name = None ∧ wl_queue l name = []) ∧
    ∀ n, wl_held l' n = if decide (b = true ∧ n = name) then Some id else wl_held l n;
  grant_spec name l id l' : wl_grant name l = Some (id, l') →
    wl_held l name = None ∧ (∀ n, wl_held l' n = if decide (n = name) then Some id else wl_held l n) ∧
    ∃ q, wl_queue l name = id :: q ∧ ∀ n, wl_queue l' n = if decide (n = name) then q else wl_queue l n;
  grant_progress name l id q : wl_held l name = None → wl_queue l name = id :: q → is_Some (wl_grant name l);
  unlock_spec name id l : wl_held l name = Some id →
    (∀ n, wl_held (wl_unlock name id l) n = if decide (n = name) then None else wl_held l n) ∧
    ∀ n, wl_queue (wl_unlock name id l) n = wl_queue l n;
}.

Record WasmLockState := WasmLockState_new { wk_name : string; wk_id : string }.

(** How far the callback of a request is: waiting for the lock; granted, or
    refused, and not yet called; called, and waiting for its release; past
    [on_released], with the lock not yet free. *)
Inductive phase := Queued | Granted | Refused | Running | Finishing.

(** The promise that [acquire_lock_immediate] returns, while the program awaits
    it. *)
Inductive waiter := NoWaiter | Unresolved | Resolved (acquired : bool).

Record request := Request {
  rq_election : nat;
  rq_name : string;
  rq_phase : phase;
  rq_waiter : waiter;
  (** whether [_vaultsync_releases] has an entry, and whether it was called *)
  rq_registered : bool;
  rq_released : bool;
}.

Definition set_phase (p : phase) (rq : request) : request :=
  Request (rq_election rq) (rq_name rq) p (rq_waiter rq) (rq_registered rq) (rq_released rq).
Definition set_waiter (w : waiter) (rq : request) : request :=
  Request (rq_election rq) (rq_name rq) (rq_phase rq) w (rq_registered rq) (rq_released rq).

(** The tabs of one origin: the locks, the number of ids drawn, the elections,
    the requests that are not over, and the live leases. *)
Record Browser (L : Type) := Browser_new {
  wb_locks : L;
  wb_ids : nat;
  wb_elections : list (LeaderElection WasmLockState);
  wb_requests : gmap string request;
  wb_leases : list (nat * Lease WasmLockState);
}.
Arguments Browser_new {L}.
Arguments wb_locks {L}.
Arguments wb_ids {L}.
Arguments wb_elections {L}.
Arguments wb_requests {L}.
Arguments wb_leases {L}.

Section web.
Context {L : Type} {HL : WebLocks L} (uuid : nat → string) (sha256_hex : string → string).

Definition with_locks (l : L) (s : Browser L) : Browser L :=
  Browser_new l (wb_ids s) (wb_elections s) (wb_requests s) (wb_leases s).
Definition with_elections (f : list (LeaderElection WasmLockState) → list (LeaderElection WasmLockState))
    (s : Browser L) : Browser L :=
  Browser_new (wb_locks s) (wb_ids s) (f (wb_elections s)) (wb_requests s) (wb_leases s).
Definition with_requests (f : gmap string request → gmap string request) (s : Browser L) : Browser L :=
  Browser_new (wb_locks s) (wb_ids s) (wb_elections s) (f (wb_requests s)) (wb_leases s).
Definition with_leases (f : list (nat * Lease WasmLockState) → list (nat * Lease WasmLockState))
    (s : Browser L) : Browser L :=
  Browser_new (wb_locks s) (wb_ids s) (wb_elections s) (wb_requests s) (f (wb_leases s)).
Definition draw_id (s : Browser L) : string * Browser L :=
  (uuid (wb_ids s), Browser_new (wb_locks s) (S (wb_ids s)) (wb_elections s) (wb_requests s) (wb_leases s)).

Definition on_election (i : nat) (f : LeaderElection WasmLockState → LeaderElection WasmLockState) : Browser L → Browser L :=
  with_elections (alter f i).

(** The two closures. *)
Definition on_acquired (i : nat) (now : f64) : Browser L → Browser L :=
  on_election i (λ e, emit (Acquired now) (store_leader true e)).
Definition on_released (i : nat) : Browser L → Browser L :=
  on_election i (λ e, emit Released (store_leader false e)).

(** *** The inline script *)

Definition acquire_web_lock (i : nat) (name id : string) (s : Browser L) : Browser L :=
  match wl_request name id (wb_locks s) with
  | Some l => with_requests (insert id (Request i name Queued NoWaiter true false)) (with_locks l s)
  | None => s
  end.

(** A rejected request resolves the promise to [false], like a refused one. *)
Definition acquire_lock_immediate (i : nat) (name id : string) (s : Browser L) : Browser L :=
  match wl_request_available name id (wb_locks s) with
  | Some (b, l) =>
      with_requests (insert id (Request i name (if b then Granted else Refused) Unresolved false false)) (with_locks l s)
  | None => with_requests (insert id (Request i name Refused Unresolved false false)) s
  end.

Definition release_web_lock (id : string) : Browser L → Browser L :=
  with_requests (alter (λ rq,
    if rq_registered rq then Request (rq_election rq) (rq_name rq) (rq_phase rq) (rq_waiter rq) false true else rq) id).

(** *** The calls

    A call returns, or awaits the promise of the request it made. *)
Inductive outcome := Returned (got : AcquireResult WasmLockState) | Awaiting (id : string).

(** The opening lines of both modes. *)
Definition web_held_already (i : nat) (now : f64) (otherwise : LeaderElection WasmLockState → Browser L → outcome * Browser L)
    (s : Browser L) : option (outcome * Browser L) :=
  e ← wb_elections s !! i;
  match le_is_leader e, le_lock_handle e with
  | true, Some handle =>
      let lease := Lease_new handle now in
      Some (Returned (GotLease lease), with_leases (λ ls, ls ++ [(i, lease)]) (on_election i (set_handle None) s))
  | _, _ => Some (otherwise e s)
  end.

Definition web_acquire_immediate (i : nat) (now : f64) : Browser L → option (outcome * Browser L) :=
  web_held_already i now (λ e s,
    let '(id, s) := draw_id s in
    (Awaiting id, acquire_lock_immediate i (lock_name e) id s)).

(** The rest of the call, after the promise. *)
Definition web_resume (id : string) (now : f64) (s : Browser L) : option (AcquireResult WasmLockState * Browser L) :=
  rq ← wb_requests s !! id;
  let i := rq_election rq in
  match rq_waiter rq with
  | Resolved true =>
      let lease := Lease_new (WasmLockState_new (rq_name rq) id) now in
      Some (GotLease lease, with_leases (λ ls, ls ++ [(i, lease)])
        (on_election i (λ e, emit (Acquired now) (store_leader true e)) (with_requests (insert id (set_waiter NoWaiter rq)) s)))
  | Resolved false =>
      Some (MustWait, on_election i (λ e, emit Waiting (store_leader false e)) (with_requests (delete id) s))
  | _ => None
  end.

Definition request_lock (i : nat) (e : LeaderElection WasmLockState) (s : Browser L) : Browser L :=
  let '(id, s) := draw_id s in
  on_election i (set_handle (Some (WasmLockState_new (lock_name e) id))) (acquire_web_lock i (lock_name e) id s).

Definition web_acquire_wait (i : nat) (now : f64) : Browser L → option (outcome * Browser L) :=
  web_held_already i now (λ e s, (Returned MustWait, request_lock i e s)).

Definition web_acquire (i : nat) (mode : AcquireMode) (now : f64) : Browser L → option (outcome * Browser L) :=
  match mode with
  | Immediate => web_acquire_immediate i now
  | Wait => web_acquire_wait i now
  end.

Definition web_try_acquire (i : nat) (s : Browser L) : option (bool * Browser L) :=
  e ← wb_elections s !! i;
  match le_lock_handle e with
  | Some _ => Some (le_is_leader e, s)
  | None => Some (false, request_lock i e s)
  end.

Definition web_release (i : nat) (s : Browser L) : Browser L :=
  match wb_elections s !! i with
  | None => s
  | Some e =>
      let s := match le_lock_handle e with
               | Some handle => release_web_lock (wk_id handle) (on_election i (set_handle None) s)
               | None => s
               end in
      on_election i (λ e, emit Released (store_leader false e)) s
  end.

Definition web_drop_lease (k : nat) (s : Browser L) : Browser L :=
  match wb_leases s !! k with
  | None => s
  | Some (_, lease) => release_web_lock (wk_id (ls_handle lease)) (with_leases (delete k) s)
  end.

(** [release_lock_by_id] with the [lock_id] of a lease, which stays. *)
Definition release_lock_by_id (k : nat) (s : Browser L) : Browser L :=
  match wb_leases s !! k with
  | None => s
  | Some (_, lease) => release_web_lock (wk_id (ls_handle lease)) s
  end.

(** *** The browser *)

(** The lock manager grants a lock to the first request that waits. *)
Definition grant_lock (name : string) (s : Browser L) : Browser L :=
  match wl_grant name (wb_locks s) with
  | None => s
  | Some (id, l) => with_requests (alter (set_phase Granted) id) (with_locks l s)
  end.

(** It calls the callback of a request, which runs up to its [await]. *)
Definition call_back (id : string) (now : f64) (s : Browser L) : Browser L :=
  match wb_requests s !! id with
  | None => s
  | Some rq =>
      match rq_phase rq, rq_waiter rq with
      | Granted, Unresolved =>
          on_acquired (rq_election rq) now
            (with_requests (insert id (Request (rq_election rq) (rq_name rq) Running (Resolved true) true false)) s)
      | Granted, _ => on_acquired (rq_election rq) now (with_requests (insert id (set_phase Running rq)) s)
      | Refused, Unresolved => with_requests (insert id (set_waiter (Resolved false) rq)) s
      | _, _ => s
      end
  end.

(** The callback goes on once its release was called. *)
Definition settle (id : string) (s : Browser L) : Browser L :=
  match wb_requests s !! id with
  | None => s
  | Some rq =>
      match rq_phase rq with
      | Running =>
          if rq_released rq then on_released (rq_election rq) (with_requests (insert id (set_phase Finishing rq)) s) else s
      | _ => s
      end
  end.

(** And the lock is free when the callback's promise is settled. *)
Definition unlock (id : string) (s : Browser L) : Browser L :=
  match wb_requests s !! id with
  | None => s
  | Some rq =>
      match rq_phase rq with
      | Finishing => with_requests (delete id) (with_locks (wl_unlock (rq_name rq) id (wb_locks s)) s)
      | _ => s
      end
  end.

(** *** Interleavings *)

Inductive web_event :=
  | ENew (namespace : string) (storage : StorageConfig)
  | EAcquire (i : nat) (mode : AcquireMode) (now : f64)
  | EResume (id : string) (now : f64)
  | ETryAcquire (i : nat)
  | ERelease (i : nat)
  | EDropLease (k : nat)
  | EReleaseById (k : nat)
  | ESetIsLeader (i : nat) (val : bool) (now : f64)
  | EGrant (name : string)
  | ECallback (id : string) (now : f64)
  | ESettle (id : string)
  | EUnlock (id : string).

Definition run_web (ev : web_event) (s : Browser L) : Browser L :=
  match ev with
  | ENew namespace storage => with_elections (λ es, es ++ [election_new sha256_hex namespace storage]) s
  | EAcquire i mode now => from_option snd s (web_acquire i mode now s)
  | EResume id now => from_option snd s (web_resume id now s)
  | ETryAcquire i => from_option snd s (web_try_acquire i s)
  | ERelease i => web_release i s
  | EDropLease k => web_drop_lease k s
  | EReleaseById k => release_lock_by_id k s
  | ESetIsLeader i val now => on_election i (set_is_leader val now) s
  | EGrant name => grant_lock name s
  | ECallback id now => call_back id now s
  | ESettle id => settle id s
  | EUnlock id => unlock id s
  end.

Definition run_webs (evs : list web_event) (s : Browser L) : Browser L := foldl (λ s ev, run_web ev s) s evs.

End web.
