(* ===== verification/LeaderTheory.v ===== *)
(** * Leader election: at most one leader

    Leases of the Unix build are exclusive, its flag is not; in a browser at most
    one election leads under every interleaving of calls and callbacks, and the
    leadership passes on to the first that waits. *)
From S2P Require Import Prelude Text F64 Types LeaderElection.
From Stdlib Require Import SpecFloat.
From stdpp Require Import pretty.

(** ** The states of a runtime *)

(** Through legal transitions a runtime that leads keeps all capabilities, and
    reads and reports itself a leader, until it shuts down: it never mirrors
    again. *)
Theorem leading_until_shutdown debug s :
  rtc (λ a b, RuntimeState.transition debug a b = Ok b) RuntimeState.Leading s →
  s = RuntimeState.ShuttingDown ∨
  RuntimeState.default_capabilities s = RuntimeState.ALL_CAPABILITIES ∧ RuntimeState.can_read s = true ∧
  RuntimeState.to_connection_state s = RuntimeState.CLeader.
Proof.
  assert (∀ a b, RuntimeState.transition debug a b = Ok b →
    RuntimeState.default_capabilities a = RuntimeState.ALL_CAPABILITIES →
    b = RuntimeState.ShuttingDown ∨ RuntimeState.default_capabilities b = RuntimeState.ALL_CAPABILITIES) as Hstep.
  { intros [] []; cbn; intros Ht Ha; try discriminate; auto. }
  intros Hs. assert (s = RuntimeState.ShuttingDown ∨ RuntimeState.default_capabilities s = RuntimeState.ALL_CAPABILITIES) as [->|Hc].
  - revert s Hs. apply rtc_ind_r; [by right|]. intros a b _ Hab [->|Ha]; [by destruct b|by eapply Hstep].
  - by left.
  - right. by destruct s.
Qed.

(** ** The Unix build *)

Section native_theory.
Context {W : Type} {HW : LockFiles W} {HWS : LockFilesSpec W} (temp_dir : string).

(** Two states of the files that the system's table does not tell apart. *)
Definition same_table (w w' : W) : Prop :=
  (∀ fd, file_path w' fd = file_path w fd) ∧ ∀ p, lock_holder w' p = lock_holder w p.

(** [w'] is [w] with a new open file, which has the lock of [p]. *)
Definition locked (p : string) (fd : N) (w w' : W) : Prop :=
  file_path w fd = None ∧ lock_holder w p = None ∧
  (∀ fd', file_path w' fd' = if decide (fd' = fd) then Some p else file_path w fd') ∧
  ∀ p', lock_holder w' p' = if decide (p' = p) then Some fd else lock_holder w p'.

#[local] Instance same_table_trans : Transitive same_table.
Proof. intros w1 w2 w3 [Hp1 Hh1] [Hp2 Hh2]. split; intros; congruence. Qed.

Lemma fresh_no_holder w fd p : file_path w fd = None → lock_holder w p ≠ Some fd.
Proof. intros Hf Hh%holder_open. congruence. Qed.

Lemma opened_closed p fd w w' : open_file p w = (Ok fd, w') → same_table w (close_file fd w').
Proof.
  intros (Hn & Hp & Hh)%open_file_ok. split.
  - intros fd'. rewrite close_file_path, Hp. by destruct (decide (fd' = fd)) as [->|].
  - intros p'. rewrite close_file_holder, Hh, decide_False; [done|]. by apply fresh_no_holder.
Qed.

Lemma locked_closed p fd w w' : locked p fd w w' → same_table w (close_file fd w').
Proof.
  intros (Hn & Hp & Hf & Hh). split.
  - intros fd'. rewrite close_file_path, Hf. by destruct (decide (fd' = fd)) as [->|].
  - intros p'. rewrite close_file_holder, Hh. destruct (decide (p' = p)) as [->|].
    + by rewrite decide_True.
    + rewrite decide_False; [done|]. by apply fresh_no_holder.
Qed.

(** What a call changes of an election. *)
Definition same_election (e e' : LeaderElection N) : Prop :=
  lock_name e' = lock_name e ∧ le_lock_handle e' = le_lock_handle e.

(** The outcomes of an attempt: the lock, with the flag set; or nothing, where
    the lock is taken if that is the answer. *)
Definition attempt (s : Native W) (r : result (AcquireResult N) VaultSyncError) (s' : Native W) : Prop :=
  let p := lock_path temp_dir (na_election s) in
  same_election (na_election s) (na_election s') ∧
  match r with
  | Ok (GotLease lease) => le_is_leader (na_election s') = true ∧
      locked p (ls_handle lease) (na_files s) (na_files s')
  | Ok MustWait => is_Some (lock_holder (na_files s) p) ∧ le_is_leader (na_election s') = le_is_leader (na_election s) ∧
      same_table (na_files s) (na_files s')
  | Ok Unsupported => False
  | Err _ => same_table (na_files s) (na_files s')
  end.

Lemma acquire_immediate_sync_attempt now s r s' : le_lock_handle (na_election s) = None →
  acquire_immediate_sync temp_dir now s = (r, s') → attempt s r s'.
Proof.
  intros Hn. unfold acquire_immediate_sync, take_handle, on_self, on_files, drop_file, attempt. sm_unfold. rewrite Hn.
  destruct s as [e w]. cbn [na_election na_files] in *. set (p := lock_path temp_dir e).
  change (lock_path temp_dir (set_handle None e)) with p.
  destruct (open_file p w) as [[fd|err] w1] eqn:Ho; cbn.
  - pose proof (opened_closed _ _ _ _ Ho) as Hoc. destruct (open_file_ok _ _ _ _ Ho) as (Hf & Hp & Hh).
    assert (file_path w1 fd = Some p) as Hfd by by rewrite Hp, decide_True.
    destruct (flock fd w1) as [[[]|fe] w2] eqn:Hl; cbn.
    + destruct (flock_ok _ _ _ _ Hfd Hl) as (Hfree & Hh' & Hp'). intros [= <- <-]. split; [done|]. split; [done|].
      split_and!; [done| | |].
      * rewrite <-Hh. destruct Hfree as [|Hfd']; [done|]. rewrite Hh in Hfd'. by apply fresh_no_holder in Hfd'.
      * intros fd'. by rewrite Hp', Hp.
      * intros p'. by rewrite Hh', Hh.
    + destruct (flock_err _ _ _ _ _ Hfd Hl) as [-> Hbusy].
      destruct fe as [|text]; intros [= <- <-]; [|done]. split; [done|].
      destruct (Hbusy eq_refl) as (fd' & _ & Hfd'). rewrite Hh in Hfd'. by split; [eexists|].
  - apply open_file_err in Ho as ->. by intros [= <- <-].
Qed.

Lemma acquire_attempt mode now s r s' : le_lock_handle (na_election s) = None →
  acquire temp_dir mode now s = (r, s') → attempt s r s'.
Proof.
  intros Hn Ha.
  assert (held_already now (acquire_immediate_sync temp_dir now) s = (r, s')) as Hh by by destruct mode.
  unfold held_already, is_leader, take_handle, on_self in Hh. sm_unfold.
  destruct (le_is_leader (na_election s)) eqn:Hl; [rewrite Hn in Hh|]; [|by eapply acquire_immediate_sync_attempt].
  assert (Native_new (set_handle None (na_election s)) (na_files s) = s) as Heq.
  { destruct s as [[] w]. cbn in *. by subst. }
  rewrite Heq in Hh. by eapply acquire_immediate_sync_attempt.
Qed.

(** The lock that [try_acquire] gets is free again when it returns. *)
Lemma try_acquire_attempt now s r s' : le_lock_handle (na_election s) = None →
  try_acquire_immediate_sync temp_dir now s = (r, s') →
  same_election (na_election s) (na_election s') ∧ same_table (na_files s) (na_files s') ∧
  match r with
  | Ok true => le_is_leader (na_election s') = true ∧
      lock_holder (na_files s) (lock_path temp_dir (na_election s)) = None
  | Ok false => is_Some (lock_holder (na_files s) (lock_path temp_dir (na_election s)))
  | Err _ => True
  end.
Proof.
  intros Hn. unfold try_acquire_immediate_sync, drop_lease, drop_file. sm_unfold.
  destruct (acquire_immediate_sync temp_dir now s) as [got s1] eqn:Ha.
  destruct (acquire_immediate_sync_attempt _ _ _ _ Hn Ha) as [Hs Hgot].
  destruct got as [[lease| |]|e]; intros [= <- <-]; cbn [na_election na_files].
  - destruct Hgot as [Hl Hk]. split; [done|]. split; [by eapply locked_closed|]. split; [done|apply Hk].
  - destruct Hgot as (Hb & _ & Ht). done.
  - done.
  - done.
Qed.

Lemma try_acquire_sync now s : le_lock_handle (na_election s) = None →
  try_acquire temp_dir now s = try_acquire_immediate_sync temp_dir now s.
Proof. intros Hn. unfold try_acquire. sm_unfold. by rewrite Hn. Qed.

(** *** The invariant of the system *)

Record system_ok (s : System W) : Prop := {
  so_handles : Forall (λ e, le_lock_handle e = None) (sy_elections s);
  so_leases k i l : sy_leases s !! k = Some (i, l) → ∃ e, sy_elections s !! i = Some e ∧
    lock_holder (sy_files s) (lock_path temp_dir e) = Some (ls_handle l);
  so_distinct : NoDup ((λ x, ls_handle x.2) <$> sy_leases s);
}.

Lemma same_path e e' : same_election e e' → lock_path temp_dir e' = lock_path temp_dir e.
Proof. intros [Hn _]. unfold lock_path. by rewrite Hn. Qed.

(** The elections keep their names. *)
Lemma lookup_same_path (es : list (LeaderElection N)) i j e e' ej :
  es !! i = Some e → same_election e e' → es !! j = Some ej →
  ∃ ej', <[i := e']> es !! j = Some ej' ∧ lock_path temp_dir ej' = lock_path temp_dir ej.
Proof.
  intros Hi He Hj. destruct (decide (i = j)) as [<-|Hne].
  - exists e'. rewrite list_lookup_insert_eq by by eapply lookup_lt_Some. split; [done|].
    rewrite Hi in Hj. injection Hj as <-. by apply same_path.
  - exists ej. by rewrite list_lookup_insert_ne.
Qed.

Lemma system_ok_call i e e' w' new s : system_ok s → sy_elections s !! i = Some e → same_election e e' →
  (new = [] ∧ same_table (sy_files s) w' ∨
   ∃ lease, new = [(i, lease)] ∧ locked (lock_path temp_dir e) (ls_handle lease) (sy_files s) w') →
  system_ok (System_new (<[i := e']> (sy_elections s)) (sy_leases s ++ new) w').
Proof.
  intros [Hh Hl Hd] Hi He Hnew.
  assert (∀ k j l, sy_leases s !! k = Some (j, l) → ∃ ej, <[i := e']> (sy_elections s) !! j = Some ej ∧
    lock_holder w' (lock_path temp_dir ej) = Some (ls_handle l)) as Hold.
  { intros k j l Hk. destruct (Hl _ _ _ Hk) as (ej & Hj & Hjl).
    destruct (lookup_same_path _ _ _ _ _ _ Hi He Hj) as (ej' & Hj' & Hp). exists ej'. split; [done|]. rewrite Hp.
    destruct Hnew as [(_ & _ & Ht)|(lease & _ & _ & Hn & _ & Ht)]; rewrite Ht; [done|].
    rewrite decide_False; [done|]. congruence. }
  assert (Forall (λ e, le_lock_handle e = None) (<[i := e']> (sy_elections s))) as Hh'.
  { apply Forall_insert; [done|]. destruct He as [_ ->]. by apply (Forall_lookup_1 _ _ _ _ Hh Hi). }
  destruct Hnew as [[-> _]|(lease & -> & Hf & Hn & Hfp & Ht)]; split; cbn [sy_elections sy_leases sy_files]; try done.
  - by rewrite app_nil_r.
  - by rewrite app_nil_r.
  - intros k j l. rewrite lookup_app. destruct (sy_leases s !! k) eqn:Hk; [intros [= ->]; eauto|].
    intros Hlast. apply list_lookup_singleton_Some in Hlast as [_ [= <- <-]].
    exists e'. rewrite list_lookup_insert_eq by by eapply lookup_lt_Some. split; [done|].
    by rewrite Ht, (same_path _ _ He), decide_True.
  - rewrite fmap_app. apply NoDup_app. split_and!; [done| |apply NoDup_singleton].
    intros fd Hin Hnew. apply list_elem_of_singleton in Hnew as ->.
    apply list_elem_of_fmap in Hin as ([j l] & Heq & Hin). apply list_elem_of_lookup in Hin as [k Hk].
    destruct (Hl _ _ _ Hk) as (ej & _ & Hjl). cbn in Heq. rewrite <-Heq in Hjl. by apply fresh_no_holder in Hjl.
Qed.

Lemma release_spec (s : Native W) : le_lock_handle (na_election s) = None →
  ∃ s', release s = (Ok tt, s') ∧ same_election (na_election s) (na_election s') ∧ na_files s' = na_files s ∧
    le_is_leader (na_election s') = false.
Proof.
  intros Hn. eexists. split.
  - unfold release, take_handle, on_self. sm_unfold. rewrite Hn. cbn. reflexivity.
  - done.
Qed.

Lemma system_ok_drop k i l s : system_ok s → sy_leases s !! k = Some (i, l) →
  system_ok (System_new (sy_elections s) (delete k (sy_leases s)) (close_file (ls_handle l) (sy_files s))).
Proof.
  intros [Hh Hl Hd] Hk. split; cbn [sy_elections sy_leases sy_files]; [done| |].
  - intros k' j l' Hk'.
    assert (∃ k2, k2 ≠ k ∧ sy_leases s !! k2 = Some (j, l')) as (k2 & Hne & Hk2).
    { destruct (decide (k' < k)).
      - exists k'. rewrite list_lookup_delete_lt in Hk' by done. split; [lia|done].
      - exists (S k'). rewrite list_lookup_delete_ge in Hk' by lia. split; [lia|done]. }
    destruct (Hl _ _ _ Hk2) as (e & He & Hhold). exists e. split; [done|].
    rewrite close_file_holder, decide_False; [done|]. rewrite Hhold. intros [= Heq]. apply Hne.
    eapply (NoDup_lookup _ _ _ (ls_handle l)); [exact Hd|..]; rewrite list_lookup_fmap.
    + rewrite Hk2. cbn. by rewrite Heq.
    + by rewrite Hk.
  - rewrite list_fmap_delete. eapply sublist_NoDup; [done|apply sublist_delete].
Qed.

Context (sha256_hex : string → string).

Lemma run_native_ok c s : system_ok s → system_ok (run_native sha256_hex temp_dir c s).
Proof.
  intros Hs. pose proof Hs as [Hh _ _].
  assert (∀ i e, sy_elections s !! i = Some e → le_lock_handle e = None) as Hn by (intros; by eapply Forall_lookup_1 in Hh).
  destruct c as [ns st|i mode now|i now|i now|i|i val now|k]; cbn [run_native]; unfold call_election;
    try (destruct (sy_elections s !! i) as [e|] eqn:Hi; [|done]; specialize (Hn _ _ Hi)).
  - destruct Hs as [_ Hl Hd]. split; cbn [sy_elections sy_leases sy_files]; [by apply Forall_app_2, Forall_singleton| |done].
    intros k i l Hk. destruct (Hl _ _ _ Hk) as (e & He & Hhold). exists e. split; [|done]. by apply lookup_app_l_Some.
  - destruct (acquire temp_dir mode now (Native_new e (sy_files s))) as [r s'] eqn:Ha.
    destruct (acquire_attempt _ _ (Native_new e (sy_files s)) _ _ Hn Ha) as [He Hr]. eapply system_ok_call; [done..|].
    destruct r as [[lease| |]|]; [right; exists lease; by destruct Hr|left..]; [|done..]. by destruct Hr as (_ & _ & Ht).
  - rewrite try_acquire_sync by done.
    destruct (try_acquire_immediate_sync temp_dir now (Native_new e (sy_files s))) as [r s'] eqn:Ha.
    destruct (try_acquire_attempt _ (Native_new e (sy_files s)) _ _ Hn Ha) as (He & Ht & _). eapply system_ok_call; [done..|].
    left. by destruct r.
  - destruct (try_acquire_immediate_sync temp_dir now (Native_new e (sy_files s))) as [r s'] eqn:Ha.
    destruct (try_acquire_attempt _ (Native_new e (sy_files s)) _ _ Hn Ha) as (He & Ht & _). eapply system_ok_call; [done..|].
    left. by destruct r.
  - destruct (release_spec (Native_new e (sy_files s)) Hn) as (s' & -> & He & Hf & _). eapply system_ok_call; [done..|].
    left. by rewrite Hf.
  - eapply system_ok_call; [done..| |by left]. by destruct val.
  - destruct (sy_leases s !! k) as [[i l]|] eqn:Hk; [|done]. by eapply system_ok_drop.
Qed.

Definition run_natives (cs : list native_call) (w : W) : System W :=
  foldl (λ s c, run_native sha256_hex temp_dir c s) (System_new [] [] w) cs.

Lemma run_natives_ok cs w : system_ok (run_natives cs w).
Proof.
  unfold run_natives. assert (system_ok (System_new [] [] w)) as Hs by (split; [constructor|by intros ? ? ? ?|constructor]).
  revert Hs. generalize (System_new [] [] w). induction cs as [|c cs IH]; intros s Hs; [done|].
  by apply IH, run_native_ok.
Qed.

(** C17: On Unix a lease is exclusive.  Whatever calls any number of processes
    make, creating elections, acquiring in either mode, trying, releasing,
    setting the flag and dropping leases in any order, every live lease has the
    lock of its election's lock file, and two live leases of elections with the
    same lock file are one lease. *)
Theorem native_lease_exclusive cs w k i l e k' i' l' e' :
  let s := run_natives cs w in
  sy_leases s !! k = Some (i, l) → sy_elections s !! i = Some e →
  sy_leases s !! k' = Some (i', l') → sy_elections s !! i' = Some e' →
  lock_path temp_dir e = lock_path temp_dir e' →
  lock_holder (sy_files s) (lock_path temp_dir e) = Some (ls_handle l) ∧ k = k'.
Proof.
  intros s Hk Hi Hk' Hi' Hp. destruct (run_natives_ok cs w) as [_ Hl Hd]. fold s in Hl, Hd.
  destruct (Hl _ _ _ Hk) as (e1 & He & Hh). destruct (Hl _ _ _ Hk') as (e2 & He' & Hh').
  simplify_eq. split; [done|]. rewrite Hp, Hh' in Hh. injection Hh as Heq.
  eapply (NoDup_lookup _ _ _ (ls_handle l)); [exact Hd|..]; rewrite list_lookup_fmap.
  - by rewrite Hk.
  - rewrite Hk'. cbn. by rewrite Heq.
Qed.

(** Files that open, with locks that are free or taken. *)
Definition reliable : Prop :=
  (∀ p w, is_ok (open_file p w).1 = true) ∧
  ∀ fd p w e w', file_path w fd = Some p → flock fd w = (Err e, w') → e = WouldBlock.

Lemma try_acquire_free now (e : LeaderElection N) w : reliable → le_lock_handle e = None →
  lock_holder w (lock_path temp_dir e) = None →
  ∃ e' w', try_acquire temp_dir now (Native_new e w) = (Ok true, Native_new e' w') ∧ same_election e e' ∧
    le_is_leader e' = true ∧ same_table w w'.
Proof.
  intros [Hopen Hflock] Hn Hfree. rewrite try_acquire_sync by done.
  destruct (try_acquire_immediate_sync temp_dir now (Native_new e w)) as [r [e' w']] eqn:Ht.
  destruct (try_acquire_attempt _ (Native_new e w) _ _ Hn Ht) as (He & Hw & Hr). cbn [na_election na_files] in *.
  exists e', w'. destruct r as [[]|err].
  - by destruct Hr.
  - rewrite Hfree in Hr. by destruct Hr.
  - exfalso. clear Hr. revert Ht.
    unfold try_acquire_immediate_sync, acquire_immediate_sync, take_handle, on_self, on_files, drop_lease, drop_file.
    sm_unfold. cbn [na_election]. rewrite Hn. cbn. change (lock_path temp_dir (set_handle None e)) with (lock_path temp_dir e).
    specialize (Hopen (lock_path temp_dir e) w).
    destruct (open_file (lock_path temp_dir e) w) as [[fd|] w1] eqn:Ho; [|done]. cbn.
    destruct (open_file_ok _ _ _ _ Ho) as (_ & Hp & _).
    destruct (flock fd w1) as [[]  w2] eqn:Hl; cbn; [done|].
    apply (Hflock _ (lock_path temp_dir e)) in Hl as ->; [|by rewrite Hp, decide_True]. done.
Qed.

(** The flag of the Unix build is not exclusive.  [try_acquire] drops the
    lease that it gets before it returns, and dropping a lease does not clear the
    flag: two elections with the same lock file that call it one after the other
    both get [true] and both report that they lead, while nobody has the lock. *)
Theorem native_try_acquire_keeps_no_lock now now' e1 e2 w :
  reliable → le_lock_handle e1 = None → le_lock_handle e2 = None → lock_path temp_dir e1 = lock_path temp_dir e2 →
  lock_holder w (lock_path temp_dir e1) = None →
  ∃ e1' e2' w1 w2, try_acquire temp_dir now (Native_new e1 w) = (Ok true, Native_new e1' w1) ∧
    try_acquire temp_dir now' (Native_new e2 w1) = (Ok true, Native_new e2' w2) ∧
    le_is_leader e1' = true ∧ le_is_leader e2' = true ∧ lock_holder w2 (lock_path temp_dir e1) = None.
Proof.
  intros Hr H1 H2 Hp Hfree.
  destruct (try_acquire_free now e1 w) as (e1' & w1 & Ht1 & _ & Hl1 & _ & Hw1); [done..|].
  destruct (try_acquire_free now' e2 w1) as (e2' & w2 & Ht2 & _ & Hl2 & _ & Hw2); [done..|by rewrite Hw1, <-Hp|].
  exists e1', e2', w1, w2. by rewrite Hw2, Hw1.
Qed.
End native_theory.

(** ** The browser build *)

Section web.
Context {L : Type} {HL : WebLocks L} {HLS : WebLocksSpec L}.
Context (uuid : nat → string) {uuid_inj : Inj (=) (=) uuid} (sha256_hex : string → string).

(** *** The invariant *)

Definition drawn (n : nat) (id : string) : Prop := ∃ k, k < n ∧ id = uuid k.

(** The ids that the program can release. *)
Definition handed (es : list (LeaderElection WasmLockState)) (ls : list (nat * Lease WasmLockState)) (id : string) : Prop :=
  (∃ i e h, es !! i = Some e ∧ le_lock_handle e = Some h ∧ wk_id h = id) ∨
  (∃ k i l, ls !! k = Some (i, l) ∧ wk_id (ls_handle l) = id).

Definition has_lock (p : phase) : bool := match p with Granted | Running | Finishing => true | _ => false end.

Record request_ok (l : L) (es : list (LeaderElection WasmLockState)) (hs : string → Prop) (id : string) (rq : request) : Prop := {
  ro_name : lock_name <$> es !! rq_election rq = Some (rq_name rq);
  ro_lock : has_lock (rq_phase rq) = true → wl_held l (rq_name rq) = Some id;
  ro_waiter : rq_waiter rq ≠ NoWaiter → rq_released rq = false ∧ ¬ hs id;
  ro_resolved : rq_waiter rq = Resolved true → rq_phase rq = Running;
  ro_refused : rq_waiter rq = Resolved false → rq_phase rq = Refused;
}.

Record web_ok (s : Browser L) : Prop := {
  wo_drawn id : is_Some (wb_requests s !! id) ∨ handed (wb_elections s) (wb_leases s) id → drawn (wb_ids s) id;
  wo_requests id rq : wb_requests s !! id = Some rq →
    request_ok (wb_locks s) (wb_elections s) (handed (wb_elections s) (wb_leases s)) id rq;
  wo_queue name : NoDup (wl_queue (wb_locks s) name);
  wo_queued name id : id ∈ wl_queue (wb_locks s) name →
    ∃ rq, wb_requests s !! id = Some rq ∧ rq_name rq = name ∧ rq_phase rq = Queued;
  wo_flag i e : wb_elections s !! i = Some e → le_is_leader e = true →
    ∃ id rq, wb_requests s !! id = Some rq ∧ rq_election rq = i ∧ rq_phase rq = Running;
}.

(** Elections with the same names, of which only [f] changes one. *)
Lemma lookup_alter_name f i (es : list (LeaderElection WasmLockState)) j :
  (∀ e, lock_name (f e) = lock_name e) → lock_name <$> alter f i es !! j = lock_name <$> es !! j.
Proof.
  intros Hf. destruct (decide (i = j)) as [->|].
  - rewrite list_lookup_alter_eq. destruct (es !! j); [|done]. cbn. by rewrite Hf.
  - by rewrite list_lookup_alter_ne.
Qed.

Lemma handed_mono es ls es' ls' id :
  (∀ i e h, es' !! i = Some e → le_lock_handle e = Some h → ∃ e0, es !! i = Some e0 ∧ le_lock_handle e0 = Some h) →
  (∀ k x, ls' !! k = Some x → ∃ k', ls !! k' = Some x) →
  handed es' ls' id → handed es ls id.
Proof.
  intros He Hl [(i & e & h & Hi & Hh & Hid)|(k & i & l & Hk & Hid)].
  - destruct (He _ _ _ Hi Hh) as (e0 & Hi0 & Hh0). left. by exists i, e0, h.
  - destruct (Hl _ _ Hk) as [k' Hk']. right. by exists k', i, l.
Qed.

(** A change of one election's flag, bus or handle that hands out nothing. *)
Lemma web_ok_election i f s : web_ok s → (∀ e, lock_name (f e) = lock_name e) →
  (∀ e h, le_lock_handle (f e) = Some h → le_lock_handle e = Some h) →
  (∀ e, wb_elections s !! i = Some e → le_is_leader (f e) = true → le_is_leader e = true ∨
    ∃ id rq, wb_requests s !! id = Some rq ∧ rq_election rq = i ∧ rq_phase rq = Running) →
  web_ok (on_election i f s).
Proof.
  intros [Hd Hr Hq Hqd Hf] Hname Hhandle Hflag.
  assert (∀ id, handed (alter f i (wb_elections s)) (wb_leases s) id → handed (wb_elections s) (wb_leases s) id) as Hm.
  { intros id. apply handed_mono; [|eauto]. intros j e h. destruct (decide (i = j)) as [->|].
    - rewrite list_lookup_alter_eq. intros (e0 & He0 & ->)%fmap_Some Hh. eauto.
    - rewrite list_lookup_alter_ne by done. eauto. }
  split; cbn [on_election with_elections wb_locks wb_ids wb_elections wb_requests wb_leases]; [|..|done|].
  - intros id [?|?%Hm]; eauto.
  - intros id rq Hid. destruct (Hr _ _ Hid) as [Hn Hl Hw Hv Hrf]. split; [|done| |done..].
    + by rewrite lookup_alter_name.
    + intros [Hrel Hno]%Hw. split; [done|]. by intros ?%Hm.
  - done.
  - intros j e. destruct (decide (i = j)) as [->|].
    + rewrite list_lookup_alter_eq. intros (e0 & He0 & ->)%fmap_Some Hl. destruct (Hflag _ He0 Hl); eauto.
    + rewrite list_lookup_alter_ne by done. eauto.
Qed.

(** The next step of a request. *)
Lemma web_ok_update id rq rq' s : web_ok s → wb_requests s !! id = Some rq →
  rq_election rq' = rq_election rq → rq_name rq' = rq_name rq →
  request_ok (wb_locks s) (wb_elections s) (handed (wb_elections s) (wb_leases s)) id rq' →
  (rq_phase rq = Queued → rq_phase rq' = Queued) →
  (rq_phase rq = Running → rq_phase rq' = Running ∨
    ∀ e, wb_elections s !! rq_election rq = Some e → le_is_leader e = false) →
  web_ok (with_requests (insert id rq') s).
Proof.
  intros [Hd Hr Hq Hqd Hf] Hid He Hn Hok Hqu Hru.
  split; cbn [with_requests wb_locks wb_ids wb_elections wb_requests wb_leases]; [| |done|..].
  - intros id' [[? [[<- _]|[_ ?]]%lookup_insert_Some]|?]; eauto.
  - intros id' rq2 [[<- <-]|[_ ?]]%lookup_insert_Some; eauto.
  - intros name id' (rq2 & Hrq2 & Hname & Hph)%Hqd. destruct (decide (id = id')) as [<-|].
    + exists rq'. rewrite lookup_insert_eq. simplify_eq. rewrite Hn. eauto.
    + exists rq2. by rewrite lookup_insert_ne.
  - intros i e Hi Hl. destruct (Hf _ _ Hi Hl) as (id' & rq2 & Hrq2 & Hel & Hph). destruct (decide (id = id')) as [<-|].
    + exists id, rq'. rewrite lookup_insert_eq. simplify_eq. rewrite He. destruct (Hru Hph) as [|Hfl]; [done|].
      rewrite (Hfl _ Hi) in Hl. done.
    + exists id', rq2. by rewrite lookup_insert_ne.
Qed.

(** The end of a request that neither waits nor runs; [l'] is the lock manager
    with the lock free, if the request had it. *)
Lemma web_ok_end id rq l' s : web_ok s → wb_requests s !! id = Some rq →
  rq_phase rq ≠ Queued → rq_phase rq ≠ Running →
  (∀ n, wl_queue l' n = wl_queue (wb_locks s) n) →
  (∀ n id', id' ≠ id → wl_held (wb_locks s) n = Some id' → wl_held l' n = Some id') →
  web_ok (with_requests (delete id) (with_locks l' s)).
Proof.
  intros [Hd Hr Hq Hqd Hf] Hid Hnq Hnr Hqueue Hheld.
  split; cbn [with_requests with_locks wb_locks wb_ids wb_elections wb_requests wb_leases].
  - intros id' [[? [_ ?]%lookup_delete_Some]|?]; eauto.
  - intros id' rq' [Hne Hid']%lookup_delete_Some. destruct (Hr _ _ Hid') as [Hn Hl Hw Hv Hrf]. split; [done| |done..].
    intros ?%Hl. by apply Hheld.
  - intros name. by rewrite Hqueue.
  - intros name id'. rewrite Hqueue. intros (rq2 & Hrq2 & Hname & Hph)%Hqd. exists rq2.
    rewrite lookup_delete_ne; [done|]. congruence.
  - intros i e Hi Hl. destruct (Hf _ _ Hi Hl) as (id' & rq2 & Hrq2 & Hel & Hph). exists id', rq2.
    rewrite lookup_delete_ne; [done|]. congruence.
Qed.

(** A lease or a stored handle for a request that nobody awaits. *)
Lemma web_ok_hand id (s s' : Browser L) : web_ok s →
  wb_locks s' = wb_locks s → wb_ids s' = wb_ids s → wb_requests s' = wb_requests s →
  (∀ i, lock_name <$> wb_elections s' !! i = lock_name <$> wb_elections s !! i) →
  (∀ i, le_is_leader <$> wb_elections s' !! i = le_is_leader <$> wb_elections s !! i) →
  (∀ id', handed (wb_elections s') (wb_leases s') id' → id' = id ∨ handed (wb_elections s) (wb_leases s) id') →
  drawn (wb_ids s) id → (∀ rq, wb_requests s !! id = Some rq → rq_waiter rq = NoWaiter) → web_ok s'.
Proof.
  intros [Hd Hr Hq Hqd Hf] Hl Hi Hrq Hnames Hflags Hhand Hdr Hno.
  split; rewrite ?Hl, ?Hi, ?Hrq; [|..|done|done|].
  - intros id' [?|[->|?]%Hhand]; eauto.
  - intros id' rq Hid. destruct (Hr _ _ Hid) as [Hn Hlk Hw Hv Hrf]. split; [by rewrite Hnames|done| |done..].
    intros Hwt. destruct (Hw Hwt) as [Hrel Hnh]. split; [done|]. intros [->|?]%Hhand; [|done]. by apply Hwt, Hno.
  - intros i e He Hfl. specialize (Hflags i). rewrite He in Hflags. cbn in Hflags.
    destruct (wb_elections s !! i) as [e0|] eqn:He0; [|done]. injection Hflags as Heq. apply (Hf i e0); congruence.
Qed.

Lemma web_ok_lease i lease s : web_ok s → drawn (wb_ids s) (wk_id (ls_handle lease)) →
  (∀ rq, wb_requests s !! wk_id (ls_handle lease) = Some rq → rq_waiter rq = NoWaiter) →
  web_ok (with_leases (λ ls, ls ++ [(i, lease)]) s).
Proof.
  intros Hs Hd Hno. eapply (web_ok_hand (wk_id (ls_handle lease))); [done..| |done|done].
  intros id' [?|(k & j & l & Hk & Hid)]; [by right; left|]. cbn in Hk.
  apply lookup_app_Some in Hk as [Hk|[_ Hk]]; [right; right; eauto|].
  apply list_lookup_singleton_Some in Hk as [_ [= <- <-]]. by left.
Qed.

Lemma web_ok_handle i h s : web_ok s → drawn (wb_ids s) (wk_id h) →
  (∀ rq, wb_requests s !! wk_id h = Some rq → rq_waiter rq = NoWaiter) →
  web_ok (on_election i (set_handle (Some h)) s).
Proof.
  intros Hs Hd Hno. eapply (web_ok_hand (wk_id h)); [done..| | | |done|done].
  - intros j. by apply lookup_alter_name.
  - intros j. cbn. destruct (decide (i = j)) as [->|]; [|by rewrite list_lookup_alter_ne].
    rewrite list_lookup_alter_eq. by destruct (wb_elections s !! j).
  - intros id' [(j & e & h' & Hj & Hh & Hid)|?]; [|by right; right]. cbn in Hj. destruct (decide (i = j)) as [->|].
    + rewrite list_lookup_alter_eq in Hj. apply fmap_Some in Hj as (e0 & _ & ->). injection Hh as ->. by left.
    + rewrite list_lookup_alter_ne in Hj by done. right. left. by exists j, e, h'.
Qed.

(** A new id is not in use. *)
Lemma new_id s : web_ok s → wb_requests s !! uuid (wb_ids s) = None ∧
  ¬ handed (wb_elections s) (wb_leases s) (uuid (wb_ids s)).
Proof.
  intros [Hd _ _ _ _].
  assert (¬ drawn (wb_ids s) (uuid (wb_ids s))) as Hno by (intros (k & Hk & Heq%(inj uuid)); lia).
  split; [apply eq_None_not_Some|]; intros ?; apply Hno, Hd; eauto.
Qed.

Lemma drawn_S n id : drawn n id → drawn (S n) id.
Proof. intros (k & Hk & ->). exists k. split; [lia|done]. Qed.

Lemma web_ok_draw s : web_ok s → web_ok (draw_id uuid s).2.
Proof. intros [Hd Hr Hq Hqd Hf]. split; [|done..]. intros id ?%Hd. by apply drawn_S. Qed.

(** A new request: its id joins the queue of its lock or not, and nobody loses a
    lock. *)
Lemma web_ok_new i e p w b l' (s : Browser L) : let id := uuid (wb_ids s) in
  web_ok s → wb_elections s !! i = Some e → (∀ b, w ≠ Resolved b) →
  (has_lock p = true → wl_held l' (lock_name e) = Some id) →
  (∀ n id', wl_held (wb_locks s) n = Some id' → wl_held l' n = Some id') →
  (∀ n, wl_queue l' n = wl_queue (wb_locks s) n ∨
    n = lock_name e ∧ p = Queued ∧ wl_queue l' n = wl_queue (wb_locks s) n ++ [id]) →
  web_ok (with_requests (insert id (Request i (lock_name e) p w b false)) (with_locks l' (draw_id uuid s).2)).
Proof.
  intros id Hs Hi Hw Hp Hheld Hqueue. destruct (new_id s Hs) as [Hnone Hnh]. destruct Hs as [Hd Hr Hq Hqd Hf].
  assert (∀ n, id ∉ wl_queue (wb_locks s) n) as Hnq by (intros n (rq & Hrq & _)%Hqd; unfold id in *; congruence).
  split; cbn [with_requests with_locks draw_id snd wb_locks wb_ids wb_elections wb_requests wb_leases].
  - intros id' [[? [[<- _]|[_ ?]]%lookup_insert_Some]|?]; [by exists (wb_ids s); eauto|apply drawn_S; eauto..].
  - intros id' rq [[<- <-]|[_ Hid]]%lookup_insert_Some.
    + split; cbn; [by rewrite Hi|done|done|by intros ?%Hw..].
    + destruct (Hr _ _ Hid) as [Hn Hl Hwt Hv Hrf]. split; [done| |done..]. eauto.
  - intros n. destruct (Hqueue n) as [->|(_ & _ & ->)]; [done|].
    apply NoDup_app. split_and!; [done| |apply NoDup_singleton].
    intros x Hx ->%list_elem_of_singleton. by eapply Hnq.
  - intros n id' Hin. destruct (decide (id' = id)) as [->|Hne].
    + eexists. rewrite lookup_insert_eq. split; [done|]. cbn.
      destruct (Hqueue n) as [Heq|(-> & -> & _)]; [rewrite Heq in Hin; by apply Hnq in Hin|done].
    + rewrite lookup_insert_ne by done. apply Hqd.
      destruct (Hqueue n) as [<-|(_ & _ & Heq)]; [done|]. rewrite Heq in Hin.
      by apply elem_of_app in Hin as [|?%list_elem_of_singleton].
  - intros j ej Hj Hl. destruct (Hf _ _ Hj Hl) as (id' & rq & Hrq & ?). exists id', rq.
    rewrite lookup_insert_ne; [done|]. unfold id. congruence.
Qed.

Lemma request_lock_ok i e s : web_ok s → wb_elections s !! i = Some e → web_ok (request_lock uuid i e s).
Proof.
  intros Hs Hi. unfold request_lock. cbn [draw_id]. unfold acquire_web_lock. cbn [wb_locks].
  destruct (new_id s Hs) as [Hnone _].
  assert (drawn (S (wb_ids s)) (uuid (wb_ids s))) as Hdr by (eexists; eauto).
  destruct (wl_request (lock_name e) (uuid (wb_ids s)) (wb_locks s)) as [l|] eqn:Hreq.
  - apply request_spec in Hreq as [Hheld Hqueue]. apply web_ok_handle; [|done|].
    + apply web_ok_new; [done..|by intros n id'; rewrite Hheld|].
      intros n. rewrite Hqueue. destruct (decide (n = lock_name e)) as [->|]; [by right|by left].
    + cbn. intros rq. rewrite lookup_insert_eq. by intros [= <-].
  - apply web_ok_handle; [by apply web_ok_draw|done|]. cbn. rewrite Hnone. done.
Qed.

Lemma acquire_lock_immediate_ok i e s : web_ok s → wb_elections s !! i = Some e →
  web_ok (acquire_lock_immediate i (lock_name e) (uuid (wb_ids s)) (draw_id uuid s).2).
Proof.
  intros Hs Hi. unfold acquire_lock_immediate. cbn [draw_id snd wb_locks].
  destruct (wl_request_available (lock_name e) (uuid (wb_ids s)) (wb_locks s)) as [[b l]|] eqn:Hreq.
  - apply request_available_spec in Hreq as (Hqueue & Hb & Hheld). apply web_ok_new; [done..| | |].
    + rewrite Hheld. destruct b; [by rewrite decide_True|done].
    + intros n id' Hid. rewrite Hheld. destruct (decide (b = true ∧ n = lock_name e)) as [[Hbt ->]|]; [|done].
      apply Hb in Hbt as [Hnone _]. congruence.
    + intros n. left. apply Hqueue.
  - by apply (web_ok_new i e Refused Unresolved false (wb_locks s) s); [..|left].
Qed.

Lemma release_web_lock_ok id s : web_ok s → handed (wb_elections s) (wb_leases s) id → web_ok (release_web_lock id s).
Proof.
  intros Hs Hh. unfold release_web_lock. destruct (wb_requests s !! id) as [rq|] eqn:Hid.
  - replace (with_requests _ s) with (with_requests (insert id (if rq_registered rq then Request (rq_election rq) (rq_name rq)
      (rq_phase rq) (rq_waiter rq) false true else rq)) s).
    + destruct (wo_requests s Hs _ _ Hid) as [Hn Hl Hw Hv Hrf].
      assert (rq_waiter rq = NoWaiter) as Hnw by (destruct (rq_waiter rq) eqn:E; [done|by destruct Hw..]).
      destruct (rq_registered rq); (eapply web_ok_update; [done|exact Hid|done|done| |done|by left]); [|done].
      split; cbn; [done|done|by rewrite Hnw|done..].
    + unfold with_requests. f_equal. apply map_eq. intros j. destruct (decide (id = j)) as [<-|].
      * by rewrite lookup_insert_eq, lookup_alter_eq, Hid.
      * by rewrite lookup_insert_ne, lookup_alter_ne.
  - replace (with_requests _ s) with s; [done|]. destruct s as [lk n es rqs ls]. unfold with_requests. f_equal. cbn in *.
    apply map_eq. intros j. destruct (decide (id = j)) as [<-|]; [by rewrite lookup_alter_eq, Hid|by rewrite lookup_alter_ne].
Qed.

Lemma held_already_ok i now otherwise s r s' : web_ok s → web_held_already i now otherwise s = Some (r, s') →
  (∀ e, wb_elections s !! i = Some e → web_ok (otherwise e s).2) → web_ok s'.
Proof.
  intros Hs Heq Ho. unfold web_held_already in Heq. destruct (wb_elections s !! i) as [e|] eqn:Hi; [|done]. cbn in Heq.
  specialize (Ho _ eq_refl).
  destruct (le_is_leader e), (le_lock_handle e) as [h|] eqn:Hh;
    [injection Heq as <- <-|injection Heq as Heq; by rewrite Heq in Ho..].
  change (web_ok (on_election i (set_handle None) (with_leases (λ ls, ls ++ [(i, Lease_new h now)]) s))).
  assert (handed (wb_elections s) (wb_leases s) (wk_id h)) as Hd by (left; eauto 6).
  apply web_ok_election; [|done|done|by left]. apply web_ok_lease; [done|apply Hs; by right|].
  cbn. intros rq Hrq. destruct (wo_requests s Hs _ _ Hrq) as [_ _ Hw _ _].
  destruct (rq_waiter rq); [done|by destruct Hw..].
Qed.

Lemma web_resume_ok id now s r s' : web_ok s → web_resume id now s = Some (r, s') → web_ok s'.
Proof.
  intros Hs. unfold web_resume. destruct (wb_requests s !! id) as [rq|] eqn:Hid; [|done]. cbn.
  destruct (wo_requests s Hs _ _ Hid) as [Hn Hl Hw Hv Hrf].
  destruct (rq_waiter rq) as [| |[]] eqn:Hwt; try done; intros [= <- <-].
  - assert (web_ok (with_requests (insert id (set_waiter NoWaiter rq)) s)) as Hs'.
    { eapply web_ok_update; [done|exact Hid|done|done|by split|done|by left]. }
    apply web_ok_lease.
    + apply web_ok_election; [done..|]. intros e He _. right. exists id, (set_waiter NoWaiter rq). cbn.
      rewrite lookup_insert_eq. split_and!; [done|done|by apply Hv].
    + apply Hs. eauto.
    + cbn. rewrite lookup_insert_eq. by intros rq' [= <-].
  - apply web_ok_election; [|done..].
    by apply (web_ok_end id rq (wb_locks s) s); [..|rewrite Hrf|rewrite Hrf| |].
Qed.

Lemma grant_lock_ok name s : web_ok s → web_ok (grant_lock name s).
Proof.
  intros Hs. unfold grant_lock. destruct (wl_grant name (wb_locks s)) as [[id l]|] eqn:Hg; [|done].
  apply grant_spec in Hg as (Hfree & Hheld & q & Hq & Hqueue). destruct Hs as [Hd Hr Hnd Hqd Hf].
  destruct (Hqd name id) as (rq & Hid & Hname & Hph); [rewrite Hq; left|].
  pose proof (Hnd name) as Hn. rewrite Hq in Hn. apply NoDup_cons in Hn as [Hnq Hndq].
  split; cbn [with_requests with_locks wb_locks wb_ids wb_elections wb_requests wb_leases].
  - intros id' [Hid'|?]; apply Hd; [left|by right]. by apply lookup_alter_is_Some in Hid'.
  - intros id' rq'. destruct (decide (id = id')) as [<-|Hne].
    + rewrite lookup_alter_eq, Hid. intros [= <-]. destruct (Hr _ _ Hid) as [Hno Hl Hw Hv Hrf].
      split; cbn; [done|by rewrite Hheld, decide_True|done|rewrite Hph in *..]; [by intros ?%Hv|by intros ?%Hrf].
    + rewrite lookup_alter_ne by done. intros Hid'. destruct (Hr _ _ Hid') as [Hno Hl Hw Hv Hrf]. split; [done| |done..].
      intros Hp%Hl. rewrite Hheld, decide_False; [done|]. congruence.
  - intros n. rewrite Hqueue. by destruct (decide (n = name)).
  - intros n id' Hin. rewrite Hqueue in Hin.
    assert (id' ∈ wl_queue (wb_locks s) n) as Hin0 by (destruct (decide (n = name)) as [->|]; [rewrite Hq; by right|done]).
    destruct (Hqd _ _ Hin0) as (rq' & Hid' & Hname' & Hph'). exists rq'. rewrite lookup_alter_ne; [done|].
    intros <-. simplify_eq. rewrite decide_True in Hin by done. done.
  - intros i e Hi Hl. destruct (Hf _ _ Hi Hl) as (id' & rq' & Hid' & Hel & Hp). exists id', rq'.
    rewrite lookup_alter_ne; [done|]. congruence.
Qed.

Lemma call_back_ok id now s : web_ok s → web_ok (call_back id now s).
Proof.
  intros Hs. unfold call_back. destruct (wb_requests s !! id) as [rq|] eqn:Hid; [|done].
  destruct (wo_requests s Hs _ _ Hid) as [Hn Hl Hw Hv Hrf].
  assert (∀ rq', rq_election rq' = rq_election rq → rq_phase rq' = Running →
    web_ok (with_requests (insert id rq') s) → web_ok (on_acquired (rq_election rq) now (with_requests (insert id rq') s))) as Hacq.
  { intros rq' He Hp Hok. apply web_ok_election; [done..|]. intros e _ _. right. exists id, rq'. cbn.
    by rewrite lookup_insert_eq. }
  destruct (rq_phase rq) eqn:Hph; try done.
  - destruct (rq_waiter rq) as [| |b] eqn:Hwt; (apply Hacq; [done|done|]);
      (eapply web_ok_update; [done|exact Hid|done|done| |by rewrite Hph|by rewrite Hph]).
    + split; cbn; [done|by intros _; apply Hl|by rewrite Hwt..].
    + split; cbn; [done|by intros _; apply Hl|intros _; split; [done|by apply Hw]|done..].
    + destruct b; [by specialize (Hv eq_refl)|by specialize (Hrf eq_refl)].
  - destruct (rq_waiter rq) eqn:Hwt; try done.
    eapply web_ok_update; [done|exact Hid|done|done| |by rewrite Hph|by rewrite Hph].
    split; cbn; rewrite ?Hph; [done..|intros _; by apply Hw|done|done].
Qed.

Lemma settle_ok id s : web_ok s → web_ok (settle id s).
Proof.
  intros Hs. unfold settle. destruct (wb_requests s !! id) as [rq|] eqn:Hid; [|done].
  destruct (rq_phase rq) eqn:Hph; try done. destruct (rq_released rq) eqn:Hrel; [|done].
  destruct (wo_requests s Hs _ _ Hid) as [Hn Hl Hw Hv Hrf].
  assert (rq_waiter rq = NoWaiter) as Hwt.
  { destruct (rq_waiter rq); [done|..]; destruct Hw as [? _]; congruence. }
  change (web_ok (with_requests (insert id (set_phase Finishing rq)) (on_released (rq_election rq) s))).
  assert (web_ok (on_released (rq_election rq) s)) as Hs' by by apply web_ok_election.
  eapply web_ok_update; [done|exact Hid|done|done| |by rewrite Hph|].
  - destruct (wo_requests _ Hs' _ _ Hid) as [Hn' Hl' _ _ _]. split; cbn; [done| |by rewrite Hwt..].
    intros _. apply Hl'. by rewrite Hph.
  - intros _. right. intros e. cbn. rewrite list_lookup_alter_eq. by intros (e0 & _ & ->)%fmap_Some.
Qed.

Lemma unlock_ok id s : web_ok s → web_ok (unlock id s).
Proof.
  intros Hs. unfold unlock. destruct (wb_requests s !! id) as [rq|] eqn:Hid; [|done].
  destruct (rq_phase rq) eqn:Hph; try done.
  destruct (wo_requests s Hs _ _ Hid) as [_ Hl _ _ _]. rewrite Hph in Hl. specialize (Hl eq_refl).
  destruct (unlock_spec _ _ _ Hl) as [Hheld Hqueue].
  eapply web_ok_end; [done|exact Hid|by rewrite Hph..|done|].
  intros n id' Hne Hid'. rewrite Hheld. destruct (decide (n = rq_name rq)) as [->|]; [|done]. congruence.
Qed.

Lemma web_ok_append ns st s : web_ok s → web_ok (with_elections (λ es, es ++ [election_new sha256_hex ns st]) s).
Proof.
  intros [Hd Hr Hq Hqd Hf].
  assert (∀ i e, (wb_elections s ++ [election_new sha256_hex ns st]) !! i = Some e →
    wb_elections s !! i = Some e ∨ e = election_new sha256_hex ns st) as Hlook.
  { intros i e [?|[_ Hlast]]%lookup_app_Some; [by left|]. apply list_lookup_singleton_Some in Hlast as [_ <-]. by right. }
  assert (∀ id, handed (wb_elections s ++ [election_new sha256_hex ns st]) (wb_leases s) id →
    handed (wb_elections s) (wb_leases s) id) as Hm.
  { intros id. apply handed_mono; [|eauto]. intros i e h [?| ->]%Hlook ?; [eauto|done]. }
  split; cbn [with_elections wb_locks wb_ids wb_elections wb_requests wb_leases]; [|..|done|].
  - intros id [?|?%Hm]; eauto.
  - intros id rq Hid. destruct (Hr _ _ Hid) as [Hn Hl Hw Hv Hrf]. split; [|done| |done..].
    + apply fmap_Some in Hn as (e & He & ->). by rewrite (lookup_app_l_Some _ _ _ _ He).
    + intros [Hrel Hno]%Hw. split; [done|]. by intros ?%Hm.
  - done.
  - intros i e [?| ->]%Hlook ?; [eauto|done].
Qed.

Lemma web_ok_drop k i lease s : web_ok s → wb_leases s !! k = Some (i, lease) → web_ok (with_leases (delete k) s).
Proof.
  intros Hs Hk. assert (handed (wb_elections s) (wb_leases s) (wk_id (ls_handle lease))) as Hh by (right; eauto 6).
  eapply (web_ok_hand (wk_id (ls_handle lease))); [exact Hs|done..| |apply Hs; by right|].
  - intros id Hid. cbn in Hid. right. revert Hid. apply handed_mono; [eauto|]. intros k' x Hx. destruct (decide (k' < k)).
    + rewrite list_lookup_delete_lt in Hx by done. eauto.
    + rewrite list_lookup_delete_ge in Hx by lia. eauto.
  - intros rq Hrq. destruct (wo_requests s Hs _ _ Hrq) as [_ _ Hw _ _]. destruct (rq_waiter rq); [done|by destruct Hw..].
Qed.

(** Events other than a flag set from outside. *)
Definition own_flag (ev : web_event) : bool := match ev with ESetIsLeader _ val _ => negb val | _ => true end.

Lemma run_web_ok ev s : own_flag ev = true → web_ok s → web_ok (run_web uuid sha256_hex ev s).
Proof.
  intros Hown Hs. destruct ev as [ns st|i mode now|id now|i|i|k|k|i val now|name|id now|id|id]; cbn [run_web].
  - by apply web_ok_append.
  - assert (∀ e, wb_elections s !! i = Some e → web_ok (request_lock uuid i e s)) as Hreq by (intros; by apply request_lock_ok).
    destruct (web_acquire uuid i mode now s) as [[r s']|] eqn:Ha; [|done]. cbn.
    destruct mode; (eapply held_already_ok; [done|exact Ha|]); [|done].
    intros e He. by apply acquire_lock_immediate_ok.
  - destruct (web_resume id now s) as [[r s']|] eqn:Hr; [|done]. by eapply web_resume_ok.
  - unfold web_try_acquire. destruct (wb_elections s !! i) as [e|] eqn:Hi; [|done]. cbn.
    destruct (le_lock_handle e); [done|]. by apply request_lock_ok.
  - unfold web_release. destruct (wb_elections s !! i) as [e|] eqn:Hi; [|done]. apply web_ok_election; [|done..].
    destruct (le_lock_handle e) as [h|] eqn:Hh; [|done].
    change (web_ok (on_election i (set_handle None) (release_web_lock (wk_id h) s))).
    apply web_ok_election; [|done|done|by left]. apply release_web_lock_ok; [done|]. left. eauto 6.
  - unfold web_drop_lease. destruct (wb_leases s !! k) as [[i lease]|] eqn:Hk; [|done].
    change (web_ok (with_leases (delete k) (release_web_lock (wk_id (ls_handle lease)) s))).
    eapply web_ok_drop; [|exact Hk]. apply release_web_lock_ok; [done|]. right. eauto 6.
  - unfold release_lock_by_id. destruct (wb_leases s !! k) as [[i lease]|] eqn:Hk; [|done].
    apply release_web_lock_ok; [done|]. right. eauto 6.
  - destruct val; [done|]. by apply web_ok_election.
  - by apply grant_lock_ok.
  - by apply call_back_ok.
  - by apply settle_ok.
  - by apply unlock_ok.
Qed.

Definition browser_new (l : L) : Browser L := Browser_new l 0 [] ∅ [].

(** A lock manager of which nobody asked anything yet. *)
Definition idle (l : L) : Prop := ∀ n, wl_queue l n = [].

Lemma run_webs_ok evs l : idle l → Forall (λ ev, own_flag ev = true) evs → web_ok (run_webs uuid sha256_hex evs (browser_new l)).
Proof.
  intros Hl Hevs. assert (web_ok (browser_new l)) as Hs.
  { split; cbn.
    - intros id [[? ?]|[(i & e & h & ? & _)|(k & i & x & ? & _)]]; done.
    - done.
    - intros n. rewrite Hl. constructor.
    - intros n id. rewrite Hl. by intros ?%elem_of_nil.
    - done. }
  revert Hs. generalize (browser_new l). unfold run_webs.
  induction Hevs as [|ev evs Hev _ IH]; intros s Hs; [done|]. by apply IH, run_web_ok.
Qed.

(** C15: In a browser at most one tab leads.  Whatever the elections of all tabs
    call, in whatever order the browser grants locks, calls callbacks, continues
    them and frees locks between the calls, at every moment at most one of the
    elections with the same lock name reports that it leads, and its request has
    the lock.  (Flags set from outside are excepted.) *)
Theorem web_single_leader evs l i j ei ej :
  let s := run_webs uuid sha256_hex evs (browser_new l) in
  idle l → Forall (λ ev, own_flag ev = true) evs →
  wb_elections s !! i = Some ei → wb_elections s !! j = Some ej → lock_name ei = lock_name ej →
  le_is_leader ei = true → le_is_leader ej = true →
  i = j ∧ ∃ id rq, wl_held (wb_locks s) (lock_name ei) = Some id ∧ wb_requests s !! id = Some rq ∧ rq_election rq = i.
Proof.
  intros s Hl Hevs Hi Hj Hname Hli Hlj. destruct (run_webs_ok evs l Hl Hevs) as [_ Hr _ _ Hf]. fold s in Hr, Hf.
  destruct (Hf _ _ Hi Hli) as (id & rq & Hid & <- & Hp). destruct (Hf _ _ Hj Hlj) as (id' & rq' & Hid' & <- & Hp').
  destruct (Hr _ _ Hid) as [Hn Hlk _ _ _]. destruct (Hr _ _ Hid') as [Hn' Hlk' _ _ _].
  rewrite Hp, Hp' in *. rewrite Hi in Hn. rewrite Hj in Hn'. injection Hn as Hn. injection Hn' as Hn'.
  specialize (Hlk eq_refl). specialize (Hlk' eq_refl). rewrite <-Hn in Hlk. rewrite <-Hn', <-Hname, Hlk in Hlk'.
  injection Hlk' as <-. simplify_eq. split; [done|]. by exists id, rq.
Qed.

(** The state in which election [i] leads with the lease [k] and election [j] is
    the first that waits. *)
Record succession (name : string) (i j k : nat) (id id' : string) (s : Browser L) : Prop := {
  su_lease : ∃ now, wb_leases s !! k = Some (i, Lease_new (WasmLockState_new name id) now);
  su_leader : is_Some (wb_elections s !! i);
  su_next : le_lock_handle <$> wb_elections s !! j = Some (Some (WasmLockState_new name id'));
  su_running : wb_requests s !! id = Some (Request i name Running NoWaiter true false);
  su_waiting : wb_requests s !! id' = Some (Request j name Queued NoWaiter true false);
  su_held : wl_held (wb_locks s) name = Some id;
  su_queue : ∃ q, wl_queue (wb_locks s) name = id' :: q;
  su_other : i ≠ j;
}.

(** C16: Leadership passes on.  When the leader of a browser drops its lease, the
    browser continues its callback, frees the lock, grants it to the first
    election that waits and calls that one's callback; then the old leader does
    not lead, the new one does and has the lock, and its next call of [acquire]
    returns the lease of the request with which it waited. *)
Theorem web_handover name i j k id id' now now' s : succession name i j k id id' s →
  let s' := run_webs uuid sha256_hex [EDropLease k; ESettle id; EUnlock id; EGrant name; ECallback id' now] s in
  le_is_leader <$> wb_elections s' !! i = Some false ∧ le_is_leader <$> wb_elections s' !! j = Some true ∧
  wl_held (wb_locks s') name = Some id' ∧
  ∃ s'', web_acquire uuid j Immediate now' s' =
    Some (Returned (GotLease (Lease_new (WasmLockState_new name id') now')), s'').
Proof.
  intros [[t Hk] [ei Hi] Hj Hid Hid' Hheld [q Hq] Hij]. apply fmap_Some in Hj as (ej & Hj & Hh).
  assert (id ≠ id') as Hne by (intros <-; congruence).
  destruct (unlock_spec _ _ _ Hheld) as [Hheld2 Hqueue2].
  set (l2 := wl_unlock name id (wb_locks s)).
  assert (wl_held l2 name = None) as Hfree by by (unfold l2; rewrite Hheld2, decide_True).
  assert (wl_queue l2 name = id' :: q) as Hq2 by by (unfold l2; rewrite Hqueue2).
  destruct (grant_progress name l2 id' q Hfree Hq2) as [[id2 l3] Hg].
  destruct (grant_spec _ _ _ _ Hg) as (_ & Hheld3 & q' & Hq' & _). rewrite Hq2 in Hq'. injection Hq' as <- <-.
  unfold run_webs. cbn [foldl run_web]. unfold web_drop_lease. rewrite Hk. cbn [ls_handle wk_id].
  set (s1 := release_web_lock id (with_leases (delete k) s)).
  assert (settle id s1 = on_released i (with_requests (insert id (Request i name Finishing NoWaiter false true)) s1)) as ->.
  { unfold settle. cbn. by rewrite lookup_alter_eq, Hid. }
  set (s2 := on_released i _).
  assert (unlock id s2 = with_requests (delete id) (with_locks l2 s2)) as ->.
  { unfold unlock. cbn. by rewrite lookup_insert_eq. }
  set (s3 := with_requests (delete id) _).
  assert (grant_lock name s3 = with_requests (alter (set_phase Granted) id') (with_locks l3 s3)) as ->.
  { unfold grant_lock. cbn. by rewrite Hg. }
  set (s4 := with_requests (alter _ id') _).
  assert (call_back id' now s4 =
    on_acquired j now (with_requests (insert id' (Request j name Running NoWaiter true false)) s4)) as ->.
  { unfold call_back. cbn. by rewrite lookup_alter_eq, lookup_delete_ne, lookup_insert_ne, lookup_alter_ne, Hid'. }
  cbn. rewrite list_lookup_alter_ne, !list_lookup_alter_eq, Hi by done.
  rewrite list_lookup_alter_ne, Hj by done. split_and!; [done|done|by rewrite Hheld3, decide_True|].
  unfold web_acquire_immediate, web_held_already. cbn.
  rewrite list_lookup_alter_eq, list_lookup_alter_ne, Hj by done. cbn. rewrite <-Hh. eauto.
Qed.
(** A leader that asks again, with its lease out, is told to wait and loses its
    flag, although it keeps the lock: the request for the lock that it has itself
    is refused. *)
Theorem web_second_acquire_demotes i e id rq now s :
  let id' := uuid (wb_ids s) in
  wb_elections s !! i = Some e → le_is_leader e = true → le_lock_handle e = None →
  wb_requests s !! id = Some rq → id ≠ id' → wl_held (wb_locks s) (lock_name e) = Some id →
  let s' := run_webs uuid sha256_hex [EAcquire i Immediate now; ECallback id' now; EResume id' now] s in
  le_is_leader <$> wb_elections s' !! i = Some false ∧ wl_held (wb_locks s') (lock_name e) = Some id ∧
  wb_requests s' !! id = Some rq.
Proof.
  intros id' Hi Hl Hh Hid Hne Hheld. unfold run_webs. cbn [foldl run_web web_acquire].
  unfold web_acquire_immediate, web_held_already. rewrite Hi. cbn [mbind option_bind]. rewrite Hl, Hh. cbn [from_option snd].
  assert (∃ l', acquire_lock_immediate i (lock_name e) id' (draw_id uuid s).2 = with_requests
    (insert id' (Request i (lock_name e) Refused Unresolved false false)) (with_locks l' (draw_id uuid s).2) ∧
    wl_held l' (lock_name e) = Some id) as (l' & Hacq & Hheld').
  { unfold acquire_lock_immediate. cbn [draw_id snd wb_locks].
    destruct (wl_request_available (lock_name e) id' (wb_locks s)) as [[b l']|] eqn:Hreq.
    - apply request_available_spec in Hreq as (_ & Hb & Hheld').
      destruct b; [destruct (proj1 Hb eq_refl); congruence|]. exists l'. split; [done|].
      by rewrite Hheld', decide_False by by intros [].
    - exists (wb_locks s). by split. }
  change (uuid (wb_ids s)) with id'. cbn [draw_id snd] in Hacq. cbn [draw_id]. fold id'. rewrite Hacq.
  unfold call_back. cbn. rewrite lookup_insert_eq. cbn. unfold web_resume. cbn. rewrite !lookup_insert_eq. cbn.
  rewrite list_lookup_alter_eq, Hi. split_and!; [done|done|].
  by rewrite lookup_delete_ne, !lookup_insert_ne.
Qed.
End web.

(** ** Instances *)

(** The open files with their paths, and who locked a path last. *)
Record file_table := FileTable { ft_open : gmap N string; ft_locks : gmap string N }.

Definition ft_holder (w : file_table) (p : string) : option N :=
  fd ← ft_locks w !! p;
  if decide (ft_open w !! fd = Some p) then Some fd else None.

#[export] Instance file_table_locks : LockFiles file_table := {|
  open_file p w :=
    let fd := fresh (dom (ft_open w) ∪ map_img (ft_locks w)) in
    (Ok fd, FileTable (<[fd := p]> (ft_open w)) (ft_locks w));
  flock fd w :=
    match ft_open w !! fd with
    | None => (Err (OtherErrno "EBADF"), w)
    | Some p =>
        match ft_holder w p with
        | None => (Ok tt, FileTable (ft_open w) (<[p := fd]> (ft_locks w)))
        | Some fd' => (if decide (fd' = fd) then Ok tt else Err WouldBlock, w)
        end
    end;
  close_file fd w := FileTable (delete fd (ft_open w)) (ft_locks w);
  file_path w fd := ft_open w !! fd;
  lock_holder := ft_holder;
|}.

Lemma ft_holder_Some w p fd : ft_holder w p = Some fd ↔ ft_locks w !! p = Some fd ∧ ft_open w !! fd = Some p.
Proof.
  unfold ft_holder. destruct (ft_locks w !! p) as [fd'|]; cbn; [|naive_solver].
  destruct (decide (ft_open w !! fd' = Some p)); naive_solver.
Qed.

Lemma ft_fresh (w : file_table) : let fd := fresh (dom (ft_open w) ∪ map_img (ft_locks w)) in
  ft_open w !! fd = None ∧ ∀ p, ft_locks w !! p ≠ Some fd.
Proof.
  intros fd. pose proof (is_fresh (dom (ft_open w) ∪ map_img (ft_locks w) : gset N)) as Hf. fold fd in Hf. split.
  - apply not_elem_of_dom. intros ?. apply Hf. by apply elem_of_union_l.
  - intros p Hp. apply Hf, elem_of_union_r. by eapply elem_of_map_img_2.
Qed.

#[export] Instance file_table_spec : LockFilesSpec file_table.
Proof.
  split; cbn.
  - intros p w fd w' [= <- <-]. destruct (ft_fresh w) as [Hn Hl]. split_and!; [done| |].
    + intros fd'. cbn. case_decide as Hd; [by subst; rewrite lookup_insert_eq|by rewrite lookup_insert_ne].
    + intros p'. apply option_eq. intros fd'. rewrite !ft_holder_Some. cbn. split; intros [Hp' Ho]; (split; [done|]).
      * rewrite lookup_insert_ne in Ho; [done|]. intros <-. by apply (Hl p').
      * rewrite lookup_insert_ne; [done|]. intros <-. by apply (Hl p').
  - done.
  - intros fd p w w' Hp. rewrite Hp. destruct (ft_holder w p) as [fd'|] eqn:Hh.
    + case_decide; [|done]. intros [= <-]. subst. split_and!; [by right| |done]. intros p'. case_decide; by subst.
    + intros [= <-]. split_and!; [by left| |done]. intros p'. apply option_eq. intros fd'. rewrite ft_holder_Some. cbn.
      case_decide as Hd; [subst; rewrite lookup_insert_eq; naive_solver|]. by rewrite lookup_insert_ne, ft_holder_Some.
  - intros fd p w e w' Hp. rewrite Hp. destruct (ft_holder w p) as [fd'|]; [|done]. case_decide; [done|].
    intros [= <- <-]. split; [done|]. eauto.
  - intros fd w fd'. case_decide as Hd; [by subst; rewrite lookup_delete_eq|by rewrite lookup_delete_ne].
  - intros fd w p. apply option_eq. intros fd'. rewrite ft_holder_Some. cbn.
    rewrite lookup_delete_Some. case_decide as Hd.
    + apply ft_holder_Some in Hd. naive_solver.
    + rewrite ft_holder_Some. split; [naive_solver|]. intros [Hl Ho]. split; [done|]. split; [|done].
      intros <-. by apply Hd, ft_holder_Some.
  - intros w p fd [_ Ho]%ft_holder_Some. done.
Qed.

Lemma file_table_reliable : reliable (W := file_table).
Proof.
  split; [done|]. intros fd p w e w' Hp. cbn in *. rewrite Hp. destruct (ft_holder w p) as [fd'|]; [|done].
  case_decide; [done|]. by intros [= <- _].
Qed.

(** A lock table: who has each lock, and who waits for it. *)
Record lock_table := LockTable { lt_held : gmap string string; lt_queue : gmap string (list string) }.

Definition lt_waiting (l : lock_table) (name : string) : list string := default [] (lt_queue l !! name).

#[export] Instance lock_table_locks : WebLocks lock_table := {|
  wl_request name id l := Some (LockTable (lt_held l) (<[name := lt_waiting l name ++ [id]]> (lt_queue l)));
  wl_request_available name id l :=
    match lt_held l !! name, lt_waiting l name with
    | None, [] => Some (true, LockTable (<[name := id]> (lt_held l)) (lt_queue l))
    | _, _ => Some (false, l)
    end;
  wl_grant name l :=
    match lt_held l !! name, lt_waiting l name with
    | None, id :: q => Some (id, LockTable (<[name := id]> (lt_held l)) (<[name := q]> (lt_queue l)))
    | _, _ => None
    end;
  wl_unlock name id l := LockTable (delete name (lt_held l)) (lt_queue l);
  wl_held l name := lt_held l !! name;
  wl_queue := lt_waiting;
|}.

Lemma lt_waiting_insert l h name q n :
  lt_waiting (LockTable h (<[name := q]> (lt_queue l))) n = if decide (n = name) then q else lt_waiting l n.
Proof.
  unfold lt_waiting. cbn. case_decide as Hd; [by subst; rewrite lookup_insert_eq|by rewrite lookup_insert_ne].
Qed.

#[export] Instance lock_table_spec : WebLocksSpec lock_table.
Proof.
  split; cbn.
  - intros name id l l' [= <-]. split; [done|]. intros n. apply lt_waiting_insert.
  - intros name id l b l'. destruct (lt_held l !! name) eqn:Hh, (lt_waiting l name) eqn:Hq; intros [= <- <-];
      (split; [done|]); (split; [naive_solver|]); intros n; cbn; case_decide as Hd; try naive_solver.
    + destruct Hd as [_ ->]. by rewrite lookup_insert_eq.
    + rewrite lookup_insert_ne; [done|naive_solver].
  - intros name l id l'. destruct (lt_held l !! name) eqn:Hh, (lt_waiting l name) as [|id0 q] eqn:Hq; intros [= <- <-].
    split; [done|]. split.
    + intros n. cbn. case_decide as Hd; [by subst; rewrite lookup_insert_eq|by rewrite lookup_insert_ne].
    + exists q. split; [done|]. intros n. apply lt_waiting_insert.
  - intros name l id q Hh Hq. rewrite Hh, Hq. eauto.
  - intros name id l _. split; [|done]. intros n.
    case_decide as Hd; [by subst; rewrite lookup_delete_eq|by rewrite lookup_delete_ne].
Qed.

(** ** Two elections *)

Definition sample_natives : list native_call :=
  [CNew "n" InMemory; CNew "n" InMemory; CAcquire 0 Immediate S754_nan; CAcquire 1 Immediate S754_nan;
   CDropLease 0; CAcquire 1 Wait S754_nan].

Lemma native_lease_exclusive_witness :
  lock_holder (sy_files (run_natives "/tmp/" id sample_natives (FileTable ∅ ∅))) "/tmp/vaultsync-n-in-memory.lock" = Some 1%N ∧ 0 = 0.
Proof.
  apply (native_lease_exclusive "/tmp/" id sample_natives (FileTable ∅ ∅) 0 1 (Lease_new 1%N S754_nan)
    (LeaderElection_new "n" "in-memory" true None RuntimeBus.new) 0 1 (Lease_new 1%N S754_nan)
    (LeaderElection_new "n" "in-memory" true None RuntimeBus.new)); vm_compute; reflexivity.
Defined.

Lemma native_try_acquire_keeps_no_lock_witness : let e := election_new id "n" InMemory in
  ∃ e1 e2 (w1 w2 : file_table),
    try_acquire "/tmp/" S754_nan (Native_new e (FileTable ∅ ∅)) = (Ok true, Native_new e1 w1) ∧
    try_acquire "/tmp/" S754_nan (Native_new e w1) = (Ok true, Native_new e2 w2) ∧
    le_is_leader e1 = true ∧ le_is_leader e2 = true ∧ lock_holder w2 (lock_path "/tmp/" e) = None.
Proof. intros e. apply native_try_acquire_keeps_no_lock; [apply file_table_reliable|reflexivity..]. Defined.

(** The first election leads, the second waits. *)
Definition sample_web : list web_event :=
  [ENew "n" Wasm; ENew "n" Wasm; EAcquire 0 Immediate S754_nan; ECallback "0" S754_nan; EResume "0" S754_nan;
   EAcquire 1 Wait S754_nan].

Definition sample_browser : Browser lock_table := run_webs pretty id sample_web (browser_new (LockTable ∅ ∅)).

Lemma web_single_leader_witness :
  0 = 0 ∧ ∃ lid rq, wl_held (wb_locks sample_browser) "vaultsync-n-wasm" = Some lid ∧
    wb_requests sample_browser !! lid = Some rq ∧ rq_election rq = 0.
Proof.
  apply (web_single_leader pretty id sample_web (LockTable ∅ ∅) 0 0
    (LeaderElection_new "n" "wasm" true None RuntimeBus.new) (LeaderElection_new "n" "wasm" true None RuntimeBus.new));
    [|repeat constructor|vm_compute; reflexivity..].
  intros n. reflexivity.
Defined.

Lemma web_handover_witness :
  let s := run_webs pretty id [EDropLease 0; ESettle "0"; EUnlock "0"; EGrant "vaultsync-n-wasm"; ECallback "1" S754_nan]
    sample_browser in
  le_is_leader <$> wb_elections s !! 1 = Some true ∧ wl_held (wb_locks s) "vaultsync-n-wasm" = Some "1".
Proof.
  destruct (web_handover pretty id "vaultsync-n-wasm" 0 1 0 "0" "1" S754_nan S754_nan sample_browser) as (_ & Hl & Hh & _);
    [|split; [exact Hl|exact Hh]].
  split; try (vm_compute; reflexivity); try discriminate; eexists; vm_compute; reflexivity.
Defined.
