(* ===== verification/SubscriptionEngine.v ===== *)
(** * Subscriptions of the application

    [subscription/engine.rs], [subscription/filter.rs] and
    [subscription/observer.rs].  A callback is a closure of the application:
    it is named by a number, and calling it is a notification in the order of
    the calls. *)
From S2P Require Import Prelude F64 Types CrdtValue Document OpSet.
#[local] Set Warnings "-register-all".

Inductive FireSource := LocalWrite | ReconcilerPush | ReconcilerPull | ReconcilerSnapshot.

Record Subscription := Subscription_new {
  sb_doc_id : string;
  sb_callback : N;
}.

Record SubscriptionEngine := Engine {
  se_subscriptions : gmap N Subscription;
  se_by_doc_id : gmap string (list N);
  se_next_handle : N;
  se_global_listener : option N;
  se_fire_count : N;
}.

Inductive notification :=
  | NotifyGlobal (listener : N) (doc_id record_id : string)
  | NotifyLocal (callback : N) (doc_id record_id : string) (state : gmap string CrdtValue).

Definition engine_new : SubscriptionEngine := Engine ∅ ∅ 1 None 0.

Definition set_global_listener (listener : N) (e : SubscriptionEngine) : SubscriptionEngine :=
  Engine (se_subscriptions e) (se_by_doc_id e) (se_next_handle e) (Some listener) (se_fire_count e).

Definition engine_register (doc_id : string) (callback : N) (e : SubscriptionEngine) :
    N * SubscriptionEngine :=
  let handle_id := se_next_handle e in
  (handle_id, Engine (<[handle_id := Subscription_new doc_id callback]> (se_subscriptions e))
     (<[doc_id := default [] (se_by_doc_id e !! doc_id) ++ [handle_id]]> (se_by_doc_id e))
     (wrapping_add64 handle_id 1) (se_global_listener e) (se_fire_count e)).

Definition engine_unregister (handle : N) (e : SubscriptionEngine) :
    result unit VaultSyncError * SubscriptionEngine :=
  match se_subscriptions e !! handle with
  | None => (Err (EStorage "subscription not found"), e)
  | Some sub =>
      let by_doc :=
        match se_by_doc_id e !! sb_doc_id sub with
        | None => se_by_doc_id e
        | Some handles =>
            match filterb (λ h, negb (h =? handle)%N) handles with
            | [] => delete (sb_doc_id sub) (se_by_doc_id e)
            | kept => <[sb_doc_id sub := kept]> (se_by_doc_id e)
            end
        end in
      (Ok tt, Engine (delete handle (se_subscriptions e)) by_doc (se_next_handle e)
         (se_global_listener e) (se_fire_count e))
  end.

Definition listener_count (doc_id : string) (e : SubscriptionEngine) : nat :=
  match se_by_doc_id e !! doc_id with Some handles => length handles | None => 0 end.

Definition fire_local (doc_id record_id : string) (state : gmap string CrdtValue)
    (e : SubscriptionEngine) : list notification :=
  match se_by_doc_id e !! doc_id with
  | None => []
  | Some handles => omap (λ h, (λ sub, NotifyLocal (sb_callback sub) doc_id record_id state) <$>
                                 se_subscriptions e !! h) handles
  end.

Definition fire (_source : FireSource) (doc_id record_id : string) (state : gmap string CrdtValue)
    (e : SubscriptionEngine) : list notification * SubscriptionEngine :=
  let e := Engine (se_subscriptions e) (se_by_doc_id e) (se_next_handle e) (se_global_listener e)
    (wrapping_add64 (se_fire_count e) 1) in
  let global := match se_global_listener e with
                | Some l => [NotifyGlobal l doc_id record_id]
                | None => []
                end in
  (global ++ fire_local doc_id record_id state e, e).

(** ** [Filter] *)

Inductive Filter :=
  | FieldEquals (field : string) (value : CrdtValue)
  | FieldContains (field : string) (value : CrdtValue)
  | FAnd (fs : list Filter)
  | FOr (fs : list Filter)
  | FNot (f : Filter).

(** [hay.contains(needle)]. *)
Fixpoint str_contains (needle hay : string) : bool :=
  String.prefix needle hay ||
  match hay with
  | EmptyString => false
  | String _ hay' => str_contains needle hay'
  end.

Fixpoint filter_matches (f : Filter) (doc : gmap string CrdtValue) : bool :=
  match f with
  | FieldEquals field value =>
      match doc !! field with Some v => crdt_eqb v value | None => false end
  | FieldContains field value =>
      match doc !! field with
      | Some v => match v, value with
                  | VString hay, VString needle => str_contains needle hay
                  | _, _ => false
                  end
      | None => false
      end
  | FAnd fs => forallb (λ f, filter_matches f doc) fs
  | FOr fs => existsb (λ f, filter_matches f doc) fs
  | FNot f => negb (filter_matches f doc)
  end.

Definition filter_is_empty (f : Filter) : bool :=
  match f with FAnd [] => true | _ => false end.

(** ** [CrdtObserver] *)

Record CrdtObserver := Observer {
  ob_watched : gset (string * string);
  ob_last_states : gmap (string * string) (gmap string CrdtValue);
}.

Definition observer_new : CrdtObserver := Observer ∅ ∅.

Definition watch (doc_id record_id : string) (o : CrdtObserver) : CrdtObserver :=
  Observer ({[(doc_id, record_id)]} ∪ ob_watched o) (ob_last_states o).

Definition unwatch (doc_id record_id : string) (o : CrdtObserver) : CrdtObserver :=
  Observer (ob_watched o ∖ {[(doc_id, record_id)]}) (delete (doc_id, record_id) (ob_last_states o)).

(** [prev.get(field) != Some(value)]. *)
Definition field_differs (prev : gmap string CrdtValue) (field : string) (value : CrdtValue) : bool :=
  match prev !! field with Some old => negb (crdt_eqb old value) | None => true end.

Definition detect_changes `{Yrs} (doc_id : string) (doc : CRDTDocument) (o : CrdtObserver) :
    list string * CrdtObserver :=
  let key := (doc_id, cd_record_id doc) in
  if negb (bool_decide (key ∈ ob_watched o)) then ([], o)
  else
    let current := to_map doc in
    let changed :=
      match ob_last_states o !! key with
      | Some prev =>
          map fst (filterb (λ p : string * CrdtValue, field_differs prev p.1 p.2) (map_to_list current)) ++
          filterb (λ field, bool_decide (current !! field = None)) (map fst (map_to_list prev))
      | None => map fst (map_to_list current)
      end in
    (changed, Observer (ob_watched o) (<[key := current]> (ob_last_states o))).

(** ** Theory of the engine *)

(** The live subscriptions in the order they were registered. *)
Abbreviation live_list := (list (N * Subscription)).

Definition live_for (doc_id : string) (live : live_list) : live_list :=
  filterb (λ p : N * Subscription, bool_decide (sb_doc_id p.2 = doc_id)) live.

Record engine_inv (live : live_list) (e : SubscriptionEngine) : Prop := {
  ei_nodup : NoDup live.*1;
  ei_subs : se_subscriptions e = list_to_map live;
  ei_docs doc_id : default [] (se_by_doc_id e !! doc_id) = (live_for doc_id live).*1;
  ei_next p : p ∈ live → (p.1 < se_next_handle e)%N;
}.

Definition not_handle (h : N) (p : N * Subscription) : bool := negb (p.1 =? h)%N.

Lemma live_for_drop doc_id h live :
  (live_for doc_id (filterb (not_handle h) live)).*1 = filterb (λ k, negb (k =? h)%N) (live_for doc_id live).*1.
Proof.
  change ((live_for doc_id live).*1) with (map fst (live_for doc_id live)). rewrite filterb_map.
  unfold live_for. rewrite !filterb_filterb. apply (f_equal (map fst)), filterb_ext.
  intros [k sub] _. unfold not_handle. simpl. apply andb_comm.
Qed.

Lemma list_to_map_drop h live : NoDup live.*1 →
  delete h (list_to_map live : gmap N Subscription) = list_to_map (filterb (not_handle h) live).
Proof.
  induction live as [|[k sub] live IH]; simpl; [intros _; by rewrite delete_empty|].
  intros [Hk Hnd]%NoDup_cons. unfold filterb in *. cbn [List.filter]. unfold not_handle at 1. simpl.
  destruct (N.eqb_spec k h) as [->|Hne]; simpl.
  - rewrite delete_insert_eq. by apply IH.
  - by rewrite delete_insert_ne, IH by done.
Qed.

Lemma engine_register_inv live e doc_id cb : engine_inv live e → (se_next_handle e < U64_MAX)%N →
  engine_inv (live ++ [(se_next_handle e, Subscription_new doc_id cb)]) (engine_register doc_id cb e).2.
Proof.
  intros [Hnd Hsubs Hdocs Hnext] Hroom.
  assert (Hfresh : se_next_handle e ∉ live.*1).
  { intros ([k sub] & Heq & Hin)%list_elem_of_fmap. apply Hnext in Hin. simpl in *. lia. }
  split; simpl.
  - rewrite fmap_app. apply NoDup_app. split_and!; [done|set_solver|apply NoDup_singleton].
  - by rewrite list_to_map_snoc, Hsubs.
  - intros d. unfold live_for. rewrite filterb_app, fmap_app. unfold filterb at 2. simpl.
    fold (live_for d live). rewrite <-Hdocs. destruct (decide (d = doc_id)) as [->|Hne].
    + by rewrite lookup_insert_eq, bool_decide_true.
    + rewrite lookup_insert_ne by done. rewrite bool_decide_false by done. by rewrite app_nil_r.
  - rewrite wrapping_add64_small by lia. intros p [Hin|Hin]%elem_of_app.
    + apply Hnext in Hin. lia.
    + apply list_elem_of_singleton in Hin as ->. simpl. lia.
Qed.

Lemma engine_unregister_inv live e h : engine_inv live e →
  engine_inv (filterb (not_handle h) live) (engine_unregister h e).2.
Proof.
  intros [Hnd Hsubs Hdocs Hnext]. unfold engine_unregister.
  destruct (se_subscriptions e !! h) as [sub|] eqn:Hlook.
  - split; simpl.
    + eapply sublist_NoDup; [exact Hnd|]. apply (fmap_sublist fst). apply sublist_filterb.
    + rewrite Hsubs. by apply list_to_map_drop.
    + intros d. rewrite live_for_drop, <-Hdocs.
      assert (Hsame : d ≠ sb_doc_id sub →
        filterb (λ k, negb (k =? h)%N) (default [] (se_by_doc_id e !! d)) = default [] (se_by_doc_id e !! d)).
      { intros Hne. apply filterb_all. intros k Hk. rewrite Hdocs in Hk.
        apply list_elem_of_fmap in Hk as ([k' sub'] & -> & [Hd%bool_decide_eq_true Hin]%elem_of_filterb).
        simpl in *. destruct (N.eqb_spec k' h) as [->|]; [exfalso|done]. apply Hne. rewrite Hsubs in Hlook.
        apply elem_of_list_to_map in Hin; [|done]. congruence. }
      destruct (se_by_doc_id e !! sb_doc_id sub) as [handles|] eqn:Hh.
      * destruct (filterb (λ k, negb (k =? h)%N) handles) as [|k ks] eqn:Hf;
          destruct (decide (d = sb_doc_id sub)) as [->|Hne];
          rewrite ?lookup_delete_eq, ?lookup_insert_eq, ?lookup_delete_ne, ?lookup_insert_ne, ?Hh by done; simpl;
          rewrite ?Hf; done || by rewrite Hsame.
      * destruct (decide (d = sb_doc_id sub)) as [->|Hne]; [by rewrite Hh|by rewrite Hsame].
    + intros p [_ Hin]%elem_of_filterb. by apply Hnext.
  - rewrite filterb_all; [by split|]. intros [k sub] Hin. unfold not_handle. simpl.
    destruct (N.eqb_spec k h) as [->|]; [exfalso|done]. rewrite Hsubs in Hlook.
    apply elem_of_list_to_map in Hin; [|done]. congruence.
Qed.

Lemma fire_local_live live e doc_id record_id state : engine_inv live e →
  fire_local doc_id record_id state e =
    map (λ p, NotifyLocal (sb_callback p.2) doc_id record_id state) (live_for doc_id live) ∧
  listener_count doc_id e = length (live_for doc_id live).
Proof.
  intros [Hnd Hsubs Hdocs _]. unfold fire_local, listener_count. specialize (Hdocs doc_id).
  assert (Hall : omap (λ h, (λ sub, NotifyLocal (sb_callback sub) doc_id record_id state) <$>
      se_subscriptions e !! h) (live_for doc_id live).*1 =
    map (λ p, NotifyLocal (sb_callback p.2) doc_id record_id state) (live_for doc_id live)).
  { assert (Hin : ∀ p, p ∈ live_for doc_id live → se_subscriptions e !! p.1 = Some p.2).
    { intros [k sub] [_ Hin]%elem_of_filterb. rewrite Hsubs. by apply elem_of_list_to_map. }
    revert Hin. generalize (live_for doc_id live) as l. induction l as [|[k sub] l IH]; intros Hin; [done|].
    pose proof (Hin (k, sub) ltac:(left)) as Hk. cbn in *. rewrite Hk. simpl. f_equal. apply IH. intros p Hp. apply Hin. by right. }
  destruct (se_by_doc_id e !! doc_id) as [handles|]; simpl in Hdocs; subst.
  - split; [done|]. by rewrite length_fmap.
  - destruct (live_for doc_id live); [done|discriminate Hdocs].
Qed.

(** ** Theorems *)

Inductive engine_call := CallRegister (doc_id : string) (callback : N) | CallUnregister (handle : N).

Definition engine_exec (e : SubscriptionEngine) (c : engine_call) : SubscriptionEngine :=
  match c with
  | CallRegister doc_id cb => (engine_register doc_id cb e).2
  | CallUnregister h => (engine_unregister h e).2
  end.
Definition engine_execs (e : SubscriptionEngine) (cs : list engine_call) : SubscriptionEngine :=
  foldl engine_exec e cs.

(** The subscriptions registered and not unregistered, with the next handle. *)
Definition live_step (acc : live_list * N) (c : engine_call) : live_list * N :=
  let '(live, next) := acc in
  match c with
  | CallRegister doc_id cb => (live ++ [(next, Subscription_new doc_id cb)], (next + 1)%N)
  | CallUnregister h => (filterb (not_handle h) live, next)
  end.
Definition live_after (cs : list engine_call) : live_list := (foldl live_step ([], 1%N) cs).1.

Lemma engine_execs_inv cs live e : engine_inv live e →
  (se_next_handle e + N.of_nat (length cs) ≤ U64_MAX)%N →
  engine_inv (foldl live_step (live, se_next_handle e) cs).1 (engine_execs e cs).
Proof.
  revert live e. induction cs as [|[d cb|h] cs IH]; intros live e Hinv Hroom; [done| |]; cbn [length] in Hroom; simpl.
  - pose proof (engine_register_inv live e d cb Hinv ltac:(lia)) as Hinv'.
    assert (Hn : se_next_handle (engine_register d cb e).2 = (se_next_handle e + 1)%N).
    { simpl. apply wrapping_add64_small. lia. }
    specialize (IH _ _ Hinv'). rewrite Hn in IH. apply IH. lia.
  - pose proof (engine_unregister_inv live e h Hinv) as Hinv'.
    assert (Hn : se_next_handle (engine_unregister h e).2 = se_next_handle e).
    { unfold engine_unregister. by destruct (se_subscriptions e !! h). }
    specialize (IH _ _ Hinv'). rewrite Hn in IH. apply IH. lia.
Qed.

Lemma engine_execs_global cs e : se_global_listener (engine_execs e cs) = se_global_listener e.
Proof.
  revert e. induction cs as [|c cs IH]; intros e; [done|]. simpl. rewrite IH.
  destruct c as [d cb|h]; simpl; [done|]. unfold engine_unregister. by destruct (se_subscriptions e !! h).
Qed.

(** Firing reaches exactly the live subscriptions: after any history of
    registrations and unregistrations, firing a document calls the callback of
    every subscription to that document that has not been unregistered, once
    each and in the order of registration, after the global listener if one is
    set; and [listener_count] is their number. *)
Theorem fire_reaches_live_subscriptions cs source doc_id record_id state :
  (N.of_nat (length cs) < U64_MAX)%N →
  let e := engine_execs engine_new cs in
  (fire source doc_id record_id state e).1 =
    map (λ p, NotifyLocal (sb_callback p.2) doc_id record_id state) (live_for doc_id (live_after cs)) ∧
  (∀ l, (fire source doc_id record_id state (set_global_listener l e)).1 =
    NotifyGlobal l doc_id record_id ::
    map (λ p, NotifyLocal (sb_callback p.2) doc_id record_id state) (live_for doc_id (live_after cs))) ∧
  listener_count doc_id e = length (live_for doc_id (live_after cs)).
Proof.
  intros Hlen e. assert (Hinv : engine_inv (live_after cs) e).
  { apply (engine_execs_inv cs [] engine_new); [|simpl; lia]. split; simpl; [constructor|done|done|].
    by intros p ?%elem_of_nil. }
  assert (Hglobal : se_global_listener e = None) by (unfold e; by rewrite engine_execs_global).
  destruct (fire_local_live _ _ doc_id record_id state Hinv) as [Hfire Hcount].
  unfold fire, fire_local in *. simpl. rewrite Hglobal, Hfire. done.
Qed.

(** The observer reports exactly the changes: for a watched record a field is
    reported if and only if its value differs from the one last seen (or there
    was none, or the field is gone), and what is remembered is the current
    state; an unwatched record reports nothing. *)
Theorem detect_changes_exact `{Yrs} doc_id (doc : CRDTDocument) o field :
  let key := (doc_id, cd_record_id doc) in
  let prev := default ∅ (ob_last_states o !! key) in
  key ∈ ob_watched o →
  (field ∈ (detect_changes doc_id doc o).1 ↔
    match prev !! field, to_map doc !! field with
    | Some old, Some value => crdt_eqb old value = false
    | None, None => False
    | _, _ => True
    end) ∧
  ob_last_states (detect_changes doc_id doc o).2 !! key = Some (to_map doc).
Proof.
  intros key prev Hw. unfold detect_changes. fold key. rewrite bool_decide_true by done. simpl.
  split; [|apply lookup_insert_eq].
  assert (Hkeys : ∀ (m : gmap string CrdtValue), field ∈ map fst (map_to_list m) ↔ is_Some (m !! field)).
  { intros m. change (map fst (map_to_list m)) with ((map_to_list m).*1). rewrite list_elem_of_fmap. split.
    - intros ([k v] & -> & Hin%elem_of_map_to_list). simpl. eauto.
    - intros [v Hv]. exists (field, v). split; [done|]. by apply elem_of_map_to_list. }
  assert (Hdiff : field ∈ map fst (filterb (λ p : string * CrdtValue, field_differs prev p.1 p.2) (map_to_list (to_map doc))) ↔
    ∃ v, to_map doc !! field = Some v ∧ field_differs prev field v = true).
  { change (map fst ?l) with (l.*1). rewrite list_elem_of_fmap. split.
    - intros ([k v] & -> & [Hd Hin%elem_of_map_to_list]%elem_of_filterb). eauto.
    - intros (v & Hv & Hd). exists (field, v). split; [done|]. apply elem_of_filterb.
      split; [done|by apply elem_of_map_to_list]. }
  unfold prev in *. destruct (ob_last_states o !! key) as [p|]; simpl in *.
  - rewrite elem_of_app, Hdiff, elem_of_filterb, Hkeys, bool_decide_eq_true. unfold field_differs.
    destruct (p !! field) as [old|] eqn:Hp, (to_map doc !! field) as [v|] eqn:Hv; simpl.
    + split.
      * intros [(v' & [= <-] & Hn%negb_true_iff)|[Hn _]]; done.
      * intros Hn. left. exists v. by rewrite Hn.
    + split; [done|]. intros _. right. split; [done|by eexists].
    + split; [done|]. intros _. left. by exists v.
    + split; [|done]. intros [(v & ? & _)|[_ [v ?]]]; done.
  - rewrite Hkeys, lookup_empty. destruct (to_map doc !! field) as [v|].
    + split; [done|]. intros _. by exists v.
    + split; [by intros [v ?]|done].
Qed.

(** ** Witnesses *)

Lemma fire_reaches_live_subscriptions_witness :
  (fire LocalWrite "todos" "r1" ∅ (engine_execs engine_new
    [CallRegister "todos" 7; CallRegister "notes" 8; CallRegister "todos" 9; CallUnregister 1])).1 =
  [NotifyLocal 9 "todos" "r1" ∅].
Proof.
  destruct (fire_reaches_live_subscriptions
    [CallRegister "todos" 7; CallRegister "notes" 8; CallRegister "todos" 9; CallUnregister 1]
    LocalWrite "todos" "r1" ∅) as [H _].
  - vm_compute. reflexivity.
  - rewrite H. reflexivity.
Defined.

Lemma detect_changes_exact_witness :
  "doc_id" ∈ (detect_changes "todos" (document_new 1 "todos" "r1" 1) (watch "todos" "r1" observer_new)).1.
Proof.
  apply (detect_changes_exact "todos" (document_new 1 "todos" "r1" 1) (watch "todos" "r1" observer_new) "doc_id").
  - apply (bool_decide_unpack _). vm_compute. exact I.
  - vm_compute. exact I.
Defined.
