(* ===== verification/Compaction.v ===== *)
(** * The compaction engine

    [sync/compaction.rs]: old synced entries are dropped, deleted records whose
    grace time is over are removed, and records with many synced entries are
    collapsed into a snapshot.  The order in which the storage lists documents
    is the storage's; client ids of loaded documents are arguments. *)
From S2P Require Import Prelude Types Storage CrdtValue Document.

Module SyncCompaction.

Record CompactionConfig := CompactionConfig_new {
  cc_max_synced_age_secs : N;
  cc_tombstone_grace_secs : N;
  cc_snapshot_entry_threshold : nat;
}.
Definition config_default : CompactionConfig := CompactionConfig_new 86400 14400 100.

Section engine.
Context {S : Type} {HS : Storage S} {Y : Yrs} {K : SnapshotCodec}.

Abbreviation M := (SM S VaultSyncError).

(** [Some(CrdtValue::Boolean(true)) = doc.get_field("_deleted")]. *)
Definition tombstoned (doc : CRDTDocument) : bool :=
  match get_field "_deleted" doc with Some (VBoolean true) => true | _ => false end.

(** One candidate: the number of documents removed. *)
Definition remove_tombstone (cid : N) (doc_id record_id : string) : M nat :=
  existing ← get_document doc_id record_id;
  match existing with
  | None => mret 0
  | Some bs =>
      match from_snapshot cid bs with
      | Err _ => mret 0
      | Ok doc => if tombstoned doc then delete_document doc_id record_id;; mret 1 else mret 0
      end
  end.

Fixpoint remove_tombstones (cids : nat → N) (i : nat) (candidates : list doc_key) : M nat :=
  match candidates with
  | [] => mret 0
  | (doc_id, record_id) :: rest =>
      n ← remove_tombstone (cids i) doc_id record_id;
      m ← remove_tombstones cids (Datatypes.S i) rest;
      mret (n + m)
  end.

(** [.map(|e| e.created_at).max().unwrap_or(0)] and
    [.filter_map(|e| e.sequence).max().unwrap_or(0)]. *)
Definition max_created (es : list OplogEntry) : N := foldr (λ e m, N.max (oe_created_at e) m) 0%N es.
Definition max_sequence_of (es : list OplogEntry) : N :=
  foldr (λ e m, match oe_sequence e with Some s => N.max s m | None => m end) 0%N es.

(** One document: entries removed, documents collapsed, and the snapshot. *)
Definition collapse (config : CompactionConfig) (ns : string) (cid : N) (doc_id record_id : string) :
    M (nat * nat * list Snapshot) :=
  synced_entries ← read_synced_oplog_for_document ns doc_id record_id;
  if cc_snapshot_entry_threshold config <? length synced_entries then
    existing ← get_document doc_id record_id;
    match existing with
    | None => mret (0, 0, [])
    | Some bs =>
        match from_snapshot cid bs with
        | Err _ => mret (0, 0, [])
        | Ok doc =>
            let fresh_snapshot := to_snapshot doc in
            insert_document doc_id record_id fresh_snapshot;;
            let max_timestamp := max_created synced_entries in
            if (0 <? max_timestamp)%N then
              deleted ← delete_synced_oplog_before_timestamp ns doc_id record_id (wrapping_add64 max_timestamp 1);
              mret (deleted, 1, [Snapshot_new doc_id record_id (cd_schema_version doc)
                (max_sequence_of synced_entries) max_timestamp fresh_snapshot (crc32 fresh_snapshot)])
            else mret (0, 0, [])
        end
    end
  else mret (0, 0, []).

Fixpoint collapse_all (config : CompactionConfig) (ns : string) (cids : nat → N) (i : nat) (docs : list doc_key) :
    M (nat * nat * list Snapshot) :=
  match docs with
  | [] => mret (0, 0, [])
  | (doc_id, record_id) :: rest =>
      '(n, k, s) ← collapse config ns (cids i) doc_id record_id;
      '(n', k', s') ← collapse_all config ns cids (Datatypes.S i) rest;
      mret (n + n', k + k', s ++ s')
  end.

Definition run_snapshot_compaction (config : CompactionConfig) (ns : string) (cids : nat → N) :
    M (CompactionStats * list Snapshot) :=
  active_docs ← list_active_documents ns;
  '(removed, collapsed, snapshots) ← collapse_all config ns cids 0 active_docs;
  mret (CompactionStats_new removed 0 collapsed, snapshots).

(** The readings of the clock and the client ids of one run. *)
Record compaction_draws := CompactionDraws {
  cw_now_secs : N;
  cw_now_ms : N;
  cw_cids : nat → N;
  cw_snapshot_cids : nat → N;
}.

Definition run_compaction (config : CompactionConfig) (ns : string) (dr : compaction_draws) : M CompactionStats :=
  age_oplog_removed ← delete_synced_oplog_older_than (cw_now_secs dr) ns (cc_max_synced_age_secs config);
  candidates ← list_tombstoned_documents (cw_now_ms dr) ns (cc_tombstone_grace_secs config);
  docs_removed ← remove_tombstones (cw_cids dr) 0 candidates;
  '(stats, _) ← run_snapshot_compaction config ns (cw_snapshot_cids dr);
  mret (CompactionStats_new (age_oplog_removed + cs_oplog_removed stats) docs_removed (cs_snapshots_collapsed stats)).
End engine.
End SyncCompaction.
