(* ===== verification/Recovery.v ===== *)
(** * Recovery after a crash

    [ipc/crash_recovery.rs]: at start-up the client resets stale entries and
    writes back what the shared-memory ring of the last run still holds. *)
From S2P Require Import Prelude Text F64 Types Storage E2ee E2eeTheory SharedMemory SharedMemoryTheory CrdtValue Document OpSet.

Section recovery.
Context {S : Type} {HS : Storage S} {Y : Yrs} {K : Crypto}.

(** The storage, the key ring and the ring buffer, [None] if it cannot be
    opened. *)
Record CrashRecovery := Crash {
  cr_storage : S;
  cr_keyring : KeyRing;
  cr_shared_memory : option SharedMemory;
}.

Abbreviation M := (SM CrashRecovery (fault VaultSyncError)).

Definition cr_on_storage {A} (m : SM S VaultSyncError A) : M A :=
  zoom cr_storage (λ s c, Crash s (cr_keyring c) (cr_shared_memory c)) (may_fault m).
Definition cr_on_keyring {A} (m : SM KeyRing (fault VaultSyncError) A) : M A :=
  zoom cr_keyring (λ k c, Crash (cr_storage c) k (cr_shared_memory c)) m.

(** [shm.read_uncommitted()], where an error is a value. *)
Definition read_ring_entries : M (option (list RingBufferEntry)) := λ c,
  match cr_shared_memory c with
  | None => (Ok None, c)
  | Some l =>
      match read_uncommitted l with
      | (Ok es, _) => (Ok (Some es), c)
      | (Err (Fail _), _) => (Ok None, c)
      | (Err Panicked, _) => (Err Panicked, c)
      end
  end.

(** The entry written for a mutation of the ring. *)
Definition recovered_entry (ns doc_id record_id : string) (e : RingBufferEntry) (blob : bytes) : OplogEntry :=
  OplogEntry_new (re_id e) "recovered-replica" ns CrdtUpdate doc_id record_id (re_yrs_update e) (Some blob)
    (re_timestamp e) None Pending None (re_timestamp e) 0 OCrashRecovery "".

(** One mutation of the ring, with its nonce and the client id of the document
    it decodes to: how many were recovered. *)
Definition recover_entry (ns : string) (nonce : bytes) (cid : N) (e : RingBufferEntry) : M nat :=
  match from_snapshot cid (re_yrs_update e) with
  | Err _ => mret 0
  | Ok doc =>
      let doc_id := cd_doc_id doc in
      let record_id := cd_record_id doc in
      blob ← cr_on_keyring (encrypt_symmetric nonce (re_yrs_update e) ns);
      r ← try_fault (cr_on_storage
            (write_document_and_oplog doc_id record_id (re_yrs_update e) (recovered_entry ns doc_id record_id e blob)));
      mret (match r with Ok _ => 1 | Err _ => 0 end)
  end.

Definition recover (ns : string) (now : N) (nonces : nat → bytes) (cids : nat → N) : M nat :=
  recovered ← cr_on_storage (reset_stale_pending now ns 60000);
  es ← read_ring_entries;
  match es with
  | None => mret recovered
  | Some es =>
      ns' ← map_each (λ '(i, e), recover_entry ns (nonces i) (cids i) e) (imap pair es);
      mret (foldl Nat.add recovered ns')
  end.
End recovery.
Arguments CrashRecovery : clear implicits.

(** ** What recovery does to the store *)

Section theory.
Context {S : Type} {HS : Storage S} {HSpec : StorageSpec S} {Y : Yrs} {K : Crypto} {HK : CryptoSpec K}.
Implicit Types c : CrashRecovery S.

(** The record a mutation of the ring is written to, and its bytes. *)
Definition ring_write_of (cid : N) (e : RingBufferEntry) : option (doc_key * bytes) :=
  match from_snapshot cid (re_yrs_update e) with
  | Ok doc => Some ((cd_doc_id doc, cd_record_id doc), re_yrs_update e)
  | Err _ => None
  end.

Definition entry_write (x : OplogEntry) : doc_key * bytes := ((oe_doc_id x, oe_record_id x), oe_yrs_update x).

Definition write_back (docs : gmap doc_key bytes) (ws : list (doc_key * bytes)) : gmap doc_key bytes :=
  foldl (λ m '(k, b), <[k := b]> m) docs ws.

Definition recovery_ready c : Prop :=
  st_healthy (cr_storage c) ∧ rw_poisoned (cr_keyring c) = false ∧
  (ri_active_version (rw_val (cr_keyring c)) ≤ U64_MAX)%N.

Lemma recover_entry_ok ns nonce cid e c : recovery_ready c → length nonce = 12 →
  (N.of_nat (length (re_yrs_update e)) ≤ aead_limit)%N →
  ∃ c' xs, recover_entry ns nonce cid e c = (Ok (length xs), c') ∧ recovery_ready c' ∧
    entry_write <$> xs = option_list (ring_write_of cid e) ∧ Forall (λ x, oe_sync_status x = Pending) xs ∧
    st_view (cr_storage c') = AStore (write_back (a_docs (st_view (cr_storage c))) (entry_write <$> xs))
      (a_log (st_view (cr_storage c)) ++ xs).
Proof.
  intros (Hh&Hp&Hv) Hn Hlen. unfold recover_entry, ring_write_of.
  destruct (from_snapshot cid (re_yrs_update e)) as [doc|err] eqn:Hdoc; cycle 1.
  { exists c, []. split_and!; try done. rewrite app_nil_r. by destruct (st_view _). }
  destruct (encrypt_symmetric_ok (cr_keyring c) nonce (re_yrs_update e) ns Hp Hn Hv Hlen) as (blob&Henc&_).
  erewrite sm_bind_ok by (unfold cr_on_keyring, zoom; by rewrite Henc).
  set (x := recovered_entry ns (cd_doc_id doc) (cd_record_id doc) e blob).
  destruct (write_document_and_oplog_ok (cd_doc_id doc) (cd_record_id doc) (re_yrs_update e) x (cr_storage c))
    as [Hok _]. destruct (Hok Hh) as (s'&Hw&Hview&Hh'). 
  exists (Crash s' (cr_keyring c) (cr_shared_memory c)), [x]. split_and!; try done.
  - unfold mbind, sm_bind, try_fault, cr_on_storage, zoom, may_fault, sm_map_err. simpl. by rewrite Hw.
  - by constructor.
Qed.

Lemma recover_loop ns (nonces : nat → bytes) cids ps c : recovery_ready c → (∀ i, length (nonces i) = 12) →
  Forall (λ p : nat * RingBufferEntry, (N.of_nat (length (re_yrs_update p.2)) ≤ aead_limit)%N) ps →
  ∃ c' xss, map_each (λ '(i, e), recover_entry ns (nonces i) (cids i) e) ps c = (Ok (length <$> xss), c') ∧
    recovery_ready c' ∧
    entry_write <$> concat xss = omap (λ '(i, e), ring_write_of (cids i) e) ps ∧
    Forall (λ x, oe_sync_status x = Pending) (concat xss) ∧
    st_view (cr_storage c') = AStore (write_back (a_docs (st_view (cr_storage c))) (entry_write <$> concat xss))
      (a_log (st_view (cr_storage c)) ++ concat xss).
Proof.
  intros Hr Hn. revert c Hr. induction ps as [|[i e] ps IH]; intros c Hr Hlen.
  { exists c, []. split_and!; try done. simpl. rewrite app_nil_r. by destruct (st_view _). }
  apply Forall_cons in Hlen as [He Hlen].
  destruct (recover_entry_ok ns (nonces i) (cids i) e c Hr (Hn i) He) as (c1&xs&Hrun&Hr1&Hxs&Hpend&Hview).
  destruct (IH c1 Hr1 Hlen) as (c'&xss&Hrun'&Hr'&Hxss&Hpend'&Hview').
  exists c', (xs :: xss). simpl. split_and!; try done.
  - erewrite sm_bind_ok by exact Hrun. by erewrite sm_bind_ok by exact Hrun'.
  - rewrite fmap_app, Hxs, Hxss. by destruct (ring_write_of (cids i) e).
  - by apply Forall_app.
  - rewrite Hview', Hview. simpl. rewrite fmap_app, app_assoc. f_equal.
    unfold write_back. by rewrite foldl_app.
Qed.

Lemma foldl_add_lengths {A} (xss : list (list A)) n : foldl Nat.add n (length <$> xss) = n + length (concat xss).
Proof.
  revert n. induction xss as [|xs xss IH]; intros n; simpl; [lia|]. rewrite IH, length_app. lia.
Qed.

(** At start-up every mutation that the ring of the last run still holds and
    that decodes is written to the store again, whether or not it was stored
    before the end of that run: its bytes replace the record it names, whatever
    the record has become since, in the order of the ring; each gets a new
    pending log entry, so it is uploaded once more.  Records the ring does not
    name, and log entries other than the stale ones (which become pending), stay
    as they are. *)
Theorem recovery_replays_ring c ns now (nonces : nat → bytes) cids l es :
  recovery_ready c → cr_shared_memory c = Some l → read_uncommitted l = (Ok es, l) →
  (∀ i, length (nonces i) = 12) →
  Forall (λ e, (N.of_nat (length (re_yrs_update e)) ≤ aead_limit)%N) es →
  let a := a_reset_stale ns (saturating_sub now 60000) (st_view (cr_storage c)) in
  ∃ c' entries, recover ns now nonces cids c =
      (Ok (length (filterb (InMemoryStorage.stale_pending ns (saturating_sub now 60000)) (a_log (st_view (cr_storage c)))) +
           length entries), c') ∧
    entry_write <$> entries = omap (λ '(i, e), ring_write_of (cids i) e) (imap pair es) ∧
    Forall (λ x, oe_sync_status x = Pending) entries ∧
    st_view (cr_storage c') = AStore (write_back (a_docs a) (entry_write <$> entries)) (a_log a ++ entries).
Proof.
  intros (Hh&Hp&Hv) Hl Hread Hn Hes a. unfold recover.
  destruct (reset_stale_ok now ns 60000 (cr_storage c)) as [Hok _]. destruct (Hok Hh) as (s'&Hreset&Hview&Hh').
  erewrite sm_bind_ok by (unfold cr_on_storage, zoom, may_fault, sm_map_err; by rewrite Hreset).
  set (c1 := Crash s' (cr_keyring c) (cr_shared_memory c)).
  erewrite sm_bind_ok by (unfold read_ring_entries; simpl; rewrite Hl; by rewrite Hread).
  destruct (recover_loop ns nonces cids (imap pair es) c1) as (c'&xss&Hrun&_&Hxss&Hpend&Hview'); [done|done| |].
  { apply Forall_forall. intros p (j&e&->&Hj)%elem_of_lookup_imap. simpl.
    eapply Forall_forall in Hes; [exact Hes|]. by eapply list_elem_of_lookup_2. }
  exists c', (concat xss). erewrite sm_bind_ok by exact Hrun.
  split_and!; [|done|done|].
  - unfold mret, sm_ret. do 2 f_equal. apply foldl_add_lengths.
  - rewrite Hview'. simpl. by rewrite Hview.
Qed.
End theory.

(** ** Example *)

#[local] Existing Instance toy_crypto.
#[local] Existing Instance toy_crypto_spec.

Definition shared_doc : bytes := to_snapshot (set_field "title" (VString "old") (document_new 1 "todos" "r1" 0)).2.
Definition ring_of_last_run : SharedMemory := (write_entry 7 "m1" shared_doc (shm_create [] (N.to_nat 9216))).2.
Definition entries_of (l : SharedMemory) : list RingBufferEntry :=
  match (read_uncommitted l).1 with Ok es => es | Err _ => [] end.
Definition ring_entries : list RingBufferEntry := entries_of ring_of_last_run.

(** The store holds a newer state of the record; the ring's comes back. *)
Definition crashed : CrashRecovery InMemoryStorage.t :=
  Crash (InMemoryStorage.with_documents <[("todos", "r1") := to_snapshot (document_new 2 "todos" "r1" 3)]>
    InMemoryStorage.new) toy_ring (Some ring_of_last_run).

Lemma recovery_replays_ring_witness :
  ∃ c' n, recover "ns" 100000 (λ _, replicate 12 3%N) (λ _, 9%N) crashed = (Ok n, c') ∧
    a_docs (st_view (cr_storage c')) !! ("todos", "r1") = Some shared_doc.
Proof.
  destruct (recovery_replays_ring crashed "ns" 100000 (λ _, replicate 12 3%N) (λ _, 9%N) ring_of_last_run ring_entries)
    as (c' & entries & Hrun & Hentries & _ & Hview).
  - split_and!; [split; reflexivity|reflexivity|vm_compute; discriminate].
  - reflexivity.
  - vm_compute. reflexivity.
  - reflexivity.
  - apply (bool_decide_unpack _). vm_compute. exact I.
  - eexists c', _. split; [exact Hrun|]. rewrite Hview, Hentries. vm_compute. reflexivity.
Defined.
