(* ===== verification/Materialization.v ===== *)
(** * Materialization of pending intents

    [materialization/]: before the download worker starts, the entries not yet
    uploaded are replayed over the stored documents.  Client ids of loaded
    documents and the elapsed time are arguments. *)
From stdpp Require Import pretty.
From S2P Require Import Prelude F64 Types Storage CrdtValue Document OpSet.

(** ** Planner *)

Record ExecutionPlan := Plan {
  ep_replay_remote : N;
  ep_pending_intents : list OplogEntry;
}.
Definition plan_is_empty (p : ExecutionPlan) : bool :=
  match ep_pending_intents p with [] => true | _ => false end.
Definition plan_pending_count (p : ExecutionPlan) : nat := length (ep_pending_intents p).

(** [created_at], then [doc_id], then [record_id]. *)
Definition plan_le (a b : OplogEntry) : Prop :=
  match N.compare (oe_created_at a) (oe_created_at b) with
  | Lt => True
  | Gt => False
  | Eq => match String.compare (oe_doc_id a) (oe_doc_id b) with
          | Lt => True
          | Gt => False
          | Eq => String.compare (oe_record_id a) (oe_record_id b) ≠ Gt
          end
  end.
#[export] Instance plan_le_dec : RelDecision plan_le.
Proof. intros a b. unfold plan_le. repeat case_match; apply _. Defined.

Definition plan_build (entries : list OplogEntry) (cursor : N) : ExecutionPlan :=
  Plan cursor (stable_sort plan_le entries).

(** ** Summary and failures *)

Record MaterializeSummary := Summary {
  ms_baseline_docs : N;
  ms_remote_updates_applied : N;
  ms_pending_intents_restored : N;
  ms_semantic_replays : N;
  ms_conflicts_detected : N;
  ms_elapsed_ms : N;
}.
Definition summary_is_empty (s : MaterializeSummary) : bool :=
  (ms_pending_intents_restored s =? 0)%N && (ms_semantic_replays s =? 0)%N.

Inductive VerificationFailure :=
  | VisibilityViolation (doc_id record_id detail : string)
  | OplogCorruption (detail : string)
  | NonDeterministicState (expected_hash actual_hash : string)
  | DuplicateRecord (doc_id record_id : string)
  | PendingMismatch (expected actual : nat)
  | IndexMismatch (detail : string).

(** The text of a number. *)
Definition dec (n : nat) : string := pretty (N.of_nat n).

Definition failure_display (f : VerificationFailure) : string :=
  match f with
  | VisibilityViolation d r detail => "visibility violation: doc=" +:+ d +:+ " record=" +:+ r +:+ ": " +:+ detail
  | OplogCorruption detail => "oplog corruption: " +:+ detail
  | NonDeterministicState e a => "non-deterministic state: expected=" +:+ e +:+ " actual=" +:+ a
  | DuplicateRecord d r => "duplicate record: doc=" +:+ d +:+ " record=" +:+ r
  | PendingMismatch e a => "pending count mismatch: expected=" +:+ dec e +:+ " actual=" +:+ dec a
  | IndexMismatch detail => "index mismatch: " +:+ detail
  end.

Section materialization.
Context {S : Type} {HS : Storage S} {Y : Yrs}.
(** [{}] of an error *)
Context (error_display : VaultSyncError → string).

Abbreviation M := (SM S VaultSyncError).

Definition collect (ns : string) : M (list OplogEntry) := read_pending_oplog ns (N.to_nat 50000).

(** ** [MutationEngine] *)

Definition lift_err {A} (r : result A VaultSyncError) : M A :=
  match r with Ok a => mret a | Err e => sm_fail e end.

Definition engine_apply_delete (cid : N) (doc_id record_id : string) : M bytes :=
  existing ← get_document doc_id record_id;
  match existing with
  | None => mret []
  | Some bs =>
      doc ← lift_err (from_snapshot cid bs);
      let snapshot := to_snapshot (set_field "_deleted" (VBoolean true) doc).2 in
      insert_document doc_id record_id snapshot;;
      mret snapshot
  end.

Definition engine_apply_update (cid : N) (doc_id record_id : string) (yrs_update : bytes) : M bytes :=
  existing ← get_document doc_id record_id;
  match existing with
  | None => sm_fail (EStorage ("cannot apply update to nonexistent doc " +:+ doc_id +:+ " record " +:+ record_id))
  | Some bs =>
      doc ← lift_err (from_snapshot cid bs);
      doc ← lift_err (apply_update yrs_update doc);
      insert_document doc_id record_id (to_snapshot doc);;
      mret (to_snapshot doc)
  end.

Definition engine_apply_insert (cid : N) (doc_id record_id : string) (yrs_update : bytes) (schema_version : N) :
    M bytes :=
  existing ← get_document doc_id record_id;
  doc ← match existing with
        | Some bs => lift_err (from_snapshot cid bs)
        | None => mret (document_new cid doc_id record_id schema_version)
        end;
  doc ← lift_err (apply_update yrs_update doc);
  insert_document doc_id record_id (to_snapshot doc);;
  mret (to_snapshot doc).

Definition execute (cid : N) (entry : OplogEntry) : M bytes :=
  match oe_mutation_type entry with
  | CrdtDelete => engine_apply_delete cid (oe_doc_id entry) (oe_record_id entry)
  | CrdtUpdate => engine_apply_update cid (oe_doc_id entry) (oe_record_id entry) (oe_yrs_update entry)
  | CrdtInsert => engine_apply_insert cid (oe_doc_id entry) (oe_record_id entry) (oe_yrs_update entry)
                    (oe_schema_version entry)
  | CrdtBatch => sm_fail (EStorage "batch mutations are not individually replayable")
  end.

(** ** [DefaultVerifier] *)

Definition verify (ns : string) (_plan : ExecutionPlan) : SM S VerificationFailure unit :=
  sm_map_err (λ e, OplogCorruption ("failed to read pending oplog: " +:+ error_display e))
    (read_pending_oplog ns 10);;
  mret tt.

(** ** [ViewMaterializer] *)

(** The replays and the conflicts. *)
Fixpoint execute_all (ps : list (N * OplogEntry)) : M (N * N) :=
  match ps with
  | [] => mret (0%N, 0%N)
  | (cid, entry) :: ps' =>
      r ← sm_try (execute cid entry);
      '(replays, conflicts) ← execute_all ps';
      mret (match r with Ok _ => ((replays + 1)%N, conflicts) | Err _ => (replays, (conflicts + 1)%N) end)
  end.

Definition materialize (ns : string) (cursor : N) (cids : nat → N) (elapsed_ms : N) : M MaterializeSummary :=
  entries ← collect ns;
  match entries with
  | [] => mret (Summary 0 0 0 0 0 elapsed_ms)
  | _ =>
      let plan := plan_build entries cursor in
      '(replays, conflicts) ← execute_all (imap (λ i e, (cids i, e)) (ep_pending_intents plan));
      sm_map_err (λ failure, EStorage ("materialization verification failed: " +:+ failure_display failure))
        (verify ns plan);;
      mret (Summary cursor cursor (N.of_nat (length entries)) replays conflicts elapsed_ms)
  end.
End materialization.

(** ** What materialization promises *)

Section replay.
Context {Y : Yrs}.

(** One intent on the documents; [None] is a conflict. *)
Definition replay (docs : gmap doc_key bytes) (cid : N) (e : OplogEntry) : option (gmap doc_key bytes) :=
  let key := (oe_doc_id e, oe_record_id e) in
  let merge doc := match apply_update (oe_yrs_update e) doc with
                   | Ok doc' => Some (<[key := to_snapshot doc']> docs)
                   | Err _ => None
                   end in
  match oe_mutation_type e, docs !! key with
  | CrdtDelete, None => Some docs
  | CrdtUpdate, None | CrdtBatch, _ => None
  | CrdtInsert, None => merge (document_new cid (oe_doc_id e) (oe_record_id e) (oe_schema_version e))
  | ty, Some bs =>
      match from_snapshot cid bs with
      | Err _ => None
      | Ok doc => match ty with
                  | CrdtDelete => Some (<[key := to_snapshot (set_field "_deleted" (VBoolean true) doc).2]> docs)
                  | _ => merge doc
                  end
      end
  end.

(** All intents in order, with the numbers of replays and conflicts. *)
Fixpoint replay_all (docs : gmap doc_key bytes) (ps : list (N * OplogEntry)) : gmap doc_key bytes * N * N :=
  match ps with
  | [] => (docs, 0%N, 0%N)
  | (cid, e) :: ps' =>
      let o := replay docs cid e in
      let '(docs', replays, conflicts) := replay_all (default docs o) ps' in
      match o with
      | Some _ => (docs', (replays + 1)%N, conflicts)
      | None => (docs', replays, (conflicts + 1)%N)
      end
  end.
End replay.

Section theory.
Context {S : Type} {HS : Storage S} {HSpec : StorageSpec S} {Y : Yrs}.
Context (error_display : VaultSyncError → string).
Implicit Types s : S.

Lemma read_doc_ok d k s : st_healthy s → ∃ s', get_document d k s = (Ok (a_docs (st_view s) !! (d, k)), s') ∧
  st_view s' = st_view s ∧ st_healthy s'.
Proof. apply (get_document_ok d k s). Qed.
Lemma put_ok d k b s : st_healthy s → ∃ s', insert_document d k b s = (Ok tt, s') ∧
  st_view s' = a_insert d k b (st_view s) ∧ st_healthy s'.
Proof. apply (insert_document_ok d k b s). Qed.

(** The end of a replay: the document is written. *)
Lemma write_back_ok d k (doc : CRDTDocument) s : st_healthy s →
  ∃ s', (insert_document d k (to_snapshot doc);; mret (to_snapshot doc)) s = (Ok (to_snapshot doc), s') ∧
    st_view s' = a_insert d k (to_snapshot doc) (st_view s) ∧ st_healthy s'.
Proof.
  intros Hh. destruct (put_ok d k (to_snapshot doc) s Hh) as (s' & Hrun & Hv & Hh').
  exists s'. by erewrite sm_bind_ok by exact Hrun.
Qed.

Lemma merge_ok d k upd (doc : CRDTDocument) s docs log : st_healthy s → st_view s = AStore docs log →
  let o := match apply_update upd doc with
           | Ok doc' => Some (<[(d, k) := to_snapshot doc']> docs)
           | Err _ => None
           end in
  ∃ r s', (doc ← lift_err (apply_update upd doc); insert_document d k (to_snapshot doc);; mret (to_snapshot doc)) s = (r, s') ∧
    st_healthy s' ∧ st_view s' = AStore (default docs o) log ∧ match r with Ok _ => is_Some o | Err _ => o = None end.
Proof.
  intros Hh Hview. destruct (apply_update upd doc) as [doc'|e]; [|by exists (Err e), s].
  destruct (write_back_ok d k doc' s Hh) as (s' & Hrun & Hv & Hh'). exists (Ok (to_snapshot doc')), s'.
  split_and!; [exact Hrun|done|by rewrite Hv, Hview|by eexists].
Qed.

Lemma execute_ok cid e s docs log : st_healthy s → st_view s = AStore docs log →
  let o := replay docs cid e in
  ∃ r s', execute cid e s = (r, s') ∧ st_healthy s' ∧
    st_view s' = AStore (default docs o) log ∧ match r with Ok _ => is_Some o | Err _ => o = None end.
Proof.
  intros Hh Hview. unfold execute, replay.
  destruct (read_doc_ok (oe_doc_id e) (oe_record_id e) s Hh) as (s1 & Hget & Hv1 & Hh1).
  rewrite Hview in Hget, Hv1. cbn [a_docs] in Hget.
  destruct (oe_mutation_type e); [| | |by eexists _, s].
  - unfold engine_apply_update. erewrite sm_bind_ok by exact Hget.
    destruct (docs !! (oe_doc_id e, oe_record_id e)) as [bs|]; [|by eexists _, s1].
    destruct (from_snapshot cid bs) as [doc|err]; [|by eexists _, s1]. by apply merge_ok.
  - unfold engine_apply_insert. erewrite sm_bind_ok by exact Hget.
    destruct (docs !! (oe_doc_id e, oe_record_id e)) as [bs|]; [|by apply merge_ok].
    destruct (from_snapshot cid bs) as [doc|err]; [|by eexists _, s1]. by apply merge_ok.
  - unfold engine_apply_delete. erewrite sm_bind_ok by exact Hget.
    destruct (docs !! (oe_doc_id e, oe_record_id e)) as [bs|]; [|by eexists _, s1; eauto].
    destruct (from_snapshot cid bs) as [doc|err]; [|by eexists _, s1].
    destruct (write_back_ok (oe_doc_id e) (oe_record_id e) (set_field "_deleted" (VBoolean true) doc).2 s1 Hh1)
      as (s' & Hrun & Hv & Hh').
    eexists _, s'. split; [exact Hrun|]. rewrite Hv, Hv1. by eauto.
Qed.

Lemma execute_all_ok ps s docs log : st_healthy s → st_view s = AStore docs log →
  let '(docs', replays, conflicts) := replay_all docs ps in
  ∃ s', execute_all ps s = (Ok (replays, conflicts), s') ∧ st_healthy s' ∧ st_view s' = AStore docs' log.
Proof.
  revert s docs. induction ps as [|[cid e] ps IH]; intros s docs Hh Hview; simpl; [by exists s|].
  destruct (execute_ok cid e s docs log Hh Hview) as (r & s1 & Hrun & Hh1 & Hv1 & Hr).
  specialize (IH s1 _ Hh1 Hv1). destruct (replay_all _ ps) as [[docs' replays] conflicts].
  destruct IH as (s' & Hrun' & Hh' & Hv').
  assert (Htry : sm_try (execute cid e) s = ((Ok r : result (result bytes VaultSyncError) VaultSyncError), s1)) by (unfold sm_try; by rewrite Hrun).
  destruct r; [destruct Hr as [docs1 Hr]|]; rewrite Hr; simpl; exists s';
    erewrite sm_bind_ok by exact Htry; by erewrite sm_bind_ok by exact Hrun'.
Qed.

Lemma replay_all_count docs ps :
  let '(_, replays, conflicts) := replay_all docs ps in (replays + conflicts)%N = N.of_nat (length ps).
Proof.
  revert docs. induction ps as [|[cid e] ps IH]; intros docs; simpl; [done|].
  specialize (IH (default docs (replay docs cid e))). destruct (replay_all _ ps) as [[docs' r] c].
  destruct (replay docs cid e); lia.
Qed.

(** C21: Materialization never fails on a healthy store, replays every pending
    entry of the namespace (the first 50000) in the order of creation time,
    document and record, each on the document the one before left, and counts
    the replays and the conflicts; it changes no log entry, so every pending
    write is still uploaded afterwards. *)
Theorem materialize_replays ns cursor cids elapsed s : st_healthy s →
  let a := st_view s in
  let pending := take (N.to_nat 50000) (pending_of ns (a_log a)) in
  let '(docs', replays, conflicts) :=
    replay_all (a_docs a) (imap (λ i e, (cids i, e)) (stable_sort plan_le pending)) in
  ∃ s' summary, materialize error_display ns cursor cids elapsed s = (Ok summary, s') ∧
    st_view s' = AStore docs' (a_log a) ∧ st_healthy s' ∧
    ms_pending_intents_restored summary = N.of_nat (length pending) ∧
    ms_semantic_replays summary = replays ∧ ms_conflicts_detected summary = conflicts ∧
    (replays + conflicts)%N = N.of_nat (length pending).
Proof.
  intros Hh a pending. destruct a as [docs log] eqn:Ha. subst a.
  pose proof (read_pending_ok ns (N.to_nat 50000) s) as [Hread _]. destruct (Hread Hh) as (s1 & Hcol & Hv1 & Hh1).
  rewrite Ha in Hcol, Hv1. cbn [a_log id] in Hcol, Hv1. change (take (N.to_nat 50000) (pending_of ns log)) with pending in Hcol. clearbody pending.
  set (ps := imap _ _). pose proof (execute_all_ok ps s1 docs log Hh1 Hv1) as Hall.
  pose proof (replay_all_count docs ps) as Hcount. cbn [a_docs].
  destruct (replay_all docs ps) as [[docs' replays] conflicts] eqn:Hrep.
  assert (Hlen : length ps = length pending).
  { unfold ps. rewrite length_imap. apply Permutation_length, stable_sort_Permutation. }
  rewrite Hlen in Hcount. destruct Hall as (s2 & Hrun & Hh2 & Hv2).
  unfold materialize, collect. erewrite sm_bind_ok by exact Hcol.
  destruct pending as [|e0 rest].
  { apply nil_length_inv in Hlen. rewrite Hlen in Hrep. simpl in Hrep. simplify_eq. exists s1, (Summary 0 0 0 0 0 elapsed). done. }
  pose proof (read_pending_ok ns 10 s2) as [Hread2 _]. destruct (Hread2 Hh2) as (s3 & Hver & Hv3 & Hh3).
  eexists s3, (Summary cursor cursor (N.of_nat (length (e0 :: rest))) replays conflicts elapsed). split_and!; try done.
  - erewrite sm_bind_ok by exact Hrun. cbv beta iota.
    assert (Hok : verify error_display ns (plan_build (e0 :: rest) cursor) s2 = (Ok tt, s3)).
    { unfold verify, mbind, sm_bind, sm_map_err. by rewrite Hver. }
    erewrite sm_bind_ok by (unfold sm_map_err; rewrite Hok; reflexivity). reflexivity.
  - by rewrite Hv3, Hv2.
Qed.

(** An intent on another record leaves this one alone. *)
Lemma replay_other docs cid e docs' key : replay docs cid e = Some docs' → (oe_doc_id e, oe_record_id e) ≠ key →
  docs' !! key = docs !! key.
Proof.
  intros Hr Hne. unfold replay in Hr.
  repeat case_match; simplify_eq; rewrite ?lookup_insert_ne by done; done.
Qed.

Lemma replay_all_app docs ps qs : (replay_all docs (ps ++ qs)).1.1 = (replay_all (replay_all docs ps).1.1 qs).1.1.
Proof.
  revert docs. induction ps as [|[cid e] ps IH]; intros docs; [done|]. simpl. specialize (IH (default docs (replay docs cid e))).
  destruct (replay_all _ (ps ++ qs)) as [[d1 r1] c1], (replay_all _ ps) as [[d2 r2] c2]. simpl in *.
  by destruct (replay docs cid e).
Qed.

Lemma replay_all_other docs ps key : Forall (λ p : N * OplogEntry, (oe_doc_id p.2, oe_record_id p.2) ≠ key) ps →
  (replay_all docs ps).1.1 !! key = docs !! key.
Proof.
  revert docs. induction ps as [|[cid e] ps IH]; intros docs Hps; [done|]. apply Forall_cons in Hps as [He Hps]. simpl in *.
  specialize (IH (default docs (replay docs cid e)) Hps). destruct (replay_all _ ps) as [[d r] c]. simpl in IH.
  destruct (replay docs cid e) as [d1|] eqn:Hr; simpl in *; rewrite IH; [|done]. by eapply replay_other.
Qed.
End theory.

(** A pending deletion wins over everything replayed before it: where the
    last intent of a record is a deletion and the record can be loaded at that
    point, the record stored after materialization loads to one whose [_deleted]
    field is true, whatever confirmed remote state the record had. *)
Theorem pending_delete_stays_hidden {Y : Yrs} {HY : YrsSpec Y} docs ps qs cid e bs doc cid' :
  let key := (oe_doc_id e, oe_record_id e) in
  oe_mutation_type e = CrdtDelete →
  Forall (λ p : N * OplogEntry, (oe_doc_id p.2, oe_record_id p.2) ≠ key) qs →
  (replay_all docs ps).1.1 !! key = Some bs → from_snapshot cid bs = Ok doc →
  (N.of_nat (length (to_snapshot (set_field "_deleted" (VBoolean true) doc).2)) ≤ MAX_SNAPSHOT_SIZE)%N →
  ∃ bs' doc', (replay_all docs (ps ++ (cid, e) :: qs)).1.1 !! key = Some bs' ∧
    from_snapshot cid' bs' = Ok doc' ∧ get_field "_deleted" doc' = Some (VBoolean true).
Proof.
  intros key Hty Hqs Hbs Hdoc Hfit. set (doc1 := (set_field "_deleted" (VBoolean true) doc).2) in *.
  destruct (y_encode_state_ok (cd_inner doc1)) as (u & Hu & Happ).
  exists (to_snapshot doc1), (Doc (root_string "doc_id" (y_apply u (y_new cid'))) (root_string "record_id" (y_apply u (y_new cid')))
    (root_schema_version (y_apply u (y_new cid'))) (y_apply u (y_new cid'))).
  split_and!.
  - rewrite replay_all_app. set (d1 := (replay_all docs ps).1.1) in *. cbn [replay_all].
    assert (Hr : replay d1 cid e = Some (<[key := to_snapshot doc1]> d1)).
    { unfold replay. fold key. by rewrite Hty, Hbs, Hdoc. }
    rewrite Hr. cbn [default from_option Datatypes.id]. pose proof (replay_all_other (<[key := to_snapshot doc1]> d1) qs key Hqs) as Ho.
    destruct (replay_all _ qs) as [[d2 r] c]. simpl in *. by rewrite Ho, lookup_insert_eq.
  - unfold from_snapshot. rewrite (proj2 (N.ltb_ge _ _)) by done. unfold to_snapshot. by rewrite Hu.
  - unfold get_field. simpl. rewrite (Happ cid'). unfold doc1, set_field. simpl. by rewrite y_insert_root, lookup_insert_eq.
Qed.

(** ** Examples *)

Definition stored_record : CRDTDocument := (set_field "title" (VString "x") (document_new 1 "todos" "r1" 1)).2.
Definition intent (ent : string) (ty : MutationType) (at_ : N) (update : bytes) : OplogEntry :=
  OplogEntry_new ent "me" "ns" ty "todos" "r1" update None at_ None Optimistic None at_ 0 OUnknown "".
Definition the_update : OplogEntry := intent "a" CrdtUpdate 2 (set_field "title" (VString "y") stored_record).1.
Definition the_delete : OplogEntry := intent "b" CrdtDelete 3 [].
Definition storage_with_intents : InMemoryStorage.t :=
  InMemoryStorage.with_oplog (λ _, [the_delete; the_update])
    (InMemoryStorage.with_documents <[("todos", "r1") := to_snapshot stored_record]> InMemoryStorage.new).

Lemma materialize_replays_witness :
  ∃ s' summary, materialize (λ _, "error") "ns" 4 (λ _, 9%N) 0 storage_with_intents = (Ok summary, s') ∧
    ms_pending_intents_restored summary = 2%N.
Proof.
  pose proof (materialize_replays (λ _, "error") "ns" 4 (λ _, 9%N) 0 storage_with_intents (conj eq_refl eq_refl)) as Hm.
  cbv zeta in Hm. destruct (replay_all _ _) as [[docs' replays] conflicts].
  destruct Hm as (s' & summary & Hrun & _ & _ & Hcount & _).
  exists s', summary. split; [exact Hrun|]. rewrite Hcount. vm_compute. reflexivity.
Defined.

Definition docs_with_record : gmap doc_key bytes := {[("todos", "r1") := to_snapshot stored_record]}.
Definition loaded_record : CRDTDocument :=
  match from_snapshot 9 (to_snapshot stored_record) with Ok doc => doc | Err _ => stored_record end.

Definition loads (bs : bytes) : bool := match from_snapshot 9 bs with Ok _ => true | Err _ => false end.
Lemma loaded_record_ok : from_snapshot 9 (to_snapshot stored_record) = Ok loaded_record.
Proof.
  assert (Hl : loads (to_snapshot stored_record) = true) by (vm_compute; reflexivity).
  unfold loads in Hl. unfold loaded_record. destruct (from_snapshot 9 (to_snapshot stored_record)); [reflexivity|discriminate].
Qed.

Lemma pending_delete_stays_hidden_witness :
  ∃ bs' doc', (replay_all docs_with_record [(9%N, the_delete)]).1.1 !! ("todos", "r1") = Some bs' ∧
    from_snapshot 5 bs' = Ok doc' ∧ get_field "_deleted" doc' = Some (VBoolean true).
Proof.
  apply (pending_delete_stays_hidden docs_with_record [] [] 9 the_delete (to_snapshot stored_record) loaded_record 5).
  - reflexivity.
  - constructor.
  - vm_compute. reflexivity.
  - exact loaded_record_ok.
  - apply N.leb_le. vm_compute. reflexivity.
Defined.
