(* ===== verification/Reconciler.v ===== *)
(** * The reconciler

    [sync/reconciler.rs]: merges remote updates into the stored documents,
    remembers the ids it has merged, and notifies the subscriptions. *)
From S2P Require Import Prelude F64 Types Storage CrdtValue Document SubscriptionEngine.

Definition DEDUP_CACHE_SIZE : nat := N.to_nat 10000.

Section reconciler.
Context {S : Type} {HS : Storage S} {Y : Yrs}.

(** The reconciler with the storage and the subscriptions it shares, and the
    notifications sent so far. *)
Record Reconciler := Rec {
  rc_storage : S;
  rc_subscriptions : rwlock SubscriptionEngine;
  rc_seen_ids : rwlock (gset string * list string);
  rc_fire_suppressed : bool;
  rc_notified : list notification;
}.

Abbreviation M := (SM Reconciler (fault VaultSyncError)).

Definition reconciler_new (s : S) (subs : rwlock SubscriptionEngine) : Reconciler :=
  Rec s subs (rw_new (∅, [])) false [].

Definition rec_storage {A} (m : SM S VaultSyncError A) : M A :=
  zoom rc_storage (λ s r, Rec s (rc_subscriptions r) (rc_seen_ids r) (rc_fire_suppressed r) (rc_notified r))
    (may_fault m).

Definition set_fire_suppressed (b : bool) (r : Reconciler) : Reconciler :=
  Rec (rc_storage r) (rc_subscriptions r) (rc_seen_ids r) b (rc_notified r).

Definition lift_result {A} (x : result A VaultSyncError) : M A :=
  match x with Ok a => mret a | Err e => sm_fail (Fail e) end.

(** [self.subscriptions.lock().unwrap().fire(..)]. *)
Definition rec_fire (source : FireSource) (doc_id record_id : string) (state : gmap string CrdtValue) : M unit :=
  rw_lock Panicked rc_subscriptions;;
  sm_modify (λ r,
    let '(ns, e) := fire source doc_id record_id state (rw_val (rc_subscriptions r)) in
    Rec (rc_storage r) (rw_set e (rc_subscriptions r)) (rc_seen_ids r) (rc_fire_suppressed r)
      (rc_notified r ++ ns)).

(** The document stored, or a new one of schema version 0. *)
Definition load_or_new (cid : N) (key : doc_key) (existing : option bytes) : M CRDTDocument :=
  match existing with
  | Some bs => lift_result (from_snapshot cid bs)
  | None => mret (document_new cid key.1 key.2 0)
  end.

Definition fire_doc (cid : N) (doc_id record_id : string) : M unit :=
  snapshot ← rec_storage (get_document doc_id record_id);
  match snapshot with
  | None => mret tt
  | Some bs =>
      doc ← lift_result (from_snapshot cid bs);
      rec_fire ReconcilerPull doc_id record_id (to_map doc)
  end.

Definition is_deduped (ent : string) : M bool :=
  seen ← rw_lock Panicked rc_seen_ids;
  mret (bool_decide (ent ∈ seen.1)).

(** The set and the queue of the ids seen. *)
Definition cache_mark (ent : string) (c : gset string * list string) : gset string * list string :=
  let ids := {[ent]} ∪ c.1 in
  let queue := c.2 ++ [ent] in
  if DEDUP_CACHE_SIZE <? length queue then
    match queue with
    | oldest :: queue' => (ids ∖ {[oldest]}, queue')
    | [] => (ids, queue)
    end
  else (ids, queue).

Definition mark_dedup (ent : string) : M unit :=
  rw_lock Panicked rc_seen_ids;;
  sm_modify (λ r, Rec (rc_storage r) (rc_subscriptions r) (rw_update (cache_mark ent) (rc_seen_ids r))
    (rc_fire_suppressed r) (rc_notified r)).

(** Every insertion of the update is already in the document. *)
Definition update_redundant (update : bytes) (doc : CRDTDocument) : bool :=
  match y_decode update with
  | Ok u => sv_covered (y_update_vector u) (y_state_vector (cd_inner doc))
  | Err _ => false
  end.

(** [old.as_slice() != snapshot.as_slice()], or no old snapshot. *)
Definition snapshot_changed (old : option bytes) (snapshot : bytes) : bool :=
  match old with
  | Some old => negb (bool_decide (old = snapshot))
  | None => true
  end.

(** The notification of a changed document, unless suppressed. *)
Definition fire_if (changed : bool) (entry : OplogEntry) (doc : CRDTDocument) : M unit :=
  if changed then
    suppressed ← sm_gets rc_fire_suppressed;
    if (suppressed : bool) then mret tt
    else rec_fire ReconcilerPush (oe_doc_id entry) (oe_record_id entry) (to_map doc)
  else mret tt.

(** The body the two single-update entry points share. *)
Definition reconcile_one (cid : N) (entry : OplogEntry) (update : bytes) : M unit :=
  seen ← is_deduped (oe_id entry);
  if (seen : bool) then mret tt
  else
    existing ← rec_storage (get_document (oe_doc_id entry) (oe_record_id entry));
    doc ← load_or_new cid (entry_key entry) existing;
    doc ← (if update_redundant update doc then mret doc else lift_result (apply_update update doc));
    let snapshot := to_snapshot doc in
    rec_storage (insert_document (oe_doc_id entry) (oe_record_id entry) snapshot);;
    mark_dedup (oe_id entry);;
    fire_if (snapshot_changed existing snapshot) entry doc.

Definition apply_remote_update (cid : N) (entry : OplogEntry) : M unit :=
  reconcile_one cid entry (oe_yrs_update entry).

Definition apply_encrypted_update (cid : N) (entry : OplogEntry) (plaintext_update : bytes) : M unit :=
  reconcile_one cid entry plaintext_update.

(** ** [apply_batch] *)

(** The entries not seen yet, grouped by document. *)
Definition group_entries (seen : gset string) (entries : list OplogEntry) : gmap doc_key (list OplogEntry) :=
  foldl (λ m e, if bool_decide (oe_id e ∈ seen) then m
                else <[entry_key e := default [] (m !! entry_key e) ++ [e]]> m) ∅ entries.

Definition uncommitted_ids (seen : gset string) (entries : list OplogEntry) : list string :=
  oe_id <$> filterb (λ e, negb (bool_decide (oe_id e ∈ seen))) entries.

Fixpoint apply_updates (updates : list bytes) (doc : CRDTDocument) : result CRDTDocument VaultSyncError :=
  match updates with
  | [] => Ok doc
  | u :: us => match apply_update u doc with
               | Ok doc => apply_updates us doc
               | Err e => Err e
               end
  end.

(** One document of the batch: its key, its new snapshot, and its state when
    the snapshot changed. *)
Definition reconcile_doc (cid : N) (key : doc_key) (doc_entries : list OplogEntry) :
    M (string * string * bytes * option (gmap string CrdtValue)) :=
  existing ← rec_storage (get_document key.1 key.2);
  doc ← load_or_new cid key existing;
  doc ← lift_result (apply_updates (oe_yrs_update <$> doc_entries) doc);
  let snapshot := to_snapshot doc in
  mret (key.1, key.2, snapshot,
        if snapshot_changed existing snapshot then Some (to_map doc) else None).

(** A batch with entries. *)
Definition apply_batch_seen (cids : nat → N) (entries : list OplogEntry) : M unit :=
  seen ← rw_lock Panicked rc_seen_ids;
  let unique_docs := group_entries seen.1 entries in
  if bool_decide (unique_docs = ∅) then mret tt
  else
    res ← map_each (λ '(i, (key, es)), reconcile_doc (cids i) key es) (imap pair (map_to_list unique_docs));
    rec_storage (write_batch_reconciliation (map (λ '(d, r, b, _), (d, r, b)) res));;
    for_each mark_dedup (uncommitted_ids seen.1 entries);;
    suppressed ← sm_gets rc_fire_suppressed;
    if (suppressed : bool) then mret tt
    else
      rw_lock Panicked rc_subscriptions;;
      for_each (λ '(d, r, _, st), match st with
                                  | Some state => rec_fire ReconcilerPull d r state
                                  | None => mret tt
                                  end) res.

Definition apply_batch (cids : nat → N) (entries : list OplogEntry) : M unit :=
  match entries with [] => mret tt | _ => apply_batch_seen cids entries end.
End reconciler.
Arguments Reconciler : clear implicits.
