(* ===== verification/ReconcilerTheory.v ===== *)
(** * What the reconciler promises

    Both paths a remote mutation takes, one by one as it is pushed and in
    batches as it is pulled, merge it into the stored document; each mutation
    is merged once while its id is remembered.  The paths differ on updates
    that only delete. *)
From S2P Require Import Prelude F64 Types Storage CrdtValue Document SubscriptionEngine Reconciler OpSet.

Section theory.
Context {S : Type} {HS : Storage S} {HSpec : StorageSpec S} {Y : Yrs} {YS : YrsSpec Y}.
Implicit Types r : Reconciler S.

Definition rec_view r : astore := st_view (rc_storage r).
Definition rec_docs r : gmap doc_key bytes := a_docs (rec_view r).
Definition rec_seen r : gset string := (rw_val (rc_seen_ids r)).1.

Definition rec_healthy r : Prop :=
  st_healthy (rc_storage r) ∧ rw_poisoned (rc_subscriptions r) = false ∧ rw_poisoned (rc_seen_ids r) = false.

Definition fits (bs : bytes) : Prop := (N.of_nat (length bs) ≤ MAX_SNAPSHOT_SIZE)%N.

(** The store holds the document [d] under [key], in some encoding. *)
Definition holds r (key : doc_key) (d : ydoc) : Prop :=
  ∃ d', rec_docs r !! key = Some (y_encode_state d') ∧ d' ≡ d.

(** The same but for the storage, which shows the view [a]. *)
Definition rec_same r r' (a : astore) : Prop :=
  rec_healthy r' ∧ rec_view r' = a ∧ rc_subscriptions r' = rc_subscriptions r ∧
  rc_seen_ids r' = rc_seen_ids r ∧ rc_fire_suppressed r' = rc_fire_suppressed r ∧
  rc_notified r' = rc_notified r.

Lemma rec_storage_ok {A} (m : SM S VaultSyncError A) res f r :
  refines_op st_view st_healthy m res f → rec_healthy r →
  ∃ r', rec_storage m r = (Ok (res (rec_view r)), r') ∧ rec_same r r' (f (rec_view r)).
Proof.
  intros Hm (Hs & Hsub & Hseen). destruct (Hm (rc_storage r)) as [Hok _].
  destruct (Hok Hs) as (s' & Hrun & Hview & Hs'). eexists. split.
  - unfold rec_storage, zoom, may_fault, sm_map_err. rewrite Hrun. reflexivity.
  - by split_and!.
Qed.

Lemma load_or_new_ok cid key d0 r : fits (y_encode_state d0) →
  ∃ doc, load_or_new cid key (Some (y_encode_state d0)) r = (Ok doc, r) ∧ cd_inner doc ≡ d0.
Proof.
  intros Hfit. destruct (from_snapshot_encode cid d0 Hfit) as (d' & Hload & Hd).
  unfold load_or_new. rewrite Hload. by eexists.
Qed.

Lemma rec_fire_ok src d k st r : rec_healthy r →
  ∃ r', rec_fire src d k st r = (Ok tt, r') ∧ rec_healthy r' ∧ rc_storage r' = rc_storage r ∧
    rc_seen_ids r' = rc_seen_ids r ∧ rc_fire_suppressed r' = rc_fire_suppressed r ∧
    rc_notified r' = rc_notified r ++ (fire src d k st (rw_val (rc_subscriptions r))).1.
Proof.
  intros (Hs & Hsub & Hseen). unfold rec_fire, rw_lock. sm_unfold. rewrite Hsub.
  destruct (fire src d k st (rw_val (rc_subscriptions r))) as [ns e] eqn:Hf.
  eexists. split; [reflexivity|]. by split_and!.
Qed.

Lemma mark_dedup_ok ent r : rec_healthy r →
  ∃ r', mark_dedup ent r = (Ok tt, r') ∧ rec_healthy r' ∧ rc_storage r' = rc_storage r ∧
    rc_subscriptions r' = rc_subscriptions r ∧ rc_fire_suppressed r' = rc_fire_suppressed r ∧
    rc_notified r' = rc_notified r ∧ rw_val (rc_seen_ids r') = cache_mark ent (rw_val (rc_seen_ids r)).
Proof.
  intros (Hs & Hsub & Hseen). unfold mark_dedup, rw_lock. sm_unfold. rewrite Hseen.
  eexists. split; [reflexivity|]. by split_and!.
Qed.

(** The document the update leads to on the single-update path. *)
Definition pushed (u : yupdate) (d : ydoc) : ydoc :=
  if sv_covered (y_update_vector u) (y_state_vector d) then d else y_apply u d.

Lemma push_apply update u doc d0 r : y_decode update = Ok u → fits update → cd_inner doc ≡ d0 →
  ∃ doc', (if update_redundant update doc then mret doc else lift_result (apply_update update doc)) r
      = (Ok doc', r) ∧ cd_inner doc' ≡ pushed u d0.
Proof.
  intros Hu Hfit Hd. unfold update_redundant, pushed. rewrite Hu, (y_state_vector_proper _ _ Hd).
  destruct (sv_covered (y_update_vector u) (y_state_vector d0)); [by eexists|].
  rewrite (apply_update_ok update u doc Hu Hfit). eexists. split; [reflexivity|]. simpl. by rewrite Hd.
Qed.

Lemma is_deduped_ok ent r : rec_healthy r → is_deduped ent r = (Ok (bool_decide (ent ∈ rec_seen r)), r).
Proof. intros (_ & _ & Hp). unfold is_deduped, rw_lock. sm_unfold. by rewrite Hp. Qed.

(** The notifications a change calls for. *)
Definition fire_notices (changed : bool) (e : OplogEntry) (doc : CRDTDocument) r : list notification :=
  if changed && negb (rc_fire_suppressed r) then
    (fire ReconcilerPush (oe_doc_id e) (oe_record_id e) (to_map doc) (rw_val (rc_subscriptions r))).1
  else [].

Lemma fire_if_ok changed e doc r : rec_healthy r →
  ∃ r', fire_if changed e doc r = (Ok tt, r') ∧ rec_healthy r' ∧ rc_storage r' = rc_storage r ∧
    rc_seen_ids r' = rc_seen_ids r ∧ rc_notified r' = rc_notified r ++ fire_notices changed e doc r.
Proof.
  intros Hh. unfold fire_if, fire_notices. destruct changed; simpl.
  2: { exists r. by rewrite app_nil_r. }
  unfold sm_gets, mbind, sm_bind. destruct (rc_fire_suppressed r) eqn:Hs; simpl.
  { exists r. by rewrite app_nil_r. }
  destruct (rec_fire_ok ReconcilerPush (oe_doc_id e) (oe_record_id e) (to_map doc) r Hh)
    as (r4 & Hfire & Hh4 & Hst4 & Hseen4 & _ & Hnot4).
  by exists r4.
Qed.

(** What a single update leaves behind: the document merged, the id remembered,
    and the notifications of a changed document unless they are suppressed. *)
Lemma reconcile_one_ok cid e update u r d0 :
  rec_healthy r → oe_id e ∉ rec_seen r →
  rec_docs r !! entry_key e = Some (y_encode_state d0) → fits (y_encode_state d0) →
  y_decode update = Ok u → fits update →
  ∃ r' doc, reconcile_one cid e update r = (Ok tt, r') ∧ rec_healthy r' ∧
    cd_inner doc ≡ pushed u d0 ∧
    rec_view r' = a_insert (oe_doc_id e) (oe_record_id e) (to_snapshot doc) (rec_view r) ∧
    rw_val (rc_seen_ids r') = cache_mark (oe_id e) (rw_val (rc_seen_ids r)) ∧
    rc_notified r' = rc_notified r ++
      fire_notices (negb (bool_decide (y_encode_state d0 = to_snapshot doc))) e doc r.
Proof.
  intros Hh Hnew Hdoc Hfit Hu Hfitu. unfold reconcile_one.
  erewrite sm_bind_ok by (by apply is_deduped_ok). rewrite bool_decide_false by done.
  destruct (rec_storage_ok _ _ _ r (get_document_ok (oe_doc_id e) (oe_record_id e)) Hh)
    as (r1 & Hget & Hh1 & Hv1 & Hsub1 & Hseen1 & Hsup1 & Hnot1).
  erewrite sm_bind_ok by exact Hget. change (a_docs (rec_view r) !! _) with (rec_docs r !! entry_key e).
  rewrite Hdoc. destruct (load_or_new_ok cid (entry_key e) d0 r1 Hfit) as (doc & Hload & Hd).
  erewrite sm_bind_ok by exact Hload.
  destruct (push_apply update u doc d0 r1 Hu Hfitu Hd) as (doc' & Happ & Hd').
  erewrite sm_bind_ok by exact Happ. cbv zeta.
  destruct (rec_storage_ok _ _ _ r1 (insert_document_ok (oe_doc_id e) (oe_record_id e) (to_snapshot doc')) Hh1)
    as (r2 & Hins & Hh2 & Hv2 & Hsub2 & Hseen2 & Hsup2 & Hnot2).
  erewrite sm_bind_ok by exact Hins.
  destruct (mark_dedup_ok (oe_id e) r2 Hh2) as (r3 & Hmark & Hh3 & Hst3 & Hsub3 & Hsup3 & Hnot3 & Hseen3).
  erewrite sm_bind_ok by exact Hmark.
  destruct (fire_if_ok (snapshot_changed (Some (y_encode_state d0)) (to_snapshot doc')) e doc' r3 Hh3)
    as (r4 & Hfire & Hh4 & Hst4 & Hseen4 & Hnot4).
  exists r4, doc'. split; [exact Hfire|]. split_and!; [done|done| | |].
  - unfold rec_view in *. by rewrite Hst4, Hst3, Hv2, Hv1.
  - congruence.
  - unfold fire_notices in *. rewrite Hsup3, Hsup2, Hsup1, Hsub3, Hsub2, Hsub1 in Hnot4.
    rewrite Hnot4, Hnot3, Hnot2, Hnot1. reflexivity.
Qed.

(** ** Updates pushed one after the other *)

Lemma cache_mark_seen ent c x : x ∈ (cache_mark ent c).1 → x = ent ∨ x ∈ c.1.
Proof.
  unfold cache_mark. destruct (_ <? _); [|set_solver]. destruct (c.2 ++ [ent]) as [|y q]; simpl; set_solver.
Qed.

(** The update deletes nothing, or inserts something the document lacks. *)
Definition effective (u : yupdate) (d : ydoc) : Prop :=
  y_has_deletes u = false ∨ sv_covered (y_update_vector u) (y_state_vector d) = false.

Lemma pushed_effective u d : effective u d → pushed u d ≡ y_apply u d.
Proof.
  unfold pushed. intros [Hn|Hc]; [|by rewrite Hc].
  destruct (sv_covered _ _) eqn:Hc; [|done]. symmetry. by apply y_apply_known.
Qed.

Lemma pushed_proper u d d' : d ≡ d' → pushed u d ≡ pushed u d'.
Proof. intros Hd. unfold pushed. rewrite (y_state_vector_proper _ _ Hd). destruct (sv_covered _ _); [done|]. by rewrite Hd. Qed.

(** One entry and the client id drawn for the document loaded. *)
Definition push_each (l : list (N * OplogEntry)) : SM (Reconciler S) (fault VaultSyncError) unit :=
  for_each (λ '(cid, e), apply_remote_update cid e) l.

(** Every document on the way to the last one fits, and every update is
    effective when it arrives. *)
Definition pushable (d : ydoc) (us : list yupdate) : Prop :=
  (∀ i d', d' ≡ y_apply_all (take i us) d → fits (y_encode_state d')) ∧
  (∀ i u, us !! i = Some u → effective u (y_apply_all (take i us) d)).

(** The entry carries the update. *)
Definition carries (e : OplogEntry) (u : yupdate) : Prop :=
  y_decode (oe_yrs_update e) = Ok u ∧ fits (oe_yrs_update e).

Lemma push_each_ok key l us d r :
  rec_healthy r → holds r key d → pushable d us →
  Forall2 (λ p u, entry_key p.2 = key ∧ carries p.2 u) l us →
  NoDup (map (oe_id ∘ snd) l) → (∀ p, p ∈ l → oe_id p.2 ∉ rec_seen r) →
  ∃ r', push_each l r = (Ok tt, r') ∧ rec_healthy r' ∧ holds r' key (y_apply_all us d) ∧
    (∀ k, k ≠ key → rec_docs r' !! k = rec_docs r !! k).
Proof.
  intros Hh Hd Hfits Hl. revert r d Hh Hd Hfits.
  induction Hl as [|[cid e] u l us [Hkey [Hdec Hfu]] Hl IH]; intros r d Hh (d0 & Hdoc & Hd0) [Hfits Heff] Hnodup Hnew.
  { exists r. split_and!; try done. by exists d0. }
  simpl in *. apply NoDup_cons in Hnodup as [Hfresh Hnodup]. rewrite <-Hkey in Hdoc.
  destruct (reconcile_one_ok cid e _ u r d0 Hh (Hnew _ ltac:(left)) Hdoc (Hfits 0 d0 Hd0) Hdec Hfu)
    as (r1 & doc & Hrun & Hh1 & Hdoc1 & Hv1 & Hseen1 & _).
  destruct (IH r1 (y_apply u d)) as (r' & Hrun' & Hh' & Hold' & Hother).
  - done.
  - exists (cd_inner doc). unfold rec_docs. rewrite Hv1, <-Hkey. simpl. split; [by rewrite lookup_insert_eq|].
    rewrite Hdoc1, (pushed_proper _ _ _ Hd0). apply pushed_effective, (Heff 0). done.
  - split; [intros i d' Hd'; by apply (Hfits (1 + i))|]. intros i v Hv. by apply (Heff (1 + i)).
  - done.
  - intros p Hp. unfold rec_seen. rewrite Hseen1. intros [Heq|Hin]%cache_mark_seen.
    + apply Hfresh. apply list_elem_of_fmap. by exists p.
    + apply (Hnew p); [by right|done].
  - exists r'. split_and!; try done.
    + unfold push_each. cbn [for_each]. by erewrite sm_bind_ok by exact Hrun.
    + intros k Hk. rewrite Hother by done. unfold rec_docs. rewrite Hv1. simpl.
      by rewrite lookup_insert_ne by (unfold entry_key in Hkey; congruence).
Qed.

(** ** Batches *)

(** The document a merge starts from: the one stored, or a new one. *)
Definition loadable (docs : gmap doc_key bytes) (key : doc_key) : Prop :=
  match docs !! key with Some b => ∃ d, b = y_encode_state d ∧ fits b | None => True end.
Definition starts (docs : gmap doc_key bytes) (key : doc_key) (d0 : ydoc) : Prop :=
  match docs !! key with
  | Some b => ∃ d, b = y_encode_state d ∧ d ≡ d0
  | None => ∃ cid, d0 = cd_inner (document_new cid key.1 key.2 0)
  end.

(** [b] encodes the document [key] with the updates of [es] merged. *)
Definition merged (docs : gmap doc_key bytes) (key : doc_key) (es : list OplogEntry) (b : bytes) : Prop :=
  ∃ d0 us d, starts docs key d0 ∧ Forall2 carries es us ∧ b = y_encode_state d ∧ d ≡ y_apply_all us d0.

Lemma apply_updates_ok es us doc : Forall2 carries es us →
  apply_updates (oe_yrs_update <$> es) doc = Ok (set_inner (y_apply_all us (cd_inner doc)) doc).
Proof.
  intros Hes. revert doc. induction Hes as [|e u es us [Hdec Hfit] Hes IH]; intros doc.
  { by destruct doc. }
  cbn [fmap list_fmap apply_updates]. rewrite (apply_update_ok _ u doc Hdec Hfit). by rewrite IH.
Qed.

Lemma reconcile_doc_ok cid key es us r : rec_healthy r → loadable (rec_docs r) key → Forall2 carries es us →
  ∃ b st r', reconcile_doc cid key es r = (Ok (key.1, key.2, b, st), r') ∧ rec_same r r' (rec_view r) ∧
    merged (rec_docs r) key es b.
Proof.
  intros Hh Hload Hes. unfold reconcile_doc.
  destruct (rec_storage_ok _ _ _ r (get_document_ok key.1 key.2) Hh) as (r1 & Hget & Hsame).
  erewrite sm_bind_ok by exact Hget.
  assert (Hex : ∃ doc d0, load_or_new cid key (rec_docs r !! key) r1 = (Ok doc, r1) ∧ cd_inner doc ≡ d0 ∧
    starts (rec_docs r) key d0).
  { unfold loadable, starts in *. destruct (rec_docs r !! key) as [b|].
    - destruct Hload as (d & -> & Hfit). destruct (load_or_new_ok cid key d r1 Hfit) as (doc & Hl & Hd).
      exists doc, d. split_and!; try done. by exists d.
    - exists (document_new cid key.1 key.2 0), (cd_inner (document_new cid key.1 key.2 0)). split_and!; [done|done|by exists cid]. }
  destruct Hex as (doc & d0 & Hl & Hd & Hstart).
  replace (a_docs (rec_view r) !! (key.1, key.2)) with (rec_docs r !! key) by by destruct key.
  erewrite sm_bind_ok by exact Hl. rewrite (apply_updates_ok es us doc Hes).
  eexists _, _, r1. split; [reflexivity|]. split; [done|].
  eexists d0, us, _. split_and!; [done|done|reflexivity|]. simpl. by rewrite Hd.
Qed.

Lemma rec_same_trans r r1 r2 a : rec_same r r1 (rec_view r) → rec_same r1 r2 a → rec_same r r2 a.
Proof. unfold rec_same. intros (?&?&?&?&?&?) (?&?&?&?&?&?). split_and!; congruence. Qed.

Lemma reconcile_docs_ok cids (l : list (nat * (doc_key * list OplogEntry))) r : rec_healthy r →
  (∀ i key es, (i, (key, es)) ∈ l → loadable (rec_docs r) key ∧ ∃ us, Forall2 carries es us) →
  ∃ res r', map_each (λ '(i, (key, es)), reconcile_doc (cids i) key es) l r = (Ok res, r') ∧
    rec_same r r' (rec_view r) ∧
    Forall2 (λ p (q : string * string * bytes * _), q.1.1 = p.2.1 ∧ merged (rec_docs r) p.2.1 p.2.2 q.1.2) l res.
Proof.
  revert r. induction l as [|[i [key es]] l IH]; intros r Hh Hl.
  { exists [], r. by split_and!. }
  destruct (Hl i key es ltac:(left)) as [Hload [us Hus]].
  destruct (reconcile_doc_ok (cids i) key es us r Hh Hload Hus) as (b & st & r1 & Hrun & Hsame & Hm).
  assert (Hdocs : rec_docs r1 = rec_docs r) by (unfold rec_docs; by destruct Hsame as (_ & -> & _)).
  destruct (IH r1) as (res & r2 & Hrun2 & Hsame2 & Hres).
  { apply Hsame. }
  { intros ? ? ? Hin. rewrite Hdocs. apply (Hl _ _ _ ltac:(by right)). }
  eexists _, r2. split_and!.
  - cbn [map_each]. erewrite sm_bind_ok by exact Hrun. erewrite sm_bind_ok by exact Hrun2. reflexivity.
  - apply (rec_same_trans r r1); [done|]. destruct Hsame as (_ & Hv & _). by rewrite <-Hv.
  - constructor; [by destruct key|]. by rewrite <-Hdocs.
Qed.

(** The entries of a batch that belong to a document. *)
Definition batch_of (seen : gset string) (key : doc_key) (es : list OplogEntry) : list OplogEntry :=
  filterb (λ e, negb (bool_decide (oe_id e ∈ seen)) && bool_decide (entry_key e = key)) es.

Lemma group_entries_lookup seen es key : group_entries seen es !! key =
  match batch_of seen key es with [] => None | l => Some l end.
Proof.
  unfold group_entries, batch_of. induction es as [|e es IH] using rev_ind; [done|].
  rewrite foldl_app, filterb_app. simpl. case_bool_decide as Hs; simpl; [by rewrite app_nil_r|].
  case_bool_decide as Hk; simpl.
  - rewrite Hk, lookup_insert_eq, IH. by destruct (filterb _ es).
  - rewrite app_nil_r, lookup_insert_ne by done. apply IH.
Qed.

Lemma write_batch_lookup_ne (l : list (string * string * bytes)) a key : key ∉ (fst <$> l) →
  a_docs (a_write_batch l a) !! key = a_docs a !! key.
Proof.
  revert a. induction l as [|[[d k] b] l IH]; intros a; cbn [fmap list_fmap]; [done|].
  rewrite not_elem_of_cons. intros [Hne Hin]. unfold a_write_batch in *. simpl. rewrite IH by done. simpl.
  by rewrite lookup_insert_ne by (simpl in Hne; congruence).
Qed.

Lemma write_batch_lookup (l : list (string * string * bytes)) a key b : NoDup (fst <$> l) → (key, b) ∈ l →
  a_docs (a_write_batch l a) !! key = Some b.
Proof.
  revert a. induction l as [|[[d k] b'] l IH]; intros a; cbn [fmap list_fmap]; [by intros ? ?%elem_of_nil|].
  intros [Hd Hnd]%NoDup_cons [Heq|Hin]%elem_of_cons; [|by apply IH].
  injection Heq as -> ->. change (a_write_batch _ a) with (a_write_batch l (a_insert d k b' a)).
  rewrite write_batch_lookup_ne by done. simpl. by rewrite lookup_insert_eq.
Qed.

(** Loops whose body succeeds and moves along a preorder. *)
Lemma for_each_keeps {A} (R : relation (Reconciler S)) `{!PreOrder R}
    (f : A → SM (Reconciler S) (fault VaultSyncError) unit) l r : rec_healthy r →
  (∀ a r, a ∈ l → rec_healthy r → ∃ r', f a r = (Ok tt, r') ∧ rec_healthy r' ∧ R r r') →
  ∃ r', for_each f l r = (Ok tt, r') ∧ rec_healthy r' ∧ R r r'.
Proof.
  intros Hh Hf. revert r Hh. induction l as [|x l IH]; intros r Hh; [by exists r|].
  destruct (Hf x r ltac:(left) Hh) as (r1 & Hrun & Hh1 & Hs1).
  destruct (IH (λ a r Ha, Hf a r (list_elem_of_further _ _ _ Ha)) r1 Hh1) as (r2 & Hrun2 & Hh2 & Hs2).
  exists r2. split_and!; [|done|by trans r1]. cbn [for_each]. by erewrite sm_bind_ok by exact Hrun.
Qed.

(** Only ids of [ids] are remembered in addition, and nothing is sent. *)
Definition marks (ids : list string) : relation (Reconciler S) := λ r r',
  rc_storage r' = rc_storage r ∧ rc_fire_suppressed r' = rc_fire_suppressed r ∧
  rc_notified r' = rc_notified r ∧ ∀ x, x ∈ rec_seen r' → x ∈ rec_seen r ∨ x ∈ ids.
#[local] Instance marks_preorder ids : PreOrder (marks ids).
Proof.
  split; [intros r; by split_and!; auto|].
  intros r1 r2 r3 (?&?&?&Ha) (?&?&?&Hb). split_and!; try congruence. intros x [?|?]%Hb; auto.
Qed.

(** Only notifications are sent. *)
Definition sends : relation (Reconciler S) := λ r r',
  rc_storage r' = rc_storage r ∧ rc_fire_suppressed r' = rc_fire_suppressed r ∧ rc_seen_ids r' = rc_seen_ids r.
#[local] Instance sends_preorder : PreOrder sends.
Proof. split; [done|]. intros r1 r2 r3 (?&?&?) (?&?&?). split_and!; congruence. Qed.

(** What a batch leaves of the rest of the state. *)
Definition after_batch (ids : list string) r r' : Prop :=
  rc_fire_suppressed r' = rc_fire_suppressed r ∧
  (∀ x, x ∈ rec_seen r' → x ∈ rec_seen r ∨ x ∈ ids) ∧
  (rc_fire_suppressed r = true → rc_notified r' = rc_notified r).

Lemma after_batch_refl ids r : after_batch ids r r.
Proof. unfold after_batch. split_and!; auto. Qed.

Lemma mark_all_ok ids r : rec_healthy r →
  ∃ r', for_each mark_dedup ids r = (Ok tt, r') ∧ rec_healthy r' ∧ marks ids r r'.
Proof.
  intros Hh. apply for_each_keeps; [apply _|done|]. intros x r0 Hx Hr0.
  destruct (mark_dedup_ok x r0 Hr0) as (r' & Hrun & Hh' & Hs & _ & Hf & Hn & Hc). exists r'. unfold marks. split_and!; try done.
  unfold rec_seen. rewrite Hc. intros y [->|Hy]%cache_mark_seen; [by right|by left].
Qed.

(** The end of a batch: ids remembered, subscriptions notified. *)
Lemma batch_tail_ok ids (res : list (string * string * bytes * option (gmap string CrdtValue))) r :
  rec_healthy r →
  ∃ r', (for_each mark_dedup ids;;
     suppressed ← sm_gets rc_fire_suppressed;
     if (suppressed : bool) then mret tt
     else
       rw_lock Panicked rc_subscriptions;;
       for_each (λ '(d, k, _, st), match st with
                                   | Some state => rec_fire ReconcilerPull d k state
                                   | None => mret tt
                                   end) res) r = (Ok tt, r') ∧ rec_healthy r' ∧ rc_storage r' = rc_storage r ∧
    after_batch ids r r'.
Proof.
  intros Hh. destruct (mark_all_ok ids r Hh) as (r1 & Hrun & Hh1 & Hs1 & Hf1 & Hn1 & Hc1).
  erewrite sm_bind_ok by exact Hrun. unfold sm_gets at 1. unfold mbind at 1, sm_bind at 1.
  destruct (rc_fire_suppressed r1) eqn:Hsup.
  { exists r1. unfold after_batch. split_and!; done || congruence. } unfold mbind at 1, sm_bind at 1, rw_lock.
  rewrite (proj1 (proj2 Hh1)).
  match goal with |- ∃ _, for_each ?f _ _ = _ ∧ _ =>
    destruct (for_each_keeps sends f res r1 Hh1) as (r2 & H2 & Hh2 & Hs2 & Hf2 & Hc2) end.
  - intros [[[d k] b] [st|]] r0 _ Hr0; [|by exists r0].
    destruct (rec_fire_ok ReconcilerPull d k st r0 Hr0) as (r' & ? & ? & ? & ? & ? & _). exists r'.
    unfold sends. by split_and!.
  - exists r2. unfold after_batch. split_and!; [done|done|congruence|congruence| |congruence].
    unfold rec_seen in *. by rewrite Hc2.
Qed.

Lemma imap_pair_elem {A} (l : list A) i x : (i, x) ∈ imap pair l → x ∈ l.
Proof.
  intros [j Hj]%list_elem_of_lookup. rewrite list_lookup_imap in Hj.
  destruct (l !! j) eqn:Hl; simplify_eq/=. by eapply list_elem_of_lookup_2.
Qed.

Lemma imap_pair_elem_2 {A} (l : list A) x : x ∈ l → ∃ i, (i, x) ∈ imap pair l.
Proof.
  intros [i Hi]%list_elem_of_lookup. exists i. apply list_elem_of_lookup. exists i.
  by rewrite list_lookup_imap, Hi.
Qed.

(** The keys of the documents written are those of the batch, once each. *)
Lemma batch_keys (g : gmap doc_key (list OplogEntry)) docs
    (res : list (string * string * bytes * option (gmap string CrdtValue))) :
  Forall2 (λ p q, q.1.1 = p.2.1 ∧ merged docs p.2.1 p.2.2 q.1.2) (imap pair (map_to_list g)) res →
  fst <$> map (λ '(d, k, b, _), (d, k, b)) res = fst <$> map_to_list g.
Proof.
  generalize (map_to_list g) as l. intros l H.
  assert (Hl : (λ p : nat * _, p.2) <$> imap pair l = l).
  { clear. revert l. apply rev_ind; [done|]. intros x l IH. rewrite imap_app, fmap_app. by rewrite IH. }
  trans (fst <$> ((λ p : nat * _, p.2) <$> imap pair l)); [clear Hl|by rewrite Hl].
  revert H. generalize (imap pair l). intros l0 H. induction H as [|[i [key es]] [[[d k] b] st] l1 l2 [H1 _] _ IH]; [done|].
  cbn. simpl in H1. f_equal; [done|]. apply IH.
Qed.

Lemma seen_lock_ok r : rec_healthy r →
  rw_lock (Panicked : fault VaultSyncError) rc_seen_ids r = (Ok (rw_val (rc_seen_ids r)), r).
Proof. intros (_ & _ & Hp). unfold rw_lock. by rewrite Hp. Qed.

(** What the batch leaves in the store under each key. *)
Lemma batch_written (g : gmap doc_key (list OplogEntry)) a
    (res : list (string * string * bytes * option (gmap string CrdtValue))) key :
  Forall2 (λ p q, q.1.1 = p.2.1 ∧ merged (a_docs a) p.2.1 p.2.2 q.1.2) (imap pair (map_to_list g)) res →
  let docs' := a_docs (a_write_batch (map (λ '(d, k, b, _), (d, k, b)) res) a) in
  match g !! key with
  | None => docs' !! key = a_docs a !! key
  | Some l => ∃ b, docs' !! key = Some b ∧ merged (a_docs a) key l b
  end.
Proof.
  intros Hres docs'. pose proof (batch_keys g _ res Hres) as Hkeys. unfold docs'.
  destruct (g !! key) as [l|] eqn:Hg.
  - apply elem_of_map_to_list in Hg. destruct (imap_pair_elem_2 _ _ Hg) as [i [j Hj]%list_elem_of_lookup].
    destruct (Forall2_lookup_l _ _ _ _ _ Hres Hj) as ([[[d k] b] st] & Hq & Hkey & Hm). simpl in *.
    exists b. split; [|done]. apply write_batch_lookup.
    + rewrite Hkeys. apply NoDup_fst_map_to_list.
    + apply list_elem_of_fmap. exists (d, k, b, st). subst. split; [done|]. by eapply list_elem_of_lookup_2.
  - apply write_batch_lookup_ne. rewrite Hkeys. intros ([k l] & -> & Hin)%list_elem_of_fmap.
    apply elem_of_map_to_list in Hin. simpl in Hg. congruence.
Qed.

Lemma batch_of_carries seen key es : (∀ e, e ∈ es → ∃ u, carries e u) →
  ∃ us, Forall2 carries (batch_of seen key es) us.
Proof.
  intros Hes. unfold batch_of. induction es as [|e es IH]; [by exists []|].
  destruct IH as [us Hus]; [intros e' He'; apply Hes; by right|]. simpl.
  destruct (_ && _); [|by exists us]. destruct (Hes e ltac:(left)) as [u Hu]. exists (u :: us). by constructor.
Qed.

Lemma batch_of_key seen key es l e : batch_of seen key es = l → e ∈ l → e ∈ es ∧ entry_key e = key.
Proof.
  intros <- [Hb Hin]%elem_of_filterb. split; [done|]. apply andb_true_iff in Hb as [_ Hb].
  by apply bool_decide_eq_true in Hb.
Qed.

Lemma uncommitted_ids_elem seen es x : x ∈ uncommitted_ids seen es → x ∈ oe_id <$> es.
Proof.
  intros (e & -> & [_ He]%elem_of_filterb)%list_elem_of_fmap. by apply list_elem_of_fmap_2.
Qed.

Lemma apply_batch_ok cids es r : rec_healthy r →
  (∀ e, e ∈ es → loadable (rec_docs r) (entry_key e) ∧ ∃ u, carries e u) →
  ∃ r', apply_batch cids es r = (Ok tt, r') ∧ rec_healthy r' ∧ after_batch (oe_id <$> es) r r' ∧
    ∀ key, match batch_of (rec_seen r) key es with
           | [] => rec_docs r' !! key = rec_docs r !! key
           | l => ∃ b, rec_docs r' !! key = Some b ∧ merged (rec_docs r) key l b
           end.
Proof.
  intros Hh Hes. destruct es as [|e0 es']; [exists r; split_and!; [done|done|apply after_batch_refl|done]|]. set (es := e0 :: es') in *.
  change (apply_batch cids es) with (apply_batch_seen cids es).
  unfold apply_batch_seen. erewrite sm_bind_ok by (by apply seen_lock_ok). cbv zeta. fold (rec_seen r).
  pose proof (group_entries_lookup (rec_seen r) es) as Hg. set (g := group_entries (rec_seen r) es) in *.
  case_bool_decide as Hempty.
  { exists r. split_and!; [done|done|apply after_batch_refl|]. intros key. specialize (Hg key). rewrite Hempty, lookup_empty in Hg.
    by destruct (batch_of _ _ _). }
  destruct (reconcile_docs_ok cids (imap pair (map_to_list g)) r Hh) as (res & r1 & Hrun & Hsame & Hres).
  { intros i key l Hin%imap_pair_elem%elem_of_map_to_list. rewrite Hg in Hin.
    destruct (batch_of (rec_seen r) key es) as [|e1 l1] eqn:Hl; [done|]. injection Hin as <-. split.
    - destruct (batch_of_key _ _ _ _ e1 Hl ltac:(left)) as [Hin <-]. by apply Hes.
    - rewrite <-Hl. apply batch_of_carries. intros e He. by apply Hes. }
  erewrite sm_bind_ok by exact Hrun. destruct Hsame as (Hh1 & Hv1 & _ & Hseen1 & Hsup1 & Hnot1).
  destruct (rec_storage_ok _ _ _ r1 (write_batch_ok (map (λ '(d, k, b, _), (d, k, b)) res)) Hh1)
    as (r2 & Hrun2 & Hh2 & Hv2 & _ & Hseen2 & Hsup2 & Hnot2).
  erewrite sm_bind_ok by exact Hrun2.
  destruct (batch_tail_ok (uncommitted_ids (rec_seen r) es) res r2 Hh2) as (r3 & Hrun3 & Hh3 & Hs3 & Hf3 & Hc3 & Hn3).
  exists r3. split; [exact Hrun3|]. split; [done|]. split.
  { split_and!; [congruence| |intros; by rewrite Hn3, Hnot2, Hnot1 by congruence].
    intros x Hx%Hc3. unfold rec_seen in Hx. rewrite Hseen2, Hseen1 in Hx. destruct Hx as [Hx|Hx]; [by left|right].
    by apply uncommitted_ids_elem in Hx. }
  intros key.
  pose proof (batch_written g (rec_view r) res key Hres) as Hw. cbv zeta in Hw. rewrite Hg in Hw.
  unfold rec_docs, rec_view in *. rewrite Hs3, Hv2, Hv1. by destruct (batch_of _ _ _).
Qed.

Lemma carries_upd es us (upd : OplogEntry → yupdate) : (∀ e, e ∈ es → carries e (upd e)) →
  Forall2 carries es us → us = upd <$> es.
Proof.
  intros Hupd Hus. induction Hus as [|e u es us [Hu _] Hus IH]; [done|].
  destruct (Hupd e ltac:(left)) as [Hu' _]. cbn [fmap list_fmap]. f_equal; [congruence|].
  apply IH. intros e' He'. apply Hupd. by right.
Qed.

(** A batch for one document that is stored. *)
Lemma batch_of_key_ok key d es (upd : OplogEntry → yupdate) cids r :
  rec_healthy r → holds r key d → es ≠ [] →
  (∀ e, e ∈ es → entry_key e = key ∧ (oe_id e ∉ rec_seen r) ∧ carries e (upd e)) →
  (∀ d', d' ≡ d → fits (y_encode_state d')) →
  ∃ r', apply_batch cids es r = (Ok tt, r') ∧ holds r' key (y_apply_all (upd <$> es) d).
Proof.
  intros Hh (d1 & Hd1 & He1) Hne Hes Hfit.
  destruct (apply_batch_ok cids es r Hh) as (r' & Hrun & _ & _ & Hkeys).
  { intros e He. destruct (Hes e He) as (-> & _ & Hc). split; [|by eexists].
    unfold loadable. rewrite Hd1. exists d1. split; [done|by apply Hfit]. }
  exists r'. split; [done|]. specialize (Hkeys key).
  assert (Hall : batch_of (rec_seen r) key es = es).
  { apply filterb_all. intros e He. destruct (Hes e He) as (Hk & Hs & _).
    by rewrite bool_decide_false, bool_decide_true. }
  rewrite Hall in Hkeys. destruct es as [|e es]; [done|]. destruct Hkeys as (b & Hb & d0 & us & d2 & Hst & Hus & -> & Hd2).
  exists d2. split; [done|]. rewrite Hd2. unfold starts in Hst. rewrite Hd1 in Hst.
  destruct Hst as (d3 & Heq%y_encode_state_inj & Hd3).
  rewrite (carries_upd _ us upd (λ e He, proj2 (proj2 (Hes e He))) Hus). by rewrite <-Hd3, <-Heq, He1.
Qed.

(** ** The ids remembered *)

Definition cache_after (ids : list string) : gset string * list string :=
  foldl (λ c x, cache_mark x c) (∅, []) ids.

(** The last ids, as many as the cache holds. *)
Definition last_ids (ids : list string) : list string := drop (length ids - DEDUP_CACHE_SIZE) ids.

Lemma list_to_set_snoc (l : list string) x : list_to_set (l ++ [x]) = ({[x]} ∪ list_to_set l :> gset string).
Proof. rewrite list_to_set_app_L. simpl. set_solver. Qed.

Lemma cache_after_window ids : NoDup ids → cache_after ids = (list_to_set (last_ids ids), last_ids ids).
Proof.
  unfold cache_after, last_ids. induction ids as [|x ids IH] using rev_ind; [done|].
  intros [Hnd [Hx _]]%NoDup_app. rewrite foldl_app, (IH Hnd). simpl. unfold cache_mark. simpl.
  set (k := length ids - DEDUP_CACHE_SIZE). rewrite !length_app, !length_drop. simpl.
  destruct (Nat.ltb_spec DEDUP_CACHE_SIZE (length ids - k + 1)) as [Hlt|Hge].
  - replace (length ids + 1 - DEDUP_CACHE_SIZE) with (Datatypes.S k) by lia.
    destruct (drop k ids) as [|y q] eqn:Hq; cbn [app].
    { apply (f_equal length) in Hq. rewrite length_drop in Hq. simpl in Hq. unfold DEDUP_CACHE_SIZE in *. lia. }
    assert (Hd : drop (Datatypes.S k) (ids ++ [x]) = q ++ [x]).
    { rewrite drop_app_le. 2: { apply (f_equal length) in Hq. rewrite length_drop in Hq. simpl in Hq. lia. }
      replace (Datatypes.S k) with (k + 1) by lia. by rewrite <-drop_drop, Hq. }
    rewrite Hd, list_to_set_snoc. f_equal.
    assert (Hyq : NoDup (y :: q)) by (rewrite <-Hq; by eapply sublist_NoDup; [|apply sublist_drop]).
    apply NoDup_cons in Hyq as [Hy _].
    assert (y ≠ x).
    { intros ->. apply (Hx x); [|by left]. apply (subseteq_drop k). rewrite Hq. by left. }
    assert (Hys : y ∉ (list_to_set q : gset string)) by by rewrite elem_of_list_to_set.
    rewrite list_to_set_cons. clear -H Hys. set_solver.
  - replace (length ids + 1 - DEDUP_CACHE_SIZE) with 0 by lia. replace k with 0 by lia. rewrite !drop_0.
    by rewrite list_to_set_snoc.
Qed.

Lemma seen_no_op cid cids e r : rec_healthy r → oe_id e ∈ rec_seen r →
  apply_remote_update cid e r = (Ok tt, r) ∧ apply_batch cids [e] r = (Ok tt, r).
Proof.
  intros Hh Hin. split.
  - unfold apply_remote_update, reconcile_one. erewrite sm_bind_ok by (by apply is_deduped_ok).
    by rewrite bool_decide_true.
  - unfold apply_batch, apply_batch_seen. erewrite sm_bind_ok by (by apply seen_lock_ok). cbv zeta.
    unfold group_entries. cbn [foldl]. fold (rec_seen r). by rewrite (bool_decide_true (oe_id e ∈ rec_seen r)).
Qed.

Lemma last_ids_snoc ids x : x ∈ last_ids (ids ++ [x]).
Proof.
  unfold last_ids. rewrite length_app. simpl. rewrite drop_app_le by (unfold DEDUP_CACHE_SIZE; lia).
  apply elem_of_app. right. by left.
Qed.

(** ** Properties *)

(** Exactly once within the window: the ids remembered are exactly the last
    ten thousand merged, and merging an entry with one of them again, pushed or
    pulled, changes nothing. *)
Theorem dedup_window_exact ids cid cids e (r : Reconciler S) :
  rec_healthy r → rw_val (rc_seen_ids r) = cache_after ids → NoDup ids →
  (oe_id e ∈ rec_seen r ↔ oe_id e ∈ last_ids ids) ∧
  (oe_id e ∈ last_ids ids →
    apply_remote_update cid e r = (Ok tt, r) ∧ apply_batch cids [e] r = (Ok tt, r)).
Proof.
  intros Hh Hc Hnd.
  assert (Hseen : oe_id e ∈ rec_seen r ↔ oe_id e ∈ last_ids ids).
  { unfold rec_seen. rewrite Hc, cache_after_window by done. simpl. by rewrite elem_of_list_to_set. }
  split; [done|]. intros Hin. apply seen_no_op; [done|]. by apply Hseen.
Qed.

(** The push path loses deletions: an update that only deletes, pulled in a
    batch, is merged; pushed, it is taken for redundant, since its state vector
    is empty: the document stays as it was, the call succeeds, and the id is
    remembered, so that a later pull of the same entry does not merge it either. *)
Theorem push_loses_deletions ids cid cids e u d0 (r : Reconciler S) :
  rec_healthy r → rw_val (rc_seen_ids r) = cache_after ids → NoDup (ids ++ [oe_id e]) →
  rec_docs r !! entry_key e = Some (y_encode_state d0) →
  (∀ d', d' ≡ d0 → fits (y_encode_state d')) → carries e u → y_update_vector u = ∅ →
  (∃ r1, apply_batch cids [e] r = (Ok tt, r1) ∧ holds r1 (entry_key e) (y_apply u d0)) ∧
  (∃ r2, apply_remote_update cid e r = (Ok tt, r2) ∧ holds r2 (entry_key e) d0 ∧
    apply_batch cids [e] r2 = (Ok tt, r2)).
Proof.
  intros Hh Hc Hnd Hdoc Hfit Hu Hvec.
  pose proof Hnd as [Hnd' [Hnin _]]%NoDup_app.
  assert (Hnew : oe_id e ∉ rec_seen r).
  { unfold rec_seen. rewrite Hc, cache_after_window by done. simpl. rewrite elem_of_list_to_set.
    intros Hin%subseteq_drop. apply (Hnin _ Hin). by left. }
  split.
  - apply (batch_of_key_ok (entry_key e) d0 [e] (λ _, u)); [done|by exists d0|done| |done].
    by intros ? ->%list_elem_of_singleton.
  - destruct Hu as [Hdec Hfu].
    destruct (reconcile_one_ok cid e _ u r d0 Hh Hnew Hdoc (Hfit d0 ltac:(done)) Hdec Hfu)
      as (r2 & doc & Hrun & Hh2 & Hd2 & Hv2 & Hs2 & _).
    exists r2. split_and!; [done| |].
    + exists (cd_inner doc). unfold rec_docs. rewrite Hv2. simpl. split; [by rewrite lookup_insert_eq|].
      rewrite Hd2. unfold pushed, sv_covered. by rewrite Hvec, map_to_list_empty.
    + apply (seen_no_op 0); [done|]. unfold rec_seen. rewrite Hs2, Hc.
      change (cache_mark (oe_id e) (cache_after ids)) with (foldl (λ c x, cache_mark x c) (cache_after ids) [oe_id e]).
      unfold cache_after. rewrite <-foldl_app. fold (cache_after (ids ++ [oe_id e])).
      rewrite cache_after_window by done. apply elem_of_list_to_set, last_ids_snoc.
Qed.

(** C7: Push and pull agree: of two replicas that hold the same document, one
    merges a set of new updates as one pulled batch and the other receives them
    pushed one by one, in any order; both succeed, and both end up holding the
    same document.  Each pushed update has to insert something the document
    lacks when it arrives, or to delete nothing. *)
Theorem push_pull_converge key d es l (upd : OplogEntry → yupdate) cids (r1 r2 : Reconciler S) :
  rec_healthy r1 → rec_healthy r2 → holds r1 key d → holds r2 key d →
  (∀ e, e ∈ es → entry_key e = key ∧ (oe_id e ∉ rec_seen r1 ∪ rec_seen r2) ∧
                 carries e (upd e)) →
  es ≠ [] → NoDup (oe_id <$> es) → (snd <$> l) ≡ₚ es →
  (∀ d', d' ≡ d → fits (y_encode_state d')) → pushable d (upd <$> (snd <$> l)) →
  ∃ r1' r2', apply_batch cids es r1 = (Ok tt, r1') ∧ push_each l r2 = (Ok tt, r2') ∧
    holds r1' key (y_apply_all (upd <$> es) d) ∧ holds r2' key (y_apply_all (upd <$> es) d).
Proof.
  intros Hh1 Hh2 Hd1 Hd2 Hes Hne Hnd Hperm Hfit Hfits.
  destruct (batch_of_key_ok key d es upd cids r1) as (r1' & Hrun1 & Hhold1); try done.
  { intros e (? & ? & ?)%Hes. split_and!; [done|set_solver|done]. }
  destruct (push_each_ok key l (upd <$> (snd <$> l)) d r2) as (r2' & Hrun2 & _ & Hhold2 & _); try done.
  - rewrite Forall2_fmap_r, Forall2_fmap_r. apply Forall_Forall2_diag, Forall_forall. intros p Hp.
    destruct (Hes p.2) as (? & ? & ?); [rewrite <-Hperm; by apply list_elem_of_fmap_2|done].
  - change (NoDup (oe_id ∘ snd <$> l)). rewrite list_fmap_compose. by rewrite Hperm.
  - intros p Hp. destruct (Hes p.2) as (? & ? & ?); [rewrite <-Hperm; by apply list_elem_of_fmap_2|set_solver].
  - exists r1', r2'. split_and!; try done. destruct Hhold2 as (d' & Hd' & Heq). exists d'. split; [done|].
    rewrite Heq. apply y_apply_all_same_set; intros u Hu; by rewrite Hperm in * || by rewrite <-Hperm in *.
Qed.
End theory.

(** ** Witnesses *)

Lemma opset_fits (d d' : ydoc) : d' ≡ d → fits (y_encode_state d) → fits (y_encode_state d').
Proof. intros Hd. enough (y_encode_state d' = y_encode_state d) as -> by done. by destruct d, d', Hd as [[= ->] [= ->]]. Qed.

Definition stored_doc : CRDTDocument := (set_field "title" (VString "x") (document_new 1 "todos" "r1" 1)).2.
Definition replica_with (ids : list string) : Reconciler InMemoryStorage.t :=
  Rec (InMemoryStorage.mk (rw_new {[("todos", "r1") := to_snapshot stored_doc]}) (rw_new []) (rw_new ∅)
        (rw_new ∅) (rw_new []) (rw_new []))
    (rw_new engine_new) (rw_new (cache_after ids)) false [].
Definition remote_entry (ent : string) (update : bytes) : OplogEntry :=
  OplogEntry_new ent "r2" "ns" CrdtUpdate "todos" "r1" update None 5 (Some 1%N) Pending None 5 1 ORemotePull "".
Definition opset_decoded (b : bytes) : gset op * gset op :=
  match ops_decode b with Ok u => u | Err _ => (∅, ∅) end.

Definition edit_a : OplogEntry := remote_entry "a" (set_field "title" (VString "y") stored_doc).1.
Definition edit_b : OplogEntry :=
  remote_entry "b" (set_field "done" (VBoolean true) (set_inner (OpSet 7 (os_ops (cd_inner stored_doc)) ∅) stored_doc)).1.
Definition edit_del : OplogEntry := remote_entry "c" (delete_field "title" stored_doc).1.
Definition entry_update (e : OplogEntry) : @yupdate opset_yrs := opset_decoded (oe_yrs_update e).

(** Decided by evaluation, without computing the sets themselves. *)
Definition readable (b : bytes) : bool :=
  match ops_decode b with Ok _ => (N.of_nat (length b) <=? MAX_SNAPSHOT_SIZE)%N | Err _ => false end.
Lemma readable_carries e : readable (oe_yrs_update e) = true → carries e (entry_update e).
Proof.
  unfold readable, carries, entry_update, opset_decoded. simpl.
  destruct (ops_decode (oe_yrs_update e)); [|done]. intros H%N.leb_le. by split.
Qed.
Lemma fits_check b : (N.of_nat (length b) <=? MAX_SNAPSHOT_SIZE)%N = true → fits b.
Proof. by intros H%N.leb_le. Qed.

Lemma replica_with_healthy ids : rec_healthy (replica_with ids).
Proof. by repeat split. Qed.

Lemma stored_doc_fits (d : ydoc) : d ≡ cd_inner stored_doc → fits (y_encode_state d).
Proof. intros Hd. apply (opset_fits _ _ Hd), fits_check. vm_compute. reflexivity. Qed.

Lemma dedup_window_exact_witness :
  apply_remote_update 3 edit_a (replica_with ["z"; "a"]) = (Ok tt, replica_with ["z"; "a"]).
Proof.
  apply (dedup_window_exact ["z"; "a"] 3 (λ _, 0%N) edit_a (replica_with ["z"; "a"])).
  - apply replica_with_healthy.
  - reflexivity.
  - apply (bool_decide_unpack _); vm_compute; exact I.
  - apply (bool_decide_unpack _); vm_compute; exact I.
Defined.

Lemma push_loses_deletions_witness :
  ∃ r2, apply_remote_update 3 edit_del (replica_with ["z"]) = (Ok tt, r2) ∧
    holds r2 ("todos", "r1") (cd_inner stored_doc) ∧
    to_map stored_doc !! "title" = Some (VString "x") ∧
    to_map (set_inner (y_apply (entry_update edit_del) (cd_inner stored_doc)) stored_doc) !! "title" = None.
Proof.
  destruct (push_loses_deletions ["z"] 3 (λ _, 0%N) edit_del (entry_update edit_del) (cd_inner stored_doc)
    (replica_with ["z"])) as [_ (r2 & H1 & H2 & _)].
  - apply replica_with_healthy.
  - reflexivity.
  - apply (bool_decide_unpack _); vm_compute; exact I.
  - reflexivity.
  - exact stored_doc_fits.
  - apply readable_carries. vm_compute. reflexivity.
  - vm_compute. reflexivity.
  - exists r2. split; [exact H1|]. split; [exact H2|]. split; vm_compute; reflexivity.
Defined.

Lemma push_pull_converge_witness :
  ∃ r1' r2', apply_batch (λ _, 0%N) [edit_a; edit_b] (replica_with []) = (Ok tt, r1') ∧
    push_each [(4%N, edit_b); (5%N, edit_a)] (replica_with ["z"]) = (Ok tt, r2') ∧
    ∃ d, holds r1' ("todos", "r1") d ∧ holds r2' ("todos", "r1") d.
Proof.
  destruct (push_pull_converge ("todos", "r1") (cd_inner stored_doc) [edit_a; edit_b]
    [(4%N, edit_b); (5%N, edit_a)] entry_update (λ _, 0%N) (replica_with []) (replica_with ["z"]))
    as (r1' & r2' & H1 & H2 & H3 & H4).
  - apply replica_with_healthy.
  - apply replica_with_healthy.
  - exists (cd_inner stored_doc). by split.
  - exists (cd_inner stored_doc). by split.
  - intros e [->|[->|[]%elem_of_nil]%elem_of_cons]%elem_of_cons;
      (split; [reflexivity|]; split; [apply (bool_decide_unpack _); vm_compute; exact I|]);
      (apply readable_carries; vm_compute; reflexivity).
  - discriminate.
  - apply (bool_decide_unpack _); vm_compute; exact I.
  - apply perm_swap.
  - exact stored_doc_fits.
  - split.
    + intros i d' Hd'. apply (opset_fits _ _ Hd'), fits_check. clear Hd'.
      destruct i as [|[|i]]; [| |rewrite take_ge by (rewrite !length_fmap; cbn [length]; lia)];
        vm_compute; reflexivity.
    + intros [|[|i]] u Hu; [left|left|discriminate]; apply (inj Some) in Hu; subst u; vm_compute; reflexivity.
  - exists r1', r2'. split; [exact H1|]. split; [exact H2|]. eexists. split; [exact H3|exact H4].
Defined.
