(* ===== verification/Download.v ===== *)
(** * The download queue and its worker

    [sync/download.rs] and the loop of [start_download_worker] in [client.rs]:
    pulled batches, pushed mutations, peer-to-peer mutations, snapshot
    catch-up and the cursor they share. *)
From stdpp Require Import pretty.
From S2P Require Import Prelude F64 Types Storage Coordinator SyncStateStore Upload CrdtValue Document SubscriptionEngine Reconciler.

Inductive PushOutcome := Contiguous | GapDetected | Stale.
#[export] Instance PushOutcome_eq_dec : EqDecision PushOutcome.
Proof. solve_decision. Defined.

Record DownloadConfig := DownloadConfig_new { dc_batch_size : nat; dc_snapshot_threshold : N }.
Definition download_config_default : DownloadConfig := DownloadConfig_new 50 500.

Section download.
Context {S C T : Type} {HS : Storage S} {HC : Coordinator C} {HT : SyncStateStore T} {Y : Yrs}.

(** [decryptor.decrypt_symmetric(blob, namespace)] *)
Context (decrypt : bytes → string → result bytes VaultSyncError).

(** [{:?}] of a string *)
Context (debug_str : string → string).

(** The queue with the coordinator, the cursor store and the reconciler it
    shares; its storage is the reconciler's. *)
Record DownloadQueue := DQ {
  dq_coordinator : C;
  dq_sync_state_store : T;
  dq_namespace : string;
  dq_last_sequence : N;
  dq_config : DownloadConfig;
  dq_reconciler : Reconciler S;
  dq_max_clock_skew : N;
  dq_self_replica_id : string;
  dq_replay_mode : bool;
  dq_replay_changed_docs : rwlock (gset doc_key);
  dq_stale_skip_count : N;
}.

Abbreviation M := (SM DownloadQueue (fault VaultSyncError)).

Definition download_new (c : C) (store : T) (ns : string) (last_sequence : N) (config : DownloadConfig)
    (rec : Reconciler S) (skew : N) (replica : string) : DownloadQueue :=
  DQ c store ns last_sequence config rec skew replica false (rw_new ∅) 0.

Definition dq_with_coordinator (c : C) (q : DownloadQueue) : DownloadQueue :=
  DQ c (dq_sync_state_store q) (dq_namespace q) (dq_last_sequence q) (dq_config q) (dq_reconciler q)
    (dq_max_clock_skew q) (dq_self_replica_id q) (dq_replay_mode q) (dq_replay_changed_docs q)
    (dq_stale_skip_count q).
Definition dq_with_store (s : T) (q : DownloadQueue) : DownloadQueue :=
  DQ (dq_coordinator q) s (dq_namespace q) (dq_last_sequence q) (dq_config q) (dq_reconciler q)
    (dq_max_clock_skew q) (dq_self_replica_id q) (dq_replay_mode q) (dq_replay_changed_docs q)
    (dq_stale_skip_count q).
Definition dq_with_last (n : N) (q : DownloadQueue) : DownloadQueue :=
  DQ (dq_coordinator q) (dq_sync_state_store q) (dq_namespace q) n (dq_config q) (dq_reconciler q)
    (dq_max_clock_skew q) (dq_self_replica_id q) (dq_replay_mode q) (dq_replay_changed_docs q)
    (dq_stale_skip_count q).
Definition dq_with_reconciler (r : Reconciler S) (q : DownloadQueue) : DownloadQueue :=
  DQ (dq_coordinator q) (dq_sync_state_store q) (dq_namespace q) (dq_last_sequence q) (dq_config q) r
    (dq_max_clock_skew q) (dq_self_replica_id q) (dq_replay_mode q) (dq_replay_changed_docs q)
    (dq_stale_skip_count q).
Definition dq_with_replay (b : bool) (q : DownloadQueue) : DownloadQueue :=
  DQ (dq_coordinator q) (dq_sync_state_store q) (dq_namespace q) (dq_last_sequence q) (dq_config q)
    (dq_reconciler q) (dq_max_clock_skew q) (dq_self_replica_id q) b (dq_replay_changed_docs q)
    (dq_stale_skip_count q).
Definition dq_with_changed (f : gset doc_key → gset doc_key) (q : DownloadQueue) : DownloadQueue :=
  DQ (dq_coordinator q) (dq_sync_state_store q) (dq_namespace q) (dq_last_sequence q) (dq_config q)
    (dq_reconciler q) (dq_max_clock_skew q) (dq_self_replica_id q) (dq_replay_mode q)
    (rw_update f (dq_replay_changed_docs q)) (dq_stale_skip_count q).
Definition dq_with_skips (n : N) (q : DownloadQueue) : DownloadQueue :=
  DQ (dq_coordinator q) (dq_sync_state_store q) (dq_namespace q) (dq_last_sequence q) (dq_config q)
    (dq_reconciler q) (dq_max_clock_skew q) (dq_self_replica_id q) (dq_replay_mode q)
    (dq_replay_changed_docs q) n.

Definition dq_pull_from {A} (m : SM C CoordinatorError A) : M (result A CoordinatorError) :=
  zoom dq_coordinator dq_with_coordinator (sm_try m).
Definition dq_reconcile {A} (m : SM (Reconciler S) (fault VaultSyncError) A) : M A :=
  zoom dq_reconciler dq_with_reconciler m.

(** [sync_state_store.set_cursor(seq).await?], then [last_sequence.swap(seq)]. *)
Definition move_cursor (seq : N) : M unit :=
  zoom dq_sync_state_store dq_with_store (set_cursor seq);;
  sm_modify (dq_with_last seq).

Definition dq_reset_cursor (to : N) (q : DownloadQueue) : DownloadQueue := dq_with_last to q.

(** [replay_changed_docs.lock().unwrap()]. *)
Definition lock_changed : M (gset doc_key) := rw_lock Panicked dq_replay_changed_docs.

Definition set_replay_mode (active : bool) : M unit :=
  sm_modify (dq_with_replay active);;
  sm_modify (λ q, dq_with_reconciler (set_fire_suppressed active (dq_reconciler q)) q);;
  if active then mret tt
  else lock_changed;; sm_modify (dq_with_changed (λ _, ∅)).

Definition flush_replay_notifications (cids : nat → N) : M unit :=
  changed ← lock_changed;
  if bool_decide (changed = ∅) then mret tt
  else
    for_each (λ '(i, (d, r)), dq_reconcile (fire_doc (cids i) d r)) (imap pair (elements changed));;
    lock_changed;;
    sm_modify (dq_with_changed (λ _, ∅)).

(** A generation that differs is only logged. *)
Definition check_generation : M unit :=
  q ← sm_get;
  if String.eqb (generation_id (dq_coordinator q)) "" then mret tt
  else
    dq_reconcile (rec_storage (read_sync_state (dq_namespace q)));;
    mret tt.

(** The type of a mutation: a deletion when it inserts nothing. *)
Definition mutation_type_of (update : bytes) : MutationType :=
  match y_decode update with
  | Ok u => if bool_decide (y_update_vector u = ∅) then CrdtDelete else CrdtUpdate
  | Err _ => CrdtUpdate
  end.

Definition remote_entry_of (m : PendingMutation) (plain : bytes) (ty : MutationType) (seq : option N)
    (origin : MutationOrigin) : OplogEntry :=
  OplogEntry_new (pm_id m) "" (pm_namespace m) ty (pm_doc_id m) (pm_record_id m) plain
    (Some (pm_encrypted_blob m)) (pm_timestamp m) seq Synced None (pm_timestamp m) 0 origin "".

(** The entries of a batch; our own mutations are skipped. *)
Fixpoint decrypt_batch (ns self_replica_id : string) (ms : list PendingMutation) :
    result (list OplogEntry) VaultSyncError :=
  match ms with
  | [] => Ok []
  | m :: ms' =>
      if String.eqb (pm_replica_id m) self_replica_id then decrypt_batch ns self_replica_id ms'
      else
        match decrypt (pm_encrypted_blob m) ns with
        | Err e => Err e
        | Ok plain =>
            match decrypt_batch ns self_replica_id ms' with
            | Err e => Err e
            | Ok es => Ok (remote_entry_of m plain (mutation_type_of plain) (Some (pm_sequence m)) ORemotePull :: es)
            end
        end
  end.

(** ** Snapshot catch-up *)

(** The latest applicable snapshot of every document. *)
Definition latest_snapshots (after : N) (snapshots : list Snapshot) : gmap doc_key Snapshot :=
  foldl (λ latest s,
    let key := (sn_doc_id s, sn_record_id s) in
    match latest !! key with
    | Some existing => if (sn_sequence existing <? sn_sequence s)%N then <[key := s]> latest else latest
    | None => <[key := s]> latest
    end) ∅ (filterb (λ s, (after <? sn_sequence s)%N) snapshots).

Definition seq_le (a b : Snapshot) : Prop := (sn_sequence a ≤ sn_sequence b)%N.
#[local] Instance seq_le_dec : RelDecision seq_le.
Proof. intros a b. apply N.le_dec. Defined.

Definition snapshot_entry (ns : string) (s : Snapshot) : OplogEntry :=
  OplogEntry_new ("snap-" +:+ pretty (sn_sequence s)) "" ns CrdtUpdate (sn_doc_id s) (sn_record_id s)
    (sn_bytes s) None (sn_created_at s) (Some (sn_sequence s)) Synced None (sn_created_at s) 0 OSnapshot "".

Definition try_fetch_snapshot (cids : nat → N) : M bool :=
  q ← sm_get;
  let after := dq_last_sequence q in
  if (dc_snapshot_threshold (dq_config q) =? 0)%N then mret false
  else
    r ← dq_pull_from (list_snapshots (dq_namespace q));
    match r with
    | Err _ => mret false
    | Ok snapshots =>
        let latest := latest_snapshots after snapshots in
        if bool_decide (latest = ∅) then mret false
        else
          let to_apply := stable_sort seq_le (map snd (map_to_list latest)) in
          let max_seq := default 0%N (sn_sequence <$> last to_apply) in
          for_each (λ '(i, s), dq_reconcile (apply_remote_update (cids i) (snapshot_entry (dq_namespace q) s)))
            (imap pair to_apply);;
          move_cursor max_seq;;
          mret true
    end.

(** ** Batches *)

(** The client ids drawn while a batch runs. *)
Record draws := Draws { dr_snapshot : nat → N; dr_batch : nat → N; dr_flush : nat → N }.

(** The mutations a pull returned. *)
Definition process_pulled (dr : draws) (mutations : list PendingMutation) : M nat :=
  q ← sm_get;
  entries ← match decrypt_batch (dq_namespace q) (dq_self_replica_id q) mutations with
            | Ok es => mret es
            | Err e => sm_fail (Fail e)
            end;
  (if bool_decide (entries = []) then mret tt else dq_reconcile (apply_batch (dr_batch dr) entries));;
  replay ← sm_gets dq_replay_mode;
  (if (replay : bool) then
     set_replay_mode false;;
     lock_changed;;
     flush_replay_notifications (dr_flush dr)
   else mret tt);;
  (match last mutations with
   | Some m => move_cursor (pm_sequence m)
   | None => mret tt
   end);;
  mret (length mutations).

Definition process_batch (dr : draws) : M nat :=
  check_generation;;
  after ← sm_gets dq_last_sequence;
  q ← sm_get;
  (if (0 <? dc_snapshot_threshold (dq_config q))%N then
     _ ← try_fault (try_fetch_snapshot (dr_snapshot dr)); mret tt
   else mret tt);;
  r ← dq_pull_from (pull (dq_namespace q) after (dc_batch_size (dq_config q)));
  match r with
  | Ok mutations => process_pulled dr mutations
  | Err NotAvailable => mret 0
  | Err e => sm_fail (Fail (ECoordinator ("download failed: " +:+ coordinator_error_debug debug_str e)))
  end.

(** ** Single mutations *)

Definition process_p2p_mutation (local_time cid : N) (m : PendingMutation) : M unit :=
  q ← sm_get;
  if String.eqb (pm_replica_id m) (dq_self_replica_id q) then mret tt
  else
    let skew := (if local_time <? pm_timestamp m then pm_timestamp m - local_time
                 else local_time - pm_timestamp m)%N in
    if (wrapping_add64 (dq_max_clock_skew q / 1000000) 0 <? skew)%N then
      sm_fail (Fail (EClockSkew (pm_timestamp m) local_time))
    else
      match decrypt (pm_encrypted_blob m) (dq_namespace q) with
      | Err e => sm_fail (Fail e)
      | Ok plain =>
          dq_reconcile (apply_remote_update cid (remote_entry_of m plain CrdtUpdate None OP2PBroadcast))
      end.

Definition process_push_mutation (cid : N) (m : PendingMutation) : M PushOutcome :=
  q ← sm_get;
  let cursor_before := dq_last_sequence q in
  if String.eqb (pm_replica_id m) (dq_self_replica_id q) then
    (if (cursor_before <? pm_sequence m)%N then move_cursor (pm_sequence m) else mret tt);;
    mret Contiguous
  else
    match decrypt (pm_encrypted_blob m) (dq_namespace q) with
    | Err e => sm_fail (Fail e)
    | Ok plain =>
        let entry := remote_entry_of m plain (mutation_type_of plain) (Some (pm_sequence m)) OPushMutation in
        if (pm_sequence m <=? cursor_before)%N then
          sm_modify (dq_with_skips (wrapping_add32 (dq_stale_skip_count q) 1));;
          mret Stale
        else
          dq_reconcile (apply_remote_update cid entry);;
          (if dq_replay_mode q then
             lock_changed;;
             sm_modify (dq_with_changed (λ d, {[(pm_doc_id m, pm_record_id m)]} ∪ d))
           else mret tt);;
          move_cursor (pm_sequence m);;
          sm_modify (dq_with_skips 0);;
          mret (if (pm_sequence m =? wrapping_add64 cursor_before 1)%N then Contiguous else GapDetected)
    end.

(** ** The download worker

    One turn of the loop of [start_download_worker]: a pushed mutation or a
    wake-up, then batches until one is empty or fails.  [rounds] bounds the
    batches of one turn. *)

(** The worker with its queue: whether the initial sync has been announced. *)
Record DownloadWorker := Worker { dw_queue : DownloadQueue; dw_synced : N; dw_announced : nat }.

Definition on_queue {A} (m : M A) : SM DownloadWorker (fault VaultSyncError) A :=
  zoom dw_queue (λ q w, Worker q (dw_synced w) (dw_announced w)) m.

(** [isfc.fetch_add(1) == 0], then the announcement. *)
Definition announce (w : DownloadWorker) : DownloadWorker :=
  Worker (dw_queue w) ((dw_synced w + 1) mod 256)
    (if (dw_synced w =? 0)%N then Datatypes.S (dw_announced w) else dw_announced w).

Fixpoint drain (rounds : nat) (dr : nat → draws) : SM DownloadWorker (fault VaultSyncError) bool :=
  match rounds with
  | 0 => mret false
  | Datatypes.S rounds' =>
      r ← try_fault (on_queue (process_batch (dr rounds')));
      match r with
      | Ok 0 => sm_modify announce;; mret true
      | Ok _ => drain rounds' dr
      | Err _ => mret true
      end
  end.

Definition worker_turn (rounds : nat) (dr : nat → draws) (cid : N) (wake : option PendingMutation) :
    SM DownloadWorker (fault VaultSyncError) bool :=
  needs_backfill ←
    match wake with
    | None => mret true
    | Some m =>
        r ← try_fault (on_queue (process_push_mutation cid m));
        w ← sm_get;
        mret match r with
             | Ok outcome =>
                 bool_decide (outcome = GapDetected) || (dw_synced w =? 0)%N || dq_replay_mode (dw_queue w)
             | Err _ => true
             end
    end;
  if (needs_backfill : bool) then drain rounds dr else mret true.
End download.
Arguments DownloadQueue : clear implicits.
Arguments DownloadWorker : clear implicits.
