(* ===== verification/DownloadTheory.v ===== *)
(** * What the download queue promises

    The worker merges every mutation of the coordinator's log above its cursor
    and then stops; and the cases in which the cursor passes mutations that
    were never merged. *)
From S2P Require Import Prelude F64 Types Storage Coordinator CoordinatorTheory SyncStateStore Upload CrdtValue Document SubscriptionEngine Reconciler ReconcilerTheory Download OpSet.

(** ** Merges in several steps *)

Section merges.
Context {Y : Yrs} {YS : YrsSpec Y}.

(** The entries of one document. *)
Definition keyed (key : doc_key) (es : list OplogEntry) : list OplogEntry :=
  filterb (λ e, bool_decide (entry_key e = key)) es.

(** The documents [docs] are [docs0] with the updates of [es] merged. *)
Definition merged_upto (docs0 docs : gmap doc_key bytes) (es : list OplogEntry) : Prop :=
  ∀ key, match keyed key es with
         | [] => docs !! key = docs0 !! key
         | l => ∃ b, docs !! key = Some b ∧ merged docs0 key l b
         end.

Lemma keyed_app key es1 es2 : keyed key (es1 ++ es2) = keyed key es1 ++ keyed key es2.
Proof. apply filterb_app. Qed.

Lemma merged_app docs0 docs key l1 l2 b1 b2 :
  merged docs0 key l1 b1 → docs !! key = Some b1 → merged docs key l2 b2 → merged docs0 key (l1 ++ l2) b2.
Proof.
  intros (d0 & us1 & d1 & Hst & Hus1 & -> & Hd1) Hdoc (d0' & us2 & d2 & Hst2 & Hus2 & -> & Hd2).
  unfold starts in Hst2. rewrite Hdoc in Hst2. destruct Hst2 as (d & Heq%y_encode_state_inj & Hd).
  exists d0, (us1 ++ us2), d2. split_and!; [done|by apply Forall2_app|done|].
  unfold y_apply_all in *. rewrite foldl_app. fold (y_apply_all us2 (y_apply_all us1 d0)).
  rewrite Hd2. apply y_apply_all_proper. by rewrite <-Hd, <-Heq, Hd1.
Qed.

Lemma merged_start docs0 docs key l b : docs !! key = docs0 !! key → merged docs key l b → merged docs0 key l b.
Proof. intros Heq (d0 & us & d & Hst & H). exists d0, us, d. split; [|done]. unfold starts in *. by rewrite <-Heq. Qed.

Lemma merged_upto_app docs0 docs docs' es1 es2 :
  merged_upto docs0 docs es1 → merged_upto docs docs' es2 → merged_upto docs0 docs' (es1 ++ es2).
Proof.
  intros H1 H2 key. specialize (H1 key). specialize (H2 key). rewrite keyed_app.
  destruct (keyed key es1) as [|e1 l1], (keyed key es2) as [|e2 l2]; simpl.
  - congruence.
  - destruct H2 as (b & Hb & Hm). exists b. split; [done|]. by apply (merged_start _ docs).
  - rewrite app_nil_r. destruct H1 as (b & Hb & Hm). exists b. by rewrite H2.
  - destruct H1 as (b1 & Hb1 & Hm1), H2 as (b2 & Hb2 & Hm2). exists b2. split; [done|].
    by apply (merged_app docs0 docs key (e1 :: l1) (e2 :: l2) b1).
Qed.

(** Each document stays within the limit while the entries are merged. *)
Definition fits_upto (docs0 : gmap doc_key bytes) (es : list OplogEntry) : Prop :=
  (∀ e, e ∈ es → loadable docs0 (entry_key e)) ∧
  (∀ key e l b, e :: l `prefix_of` keyed key es → merged docs0 key (e :: l) b → fits b).

Lemma fits_upto_loadable docs0 docs es1 es2 e :
  fits_upto docs0 (es1 ++ es2) → merged_upto docs0 docs es1 → e ∈ es2 → loadable docs (entry_key e).
Proof.
  intros [Hload Hfit] Hm He. specialize (Hm (entry_key e)). unfold loadable in *.
  destruct (keyed (entry_key e) es1) as [|e1 l1] eqn:Hk.
  - rewrite Hm. apply Hload. apply elem_of_app. by right.
  - destruct Hm as (b & -> & Hm). pose proof Hm as (d0 & us & d & _ & _ & -> & _). exists d. split; [done|].
    apply (Hfit (entry_key e) e1 l1); [|done]. rewrite keyed_app, Hk. by eexists.
Qed.
End merges.

Section theory.
Context {S C T : Type} {HS : Storage S} {HSpec : StorageSpec S} {HC : Coordinator C} {HCS : CoordinatorSpec C}
  {HT : SyncStateStore T} {HTS : SyncStateStoreSpec T} {Y : Yrs} {YS : YrsSpec Y}.
Context (decrypt : bytes → string → result bytes VaultSyncError) (debug_str : string → string).
Abbreviation queue := (DownloadQueue S C T).
Implicit Types q : queue.

(** ** One batch *)

Definition foreign (self : string) (m : PendingMutation) : bool := negb (String.eqb (pm_replica_id m) self).

(** What a mutation of another replica decrypts to. *)
Definition plain_of (ns : string) (m : PendingMutation) : bytes :=
  match decrypt (pm_encrypted_blob m) ns with Ok p => p | Err _ => [] end.
Definition entry_of (ns : string) (m : PendingMutation) : OplogEntry :=
  remote_entry_of m (plain_of ns m) (mutation_type_of (plain_of ns m)) (Some (pm_sequence m)) ORemotePull.

(** The entries the mutations of the other replicas become. *)
Definition entries_of (ns self : string) (ms : list PendingMutation) : list OplogEntry :=
  map (entry_of ns) (filterb (foreign self) ms).

(** The mutation decrypts to an update. *)
Definition decryptable (ns : string) (m : PendingMutation) : Prop :=
  ∃ u, decrypt (pm_encrypted_blob m) ns = Ok (plain_of ns m) ∧ carries (entry_of ns m) u.

Lemma decrypt_batch_ok ns self ms : (∀ m, m ∈ ms → foreign self m = true → decryptable ns m) →
  decrypt_batch decrypt ns self ms = Ok (entries_of ns self ms).
Proof.
  unfold entries_of. induction ms as [|m ms IH]; intros Hms; [done|]. cbn [decrypt_batch]. simpl.
  specialize (IH (λ m' Hm', Hms m' (list_elem_of_further _ _ _ Hm'))). unfold foreign in *.
  destruct (String.eqb (pm_replica_id m) self) eqn:Hself; simpl; [done|].
  destruct (Hms m ltac:(left) ltac:(by rewrite Hself)) as (u & -> & _). by rewrite IH.
Qed.

(** No snapshot above the cursor is offered, or they are switched off. *)
Definition no_catchup q : Prop :=
  dc_snapshot_threshold (dq_config q) = 0%N ∨
  ∃ l, list_snapshots (dq_namespace q) (dq_coordinator q) = (Ok l, dq_coordinator q) ∧
    Forall (λ s, (sn_sequence s ≤ dq_last_sequence q)%N) l.

(** The usual state: locks intact, no replay, no generations, no catch-up. *)
Record dq_steady q : Prop := {
  sd_reconciler : rec_healthy (dq_reconciler q);
  sd_changed : rw_poisoned (dq_replay_changed_docs q) = false;
  sd_generation : generation_id (dq_coordinator q) = "";
  sd_catchup : no_catchup q;
}.

Lemma with_coordinator_same q : dq_with_coordinator (dq_coordinator q) q = q.
Proof. by destruct q. Qed.

Lemma try_fetch_idle cids q : no_catchup q → (0 < dc_snapshot_threshold (dq_config q))%N →
  try_fetch_snapshot cids q = (Ok false, q).
Proof.
  intros [H0|(l & Hl & Hall)] Hpos; [lia|]. unfold try_fetch_snapshot. unfold mbind at 1, sm_bind at 1, sm_get at 1.
  destruct (N.eqb_spec (dc_snapshot_threshold (dq_config q)) 0); [lia|].
  unfold dq_pull_from. sm_unfold. rewrite Hl. unfold latest_snapshots. rewrite filterb_none.
  2: { intros s Hs. apply N.ltb_ge. by apply (proj1 (Forall_forall _ _) Hall). }
  simpl. by rewrite bool_decide_true, with_coordinator_same.
Qed.

Lemma process_batch_pull dr ms q : dq_steady q →
  pull (dq_namespace q) (dq_last_sequence q) (dc_batch_size (dq_config q)) (dq_coordinator q) =
    (Ok ms, dq_coordinator q) →
  process_batch decrypt debug_str dr q = process_pulled decrypt dr ms q.
Proof.
  intros [Hr Hc Hgen Hsnap] Hpull. unfold process_batch, check_generation.
  unfold mbind at 1, sm_bind at 1. unfold mbind at 1, sm_bind at 1, sm_get at 1. rewrite Hgen. simpl.
  unfold mbind at 1, sm_bind at 1, sm_gets at 1. unfold mbind at 1, sm_bind at 1, sm_get at 1.
  assert (Hskip : ((if (0 <? dc_snapshot_threshold (dq_config q))%N then
     _ ← try_fault (try_fetch_snapshot (dr_snapshot dr)); mret tt else mret tt) : SM queue _ unit) q = (Ok tt, q)).
  { destruct (N.ltb_spec 0 (dc_snapshot_threshold (dq_config q))); [|done].
    unfold mbind, sm_bind, try_fault. by rewrite try_fetch_idle. }
  erewrite sm_bind_ok by exact Hskip.
  erewrite sm_bind_ok.
  2: { unfold dq_pull_from. sm_unfold. rewrite Hpull. by rewrite with_coordinator_same. }
  done.
Qed.

(** The parts a batch without replay leaves alone. *)
Definition dq_static q q' : Prop :=
  dq_coordinator q' = dq_coordinator q ∧ dq_namespace q' = dq_namespace q ∧ dq_config q' = dq_config q ∧
  dq_self_replica_id q' = dq_self_replica_id q ∧ dq_replay_mode q' = dq_replay_mode q ∧
  dq_replay_changed_docs q' = dq_replay_changed_docs q.

Lemma dq_static_trans q1 q2 q3 : dq_static q1 q2 → dq_static q2 q3 → dq_static q1 q3.
Proof. intros (?&?&?&?&?&?) (?&?&?&?&?&?). unfold dq_static. split_and!; congruence. Qed.

Lemma move_cursor_ok seq q : ∃ q', move_cursor seq q = (Ok tt, q') ∧ dq_static q q' ∧
  dq_reconciler q' = dq_reconciler q ∧ dq_last_sequence q' = seq ∧ store_cursor (dq_sync_state_store q') = seq.
Proof.
  destruct (set_cursor_ok seq (dq_sync_state_store q)) as (t' & Hrun & Hc & _).
  eexists. unfold move_cursor. sm_unfold. rewrite Hrun. split; [reflexivity|]. unfold dq_static. by split_and!.
Qed.

(** The documents after a batch none of whose entries was seen. *)
Lemma apply_batch_unseen cids es (r : Reconciler S) : rec_healthy r →
  (∀ e, e ∈ es → loadable (rec_docs r) (entry_key e) ∧ (∃ u, carries e u) ∧ oe_id e ∉ rec_seen r) →
  ∃ r', apply_batch cids es r = (Ok tt, r') ∧ rec_healthy r' ∧ after_batch (oe_id <$> es) r r' ∧
    merged_upto (rec_docs r) (rec_docs r') es.
Proof.
  intros Hh Hes. destruct (apply_batch_ok cids es r Hh) as (r' & Hrun & Hh' & Hab & Hdocs).
  { intros e He. by destruct (Hes e He) as (? & ? & ?). }
  exists r'. split_and!; try done. intros key. specialize (Hdocs key).
  replace (keyed key es) with (batch_of (rec_seen r) key es); [done|].
  apply filterb_ext. intros e He. destruct (Hes e He) as (_ & _ & Hn). by rewrite bool_decide_false.
Qed.

Lemma entries_of_elem ns self ms e : e ∈ entries_of ns self ms →
  ∃ m, m ∈ ms ∧ foreign self m = true ∧ e = entry_of ns m.
Proof. intros (m & -> & [? ?]%elem_of_filterb)%list_elem_of_fmap. by exists m. Qed.

(** The conditions on the entries of a batch. *)
Definition mergeable (r : Reconciler S) (es : list OplogEntry) : Prop :=
  ∀ e, e ∈ es → loadable (rec_docs r) (entry_key e) ∧ oe_id e ∉ rec_seen r.

(** The step that merges the decrypted entries. *)
Lemma merge_entries_ok (cids : nat → N) es q : rec_healthy (dq_reconciler q) → mergeable (dq_reconciler q) es →
  (∀ e, e ∈ es → ∃ u, carries e u) →
  ∃ q', (if bool_decide (es = []) then mret tt else dq_reconcile (apply_batch cids es)) q = (Ok tt, q') ∧
    dq_static q q' ∧ dq_last_sequence q' = dq_last_sequence q ∧ dq_sync_state_store q' = dq_sync_state_store q ∧
    rec_healthy (dq_reconciler q') ∧ after_batch (oe_id <$> es) (dq_reconciler q) (dq_reconciler q') ∧
    merged_upto (rec_docs (dq_reconciler q)) (rec_docs (dq_reconciler q')) es.
Proof.
  intros Hh Hes Hc. case_bool_decide as He.
  { subst. exists q. unfold dq_static. split_and!; try done; apply after_batch_refl. }
  destruct (apply_batch_unseen cids es (dq_reconciler q) Hh) as (r' & Hrun & Hh' & Hab & Hm).
  { intros e Hin. destruct (Hes e Hin). split_and!; [done|by apply Hc|done]. }
  eexists. unfold dq_reconcile. sm_unfold. rewrite Hrun. split; [reflexivity|]. unfold dq_static. by split_and!.
Qed.

Lemma process_pulled_ok dr ms q : dq_steady q → dq_replay_mode q = false →
  let es := entries_of (dq_namespace q) (dq_self_replica_id q) ms in
  (∀ m, m ∈ ms → foreign (dq_self_replica_id q) m = true → decryptable (dq_namespace q) m) →
  mergeable (dq_reconciler q) es →
  ∃ q', process_pulled decrypt dr ms q = (Ok (length ms), q') ∧ dq_static q q' ∧
    dq_last_sequence q' = default (dq_last_sequence q) (pm_sequence <$> last ms) ∧
    (ms ≠ [] → store_cursor (dq_sync_state_store q') = dq_last_sequence q') ∧
    rec_healthy (dq_reconciler q') ∧ after_batch (oe_id <$> es) (dq_reconciler q) (dq_reconciler q') ∧
    merged_upto (rec_docs (dq_reconciler q)) (rec_docs (dq_reconciler q')) es.
Proof.
  intros Hst Hrep es Hdec Hmer. unfold process_pulled. unfold mbind at 1, sm_bind at 1, sm_get at 1.
  rewrite (decrypt_batch_ok _ _ _ Hdec). fold es. cbn [mbind].
  erewrite sm_bind_ok by reflexivity.
  destruct (merge_entries_ok (dr_batch dr) es q) as (q1 & Hrun & Hs1 & Hl1 & Hc1 & Hh1 & Hab & Hm).
  { apply Hst. } { done. }
  { intros e (m & Hm & Hf & ->)%entries_of_elem. destruct (Hdec m Hm Hf) as (u & _ & Hu). by exists u. }
  erewrite sm_bind_ok by exact Hrun. unfold sm_gets at 1. unfold mbind at 1, sm_bind at 1.
  pose proof Hs1 as (_ & _ & _ & _ & Hrep1 & _). rewrite Hrep1, Hrep. erewrite sm_bind_ok by reflexivity.
  destruct (last ms) as [m|] eqn:Hlast; simpl.
  - destruct (move_cursor_ok (pm_sequence m) q1) as (q2 & Hrun2 & Hs2 & Hr2 & Hl2 & Hc2).
    exists q2. erewrite sm_bind_ok by exact Hrun2. rewrite Hr2. split_and!; try done; [by apply (dq_static_trans q q1)|].
    intros _. congruence.
  - exists q1. erewrite sm_bind_ok by reflexivity. split_and!; try done. intros Hne. by apply last_None in Hlast.
Qed.

(** ** The worker *)

(** The mutations above the cursor. *)
Definition above (q : queue) : list PendingMutation :=
  filterb (λ m, (dq_last_sequence q <? pm_sequence m)%N) (co_log (dq_namespace q) (dq_coordinator q)).
Definition above_entries (q : queue) : list OplogEntry :=
  entries_of (dq_namespace q) (dq_self_replica_id q) (above q).

(** The queue can merge what lies above its cursor; [docs0] are the documents
    before the entries [es] were merged. *)
Record dq_ready (docs0 : gmap doc_key bytes) (es : list OplogEntry) q : Prop := {
  rd_steady : dq_steady q;
  rd_replay : dq_replay_mode q = false;
  rd_coord : co_ready 0 (dq_coordinator q);
  rd_batch : 0 < dc_batch_size (dq_config q);
  rd_cursor : (dq_last_sequence q < U64_MAX)%N;
  rd_decrypt : ∀ m, m ∈ above q → foreign (dq_self_replica_id q) m = true → decryptable (dq_namespace q) m;
  rd_fits : fits_upto docs0 (es ++ above_entries q);
  rd_merged : merged_upto docs0 (rec_docs (dq_reconciler q)) es;
  rd_unseen : ∀ e, e ∈ above_entries q → oe_id e ∉ rec_seen (dq_reconciler q);
}.

Lemma entries_of_app ns self l1 l2 : entries_of ns self (l1 ++ l2) = entries_of ns self l1 ++ entries_of ns self l2.
Proof. unfold entries_of. by rewrite filterb_app, map_app. Qed.

Lemma entries_of_ids ns self ms : oe_id <$> entries_of ns self ms = pm_id <$> filterb (foreign self) ms.
Proof. unfold entries_of. induction (filterb (foreign self) ms) as [|m l IH]; [done|]. by cbn; f_equal. Qed.

Lemma above_entry docs0 es q m : dq_ready docs0 es q → m ∈ above q →
  (dq_last_sequence q < pm_sequence m < U64_MAX)%N.
Proof.
  intros Hrd [Hlt%N.ltb_lt Hin]%elem_of_filterb. destruct (co_entry 0 _ _ m (rd_coord _ _ _ Hrd) Hin) as (_ & ? & ?). lia.
Qed.

Lemma dq_steady_mono q q' : dq_steady q → dq_static q q' → rec_healthy (dq_reconciler q') →
  (dq_last_sequence q ≤ dq_last_sequence q')%N → dq_steady q'.
Proof.
  intros [Hr Hcp Hgen Hcat] (Hc & Hns & Hcf & Hself & Hrep & Hch) Hh Hle.
  split; [done|by rewrite Hch|by rewrite Hc|]. unfold no_catchup in *. rewrite Hc, Hns, Hcf.
  destruct Hcat as [?|(l & Hl1 & Hl2)]; [by left|right]. exists l. split; [done|].
  eapply Forall_impl; [exact Hl2|]. simpl. lia.
Qed.

(** Past a page, what is above the cursor is what is left. *)
Lemma above_rest docs0 es q q' page rest m : dq_ready docs0 es q → dq_static q q' →
  above q = page ++ m :: rest → dq_last_sequence q' = pm_sequence m → above q' = rest.
Proof.
  intros Hrd (Hc & Hns & _) Habove Hl.
  destruct (above_entry _ _ _ m Hrd) as [Hlt _]; [rewrite Habove; apply elem_of_app; right; left|].
  unfold above in *. rewrite Hc, Hns, Hl. rewrite <-(filterb_mono_above (dq_last_sequence q)) by lia. rewrite Habove.
  apply (filterb_above_page (dq_last_sequence q)); rewrite <-Habove.
  - eapply StronglySorted_sublist, (co_sorted 0); [apply sublist_filterb|apply Hrd].
  - apply Forall_forall. by intros x [Hx%N.ltb_lt _]%elem_of_filterb.
Qed.

Lemma dq_ready_step docs0 es q q' page rest m : dq_ready docs0 es q → dq_static q q' →
  above q = (page ++ [m]) ++ rest → dq_last_sequence q' = pm_sequence m →
  rec_healthy (dq_reconciler q') →
  after_batch (oe_id <$> entries_of (dq_namespace q) (dq_self_replica_id q) (page ++ [m]))
    (dq_reconciler q) (dq_reconciler q') →
  merged_upto (rec_docs (dq_reconciler q)) (rec_docs (dq_reconciler q'))
    (entries_of (dq_namespace q) (dq_self_replica_id q) (page ++ [m])) →
  dq_ready docs0 (es ++ entries_of (dq_namespace q) (dq_self_replica_id q) (page ++ [m])) q' ∧ above q' = rest.
Proof.
  intros Hrd Hs Habove Hl Hh (_ & Hseen & _) Hm.
  assert (Hrest : above q' = rest).
  { apply (above_rest docs0 es q q' page rest m); try done. by rewrite Habove, <-app_assoc. }
  assert (Hin : m ∈ above q) by (rewrite Habove; apply elem_of_app; left; apply elem_of_app; right; left).
  pose proof (above_entry _ _ _ m Hrd Hin) as Hlt.
  assert (Hents : above_entries q = entries_of (dq_namespace q) (dq_self_replica_id q) (page ++ [m]) ++ above_entries q').
  { unfold above_entries. rewrite Hrest, Habove, entries_of_app. by destruct Hs as (_ & -> & _ & -> & _). }
  split; [|done]. pose proof Hs as (Hc & Hns & Hcf & Hself & Hrep & Hch). destruct Hrd as [Hst Hrep0 Hco Hb Hcur Hdec Hfit Hm0 Hun].
  split; try (by rewrite ?Hc, ?Hcf, ?Hrep).
  - apply (dq_steady_mono q); done || lia.
  - rewrite Hl. lia.
  - intros x Hx. rewrite Hself, Hns. apply Hdec. rewrite Habove. apply elem_of_app. right. by rewrite <-Hrest.
  - rewrite <-app_assoc, <-Hents. done.
  - by apply (merged_upto_app docs0 (rec_docs (dq_reconciler q))).
  - intros e He [Hin'|Hin']%Hseen; [apply (Hun e); [|done]; rewrite Hents; apply elem_of_app; by right|].
    assert (Hnd : NoDup (oe_id <$> above_entries q)).
    { unfold above_entries. rewrite entries_of_ids. eapply sublist_NoDup; [apply (co_ids 0 (dq_namespace q) _ Hco)|].
      apply fmap_sublist. etrans; [apply sublist_filterb|apply sublist_filterb]. }
    rewrite Hents, fmap_app in Hnd. apply NoDup_app in Hnd as (_ & Hdis & _). apply (Hdis _ Hin').
    by apply list_elem_of_fmap_2.
Qed.

(** A batch pulls the next page. *)
Lemma process_batch_page docs0 es dr q : dq_ready docs0 es q →
  process_batch decrypt debug_str dr q =
    process_pulled decrypt dr (take (dc_batch_size (dq_config q)) (above q)) q.
Proof.
  intros Hrd. apply process_batch_pull; [apply Hrd|]. apply (co_pull_ok 0); apply Hrd.
Qed.

Lemma page_mergeable docs0 es q n : dq_ready docs0 es q →
  mergeable (dq_reconciler q) (entries_of (dq_namespace q) (dq_self_replica_id q) (take n (above q))).
Proof.
  intros Hrd e He.
  assert (Hin : e ∈ above_entries q).
  { unfold above_entries. rewrite <-(take_drop n (above q)), entries_of_app. apply elem_of_app. by left. }
  split; [|by apply (rd_unseen _ _ _ Hrd)].
  apply (fits_upto_loadable docs0 _ es (above_entries q)); [apply Hrd|apply Hrd|done].
Qed.

Definition on_q (w : DownloadWorker S C T) (q : queue) : DownloadWorker S C T := Worker q (dw_synced w) (dw_announced w).

Lemma drain_ok rounds dr docs0 es w : dq_ready docs0 es (dw_queue w) →
  length (above (dw_queue w)) < rounds →
  ∃ q', drain decrypt debug_str rounds dr w = (Ok true, announce (on_q w q')) ∧ dq_static (dw_queue w) q' ∧
    above q' = [] ∧ (dq_last_sequence (dw_queue w) ≤ dq_last_sequence q')%N ∧
    rec_healthy (dq_reconciler q') ∧
    merged_upto docs0 (rec_docs (dq_reconciler q')) (es ++ above_entries (dw_queue w)).
Proof.
  revert es w. induction rounds as [|rounds IH]; intros es w Hrd Hlen; [lia|]. cbn [drain].
  destruct w as [q syn ann]. cbn [dw_queue] in *. set (n := dc_batch_size (dq_config q)) in *.
  destruct (process_pulled_ok (dr rounds) (take n (above q)) q) as (q1 & Hrun & Hs1 & Hl1 & _ & Hh1 & Hab1 & Hm1).
  { apply Hrd. } { apply Hrd. }
  { intros m Hm. apply (rd_decrypt _ _ _ Hrd). by eapply subseteq_take. }
  { by apply (page_mergeable docs0 es). }
  assert (Htry : try_fault (on_queue (process_batch decrypt debug_str (dr rounds))) (Worker q syn ann) =
    (Ok (Ok (length (take n (above q)))), Worker q1 syn ann)).
  { unfold try_fault, on_queue, zoom. cbn [dw_queue]. rewrite (process_batch_page docs0 es _ _ Hrd). fold n. by rewrite Hrun. }
  erewrite sm_bind_ok by exact Htry. destruct (last (take n (above q))) as [m|] eqn:Hlast.
  - apply last_Some in Hlast as [page Hpage].
    destruct (dq_ready_step docs0 es q q1 page (drop n (above q)) m) as [Hrd1 Habove1]; try done.
    { by rewrite <-Hpage, take_drop. }
    { by rewrite <-Hpage. } { by rewrite <-Hpage. }
    rewrite Hpage, length_app, Nat.add_comm. cbn [length Nat.add].
    destruct (IH _ (Worker q1 syn ann) Hrd1) as (q' & Hrun' & Hs' & Ha' & Hle' & Hh' & Hm').
    { cbn [dw_queue]. rewrite Habove1, length_drop. pose proof (rd_batch _ _ _ Hrd) as Hb. fold n in Hb.
      apply (f_equal length) in Hpage. rewrite length_take, length_app in Hpage. simpl in Hpage. lia. }
    cbn [dw_queue] in *. exists q'. split_and!; try done; [by apply (dq_static_trans q q1)| |].
    + simpl in Hl1.
      pose proof (above_entry _ _ _ m Hrd) as Hlt. rewrite Hl1 in Hle'. destruct Hlt; [|lia].
      eapply subseteq_take. rewrite Hpage. apply elem_of_app. right. left.
    + rewrite <-app_assoc in Hm'. revert Hm'. unfold above_entries.
      rewrite Habove1, <-Hpage. destruct Hs1 as (_ & -> & _ & -> & _). by rewrite <-entries_of_app, take_drop.
  - apply last_None in Hlast. rewrite Hlast.
    assert (Hnil : above q = []).
    { destruct (above q); [done|]. pose proof (rd_batch _ _ _ Hrd) as Hb. fold n in Hb. destruct n; [lia|done]. }
    exists q1. rewrite Hlast in *. simpl in Hl1. split_and!; try done.
    + unfold above in *. destruct Hs1 as (-> & -> & _). by rewrite Hl1.
    + lia.
    + apply (merged_upto_app docs0 (rec_docs (dq_reconciler q))); [apply Hrd|]. unfold above_entries. by rewrite Hnil.
Qed.

(** ** Pushed mutations *)

Definition mutation_key (m : PendingMutation) : doc_key := (pm_doc_id m, pm_record_id m).

Lemma process_push_ok cid m q b : rec_healthy (dq_reconciler q) → dq_replay_mode q = false →
  foreign (dq_self_replica_id q) m = true → decryptable (dq_namespace q) m →
  (dq_last_sequence q < pm_sequence m < U64_MAX)%N → pm_id m ∉ rec_seen (dq_reconciler q) →
  rec_docs (dq_reconciler q) !! mutation_key m = Some b → loadable (rec_docs (dq_reconciler q)) (mutation_key m) →
  ∃ q', process_push_mutation decrypt cid m q =
      (Ok (if (pm_sequence m =? dq_last_sequence q + 1)%N then Contiguous else GapDetected), q') ∧
    dq_static q q' ∧ dq_last_sequence q' = pm_sequence m ∧ rec_healthy (dq_reconciler q') ∧
    ∀ key, key ≠ mutation_key m → rec_docs (dq_reconciler q') !! key = rec_docs (dq_reconciler q) !! key.
Proof.
  intros Hh Hrep Hf (u & Hdec & Hu) Hseq Hun Hb Hload. unfold process_push_mutation.
  unfold mbind at 1, sm_bind at 1, sm_get at 1. unfold foreign in Hf. apply negb_true_iff in Hf. rewrite Hf, Hdec. cbv zeta.
  destruct (N.leb_spec (pm_sequence m) (dq_last_sequence q)); [lia|].
  unfold loadable in Hload. rewrite Hb in Hload. destruct Hload as (d0 & -> & Hfit).
  set (e := remote_entry_of m (plain_of (dq_namespace q) m) _ _ OPushMutation).
  destruct (reconcile_one_ok cid e (oe_yrs_update e) u (dq_reconciler q) d0) as (r1 & doc & Hrun & Hh1 & _ & Hv1 & _ & _);
    try done; [apply Hu|apply Hu|].
  erewrite sm_bind_ok. 2: { unfold dq_reconcile, zoom, apply_remote_update. by rewrite Hrun. }
  rewrite Hrep. erewrite sm_bind_ok by reflexivity.
  destruct (move_cursor_ok (pm_sequence m) (dq_with_reconciler r1 q)) as (q2 & Hrun2 & Hs2 & Hr2 & Hl2 & _).
  erewrite sm_bind_ok by exact Hrun2. eexists (dq_with_skips 0 q2). split.
  { unfold mbind, sm_bind, sm_modify. rewrite wrapping_add64_small by lia. reflexivity. }
  destruct Hs2 as (?&?&?&?&?&?). unfold dq_static. cbn. rewrite Hr2. split_and!; try done.
  intros key Hk. cbn. unfold rec_docs. rewrite Hv1. cbn. by rewrite lookup_insert_ne by done.
Qed.

Lemma decrypt_batch_err ns self ms m e : m ∈ ms → foreign self m = true →
  decrypt (pm_encrypted_blob m) ns = Err e → ∃ e', decrypt_batch decrypt ns self ms = Err e'.
Proof.
  intros Hin Hf He. apply negb_true_iff in Hf. induction ms as [|x ms IH]; [by apply elem_of_nil in Hin|].
  cbn [decrypt_batch]. apply elem_of_cons in Hin as [->|Hin].
  - rewrite Hf, He. by eexists.
  - destruct (IH Hin) as [e' ->]. destruct (String.eqb (pm_replica_id x) self); [by eexists|].
    destruct (decrypt (pm_encrypted_blob x) ns); by eexists.
Qed.

Lemma above_sorted docs0 es q : dq_ready docs0 es q → StronglySorted seq_lt (above q).
Proof. intros Hrd. eapply StronglySorted_sublist, (co_sorted 0); [apply sublist_filterb|apply Hrd]. Qed.

(** Nothing above the cursor: trivially ready. *)
Lemma dq_ready_done docs0 es q q' m : dq_ready docs0 es q → dq_static q q' → m ∈ above q →
  dq_last_sequence q' = pm_sequence m → rec_healthy (dq_reconciler q') → above q' = [] →
  dq_ready (rec_docs (dq_reconciler q')) [] q'.
Proof.
  intros Hrd (Hc & Hns & Hcf & Hself & Hrep & Hch) Hin Hl Hh Ha. pose proof (above_entry _ _ _ m Hrd Hin) as Hlt.
  destruct Hrd as [Hst Hrep0 Hco Hb Hcur _ _ _ _].
  split; try (by rewrite ?Hc, ?Hcf, ?Hrep).
  - apply (dq_steady_mono q); done || lia.
  - rewrite Hl. lia.
  - rewrite Ha. by intros ? ?%elem_of_nil.
  - unfold above_entries. rewrite Ha. split; [by intros ? ?%elem_of_nil|]. by intros key e l b ?%prefix_nil_inv.
  - unfold above_entries. rewrite Ha. by intros ? ?%elem_of_nil.
Qed.

(** ** Properties *)

(** One undecryptable mutation stops the download: while the page above the
    cursor holds a mutation of another replica that does not decrypt, every batch
    fails, merges nothing and leaves the cursor where it is, and so does every
    turn of the worker. *)
Theorem undecryptable_blocks_download ms m e (q : queue) :
  dq_steady q →
  pull (dq_namespace q) (dq_last_sequence q) (dc_batch_size (dq_config q)) (dq_coordinator q) =
    (Ok ms, dq_coordinator q) →
  m ∈ ms → foreign (dq_self_replica_id q) m = true → decrypt (pm_encrypted_blob m) (dq_namespace q) = Err e →
  ∃ e', (∀ dr, process_batch decrypt debug_str dr q = (Err (Fail e'), q)) ∧
    ∀ rounds dr cid syn ann, worker_turn decrypt debug_str (Datatypes.S rounds) dr cid None (Worker q syn ann) =
      (Ok true, Worker q syn ann).
Proof.
  intros Hst Hpull Hin Hf He. destruct (decrypt_batch_err _ _ ms m e Hin Hf He) as [e' Hdec]. exists e'.
  assert (Hrun : ∀ dr, process_batch decrypt debug_str dr q = (Err (Fail e'), q)).
  { intros dr. rewrite (process_batch_pull dr ms q Hst Hpull). unfold process_pulled.
    unfold mbind at 1, sm_bind at 1, sm_get at 1. by rewrite Hdec. }
  split; [done|]. intros rounds dr cid syn ann. unfold worker_turn. erewrite sm_bind_ok by reflexivity. cbn iota.
  cbn [drain]. erewrite sm_bind_ok. 2: { unfold try_fault, on_queue, zoom. cbn [dw_queue]. by rewrite Hrun. }
  done.
Qed.

(** C3: The worker catches up with what it can merge, and stops where it cannot.
    With working storage and locks, no replay going on, and a coordinator that has
    no generation id and offers no snapshot newer than the cursor (or with
    snapshots switched off): if every mutation of another replica above the
    cursor decrypts to an update, was not merged before in another way (from a
    peer, say), and leaves its document within the limit for snapshots, a wake-up
    pulls batch after batch and stops after at most one round more than there are
    mutations; then nothing is left above the cursor, every document is the one
    stored before with exactly the updates of the other replicas' mutations above
    the old cursor merged into it, and the initial sync is announced the first
    time.  But if the next batch holds a mutation of another replica that does not
    decrypt, the wake-up changes nothing: no mutation of the batch is merged, the
    cursor stays, and nothing is announced. *)
Theorem download_catches_up rounds dr cid (w : DownloadWorker S C T) : let q := dw_queue w in
  (dq_ready (rec_docs (dq_reconciler q)) [] q → length (above q) < rounds →
   ∃ w', worker_turn decrypt debug_str rounds dr cid None w = (Ok true, w') ∧ above (dw_queue w') = [] ∧
     (dq_last_sequence q ≤ dq_last_sequence (dw_queue w'))%N ∧
     merged_upto (rec_docs (dq_reconciler q)) (rec_docs (dq_reconciler (dw_queue w'))) (above_entries q) ∧
     (dw_synced w = 0%N → dw_announced w' = Datatypes.S (dw_announced w))) ∧
  (dq_steady q → co_ready 0 (dq_coordinator q) → (dq_last_sequence q < U64_MAX)%N → 0 < rounds →
   ∀ m e, m ∈ take (dc_batch_size (dq_config q)) (above q) → foreign (dq_self_replica_id q) m = true →
     decrypt (pm_encrypted_blob m) (dq_namespace q) = Err e →
     worker_turn decrypt debug_str rounds dr cid None w = (Ok true, w)).
Proof.
  intros q. split.
  - intros Hrd Hlen. unfold worker_turn. erewrite sm_bind_ok by reflexivity. cbn iota.
    destruct (drain_ok rounds dr _ _ w Hrd Hlen) as (q' & Hrun & _ & Ha & Hle & _ & Hm).
    eexists. split; [exact Hrun|]. split_and!; try done. intros H0. unfold announce. cbn. by rewrite H0.
  - intros Hst Hco Hcur Hr m e Hin Hf He. destruct rounds as [|rounds]; [lia|].
    destruct (undecryptable_blocks_download (take (dc_batch_size (dq_config q)) (above q)) m e q) as (e' & _ & Hturn);
      [done|by apply (co_pull_ok 0)|done..|].
    destruct w as [q0 syn ann]. apply Hturn.
Qed.

(** A gap is never filled: when a pushed mutation arrives ahead of others, the
    queue merges it, moves the cursor to it and reports the gap; the batches the
    worker then pulls start above it, so the documents of the mutations in the
    gap stay as they were, and nothing is left above the cursor. *)
Theorem push_gap_never_filled rounds dr cid m gap b (w : DownloadWorker S C T) :
  let q := dw_queue w in
  dq_ready (rec_docs (dq_reconciler q)) [] q → above q = gap ++ [m] → gap ≠ [] →
  foreign (dq_self_replica_id q) m = true → rec_docs (dq_reconciler q) !! mutation_key m = Some b → 0 < rounds →
  ∃ q1 w', process_push_mutation decrypt cid m q = (Ok GapDetected, q1) ∧
    worker_turn decrypt debug_str rounds dr cid (Some m) w = (Ok true, w') ∧
    above (dw_queue w') = [] ∧
    ∀ key, key ≠ mutation_key m →
      rec_docs (dq_reconciler (dw_queue w')) !! key = rec_docs (dq_reconciler q) !! key.
Proof.
  intros q Hrd Habove Hgap Hf Hb Hr. destruct w as [q0 syn ann]. cbn in q. subst q. cbn [dw_queue] in *.
  assert (Hin : m ∈ above q0) by (rewrite Habove; apply elem_of_app; right; left).
  assert (Hent : entry_of (dq_namespace q0) m ∈ above_entries q0).
  { apply list_elem_of_fmap_2. by apply elem_of_filterb. }
  destruct (process_push_ok cid m q0 b) as (q1 & Hrun & Hs1 & Hl1 & Hh1 & Hd1); try apply Hrd; try done.
  { by apply (above_entry _ _ _ _ Hrd). } { apply (rd_unseen _ _ _ Hrd _ Hent). }
  { apply (fits_upto_loadable _ _ [] _ _ (rd_fits _ _ _ Hrd) (rd_merged _ _ _ Hrd) Hent). }
  assert (Ha1 : above q1 = []) by (by apply (above_rest _ _ q0 q1 gap [] m Hrd)).
  assert (Hrd1 : dq_ready (rec_docs (dq_reconciler q1)) [] q1) by (by apply (dq_ready_done _ _ q0 q1 m Hrd)).
  destruct (N.eqb_spec (pm_sequence m) (dq_last_sequence q0 + 1)) as [Heq|_].
  { exfalso. destruct gap as [|x gap]; [done|].
    pose proof (above_entry _ _ _ x Hrd ltac:(rewrite Habove; left)) as Hx.
    pose proof (above_sorted _ _ _ Hrd) as Hsort. rewrite Habove in Hsort.
    inversion Hsort as [|?? _ Hall]; subst. pose proof (proj1 (Forall_forall _ _) Hall m) as Hxm.
    unfold seq_lt in Hxm. destruct Hx. enough (pm_sequence x < pm_sequence m)%N by lia.
    apply Hxm. apply elem_of_app. right. left. }
  destruct (drain_ok rounds dr _ _ (Worker q1 syn ann) Hrd1) as (q' & Hrun' & _ & Ha' & _ & _ & Hm').
  { cbn [dw_queue]. by rewrite Ha1. }
  eexists q1, _. split; [exact Hrun|]. split.
  { unfold worker_turn. rewrite (sm_bind_ok _ _ _ true (Worker q1 syn ann)); [exact Hrun'|].
    unfold mbind, sm_bind, try_fault, on_queue, zoom. cbn [dw_queue]. rewrite Hrun. reflexivity. }
  split; [done|]. intros key Hk. cbn. rewrite <-Hd1 by done. specialize (Hm' key).
  unfold above_entries in Hm'. cbn [dw_queue] in Hm'. by rewrite Ha1 in Hm'.
Qed.

(** Replay swallows the notifications: the batch that ends replay mode merges
    its mutations with notifications suppressed, forgets which documents changed
    and only then looks for documents to notify, so that no notification is sent
    however many documents changed during the replay. *)
Theorem replay_notifications_lost dr ms (q : queue) :
  dq_steady q → dq_replay_mode q = true → rc_fire_suppressed (dq_reconciler q) = true →
  let es := entries_of (dq_namespace q) (dq_self_replica_id q) ms in
  (∀ m, m ∈ ms → foreign (dq_self_replica_id q) m = true → decryptable (dq_namespace q) m) →
  mergeable (dq_reconciler q) es →
  ∃ q', process_pulled decrypt dr ms q = (Ok (length ms), q') ∧ dq_replay_mode q' = false ∧
    merged_upto (rec_docs (dq_reconciler q)) (rec_docs (dq_reconciler q')) es ∧
    rw_val (dq_replay_changed_docs q') = ∅ ∧ rc_notified (dq_reconciler q') = rc_notified (dq_reconciler q).
Proof.
  intros Hst Hrep Hsup es Hdec Hmer. unfold process_pulled. unfold mbind at 1, sm_bind at 1, sm_get at 1.
  rewrite (decrypt_batch_ok _ _ _ Hdec). fold es. erewrite sm_bind_ok by reflexivity.
  destruct (merge_entries_ok (dr_batch dr) es q) as (q1 & Hrun & Hs1 & Hl1 & Hc1 & Hh1 & (_ & _ & Hab) & Hm).
  { apply Hst. } { done. }
  { intros e (m & Hm & Hf & ->)%entries_of_elem. destruct (Hdec m Hm Hf) as (u & _ & Hu). by exists u. }
  specialize (Hab Hsup).
  erewrite sm_bind_ok by exact Hrun. unfold sm_gets at 1. unfold mbind at 1, sm_bind at 1.
  pose proof Hs1 as (_ & _ & _ & _ & Hrep1 & Hch1). rewrite Hrep1, Hrep.
  set (q2 := dq_with_changed (λ _, ∅) (dq_with_reconciler (set_fire_suppressed false (dq_reconciler q1)) (dq_with_replay false q1))).
  assert (Hq2 : (set_replay_mode false;; lock_changed;; flush_replay_notifications (dr_flush dr)) q1 = (Ok tt, q2)).
  { unfold set_replay_mode, flush_replay_notifications, lock_changed, rw_lock. sm_unfold. cbn.
    assert (Hp : rw_poisoned (dq_replay_changed_docs q1) = false) by (rewrite Hch1; apply Hst).
    rewrite Hp. cbn. rewrite Hp. cbn. by rewrite Hp. }
  erewrite sm_bind_ok by exact Hq2. destruct (last ms) as [m|].
  - destruct (move_cursor_ok (pm_sequence m) q2) as (q3 & Hrun3 & Hs3 & Hr3 & _). exists q3.
    erewrite sm_bind_ok by exact Hrun3. rewrite Hr3. destruct Hs3 as (_ & _ & _ & _ & Hs3 & ->). by rewrite Hs3.
  - exists q2. by erewrite sm_bind_ok by reflexivity.
Qed.
End theory.

(** ** Witnesses *)

Definition mut_of (e : OplogEntry) : EncryptedMutation :=
  EncryptedMutation_new (oe_id e) "ns" "r2" (oe_doc_id e) (oe_record_id e) (oe_yrs_update e) 5 0 1.

(** An edit of a second document. *)
Definition other_doc : CRDTDocument := document_new 1 "todos" "r2" 1.
Definition edit_other : OplogEntry :=
  let e := remote_entry "x" (set_field "title" (VString "z") other_doc).1 in
  OplogEntry_new (oe_id e) "r2" "ns" CrdtUpdate "todos" "r2" (oe_yrs_update e) None 5 (Some 1%N) Pending None 5 1 ORemotePull "".

Definition worker_coord : InMemoryCoordinator.t :=
  execs InMemoryCoordinator.new [CPush "ns" [mut_of edit_other; mut_of edit_a]].

Definition worker_docs : gmap doc_key bytes :=
  {[("todos", "r1") := to_snapshot stored_doc; ("todos", "r2") := to_snapshot other_doc]}.

Definition worker_rec (suppressed : bool) : Reconciler InMemoryStorage.t :=
  Rec (InMemoryStorage.mk (rw_new worker_docs) (rw_new []) (rw_new ∅) (rw_new ∅) (rw_new []) (rw_new []))
    (rw_new engine_new) (rw_new (∅, [])) suppressed [].

Definition worker_queue (replay : bool) : DownloadQueue InMemoryStorage.t InMemoryCoordinator.t InMemorySyncStateStore.t :=
  DQ worker_coord (InMemorySyncStateStore.with_cursor 0) "ns" 0 download_config_default (worker_rec replay)
    1000 "r1" replay (rw_new ∅) 0.

(** Blobs in the clear. *)
Definition clear_decrypt (b : bytes) (_ : string) : result bytes VaultSyncError := Ok b.

Lemma merged_fits docs0 key es us (d0 : ydoc) b : docs0 !! key = Some (y_encode_state d0) →
  Forall2 carries es us → merged docs0 key es b → fits (y_encode_state (y_apply_all us d0)) → fits b.
Proof.
  intros Hdoc Hus (d1 & us' & d & Hst & Hus' & -> & Hd) Hfit. apply (opset_fits _ _ ltac:(exact Hd)).
  unfold starts in Hst. rewrite Hdoc in Hst. destruct Hst as (d2 & Heq%y_encode_state_inj & Hd2).
  assert (us' = us) as ->.
  { clear -Hus Hus'. revert us' Hus'. induction Hus as [|e u es us [Hu _] Hus IH]; intros us' Hus'; inversion Hus' as [|? u' ? us0 [Hu' _] H0]; subst; [done|].
    f_equal; [congruence|by apply IH]. }
  revert Hfit. apply opset_fits, y_apply_all_proper. by rewrite <-Hd2, <-Heq.
Qed.

Definition pm_of (seq : N) (e : OplogEntry) : PendingMutation :=
  PendingMutation_new (oe_id e) "ns" seq (oe_doc_id e) (oe_record_id e) (oe_yrs_update e) 5 1 "r2".

Lemma worker_above b : above (worker_queue b) = [pm_of 1 edit_other; pm_of 2 edit_a].
Proof. destruct b; vm_compute; reflexivity. Qed.

Lemma worker_entries b : above_entries clear_decrypt (worker_queue b) =
  [entry_of clear_decrypt "ns" (pm_of 1 edit_other); entry_of clear_decrypt "ns" (pm_of 2 edit_a)].
Proof. unfold above_entries. by rewrite worker_above. Qed.

Lemma worker_decryptable m : m ∈ [pm_of 1 edit_other; pm_of 2 edit_a] → decryptable clear_decrypt "ns" m.
Proof.
  intros [->|[->|[]%elem_of_nil]%elem_of_cons]%elem_of_cons;
    (eexists; split; [reflexivity|]; apply readable_carries; vm_compute; reflexivity).
Qed.

Lemma worker_steady b : dq_steady (worker_queue b).
Proof.
  split; [by repeat split|done|done|]. right. exists []. split; [|by constructor]. vm_compute. reflexivity.
Qed.

Lemma worker_fits es : es = [entry_of clear_decrypt "ns" (pm_of 1 edit_other); entry_of clear_decrypt "ns" (pm_of 2 edit_a)] →
  fits_upto worker_docs es.
Proof.
  intros ->. set (ex := entry_of clear_decrypt "ns" (pm_of 1 edit_other)). set (ea := entry_of clear_decrypt "ns" (pm_of 2 edit_a)).
  assert (Hx : worker_docs !! entry_key ex = Some (y_encode_state (cd_inner other_doc))) by reflexivity.
  assert (Ha : worker_docs !! entry_key ea = Some (y_encode_state (cd_inner stored_doc))) by reflexivity.
  assert (Cx : carries ex (entry_update ex)) by (apply readable_carries; vm_compute; reflexivity).
  assert (Ca : carries ea (entry_update ea)) by (apply readable_carries; vm_compute; reflexivity).
  assert (Fx : Forall2 carries [ex] [entry_update ex]) by (constructor; [exact Cx|constructor]).
  assert (Fa : Forall2 carries [ea] [entry_update ea]) by (constructor; [exact Ca|constructor]).
  split.
  - intros e [->|[->|[]%elem_of_nil]%elem_of_cons]%elem_of_cons; unfold loadable;
      [rewrite Hx|rewrite Ha]; eexists; (split; [reflexivity|]); apply fits_check; vm_compute; reflexivity.
  - intros key e l b. unfold keyed.
    change (filterb ?p [ex; ea]) with (if p ex then ex :: (if p ea then [ea] else []) else if p ea then [ea] else []).
    cbn beta. case_bool_decide as Kx; case_bool_decide as Ka.
    + exfalso. rewrite <-Ka in Kx. revert Kx. vm_compute. discriminate.
    + intros [k Hk] Hm. injection Hk as <- Hl. symmetry in Hl. apply app_nil in Hl as [-> _]. rewrite <-Kx in Hm.
      apply (merged_fits _ _ _ [entry_update ex] _ _ Hx Fx Hm).
      apply fits_check. vm_compute. reflexivity.
    + intros [k Hk] Hm. injection Hk as <- Hl. symmetry in Hl. apply app_nil in Hl as [-> _]. rewrite <-Ka in Hm.
      apply (merged_fits _ _ _ [entry_update ea] _ _ Ha Fa Hm).
      apply fits_check. vm_compute. reflexivity.
    + by intros [k Hk].
Qed.

Lemma worker_ready : dq_ready clear_decrypt worker_docs [] (worker_queue false).
Proof.
  split.
  - apply worker_steady.
  - done.
  - apply (execs_ok 0 InMemoryCoordinator.new). apply coord_ok_new. vm_compute. reflexivity.
  - cbn. lia.
  - vm_compute. reflexivity.
  - rewrite worker_above. intros m Hm _. by apply worker_decryptable.
  - apply worker_fits. rewrite worker_entries. reflexivity.
  - by intros key.
  - intros e _. apply (bool_decide_unpack _). vm_compute. exact I.
Qed.

Definition no_draws : draws := Draws (λ _, 0%N) (λ _, 0%N) (λ _, 0%N).
Definition plain_debug (s : string) : string := s.

Lemma download_catches_up_witness :
  ∃ w', worker_turn clear_decrypt plain_debug 3 (λ _, no_draws) 0 None (Worker (worker_queue false) 0 0) = (Ok true, w') ∧
    above (dw_queue w') = [] ∧ dw_announced w' = 1.
Proof.
  destruct (download_catches_up clear_decrypt plain_debug 3 (λ _, no_draws) 0 (Worker (worker_queue false) 0 0))
    as [H _]; destruct H as (w' & H1 & H2 & _ & _ & H3).
  - exact worker_ready.
  - cbn [dw_queue]. rewrite worker_above. cbn. lia.
  - exists w'. split; [exact H1|]. split; [exact H2|]. apply H3. reflexivity.
Defined.

Lemma push_gap_never_filled_witness :
  ∃ q1 w', process_push_mutation clear_decrypt 0 (pm_of 2 edit_a) (worker_queue false) = (Ok GapDetected, q1) ∧
    worker_turn clear_decrypt plain_debug 1 (λ _, no_draws) 0 (Some (pm_of 2 edit_a)) (Worker (worker_queue false) 0 0) =
      (Ok true, w') ∧
    rec_docs (dq_reconciler (dw_queue w')) !! ("todos", "r2") = Some (to_snapshot other_doc).
Proof.
  destruct (push_gap_never_filled clear_decrypt plain_debug 1 (λ _, no_draws) 0 (pm_of 2 edit_a)
    [pm_of 1 edit_other] (to_snapshot stored_doc) (Worker (worker_queue false) 0 0)) as (q1 & w' & H1 & H2 & _ & H3).
  - exact worker_ready.
  - exact (worker_above false).
  - discriminate.
  - reflexivity.
  - reflexivity.
  - lia.
  - exists q1, w'. split; [exact H1|]. split; [exact H2|]. rewrite H3 by discriminate. reflexivity.
Defined.

Lemma undecryptable_blocks_download_witness :
  ∃ e', ∀ dr, process_batch (λ _ _, Err (EEncryption "decryption failed")) plain_debug dr (worker_queue false) =
    (Err (Fail e'), worker_queue false).
Proof.
  destruct (undecryptable_blocks_download (λ _ _, Err (EEncryption "decryption failed")) plain_debug
    [pm_of 1 edit_other; pm_of 2 edit_a] (pm_of 1 edit_other) (EEncryption "decryption failed") (worker_queue false))
    as (e' & H & _).
  - apply worker_steady.
  - vm_compute. reflexivity.
  - left.
  - reflexivity.
  - reflexivity.
  - exists e'. exact H.
Defined.

Lemma replay_notifications_lost_witness :
  ∃ q', process_pulled clear_decrypt no_draws [pm_of 1 edit_other; pm_of 2 edit_a] (worker_queue true) = (Ok 2, q') ∧
    rc_notified (dq_reconciler q') = [].
Proof.
  destruct (replay_notifications_lost clear_decrypt no_draws [pm_of 1 edit_other; pm_of 2 edit_a] (worker_queue true))
    as (q' & H1 & _ & _ & _ & H2).
  - apply worker_steady.
  - reflexivity.
  - reflexivity.
  - intros m Hm _. apply (worker_decryptable m Hm).
  - intros e He. split.
    + apply (worker_fits _ (worker_entries true)). unfold above_entries. rewrite worker_above. exact He.
    + apply (bool_decide_unpack _). vm_compute. exact I.
  - exists q'. split; [exact H1|exact H2].
Defined.
