(* ===== verification/Client.v ===== *)
(** * The client

    [client.rs]: the public operations that read and write records, rotate
    keys, apply migrations, initialise and force a synchronisation.  The
    client's state holds each shared object once; the upload queue, the
    download queue and the reconciler are views of it.  Random ids, nonces,
    client ids and clock readings are arguments. *)
From S2P Require Import Prelude F64 Clock Types Storage E2ee SharedMemory Oplog Coordinator Retry SyncStateStore Connection Upload CrdtValue Schema Document Compaction Recovery Materialization SubscriptionEngine Reconciler Download.

Record ClientConfig := ClientConfig_new {
  cf_namespace : string;
  cf_replica_id : string;
  cf_offline : bool;
  cf_max_document_size : N;
  cf_schema_version : N;
  cf_upload : UploadConfig;
  cf_download : DownloadConfig;
  cf_max_clock_skew : N;
}.

(** The objects local writes touch besides the storage; what is handed to the
    peer-to-peer transport, the upload worker and the subscribers is kept in the
    order it is sent. *)
Record LocalState := Local {
  ls_schema : rwlock SchemaRegistry;
  ls_keyring : KeyRing;
  ls_clock : HybridLogicalClock;
  ls_subscriptions : rwlock SubscriptionEngine;
  ls_pending_count : N;
  ls_shared_memory : SharedMemory;
  ls_p2p : option (list PendingMutation);
  ls_upload_signals : nat;
  ls_notified : list notification;
}.

(** The state of the two queues and the reconciler. *)
Record QueueState := Queues {
  qs_oplog : OpLog;
  qs_retry_engine : rwlock RetryEngine;
  qs_connection : option ConnectionManager;
  qs_last_sequence : N;
  qs_seen_ids : rwlock (gset string * list string);
  qs_fire_suppressed : bool;
  qs_replay_mode : bool;
  qs_replay_changed_docs : rwlock (gset doc_key);
  qs_stale_skip_count : N;
  qs_initialized : bool;
  qs_worker_started : bool;
}.

(** The draws of one write: the id of the mutation, the nonce of its encryption,
    the client id of the document, and the readings of the clock for the
    timestamp and for the ring. *)
Record write_draws := WriteDraws {
  wd_mutation_id : string;
  wd_nonce : bytes;
  wd_client_id : N;
  wd_now : N;
  wd_ring_now : N;
}.

Section client.
Context {S C T : Type} {HS : Storage S} {HC : Coordinator C} {HT : SyncStateStore T} {Y : Yrs} {K : Crypto} {Z : SnapshotCodec}.
(** [{:?}] of a string *)
Context (debug_str : string → string).
(** [{}] of an error *)
Context (error_display : VaultSyncError → string).
(** [hex::encode(Sha256::digest(..))] *)
Context (hex_sha256 : string → string).
(** the coordinator's [subscribe] *)
Context (coord_subscribe : string → N → SM C CoordinatorError unit).

Record VaultSyncClient := Client {
  cl_config : ClientConfig;
  cl_storage : S;
  cl_coordinator : C;
  cl_sync_state_store : T;
  cl_local : LocalState;
  cl_queues : QueueState;
}.

Abbreviation M := (SM VaultSyncClient (fault VaultSyncError)).

Definition with_cl_storage (s : S) (c : VaultSyncClient) : VaultSyncClient :=
  Client (cl_config c) s (cl_coordinator c) (cl_sync_state_store c) (cl_local c) (cl_queues c).
Definition with_cl_coordinator (co : C) (c : VaultSyncClient) : VaultSyncClient :=
  Client (cl_config c) (cl_storage c) co (cl_sync_state_store c) (cl_local c) (cl_queues c).
Definition with_local (l : LocalState) (c : VaultSyncClient) : VaultSyncClient :=
  Client (cl_config c) (cl_storage c) (cl_coordinator c) (cl_sync_state_store c) l (cl_queues c).

Definition cl_on_storage {A} (m : SM S VaultSyncError A) : M A :=
  zoom cl_storage with_cl_storage (may_fault m).
Definition cl_on_coordinator {A} (m : SM C CoordinatorError A) : M (result A CoordinatorError) :=
  zoom cl_coordinator with_cl_coordinator (sm_try m).
Definition on_local {A} (m : SM LocalState (fault VaultSyncError) A) : M A := zoom cl_local with_local m.

Definition throw {X A} (r : result A VaultSyncError) : SM X (fault VaultSyncError) A :=
  match r with Ok a => mret a | Err e => sm_fail (Fail e) end.

(** ** Parts of a write *)

Definition with_schema (f : SchemaRegistry → SchemaRegistry) (l : LocalState) : LocalState :=
  Local (rw_update f (ls_schema l)) (ls_keyring l) (ls_clock l) (ls_subscriptions l) (ls_pending_count l)
    (ls_shared_memory l) (ls_p2p l) (ls_upload_signals l) (ls_notified l).
Definition with_keyring (k : KeyRing) (l : LocalState) : LocalState :=
  Local (ls_schema l) k (ls_clock l) (ls_subscriptions l) (ls_pending_count l) (ls_shared_memory l) (ls_p2p l)
    (ls_upload_signals l) (ls_notified l).
Definition with_clock (h : HybridLogicalClock) (l : LocalState) : LocalState :=
  Local (ls_schema l) (ls_keyring l) h (ls_subscriptions l) (ls_pending_count l) (ls_shared_memory l) (ls_p2p l)
    (ls_upload_signals l) (ls_notified l).

Definition on_keyring {A} (m : SM KeyRing (fault VaultSyncError) A) : SM LocalState (fault VaultSyncError) A :=
  zoom ls_keyring with_keyring m.

Definition filter_meta_fields (fields : gmap string CrdtValue) : gmap string CrdtValue :=
  delete "updated_at" (delete "updatedAt" fields).

(** [self.clock.now()]. *)
Definition draw_time (now : N) : SM LocalState (fault VaultSyncError) HlcTimestamp := λ l,
  let '(ts, h) := hlc_now now (ls_clock l) in (Ok ts, with_clock h l).
Definition clear_wrap : SM LocalState (fault VaultSyncError) unit :=
  sm_modify (λ l, if did_logical_wrap (ls_clock l) then with_clock (clear_logical_wrap (ls_clock l)) l else l).

Definition registered_version (doc_id : string) : SM LocalState (fault VaultSyncError) N :=
  reg ← rw_lock Panicked ls_schema;
  mret (match registry_get doc_id reg with Some s => ds_version s | None => 0%N end).

Definition enforce_version (doc_id : string) (version : N) : SM LocalState (fault VaultSyncError) unit :=
  reg ← rw_lock Panicked ls_schema;
  throw (validate_version doc_id version reg).

Definition mark_watermark (doc_id record_id : string) (version : N) : SM LocalState (fault VaultSyncError) unit :=
  rw_lock Panicked ls_schema;;
  sm_modify (with_schema (registry_watermark doc_id record_id version)).

(** [self.subscriptions.lock().unwrap().fire(LocalWrite, ..)]. *)
Definition fire_write (doc_id record_id : string) (state : gmap string CrdtValue) :
    SM LocalState (fault VaultSyncError) unit :=
  rw_lock Panicked ls_subscriptions;;
  sm_modify (λ l,
    let '(ns, e) := fire LocalWrite doc_id record_id state (rw_val (ls_subscriptions l)) in
    Local (ls_schema l) (ls_keyring l) (ls_clock l) (rw_set e (ls_subscriptions l)) (ls_pending_count l)
      (ls_shared_memory l) (ls_p2p l) (ls_upload_signals l) (ls_notified l ++ ns)).

(** The mutation the peers are sent. *)
Definition p2p_mutation (entry : OplogEntry) (key_version : N) : PendingMutation :=
  PendingMutation_new (oe_id entry) (oe_namespace entry) 0 (oe_doc_id entry) (oe_record_id entry)
    (default [] (oe_encrypted_blob entry)) (oe_timestamp entry) key_version (oe_replica_id entry).

Definition announce_write (entry : OplogEntry) (key_version : N) (l : LocalState) : LocalState :=
  Local (ls_schema l) (ls_keyring l) (ls_clock l) (ls_subscriptions l) (wrapping_add64 (ls_pending_count l) 1)
    (ls_shared_memory l) ((λ sent, sent ++ [p2p_mutation entry key_version]) <$> ls_p2p l)
    (Datatypes.S (ls_upload_signals l)) (ls_notified l).

(** [let _ = self.shared_memory.write_entry(..)]. *)
Definition share_write (now : N) (entry : OplogEntry) : SM LocalState (fault VaultSyncError) unit :=
  _ ← try_fault (zoom ls_shared_memory (λ m l, Local (ls_schema l) (ls_keyring l) (ls_clock l) (ls_subscriptions l)
        (ls_pending_count l) m (ls_p2p l) (ls_upload_signals l) (ls_notified l))
      (write_entry now (oe_id entry) (oe_yrs_update entry)));
  mret tt.

(** What follows the write of document and entry; the pending entries are read
    for a metric only. *)
Definition after_write (now : N) (doc : CRDTDocument) (doc_id record_id : string) (entry : OplogEntry) : M unit :=
  cfg ← sm_gets cl_config;
  on_local (share_write now entry);;
  active ← on_local (on_keyring active_key);
  on_local (sm_modify (announce_write entry (kp_version active)));;
  (_ ← try_fault (cl_on_storage (read_pending_oplog (cf_namespace cfg) (N.to_nat 10000))); mret tt);;
  on_local (mark_watermark doc_id record_id (cd_schema_version doc));;
  on_local (fire_write doc_id record_id (to_map doc)).

(** The entry of a write. *)
Definition client_entry (cfg : ClientConfig) (dr : write_draws) (ty : MutationType) (origin : MutationOrigin)
    (doc_id record_id : string) (update blob : bytes) (wall version : N) : OplogEntry :=
  OplogEntry_new (wd_mutation_id dr) (cf_replica_id cfg) (cf_namespace cfg) ty doc_id record_id update (Some blob)
    wall None Optimistic None wall version origin "".

Definition set_fields (fields : gmap string CrdtValue) (doc : CRDTDocument) : CRDTDocument :=
  foldl (λ d p, (set_field p.1 p.2 d).2) doc (map_to_list fields).

(** The size check, the encryption, the entry and the atomic write. *)
Definition check_size (cfg : ClientConfig) (update : bytes) : result unit VaultSyncError :=
  if (cf_max_document_size cfg <? N.of_nat (length update))%N then
    Err (EDocumentTooLarge (N.of_nat (length update)) (cf_max_document_size cfg))
  else Ok tt.

Definition store_write (now : N) (doc : CRDTDocument) (doc_id record_id : string) (entry : OplogEntry) : M unit :=
  cl_on_storage (write_document_and_oplog doc_id record_id (to_snapshot doc) entry);;
  after_write now doc doc_id record_id entry.

Definition updated_at (ts : HlcTimestamp) : CrdtValue := VNumber (f64_of_N (ts_wall ts)).

(** ** Reads and writes *)

Definition insert (dr : write_draws) (doc_id record_id : string) (fields : gmap string CrdtValue) : M unit :=
  cfg ← sm_gets cl_config;
  let fields := filter_meta_fields fields in
  schema_version ← on_local (registered_version doc_id);
  let doc := document_new (wd_client_id dr) doc_id record_id schema_version in
  ts ← on_local (draw_time (wd_now dr));
  let fields := <["updatedAt" := updated_at ts]> fields in
  let '(update, doc) := capture_incremental_update (set_fields fields) doc in
  throw (check_size cfg update);;
  blob ← on_local (on_keyring (encrypt_symmetric (wd_nonce dr) update (cf_namespace cfg)));
  on_local clear_wrap;;
  store_write (wd_ring_now dr) doc doc_id record_id
    (client_entry cfg dr CrdtInsert OInsert doc_id record_id update blob (ts_wall ts) (cd_schema_version doc)).

(** [fields.iter().any(..)]: some field is new or has another value. *)
Definition content_changed (fields : gmap string CrdtValue) (doc : CRDTDocument) : bool :=
  existsb (λ p, match get_field p.1 doc with
                | Some existing => negb (crdt_eqb existing p.2)
                | None => true
                end) (map_to_list fields).

Definition load_for_update (cid : N) (doc_id record_id : string) : M CRDTDocument :=
  existing ← cl_on_storage (get_document doc_id record_id);
  match existing with
  | Some bs => throw (from_snapshot cid bs)
  | None => sv ← on_local (registered_version doc_id); mret (document_new cid doc_id record_id sv)
  end.

Definition update (dr : write_draws) (doc_id record_id : string) (fields : gmap string CrdtValue) : M unit :=
  cfg ← sm_gets cl_config;
  let fields := filter_meta_fields fields in
  doc ← load_for_update (wd_client_id dr) doc_id record_id;
  on_local (enforce_version doc_id (cd_schema_version doc));;
  if negb (content_changed fields doc) then mret tt
  else
    ts ← on_local (draw_time (wd_now dr));
    on_local clear_wrap;;
    let fields := <["updatedAt" := updated_at ts]> fields in
    let '(upd, doc) := capture_incremental_update (set_fields fields) doc in
    throw (check_size cfg upd);;
    blob ← on_local (on_keyring (encrypt_symmetric (wd_nonce dr) upd (cf_namespace cfg)));
    store_write (wd_ring_now dr) doc doc_id record_id
      (client_entry cfg dr CrdtUpdate OUpdate doc_id record_id upd blob (ts_wall ts) (cd_schema_version doc)).

Definition delete (dr : write_draws) (doc_id record_id : string) : M unit :=
  cfg ← sm_gets cl_config;
  existing ← cl_on_storage (get_document doc_id record_id);
  match existing with
  | None => mret tt
  | Some bs =>
      doc ← throw (from_snapshot (wd_client_id dr) bs);
      on_local (enforce_version doc_id (cd_schema_version doc));;
      let '(upd, doc) := set_field "_deleted" (VBoolean true) doc in
      blob ← on_local (on_keyring (encrypt_symmetric (wd_nonce dr) upd (cf_namespace cfg)));
      ts ← on_local (draw_time (wd_now dr));
      on_local clear_wrap;;
      store_write (wd_ring_now dr) doc doc_id record_id
        (client_entry cfg dr CrdtDelete ODelete doc_id record_id upd blob (ts_wall ts) (cd_schema_version doc))
  end.

(** [Some(CrdtValue::Boolean(true))] under [_deleted]. *)
Definition marked_deleted (m : gmap string CrdtValue) : bool :=
  match m !! "_deleted" with Some (VBoolean true) => true | _ => false end.

Definition get (cid : N) (doc_id record_id : string) : M (option (gmap string CrdtValue)) :=
  existing ← cl_on_storage (get_document doc_id record_id);
  match existing with
  | None => mret None
  | Some bs =>
      doc ← throw (from_snapshot cid bs);
      mret (if marked_deleted (to_map doc) then None else Some (to_map doc))
  end.

Fixpoint find_in (cids : nat → N) (i : nat) (flt : option Filter) (docs : list (string * bytes)) :
    result (list (gmap string CrdtValue)) VaultSyncError :=
  match docs with
  | [] => Ok []
  | (_, bs) :: docs' =>
      match from_snapshot (cids i) bs with
      | Err e => Err e
      | Ok doc =>
          match find_in cids (Datatypes.S i) flt docs' with
          | Err e => Err e
          | Ok rest =>
              let m := to_map doc in
              if marked_deleted m then Ok rest
              else if match flt with None => true | Some f => filter_matches f m end then Ok (m :: rest)
              else Ok rest
          end
      end
  end.

Definition find (cids : nat → N) (doc_id : string) (flt : option Filter) : M (list (gmap string CrdtValue)) :=
  docs ← cl_on_storage (list_documents doc_id);
  throw (find_in cids 0 flt docs).

(** ** Subscriptions *)

Definition with_subscriptions (f : SubscriptionEngine → SubscriptionEngine) (l : LocalState) : LocalState :=
  Local (ls_schema l) (ls_keyring l) (ls_clock l) (rw_update f (ls_subscriptions l)) (ls_pending_count l)
    (ls_shared_memory l) (ls_p2p l) (ls_upload_signals l) (ls_notified l).

Definition subscribe (doc_id : string) (callback : N) : M N :=
  on_local (e ← rw_lock Panicked ls_subscriptions;
    let '(h, e) := engine_register doc_id callback e in
    sm_modify (with_subscriptions (λ _, e));; mret h).

Definition unsubscribe (handle : N) : M unit :=
  on_local (e ← rw_lock Panicked ls_subscriptions;
    let '(r, e) := engine_unregister handle e in
    sm_modify (with_subscriptions (λ _, e));; throw r).

Definition set_change_listener (listener : N) : M unit :=
  on_local (rw_lock Panicked ls_subscriptions;; sm_modify (with_subscriptions (set_global_listener listener))).

Definition fire_local_subscription (doc_id record_id : string) (state : gmap string CrdtValue) : M unit :=
  on_local (e ← rw_lock Panicked ls_subscriptions;
    sm_modify (λ l, Local (ls_schema l) (ls_keyring l) (ls_clock l) (ls_subscriptions l) (ls_pending_count l)
      (ls_shared_memory l) (ls_p2p l) (ls_upload_signals l)
      (ls_notified l ++ fire_local doc_id record_id state e))).

(** ** The queues as views of the client *)

Definition upload_view (c : VaultSyncClient) : UploadQueue S C T :=
  let q := cl_queues c in
  Queue (qs_oplog q) (cl_storage c) (cl_coordinator c) (cf_upload (cl_config c)) (qs_retry_engine q)
    (qs_connection q) (Some (cl_sync_state_store c)).
Definition with_upload (u : UploadQueue S C T) (c : VaultSyncClient) : VaultSyncClient :=
  let q := cl_queues c in
  Client (cl_config c) (uq_storage u) (uq_coordinator u) (default (cl_sync_state_store c) (uq_sync_state_store u))
    (cl_local c)
    (Queues (uq_oplog u) (uq_retry_engine u) (uq_connection u) (qs_last_sequence q) (qs_seen_ids q)
      (qs_fire_suppressed q) (qs_replay_mode q) (qs_replay_changed_docs q) (qs_stale_skip_count q)
      (qs_initialized q) (qs_worker_started q)).

Definition reconciler_view (c : VaultSyncClient) : Reconciler S :=
  Rec (cl_storage c) (ls_subscriptions (cl_local c)) (qs_seen_ids (cl_queues c)) (qs_fire_suppressed (cl_queues c))
    (ls_notified (cl_local c)).
Definition download_view (c : VaultSyncClient) : DownloadQueue S C T :=
  let q := cl_queues c in
  DQ (cl_coordinator c) (cl_sync_state_store c) (cf_namespace (cl_config c)) (qs_last_sequence q)
    (cf_download (cl_config c)) (reconciler_view c) (cf_max_clock_skew (cl_config c)) (cf_replica_id (cl_config c))
    (qs_replay_mode q) (qs_replay_changed_docs q) (qs_stale_skip_count q).
Definition with_download (d : DownloadQueue S C T) (c : VaultSyncClient) : VaultSyncClient :=
  let q := cl_queues c in let l := cl_local c in let r := dq_reconciler d in
  Client (cl_config c) (rc_storage r) (dq_coordinator d) (dq_sync_state_store d)
    (Local (ls_schema l) (ls_keyring l) (ls_clock l) (rc_subscriptions r) (ls_pending_count l) (ls_shared_memory l)
      (ls_p2p l) (ls_upload_signals l) (rc_notified r))
    (Queues (qs_oplog q) (qs_retry_engine q) (qs_connection q) (dq_last_sequence d) (rc_seen_ids r)
      (rc_fire_suppressed r) (dq_replay_mode d) (dq_replay_changed_docs d) (dq_stale_skip_count d)
      (qs_initialized q) (qs_worker_started q)).

Definition on_upload {A} (m : SM (UploadQueue S C T) (fault VaultSyncError) A) : M A :=
  zoom upload_view with_upload m.
Definition on_download {A} (m : SM (DownloadQueue S C T) (fault VaultSyncError) A) : M A :=
  zoom download_view with_download m.

(** ** Synchronisation *)

Definition set_pending_count (n : N) : M unit :=
  on_local (sm_modify (λ l, Local (ls_schema l) (ls_keyring l) (ls_clock l) (ls_subscriptions l) n
    (ls_shared_memory l) (ls_p2p l) (ls_upload_signals l) (ls_notified l))).

Definition force_sync (rd : upload_readings) (dr : draws) : M nat :=
  uploaded ← on_upload (upload_process_batch debug_str rd);
  downloaded ← on_download (process_batch decrypt_symmetric debug_str dr);
  count ← try_fault (on_upload upload_pending_count);
  (match count with Ok n => set_pending_count (N.of_nat n) | Err _ => mret tt end);;
  mret (uploaded + downloaded).

Definition pending_uploads : M N := sm_gets (λ c, ls_pending_count (cl_local c)).

Definition sync_status (is_leader : bool) : M SyncState :=
  cfg ← sm_gets cl_config;
  stored ← cl_on_storage (read_sync_state (cf_namespace cfg));
  match stored with
  | Some st => mret (SyncState_new (ss_namespace st) (ss_replica_id st) (ss_last_synced_sequence st)
                 (ss_connection_status st) (Some is_leader) (ss_last_connected_at st) (ss_last_sync_at st)
                 (ss_schema_version st) (ss_generation_id st))
  | None =>
      last ← sm_gets (λ c, qs_last_sequence (cl_queues c));
      mret (SyncState_new (cf_namespace cfg) (cf_replica_id cfg) last Connected (Some is_leader) None None 0 "")
  end.

(** The upload worker between two wake-ups: whether it backs off, and how
    long. *)
Record UploadWorker := UpWorker { uw_offline : bool; uw_backoff_ms : N }.

Definition safe_count (count : nat) : N := if (1000000 <? N.of_nat count)%N then 0%N else N.of_nat count.

(** The worker's state after an empty batch. *)
Definition upload_idle (count : N) (w : UploadWorker) : UploadWorker :=
  if (0 <? count)%N && negb (uw_offline w) then UpWorker true 1000
  else if (0 <? count)%N then UpWorker (uw_offline w) (N.min (uw_backoff_ms w * 2) 30000)
  else if uw_offline w then UpWorker false 0
  else w.

(** [loop { match uq.process_batch() .. }], [rounds] turns of it; [None] when
    they did not suffice. *)
Fixpoint upload_drain (rounds : nat) (rd : nat → upload_readings) (w : UploadWorker) : M (option UploadWorker) :=
  match rounds with
  | O => mret None
  | Datatypes.S rounds' =>
      r ← try_fault (on_upload (upload_process_batch debug_str (rd rounds')));
      match r with
      | Ok O =>
          count ← try_fault (on_upload upload_pending_count);
          mret (Some (match count with Ok n => upload_idle (safe_count n) w | Err _ => w end))
      | Ok _ => upload_drain rounds' rd (UpWorker false 0)
      | Err _ => mret (Some w)
      end
  end.

Definition upload_turn (rounds : nat) (rd : nat → upload_readings) (w : UploadWorker) : M (option UploadWorker) :=
  w' ← upload_drain rounds rd w;
  count ← try_fault (on_upload upload_pending_count);
  (match count with Ok n => set_pending_count (safe_count n) | Err _ => mret tt end);;
  mret w'.

(** ** The compaction timer *)

(** When the two jobs ran last, in milliseconds of a monotonic clock. *)
Record CompactionTimer := Timer { tm_last_compaction : N; tm_last_snapshot : N }.

(** The readings of that clock before and after each job, and what the jobs
    draw. *)
Record timer_readings := TimerReadings {
  tr_compaction_check : N;
  tr_compaction_done : N;
  tr_snapshot_check : N;
  tr_snapshot_done : N;
  tr_compaction : SyncCompaction.compaction_draws;
  tr_cids : nat → N;
}.

Definition upload_snapshots (ns : string) (snapshots : list Snapshot) : M unit :=
  for_each (λ s, _ ← cl_on_coordinator (store_snapshot ns s); mret tt) snapshots.

(** One turn of the loop: the age-based job on every client, the snapshot job
    on the leader. *)
Definition compaction_turn (is_leader : bool) (tr : timer_readings) (t : CompactionTimer) : M CompactionTimer :=
  ns ← sm_gets (λ c, cf_namespace (cl_config c));
  last_compaction ←
    (if (300000 <=? saturating_sub (tr_compaction_check tr) (tm_last_compaction t))%N then
       _ ← try_fault (cl_on_storage (SyncCompaction.run_compaction SyncCompaction.config_default ns (tr_compaction tr)));
       mret (tr_compaction_done tr)
     else mret (tm_last_compaction t));
  last_snapshot ←
    (if is_leader && (900000 <=? saturating_sub (tr_snapshot_check tr) (tm_last_snapshot t))%N then
       r ← try_fault (cl_on_storage (SyncCompaction.run_snapshot_compaction SyncCompaction.config_default ns (tr_cids tr)));
       (match r with Ok (_, snapshots) => upload_snapshots ns snapshots | Err _ => mret tt end);;
       mret (tr_snapshot_done tr)
     else mret (tm_last_snapshot t));
  mret (Timer last_compaction last_snapshot).

(** ** Keys *)

(** One pending entry under the new key. *)
Definition reencrypt_entry (ns : string) (nonce : bytes) (entry : OplogEntry) : M unit :=
  match oe_encrypted_blob entry with
  | None => mret tt
  | Some blob =>
      plaintext ← throw (decrypt_symmetric blob ns);
      new_blob ← on_local (on_keyring (encrypt_symmetric nonce plaintext ns));
      cl_on_storage (update_oplog_encrypted_blob (oe_id entry) new_blob)
  end.

Definition coordinator_call {A} (what : string) (m : SM C CoordinatorError A) : M A :=
  r ← cl_on_coordinator m;
  throw (match r with
         | Ok a => Ok a
         | Err e => Err (ECoordinator (what +:+ coordinator_error_debug debug_str e))
         end).

Definition rotate_keys (random : bytes) (now_secs : N) (nonces : nat → bytes) : M unit :=
  cfg ← sm_gets cl_config;
  let ns := cf_namespace cfg in
  on_local (on_keyring active_key);;
  new_pair ← on_local (on_keyring (rotate random now_secs));
  pending ← cl_on_storage (read_pending_oplog ns (N.to_nat 10000));
  for_each (λ '(i, entry), reencrypt_entry ns (nonces i) entry) (imap pair pending);;
  on_local (on_keyring (prune_old_versions (kp_version new_pair)));;
  cl_on_storage (write_key (KeyRecord_new ns (kp_private_key new_pair) (kp_version new_pair)));;
  coordinator_call "key update failed: "
    (update_replica_key ns (cf_replica_id cfg) (kp_public_key new_pair) (kp_version new_pair));;
  coordinator_call "re-register failed: "
    (register ns (ReplicaInfo_new (cf_replica_id cfg) ns (kp_public_key new_pair) (cf_schema_version cfg)) 0).

Definition export_public_key : M bytes := k ← on_local (on_keyring active_key); mret (kp_public_key k).
Definition active_key_version : M N := on_local (on_keyring active_version).
Definition list_key_versions : M (list NamespaceKeypair) := on_local (on_keyring all_keys).
Definition prune_key_versions (keep_versions : N) : M unit := on_local (on_keyring (prune_to_keep keep_versions)).

(** ** Schemas *)

(** [define(doc_id, schema, None)] keeps the schema in memory only. *)
Definition define_schema (doc_id : string) (schema : DocumentSchema) : M unit :=
  on_local (rw_lock Panicked ls_schema;; sm_modify (with_schema (define_local doc_id schema))).

Definition apply_migration (now_secs : N) (m : MigrationDefinition) : M unit :=
  if negb (migration_verify_checksum hex_sha256 m) then sm_fail (Fail (ESchema "Migration checksum verification failed"))
  else
    applied ← cl_on_storage read_migrations;
    match List.find (λ r, String.eqb (mr_version r) (md_version m)) applied with
    | Some existing =>
        if String.eqb (mr_checksum existing) (md_checksum m) then mret tt
        else sm_fail (Fail (ESchema ("Migration checksum mismatch for version " +:+ md_version m +:+ ": expected " +:+
               mr_checksum existing +:+ ", found " +:+ md_checksum m)))
    | None =>
        match md_apply m with
        | Err e => sm_fail (Fail e)
        | Ok _ => cl_on_storage (write_migration (MigrationRecord_new (md_version m) now_secs (md_checksum m)))
        end
    end.

(** ** Connections and peers *)

Definition with_queues (f : QueueState → QueueState) (c : VaultSyncClient) : VaultSyncClient :=
  Client (cl_config c) (cl_storage c) (cl_coordinator c) (cl_sync_state_store c) (cl_local c) (f (cl_queues c)).

Definition set_connection_manager (cm : option ConnectionManager) : M unit :=
  sm_modify (with_queues (λ q, Queues (qs_oplog q) (qs_retry_engine q) cm (qs_last_sequence q)
    (qs_seen_ids q) (qs_fire_suppressed q) (qs_replay_mode q) (qs_replay_changed_docs q) (qs_stale_skip_count q)
    (qs_initialized q) (qs_worker_started q))).

Definition with_p2p (p : option (list PendingMutation)) (l : LocalState) : LocalState :=
  Local (ls_schema l) (ls_keyring l) (ls_clock l) (ls_subscriptions l) (ls_pending_count l) (ls_shared_memory l) p
    (ls_upload_signals l) (ls_notified l).

(** [opened] is what opening the transport returns. *)
Definition enable_p2p (opened : result unit string) : M unit :=
  running ← sm_gets (λ c, ls_p2p (cl_local c));
  match running, opened with
  | Some _, _ => mret tt
  | None, Ok _ => on_local (sm_modify (with_p2p (Some [])))
  | None, Err e => sm_fail (Fail (EConfig ("Failed to enable P2P: " +:+ e)))
  end.

Definition disable_p2p : M unit := on_local (sm_modify (with_p2p None)).

(** The task that passes on what peers send; errors are logged. *)
Definition receive_p2p (local_time cid : N) (m : PendingMutation) : M unit :=
  _ ← try_fault (on_download (process_p2p_mutation decrypt_symmetric local_time cid m)); mret tt.

(** One turn of the background timer. *)
Definition background_tick (is_leader : bool) (rd : upload_readings) (dr : draws) : M unit :=
  (if is_leader then _ ← try_fault (on_upload (upload_process_batch debug_str rd)); mret tt else mret tt);;
  _ ← try_fault (on_download (process_batch decrypt_symmetric debug_str dr));
  count ← try_fault (on_upload upload_pending_count);
  match count with Ok n => set_pending_count (N.of_nat n) | Err _ => mret tt end.

(** ** Initialisation *)

Definition with_generation (gen : string) (now : N) (st : SyncState) : SyncState :=
  SyncState_new (ss_namespace st) (ss_replica_id st) (ss_last_synced_sequence st) (ss_connection_status st)
    (ss_leader_status st) (ss_last_connected_at st) (Some now) (ss_schema_version st) gen.
Definition with_cursor_zero (st : SyncState) : SyncState :=
  SyncState_new (ss_namespace st) (ss_replica_id st) 0 (ss_connection_status st)
    (ss_leader_status st) (ss_last_connected_at st) (ss_last_sync_at st) (ss_schema_version st) (ss_generation_id st).

(** The check of the generation after a successful registration. *)
Definition recover_generation (now : N) (info : ReplicaInfo) : M unit :=
  cfg ← sm_gets cl_config;
  gen ← sm_gets (λ c, generation_id (cl_coordinator c));
  if String.eqb gen "" then mret tt
  else
    stored ← cl_on_storage (read_sync_state (cf_namespace cfg));
    match stored with
    | None => mret tt
    | Some st =>
        if String.eqb (ss_generation_id st) gen then mret tt
        else
          validation ← sm_gets (λ c, cursor_validation (qs_last_sequence (cl_queues c)) (cl_coordinator c));
          on_download (set_replay_mode true);;
          match validation with
          | CVUnknown | CVValid => cl_on_storage (write_sync_state (with_generation gen now st))
          | CVInvalid =>
              cl_on_storage (write_sync_state (with_cursor_zero (with_generation gen now st)));;
              on_download (sm_modify (dq_reset_cursor 0));;
              _ ← cl_on_coordinator disconnect;
              _ ← cl_on_coordinator (register (cf_namespace cfg) info 0);
              mret tt
          end
    end.

Definition initialize (now : N) (cids : nat → N) (cursor elapsed_ms : N) : M unit :=
  cfg ← sm_gets cl_config;
  was ← sm_gets (λ c, qs_initialized (cl_queues c));
  sm_modify (with_queues (λ q, Queues (qs_oplog q) (qs_retry_engine q) (qs_connection q) (qs_last_sequence q)
    (qs_seen_ids q) (qs_fire_suppressed q) (qs_replay_mode q) (qs_replay_changed_docs q) (qs_stale_skip_count q)
    true (qs_worker_started q)));;
  if was : bool then mret tt
  else if cf_offline cfg then mret tt
  else
    active ← on_local (on_keyring active_key);
    let info := ReplicaInfo_new (cf_replica_id cfg) (cf_namespace cfg) (kp_public_key active) (cf_schema_version cfg) in
    last ← sm_gets (λ c, qs_last_sequence (cl_queues c));
    registered ← cl_on_coordinator (register (cf_namespace cfg) info last);
    (match registered with Err _ => mret tt | Ok _ => recover_generation now info end);;
    sub ← sm_gets (λ c, qs_last_sequence (cl_queues c));
    _ ← cl_on_coordinator (coord_subscribe (cf_namespace cfg) sub);
    _ ← try_fault (cl_on_storage (materialize error_display (cf_namespace cfg) cursor cids elapsed_ms));
    sm_modify (with_queues (λ q, Queues (qs_oplog q) (qs_retry_engine q) (qs_connection q) (qs_last_sequence q)
      (qs_seen_ids q) (qs_fire_suppressed q) (qs_replay_mode q) (qs_replay_changed_docs q) (qs_stale_skip_count q)
      (qs_initialized q) true)).

(** ** Construction *)

(** What [build_client] is given and changes before there is a client. *)
Record Boot := Booting { bo_storage : S; bo_keyring : KeyRing }.

Definition bo_on_storage {A} (m : SM S VaultSyncError A) : SM Boot (fault VaultSyncError) A :=
  zoom bo_storage (λ s b, Booting s (bo_keyring b)) (may_fault m).
Definition bo_on_keyring {A} (m : SM KeyRing (fault VaultSyncError) A) : SM Boot (fault VaultSyncError) A :=
  zoom bo_keyring (λ k b, Booting (bo_storage b) k) m.

Definition boot_migrations (migrations : list MigrationDefinition) (now : nat → N) : SM Boot (fault VaultSyncError) N :=
  zoom (λ b, runner_new (bo_storage b) migrations) (λ r b, Booting (ru_storage r) (bo_keyring b))
    (validate_applied;; run_pending now;; current_version).

(** The stored keys of 32 bytes as key pairs. *)
Definition stored_keypairs (now_secs : N) (records : list KeyRecord) : list NamespaceKeypair :=
  omap (λ r, if length (kr_key_bytes r) =? 32
             then Some (Keypair (x25519 (kr_key_bytes r) x25519_base) (kr_key_bytes r) (kr_version r) now_secs)
             else None) records.

Definition boot_keys (ns : string) (now_secs : N) : SM Boot (fault VaultSyncError) unit :=
  stored ← bo_on_storage (read_keys ns);
  stored ← (match stored with [] => bo_on_storage (read_keys ns) | _ => mret stored end);
  match stored with
  | [] =>
      active ← bo_on_keyring active_key;
      bo_on_storage (write_key (KeyRecord_new ns (kp_private_key active) (kp_version active)));;
      ver ← bo_on_storage (read_keys ns);
      match List.find (λ k, (kr_version k =? kp_version active)%N) ver with
      | Some first => if bool_decide (kr_key_bytes first = kp_private_key active) then mret tt
                      else bo_on_keyring (load_keys (stored_keypairs now_secs ver))
      | None => mret tt
      end
  | _ => bo_on_keyring (load_keys (stored_keypairs now_secs stored))
  end.

Definition boot_schemas (from_json : bytes → option DocumentSchema) : SM Boot (fault VaultSyncError) SchemaRegistry :=
  r ← try_fault (bo_on_storage list_schemas);
  mret (foldl (λ reg meta, match from_json (sm_schema_bytes meta) with
                           | Some schema => define_local (sm_doc_id meta) schema reg
                           | None => reg
                           end) registry_new (match r with Ok metas => metas | Err _ => [] end)).

(** [crash_recovery.recover(..)], whose error is logged. *)
Definition boot_recovery (ns : string) (shm_file : option bytes) (now : N) (nonces : nat → bytes) (cids : nat → N) :
    SM Boot (fault VaultSyncError) unit :=
  _ ← try_fault (zoom (λ b, Crash (bo_storage b) (bo_keyring b) (shm_open <$> shm_file))
        (λ r b, Booting (cr_storage r) (cr_keyring r)) (recover ns now nonces cids));
  mret tt.

Record boot_draws := BootDraws {
  bd_migration_now : nat → N;
  bd_now_secs : N;
  bd_now : N;
  bd_clock_now : N;
  bd_nonces : nat → bytes;
  bd_cids : nat → N;
}.

Definition with_schema_version (v : N) (cfg : ClientConfig) : ClientConfig :=
  ClientConfig_new (cf_namespace cfg) (cf_replica_id cfg) (cf_offline cfg) (cf_max_document_size cfg) v
    (cf_upload cfg) (cf_download cfg) (cf_max_clock_skew cfg).

(** The initial pending count. *)
Definition count_pending : M unit :=
  count ← try_fault (on_upload upload_pending_count);
  set_pending_count (match count with Ok n => N.of_nat n | Err _ => 0%N end).

(** [build_client] with a sync state store and without initialisation; the
    ring is created over the file the last run left, if any. *)
Definition build_client (cfg : ClientConfig) (co : C) (store : T) (retry : RetryEngine) (p2p : bool)
    (migrations : list MigrationDefinition) (from_json : bytes → option DocumentSchema)
    (shm_file : option bytes) (bd : boot_draws) : SM Boot (fault VaultSyncError) VaultSyncClient :=
  schema_version ← boot_migrations migrations (bd_migration_now bd);
  boot_keys (cf_namespace cfg) (bd_now_secs bd);;
  stored ← bo_on_storage (read_sync_state (cf_namespace cfg));
  let last_sequence := match stored with Some st => ss_last_synced_sequence st | None => 0%N end in
  schema ← boot_schemas from_json;
  boot_recovery (cf_namespace cfg) shm_file (bd_now bd) (bd_nonces bd) (bd_cids bd);;
  b ← sm_get;
  let c0 := Client (with_schema_version schema_version cfg) (bo_storage b) co store
    (Local (rw_new schema) (bo_keyring b) (hlc_new (bd_clock_now bd)) (rw_new engine_new) 0
      (shm_create (default [] shm_file) (N.to_nat 65536)) (if p2p then Some [] else None) 0 [])
    (Queues (OpLog_new (cf_namespace cfg)) (rw_new retry) None last_sequence (rw_new (∅, [])) false false
      (rw_new ∅) 0 false false) in
  match count_pending c0 with
  | (Ok _, c) => sm_put (Booting (cl_storage c) (bo_keyring b));; mret c
  | (Err e, c) => sm_put (Booting (cl_storage c) (bo_keyring b));; sm_fail e
  end.
End client.
Arguments VaultSyncClient : clear implicits.
