(* ===== verification/ClientTheory.v ===== *)
(** * Properties of the client's operations

    Read-your-writes, updates, deletion, and the entry each write leaves in the
    log for the upload. *)
From S2P Require Import Prelude F64 Clock Types Storage E2ee E2eeTheory SharedMemory SharedMemoryTheory Oplog Coordinator Retry SyncStateStore Connection Upload CrdtValue Schema Document OpSet SubscriptionEngine Recovery Materialization Reconciler Download Client.

Section client_theory.
Context {S C T : Type} {HS : Storage S} {HSpec : StorageSpec S} {HC : Coordinator C} {HT : SyncStateStore T}.
Context {Y : Yrs} {HY : YrsSpec Y} {K : Crypto} {HK : CryptoSpec K}.
Implicit Types c : VaultSyncClient S C T.

Abbreviation M := (SM (VaultSyncClient S C T) (fault VaultSyncError)).
Abbreviation cl_view c := (st_view (cl_storage c)).
Abbreviation cl_ns c := (cf_namespace (cl_config c)).

(** The parts a write uses: intact locks, an active key, a healthy store. *)
Definition client_ready c : Prop :=
  let l := cl_local c in
  st_healthy (cl_storage c) ∧ rw_poisoned (ls_schema l) = false ∧ rw_poisoned (ls_subscriptions l) = false ∧
  rw_poisoned (ls_keyring l) = false ∧ (ri_active_version (rw_val (ls_keyring l)) ≤ U64_MAX)%N ∧
  is_Some (find_key (ri_active_version (rw_val (ls_keyring l))) (rw_val (ls_keyring l))).

(** A document that can be stored and loaded again. *)
Definition storable (d : ydoc) : Prop := (N.of_nat (length (y_encode_state d)) ≤ MAX_SNAPSHOT_SIZE)%N.

(** [c'] is [c] after a write that stored [bs] and logged [entry]. *)
Definition wrote (d r : string) (bs : bytes) (entry : OplogEntry) c c' : Prop :=
  client_ready c' ∧ cl_view c' = a_append entry (a_insert d r bs (cl_view c)) ∧
  cl_config c' = cl_config c ∧ cl_coordinator c' = cl_coordinator c ∧
  cl_sync_state_store c' = cl_sync_state_store c ∧ cl_queues c' = cl_queues c ∧
  ls_keyring (cl_local c') = ls_keyring (cl_local c) ∧
  ls_upload_signals (cl_local c') = Datatypes.S (ls_upload_signals (cl_local c)).

Lemma cl_storage_ok {A} (m : SM S VaultSyncError A) res f c : refines_op st_view st_healthy m res f →
  st_healthy (cl_storage c) → ∃ s', (cl_on_storage m : M A) c = (Ok (res (cl_view c)), with_cl_storage s' c) ∧
    st_view s' = f (cl_view c) ∧ st_healthy s'.
Proof.
  intros Hm Hh. destruct (Hm (cl_storage c)) as [H1 _]. destruct (H1 Hh) as (s' & Hrun & Hv & Hh').
  exists s'. unfold cl_on_storage, zoom, may_fault, sm_map_err. by rewrite Hrun.
Qed.

Lemma ready_with_storage s c : client_ready c → st_healthy s → client_ready (with_cl_storage s c).
Proof. by intros (?&?&?&?&?&?) ?. Qed.

Lemma on_local_ok {A} (m : SM LocalState (fault VaultSyncError) A) a l c : m (cl_local c) = (Ok a, l) →
  (on_local m : M A) c = (Ok a, with_local l c).
Proof. intros H. unfold on_local, zoom. by rewrite H. Qed.

Lemma active_key_ok (k : KeyRing) : rw_poisoned k = false →
  is_Some (find_key (ri_active_version (rw_val k)) (rw_val k)) → ∃ kp, active_key k = (Ok kp, k).
Proof.
  intros Hp [kp Hk]. exists kp. unfold active_key. erewrite sm_bind_ok by (by apply ring_lock_ok). by rewrite Hk.
Qed.

Lemma share_write_ok now entry (l : LocalState) : ∃ m, share_write now entry l =
  (Ok tt, Local (ls_schema l) (ls_keyring l) (ls_clock l) (ls_subscriptions l) (ls_pending_count l) m (ls_p2p l)
     (ls_upload_signals l) (ls_notified l)).
Proof.
  destruct (ring_calls_return now (oe_id entry) (oe_yrs_update entry) (ls_shared_memory l)) as (Hnp & _).
  unfold share_write, mbind, sm_bind, try_fault, zoom.
  destruct (write_entry now (oe_id entry) (oe_yrs_update entry) (ls_shared_memory l)) as [[[]|[e|]] m]; simpl in *;
    [by eexists|by eexists|done].
Qed.

(** The end of a write. *)
Lemma store_write_ok now (doc : CRDTDocument) d r entry c : client_ready c →
  ∃ c', (store_write now doc d r entry : M unit) c = (Ok tt, c') ∧ wrote d r (to_snapshot doc) entry c c'.
Proof.
  intros Hr. pose proof Hr as (Hh & Hsch & Hsub & Hkp & Hkv & Hk).
  destruct (cl_storage_ok _ _ _ c (write_document_and_oplog_ok d r (to_snapshot doc) entry) Hh) as (s1 & Hrun1 & Hv1 & Hh1).
  unfold store_write. erewrite sm_bind_ok by exact Hrun1. unfold after_write.
  erewrite sm_bind_ok by reflexivity. cbn [cl_config with_cl_storage].
  destruct (share_write_ok now entry (cl_local c)) as [m Hshare].
  erewrite sm_bind_ok by (apply on_local_ok; exact Hshare).
  destruct (active_key_ok (ls_keyring (cl_local c)) Hkp Hk) as [kp Hkey].
  erewrite sm_bind_ok by (apply on_local_ok; unfold on_keyring, zoom; simpl; rewrite Hkey; reflexivity).
  erewrite sm_bind_ok by (apply on_local_ok; reflexivity).
  match goal with |- context[(?m ≫= _) ?c2] => set (c1 := c2) end.
  destruct (cl_storage_ok _ _ _ c1 (read_pending_ok (cl_ns c) (N.to_nat 10000)) Hh1) as (s2 & Hrun2 & Hv2 & Hh2).
  erewrite sm_bind_ok by (erewrite sm_bind_ok by (unfold try_fault; rewrite Hrun2; reflexivity); reflexivity).
  erewrite sm_bind_ok by (apply on_local_ok; unfold mark_watermark; erewrite sm_bind_ok by
    (unfold rw_lock; simpl; rewrite Hsch; reflexivity); reflexivity).
  eexists. split.
  { apply on_local_ok. unfold fire_write. erewrite sm_bind_ok by (unfold rw_lock; simpl; rewrite Hsub; reflexivity).
    reflexivity. }
  unfold wrote, client_ready. simpl. rewrite Hv2. simpl. by split_and!.
Qed.

(** ** Documents *)

Lemma foldl_inserts_lookup {A B} (f : A → B) (l : list (string * A)) (m : gmap string B) k : NoDup l.*1 →
  foldl (λ m p, <[p.1 := f p.2]> m) m l !! k =
    match (list_to_map l : gmap string A) !! k with Some v => Some (f v) | None => m !! k end.
Proof.
  revert m. induction l as [|[k1 v1] l IH]; intros m Hnd; [done|].
  apply NoDup_cons in Hnd as [Hk1 Hnd]. simpl. rewrite IH by done. destruct (decide (k = k1)) as [->|Hne].
  - by rewrite not_elem_of_list_to_map_1, !lookup_insert_eq by done.
  - by rewrite !lookup_insert_ne by done.
Qed.

(** The edits as insertions into the root map. *)
Definition edits_of (fields : gmap string CrdtValue) : list (string * yany) :=
  prod_map id crdt_value_to_any <$> map_to_list fields.

Lemma set_fields_inner fields (doc : CRDTDocument) :
  cd_inner (set_fields fields doc) = y_inserts (edits_of fields) (cd_inner doc) ∧
  cd_schema_version (set_fields fields doc) = cd_schema_version doc.
Proof.
  unfold set_fields, y_inserts, edits_of. revert doc.
  induction (map_to_list fields) as [|[k v] l IH]; intros doc; [done|]. simpl. by apply (IH (set_field k v doc).2).
Qed.

Lemma set_fields_map fields (doc : CRDTDocument) : to_map (set_fields fields doc) = fields ∪ to_map doc.
Proof.
  unfold to_map. rewrite (proj1 (set_fields_inner fields doc)).
  assert (Hroot : ∀ l d, y_root (y_inserts (prod_map id crdt_value_to_any <$> l) d) =
    foldl (λ m p, <[p.1 := OutAny (crdt_value_to_any p.2)]> m) (y_root d) l).
  { intros l. induction l as [|[k v] l IH]; intros d; [done|]. simpl. by rewrite IH, y_insert_root. }
  unfold edits_of. rewrite Hroot. apply map_eq. intros k. rewrite lookup_fmap.
  rewrite (foldl_inserts_lookup (λ v, OutAny (crdt_value_to_any v))) by apply NoDup_fst_map_to_list.
  rewrite list_to_map_to_list, lookup_union, lookup_fmap.
  destruct (fields !! k) as [v|]; simpl; [|by destruct (y_root (cd_inner doc) !! k)].
  rewrite any_to_crdt_value_inverse. by destruct (y_root (cd_inner doc) !! k).
Qed.

(** The fields a new document has. *)
Definition meta_fields (d r : string) (v : N) : gmap string CrdtValue :=
  <["schema_version" := VNumber (f64_of_N v)]> (<["record_id" := VString r]> {["doc_id" := VString d]}).

Lemma document_new_map cid d r v : to_map (document_new cid d r v) = meta_fields d r v.
Proof.
  unfold to_map, document_new. cbn [cd_inner]. rewrite !y_insert_root, y_new_root, !fmap_insert, fmap_empty. done.
Qed.

Lemma from_to_snapshot cid (doc : CRDTDocument) : storable (cd_inner doc) →
  ∃ doc', from_snapshot cid (to_snapshot doc) = Ok doc' ∧ cd_inner doc' ≡ cd_inner doc ∧ to_map doc' = to_map doc.
Proof.
  intros Hfit. destruct (y_encode_state_ok (cd_inner doc)) as (u & Hu & Happ).
  unfold from_snapshot, to_snapshot. rewrite (proj2 (N.ltb_ge _ _)) by done. rewrite Hu.
  eexists. split; [reflexivity|]. split; [apply Happ|]. unfold to_map. cbn [cd_inner]. by rewrite (Happ cid).
Qed.

(** ** Reads *)

Lemma get_ok cid d r (doc : CRDTDocument) c : st_healthy (cl_storage c) →
  a_docs (cl_view c) !! (d, r) = Some (to_snapshot doc) → storable (cd_inner doc) →
  ∃ c', (get cid d r : M _) c = (Ok (if marked_deleted (to_map doc) then None else Some (to_map doc)), c') ∧
    cl_view c' = cl_view c ∧ st_healthy (cl_storage c').
Proof.
  intros Hh Hdoc Hfit. destruct (cl_storage_ok _ _ _ c (get_document_ok d r) Hh) as (s1 & Hrun & Hv & Hh1).
  destruct (from_to_snapshot cid doc Hfit) as (doc' & Hload & _ & Hmap).
  exists (with_cl_storage s1 c). unfold get. erewrite sm_bind_ok by exact Hrun. rewrite Hdoc, Hload.
  split; [|done]. erewrite sm_bind_ok by reflexivity. by rewrite Hmap.
Qed.

(** ** Writes *)

(** The schema version a new record gets. *)
Definition new_version (d : string) c : N :=
  match registry_get d (rw_val (ls_schema (cl_local c))) with Some s => ds_version s | None => 0%N end.

(** The fields an edit writes, with its time. *)
Definition stamped (now : N) (fields : gmap string CrdtValue) c : gmap string CrdtValue :=
  let t := (hlc_now now (ls_clock (cl_local c))).1 in
  <["updatedAt" := VNumber (f64_of_N (ts_wall t))]> (base.delete "updated_at" fields).

Lemma stamp_fields now fields c :
  <["updatedAt" := updated_at (hlc_now now (ls_clock (cl_local c))).1]> (filter_meta_fields fields) = stamped now fields c.
Proof.
  unfold stamped, filter_meta_fields. apply map_eq. intros k. destruct (decide (k = "updatedAt")) as [->|Hne].
  - by rewrite !lookup_insert_eq.
  - rewrite !lookup_insert_ne, !lookup_delete by done. repeat case_decide; congruence.
Qed.

Definition inserted (dr : write_draws) (d r : string) (fields : gmap string CrdtValue) c : CRDTDocument :=
  set_fields (stamped (wd_now dr) fields c) (document_new (wd_client_id dr) d r (new_version d c)).

(** The bytes fit the client's limit, the cipher's and the snapshot's. *)
Definition size_ok (bs : bytes) c : Prop :=
  (N.of_nat (length bs) ≤ cf_max_document_size (cl_config c))%N ∧
  (N.of_nat (length bs) ≤ aead_limit)%N ∧ (N.of_nat (length bs) ≤ MAX_SNAPSHOT_SIZE)%N.

(** The entry of a write is pending and carries the update encrypted. *)
Definition entry_of_write (dr : write_draws) (ty : MutationType) (d r : string) (update : bytes) c (e : OplogEntry) : Prop :=
  oe_id e = wd_mutation_id dr ∧ oe_namespace e = cl_ns c ∧ oe_replica_id e = cf_replica_id (cl_config c) ∧
  oe_mutation_type e = ty ∧ oe_doc_id e = d ∧ oe_record_id e = r ∧ oe_yrs_update e = update ∧
  oe_sync_status e = Optimistic ∧ ∃ blob, oe_encrypted_blob e = Some blob ∧ decrypt_symmetric blob (cl_ns c) = Ok update.

Lemma draw_time_ok now (l : LocalState) : draw_time now l = (Ok (hlc_now now (ls_clock l)).1, with_clock (hlc_now now (ls_clock l)).2 l).
Proof. unfold draw_time. by destruct (hlc_now now (ls_clock l)). Qed.

(** Only the clock changes. *)
Definition same_but_clock c c' : Prop := ∃ h, c' = with_local (with_clock h (cl_local c)) c.

Lemma same_but_clock_ready c c' : same_but_clock c c' → client_ready c → client_ready c'.
Proof. by intros [h ->] (?&?&?&?&?&?). Qed.

Lemma clear_wrap_ok c : ∃ c', (on_local clear_wrap : M unit) c = (Ok tt, c') ∧ same_but_clock c c'.
Proof.
  eexists. split; [by apply on_local_ok|]. destruct (did_logical_wrap _); [by eexists|].
  exists (ls_clock (cl_local c)). by destruct c as [? ? ? ? [] ?].
Qed.

Lemma wrote_after_clock d r bs e c c1 c2 : same_but_clock c c1 → wrote d r bs e c1 c2 → wrote d r bs e c c2.
Proof. intros [h ->] (?&?&?&?&?&?&?&?). by split_and!. Qed.

Lemma same_but_clock_trans c c1 c2 : same_but_clock c c1 → same_but_clock c1 c2 → same_but_clock c c2.
Proof. intros [h1 ->] [h2 ->]. by exists h2. Qed.

Lemma encrypt_ok nonce bs c : client_ready c → length nonce = 12 → (N.of_nat (length bs) ≤ aead_limit)%N →
  ∃ blob, (on_local (on_keyring (encrypt_symmetric nonce bs (cl_ns c))) : M bytes) c = (Ok blob, c) ∧
    u64_from_le_bytes (take 8 blob) = ri_active_version (rw_val (ls_keyring (cl_local c))) ∧
    decrypt_symmetric blob (cl_ns c) = Ok bs.
Proof.
  intros (_ & _ & _ & Hp & Hv & _) Hn Hlen.
  destruct (encrypt_symmetric_ok (ls_keyring (cl_local c)) nonce bs (cl_ns c) Hp Hn Hv Hlen) as (blob & Hrun & Hver & Hdec).
  exists blob. split; [|done]. erewrite on_local_ok; cycle 1.
  { unfold on_keyring, zoom. rewrite Hrun. reflexivity. }
  by destruct c as [? ? ? ? [] ?].
Qed.

Lemma insert_ok dr d r fields c : client_ready c → length (wd_nonce dr) = 12 →
  let doc := inserted dr d r fields c in
  size_ok (to_snapshot doc) c →
  ∃ c' e, (insert dr d r fields : M unit) c = (Ok tt, c') ∧ wrote d r (to_snapshot doc) e c c' ∧
    entry_of_write dr CrdtInsert d r (to_snapshot doc) c e.
Proof.
  intros Hr Hn doc (Hmax & Haead & _). unfold insert. erewrite sm_bind_ok by reflexivity.
  pose proof Hr as (_ & Hsch & _).
  erewrite sm_bind_ok.
  2: { apply on_local_ok. unfold registered_version. erewrite sm_bind_ok by (unfold rw_lock; rewrite Hsch; reflexivity). reflexivity. }
  erewrite sm_bind_ok by (apply on_local_ok, draw_time_ok).
  set (c1 := with_local _ (with_local _ c)).
  assert (Hc1 : same_but_clock c c1) by (by eexists).
  unfold capture_incremental_update. cbv zeta.
  change (ls_clock (cl_local (with_local (cl_local c) c))) with (ls_clock (cl_local c)). rewrite stamp_fields.
  change (set_fields _ (document_new _ _ _ _)) with doc. change (y_encode_state (cd_inner doc)) with (to_snapshot doc).
  erewrite sm_bind_ok by (unfold check_size; rewrite (proj2 (N.ltb_ge _ _)) by done; reflexivity).
  destruct (encrypt_ok (wd_nonce dr) (to_snapshot doc) c1) as (blob & Henc & _ & Hdec);
    [by eapply same_but_clock_ready|done|done|].
  change (cl_ns c1) with (cl_ns c) in Henc, Hdec. erewrite sm_bind_ok by exact Henc.
  destruct (clear_wrap_ok c1) as (c2 & Hclear & Hc2). erewrite sm_bind_ok by exact Hclear.
  pose proof (same_but_clock_trans _ _ _ Hc1 Hc2) as Hc.
  set (e := client_entry _ _ _ _ _ _ _ _ _ _).
  destruct (store_write_ok (wd_ring_now dr) doc d r e c2) as (c' & Hrun & Hw); [by eapply same_but_clock_ready|].
  exists c', e. split; [exact Hrun|]. split; [by eapply wrote_after_clock|]. split_and!; try done. by eexists.
Qed.

(** Loading a record and checking its version. *)
Lemma stored_ok d r bs c : client_ready c → a_docs (cl_view c) !! (d, r) = Some bs →
  ∃ c1, (cl_on_storage (get_document d r) : M _) c = (Ok (Some bs), c1) ∧ client_ready c1 ∧ cl_view c1 = cl_view c ∧
    ∃ s, c1 = with_cl_storage s c.
Proof.
  intros Hr Hbs. pose proof Hr as (Hh & _).
  destruct (cl_storage_ok _ _ _ c (get_document_ok d r) Hh) as (s1 & Hrun & Hv & Hh1). rewrite Hbs in Hrun.
  exists (with_cl_storage s1 c). split_and!; [done|by apply ready_with_storage|done|by exists s1].
Qed.

Lemma enforce_version_ok d v c : client_ready c →
  validate_version d v (rw_val (ls_schema (cl_local c))) = Ok tt → (on_local (enforce_version d v) : M unit) c = (Ok tt, c).
Proof.
  intros (_ & Hsch & _) Hval. unfold on_local, zoom, enforce_version.
  erewrite sm_bind_ok by (unfold rw_lock; rewrite Hsch; reflexivity). rewrite Hval.
  by destruct c as [? ? ? ? [] ?].
Qed.

Lemma wrote_after_read d r bs e s c c' : st_view s = cl_view c → wrote d r bs e (with_cl_storage s c) c' → wrote d r bs e c c'.
Proof. intros Hv (?&Hview&?&?&?&?&?&?). split_and!; try done. rewrite Hview. simpl. by rewrite Hv. Qed.

Lemma update_ok dr d r fields bs (doc : CRDTDocument) c : client_ready c → length (wd_nonce dr) = 12 →
  a_docs (cl_view c) !! (d, r) = Some bs → from_snapshot (wd_client_id dr) bs = Ok doc →
  validate_version d (cd_schema_version doc) (rw_val (ls_schema (cl_local c))) = Ok tt →
  content_changed (filter_meta_fields fields) doc = true →
  let doc' := set_fields (stamped (wd_now dr) fields c) doc in
  size_ok (to_snapshot doc') c →
  ∃ c' e, (update dr d r fields : M unit) c = (Ok tt, c') ∧ wrote d r (to_snapshot doc') e c c' ∧
    entry_of_write dr CrdtUpdate d r (to_snapshot doc') c e.
Proof.
  intros Hr Hn Hbs Hdoc Hval Hch doc' (Hmax & Haead & _). unfold update. erewrite sm_bind_ok by reflexivity.
  destruct (stored_ok d r bs c Hr Hbs) as (c1 & Hget & Hr1 & Hv1 & s1 & Hs1).
  erewrite sm_bind_ok.
  2: { unfold load_for_update. erewrite sm_bind_ok by exact Hget. cbv beta iota. rewrite Hdoc. reflexivity. }
  erewrite sm_bind_ok by (apply enforce_version_ok; [done|by subst c1]).
  rewrite Hch. cbn [negb]. erewrite sm_bind_ok by (apply on_local_ok, draw_time_ok).
  set (c2 := with_local _ c1). assert (Hc2 : same_but_clock c1 c2) by (by eexists).
  destruct (clear_wrap_ok c2) as (c3 & Hclear & Hc3). erewrite sm_bind_ok by exact Hclear.
  pose proof (same_but_clock_trans _ _ _ Hc2 Hc3) as Hc. pose proof (same_but_clock_ready _ _ Hc Hr1) as Hr3.
  unfold capture_incremental_update. cbv zeta.
  assert (Hd : set_fields (<["updatedAt" := updated_at (hlc_now (wd_now dr) (ls_clock (cl_local c1))).1]> (filter_meta_fields fields)) doc = doc')
    by (rewrite stamp_fields; by subst c1).
  rewrite Hd. change (y_encode_state (cd_inner doc')) with (to_snapshot doc').
  erewrite sm_bind_ok by (unfold check_size; rewrite (proj2 (N.ltb_ge _ _)) by done; reflexivity).
  destruct (encrypt_ok (wd_nonce dr) (to_snapshot doc') c3 Hr3 Hn Haead) as (blob & Henc & _ & Hdec).
  assert (Hns : cl_ns c3 = cl_ns c) by (destruct Hc as [h ->]; by subst c1).
  rewrite Hns in Henc, Hdec. erewrite sm_bind_ok by exact Henc.
  set (e := client_entry _ _ _ _ _ _ _ _ _ _).
  destruct (store_write_ok (wd_ring_now dr) doc' d r e c3 Hr3) as (c' & Hrun & Hw).
  exists c', e. split; [exact Hrun|]. split.
  - eapply wrote_after_read; [|rewrite <-Hs1; by eapply wrote_after_clock]. by subst c1.
  - split_and!; try done. by eexists.
Qed.

Lemma delete_ok dr d r bs (doc : CRDTDocument) c : client_ready c → length (wd_nonce dr) = 12 →
  a_docs (cl_view c) !! (d, r) = Some bs → from_snapshot (wd_client_id dr) bs = Ok doc →
  validate_version d (cd_schema_version doc) (rw_val (ls_schema (cl_local c))) = Ok tt →
  let '(upd, doc') := set_field "_deleted" (VBoolean true) doc in
  (N.of_nat (length upd) ≤ aead_limit)%N →
  ∃ c' e, (delete dr d r : M unit) c = (Ok tt, c') ∧ wrote d r (to_snapshot doc') e c c' ∧
    entry_of_write dr CrdtDelete d r upd c e.
Proof.
  intros Hr Hn Hbs Hdoc Hval. destruct (set_field "_deleted" (VBoolean true) doc) as [upd doc'] eqn:Hset. intros Haead.
  unfold delete. erewrite sm_bind_ok by reflexivity.
  destruct (stored_ok d r bs c Hr Hbs) as (c1 & Hget & Hr1 & Hv1 & s1 & Hs1). erewrite sm_bind_ok by exact Hget.
  cbv beta iota. erewrite sm_bind_ok by (rewrite Hdoc; reflexivity).
  erewrite sm_bind_ok by (apply enforce_version_ok; [done|by subst c1]).
  cbv beta. rewrite Hset. destruct (encrypt_ok (wd_nonce dr) upd c1 Hr1 Hn Haead) as (blob & Henc & _ & Hdec).
  assert (Hns : cl_ns c1 = cl_ns c) by (by subst c1). rewrite Hns in Henc, Hdec. erewrite sm_bind_ok by exact Henc.
  erewrite sm_bind_ok by (apply on_local_ok, draw_time_ok).
  set (c2 := with_local _ c1). assert (Hc2 : same_but_clock c1 c2) by (by eexists).
  destruct (clear_wrap_ok c2) as (c3 & Hclear & Hc3). erewrite sm_bind_ok by exact Hclear.
  pose proof (same_but_clock_trans _ _ _ Hc2 Hc3) as Hc. pose proof (same_but_clock_ready _ _ Hc Hr1) as Hr3.
  set (e := client_entry _ _ _ _ _ _ _ _ _ _).
  destruct (store_write_ok (wd_ring_now dr) doc' d r e c3 Hr3) as (c' & Hrun & Hw).
  exists c', e. split; [exact Hrun|]. split.
  - eapply wrote_after_read; [|rewrite <-Hs1; by eapply wrote_after_clock]. by subst c1.
  - split_and!; try done. by eexists.
Qed.

(** ** Writes that are refused *)

(** The document is beyond the client's limit, or of another schema version. *)
Definition too_large (bs : bytes) c : Prop := (cf_max_document_size (cl_config c) < N.of_nat (length bs))%N.

Lemma check_size_err (bs : bytes) cfg : (cf_max_document_size cfg < N.of_nat (length bs))%N →
  check_size cfg bs = Err (EDocumentTooLarge (N.of_nat (length bs)) (cf_max_document_size cfg)).
Proof. intros Hb%N.ltb_lt. unfold check_size. by rewrite Hb. Qed.

Lemma insert_too_large dr d r fields c : client_ready c →
  let bs := to_snapshot (inserted dr d r fields c) in
  too_large bs c →
  ∃ c', (insert dr d r fields : M unit) c =
      (Err (Fail (EDocumentTooLarge (N.of_nat (length bs)) (cf_max_document_size (cl_config c)))), c') ∧
    cl_view c' = cl_view c.
Proof.
  intros (_ & Hsch & _) bs Hbig. unfold insert. erewrite sm_bind_ok by reflexivity.
  erewrite sm_bind_ok.
  2: { apply on_local_ok. unfold registered_version. erewrite sm_bind_ok by (unfold rw_lock; rewrite Hsch; reflexivity). reflexivity. }
  erewrite sm_bind_ok by (apply on_local_ok, draw_time_ok). unfold capture_incremental_update. cbv zeta.
  change (ls_clock (cl_local (with_local (cl_local c) c))) with (ls_clock (cl_local c)). rewrite stamp_fields.
  change (y_encode_state _) with bs. rewrite (check_size_err bs) by done. by eexists.
Qed.

Lemma enforce_version_err d v e c : client_ready c →
  validate_version d v (rw_val (ls_schema (cl_local c))) = Err e →
  (on_local (enforce_version d v) : M unit) c = (Err (Fail e), c).
Proof.
  intros (_ & Hsch & _) Hval. unfold on_local, zoom, enforce_version.
  erewrite sm_bind_ok by (unfold rw_lock; rewrite Hsch; reflexivity). rewrite Hval.
  by destruct c as [? ? ? ? [] ?].
Qed.

Lemma load_for_update_ok cid d r bs (doc : CRDTDocument) c : client_ready c → a_docs (cl_view c) !! (d, r) = Some bs →
  from_snapshot cid bs = Ok doc →
  ∃ s, (load_for_update cid d r : M _) c = (Ok doc, with_cl_storage s c) ∧ st_view s = cl_view c ∧
    client_ready (with_cl_storage s c).
Proof.
  intros Hr Hbs Hdoc. destruct (stored_ok d r bs c Hr Hbs) as (c1 & Hget & Hr1 & Hv1 & s1 & ->).
  exists s1. split; [|done]. unfold load_for_update. erewrite sm_bind_ok by exact Hget. cbv beta iota. by rewrite Hdoc.
Qed.

Lemma update_wrong_version dr d r fields bs (doc : CRDTDocument) e c : client_ready c →
  a_docs (cl_view c) !! (d, r) = Some bs → from_snapshot (wd_client_id dr) bs = Ok doc →
  validate_version d (cd_schema_version doc) (rw_val (ls_schema (cl_local c))) = Err e →
  ∃ c', (update dr d r fields : M unit) c = (Err (Fail e), c') ∧ cl_view c' = cl_view c.
Proof.
  intros Hr Hbs Hdoc Hval. destruct (load_for_update_ok _ _ _ _ _ _ Hr Hbs Hdoc) as (s & Hload & Hv & Hr1).
  exists (with_cl_storage s c). split; [|done]. unfold update. erewrite sm_bind_ok by reflexivity.
  erewrite sm_bind_ok by exact Hload. by erewrite sm_bind_err by by apply enforce_version_err.
Qed.

Lemma update_too_large dr d r fields bs (doc : CRDTDocument) c : client_ready c →
  a_docs (cl_view c) !! (d, r) = Some bs → from_snapshot (wd_client_id dr) bs = Ok doc →
  validate_version d (cd_schema_version doc) (rw_val (ls_schema (cl_local c))) = Ok tt →
  content_changed (filter_meta_fields fields) doc = true →
  let bs' := to_snapshot (set_fields (stamped (wd_now dr) fields c) doc) in
  too_large bs' c →
  ∃ c', (update dr d r fields : M unit) c =
      (Err (Fail (EDocumentTooLarge (N.of_nat (length bs')) (cf_max_document_size (cl_config c)))), c') ∧
    cl_view c' = cl_view c.
Proof.
  intros Hr Hbs Hdoc Hval Hch bs' Hbig. destruct (load_for_update_ok _ _ _ _ _ _ Hr Hbs Hdoc) as (s & Hload & Hv & Hr1).
  unfold update. erewrite sm_bind_ok by reflexivity. erewrite sm_bind_ok by exact Hload.
  erewrite sm_bind_ok by by apply enforce_version_ok. rewrite Hch. cbn [negb].
  erewrite sm_bind_ok by (apply on_local_ok, draw_time_ok).
  destruct (clear_wrap_ok (with_local (with_clock (hlc_now (wd_now dr) (ls_clock (cl_local (with_cl_storage s c)))).2
    (cl_local (with_cl_storage s c))) (with_cl_storage s c))) as (c2 & Hclear & h & Hc2).
  erewrite sm_bind_ok by exact Hclear. unfold capture_incremental_update. cbv zeta. rewrite stamp_fields.
  change (y_encode_state _) with bs'. rewrite (check_size_err bs') by done. exists c2. by subst c2.
Qed.

Lemma delete_wrong_version dr d r bs (doc : CRDTDocument) e c : client_ready c →
  a_docs (cl_view c) !! (d, r) = Some bs → from_snapshot (wd_client_id dr) bs = Ok doc →
  validate_version d (cd_schema_version doc) (rw_val (ls_schema (cl_local c))) = Err e →
  ∃ c', (delete dr d r : M unit) c = (Err (Fail e), c') ∧ cl_view c' = cl_view c.
Proof.
  intros Hr Hbs Hdoc Hval. destruct (stored_ok d r bs c Hr Hbs) as (c1 & Hget & Hr1 & Hv1 & s1 & ->).
  exists (with_cl_storage s1 c). split; [|done]. unfold delete. erewrite sm_bind_ok by reflexivity.
  erewrite sm_bind_ok by exact Hget. cbv beta iota. erewrite sm_bind_ok by (rewrite Hdoc; reflexivity).
  by erewrite sm_bind_err by by apply enforce_version_err.
Qed.

(** ** Fields of a new record *)

(** The keys a new document sets itself. *)
Definition meta_keys : list string := ["doc_id"; "record_id"; "schema_version"].

Lemma stamped_field now fields c k : k ∉ ["updatedAt"; "updated_at"] → stamped now fields c !! k = fields !! k.
Proof.
  intros Hk. unfold stamped, filter_meta_fields.
  rewrite lookup_insert_ne, !lookup_delete_ne by (intros <-; apply Hk; set_solver). done.
Qed.

Lemma inserted_field dr d r fields c k : k ∉ meta_keys →
  to_map (inserted dr d r fields c) !! k = stamped (wd_now dr) fields c !! k.
Proof.
  intros Hk. unfold inserted. rewrite set_fields_map, document_new_map, lookup_union_l; [done|]. unfold meta_fields.
  by rewrite !lookup_insert_ne, lookup_singleton_ne by (intros <-; apply Hk; set_solver).
Qed.

Lemma deleted_other_key : ("_deleted" ∉ meta_keys) ∧ ("_deleted" ∉ ["updatedAt"; "updated_at"]).
Proof. split; apply (bool_decide_unpack _); vm_compute; exact I. Qed.

(** Merged into another document, a new record leaves the keys it does not
    name. *)
Lemma inserted_other_keys dr d r fields c u d0 k : k ∉ meta_keys → k ∉ ["updatedAt"; "updated_at"] →
  fields !! k = None → y_decode (to_snapshot (inserted dr d r fields c)) = Ok u →
  y_root (y_apply u d0) !! k = y_root d0 !! k.
Proof.
  intros Hm Ht Hf. unfold to_snapshot, inserted. rewrite (proj1 (set_fields_inner _ _)).
  set (fs := stamped (wd_now dr) fields c). set (v := new_version d c).
  set (es := [("doc_id", AnyString d); ("record_id", AnyString r); ("schema_version", AnyNumber (f64_of_N v))]).
  change (cd_inner (document_new _ d r v)) with (y_inserts es (y_new (wd_client_id dr))).
  unfold y_inserts at 1 2. rewrite <-foldl_app. apply y_merge_other_keys.
  rewrite fmap_app, elem_of_app. intros [H|H]; [by apply Hm|]. unfold edits_of in H.
  rewrite <-list_fmap_compose in H. apply list_elem_of_fmap in H as ([k' x] & -> & Hx%elem_of_map_to_list).
  unfold fs in Hx. cbn in *. by rewrite stamped_field, Hf in Hx.
Qed.

(** ** Properties *)

Lemma stamped_deleted now fields (m : gmap string CrdtValue) c : m !! "_deleted" = None →
  marked_deleted (stamped now fields c ∪ m) = marked_deleted fields.
Proof.
  intros Hm. unfold marked_deleted, stamped, filter_meta_fields. rewrite lookup_union_l by done.
  by rewrite lookup_insert_ne, !lookup_delete_ne by done.
Qed.

Lemma wrote_docs d r bs e c c' : wrote d r bs e c c' →
  a_docs (cl_view c') = <[(d, r) := bs]> (a_docs (cl_view c)) ∧ a_log (cl_view c') = a_log (cl_view c) ++ [e].
Proof. by intros (_ & -> & _). Qed.

(** C9: Read your writes.  On a client whose storage works, whose locks are intact
    and which has an active key, an insertion whose document is within the limits
    of the configuration, of the cipher and of snapshots succeeds.  Reading the
    record back gives exactly the fields written, with [updatedAt] set to the time
    of the write and [updated_at] dropped, and with the engine's own [doc_id],
    [record_id] and [schema_version] where the user wrote none; only if the fields
    written mark the record as deleted ([_deleted] is [true]) the read finds
    nothing.  One entry is added to the log, which carries the whole new document
    encrypted for upload, and no other record changes.  A document beyond the
    configured limit is refused with [DocumentTooLarge], and neither the documents
    nor the log change. *)
Theorem insert_then_get dr cid d r fields c : client_ready c → length (wd_nonce dr) = 12 →
  let bs := to_snapshot (inserted dr d r fields c) in
  let record := stamped (wd_now dr) fields c ∪ meta_fields d r (new_version d c) in
  (size_ok bs c → ∃ c1 c2 e, (insert dr d r fields : M unit) c = (Ok tt, c1) ∧
    (get cid d r : M _) c1 = (Ok (if marked_deleted fields then None else Some record), c2) ∧
    a_log (cl_view c1) = a_log (cl_view c) ++ [e] ∧ entry_of_write dr CrdtInsert d r bs c e ∧
    ∀ key, key ≠ (d, r) → a_docs (cl_view c1) !! key = a_docs (cl_view c) !! key) ∧
  (too_large bs c → ∃ c1, (insert dr d r fields : M unit) c =
      (Err (Fail (EDocumentTooLarge (N.of_nat (length bs)) (cf_max_document_size (cl_config c)))), c1) ∧
    cl_view c1 = cl_view c).
Proof.
  intros Hr Hn bs record. split; [intros Hsize|by apply insert_too_large].
  destruct (insert_ok dr d r fields c Hr Hn Hsize) as (c1 & e & Hrun & Hw & He).
  destruct (wrote_docs _ _ _ _ _ _ Hw) as [Hdocs Hlog].
  destruct (get_ok cid d r (inserted dr d r fields c) c1) as (c2 & Hget & _); [apply Hw| |apply Hsize|].
  { by rewrite Hdocs, lookup_insert_eq. }
  exists c1, c2, e. unfold inserted in Hget. rewrite set_fields_map, document_new_map, stamped_deleted in Hget by done.
  split_and!; try done. intros key Hne. by rewrite Hdocs, lookup_insert_ne by done.
Qed.

(** Some field of the edit is new or has another value. *)
Definition changes (fields : gmap string CrdtValue) (doc : CRDTDocument) : Prop :=
  ∃ k v, fields !! k = Some v ∧ (k ∉ ["updatedAt"; "updated_at"]) ∧
    match to_map doc !! k with Some v' => crdt_eqb v' v = false | None => True end.

Lemma content_changed_spec fields doc : content_changed (filter_meta_fields fields) doc = true ↔ changes fields doc.
Proof.
  unfold content_changed. rewrite existsb_exists. unfold changes, filter_meta_fields, to_map, get_field. split.
  - intros ([k v] & Hin%list_elem_of_In%elem_of_map_to_list & Hc).
    apply lookup_delete_Some in Hin as [H1 [H2 Hk]%lookup_delete_Some]. exists k, v. split; [done|]. split; [set_solver|].
    cbn in Hc. rewrite lookup_fmap. destruct (y_root (cd_inner doc) !! k); [|done]. by apply negb_true_iff.
  - intros (k & v & Hk & Hn & Hc). exists (k, v). split.
    + apply list_elem_of_In, elem_of_map_to_list. rewrite !lookup_delete_ne by (intros <-; apply Hn; set_solver). done.
    + cbn. rewrite lookup_fmap in Hc. destruct (y_root (cd_inner doc) !! k); [|done]. by apply negb_true_iff.
Qed.

(** C18: An update of a stored record, on a client whose storage works, whose locks
    are intact and which has an active key.  If the record's schema version is not
    the registered one, the update fails with [VersionMismatch] and neither the
    documents nor the log change.  Otherwise, when some field gets a new value:
    within the limits of the configuration, of the cipher and of snapshots the
    record is afterwards the old one with the written fields and the time of the
    write on top, which a read returns unless this record is marked as deleted
    (the update writes [_deleted], or the record was a tombstone and the update
    leaves the mark), and one entry with the whole document is logged; beyond the
    configured limit the update fails with [DocumentTooLarge] and nothing is
    written.  When no field changes, nothing is written and no entry is logged. *)
Theorem update_then_get dr cid d r fields bs (doc : CRDTDocument) c : client_ready c → length (wd_nonce dr) = 12 →
  a_docs (cl_view c) !! (d, r) = Some bs → from_snapshot (wd_client_id dr) bs = Ok doc →
  let doc' := set_fields (stamped (wd_now dr) fields c) doc in
  let record := stamped (wd_now dr) fields c ∪ to_map doc in
  match validate_version d (cd_schema_version doc) (rw_val (ls_schema (cl_local c))) with
  | Err e => ∃ c1, (update dr d r fields : M unit) c = (Err (Fail e), c1) ∧ cl_view c1 = cl_view c
  | Ok _ =>
      (changes fields doc → size_ok (to_snapshot doc') c →
        ∃ c1 c2 e, (update dr d r fields : M unit) c = (Ok tt, c1) ∧
          (get cid d r : M _) c1 = (Ok (if marked_deleted record then None else Some record), c2) ∧
          a_log (cl_view c1) = a_log (cl_view c) ++ [e] ∧ entry_of_write dr CrdtUpdate d r (to_snapshot doc') c e) ∧
      (changes fields doc → too_large (to_snapshot doc') c →
        ∃ c1, (update dr d r fields : M unit) c = (Err (Fail (EDocumentTooLarge
            (N.of_nat (length (to_snapshot doc'))) (cf_max_document_size (cl_config c)))), c1) ∧
          cl_view c1 = cl_view c) ∧
      (¬ changes fields doc →
        ∃ c1, (update dr d r fields : M unit) c = (Ok tt, c1) ∧ cl_view c1 = cl_view c ∧ cl_local c1 = cl_local c)
  end.
Proof.
  intros Hr Hn Hbs Hdoc doc' record.
  destruct (validate_version _ _ _) as [[]|e] eqn:Hval; [|by eapply update_wrong_version].
  rewrite <-content_changed_spec.
  split_and!; intros Hch; [intros Hsize|by eapply update_too_large|apply not_true_is_false in Hch].
  - destruct (update_ok dr d r fields bs doc c Hr Hn Hbs Hdoc Hval Hch Hsize) as (c1 & e & Hrun & Hw & He).
    destruct (wrote_docs _ _ _ _ _ _ Hw) as [Hdocs Hlog].
    destruct (get_ok cid d r doc' c1) as (c2 & Hget & _); [apply Hw| |apply Hsize|].
    { by rewrite Hdocs, lookup_insert_eq. }
    exists c1, c2, e. unfold doc' in Hget. rewrite set_fields_map in Hget. by split_and!.
  - destruct (load_for_update_ok _ _ _ _ _ _ Hr Hbs Hdoc) as (s & Hload & Hv & Hr1). exists (with_cl_storage s c).
    split_and!; [|done..]. unfold update. erewrite sm_bind_ok by reflexivity. erewrite sm_bind_ok by exact Hload.
    erewrite sm_bind_ok by by apply enforce_version_ok. by rewrite Hch.
Qed.

(** C10: Deleting a stored record hides it, on a client whose storage works, whose
    locks are intact and which has an active key.  If the record has the
    registered schema version and the change fits the cipher and the snapshots, a
    read afterwards finds nothing, while the document stays stored with a mark,
    and the logged entry carries just the change that sets the mark.  A record of
    another schema version cannot be deleted: the call fails with
    [VersionMismatch], and neither the documents nor the log change. *)
Theorem delete_hides_record dr cid d r bs (doc : CRDTDocument) c : client_ready c → length (wd_nonce dr) = 12 →
  a_docs (cl_view c) !! (d, r) = Some bs → from_snapshot (wd_client_id dr) bs = Ok doc →
  let '(upd, doc') := set_field "_deleted" (VBoolean true) doc in
  match validate_version d (cd_schema_version doc) (rw_val (ls_schema (cl_local c))) with
  | Err e => ∃ c1, (delete dr d r : M unit) c = (Err (Fail e), c1) ∧ cl_view c1 = cl_view c
  | Ok _ => (N.of_nat (length upd) ≤ aead_limit)%N → storable (cd_inner doc') →
      ∃ c1 c2 e, (delete dr d r : M unit) c = (Ok tt, c1) ∧ (get cid d r : M _) c1 = (Ok None, c2) ∧
        a_docs (cl_view c1) !! (d, r) = Some (to_snapshot doc') ∧
        a_log (cl_view c1) = a_log (cl_view c) ++ [e] ∧ entry_of_write dr CrdtDelete d r upd c e
  end.
Proof.
  intros Hr Hn Hbs Hdoc. pose proof (delete_ok dr d r bs doc c Hr Hn Hbs Hdoc) as Hok.
  assert (Hmark : marked_deleted (to_map (set_field "_deleted" (VBoolean true) doc).2) = true).
  { unfold marked_deleted, to_map, set_field. cbn [cd_inner snd set_inner].
    by rewrite y_insert_root, fmap_insert, lookup_insert_eq. }
  destruct (set_field "_deleted" (VBoolean true) doc) as [upd doc'].
  destruct (validate_version _ _ _) as [[]|e] eqn:Hval; [|by eapply delete_wrong_version]. intros Haead Hfit.
  destruct (Hok eq_refl Haead) as (c1 & e & Hrun & Hw & He). destruct (wrote_docs _ _ _ _ _ _ Hw) as [Hdocs Hlog].
  assert (Hst : a_docs (cl_view c1) !! (d, r) = Some (to_snapshot doc')) by (by rewrite Hdocs, lookup_insert_eq).
  destruct (get_ok cid d r doc' c1 (proj1 (proj1 Hw)) Hst Hfit) as (c2 & Hget & _).
  exists c1, c2, e. cbn [snd] in Hmark. rewrite Hmark in Hget. by split_and!.
Qed.
End client_theory.

(** ** Witnesses *)

#[local] Existing Instance toy_crypto.
#[local] Existing Instance toy_crypto_spec.

Definition sample_local : LocalState :=
  Local (rw_new registry_new) toy_ring (hlc_new 5) (rw_new engine_new) 0 (shm_create [] 256) None 0 [].

Definition sample_queues : QueueState :=
  Queues (OpLog_new "ns") (rw_new (retry_new retry_config_default)) None 0 (rw_new (∅, [])) false false (rw_new ∅) 0 true true.

(** A client of the namespace [ns] that holds the given documents. *)
Definition sample_client (replica : string) (docs : gmap doc_key bytes) (co : InMemoryCoordinator.t) :
    VaultSyncClient InMemoryStorage.t InMemoryCoordinator.t InMemorySyncStateStore.t :=
  Client (ClientConfig_new "ns" replica false 1000000 1 upload_config_default (DownloadConfig_new 50 0) 1000)
    (InMemoryStorage.mk (rw_new docs) (rw_new []) (rw_new ∅) (rw_new ∅) (rw_new []) (rw_new []))
    co (InMemorySyncStateStore.with_cursor 0) sample_local sample_queues.

Definition sample_draws : write_draws := WriteDraws "m1" (replicate 12 3%N) 9 7 8.
Definition sample_fields : gmap string CrdtValue := {["title" := VString "milk"]}.

Lemma sample_client_ready replica docs co : client_ready (sample_client replica docs co).
Proof. by split_and!. Qed.

(** The size conditions, by evaluation. *)
Definition size_okb (bs : bytes) : bool := (N.of_nat (length bs) <=? 1000000)%N.

Lemma size_okb_ok bs replica docs co : size_okb bs = true → size_ok bs (sample_client replica docs co).
Proof.
  intros H%N.leb_le. unfold size_ok. cbn [sample_client cl_config cf_max_document_size].
  change aead_limit with 274877906880%N. unfold MAX_SNAPSHOT_SIZE. lia.
Qed.

Lemma insert_then_get_witness :
  ∃ c1 c2, (insert sample_draws "todos" "r1" sample_fields) (sample_client "alice" ∅ InMemoryCoordinator.new) = (Ok tt, c1) ∧
    get 5 "todos" "r1" c1 = (Ok (Some (stamped 7 sample_fields (sample_client "alice" ∅ InMemoryCoordinator.new) ∪
      meta_fields "todos" "r1" 0)), c2).
Proof.
  destruct (insert_then_get sample_draws 5 "todos" "r1" sample_fields (sample_client "alice" ∅ InMemoryCoordinator.new))
    as [H _]; [..|destruct H as (c1 & c2 & _ & H1 & H2 & _)].
  - apply sample_client_ready.
  - reflexivity.
  - apply size_okb_ok. vm_compute. reflexivity.
  - exists c1, c2. split; [exact H1|exact H2].
Defined.

(** The record stored by an earlier insertion, and as it is loaded. *)
Definition old_record : CRDTDocument := set_fields {["title" := VString "bread"]} (document_new 4 "todos" "r1" 0).
Definition loaded (cid : N) (doc : CRDTDocument) : CRDTDocument :=
  match from_snapshot cid (to_snapshot doc) with Ok doc' => doc' | Err _ => doc end.

Lemma loaded_ok cid doc : size_okb (to_snapshot doc) = true → from_snapshot cid (to_snapshot doc) = Ok (loaded cid doc).
Proof.
  intros H%N.leb_le. destruct (from_to_snapshot cid doc) as (doc' & Hd & _); [unfold storable; unfold to_snapshot, MAX_SNAPSHOT_SIZE in *; lia|].
  unfold loaded. by rewrite Hd.
Qed.

Definition docs_of (doc : CRDTDocument) : gmap doc_key bytes := {[("todos", "r1") := to_snapshot doc]}.
Definition old_client := sample_client "alice" (docs_of old_record) InMemoryCoordinator.new.

Lemma update_then_get_witness :
  ∃ c1 c2, (update sample_draws "todos" "r1" sample_fields) old_client = (Ok tt, c1) ∧
    get 5 "todos" "r1" c1 = (Ok (Some (stamped 7 sample_fields old_client ∪ to_map (loaded 9 old_record))), c2).
Proof.
  assert (Hch : content_changed (filter_meta_fields sample_fields) (loaded 9 old_record) = true) by (vm_compute; reflexivity).
  apply content_changed_spec in Hch.
  destruct (update_then_get sample_draws 5 "todos" "r1" sample_fields (to_snapshot old_record) (loaded 9 old_record) old_client)
    as [H _]; [..|destruct (H Hch) as (c1 & c2 & _ & H1 & H2 & _)].
  - apply sample_client_ready.
  - reflexivity.
  - reflexivity.
  - apply loaded_ok. vm_compute. reflexivity.
  - apply size_okb_ok. vm_compute. reflexivity.
  - exists c1, c2. split; [exact H1|]. rewrite H2. vm_compute (marked_deleted _). reflexivity.
Defined.

Lemma delete_hides_record_witness :
  ∃ c1 c2, delete sample_draws "todos" "r1" old_client = (Ok tt, c1) ∧ get 5 "todos" "r1" c1 = (Ok None, c2).
Proof.
  destruct (delete_hides_record sample_draws 5 "todos" "r1" (to_snapshot old_record) (loaded 9 old_record) old_client)
    as (c1 & c2 & _ & H1 & H2 & _).
  - apply sample_client_ready.
  - reflexivity.
  - reflexivity.
  - apply loaded_ok. vm_compute. reflexivity.
  - apply N.leb_le. vm_compute. reflexivity.
  - apply N.leb_le. vm_compute. reflexivity.
  - exists c1, c2. split; [exact H1|exact H2].
Defined.
