(* ===== verification/CompactionTheory.v ===== *)
(** * Properties of local compaction

    Compaction does not change what a client reads and drops no entry that is
    still to be uploaded; the snapshots it makes never reach the coordinator. *)
From S2P Require Import Prelude Types Storage E2ee E2eeTheory Coordinator SyncStateStore CrdtValue Document OpSet DocumentTheory Compaction Reconciler ReconcilerTheory Client ClientTheory.

Import SyncCompaction.

Section theory.
Context {S : Type} {HS : Storage S} {HSpec : StorageSpec S} {Y : Yrs} {HY : YrsSpec Y} {Z : SnapshotCodec}.
Implicit Types a : astore.
Implicit Types e : OplogEntry.

(** ** Documents *)

(** Every stored document is one that an engine wrote, and it still fits when
    it is encoded again. *)
Definition sound (docs : gmap doc_key bytes) : Prop :=
  ∀ key b, docs !! key = Some b → ∃ d, b = y_encode_state d ∧ ∀ d', d' ≡ d → storable d'.

(** What [get] makes of the stored bytes. *)
Definition get_result (cid : N) (b : option bytes) : result (option (gmap string CrdtValue)) VaultSyncError :=
  match b with
  | None => Ok None
  | Some bs =>
      match from_snapshot cid bs with
      | Err e => Err e
      | Ok doc => Ok (if marked_deleted (to_map doc) then None else Some (to_map doc))
      end
  end.

Lemma get_result_encode cid d : storable d → get_result cid (Some (y_encode_state d)) =
  let m := out_to_crdt_value <$> y_root d in Ok (if marked_deleted m then None else Some m).
Proof.
  intros Hd. destruct (from_snapshot_encode cid d Hd) as (d' & Hf & Heq). unfold get_result. rewrite Hf.
  unfold to_map. cbn [cd_inner]. cbv zeta. by rewrite (y_root_proper _ _ Heq).
Qed.

Lemma sound_insert docs key d : sound docs → (∀ d', d' ≡ d → storable d') → sound (<[key := y_encode_state d]> docs).
Proof.
  intros Hs Hd k b. destruct (decide (k = key)) as [->|Hne].
  - rewrite lookup_insert_eq. intros [= <-]. by exists d.
  - rewrite lookup_insert_ne by done. apply Hs.
Qed.

Lemma sound_delete docs key : sound docs → sound (base.delete key docs).
Proof. intros Hs k b [_ H]%lookup_delete_Some. by apply (Hs k). Qed.

(** A stored document as it is loaded. *)
Lemma sound_load docs key b cid : sound docs → docs !! key = Some b →
  ∃ d doc, b = y_encode_state d ∧ from_snapshot cid b = Ok doc ∧ cd_inner doc ≡ d ∧ (∀ d', d' ≡ d → storable d').
Proof.
  intros Hs Hb. destruct (Hs key b Hb) as (d & -> & Hd).
  destruct (from_snapshot_encode cid d (Hd d (reflexivity d))) as (d' & Hf & Heq). by eexists d, _.
Qed.

(** ** The relation between the store before and after *)

Definition droppable (ns : string) e : bool := in_namespace ns e && is_synced e.

Record compacts (ns : string) (a a' : astore) : Prop := {
  cp_sound : sound (a_docs a) → sound (a_docs a');
  cp_reads : sound (a_docs a) → ∀ cid key, get_result cid (a_docs a' !! key) = get_result cid (a_docs a !! key);
  cp_log : ∃ p, (∀ e, p e = true → droppable ns e = true) ∧ a_log a' = filterb (λ e, negb (p e)) (a_log a);
}.

Lemma compacts_refl ns a : compacts ns a a.
Proof. split; [done|done|]. exists (λ _, false). split; [done|]. by rewrite filterb_all. Qed.

Lemma compacts_trans ns a a1 a2 : compacts ns a a1 → compacts ns a1 a2 → compacts ns a a2.
Proof.
  intros [S1 R1 (p & Hp & L1)] [S2 R2 (q & Hq & L2)]. split; [auto|intros Hs cid key; rewrite R2, R1; auto|].
  exists (λ e, p e || q e). split.
  - intros e [H|H]%orb_prop; auto.
  - rewrite L2, L1, filterb_filterb. apply filterb_ext. intros e _. by rewrite negb_orb, andb_comm.
Qed.

Lemma compacts_drop ns p a : (∀ e, p e = true → droppable ns e = true) → compacts ns a (a_drop p a).
Proof. intros Hp. split; [done|done|]. by exists p. Qed.

(** What is not dropped stays, in order. *)
Lemma compacts_keeps ns a a' : compacts ns a a' →
  filterb (λ e, negb (droppable ns e)) (a_log a') = filterb (λ e, negb (droppable ns e)) (a_log a).
Proof.
  intros [_ _ (p & Hp & ->)]. rewrite filterb_filterb. apply filterb_ext. intros e _.
  specialize (Hp e). destruct (p e), (droppable ns e); naive_solver.
Qed.

(** ** Removing deleted records *)

Lemma tombstoned_marked cid d doc : cd_inner doc ≡ d → storable d → tombstoned doc = true →
  get_result cid (Some (y_encode_state d)) = Ok None.
Proof.
  intros Hd Hfit Ht. rewrite get_result_encode by done. cbv zeta.
  assert (marked_deleted (out_to_crdt_value <$> y_root d) = true) as -> by (unfold marked_deleted, tombstoned, get_field in *;
    by rewrite lookup_fmap, <-(y_root_proper _ _ Hd)).
  done.
Qed.

Lemma compacts_delete ns key b cid doc a : a_docs a !! key = Some b → from_snapshot cid b = Ok doc → tombstoned doc = true →
  compacts ns a (a_delete key.1 key.2 a).
Proof.
  intros Hb Hdoc Ht. destruct key as [d r]. split; simpl.
  - apply sound_delete.
  - intros Hs cid' key. destruct (decide (key = (d, r))) as [->|Hne]; [|by rewrite lookup_delete_ne].
    rewrite lookup_delete_eq, Hb. destruct (sound_load _ _ b cid Hs Hb) as (d0 & doc' & -> & Hf & Heq & Hfit).
    rewrite Hdoc in Hf. injection Hf as <-. symmetry. apply (tombstoned_marked _ _ doc); auto.
  - apply (compacts_refl ns a).
Qed.

Lemma remove_tombstone_ok ns cid d r s : st_healthy s → ∃ n s', remove_tombstone cid d r s = (Ok n, s') ∧ st_healthy s' ∧
  compacts ns (st_view s) (st_view s') ∧ a_log (st_view s') = a_log (st_view s) ∧
  ∀ key, key ≠ (d, r) → a_docs (st_view s') !! key = a_docs (st_view s) !! key.
Proof.
  intros Hh. destruct (proj1 (get_document_ok d r s) Hh) as (s1 & Hget & Hv & Hh1). unfold remove_tombstone.
  rewrite (sm_bind_ok _ _ _ _ _ Hget). unfold id in Hv.
  destruct (a_docs (st_view s) !! (d, r)) as [b|] eqn:Hb;
    [|exists 0, s1; rewrite Hv; split_and!; try done; apply compacts_refl].
  destruct (from_snapshot cid b) as [doc|e] eqn:Hdoc;
    [|exists 0, s1; rewrite Hv; split_and!; try done; apply compacts_refl].
  destruct (tombstoned doc) eqn:Ht; [|exists 0, s1; rewrite Hv; split_and!; try done; apply compacts_refl].
  destruct (proj1 (delete_document_ok d r s1) Hh1) as (s2 & Hdel & Hv2 & Hh2).
  exists 1, s2. rewrite (sm_bind_ok _ _ _ _ _ Hdel), Hv2, Hv. split_and!; try done.
  - by apply (compacts_delete ns (d, r) b cid doc).
  - intros key Hne. simpl. by rewrite lookup_delete_ne by done.
Qed.

Lemma remove_tombstones_ok ns cids keys : ∀ i s, st_healthy s → ∃ n s',
  remove_tombstones cids i keys s = (Ok n, s') ∧ st_healthy s' ∧ compacts ns (st_view s) (st_view s') ∧
  a_log (st_view s') = a_log (st_view s) ∧
  ∀ key, key ∉ keys → a_docs (st_view s') !! key = a_docs (st_view s) !! key.
Proof.
  induction keys as [|[d r] keys IH]; intros i s Hh; simpl.
  { exists 0, s. split_and!; try done. apply compacts_refl. }
  destruct (remove_tombstone_ok ns (cids i) d r s Hh) as (n & s1 & Hrun & Hh1 & Hc1 & Hl1 & Hd1).
  destruct (IH (Datatypes.S i) s1 Hh1) as (m & s2 & Hrun2 & Hh2 & Hc2 & Hl2 & Hd2).
  exists (n + m), s2. rewrite (sm_bind_ok _ _ _ _ _ Hrun), (sm_bind_ok _ _ _ _ _ Hrun2). split_and!; try done.
  - by eapply compacts_trans.
  - by rewrite Hl2.
  - intros key [Hne Hnin]%not_elem_of_cons. by rewrite Hd2, Hd1.
Qed.

(** ** Collapsing documents *)

Section collapse.
Context (config : CompactionConfig) (ns : string).

Definition synced_of (key : doc_key) (log : list OplogEntry) : list OplogEntry :=
  filterb (λ e, in_namespace ns e && of_document key.1 key.2 e && is_synced e) log.

(** Nothing is left to collapse at [key]. *)
Definition settled a (key : doc_key) : Prop :=
  cc_snapshot_entry_threshold config < length (synced_of key (a_log a)) →
  a_docs a !! key = None ∨ max_created (synced_of key (a_log a)) = 0%N.

(** Times are below the maximum of their type. *)
Definition timely a : Prop := ∀ e, e ∈ a_log a → (oe_created_at e < U64_MAX)%N.

Lemma max_created_ge es e : e ∈ es → (oe_created_at e ≤ max_created es)%N.
Proof. induction es as [|x es IH]; [intros []%elem_of_nil|]. intros [->|H]%elem_of_cons; simpl; [lia|]. specialize (IH H). lia. Qed.

Lemma max_created_lt es n : (0 < n)%N → (∀ e, e ∈ es → (oe_created_at e < n)%N) → (max_created es < n)%N.
Proof.
  intros Hn. induction es as [|x es IH]; intros H; simpl; [done|].
  assert (oe_created_at x < n)%N by (apply H; left). assert (max_created es < n)%N by (apply IH; intros e He; apply H; by right). lia.
Qed.

Lemma synced_of_in key log e : e ∈ synced_of key log → e ∈ log ∧
  (in_namespace ns e && of_document key.1 key.2 e && is_synced e) = true.
Proof. unfold synced_of. rewrite elem_of_filterb. tauto. Qed.

(** The entries that go are those of the document, all of them. *)
Lemma collapse_entries a key : timely a →
  let p := synced_of_document ns key.1 key.2 (wrapping_add64 (max_created (synced_of key (a_log a))) 1) in
  synced_of key (a_log (a_drop p a)) = [] ∧
  ∀ key', key' ≠ key → synced_of key' (a_log (a_drop p a)) = synced_of key' (a_log a).
Proof.
  intros Ht p. set (m := max_created (synced_of key (a_log a))) in p.
  assert (Hm : (m < U64_MAX)%N) by (apply max_created_lt; [done|]; intros e [He _]%synced_of_in; by apply Ht).
  assert (Hw : wrapping_add64 m 1 = (m + 1)%N) by (apply N.mod_small; change U64_MAX with 18446744073709551615%N in Hm; lia).
  unfold synced_of, a_drop. cbn [a_log]. split.
  - rewrite filterb_filterb. apply filterb_none. intros e He. apply andb_false_iff.
    destruct (in_namespace ns e && of_document key.1 key.2 e && is_synced e) eqn:Hp; [left|by right].
    unfold p, synced_of_document. rewrite Hp, Hw. cbn. apply negb_false_iff, N.ltb_lt.
    assert (oe_created_at e ≤ m)%N; [|lia]. apply max_created_ge. unfold synced_of. by apply elem_of_filterb.
  - intros key' Hne. rewrite filterb_filterb. apply filterb_ext. intros e _. unfold p, synced_of_document, of_document.
    destruct key as [d r], key' as [d' r']. cbn [fst snd]. repeat case_bool_decide; simplify_eq;
      by rewrite ?andb_false_r, ?andb_false_l, ?andb_true_l.
Qed.

Lemma timely_compacts a a' : timely a → compacts ns a a' → timely a'.
Proof. intros Ht [_ _ (p & _ & Hl)] e. rewrite Hl, elem_of_filterb. intros [_ He]. by apply Ht. Qed.

Lemma compacts_rewrite a key b cid doc : a_docs a !! key = Some b → from_snapshot cid b = Ok doc →
  compacts ns a (a_insert key.1 key.2 (to_snapshot doc) a).
Proof.
  intros Hb Hdoc. destruct key as [d r]. split; simpl.
  - intros Hs. destruct (sound_load _ _ b cid Hs Hb) as (d0 & doc' & -> & Hf & Heq & Hfit).
    rewrite Hdoc in Hf. injection Hf as <-. apply sound_insert; [done|]. intros d' Hd'. apply Hfit. by rewrite Hd'.
  - intros Hs cid' key. destruct (decide (key = (d, r))) as [->|Hne]; [|by rewrite lookup_insert_ne].
    rewrite lookup_insert_eq, Hb. destruct (sound_load _ _ b cid Hs Hb) as (d0 & doc' & -> & Hf & Heq & Hfit).
    rewrite Hdoc in Hf. injection Hf as <-. unfold to_snapshot. rewrite !get_result_encode by auto.
    by rewrite (y_root_proper _ _ Heq).
  - apply (compacts_refl ns a).
Qed.

(** What one collapse does. *)
Record collapsed (key : doc_key) a a' (snaps : list Snapshot) : Prop := {
  co_compacts : compacts ns a a';
  co_settled : settled a' key;
  co_again : settled a key → snaps = [];
  co_present : ∀ k, is_Some (a_docs a' !! k) ↔ is_Some (a_docs a !! k);
  co_entries : ∀ k, k ≠ key → synced_of k (a_log a') = synced_of k (a_log a);
}.

Lemma collapsed_same key a : settled a key → collapsed key a a [].
Proof. intros Hs. split; try done. apply compacts_refl. Qed.

Lemma present_insert (docs : gmap doc_key bytes) key b b' k : docs !! key = Some b →
  is_Some (<[key := b']> docs !! k) ↔ is_Some (docs !! k).
Proof.
  intros Hb. destruct (decide (k = key)) as [->|Hne]; [|by rewrite lookup_insert_ne].
  rewrite lookup_insert_eq, Hb. by split; eexists.
Qed.

Lemma collapsed_rewrite key a b cid doc : a_docs a !! key = Some b → from_snapshot cid b = Ok doc →
  max_created (synced_of key (a_log a)) = 0%N → collapsed key a (a_insert key.1 key.2 (to_snapshot doc) a) [].
Proof.
  intros Hb Hdoc Hm. split; try done.
  - by apply (compacts_rewrite _ _ b cid).
  - intros _. by right.
  - intros k. destruct key. by apply (present_insert _ _ b).
Qed.

Lemma collapsed_drop key a b cid doc snap : timely a → a_docs a !! key = Some b → from_snapshot cid b = Ok doc →
  cc_snapshot_entry_threshold config < length (synced_of key (a_log a)) →
  (0 < max_created (synced_of key (a_log a)))%N →
  collapsed key a (a_drop (synced_of_document ns key.1 key.2 (wrapping_add64 (max_created (synced_of key (a_log a))) 1))
    (a_insert key.1 key.2 (to_snapshot doc) a)) [snap].
Proof.
  intros Ht Hb Hdoc Hlen Hm. pose proof (compacts_rewrite _ _ _ _ _ Hb Hdoc) as Hc.
  destruct (collapse_entries (a_insert key.1 key.2 (to_snapshot doc) a) key) as [Hgone Hother]; [by eapply timely_compacts|].
  split.
  - eapply compacts_trans; [exact Hc|]. apply compacts_drop. intros e. unfold synced_of_document, droppable. repeat rewrite andb_true_iff. tauto.
  - intros H. cbn [a_insert a_log] in Hgone. rewrite Hgone in H. simpl in H. lia.
  - intros Hs. destruct (Hs Hlen) as [H|H]; [by rewrite Hb in H|lia].
  - intros k. destruct key. by apply (present_insert _ _ b).
  - exact Hother.
Qed.

Lemma collapse_ok cid d r s : st_healthy s → timely (st_view s) → ∃ n k snaps s',
  collapse config ns cid d r s = (Ok (n, k, snaps), s') ∧ st_healthy s' ∧
  (sound (a_docs (st_view s)) → collapsed (d, r) (st_view s) (st_view s') snaps).
Proof.
  intros Hh Ht. destruct (proj1 (read_synced_for_document_ok ns d r s) Hh) as (s1 & Hread & Hv1 & Hh1).
  set (es := synced_of (d, r) (a_log (st_view s))). unfold id in Hv1.
  unfold collapse. rewrite (sm_bind_ok _ _ _ es s1 Hread).
  destruct (cc_snapshot_entry_threshold config <? length es) eqn:Hlen; cycle 1.
  { eexists _, _, _, s1. split; [reflexivity|]. split; [done|]. intros _. rewrite Hv1. apply collapsed_same.
    intros H. apply Nat.ltb_ge in Hlen. fold es in H. lia. }
  apply Nat.ltb_lt in Hlen.
  destruct (proj1 (get_document_ok d r s1) Hh1) as (s2 & Hget & Hv2 & Hh2). rewrite (sm_bind_ok _ _ _ _ _ Hget). unfold id in Hv2.
  destruct (a_docs (st_view s1) !! (d, r)) as [b|] eqn:Hb; rewrite Hv1 in Hb, Hv2; cycle 1.
  { eexists _, _, _, s2. split; [reflexivity|]. split; [done|]. intros _. rewrite Hv2. apply collapsed_same. by left. }
  destruct (from_snapshot cid b) as [doc|e] eqn:Hdoc; cycle 1.
  { eexists _, _, _, s2. split; [reflexivity|]. split; [done|]. intros Hs.
    destruct (sound_load _ _ b cid Hs Hb) as (d0 & doc' & _ & Hf & _). congruence. }
  destruct (proj1 (insert_document_ok d r (to_snapshot doc) s2) Hh2) as (s3 & Hins & Hv3 & Hh3).
  cbv zeta. rewrite (sm_bind_ok _ _ _ _ _ Hins), Hv2 in *.
  destruct (N.ltb_spec 0 (max_created es)) as [Hm|Hm]; cycle 1.
  { eexists _, _, _, s3. split; [reflexivity|]. split; [done|]. intros _. rewrite Hv3.
    apply (collapsed_rewrite (d, r) _ b cid); try done. fold es. lia. }
  destruct (proj1 (delete_synced_of_document_ok ns d r (wrapping_add64 (max_created es) 1) s3) Hh3) as (s4 & Hdel & Hv4 & Hh4).
  rewrite (sm_bind_ok _ _ _ _ _ Hdel). eexists _, _, _, s4. split; [reflexivity|]. split; [done|]. intros _.
  rewrite Hv4, Hv3. by apply (collapsed_drop (d, r) _ b cid).
Qed.

Lemma settled_other a a' key k snaps : collapsed key a a' snaps → k ≠ key → settled a k → settled a' k.
Proof.
  intros Hc Hne Hs. unfold settled in *. rewrite (co_entries _ _ _ _ Hc k Hne). intros Hlen.
  destruct (Hs Hlen) as [H|H]; [left|by right]. apply eq_None_not_Some. rewrite (co_present _ _ _ _ Hc k), H. by intros [].
Qed.

Lemma collapse_all_ok cids keys : ∀ i s, st_healthy s → timely (st_view s) → sound (a_docs (st_view s)) → ∃ n k snaps s',
  collapse_all config ns cids i keys s = (Ok (n, k, snaps), s') ∧ st_healthy s' ∧ compacts ns (st_view s) (st_view s') ∧
  (∀ key, is_Some (a_docs (st_view s') !! key) ↔ is_Some (a_docs (st_view s) !! key)) ∧
  (∀ key, key ∈ keys ∨ settled (st_view s) key → settled (st_view s') key) ∧
  ((∀ key, key ∈ keys → settled (st_view s) key) → snaps = []).
Proof.
  induction keys as [|[d r] keys IH]; intros i s Hh Ht Hs; simpl.
  { eexists _, _, _, s. split; [reflexivity|]. split_and!; try done; [apply compacts_refl|]. intros key [[]%elem_of_nil|H]; done. }
  destruct (collapse_ok (cids i) d r s Hh Ht) as (n1 & k1 & sn1 & s1 & Hrun1 & Hh1 & Hc1). specialize (Hc1 Hs).
  destruct Hc1 as [Hcomp Hset Hagain Hpres Hent] eqn:E. clear E.
  destruct (IH (Datatypes.S i) s1 Hh1) as (n2 & k2 & sn2 & s2 & Hrun2 & Hh2 & Hcomp2 & Hpres2 & Hset2 & Hagain2);
    [by eapply timely_compacts|by apply (cp_sound _ _ _ Hcomp)|].
  assert (Hstep : ∀ key, key = (d, r) ∨ settled (st_view s) key → settled (st_view s1) key).
  { intros key Hk. destruct (decide (key = (d, r))) as [->|Hne]; [done|]. destruct Hk as [?|Hk]; [done|].
    by apply (settled_other (st_view s) _ (d, r) _ sn1). }
  rewrite (sm_bind_ok _ _ _ _ _ Hrun1), (sm_bind_ok _ _ _ _ _ Hrun2). eexists _, _, _, s2. split; [reflexivity|]. split_and!.
  - done.
  - by eapply compacts_trans.
  - intros key. by rewrite Hpres2.
  - intros key Hk. apply Hset2. destruct Hk as [[->|Hk]%elem_of_cons|Hk]; auto.
  - intros Hall. rewrite Hagain by (apply Hall; left). rewrite Hagain2; [done|].
    intros key Hk. apply Hstep. right. apply Hall. by right.
Qed.

(** ** The two jobs *)

Lemma run_snapshot_ok cids s : st_healthy s → timely (st_view s) → sound (a_docs (st_view s)) → ∃ stats snaps s',
  run_snapshot_compaction config ns cids s = (Ok (stats, snaps), s') ∧ st_healthy s' ∧ compacts ns (st_view s) (st_view s') ∧
  (∀ key, is_Some (a_docs (st_view s') !! key) ↔ is_Some (a_docs (st_view s) !! key)) ∧
  (∀ key, settled (st_view s') key) ∧ ((∀ key, settled (st_view s) key) → snaps = []).
Proof.
  intros Hh Ht Hs. destruct (list_active_ok ns s Hh) as (keys & s1 & Hlist & Hv1 & Hh1 & Hkeys).
  unfold run_snapshot_compaction. rewrite (sm_bind_ok _ _ _ _ _ Hlist). rewrite <-Hv1 in *.
  destruct (collapse_all_ok cids keys 0 s1 Hh1 Ht Hs) as (n & k & snaps & s2 & Hrun & Hh2 & Hc & Hp & Hset & Hagain).
  rewrite (sm_bind_ok _ _ _ _ _ Hrun). eexists _, _, s2. split; [reflexivity|]. split_and!; try done; [|auto].
  intros key. apply Hset. destruct (decide (key ∈ keys)) as [|Hn]; [by left|right]. intros Hlen. exfalso. revert Hlen.
  unfold synced_of. rewrite filterb_none; [simpl; lia|]. intros e He. apply not_true_iff_false. rewrite !andb_true_iff.
  intros [[Hns Hof] _]. apply Hn, Hkeys, list_elem_of_In, in_map_iff. exists e.
  split; [|apply list_elem_of_In, elem_of_filterb; done]. unfold of_document in Hof. destruct key. apply andb_prop in Hof as [H1 H2].
  apply bool_decide_eq_true in H1, H2. unfold entry_key. cbn in *. congruence.
Qed.

(** The store after a run. *)
Record compacted (grace : N) a a' : Prop := {
  cd_compacts : compacts ns a a';
  cd_settled : ∀ key, settled a' key;
  cd_removed : ∀ key, is_Some (a_docs a !! key) → a_docs a' !! key = None →
    ∃ e, e ∈ a_log a ∧ synced_delete ns grace e = true ∧ entry_key e = key;
}.

Lemma run_compaction_ok dr s : st_healthy s → timely (st_view s) → sound (a_docs (st_view s)) → ∃ stats s',
  run_compaction config ns dr s = (Ok stats, s') ∧ st_healthy s' ∧
  compacted (saturating_sub (cw_now_ms dr) (wrapping_mul64 (cc_tombstone_grace_secs config) 1000)) (st_view s) (st_view s').
Proof.
  intros Hh Ht Hs. unfold run_compaction.
  destruct (proj1 (delete_synced_older_ok (cw_now_secs dr) ns (cc_max_synced_age_secs config) s) Hh) as (s1 & Hold & Hv1 & Hh1).
  rewrite (sm_bind_ok _ _ _ _ _ Hold). set (p := synced_earlier _ _) in Hv1.
  assert (Hc1 : compacts ns (st_view s) (st_view s1)).
  { rewrite Hv1. apply compacts_drop. intros e. unfold p, synced_earlier, droppable. rewrite !andb_true_iff. tauto. }
  destruct (list_tombstoned_ok (cw_now_ms dr) ns (cc_tombstone_grace_secs config) s1 Hh1) as (keys & s2 & Hlist & Hv2 & Hh2 & Hkeys).
  rewrite (sm_bind_ok _ _ _ _ _ Hlist). rewrite <-Hv2 in *.
  destruct (remove_tombstones_ok ns (cw_cids dr) keys 0 s2 Hh2) as (n & s3 & Hrem & Hh3 & Hc3 & Hl3 & Hd3).
  rewrite (sm_bind_ok _ _ _ _ _ Hrem). pose proof (compacts_trans _ _ _ _ Hc1 Hc3) as Hc.
  destruct (run_snapshot_ok (cw_snapshot_cids dr) s3 Hh3) as (stats & snaps & s4 & Hrun & Hh4 & Hc4 & Hp4 & Hset & _);
    [by eapply timely_compacts|by apply (cp_sound _ _ _ Hc)|].
  rewrite (sm_bind_ok _ _ _ _ _ Hrun). eexists _, s4. split; [reflexivity|]. split; [done|]. split; [by eapply compacts_trans|done|].
  intros key Hsome Hnone. destruct (decide (key ∈ keys)) as [Hin|Hn].
  - apply Hkeys, list_elem_of_In, in_map_iff in Hin as (e & He & Hin%list_elem_of_In).
    apply elem_of_filterb in Hin as [Hdel Hin]. exists e. split_and!; try done.
    rewrite Hv1 in Hin. by apply elem_of_filterb in Hin as [_ ?].
  - exfalso. rewrite eq_None_not_Some in Hnone. apply Hnone. rewrite Hp4, Hd3, Hv1 by done. exact Hsome.
Qed.
End collapse.
End theory.

(** ** The client *)

Section client.
Context {S C T : Type} {HS : Storage S} {HSpec : StorageSpec S} {HC : Coordinator C} {HT : SyncStateStore T}.
Context {Y : Yrs} {HY : YrsSpec Y} {K : Crypto} {Z : SnapshotCodec}.
Implicit Types c : VaultSyncClient S C T.

Abbreviation M := (SM (VaultSyncClient S C T) (fault VaultSyncError)).
Abbreviation cl_view c := (st_view (cl_storage c)).
Abbreviation cl_ns c := (cf_namespace (cl_config c)).

Lemma get_reads cid d r c : st_healthy (cl_storage c) → ((get cid d r : M _) c).1 =
  match get_result cid (a_docs (cl_view c) !! (d, r)) with Ok m => Ok m | Err e => Err (Fail e) end.
Proof.
  intros Hh. destruct (cl_storage_ok _ _ _ c (get_document_ok d r) Hh) as (s' & Hrun & _ & _). unfold get.
  rewrite (sm_bind_ok _ _ _ _ _ Hrun). unfold get_result. destruct (a_docs (cl_view c) !! (d, r)) as [b|]; [|done].
  by destruct (from_snapshot cid b).
Qed.

Lemma cl_run {A} (m : SM S VaultSyncError A) v s' c : m (cl_storage c) = (Ok v, s') →
  (cl_on_storage m : M A) c = (Ok v, with_cl_storage s' c).
Proof. intros H. unfold cl_on_storage, zoom, may_fault, sm_map_err. by rewrite H. Qed.

(** C19: Local compaction succeeds and cannot be noticed: every record reads the
    same before and after, whatever client id it is loaded with; every log
    entry that is not synced, and every entry of another namespace, is kept in
    its place; and a record is taken out of the store only when it is marked
    deleted and a synced deletion of it is older than the grace time. *)
Theorem compaction_invisible config dr c : st_healthy (cl_storage c) → timely (cl_view c) → sound (a_docs (cl_view c)) →
  ∃ stats c', (cl_on_storage (run_compaction config (cl_ns c) dr) : M _) c = (Ok stats, c') ∧
    (∀ cid d r, ((get cid d r : M _) c').1 = ((get cid d r : M _) c).1) ∧
    filterb (λ e, negb (droppable (cl_ns c) e)) (a_log (cl_view c')) =
      filterb (λ e, negb (droppable (cl_ns c) e)) (a_log (cl_view c)) ∧
    (∀ key, is_Some (a_docs (cl_view c) !! key) → a_docs (cl_view c') !! key = None →
      get_result 0 (a_docs (cl_view c) !! key) = Ok None ∧
      ∃ e, e ∈ a_log (cl_view c) ∧ entry_key e = key ∧
        synced_delete (cl_ns c) (saturating_sub (cw_now_ms dr) (wrapping_mul64 (cc_tombstone_grace_secs config) 1000)) e = true).
Proof.
  intros Hh Ht Hs. destruct (run_compaction_ok config (cl_ns c) dr (cl_storage c) Hh Ht Hs) as (stats & s' & Hrun & Hh' & [Hc _ Hrem]).
  exists stats, (with_cl_storage s' c). split; [by apply cl_run|]. split_and!.
  - intros cid d r. rewrite !get_reads by done. cbn [cl_storage with_cl_storage]. by rewrite (cp_reads _ _ _ Hc Hs).
  - by apply compacts_keeps.
  - intros key Hsome Hnone. split; [|destruct (Hrem key Hsome Hnone) as (e & ? & ? & ?); by exists e].
    rewrite <-(cp_reads _ _ _ Hc Hs). cbn [cl_storage with_cl_storage] in Hnone. by rewrite Hnone.
Qed.

(** The snapshots never reach the coordinator while both jobs are due: the
    age-based job of a turn of the timer collapses every record that has enough
    entries and throws the snapshots away, so the snapshot job that follows in
    the same turn, on the leader, has nothing left to upload and the
    coordinator is not called. *)
Theorem compaction_starves_snapshots is_leader tr t c :
  st_healthy (cl_storage c) → timely (cl_view c) → sound (a_docs (cl_view c)) →
  (300000 ≤ saturating_sub (tr_compaction_check tr) (tm_last_compaction t))%N →
  ∃ t' c', (compaction_turn is_leader tr t : M _) c = (Ok t', c') ∧ cl_coordinator c' = cl_coordinator c.
Proof.
  intros Hh Ht Hs Hdue. unfold compaction_turn. rewrite (sm_bind_ok _ _ _ (cl_ns c) c) by reflexivity.
  destruct (run_compaction_ok config_default (cl_ns c) (tr_compaction tr) (cl_storage c) Hh Ht Hs) as (stats & s1 & Hrun & Hh1 & [Hc Hset _]).
  rewrite (proj2 (N.leb_le _ _) Hdue). erewrite sm_bind_ok; cycle 1.
  { erewrite sm_bind_ok by (unfold try_fault; rewrite (cl_run _ _ _ _ Hrun); reflexivity). reflexivity. }
  set (c1 := with_cl_storage s1 c).
  destruct (is_leader && _); [|eexists _, c1; split; [reflexivity|done]].
  destruct (run_snapshot_ok config_default (cl_ns c) (tr_cids tr) s1 Hh1) as (st2 & snaps & s2 & Hrun2 & _ & _ & _ & _ & Hnone);
    [by eapply timely_compacts|by apply (cp_sound _ _ _ Hc)|]. rewrite (Hnone Hset) in Hrun2.
  erewrite sm_bind_ok; cycle 1.
  { erewrite sm_bind_ok by (unfold try_fault; rewrite (cl_run _ _ _ c1 Hrun2); reflexivity). reflexivity. }
  eexists _, _. split; [reflexivity|done].
Qed.
End client.

(** ** Witnesses *)

#[local] Existing Instance toy_crypto.
#[local] Existing Instance sample_codec.

(** A client with one record and a log of 101 synced edits of it. *)
Definition synced_edit : OplogEntry :=
  OplogEntry_new "m1" "alice" "ns" CrdtUpdate "todos" "r1" [] None 7 (Some 3%N) Synced (Some 8%N) 7 1 OUpdate "".
Definition busy_client : VaultSyncClient InMemoryStorage.t InMemoryCoordinator.t InMemorySyncStateStore.t :=
  with_cl_storage (InMemoryStorage.mk (rw_new (docs_of old_record)) (rw_new (replicate 101 synced_edit)) (rw_new ∅) (rw_new ∅) (rw_new []) (rw_new []))
    (sample_client "alice" ∅ InMemoryCoordinator.new).

Lemma busy_timely : timely (st_view (cl_storage busy_client)).
Proof. intros e [-> _]%elem_of_replicate. done. Qed.

Lemma busy_sound : sound (a_docs (st_view (cl_storage busy_client))).
Proof.
  intros key b Hb. change (docs_of old_record !! key = Some b) in Hb. unfold docs_of in Hb. apply lookup_singleton_Some in Hb as [_ <-]. exists (cd_inner old_record). split; [reflexivity|].
  intros d' Hd. apply (opset_fits _ _ Hd). apply N.leb_le. vm_compute. reflexivity.
Qed.

Definition sample_cdraws : compaction_draws := CompactionDraws 20 20000 (λ _, 3%N) (λ _, 4%N).

Lemma compaction_invisible_witness : ∃ stats c',
  (cl_on_storage (run_compaction config_default "ns" sample_cdraws)) busy_client = (Ok stats, c') ∧
  (get 5 "todos" "r1" c').1 = (get 5 "todos" "r1" busy_client).1.
Proof.
  destruct (compaction_invisible config_default sample_cdraws busy_client) as (stats & c' & H1 & H2 & _).
  - done.
  - exact busy_timely.
  - exact busy_sound.
  - exists stats, c'. split; [exact H1|apply H2].
Defined.

Lemma compaction_starves_snapshots_witness : ∃ t' c',
  compaction_turn true (TimerReadings 900000 900001 900002 900003 sample_cdraws (λ _, 5%N)) (Timer 600000 0) busy_client = (Ok t', c') ∧
  cl_coordinator c' = InMemoryCoordinator.new.
Proof.
  apply (compaction_starves_snapshots true (TimerReadings 900000 900001 900002 900003 sample_cdraws (λ _, 5%N)) (Timer 600000 0) busy_client).
  - done.
  - exact busy_timely.
  - exact busy_sound.
  - vm_compute. discriminate.
Defined.
