(* ===== verification/Replication.v ===== *)
(** * From one client to another

    A record inserted on one client, uploaded, and pulled by another client of
    the same namespace is read there with the same fields. *)
From S2P Require Import Prelude F64 Clock Types Storage E2ee E2eeTheory SharedMemory Oplog Coordinator CoordinatorTheory Retry SyncStateStore Connection Upload UploadTheory CrdtValue Schema Document OpSet SubscriptionEngine Reconciler ReconcilerTheory Download DownloadTheory Client ClientTheory.

Section replication.
Context {S C T : Type} {HS : Storage S} {HSpec : StorageSpec S} {HTx : TransactionSpec S}.
Context {HC : Coordinator C} {HCSpec : CoordinatorSpec C} {HT : SyncStateStore T} {HTSpec : SyncStateStoreSpec T}.
Context {Y : Yrs} {HY : YrsSpec Y} {K : Crypto} {HK : CryptoSpec K}.
Context (debug_str : string → string).
Implicit Types c : VaultSyncClient S C T.

Abbreviation M := (SM (VaultSyncClient S C T) (fault VaultSyncError)).
Abbreviation cl_view c := (st_view (cl_storage c)).
Abbreviation cl_ns c := (cf_namespace (cl_config c)).

(** ** The upload of one entry *)

(** An idle upload queue that may push: nothing is pending and the new id is
    not held back. *)
Definition upload_idle_ready (rd : upload_readings) (ent : string) c : Prop :=
  rw_poisoned (qs_retry_engine (cl_queues c)) = false ∧ upload_enabled (upload_view c) = (Ok true, upload_view c) ∧
  ol_namespace (qs_oplog (cl_queues c)) = cl_ns c ∧ pending_of (cl_ns c) (a_log (cl_view c)) = [] ∧
  0 < uc_batch_size (cf_upload (cl_config c)) ∧
  co_ready (uc_batch_size (cf_upload (cl_config c))) (cl_coordinator c) ∧
  can_retry (can_now rd 0) ent (rw_val (qs_retry_engine (cl_queues c))) = true ∧
  log_find ent (co_log (cl_ns c) (cl_coordinator c)) = None.

Lemma selected_single rd (e : OplogEntry) d r bs c c1 : upload_idle_ready rd (oe_id e) c → wrote d r bs e c c1 →
  oe_namespace e = cl_ns c → oe_sync_status e = Optimistic → selected rd (upload_view c1) = [e].
Proof.
  intros (_ & _ & Hns & Hpend & Hbatch & _ & Hretry & _) (_ & Hv & Hcfg & _ & _ & Hq & _ & _) Hens Hst.
  unfold selected. cbn [upload_view uq_oplog uq_config uq_storage uq_retry_engine]. rewrite Hq, Hcfg, Hns, Hv.
  unfold a_append. cbn [a_log]. unfold pending_of in *. rewrite filterb_app. cbn [a_log a_insert]. rewrite Hpend.
  unfold filterb. cbn [List.filter app]. unfold uploadable_in, in_namespace. rewrite Hens, Hst, bool_decide_true by done. cbn [andb is_uploadable].
  destruct (uc_batch_size _); [lia|]. simpl. rewrite take_nil. unfold select_entries. simpl. by rewrite Hretry.
Qed.

(** What the coordinator stores for a write. *)
Definition shipped (seq : N) (e : OplogEntry) c : PendingMutation := InMemoryCoordinator.to_pending (cl_ns c) seq (to_mutation e).

Lemma upload_write rd (e : OplogEntry) d r bs c c1 : upload_idle_ready rd (oe_id e) c → wrote d r bs e c c1 →
  oe_namespace e = cl_ns c → oe_sync_status e = Optimistic →
  ∃ c2, (on_upload (upload_process_batch debug_str rd) : M nat) c1 = (Ok 1, c2) ∧
    co_log (cl_ns c) (cl_coordinator c2) =
      co_log (cl_ns c) (cl_coordinator c) ++ [shipped (co_next (cl_coordinator c)) e c] ∧
    co_ready 0 (cl_coordinator c2).
Proof.
  intros Hidle Hw Hens Hst. pose proof (selected_single _ _ _ _ _ _ _ Hidle Hw Hens Hst) as Hsel.
  destruct Hidle as (Hp & Hen & Hns & _ & _ & Hroom & _ & Hfresh).
  destruct Hw as ((Hh & _) & Hv & Hcfg & Hco & Hsss & Hq & _ & _).
  destruct (upload_process_ok debug_str rd 0 (upload_view c1)) as (q' & seqs & Hrun & Hd).
  { split_and!; [done|by cbn; rewrite Hq|]. revert Hen. unfold upload_enabled. cbn. rewrite Hq.
    destruct (qs_connection _); [|done]. intros [= Hok]. by rewrite Hok. }
  { cbn. by rewrite Hcfg, Hco, Nat.add_0_r. }
  exists (with_upload q' c1). split.
  { unfold on_upload, zoom. rewrite Hrun, Hsel. done. }
  cbn [with_upload cl_coordinator]. destruct Hd as [Hpush _ _ _ Hready]. split; [|done].
  rewrite Hsel in Hpush. cbn in Hpush. rewrite Hq, Hns, Hco, Hfresh in Hpush. by injection Hpush as _ <- _.
Qed.

(** ** The pull of one mutation *)

(** A client that has merged everything up to [log0] and not yet seen [m]. *)
Record caught_up (log0 : list PendingMutation) (m : PendingMutation) c : Prop := {
  cu_steady : dq_steady (download_view c);
  cu_replay : qs_replay_mode (cl_queues c) = false;
  cu_ready : co_ready 0 (cl_coordinator c);
  cu_batch : 0 < dc_batch_size (cf_download (cl_config c));
  cu_cursor : (qs_last_sequence (cl_queues c) < pm_sequence m)%N ∧
    Forall (λ x, (pm_sequence x ≤ qs_last_sequence (cl_queues c))%N) log0;
  cu_log : co_log (cl_ns c) (cl_coordinator c) = log0 ++ [m];
  cu_foreign : pm_replica_id m ≠ cf_replica_id (cl_config c);
  cu_unseen : pm_id m ∉ (rw_val (qs_seen_ids (cl_queues c))).1;
  cu_loadable : ReconcilerTheory.loadable (a_docs (cl_view c)) (pm_doc_id m, pm_record_id m);
}.

Lemma pull_write dr log0 m update u c : caught_up log0 m c →
  decrypt_symmetric (pm_encrypted_blob m) (cl_ns c) = Ok update → y_decode update = Ok u → fits update →
  ∃ c' d0 d, (on_download (process_batch decrypt_symmetric debug_str dr) : M nat) c = (Ok 1, c') ∧
    st_healthy (cl_storage c') ∧ starts (a_docs (cl_view c)) (pm_doc_id m, pm_record_id m) d0 ∧
    a_docs (cl_view c') !! (pm_doc_id m, pm_record_id m) = Some (y_encode_state d) ∧ d ≡ y_apply u d0.
Proof.
  intros [Hst Hrep Hco Hb [Hcur Hold] Hlog Hfor Hun Hload] Hdec Hu Hfit. set (q := download_view c).
  assert (Hin : m ∈ co_log (cl_ns c) (cl_coordinator c)) by (rewrite Hlog; apply elem_of_app; right; left).
  destruct (co_entry 0 _ _ m Hco Hin) as (_ & Hseq & Hmax).
  assert (Hpull : pull (dq_namespace q) (dq_last_sequence q) (dc_batch_size (dq_config q)) (dq_coordinator q) = (Ok [m], dq_coordinator q)).
  { erewrite (co_pull_ok 0); [|done|cbn; lia]. do 2 f_equal. cbn. rewrite Hlog. unfold alog_pull.
    rewrite filterb_app, filterb_none; [|intros x Hx; apply N.ltb_ge; by apply (proj1 (Forall_forall _ _) Hold)].
    simpl. rewrite (proj2 (N.ltb_lt _ _)) by done. destruct (dc_batch_size _); [lia|]. simpl. by rewrite take_nil. }
  assert (Hplain : plain_of decrypt_symmetric (cl_ns c) m = update) by (unfold plain_of; by rewrite Hdec).
  assert (Hf : foreign (cf_replica_id (cl_config c)) m = true).
  { unfold foreign. apply negb_true_iff. by apply String.eqb_neq. }
  assert (Hes : entries_of decrypt_symmetric (dq_namespace q) (dq_self_replica_id q) [m] = [entry_of decrypt_symmetric (cl_ns c) m]).
  { unfold entries_of. simpl. by rewrite Hf. }
  destruct (process_pulled_ok decrypt_symmetric dr [m] q Hst Hrep) as (q' & Hrun & _ & _ & _ & Hh' & _ & Hm).
  { intros x ->%list_elem_of_singleton _. exists u. cbn. rewrite Hplain. split; [done|]. split; cbn; by rewrite Hplain. }
  { rewrite Hes. intros x ->%list_elem_of_singleton. split; [exact Hload|done]. }
  rewrite Hes in Hm. specialize (Hm (pm_doc_id m, pm_record_id m)). unfold keyed in Hm. cbn in Hm.
  rewrite bool_decide_true in Hm by done. destruct Hm as (b & Hb' & d0 & us & d & Hstart & Hus & -> & Hd).
  apply Forall2_cons_inv_l in Hus as (u' & us' & [Hu' _] & Hnil%Forall2_nil_inv_l & ->). subst us'.
  cbn in Hu'. rewrite Hplain, Hu in Hu'. injection Hu' as <-.
  exists (with_download q' c), d0, d. split_and!; [|apply Hh'|exact Hstart|exact Hb'|done].
  unfold on_download, zoom. fold q. by rewrite (process_batch_pull _ _ dr [m] q Hst Hpull), Hrun.
Qed.

(** ** Insert, upload, pull, read *)

(** The other client before the exchange: up to date with the log the first
    client pushes to. *)
Record peer_of (ca : VaultSyncClient S C T) (ent : string) (cb : VaultSyncClient S C T) : Prop := {
  po_namespace : cl_ns cb = cl_ns ca;
  po_replica : cf_replica_id (cl_config ca) ≠ cf_replica_id (cl_config cb);
  po_replay : qs_replay_mode (cl_queues cb) = false;
  po_batch : 0 < dc_batch_size (cf_download (cl_config cb));
  po_cursor : (qs_last_sequence (cl_queues cb) < co_next (cl_coordinator ca))%N ∧
    Forall (λ x, (pm_sequence x ≤ qs_last_sequence (cl_queues cb))%N) (co_log (cl_ns ca) (cl_coordinator ca));
  po_unseen : ent ∉ (rw_val (qs_seen_ids (cl_queues cb))).1;
}.

(** A document merged into a new one has its own fields, the engine's apart. *)
Lemma merge_into_new u (d0 : ydoc) cid d r k : y_decode (y_encode_state d0) = Ok u → k ∉ meta_keys →
  y_root (y_apply u (cd_inner (document_new cid d r 0))) !! k = y_root d0 !! k.
Proof.
  intros Hu Hk. set (es := [("doc_id", AnyString d); ("record_id", AnyString r); ("schema_version", AnyNumber (f64_of_N 0))]).
  change (cd_inner (document_new cid d r 0)) with (y_inserts es (y_new cid)).
  destruct (y_encode_state_ok (y_inserts es (y_new cid))) as (v & Hv & Hnew).
  destruct (y_encode_state_ok d0) as (u' & Hu' & Hd0). rewrite Hu in Hu'. injection Hu' as <-.
  rewrite <-(Hnew cid), y_apply_comm, (Hd0 cid). by apply (y_merge_other_keys cid es).
Qed.

Section insertion.
Context (dr : write_draws) (rd : upload_readings) (drb : draws) (d r : string) (fields : gmap string CrdtValue).
Context (ca cb : VaultSyncClient S C T).
Abbreviation doc := (inserted dr d r fields ca).
Context (Hr : client_ready ca) (Hn : length (wd_nonce dr) = 12) (Hsize : size_ok (to_snapshot doc) ca).
Context (Hup : upload_idle_ready rd (wd_mutation_id dr) ca) (Hpeer : peer_of ca (wd_mutation_id dr) cb).
Context (Hload : ReconcilerTheory.loadable (a_docs (cl_view cb)) (d, r)).

(** The mutation that carries the insertion. *)
Definition carries_insertion (m : PendingMutation) : Prop :=
  pm_id m = wd_mutation_id dr ∧ pm_doc_id m = d ∧ pm_record_id m = r ∧
  pm_replica_id m = cf_replica_id (cl_config ca) ∧
  decrypt_symmetric (pm_encrypted_blob m) (cl_ns ca) = Ok (to_snapshot doc).

(** The way of the insertion to the other client's store. *)
Lemma insertion_travels : ∃ ca1 ca2 m u, (insert dr d r fields : M unit) ca = (Ok tt, ca1) ∧
  st_healthy (cl_storage ca1) ∧ a_docs (cl_view ca1) !! (d, r) = Some (to_snapshot doc) ∧
  (on_upload (upload_process_batch debug_str rd) : M nat) ca1 = (Ok 1, ca2) ∧
  co_log (cl_ns ca) (cl_coordinator ca2) = co_log (cl_ns ca) (cl_coordinator ca) ++ [m] ∧ carries_insertion m ∧
  y_decode (to_snapshot doc) = Ok u ∧
  let cb1 := with_cl_coordinator (cl_coordinator ca2) cb in
  (dq_steady (download_view cb1) →
   ∃ cb2 d0 d', (on_download (process_batch decrypt_symmetric debug_str drb) : M nat) cb1 = (Ok 1, cb2) ∧
     st_healthy (cl_storage cb2) ∧ starts (a_docs (cl_view cb)) (d, r) d0 ∧
     a_docs (cl_view cb2) !! (d, r) = Some (y_encode_state d') ∧ d' ≡ y_apply u d0).
Proof using All.
  destruct Hpeer as [Hns Hrep Hreplay Hb Hcur Hun].
  destruct (insert_ok dr d r fields ca Hr Hn Hsize) as (ca1 & e & Hins & Hw & Hid & Hens & Heid & _ & Hed & Her & Heu & Hst & blob & Hblob & Hdec).
  rewrite <-Hid in Hup. destruct (upload_write rd e d r _ ca ca1 Hup Hw Hens Hst) as (ca2 & Hpush & Hlog & Hco).
  destruct (y_encode_state_ok (cd_inner doc)) as (u & Hu & _).
  set (m := shipped (co_next (cl_coordinator ca)) e ca) in Hlog.
  assert (Hbm : pm_encrypted_blob m = blob) by (unfold m, shipped; cbn; by rewrite Hblob).
  exists ca1, ca2, m, u. split; [done|]. split; [apply Hw|]. split.
  { rewrite (proj1 (wrote_docs _ _ _ _ _ _ Hw)). by rewrite lookup_insert_eq. }
  split; [done|]. split; [done|]. split; [unfold carries_insertion; by rewrite Hbm|]. split; [done|]. intros cb1 Hsteady.
  destruct (pull_write drb (co_log (cl_ns ca) (cl_coordinator ca)) m (to_snapshot doc) u cb1) as (cb2 & d0 & d' & Hpull & Hh & Hstart & Hdoc & Hd');
    [split; cbn; rewrite ?Hid, ?Hed, ?Her, ?Heid, ?Hns; done|change (cl_ns cb1) with (cl_ns cb); by rewrite Hbm, Hns|done|apply Hsize|].
  change (pm_doc_id m) with (oe_doc_id e) in Hdoc, Hstart. change (pm_record_id m) with (oe_record_id e) in Hdoc, Hstart.
  rewrite Hed, Her in Hdoc, Hstart. by exists cb2, d0, d'.
Qed.

(** C1: A record inserted on one client reaches another.  The first client has
    working storage, intact locks, an active key, a connected upload queue with
    nothing else pending, and the document is within the size limits; the id drawn
    for the mutation is new to the coordinator, to the second client and to the
    upload queue's retries; the second client, of the same namespace and of
    another replica id, has pulled all of the coordinator's log, does not have the
    record, and is in its usual state (working storage and locks, a positive batch
    size, no replay, no generation id, no newer snapshot on offer).  Then the insertion
    succeeds; the upload pushes one mutation, and the coordinator's log of the
    namespace grows by exactly one, which carries the whole new document under
    the namespace's key; the second client's next batch pulls, decrypts and
    merges it; and, if the merged document is within the limit for snapshots,
    reading the record there gives, for every field other than [doc_id],
    [record_id] and [schema_version] (which both sides set, and the merge
    decides), exactly what was written, with [updatedAt] set to the time of the
    write and [updated_at] dropped; if the fields written mark the record as
    deleted ([_deleted] is [true]), the read finds nothing. *)
Theorem insert_reaches_replica cid :
  a_docs (cl_view cb) !! (d, r) = None →
  ∃ ca1 ca2 m, (insert dr d r fields : M unit) ca = (Ok tt, ca1) ∧
    (on_upload (upload_process_batch debug_str rd) : M nat) ca1 = (Ok 1, ca2) ∧
    co_log (cl_ns ca) (cl_coordinator ca2) = co_log (cl_ns ca) (cl_coordinator ca) ++ [m] ∧ carries_insertion m ∧
    let cb1 := with_cl_coordinator (cl_coordinator ca2) cb in
    (dq_steady (download_view cb1) →
     ∃ cb2 bs, (on_download (process_batch decrypt_symmetric debug_str drb) : M nat) cb1 = (Ok 1, cb2) ∧
       a_docs (cl_view cb2) !! (d, r) = Some bs ∧
       (fits bs → ∃ cb3 found,
         (get cid d r : M _) cb2 = (Ok (if marked_deleted fields then None else Some found), cb3) ∧
         ∀ k, k ∉ meta_keys → found !! k = stamped (wd_now dr) fields ca !! k)).
Proof using All.
  intros Habs. destruct insertion_travels as (ca1 & ca2 & m & u & Hins & _ & _ & Hpush & Hlog & Hm & Hu & Htravel).
  exists ca1, ca2, m. do 4 (split; [done|]). intros cb1 Hsteady.
  destruct (Htravel Hsteady) as (cb2 & d0 & d' & Hpull & Hh & Hstart & Hdoc & Hd').
  unfold starts in Hstart. rewrite Habs in Hstart. destruct Hstart as [cid' ->].
  exists cb2, (y_encode_state d'). split; [done|]. split; [done|]. intros Hfit.
  destruct (get_ok cid d r (Doc d r 0 d') cb2 Hh Hdoc Hfit) as (cb3 & Hget & _).
  assert (Hfields : ∀ k, k ∉ meta_keys → to_map (Doc d r 0 d') !! k = stamped (wd_now dr) fields ca !! k).
  { intros k Hk. rewrite <-(inserted_field dr d r fields ca) by done. unfold to_map. cbn [cd_inner].
    by rewrite !lookup_fmap, Hd', (merge_into_new u (cd_inner doc)) by done. }
  exists cb3, (to_map (Doc d r 0 d')). split; [|exact Hfields].
  rewrite Hget. unfold marked_deleted. by rewrite Hfields, stamped_field by apply deleted_other_key.
Qed.

(** Inserting over a record that already exists makes the replicas differ:
    where both clients hold the same record, the one that inserts reads only
    the new fields afterwards, while the other, having pulled the insertion,
    still reads each old field that the insertion does not name. *)
Theorem insert_over_existing_diverges cid d0 k v :
  a_docs (cl_view ca) !! (d, r) = Some (y_encode_state d0) → a_docs (cl_view cb) !! (d, r) = Some (y_encode_state d0) →
  y_root d0 !! k = Some v → y_root d0 !! "_deleted" = None → fields !! "_deleted" = None →
  k ∉ meta_keys → k ∉ ["updatedAt"; "updated_at"] → fields !! k = None →
  (∀ u d', y_decode (to_snapshot doc) = Ok u → d' ≡ y_apply u d0 → storable d') →
  ∃ ca1 ca2 ca3 here, (insert dr d r fields : M unit) ca = (Ok tt, ca1) ∧
    (get cid d r : M _) ca1 = (Ok (Some here), ca3) ∧ here !! k = None ∧
    (on_upload (upload_process_batch debug_str rd) : M nat) ca1 = (Ok 1, ca2) ∧
    let cb1 := with_cl_coordinator (cl_coordinator ca2) cb in
    (dq_steady (download_view cb1) →
     ∃ cb2 cb3 there, (on_download (process_batch decrypt_symmetric debug_str drb) : M nat) cb1 = (Ok 1, cb2) ∧
       (get cid d r : M _) cb2 = (Ok (Some there), cb3) ∧ there !! k = Some (out_to_crdt_value v)).
Proof using All.
  intros _ Hold Hk Hd0 Hfd Hmeta Htime Hkf Hstore.
  destruct insertion_travels as (ca1 & ca2 & m & u & Hins & Hha & Hdoca & Hpush & _ & _ & Hu & Htravel).
  destruct (get_ok cid d r doc ca1 Hha Hdoca) as (ca3 & Hgeta & _); [apply Hsize|].
  assert (Hnotdel : marked_deleted (to_map doc) = false).
  { unfold marked_deleted. by rewrite inserted_field, stamped_field, Hfd by apply deleted_other_key. }
  rewrite Hnotdel in Hgeta. exists ca1, ca2, ca3, (to_map doc). split_and!; try done.
  { by rewrite inserted_field, stamped_field by done. }
  intros cb1 Hsteady. destruct (Htravel Hsteady) as (cb2 & d1 & d' & Hpull & Hh & Hstart & Hdoc & Hd').
  unfold starts in Hstart. rewrite Hold in Hstart. destruct Hstart as (d2 & Heq%y_encode_state_inj & Hd2).
  assert (Hd : d' ≡ y_apply u d0) by (by rewrite Hd', <-Hd2, <-Heq).
  destruct (get_ok cid d r (Doc d r 0 d') cb2 Hh Hdoc) as (cb3 & Hget & _); [exact (Hstore u d' Hu Hd)|].
  assert (Hkeep : ∀ k, k ∉ meta_keys → k ∉ ["updatedAt"; "updated_at"] → fields !! k = None →
    to_map (Doc d r 0 d') !! k = out_to_crdt_value <$> y_root d0 !! k).
  { intros k' H1 H2 H3. unfold to_map. cbn [cd_inner]. rewrite lookup_fmap, Hd. f_equal. by apply (inserted_other_keys dr d r fields ca). }
  exists cb2, cb3, (to_map (Doc d r 0 d')). split_and!; [done| |].
  - rewrite Hget. unfold marked_deleted. rewrite Hkeep, Hd0 by (apply deleted_other_key || exact Hfd). reflexivity.
  - by rewrite Hkeep, Hk by done.
Qed.
End insertion.
End replication.

(** ** Witnesses *)

#[local] Existing Instance toy_crypto.
#[local] Existing Instance toy_crypto_spec.

Abbreviation sample_M := (SM (VaultSyncClient InMemoryStorage.t InMemoryCoordinator.t InMemorySyncStateStore.t) (fault VaultSyncError)).

Lemma sample_upload_ready docs :
  upload_idle_ready sample_readings "m1" (sample_client "alice" docs InMemoryCoordinator.new).
Proof.
  split_and!; try done; [cbn; lia|]. apply coord_ok_new. vm_compute. reflexivity.
Qed.

Lemma sample_peer docs : peer_of (sample_client "alice" docs InMemoryCoordinator.new) "m1" (sample_client "bob" docs InMemoryCoordinator.new).
Proof. split; try done; cbn; first [lia|set_solver]. Qed.

Lemma sample_steady docs co : dq_steady (download_view (sample_client "bob" docs co)).
Proof. split; [by repeat split|done|done|by left]. Qed.

(** The exchange, run. *)
Definition exchanged (docs : gmap doc_key bytes) :=
  let ca1 := ((insert sample_draws "todos" "r1" sample_fields : sample_M unit) (sample_client "alice" docs InMemoryCoordinator.new)).2 in
  let ca2 := ((on_upload (upload_process_batch plain_debug sample_readings) : sample_M nat) ca1).2 in
  ((on_download (process_batch decrypt_symmetric plain_debug no_draws) : sample_M nat)
     (with_cl_coordinator (cl_coordinator ca2) (sample_client "bob" docs InMemoryCoordinator.new))).2.

Definition exchanged_small (docs : gmap doc_key bytes) : bool :=
  match a_docs (st_view (cl_storage (exchanged docs))) !! ("todos", "r1") with Some bs => size_okb bs | None => true end.

Lemma insert_reaches_replica_witness :
  ∃ ca1 ca2 cb2 cb3 found,
    (insert sample_draws "todos" "r1" sample_fields : sample_M unit) (sample_client "alice" ∅ InMemoryCoordinator.new) = (Ok tt, ca1) ∧
    (on_upload (upload_process_batch plain_debug sample_readings) : sample_M nat) ca1 = (Ok 1, ca2) ∧
    (on_download (process_batch decrypt_symmetric plain_debug no_draws) : sample_M nat)
      (with_cl_coordinator (cl_coordinator ca2) (sample_client "bob" ∅ InMemoryCoordinator.new)) = (Ok 1, cb2) ∧
    (get 5 "todos" "r1" : sample_M _) cb2 = (Ok (Some found), cb3) ∧ found !! "title" = Some (VString "milk").
Proof.
  destruct (insert_reaches_replica plain_debug sample_draws sample_readings no_draws "todos" "r1" sample_fields
    (sample_client "alice" ∅ InMemoryCoordinator.new) (sample_client "bob" ∅ InMemoryCoordinator.new))
    with (cid := 5%N) as (ca1 & ca2 & m & H1 & H2 & _ & _ & H3).
  - apply sample_client_ready.
  - reflexivity.
  - apply size_okb_ok. vm_compute. reflexivity.
  - apply sample_upload_ready.
  - apply sample_peer.
  - exact I.
  - reflexivity.
  - destruct H3 as (cb2 & bs & H3 & Hbs & H4); [apply sample_steady|]. destruct H4 as (cb3 & found & H4 & H5).
    + assert (Hs : exchanged_small ∅ = true) by (vm_compute; reflexivity). revert Hs.
      unfold exchanged_small, exchanged. cbv zeta. rewrite H1. cbn [snd]. rewrite H2. cbn [snd]. rewrite H3. cbn [snd]. rewrite Hbs.
      intros Hs%N.leb_le. unfold fits, MAX_SNAPSHOT_SIZE. lia.
    + exists ca1, ca2, cb2, cb3, found. split_and!; [exact H1|exact H2|exact H3|exact H4|].
      rewrite H5; [reflexivity|]. apply (bool_decide_unpack _). vm_compute. exact I.
Defined.

(** A record that both clients hold. *)
Definition shared_record : CRDTDocument := set_fields {["note" := VString "old"]} (document_new 4 "todos" "r1" 0).

Definition merge_small (snapshot : bytes) (d0 : ydoc) : bool :=
  match y_decode snapshot with Ok u => size_okb (y_encode_state (y_apply u d0)) | Err _ => false end.

Lemma merge_small_ok snapshot (d0 : ydoc) u d' : merge_small snapshot d0 = true → y_decode snapshot = Ok u →
  d' ≡ y_apply u d0 → storable d'.
Proof.
  unfold merge_small. intros Hs Hu Hd. rewrite Hu in Hs. apply N.leb_le in Hs. apply (opset_fits _ _ Hd).
  unfold fits, MAX_SNAPSHOT_SIZE. lia.
Qed.

Lemma insert_over_existing_diverges_witness :
  ∃ ca1 ca2 ca3 here cb2 cb3 there,
    (insert sample_draws "todos" "r1" sample_fields : sample_M unit) (sample_client "alice" (docs_of shared_record) InMemoryCoordinator.new) = (Ok tt, ca1) ∧
    (get 5 "todos" "r1" : sample_M _) ca1 = (Ok (Some here), ca3) ∧ here !! "note" = None ∧
    (on_upload (upload_process_batch plain_debug sample_readings) : sample_M nat) ca1 = (Ok 1, ca2) ∧
    (on_download (process_batch decrypt_symmetric plain_debug no_draws) : sample_M nat)
      (with_cl_coordinator (cl_coordinator ca2) (sample_client "bob" (docs_of shared_record) InMemoryCoordinator.new)) = (Ok 1, cb2) ∧
    (get 5 "todos" "r1" : sample_M _) cb2 = (Ok (Some there), cb3) ∧ there !! "note" = Some (VString "old").
Proof.
  destruct (insert_over_existing_diverges plain_debug sample_draws sample_readings no_draws "todos" "r1" sample_fields
    (sample_client "alice" (docs_of shared_record) InMemoryCoordinator.new) (sample_client "bob" (docs_of shared_record) InMemoryCoordinator.new))
    with (cid := 5%N) (d0 := cd_inner shared_record) (k := "note") (v := OutAny (AnyString "old"))
    as (ca1 & ca2 & ca3 & here & H1 & H2 & H3 & H4 & H5).
  - apply sample_client_ready.
  - reflexivity.
  - apply size_okb_ok. vm_compute. reflexivity.
  - apply sample_upload_ready.
  - apply sample_peer.
  - exists (cd_inner shared_record). split; [reflexivity|]. apply N.leb_le. vm_compute. reflexivity.
  - reflexivity.
  - reflexivity.
  - vm_compute. reflexivity.
  - vm_compute. reflexivity.
  - reflexivity.
  - apply (bool_decide_unpack _). vm_compute. exact I.
  - apply (bool_decide_unpack _). vm_compute. exact I.
  - reflexivity.
  - intros u d' Hu Hd. apply (merge_small_ok (to_snapshot (inserted sample_draws "todos" "r1" sample_fields
      (sample_client "alice" (docs_of shared_record) InMemoryCoordinator.new))) (cd_inner shared_record) u); [vm_compute; reflexivity|exact Hu|exact Hd].
  - destruct H5 as (cb2 & cb3 & there & H5 & H6 & H7); [apply sample_steady|].
    exists ca1, ca2, ca3, here, cb2, cb3, there. split_and!; [exact H1|exact H2|exact H3|exact H4|exact H5|exact H6|exact H7].
Defined.
