(* ===== verification/Json.v ===== *)
(** * JSON documents

    What the network protocol uses of [serde_json]: the values of the grammar,
    the conversions that [derive(Serialize, Deserialize)] writes for a struct,
    and the text of a value, which is a parameter (class [JsonText]) with its
    law and an instance. *)
From S2P Require Import Prelude Text Opfs.

(** ** Values *)

(** [JOther] is a number that is not a natural; no code here reads its value. *)
#[warnings="-register-all"]
Inductive json :=
  | JNull
  | JBool (b : bool)
  | JNum (n : N)
  | JOther
  | JStr (s : string)
  | JArr (l : list json)
  | JObj (l : list (string * json)).

(** [Value::get(name).and_then(as_str)]: of fields with one name the last
    counts. *)
Definition get_str (name : string) (j : json) : option string :=
  match j with
  | JObj l =>
      match List.find (λ p, bool_decide (p.1 = name)) (reverse l) with
      | Some (_, JStr s) => Some s
      | _ => None
      end
  | _ => None
  end.

(** ** Derived conversions *)

(** A conversion to a value and back.  [fits] is the range of the Rust type. *)
Record serde (A : Type) := Serde {
  to_value : A → json;
  from_value : json → option A;
  fits : A → Prop;
  from_to_value a : fits a → from_value (to_value a) = Some a;
}.
Arguments Serde {A}.
Arguments to_value {A}.
Arguments from_value {A}.
Arguments fits {A}.

Definition as_str (j : json) : option string := match j with JStr s => Some s | _ => None end.
Definition as_bool (j : json) : option bool := match j with JBool b => Some b | _ => None end.
Definition as_uint (max : N) (j : json) : option N :=
  match j with JNum n => if (n <=? max)%N then Some n else None | _ => None end.

Definition s_string : serde string := Serde JStr as_str (λ _, True) (λ _ _, eq_refl).
Definition s_bool : serde bool := Serde JBool as_bool (λ _, True) (λ _ _, eq_refl).

Lemma as_uint_num max n : (n ≤ max)%N → as_uint max (JNum n) = Some n.
Proof. intros Hn. simpl. by apply N.leb_le in Hn as ->. Qed.

(** An unsigned integer of at most [max]. *)
Definition s_uint (max : N) : serde N := Serde JNum (as_uint max) (λ n, n ≤ max)%N (as_uint_num max).

Definition s_u64 : serde N := s_uint U64_MAX.
Definition s_u32 : serde N := s_uint U32_MAX.
Definition s_u8 : serde N := s_uint 255.

Program Definition s_iso {A B} (f : A → B) (g : B → A) (Hgf : ∀ a, g (f a) = a) (c : serde B) : serde A :=
  Serde (λ a, to_value c (f a)) (λ j, g <$> from_value c j) (λ a, fits c (f a)) _.
Next Obligation. intros A B f g Hgf c a Ha. simpl in *. rewrite from_to_value by done. simpl. by rewrite Hgf. Qed.

Definition s_usize : serde nat := s_iso N.of_nat N.to_nat Nat2N.id s_u64.

(** A sequence is read up to its first bad element. *)
Fixpoint from_values {A} (f : json → option A) (l : list json) : option (list A) :=
  match l with
  | [] => Some []
  | j :: l' => a ← f j; rest ← from_values f l'; Some (a :: rest)
  end.

Definition as_vec {A} (f : json → option A) (j : json) : option (list A) :=
  match j with JArr l => from_values f l | _ => None end.

Program Definition s_vec {A} (c : serde A) : serde (list A) :=
  Serde (λ l, JArr (map (to_value c) l)) (as_vec (from_value c)) (Forall (fits c)) _.
Next Obligation.
  intros A c l Hl. simpl. induction Hl as [|a l Ha _ IH]; [done|]. simpl.
  rewrite from_to_value by done. simpl. by rewrite IH.
Qed.

Definition s_bytes : serde bytes := s_vec s_u8.

(** [Option]: [null] is [None]. *)
Definition not_null (j : json) : Prop := j ≠ JNull.

Definition as_option {A} (f : json → option A) (j : json) : option (option A) :=
  match j with JNull => Some None | _ => Some <$> f j end.

Program Definition s_option {A} (c : serde A) (Hc : ∀ a, not_null (to_value c a)) : serde (option A) :=
  Serde (from_option (to_value c) JNull) (as_option (from_value c)) (from_option (fits c) True) _.
Next Obligation.
  intros A c Hc [a|] Ha; simpl in *; [|done]. pose proof (from_to_value _ c a Ha) as Hft.
  specialize (Hc a). unfold as_option. destruct (to_value c a); (done || by rewrite Hft).
Qed.

(** ** Structs

    A derived [Deserialize] reads a struct from an object, by name, and from an
    array, by position; an unknown name is skipped, a repeated one is refused. *)
Inductive source := ByName (l : list (string * json)) | ByPosition (l : list json).

Definition named (name : string) (l : list (string * json)) : list json :=
  map snd (filterb (λ p, bool_decide (p.1 = name)) l).

(** The fields of a struct, in the order of their declaration. *)
Record struct_fields (A : Type) := StructFields {
  names : list string;
  put : A → list (string * json);
  grab : source → option (A * source);
  fields_fit : A → Prop;
  put_names a : (put a).*1 = names;
  grab_put a l : fields_fit a → NoDup l.*1 → put a ⊆ l → grab (ByName l) = Some (a, ByName l);
}.
Arguments StructFields {A}.
Arguments names {A}.
Arguments put {A}.
Arguments grab {A}.
Arguments fields_fit {A}.

(** A field; [missing] is its value where the source has none: by name, and by
    position. *)
Definition grab_field {A} (name : string) (c : serde A) (missing missing_at : option A) (s : source) :
    option (A * source) :=
  match s with
  | ByName l =>
      match named name l with
      | [] => (λ a, (a, s)) <$> missing
      | [j] => (λ a, (a, s)) <$> from_value c j
      | _ => None
      end
  | ByPosition [] => (λ a, (a, s)) <$> missing_at
  | ByPosition (j :: l) => (λ a, (a, ByPosition l)) <$> from_value c j
  end.

Lemma named_unique name j l : NoDup l.*1 → (name, j) ∈ l → named name l = [j].
Proof.
  unfold named. induction l as [|[k v] l IH]; intros Hnd Hin; [by apply elem_of_nil in Hin|].
  apply NoDup_cons in Hnd as [Hk Hnd]. cbn [filterb List.filter fst]. case_bool_decide as Hkn.
  - subst k. apply elem_of_cons in Hin as [[= <-]|Hin]; [|by destruct Hk; apply (list_elem_of_fmap_2 fst) in Hin].
    cbn. f_equal. change (List.filter ?p l) with (filterb p l). rewrite filterb_none; [done|].
    intros [k' v'] Hin'. case_bool_decide; [|done]. simpl in *. subst k'.
    destruct Hk. by apply (list_elem_of_fmap_2 fst) in Hin'.
  - apply elem_of_cons in Hin as [[= -> ->]|Hin]; [done|]. by apply IH.
Qed.

Program Definition field_with {A} (name : string) (c : serde A) (missing missing_at : option A) :
    struct_fields A :=
  StructFields [name] (λ a, [(name, to_value c a)]) (grab_field name c missing missing_at) (fits c) _ _.
Next Obligation. done. Qed.
Next Obligation.
  intros A name c m m' a l Ha Hnd Hin. simpl. rewrite (named_unique name (to_value c a)); [|done|].
  - by rewrite from_to_value.
  - apply Hin. by left.
Qed.

(** A field that must be there, one with [serde(default)], and an optional
    one, which may be missing by name. *)
Definition field {A} (name : string) (c : serde A) : struct_fields A := field_with name c None None.
Definition default_field {A} (name : string) (c : serde A) (d : A) : struct_fields A :=
  field_with name c (Some d) (Some d).
Definition option_field {A} (name : string) (c : serde A) (Hc : ∀ a, not_null (to_value c a)) :
    struct_fields (option A) := field_with name (s_option c Hc) (Some None) None.

Program Definition fields_pair {A B} (fa : struct_fields A) (fb : struct_fields B) : struct_fields (A * B) :=
  StructFields (names fa ++ names fb) (λ p, put fa p.1 ++ put fb p.2)
    (λ s, '(a, s) ← grab fa s; '(b, s) ← grab fb s; Some ((a, b), s))
    (λ p, fields_fit fa p.1 ∧ fields_fit fb p.2) _ _.
Next Obligation. intros A B fa fb [a b]. simpl. by rewrite fmap_app, !put_names. Qed.
Next Obligation.
  intros A B fa fb [a b] l [Ha Hb] Hnd Hin. simpl in *.
  rewrite (grab_put _ fa a) by (done || set_solver). simpl.
  by rewrite (grab_put _ fb b) by (done || set_solver).
Qed.

Declare Scope json_scope.
Delimit Scope json_scope with json.
Infix "⊗" := fields_pair (at level 50, left associativity) : json_scope.

(** The end of the fields: an array has no more elements. *)
Definition finished {A} (r : option (A * source)) : option A :=
  match r with
  | Some (a, ByName _) => Some a
  | Some (a, ByPosition []) => Some a
  | _ => None
  end.

Definition as_struct {A} (fs : struct_fields A) (j : json) : option A :=
  match j with
  | JObj l => finished (grab fs (ByName l))
  | JArr l => finished (grab fs (ByPosition l))
  | _ => None
  end.

Program Definition s_struct {A B} (f : A → B) (g : B → A) (Hgf : ∀ a, g (f a) = a) (fs : struct_fields B)
    (Hnames : bool_decide (NoDup (names fs)) = true) : serde A :=
  Serde (λ a, JObj (put fs (f a))) (λ j, g <$> as_struct fs j) (λ a, fields_fit fs (f a)) _.
Next Obligation.
  intros A B f g Hgf fs Hnames a Ha. simpl. apply bool_decide_eq_true in Hnames.
  rewrite (grab_put _ fs (f a)); [|done|by rewrite put_names|done]. simpl. by rewrite Hgf.
Qed.

(** ** Text *)

(** [serde_json::to_vec] and [serde_json::from_slice] of a [Value].  Writing
    fails for no value. *)
Class JsonText := {
  to_vec : json → bytes;
  parse_json : bytes → option json;
}.

Class JsonTextSpec `{JsonText} := {
  parse_to_vec j : parse_json (to_vec j) = Some j;
}.

(** [serde_json::from_slice::<A>]. *)
Definition from_slice `{JsonText} {A} (c : serde A) (bs : bytes) : option A :=
  j ← parse_json bs; from_value c j.

Lemma from_slice_to_vec `{JsonTextSpec} {A} (c : serde A) a :
  fits c a → from_slice c (to_vec (to_value c a)) = Some a.
Proof. intros Ha. unfold from_slice. rewrite parse_to_vec. by apply from_to_value. Qed.

(** ** An instance of the text

    Each value starts with a tag; sequences and texts with their length. *)
Fixpoint ser_json (j : json) : bytes :=
  match j with
  | JNull => [0]
  | JBool b => [if b then 1 else 2]
  | JNum n => 3 :: varint n
  | JOther => [4]
  | JStr s => 5 :: ser wire_string s
  | JArr l => 6 :: varint (N.of_nat (length l)) ++ concat (map ser_json l)
  | JObj l =>
      7 :: varint (N.of_nat (length l)) ++ concat (map (λ p, ser wire_string p.1 ++ ser_json p.2) l)
  end%N.

Fixpoint deser_json (fuel : nat) (bs : bytes) : option (json * bytes) :=
  match fuel, bs with
  | S fuel, tag :: bs =>
      if (tag =? 0)%N then Some (JNull, bs)
      else if (tag =? 1)%N then Some (JBool true, bs)
      else if (tag =? 2)%N then Some (JBool false, bs)
      else if (tag =? 3)%N then '(n, bs) ← unvarint bs; Some (JNum n, bs)
      else if (tag =? 4)%N then Some (JOther, bs)
      else if (tag =? 5)%N then '(s, bs) ← parse wire_string bs; Some (JStr s, bs)
      else if (tag =? 6)%N then
        '(n, bs) ← unvarint bs; '(l, bs) ← parse_list (deser_json fuel) (N.to_nat n) bs; Some (JArr l, bs)
      else if (tag =? 7)%N then
        '(n, bs) ← unvarint bs;
        '(l, bs) ← parse_list (λ bs, '(k, bs) ← parse wire_string bs; '(v, bs) ← deser_json fuel bs;
                                     Some ((k, v), bs)) (N.to_nat n) bs;
        Some (JObj l, bs)
      else None
  | _, _ => None
  end.

Fixpoint depth (j : json) : nat :=
  match j with
  | JArr l => S (max_list (map depth l))
  | JObj l => S (max_list (map (λ p, depth p.2) l))
  | _ => 1
  end.

(** Induction that reaches the elements. *)
Section induction.
Context (P : json → Prop) (Hnull : P JNull) (Hbool : ∀ b, P (JBool b)) (Hnum : ∀ n, P (JNum n))
  (Hother : P JOther) (Hstr : ∀ s, P (JStr s)) (Harr : ∀ l, Forall P l → P (JArr l))
  (Hobj : ∀ l, Forall (λ p, P p.2) l → P (JObj l)).

Fixpoint json_nested_ind (j : json) : P j :=
  match j with
  | JNull => Hnull
  | JBool b => Hbool b
  | JNum n => Hnum n
  | JOther => Hother
  | JStr s => Hstr s
  | JArr l => Harr l ((fix go l : Forall P l := match l with
      | [] => Forall_nil_2 P
      | j :: l => Forall_cons_2 P j l (json_nested_ind j) (go l)
      end) l)
  | JObj l => Hobj l ((fix go l : Forall (λ p, P p.2) l := match l with
      | [] => Forall_nil_2 (λ p, P p.2)
      | p :: l => Forall_cons_2 (λ p, P p.2) p l (json_nested_ind p.2) (go l)
      end) l)
  end.
End induction.

(** A parser of elements reads back their sequence. *)
Lemma parse_list_each {A} (p : bytes → option (A * bytes)) (f : A → bytes) l rest :
  Forall (λ a, ∀ rest, p (f a ++ rest) = Some (a, rest)) l →
  parse_list p (length l) (concat (map f l) ++ rest) = Some (l, rest).
Proof.
  induction 1 as [|a l Ha _ IH]; [done|]. simpl. rewrite <-app_assoc, Ha. simpl. by rewrite IH.
Qed.

Lemma Forall_max_list {A} (f : A → nat) l n : max_list (map f l) ≤ n → Forall (λ a, f a ≤ n) l.
Proof. induction l as [|a l IH]; simpl; intros Hn; constructor; [lia|apply IH; lia]. Qed.

Lemma deser_ser_json j : ∀ fuel rest, depth j ≤ fuel → deser_json fuel (ser_json j ++ rest) = Some (j, rest).
Proof.
  induction j as [|[]|n| |s|l IH|l IH] using json_nested_ind; intros [|fuel] rest Hd;
    cbn [depth] in Hd; try lia; cbn [ser_json app deser_json N.eqb Pos.eqb]; try done.
  - by rewrite unvarint_varint.
  - by rewrite parse_ser.
  - rewrite <-app_assoc, unvarint_varint. cbn -[parse_list wire_string]. rewrite Nat2N.id, parse_list_each; [done|].
    apply le_S_n, Forall_max_list in Hd. revert IH Hd. rewrite !Forall_forall. intros IH Hd j Hj rest'. by apply IH, Hd.
  - rewrite <-app_assoc, unvarint_varint. cbn -[parse_list wire_string]. rewrite Nat2N.id, parse_list_each; [done|].
    apply le_S_n, Forall_max_list in Hd. revert IH Hd. rewrite !Forall_forall. intros IH Hd [k j] Hj rest'.
    cbn [fst snd]. rewrite <-app_assoc, parse_ser. cbn -[ser_json deser_json wire_string]. by rewrite (IH _ Hj) by apply (Hd _ Hj).
Qed.

Lemma length_concat_max {A} (f : A → nat) (g : A → bytes) l :
  Forall (λ a, f a ≤ length (g a)) l → max_list (map f l) ≤ length (concat (map g l)).
Proof. induction 1 as [|a l Ha _ IH]; simpl; [done|]. rewrite length_app. lia. Qed.

Lemma depth_ser_json j : depth j ≤ length (ser_json j).
Proof.
  induction j as [|[]|n| |s|l IH|l IH] using json_nested_ind; cbn [depth ser_json length]; try lia;
    rewrite length_app.
  - apply length_concat_max in IH. lia.
  - assert (Forall (λ p : string * json, depth p.2 ≤ length (ser wire_string p.1 ++ ser_json p.2)) l) as Hl.
    { eapply Forall_impl; [exact IH|]. intros p Hp. simpl in Hp. rewrite length_app. lia. }
    apply length_concat_max in Hl. lia.
Qed.

Definition tagged_json : JsonText := {|
  to_vec := ser_json;
  parse_json bs := match deser_json (length bs) bs with Some (j, []) => Some j | _ => None end;
|}.

Lemma tagged_json_spec : JsonTextSpec (H := tagged_json).
Proof.
  split. intros j. simpl. rewrite <-(app_nil_r (ser_json j)) at 2. by rewrite deser_ser_json by apply depth_ser_json.
Qed.
