(* ===== verification/WsProto.v ===== *)
(** * The frames and payloads of the WebSocket protocol

    [coordinator/ws_proto.rs]: a frame is a type, a length and a JSON payload.
    The codecs are what [derive(Serialize, Deserialize)] writes for the payloads
    and for the data they carry. *)
From S2P Require Import Prelude Text Types Opfs Json.
#[local] Open Scope N_scope.

(** ** Message types *)

Definition MSG_AUTH : N := 0x01.
Definition MSG_AUTH_ACK : N := 0x02.
Definition MSG_REGISTER : N := 0x03.
Definition MSG_REGISTER_ACK : N := 0x04.
Definition MSG_PUSH : N := 0x05.
Definition MSG_PUSH_ACK : N := 0x06.
Definition MSG_PULL : N := 0x07.
Definition MSG_PULL_RESPONSE : N := 0x08.
Definition MSG_SUBSCRIBE : N := 0x09.
Definition MSG_MUTATION_PUSH : N := 0x0A.
Definition MSG_HEARTBEAT : N := 0x0B.
Definition MSG_HEARTBEAT_ACK : N := 0x0C.
Definition MSG_ERROR : N := 0x0F.
Definition MSG_SCHEMA_SYNC : N := 0x10.
Definition MSG_SCHEMA_MIGRATION : N := 0x11.
Definition MSG_SNAPSHOT : N := 0x12.
Definition MSG_P2P_SIGNAL : N := 0x13.
Definition MSG_P2P_SIGNAL_ACK : N := 0x14.
Definition MSG_NAMESPACE_ADD : N := 0x22.
Definition MSG_NAMESPACE_ACK : N := 0x23.
Definition MSG_NAMESPACE_DROP : N := 0x24.

(** ** Payloads *)

Record AuthPayload := AuthPayload_new {
  ap_token : string;
  ap_protocol_version : N;
  ap_replica_id : string;
  ap_namespace : string;
}.

Record AuthAckPayload := AuthAckPayload_new {
  aa_status : string;
  aa_error : option string;
  aa_session_id : string;
}.

Record RegisterPayload := RegisterPayload_new {
  rp_replica_id : string;
  rp_namespace : string;
  rp_public_key : bytes;
  rp_schema_version : N;
  rp_last_sequence : N;
  rp_key_version : N;
}.

Record RegisterAckPayload := RegisterAckPayload_new {
  ra_status : string;
  ra_coordinator_sequence : N;
  ra_snapshot_available : bool;
  ra_snapshot_sequence : N;
  ra_snapshot_url : option string;
  ra_error : option string;
  ra_generation_id : string;
  ra_history_preserved : bool;
  ra_max_sequence : N;
}.

Record PushPayload := PushPayload_new {
  pp_request_id : string;
  pp_mutations : list EncryptedMutation;
}.

Record PushAckPayload := PushAckPayload_new {
  pa_request_id : string;
  pa_sequences : list N;
  pa_error : option string;
}.

Record PullPayload := PullPayload_new {
  pl_request_id : string;
  pl_namespace : string;
  pl_after : N;
  pl_limit : nat;
}.

Record PullResponsePayload := PullResponsePayload_new {
  pr_request_id : string;
  pr_mutations : list PendingMutation;
  pr_has_more : bool;
}.

Record SubscribePayload := SubscribePayload_new {
  sb_request_id : string;
  sb_namespace : string;
  sb_after : N;
}.

Record HeartbeatPayload := HeartbeatPayload_new {
  hb_replica_id : string;
  hb_namespace : string;
}.

Record NamespaceAddPayload := NamespaceAddPayload_new {
  na_namespace : string;
  na_replica_id : string;
  na_public_key : bytes;
  na_schema_version : N;
  na_last_sequence : N;
  na_key_version : N;
}.

Record NamespaceAckPayload := NamespaceAckPayload_new {
  nk_namespace : string;
  nk_status : string;
  nk_coordinator_sequence : N;
  nk_snapshot_available : bool;
  nk_snapshot_sequence : N;
  nk_error : option string;
  nk_history_preserved : bool;
  nk_max_sequence : N;
}.

Record NamespaceDropPayload := NamespaceDropPayload_new {
  nd_namespace : string;
  nd_replica_id : string;
}.

Record ErrorPayload := ErrorPayload_new {
  er_request_id : option string;
  er_code : string;
  er_message : string;
  er_retryable : bool;
}.

Record SchemaSyncPayload := SchemaSyncPayload_new {
  sc_namespace : string;
  sc_version : N;
}.

Record SchemaMigrationPayload := SchemaMigrationPayload_new {
  mg_status : string;
  mg_current_version : N;
  mg_error : option string;
  mg_namespace : string;
}.

Record P2PSignalPayload := P2PSignalPayload_new {
  sg_target_replica_id : string;
  sg_signal_type : string;
  sg_data : string;
}.

Record P2PSignalAckPayload := P2PSignalAckPayload_new {
  sk_sender_replica_id : string;
  sk_signal_type : string;
  sk_data : string;
}.

Record SnapshotPayload := SnapshotPayload_new {
  sp_doc_id : string;
  sp_record_id : string;
  sp_sequence : N;
  sp_bytes : bytes;
  sp_checksum : N;
  sp_namespace : string;
  sp_schema_version : N;
  sp_created_at : N;
}.

Record UpdateReplicaKeyPayload := UpdateReplicaKeyPayload_new {
  uk_public_key : bytes;
  uk_key_version : N;
}.

(** ** Their JSON *)

Lemma string_not_null s : not_null (to_value s_string s).
Proof. done. Qed.

Definition s_encrypted : serde EncryptedMutation := s_struct
  (λ p, (em_id p, em_namespace p, em_replica_id p, em_doc_id p, em_record_id p, em_encrypted_blob p,
  em_timestamp p, em_schema_version p, em_key_version p))
  (λ '(x0, x1, x2, x3, x4, x5, x6, x7, x8), EncryptedMutation_new x0 x1 x2 x3 x4 x5 x6 x7 x8)
  ltac:(by intros [])
  (field "id" s_string ⊗ field "namespace" s_string ⊗ field "replica_id" s_string ⊗ field "doc_id" s_string ⊗
  field "record_id" s_string ⊗ field "encrypted_blob" s_bytes ⊗ field "timestamp" s_u64 ⊗
  field "schema_version" s_u64 ⊗ field "key_version" s_u64)%json eq_refl.

Definition s_pending : serde PendingMutation := s_struct
  (λ p, (pm_id p, pm_namespace p, pm_sequence p, pm_doc_id p, pm_record_id p, pm_encrypted_blob p,
  pm_timestamp p, pm_key_version p, pm_replica_id p))
  (λ '(x0, x1, x2, x3, x4, x5, x6, x7, x8), PendingMutation_new x0 x1 x2 x3 x4 x5 x6 x7 x8)
  ltac:(by intros [])
  (field "id" s_string ⊗ field "namespace" s_string ⊗ field "sequence" s_u64 ⊗ field "doc_id" s_string ⊗
  field "record_id" s_string ⊗ field "encrypted_blob" s_bytes ⊗ field "timestamp" s_u64 ⊗
  field "key_version" s_u64 ⊗ default_field "replica_id" s_string "")%json eq_refl.

Definition s_replica : serde ReplicaInfo := s_struct
  (λ p, (ri_replica_id p, ri_namespace p, ri_public_key p, ri_schema_version p))
  (λ '(x0, x1, x2, x3), ReplicaInfo_new x0 x1 x2 x3)
  ltac:(by intros [])
  (field "replica_id" s_string ⊗ field "namespace" s_string ⊗ field "public_key" s_bytes ⊗
  field "schema_version" s_u64)%json eq_refl.

Definition s_snapshot : serde Snapshot := s_struct
  (λ p, (sn_doc_id p, sn_record_id p, sn_schema_version p, sn_sequence p, sn_created_at p, sn_bytes p,
  sn_checksum p))
  (λ '(x0, x1, x2, x3, x4, x5, x6), Snapshot_new x0 x1 x2 x3 x4 x5 x6)
  ltac:(by intros [])
  (field "doc_id" s_string ⊗ field "record_id" s_string ⊗ field "schema_version" s_u64 ⊗
  field "sequence" s_u64 ⊗ field "created_at" s_u64 ⊗ field "bytes" s_bytes ⊗ field "checksum" s_u32)%json eq_refl.

Definition s_compaction_stats : serde CompactionStats := s_struct
  (λ p, (cs_oplog_removed p, cs_docs_removed p, cs_snapshots_collapsed p))
  (λ '(x0, x1, x2), CompactionStats_new x0 x1 x2)
  ltac:(by intros [])
  (field "oplog_removed" s_usize ⊗ field "docs_removed" s_usize ⊗ field "snapshots_collapsed" s_usize)%json eq_refl.

Definition s_auth : serde AuthPayload := s_struct
  (λ p, (ap_token p, ap_protocol_version p, ap_replica_id p, ap_namespace p))
  (λ '(x0, x1, x2, x3), AuthPayload_new x0 x1 x2 x3)
  ltac:(by intros [])
  (field "token" s_string ⊗ field "protocol_version" s_u32 ⊗ field "replica_id" s_string ⊗
  field "namespace" s_string)%json eq_refl.

Definition s_auth_ack : serde AuthAckPayload := s_struct
  (λ p, (aa_status p, aa_error p, aa_session_id p))
  (λ '(x0, x1, x2), AuthAckPayload_new x0 x1 x2)
  ltac:(by intros [])
  (field "status" s_string ⊗ option_field "error" s_string string_not_null ⊗ field "session_id" s_string)%json eq_refl.

Definition s_register : serde RegisterPayload := s_struct
  (λ p, (rp_replica_id p, rp_namespace p, rp_public_key p, rp_schema_version p, rp_last_sequence p,
  rp_key_version p))
  (λ '(x0, x1, x2, x3, x4, x5), RegisterPayload_new x0 x1 x2 x3 x4 x5)
  ltac:(by intros [])
  (field "replica_id" s_string ⊗ field "namespace" s_string ⊗ field "public_key" s_bytes ⊗
  field "schema_version" s_u64 ⊗ field "last_sequence" s_u64 ⊗ default_field "key_version" s_u64 0)%json eq_refl.

Definition s_register_ack : serde RegisterAckPayload := s_struct
  (λ p, (ra_status p, ra_coordinator_sequence p, ra_snapshot_available p, ra_snapshot_sequence p,
  ra_snapshot_url p, ra_error p, ra_generation_id p, ra_history_preserved p, ra_max_sequence p))
  (λ '(x0, x1, x2, x3, x4, x5, x6, x7, x8), RegisterAckPayload_new x0 x1 x2 x3 x4 x5 x6 x7 x8)
  ltac:(by intros [])
  (field "status" s_string ⊗ field "coordinator_sequence" s_u64 ⊗ field "snapshot_available" s_bool ⊗
  field "snapshot_sequence" s_u64 ⊗ option_field "snapshot_url" s_string string_not_null ⊗
  option_field "error" s_string string_not_null ⊗ default_field "generation_id" s_string "" ⊗
  default_field "history_preserved" s_bool false ⊗ default_field "max_sequence" s_u64 0)%json eq_refl.

Definition s_push : serde PushPayload := s_struct
  (λ p, (pp_request_id p, pp_mutations p))
  (λ '(x0, x1), PushPayload_new x0 x1)
  ltac:(by intros [])
  (field "request_id" s_string ⊗ field "mutations" (s_vec s_encrypted))%json eq_refl.

Definition s_push_ack : serde PushAckPayload := s_struct
  (λ p, (pa_request_id p, pa_sequences p, pa_error p))
  (λ '(x0, x1, x2), PushAckPayload_new x0 x1 x2)
  ltac:(by intros [])
  (field "request_id" s_string ⊗ field "sequences" (s_vec s_u64) ⊗ option_field "error" s_string string_not_null)%json eq_refl.

Definition s_pull : serde PullPayload := s_struct
  (λ p, (pl_request_id p, pl_namespace p, pl_after p, pl_limit p))
  (λ '(x0, x1, x2, x3), PullPayload_new x0 x1 x2 x3)
  ltac:(by intros [])
  (field "request_id" s_string ⊗ field "namespace" s_string ⊗ field "after" s_u64 ⊗ field "limit" s_usize)%json eq_refl.

Definition s_pull_response : serde PullResponsePayload := s_struct
  (λ p, (pr_request_id p, pr_mutations p, pr_has_more p))
  (λ '(x0, x1, x2), PullResponsePayload_new x0 x1 x2)
  ltac:(by intros [])
  (field "request_id" s_string ⊗ field "mutations" (s_vec s_pending) ⊗ field "has_more" s_bool)%json eq_refl.

Definition s_subscribe : serde SubscribePayload := s_struct
  (λ p, (sb_request_id p, sb_namespace p, sb_after p))
  (λ '(x0, x1, x2), SubscribePayload_new x0 x1 x2)
  ltac:(by intros [])
  (field "request_id" s_string ⊗ field "namespace" s_string ⊗ field "after" s_u64)%json eq_refl.

Definition s_heartbeat : serde HeartbeatPayload := s_struct
  (λ p, (hb_replica_id p, hb_namespace p))
  (λ '(x0, x1), HeartbeatPayload_new x0 x1)
  ltac:(by intros [])
  (field "replica_id" s_string ⊗ default_field "namespace" s_string "")%json eq_refl.

Definition s_namespace_add : serde NamespaceAddPayload := s_struct
  (λ p, (na_namespace p, na_replica_id p, na_public_key p, na_schema_version p, na_last_sequence p,
  na_key_version p))
  (λ '(x0, x1, x2, x3, x4, x5), NamespaceAddPayload_new x0 x1 x2 x3 x4 x5)
  ltac:(by intros [])
  (field "namespace" s_string ⊗ field "replica_id" s_string ⊗ field "public_key" s_bytes ⊗
  field "schema_version" s_u64 ⊗ field "last_sequence" s_u64 ⊗ default_field "key_version" s_u64 0)%json eq_refl.

Definition s_namespace_ack : serde NamespaceAckPayload := s_struct
  (λ p, (nk_namespace p, nk_status p, nk_coordinator_sequence p, nk_snapshot_available p, nk_snapshot_sequence p,
  nk_error p, nk_history_preserved p, nk_max_sequence p))
  (λ '(x0, x1, x2, x3, x4, x5, x6, x7), NamespaceAckPayload_new x0 x1 x2 x3 x4 x5 x6 x7)
  ltac:(by intros [])
  (field "namespace" s_string ⊗ field "status" s_string ⊗ field "coordinator_sequence" s_u64 ⊗
  field "snapshot_available" s_bool ⊗ field "snapshot_sequence" s_u64 ⊗
  option_field "error" s_string string_not_null ⊗ default_field "history_preserved" s_bool false ⊗
  default_field "max_sequence" s_u64 0)%json eq_refl.

Definition s_namespace_drop : serde NamespaceDropPayload := s_struct
  (λ p, (nd_namespace p, nd_replica_id p))
  (λ '(x0, x1), NamespaceDropPayload_new x0 x1)
  ltac:(by intros [])
  (field "namespace" s_string ⊗ field "replica_id" s_string)%json eq_refl.

Definition s_error : serde ErrorPayload := s_struct
  (λ p, (er_request_id p, er_code p, er_message p, er_retryable p))
  (λ '(x0, x1, x2, x3), ErrorPayload_new x0 x1 x2 x3)
  ltac:(by intros [])
  (option_field "request_id" s_string string_not_null ⊗ field "code" s_string ⊗ field "message" s_string ⊗
  field "retryable" s_bool)%json eq_refl.

Definition s_schema_sync : serde SchemaSyncPayload := s_struct
  (λ p, (sc_namespace p, sc_version p))
  (λ '(x0, x1), SchemaSyncPayload_new x0 x1)
  ltac:(by intros [])
  (field "namespace" s_string ⊗ field "version" s_u64)%json eq_refl.

Definition s_schema_migration : serde SchemaMigrationPayload := s_struct
  (λ p, (mg_status p, mg_current_version p, mg_error p, mg_namespace p))
  (λ '(x0, x1, x2, x3), SchemaMigrationPayload_new x0 x1 x2 x3)
  ltac:(by intros [])
  (field "status" s_string ⊗ field "current_version" s_u64 ⊗ option_field "error" s_string string_not_null ⊗
  default_field "namespace" s_string "")%json eq_refl.

Definition s_p2p_signal : serde P2PSignalPayload := s_struct
  (λ p, (sg_target_replica_id p, sg_signal_type p, sg_data p))
  (λ '(x0, x1, x2), P2PSignalPayload_new x0 x1 x2)
  ltac:(by intros [])
  (field "target_replica_id" s_string ⊗ field "signal_type" s_string ⊗ field "data" s_string)%json eq_refl.

Definition s_p2p_signal_ack : serde P2PSignalAckPayload := s_struct
  (λ p, (sk_sender_replica_id p, sk_signal_type p, sk_data p))
  (λ '(x0, x1, x2), P2PSignalAckPayload_new x0 x1 x2)
  ltac:(by intros [])
  (field "sender_replica_id" s_string ⊗ field "signal_type" s_string ⊗ field "data" s_string)%json eq_refl.

Definition s_snapshot_payload : serde SnapshotPayload := s_struct
  (λ p, (sp_doc_id p, sp_record_id p, sp_sequence p, sp_bytes p, sp_checksum p, sp_namespace p,
  sp_schema_version p, sp_created_at p))
  (λ '(x0, x1, x2, x3, x4, x5, x6, x7), SnapshotPayload_new x0 x1 x2 x3 x4 x5 x6 x7)
  ltac:(by intros [])
  (field "doc_id" s_string ⊗ field "record_id" s_string ⊗ field "sequence" s_u64 ⊗ field "bytes" s_bytes ⊗
  field "checksum" s_u32 ⊗ default_field "namespace" s_string "" ⊗ default_field "schema_version" s_u64 0 ⊗
  default_field "created_at" s_u64 0)%json eq_refl.

Definition s_update_replica_key : serde UpdateReplicaKeyPayload := s_struct
  (λ p, (uk_public_key p, uk_key_version p))
  (λ '(x0, x1), UpdateReplicaKeyPayload_new x0 x1)
  ltac:(by intros [])
  (field "public_key" s_bytes ⊗ field "key_version" s_u64)%json eq_refl.

(** [HeartbeatAckPayload] has no fields. *)
Program Definition no_fields : struct_fields unit :=
  StructFields [] (λ _, []) (λ s, Some (tt, s)) (λ _, True) (λ _, eq_refl) _.
Next Obligation. by intros []. Qed.

Definition s_heartbeat_ack : serde unit := s_struct id id (λ _, eq_refl) no_fields eq_refl.

(** ** Frames *)

(** [u32::to_be_bytes] and [u32::from_be_bytes]. *)
Definition u32_to_be_bytes (x : N) : bytes := reverse (le_encode 4 x).
Definition u32_from_be_bytes (bs : bytes) : N := le_decode (reverse bs).

(** [len() as u32]. *)
Definition length_u32 (bs : bytes) : N := N.of_nat (length bs) mod 4294967296.

Definition frame (msg_type : N) (payload : bytes) : bytes :=
  msg_type :: u32_to_be_bytes (length_u32 payload) ++ payload.

Definition encode_frame `{JsonText} {A} (msg_type : N) (c : serde A) (payload : A) : bytes :=
  frame msg_type (to_vec (to_value c payload)).

Definition decode_frame (data : bytes) : result (N * bytes) string :=
  match data with
  | msg_type :: b1 :: b2 :: b3 :: b4 :: rest =>
      let length_ := N.to_nat (u32_from_be_bytes [b1; b2; b3; b4]) in
      if (length rest <? length_)%nat then
        Err ("Frame incomplete: expected " +:+ show_N (N.of_nat length_) +:+ " bytes payload, got "
             +:+ show_N (N.of_nat (length rest)) +:+ " bytes")
      else Ok (msg_type, take length_ rest)
  | _ => Err "Frame too short"
  end.

Lemma u32_be_bytes_round_trip x : x < 4294967296 → u32_from_be_bytes (u32_to_be_bytes x) = x.
Proof.
  intros Hx. unfold u32_from_be_bytes, u32_to_be_bytes. rewrite reverse_involutive. by apply le_decode_encode.
Qed.

Lemma length_u32_small bs : N.of_nat (length bs) < 4294967296 → length_u32 bs = N.of_nat (length bs).
Proof. intros Hl. unfold length_u32. by rewrite N.mod_small. Qed.

(** A header, and a payload of the length it gives. *)
Lemma decode_frame_header msg_type x payload rest :
  x < 4294967296 → length payload = N.to_nat x →
  decode_frame (msg_type :: u32_to_be_bytes x ++ payload ++ rest) = Ok (msg_type, payload).
Proof.
  intros Hx Hl. destruct (u32_to_be_bytes x) as [|b1 [|b2 [|b3 [|b4 [|b5 l]]]]] eqn:Hb;
    pose proof (f_equal length Hb) as Hlen; unfold u32_to_be_bytes in Hlen;
    rewrite length_reverse, length_le_encode in Hlen; try done.
  cbn [app]. unfold decode_frame. rewrite <-Hb, u32_be_bytes_round_trip by done.
  rewrite length_app, <-Hl. destruct (Nat.ltb_spec (length payload + length rest) (length payload)); [lia|].
  by rewrite take_app_length.
Qed.

Lemma decode_frame_frame msg_type payload rest :
  N.of_nat (length payload) < 4294967296 →
  decode_frame (frame msg_type payload ++ rest) = Ok (msg_type, payload).
Proof.
  intros Hl. unfold frame. cbn [app]. rewrite <-app_assoc, length_u32_small by done.
  apply decode_frame_header; [done|lia].
Qed.

Lemma le_encode_decode bs : is_bytes bs → le_encode (length bs) (le_decode bs) = bs ∧ le_decode bs < 256 ^ N.of_nat (length bs).
Proof.
  induction 1 as [|b bs Hb _ [IH IHb]]; [done|]. unfold is_byte in Hb. cbn [length le_decode le_encode]. split.
  - rewrite (N.mul_comm 256), N.Div0.mod_add, N.mod_small by done.
    rewrite N.div_add by done. by rewrite (N.div_small b 256), N.add_0_l, IH.
  - rewrite Nat2N.inj_succ, N.pow_succ_r'. lia.
Qed.

Lemma u32_from_be_bytes_inv bs : is_bytes bs → length bs = 4%nat →
  u32_to_be_bytes (u32_from_be_bytes bs) = bs ∧ u32_from_be_bytes bs < 4294967296.
Proof.
  intros Hbs Hl. unfold u32_to_be_bytes, u32_from_be_bytes.
  destruct (le_encode_decode (reverse bs)) as [He Hb]; [by apply Forall_reverse|].
  rewrite length_reverse, Hl in He, Hb. split; [|done]. by rewrite He, reverse_involutive.
Qed.

(** C32: [decode_frame] accepts exactly the frames that [encode_frame] writes,
    with any bytes after them: a frame whose payload is shorter than 4 GiB
    decodes to its type and payload whatever follows, and every input that
    decodes is such a frame with something after it. *)
Theorem decode_frame_exact data msg_type payload :
  is_bytes data →
  decode_frame data = Ok (msg_type, payload) ↔
  ∃ rest, data = frame msg_type payload ++ rest ∧ N.of_nat (length payload) < 4294967296.
Proof.
  intros Hdata. split; [|intros (rest & -> & Hl); by apply decode_frame_frame].
  destruct data as [|t [|b1 [|b2 [|b3 [|b4 rest]]]]]; try done. unfold decode_frame.
  apply Forall_app with (l1 := [t; b1; b2; b3; b4]) in Hdata as [Hh _].
  apply Forall_cons in Hh as [_ Hh].
  destruct (u32_from_be_bytes_inv [b1; b2; b3; b4]) as [Hinv Hb]; [done..|].
  destruct (Nat.ltb_spec (length rest) (N.to_nat (u32_from_be_bytes [b1; b2; b3; b4]))); [done|].
  intros [= <- <-]. exists (drop (N.to_nat (u32_from_be_bytes [b1; b2; b3; b4])) rest).
  rewrite length_take_le by done. split; [|lia]. unfold frame, length_u32.
  rewrite length_take_le, N2Nat.id, N.mod_small, Hinv by done. cbn [app]. by rewrite take_drop.
Qed.

Lemma decode_frame_exact_witness :
  is_bytes (frame MSG_PULL [123; 125] ++ [7]) ∧ decode_frame (frame MSG_PULL [123; 125] ++ [7]) = Ok (MSG_PULL, [123; 125]).
Proof.
  assert (is_bytes (frame MSG_PULL [123; 125] ++ [7])) as Hb by (repeat constructor).
  split; [exact Hb|]. apply (decode_frame_exact _ MSG_PULL [123; 125] Hb). by exists [7].
Defined.
