(* ===== verification/TokenStore.v ===== *)
(** * Namespace tokens

    [vaultsync-coordinator-server/src/token_store.rs]: the trait, what the
    server relies on of it ([TokenStoreSpec]), and the three stores, in memory,
    in SQLite and in Redis, each of which keeps one hash per namespace. *)
From Stdlib Require Import Ascii.
From S2P Require Import Prelude Text Types Sql Document RedisCoordinator.

(** ** The trait *)

Class TokenStore (T : Type) := {
  initialize : SM T string unit;
  set_token : string → string → SM T string unit;
  validate_token : string → string → SM T string bool;
}.

(** [hash_token]: SHA-256 in hexadecimal, which is plain text. *)
Class TokenHash := { hash_token : string → string }.
Class TokenHashSpec `{TokenHash} := { hash_token_text token : is_text (hash_token token) = true }.

(** What a store promises: it holds at most one hash for a namespace, a call
    that fails changes nothing, and a token is valid if its hash is the one
    held. *)
Class TokenStoreSpec (T : Type) {HT : TokenStore T} {HH : TokenHash} := {
  token_hash : T → string → option string;
  initialize_keeps t r t' : initialize t = (r, t') → ∀ ns, token_hash t' ns = token_hash t ns;
  set_token_exact ns token t r t' : set_token ns token t = (r, t') →
    ∀ ns', token_hash t' ns' =
      match r with
      | Ok _ => if bool_decide (ns' = ns) then Some (hash_token token) else token_hash t ns'
      | Err _ => token_hash t ns'
      end;
  validate_token_exact ns token t r t' : validate_token ns token t = (r, t') →
    (∀ ns', token_hash t' ns' = token_hash t ns') ∧
    match r with
    | Ok valid => valid = bool_decide (token_hash t ns = Some (hash_token token))
    | Err _ => True
    end;
}.

(** ** In memory *)

Module MemoryTokenStore.
Abbreviation t := (gmap string string).

Section memory.
Context {HH : TokenHash}.

Definition new : t := ∅.

Definition initialize : SM t string unit := mret tt.

Definition set_token (ns token : string) : SM t string unit :=
  sm_modify (insert ns (hash_token token)).

Definition validate_token (ns token : string) : SM t string bool :=
  tokens ← sm_get;
  match tokens !! ns with
  | Some stored_hash => mret (bool_decide (stored_hash = hash_token token))
  | None => mret false
  end.

End memory.
End MemoryTokenStore.

#[export] Instance memory_token_store `{TokenHash} : TokenStore MemoryTokenStore.t := {|
  initialize := MemoryTokenStore.initialize;
  set_token := MemoryTokenStore.set_token;
  validate_token := MemoryTokenStore.validate_token;
|}.

(** ** In SQLite *)

Module SqliteTokenStore.
(** The table [namespace_tokens], when it exists. *)
Abbreviation t := (conn (option (gmap string string))).

Section sqlite.
Context {HH : TokenHash}.

Definition no_such_table : string := "no such table: namespace_tokens".

Definition initialize : SM t string unit :=
  execute (λ table : option (gmap string string), (tt, Some (default ∅ table))).

Definition set_token (ns token : string) : SM t string unit :=
  statement (λ _ table,
    match table with
    | Some rows => (Ok tt, Some (<[ns := hash_token token]> rows))
    | None => (Err no_such_table, None)
    end).

(** [prepare] fails without the table. *)
Definition validate_token (ns token : string) : SM t string bool :=
  statement (λ _ table,
    match table with Some rows => (Ok tt, Some rows) | None => (Err no_such_table, None) end);;
  row ← query (λ table : option (gmap string string), default ∅ table !! ns);
  match row with
  | Some stored_hash => mret (bool_decide (stored_hash = hash_token token))
  | None => mret false
  end.

End sqlite.
End SqliteTokenStore.

#[export] Instance sqlite_token_store `{TokenHash} : TokenStore SqliteTokenStore.t := {|
  initialize := SqliteTokenStore.initialize;
  set_token := SqliteTokenStore.set_token;
  validate_token := SqliteTokenStore.validate_token;
|}.

(** ** In Redis *)

Module RedisTokenStore.
Section redis.
Context {HH : TokenHash} {D : Type} {HR : Redis D}.

Definition token_key (ns : string) : string := "vaultsync:ns_token:" +:+ ns.

Definition initialize : SM D string unit := mret tt.

Definition set_token (ns token : string) : SM D string unit :=
  set_value (token_key ns) (utf8 (hash_token token)).

(** The reply is read as an [Option<String>]. *)
Definition validate_token (ns token : string) : SM D string bool :=
  reply ← get_value (token_key ns);
  match reply with
  | None => mret false
  | Some bs =>
      match from_utf8 bs with
      | Some stored_hash => mret (bool_decide (stored_hash = hash_token token))
      | None => sm_fail "Invalid UTF-8"
      end
  end.
End redis.
End RedisTokenStore.

Definition redis_token_store `{TokenHash} {D} `{Redis D} : TokenStore D := {|
  initialize := RedisTokenStore.initialize;
  set_token := RedisTokenStore.set_token;
  validate_token := RedisTokenStore.validate_token;
|}.

(** ** They keep the promise *)

Lemma stored_hash_valid (o : option string) (h : string) :
  match o with Some h' => bool_decide (h' = h) | None => false end = bool_decide (o = Some h).
Proof. destruct o; repeat case_bool_decide; naive_solver. Qed.

#[export, program] Instance memory_token_store_spec `{TokenHash} : TokenStoreSpec MemoryTokenStore.t := {|
  token_hash t ns := t !! ns;
|}.
Next Obligation. by intros HH t r t' [= <- <-]. Qed.
Next Obligation.
  intros HH ns token t r t' [= <- <-] ns'. simpl. case_bool_decide; subst; [by rewrite lookup_insert_eq|by rewrite lookup_insert_ne].
Qed.
Next Obligation.
  intros HH ns token t r t'. simpl. unfold MemoryTokenStore.validate_token. sm_unfold.
  rewrite <-stored_hash_valid. by destruct (t !! ns); intros [= <- <-].
Qed.

#[export, program] Instance sqlite_token_store_spec `{TokenHash} : TokenStoreSpec SqliteTokenStore.t := {|
  token_hash t ns := default ∅ (cn_db t) !! ns;
|}.
Next Obligation.
  intros HH [db o] r t'. simpl. unfold SqliteTokenStore.initialize, execute, statement. simpl.
  by destruct o as [|[]]; intros [= <- <-].
Qed.
Next Obligation.
  intros HH ns token [db o] r t'. simpl. unfold SqliteTokenStore.set_token, statement. simpl.
  destruct o as [|[]], db as [rows|]; intros [= <- <-] ns'; simpl; try done;
    (case_bool_decide; subst; [by rewrite lookup_insert_eq|by rewrite lookup_insert_ne]).
Qed.
Next Obligation.
  intros HH ns token [db o] r t'. simpl. unfold SqliteTokenStore.validate_token, query, statement. sm_unfold. simpl.
  rewrite <-stored_hash_valid.
  destruct o as [|[] [|[] o]], db as [rows|]; simpl; try (by intros [= <- <-]);
    (destruct (rows !! ns); by intros [= <- <-]).
Qed.

(** The hash that a Redis server holds for a namespace. *)
Definition redis_token_hash {D} `{RedisSpec D} (d : D) (ns : string) : option string :=
  match rd_view d !! RedisTokenStore.token_key ns with
  | Some (KText bs) => from_utf8 bs
  | _ => None
  end.

#[program] Definition redis_token_store_spec `{TokenHashSpec} {D} `{RedisSpec D} :
    TokenStoreSpec D (HT := redis_token_store) := {|
  token_hash := redis_token_hash;
|}.
Next Obligation. by intros HH HS D HR HRS d r d' [= <- <-]. Qed.
Next Obligation.
  intros HH HS D HR HRS ns token d r d' Hset ns'. unfold redis_token_hash.
  destruct (set_value_ok _ _ _ _ _ Hset) as [[(e & -> & -> & _)|[now Hdo]] _]; [done|].
  injection Hdo as <- <-. case_bool_decide as Hns.
  - subst ns'. rewrite lookup_insert_eq. apply from_utf8_text, hash_token_text.
  - rewrite lookup_insert_ne; [done|]. intros Heq. by apply (inj (String.append _)) in Heq.
Qed.
Next Obligation.
  intros HH HS D HR HRS ns token d r d'. cbn [validate_token redis_token_store].
  unfold RedisTokenStore.validate_token, mbind, sm_bind.
  destruct (get_value (RedisTokenStore.token_key ns) d) as [r1 d1] eqn:Hget.
  destruct (get_value_ok _ _ _ _ Hget) as [[(e & -> & Hv & _)|[now Hdo]] _].
  { intros [= <- <-]. unfold redis_token_hash. by rewrite Hv. }
  assert (rd_view d1 = rd_view d) as Hv.
  { unfold do_get_value in Hdo. by destruct (rd_view d !! _) as [[]|]; injection Hdo as _ <-. }
  unfold do_get_value in Hdo. rewrite <-stored_hash_valid. unfold redis_token_hash.
  destruct (rd_view d !! RedisTokenStore.token_key ns) as [[]|] eqn:Hkey; injection Hdo as <- _;
    try (intros [= <- <-]; split; [intros ns'; by rewrite Hv|done]).
  destruct (from_utf8 value); intros [= <- <-]; (split; [intros ns'; by rewrite Hv|done]).
Qed.
