(* ===== verification/Server.v ===== *)
(** * The coordinator server: HTTP

    [vaultsync-coordinator-server/src/]: [config.rs], [state.rs], the router of
    [lib.rs] and the handlers of [routes.rs], over any coordinator and any token
    store.  What the framework does before a handler runs is the class [Axum]:
    whether the body of a request is acceptable JSON.  HEAD requests and the
    preflight requests that the CORS layer answers are left out. *)
From S2P Require Import Prelude Text Types Coordinator Document Opfs Json WsProto TokenStore.

(** ** State *)

Record ServerConfig := ServerConfig_new {
  sc_host : string;
  sc_port : N;
  sc_backend : string;
  sc_db_path : string;
  sc_db_url : string;
  sc_auth_token : option string;
  sc_admin_token : option string;
  sc_auto_compact_ns : string;
  sc_auto_compact_interval_minutes : N;
}.

(** [AppState]; a [Sender] is the number of its channel. *)
Record AppState (C T : Type) := AppState_new {
  as_coordinator : C;
  as_token_store : option T;
  as_config : ServerConfig;
  as_sessions : gmap (string * string) nat;
  as_generation_id : string;
}.
Arguments AppState_new {C T}.
Arguments as_coordinator {C T}.
Arguments as_token_store {C T}.
Arguments as_config {C T}.
Arguments as_sessions {C T}.
Arguments as_generation_id {C T}.

Definition set_coordinator {C T : Type} (c : C) (s : AppState C T) : AppState C T :=
  AppState_new c (as_token_store s) (as_config s) (as_sessions s) (as_generation_id s).
Definition set_token_store {C T : Type} (t : T) (s : AppState C T) : AppState C T :=
  AppState_new (as_coordinator s) (Some t) (as_config s) (as_sessions s) (as_generation_id s).
Definition set_sessions {C T : Type} (m : gmap (string * string) nat) (s : AppState C T) : AppState C T :=
  AppState_new (as_coordinator s) (as_token_store s) (as_config s) m (as_generation_id s).

(** The mutations of a namespace as they come: [Coordinator::subscribe]. *)
Class Streams (C : Type) := {
  stream : Type;
  subscribe : string → N → SM C CoordinatorError stream;
}.

(** ** Requests and responses *)

Inductive method := GET | POST | PUT | OtherMethod.

#[export] Instance method_eq_dec : EqDecision method.
Proof. solve_decision. Defined.

(** The decoded segments of the path, the decoded query, the [Authorization]
    header (with [None] for a value that is not visible ASCII), whether the
    content is declared to be JSON, and the body. *)
Record request := Request {
  rq_method : method;
  rq_path : list string;
  rq_query : list (string * string);
  rq_authorization : option (option string);
  rq_json : bool;
  rq_body : bytes;
}.

Abbreviation StatusCode := N.
Definition OK : StatusCode := 200.
Definition BAD_REQUEST : StatusCode := 400.
Definition UNAUTHORIZED : StatusCode := 401.
Definition NOT_FOUND : StatusCode := 404.
Definition METHOD_NOT_ALLOWED : StatusCode := 405.
Definition UNPROCESSABLE_ENTITY : StatusCode := 422.
Definition INTERNAL_SERVER_ERROR : StatusCode := 500.

(** A body, a stream of events, or a connection that becomes a WebSocket: of a
    namespace, or of several. *)
Inductive response_body (S : Type) :=
  | Content (bs : bytes)
  | Events (s : S)
  | Upgrade (ns : option string).
Arguments Content {S}.
Arguments Events {S}.
Arguments Upgrade {S}.

(** The JSON value in the body of a request, or the status of the rejection. *)
Class Axum := { json_body : request → result json StatusCode }.

(** A body declared as JSON, within the default limit of 2 MiB, is parsed. *)
Definition DEFAULT_BODY_LIMIT : nat := N.to_nat 2097152.
Class AxumSpec `{JsonText} `{Axum} := {
  json_body_ok r j : rq_json r = true → length (rq_body r) ≤ DEFAULT_BODY_LIMIT →
    parse_json (rq_body r) = Some j → json_body r = Ok j;
}.

(** [Query]: a field of the query, which must occur once. *)
Definition query_field (name : string) (q : list (string * string)) : option string :=
  match filterb (λ p : string * string, bool_decide (p.1 = name)) q with
  | [(_, v)] => Some v
  | _ => None
  end.

(** [auth_str.starts_with(prefix)] and the rest. *)
Definition strip_prefix (prefix s : string) : option string :=
  if String.prefix prefix s
  then Some (String.substring (String.length prefix) (String.length s - String.length prefix) s)
  else None.

Lemma substring_all s : String.substring 0 (String.length s) s = s.
Proof. induction s as [|a s IH]; [done|]. cbn [String.length String.substring]. by rewrite IH. Qed.

Lemma strip_prefix_app p s : strip_prefix p (p +:+ s) = Some s.
Proof.
  unfold strip_prefix. assert (String.prefix p (p +:+ s) = true) as ->.
  { apply String.prefix_correct, substring_app_l. }
  rewrite string_length_app. replace (_ - _) with (String.length s) by lia. by rewrite substring_app_r.
Qed.

Lemma strip_prefix_Some p s rest : strip_prefix p s = Some rest → s = p +:+ rest.
Proof.
  unfold strip_prefix. destruct (String.prefix p s) eqn:Hp; [|done]. intros [= <-].
  revert s Hp. induction p as [|a p IH]; intros s Hp.
  - cbn [String.length]. by rewrite Nat.sub_0_r, substring_all.
  - destruct s as [|b s]; [done|]. unfold String.prefix in Hp. destruct (Ascii.ascii_dec a b) as [->|]; [|done].
    cbn [String.length String.substring Nat.sub]. exact (f_equal (String b) (IH s Hp)).
Qed.

(** ** Payloads of the routes *)

Record AdminRegisterPayload := AdminRegisterPayload_new { ar_token : option string }.
Record AdminRegisterResponse := AdminRegisterResponse_new { an_namespace : string; an_token : string }.

Definition s_admin_register : serde AdminRegisterPayload := s_struct
  ar_token AdminRegisterPayload_new ltac:(by intros [])
  (option_field "token" s_string string_not_null) eq_refl.

Definition s_admin_response : serde AdminRegisterResponse := s_struct
  (λ p, (an_namespace p, an_token p)) (λ '(x0, x1), AdminRegisterResponse_new x0 x1) ltac:(by intros [])
  (field "namespace" s_string ⊗ field "token" s_string)%json eq_refl.

Lemma struct_not_null {A B} f g Hgf (fs : struct_fields B) H (a : A) : not_null (to_value (s_struct f g Hgf fs H) a).
Proof. done. Qed.

Definition s_replica_key : serde (option UpdateReplicaKeyPayload) :=
  s_option s_update_replica_key (struct_not_null _ _ _ _ _).
Definition s_snapshot_option : serde (option Snapshot) := s_option s_snapshot (struct_not_null _ _ _ _ _).

(** ** The router *)

Inductive route :=
  | RHealth
  | RPush (ns : string)
  | RPull (ns : string)
  | RRegister (ns : string)
  | RReplicas (ns : string)
  | RReplicaKey (ns replica_id : string)
  | RHeartbeat (ns : string)
  | RSchemaVersion (ns : string)
  | RSnapshot (ns doc_id record_id : string)
  | RSnapshots (ns : string)
  | RCompact (ns : string)
  | REvents (ns : string)
  | RWs (ns : string)
  | RWsMux
  | RAdminNamespace (ns : string)
  | RAdminCompact (ns : string)
  | RAdminSnapshot (ns doc_id record_id : string).

(** The route of [name] below a namespace. *)
Definition namespace_route (ns name : string) : option route :=
  if bool_decide (name = "push") then Some (RPush ns)
  else if bool_decide (name = "pull") then Some (RPull ns)
  else if bool_decide (name = "register") then Some (RRegister ns)
  else if bool_decide (name = "replicas") then Some (RReplicas ns)
  else if bool_decide (name = "heartbeat") then Some (RHeartbeat ns)
  else if bool_decide (name = "schema_version") then Some (RSchemaVersion ns)
  else if bool_decide (name = "snapshots") then Some (RSnapshots ns)
  else if bool_decide (name = "compact") then Some (RCompact ns)
  else if bool_decide (name = "events") then Some (REvents ns)
  else if bool_decide (name = "ws") then Some (RWs ns)
  else None.

(** [build_router]; a parameter of a path is not empty. *)
Definition route_of (path : list string) : option route :=
  if existsb (λ s, bool_decide (s = "")) path then None
  else
    match path with
    | [a] =>
        if bool_decide (a = "health") then Some RHealth
        else if bool_decide (a = "ws") then Some RWsMux
        else None
    | [a; b; c] =>
        if bool_decide (a = "namespace") then namespace_route b c
        else if bool_decide (a = "admin") && bool_decide (b = "namespace") then Some (RAdminNamespace c)
        else None
    | [a; b; c; d] =>
        if bool_decide (a = "admin") && bool_decide (b = "namespace") && bool_decide (d = "compact")
        then Some (RAdminCompact c) else None
    | [a; b; c; d; e] =>
        if bool_decide (a = "namespace") && bool_decide (c = "replicas") && bool_decide (e = "key")
        then Some (RReplicaKey b d)
        else if bool_decide (a = "namespace") && bool_decide (c = "snapshot") then Some (RSnapshot b d e)
        else None
    | [a; b; c; d; e; f] =>
        if bool_decide (a = "admin") && bool_decide (b = "namespace") && bool_decide (d = "snapshot")
        then Some (RAdminSnapshot c e f) else None
    | _ => None
    end.

Section server.
Context {C T : Type} {HC : Coordinator C} {HST : Streams C} {HT : TokenStore T}.
Context {J : JsonText} {AX : Axum} {K : SnapshotCodec}.

Abbreviation M := (SM (AppState C T) StatusCode).
Abbreviation response := (response_body stream).

(** A call of the coordinator; every error becomes 500. *)
Definition coordinator_call {A} (m : SM C CoordinatorError A) : M A :=
  sm_map_err (λ _, INTERNAL_SERVER_ERROR) (zoom as_coordinator set_coordinator m).

(** A call of a token store that is there. *)
Definition token_call {E A} (t : T) (m : SM T string A) : SM (AppState C T) E (result A string) := λ s,
  let '(r, t') := m t in (Ok r, set_token_store t' s).

(** ** Authorization *)

Definition authorize_namespace (auth : option (option string)) (ns : string) : M unit :=
  s ← sm_get;
  match sc_auth_token (as_config s) with
  | Some global_token =>
      match auth with
      | Some (Some auth_str) =>
          if bool_decide (auth_str = "Bearer " +:+ global_token) then mret tt else sm_fail UNAUTHORIZED
      | _ => sm_fail UNAUTHORIZED
      end
  | None =>
      match as_token_store s, sc_admin_token (as_config s) with
      | Some tokens, Some _ =>
          match auth ≫= λ a, a ≫= strip_prefix "Bearer " with
          | Some token =>
              valid ← token_call tokens (validate_token ns token);
              match valid with Ok true => mret tt | _ => sm_fail UNAUTHORIZED end
          | None => sm_fail UNAUTHORIZED
          end
      | _, _ => mret tt
      end
  end.

(** The check that opens the handlers of the administrator. *)
Definition authorize_admin (auth : option (option string)) : M unit :=
  s ← sm_get;
  match sc_admin_token (as_config s) with
  | None => sm_fail NOT_FOUND
  | Some admin_token =>
      match auth with
      | Some (Some auth_str) =>
          if bool_decide (auth_str = "Bearer " +:+ admin_token) then mret tt else sm_fail UNAUTHORIZED
      | _ => sm_fail UNAUTHORIZED
      end
  end.

(** ** Handlers *)

(** [Json(value)] as a response. *)
Definition json_response {A} (c : serde A) (a : A) : response := Content (to_vec (to_value c a)).

Definition push_mutations (auth : option (option string)) (ns : string) (mutations : list EncryptedMutation) :
    M response :=
  authorize_namespace auth ns;;
  seq_ids ← coordinator_call (push ns mutations);
  mret (json_response (s_vec s_u64) seq_ids).

Definition pull_mutations (auth : option (option string)) (ns : string) (after : N) (limit : nat) : M response :=
  authorize_namespace auth ns;;
  mutations ← coordinator_call (pull ns after limit);
  mret (json_response (s_vec s_pending) mutations).

Definition register_replica (auth : option (option string)) (ns : string) (info : ReplicaInfo) : M response :=
  authorize_namespace auth ns;;
  coordinator_call (register ns info 0);;
  mret (Content []).

Definition list_replicas_route (auth : option (option string)) (ns : string) : M response :=
  authorize_namespace auth ns;;
  replicas ← coordinator_call (list_replicas ns);
  mret (json_response (s_vec s_replica) replicas).

Definition heartbeat_route (auth : option (option string)) (ns replica_id : string) : M response :=
  authorize_namespace auth ns;;
  coordinator_call (heartbeat ns replica_id);;
  mret (Content []).

Definition get_schema_version (auth : option (option string)) (ns : string) : M response :=
  authorize_namespace auth ns;;
  version ← coordinator_call (schema_version ns);
  mret (json_response s_u64 version).

Definition events_stream (auth : option (option string)) (ns : string) (after : N) : M response :=
  authorize_namespace auth ns;;
  st ← coordinator_call (subscribe ns after);
  mret (Events st).

(** [uuid] is the token drawn if the payload names none. *)
Definition admin_register_namespace (uuid : string) (auth : option (option string)) (ns : string)
    (payload : option AdminRegisterPayload) : M response :=
  authorize_admin auth;;
  s ← sm_get;
  match as_token_store s with
  | None => sm_fail INTERNAL_SERVER_ERROR
  | Some tokens =>
      let token := match payload with Some p => default uuid (ar_token p) | None => uuid end in
      stored ← token_call tokens (set_token ns token);
      match stored with
      | Ok _ => mret (json_response s_admin_response (AdminRegisterResponse_new ns token))
      | Err _ => sm_fail INTERNAL_SERVER_ERROR
      end
  end.

Definition admin_compact (auth : option (option string)) (ns : string) : M response :=
  authorize_admin auth;;
  stats ← coordinator_call (compact_oplog ns);
  mret (json_response s_compaction_stats stats).

Definition admin_get_snapshot (auth : option (option string)) (ns doc_id record_id : string) : M response :=
  authorize_admin auth;;
  found ← coordinator_call (get_snapshot ns doc_id record_id);
  match found with
  | None => sm_fail NOT_FOUND
  | Some snapshot =>
      match snapshot_encode snapshot with
      | Ok bs => mret (Content bs)
      | Err _ => sm_fail INTERNAL_SERVER_ERROR
      end
  end.

Definition update_replica_key_route (auth : option (option string)) (ns replica_id : string)
    (payload : UpdateReplicaKeyPayload) : M response :=
  authorize_namespace auth ns;;
  coordinator_call (update_replica_key ns replica_id (uk_public_key payload) (uk_key_version payload));;
  mret (Content []).

Definition get_replica_key_route (auth : option (option string)) (ns replica_id : string) : M response :=
  authorize_namespace auth ns;;
  found ← coordinator_call (get_replica_key ns replica_id);
  mret (json_response s_replica_key ((λ k : bytes * N, UpdateReplicaKeyPayload_new k.1 k.2) <$> found)).

Definition get_snapshot_route (auth : option (option string)) (ns doc_id record_id : string) : M response :=
  authorize_namespace auth ns;;
  snapshot ← coordinator_call (get_snapshot ns doc_id record_id);
  mret (json_response s_snapshot_option snapshot).

Definition store_snapshot_route (auth : option (option string)) (ns _doc_id _record_id : string)
    (snapshot : Snapshot) : M response :=
  authorize_namespace auth ns;;
  coordinator_call (store_snapshot ns snapshot);;
  mret (Content []).

Definition list_snapshots_route (auth : option (option string)) (ns : string) : M response :=
  authorize_namespace auth ns;;
  snapshots ← coordinator_call (list_snapshots ns);
  mret (json_response (s_vec s_snapshot) snapshots).

Definition compact_oplog_route (auth : option (option string)) (ns : string) : M response :=
  authorize_namespace auth ns;;
  stats ← coordinator_call (compact_oplog ns);
  mret (json_response s_compaction_stats stats).

Definition health_check : M response :=
  mret (Content (to_vec (JObj [("status", JStr "ok")]))).

(** ** Extractors, which run before the handler *)

Definition extract_json {A} (c : serde A) (r : request) : M A :=
  match json_body r with
  | Err code => sm_fail code
  | Ok j => match from_value c j with Some a => mret a | None => sm_fail UNPROCESSABLE_ENTITY end
  end.

(** [Option<Json<A>>]. *)
Definition extract_json_option {A} (c : serde A) (r : request) : M (option A) :=
  mret match json_body r with Ok j => from_value c j | Err _ => None end.

Definition extract_query {A} (parse : string → option A) (name : string) (r : request) : M A :=
  match query_field name (rq_query r) ≫= parse with
  | Some a => mret a
  | None => sm_fail BAD_REQUEST
  end.

Definition parse_usize (s : string) : option nat := N.to_nat <$> parse_u64 s.

(** ** A request *)

Definition handle (uuid : string) (r : request) : M response :=
  let auth := rq_authorization r in
  match route_of (rq_path r) with
  | None => sm_fail NOT_FOUND
  | Some rt =>
      match rt, rq_method r with
      | RHealth, GET => health_check
      | RPush ns, POST => ms ← extract_json (s_vec s_encrypted) r; push_mutations auth ns ms
      | RPull ns, GET =>
          after ← extract_query parse_u64 "after" r;
          limit ← extract_query parse_usize "limit" r;
          pull_mutations auth ns after limit
      | RRegister ns, POST => info ← extract_json s_replica r; register_replica auth ns info
      | RReplicas ns, GET => list_replicas_route auth ns
      | RReplicaKey ns id, PUT => p ← extract_json s_update_replica_key r; update_replica_key_route auth ns id p
      | RReplicaKey ns id, GET => get_replica_key_route auth ns id
      | RHeartbeat ns, POST => id ← extract_query Some "replica_id" r; heartbeat_route auth ns id
      | RSchemaVersion ns, GET => get_schema_version auth ns
      | RSnapshot ns d i, GET => get_snapshot_route auth ns d i
      | RSnapshot ns d i, POST => snap ← extract_json s_snapshot r; store_snapshot_route auth ns d i snap
      | RSnapshots ns, GET => list_snapshots_route auth ns
      | RCompact ns, POST => compact_oplog_route auth ns
      | REvents ns, GET => after ← extract_query parse_u64 "after" r; events_stream auth ns after
      | RWs ns, GET => mret (Upgrade (Some ns))
      | RWsMux, GET => mret (Upgrade None)
      | RAdminNamespace ns, POST =>
          payload ← extract_json_option s_admin_register r; admin_register_namespace uuid auth ns payload
      | RAdminCompact ns, POST => admin_compact auth ns
      | RAdminSnapshot ns d i, GET => admin_get_snapshot auth ns d i
      | _, _ => sm_fail METHOD_NOT_ALLOWED
      end
  end.

(** The response: a handler that fails answers with its status alone. *)
Definition serve (uuid : string) (r : request) (s : AppState C T) : (StatusCode * response) * AppState C T :=
  match handle uuid r s with
  | (Ok body, s') => ((OK, body), s')
  | (Err code, s') => ((code, Content []), s')
  end.

(** ** Automatic compaction *)

(** The condition under which the task is spawned, and one turn of it. *)
Definition auto_compact_enabled (cfg : ServerConfig) : bool :=
  negb (bool_decide (sc_auto_compact_ns cfg = "")) && (0 <? sc_auto_compact_interval_minutes cfg)%N.

Definition auto_compact_turn {E} : SM (AppState C T) E unit :=
  s ← sm_get;
  sm_try (coordinator_call (compact_oplog (sc_auto_compact_ns (as_config s))));;
  mret tt.
End server.
