(* ===== verification/WsSession.v ===== *)
(** * The coordinator server: WebSocket sessions

    [vaultsync-coordinator-server/src/ws.rs] and [ws_mux.rs].  A session is the
    state its task keeps between two messages; a step handles what the socket
    yields next, from one [ws_receiver.next()] to the following one.  Messages
    go to channels, which the writer tasks empty; a subscription is a task of its
    own that forwards a stream to a channel until it is cancelled. *)
From S2P Require Import Prelude Text Types Coordinator Document Opfs Json WsProto TokenStore Server.

(** ** Messages and tasks *)

Inductive ws_message :=
  | Binary (bs : bytes)
  | TextMessage (s : string)
  | Ping (bs : bytes)
  | Pong (bs : bytes)
  | Close (reason : option (N * string)).

(** What [timeout(.., ws_receiver.next())] gives. *)
Inductive incoming := Received (m : ws_message) | ReceiveError | StreamEnded | TimedOut.

(** The task of a subscription: its channel, its stream (none if subscribing
    failed), the replica whose mutations it skips, and whether it is cancelled. *)
Record sub_task (S : Type) := SubTask {
  tk_channel : nat;
  tk_stream : option S;
  tk_skip : option string;
  tk_cancelled : bool;
}.
Arguments SubTask {S}.
Arguments tk_channel {S}.
Arguments tk_stream {S}.
Arguments tk_skip {S}.
Arguments tk_cancelled {S}.

(** The server with what was handed to each channel, oldest first, the channels
    whose receiver is gone, and the tasks spawned so far. *)
Record world (C T S : Type) := World {
  w_app : AppState C T;
  w_out : gmap nat (list ws_message);
  w_gone : gset nat;
  w_tasks : list (sub_task S);
}.
Arguments World {C T S}.
Arguments w_app {C T S}.
Arguments w_out {C T S}.
Arguments w_gone {C T S}.
Arguments w_tasks {C T S}.

Definition set_app {C T S : Type} (a : AppState C T) (w : world C T S) : world C T S :=
  World a (w_out w) (w_gone w) (w_tasks w).
Definition set_out {C T S : Type} (o : gmap nat (list ws_message)) (w : world C T S) : world C T S :=
  World (w_app w) o (w_gone w) (w_tasks w).
Definition set_tasks {C T S : Type} (l : list (sub_task S)) (w : world C T S) : world C T S :=
  World (w_app w) (w_out w) (w_gone w) l.

(** The messages of a channel. *)
Definition outbox {C T S : Type} (ch : nat) (w : world C T S) : list ws_message := default [] (w_out w !! ch).

Definition cancel {S : Type} (t : sub_task S) : sub_task S :=
  SubTask (tk_channel t) (tk_stream t) (tk_skip t) true.

Section ws.
Context {C T : Type} {HC : Coordinator C} {HST : Streams C} {HT : TokenStore T} {J : JsonText}.
(** [format!("{:?}", e)]. *)
Context (error_debug : CoordinatorError → string).

Abbreviation W := (SM (world C T stream) Empty_set).

(** A call of the coordinator, with its outcome as a value. *)
Definition coord {A} (m : SM C CoordinatorError A) : W (result A CoordinatorError) :=
  sm_try (zoom w_app set_app (zoom as_coordinator set_coordinator m)).

(** [tx.send(msg).await.is_ok()]. *)
Definition send (ch : nat) (m : ws_message) : W bool := λ w,
  if bool_decide (ch ∈ w_gone w) then (Ok false, w)
  else (Ok true, set_out (<[ch := outbox ch w ++ [m]]> (w_out w)) w).

Definition send_frame {A} (ch : nat) (msg_type : N) (c : serde A) (a : A) : W bool :=
  send ch (Binary (encode_frame msg_type c a)).

Definition send_close (ch : nat) (code : N) (reason : string) : W bool := send ch (Close (Some (code, reason))).

(** [state.sessions.sessions.write().await]. *)
Definition update_sessions (f : gmap (string * string) nat → gmap (string * string) nat) : W unit :=
  sm_modify (λ w, set_app (set_sessions (f (as_sessions (w_app w))) (w_app w)) w).

(** [cancel.send(())] to the task [k]. *)
Definition cancel_task (k : nat) : W unit := sm_modify (λ w, set_tasks (alter cancel k (w_tasks w)) w).

(** ** What both kinds of session do with a message *)

(** The snapshots that a registration reports and sends. *)
Definition newer_snapshots (last_sequence : N) (snaps : list Snapshot) : list Snapshot :=
  filterb (λ s, (last_sequence <? sn_sequence s)%N) snaps.

Definition max_snapshot_sequence (snaps : list Snapshot) : N := foldr (λ s n, N.max (sn_sequence s) n) 0%N snaps.

Definition snapshot_payload (ns : string) (s : Snapshot) : SnapshotPayload :=
  SnapshotPayload_new (sn_doc_id s) (sn_record_id s) (sn_sequence s) (sn_bytes s) (sn_checksum s) ns
    (sn_schema_version s) (sn_created_at s).

(** The loop that sends them: whether it reached its end. *)
Fixpoint send_snapshots (ch : nat) (ns : string) (snaps : list Snapshot) : W bool :=
  match snaps with
  | [] => mret true
  | s :: snaps =>
      sent ← send_frame ch MSG_SNAPSHOT s_snapshot_payload (snapshot_payload ns s);
      match sent with true => send_snapshots ch ns snaps | false => mret false end
  end.

(** A push to the namespace [ns] and its acknowledgement. *)
Definition push_reply (ch : nat) (ns : string) (p : PushPayload) : W unit :=
  res ← coord (push ns (pp_mutations p));
  let '(sequences, error) :=
    match res with Ok seqs => (seqs, None) | Err e => ([], Some (error_debug e)) end in
  send_frame ch MSG_PUSH_ACK s_push_ack (PushAckPayload_new (pp_request_id p) sequences error);;
  mret tt.

Definition pull_reply (ch : nat) (ns : string) (p : PullPayload) : W unit :=
  res ← coord (pull ns (pl_after p) (pl_limit p));
  match res with
  | Err e =>
      send_frame ch MSG_ERROR s_error
        (ErrorPayload_new (Some (pl_request_id p)) "PULL_FAILED" (error_debug e) true);;
      mret tt
  | Ok muts =>
      send_frame ch MSG_PULL_RESPONSE s_pull_response
        (PullResponsePayload_new (pl_request_id p) muts (length muts =? pl_limit p));;
      mret tt
  end.

Definition schema_reply (ch : nat) (ns : string) (version : N) : W unit :=
  res ← coord (schema_version ns);
  let current_v := match res with Ok v => v | Err _ => 0%N end in
  send_frame ch MSG_SCHEMA_MIGRATION s_schema_migration
    (SchemaMigrationPayload_new (if (version =? current_v)%N then "ok" else "mismatch") current_v None ns);;
  mret tt.

(** Subscribes, and spawns the task that forwards; its number. *)
Definition subscribe_task (ch : nat) (ns : string) (skip : option string) (p : SubscribePayload) : W nat :=
  res ← coord (subscribe ns (sb_after p));
  k ← sm_gets (λ w, length (w_tasks w));
  match res with
  | Ok st =>
      sm_modify (λ w, set_tasks (w_tasks w ++ [SubTask ch (Some st) skip false]) w);;
      mret k
  | Err e =>
      sm_modify (λ w, set_tasks (w_tasks w ++ [SubTask ch None skip false]) w);;
      send_frame ch MSG_ERROR s_error
        (ErrorPayload_new (Some (sb_request_id p)) "SUBSCRIBE_FAILED" (error_debug e) true);;
      mret k
  end.

(** A signal for [target], from [sender]: whether the target has a session. *)
Definition relay_signal (ns sender : string) (sig : P2PSignalPayload) : W bool :=
  found ← sm_gets (λ w, as_sessions (w_app w) !! (ns, sg_target_replica_id sig));
  match found with
  | Some target =>
      send_frame target MSG_P2P_SIGNAL_ACK s_p2p_signal_ack
        (P2PSignalAckPayload_new sender (sg_signal_type sig) (sg_data sig));;
      mret true
  | None => mret false
  end.

(** One turn of the task [k], when its stream yields [next], which is [None] at
    its end; whether the task goes on. *)
Definition forward_turn (k : nat) (next : option PendingMutation) : W bool :=
  task ← sm_gets (λ w, w_tasks w !! k);
  match task, next with
  | Some t, Some mutation =>
      if bool_decide (tk_skip t = Some (pm_replica_id mutation)) then mret true
      else send_frame (tk_channel t) MSG_MUTATION_PUSH s_pending mutation
  | _, _ => mret false
  end.

(** ** [ws.rs]: a session of one namespace *)

Definition ws_validate_token (ns token : string) : W bool := λ w,
  let app := w_app w in
  match sc_auth_token (as_config app) with
  | Some global_token => (Ok (bool_decide (token = global_token)), w)
  | None =>
      match as_token_store app, sc_admin_token (as_config app) with
      | Some tokens, Some _ =>
          let '(r, tokens') := validate_token ns token tokens in
          (Ok match r with Ok valid => valid | Err _ => false end, set_app (set_token_store tokens' app) w)
      | _, _ => (Ok true, w)
      end
  end.

(** Where the task of a session is: before the AUTH frame, before the REGISTER
    frame, in its loop (as a replica, with the number of its subscription), or
    at its end. *)
Inductive ws_phase :=
  | AwaitAuth
  | AwaitRegister
  | Running (replica_id : string) (active_sub : option nat)
  | Ended.

(** The first part of [handle_ws_session]; [uuid] is the id of the session. *)
Definition ws_auth (uuid : string) (ch : nat) (ns : string) (ev : incoming) : W ws_phase :=
  match ev with
  | Received (Binary bin) =>
      match decode_frame bin with
      | Err _ => send_close ch 4001 "Invalid frame header";; mret Ended
      | Ok (msg_type, payload) =>
          if negb (msg_type =? MSG_AUTH)%N then send_close ch 4001 "Expected AUTH frame first";; mret Ended
          else
            match from_slice s_auth payload with
            | None => send_close ch 4001 "Invalid AUTH payload";; mret Ended
            | Some auth =>
                if bool_decide (ap_namespace auth ≠ ns) then
                  send_frame ch MSG_AUTH_ACK s_auth_ack (AuthAckPayload_new "error" (Some "NAMESPACE_MISMATCH") "");;
                  send_close ch 4001 "Namespace mismatch";;
                  mret Ended
                else
                  valid ← ws_validate_token ns (ap_token auth);
                  match valid with
                  | false =>
                      send_frame ch MSG_AUTH_ACK s_auth_ack (AuthAckPayload_new "error" (Some "INVALID_TOKEN") "");;
                      send_close ch 4001 "Invalid token";;
                      mret Ended
                  | true =>
                      sent ← send_frame ch MSG_AUTH_ACK s_auth_ack (AuthAckPayload_new "ok" None uuid);
                      match sent with true => mret AwaitRegister | false => mret Ended end
                  end
            end
      end
  | _ => send_close ch 4001 "Auth timeout";; mret Ended
  end.

(** The registration: the acknowledgement and the snapshots to send. *)
Definition ws_register_replica (ns : string) (reg : RegisterPayload) : W (RegisterAckPayload * list Snapshot) :=
  reg_result ← coord (register ns (ReplicaInfo_new (rp_replica_id reg) ns (rp_public_key reg)
    (rp_schema_version reg)) (rp_last_sequence reg));
  generation ← sm_gets (λ w, as_generation_id (w_app w));
  max_seq ← sm_gets (λ w, max_sequence (as_coordinator (w_app w)));
  match reg_result with
  | Err e =>
      mret (RegisterAckPayload_new "error" 0 false 0 None (Some (error_debug e)) generation false max_seq, [])
  | Ok _ =>
      version ← coord (schema_version ns);
      listed ← coord (list_snapshots ns);
      let available := match listed with
        | Ok snaps => newer_snapshots (rp_last_sequence reg) snaps
        | Err _ => []
        end in
      mret (RegisterAckPayload_new "ok" match version with Ok seq => seq | Err _ => 0%N end
              (negb (bool_decide (available = []))) (max_snapshot_sequence available) None None generation
              false max_seq, available)
  end.

(** The second part. *)
Definition ws_register (ch : nat) (ns : string) (ev : incoming) : W ws_phase :=
  match ev with
  | Received (Binary bin) =>
      match decode_frame bin with
      | Err _ => send_close ch 4002 "Invalid register frame";; mret Ended
      | Ok (msg_type, payload) =>
          if negb (msg_type =? MSG_REGISTER)%N then send_close ch 4002 "Expected REGISTER frame";; mret Ended
          else
            match from_slice s_register payload with
            | None => send_close ch 4002 "Invalid REGISTER payload";; mret Ended
            | Some reg =>
                '(ack, available) ← ws_register_replica ns reg;
                sent ← send_frame ch MSG_REGISTER_ACK s_register_ack ack;
                match sent with
                | false => mret Ended
                | true =>
                    finished ← send_snapshots ch ns available;
                    match finished with
                    | false => mret Ended
                    | true =>
                        update_sessions (insert (ns, rp_replica_id reg) ch);;
                        mret (Running (rp_replica_id reg) None)
                    end
                end
            end
      end
  | _ => send_close ch 4002 "Register timeout";; mret Ended
  end.

(** A payload that does not parse is ignored. *)
Definition if_parsed {A} (c : serde A) (payload : bytes) (f : A → W unit) : W unit :=
  match from_slice c payload with Some a => f a | None => mret tt end.

(** A binary message in the loop; the subscription afterwards. *)
Definition ws_binary (ch : nat) (ns replica_id : string) (active_sub : option nat) (bin : bytes) : W (option nat) :=
  match decode_frame bin with
  | Err _ => mret active_sub
  | Ok (msg_type, payload) =>
      if (msg_type =? MSG_PUSH)%N then if_parsed s_push payload (push_reply ch ns);; mret active_sub
      else if (msg_type =? MSG_PULL)%N then if_parsed s_pull payload (pull_reply ch ns);; mret active_sub
      else if (msg_type =? MSG_SCHEMA_SYNC)%N then
        if_parsed s_schema_sync payload (λ p, schema_reply ch ns (sc_version p));; mret active_sub
      else if (msg_type =? MSG_SUBSCRIBE)%N then
        match from_slice s_subscribe payload with
        | None => mret active_sub
        | Some sub =>
            match active_sub with Some k => cancel_task k | None => mret tt end;;
            k ← subscribe_task ch ns (Some replica_id) sub;
            mret (Some k)
        end
      else if (msg_type =? MSG_HEARTBEAT)%N then
        if_parsed s_heartbeat payload (λ hb,
          coord (heartbeat ns (hb_replica_id hb));;
          send_frame ch MSG_HEARTBEAT_ACK s_heartbeat_ack tt;;
          mret tt);;
        mret active_sub
      else if (msg_type =? MSG_SNAPSHOT)%N then
        if_parsed s_snapshot payload (λ snap, coord (store_snapshot ns snap);; mret tt);; mret active_sub
      else if (msg_type =? MSG_P2P_SIGNAL)%N then
        if_parsed s_p2p_signal payload (λ sig, relay_signal ns replica_id sig;; mret tt);; mret active_sub
      else mret active_sub
  end.

(** What follows the loop. *)
Definition ws_cleanup (ch : nat) (ns replica_id : string) (active_sub : option nat) : W ws_phase :=
  match active_sub with Some k => cancel_task k | None => mret tt end;;
  update_sessions (delete (ns, replica_id));;
  sm_modify (λ w, World (w_app w) (w_out w) ({[ch]} ∪ w_gone w) (w_tasks w));;
  mret Ended.

Definition ws_loop (ch : nat) (ns replica_id : string) (active_sub : option nat) (ev : incoming) : W ws_phase :=
  match ev with
  | Received (Binary bin) =>
      active_sub ← ws_binary ch ns replica_id active_sub bin;
      mret (Running replica_id active_sub)
  | Received (Close _) | ReceiveError | StreamEnded => ws_cleanup ch ns replica_id active_sub
  | Received (Ping ping) => send ch (Pong ping);; mret (Running replica_id active_sub)
  | Received _ => mret (Running replica_id active_sub)
  | TimedOut => send_close ch 4000 "Heartbeat timeout";; ws_cleanup ch ns replica_id active_sub
  end.

(** [handle_ws_session], one message at a time. *)
Definition ws_step (uuid : string) (ch : nat) (ns : string) (phase : ws_phase) (ev : incoming) : W ws_phase :=
  match phase with
  | AwaitAuth => ws_auth uuid ch ns ev
  | AwaitRegister => ws_register ch ns ev
  | Running replica_id active_sub => ws_loop ch ns replica_id active_sub ev
  | Ended => mret Ended
  end.

(** ** [ws_mux.rs]: a session of several namespaces *)

(** The replica of each namespace and the subscription of each namespace. *)
Record mux_state := Mux {
  mx_registered : gmap string string;
  mx_subs : gmap string nat;
}.

Definition mux_new : mux_state := Mux ∅ ∅.

Definition mux_register_replica (add : NamespaceAddPayload) : W (NamespaceAckPayload * list Snapshot) :=
  let ns := na_namespace add in
  reg_result ← coord (register ns (ReplicaInfo_new (na_replica_id add) ns (na_public_key add)
    (na_schema_version add)) (na_last_sequence add));
  max_seq ← sm_gets (λ w, max_sequence (as_coordinator (w_app w)));
  match reg_result with
  | Err e => mret (NamespaceAckPayload_new ns "error" 0 false 0 (Some (error_debug e)) false max_seq, [])
  | Ok _ =>
      version ← coord (schema_version ns);
      listed ← coord (list_snapshots ns);
      let available := match listed with
        | Ok snaps => newer_snapshots (na_last_sequence add) snaps
        | Err _ => []
        end in
      mret (NamespaceAckPayload_new ns "ok" match version with Ok seq => seq | Err _ => 0%N end
              (negb (bool_decide (available = []))) (max_snapshot_sequence available) None false max_seq, available)
  end.

(** [None] where the loop is left. *)
Definition mux_namespace_add (ch : nat) (mx : mux_state) (add : NamespaceAddPayload) : W (option mux_state) :=
  '(ack, available) ← mux_register_replica add;
  sent ← send_frame ch MSG_NAMESPACE_ACK s_namespace_ack ack;
  match sent with
  | false => mret None
  | true =>
      send_snapshots ch (na_namespace add) available;;
      update_sessions (insert (na_namespace add, na_replica_id add) ch);;
      mret (Some (Mux (<[na_namespace add := na_replica_id add]> (mx_registered mx)) (mx_subs mx)))
  end.

Definition mux_namespace_drop (mx : mux_state) (p : NamespaceDropPayload) : W mux_state :=
  let ns := nd_namespace p in
  match mx_subs mx !! ns with Some k => cancel_task k | None => mret tt end;;
  match mx_registered mx !! ns with
  | Some replica_id => update_sessions (delete (ns, replica_id))
  | None => mret tt
  end;;
  mret (Mux (delete ns (mx_registered mx)) (delete ns (mx_subs mx))).

(** The namespace of a push is that of its first mutation. *)
Definition mux_push (ch : nat) (p : PushPayload) : W unit :=
  let ns := match pp_mutations p with m :: _ => em_namespace m | [] => "" end in
  if bool_decide (ns = "") then mret tt else push_reply ch ns p.

Definition mux_subscribe (ch : nat) (mx : mux_state) (sub : SubscribePayload) : W mux_state :=
  let ns := sb_namespace sub in
  match mx_subs mx !! ns with Some k => cancel_task k | None => mret tt end;;
  k ← subscribe_task ch ns None sub;
  mret (Mux (mx_registered mx) (<[ns := k]> (mx_subs mx))).

Definition mux_heartbeat (ch : nat) (mx : mux_state) (hb : HeartbeatPayload) : W unit :=
  (if negb (bool_decide (hb_namespace hb = "")) then
     coord (heartbeat (hb_namespace hb) (hb_replica_id hb));; mret tt
   else
     for_each (λ p : string * string,
       if bool_decide (p.2 = hb_replica_id hb) then coord (heartbeat p.1 p.2);; mret tt else mret tt)
       (map_to_list (mx_registered mx)));;
  send_frame ch MSG_HEARTBEAT_ACK s_heartbeat_ack tt;;
  mret tt.

Definition mux_snapshot (p : SnapshotPayload) : W unit :=
  coord (store_snapshot (sp_namespace p)
    (Snapshot_new (sp_doc_id p) (sp_record_id p) 0 (sp_sequence p) 0 (sp_bytes p) (sp_checksum p)));;
  mret tt.

(** The first registered namespace in which the target has a session. *)
Fixpoint mux_signal (registered : list (string * string)) (sig : P2PSignalPayload) : W unit :=
  match registered with
  | [] => mret tt
  | (ns, sender) :: rest =>
      sent ← relay_signal ns sender sig;
      match sent with true => mret tt | false => mux_signal rest sig end
  end.

Definition mux_binary (ch : nat) (mx : mux_state) (bin : bytes) : W (option mux_state) :=
  match decode_frame bin with
  | Err _ => mret (Some mx)
  | Ok (msg_type, payload) =>
      if (msg_type =? MSG_NAMESPACE_ADD)%N then
        match from_slice s_namespace_add payload with
        | Some add => mux_namespace_add ch mx add
        | None => mret (Some mx)
        end
      else if (msg_type =? MSG_NAMESPACE_DROP)%N then
        match from_slice s_namespace_drop payload with
        | Some p => mx ← mux_namespace_drop mx p; mret (Some mx)
        | None => mret (Some mx)
        end
      else if (msg_type =? MSG_PUSH)%N then if_parsed s_push payload (mux_push ch);; mret (Some mx)
      else if (msg_type =? MSG_PULL)%N then
        if_parsed s_pull payload (λ p, pull_reply ch (pl_namespace p) p);; mret (Some mx)
      else if (msg_type =? MSG_SCHEMA_SYNC)%N then
        if_parsed s_schema_sync payload (λ p, schema_reply ch (sc_namespace p) (sc_version p));; mret (Some mx)
      else if (msg_type =? MSG_SUBSCRIBE)%N then
        match from_slice s_subscribe payload with
        | Some sub => mx ← mux_subscribe ch mx sub; mret (Some mx)
        | None => mret (Some mx)
        end
      else if (msg_type =? MSG_HEARTBEAT)%N then
        if_parsed s_heartbeat payload (mux_heartbeat ch mx);; mret (Some mx)
      else if (msg_type =? MSG_SNAPSHOT)%N then
        if_parsed s_snapshot_payload payload mux_snapshot;; mret (Some mx)
      else if (msg_type =? MSG_P2P_SIGNAL)%N then
        if_parsed s_p2p_signal payload (mux_signal (map_to_list (mx_registered mx)));; mret (Some mx)
      else mret (Some mx)
  end.

Definition mux_cleanup (ch : nat) (mx : mux_state) : W (option mux_state) :=
  for_each (λ p : string * nat, cancel_task p.2) (map_to_list (mx_subs mx));;
  for_each (λ p : string * string, update_sessions (delete p)) (map_to_list (mx_registered mx));;
  sm_modify (λ w, World (w_app w) (w_out w) ({[ch]} ∪ w_gone w) (w_tasks w));;
  mret None.

(** [handle_ws_mux_session], one message at a time; [None] at its end. *)
Definition mux_step (ch : nat) (mx : mux_state) (ev : incoming) : W (option mux_state) :=
  match ev with
  | Received (Binary bin) =>
      next ← mux_binary ch mx bin;
      match next with Some mx => mret (Some mx) | None => mux_cleanup ch mx end
  | Received (Close _) | ReceiveError | StreamEnded => mux_cleanup ch mx
  | Received (Ping ping) => send ch (Pong ping);; mret (Some mx)
  | Received _ => mret (Some mx)
  | TimedOut => send_close ch 4000 "Heartbeat timeout";; mux_cleanup ch mx
  end.
End ws.
