(* ===== verification/HttpCoordinator.v ===== *)
(** * The HTTP coordinator

    [coordinator/http.rs]: the client's side of the server.  Calls go over a
    WebSocket when one is open and otherwise over HTTP; a subscription opens the
    WebSocket, and falls back to server-sent events.  The network is the class
    [Link]: requests that are answered or fail, a socket that is written and
    read, and fresh ids.  The tasks that [subscribe] spawns are the functions
    [reader_turn] and [sse_chunk].  The file ends with the variant of this client
    in the crate [vaultsync-coordinator-http]. *)
From S2P Require Import Prelude Text Types Coordinator Document Opfs Json WsProto TokenStore Server WsSession.
From Stdlib Require Import Ascii.

(** ** The network *)

(** A request as the HTTP library builds it: [bearer_auth] and [json] set the
    header and the body. *)
Record http_request := HttpRequest {
  hr_method : method;
  hr_url : string;
  hr_bearer : option string;
  hr_json : option bytes;
}.

(** [ws_next] is [ws_stream.next()], with or without a time limit;
    [ws_arrivals] what the socket yields to the reader task while a reply is
    awaited. *)
Class Link (L : Type) := {
  new_uuid : SM L Empty_set string;
  http_send : http_request → SM L string (StatusCode * bytes);
  ws_connect : string → SM L string unit;
  ws_write : bytes → SM L string unit;
  ws_next : bool → SM L Empty_set incoming;
  ws_arrivals : SM L Empty_set (list ws_message);
}.

(** ** State *)

(** The requests without a reply, the replies, the snapshots received, and the
    mutations handed to the subscriber, [None] once it has dropped its stream.
    The subscriber takes them in time: the channel to it, of 1,024 mutations, is
    not full when the reader task sends. *)
Record WsClientHandle := WsClientHandle_new {
  wh_pending_requests : gset string;
  wh_replies : gmap string bytes;
  wh_received_snapshots : list Snapshot;
  wh_mutations : option (list PendingMutation);
}.

(** [mut_tx.send(mutat)]: [None], on which the reader task leaves its loop, when
    the receiver is gone. *)
Definition hand_mutation (mutat : PendingMutation) (h : WsClientHandle) : option WsClientHandle :=
  ms ← wh_mutations h;
  Some (WsClientHandle_new (wh_pending_requests h) (wh_replies h) (wh_received_snapshots h) (Some (ms ++ [mutat]))).

(** The subscriber drops its [HttpSubscription], and the receiver with it. *)
Definition drop_subscription (h : WsClientHandle) : WsClientHandle :=
  WsClientHandle_new (wh_pending_requests h) (wh_replies h) (wh_received_snapshots h) None.

Record HttpCoordinator (L : Type) := HttpCoordinator_new {
  hc_url : string;
  hc_auth_token : option string;
  hc_ws_client : option WsClientHandle;
  hc_schema_version : N;
  hc_link : L;
}.
Arguments HttpCoordinator_new {L}.
Arguments hc_url {L}.
Arguments hc_auth_token {L}.
Arguments hc_ws_client {L}.
Arguments hc_schema_version {L}.
Arguments hc_link {L}.

Definition set_link {L : Type} (l : L) (h : HttpCoordinator L) : HttpCoordinator L :=
  HttpCoordinator_new (hc_url h) (hc_auth_token h) (hc_ws_client h) (hc_schema_version h) l.
Definition set_ws_client {L : Type} (c : option WsClientHandle) (h : HttpCoordinator L) : HttpCoordinator L :=
  HttpCoordinator_new (hc_url h) (hc_auth_token h) c (hc_schema_version h) (hc_link h).
Definition set_client_version {L : Type} (v : N) (h : HttpCoordinator L) : HttpCoordinator L :=
  HttpCoordinator_new (hc_url h) (hc_auth_token h) (hc_ws_client h) v (hc_link h).

Definition http_new {L : Type} (url : string) (auth_token : option string) (l : L) : HttpCoordinator L :=
  HttpCoordinator_new url auth_token None 0 l.

(** ** Texts *)

(** [trim_end_matches('/')]. *)
Fixpoint trim_slashes (s : string) : string :=
  match s with
  | EmptyString => EmptyString
  | String c s' =>
      match trim_slashes s' with
      | EmptyString => if bool_decide (c = "/"%char) then EmptyString else String c EmptyString
      | rest => String c rest
      end
  end.

(** [replace(from, to)], of texts that do not overlap themselves. *)
Fixpoint replace_all (fuel : nat) (from to s : string) : string :=
  match fuel, s with
  | S fuel, String c s' =>
      if String.prefix from s
      then to +:+ replace_all fuel from to
             (String.substring (String.length from) (String.length s - String.length from) s)
      else String c (replace_all fuel from to s')
  | _, _ => s
  end.

Definition get_ws_url (http_url ns : string) : string :=
  let trimmed := trim_slashes http_url in
  let replaced from to := replace_all (String.length trimmed) from to trimmed in
  let base :=
    if String.prefix "https://" trimmed then replaced "https://" "wss://"
    else if String.prefix "http://" trimmed then replaced "http://" "ws://"
    else "ws://" +:+ trimmed in
  base +:+ "/namespace/" +:+ ns +:+ "/ws".

Definition is_success (code : StatusCode) : bool := ((200 <=? code) && (code <? 300))%N.

(** [str::trim], on the bytes of a text: how many of the first bytes are a
    space, of a text and of a reversed text. *)
Definition ascii_space (b : N) : bool := in_range 9 13 b || (b =? 32)%N.
Definition wide_space (b c : N) : bool :=
  ((b =? 0x80) && (in_range 0x80 0x8A c || (c =? 0xA8) || (c =? 0xA9) || (c =? 0xAF)) ||
   (b =? 0x81) && (c =? 0x9F))%N.
Definition space3 (a b c : N) : bool :=
  ((a =? 0xE1) && (b =? 0x9A) && (c =? 0x80) || (a =? 0xE2) && wide_space b c ||
   (a =? 0xE3) && (b =? 0x80) && (c =? 0x80))%N.
Definition space2 (a b : N) : bool := ((a =? 0xC2) && ((b =? 0x85) || (b =? 0xA0)))%N.

Definition first_space (bs : bytes) : nat :=
  match bs with
  | a :: b :: c :: _ => if ascii_space a then 1 else if space2 a b then 2 else if space3 a b c then 3 else 0
  | [a; b] => if ascii_space a then 1 else if space2 a b then 2 else 0
  | [a] => if ascii_space a then 1 else 0
  | [] => 0
  end.
Definition last_space (bs : bytes) : nat :=
  match bs with
  | c :: b :: a :: _ => if ascii_space c then 1 else if space2 b c then 2 else if space3 a b c then 3 else 0
  | [b; a] => if ascii_space b then 1 else if space2 a b then 2 else 0
  | [a] => if ascii_space a then 1 else 0
  | [] => 0
  end.
Fixpoint drop_spaces (first : bytes → nat) (fuel : nat) (bs : bytes) : bytes :=
  match fuel, first bs with
  | S fuel, S n => drop_spaces first fuel (drop (S n) bs)
  | _, _ => bs
  end.
Definition trim (bs : bytes) : bytes :=
  let bs := drop_spaces first_space (length bs) bs in
  rev (drop_spaces last_space (length bs) (rev bs)).

(** ** The reader task *)

(** The snapshots received while the subscription runs, one for each document
    and record, with the higher sequence. *)
Definition same_record (snap s : Snapshot) : bool :=
  bool_decide (sn_doc_id s = sn_doc_id snap) && bool_decide (sn_record_id s = sn_record_id snap).

Definition cache_snapshot (snap : Snapshot) (snaps : list Snapshot) : list Snapshot :=
  match List.find (same_record snap) snaps with
  | Some _ => update_first (same_record snap)
      (λ existing, if (sn_sequence existing <? sn_sequence snap)%N then snap else existing) snaps
  | None => snaps ++ [snap]
  end.

(** The snapshot in a payload. *)
Definition payload_snapshot (p : SnapshotPayload) : Snapshot :=
  Snapshot_new (sp_doc_id p) (sp_record_id p) 0 (sp_sequence p) 0 (sp_bytes p) (sp_checksum p).

Section client.
Context {L : Type} {HL : Link L} {J : JsonText} {K : SnapshotCodec}.
(** [StatusCode]'s [Display]. *)
Context (status_display : StatusCode → string).

(** One message: [None] where the task leaves its loop. *)
Definition reader_turn (m : ws_message) (h : WsClientHandle) : option WsClientHandle :=
  match m with
  | Binary bin =>
      match decode_frame bin with
      | Err _ => Some h
      | Ok (msg_type, payload) =>
          if (msg_type =? MSG_MUTATION_PUSH)%N then
            match from_slice s_pending payload with
            | Some mutat => hand_mutation mutat h
            | None => Some h
            end
          else if (msg_type =? MSG_SNAPSHOT)%N then
            match from_slice s_snapshot_payload payload with
            | Some p =>
                if negb (sp_checksum p =? 0)%N && verify_checksum (payload_snapshot p) then
                  Some (WsClientHandle_new (wh_pending_requests h) (wh_replies h)
                    (cache_snapshot (payload_snapshot p) (wh_received_snapshots h)) (wh_mutations h))
                else Some h
            | None => Some h
            end
          else
            match parse_json payload ≫= get_str "request_id" with
            | Some req_id =>
                if bool_decide (req_id ∈ wh_pending_requests h) then
                  Some (WsClientHandle_new (wh_pending_requests h ∖ {[req_id]})
                    (<[req_id := bin]> (wh_replies h)) (wh_received_snapshots h) (wh_mutations h))
                else Some h
            | None => Some h
            end
      end
  | Close _ => None
  | _ => Some h
  end.

Fixpoint reader_run (ms : list ws_message) (h : WsClientHandle) : option WsClientHandle :=
  match ms with
  | [] => Some h
  | m :: ms => h ← reader_turn m h; reader_run ms h
  end.

(** ** Calls *)

(** A call ends with an error, or never: nothing answers it. *)
Inductive halt := Failed (e : CoordinatorError) | Hangs.
Abbreviation H := (SM (HttpCoordinator L) halt).

Definition failing {A} (e : CoordinatorError) : H A := sm_fail (Failed e).

(** An operation of the network. *)
Definition on_link {A} (m : SM L string A) : H (result A string) := sm_try (zoom hc_link set_link m).
Definition surely {A} (m : SM L Empty_set A) : H A :=
  sm_map_err (λ e : Empty_set, match e with end) (zoom hc_link set_link m).

(** [map_err(|e| Internal(e.to_string()))?]. *)
Definition or_internal {A} (m : SM L string A) : H A :=
  r ← on_link m;
  match r with Ok a => mret a | Err e => failing (Internal e) end.

(** What a reader task makes of the messages that arrive. *)
Abbreviation reader := (list ws_message → WsClientHandle → option WsClientHandle).

(** [rx.await]: the reader task takes what arrives.  The call itself keeps the
    sender of its reply alive, so it is not woken when the task ends. *)
Definition await_reply (run : reader) (req_id : string) (handle : WsClientHandle) : H bytes :=
  arrivals ← surely ws_arrivals;
  match run arrivals handle with
  | None => sm_modify (set_ws_client None);; sm_fail Hangs
  | Some handle =>
      sm_modify (set_ws_client (Some handle));;
      match wh_replies handle !! req_id with
      | Some bin => mret bin
      | None => sm_fail Hangs
      end
  end.

(** A request over the WebSocket and its reply; [None] where the call goes on to
    HTTP. *)
Definition ws_request {A} (run : reader) (msg_type : N) (c : serde A) (payload : string → A) : H (option bytes) :=
  handle_opt ← sm_gets hc_ws_client;
  match handle_opt with
  | None => mret None
  | Some handle =>
      req_id ← surely new_uuid;
      let handle := WsClientHandle_new ({[req_id]} ∪ wh_pending_requests handle) (wh_replies handle)
        (wh_received_snapshots handle) (wh_mutations handle) in
      sm_modify (set_ws_client (Some handle));;
      sent ← on_link (ws_write (encode_frame msg_type c (payload req_id)));
      match sent with
      | Ok _ => bin ← await_reply run req_id handle; mret (Some bin)
      | Err _ => mret None
      end
  end.

(** A frame of the type [expected]. *)
Definition reply_payload {A} (expected : N) (c : serde A) (reply : option bytes) : option A :=
  match reply with
  | Some bin =>
      match decode_frame bin with
      | Ok (msg_type, payload) => if (msg_type =? expected)%N then from_slice c payload else None
      | Err _ => None
      end
  | None => None
  end.

(** A message without a reply: whether it went to the socket. *)
Definition ws_notify {A} (msg_type : N) (c : serde A) (payload : A) : H bool :=
  handle_opt ← sm_gets hc_ws_client;
  match handle_opt with
  | None => mret false
  | Some _ =>
      sent ← on_link (ws_write (encode_frame msg_type c payload));
      mret (is_ok sent)
  end.

(** A request over HTTP, up to its status and body. *)
Definition http_raw (m : method) (path : string) (body : option bytes) : H (StatusCode * bytes) :=
  h ← sm_get;
  or_internal (http_send (HttpRequest m (trim_slashes (hc_url h) +:+ path) (hc_auth_token h) body)).

Definition check_status (resp : StatusCode * bytes) : H bytes :=
  if is_success resp.1 then mret resp.2
  else failing (Internal ("HTTP error status: " +:+ status_display resp.1)).

Definition http_call (m : method) (path : string) (body : option bytes) : H bytes :=
  http_raw m path body ≫= check_status.

(** [resp.json()] of a body and [serde_json::from_slice] of a payload, with the
    failure turned into [Internal]: one text stands for the messages of the two
    libraries. *)
Definition read_json {A} (c : serde A) (body : bytes) : H A :=
  match from_slice c body with Some a => mret a | None => failing (Internal "error decoding response body") end.

Definition json_of {A} (c : serde A) (a : A) : option bytes := Some (to_vec (to_value c a)).

Definition http_push_with (run : reader) (ns : string) (mutations : list EncryptedMutation) : H (list N) :=
  reply ← ws_request run MSG_PUSH s_push (λ req_id, PushPayload_new req_id mutations);
  match reply_payload MSG_PUSH_ACK s_push_ack reply with
  | Some ack => match pa_error ack with Some err => failing (Internal err) | None => mret (pa_sequences ack) end
  | None =>
      body ← http_call POST ("/namespace/" +:+ ns +:+ "/push") (json_of (s_vec s_encrypted) mutations);
      read_json (s_vec s_u64) body
  end.

Definition http_pull_with (run : reader) (ns : string) (after : N) (limit : nat) : H (list PendingMutation) :=
  reply ← ws_request run MSG_PULL s_pull (λ req_id, PullPayload_new req_id ns after limit);
  match reply_payload MSG_PULL_RESPONSE s_pull_response reply with
  | Some resp => mret (pr_mutations resp)
  | None =>
      body ← http_call GET ("/namespace/" +:+ ns +:+ "/pull?after=" +:+ show_N after +:+ "&limit="
        +:+ show_N (N.of_nat limit)) None;
      read_json (s_vec s_pending) body
  end.

Definition http_push : string → list EncryptedMutation → H (list N) := http_push_with reader_run.
Definition http_pull : string → N → nat → H (list PendingMutation) := http_pull_with reader_run.

Definition http_register (ns : string) (info : ReplicaInfo) (last_sequence : N) : H unit :=
  sm_modify (set_client_version (ri_schema_version info));;
  sent ← ws_notify MSG_REGISTER s_register (RegisterPayload_new (ri_replica_id info) ns (ri_public_key info)
    (ri_schema_version info) last_sequence 1);
  match sent with
  | true => mret tt
  | false => http_call POST ("/namespace/" +:+ ns +:+ "/register") (json_of s_replica info);; mret tt
  end.

Definition http_update_replica_key (ns replica_id : string) (public_key : bytes) (key_version : N) : H unit :=
  http_call PUT ("/namespace/" +:+ ns +:+ "/replicas/" +:+ replica_id +:+ "/key")
    (json_of s_update_replica_key (UpdateReplicaKeyPayload_new public_key key_version));;
  mret tt.

Definition http_get_replica_key (ns replica_id : string) : H (option (bytes * N)) :=
  resp ← http_raw GET ("/namespace/" +:+ ns +:+ "/replicas/" +:+ replica_id +:+ "/key") None;
  if (resp.1 =? NOT_FOUND)%N then mret None
  else
    body ← check_status resp;
    payload ← read_json s_replica_key body;
    mret ((λ p, (uk_public_key p, uk_key_version p)) <$> payload).

Definition http_heartbeat (ns replica_id : string) : H unit :=
  sent ← ws_notify MSG_HEARTBEAT s_heartbeat (HeartbeatPayload_new replica_id ns);
  match sent with
  | true => mret tt
  | false => http_call POST ("/namespace/" +:+ ns +:+ "/heartbeat?replica_id=" +:+ replica_id) None;; mret tt
  end.

Definition http_schema_version (ns : string) : H N :=
  body ← http_call GET ("/namespace/" +:+ ns +:+ "/schema_version") None;
  read_json s_u64 body.

(** Without a WebSocket the snapshot goes nowhere. *)
Definition http_store_snapshot (_ns : string) (snapshot : Snapshot) : H unit :=
  ws_notify MSG_SNAPSHOT s_snapshot snapshot;;
  mret tt.

Definition http_get_snapshot (_ns doc_id record_id : string) : H (option Snapshot) :=
  handle_opt ← sm_gets hc_ws_client;
  mret (handle_opt ≫= λ handle,
    List.find (λ s, bool_decide (sn_doc_id s = doc_id) && bool_decide (sn_record_id s = record_id))
      (wh_received_snapshots handle)).

Definition http_list_snapshots (_ns : string) : H (list Snapshot) :=
  handle_opt ← sm_gets hc_ws_client;
  mret (from_option wh_received_snapshots [] handle_opt).

(** ** Opening the WebSocket *)

Definition ws_send_frame {A} (msg_type : N) (c : serde A) (payload : A) : H unit :=
  or_internal (ws_write (encode_frame msg_type c payload)).

(** The next message, which must be a frame; [closed] and [not_binary] are the
    texts of the errors, [describe] that of a type other than [expected]. *)
Definition ws_expect (closed not_binary : string) (describe : N → string) (expected : N) : H bytes :=
  ev ← surely (ws_next false);
  match ev with
  | Received (Binary bin) =>
      match decode_frame bin with
      | Err e => failing (Internal e)
      | Ok (msg_type, payload) =>
          if (msg_type =? expected)%N then mret payload else failing (Internal (describe msg_type))
      end
  | Received _ => failing (Internal not_binary)
  | ReceiveError => failing (Internal "WebSocket error")
  | StreamEnded | TimedOut => failing (Internal closed)
  end.

(** The snapshots that follow the acknowledgement of the registration, up to
    anything else or 200 ms without a message. *)
Fixpoint drain_snapshots (fuel : nat) : H (list Snapshot) :=
  match fuel with
  | O => sm_fail Hangs
  | S fuel =>
      ev ← surely (ws_next true);
      match ev with
      | Received (Binary peeked) =>
          match decode_frame peeked with
          | Ok (peeked_type, payload) =>
              if (peeked_type =? MSG_SNAPSHOT)%N then
                rest ← drain_snapshots fuel;
                mret match from_slice s_snapshot_payload payload with
                     | Some p =>
                         if verify_checksum (payload_snapshot p) then payload_snapshot p :: rest else rest
                     | None => rest
                     end
              else mret []
          | Err _ => mret []
          end
      | _ => mret []
      end
  end.

Context (hex_byte : N → string).

Definition try_connect_ws (fuel : nat) (ns : string) (after : N) : H unit :=
  h ← sm_get;
  or_internal (ws_connect (get_ws_url (hc_url h) ns));;
  client_id ← surely new_uuid;
  let replica_id := "client-" +:+ client_id in
  ws_send_frame MSG_AUTH s_auth (AuthPayload_new (default "" (hc_auth_token h)) 1 replica_id ns);;
  payload ← ws_expect "Connection closed" "Expected binary frame during AUTH"
    (λ t, "Expected MSG_AUTH_ACK, got " +:+ hex_byte t) MSG_AUTH_ACK;
  auth_ack ← read_json s_auth_ack payload;
  if negb (bool_decide (aa_status auth_ack = "ok")) then failing AuthFailed
  else
    ws_send_frame MSG_REGISTER s_register
      (RegisterPayload_new replica_id ns [] (hc_schema_version h) after 1);;
    ws_expect "Connection closed during REGISTER" "Expected binary frame during REGISTER"
      (λ t, "Expected MSG_REGISTER_ACK, got " +:+ hex_byte t) MSG_REGISTER_ACK;;
    bootstrap_snapshots ← drain_snapshots fuel;
    ws_send_frame MSG_SCHEMA_SYNC s_schema_sync (SchemaSyncPayload_new ns (hc_schema_version h));;
    payload ← ws_expect "Connection closed during SCHEMA_SYNC" "Expected binary frame during SCHEMA_SYNC"
      (λ t, "Expected MSG_SCHEMA_MIGRATION, got " +:+ hex_byte t) MSG_SCHEMA_MIGRATION;
    migration ← read_json s_schema_migration payload;
    if bool_decide (mg_status migration = "mismatch") then failing SchemaMismatch
    else
      request_id ← surely new_uuid;
      ws_send_frame MSG_SUBSCRIBE s_subscribe (SubscribePayload_new request_id ns after);;
      sm_modify (set_ws_client (Some (WsClientHandle_new ∅ ∅ bootstrap_snapshots (Some [])))).

(** Where the mutations of a subscription come from. *)
Inductive subscription_source := FromWs | FromSse.

Definition http_subscribe (fuel : nat) (ns : string) (from_sequence : N) : H subscription_source := λ h,
  match try_connect_ws fuel ns from_sequence h with
  | (Ok _, h') => (Ok FromWs, h')
  | (Err (Failed AuthFailed), h') => (Err (Failed AuthFailed), h')
  | (Err (Failed _), h') => (Ok FromSse, h')
  | (Err Hangs, h') => (Err Hangs, h')
  end.

(** One turn of the task that sends heartbeats. *)
Definition heartbeat_turn (replica_id : string) : H bool :=
  sent ← on_link (ws_write (encode_frame MSG_HEARTBEAT s_heartbeat (HeartbeatPayload_new replica_id "")));
  mret (is_ok sent).

(** ** Server-sent events *)

(** The mutation in a line. *)
Definition sse_line (line : bytes) : option PendingMutation :=
  match from_utf8 line with
  | None => None
  | Some _ =>
      let line := trim line in
      if bool_decide (take 5 line = utf8 "data:") then from_slice s_pending (trim (drop 5 line)) else None
  end.

(** The loop over the complete lines of the buffer: the mutations and the rest. *)
Fixpoint sse_lines (line buffer : bytes) : list PendingMutation * bytes :=
  match buffer with
  | [] => ([], line)
  | b :: buffer =>
      if (b =? 10)%N then
        let '(ms, rest) := sse_lines [] buffer in
        (option_list (sse_line (line ++ [b])) ++ ms, rest)
      else sse_lines (line ++ [b]) buffer
  end.

(** The state of the task: the buffer of the connection, the highest sequence
    seen, and what it sent. *)
Record sse_state := Sse { se_buffer : bytes; se_after : N; se_sent : list PendingMutation }.

Definition sse_chunk (chunk : bytes) (s : sse_state) : sse_state :=
  let '(ms, rest) := sse_lines [] (se_buffer s ++ chunk) in
  Sse rest (foldl (λ a m, N.max a (pm_sequence m)) (se_after s) ms) (se_sent s ++ ms).

(** A new connection, with an empty buffer, asks for what follows. *)
Definition sse_reconnect (s : sse_state) : sse_state := Sse [] (se_after s) (se_sent s).
Definition sse_path (ns : string) (s : sse_state) : string :=
  "/namespace/" +:+ ns +:+ "/events?after=" +:+ show_N (se_after s).
End client.

(** ** The client of the crate [vaultsync-coordinator-http]

    The same client with another WebSocket: its handle knows the namespace for
    which it was opened, and serves the calls of that namespace only; there are
    no snapshots and no schema versions on the socket.  The snapshots go over
    HTTP. *)
Record CrateCoordinator (L : Type) := Crate {
  cr_http : HttpCoordinator L;
  (** the namespace of the handle, where there is one *)
  cr_namespace : string;
}.
Arguments Crate {L}.
Arguments cr_http {L}.
Arguments cr_namespace {L}.

Definition set_cr_http {L : Type} (h : HttpCoordinator L) (c : CrateCoordinator L) : CrateCoordinator L :=
  Crate h (cr_namespace c).

Definition crate_new {L : Type} (url : string) (auth_token : option string) (l : L) : CrateCoordinator L :=
  Crate (http_new url auth_token l) "".

Section crate.
Context {L : Type} {HL : Link L} {J : JsonText} {K : SnapshotCodec}.
Context (status_display : StatusCode → string).

Abbreviation H := (SM (HttpCoordinator L) halt).
Abbreviation M := (SM (CrateCoordinator L) halt).

Definition crate_reader_turn (m : ws_message) (h : WsClientHandle) : option WsClientHandle :=
  match m with
  | Binary bin =>
      match decode_frame bin with
      | Err _ => Some h
      | Ok (msg_type, payload) =>
          if (msg_type =? MSG_MUTATION_PUSH)%N then
            match from_slice s_pending payload with
            | Some mutat => hand_mutation mutat h
            | None => Some h
            end
          else
            match parse_json payload ≫= get_str "request_id" with
            | Some req_id =>
                if bool_decide (req_id ∈ wh_pending_requests h) then
                  Some (WsClientHandle_new (wh_pending_requests h ∖ {[req_id]})
                    (<[req_id := bin]> (wh_replies h)) (wh_received_snapshots h) (wh_mutations h))
                else Some h
            | None => Some h
            end
      end
  | Close _ => None
  | _ => Some h
  end.

Fixpoint crate_reader_run (ms : list ws_message) (h : WsClientHandle) : option WsClientHandle :=
  match ms with
  | [] => Some h
  | m :: ms => h ← crate_reader_turn m h; crate_reader_run ms h
  end.

Definition lift {A} (m : H A) : M A := zoom cr_http set_cr_http m.

(** A call that does not look at the socket. *)
Definition without_socket {A} (m : H A) : H A := λ h,
  let '(r, h') := m (set_ws_client None h) in (r, set_ws_client (hc_ws_client h) h').

(** [if handle.namespace == namespace]. *)
Definition for_namespace {A} (ns : string) (m : H A) : M A :=
  c ← sm_get;
  lift (if bool_decide (cr_namespace c = ns) then m else without_socket m).

Definition crate_push (ns : string) (mutations : list EncryptedMutation) : M (list N) :=
  for_namespace ns (http_push_with status_display crate_reader_run ns mutations).

Definition crate_pull (ns : string) (after : N) (limit : nat) : M (list PendingMutation) :=
  for_namespace ns (http_pull_with status_display crate_reader_run ns after limit).

Definition crate_register (ns : string) (info : ReplicaInfo) (last_sequence : N) : M unit :=
  lift (
    sent ← ws_notify MSG_REGISTER s_register (RegisterPayload_new (ri_replica_id info) ns (ri_public_key info)
      (ri_schema_version info) last_sequence 1);
    match sent with
    | true => mret tt
    | false => http_call status_display POST ("/namespace/" +:+ ns +:+ "/register") (json_of s_replica info);; mret tt
    end).

Definition crate_update_replica_key (ns replica_id : string) (public_key : bytes) (key_version : N) : M unit :=
  lift (http_update_replica_key status_display ns replica_id public_key key_version).
Definition crate_get_replica_key (ns replica_id : string) : M (option (bytes * N)) :=
  lift (http_get_replica_key status_display ns replica_id).
Definition crate_heartbeat (ns replica_id : string) : M unit := lift (http_heartbeat status_display ns replica_id).
Definition crate_schema_version (ns : string) : M N := lift (http_schema_version status_display ns).

Definition snapshot_path (ns doc_id record_id : string) : string :=
  "/namespace/" +:+ ns +:+ "/snapshot/" +:+ doc_id +:+ "/" +:+ record_id.

Definition crate_get_snapshot (ns doc_id record_id : string) : M (option Snapshot) :=
  lift (
    resp ← http_raw GET (snapshot_path ns doc_id record_id) None;
    if (resp.1 =? NOT_FOUND)%N then mret None
    else
      body ← check_status status_display resp;
      read_json s_snapshot_option body).

Definition crate_store_snapshot (ns : string) (snapshot : Snapshot) : M unit :=
  lift (
    http_call status_display POST (snapshot_path ns (sn_doc_id snapshot) (sn_record_id snapshot))
      (json_of s_snapshot snapshot);;
    mret tt).

Definition crate_list_snapshots (ns : string) : M (list Snapshot) :=
  lift (
    body ← http_call status_display GET ("/namespace/" +:+ ns +:+ "/snapshots") None;
    read_json (s_vec s_snapshot) body).

Definition crate_compact_oplog (ns : string) : M CompactionStats :=
  lift (
    body ← http_call status_display POST ("/namespace/" +:+ ns +:+ "/compact") None;
    read_json s_compaction_stats body).

(** Opening the WebSocket: AUTH, REGISTER with schema version 0, SUBSCRIBE. *)
Context (hex_byte : N → string).

Definition crate_try_connect_ws (ns : string) (after : N) : M unit :=
  lift (
    h ← sm_get;
    or_internal (ws_connect (get_ws_url (hc_url h) ns));;
    client_id ← surely new_uuid;
    let replica_id := "client-" +:+ client_id in
    ws_send_frame MSG_AUTH s_auth (AuthPayload_new (default "" (hc_auth_token h)) 1 replica_id ns);;
    payload ← ws_expect "Connection closed" "Expected binary frame during AUTH"
      (λ t, "Expected MSG_AUTH_ACK, got " +:+ hex_byte t) MSG_AUTH_ACK;
    auth_ack ← read_json s_auth_ack payload;
    if negb (bool_decide (aa_status auth_ack = "ok")) then failing AuthFailed
    else
      ws_send_frame MSG_REGISTER s_register (RegisterPayload_new replica_id ns [] 0 after 1);;
      ws_expect "Connection closed during REGISTER" "Expected binary frame during REGISTER"
        (λ t, "Expected MSG_REGISTER_ACK, got " +:+ hex_byte t) MSG_REGISTER_ACK;;
      request_id ← surely new_uuid;
      ws_send_frame MSG_SUBSCRIBE s_subscribe (SubscribePayload_new request_id ns after));;
  sm_modify (λ c, Crate (set_ws_client (Some (WsClientHandle_new ∅ ∅ [] (Some []))) (cr_http c)) ns).

Definition crate_subscribe (ns : string) (from_sequence : N) : M subscription_source := λ c,
  match crate_try_connect_ws ns from_sequence c with
  | (Ok _, c') => (Ok FromWs, c')
  | (Err (Failed AuthFailed), c') => (Err (Failed AuthFailed), c')
  | (Err (Failed _), c') => (Ok FromSse, c')
  | (Err Hangs, c') => (Err Hangs, c')
  end.

(** One turn of the heartbeat task, which names the namespace. *)
Definition crate_heartbeat_turn (replica_id ns : string) : M bool :=
  lift (
    sent ← on_link (ws_write (encode_frame MSG_HEARTBEAT s_heartbeat (HeartbeatPayload_new replica_id ns)));
    mret (is_ok sent)).
End crate.
