(* ===== verification/HttpServer.v ===== *)
(** * The HTTP coordinator connected to the server

    A network ([Link]) that carries the requests of [HttpCoordinator] to the
    handlers of [Server], and its socket to a session of [WsSession].  How the
    HTTP libraries read the URL and the header that the client writes is the
    class [HttpStack]. *)
From Stdlib Require Import Ascii.
From S2P Require Import Prelude Text Types Coordinator Document Opfs Json WsProto TokenStore Server WsSession HttpCoordinator.

(** ** URLs and headers *)

(** The segments and the query of a URL as the server sees them; and the value
    of a header: [None] if the client refuses it, else what [to_str] gives. *)
Class HttpStack := {
  resolve : string → option (list string * list (string * string));
  header_text : string → option (option string);
}.

(** The unreserved characters of RFC 3986 pass unchanged through a URL. *)
Definition unreserved (c : ascii) : bool :=
  let n := N_of_ascii c in
  in_range 48 57 n || in_range 65 90 n || in_range 97 122 n ||
  (n =? 45)%N || (n =? 46)%N || (n =? 95)%N || (n =? 126)%N.

Definition url_safe (s : string) : bool :=
  all_chars unreserved s && negb (bool_decide (s ∈ [""; "."; ".."])).

(** The visible characters and the space. *)
Definition printable (c : ascii) : bool := in_range 32 126 (N_of_ascii c).

Definition path_text (segs : list string) : string := foldr (λ s rest, "/" +:+ s +:+ rest) "" segs.

Fixpoint query_text (q : list (string * string)) : string :=
  match q with
  | [] => ""
  | [(k, v)] => k +:+ "=" +:+ v
  | (k, v) :: q => k +:+ "=" +:+ v +:+ "&" +:+ query_text q
  end.

(** [served url]: the requests to this URL go to the server. *)
Class HttpStackSpec `{HttpStack} := {
  served : string → Prop;
  resolve_path base segs : served base → Forall (λ s, url_safe s = true) segs →
    resolve (base +:+ path_text segs) = Some (segs, []);
  resolve_query base segs q : served base → Forall (λ s, url_safe s = true) segs →
    q ≠ [] → Forall (λ p, url_safe p.1 = true ∧ url_safe p.2 = true) q →
    resolve (base +:+ path_text segs +:+ "?" +:+ query_text q) = Some (segs, q);
  resolve_ws url ns : served (trim_slashes url) → url_safe ns = true →
    resolve (get_ws_url url ns) = Some (["namespace"; ns; "ws"], []);
  header_printable v : all_chars printable v = true → header_text v = Some (Some v);
}.

(** ** The network *)

(** The server, the session at the other end of the socket with its channel and
    namespace, how many of the channel's messages the client has read, and the
    ids drawn so far. *)
Record server_link (C T S : Type) := ServerLink {
  sl_world : world C T S;
  sl_phase : ws_phase;
  sl_channel : nat;
  sl_ns : string;
  sl_read : nat;
  sl_ids : nat;
}.
Arguments ServerLink {C T S}.
Arguments sl_world {C T S}.
Arguments sl_phase {C T S}.
Arguments sl_channel {C T S}.
Arguments sl_ns {C T S}.
Arguments sl_read {C T S}.
Arguments sl_ids {C T S}.

Section link.
Context {C T : Type} {HC : Coordinator C} {HST : Streams C} {HT : TokenStore T}.
Context {J : JsonText} {AX : Axum} {K : SnapshotCodec} {HSK : HttpStack}.
Context (error_debug : CoordinatorError → string) (uuid : nat → string).

Abbreviation link := (server_link C T stream).

Definition set_world (w : world C T stream) (l : link) : link :=
  ServerLink w (sl_phase l) (sl_channel l) (sl_ns l) (sl_read l) (sl_ids l).

Definition draw_uuid : SM link Empty_set string := λ l,
  (Ok (uuid (sl_ids l)),
   ServerLink (sl_world l) (sl_phase l) (sl_channel l) (sl_ns l) (sl_read l) (S (sl_ids l))).

(** The header of [bearer_auth]; [None] if the client cannot send it. *)
Definition authorization (bearer : option string) : option (option (option string)) :=
  match bearer with
  | None => Some None
  | Some token => Some <$> header_text ("Bearer " +:+ token)
  end.

Definition to_request (r : http_request) : option request :=
  match resolve (hr_url r), authorization (hr_bearer r) with
  | Some (path, q), Some auth =>
      Some (Request (hr_method r) path q auth (bool_decide (is_Some (hr_json r))) (default [] (hr_json r)))
  | _, _ => None
  end.

Definition deliver (r : http_request) : SM link string (StatusCode * bytes) := λ l,
  match to_request r with
  | None => (Err "builder error", l)
  | Some rq =>
      let w := sl_world l in
      let '((code, body), app) := serve (uuid (sl_ids l)) rq (w_app w) in
      (Ok (code, match body with Content bs => bs | _ => [] end), set_world (set_app app w) l)
  end.

(** A new session gets the next free channel. *)
Definition open_socket (url : string) : SM link string unit := λ l,
  match resolve url with
  | Some (path, q) =>
      let w := sl_world l in
      match serve (uuid (sl_ids l)) (Request GET path q None false []) (w_app w) with
      | ((_, Upgrade (Some ns)), app) =>
          (Ok tt, ServerLink (set_app app w) AwaitAuth (S (sl_channel l)) ns 0 (sl_ids l))
      | (_, app) => (Err "HTTP error", set_world (set_app app w) l)
      end
  | None => (Err "URL error", l)
  end.

(** A frame arrives at the session, which handles it. *)
Definition write_socket (frame : bytes) : SM link string unit := λ l,
  match sl_phase l with
  | Ended => (Err "Connection closed normally", l)
  | phase =>
      let step := ws_step error_debug (uuid (sl_ids l)) (sl_channel l) (sl_ns l) phase (Received (Binary frame)) in
      match step (sl_world l) with
      | (Ok phase', w') => (Ok tt, ServerLink w' phase' (sl_channel l) (sl_ns l) (sl_read l) (S (sl_ids l)))
      | (Err e, _) => match e with end
      end
  end.

(** The next message of the channel.  The network is an ideal one: what the server
    has sent is there when the client reads, so a time limit runs out only when
    there is nothing more to read. *)
Definition read_socket (timeout : bool) : SM link Empty_set incoming := λ l,
  match outbox (sl_channel l) (sl_world l) !! sl_read l with
  | Some m => (Ok (Received m),
      ServerLink (sl_world l) (sl_phase l) (sl_channel l) (sl_ns l) (S (sl_read l)) (sl_ids l))
  | None => (Ok (if timeout then TimedOut else StreamEnded), l)
  end.

Definition read_arrivals : SM link Empty_set (list ws_message) := λ l,
  let out := outbox (sl_channel l) (sl_world l) in
  (Ok (drop (sl_read l) out),
   ServerLink (sl_world l) (sl_phase l) (sl_channel l) (sl_ns l) (length out) (sl_ids l)).

Definition server_network : Link link := {|
  new_uuid := draw_uuid;
  http_send := deliver;
  ws_connect := open_socket;
  ws_write := write_socket;
  ws_next := read_socket;
  ws_arrivals := read_arrivals;
|}.
End link.
