(* ===== verification/MuxCoordinator.v ===== *)
(** * The multiplexing coordinator

    [coordinator/mux_coordinator.rs]: one WebSocket for all the namespaces of a
    client.  Frames that arrive are sorted by the reader task into replies,
    acknowledgements, snapshots and the streams of the subscribers; a lost
    connection is opened again, with every namespace that was joined.  The
    network is the class [Link] of [HttpCoordinator]; the file ends with the
    instance whose other end is a session of [ws_mux.rs]. *)
From S2P Require Import Prelude Text Types Coordinator Document Opfs Json WsProto TokenStore Server WsSession HttpCoordinator HttpServer.

(** ** State *)

(** What a [oneshot] channel received stands beside the requests that wait:
    [mh_replies], [mh_acks] and [mh_migrations].  A stream of a subscriber is a
    number, an index of [mu_streams]. *)
Record MuxWsHandle := MuxWsHandle_new {
  mh_pending_requests : gset string;
  mh_replies : gmap string bytes;
  mh_pending_registers : gset string;
  mh_acks : gmap string NamespaceAckPayload;
  mh_pending_schema_syncs : gset string;
  mh_migrations : gmap string SchemaMigrationPayload;
  mh_namespace_txs : gmap string nat;
  mh_snapshots : gmap string (list Snapshot);
  mh_history_preserved : bool;
  mh_max_sequence : N;
}.

Definition handle_new : MuxWsHandle := MuxWsHandle_new ∅ ∅ ∅ ∅ ∅ ∅ ∅ ∅ false 0.

Definition with_requests (p : gset string) (r : gmap string bytes) (h : MuxWsHandle) : MuxWsHandle :=
  MuxWsHandle_new p r (mh_pending_registers h) (mh_acks h) (mh_pending_schema_syncs h) (mh_migrations h)
    (mh_namespace_txs h) (mh_snapshots h) (mh_history_preserved h) (mh_max_sequence h).
Definition with_registers (p : gset string) (a : gmap string NamespaceAckPayload) (h : MuxWsHandle) : MuxWsHandle :=
  MuxWsHandle_new (mh_pending_requests h) (mh_replies h) p a (mh_pending_schema_syncs h) (mh_migrations h)
    (mh_namespace_txs h) (mh_snapshots h) (mh_history_preserved h) (mh_max_sequence h).
Definition with_schema_syncs (p : gset string) (a : gmap string SchemaMigrationPayload) (h : MuxWsHandle) :
    MuxWsHandle :=
  MuxWsHandle_new (mh_pending_requests h) (mh_replies h) (mh_pending_registers h) (mh_acks h) p a
    (mh_namespace_txs h) (mh_snapshots h) (mh_history_preserved h) (mh_max_sequence h).
Definition with_channels (txs : gmap string nat) (snaps : gmap string (list Snapshot)) (h : MuxWsHandle) :
    MuxWsHandle :=
  MuxWsHandle_new (mh_pending_requests h) (mh_replies h) (mh_pending_registers h) (mh_acks h)
    (mh_pending_schema_syncs h) (mh_migrations h) txs snaps (mh_history_preserved h) (mh_max_sequence h).
Definition with_server_info (preserved : bool) (max_seq : N) (h : MuxWsHandle) : MuxWsHandle :=
  MuxWsHandle_new (mh_pending_requests h) (mh_replies h) (mh_pending_registers h) (mh_acks h)
    (mh_pending_schema_syncs h) (mh_migrations h) (mh_namespace_txs h) (mh_snapshots h) preserved max_seq.

Record ActiveNamespaceConfig := ActiveNamespaceConfig_new {
  an_replica_id : string;
  an_public_key : bytes;
  an_schema_version : N;
  an_last_sequence : N;
}.

(** What the reader task keeps when it ends: the channels and snapshots of its
    handle, and the namespaces that were active. *)
Record lost_connection := Lost {
  lo_namespace_txs : gmap string nat;
  lo_snapshots : gmap string (list Snapshot);
  lo_active : gmap string ActiveNamespaceConfig;
}.

(** [ws_client] is the pair of [mu_connected] and [mu_handle]: a handle outlives
    its connection where a call still holds it.  [mu_reconnect] is the reader
    task while it waits to reconnect. *)
Record MuxCoordinator (L : Type) := MuxCoordinator_new {
  mu_url : string;
  mu_auth_token : option string;
  mu_connected : bool;
  mu_handle : MuxWsHandle;
  mu_active : gmap string ActiveNamespaceConfig;
  mu_max_sequence : N;
  mu_streams : list (list PendingMutation);
  mu_reconnect : option lost_connection;
  mu_link : L;
}.
Arguments MuxCoordinator_new {L}.
Arguments mu_url {L}.
Arguments mu_auth_token {L}.
Arguments mu_connected {L}.
Arguments mu_handle {L}.
Arguments mu_active {L}.
Arguments mu_max_sequence {L}.
Arguments mu_streams {L}.
Arguments mu_reconnect {L}.
Arguments mu_link {L}.

Section setters.
Context {L : Type}.
Implicit Types c : MuxCoordinator L.

Definition set_connected (b : bool) c : MuxCoordinator L :=
  MuxCoordinator_new (mu_url c) (mu_auth_token c) b (mu_handle c) (mu_active c) (mu_max_sequence c)
    (mu_streams c) (mu_reconnect c) (mu_link c).
Definition set_mux_handle (h : MuxWsHandle) c : MuxCoordinator L :=
  MuxCoordinator_new (mu_url c) (mu_auth_token c) (mu_connected c) h (mu_active c) (mu_max_sequence c)
    (mu_streams c) (mu_reconnect c) (mu_link c).
Definition set_mux_active (a : gmap string ActiveNamespaceConfig) c : MuxCoordinator L :=
  MuxCoordinator_new (mu_url c) (mu_auth_token c) (mu_connected c) (mu_handle c) a (mu_max_sequence c)
    (mu_streams c) (mu_reconnect c) (mu_link c).
Definition set_mux_max (n : N) c : MuxCoordinator L :=
  MuxCoordinator_new (mu_url c) (mu_auth_token c) (mu_connected c) (mu_handle c) (mu_active c) n
    (mu_streams c) (mu_reconnect c) (mu_link c).
Definition set_mux_streams (l : list (list PendingMutation)) c : MuxCoordinator L :=
  MuxCoordinator_new (mu_url c) (mu_auth_token c) (mu_connected c) (mu_handle c) (mu_active c) (mu_max_sequence c)
    l (mu_reconnect c) (mu_link c).
Definition set_mux_reconnect (r : option lost_connection) c : MuxCoordinator L :=
  MuxCoordinator_new (mu_url c) (mu_auth_token c) (mu_connected c) (mu_handle c) (mu_active c) (mu_max_sequence c)
    (mu_streams c) r (mu_link c).
Definition set_mux_link (l : L) c : MuxCoordinator L :=
  MuxCoordinator_new (mu_url c) (mu_auth_token c) (mu_connected c) (mu_handle c) (mu_active c) (mu_max_sequence c)
    (mu_streams c) (mu_reconnect c) l.

(** The client of the HTTP calls: the same server, and no WebSocket of one
    namespace. *)
Definition as_http c : HttpCoordinator L := HttpCoordinator_new (mu_url c) (mu_auth_token c) None 0 (mu_link c).
Definition set_http (h : HttpCoordinator L) c : MuxCoordinator L := set_mux_link (hc_link h) c.
End setters.

Definition mux_client_new {L : Type} (url : string) (auth_token : option string) (l : L) : MuxCoordinator L :=
  MuxCoordinator_new url auth_token false handle_new ∅ 0 [] None l.

Definition get_ws_mux_url (http_url : string) : string :=
  let trimmed := trim_slashes http_url in
  let replaced from to := replace_all (String.length trimmed) from to trimmed in
  let base :=
    if String.prefix "https://" trimmed then replaced "https://" "wss://"
    else if String.prefix "http://" trimmed then replaced "http://" "ws://"
    else trimmed in
  base +:+ "/ws".

Section mux.
Context {L : Type} {HL : Link L} {J : JsonText} {K : SnapshotCodec}.
Context (status_display : StatusCode → string).

Abbreviation H := (SM (MuxCoordinator L) halt).

Definition mux_failing {A} (e : CoordinatorError) : H A := sm_fail (Failed e).
Definition mux_on_link {A} (m : SM L string A) : H (result A string) := sm_try (zoom mu_link set_mux_link m).
Definition mux_surely {A} (m : SM L Empty_set A) : H A :=
  sm_map_err (λ e : Empty_set, match e with end) (zoom mu_link set_mux_link m).
Definition mux_or_internal {A} (m : SM L string A) : H A :=
  r ← mux_on_link m;
  match r with Ok a => mret a | Err e => mux_failing (Internal e) end.
Definition over_http {A} (m : SM (HttpCoordinator L) halt A) : H A := zoom as_http set_http m.

(** The handle is shared by all that hold it. *)
Definition with_handle (f : MuxWsHandle → MuxWsHandle) : H unit :=
  sm_modify (λ c, set_mux_handle (f (mu_handle c)) c).

(** ** The reader task *)

Definition advance (seq : N) (cfg : ActiveNamespaceConfig) : ActiveNamespaceConfig :=
  ActiveNamespaceConfig_new (an_replica_id cfg) (an_public_key cfg) (an_schema_version cfg)
    (N.max (an_last_sequence cfg) seq).

Definition take_mutation (mutat : PendingMutation) : H unit :=
  sm_modify (λ c, set_mux_active (alter (advance (pm_sequence mutat)) (pm_namespace mutat) (mu_active c)) c);;
  handle ← sm_gets mu_handle;
  match mh_namespace_txs handle !! pm_namespace mutat with
  | Some k => sm_modify (λ c, set_mux_streams (alter (λ ms, ms ++ [mutat]) k (mu_streams c)) c)
  | None => mret tt
  end.

Definition take_snapshot (p : SnapshotPayload) : H unit :=
  if verify_checksum (payload_snapshot p) then
    with_handle (λ h, with_channels (mh_namespace_txs h)
      (<[sp_namespace p := cache_snapshot (payload_snapshot p) (default [] (mh_snapshots h !! sp_namespace p))]>
         (mh_snapshots h)) h)
  else mret tt.

Definition take_ack (ack : NamespaceAckPayload) : H unit :=
  with_handle (λ h, with_server_info (mh_history_preserved h || nk_history_preserved ack) (nk_max_sequence ack) h);;
  sm_modify (set_mux_max (nk_max_sequence ack));;
  with_handle (λ h,
    if bool_decide (nk_namespace ack ∈ mh_pending_registers h)
    then with_registers (mh_pending_registers h ∖ {[nk_namespace ack]}) (<[nk_namespace ack := ack]> (mh_acks h)) h
    else h).

Definition take_migration (mig : SchemaMigrationPayload) : H unit :=
  with_handle (λ h,
    if bool_decide (mg_namespace mig ∈ mh_pending_schema_syncs h)
    then with_schema_syncs (mh_pending_schema_syncs h ∖ {[mg_namespace mig]})
           (<[mg_namespace mig := mig]> (mh_migrations h)) h
    else h).

Definition take_reply (bin payload : bytes) : H unit :=
  match parse_json payload ≫= get_str "request_id" with
  | Some req_id =>
      with_handle (λ h,
        if bool_decide (req_id ∈ mh_pending_requests h)
        then with_requests (mh_pending_requests h ∖ {[req_id]}) (<[req_id := bin]> (mh_replies h)) h
        else h)
  | None => mret tt
  end.

Definition when_parsed {A} (c : serde A) (payload : bytes) (f : A → H unit) : H unit :=
  match from_slice c payload with Some a => f a | None => mret tt end.

(** One message: [false] where the task leaves its loop. *)
Definition mux_reader_turn (m : ws_message) : H bool :=
  match m with
  | Binary bin =>
      match decode_frame bin with
      | Err _ => mret true
      | Ok (msg_type, payload) =>
          (if (msg_type =? MSG_MUTATION_PUSH)%N then when_parsed s_pending payload take_mutation
           else if (msg_type =? MSG_SNAPSHOT)%N then when_parsed s_snapshot_payload payload take_snapshot
           else if (msg_type =? MSG_NAMESPACE_ACK)%N then when_parsed s_namespace_ack payload take_ack
           else if (msg_type =? MSG_SCHEMA_MIGRATION)%N then when_parsed s_schema_migration payload take_migration
           else take_reply bin payload);;
          mret true
      end
  | Close _ => mret false
  | _ => mret true
  end.

(** After the loop: the socket is given up, and unless no namespace is active
    the task waits to reconnect. *)
Definition mux_reader_end : H unit :=
  c ← sm_get;
  sm_modify (set_connected false);;
  if bool_decide (mu_active c = ∅) then mret tt
  else
    let h := mu_handle c in
    sm_modify (set_mux_reconnect (Some (Lost (mh_namespace_txs h) (mh_snapshots h) (mu_active c)))).

Fixpoint mux_reader_run (ms : list ws_message) : H unit :=
  match ms with
  | [] => mret tt
  | m :: ms =>
      alive ← mux_reader_turn m;
      match alive with true => mux_reader_run ms | false => mux_reader_end end
  end.

(** What has arrived reaches the reader task. *)
Definition mux_arrivals : H unit := mux_surely ws_arrivals ≫= mux_reader_run.

(** ** Connections *)

Definition ensure_connected : H unit :=
  c ← sm_get;
  if mu_connected c then mret tt
  else
    mux_or_internal (ws_connect (get_ws_mux_url (mu_url c)));;
    sm_modify (λ c, set_connected true (set_mux_handle handle_new c)).

Definition mux_write {A} (msg_type : N) (c : serde A) (payload : A) : H (result unit string) :=
  mux_on_link (ws_write (encode_frame msg_type c payload)).

(** A namespace is added again, and subscribed from its last sequence. *)
Definition rejoin (ns : string) (cfg : ActiveNamespaceConfig) : H unit :=
  mux_write MSG_NAMESPACE_ADD s_namespace_add (NamespaceAddPayload_new ns (an_replica_id cfg) (an_public_key cfg)
    (an_schema_version cfg) (an_last_sequence cfg) 1);;
  request_id ← mux_surely new_uuid;
  mux_write MSG_SUBSCRIBE s_subscribe (SubscribePayload_new request_id ns (an_last_sequence cfg));;
  mret tt.

(** The reader task two seconds after the connection was lost: one attempt. *)
Definition mux_reconnect : H unit :=
  lost ← sm_gets mu_reconnect;
  match lost with
  | None => mret tt
  | Some (Lost txs snaps active) =>
      sm_modify (set_mux_reconnect None);;
      connected ← sm_try ensure_connected;
      match connected with
      | Err _ => mret tt
      | Ok _ =>
          with_handle (λ h, with_channels (txs ∪ mh_namespace_txs h) (snaps ∪ mh_snapshots h) h);;
          for_each (λ p, rejoin p.1 p.2) (map_to_list active)
      end
  end.

(** One turn of the heartbeat task: whether it goes on.  A failure while it
    goes through the namespaces ends that loop only. *)
Fixpoint beat_all (namespaces : list (string * ActiveNamespaceConfig)) : H unit :=
  match namespaces with
  | [] => mret tt
  | (ns, cfg) :: rest =>
      sent ← mux_write MSG_HEARTBEAT s_heartbeat (HeartbeatPayload_new (an_replica_id cfg) ns);
      match sent with Ok _ => beat_all rest | Err _ => mret tt end
  end.

Definition mux_heartbeat_turn : H bool :=
  active ← sm_gets mu_active;
  if bool_decide (active = ∅) then
    sent ← mux_write MSG_HEARTBEAT s_heartbeat (HeartbeatPayload_new "client-mux" "");
    mret (is_ok sent)
  else beat_all (map_to_list active);; mret true.

(** ** Namespaces *)

(** [tokio::time::timeout] of ten seconds on a [oneshot] channel. *)
Definition await_within {A} (received : MuxWsHandle → option A) : H A :=
  mux_arrivals;;
  handle ← sm_gets mu_handle;
  match received handle with
  | Some a => mret a
  | None => mux_failing Timeout
  end.

Definition add_namespace (ns replica_id : string) (public_key : bytes) (schema_version last_sequence : N) : H unit :=
  ensure_connected;;
  with_handle (λ h, with_registers ({[ns]} ∪ mh_pending_registers h) (delete ns (mh_acks h)) h);;
  mux_or_internal (ws_write (encode_frame MSG_NAMESPACE_ADD s_namespace_add
    (NamespaceAddPayload_new ns replica_id public_key schema_version last_sequence 1)));;
  ack ← await_within (λ h, mh_acks h !! ns);
  if negb (bool_decide (nk_status ack = "ok")) then mux_failing AuthFailed
  else
    with_handle (λ h, with_schema_syncs ({[ns]} ∪ mh_pending_schema_syncs h) (delete ns (mh_migrations h)) h);;
    mux_or_internal (ws_write (encode_frame MSG_SCHEMA_SYNC s_schema_sync (SchemaSyncPayload_new ns schema_version)));;
    mig ← await_within (λ h, mh_migrations h !! ns);
    if bool_decide (mg_status mig = "mismatch") then mux_failing SchemaMismatch
    else sm_modify (λ c, set_mux_active (<[ns := ActiveNamespaceConfig_new replica_id public_key schema_version
                                              last_sequence]> (mu_active c)) c).

Definition drop_namespace (ns replica_id : string) : H unit :=
  sm_modify (λ c, set_mux_active (delete ns (mu_active c)) c);;
  connected ← sm_gets mu_connected;
  match connected with
  | true =>
      with_handle (λ h, with_channels (delete ns (mh_namespace_txs h)) (mh_snapshots h) h);;
      mux_write MSG_NAMESPACE_DROP s_namespace_drop (NamespaceDropPayload_new ns replica_id);;
      mret tt
  | false => mret tt
  end.

Definition mux_history_preserved : H bool :=
  sm_gets (λ c, mu_connected c && mh_history_preserved (mu_handle c)).

Definition mux_client_max_sequence : H N := sm_gets mu_max_sequence.

(** ** Calls *)

(** A request over the WebSocket and its reply, without a time limit; [None]
    where the call goes on to HTTP. *)
Definition mux_request {A} (msg_type : N) (c : serde A) (payload : string → A) : H (option bytes) :=
  connected ← sm_gets mu_connected;
  match connected with
  | false => mret None
  | true =>
      req_id ← mux_surely new_uuid;
      with_handle (λ h, with_requests ({[req_id]} ∪ mh_pending_requests h) (mh_replies h) h);;
      sent ← mux_write msg_type c (payload req_id);
      match sent with
      | Ok _ =>
          mux_arrivals;;
          handle ← sm_gets mu_handle;
          match mh_replies handle !! req_id with Some bin => mret (Some bin) | None => sm_fail Hangs end
      | Err _ => mret None
      end
  end.

Definition mux_client_push (ns : string) (mutations : list EncryptedMutation) : H (list N) :=
  reply ← mux_request MSG_PUSH s_push (λ req_id, PushPayload_new req_id mutations);
  match reply_payload MSG_PUSH_ACK s_push_ack reply with
  | Some ack => match pa_error ack with Some err => mux_failing (Internal err) | None => mret (pa_sequences ack) end
  | None => over_http (http_push status_display ns mutations)
  end.

Definition mux_client_pull (ns : string) (after : N) (limit : nat) : H (list PendingMutation) :=
  reply ← mux_request MSG_PULL s_pull (λ req_id, PullPayload_new req_id ns after limit);
  match reply_payload MSG_PULL_RESPONSE s_pull_response reply with
  | Some resp => mret (pr_mutations resp)
  | None => over_http (http_pull status_display ns after limit)
  end.

(** A subscription is a new stream, or the task of [HttpCoordinator] that reads
    the server's events. *)
Inductive mux_subscription := FromMux (k : nat) | FromEvents.

Definition mux_client_subscribe (ns replica_id : string) (from_sequence : N) : H mux_subscription :=
  added ← sm_try (add_namespace ns replica_id [] 0 from_sequence);
  match added with
  | Ok _ =>
      ensure_connected;;
      k ← sm_gets (λ c, length (mu_streams c));
      sm_modify (λ c, set_mux_streams (mu_streams c ++ [[]]) c);;
      with_handle (λ h, with_channels (<[ns := k]> (mh_namespace_txs h)) (mh_snapshots h) h);;
      request_id ← mux_surely new_uuid;
      mux_write MSG_SUBSCRIBE s_subscribe (SubscribePayload_new request_id ns from_sequence);;
      mret (FromMux k)
  | Err (Failed _) => mret FromEvents
  | Err Hangs => sm_fail Hangs
  end.

(** A heartbeat over HTTP whose outcome nobody looks at. *)
Definition mux_client_heartbeat (ns replica_id : string) : H unit :=
  connected ← sm_gets mu_connected;
  sent ← match connected with
         | true => mux_write MSG_HEARTBEAT s_heartbeat (HeartbeatPayload_new replica_id ns)
         | false => mret (Err "")
         end;
  match sent with
  | Ok _ => mret tt
  | Err _ =>
      sm_try (E' := halt) (over_http (http_raw POST ("/namespace/" +:+ ns +:+ "/heartbeat")
        (json_of s_string replica_id)));;
      mret tt
  end.

Definition mux_client_schema_version (ns : string) : H N := over_http (http_schema_version status_display ns).

(** The snapshots received for a namespace. *)
Definition mux_snapshots_of (ns : string) (c : MuxCoordinator L) : option (list Snapshot) :=
  if mu_connected c then mh_snapshots (mu_handle c) !! ns else None.

Definition mux_get_snapshot (ns doc_id record_id : string) : H (option Snapshot) :=
  snaps ← sm_gets (mux_snapshots_of ns);
  mret (snaps ≫= List.find (λ s, bool_decide (sn_doc_id s = doc_id) && bool_decide (sn_record_id s = record_id))).

Definition mux_store_snapshot (ns : string) (snapshot : Snapshot) : H unit :=
  connected ← sm_gets mu_connected;
  match connected with
  | true => mux_write MSG_SNAPSHOT s_snapshot_payload (snapshot_payload ns snapshot);; mret tt
  | false => mret tt
  end.

Definition mux_list_snapshots (ns : string) : H (list Snapshot) :=
  snaps ← sm_gets (mux_snapshots_of ns);
  mret (default [] snaps).

(** ** A namespace as a coordinator *)

Record NamespacedCoordinator := NamespacedCoordinator_new { nc_namespace : string; nc_replica_id : string }.

Definition join_namespace (ns : string) : H NamespacedCoordinator :=
  id ← mux_surely new_uuid;
  mret (NamespacedCoordinator_new ns ("client-" +:+ id)).

(** The namespace that the caller names is ignored. *)
Section namespaced.
Context (nc : NamespacedCoordinator).

Definition leave : H unit := drop_namespace (nc_namespace nc) (nc_replica_id nc).
Definition nc_push (_ns : string) (mutations : list EncryptedMutation) : H (list N) :=
  mux_client_push (nc_namespace nc) mutations.
Definition nc_pull (_ns : string) (after : N) (limit : nat) : H (list PendingMutation) :=
  mux_client_pull (nc_namespace nc) after limit.
Definition nc_subscribe (_ns : string) (from_sequence : N) : H mux_subscription :=
  mux_client_subscribe (nc_namespace nc) (nc_replica_id nc) from_sequence.
Definition nc_register (_ns : string) (info : ReplicaInfo) (_last_sequence : N) : H unit :=
  add_namespace (nc_namespace nc) (ri_replica_id info) (ri_public_key info) (ri_schema_version info) 0.
Definition nc_heartbeat (_ns replica_id : string) : H unit := mux_client_heartbeat (nc_namespace nc) replica_id.
Definition nc_schema_version (_ns : string) : H N := mux_client_schema_version (nc_namespace nc).
Definition nc_get_snapshot (_ns doc_id record_id : string) : H (option Snapshot) :=
  mux_get_snapshot (nc_namespace nc) doc_id record_id.
Definition nc_store_snapshot (_ns : string) (snapshot : Snapshot) : H unit :=
  mux_store_snapshot (nc_namespace nc) snapshot.
Definition nc_list_snapshots (_ns : string) : H (list Snapshot) := mux_list_snapshots (nc_namespace nc).
Definition nc_history_preserved : H bool := mux_history_preserved.
Definition nc_max_sequence : H N := mux_client_max_sequence.
End namespaced.
End mux.

(** ** The network of the multiplexing client *)

(** The network of [HttpServer], with a multiplexed session at the other end of
    the socket. *)
Record mux_link (C T S : Type) := MuxLink {
  ml_base : server_link C T S;
  ml_session : option mux_state;
}.
Arguments MuxLink {C T S}.
Arguments ml_base {C T S}.
Arguments ml_session {C T S}.

Section link.
Context {C T : Type} {HC : Coordinator C} {HST : Streams C} {HT : TokenStore T}.
Context {J : JsonText} {AX : Axum} {K : SnapshotCodec} {HSK : HttpStack}.
Context (error_debug : CoordinatorError → string) (uuid : nat → string).

Abbreviation link := (mux_link C T stream).

Definition set_base (b : server_link C T stream) (l : link) : link := MuxLink b (ml_session l).
Definition on_base {E A} (m : SM (server_link C T stream) E A) : SM link E A := zoom ml_base set_base m.

Definition open_mux (url : string) : SM link string unit := λ l,
  let b := ml_base l in
  match resolve url with
  | Some (path, q) =>
      let w := sl_world b in
      match serve (uuid (sl_ids b)) (Request GET path q None false []) (w_app w) with
      | ((_, Upgrade None), app) =>
          (Ok tt, MuxLink (ServerLink (set_app app w) Ended (S (sl_channel b)) "" 0 (sl_ids b)) (Some mux_new))
      | (_, app) => (Err "HTTP error", set_base (set_world (set_app app w) b) l)
      end
  | None => (Err "URL error", l)
  end.

(** The session handles a frame; [None] once it has ended. *)
Definition write_mux (frame : bytes) : SM link string unit := λ l,
  let b := ml_base l in
  match ml_session l with
  | None => (Err "Connection closed normally", l)
  | Some mx =>
      match mux_step error_debug (sl_channel b) mx (Received (Binary frame)) (sl_world b) with
      | (Ok mx', w') => (Ok tt, MuxLink (set_world w' b) mx')
      | (Err e, _) => match e with end
      end
  end.

Definition mux_network : Link link := {|
  new_uuid := on_base (draw_uuid uuid);
  http_send r := on_base (deliver uuid r);
  ws_connect := open_mux;
  ws_write := write_mux;
  ws_next timeout := on_base (read_socket timeout);
  ws_arrivals := on_base read_arrivals;
|}.
End link.
