(* ===== verification/NetSample.v ===== *)
(** * A server and a network to compute with

    The server over the in-memory coordinator, whose subscriptions are those of
    [Subscribe], with the tokens in memory; and instances, with their laws, of
    what the server and its clients take as parameters: a web framework, and a
    network with a server at [http://s], whose URLs are split at their
    separators.  The witnesses run on them. *)
From Stdlib Require Import Ascii.
From S2P Require Import Prelude Text Types BTree Coordinator CoordinatorTheory Subscribe Document DocumentTheory Opfs Json WsProto TokenStore Server WsSession HttpCoordinator HttpServer.

(** ** The server *)

(** [InMemoryCoordinator::subscribe]. *)
#[export] Instance in_memory_streams : Streams InMemoryCoordinator.t := {|
  stream := subscription;
  Server.subscribe ns from_sequence c := (Ok (Subscribe.subscribe ns from_sequence c), c);
|}.

Definition plain_hash : TokenHash := {| hash_token token := token |}.

(** A framework that rejects a body with 415, 413 or 400. *)
Definition plain_axum `{JsonText} : Axum := {|
  json_body r :=
    if negb (rq_json r) then Err 415%N
    else if DEFAULT_BODY_LIMIT <? length (rq_body r) then Err 413%N
    else match parse_json (rq_body r) with Some j => Ok j | None => Err BAD_REQUEST end;
|}.

Lemma plain_axum_spec `{JsonText} : AxumSpec (H0 := plain_axum).
Proof.
  split. intros r j Hj Hl Hp. cbn [json_body plain_axum]. rewrite Hj, Hp. cbn [negb].
  by destruct (Nat.ltb_spec DEFAULT_BODY_LIMIT (length (rq_body r))); [lia|].
Qed.

Definition sample_config (auth_token admin_token : option string) : ServerConfig :=
  ServerConfig_new "127.0.0.1" 9876 "memory" "" "" auth_token admin_token "" 0.

(** A server with an administrator, on which the namespace [n] has the token
    [t]. *)
Definition sample_server : AppState InMemoryCoordinator.t MemoryTokenStore.t :=
  AppState_new InMemoryCoordinator.new (Some {[ "n" := "t" ]}) (sample_config None (Some "root")) ∅ "g".

Definition sample_request (m : method) (path : list string) (q : list (string * string)) (token : string)
    (body : bytes) : request :=
  Request m path q (Some (Some ("Bearer " +:+ token))) true body.

(** ** The network *)

Definition split_path (p : string) : list string := tail (split "/"%char p).
Definition split_query (q : string) : list (string * string) :=
  map (λ kv, default (kv, "") (split_once "="%char kv)) (split "&"%char q).

Definition split_target (s : string) : list string * list (string * string) :=
  match split_once "?"%char s with
  | Some (p, q) => (split_path p, split_query q)
  | None => (split_path s, [])
  end.

Definition plain_stack : HttpStack := {|
  resolve url :=
    match strip_prefix "http://s" url, strip_prefix "ws://s" url with
    | Some rest, _ | None, Some rest => Some (split_target rest)
    | None, None => None
    end;
  header_text v := if all_chars printable v then Some (Some v) else Some None;
|}.

Lemma all_chars_impl (p q : ascii → bool) s : (∀ c, p c = true → q c = true) → all_chars p s = true → all_chars q s = true.
Proof.
  intros Hpq. induction s as [|c s IH]; [done|]. cbn. intros [Hc Hs]%andb_true_iff. by rewrite Hpq, IH.
Qed.

Lemma all_chars_app p a b : all_chars p (a +:+ b) = all_chars p a && all_chars p b.
Proof.
  induction a as [|c a IH]; [done|].
  change (p c && all_chars p (a +:+ b) = (p c && all_chars p a) && all_chars p b). by rewrite IH, andb_assoc.
Qed.

Lemma url_safe_lacks sep s : unreserved sep = false → url_safe s = true → lacks sep s = true.
Proof.
  intros Hsep [Hs _]%andb_true_iff. eapply all_chars_impl; [|exact Hs]. intros c Hc. simpl.
  apply negb_true_iff, bool_decide_eq_false. intros ->. congruence.
Qed.

Lemma split_once_lacks sep s : lacks sep s = true → split_once sep s = None.
Proof.
  unfold lacks. induction s as [|c s IH]; [done|]. cbn. intros [Hc Hs]%andb_true_iff.
  apply negb_true_iff in Hc. by rewrite Hc, IH.
Qed.

Lemma split_path_text s segs : lacks "/"%char s = true → Forall (λ s, url_safe s = true) segs →
  split "/"%char (s +:+ path_text segs) = s :: segs.
Proof.
  intros Hs Hsegs. revert s Hs. induction Hsegs as [|t segs Ht _ IH]; intros s Hs.
  - assert (s +:+ path_text [] = s) as ->.
    { clear. induction s as [|c s IH]; [done|]. exact (f_equal (String c) IH). }
    by apply split_lacks.
  - change (path_text (t :: segs)) with (String "/"%char (t +:+ path_text segs)).
    rewrite split_app by done. f_equal. apply IH. by apply url_safe_lacks.
Qed.

Lemma path_text_split segs : Forall (λ s, url_safe s = true) segs → split_path (path_text segs) = segs.
Proof. intros Hs. exact (f_equal tail (split_path_text "" segs eq_refl Hs)). Qed.

Lemma path_text_lacks sep segs : unreserved sep = false → sep ≠ "/"%char → Forall (λ s, url_safe s = true) segs →
  lacks sep (path_text segs) = true.
Proof.
  intros Hsep Hne. induction 1 as [|s segs Hs _ IH]; [done|].
  change (path_text (s :: segs)) with (String "/"%char (s +:+ path_text segs)).
  unfold lacks in *. cbn [all_chars]. rewrite all_chars_app, IH, bool_decide_false by congruence.
  pose proof (url_safe_lacks sep s Hsep Hs) as Hl. unfold lacks in Hl. by rewrite Hl.
Qed.

Lemma pair_lacks_amp k v : url_safe k = true → url_safe v = true → lacks "&"%char (k +:+ "=" +:+ v) = true.
Proof.
  intros Hk Hv. pose proof (url_safe_lacks "&"%char k eq_refl Hk) as Hk'.
  pose proof (url_safe_lacks "&"%char v eq_refl Hv) as Hv'. unfold lacks in *. by rewrite !all_chars_app, Hk', Hv'.
Qed.

Lemma split_query_text q : q ≠ [] → Forall (λ p, url_safe p.1 = true ∧ url_safe p.2 = true) q →
  split_query (query_text q) = q.
Proof.
  intros Hne Hq. unfold split_query. induction Hq as [|[k v] q [Hk Hv] Hq IH]; [done|]. simpl in Hk, Hv.
  assert (split_once "="%char (k +:+ "=" +:+ v) = Some (k, v)) as Hkv
    by (by apply split_once_app, url_safe_lacks).
  destruct q as [|kv q].
  - cbn [query_text]. rewrite split_lacks by (by apply pair_lacks_amp). cbn [map]. by rewrite Hkv.
  - assert (query_text ((k, v) :: kv :: q) =
            (k +:+ "=" +:+ v) +:+ String "&"%char (query_text (kv :: q))) as Heq.
    { clear. change (k +:+ "=" +:+ v +:+ "&" +:+ query_text (kv :: q) =
        (k +:+ "=" +:+ v) +:+ String "&"%char (query_text (kv :: q))).
      induction k as [|c k IH]; [done|exact (f_equal (String c) IH)]. }
    rewrite Heq, split_app by (by apply pair_lacks_amp). cbn [map]. rewrite Hkv. by rewrite IH.
Qed.

Lemma split_target_path segs : Forall (λ s, url_safe s = true) segs → split_target (path_text segs) = (segs, []).
Proof.
  intros Hs. unfold split_target. rewrite split_once_lacks by (by apply path_text_lacks). by rewrite path_text_split.
Qed.

Lemma split_target_query segs q : Forall (λ s, url_safe s = true) segs → q ≠ [] →
  Forall (λ p, url_safe p.1 = true ∧ url_safe p.2 = true) q →
  split_target (path_text segs +:+ "?" +:+ query_text q) = (segs, q).
Proof.
  intros Hs Hne Hq. unfold split_target. change ("?" +:+ query_text q) with (String "?"%char (query_text q)).
  rewrite split_once_app by (by apply path_text_lacks). by rewrite path_text_split, split_query_text.
Qed.

#[program] Definition plain_stack_spec : HttpStackSpec (H := plain_stack) := {|
  served base := base = "http://s";
|}.
Next Obligation.
  intros base segs -> Hs. cbn [resolve plain_stack]. by rewrite strip_prefix_app, split_target_path.
Qed.
Next Obligation.
  intros base segs q -> Hs Hne Hq. cbn [resolve plain_stack]. by rewrite strip_prefix_app, split_target_query.
Qed.
Next Obligation.
  intros url ns Hu Hns. unfold get_ws_url. rewrite Hu.
  change (_ +:+ "/namespace/" +:+ ns +:+ "/ws") with ("ws://s" +:+ path_text ["namespace"; ns; "ws"]).
  cbn [resolve plain_stack]. rewrite strip_prefix_app.
  destruct (strip_prefix "http://s" _) as [rest|] eqn:Hp; [by apply strip_prefix_Some in Hp|].
  rewrite split_target_path; [done|]. by repeat constructor.
Qed.
Next Obligation. intros v Hv. cbn [header_text plain_stack]. by rewrite Hv. Qed.
