(* ===== verification/ServerTheory.v ===== *)
(** * Who may do what on the server

    The access policy of the HTTP interface as a predicate ([granted]), that a
    request outside it reaches neither the coordinator nor the tokens, and that
    only the administrator changes tokens. *)
From S2P Require Import Prelude Text Types Coordinator Document DocumentTheory Opfs Json WsProto TokenStore Server NetSample.

Create HintDb keeps_tokens discriminated.

Section theory.
Context {C T : Type} {HC : Coordinator C} {HST : Streams C} {HT : TokenStore T}.
Context {HH : TokenHash} {HTS : TokenStoreSpec T}.
Context {J : JsonText} {AX : Axum} {K : SnapshotCodec}.
Implicit Types (s : AppState C T) (auth : option (option string)).

(** The hash that the server holds for a namespace. *)
Definition held_hash s (ns : string) : option string := as_token_store s ≫= λ t, token_hash t ns.

(** The policy: a global token if one is configured, else the token of the
    namespace if there are a store and an administrator, else no condition. *)
Definition granted s auth (ns : string) : Prop :=
  match sc_auth_token (as_config s) with
  | Some global_token => auth = Some (Some ("Bearer " +:+ global_token))
  | None =>
      match as_token_store s, sc_admin_token (as_config s) with
      | Some _, Some _ =>
          ∃ token, auth = Some (Some ("Bearer " +:+ token)) ∧ held_hash s ns = Some (hash_token token)
      | _, _ => True
      end
  end.

Definition is_admin s auth : Prop :=
  ∃ token, sc_admin_token (as_config s) = Some token ∧ auth = Some (Some ("Bearer " +:+ token)).

(** A server that differs at most in how its token store keeps the hashes. *)
Record same_tokens s s' : Prop := {
  st_config : as_config s' = as_config s;
  st_sessions : as_sessions s' = as_sessions s;
  st_generation : as_generation_id s' = as_generation_id s;
  st_store : is_Some (as_token_store s') ↔ is_Some (as_token_store s);
  st_hash ns : held_hash s' ns = held_hash s ns;
}.

Definition untouched s s' : Prop := as_coordinator s' = as_coordinator s ∧ same_tokens s s'.

#[local] Lemma same_tokens_refl s : same_tokens s s.
Proof. by split. Qed.
#[local] Lemma untouched_refl s : untouched s s.
Proof. by split. Qed.

#[local] Lemma same_tokens_trans s1 s2 s3 : same_tokens s1 s2 → same_tokens s2 s3 → same_tokens s1 s3.
Proof.
  intros [? ? ? H1 H2] [? ? ? H1' H2']. split; [congruence..|by rewrite H1'|]. intros ns. by rewrite H2'.
Qed.

Lemma granted_same s s' auth ns : same_tokens s s' → granted s auth ns → granted s' auth ns.
Proof.
  intros [Hc _ _ Hst Hh]. unfold granted. rewrite Hc. destruct (sc_auth_token _); [done|].
  rewrite Hh. destruct (sc_admin_token (as_config s)); [|by destruct (as_token_store s')].
  destruct (as_token_store s), (as_token_store s') as [t'|]; try done.
  by destruct (proj1 Hst (mk_is_Some _ t' eq_refl)).
Qed.

(** What the check of a namespace does: it refuses unless the request is
    granted, and grants unless the store fails. *)
Lemma authorize_spec auth ns s r s' :
  authorize_namespace auth ns s = (r, s') →
  untouched s s' ∧ match r with Ok _ => granted s auth ns | Err code => code = UNAUTHORIZED end.
Proof.
  unfold authorize_namespace, granted, held_hash. sm_unfold.
  destruct (sc_auth_token (as_config s)) as [g|].
  { destruct auth as [[a|]|]; [case_bool_decide as Ha|..]; intros [= <- <-];
      (split; [apply untouched_refl|naive_solver]). }
  destruct (as_token_store s) as [t|] eqn:Ht, (sc_admin_token (as_config s)) as [adm|];
    try (intros [= <- <-]; by split; [apply untouched_refl|]).
  destruct auth as [[a|]|]; simpl; try (intros [= <- <-]; by split; [apply untouched_refl|]).
  destruct (strip_prefix "Bearer " a) as [token|] eqn:Htok; [|intros [= <- <-]; by split; [apply untouched_refl|]].
  apply strip_prefix_Some in Htok as ->. unfold token_call. destruct (validate_token ns token t) as [v t'] eqn:Hv.
  apply validate_token_exact in Hv as [Hsame Hvalid].
  assert (untouched s (set_token_store t' s)) as Hun.
  { split; [done|]. split; [done..|by rewrite Ht|]. intros ns'. unfold held_hash. rewrite Ht. simpl. apply Hsame. }
  destruct v as [[]|]; intros [= <- <-]; split; try done.
  exists token. split; [done|]. simpl. symmetry in Hvalid. by apply bool_decide_eq_true in Hvalid.
Qed.


Lemma authorize_admin_spec auth s :
  (∃ code, authorize_admin auth s = (Err code, s)) ∨ (authorize_admin auth s = (Ok tt, s) ∧ is_admin s auth).
Proof.
  unfold authorize_admin, is_admin. sm_unfold. destruct (sc_admin_token (as_config s)) as [t|]; [|by left; eexists].
  destruct auth as [[a|]|]; [case_bool_decide as Ha|..]; [right|left; by eexists..]. subst a. by eauto.
Qed.

Lemma extract_json_pure {A} (c : serde A) r s :
  (∃ a, extract_json c r s = (Ok a, s)) ∨ (∃ code, extract_json c r s = (Err code, s) ∧
    (json_body r = Err code ∨ code = UNPROCESSABLE_ENTITY)).
Proof.
  unfold extract_json. sm_unfold. destruct (json_body r) as [j|code]; [|by eauto].
  destruct (from_value c j); by eauto.
Qed.

Lemma extract_query_pure {A} (p : string → option A) name r s :
  (∃ a, extract_query p name r s = (Ok a, s)) ∨ extract_query p name r s = (Err BAD_REQUEST, s).
Proof. unfold extract_query. destruct (query_field name (rq_query r) ≫= p); [left; by eexists|by right]. Qed.

(** ** Requests outside the policy *)






#[local] Lemma extract_json_reads {A} (c : serde A) r s : ∃ res, extract_json c r s = (res, s).
Proof. destruct (extract_json_pure c r s) as [[a ->]|(code & -> & _)]; by eexists. Qed.

#[local] Lemma extract_query_reads {A} (p : string → option A) name r s : ∃ res, extract_query p name r s = (res, s).
Proof. destruct (extract_query_pure p name r s) as [[a ->]| ->]; by eexists. Qed.


(** ** Tokens *)

(** An operation that leaves every token alone. *)
Definition keeps_tokens {A} (m : SM (AppState C T) StatusCode A) : Prop :=
  ∀ s r s', m s = (r, s') → same_tokens s s'.

#[local] Lemma keeps_tokens_bind {A B} (m : SM (AppState C T) StatusCode B) (k : B → SM (AppState C T) StatusCode A) :
  keeps_tokens m → (∀ b, keeps_tokens (k b)) → keeps_tokens (m ≫= k).
Proof.
  intros Hm Hk s r s'. unfold mbind, sm_bind. destruct (m s) as [[b|e] s1] eqn:E; intros Heq.
  - eapply same_tokens_trans; [by eapply Hm|by eapply Hk].
  - injection Heq as <- <-. by eapply Hm.
Qed.

#[local] Lemma keeps_tokens_pure {A} (m : SM (AppState C T) StatusCode A) :
  (∀ s, ∃ r, m s = (r, s)) → keeps_tokens m.
Proof. intros Hm s r s' Heq. destruct (Hm s) as [r' Hr]. simplify_eq. rewrite Hr in Heq. simplify_eq. apply same_tokens_refl. Qed.

#[local] Lemma keeps_tokens_authorize auth ns : keeps_tokens (authorize_namespace auth ns).
Proof. intros s r s' Ha. by apply authorize_spec in Ha as [[] _]. Qed.

#[local] Lemma keeps_tokens_call {A} (m : SM C CoordinatorError A) : keeps_tokens (coordinator_call (T := T) m).
Proof.
  intros s r s'. unfold coordinator_call. sm_unfold. destruct (m (as_coordinator s)) as [[a|e] c];
    intros [= <- <-]; by split.
Qed.

#[local] Lemma authorize_admin_reads auth s : ∃ r, authorize_admin auth s = (r, s).
Proof. destruct (authorize_admin_spec auth s) as [[code ->]|[-> _]]; by eexists. Qed.

(** The registration of a namespace that the administrator asked for. *)
Definition issues_token (s s' : AppState C T) (auth : option (option string)) (ns token : string) : Prop :=
  is_admin s auth ∧ as_coordinator s' = as_coordinator s ∧ as_config s' = as_config s ∧
  (∀ ns', held_hash s' ns' = if bool_decide (ns' = ns) then Some (hash_token token) else held_hash s ns') ∧
  (granted s' (Some (Some ("Bearer " +:+ token))) ns ↔
    match sc_auth_token (as_config s) with None => True | Some global_token => token = global_token end).

#[local] Lemma admin_register_spec uuid auth ns payload s :
  match admin_register_namespace uuid auth ns payload s with
  | (Err _, s') => same_tokens s s'
  | (Ok body, s') => ∃ token, body = json_response s_admin_response (AdminRegisterResponse_new ns token) ∧
      issues_token s s' auth ns token
  end.
Proof.
  unfold admin_register_namespace, mbind, sm_bind.
  destruct (authorize_admin_spec auth s) as [[code ->]|[-> Hadm]]; [apply same_tokens_refl|].
  unfold sm_get. destruct (as_token_store s) as [t|] eqn:Ht; [|apply same_tokens_refl].
  set (token := match payload with Some p => _ | None => _ end). unfold token_call.
  destruct (set_token ns token t) as [r t'] eqn:Hset. pose proof (set_token_exact _ _ _ _ _ Hset) as Hh.
  assert (∀ ns', held_hash (set_token_store t' s) ns' = match r with
    | Ok _ => if bool_decide (ns' = ns) then Some (hash_token token) else held_hash s ns'
    | Err _ => held_hash s ns' end) as Hheld.
  { intros ns'. unfold held_hash. rewrite Ht. simpl. rewrite Hh. by destruct r. }
  destruct r as [[]|e].
  - exists token. split; [done|]. split_and!; [done..|]. unfold granted. simpl.
    destruct (sc_auth_token (as_config s)) as [g|]; [split; [by intros [= Hg]|by intros ->]|]. split; [done|intros _].
    destruct Hadm as (adm & -> & _). exists token. split; [done|]. rewrite Hheld. by rewrite bool_decide_true.
  - split; [done..|by rewrite Ht|done].
Qed.

#[local] Lemma keeps_tokens_json {A} (c : serde A) r : keeps_tokens (extract_json c r).
Proof. apply keeps_tokens_pure. intros s. apply extract_json_reads. Qed.
#[local] Lemma keeps_tokens_query {A} (p : string → option A) name r : keeps_tokens (extract_query p name r).
Proof. apply keeps_tokens_pure. intros s. apply extract_query_reads. Qed.
#[local] Lemma keeps_tokens_admin auth : keeps_tokens (authorize_admin auth).
Proof. apply keeps_tokens_pure. intros s. apply authorize_admin_reads. Qed.
#[local] Lemma keeps_tokens_ret {A} (a : A) : keeps_tokens (mret a).
Proof. apply keeps_tokens_pure. by eexists. Qed.
#[local] Lemma keeps_tokens_fail {A} code : keeps_tokens (A := A) (sm_fail code).
Proof. apply keeps_tokens_pure. by eexists. Qed.

#[local] Hint Resolve keeps_tokens_json keeps_tokens_query keeps_tokens_admin keeps_tokens_ret
  keeps_tokens_fail keeps_tokens_authorize keeps_tokens_call : keeps_tokens.

(** Every other request. *)
#[local] Lemma handle_keeps_tokens uuid r :
  (∀ ns, route_of (rq_path r) = Some (RAdminNamespace ns) → rq_method r ≠ POST) → keeps_tokens (handle uuid r).
Proof.
  intros Hne. unfold handle. destruct (route_of (rq_path r)) as [rt|] eqn:Hrt; [|apply keeps_tokens_fail].
  destruct rt, (rq_method r); try (by destruct (Hne _ eq_refl)); cbv beta iota zeta;
    repeat first
      [ solve [auto with keeps_tokens]
      | apply keeps_tokens_bind; [solve [auto with keeps_tokens]|intros ?]
      | progress unfold push_mutations, pull_mutations, register_replica, list_replicas_route, heartbeat_route,
          get_schema_version, events_stream, admin_compact, admin_get_snapshot, update_replica_key_route,
          get_replica_key_route, get_snapshot_route, store_snapshot_route, list_snapshots_route,
          compact_oplog_route, health_check
      | case_match ].
Qed.

(** C29: Only the administrator changes tokens: whatever request the server
    answers, the hashes it holds, its configuration and its sessions stay as
    they are, or the request is a registration that carries the administrator's
    token, and then exactly the named namespace gets the hash of the token in
    the response.  That token from then on opens the namespace if the server has
    no global token; if it has one, only the global token opens namespaces, and
    the issued token opens this one only if it is the same. *)
Theorem tokens_set_only_by_admin uuid r s :
  let '(resp, s') := serve uuid r s in
  same_tokens s s' ∨
  ∃ ns token, route_of (rq_path r) = Some (RAdminNamespace ns) ∧ rq_method r = POST ∧
    resp = (OK, json_response s_admin_response (AdminRegisterResponse_new ns token)) ∧
    issues_token s s' (rq_authorization r) ns token.
Proof.
  unfold serve. destruct (handle uuid r s) as [res s'] eqn:Hh.
  assert ((∃ ns, route_of (rq_path r) = Some (RAdminNamespace ns) ∧ rq_method r = POST) ∨
          (∀ ns, route_of (rq_path r) = Some (RAdminNamespace ns) → rq_method r ≠ POST)) as [(ns & Hr & Hm)|Hne].
  { destruct (route_of (rq_path r)) as [[]|], (rq_method r); eauto; right; naive_solver. }
  - unfold handle in Hh. rewrite Hr, Hm in Hh.
    pose proof (admin_register_spec uuid (rq_authorization r) ns
      match json_body r with Ok j => from_value s_admin_register j | Err _ => None end s) as Hspec.
    unfold extract_json_option, mbind, sm_bind, mret, sm_ret in Hh. rewrite Hh in Hspec. destruct res as [body|code]; [|by left].
    right. destruct Hspec as (token & -> & Hi). by exists ns, token.
  - apply handle_keeps_tokens in Hh; [|done]. destruct res; by left.
Qed.
End theory.


