(* ===== verification/WsTheory.v ===== *)
(** * What the WebSocket sessions of the server guarantee

    A session of one namespace reaches the coordinator only after its token was
    accepted, under the same policy as HTTP; a session of several namespaces asks
    for no token.  What subscriptions forward, and how the end of one session
    takes the registration of another. *)
From S2P Require Import Prelude Text Types Coordinator CoordinatorTheory Document DocumentTheory Opfs Json WsProto TokenStore Server NetSample ServerTheory WsSession.

Section ws.
Context {C T : Type} {HC : Coordinator C} {HST : Streams C} {HT : TokenStore T}.
Context {HH : TokenHash} {HTS : TokenStoreSpec T} {J : JsonText}.
Context (error_debug : CoordinatorError → string).

Abbreviation W := (SM (world C T stream) Empty_set).

(** ** Authentication *)

(** A session over a sequence of messages. *)
Fixpoint ws_run (uuid : string) (ch : nat) (ns : string) (evs : list incoming) (phase : ws_phase) : W ws_phase :=
  match evs with
  | [] => mret phase
  | ev :: evs => phase ← ws_step error_debug uuid ch ns phase ev; ws_run uuid ch ns evs phase
  end.

(** A message that authenticates a session of the namespace. *)
Definition authenticates (s : AppState C T) (ns : string) (ev : incoming) : Prop :=
  ∃ bin payload auth, ev = Received (Binary bin) ∧ decode_frame bin = Ok (MSG_AUTH, payload) ∧
    from_slice s_auth payload = Some auth ∧ ap_namespace auth = ns ∧
    granted s (Some (Some ("Bearer " +:+ ap_token auth))) ns.

(** Only messages were sent. *)
Definition only_sent (w w' : world C T stream) : Prop :=
  untouched (w_app w) (w_app w') ∧ w_tasks w' = w_tasks w ∧ w_gone w' = w_gone w.

#[local] Lemma only_sent_refl w : only_sent w w.
Proof. split_and!; [|done..]. split; [done|]. by split. Qed.

#[local] Lemma only_sent_trans w1 w2 w3 : only_sent w1 w2 → only_sent w2 w3 → only_sent w1 w3.
Proof.
  intros ([? [? ? ? Hs Hh]] & ? & ?) ([? [? ? ? Hs' Hh']] & ? & ?). split_and!; [|congruence..].
  split; [congruence|]. split; [congruence..|by rewrite Hs'|]. intros ns. by rewrite Hh'.
Qed.

Lemma send_only ch m (w : world C T stream) : ∃ b w', send ch m w = (Ok b, w') ∧ only_sent w w'.
Proof.
  unfold send. case_bool_decide; eexists _, _; (split; [reflexivity|]); [apply only_sent_refl|].
  split_and!; [|done..]. split; [done|]. by split.
Qed.

(** A send whose outcome does not matter, then the rest. *)
#[local] Lemma send_then {A} ch m (k : bool → W A) w (Q : A → world C T stream → Prop) :
  (∀ b w', only_sent w w' → ∃ a w'', k b w' = (Ok a, w'') ∧ Q a w'') →
  ∃ a w'', (send ch m ≫= k) w = (Ok a, w'') ∧ Q a w''.
Proof.
  intros Hk. destruct (send_only ch m w) as (b & w' & Hs & Hw). rewrite (sm_bind_ok _ _ _ _ _ Hs). by apply Hk.
Qed.

#[local] Lemma ws_validate_spec ns token (w : world C T stream) :
  ∃ b w', ws_validate_token ns token w = (Ok b, w') ∧ only_sent w w' ∧
    (b = true → granted (w_app w) (Some (Some ("Bearer " +:+ token))) ns).
Proof.
  unfold ws_validate_token, granted.
  destruct (sc_auth_token (as_config (w_app w))) as [g|].
  { eexists _, _. split_and!; [done|apply only_sent_refl|]. intros Hb%bool_decide_eq_true. by subst. }
  destruct (as_token_store (w_app w)) as [t|] eqn:Ht, (sc_admin_token (as_config (w_app w)));
    try (eexists _, _; by split_and!; [done|apply only_sent_refl|]).
  destruct (validate_token ns token t) as [r t'] eqn:Hv. apply validate_token_exact in Hv as [Hsame Hr].
  eexists _, _. split_and!; [done| |].
  - split_and!; [|done..]. split; [done|]. split; [done..|by rewrite Ht|]. intros ns'. unfold held_hash.
    rewrite Ht. simpl. apply Hsame.
  - destruct r as [valid|]; [|done]. intros ->. exists token. split; [done|]. unfold held_hash. rewrite Ht.
    symmetry in Hr. by apply bool_decide_eq_true in Hr.
Qed.

#[local] Ltac close_with :=
  apply send_then; intros ? ? ?; eexists _, _; split; [reflexivity|split; [done|by left]].

(** The first message leaves the server as it is; the session goes on only if
    the message authenticates it. *)
Lemma ws_auth_spec uuid ch ns ev (w : world C T stream) :
  ∃ phase w', ws_auth uuid ch ns ev w = (Ok phase, w') ∧ only_sent w w' ∧
    (phase = Ended ∨ (phase = AwaitRegister ∧ authenticates (w_app w) ns ev)).
Proof.
  unfold ws_auth, send_close, send_frame.
  destruct ev as [[bin| | | |]| | |]; try close_with.
  destruct (decode_frame bin) as [[msg_type payload]|] eqn:Hd; [|close_with].
  destruct (N.eqb_spec msg_type MSG_AUTH) as [->|]; cbn [negb]; [|close_with].
  destruct (from_slice s_auth payload) as [auth|] eqn:Hp; [|close_with].
  case_bool_decide as Hns.
  { apply send_then. intros b w1 Hw1. apply send_then. intros b' w2 Hw2. eexists _, _. split; [done|].
    split; [by eapply only_sent_trans|by left]. }
  destruct (ws_validate_spec ns (ap_token auth) w) as (valid & w1 & Hv & Hw1 & Hg).
  rewrite (sm_bind_ok _ _ _ _ _ Hv). destruct valid.
  - apply send_then. intros [] w2 Hw2; (eexists _, _; split; [done|]; split; [by eapply only_sent_trans|]); [|by left].
    right. split; [done|]. exists bin, payload, auth. split_and!; [done..| |auto].
    destruct (decide (ap_namespace auth = ns)); [done|by destruct Hns].
  - apply send_then. intros b w2 Hw2. apply send_then. intros b' w3 Hw3. eexists _, _. split; [done|].
    split; [by eapply only_sent_trans; [|eapply only_sent_trans]|by left].
Qed.

Lemma ws_run_ended uuid ch ns evs (w : world C T stream) : ws_run uuid ch ns evs Ended w = (Ok Ended, w).
Proof. induction evs as [|ev evs IH]; [done|]. exact IH. Qed.

(** C11: A WebSocket session of a namespace does nothing before it has shown a
    token that HTTP would accept for that namespace: whatever messages it
    receives, in whatever order, unless the first one authenticates it the
    coordinator, the sessions, the tokens and the tasks of the server are as
    before, and the session has not passed its first phase. *)
Theorem ws_session_needs_token uuid ch ns evs (w : world C T stream) phase w' :
  ws_run uuid ch ns evs AwaitAuth w = (Ok phase, w') →
  match evs with ev :: _ => ¬ authenticates (w_app w) ns ev | [] => True end →
  only_sent w w' ∧ (phase = AwaitAuth ∨ phase = Ended).
Proof.
  destruct evs as [|ev evs]; cbn [ws_run].
  { intros [= <- <-] _. split; [apply only_sent_refl|by left]. }
  destruct (ws_auth_spec uuid ch ns ev w) as (phase1 & w1 & Ha & Hw1 & Hphase). cbn [ws_step].
  rewrite (sm_bind_ok _ _ _ _ _ Ha). destruct Hphase as [->|[-> Hauth]]; [|done].
  rewrite ws_run_ended. intros [= <- <-] _. split; [done|by right].
Qed.

(** ** Messages and frames *)

Lemma outbox_send ch m (w : world C T stream) : ch ∉ w_gone w →
  ∃ w', send ch m w = (Ok true, w') ∧ outbox ch w' = outbox ch w ++ [m] ∧ only_sent w w' ∧ w_app w' = w_app w ∧
    (∀ ch', ch' ≠ ch → outbox ch' w' = outbox ch' w).
Proof.
  intros Hch. unfold send. rewrite bool_decide_false by done. eexists. split; [done|]. split; [|split; [|split; [done|]]].
  - unfold outbox at 1. cbn. by rewrite lookup_insert_eq.
  - split_and!; [|done..]. split; [done|]. by split.
  - intros ch' Hne. unfold outbox. cbn. by rewrite lookup_insert_ne.
Qed.

(** A frame whose payload is in range and shorter than 4 GiB. *)
Definition frame_fits {A} (c : serde A) (a : A) : Prop :=
  fits c a ∧ (N.of_nat (length (to_vec (to_value c a))) < 4294967296)%N.

Lemma decode_encode_frame {A} msg_type (c : serde A) a : frame_fits c a →
  decode_frame (encode_frame msg_type c a) = Ok (msg_type, to_vec (to_value c a)).
Proof.
  intros [_ Hl]. unfold encode_frame. rewrite <-(app_nil_r (frame _ _)). by apply decode_frame_frame.
Qed.

Lemma coord_ok_call {A} (m : SM C CoordinatorError A) (w : world C T stream) r c' :
  m (as_coordinator (w_app w)) = (r, c') → coord m w = (Ok r, set_app (set_coordinator c' (w_app w)) w).
Proof. intros Hm. unfold coord. sm_unfold. by rewrite Hm. Qed.

(** ** Sessions of several namespaces *)

Section open.
Context {HCS : CoordinatorSpec C} {JS : JsonTextSpec}.

(** The answer to a pull, and what the answer to a push leaves. *)
Lemma pull_reply_spec n ch ns p (w : world C T stream) :
  ch ∉ w_gone w → co_ready n (as_coordinator (w_app w)) → (pl_after p < U64_MAX)%N →
  let ms := alog_pull (pl_after p) (pl_limit p) (co_log ns (as_coordinator (w_app w))) in
  ∃ w', pull_reply error_debug ch ns p w = (Ok tt, w') ∧ as_coordinator (w_app w') = as_coordinator (w_app w) ∧
    w_gone w' = w_gone w ∧ outbox ch w' = outbox ch w ++ [Binary (encode_frame MSG_PULL_RESPONSE s_pull_response
      (PullResponsePayload_new (pl_request_id p) ms (length ms =? pl_limit p)))].
Proof.
  intros Hch Hr Ha ms. pose proof (co_pull_ok n ns _ (pl_limit p) _ Hr Ha) as Hpull.
  unfold pull_reply. rewrite (sm_bind_ok _ _ _ _ _ (coord_ok_call _ _ _ _ Hpull)). unfold send_frame.
  edestruct (outbox_send ch) as (w' & Hs & Ho & (_ & _ & Hg) & Happ & _); [|rewrite (sm_bind_ok _ _ _ _ _ Hs)]; [done|].
  exists w'. rewrite Happ. by split_and!.
Qed.

Lemma push_reply_spec n ch ns p (w : world C T stream) :
  ch ∉ w_gone w → co_ready (length (pp_mutations p) + n) (as_coordinator (w_app w)) →
  ∃ w' seqs, push_reply error_debug ch ns p w = (Ok tt, w') ∧
    alog_push ns (pp_mutations p) (co_next (as_coordinator (w_app w))) (co_log ns (as_coordinator (w_app w))) =
      (seqs, co_log ns (as_coordinator (w_app w')), co_next (as_coordinator (w_app w'))) ∧
    (∀ ns', ns' ≠ ns → co_log ns' (as_coordinator (w_app w')) = co_log ns' (as_coordinator (w_app w))) ∧
    co_ready n (as_coordinator (w_app w')) ∧ w_gone w' = w_gone w ∧
    outbox ch w' = outbox ch w ++ [Binary (encode_frame MSG_PUSH_ACK s_push_ack
      (PushAckPayload_new (pp_request_id p) seqs None))].
Proof.
  intros Hch Hr. destruct (co_push_ok n ns (pp_mutations p) _ Hr) as (seqs & c' & Hpush & Hal & Hoth & Hr').
  unfold push_reply. rewrite (sm_bind_ok _ _ _ _ _ (coord_ok_call _ _ _ _ Hpush)). unfold send_frame.
  edestruct (outbox_send ch) as (w' & Hs & Ho & (_ & _ & Hg) & Happ & _); [|rewrite (sm_bind_ok _ _ _ _ _ Hs)]; [done|].
  exists w', seqs. rewrite Happ. by split_and!.
Qed.

(** C35: The WebSocket endpoint for several namespaces asks for no token.  On any
    server, whatever tokens it is configured with, a session that has just been
    opened and has sent nothing else gets the mutations of any namespace it
    names for a PULL frame, and its PUSH frame is appended to the log of the
    namespace that its first mutation names. *)
Theorem mux_session_needs_no_token n ch ns req after limit m ms (w : world C T stream) :
  ch ∉ w_gone w → co_ready (S (length ms) + n) (as_coordinator (w_app w)) →
  (after < U64_MAX)%N → frame_fits s_pull (PullPayload_new req ns after limit) →
  em_namespace m = ns → ns ≠ "" → frame_fits s_push (PushPayload_new req (m :: ms)) →
  (∃ w', mux_step error_debug ch mux_new
      (Received (Binary (encode_frame MSG_PULL s_pull (PullPayload_new req ns after limit)))) w =
      (Ok (Some mux_new), w') ∧
    let found := alog_pull after limit (co_log ns (as_coordinator (w_app w))) in
    outbox ch w' = outbox ch w ++ [Binary (encode_frame MSG_PULL_RESPONSE s_pull_response
      (PullResponsePayload_new req found (length found =? limit)))]) ∧
  (∃ w' seqs, mux_step error_debug ch mux_new
      (Received (Binary (encode_frame MSG_PUSH s_push (PushPayload_new req (m :: ms))))) w = (Ok (Some mux_new), w') ∧
    alog_push ns (m :: ms) (co_next (as_coordinator (w_app w))) (co_log ns (as_coordinator (w_app w))) =
      (seqs, co_log ns (as_coordinator (w_app w')), co_next (as_coordinator (w_app w')))).
Proof.
  intros Hch Hr Ha Hpull Hns Hne Hpush. split.
  - assert (co_ready n (as_coordinator (w_app w))) as Hr' by (eapply co_ready_mono; [|exact Hr]; lia).
    destruct (pull_reply_spec n ch ns (PullPayload_new req ns after limit) w Hch Hr' Ha) as (w' & Hrep & _ & _ & Ho).
    exists w'. split; [|exact Ho]. unfold mux_step, mux_binary. rewrite decode_encode_frame by done. cbn [N.eqb Pos.eqb].
    unfold if_parsed. rewrite from_slice_to_vec by apply Hpull. sm_unfold. cbn [pl_namespace].
    change (MSG_PULL =? MSG_NAMESPACE_ADD)%N with false. cbn. by rewrite Hrep.
  - destruct (push_reply_spec n ch ns (PushPayload_new req (m :: ms)) w Hch Hr) as (w' & seqs & Hrep & Hal & _).
    exists w', seqs. split; [|exact Hal]. unfold mux_step, mux_binary. rewrite decode_encode_frame by done.
    unfold if_parsed. rewrite from_slice_to_vec by apply Hpush. unfold mux_push. cbn [pp_mutations].
    rewrite Hns, bool_decide_false by done. sm_unfold. cbn. by rewrite Hrep.
Qed.
End open.

(** ** The end of a session *)

Lemma ws_cleanup_spec ch ns replica_id active (w : world C T stream) :
  ∃ w', ws_cleanup ch ns replica_id active w = (Ok Ended, w') ∧ w_out w' = w_out w ∧ w_gone w' = {[ch]} ∪ w_gone w ∧
    as_sessions (w_app w') = delete (ns, replica_id) (as_sessions (w_app w)).
Proof. unfold ws_cleanup. sm_unfold. destruct active; eexists; by split_and!. Qed.

(** A session that ends takes the registration of its replica with it, even
    when the replica has reconnected since: if an older session of the replica
    times out after a newer one registered on another channel, a signal that was
    delivered to the new session before is afterwards dropped, although the new
    session is still there. *)
Theorem stale_session_drops_reconnected ch ch' ns replica_id active sender sig (w : world C T stream) :
  as_sessions (w_app w) !! (ns, replica_id) = Some ch' → ch' ≠ ch → ch' ∉ w_gone w →
  sg_target_replica_id sig = replica_id →
  (∃ w0, relay_signal ns sender sig w = (Ok true, w0) ∧
    outbox ch' w0 = outbox ch' w ++ [Binary (encode_frame MSG_P2P_SIGNAL_ACK s_p2p_signal_ack
      (P2PSignalAckPayload_new sender (sg_signal_type sig) (sg_data sig)))]) ∧
  ∃ w', ws_loop error_debug ch ns replica_id active TimedOut w = (Ok Ended, w') ∧ (ch' ∉ w_gone w') ∧
    relay_signal ns sender sig w' = (Ok false, w') ∧ outbox ch' w' = outbox ch' w.
Proof.
  intros Hses Hne Hgone Hsig. split.
  { unfold relay_signal. rewrite (sm_bind_ok _ _ _ (Some ch') w) by (sm_unfold; by rewrite Hsig, Hses).
    unfold send_frame. edestruct (outbox_send ch') as (w0 & Hs & Ho & _); [done|].
    exists w0. by rewrite (sm_bind_ok _ _ _ _ _ Hs). }
  unfold ws_loop, send_close.
  destruct (send ch (Close (Some (4000%N, "Heartbeat timeout"))) w) as [[b|[]] w1] eqn:Hs.
  rewrite (sm_bind_ok _ _ _ _ _ Hs). destruct (ws_cleanup_spec ch ns replica_id active w1) as (w' & Hc & Ho & Hg & Hm).
  assert (outbox ch' w1 = outbox ch' w ∧ w_gone w1 = w_gone w) as [Ho1 Hg1].
  { unfold send in Hs. case_bool_decide; simplify_eq; [done|]. split; [|done]. unfold outbox. cbn.
    by rewrite lookup_insert_ne. }
  exists w'. split; [done|]. split; [rewrite Hg, Hg1; set_solver|]. split.
  - unfold relay_signal. sm_unfold. by rewrite Hm, Hsig, lookup_delete_eq.
  - unfold outbox in *. by rewrite Ho.
Qed.
End ws.

(** ** Witnesses, on the sample server *)

#[local] Existing Instance plain_hash.
#[local] Existing Instance tagged_json.
#[local] Existing Instance tagged_json_spec.

Definition sample_ws : world InMemoryCoordinator.t MemoryTokenStore.t stream :=
  World (set_sessions {[ ("n", "r") := 2 ]} sample_server) ∅ ∅ [].

(** A session that starts with a token of its own choice. *)
Definition forged_auth : incoming :=
  Received (Binary (encode_frame MSG_AUTH s_auth (AuthPayload_new "forged" 1 "r" "n"))).

Lemma ws_session_needs_token_witness :
  ∃ phase w', ws_run (λ _, "") "u" 1 "n" [forged_auth; forged_auth] AwaitAuth sample_ws = (Ok phase, w') ∧
    as_coordinator (w_app w') = as_coordinator (w_app sample_ws).
Proof.
  destruct (ws_run (λ _, "") "u" 1 "n" [forged_auth; forged_auth] AwaitAuth sample_ws) as [[phase|[]] w'] eqn:Hrun.
  exists phase, w'. split; [reflexivity|].
  apply (ws_session_needs_token (λ _, "") "u" 1 "n" [forged_auth; forged_auth] sample_ws phase w' Hrun).
  intros (bin & payload & auth & [= <-] & Hd & Hp & _ & token & Ha & Hh).
  vm_compute in Hd. injection Hd as <-. vm_compute in Hp. injection Hp as <-. vm_compute in Ha, Hh. congruence.
Defined.

Definition sample_push : EncryptedMutation := EncryptedMutation_new "m1" "n" "r" "d" "1" [7%N] 5 1 1.

Lemma mux_session_needs_no_token_witness :
  ∃ w' seqs, mux_step (λ _, "") 1 mux_new
    (Received (Binary (encode_frame MSG_PUSH s_push (PushPayload_new "q" [sample_push])))) sample_ws =
    (Ok (Some mux_new), w') ∧
    alog_push "n" [sample_push] 1 [] =
      (seqs, co_log "n" (as_coordinator (w_app w')), co_next (as_coordinator (w_app w'))).
Proof.
  destruct (mux_session_needs_no_token (λ _, "") 0 1 "n" "q" 0 10 sample_push [] sample_ws) as [_ Hpush].
  - apply not_elem_of_empty.
  - apply (coord_ok_new 1). reflexivity.
  - reflexivity.
  - split; [vm_compute; repeat split; discriminate|vm_compute; reflexivity].
  - reflexivity.
  - discriminate.
  - split; [split; [exact I|apply Forall_singleton]|vm_compute; reflexivity].
    vm_compute. repeat split; try discriminate. apply Forall_singleton. discriminate.
  - exact Hpush.
Defined.

Lemma stale_session_drops_reconnected_witness :
  ∃ w', ws_loop (λ _, "") 1 "n" "r" None TimedOut sample_ws = (Ok Ended, w') ∧
    relay_signal "n" "x" (P2PSignalPayload_new "r" "offer" "sdp") w' = (Ok false, w').
Proof.
  destruct (stale_session_drops_reconnected (λ _, "") 1 2 "n" "r" None "x" (P2PSignalPayload_new "r" "offer" "sdp")
    sample_ws) as (_ & w' & Hw & _ & Hsig & _).
  - reflexivity.
  - discriminate.
  - apply not_elem_of_empty.
  - reflexivity.
  - exists w'. split; [exact Hw|exact Hsig].
Defined.
