(* ===== verification/HttpTheory.v ===== *)
(** * What the HTTP coordinator promises, end to end

    Through the client, the network and the server, a call of the HTTP
    coordinator is the call of the coordinator behind the server. *)
From Stdlib Require Import Ascii.
From S2P Require Import Prelude Text Types Coordinator CoordinatorTheory Document Opfs Json WsProto TokenStore Server ServerTheory WsSession HttpCoordinator HttpServer DocumentTheory NetSample.

(** ** Logs within the range of the protocol *)

Lemma to_pending_fits ns next m :
  (next ≤ U64_MAX)%N → fits s_encrypted m → fits s_pending (InMemoryCoordinator.to_pending ns next m).
Proof. cbn. intros Hn Hm. naive_solver. Qed.

Lemma alog_push_fits ns ms next log seqs log' next' :
  alog_push ns ms next log = (seqs, log', next') → Forall (λ pm, pm_sequence pm ≤ U64_MAX)%N log' →
  Forall (fits s_encrypted) ms → Forall (fits s_pending) log → Forall (fits s_pending) log'.
Proof.
  intros Hp Hn Hms. revert next log seqs Hp. induction Hms as [|m ms Hm _ IH]; simpl; intros next log seqs Hp Hl.
  { by simplify_eq. }
  destruct (log_find _ _).
  - destruct (alog_push ns ms next log) as [[??]?] eqn:Hp1. simplify_eq. by eapply IH.
  - destruct (alog_push ns ms (next + 1) _) as [[??]?] eqn:Hp1. simplify_eq.
    pose proof Hp1 as [[ext ->] _]%alog_push_extends. eapply IH; [exact Hp1|]. apply Forall_app. split; [done|].
    apply Forall_app in Hn as [[_ Hn]%Forall_app _]. rewrite Forall_singleton in Hn. simpl in Hn.
    by apply Forall_singleton, to_pending_fits.
Qed.

Lemma log_find_elem id log seq : log_find id log = Some seq → ∃ pm, pm ∈ log ∧ pm_sequence pm = seq.
Proof.
  unfold log_find. destruct (filterb _ log) as [|pm l] eqn:Hf; [done|]. intros [= <-]. exists pm. split; [|done].
  eapply elem_of_filterb. rewrite Hf. by left.
Qed.

Lemma alog_push_seqs_fit ns ms next log seqs log' next' :
  alog_push ns ms next log = (seqs, log', next') → Forall (fits s_pending) log' → fits (s_vec s_u64) seqs.
Proof.
  intros [_ Hrec]%alog_push_extends Hl. cbn. apply Forall_forall. intros seq Hseq.
  apply list_elem_of_lookup in Hseq as [i Hi]. destruct (Forall2_lookup_r _ _ _ _ _ Hrec Hi) as (m & _ & Hf).
  apply log_find_elem in Hf as (pm & Hpm & <-). rewrite Forall_forall in Hl. specialize (Hl pm Hpm). cbn in Hl. naive_solver.
Qed.

Lemma alog_pull_fits after limit log : Forall (fits s_pending) log → fits (s_vec s_pending) (alog_pull after limit log).
Proof.
  intros Hl. cbn. unfold alog_pull. apply Forall_take. rewrite Forall_forall in *.
  intros pm [_ Hpm]%elem_of_filterb. by apply Hl.
Qed.

Section http.
Context {C T : Type} {HC : Coordinator C} {HCS : CoordinatorSpec C} {HST : Streams C}.
Context {HT : TokenStore T} {HH : TokenHash} {HTS : TokenStoreSpec T}.
Context {J : JsonText} {JS : JsonTextSpec} {AX : Axum} {AXS : AxumSpec} {K : SnapshotCodec}.
Context {HSK : HttpStack} {HSKS : HttpStackSpec}.
Context (error_debug : CoordinatorError → string) (uuid : nat → string) (status_display : StatusCode → string).
(** The token store answers. *)
Hypothesis validate_works : ∀ ns token t, is_ok (validate_token (TokenStore := HT) ns token t).1 = true.

Abbreviation link := (server_link C T stream).
#[local] Instance network : Link link := server_network error_debug uuid.

(** The server and its coordinator, behind the client. *)
Definition app_of (h : HttpCoordinator link) : AppState C T := w_app (sl_world (hc_link h)).
Definition coordinator_of (h : HttpCoordinator link) : C := as_coordinator (app_of h).

(** A client without a WebSocket whose token the server accepts for the
    namespace, on a coordinator with room for [n] more mutations. *)
Record http_up (n : nat) (ns : string) (h : HttpCoordinator link) : Prop := {
  up_url : served (trim_slashes (hc_url h));
  up_ns : url_safe ns = true;
  up_ws : hc_ws_client h = None;
  up_granted : ∃ auth, authorization (hc_auth_token h) = Some auth ∧ granted (app_of h) auth ns;
  up_ready : co_ready n (coordinator_of h);
  up_fits : Forall (fits s_pending) (co_log ns (coordinator_of h));
}.

Lemma authorize_granted auth ns (s : AppState C T) :
  granted s auth ns → ∃ s', authorize_namespace auth ns s = (Ok tt, s') ∧ untouched s s'.
Proof.
  intros Hg. destruct (authorize_namespace auth ns s) as [r s'] eqn:Ha.
  pose proof (authorize_spec _ _ _ _ _ Ha) as [Hun Hr]. exists s'. split; [|done].
  destruct r as [[]|code]; [done|]. exfalso. revert Ha Hg. unfold authorize_namespace, granted. sm_unfold.
  destruct (sc_auth_token (as_config s)) as [g|]; [intros Ha ->; by rewrite bool_decide_true in Ha|].
  destruct (as_token_store s) as [t|] eqn:Ht, (sc_admin_token (as_config s)); try done.
  intros Ha (token & -> & Hh). cbn in Ha. rewrite strip_prefix_app in Ha. unfold token_call in Ha.
  specialize (validate_works ns token t). destruct (validate_token ns token t) as [v t'] eqn:Hv.
  apply validate_token_exact in Hv as [_ Hv]. destruct v as [v|]; [|done]. unfold held_hash in Hh. rewrite Ht in Hh.
  cbn in Hh. rewrite bool_decide_true in Hv by done. by subst v.
Qed.

(** A call of the coordinator behind the check. *)
Lemma authorized_call {A B} auth ns (m : SM C CoordinatorError A) (k : A → B) (s : AppState C T) a c' :
  granted s auth ns → m (as_coordinator s) = (Ok a, c') →
  ∃ s', (authorize_namespace auth ns;; (coordinator_call m ≫= λ a, mret (k a))) s = (Ok (k a), s') ∧
    as_coordinator s' = c' ∧ same_tokens s s'.
Proof.
  intros Hg Hm. destruct (authorize_granted _ _ _ Hg) as (s1 & Ha & Hc & Hs). exists (set_coordinator c' s1).
  rewrite (sm_bind_ok _ _ _ _ _ Ha). unfold coordinator_call. sm_unfold. rewrite Hc, Hm. split_and!; [done..|].
  by destruct Hs; split.
Qed.

(** ** URLs *)

Lemma string_assoc (a b c : string) : (a +:+ b) +:+ c = a +:+ (b +:+ c).
Proof. induction a as [|x a IH]; [done|]. exact (f_equal (String x) IH). Qed.

Lemma digits_url_safe s : s ≠ "" → all_chars is_digit s = true → url_safe s = true.
Proof.
  intros Hne Hd. unfold url_safe. apply andb_true_intro. split.
  - clear Hne. induction s as [|c s IH]; [done|]. cbn [all_chars] in *. apply andb_true_iff in Hd as [Hc Hd].
    rewrite IH by done. unfold unreserved, in_range. unfold is_digit in Hc. by rewrite Hc.
  - rewrite bool_decide_false; [done|]. intros Hin. repeat (apply elem_of_cons in Hin as [->|Hin]; [done|]).
    by apply elem_of_nil in Hin.
Qed.

Lemma show_N_not_empty n : show_N n ≠ "".
Proof. unfold show_N. by destruct (N.to_uint n). Qed.

Lemma show_N_url_safe n : url_safe (show_N n) = true.
Proof. apply digits_url_safe; [apply show_N_not_empty|apply show_N_digits]. Qed.

Definition request_of (m : method) (segs : list string) (q : list (string * string))
    (auth : option (option string)) (body : option bytes) : request :=
  Request m segs q auth (bool_decide (is_Some body)) (default [] body).

Lemma to_request_path m base segs token auth body :
  served base → Forall (λ s, url_safe s = true) segs → authorization token = Some auth →
  to_request (HttpRequest m (base +:+ path_text segs) token body) = Some (request_of m segs [] auth body).
Proof. intros Hb Hs Ha. unfold to_request. cbn. by rewrite resolve_path, Ha. Qed.

Lemma to_request_query m base segs q token auth body :
  served base → Forall (λ s, url_safe s = true) segs → q ≠ [] →
  Forall (λ p, url_safe p.1 = true ∧ url_safe p.2 = true) q → authorization token = Some auth →
  to_request (HttpRequest m (base +:+ path_text segs +:+ "?" +:+ query_text q) token body) =
  Some (request_of m segs q auth body).
Proof. intros Hb Hs Hq Hqs Ha. unfold to_request. cbn -[path_text query_text]. by rewrite resolve_query, Ha. Qed.

(** The client with another state of the server. *)
Definition with_app (app : AppState C T) (h : HttpCoordinator link) : HttpCoordinator link :=
  set_link (set_world (set_app app (sl_world (hc_link h))) (hc_link h)) h.

(** A request that the server answers with a body. *)
Lemma http_call_ok m path body rq bs app (h : HttpCoordinator link) :
  to_request (HttpRequest m (trim_slashes (hc_url h) +:+ path) (hc_auth_token h) body) = Some rq →
  handle (uuid (sl_ids (hc_link h))) rq (app_of h) = (Ok (Content bs), app) →
  http_call status_display m path body h = (Ok bs, with_app app h).
Proof.
  intros Hrq Hh. unfold http_call, http_raw, or_internal, on_link. sm_unfold.
  cbn [http_send network server_network]. unfold deliver, serve. rewrite Hrq. unfold app_of in Hh. by rewrite Hh.
Qed.

Lemma with_app_up n m ns c' app (h : HttpCoordinator link) :
  http_up n ns h → same_tokens (app_of h) app → as_coordinator app = c' → co_ready m c' →
  Forall (fits s_pending) (co_log ns c') → http_up m ns (with_app app h).
Proof.
  intros [Hu Hn Hw (auth & Ha & Hg) _ _] Hs <- Hr Hf. split; try done.
  exists auth. split; [done|]. by eapply granted_same.
Qed.

Lemma extract_json_ok {A} (c : serde A) m segs auth a (s : AppState C T) :
  fits c a → length (to_vec (to_value c a)) ≤ DEFAULT_BODY_LIMIT →
  extract_json c (request_of m segs [] auth (json_of c a)) s = (Ok a, s).
Proof.
  intros Ha Hl. unfold extract_json. rewrite (json_body_ok _ (to_value c a)); [by rewrite from_to_value|done..|].
  apply parse_to_vec.
Qed.

Lemma namespace_safe ns name : url_safe ns = true → url_safe name = true →
  Forall (λ s, url_safe s = true) ["namespace"; ns; name].
Proof. intros Hn Hname. by repeat constructor. Qed.

Lemma url_safe_not_empty ns : url_safe ns = true → ns ≠ "".
Proof. unfold url_safe. intros [_ Hs]%andb_true_iff ->. done. Qed.

Lemma route_namespace ns name : url_safe ns = true → bool_decide (name = "") = false →
  route_of ["namespace"; ns; name] = namespace_route ns name.
Proof.
  intros Hns%url_safe_not_empty Hname. unfold route_of. cbn [existsb]. rewrite Hname.
  by rewrite (bool_decide_false (ns = "")).
Qed.

Lemma http_push_ok n ns ms (h : HttpCoordinator link) :
  http_up (length ms + n) ns h → Forall (fits s_encrypted) ms →
  length (to_vec (to_value (s_vec s_encrypted) ms)) ≤ DEFAULT_BODY_LIMIT →
  ∃ seqs h', http_push status_display ns ms h = (Ok seqs, h') ∧
    alog_push ns ms (co_next (coordinator_of h)) (co_log ns (coordinator_of h)) =
      (seqs, co_log ns (coordinator_of h'), co_next (coordinator_of h')) ∧
    (∀ ns', ns' ≠ ns → co_log ns' (coordinator_of h') = co_log ns' (coordinator_of h)) ∧ http_up n ns h'.
Proof.
  intros Hup Hms Hlen. pose proof Hup as [Hu Hn Hw (auth & Ha & Hg) Hr Hf].
  destruct (co_push_ok n ns ms _ Hr) as (seqs & c' & Hpush & Hal & Hoth & Hr').
  assert (Forall (fits s_pending) (co_log ns c')) as Hf'.
  { eapply alog_push_fits; [exact Hal| |done..]. apply Forall_forall. intros pm Hpm.
    destruct (co_entry _ _ _ _ Hr' Hpm). lia. }
  destruct (authorized_call auth ns (push ns ms) (json_response (s_vec s_u64)) _ _ _ Hg Hpush)
    as (app & Hcall & Hc & Hs).
  exists seqs, (with_app app h). split_and!.
  - unfold http_push, http_push_with, ws_request. rewrite (sm_bind_ok _ _ _ None h) by (sm_unfold; by rewrite Hw).
    cbn [reply_payload]. erewrite sm_bind_ok; [|eapply http_call_ok].
    + unfold read_json. by rewrite from_slice_to_vec by (by eapply alog_push_seqs_fit).
    + apply (to_request_path POST _ ["namespace"; ns; "push"]); [done|by apply namespace_safe|done].
    + unfold handle. cbn [rq_path rq_method rq_authorization request_of].
      rewrite route_namespace by done. change (namespace_route ns "push") with (Some (RPush ns)). cbn iota.
      erewrite sm_bind_ok; [exact Hcall|].
      by apply extract_json_ok.
  - change (coordinator_of (with_app app h)) with (as_coordinator app). by rewrite Hc.
  - change (coordinator_of (with_app app h)) with (as_coordinator app). by rewrite Hc.
  - by eapply with_app_up.
Qed.

(** The query of a pull. *)
Definition pull_query (after : N) (limit : nat) : list (string * string) :=
  [("after", show_N after); ("limit", show_N (N.of_nat limit))].

Lemma pull_path ns after limit :
  "/namespace/" +:+ ns +:+ "/pull?after=" +:+ show_N after +:+ "&limit=" +:+ show_N (N.of_nat limit) =
  path_text ["namespace"; ns; "pull"] +:+ "?" +:+ query_text (pull_query after limit).
Proof.
  change (path_text ["namespace"; ns; "pull"]) with ("/namespace/" +:+ (ns +:+ "/pull")).
  rewrite !string_assoc. done.
Qed.

Lemma http_pull_ok n ns after limit (h : HttpCoordinator link) :
  http_up n ns h → (after < U64_MAX)%N → (N.of_nat limit ≤ U64_MAX)%N →
  ∃ h', http_pull status_display ns after limit h = (Ok (alog_pull after limit (co_log ns (coordinator_of h))), h') ∧
    coordinator_of h' = coordinator_of h ∧ http_up n ns h'.
Proof.
  intros Hup Hafter Hlimit. pose proof Hup as [Hu Hn Hw (auth & Ha & Hg) Hr Hf].
  pose proof (co_pull_ok n ns after limit _ Hr Hafter) as Hpull.
  destruct (authorized_call auth ns (pull ns after limit) (json_response (s_vec s_pending)) _ _ _ Hg Hpull)
    as (app & Hcall & Hc & Hs).
  exists (with_app app h). split_and!.
  - unfold http_pull, http_pull_with, ws_request. rewrite (sm_bind_ok _ _ _ None h) by (sm_unfold; by rewrite Hw).
    cbn [reply_payload]. rewrite pull_path. erewrite sm_bind_ok; [|eapply http_call_ok].
    + unfold read_json. by rewrite from_slice_to_vec by (by apply alog_pull_fits).
    + apply to_request_query; [done|by apply namespace_safe|done| |done].
      repeat constructor; apply show_N_url_safe.
    + unfold handle. cbn [rq_path rq_method rq_authorization request_of].
      rewrite route_namespace by done. change (namespace_route ns "pull") with (Some (RPull ns)). cbn iota.
      unfold extract_query. cbn [rq_query request_of].
      change (query_field "after" (pull_query after limit)) with (Some (show_N after)).
      change (query_field "limit" (pull_query after limit)) with (Some (show_N (N.of_nat limit))).
      cbn [mbind option_bind]. unfold parse_usize. rewrite !parse_show by lia. cbn [fmap option_fmap option_map].
      rewrite Nat2N.id. exact Hcall.
  - exact Hc.
  - eapply with_app_up; [done|done|exact Hc|done|done].
Qed.

(** ** Sequences of calls *)

Inductive net_call := NPush (ms : list EncryptedMutation) | NPull (after : N) (limit : nat).
Inductive net_result := Pushed (seqs : list N) | Pulled (ms : list PendingMutation).

Definition call_room (c : net_call) : nat := match c with NPush ms => length ms | NPull _ _ => 0 end.
Definition calls_room (cs : list net_call) : nat := sum_list (map call_room cs).

(** A call within the ranges of the Rust types and the limit on a body. *)
Definition call_fits (c : net_call) : Prop :=
  match c with
  | NPush ms => Forall (fits s_encrypted) ms ∧
      length (to_vec (to_value (s_vec s_encrypted) ms)) ≤ DEFAULT_BODY_LIMIT
  | NPull after limit => (after < U64_MAX)%N ∧ (N.of_nat limit ≤ U64_MAX)%N
  end.

(** The answers of the abstract log, and its content afterwards. *)
Fixpoint alog_calls (ns : string) (cs : list net_call) (next : N) (log : list PendingMutation) :
    list net_result * list PendingMutation :=
  match cs with
  | [] => ([], log)
  | NPush ms :: cs =>
      let '(seqs, log', next') := alog_push ns ms next log in
      let '(rs, log'') := alog_calls ns cs next' log' in (Pushed seqs :: rs, log'')
  | NPull after limit :: cs =>
      let '(rs, log') := alog_calls ns cs next log in (Pulled (alog_pull after limit log) :: rs, log')
  end.

Fixpoint http_calls (ns : string) (cs : list net_call) : SM (HttpCoordinator link) halt (list net_result) :=
  match cs with
  | [] => mret []
  | NPush ms :: cs =>
      seqs ← http_push status_display ns ms;
      rs ← http_calls ns cs;
      mret (Pushed seqs :: rs)
  | NPull after limit :: cs =>
      ms ← http_pull status_display ns after limit;
      rs ← http_calls ns cs;
      mret (Pulled ms :: rs)
  end.

(** C5: Over HTTP, the coordinator client and the server together are the log:
    for every sequence of pushes and pulls of a namespace, by a client whose
    token the server accepts, each call succeeds with what the abstract log of
    the namespace answers, the coordinator behind the server ends with the
    content of that log, and no other namespace changes.  The namespace must be
    made of characters that pass through a URL, the values must be in the range
    of their types, and a batch must fit the limit of 2 MiB on a body. *)
Theorem http_coordinator_refines_log ns cs (h : HttpCoordinator link) :
  http_up (calls_room cs) ns h → Forall call_fits cs →
  ∃ h', http_calls ns cs h =
      (Ok (alog_calls ns cs (co_next (coordinator_of h)) (co_log ns (coordinator_of h))).1, h') ∧
    co_log ns (coordinator_of h') =
      (alog_calls ns cs (co_next (coordinator_of h)) (co_log ns (coordinator_of h))).2 ∧
    (∀ ns', ns' ≠ ns → co_log ns' (coordinator_of h') = co_log ns' (coordinator_of h)).
Proof.
  intros Hup Hcs. revert h Hup. induction Hcs as [|c cs Hc _ IH]; intros h Hup; [by exists h|].
  cbn [http_calls alog_calls]. destruct c as [ms|after limit].
  - destruct Hc as [Hms Hlen]. destruct (http_push_ok _ _ _ _ Hup Hms Hlen) as (seqs & h1 & Hpush & Hal & Hoth & Hup1).
    destruct (IH _ Hup1) as (h' & Hrun & Hlog & Hoth'). exists h'.
    rewrite Hal, (sm_bind_ok _ _ _ _ _ Hpush), (sm_bind_ok _ _ _ _ _ Hrun).
    destruct (alog_calls ns cs _ _) as [rs log']. split_and!; [done..|].
    intros ns' Hns. by rewrite Hoth', Hoth.
  - destruct Hc as [Ha Hl]. destruct (http_pull_ok _ _ _ _ _ Hup Ha Hl) as (h1 & Hpull & Hc & Hup1).
    destruct (IH _ Hup1) as (h' & Hrun & Hlog & Hoth'). exists h'. rewrite Hc in *.
    rewrite (sm_bind_ok _ _ _ _ _ Hpull), (sm_bind_ok _ _ _ _ _ Hrun).
    destruct (alog_calls ns cs _ _) as [rs log']. by split_and!.
Qed.
End http.

(** ** A client of the sample server *)

Lemma small_body (bs : bytes) : (N.of_nat (length bs) ≤ 2097152)%N → length bs ≤ DEFAULT_BODY_LIMIT.
Proof. unfold DEFAULT_BODY_LIMIT. lia. Qed.

Definition sample_world : world InMemoryCoordinator.t MemoryTokenStore.t stream := World sample_server ∅ ∅ [].
Definition sample_client : HttpCoordinator (server_link InMemoryCoordinator.t MemoryTokenStore.t stream) :=
  http_new "http://s/" (Some "t") (ServerLink sample_world Ended 0 "" 0 0).

Definition sample_mutation : EncryptedMutation := EncryptedMutation_new "m1" "n" "r" "d" "1" [7%N] 5 1 1.
Definition sample_calls : list net_call := [NPush [sample_mutation]; NPull 0 10].

#[local] Existing Instance plain_hash.
#[local] Existing Instance tagged_json.
#[local] Existing Instance tagged_json_spec.
#[local] Existing Instance plain_axum.
#[local] Existing Instance plain_axum_spec.
#[local] Existing Instance sample_codec.
#[local] Existing Instance plain_stack.
#[local] Existing Instance plain_stack_spec.

Lemma memory_validates ns token (t : MemoryTokenStore.t) : is_ok (validate_token ns token t).1 = true.
Proof. cbn. unfold MemoryTokenStore.validate_token. sm_unfold. by destruct (t !! ns). Qed.

Lemma sample_client_up n : (N.of_nat n < U64_MAX)%N → http_up n "n" sample_client.
Proof.
  intros Hn. split; [reflexivity..| | |].
  - exists (Some (Some "Bearer t")). split; [reflexivity|]. by exists "t".
  - by apply coord_ok_new.
  - constructor.
Qed.

Lemma http_coordinator_refines_log_witness :
  ∃ h', http_calls (λ _, "") (λ _, "") (λ _, "") "n" sample_calls sample_client =
    (Ok [Pushed [1%N]; Pulled [InMemoryCoordinator.to_pending "n" 1 sample_mutation]], h').
Proof.
  destruct (http_coordinator_refines_log (λ _, "") (λ _, "") (λ _, "") memory_validates "n" sample_calls sample_client)
    as (h' & Hrun & _).
  - by apply sample_client_up.
  - apply Forall_cons_2; [split|apply Forall_cons_2; [split|constructor]].
    + apply Forall_singleton. vm_compute. repeat split; try discriminate. apply Forall_singleton. discriminate.
    + apply small_body. vm_compute. discriminate.
    + reflexivity.
    + vm_compute. discriminate.
  - exists h'. exact Hrun.
Defined.
