(* ===== verification/WsClientTheory.v ===== *)
(** * The HTTP coordinator over its WebSocket

    The client of [HttpCoordinator] and a session of [WsSession] together:
    requests and their replies, the handshake, and what a subscriber receives.
    Calls over the socket go to the namespace of the socket, whatever namespace
    they name; the client of the crate asks the socket only for its namespace. *)
From S2P Require Import Prelude Text Types Coordinator CoordinatorTheory Document DocumentTheory Opfs Json WsProto TokenStore Server NetSample ServerTheory WsSession WsTheory HttpCoordinator HttpServer HttpTheory.

(** The reader finds the reply to a request by the field [request_id]. *)
Lemma push_ack_request_id p : get_str "request_id" (to_value s_push_ack p) = Some (pa_request_id p).
Proof. by destruct p. Qed.
Lemma pull_response_request_id p : get_str "request_id" (to_value s_pull_response p) = Some (pr_request_id p).
Proof. by destruct p. Qed.

Section client.
Context {C T : Type} {HC : Coordinator C} {HCS : CoordinatorSpec C} {HST : Streams C}.
Context {HT : TokenStore T} {HH : TokenHash} {HTS : TokenStoreSpec T}.
Context {J : JsonText} {JS : JsonTextSpec} {AX : Axum} {K : SnapshotCodec}.
Context {HSK : HttpStack} {HSKS : HttpStackSpec}.
Context (error_debug : CoordinatorError → string) (uuid : nat → string) (status_display : StatusCode → string).

Abbreviation link := (server_link C T stream).
#[local] Instance socket_network : Link link := server_network error_debug uuid.

Definition w_of (h : HttpCoordinator link) : world C T stream := sl_world (hc_link h).
Definition c_of (h : HttpCoordinator link) : C := as_coordinator (w_app (w_of h)).

(** A client whose WebSocket is open, with a session that is in its loop and
    whose messages have all been read, and a coordinator with room for [n]
    more mutations. *)
Record ws_up (n : nat) (h : HttpCoordinator link) : Prop := {
  wu_client : is_Some (hc_ws_client h);
  wu_phase : ∃ r k, sl_phase (hc_link h) = Running r k;
  wu_read : sl_read (hc_link h) = length (outbox (sl_channel (hc_link h)) (w_of h));
  wu_open : sl_channel (hc_link h) ∉ w_gone (w_of h);
  wu_ready : co_ready n (c_of h);
  wu_fits : Forall (fits s_pending) (co_log (sl_ns (hc_link h)) (c_of h));
}.

(** A frame with a reply that carries its request id. *)
Lemma reader_reply {A} msg_type (c : serde A) (a : A) req (handle : WsClientHandle) :
  frame_fits c a → get_str "request_id" (to_value c a) = Some req → req ∈ wh_pending_requests handle →
  msg_type ≠ MSG_MUTATION_PUSH → msg_type ≠ MSG_SNAPSHOT →
  reader_turn (Binary (encode_frame msg_type c a)) handle =
  Some (WsClientHandle_new (wh_pending_requests handle ∖ {[req]})
    (<[req := encode_frame msg_type c a]> (wh_replies handle)) (wh_received_snapshots handle) (wh_mutations handle)).
Proof.
  intros Hf Hreq Hin H1%N.eqb_neq H2%N.eqb_neq. unfold reader_turn. rewrite decode_encode_frame by done.
  rewrite H1, H2, parse_to_vec. cbn [mbind option_bind]. rewrite Hreq. by rewrite bool_decide_true.
Qed.

(** A reader task that hands a reply to the request that waits for it. *)
Definition hands_replies (run : list ws_message → WsClientHandle → option WsClientHandle) : Prop :=
  ∀ A msg_type (c : serde A) a req (handle : WsClientHandle),
  frame_fits c a → get_str "request_id" (to_value c a) = Some req → req ∈ wh_pending_requests handle →
  msg_type ≠ MSG_MUTATION_PUSH → msg_type ≠ MSG_SNAPSHOT →
  run [Binary (encode_frame msg_type c a)] handle =
  Some (WsClientHandle_new (wh_pending_requests handle ∖ {[req]})
    (<[req := encode_frame msg_type c a]> (wh_replies handle)) (wh_received_snapshots handle) (wh_mutations handle)).

Lemma reader_run_replies : hands_replies reader_run.
Proof. intros A t c a req handle Hf Hreq Hin H1 H2. cbn [reader_run]. by rewrite (reader_reply t c a req handle). Qed.

Lemma write_frame frame phase w' (l : link) :
  sl_phase l ≠ Ended →
  ws_step error_debug (uuid (sl_ids l)) (sl_channel l) (sl_ns l) (sl_phase l) (Received (Binary frame)) (sl_world l) =
    (Ok phase, w') →
  write_socket error_debug uuid frame l =
    (Ok tt, ServerLink w' phase (sl_channel l) (sl_ns l) (sl_read l) (S (sl_ids l))).
Proof. intros Hne Hstep. unfold write_socket. destruct (sl_phase l); try done; by rewrite Hstep. Qed.

(** The operations of the network, from the client. *)
Lemma on_link_ok {A} (m : SM link string A) (h : HttpCoordinator link) a l :
  m (hc_link h) = (Ok a, l) → on_link m h = (Ok (Ok a), set_link l h).
Proof. intros Hm. unfold on_link. sm_unfold. by rewrite Hm. Qed.
Lemma surely_ok {A} (m : SM link Empty_set A) (h : HttpCoordinator link) a l :
  m (hc_link h) = (Ok a, l) → surely m h = (Ok a, set_link l h).
Proof. intros Hm. unfold surely. sm_unfold. by rewrite Hm. Qed.

Lemma draw_ok (h : HttpCoordinator link) :
  let l := hc_link h in
  surely new_uuid h = (Ok (uuid (sl_ids l)),
    set_link (ServerLink (sl_world l) (sl_phase l) (sl_channel l) (sl_ns l) (sl_read l) (S (sl_ids l))) h).
Proof. done. Qed.

Section requests.
Context (run : list ws_message → WsClientHandle → option WsClientHandle) (Hrun : hands_replies run).

(** A request whose frame makes the session send one reply. *)
Lemma ws_request_replied {A B} msg_type (c : serde A) (payload : string → A) reply_type (cb : serde B) b
    (h : HttpCoordinator link) w' r k handle :
  let l := hc_link h in let req := uuid (sl_ids l) in
  hc_ws_client h = Some handle → sl_phase l = Running r k →
  sl_read l = length (outbox (sl_channel l) (sl_world l)) →
  ws_step error_debug (uuid (S (sl_ids l))) (sl_channel l) (sl_ns l) (Running r k)
    (Received (Binary (encode_frame msg_type c (payload req)))) (sl_world l) = (Ok (Running r k), w') →
  outbox (sl_channel l) w' = outbox (sl_channel l) (sl_world l) ++ [Binary (encode_frame reply_type cb b)] →
  frame_fits cb b → get_str "request_id" (to_value cb b) = Some req →
  reply_type ≠ MSG_MUTATION_PUSH → reply_type ≠ MSG_SNAPSHOT →
  ∃ h', ws_request run msg_type c payload h = (Ok (Some (encode_frame reply_type cb b)), h') ∧
    sl_world (hc_link h') = w' ∧ sl_ns (hc_link h') = sl_ns l ∧ sl_channel (hc_link h') = sl_channel l ∧
    sl_phase (hc_link h') = Running r k ∧ sl_read (hc_link h') = length (outbox (sl_channel l) w') ∧
    is_Some (hc_ws_client h').
Proof.
  intros l req Hws Hphase Hread Hstep Hout Hfits Hreq H1 H2.
  unfold ws_request. rewrite (sm_bind_ok _ _ _ (Some handle) h) by (sm_unfold; by rewrite Hws).
  set (handle' := WsClientHandle_new ({[req]} ∪ wh_pending_requests handle) (wh_replies handle)
    (wh_received_snapshots handle) (wh_mutations handle)).
  pose proof (Hrun _ reply_type cb b req handle' Hfits Hreq ltac:(by apply elem_of_union_l, elem_of_singleton) H1 H2) as Hturn.
  rewrite (sm_bind_ok _ _ _ _ _ (draw_ok h)). fold l req. cbv zeta. fold handle'.
  set (h0 := set_link _ h). set (h1 := set_ws_client (Some handle') h0).
  rewrite (sm_bind_ok (sm_modify (set_ws_client (Some handle'))) _ h0 tt h1 eq_refl).
  assert (write_socket error_debug uuid (encode_frame msg_type c (payload req)) (hc_link h1) =
    (Ok tt, ServerLink w' (Running r k) (sl_channel l) (sl_ns l) (sl_read l) (S (S (sl_ids l))))) as Hwrite.
  { refine (write_frame _ (Running r k) w' (hc_link h1) _ _); change (sl_phase (hc_link h1)) with (sl_phase l);
      rewrite Hphase; [done|exact Hstep]. }
  rewrite (sm_bind_ok _ _ _ _ _ (on_link_ok _ _ _ _ Hwrite)).
  set (h2 := set_link _ h1).
  assert (read_arrivals (hc_link h2) = (Ok [Binary (encode_frame reply_type cb b)],
    ServerLink w' (Running r k) (sl_channel l) (sl_ns l) (length (outbox (sl_channel l) w')) (S (S (sl_ids l)))))
    as Harr.
  { unfold read_arrivals. change (sl_world (hc_link h2)) with w'. change (sl_read (hc_link h2)) with (sl_read l).
    change (sl_channel (hc_link h2)) with (sl_channel l). by rewrite Hread, Hout, drop_app_length. }
  eexists. split.
  - eassert (await_reply run req handle' h2 = (Ok (encode_frame reply_type cb b), _)) as Hawait.
    { unfold await_reply. rewrite (sm_bind_ok _ _ _ _ _ (surely_ok _ _ _ _ Harr)).
      rewrite Hturn. unfold mbind, sm_bind, sm_modify.
      cbn [wh_replies]. by rewrite lookup_insert_eq. }
    by rewrite (sm_bind_ok _ _ _ _ _ Hawait).
  - by split_and!.
Qed.

Lemma ws_step_push u ch ns r k p (w w' : world C T stream) :
  frame_fits s_push p → push_reply error_debug ch ns p w = (Ok tt, w') →
  ws_step error_debug u ch ns (Running r k) (Received (Binary (encode_frame MSG_PUSH s_push p))) w =
    (Ok (Running r k), w').
Proof.
  intros Hf Hp. cbn [ws_step ws_loop]. unfold ws_binary. rewrite decode_encode_frame by done. cbn [N.eqb Pos.eqb MSG_PUSH].
  unfold if_parsed. rewrite from_slice_to_vec by apply Hf. sm_unfold. by rewrite Hp.
Qed.

Lemma ws_step_pull u ch ns r k p (w w' : world C T stream) :
  frame_fits s_pull p → pull_reply error_debug ch ns p w = (Ok tt, w') →
  ws_step error_debug u ch ns (Running r k) (Received (Binary (encode_frame MSG_PULL s_pull p))) w =
    (Ok (Running r k), w').
Proof.
  intros Hf Hp. cbn [ws_step ws_loop]. unfold ws_binary. rewrite decode_encode_frame by done.
  change (MSG_PULL =? MSG_PUSH)%N with false. change (MSG_PULL =? MSG_PULL)%N with true. cbn iota.
  unfold if_parsed. rewrite from_slice_to_vec by apply Hf. sm_unfold. by rewrite Hp.
Qed.

(** The sizes of the frames of a push. *)
Definition push_frames_fit (req : string) (ms : list EncryptedMutation) : Prop :=
  frame_fits s_push (PushPayload_new req ms) ∧
  ∀ seqs, length seqs = length ms → fits (s_vec s_u64) seqs → frame_fits s_push_ack (PushAckPayload_new req seqs None).

(** The sizes of the frames of a pull. *)
Definition pull_frames_fit (req ns : string) (after : N) (limit : nat) (ms : list PendingMutation) : Prop :=
  frame_fits s_pull (PullPayload_new req ns after limit) ∧
  frame_fits s_pull_response (PullResponsePayload_new req ms (length ms =? limit)).

Lemma ws_push_ok n ns ms (h : HttpCoordinator link) :
  let sns := sl_ns (hc_link h) in
  ws_up (length ms + n) h → push_frames_fit (uuid (sl_ids (hc_link h))) ms →
  ∃ seqs h', http_push_with status_display run ns ms h = (Ok seqs, h') ∧
    alog_push sns ms (co_next (c_of h)) (co_log sns (c_of h)) = (seqs, co_log sns (c_of h'), co_next (c_of h')) ∧
    (∀ ns', ns' ≠ sns → co_log ns' (c_of h') = co_log ns' (c_of h)) ∧ sl_ns (hc_link h') = sns ∧ ws_up n h'.
Proof.
  intros sns [[handle Hws] (r & k & Hphase) Hread Hopen Hready Hfits] [Hpf Hack].
  set (req := uuid (sl_ids (hc_link h))) in *.
  destruct (push_reply_spec error_debug n (sl_channel (hc_link h)) sns (PushPayload_new req ms) (w_of h))
    as (w' & seqs & Hrep & Hal & Hoth & Hr' & Hg & Hout); [done..|]. cbn [pp_mutations pp_request_id] in *.
  assert (Forall (fits s_pending) (co_log sns (as_coordinator (w_app w')))) as Hf'.
  { eapply alog_push_fits; [exact Hal| |apply Hpf|done]. apply Forall_forall. intros pm Hpm.
    destruct (co_entry _ _ _ _ Hr' Hpm). lia. }
  pose proof (alog_push_extends _ _ _ _ _ _ _ Hal) as [_ Hlen%Forall2_length].
  pose proof (Hack seqs (eq_sym Hlen) (alog_push_seqs_fit _ _ _ _ _ _ _ Hal Hf')) as Hackf.
  destruct (ws_request_replied MSG_PUSH s_push (λ req, PushPayload_new req ms) MSG_PUSH_ACK s_push_ack
    (PushAckPayload_new req seqs None) h w' r k handle) as (h' & Hreq & Hw' & Hns' & Hch' & Hph' & Hrd' & Hws');
    [done..|by apply ws_step_push|done|done|by rewrite push_ack_request_id|done|done|].
  exists seqs, h'. split.
  - unfold http_push_with. rewrite (sm_bind_ok _ _ _ _ _ Hreq). unfold reply_payload. rewrite decode_encode_frame by done.
    cbn [N.eqb Pos.eqb MSG_PUSH_ACK]. by rewrite from_slice_to_vec by apply Hackf.
  - unfold c_of, w_of. rewrite Hw', Hns'. split_and!; [done..|]. unfold w_of, c_of.
    split; [done|by eauto|..]; unfold c_of, w_of; rewrite ?Hch', ?Hw', ?Hns'; try done. by rewrite Hg.
Qed.

Lemma ws_pull_ok n ns after limit (h : HttpCoordinator link) :
  let sns := sl_ns (hc_link h) in let ms := alog_pull after limit (co_log sns (c_of h)) in
  ws_up n h → (after < U64_MAX)%N → pull_frames_fit (uuid (sl_ids (hc_link h))) ns after limit ms →
  ∃ h', http_pull_with status_display run ns after limit h = (Ok ms, h') ∧ c_of h' = c_of h.
Proof.
  intros sns ms [[handle Hws] (r & k & Hphase) Hread Hopen Hready Hfits] Ha [Hpf Hrf].
  set (req := uuid (sl_ids (hc_link h))) in *.
  destruct (pull_reply_spec error_debug n (sl_channel (hc_link h)) sns (PullPayload_new req ns after limit) (w_of h))
    as (w' & Hrep & Hc & Hg & Hout); [done..|]. cbn [pl_after pl_limit pl_request_id] in *.
  destruct (ws_request_replied MSG_PULL s_pull (λ req, PullPayload_new req ns after limit) MSG_PULL_RESPONSE
    s_pull_response (PullResponsePayload_new req ms (length ms =? limit)) h w' r k handle)
    as (h' & Hreq & Hw' & _); [done..|by apply ws_step_pull|done|done|by rewrite pull_response_request_id|done|done|].
  exists h'. split.
  - unfold http_pull_with. rewrite (sm_bind_ok _ _ _ _ _ Hreq). unfold reply_payload. rewrite decode_encode_frame by done.
    cbn [N.eqb Pos.eqb MSG_PULL_RESPONSE]. by rewrite from_slice_to_vec by apply Hrf.
  - unfold c_of, w_of. by rewrite Hw'.
Qed.

End requests.

(** C33: Over an open WebSocket of which the client has read all messages that
    were sent, on an ideal network, a push and a pull are those of the log of the
    namespace for which the socket was opened, whatever namespace the caller
    names: the call succeeds, the mutations are appended to the socket's
    namespace, and the log of every other namespace, the one named included,
    stays as it is; a pull returns the mutations of the socket's namespace.  So
    the calls implement the log when the namespaces agree, and mix two
    namespaces up when they do not. *)
Theorem websocket_calls_use_its_namespace n ns ms after limit (h : HttpCoordinator link) :
  let sns := sl_ns (hc_link h) in let found := alog_pull after limit (co_log sns (c_of h)) in
  ws_up (length ms + n) h → (after < U64_MAX)%N → push_frames_fit (uuid (sl_ids (hc_link h))) ms →
  pull_frames_fit (uuid (sl_ids (hc_link h))) ns after limit found →
  (∃ seqs h', http_push status_display ns ms h = (Ok seqs, h') ∧
    alog_push sns ms (co_next (c_of h)) (co_log sns (c_of h)) = (seqs, co_log sns (c_of h'), co_next (c_of h')) ∧
    ∀ ns', ns' ≠ sns → co_log ns' (c_of h') = co_log ns' (c_of h)) ∧
  (∃ h', http_pull status_display ns after limit h = (Ok found, h') ∧ c_of h' = c_of h).
Proof.
  intros sns found Hup Ha Hpf Hlf. split.
  - destruct (ws_push_ok _ reader_run_replies n ns ms h Hup Hpf) as (seqs & h' & Hp & Hal & Hoth & _). exists seqs, h'. eauto.
  - by eapply ws_pull_ok; [apply reader_run_replies|..].
Qed.

(** ** The client of the crate *)

Lemma crate_reader_run_replies : hands_replies crate_reader_run.
Proof.
  intros A t c a req handle Hf Hreq Hin H1%N.eqb_neq _. cbn [crate_reader_run crate_reader_turn].
  rewrite decode_encode_frame by done. rewrite H1, parse_to_vec. cbn [mbind option_bind]. rewrite Hreq.
  by rewrite bool_decide_true.
Qed.

Section crate.
Context {AXS : AxumSpec}.
Hypothesis validate_works : ∀ ns token t, is_ok (validate_token (TokenStore := HT) ns token t).1 = true.

(** C34: The client of the crate keeps namespaces apart.  With a WebSocket open for
    one namespace, of which it has read all messages, at a server that answers at
    the client's URL and accepts its token for the namespace that the caller
    names, whose name is made of unreserved URL characters, a push (of at most
    2 MiB) and a pull succeed, over the socket if it is the socket's namespace and
    over HTTP if it is another; they are those of the log of the namespace named,
    and no other namespace changes. *)
Theorem crate_calls_keep_namespaces n ns ms after limit (c : CrateCoordinator link) :
  let h := cr_http c in let found := alog_pull after limit (co_log ns (c_of h)) in
  ws_up (length ms + n) h → sl_ns (hc_link h) = cr_namespace c → http_up (length ms + n) ns (set_ws_client None h) →
  call_fits (NPush ms) → call_fits (NPull after limit) → push_frames_fit (uuid (sl_ids (hc_link h))) ms →
  pull_frames_fit (uuid (sl_ids (hc_link h))) ns after limit found →
  (∃ seqs c', crate_push status_display ns ms c = (Ok seqs, c') ∧
    alog_push ns ms (co_next (c_of h)) (co_log ns (c_of h)) =
      (seqs, co_log ns (c_of (cr_http c')), co_next (c_of (cr_http c'))) ∧
    (∀ ns', ns' ≠ ns → co_log ns' (c_of (cr_http c')) = co_log ns' (c_of h))) ∧
  (∃ c', crate_pull status_display ns after limit c = (Ok found, c') ∧ c_of (cr_http c') = c_of h).
Proof.
  intros h found Hws Hns Hup [Hms Hlen] [Ha Hlim] Hpf Hlf. unfold crate_push, crate_pull, for_namespace. sm_unfold.
  case_bool_decide as Heq.
  - subst ns. unfold found in *. rewrite <-Hns in Hlf |- *. unfold lift. sm_unfold. fold h. split.
    + destruct (ws_push_ok _ crate_reader_run_replies n (sl_ns (hc_link h)) ms h Hws Hpf)
        as (seqs & h' & Hp & Hal & Hoth & _). exists seqs, (set_cr_http h' c). by rewrite Hp.
    + destruct (ws_pull_ok _ crate_reader_run_replies _ (sl_ns (hc_link h)) after limit h Hws Ha Hlf) as (h' & Hp & Hc).
      exists (set_cr_http h' c). by rewrite Hp.
  - unfold lift, without_socket. sm_unfold. fold h. split.
    + destruct (http_push_ok error_debug uuid status_display validate_works n ns ms _ Hup Hms Hlen)
        as (seqs & h' & Hp & Hal & Hoth & _). exists seqs, (set_cr_http (set_ws_client (hc_ws_client h) h') c).
      change (http_push status_display ns ms (set_ws_client None h))
        with (http_push_with status_display crate_reader_run ns ms (set_ws_client None h)) in Hp.
      by rewrite Hp.
    + destruct (http_pull_ok error_debug uuid status_display validate_works _ ns after limit _ Hup Ha Hlim)
        as (h' & Hp & Hc & _). exists (set_cr_http (set_ws_client (hc_ws_client h) h') c).
      change (http_pull status_display ns after limit (set_ws_client None h))
        with (http_pull_with status_display crate_reader_run ns after limit (set_ws_client None h)) in Hp.
      by rewrite Hp.
Qed.
End crate.

(** ** Subscriptions *)

(** The mutations that a task forwards: all but those of the replica it serves. *)
Definition forwarded (skip : option string) (ms : list PendingMutation) : list PendingMutation :=
  filterb (λ m, negb (bool_decide (skip = Some (pm_replica_id m)))) ms.

(** The task over the items of its stream. *)
Definition forward_all (k : nat) (ms : list PendingMutation) : SM (world C T stream) Empty_set unit :=
  for_each (λ m, forward_turn k (Some m);; mret tt) ms.

Definition mutation_frame (m : PendingMutation) : ws_message := Binary (encode_frame MSG_MUTATION_PUSH s_pending m).

Lemma forward_turn_spec k m t (w : world C T stream) :
  w_tasks w !! k = Some t → tk_channel t ∉ w_gone w →
  ∃ w', (forward_turn k (Some m);; mret tt) w = (Ok tt, w') ∧
    outbox (tk_channel t) w' = outbox (tk_channel t) w ++ map mutation_frame (forwarded (tk_skip t) [m]) ∧
    w_tasks w' = w_tasks w ∧ w_gone w' = w_gone w ∧ w_app w' = w_app w.
Proof.
  intros Hk Hg. unfold forward_turn. unfold forwarded, filterb. cbn [List.filter].
  case_bool_decide as Hown; cbn [negb map].
  - exists w. split_and!; [|by rewrite app_nil_r|done..]. sm_unfold. rewrite Hk. by rewrite bool_decide_true.
  - destruct (outbox_send (tk_channel t) (mutation_frame m) w Hg) as (w' & Hs & Ho & (_ & Ht & Hg') & Happ & _).
    exists w'. split_and!; [|done..]. unfold send_frame. sm_unfold. rewrite Hk, bool_decide_false by done.
    change (Binary _) with (mutation_frame m). by rewrite Hs.
Qed.

Lemma forwarded_cons skip m ms : forwarded skip (m :: ms) = forwarded skip [m] ++ forwarded skip ms.
Proof. unfold forwarded. by rewrite <-filterb_app. Qed.

Lemma forward_all_spec k ms t (w : world C T stream) :
  w_tasks w !! k = Some t → tk_channel t ∉ w_gone w →
  ∃ w', forward_all k ms w = (Ok tt, w') ∧
    outbox (tk_channel t) w' = outbox (tk_channel t) w ++ map mutation_frame (forwarded (tk_skip t) ms) ∧
    w_app w' = w_app w.
Proof.
  revert w. induction ms as [|m ms IH]; intros w Hk Hg.
  { exists w. split_and!; [done|by rewrite app_nil_r|done]. }
  destruct (forward_turn_spec k m t w Hk Hg) as (w1 & Hturn & Ho & Ht & Hg1 & Happ).
  destruct (IH w1) as (w' & Hrun & Ho' & Happ'); [by rewrite Ht|by rewrite Hg1|].
  exists w'. split_and!; [|by rewrite Ho', Ho, (forwarded_cons _ m ms), map_app, app_assoc|by rewrite Happ'].
  unfold forward_all in *. cbn [for_each]. by rewrite (sm_bind_ok _ _ _ _ _ Hturn).
Qed.

Lemma reader_run_mutations got ms (handle : WsClientHandle) :
  Forall (frame_fits s_pending) ms → wh_mutations handle = Some got →
  reader_run (map mutation_frame ms) handle = Some (WsClientHandle_new (wh_pending_requests handle)
    (wh_replies handle) (wh_received_snapshots handle) (Some (got ++ ms))).
Proof.
  intros Hms. revert got handle. induction Hms as [|m ms Hm _ IH]; intros got handle Hgot.
  { rewrite app_nil_r, <-Hgot. by destruct handle. }
  cbn [map reader_run]. assert (reader_turn (mutation_frame m) handle = Some (WsClientHandle_new
    (wh_pending_requests handle) (wh_replies handle) (wh_received_snapshots handle) (Some (got ++ [m])))) as ->.
  { unfold mutation_frame. cbn [reader_turn]. rewrite decode_encode_frame by done. cbn [N.eqb Pos.eqb MSG_MUTATION_PUSH].
    rewrite from_slice_to_vec by apply Hm. unfold hand_mutation. by rewrite Hgot. }
  cbn [mbind option_bind]. rewrite (IH (got ++ [m])) by done. cbn. by rewrite <-app_assoc.
Qed.

(** Once the subscriber has dropped its stream, the next mutation ends the reader
    task, whatever requests wait for a reply. *)
Theorem mutation_after_drop_ends_reader m ms (handle : WsClientHandle) : frame_fits s_pending m →
  reader_run (mutation_frame m :: ms) (drop_subscription handle) = None ∧
  crate_reader_run (mutation_frame m :: ms) (drop_subscription handle) = None.
Proof.
  intros Hm. split; unfold mutation_frame; cbn [reader_run reader_turn crate_reader_run crate_reader_turn];
    rewrite decode_encode_frame by done; cbn [N.eqb Pos.eqb MSG_MUTATION_PUSH]; by rewrite from_slice_to_vec by apply Hm.
Qed.

(** ** Server-sent events *)

Lemma sse_lines_app line buffer more :
  sse_lines line (buffer ++ more) =
  let '(ms, rest) := sse_lines line buffer in let '(ms', rest') := sse_lines rest more in (ms ++ ms', rest').
Proof.
  revert line. induction buffer as [|b buffer IH]; intros line; cbn [app sse_lines].
  { by destruct (sse_lines line more). }
  destruct (b =? 10)%N; rewrite IH; [|done].
  destruct (sse_lines [] buffer) as [ms rest]. destruct (sse_lines rest more) as [ms' rest']. by rewrite app_assoc.
Qed.

(** What is left in the buffer has no complete line. *)
Lemma sse_lines_rest line buffer : Forall (λ b, b ≠ 10%N) line →
  Forall (λ b, b ≠ 10%N) (sse_lines line buffer).2.
Proof.
  revert line. induction buffer as [|b buffer IH]; intros line Hl; [done|]. cbn [sse_lines].
  destruct (N.eqb_spec b 10) as [->|Hb].
  - specialize (IH [] (List.Forall_nil _)). by destruct (sse_lines [] buffer).
  - apply IH, Forall_app. split; [done|by apply Forall_singleton].
Qed.

Lemma sse_lines_prefix prefix line buffer : Forall (λ b, b ≠ 10%N) prefix →
  sse_lines line (prefix ++ buffer) = sse_lines (line ++ prefix) buffer.
Proof.
  intros Hp. revert line. induction Hp as [|b prefix Hb _ IH]; intros line; [by rewrite app_nil_r|].
  cbn [app sse_lines]. apply N.eqb_neq in Hb as ->. by rewrite IH, <-app_assoc.
Qed.

(** A buffer without a complete line, as every chunk leaves it. *)
Definition no_line (s : sse_state) : Prop := Forall (λ b, b ≠ 10%N) (se_buffer s).

Lemma sse_chunk_no_line c s : no_line (sse_chunk c s).
Proof.
  unfold sse_chunk, no_line. pose proof (sse_lines_rest [] (se_buffer s ++ c) (List.Forall_nil _)) as Hr.
  by destruct (sse_lines [] (se_buffer s ++ c)).
Qed.

Lemma sse_chunk_nil s : no_line s → sse_chunk [] s = s.
Proof.
  destruct s as [buffer after sent]. unfold no_line, sse_chunk. cbn [se_buffer se_after se_sent]. intros Hb.
  rewrite sse_lines_prefix by done. cbn. by rewrite app_nil_r.
Qed.

Lemma sse_chunk_app c d s : sse_chunk (c ++ d) s = sse_chunk d (sse_chunk c s).
Proof.
  pose proof (sse_chunk_no_line c s) as Hb. unfold no_line in Hb.
  unfold sse_chunk in *. rewrite app_assoc, sse_lines_app.
  destruct (sse_lines [] (se_buffer s ++ c)) as [ms rest]. cbn [se_buffer se_after se_sent] in *.
  rewrite (sse_lines_prefix rest [] d) by done. cbn [app].
  destruct (sse_lines rest d) as [ms' rest']. by rewrite foldl_app, app_assoc.
Qed.

(** How the network cuts a stream of events into chunks makes no difference:
    a connection that delivers its bytes in any sequence of chunks leaves the
    task in the state, and the subscriber with the mutations, that the same
    bytes leave in one piece. *)
Theorem sse_chunks_irrelevant chunks after sent :
  foldl (λ s chunk, sse_chunk chunk s) (Sse [] after sent) chunks = sse_chunk (concat chunks) (Sse [] after sent).
Proof.
  assert (no_line (Sse [] after sent)) as Hs by constructor. revert Hs. generalize (Sse [] after sent).
  induction chunks as [|c chunks IH]; intros s Hs; cbn [foldl concat]; [by rewrite sse_chunk_nil|].
  by rewrite sse_chunk_app, IH by apply sse_chunk_no_line.
Qed.
End client.

(** ** The client of the sample server, with a WebSocket *)

#[local] Existing Instance plain_hash.
#[local] Existing Instance tagged_json.
#[local] Existing Instance tagged_json_spec.
#[local] Existing Instance plain_axum.
#[local] Existing Instance plain_axum_spec.
#[local] Existing Instance plain_stack.
#[local] Existing Instance plain_stack_spec.
#[local] Existing Instance sample_codec.

(** A socket of the namespace [n], of the replica [r]. *)
Definition sample_socket : HttpCoordinator (server_link InMemoryCoordinator.t MemoryTokenStore.t stream) :=
  HttpCoordinator_new "http://s/" (Some "t") (Some (WsClientHandle_new ∅ ∅ [] (Some []))) 1
    (ServerLink sample_world (Running "r" None) 1 "n" 0 0).

Lemma size_nat_bound k p : (N.pos p < 2 ^ N.of_nat k)%N → Pos.size_nat p ≤ k.
Proof.
  revert p. induction k as [|k IH]; intros p Hp; [simpl in Hp; lia|].
  rewrite Nat2N.inj_succ, N.pow_succ_r' in Hp.
  destruct p as [p|p|]; cbn [Pos.size_nat]; [apply le_n_S, IH; lia..|lia].
Qed.

Lemma length_varint n : (n ≤ U64_MAX)%N → length (varint n) ≤ 65.
Proof.
  assert (∀ fuel m, length (varint_groups fuel m) ≤ S fuel) as Hg.
  { induction fuel as [|fuel IH]; intros m; cbn; [lia|]. destruct (m <? 128)%N; cbn; [lia|].
    specialize (IH (m / 128)%N). lia. }
  intros Hn. transitivity (S (N.size_nat n)); [apply Hg|]. apply le_n_S. destruct n as [|p]; [cbn; lia|].
  apply (size_nat_bound 64). eapply N.le_lt_trans; [exact Hn|reflexivity].
Qed.

Lemma sample_ack_fits s : fits s_u64 s → frame_fits s_push_ack (PushAckPayload_new "q" [s] None).
Proof.
  intros Hs. split; [split; [split; [exact I|by apply Forall_singleton]|exact I]|]. 
  pose proof (length_varint s Hs) as Hl.
  change (to_value _ _) with (JObj [("request_id", JStr "q"); ("sequences", JArr [JNum s]); ("error", JNull)]).
  assert (length (to_vec (JObj [("request_id", JStr "q"); ("sequences", JArr [JNum s]); ("error", JNull)])) =
    length (to_vec (JObj [("request_id", JStr "q"); ("sequences", JArr []); ("error", JNull)])) + 1 + length (varint s)) as ->.
  { cbn -[varint]. rewrite !length_app. cbn [length]. rewrite !length_app. cbn [length].
    change (length (varint (N.of_nat 0))) with (length (varint (N.of_nat 1))). rewrite app_nil_r. lia. }
  change (length (to_vec _)) with 35. lia.
Qed.

Lemma sample_mutation_fits : Forall (fits s_encrypted) [sample_mutation].
Proof. apply Forall_singleton. vm_compute. repeat split; try discriminate. apply Forall_singleton. discriminate. Qed.

Lemma socket_push_fits : push_frames_fit "q" [sample_mutation].
Proof.
  split.
  - split; [split; [exact I|exact sample_mutation_fits]|vm_compute; reflexivity].
  - intros [|s [|]] Hl Hf; try discriminate Hl. apply sample_ack_fits. by apply (proj1 (Forall_singleton _ _)).
Qed.

Lemma socket_pull_fits : pull_frames_fit "q" "other" 0 10 [].
Proof.
  split; split; [|vm_compute; reflexivity| |vm_compute; reflexivity].
  - vm_compute. repeat split; discriminate.
  - split; [split; [exact I|constructor]|exact I].
Qed.

Lemma websocket_calls_use_its_namespace_witness :
  ∃ h', http_push (HL := server_network (λ _, "") (λ _, "q")) (λ _, "") "other" [sample_mutation] sample_socket =
      (Ok [1%N], h') ∧ co_log "other" (as_coordinator (w_app (w_of h'))) = [].
Proof.
  destruct (websocket_calls_use_its_namespace (λ _, "") (λ _, "q") (λ _, "") 0 "other" [sample_mutation] 0 10
    sample_socket) as [(seqs & h' & Hp & Hal & Hoth) _].
  - split; [by eexists|by eexists _, _|reflexivity|apply not_elem_of_empty|by apply (coord_ok_new 1)|constructor].
  - reflexivity.
  - exact socket_push_fits.
  - exact socket_pull_fits.
  - exists h'. vm_compute in Hal. injection Hal as <- _ _. split; [exact Hp|exact (Hoth "other" ltac:(discriminate))].
Defined.

(** The crate's client with a socket for [n], at a server whose one token is [t]. *)
Definition sample_crate : CrateCoordinator (server_link InMemoryCoordinator.t MemoryTokenStore.t stream) :=
  Crate (HttpCoordinator_new "http://s/" (Some "t") (Some (WsClientHandle_new ∅ ∅ [] (Some []))) 1
    (ServerLink (World (AppState_new InMemoryCoordinator.new None (sample_config (Some "t") None) ∅ "g") ∅ ∅ [])
      (Running "r" None) 1 "n" 0 0)) "n".

Lemma crate_calls_keep_namespaces_witness :
  ∃ c', crate_push (HL := server_network (λ _, "") (λ _, "q")) (λ _, "") "other" [sample_mutation] sample_crate =
      (Ok [1%N], c') ∧ co_log "n" (as_coordinator (w_app (w_of (cr_http c')))) = [].
Proof.
  destruct (crate_calls_keep_namespaces (λ _, "") (λ _, "q") (λ _, "") memory_validates 0 "other" [sample_mutation] 0 10
    sample_crate) as [(seqs & c' & Hp & Hal & Hoth) _].
  - split; [by eexists|by eexists _, _|reflexivity|apply not_elem_of_empty|by apply (coord_ok_new 1)|constructor].
  - reflexivity.
  - split; [reflexivity..| |by apply (coord_ok_new 1)|constructor]. by exists (Some (Some "Bearer t")).
  - split; [exact sample_mutation_fits|]. apply small_body. vm_compute. discriminate.
  - split; [reflexivity|vm_compute; discriminate].
  - exact socket_push_fits.
  - exact socket_pull_fits.
  - exists c'. vm_compute in Hal. injection Hal as <- _ _. split; [exact Hp|exact (Hoth "n" ltac:(discriminate))].
Defined.
