(* ===== verification/WsHandshake.v ===== *)
(** * Opening the WebSocket

    [try_connect_ws] of the client against a session of the server: which
    frames are exchanged, when the handshake succeeds and what both sides hold
    afterwards. *)
From S2P Require Import Prelude Text Types Coordinator CoordinatorTheory Document DocumentTheory Opfs Json WsProto TokenStore Server NetSample ServerTheory WsSession WsTheory HttpCoordinator HttpServer HttpTheory WsClientTheory.

Section handshake.
Context {C T : Type} {HC : Coordinator C} {HST : Streams C}.
Context {HT : TokenStore T} {HH : TokenHash} {HTS : TokenStoreSpec T}.
Context {J : JsonText} {JS : JsonTextSpec} {AX : Axum} {K : SnapshotCodec}.
Context {HSK : HttpStack} {HSKS : HttpStackSpec}.
Context (error_debug : CoordinatorError → string) (uuid : nat → string) (hex_byte : N → string).
Hypothesis validate_works : ∀ ns token t, is_ok (validate_token (TokenStore := HT) ns token t).1 = true.

Abbreviation link := (server_link C T stream).
#[local] Instance handshake_network : Link link := server_network error_debug uuid.

(** ** The steps of the server *)

(** The next frame of a channel. *)
Definition answered (ch : nat) (m : list ws_message) (w w' : world C T stream) : Prop :=
  outbox ch w' = outbox ch w ++ m ∧ w_gone w' = w_gone w.

Lemma send_frame_ok {A} ch t (c : serde A) a (w : world C T stream) : ch ∉ w_gone w →
  ∃ w', send_frame ch t c a w = (Ok true, w') ∧ answered ch [Binary (encode_frame t c a)] w w' ∧
    w_app w' = w_app w ∧ w_tasks w' = w_tasks w.
Proof.
  intros Hg. destruct (outbox_send ch (Binary (encode_frame t c a)) w Hg) as (w' & Hs & Ho & (_ & Ht & Hg') & Happ & _).
  exists w'. by split_and!.
Qed.

Lemma ws_validate_granted ns token (w : world C T stream) :
  granted (w_app w) (Some (Some ("Bearer " +:+ token))) ns →
  ∃ w', ws_validate_token ns token w = (Ok true, w') ∧ w_out w' = w_out w ∧ only_sent w w'.
Proof.
  unfold granted, ws_validate_token. destruct (sc_auth_token (as_config (w_app w))) as [g|].
  { intros [= Hg]. change (token = g) in Hg. subst g. rewrite bool_decide_true by done.
    exists w. split_and!; try done. }
  destruct (as_token_store (w_app w)) as [t|] eqn:Ht, (sc_admin_token (as_config (w_app w)));
    try (intros _; exists w; by split_and!).
  intros (token' & [= Htok] & Hh). change (token = token') in Htok. subst token'.
  specialize (validate_works ns token t). destruct (validate_token ns token t) as [r t'] eqn:Hv.
  apply validate_token_exact in Hv as [Hsame Hr]. destruct r as [b|]; [|done].
  unfold held_hash in Hh. rewrite Ht in Hh. cbn in Hh. rewrite bool_decide_true in Hr by done. subst b.
  eexists. split_and!; [done..|]. split_and!; [|done..]. split; [done|]. split; [done..|by rewrite Ht|].
  intros ns'. unfold held_hash. rewrite Ht. apply Hsame.
Qed.

(** The frame of an AUTH message. *)
Lemma ws_auth_accepted u ch auth ns (w : world C T stream) :
  ch ∉ w_gone w → frame_fits s_auth auth → ap_namespace auth = ns →
  granted (w_app w) (Some (Some ("Bearer " +:+ ap_token auth))) ns →
  ∃ w', ws_step error_debug u ch ns AwaitAuth (Received (Binary (encode_frame MSG_AUTH s_auth auth))) w =
      (Ok AwaitRegister, w') ∧
    answered ch [Binary (encode_frame MSG_AUTH_ACK s_auth_ack (AuthAckPayload_new "ok" None u))] w w' ∧ only_sent w w'.
Proof.
  intros Hg Hf Hns Hgr. cbn [ws_step]. unfold ws_auth. rewrite decode_encode_frame by done. cbn [N.eqb Pos.eqb negb MSG_AUTH].
  rewrite from_slice_to_vec by apply Hf. rewrite bool_decide_false by (intros Hne; by destruct Hne).
  destruct (ws_validate_granted _ _ _ Hgr) as (w1 & Hv & Ho1 & Hs1). rewrite (sm_bind_ok _ _ _ _ _ Hv).
  pose proof Hs1 as (Hun & Ht1 & Hg1).
  destruct (send_frame_ok ch MSG_AUTH_ACK s_auth_ack (AuthAckPayload_new "ok" None u) w1) as (w' & Hs & [Ho Hg'] & Happ & Ht);
    [by rewrite Hg1|].
  exists w'. rewrite (sm_bind_ok _ _ _ _ _ Hs). split; [done|]. split.
  - split; [|by rewrite Hg']. rewrite Ho. unfold outbox. by rewrite Ho1.
  - unfold only_sent. rewrite Happ, Ht, Hg'. by split_and!.
Qed.

(** The calls of a registration depend on the coordinator and the generation
    only. *)
Lemma ws_register_replica_frame ns reg (w w1 : world C T stream) res w' :
  ws_register_replica error_debug ns reg w = (Ok res, w') →
  as_coordinator (w_app w1) = as_coordinator (w_app w) → as_generation_id (w_app w1) = as_generation_id (w_app w) →
  ws_register_replica error_debug ns reg w1 =
    (Ok res, set_app (set_coordinator (as_coordinator (w_app w')) (w_app w1)) w1).
Proof.
  unfold ws_register_replica, coord. sm_unfold. intros Hrun Hc Hgen. rewrite Hc.
  destruct (register ns _ _ (as_coordinator (w_app w))) as [[u|e] c1]; cbn in *.
  - destruct (schema_version ns c1) as [v c2]. cbn in *. destruct (list_snapshots ns c2) as [ls c3]. cbn in *.
    rewrite Hgen. injection Hrun as <- <-. done.
  - rewrite Hgen. injection Hrun as <- <-. done.
Qed.

(** The snapshots that a registration is offered: those newer than its cursor, and
    none if the coordinator refuses it. *)
Definition offered (ns : string) (reg : RegisterPayload) (c : C) : list Snapshot :=
  match register ns (ReplicaInfo_new (rp_replica_id reg) ns (rp_public_key reg) (rp_schema_version reg))
    (rp_last_sequence reg) c with
  | (Err _, _) => []
  | (Ok _, c1) =>
      match (list_snapshots ns (schema_version ns c1).2).1 with
      | Ok snaps => newer_snapshots (rp_last_sequence reg) snaps
      | Err _ => []
      end
  end.

Lemma ws_register_replica_offers ns reg (w : world C T stream) ack available w' :
  ws_register_replica error_debug ns reg w = (Ok (ack, available), w') →
  available = offered ns reg (as_coordinator (w_app w)).
Proof.
  unfold ws_register_replica, offered, coord. sm_unfold.
  destruct (register ns _ _ (as_coordinator (w_app w))) as [[u|e] c1]; cbn; [|by intros [= _ <- _]].
  destruct (schema_version ns c1) as [v c2]. cbn. destruct (list_snapshots ns c2) as [[ls|] c3]; cbn; by intros [= _ <- _].
Qed.

Definition snapshot_frames (ns : string) (snaps : list Snapshot) : list ws_message :=
  map (λ s, Binary (encode_frame MSG_SNAPSHOT s_snapshot_payload (snapshot_payload ns s))) snaps.

Lemma send_snapshots_ok ch ns snaps (w : world C T stream) : ch ∉ w_gone w →
  ∃ w', send_snapshots ch ns snaps w = (Ok true, w') ∧ answered ch (snapshot_frames ns snaps) w w' ∧
    w_app w' = w_app w ∧ w_tasks w' = w_tasks w.
Proof.
  revert w. induction snaps as [|s snaps IH]; intros w Hg.
  { exists w. split_and!; try done. split; [by rewrite app_nil_r|done]. }
  destruct (send_frame_ok ch MSG_SNAPSHOT s_snapshot_payload (snapshot_payload ns s) w Hg)
    as (w1 & Hs & [Ho Hg1] & Happ & Ht).
  destruct (IH w1) as (w' & Hrun & [Ho' Hg'] & Happ' & Ht'); [by rewrite Hg1|].
  exists w'. cbn [send_snapshots]. rewrite (sm_bind_ok _ _ _ _ _ Hs). split; [done|].
  rewrite Happ', Ht'. split_and!; [|done..]. split; [|by rewrite Hg']. by rewrite Ho', Ho, <-app_assoc.
Qed.

Lemma ws_register_ok u ch ns reg ack available c' (w : world C T stream) :
  ch ∉ w_gone w → frame_fits s_register reg →
  ws_register_replica error_debug ns reg w = (Ok (ack, available), set_app (set_coordinator c' (w_app w)) w) →
  ∃ w', ws_step error_debug u ch ns AwaitRegister (Received (Binary (encode_frame MSG_REGISTER s_register reg))) w =
      (Ok (Running (rp_replica_id reg) None), w') ∧
    answered ch (Binary (encode_frame MSG_REGISTER_ACK s_register_ack ack) :: snapshot_frames ns available) w w' ∧
    w_tasks w' = w_tasks w ∧
    w_app w' = set_sessions (<[(ns, rp_replica_id reg) := ch]> (as_sessions (w_app w))) (set_coordinator c' (w_app w)).
Proof.
  intros Hg Hf Hreg. cbn [ws_step]. unfold ws_register. rewrite decode_encode_frame by done.
  cbn [N.eqb Pos.eqb negb MSG_REGISTER]. rewrite from_slice_to_vec by apply Hf. rewrite (sm_bind_ok _ _ _ _ _ Hreg).
  destruct (send_frame_ok ch MSG_REGISTER_ACK s_register_ack ack (set_app (set_coordinator c' (w_app w)) w))
    as (w1 & Hs & [Ho Hg1] & Happ & Ht); [done|]. rewrite (sm_bind_ok _ _ _ _ _ Hs).
  destruct (send_snapshots_ok ch ns available w1) as (w2 & Hs2 & [Ho2 Hg2] & Happ2 & Ht2); [by rewrite Hg1|].
  rewrite (sm_bind_ok _ _ _ _ _ Hs2). eexists. split; [done|]. cbn. rewrite Ht2, Ht, Happ2, Happ. split_and!; [|done..].
  split; cbn; [|by rewrite Hg2, Hg1]. change (outbox ch w2 = outbox ch w ++ [Binary (encode_frame MSG_REGISTER_ACK
    s_register_ack ack)] ++ snapshot_frames ns available). by rewrite Ho2, Ho, app_assoc.
Qed.

Definition migration_of (ns : string) (version current : N) : SchemaMigrationPayload :=
  SchemaMigrationPayload_new (if (version =? current)%N then "ok" else "mismatch") current None ns.

Lemma migration_status ns version current :
  bool_decide (mg_status (migration_of ns version current) = "mismatch") = negb (version =? current)%N.
Proof. unfold migration_of. by destruct (version =? current)%N. Qed.

Lemma ws_schema_ok u ch ns r k p v c' (w : world C T stream) :
  ch ∉ w_gone w → frame_fits s_schema_sync p → schema_version ns (as_coordinator (w_app w)) = (Ok v, c') →
  ∃ w', ws_step error_debug u ch ns (Running r k) (Received (Binary (encode_frame MSG_SCHEMA_SYNC s_schema_sync p))) w =
      (Ok (Running r k), w') ∧
    answered ch [Binary (encode_frame MSG_SCHEMA_MIGRATION s_schema_migration (migration_of ns (sc_version p) v))] w w' ∧
    w_tasks w' = w_tasks w ∧ w_app w' = set_coordinator c' (w_app w).
Proof.
  intros Hg Hf Hv. cbn [ws_step ws_loop]. unfold ws_binary. rewrite decode_encode_frame by done.
  cbn [N.eqb Pos.eqb MSG_SCHEMA_SYNC MSG_PUSH MSG_PULL]. unfold if_parsed. rewrite from_slice_to_vec by apply Hf.
  destruct (send_frame_ok ch MSG_SCHEMA_MIGRATION s_schema_migration (migration_of ns (sc_version p) v)
    (set_app (set_coordinator c' (w_app w)) w)) as (w' & Hs & Ho & Happ & Ht); [done|].
  exists w'. split; [|by rewrite Happ]. unfold schema_reply.
  unfold mbind at 1 2, sm_bind at 1 2. rewrite (sm_bind_ok _ _ _ _ _ (coord_ok_call _ _ _ _ Hv)).
  cbv beta iota zeta. change (SchemaMigrationPayload_new _ v None ns) with (migration_of ns (sc_version p) v).
  by rewrite (sm_bind_ok _ _ _ _ _ Hs).
Qed.

Lemma ws_subscribe_ok u ch ns r p st c' (w : world C T stream) :
  frame_fits s_subscribe p → subscribe ns (sb_after p) (as_coordinator (w_app w)) = (Ok st, c') →
  ws_step error_debug u ch ns (Running r None) (Received (Binary (encode_frame MSG_SUBSCRIBE s_subscribe p))) w =
    (Ok (Running r (Some (length (w_tasks w)))),
     World (set_coordinator c' (w_app w)) (w_out w) (w_gone w) (w_tasks w ++ [SubTask ch (Some st) (Some r) false])).
Proof.
  intros Hf Hs. cbn [ws_step ws_loop]. unfold ws_binary. rewrite decode_encode_frame by done.
  cbn [N.eqb Pos.eqb MSG_SUBSCRIBE MSG_PUSH MSG_PULL MSG_SCHEMA_SYNC]. rewrite from_slice_to_vec by apply Hf.
  unfold subscribe_task, coord. sm_unfold. cbn. by rewrite Hs.
Qed.

(** ** The steps of the client *)

Section socket.
Context (h : HttpCoordinator link) (ch : nat) (ns : string).

(** The client with its socket in a given state. *)
Definition sock (w : world C T stream) (phase : ws_phase) (read ids : nat) : HttpCoordinator link :=
  set_link (ServerLink w phase ch ns read ids) h.

Lemma sock_send {A} t (c : serde A) a w phase phase' w' read ids : phase ≠ Ended →
  ws_step error_debug (uuid ids) ch ns phase (Received (Binary (encode_frame t c a))) w = (Ok phase', w') →
  ws_send_frame t c a (sock w phase read ids) = (Ok tt, sock w' phase' read (S ids)).
Proof.
  intros Hne Hstep. unfold ws_send_frame, or_internal.
  erewrite sm_bind_ok; [|apply on_link_ok; cbn [ws_write handshake_network server_network];
    by refine (write_frame error_debug uuid _ phase' w' (hc_link (sock w phase read ids)) _ _)]. done.
Qed.

Lemma sock_draw w phase read ids :
  surely new_uuid (sock w phase read ids) = (Ok (uuid ids), sock w phase read (S ids)).
Proof. done. Qed.

Lemma sock_read w phase read ids timeout m : outbox ch w !! read = Some m →
  surely (ws_next timeout) (sock w phase read ids) = (Ok (Received m), sock w phase (S read) ids).
Proof. intros Hm. unfold surely. sm_unfold. cbn. unfold read_socket. cbn. by rewrite Hm. Qed.

Lemma sock_expect {A} closed nb describe t (c : serde A) a w phase read ids :
  frame_fits c a → outbox ch w !! read = Some (Binary (encode_frame t c a)) →
  ws_expect closed nb describe t (sock w phase read ids) = (Ok (to_vec (to_value c a)), sock w phase (S read) ids).
Proof.
  intros Hf Hm. unfold ws_expect. rewrite (sm_bind_ok _ _ _ _ _ (sock_read _ _ _ _ _ _ Hm)).
  rewrite decode_encode_frame by done. by rewrite N.eqb_refl.
Qed.

(** A snapshot as the client keeps it. *)
Definition received_snapshot (s : Snapshot) : Snapshot :=
  Snapshot_new (sn_doc_id s) (sn_record_id s) 0 (sn_sequence s) 0 (sn_bytes s) (sn_checksum s).

Definition received (snaps : list Snapshot) : list Snapshot :=
  filterb verify_checksum (map received_snapshot snaps).

Lemma sock_drain fuel w phase read ids snaps :
  length snaps < fuel → Forall (λ s, frame_fits s_snapshot_payload (snapshot_payload ns s)) snaps →
  drop read (outbox ch w) = snapshot_frames ns snaps →
  drain_snapshots fuel (sock w phase read ids) = (Ok (received snaps), sock w phase (length snaps + read) ids).
Proof.
  revert read fuel. induction snaps as [|s snaps IH]; intros read fuel Hfuel Hf Hdrop;
    (destruct fuel as [|fuel]; [simpl in Hfuel; lia|]); cbn [drain_snapshots].
  - assert (outbox ch w !! read = None) as Hnone.
    { apply lookup_ge_None. cbn in Hdrop. apply (f_equal length) in Hdrop. rewrite length_drop in Hdrop. simpl in Hdrop. lia. }
    assert (surely (ws_next true) (sock w phase read ids) = (Ok TimedOut, sock w phase read ids)) as Hn.
    { unfold surely. sm_unfold. cbn. unfold read_socket. cbn. by rewrite Hnone. }
    by rewrite (sm_bind_ok _ _ _ _ _ Hn).
  - apply Forall_cons in Hf as [Hs Hf].
    assert (outbox ch w !! read = Some (Binary (encode_frame MSG_SNAPSHOT s_snapshot_payload (snapshot_payload ns s)))) as Hm.
    { rewrite <-(Nat.add_0_r read), <-lookup_drop, Hdrop. done. }
    rewrite (sm_bind_ok _ _ _ _ _ (sock_read _ _ _ _ _ _ Hm)). rewrite decode_encode_frame by done.
    cbn [N.eqb Pos.eqb MSG_SNAPSHOT]. rewrite (sm_bind_ok _ _ _ _ _ (IH (S read) fuel ltac:(simpl in Hfuel; lia) Hf
      ltac:(rewrite <-Nat.add_1_r, <-drop_drop, Hdrop; done))).
    rewrite from_slice_to_vec by apply Hs. unfold received, filterb. cbn [map List.filter length Nat.add].
    change (payload_snapshot (snapshot_payload ns s)) with (received_snapshot s).
    replace (length snaps + S read) with (S (length snaps + read)) by lia. by destruct (verify_checksum _).
Qed.
End socket.

Lemma after_snapshots ns snaps x y z msgs : msgs = x :: y :: snapshot_frames ns snaps ++ [z] →
  msgs !! (length snaps + 2) = Some z ∧ length msgs = S (length snaps + 2).
Proof.
  intros ->. rewrite <-(length_map (λ s, Binary (encode_frame MSG_SNAPSHOT s_snapshot_payload (snapshot_payload ns s))) snaps).
  rewrite Nat.add_comm. split; [by apply list_lookup_middle|]. cbn. rewrite length_app. simpl. unfold snapshot_frames. lia.
Qed.

Lemma read_json_ok {A} (c : serde A) a (h : HttpCoordinator link) :
  fits c a → read_json c (to_vec (to_value c a)) h = (Ok a, h).
Proof. intros Ha. unfold read_json. by rewrite from_slice_to_vec. Qed.

(** ** The handshake *)

Lemma connect_ok ns (h : HttpCoordinator link) :
  served (trim_slashes (hc_url h)) → url_safe ns = true →
  or_internal (ws_connect (get_ws_url (hc_url h) ns)) h =
    (Ok tt, sock h (S (sl_channel (hc_link h))) ns (w_of h) AwaitAuth 0 (sl_ids (hc_link h))).
Proof.
  intros Hu Hns. unfold or_internal. erewrite sm_bind_ok; [|apply on_link_ok]; [done|].
  cbn [ws_connect handshake_network server_network]. unfold open_socket. rewrite resolve_ws by done.
  unfold serve, handle. cbn [rq_path rq_method]. rewrite route_namespace by done.
  change (namespace_route ns "ws") with (Some (RWs ns)). cbn. unfold sock, w_of, set_app. by destruct (sl_world (hc_link h)).
Qed.

(** What the client sends: the id of its replica, its token and its
    registration. *)
Definition client_replica (h : HttpCoordinator link) : string := "client-" +:+ uuid (sl_ids (hc_link h)).
Definition client_auth (h : HttpCoordinator link) (ns : string) : AuthPayload :=
  AuthPayload_new (default "" (hc_auth_token h)) 1 (client_replica h) ns.
Definition client_registration (h : HttpCoordinator link) (ns : string) (after : N) : RegisterPayload :=
  RegisterPayload_new (client_replica h) ns [] (hc_schema_version h) after 1.

(** The frames of the handshake are in range and shorter than 4 GiB. *)
Record handshake_frames (h : HttpCoordinator link) (ns : string) (after : N) (ack : RegisterAckPayload)
    (available : list Snapshot) (v : N) : Prop := {
  hf_auth : frame_fits s_auth (client_auth h ns);
  hf_auth_ack : frame_fits s_auth_ack (AuthAckPayload_new "ok" None (uuid (S (sl_ids (hc_link h)))));
  hf_register : frame_fits s_register (client_registration h ns after);
  hf_register_ack : frame_fits s_register_ack ack;
  hf_snapshots : Forall (λ s, frame_fits s_snapshot_payload (snapshot_payload ns s)) available;
  hf_sync : frame_fits s_schema_sync (SchemaSyncPayload_new ns (hc_schema_version h));
  hf_migration : frame_fits s_schema_migration (migration_of ns (hc_schema_version h) v);
  hf_subscribe : frame_fits s_subscribe (SubscribePayload_new (uuid (4 + sl_ids (hc_link h))) ns after);
}.

(** The channel that the server gives to the session is new. *)
Definition fresh_channel (h : HttpCoordinator link) : Prop :=
  outbox (S (sl_channel (hc_link h))) (w_of h) = [] ∧ S (sl_channel (hc_link h)) ∉ w_gone (w_of h).

(** C12: The WebSocket handshake of the client with the server completes, on an
    ideal network that delivers every frame within the client's time limits.  The
    server answers at the client's URL and accepts its token for the namespace,
    whose name is made of unreserved URL characters, and the coordinator answers
    the calls for the schema version and the subscription.  If the coordinator
    accepts the registration, the server offers exactly the snapshots newer than
    the client's cursor; if it refuses it, none, and the handshake goes on all the
    same.  If the server's schema version is the client's own, the call succeeds:
    the client ends up with exactly the offered snapshots whose checksum holds and
    with its subscription open; the server runs the session as the client's
    replica and has one more task, which forwards the coordinator's stream from
    the cursor.  If the versions differ, the call fails with [SchemaMismatch] and
    the client keeps the WebSocket, if any, that it had before.  In both cases the
    server finds the replica in its sessions. *)
Theorem handshake_completes fuel ns after (h : HttpCoordinator link) ack available wr v c4 st c5 :
  let ch := S (sl_channel (hc_link h)) in let replica := client_replica h in
  served (trim_slashes (hc_url h)) → url_safe ns = true → fresh_channel h →
  granted (w_app (w_of h)) (Some (Some ("Bearer " +:+ default "" (hc_auth_token h)))) ns →
  ws_register_replica error_debug ns (client_registration h ns after) (w_of h) = (Ok (ack, available), wr) →
  schema_version ns (as_coordinator (w_app wr)) = (Ok v, c4) → subscribe ns after c4 = (Ok st, c5) →
  handshake_frames h ns after ack available v → length available < fuel →
  ∃ h', sl_channel (hc_link h') = ch ∧ sl_ns (hc_link h') = ns ∧
    as_sessions (w_app (w_of h')) !! (ns, replica) = Some ch ∧
    available = offered ns (client_registration h ns after) (as_coordinator (w_app (w_of h))) ∧
    if (hc_schema_version h =? v)%N then
      try_connect_ws hex_byte fuel ns after h = (Ok tt, h') ∧
      hc_ws_client h' = Some (WsClientHandle_new ∅ ∅ (received available) (Some [])) ∧
      sl_phase (hc_link h') = Running replica (Some (length (w_tasks (w_of h)))) ∧
      w_tasks (w_of h') = w_tasks (w_of h) ++ [SubTask ch (Some st) (Some replica) false] ∧
      sl_read (hc_link h') = length (outbox ch (w_of h')) ∧ as_coordinator (w_app (w_of h')) = c5
    else
      try_connect_ws hex_byte fuel ns after h = (Err (Failed SchemaMismatch), h') ∧
      hc_ws_client h' = hc_ws_client h.
Proof.
  intros ch replica Hu Hns [Hempty Hgone] Hgr Hreg Hv Hsub [Fa Faa Fr Fra Fs Fy Fm Fb] Hfuel.
  destruct (ws_auth_accepted (uuid (S (sl_ids (hc_link h)))) ch (client_auth h ns) ns (w_of h) Hgone Fa eq_refl Hgr)
    as (w1 & Hauth & [Ho1 Hg1] & ((Hc1 & [_ _ Hgen1 _ _]) & Ht1 & _)).
  pose proof (ws_register_replica_offers _ _ _ _ _ _ Hreg) as Hoff.
  pose proof (ws_register_replica_frame _ _ _ _ _ _ Hreg Hc1 Hgen1) as Hreg1.
  destruct (ws_register_ok (uuid (2 + sl_ids (hc_link h))) ch ns (client_registration h ns after) ack available
    _ w1 ltac:(by rewrite Hg1) Fr Hreg1) as (w2 & Hregs & [Ho2 Hg2] & Ht2 & Happ2).
  destruct (ws_schema_ok (uuid (3 + sl_ids (hc_link h))) ch ns replica None
    (SchemaSyncPayload_new ns (hc_schema_version h)) v c4 w2) as (w3 & Hsync & [Ho3 Hg3] & Ht3 & Happ3);
    [by rewrite Hg2, Hg1|done|by rewrite Happ2|].
  fold ch in Hempty. rewrite Hempty in Ho1. rewrite Ho1 in Ho2. rewrite Ho2 in Ho3. cbn [app] in Ho1, Ho2, Ho3.
  destruct (after_snapshots _ _ _ _ _ _ Ho3) as [Hlast Hlen].
  set (ids := sl_ids (hc_link h)) in *. set (n := length available).
  unfold try_connect_ws. rewrite (sm_bind_ok sm_get _ h h h eq_refl).
  rewrite (sm_bind_ok _ _ _ _ _ (connect_ok ns h Hu Hns)), (sm_bind_ok _ _ _ _ _ (sock_draw _ _ _ _ _ _ _)). cbv zeta.
  rewrite (sm_bind_ok _ _ _ _ _ (sock_send h ch ns _ _ _ (w_of h) AwaitAuth AwaitRegister w1 0 _ ltac:(done) Hauth)).
  rewrite (sm_bind_ok _ _ _ _ _ (sock_expect h ch ns _ _ _ _ _ _ w1 _ 0 _ Faa ltac:(by rewrite Ho1))).
  rewrite (sm_bind_ok _ _ _ _ _ (read_json_ok _ _ _ (proj1 Faa))). cbn [aa_status]. rewrite bool_decide_true by done.
  cbn [negb].
  rewrite (sm_bind_ok _ _ _ _ _ (sock_send h ch ns _ _ _ w1 AwaitRegister _ w2 1 _ ltac:(done) Hregs)).
  rewrite (sm_bind_ok _ _ _ _ _ (sock_expect h ch ns _ _ _ _ _ _ w2 _ 1 _ Fra ltac:(by rewrite Ho2))).
  rewrite (sm_bind_ok _ _ _ _ _ (sock_drain h ch ns fuel w2 _ 2 _ available Hfuel Fs ltac:(by rewrite Ho2))).
  rewrite (sm_bind_ok _ _ _ _ _ (sock_send h ch ns _ _ _ w2 (Running replica None) _ w3 (n + 2) _
    ltac:(done) Hsync)).
  rewrite (sm_bind_ok _ _ _ _ _ (sock_expect h ch ns _ _ _ _ _ _ w3 _ (n + 2) _ Fm ltac:(exact Hlast))).
  rewrite (sm_bind_ok _ _ _ _ _ (read_json_ok _ _ _ (proj1 Fm))). rewrite migration_status.
  assert (as_sessions (w_app w3) !! (ns, replica) = Some ch) as Hsess.
  { rewrite Happ3, Happ2. cbn. by rewrite lookup_insert_eq. }
  assert (w_tasks w3 = w_tasks (w_of h)) as Ht by congruence.
  destruct (hc_schema_version h =? v)%N; cbn [negb].
  - rewrite (sm_bind_ok _ _ _ _ _ (sock_draw _ _ _ _ _ _ _)).
    pose proof (ws_subscribe_ok (uuid (5 + ids)) ch ns replica (SubscribePayload_new (uuid (4 + ids)) ns after) st c5 w3
      Fb ltac:(by rewrite Happ3)) as Hrun.
    rewrite (sm_bind_ok _ _ _ _ _ (sock_send h ch ns _ _ _ w3 (Running replica None) _ _ (S (n + 2)) _
      ltac:(done) Hrun)).
    eexists. split; [|split; [|split; [|split; [exact Hoff|split; [reflexivity|]]]]]; [done|done|exact Hsess|]. cbn.
    split_and!; [done|by rewrite Ht|by rewrite Ht| |done]. change (S (n + 2) = length (outbox ch w3)). by rewrite Hlen.
  - eexists. split; [|split; [|split; [|split; [exact Hoff|split; [reflexivity|]]]]]; [done|done|exact Hsess|done].
Qed.

(** ** Subscriptions *)

Lemma forwarded_all skip ms : Forall (λ m, skip ≠ Some (pm_replica_id m)) ms → forwarded skip ms = ms.
Proof.
  induction 1 as [|m ms Hm _ IH]; [done|]. rewrite forwarded_cons, IH. unfold forwarded, filterb. cbn [List.filter].
  by rewrite bool_decide_false.
Qed.

(** C30: A subscriber over a WebSocket receives the mutations of its namespace's
    stream in their order, without loss and without repetition, but for those of
    the replica as which its session is registered: when the client subscribes in
    a session that has no subscription yet, the server starts one task; whatever
    the coordinator's stream then yields, the task sends frames from which the
    client's reader task hands the subscriber these mutations and nothing else,
    without touching its pending requests or its snapshots, provided that the
    connection is open and the subscriber has not dropped its stream.  Since
    [try_connect_ws] registers as [client-] and a fresh UUID, and not as the
    replica that the client writes as, the subscriber receives every mutation,
    its own included, unless the replica it writes as has such a name. *)
Theorem subscriber_receives u ch ns r p st c' ms got (w : world C T stream) (handle : WsClientHandle) :
  frame_fits s_subscribe p → subscribe ns (sb_after p) (as_coordinator (w_app w)) = (Ok st, c') →
  ch ∉ w_gone w → Forall (frame_fits s_pending) ms → wh_mutations handle = Some got →
  let k := length (w_tasks w) in
  let read_as seen := Some (WsClientHandle_new (wh_pending_requests handle) (wh_replies handle)
    (wh_received_snapshots handle) (Some (got ++ seen))) in
  ∃ w1 w' frames,
    ws_step error_debug u ch ns (Running r None) (Received (Binary (encode_frame MSG_SUBSCRIBE s_subscribe p))) w =
      (Ok (Running r (Some k)), w1) ∧
    w_tasks w1 = w_tasks w ++ [SubTask ch (Some st) (Some r) false] ∧
    forward_all k ms w1 = (Ok tt, w') ∧ outbox ch w' = outbox ch w ++ frames ∧ as_coordinator (w_app w') = c' ∧
    reader_run frames handle = read_as (filterb (λ m, negb (bool_decide (pm_replica_id m = r))) ms) ∧
    (∀ h, r = client_replica h → Forall (λ m, String.prefix "client-" (pm_replica_id m) = false) ms →
     reader_run frames handle = read_as ms).
Proof.
  intros Hp Hsub Hg Hms Hgot k read_as. pose proof (ws_subscribe_ok u ch ns r p st c' w Hp Hsub) as Hstep.
  set (w1 := World _ _ _ _) in Hstep. set (t := SubTask ch (Some st) (Some r) false) in w1.
  destruct (forward_all_spec k ms t w1) as (w' & Hrun & Ho & Happ); [by apply list_lookup_middle|done|].
  assert (Hread : reader_run (map mutation_frame (forwarded (Some r) ms)) handle = read_as (forwarded (Some r) ms)).
  { apply reader_run_mutations; [|done]. unfold forwarded. rewrite Forall_forall in *. intros m [_ Hm]%elem_of_filterb. auto. }
  exists w1, w', (map mutation_frame (forwarded (Some r) ms)). split_and!; [done..|by rewrite Happ| |].
  - rewrite Hread. unfold read_as, forwarded. do 4 f_equal. apply filterb_ext. intros m _. f_equal.
    apply bool_decide_ext. naive_solver.
  - intros h -> Hother. rewrite Hread, forwarded_all; [done|]. apply (Forall_impl _ _ _ Hother).
    intros m Hm [= Heq]. unfold client_replica in Heq. rewrite <-Heq in Hm. by destruct (uuid _).
Qed.
End handshake.

(** ** The handshake of the sample client *)

#[local] Existing Instance plain_hash.
#[local] Existing Instance tagged_json.
#[local] Existing Instance tagged_json_spec.
#[local] Existing Instance plain_axum.
#[local] Existing Instance plain_axum_spec.
#[local] Existing Instance sample_codec.
#[local] Existing Instance plain_stack.
#[local] Existing Instance plain_stack_spec.

Definition sample_registered :=
  ws_register_replica (λ _, "") "n" (client_registration (λ _, "q") sample_client "n" 0) sample_world.
Definition sample_ack : RegisterAckPayload := RegisterAckPayload_new "ok" 0 false 0 None None "g" false 0.

Lemma handshake_completes_witness :
  ∃ h', try_connect_ws (HL := server_network (λ _, "") (λ _, "q")) (λ _, "") 1 "n" 0 sample_client = (Ok tt, h') ∧
    w_tasks (w_of h') = [SubTask 1 (Some (Subscribe.subscribe "n" 0 (as_coordinator (w_app sample_registered.2))))
      (Some "client-q") false].
Proof.
  set (c := as_coordinator (w_app sample_registered.2)).
  destruct (handshake_completes (λ _, "") (λ _, "q") (λ _, "") memory_validates 1 "n" 0 sample_client sample_ack []
    sample_registered.2 0 c (Subscribe.subscribe "n" 0 c) c) as (h' & _ & _ & _ & _ & Hrun & _ & _ & Ht & _).
  - reflexivity.
  - reflexivity.
  - split; [reflexivity|apply not_elem_of_empty].
  - exists "t". split; reflexivity.
  - vm_compute. reflexivity.
  - vm_compute. reflexivity.
  - reflexivity.
  - split; [..|constructor| | |]; (split; [vm_compute; repeat split; (discriminate || constructor)|vm_compute; reflexivity]).
  - repeat constructor.
  - exists h'. split; [exact Hrun|exact Ht].
Defined.

(** The client of the replica [r] gets its own mutation, registered as [client-q]. *)
Lemma subscriber_receives_witness :
  let own := InMemoryCoordinator.to_pending "n" 1 sample_mutation in
  let other := InMemoryCoordinator.to_pending "n" 2 (EncryptedMutation_new "m2" "n" "s" "d" "1" [8%N] 6 1 1) in
  let w : world InMemoryCoordinator.t MemoryTokenStore.t stream := World sample_server ∅ ∅ [] in
  ∃ (w1 w' : world InMemoryCoordinator.t MemoryTokenStore.t stream) frames, forward_all 0 [own; other] w1 = (Ok tt, w') ∧ outbox 1 w' = outbox 1 w ++ frames ∧
    reader_run frames (WsClientHandle_new ∅ ∅ [] (Some [])) = Some (WsClientHandle_new ∅ ∅ [] (Some [own; other])).
Proof.
  intros own other w. set (p := SubscribePayload_new "q" "n" 0).
  set (c := as_coordinator sample_server).
  destruct (subscriber_receives (HST := in_memory_streams) (λ _, "") (λ _, "q") "u" 1 "n" "client-q" p
    (Subscribe.subscribe "n" 0 c) c [own; other] [] w
    (WsClientHandle_new ∅ ∅ [] (Some []))) as (w1 & w' & frames & _ & _ & Hrun & Ho & _ & _ & Hall).
  - split; [vm_compute; repeat split; discriminate|vm_compute; reflexivity].
  - reflexivity.
  - apply not_elem_of_empty.
  - apply Forall_cons_2; [|apply Forall_cons_2; [|constructor]]; (split; [|vm_compute; reflexivity]);
      vm_compute; repeat split; try discriminate; apply Forall_singleton; discriminate.
  - reflexivity.
  - exists w1, w', frames. split; [exact Hrun|]. split; [exact Ho|]. apply (Hall sample_client); [reflexivity|].
    by repeat constructor.
Defined.
