(* ===== verification/MuxTheory.v ===== *)
(** * The multiplexing coordinator, end to end

    The client of [MuxCoordinator] and a session of [ws_mux.rs] together: the
    calls of all namespaces are those of their logs, what arrives is sorted
    into the streams of the subscribers, and a lost connection resumes where it
    broke off. *)
From S2P Require Import Prelude Text Types Coordinator CoordinatorTheory Document DocumentTheory Opfs Json WsProto TokenStore Server ServerTheory WsSession WsTheory HttpCoordinator HttpServer MuxCoordinator NetSample HttpTheory WsClientTheory WsHandshake.

Section mux.
Context {C T : Type} {HC : Coordinator C} {HCS : CoordinatorSpec C} {HST : Streams C}.
Context {HT : TokenStore T} {HH : TokenHash} {HTS : TokenStoreSpec T}.
Context {J : JsonText} {JS : JsonTextSpec} {AX : Axum} {K : SnapshotCodec}.
Context {HSK : HttpStack} {HSKS : HttpStackSpec}.
Context (error_debug : CoordinatorError → string) (uuid : nat → string) (status_display : StatusCode → string).

Abbreviation link := (mux_link C T stream).
#[local] Instance mux_net : Link link := mux_network error_debug uuid.

Definition mux_base (c : MuxCoordinator link) : server_link C T stream := ml_base (mu_link c).
Definition mux_world (c : MuxCoordinator link) : world C T stream := sl_world (mux_base c).
Definition mux_log (c : MuxCoordinator link) : C := as_coordinator (w_app (mux_world c)).

(** A client whose socket is open, with a session whose messages have all been
    read, and a coordinator with room for [n] more mutations. *)
Record mux_up (n : nat) (c : MuxCoordinator link) : Prop := {
  mu_up : mu_connected c = true;
  mu_session : is_Some (ml_session (mu_link c));
  mu_read : sl_read (mux_base c) = length (outbox (sl_channel (mux_base c)) (mux_world c));
  mu_open : sl_channel (mux_base c) ∉ w_gone (mux_world c);
  mu_ready : co_ready n (mux_log c);
  mu_fits ns : Forall (fits s_pending) (co_log ns (mux_log c));
}.

Lemma mux_on_link_ok {A} (m : SM link string A) (c : MuxCoordinator link) a l :
  m (mu_link c) = (Ok a, l) → mux_on_link m c = (Ok (Ok a), set_mux_link l c).
Proof. intros Hm. unfold mux_on_link. sm_unfold. by rewrite Hm. Qed.

(** A frame that the session handles. *)
Lemma mux_write_ok {A} t (s : serde A) a (c : MuxCoordinator link) mx mx' w' :
  ml_session (mu_link c) = Some mx →
  mux_step error_debug (sl_channel (mux_base c)) mx (Received (Binary (encode_frame t s a))) (mux_world c) =
    (Ok mx', w') →
  mux_write t s a c = (Ok (Ok tt), set_mux_link (MuxLink (set_world w' (mux_base c)) mx') c).
Proof.
  intros Hmx Hstep. unfold mux_write. apply mux_on_link_ok. cbn [ws_write mux_net mux_network]. unfold write_mux.
  rewrite Hmx. unfold mux_world, mux_base in *. by rewrite Hstep.
Qed.

(** The reader task takes what the session has sent. *)
Lemma mux_arrivals_run msgs (c : MuxCoordinator link) :
  drop (sl_read (mux_base c)) (outbox (sl_channel (mux_base c)) (mux_world c)) = msgs →
  mux_arrivals c = mux_reader_run msgs (set_mux_link (MuxLink (ServerLink (mux_world c) (sl_phase (mux_base c))
    (sl_channel (mux_base c)) (sl_ns (mux_base c)) (length (outbox (sl_channel (mux_base c)) (mux_world c)))
    (sl_ids (mux_base c))) (ml_session (mu_link c))) c).
Proof. intros <-. done. Qed.

(** A reply is handed to the request that waits for it. *)
Lemma mux_reader_reply {A} t (s : serde A) (a : A) req (c : MuxCoordinator link) :
  frame_fits s a → get_str "request_id" (to_value s a) = Some req → req ∈ mh_pending_requests (mu_handle c) →
  t ∉ [MSG_MUTATION_PUSH; MSG_SNAPSHOT; MSG_NAMESPACE_ACK; MSG_SCHEMA_MIGRATION] →
  mux_reader_turn (Binary (encode_frame t s a)) c =
    (Ok true, set_mux_handle (with_requests (mh_pending_requests (mu_handle c) ∖ {[req]})
      (<[req := encode_frame t s a]> (mh_replies (mu_handle c))) (mu_handle c)) c).
Proof.
  intros Hf Hreq Hin Ht. rewrite !not_elem_of_cons in Ht. destruct Ht as (H1 & H2 & H3 & H4 & _).
  apply N.eqb_neq in H1, H2, H3, H4. cbn [mux_reader_turn]. rewrite decode_encode_frame by done.
  rewrite H1, H2, H3, H4. unfold take_reply. rewrite parse_to_vec. cbn [mbind option_bind]. rewrite Hreq.
  sm_unfold. unfold with_handle. sm_unfold. by rewrite bool_decide_true.
Qed.

Lemma with_handle_ok f (c : MuxCoordinator link) : with_handle f c = (Ok tt, set_mux_handle (f (mu_handle c)) c).
Proof. done. Qed.

Lemma mux_draw (c : MuxCoordinator link) :
  let b := mux_base c in
  mux_surely new_uuid c = (Ok (uuid (sl_ids b)), set_mux_link (MuxLink (ServerLink (sl_world b) (sl_phase b)
    (sl_channel b) (sl_ns b) (sl_read b) (S (sl_ids b))) (ml_session (mu_link c))) c).
Proof. done. Qed.

(** A request whose frame makes the session send one reply. *)
Lemma mux_request_replied {A B} t (s : serde A) (payload : string → A) t' (s' : serde B) b
    (c : MuxCoordinator link) mx w' :
  let ch := sl_channel (mux_base c) in let req := uuid (sl_ids (mux_base c)) in
  mu_connected c = true → ml_session (mu_link c) = Some mx → sl_read (mux_base c) = length (outbox ch (mux_world c)) →
  mux_step error_debug ch mx (Received (Binary (encode_frame t s (payload req)))) (mux_world c) = (Ok (Some mx), w') →
  outbox ch w' = outbox ch (mux_world c) ++ [Binary (encode_frame t' s' b)] →
  frame_fits s' b → get_str "request_id" (to_value s' b) = Some req →
  t' ∉ [MSG_MUTATION_PUSH; MSG_SNAPSHOT; MSG_NAMESPACE_ACK; MSG_SCHEMA_MIGRATION] →
  ∃ c', mux_request t s payload c = (Ok (Some (encode_frame t' s' b)), c') ∧ mu_connected c' = true ∧
    mux_world c' = w' ∧ ml_session (mu_link c') = Some mx ∧ sl_channel (mux_base c') = ch ∧
    sl_read (mux_base c') = length (outbox ch w').
Proof.
  intros ch req Hup Hmx Hread Hstep Hout Hf Hreq Ht.
  set (base := ServerLink (mux_world c) (sl_phase (mux_base c)) ch (sl_ns (mux_base c)) (sl_read (mux_base c))
    (S (sl_ids (mux_base c)))).
  set (c1 := set_mux_handle (with_requests ({[req]} ∪ mh_pending_requests (mu_handle c)) (mh_replies (mu_handle c))
    (mu_handle c)) (set_mux_link (MuxLink base (ml_session (mu_link c))) c)).
  pose proof (mux_write_ok t s (payload req) c1 mx (Some mx) w' Hmx Hstep) as Hwrite.
  set (c2 := set_mux_link _ c1) in Hwrite.
  unfold mux_request. rewrite (sm_bind_ok _ _ _ true c) by (sm_unfold; by rewrite Hup).
  rewrite (sm_bind_ok _ _ _ _ _ (mux_draw c)). cbv zeta.
  rewrite (sm_bind_ok _ _ _ _ _ (with_handle_ok _ _)). change (set_mux_handle _ _) with c1.
  rewrite (sm_bind_ok _ _ _ _ _ Hwrite).
  pose proof (mux_arrivals_run [Binary (encode_frame t' s' b)] c2) as Harr.
  change (outbox (sl_channel (mux_base c2)) (mux_world c2)) with (outbox ch w') in Harr.
  change (sl_read (mux_base c2)) with (sl_read (mux_base c)) in Harr. rewrite Hread, Hout, drop_app_length in Harr.
  specialize (Harr eq_refl). cbn [mux_reader_run] in Harr. set (c3 := set_mux_link _ c2) in Harr.
  rewrite (sm_bind_ok _ _ _ _ _ (mux_reader_reply t' s' b req c3 Hf Hreq ltac:(cbn; set_solver) Ht)) in Harr.
  rewrite (sm_bind_ok _ _ _ _ _ Harr). eexists. split; [sm_unfold; cbn; by rewrite lookup_insert_eq|].
  split_and!; [exact Hup|done..|by rewrite Hout].
Qed.

Lemma mux_step_push ch mx req m ms ns (w w' : world C T stream) :
  let p := PushPayload_new req (m :: ms) in
  frame_fits s_push p → em_namespace m = ns → ns ≠ "" → push_reply error_debug ch ns p w = (Ok tt, w') →
  mux_step error_debug ch mx (Received (Binary (encode_frame MSG_PUSH s_push p))) w = (Ok (Some mx), w').
Proof.
  intros p Hf Hm Hne Hp. cbn [mux_step]. unfold mux_binary. rewrite decode_encode_frame by done.
  cbn [N.eqb Pos.eqb MSG_PUSH MSG_NAMESPACE_ADD MSG_NAMESPACE_DROP]. unfold if_parsed.
  rewrite from_slice_to_vec by apply Hf. unfold mux_push. cbn [pp_mutations p]. rewrite Hm.
  rewrite bool_decide_false by done. sm_unfold. by rewrite Hp.
Qed.

Lemma mux_step_pull ch mx p (w w' : world C T stream) :
  frame_fits s_pull p → pull_reply error_debug ch (pl_namespace p) p w = (Ok tt, w') →
  mux_step error_debug ch mx (Received (Binary (encode_frame MSG_PULL s_pull p))) w = (Ok (Some mx), w').
Proof.
  intros Hf Hp. cbn [mux_step]. unfold mux_binary. rewrite decode_encode_frame by done.
  cbn [N.eqb Pos.eqb MSG_PULL MSG_PUSH MSG_NAMESPACE_ADD MSG_NAMESPACE_DROP]. unfold if_parsed.
  rewrite from_slice_to_vec by apply Hf. sm_unfold. by rewrite Hp.
Qed.

Lemma mux_push_ok n ns m ms (c : MuxCoordinator link) :
  mux_up (S (length ms) + n) c → em_namespace m = ns → ns ≠ "" →
  push_frames_fit (uuid (sl_ids (mux_base c))) (m :: ms) →
  ∃ seqs c', mux_client_push status_display ns (m :: ms) c = (Ok seqs, c') ∧
    alog_push ns (m :: ms) (co_next (mux_log c)) (co_log ns (mux_log c)) =
      (seqs, co_log ns (mux_log c'), co_next (mux_log c')) ∧
    (∀ ns', ns' ≠ ns → co_log ns' (mux_log c') = co_log ns' (mux_log c)) ∧ mux_up n c'.
Proof.
  intros [Hup [mx Hmx] Hread Hopen Hready Hfits] Hm Hne [Hpf Hack].
  set (req := uuid (sl_ids (mux_base c))) in *.
  destruct (push_reply_spec error_debug n (sl_channel (mux_base c)) ns (PushPayload_new req (m :: ms)) (mux_world c))
    as (w' & seqs & Hrep & Hal & Hoth & Hr' & Hg & Hout); [done..|]. cbn [pp_mutations pp_request_id] in *.
  assert (Forall (fits s_pending) (co_log ns (as_coordinator (w_app w')))) as Hf'.
  { eapply alog_push_fits; [exact Hal| |apply Hpf|apply Hfits]. apply Forall_forall. intros pm Hpm.
    destruct (co_entry _ _ _ _ Hr' Hpm). lia. }
  pose proof (alog_push_extends _ _ _ _ _ _ _ Hal) as [_ Hlen%Forall2_length].
  pose proof (Hack seqs (eq_sym Hlen) (alog_push_seqs_fit _ _ _ _ _ _ _ Hal Hf')) as Hackf.
  destruct (mux_request_replied MSG_PUSH s_push (λ req, PushPayload_new req (m :: ms)) MSG_PUSH_ACK s_push_ack
    (PushAckPayload_new req seqs None) c mx w') as (c' & Hreq & Hup' & Hw' & Hmx' & Hch' & Hrd');
    [done..|by eapply mux_step_push|done|done|by rewrite push_ack_request_id|compute_done|].
  exists seqs, c'. split.
  - unfold mux_client_push. rewrite (sm_bind_ok _ _ _ _ _ Hreq). unfold reply_payload. rewrite decode_encode_frame by done.
    cbn [N.eqb Pos.eqb MSG_PUSH_ACK]. by rewrite from_slice_to_vec by apply Hackf.
  - unfold mux_log in *. rewrite Hw'. split_and!; [done..|].
    split; unfold mux_log in *; rewrite ?Hw', ?Hch'; [done|by exists mx|done|by rewrite Hg|done|].
    intros ns'. destruct (decide (ns' = ns)) as [->|Hns]; [done|]. by rewrite Hoth.
Qed.

Lemma mux_pull_ok n ns after limit (c : MuxCoordinator link) :
  let ms := alog_pull after limit (co_log ns (mux_log c)) in
  mux_up n c → (after < U64_MAX)%N → pull_frames_fit (uuid (sl_ids (mux_base c))) ns after limit ms →
  ∃ c', mux_client_pull status_display ns after limit c = (Ok ms, c') ∧ mux_log c' = mux_log c ∧ mux_up n c'.
Proof.
  intros ms [Hup [mx Hmx] Hread Hopen Hready Hfits] Ha [Hpf Hrf]. set (req := uuid (sl_ids (mux_base c))) in *.
  destruct (pull_reply_spec error_debug n (sl_channel (mux_base c)) ns (PullPayload_new req ns after limit) (mux_world c))
    as (w' & Hrep & Hc & Hg & Hout); [done..|]. cbn [pl_after pl_limit pl_request_id] in *.
  destruct (mux_request_replied MSG_PULL s_pull (λ req, PullPayload_new req ns after limit) MSG_PULL_RESPONSE
    s_pull_response (PullResponsePayload_new req ms (length ms =? limit)) c mx w')
    as (c' & Hreq & Hup' & Hw' & Hmx' & Hch' & Hrd');
    [done..|by apply mux_step_pull|done|done|by rewrite pull_response_request_id|compute_done|].
  exists c'. split.
  - unfold mux_client_pull. rewrite (sm_bind_ok _ _ _ _ _ Hreq). unfold reply_payload. rewrite decode_encode_frame by done.
    cbn [N.eqb Pos.eqb MSG_PULL_RESPONSE]. by rewrite from_slice_to_vec by apply Hrf.
  - unfold mux_log in *. rewrite Hw', Hc. split; [done|]. split; unfold mux_log in *; rewrite ?Hw', ?Hch', ?Hc;
      [done|by exists mx|done|by rewrite Hg|done..].
Qed.

(** ** Calls of several namespaces *)

(** The logs of all namespaces, after the log of one has changed. *)
Definition set_log (ns : string) (log : list PendingMutation) (logs : string → list PendingMutation) :
    string → list PendingMutation := λ ns', if decide (ns' = ns) then log else logs ns'.

(** The answers of the abstract logs, and their contents afterwards. *)
Fixpoint alogs_calls (cs : list (string * net_call)) (next : N) (logs : string → list PendingMutation) :
    list net_result * (string → list PendingMutation) :=
  match cs with
  | [] => ([], logs)
  | (ns, NPush ms) :: cs =>
      let '(seqs, log, next') := alog_push ns ms next (logs ns) in
      let '(rs, logs') := alogs_calls cs next' (set_log ns log logs) in (Pushed seqs :: rs, logs')
  | (ns, NPull after limit) :: cs =>
      let '(rs, logs') := alogs_calls cs next logs in (Pulled (alog_pull after limit (logs ns)) :: rs, logs')
  end.

(** The frames of the calls are in range and shorter than 4 GiB; a batch is not
    empty and its first mutation is of the namespace. *)
Fixpoint mux_calls_fit (cs : list (string * net_call)) (next : N) (logs : string → list PendingMutation) : Prop :=
  match cs with
  | [] => True
  | (ns, NPush ms) :: cs =>
      let '(_, log, next') := alog_push ns ms next (logs ns) in
      em_namespace <$> head ms = Some ns ∧ ns ≠ "" ∧ (∀ i, push_frames_fit (uuid i) ms) ∧
      mux_calls_fit cs next' (set_log ns log logs)
  | (ns, NPull after limit) :: cs =>
      (after < U64_MAX)%N ∧ (∀ i, pull_frames_fit (uuid i) ns after limit (alog_pull after limit (logs ns))) ∧
      mux_calls_fit cs next logs
  end.

Fixpoint mux_calls (cs : list (string * net_call)) : SM (MuxCoordinator link) halt (list net_result) :=
  match cs with
  | [] => mret []
  | (ns, NPush ms) :: cs =>
      seqs ← mux_client_push status_display ns ms;
      rs ← mux_calls cs;
      mret (Pushed seqs :: rs)
  | (ns, NPull after limit) :: cs =>
      ms ← mux_client_pull status_display ns after limit;
      rs ← mux_calls cs;
      mret (Pulled ms :: rs)
  end.

(** C13: Over one multiplexed WebSocket, the client and the server together are
    the logs of all namespaces: for every sequence of pushes and pulls, of any
    namespaces in any order, each call succeeds with what the abstract log of its
    namespace answers, and the coordinator ends with the contents of those logs.
    A batch must not be empty, and its first mutation must carry the namespace,
    since that is where the server takes the namespace of a push from. *)
Theorem mux_coordinator_refines_logs cs (c : MuxCoordinator link) logs :
  mux_up (calls_room (map snd cs)) c → (∀ ns, co_log ns (mux_log c) = logs ns) →
  mux_calls_fit cs (co_next (mux_log c)) logs →
  ∃ c', mux_calls cs c = (Ok (alogs_calls cs (co_next (mux_log c)) logs).1, c') ∧
    ∀ ns, co_log ns (mux_log c') = (alogs_calls cs (co_next (mux_log c)) logs).2 ns.
Proof.
  revert c logs. induction cs as [|[ns [ms|after limit]] cs IH]; intros c logs Hup Hlogs Hfit; [by exists c| |].
  - cbn [mux_calls alogs_calls mux_calls_fit] in *.
    destruct (alog_push ns ms (co_next (mux_log c)) (logs ns)) as [[seqs0 log] next'] eqn:Hal.
    destruct Hfit as (Hm & Hne & Hff & Hfit). destruct ms as [|m ms]; [done|]. injection Hm as Hm.
    destruct (mux_push_ok (calls_room (map snd cs)) ns m ms c Hup Hm Hne (Hff _))
      as (seqs & c1 & Hpush & Hal' & Hoth & Hup1).
    rewrite Hlogs, Hal in Hal'. injection Hal' as -> -> ->.
    destruct (IH c1 (set_log ns (co_log ns (mux_log c1)) logs) Hup1) as (c' & Hrun & Hl'); [|done|].
    { intros ns'. unfold set_log. case_decide as Hns; [by subst|]. by rewrite Hoth. }
    exists c'. rewrite (sm_bind_ok _ _ _ _ _ Hpush), (sm_bind_ok _ _ _ _ _ Hrun).
    by destruct (alogs_calls cs _ _) as [rs logs'].
  - cbn [mux_calls alogs_calls mux_calls_fit] in *. destruct Hfit as (Ha & Hff & Hfit). rewrite <-Hlogs in Hff.
    destruct (mux_pull_ok _ ns after limit c Hup Ha (Hff _)) as (c1 & Hpull & Hc1 & Hup1).
    destruct (IH c1 logs Hup1) as (c' & Hrun & Hl'); [by rewrite Hc1|by rewrite Hc1|].
    exists c'. rewrite Hc1 in *. rewrite (sm_bind_ok _ _ _ _ _ Hpull), (sm_bind_ok _ _ _ _ _ Hrun), <-Hlogs.
    by destruct (alogs_calls cs _ _) as [rs logs'].
Qed.

(** ** Streams *)

Definition of_namespace (ns : string) (ms : list PendingMutation) : list PendingMutation :=
  filterb (λ m, bool_decide (pm_namespace m = ns)) ms.

(** Each subscriber has a stream of its own. *)
Definition streams_apart (c : MuxCoordinator link) : Prop :=
  (∀ ns k, mh_namespace_txs (mu_handle c) !! ns = Some k → k < length (mu_streams c)) ∧
  (∀ ns ns' k, mh_namespace_txs (mu_handle c) !! ns = Some k → mh_namespace_txs (mu_handle c) !! ns' = Some k → ns = ns').

(** What the reader task makes of one mutation. *)
Definition received_one (m : PendingMutation) (c : MuxCoordinator link) : MuxCoordinator link :=
  let c := set_mux_active (alter (advance (pm_sequence m)) (pm_namespace m) (mu_active c)) c in
  match mh_namespace_txs (mu_handle c) !! pm_namespace m with
  | Some k => set_mux_streams (alter (λ ms, ms ++ [m]) k (mu_streams c)) c
  | None => c
  end.

Lemma mux_reader_mutation m (c : MuxCoordinator link) : frame_fits s_pending m →
  mux_reader_turn (mutation_frame m) c = (Ok true, received_one m c).
Proof.
  intros Hm. unfold mutation_frame. cbn [mux_reader_turn]. rewrite decode_encode_frame by done.
  cbn [N.eqb Pos.eqb MSG_MUTATION_PUSH]. unfold when_parsed. rewrite from_slice_to_vec by apply Hm.
  unfold take_mutation, received_one. sm_unfold. cbn. by destruct (_ !! pm_namespace m).
Qed.

Lemma mux_reader_mutations ms (c : MuxCoordinator link) : Forall (frame_fits s_pending) ms →
  mux_reader_run (map mutation_frame ms) c = (Ok tt, foldl (λ c m, received_one m c) c ms).
Proof.
  intros Hms. revert c. induction Hms as [|m ms Hm _ IH]; intros c; [done|].
  cbn [map mux_reader_run foldl]. by rewrite (sm_bind_ok _ _ _ _ _ (mux_reader_mutation m c Hm)), IH.
Qed.

Lemma received_one_handle m (c : MuxCoordinator link) :
  mu_handle (received_one m c) = mu_handle c ∧ mu_connected (received_one m c) = mu_connected c ∧
  length (mu_streams (received_one m c)) = length (mu_streams c) ∧
  mu_link (received_one m c) = mu_link c ∧ mu_reconnect (received_one m c) = mu_reconnect c ∧
  mu_url (received_one m c) = mu_url c.
Proof.
  unfold received_one. cbn [mu_handle set_mux_active].
  destruct (mh_namespace_txs (mu_handle c) !! pm_namespace m); cbn; by rewrite ?length_alter.
Qed.

Lemma received_one_stream m ns k (c : MuxCoordinator link) : streams_apart c →
  mh_namespace_txs (mu_handle c) !! ns = Some k →
  mu_streams (received_one m c) !! k = (λ l, l ++ of_namespace ns [m]) <$> mu_streams c !! k.
Proof.
  intros [_ Hinj] Hk. unfold received_one, of_namespace, filterb. cbn [mu_handle set_mux_active List.filter].
  case_bool_decide as Hns.
  - rewrite Hns, Hk. cbn. by rewrite list_lookup_alter_eq.
  - destruct (mh_namespace_txs (mu_handle c) !! pm_namespace m) as [k'|] eqn:Hk'; cbn.
    + rewrite list_lookup_alter_ne by (intros ->; by apply Hns, (Hinj _ _ k)).
      destruct (mu_streams c !! k); simpl; by rewrite ?app_nil_r.
    + destruct (mu_streams c !! k); simpl; by rewrite ?app_nil_r.
Qed.

Lemma received_one_active m ns (c : MuxCoordinator link) :
  mu_active (received_one m c) !! ns =
  (λ cfg, foldl (λ cfg m, advance (pm_sequence m) cfg) cfg (of_namespace ns [m])) <$> mu_active c !! ns.
Proof.
  assert (mu_active (received_one m c) = alter (advance (pm_sequence m)) (pm_namespace m) (mu_active c)) as ->.
  { unfold received_one. cbn. by destruct (_ !! pm_namespace m). }
  unfold of_namespace, filterb. cbn [List.filter]. case_bool_decide as Hns.
  - rewrite Hns, lookup_alter_eq. done.
  - rewrite lookup_alter_ne by done. by destruct (mu_active c !! ns).
Qed.

Lemma of_namespace_cons ns m ms : of_namespace ns (m :: ms) = of_namespace ns [m] ++ of_namespace ns ms.
Proof. unfold of_namespace. by rewrite <-filterb_app. Qed.

(** C31: The reader task sorts what arrives over one WebSocket into the streams
    of the namespaces.  Whatever mutations the server forwards, in whatever
    interleaving of the namespaces, the stream of every subscribed namespace
    grows by exactly the mutations of that namespace, in their order; the cursor
    of every active namespace, from which a lost connection resumes, becomes the
    highest sequence received for it; and no subscriber is lost. *)
Theorem mux_demultiplexes ms (c : MuxCoordinator link) :
  streams_apart c → Forall (frame_fits s_pending) ms →
  ∃ c', mux_reader_run (map mutation_frame ms) c = (Ok tt, c') ∧ streams_apart c' ∧ mu_handle c' = mu_handle c ∧
    (∀ ns k, mh_namespace_txs (mu_handle c) !! ns = Some k →
      mu_streams c' !! k = (λ l, l ++ of_namespace ns ms) <$> mu_streams c !! k) ∧
    (∀ ns cfg, mu_active c !! ns = Some cfg →
      mu_active c' !! ns = Some (ActiveNamespaceConfig_new (an_replica_id cfg) (an_public_key cfg)
        (an_schema_version cfg) (foldl N.max (an_last_sequence cfg) (pm_sequence <$> of_namespace ns ms)))).
Proof.
  intros Hap Hms. rewrite mux_reader_mutations by done. eexists. split; [done|]. clear Hms. revert c Hap.
  induction ms as [|m ms IH]; intros c Hap; cbn [foldl].
  { split_and!; [done..| |]; intros ns x Hx; [|by destruct x].
    unfold of_namespace, filterb. cbn. destruct (mu_streams c !! x); simpl; by rewrite ?app_nil_r. }
  destruct (received_one_handle m c) as (Hh & _ & Hl & _).
  destruct (IH (received_one m c)) as (Hap' & Hh' & Hs & Ha).
  { unfold streams_apart. rewrite Hh, Hl. exact Hap. }
  rewrite Hh in *. split_and!; [done..| |].
  - intros ns k Hk. rewrite (Hs ns k Hk), (received_one_stream m ns k c Hap Hk), (of_namespace_cons ns m ms).
    destruct (mu_streams c !! k); simpl; [|done]. by rewrite app_assoc.
  - intros ns cfg Hcfg. rewrite (Ha ns (foldl (λ cfg m, advance (pm_sequence m) cfg) cfg (of_namespace ns [m])))
      by (by rewrite received_one_active, Hcfg). rewrite (of_namespace_cons ns m ms), fmap_app, foldl_app.
    assert (of_namespace ns [m] = [m] ∨ of_namespace ns [m] = []) as [-> | ->]; [|done..].
    unfold of_namespace, filterb. cbn. case_bool_decide; auto.
Qed.

(** ** Joining a namespace, on the server *)

Lemma mux_step_add_exact ch mx add ack available co (w : world C T stream) :
  ch ∉ w_gone w → frame_fits s_namespace_add add →
  mux_register_replica error_debug add w = (Ok (ack, available), set_app (set_coordinator co (w_app w)) w) →
  ∃ w', mux_step error_debug ch mx (Received (Binary (encode_frame MSG_NAMESPACE_ADD s_namespace_add add))) w =
      (Ok (Some (Mux (<[na_namespace add := na_replica_id add]> (mx_registered mx)) (mx_subs mx))), w') ∧
    answered ch (Binary (encode_frame MSG_NAMESPACE_ACK s_namespace_ack ack) ::
      snapshot_frames (na_namespace add) available) w w' ∧
    w_tasks w' = w_tasks w ∧ as_coordinator (w_app w') = co ∧
    as_sessions (w_app w') = <[(na_namespace add, na_replica_id add) := ch]> (as_sessions (w_app w)).
Proof.
  intros Hg Hf Hreg. cbn [mux_step]. unfold mux_binary. rewrite decode_encode_frame by done.
  cbn [N.eqb Pos.eqb MSG_NAMESPACE_ADD]. rewrite from_slice_to_vec by apply Hf. unfold mux_namespace_add.
  destruct (send_frame_ok ch MSG_NAMESPACE_ACK s_namespace_ack ack (set_app (set_coordinator co (w_app w)) w))
    as (w1 & Hs & [Ho1 Hg1] & Happ1 & Ht1); [done|].
  destruct (send_snapshots_ok ch (na_namespace add) available w1) as (w2 & Hs2 & [Ho2 Hg2] & Happ2 & Ht2);
    [by rewrite Hg1|].
  eexists. unfold mbind, sm_bind. rewrite Hreg. cbv beta iota. rewrite Hs. cbv beta iota. rewrite Hs2.
  split; [done|]. cbn. rewrite Ht2, Ht1, Happ2, Happ1. split_and!; [|done..].
  split; cbn; [|by rewrite Hg2, Hg1]. change (outbox ch w2 = outbox ch w ++ [Binary (encode_frame MSG_NAMESPACE_ACK
    s_namespace_ack ack)] ++ snapshot_frames (na_namespace add) available). by rewrite Ho2, Ho1, app_assoc.
Qed.

Lemma mux_step_subscribe_exact ch mx sub st co (w : world C T stream) :
  frame_fits s_subscribe sub → mx_subs mx !! sb_namespace sub = None →
  subscribe (sb_namespace sub) (sb_after sub) (as_coordinator (w_app w)) = (Ok st, co) →
  mux_step error_debug ch mx (Received (Binary (encode_frame MSG_SUBSCRIBE s_subscribe sub))) w =
    (Ok (Some (Mux (mx_registered mx) (<[sb_namespace sub := length (w_tasks w)]> (mx_subs mx)))),
     World (set_coordinator co (w_app w)) (w_out w) (w_gone w) (w_tasks w ++ [SubTask ch (Some st) None false])).
Proof.
  intros Hf Hnone Hs. cbn [mux_step]. unfold mux_binary. rewrite decode_encode_frame by done.
  cbn [N.eqb Pos.eqb MSG_SUBSCRIBE MSG_PUSH MSG_PULL MSG_SCHEMA_SYNC MSG_NAMESPACE_ADD MSG_NAMESPACE_DROP].
  rewrite from_slice_to_vec by apply Hf. unfold mux_subscribe. rewrite Hnone.
  unfold subscribe_task, coord. sm_unfold. cbn. by rewrite Hs.
Qed.

(** ** Reconnecting *)

Section reconnect.
(** A property of the coordinator, such as the contents of its logs, that a
    registration and a subscription leave as it is. *)
Context (P : C → Prop).

Record kept : Prop := {
  kp_register ns info seq co : P co → P (register ns info seq co).2;
  kp_schema_version ns co : P co → P (schema_version ns co).2;
  kp_list_snapshots ns co : P co → P (list_snapshots ns co).2;
  kp_subscribe ns after co : P co → ∃ st co', subscribe ns after co = (Ok st, co') ∧ P co';
}.
Hypothesis HP : kept.

Lemma mux_register_replica_kept add (w : world C T stream) : P (as_coordinator (w_app w)) →
  ∃ res co, mux_register_replica error_debug add w = (Ok res, set_app (set_coordinator co (w_app w)) w) ∧ P co.
Proof.
  intros Hw. unfold mux_register_replica, coord. sm_unfold.
  pose proof (kp_register HP (na_namespace add) (ReplicaInfo_new (na_replica_id add) (na_namespace add)
    (na_public_key add) (na_schema_version add)) (na_last_sequence add) _ Hw) as Hr.
  destruct (register _ _ _ (as_coordinator (w_app w))) as [[u|e] c1]; cbn in *; [|by eauto].
  pose proof (kp_schema_version HP (na_namespace add) _ Hr) as Hv.
  destruct (schema_version _ c1) as [v c2]. cbn in *.
  pose proof (kp_list_snapshots HP (na_namespace add) _ Hv) as Hl.
  destruct (list_snapshots _ c2) as [l c3]. cbn in *. by eauto.
Qed.

Lemma mux_step_add ch mx add (w : world C T stream) :
  ch ∉ w_gone w → P (as_coordinator (w_app w)) → frame_fits s_namespace_add add →
  ∃ w', mux_step error_debug ch mx (Received (Binary (encode_frame MSG_NAMESPACE_ADD s_namespace_add add))) w =
      (Ok (Some (Mux (<[na_namespace add := na_replica_id add]> (mx_registered mx)) (mx_subs mx))), w') ∧
    w_gone w' = w_gone w ∧ w_tasks w' = w_tasks w ∧ P (as_coordinator (w_app w')) ∧
    as_sessions (w_app w') = <[(na_namespace add, na_replica_id add) := ch]> (as_sessions (w_app w)).
Proof.
  intros Hg Hw Hf. destruct (mux_register_replica_kept add w Hw) as ([ack available] & co & Hreg & Hco).
  destruct (mux_step_add_exact ch mx add ack available co w Hg Hf Hreg) as (w' & Hstep & [_ Hg'] & Ht & Hc & Hse).
  exists w'. by rewrite Hg', Hc.
Qed.

Lemma mux_step_subscribe ch mx sub (w : world C T stream) :
  P (as_coordinator (w_app w)) → frame_fits s_subscribe sub → mx_subs mx !! sb_namespace sub = None →
  ∃ st co, subscribe (sb_namespace sub) (sb_after sub) (as_coordinator (w_app w)) = (Ok st, co) ∧ P co ∧
    mux_step error_debug ch mx (Received (Binary (encode_frame MSG_SUBSCRIBE s_subscribe sub))) w =
      (Ok (Some (Mux (mx_registered mx) (<[sb_namespace sub := length (w_tasks w)]> (mx_subs mx)))),
       World (set_coordinator co (w_app w)) (w_out w) (w_gone w) (w_tasks w ++ [SubTask ch (Some st) None false])).
Proof.
  intros Hw Hf Hnone. destruct (kp_subscribe HP (sb_namespace sub) (sb_after sub) _ Hw) as (st & co & Hs & Hco).
  exists st, co. split_and!; [done..|]. by apply mux_step_subscribe_exact.
Qed.

Definition rejoin_add (ns : string) (cfg : ActiveNamespaceConfig) : NamespaceAddPayload :=
  NamespaceAddPayload_new ns (an_replica_id cfg) (an_public_key cfg) (an_schema_version cfg) (an_last_sequence cfg) 1.

(** The frames with which a namespace is joined again. *)
Definition rejoin_frames_fit (ns : string) (cfg : ActiveNamespaceConfig) : Prop :=
  frame_fits s_namespace_add (rejoin_add ns cfg) ∧
  ∀ i, frame_fits s_subscribe (SubscribePayload_new (uuid i) ns (an_last_sequence cfg)).

Lemma rejoin_ok ns cfg (c : MuxCoordinator link) mx :
  let ch := sl_channel (mux_base c) in let w := mux_world c in
  ml_session (mu_link c) = Some mx → ch ∉ w_gone w → P (as_coordinator (w_app w)) → mx_subs mx !! ns = None →
  rejoin_frames_fit ns cfg →
  ∃ b w' st co co', let mx' := Mux (<[ns := an_replica_id cfg]> (mx_registered mx))
      (<[ns := length (w_tasks w)]> (mx_subs mx)) in
    rejoin ns cfg c = (Ok tt, set_mux_link (MuxLink b (Some mx')) c) ∧ sl_channel b = ch ∧ sl_world b = w' ∧
    (ch ∉ w_gone w') ∧ P (as_coordinator (w_app w')) ∧ P co ∧ subscribe ns (an_last_sequence cfg) co = (Ok st, co') ∧
    w_tasks w' = w_tasks w ++ [SubTask ch (Some st) None false] ∧
    as_sessions (w_app w') = <[(ns, an_replica_id cfg) := ch]> (as_sessions (w_app w)).
Proof.
  intros ch w Hmx Hg Hw Hnone [Fa Fs].
  destruct (mux_step_add ch mx (rejoin_add ns cfg) w Hg Hw Fa) as (w1 & Hadd & Hg1 & Ht1 & Hw1 & Hse1).
  set (mx1 := Mux _ (mx_subs mx)) in Hadd.
  pose proof (mux_write_ok MSG_NAMESPACE_ADD s_namespace_add (rejoin_add ns cfg) c mx _ w1 Hmx Hadd) as Hwr1.
  set (c1 := set_mux_link _ c) in Hwr1.
  destruct (mux_step_subscribe ch mx1 (SubscribePayload_new (uuid (sl_ids (mux_base c))) ns (an_last_sequence cfg)) w1
    Hw1 (Fs _) Hnone) as (st & co & Hsub & Hco & Hstep). cbn [sb_namespace sb_after] in *.
  set (b2 := ServerLink w1 (sl_phase (mux_base c)) ch (sl_ns (mux_base c)) (sl_read (mux_base c))
    (S (sl_ids (mux_base c)))).
  set (c2 := set_mux_link (MuxLink b2 (Some mx1)) c).
  pose proof (mux_write_ok MSG_SUBSCRIBE s_subscribe _ c2 mx1 _ _ eq_refl Hstep) as Hwr2.
  set (w2 := World _ _ _ _) in Hstep, Hwr2.
  exists (set_world w2 b2), w2, st, (as_coordinator (w_app w1)), co. split_and!; [|done|done| | | | | |].
  - unfold rejoin. rewrite (sm_bind_ok _ _ _ _ _ Hwr1), (sm_bind_ok _ _ _ _ _ (mux_draw c1)).
    change (set_mux_link _ c1) with c2. cbv zeta. rewrite (sm_bind_ok _ _ _ _ _ Hwr2). rewrite Ht1. reflexivity.
  - cbn. by rewrite Hg1.
  - done.
  - done.
  - done.
  - cbn. by rewrite Ht1.
  - done.
Qed.

(** A namespace that the session at [ch] serves again: it is registered, other
    replicas find it, and a task forwards its mutations from the cursor. *)
Definition resumed (ch : nat) (mx : mux_state) (w : world C T stream) (ns : string) (cfg : ActiveNamespaceConfig) :
    Prop :=
  mx_registered mx !! ns = Some (an_replica_id cfg) ∧
  as_sessions (w_app w) !! (ns, an_replica_id cfg) = Some ch ∧
  ∃ k st co co', mx_subs mx !! ns = Some k ∧ w_tasks w !! k = Some (SubTask ch (Some st) None false) ∧
    P co ∧ subscribe ns (an_last_sequence cfg) co = (Ok st, co').

Lemma rejoin_all_ok l (c : MuxCoordinator link) mx :
  let ch := sl_channel (mux_base c) in let w := mux_world c in
  ml_session (mu_link c) = Some mx → ch ∉ w_gone w → P (as_coordinator (w_app w)) →
  NoDup l.*1 → (∀ ns, ns ∈ l.*1 → mx_subs mx !! ns = None) → Forall (λ p, rejoin_frames_fit p.1 p.2) l →
  ∃ b mx', for_each (λ p, rejoin p.1 p.2) l c = (Ok tt, set_mux_link (MuxLink b (Some mx')) c) ∧
    sl_channel b = ch ∧ Forall (λ p, resumed ch mx' (sl_world b) p.1 p.2) l ∧
    (∀ ns cfg, ns ∉ l.*1 → resumed ch mx w ns cfg → resumed ch mx' (sl_world b) ns cfg).
Proof.
  revert c mx. induction l as [|[ns cfg] l IH]; intros c mx ch w Hmx Hg Hw Hnd Hnone Hf.
  { exists (mux_base c), mx. cbn. split_and!; [|done..]. unfold mux_base. rewrite <-Hmx. by destruct c as [????????[]]. }
  apply Forall_cons in Hf as [Hf1 Hf]. cbn [fmap list_fmap fst] in Hnd, Hnone. apply NoDup_cons in Hnd as [Hni Hnd].
  destruct (rejoin_ok ns cfg c mx Hmx Hg Hw (Hnone ns ltac:(by left)) Hf1)
    as (b & w' & st & co & co' & Hrun & Hch & Hwb & Hg' & Hw' & Hco & Hsub & Ht & Hse).
  set (mx1 := Mux _ _) in Hrun. set (c1 := set_mux_link (MuxLink b (Some mx1)) c) in Hrun. fold ch w in Hch, Hg', Ht, Hse.
  destruct (IH c1 mx1 eq_refl) as (b2 & mx2 & Hrun2 & Hch2 & Hall & Hkeep).
  { change (mux_base c1) with b. change (mux_world c1) with (sl_world b). by rewrite Hch, Hwb. }
  { change (mux_world c1) with (sl_world b). by rewrite Hwb. }
  { done. }
  { intros ns' Hns'. cbn. rewrite lookup_insert_ne by (intros ->; done). apply Hnone. by right. }
  { done. }
  change (sl_channel (mux_base c1)) with (sl_channel b) in *. change (mux_world c1) with (sl_world b) in *.
  rewrite Hch, Hwb in *. exists b2, mx2. split_and!; [|done| |].
  - cbn [for_each fst snd]. by rewrite (sm_bind_ok _ _ _ _ _ Hrun).
  - apply Forall_cons. split; [|done]. apply Hkeep; [done|]. cbn [fst snd]. split_and!.
    + cbn. by rewrite lookup_insert_eq.
    + by rewrite Hse, lookup_insert_eq.
    + exists (length (w_tasks w)), st, co, co'. split_and!; [|by rewrite Ht; apply list_lookup_middle|done..].
      cbn. by rewrite lookup_insert_eq.
  - intros ns' cfg' [Hne Hni']%not_elem_of_cons (Hr & Hs & k & st' & co1 & co2 & Hk & Htk & Hrest).
    apply Hkeep; [done|]. split_and!.
    + cbn. by rewrite lookup_insert_ne.
    + rewrite Hse, lookup_insert_ne; [done|]. intros [= -> _]. by apply Hne.
    + exists k, st', co1, co2. split_and!; [|by rewrite Ht; apply lookup_app_l_Some|apply Hrest..].
      cbn. by rewrite lookup_insert_ne.
Qed.

(** Where the server answers at a URL, its endpoint for several namespaces does. *)
Hypothesis resolve_mux : ∀ url, served (trim_slashes url) → resolve (get_ws_mux_url url) = Some (["ws"], []).

Lemma ensure_connected_ok (c : MuxCoordinator link) : served (trim_slashes (mu_url c)) → mu_connected c = false →
  let b := mux_base c in
  ensure_connected c = (Ok tt, set_connected true (set_mux_handle handle_new (set_mux_link
    (MuxLink (ServerLink (mux_world c) Ended (S (sl_channel b)) "" 0 (sl_ids b)) (Some mux_new)) c))).
Proof.
  intros Hu Hc b. unfold ensure_connected. rewrite (sm_bind_ok sm_get _ c c c eq_refl), Hc.
  assert (ws_connect (get_ws_mux_url (mu_url c)) (mu_link c) = (Ok tt, MuxLink (ServerLink (mux_world c) Ended
    (S (sl_channel b)) "" 0 (sl_ids b)) (Some mux_new))) as Hopen.
  { cbn [ws_connect mux_net mux_network]. unfold open_mux. rewrite resolve_mux by done.
    unfold serve, handle. cbn. unfold b, mux_world, mux_base. by destruct (sl_world (ml_base (mu_link c))). }
  apply mux_on_link_ok in Hopen. unfold mux_or_internal. sm_unfold. by rewrite Hopen.
Qed.

(** C14: A multiplexing client whose connection breaks resumes every namespace.
    When the server closes the socket and is there again two seconds later, the
    client is connected again; the subscribers keep the streams they hold, and
    the snapshots received stay; and for every namespace that was active the new
    session is registered under the namespace's replica, where other replicas
    find it, and has a task that forwards the coordinator's stream from the
    cursor of the namespace. *)
Theorem mux_reconnect_resumes reason (c : MuxCoordinator link) :
  let ch := S (sl_channel (mux_base c)) in
  served (trim_slashes (mu_url c)) → mu_active c ≠ ∅ → ch ∉ w_gone (mux_world c) → P (mux_log c) →
  (∀ ns cfg, mu_active c !! ns = Some cfg → rejoin_frames_fit ns cfg) →
  ∃ c' mx, (mux_reader_run [Close reason];; mux_reconnect) c = (Ok tt, c') ∧ mu_connected c' = true ∧
    mh_namespace_txs (mu_handle c') = mh_namespace_txs (mu_handle c) ∧
    mh_snapshots (mu_handle c') = mh_snapshots (mu_handle c) ∧ mu_streams c' = mu_streams c ∧
    mu_active c' = mu_active c ∧ ml_session (mu_link c') = Some mx ∧ sl_channel (mux_base c') = ch ∧
    ∀ ns cfg, mu_active c !! ns = Some cfg → resumed ch mx (mux_world c') ns cfg.
Proof.
  intros ch Hu Hact Hg Hc Hf. set (h := mu_handle c).
  set (lost := Lost (mh_namespace_txs h) (mh_snapshots h) (mu_active c)).
  set (c1 := set_mux_reconnect (Some lost) (set_connected false c)).
  assert (mux_reader_run [Close reason] c = (Ok tt, c1)) as Hend.
  { change (mux_reader_end c = (Ok tt, c1)). unfold mux_reader_end. sm_unfold. by rewrite bool_decide_false. }
  set (c2 := set_mux_reconnect None c1). pose proof (ensure_connected_ok c2 Hu eq_refl) as Hconn. cbv zeta in Hconn.
  set (c3 := set_connected true _) in Hconn.
  set (c4 := set_mux_handle (with_channels (mh_namespace_txs h ∪ ∅) (mh_snapshots h ∪ ∅) handle_new) c3).
  destruct (rejoin_all_ok (map_to_list (mu_active c)) c4 mux_new eq_refl Hg Hc) as (b & mx & Hrun & Hch & Hall & _).
  { apply NoDup_fst_map_to_list. }
  { done. }
  { apply Forall_forall. intros [ns cfg] Hin. by apply Hf, elem_of_map_to_list. }
  eexists _, mx. split.
  - rewrite (sm_bind_ok _ _ _ _ _ Hend). unfold mux_reconnect. rewrite (sm_bind_ok (sm_gets mu_reconnect) _ c1 _ c1 eq_refl).
    cbn [mu_reconnect c1 set_mux_reconnect lost]. rewrite (sm_bind_ok (sm_modify (set_mux_reconnect None)) _ c1 tt c2 eq_refl).
    rewrite (sm_bind_ok _ _ c2 (Ok tt) c3) by (unfold sm_try; by rewrite Hconn).
    rewrite (sm_bind_ok _ _ _ _ _ (with_handle_ok _ c3)). exact Hrun.
  - split_and!; [done|cbn; by rewrite map_union_empty..|done|done|done|done|].
    intros ns cfg Hcfg. rewrite Forall_forall in Hall. by apply (Hall (ns, cfg)), elem_of_map_to_list.
Qed.
End reconnect.

(** ** Subscribing *)

Lemma mux_step_schema ch mx p v co (w : world C T stream) :
  ch ∉ w_gone w → frame_fits s_schema_sync p → schema_version (sc_namespace p) (as_coordinator (w_app w)) = (Ok v, co) →
  ∃ w', mux_step error_debug ch mx (Received (Binary (encode_frame MSG_SCHEMA_SYNC s_schema_sync p))) w =
      (Ok (Some mx), w') ∧
    answered ch [Binary (encode_frame MSG_SCHEMA_MIGRATION s_schema_migration
      (migration_of (sc_namespace p) (sc_version p) v))] w w' ∧
    w_tasks w' = w_tasks w ∧ w_app w' = set_coordinator co (w_app w).
Proof.
  intros Hg Hf Hv. cbn [mux_step]. unfold mux_binary. rewrite decode_encode_frame by done.
  cbn [N.eqb Pos.eqb MSG_SCHEMA_SYNC MSG_PUSH MSG_PULL MSG_NAMESPACE_ADD MSG_NAMESPACE_DROP].
  unfold if_parsed. rewrite from_slice_to_vec by apply Hf.
  destruct (send_frame_ok ch MSG_SCHEMA_MIGRATION s_schema_migration (migration_of (sc_namespace p) (sc_version p) v)
    (set_app (set_coordinator co (w_app w)) w)) as (w' & Hs & Ho & Happ & Ht); [done|].
  assert (schema_reply ch (sc_namespace p) (sc_version p) w = (Ok tt, w')) as Hr.
  { unfold schema_reply. rewrite (sm_bind_ok _ _ _ _ _ (coord_ok_call _ _ _ _ Hv)). cbv beta iota zeta.
    change (SchemaMigrationPayload_new _ v None (sc_namespace p)) with (migration_of (sc_namespace p) (sc_version p) v).
    by rewrite (sm_bind_ok _ _ _ _ _ Hs). }
  exists w'. split; [|by rewrite Happ]. sm_unfold. by rewrite Hr.
Qed.

(** What the reader task makes of the messages of a join. *)
Lemma mux_reader_ack ack ms (c : MuxCoordinator link) :
  frame_fits s_namespace_ack ack → nk_namespace ack ∈ mh_pending_registers (mu_handle c) →
  ∃ h, mh_acks h !! nk_namespace ack = Some ack ∧ mh_namespace_txs h = mh_namespace_txs (mu_handle c) ∧
    mux_reader_run (Binary (encode_frame MSG_NAMESPACE_ACK s_namespace_ack ack) :: ms) c =
      mux_reader_run ms (set_mux_max (nk_max_sequence ack) (set_mux_handle h c)).
Proof.
  intros Hf Hin. eexists. split; [|split]; [| |cbn [mux_reader_run mux_reader_turn]; rewrite decode_encode_frame by done;
    cbn [N.eqb Pos.eqb MSG_NAMESPACE_ACK MSG_MUTATION_PUSH MSG_SNAPSHOT]; unfold when_parsed;
    rewrite from_slice_to_vec by apply Hf; unfold take_ack, with_handle; sm_unfold; cbn [mu_handle set_mux_max
      set_mux_handle mh_pending_registers with_server_info]; rewrite bool_decide_true by done; reflexivity].
  - cbn. by rewrite lookup_insert_eq.
  - done.
Qed.

Lemma mux_reader_migration mig (c : MuxCoordinator link) :
  frame_fits s_schema_migration mig → mg_namespace mig ∈ mh_pending_schema_syncs (mu_handle c) →
  ∃ h, mh_migrations h !! mg_namespace mig = Some mig ∧ mh_namespace_txs h = mh_namespace_txs (mu_handle c) ∧
    mux_reader_run [Binary (encode_frame MSG_SCHEMA_MIGRATION s_schema_migration mig)] c = (Ok tt, set_mux_handle h c).
Proof.
  intros Hf Hin. eexists. split; [|split]; [| |cbn [mux_reader_run mux_reader_turn]; rewrite decode_encode_frame by done;
    cbn [N.eqb Pos.eqb MSG_SCHEMA_MIGRATION MSG_NAMESPACE_ACK MSG_MUTATION_PUSH MSG_SNAPSHOT]; unfold when_parsed;
    rewrite from_slice_to_vec by apply Hf; unfold take_migration, with_handle; sm_unfold; cbv beta iota;
    rewrite bool_decide_true by done; reflexivity].
  - cbn. by rewrite lookup_insert_eq.
  - done.
Qed.

Lemma mux_reader_snapshots ns snaps (c : MuxCoordinator link) :
  Forall (λ s, frame_fits s_snapshot_payload (snapshot_payload ns s)) snaps →
  ∃ cached, mux_reader_run (snapshot_frames ns snaps) c =
    (Ok tt, set_mux_handle (with_channels (mh_namespace_txs (mu_handle c)) cached (mu_handle c)) c).
Proof.
  intros Hs. revert c. induction Hs as [|s snaps Hf _ IH]; intros c.
  { exists (mh_snapshots (mu_handle c)). by destruct c as [???[]]. }
  cbn [snapshot_frames map mux_reader_run mux_reader_turn]. rewrite decode_encode_frame by done.
  cbn [N.eqb Pos.eqb MSG_MUTATION_PUSH MSG_SNAPSHOT]. unfold when_parsed. rewrite from_slice_to_vec by apply Hf.
  unfold take_snapshot. destruct (verify_checksum _).
  - edestruct IH as [cached Hrun]. exists cached. unfold with_handle. sm_unfold. cbv beta iota.
    etransitivity; [exact Hrun|]. done.
  - destruct (IH c) as [cached Hrun]. exists cached. sm_unfold. exact Hrun.
Qed.

(** A client that differs at most in its socket and in what the reader task
    keeps for calls. *)
Record quiet (c c' : MuxCoordinator link) : Prop := {
  qu_connected : mu_connected c' = mu_connected c;
  qu_active : mu_active c' = mu_active c;
  qu_streams : mu_streams c' = mu_streams c;
  qu_txs : mh_namespace_txs (mu_handle c') = mh_namespace_txs (mu_handle c);
}.

(** The other end of the socket: the session, its channel, which is open and
    read up to its end, and the server. *)
Record socket (c : MuxCoordinator link) (mx : mux_state) (ch : nat) (w : world C T stream) : Prop := {
  so_session : ml_session (mu_link c) = Some mx;
  so_channel : sl_channel (mux_base c) = ch;
  so_world : mux_world c = w;
  so_read : sl_read (mux_base c) = length (outbox ch w);
  so_open : ch ∉ w_gone w;
}.

(** A frame, the messages with which the session answers, and what the reader
    task makes of them. *)
Lemma mux_exchange {A} t (s : serde A) a (c : MuxCoordinator link) mx ch w mx' w' msgs :
  socket c mx ch w → mux_step error_debug ch mx (Received (Binary (encode_frame t s a))) w = (Ok (Some mx'), w') →
  answered ch msgs w w' →
  ∃ l, socket (set_mux_link l c) mx' ch w' ∧
    ∀ B (f : MuxWsHandle → option B) x c', mux_reader_run msgs (set_mux_link l c) = (Ok tt, c') →
      f (mu_handle c') = Some x → (mux_or_internal (ws_write (encode_frame t s a));; await_within f) c = (Ok x, c').
Proof.
  intros [Hmx Hch Hw Hread Hopen] Hstep [Ho Hg]. subst ch w.
  pose proof (mux_write_ok t s a c mx _ w' Hmx Hstep) as Hwr. unfold mux_write in Hwr.
  set (c1 := set_mux_link _ c) in Hwr.
  pose proof (mux_arrivals_run msgs c1) as Harr. change (mux_world c1) with w' in Harr.
  change (sl_read (mux_base c1)) with (sl_read (mux_base c)) in Harr.
  change (sl_channel (mux_base c1)) with (sl_channel (mux_base c)) in Harr.
  rewrite Hread, Ho, drop_app_length in Harr. specialize (Harr eq_refl). rewrite <-Ho in Harr.
  set (l := MuxLink _ _) in Harr. change (set_mux_link l c1) with (set_mux_link l c) in Harr. exists l. split.
  - split; try done. by rewrite Hg.
  - intros B f x c' Hrun Hx. unfold mux_or_internal. sm_unfold. rewrite Hwr. unfold await_within. sm_unfold.
    rewrite Harr, Hrun. by rewrite Hx.
Qed.

Lemma sm_seq_bind {St E A B} (m : SM St E unit) (a : SM St E A) (k : A → SM St E B) s x s' :
  (m;; a) s = (Ok x, s') → (m;; (a ≫= k)) s = k x s'.
Proof. sm_unfold. destruct (m s) as [[[]|e] s1]; [|done]. by intros ->. Qed.

(** The frames of a join and of the subscription after it. *)
Record join_frames_fit (add : NamespaceAddPayload) (ack : NamespaceAckPayload) (available : list Snapshot) (v : N) :
    Prop := {
  jf_add : frame_fits s_namespace_add add;
  jf_ack : frame_fits s_namespace_ack ack;
  jf_snapshots : Forall (λ s, frame_fits s_snapshot_payload (snapshot_payload (na_namespace add) s)) available;
  jf_sync : frame_fits s_schema_sync (SchemaSyncPayload_new (na_namespace add) (na_schema_version add));
  jf_migration : frame_fits s_schema_migration (migration_of (na_namespace add) (na_schema_version add) v);
  jf_subscribe : ∀ i, frame_fits s_subscribe (SubscribePayload_new (uuid i) (na_namespace add) (na_last_sequence add));
}.

(** The acknowledgement of a registration names its namespace. *)
Lemma mux_ack_namespace add (w w' : world C T stream) ack available :
  mux_register_replica error_debug add w = (Ok (ack, available), w') → nk_namespace ack = na_namespace add.
Proof.
  unfold mux_register_replica, coord. sm_unfold. destruct (register _ _ _ _) as [[u|e] c1]; cbn; [|by intros [= <- _ _]].
  destruct (schema_version _ c1) as [vr c2]. cbn. destruct (list_snapshots _ c2) as [lr c3]. cbn. by intros [= <- _ _].
Qed.

(** [add_namespace] when the server accepts the replica. *)
Lemma add_namespace_ok ns replica key version last (c : MuxCoordinator link) mx ch w ack available co v co' :
  let add := NamespaceAddPayload_new ns replica key version last 1 in
  mu_connected c = true → socket c mx ch w →
  mux_register_replica error_debug add w = (Ok (ack, available), set_app (set_coordinator co (w_app w)) w) →
  nk_status ack = "ok" → schema_version ns co = (Ok v, co') → join_frames_fit add ack available v →
  ∃ c' w', quiet c c' ∧ socket c' (Mux (<[ns := replica]> (mx_registered mx)) (mx_subs mx)) ch w' ∧
    as_coordinator (w_app w') = co' ∧ w_tasks w' = w_tasks w ∧
    as_sessions (w_app w') = <[(ns, replica) := ch]> (as_sessions (w_app w)) ∧
    add_namespace ns replica key version last c =
      if (version =? v)%N then (Ok tt, set_mux_active (<[ns := ActiveNamespaceConfig_new replica key version last]>
        (mu_active c')) c')
      else (Err (Failed SchemaMismatch), c').
Proof.
  intros add Hup Hso Hreg Hst Hv [Fa Fk Fs Fy Fm _]. pose proof (mux_ack_namespace _ _ _ _ _ Hreg) as Hns.
  destruct (mux_step_add_exact ch mx add ack available co w (so_open _ _ _ _ Hso) Fa Hreg)
    as (w1 & Hstep1 & Hans1 & Ht1 & Hc1 & Hse1).
  set (c1 := set_mux_handle (with_registers ({[ns]} ∪ mh_pending_registers (mu_handle c)) (delete ns (mh_acks (mu_handle c)))
    (mu_handle c)) c).
  destruct (mux_exchange MSG_NAMESPACE_ADD s_namespace_add add c1 mx ch w _ w1 _ ltac:(by destruct Hso; split) Hstep1 Hans1)
    as (l1 & Hso1 & Hex1).
  destruct (mux_reader_ack ack (snapshot_frames ns available) (set_mux_link l1 c1) Fk) as (h1 & Hack & Htx1 & Hrun1).
  { rewrite Hns. by apply elem_of_union_l, elem_of_singleton. }
  destruct (mux_reader_snapshots ns available (set_mux_max (nk_max_sequence ack) (set_mux_handle h1 (set_mux_link l1 c1))) Fs)
    as (cached & Hrun2).
  rewrite Hrun2 in Hrun1. set (c2 := set_mux_handle _ _) in Hrun1.
  specialize (Hex1 _ (λ h, mh_acks h !! ns) ack c2 Hrun1 ltac:(cbn; by rewrite <-Hack, Hns)).
  set (c3 := set_mux_handle (with_schema_syncs ({[ns]} ∪ mh_pending_schema_syncs (mu_handle c2))
    (delete ns (mh_migrations (mu_handle c2))) (mu_handle c2)) c2).
  destruct (mux_step_schema ch (Mux (<[ns := replica]> (mx_registered mx)) (mx_subs mx)) (SchemaSyncPayload_new ns version)
    v co' w1) as (w2 & Hstep2 & Hans2 & Ht2 & Happ2); [by destruct Hso1|done|by rewrite Hc1|].
  destruct (mux_exchange MSG_SCHEMA_SYNC s_schema_sync (SchemaSyncPayload_new ns version) c3 _ ch w1 _ w2 _
    ltac:(by destruct Hso1; split) Hstep2 Hans2) as (l2 & Hso2 & Hex2). cbn [sc_namespace sc_version] in *.
  destruct (mux_reader_migration (migration_of ns version v) (set_mux_link l2 c3) Fm) as (h2 & Hmig & Htx2 & Hrun3).
  { by apply elem_of_union_l, elem_of_singleton. }
  specialize (Hex2 _ (λ h, mh_migrations h !! ns) _ _ Hrun3 Hmig).
  set (c' := set_mux_handle h2 (set_mux_link l2 c3)) in *. exists c', w2. split_and!.
  - split; cbn; [done..|]. by rewrite Htx2; cbn; rewrite Htx1.
  - by destruct Hso2; split.
  - by rewrite Happ2.
  - by rewrite Ht2, Ht1.
  - rewrite Happ2. exact Hse1.
  - unfold add_namespace. rewrite (sm_bind_ok ensure_connected _ c tt c) by (unfold ensure_connected; sm_unfold; by rewrite Hup).
    rewrite (sm_bind_ok _ _ _ _ _ (with_handle_ok _ c)), (sm_seq_bind _ _ _ _ _ _ Hex1), Hst.
    rewrite bool_decide_true by done. cbn [negb].
    rewrite (sm_bind_ok _ _ _ _ _ (with_handle_ok _ c2)), (sm_seq_bind _ _ _ _ _ _ Hex2), migration_status.
    by destruct (version =? v)%N.
Qed.

Lemma streams_apart_insert ns (c c' : MuxCoordinator link) : streams_apart c →
  mh_namespace_txs (mu_handle c') = <[ns := length (mu_streams c)]> (mh_namespace_txs (mu_handle c)) →
  mu_streams c' = mu_streams c ++ [[]] → streams_apart c'.
Proof.
  intros [Hlt Hinj] Htx Hs. unfold streams_apart. rewrite Htx, Hs, length_app. split.
  - intros ns' k [[<- <-]|[Hne Hk]]%lookup_insert_Some; [simpl; lia|]. specialize (Hlt _ _ Hk). lia.
  - intros n1 n2 k [[<- <-]|[Hne1 Hk1]]%lookup_insert_Some [[<- Heq]|[Hne2 Hk2]]%lookup_insert_Some; [done|..].
    + specialize (Hlt _ _ Hk2). lia.
    + subst k. specialize (Hlt _ _ Hk1). lia.
    + by eapply Hinj.
Qed.

(** A subscription over the multiplexed WebSocket, on a server that accepts
    the replica.  The client joins the namespace with schema version 0, whatever
    version its replica has.  If the version of the namespace is 0, the
    subscriber gets a new, empty stream, apart from those of all other
    subscribers, to which the reader task hands the mutations of the namespace;
    the namespace is active with the cursor of the call; and the session has a
    task that forwards the coordinator's stream from that cursor.  If it is not
    0, the subscription is never multiplexed: it falls back to the server's
    events, and no stream and no active namespace is left behind. *)
Theorem mux_subscription_opens ns replica after (c : MuxCoordinator link) mx ch w ack available co v co' st co'' :
  let add := NamespaceAddPayload_new ns replica [] 0 after 1 in let k := length (mu_streams c) in
  mu_connected c = true → socket c mx ch w → streams_apart c → mx_subs mx !! ns = None →
  mux_register_replica error_debug add w = (Ok (ack, available), set_app (set_coordinator co (w_app w)) w) →
  nk_status ack = "ok" → schema_version ns co = (Ok v, co') → subscribe ns after co' = (Ok st, co'') →
  join_frames_fit add ack available v →
  ∃ c', if (v =? 0)%N then
      mux_client_subscribe ns replica after c = (Ok (FromMux k), c') ∧ streams_apart c' ∧
      mh_namespace_txs (mu_handle c') = <[ns := k]> (mh_namespace_txs (mu_handle c)) ∧
      mu_streams c' = mu_streams c ++ [[]] ∧
      mu_active c' = <[ns := ActiveNamespaceConfig_new replica [] 0 after]> (mu_active c) ∧
      ∃ mx', ml_session (mu_link c') = Some mx' ∧ mx_subs mx' !! ns = Some (length (w_tasks w)) ∧
        w_tasks (mux_world c') = w_tasks w ++ [SubTask ch (Some st) None false] ∧ mux_log c' = co''
    else mux_client_subscribe ns replica after c = (Ok FromEvents, c') ∧ quiet c c'.
Proof.
  intros add k Hup Hso Hap Hnone Hreg Hst Hv Hsub Hf. pose proof (jf_subscribe _ _ _ _ Hf) as Fb.
  destruct (add_namespace_ok ns replica [] 0 after c mx ch w ack available co v co' Hup Hso Hreg Hst Hv Hf)
    as (c1 & w1 & [Qc Qa Qs Qt] & [Sm Sc Sw Sr So] & Hc1 & Ht1 & _ & Hadd).
  unfold mux_client_subscribe. rewrite N.eqb_sym. destruct (0 =? v)%N.
  2:{ exists c1. split; [|by split]. unfold sm_try. rewrite (sm_bind_ok _ _ _ (Err (Failed SchemaMismatch)) c1); [done|].
      by rewrite Hadd. }
  set (c2 := set_mux_active _ c1) in Hadd.
  rewrite (sm_bind_ok _ _ _ (Ok tt) c2) by (unfold sm_try; by rewrite Hadd).
  rewrite (sm_bind_ok ensure_connected _ c2 tt c2) by (unfold ensure_connected; sm_unfold; cbn; by rewrite Qc, Hup).
  rewrite (sm_bind_ok (sm_gets _) _ c2 k c2) by (sm_unfold; cbn; by rewrite Qs).
  set (c3 := set_mux_streams (mu_streams c2 ++ [[]]) c2).
  rewrite (sm_bind_ok (sm_modify (λ c, set_mux_streams (mu_streams c ++ [[]]) c)) _ c2 tt c3 eq_refl).
  rewrite (sm_bind_ok _ _ _ _ _ (with_handle_ok _ c3)). set (c4 := set_mux_handle _ c3).
  rewrite (sm_bind_ok _ _ _ _ _ (mux_draw c4)). cbv zeta. set (c5 := set_mux_link _ c4).
  set (sub := SubscribePayload_new (uuid (sl_ids (mux_base c4))) ns after).
  pose proof (mux_step_subscribe_exact ch (Mux (<[ns := replica]> (mx_registered mx)) (mx_subs mx)) sub st co'' w1
    (Fb _) Hnone ltac:(by rewrite Hc1)) as Hstep.
  rewrite Ht1 in Hstep. pose proof (λ mx' w', mux_write_ok MSG_SUBSCRIBE s_subscribe sub c5 _ mx' w' Sm) as Hwr.
  change (sl_channel (mux_base c5)) with (sl_channel (mux_base c1)) in Hwr.
  change (mux_world c5) with (mux_world c1) in Hwr. rewrite Sc, Sw in Hwr.
  rewrite (sm_bind_ok _ _ _ _ _ (Hwr _ _ Hstep)). eexists. split; [done|]. split_and!.
  - eapply streams_apart_insert; [exact Hap| |]; cbn; by rewrite ?Qt, ?Qs.
  - cbn. by rewrite Qt.
  - cbn. by rewrite Qs.
  - cbn. by rewrite Qa.
  - eexists. split; [done|]. cbn. by rewrite lookup_insert_eq.
Qed.

(** An empty push over the multiplexed WebSocket never returns.  The server
    takes the namespace of a push from its first mutation, and answers a push
    without one with nothing; the client waits for the answer without a time
    limit.  (Over HTTP the same call returns an empty list.) *)
Theorem mux_empty_push_hangs n ns (c : MuxCoordinator link) :
  let req := uuid (sl_ids (mux_base c)) in
  mux_up n c → mh_replies (mu_handle c) !! req = None → frame_fits s_push (PushPayload_new req []) →
  ∃ c', mux_client_push status_display ns [] c = (Err Hangs, c') ∧ mux_world c' = mux_world c.
Proof.
  intros req [Hup [mx Hmx] Hread Hopen _ _] Hnew Hf.
  assert (mux_step error_debug (sl_channel (mux_base c)) mx
    (Received (Binary (encode_frame MSG_PUSH s_push (PushPayload_new req [])))) (mux_world c) =
    (Ok (Some mx), mux_world c)) as Hstep.
  { cbn [mux_step]. unfold mux_binary. rewrite decode_encode_frame by done.
    cbn [N.eqb Pos.eqb MSG_PUSH MSG_NAMESPACE_ADD MSG_NAMESPACE_DROP]. unfold if_parsed.
    rewrite from_slice_to_vec by apply Hf. done. }
  unfold mux_client_push, mux_request. eexists. split.
  - unfold mbind at 1, sm_bind at 1. rewrite (sm_bind_ok (sm_gets mu_connected) _ c true c) by (sm_unfold; by rewrite Hup).
    rewrite (sm_bind_ok _ _ _ _ _ (mux_draw c)). cbv zeta. rewrite (sm_bind_ok _ _ _ _ _ (with_handle_ok _ _)).
    set (c1 := set_mux_handle _ _).
    rewrite (sm_bind_ok _ _ _ _ _ (mux_write_ok MSG_PUSH s_push (PushPayload_new req []) c1 mx _ _ Hmx Hstep)).
    set (c2 := set_mux_link _ c1).
    assert (drop (sl_read (mux_base c2)) (outbox (sl_channel (mux_base c2)) (mux_world c2)) = []) as Hnone.
    { change (drop (sl_read (mux_base c)) (outbox (sl_channel (mux_base c)) (mux_world c)) = []).
      by rewrite Hread, drop_all. }
    pose proof (mux_arrivals_run [] c2 Hnone) as Harr. cbn [mux_reader_run] in Harr.
    rewrite (sm_bind_ok _ _ _ _ _ Harr), (sm_bind_ok (sm_gets mu_handle) _ _ _ _ eq_refl).
    change (mh_replies _ !! _) with (mh_replies (mu_handle c) !! req). rewrite Hnew. reflexivity.
  - done.
Qed.
End mux.

(** ** The client of the sample server *)

#[local] Existing Instance plain_hash.
#[local] Existing Instance tagged_json.
#[local] Existing Instance tagged_json_spec.
#[local] Existing Instance plain_axum.
#[local] Existing Instance sample_codec.
#[local] Existing Instance plain_stack.
#[local] Existing Instance plain_stack_spec.

Abbreviation sample_mux_client := (MuxCoordinator (mux_link InMemoryCoordinator.t MemoryTokenStore.t stream)).

(** A client with an open socket, and the same with two subscribers. *)
Definition sample_mux : sample_mux_client :=
  set_connected true (mux_client_new "http://s/" None (MuxLink (ServerLink sample_world Ended 1 "" 0 0) (Some mux_new))).
Definition sample_subscribed : sample_mux_client :=
  set_mux_streams [[]; []] (set_mux_active
    {[ "n" := ActiveNamespaceConfig_new "r" [] 0 0; "o" := ActiveNamespaceConfig_new "r" [] 0 7 ]}
    (set_mux_handle (with_channels {[ "n" := 0; "o" := 1 ]} ∅ handle_new) sample_mux)).

Definition mutation_of (ns id : string) : EncryptedMutation := EncryptedMutation_new id ns "r" "d" "1" [7%N] 5 1 1.
Definition sample_mux_calls : list (string * net_call) :=
  [("n", NPush [mutation_of "n" "m1"]); ("o", NPush [mutation_of "o" "m2"]); ("n", NPull 0 10); ("o", NPull 0 10)].

Lemma sample_mux_up n : (N.of_nat n < U64_MAX)%N → mux_up n sample_mux.
Proof.
  intros Hn. split; [done|by eexists|reflexivity|apply not_elem_of_empty|by apply coord_ok_new|]. intros ns. constructor.
Qed.

Lemma mutation_of_fits ns id : fits s_encrypted (mutation_of ns id).
Proof. repeat split; try discriminate. by apply Forall_singleton. Qed.

Lemma sample_push_fits ns id : length (to_vec (to_value s_push (PushPayload_new "q" [mutation_of ns id]))) < 1000 →
  push_frames_fit "q" [mutation_of ns id].
Proof.
  intros Hl. split; [split; [split; [exact I|apply Forall_singleton, mutation_of_fits]|lia]|].
  intros [|s [|]] Hlen Hf; try discriminate Hlen. apply sample_ack_fits. by apply (proj1 (Forall_singleton _ _)).
Qed.

Lemma sample_pull_fits ns id seq : (seq ≤ U64_MAX)%N →
  (length (to_vec (to_value s_pull (PullPayload_new "q" ns 0 10))) <? 1000) &&
  (length (to_vec (to_value s_pull_response (PullResponsePayload_new "q" [InMemoryCoordinator.to_pending ns seq
    (mutation_of ns id)] false))) <? 1000) = true →
  pull_frames_fit "q" ns 0 10 [InMemoryCoordinator.to_pending ns seq (mutation_of ns id)].
Proof.
  intros Hs [H1%Nat.ltb_lt H2%Nat.ltb_lt]%andb_true_iff.
  split; split; [|lia| |change (length [_] =? 10) with false; lia].
  - repeat split; discriminate.
  - split; [split; [exact I|]|exact I]. apply Forall_singleton, to_pending_fits; [done|apply mutation_of_fits].
Qed.

Lemma mux_coordinator_refines_logs_witness :
  ∃ c', mux_calls (λ _, "") (λ _, "q") (λ _, "") sample_mux_calls sample_mux =
    (Ok [Pushed [1%N]; Pushed [2%N]; Pulled [InMemoryCoordinator.to_pending "n" 1 (mutation_of "n" "m1")];
         Pulled [InMemoryCoordinator.to_pending "o" 2 (mutation_of "o" "m2")]], c').
Proof.
  destruct (mux_coordinator_refines_logs (λ _, "") (λ _, "q") (λ _, "") sample_mux_calls sample_mux (λ _, []))
    as (c' & Hrun & _).
  - by apply sample_mux_up.
  - reflexivity.
  - split; [reflexivity|]. split; [discriminate|]. split; [intros i; apply sample_push_fits; vm_compute; lia|].
    split; [reflexivity|]. split; [discriminate|]. split; [intros i; apply sample_push_fits; vm_compute; lia|].
    split; [reflexivity|]. split; [intros i; by apply (sample_pull_fits "n" "m1" 1)|].
    split; [reflexivity|]. split; [intros i; by apply (sample_pull_fits "o" "m2" 2)|]. exact I.
  - exists c'. exact Hrun.
Defined.

Lemma mux_empty_push_hangs_witness :
  ∃ c', mux_client_push (HL := mux_network (λ _, "") (λ _, "q")) (λ _, "") "n" [] sample_mux = (Err Hangs, c').
Proof.
  destruct (mux_empty_push_hangs (λ _, "") (λ _, "q") (λ _, "") 0 "n" sample_mux) as (c' & Hrun & _).
  - by apply sample_mux_up.
  - reflexivity.
  - split; [split; [exact I|constructor]|vm_compute; reflexivity].
  - exists c'. exact Hrun.
Defined.

Lemma sample_streams_apart : streams_apart sample_subscribed.
Proof.
  assert (∀ ns k, mh_namespace_txs (mu_handle sample_subscribed) !! ns = Some k → ns = "n" ∧ k = 0 ∨ ns = "o" ∧ k = 1)
    as Htx.
  { intros ns k Hk. change (({[ "n" := 0; "o" := 1 ]} : gmap string nat) !! ns = Some k) in Hk.
    apply lookup_insert_Some in Hk as [[<- <-]|[_ [<- <-]%lookup_singleton_Some]]; auto. }
  split; [intros ns k [[-> ->]|[-> ->]]%Htx; simpl; lia|].
  intros ns ns' k [[-> ->]|[-> ->]]%Htx [[-> ?]|[-> ?]]%Htx; done.
Qed.

Lemma mux_demultiplexes_witness :
  let m1 := InMemoryCoordinator.to_pending "n" 3 (mutation_of "n" "m1") in
  let m2 := InMemoryCoordinator.to_pending "o" 9 (mutation_of "o" "m2") in
  ∃ c', mux_reader_run (map mutation_frame [m1; m2]) sample_subscribed = (Ok tt, c') ∧ mu_streams c' !! 1 = Some [m2] ∧
    mu_active c' !! "n" = Some (ActiveNamespaceConfig_new "r" [] 0 3).
Proof.
  intros m1 m2. destruct (mux_demultiplexes [m1; m2] sample_subscribed) as (c' & Hrun & _ & _ & Hs & Ha).
  - exact sample_streams_apart.
  - apply Forall_cons_2; [|apply Forall_cons_2; [|constructor]]; (split; [by apply to_pending_fits; [|apply mutation_of_fits]|
      vm_compute; reflexivity]).
  - exists c'. split; [exact Hrun|]. split; [exact (Hs "o" 1 eq_refl)|exact (Ha "n" _ eq_refl)].
Defined.

(** Registrations and subscriptions leave the log of the in-memory coordinator
    as it is. *)
Lemma in_memory_kept o : kept (λ co, InMemoryCoordinator.ops co = o).
Proof.
  split.
  - intros ns info seq co <-. cbn. unfold InMemoryCoordinator.register, InMemoryCoordinator.lock, rw_lock. sm_unfold.
    by repeat (case_match; simplify_eq/=).
  - intros ns co <-. cbn. unfold InMemoryCoordinator.schema_version, InMemoryCoordinator.lock, rw_lock. sm_unfold.
    by repeat (case_match; simplify_eq/=).
  - intros ns co <-. cbn. unfold InMemoryCoordinator.list_snapshots, InMemoryCoordinator.lock, rw_lock. sm_unfold.
    by repeat (case_match; simplify_eq/=).
  - intros ns after co <-. by eexists _, _.
Qed.

Lemma plain_resolve_mux url : served (trim_slashes url) → resolve (get_ws_mux_url url) = Some (["ws"], []).
Proof. intros Hu. unfold get_ws_mux_url. change (trim_slashes url = "http://s") in Hu. by rewrite Hu. Qed.

Lemma mux_reconnect_resumes_witness :
  ∃ c' mx, (mux_reader_run [Close None];; mux_reconnect (HL := mux_network (λ _, "") (λ _, "q"))) sample_subscribed =
      (Ok tt, c') ∧
    resumed (λ co, InMemoryCoordinator.ops co = InMemoryCoordinator.ops InMemoryCoordinator.new) 2 mx (mux_world c') "o"
      (ActiveNamespaceConfig_new "r" [] 0 7).
Proof.
  destruct (mux_reconnect_resumes (λ _, "") (λ _, "q") _ (in_memory_kept (InMemoryCoordinator.ops InMemoryCoordinator.new))
    plain_resolve_mux None sample_subscribed) as (c' & mx & Hrun & _ & _ & _ & _ & _ & _ & _ & Hres).
  - reflexivity.
  - intros H. apply (f_equal (lookup "n")) in H. discriminate H.
  - apply not_elem_of_empty.
  - reflexivity.
  - intros ns cfg Hcfg. change (({[ "n" := ActiveNamespaceConfig_new "r" [] 0 0; "o" := ActiveNamespaceConfig_new "r" [] 0 7 ]}
      : gmap string ActiveNamespaceConfig) !! ns = Some cfg) in Hcfg.
    apply lookup_insert_Some in Hcfg as [[<- <-]|[_ [<- <-]%lookup_singleton_Some]];
      (split; [|intros i]); (split; [repeat split; (discriminate || constructor)|vm_compute; reflexivity]).
  - exists c', mx. split; [exact Hrun|exact (Hres "o" _ eq_refl)].
Defined.

Definition sample_join : NamespaceAddPayload := NamespaceAddPayload_new "n" "r" [] 0 0 1.
Definition sample_joined := mux_register_replica (λ _, "") sample_join sample_world.
Definition sample_join_ack : NamespaceAckPayload := NamespaceAckPayload_new "n" "ok" 0 false 0 None false 0.

Lemma mux_subscription_opens_witness :
  ∃ c', mux_client_subscribe (HL := mux_network (λ _, "") (λ _, "q")) "n" "r" 0 sample_mux = (Ok (FromMux 0), c') ∧
    mu_streams c' = [[]] ∧ streams_apart c'.
Proof.
  set (co := as_coordinator (w_app sample_joined.2)).
  destruct (mux_subscription_opens (λ _, "") (λ _, "q") "n" "r" 0 sample_mux mux_new 1 sample_world sample_join_ack [] co 0
    co (Subscribe.subscribe "n" 0 co) co) as (c' & Hrun & Hap & _ & Hs & _).
  - reflexivity.
  - split; [reflexivity..|apply not_elem_of_empty].
  - split; intros ns; intros; discriminate.
  - reflexivity.
  - vm_compute. reflexivity.
  - reflexivity.
  - vm_compute. reflexivity.
  - reflexivity.
  - split; [..|constructor| | |intros i];
      (split; [repeat split; (discriminate || constructor)|vm_compute; reflexivity]).
  - exists c'. split; [exact Hrun|]. split; [exact Hs|exact Hap].
Defined.
